(* ===== verification/_CoqProject ===== *)
-Q . S2P
Prelude.v
Domain.v
Errors.v
Event.v
Lifecycle.v
LifecycleFacts.v
Assignment.v
Query.v
Outbox.v
Store.v
MemStore.v
MemStoreFacts.v
Ident.v
Schema.v
Registry.v
Service.v
ServiceFacts.v
ServiceReads.v
EngineInvariant.v
Sweep.v
EngineExamples.v
Kind.v
Construct.v
Float64.v
Relay.v
RelayFacts.v
Backoff.v
Calendar.v
Sqlkit.v
SqlBuilder.v
SqlPrint.v
SqlPrintFacts.v
SqlMeaning.v
SqlQuery.v
SqlLease.v
SqlScan.v
SqlExamples.v
Transport.v
TransportFacts.v
Route.v
Json.v
Webhook.v
WebhookFacts.v
Interaction.v
Text.v
RedisSink.v
RedisFacts.v
NatsSink.v
NatsFacts.v
SqlStore.v
SqlStoreFacts.v
SqlStoreTasks.v
SqlStoreOutbox.v
SqlStoreRefines.v
SqlDrivers.v
SqlAdapters.v
Notification.v
Collections.v
NotifyStore.v
NotifyStoreFacts.v
NotifyPrune.v
NotifyList.v
NotifyService.v
NotifyInvariant.v
NotifyExamples.v
NotifyEmail.v
NotifyEmailFacts.v
NotifyEmailOnce.v
NotifyEmailPass.v
TaskNotify.v
TaskNotifyFacts.v
TaskNotifyDeliver.v
NotifyHub.v
NotifyHubFacts.v
NotifyHttp.v
NotifyHttpFacts.v
Broadcast.v
BroadcastFacts.v
Ticker.v
