(* ===== verification/Prelude.v ===== *)
(** * hmntsk: a verification library for the human task engine

    hmntsk is a library for human tasks: units of work a person claims, starts
    and completes, with deadlines, candidate pools, a durable event outbox, a
    deadline sweep, a relay that delivers the events, a REST contract, and a
    notification library beside it.  This development models the engine, its
    in-memory and SQL stores, the relay and its sinks, the REST contract and the
    notification library, and proves what makes them correct.

    ** The program and the files: the engine

    - [Domain.v], [Event.v], [Errors.v]: the values of [status.go], [task.go],
      [correlation.go], [escalation_policy.go], [transition_table.go],
      [history.go], [event.go] and [errors.go].
    - [Lifecycle.v], [LifecycleFacts.v]: the state machine of [transitions.go].
      Each operation is one function of a task; [Command] and [exec] gather them,
      and [next_task], [next_event] state what each does.  [TaskWf] is the
      invariant of a stored task, [HistoryOk] that of its history.
    - [Assignment.v]: [assignment.go]: who is eligible, the expansion of a pool,
      placement at creation, authorization.  The host's directory is a
      [GroupResolver.t]; [CoherentDirectory] is what a directory should satisfy.
    - [Query.v]: [query.go] and the evaluation of queries in
      [memstore/memstore.go]: filters, orderings, cursors, pages.
    - [Outbox.v]: [outbox.go]: recorded events and how a settlement changes one.
    - [Store.v]: the ports of [ports.go].  [Ledger] is the abstract state of a
      store (tasks, histories, events) with one operation per write; the classes
      [Store], [StoreModel] and [StoreLaws] say when a store implements it, its
      transactions included.  The engine is proved against these laws only.
    - [MemStore.v], [MemStoreFacts.v]: [memstore/]: the in-memory store with its
      staged transactions, and the proof that it keeps the laws.
    - [Ident.v]: [id.go]: the UUIDv7 generator to the byte; [fresh] is what the
      engine needs of any generator.
    - [Schema.v], [Registry.v]: [schema.go], [registry.go], [create.go]: schema
      relaxation, the type registry, the template of a new task.
    - [Service.v], [ServiceFacts.v], [ServiceReads.v]: [service.go], [patch.go],
      [relayport.go]: the transactional pipeline every operation runs, creation,
      reads and counts.
    - [EngineInvariant.v]: the invariant of everything the engine commits, over
      any sequence of operations.
    - [Sweep.v]: [sweep.go]: the deadline sweep, with other callers in between.
    - [Construct.v], [Kind.v]: the construction of a service, and typed handles on
      a task type ([kind.go]).
    - [Relay.v], [RelayFacts.v], [Backoff.v], [Float64.v]: [relay/]: fan-out,
      settlement, the pass, and the retry schedule in binary64.
    - [Ticker.v]: the loops [Run] of the sweep, the relay, the pruner and the email
      dispatcher.
    - [Route.v]: [metadata.go]: route templates.
    - [EngineExamples.v]: the engine run on the in-memory store; the witnesses of
      its theorems.  Those of the relay are at the end of [Backoff.v].

    ** The SQL stores, the sinks and the REST contract

    - [Calendar.v], [Text.v], [Json.v]: what the standard library
      makes of instants, white space and JSON, as far as the sources rely on it.
    - [Sqlkit.v]: [sqlkit/]: dialects, the writer of statements, the codec of
      columns.
    - [SqlBuilder.v], [SqlScan.v]: [store/sqlcore/]: every statement, and how
      rows are read back.  [SqlPrint.v] and [SqlPrintFacts.v] give the statements
      as syntax trees, [SqlMeaning.v] their meaning on rows, [SqlQuery.v] and
      [SqlLease.v] that the meaning is the ledger's; [SqlExamples.v].
    - [SqlStore.v]: [store/sql/store.go] as programs of driver calls.
      [SqlStoreFacts.v], [SqlStoreTasks.v], [SqlStoreOutbox.v],
      [SqlStoreRefines.v]: run on a database that carries the statements out, they
      keep the ledger of [Store.v].
    - [SqlDrivers.v]: [store/pgx/store.go] (module [SqlPgx]) and
      [store/gorm/store.go] (module [SqlGorm]); [SqlAdapters.v]: that they are in
      step with the database/sql store.
    - [Transport.v], [TransportFacts.v]: [transport/core/]: routes, handlers,
      policies and errors on the wire.
    - [Webhook.v], [WebhookFacts.v]: [delivery/webhook/].
    - [RedisSink.v], [RedisFacts.v], [NatsSink.v], [NatsFacts.v]:
      [delivery/redis/] and [delivery/nats/].

    ** The notification library

    - [Notification.v], [Collections.v]: its values and ports, and loops over
      maps.
    - [NotifyStore.v], with [NotifyStoreFacts.v], [NotifyPrune.v] and
      [NotifyList.v]: [notify/memory.go], the in-memory store and its invariant.
    - [NotifyService.v], [NotifyInvariant.v]: [notify/service.go] and
      [notify/pruner.go], and what holds of everything the service does.
    - [Interaction.v]: programs that call out one call at a time, pools of them
      interleaved over a shared state, and their induction principles.
    - [NotifyEmail.v], with [NotifyEmailFacts.v], [NotifyEmailOnce.v] and
      [NotifyEmailPass.v]: email delivery, alone and among other dispatchers.
    - [TaskNotify.v], [TaskNotifyFacts.v], [TaskNotifyDeliver.v]: [tasknotify/],
      the sink that turns task events into notifications.
    - [NotifyHub.v], [NotifyHubFacts.v]: [notify/hub.go], as goroutines of atomic
      steps.
    - [Broadcast.v], [BroadcastFacts.v]: the wire format of signals and the
      broadcasters, of one process, over [notify/redis] (module [RedisBroadcast])
      and over [notify/nats] (module [NatsBroadcast]).
    - [NotifyHttp.v], [NotifyHttpFacts.v]: [notify/http.go].
    - [NotifyExamples.v]: the service run on the in-memory store; the witnesses of
      its theorems.

    Elsewhere a file of facts ends with its theorems applied to concrete inputs.

    ** How the parts interact

    A host calls an operation of the service, directly or over the REST contract;
    the service opens a transaction of the store, reads the task, runs the
    lifecycle step, writes the task under the version it read, appends the history
    records and the events, and commits; then it hands the events to the
    in-process handlers.  Inside a transaction of the host it does the same in the
    host's transaction and returns the events instead.  The sweep claims overdue
    tasks under a lease and escalates each by the same pipeline; the relay claims
    due events under a lease, offers each to the sinks that lack it, and settles
    each in a transaction of its own.  A sink posts the event to a callback,
    appends it to a stream, publishes it, or projects it into notifications; the
    notification service stores those and signals their recipients, whose streams
    a hub wakes; a dispatcher emails what stays unread.

    ** What is shown

    - Lifecycle: each operation is accepted exactly when its state, actor and
      arguments allow; it follows the transition table, keeps [TaskWf], keeps the
      task's identity, raises the version by one; its event and record tell the
      transition; closed tasks stay closed; suspend and resume round-trip.
    - Store: the in-memory store refines the ledger; transactions are atomic; no
      update is lost; leases exclude each other.  One transaction is outside the
      contract: one that claims events after it recorded its own, which it claims
      twice and whose settlement it loses ([own_events_claimed_twice]).  The SQL
      statements contain no value, and on a database that compares texts by their
      bytes they mean what the ledger's operations say and the SQL stores keep the
      ledger: their transactions, their reads, their claims and settlements.  Where
      they differ from the in-memory store the theorems say so: a filter by deadline
      is cut to the microsecond, a sweep takes only tasks that are worked on, and an
      acceptance without a time of delivery re-opens a delivered event.
    - Engine: an operation commits its task, history and event together or
      nothing; what an accepted one did; in the host's transaction it only defers;
      any sequence of operations keeps the committed ledger in order; a version
      names one state of a task; bucket counts and the inbox agree with single
      counts and with eligibility.
    - Sweep and relay: the report of a sweep is that of the fates of the tasks it
      claimed - exempted for a reason, escalated, or given up with an error - under
      interference, and exempt or changed tasks are never escalated; a pass offers
      each event to the sinks that lack it and to no other, and settles it as
      delivered, dead-lettered or pending as those sinks answered; the schedule is
      the documented formula.
    - Sinks: which addresses a webhook refuses; a receiver with the secret accepts
      exactly what was signed; what a bus sink reports delivered is on the record,
      and a consumer reads the event back from it.
    - REST contract: an operation over HTTP is the service's; who may read what;
      the error mapping.
    - Notifications: publishing is idempotent and accounts for each; a close takes
      the notifications that match its subject, version, kinds and exception and no
      other, and what it closed stays closed to late publications; notifications only
      move on; a task event is delivered, retried or reported as the answers of the
      notification service say, and delivered again it reaches only who joined the
      groups of its pool since; no
      notification is emailed twice under any interleaving; a hub never exceeds
      its bounds and loses no wake-up; a listener delivers what was broadcast since
      it was ready, in order; a user reaches only their own.
    - Values: identifiers increase and are fresh; queries page without loss or
      repetition; pools expand to the eligible; types register idempotently.

    ** Conventions

    Times are nanoseconds as [Z], the zero time being 0, kept to microseconds by
    [NormalizeTime]; Go's integers are [Z], versions with the wrap-around of
    [wrap64]; strings are [string], a string of bytes; maps are [gmap], fallible
    code returns [res], and stateful code is a function in the monad [SM].  Where a
    theorem needs the version below [max_int64] it says so.  A loop over a map
    visits it in the order of [map_to_list] in the engine's files, where no result
    depends on it, and in an order that is an argument or any choice elsewhere.

    Code that talks to something outside between its own steps is a program of
    calls, a value of [prog]: the email dispatcher, the hub's methods, a stream,
    the SQL store and the sinks.  What the calls do is a relation where a theorem
    needs one: a database answers as [does] says, a driver hands a column back as
    [HandsBack] allows, a broker may repeat, delay or abandon an append.  SQL tests
    are three-valued; that texts are compared by their bytes is a hypothesis of the
    theorems on the SQL stores: the schema declares it for PostgreSQL (COLLATE "C")
    and it is SQLite's default, while MySQL's utf8mb4_0900_as_cs is not byte-wise, so
    they do not speak of MySQL's tables.  The directory of groups is fixed within a
    call, as every call resolves a pool once; from one call to the next, and from a
    delivery to its retry, it is another argument ([with_directory]).  A context carries two things the engine uses:
    the transaction, which is in the store's state, and what cancelled it during a
    transaction, an argument.  Where other processes may act between two
    transactions, what they did is an argument too.

    Fuel is taken where a recursion is not structural, with a theorem or an
    argument at the definition that it is enough: [walk] of [Query.v] reads pages
    for a stated number of steps; [fresh] counts the identifiers still to be
    drawn, of which an operation draws at most one; [expand_loop] of [Route.v] and
    [chunks] step through a list or a text and are given its length; the
    [rounds] of a stream, a listener or a loop [Run] are how many of its turns are
    looked at.  Programs of
    [prog] are finite trees and need none: that a dispatch pass ends is the
    theorem [dispatch_accounts].

    ** Not modelled

    Code outside the repository is a parameter: the JSON Schema compiler, the JSON
    Patch library, the JSON encoding of Go types, HMAC, URL parsing and the HTTP
    client, the brokers' clients and the database drivers, randomness, clocks, the
    host's directory, strategy, handlers, titles and mailers; where a theorem
    relies on one, it says what of.  Left out of the program: [schemagen.go], which
    derives schemas by reflection; the SQL store of notifications and the websocket
    handler of [notify/]; the executors of [sqlkit/], the verification of a live
    schema and the migrations; the binders to HTTP routers and the OpenAPI document;
    test kits and examples. *)

From stdpp Require Export base tactics gmap strings list pretty sorting.
From Stdlib Require Export ZArith Lia.

(** ** Scope and record update

    [r <| f := v |>] is the record [r] with field [f] replaced by [v].  A record
    supports it by declaring its eta expansion as an instance of [Eta]; the
    setter of one field is then derived from that instance by [derive_setter]. *)

Declare Scope hmntsk_scope.
Delimit Scope hmntsk_scope with hmntsk.
#[global] Open Scope hmntsk_scope.

Class Eta (R : Type) := eta : R -> R.
Class Setter {R T : Type} (proj : R -> T) := upd : (T -> T) -> R -> R.
Arguments upd {R T} proj {_} f r /.

Ltac derive_setter :=
  lazymatch goal with
  | |- @Setter ?R ?T ?proj =>
      let f := fresh "f" in
      let r := fresh "r" in
      intros f r;
      let body := eval hnf in (eta r) in
      lazymatch eval pattern (proj r) in body with
      | ?g _ => let res := eval cbv beta in (g (f (proj r))) in exact res
      end
  end.

#[export] Hint Extern 1 (Setter _) => derive_setter : typeclass_instances.

Notation "r <| f := v |>" := (upd f (fun _ => v) r)
  (at level 1, left associativity, f at level 9,
   format "r  <| f  :=  v |>") : hmntsk_scope.

(** ** Results: Go's [(value, error)] pairs

    A function that returns a value and an error returns [Ok value] when the
    error is nil and [Err error] otherwise; no caller of the modelled code reads
    the value beside a non-nil error. *)

Inductive result (E A : Type) : Type :=
| Ok (a : A)
| Err (e : E).
Arguments Ok {E A} a.
Arguments Err {E A} e.

Definition rbind {E A B} (x : result E A) (k : A -> result E B) : result E B :=
  match x with
  | Ok a => k a
  | Err e => Err e
  end.

Definition is_ok {E A} (x : result E A) : bool :=
  match x with Ok _ => true | Err _ => false end.

Notation "'try!' x ':=' e 'in' k" := (rbind e (fun x => k))
  (at level 10, x binder, e at level 100, k at level 200,
   format "'[v' 'try!'  x  ':='  e  'in' '//' k ']'") : hmntsk_scope.

(** ** A state and error monad

    Code that threads a mutable store returns the outcome and the state it
    leaves.  An error does not undo the state: what undoes a transaction's
    writes is the transaction boundary, as in the source. *)

Definition SM (S E A : Type) : Type := S -> result E A * S.

Definition sret {S E A} (a : A) : SM S E A := fun s => (Ok a, s).
Definition sfail {S E A} (e : E) : SM S E A := fun s => (Err e, s).
Definition slift {S E A} (r : result E A) : SM S E A := fun s => (r, s).
Definition sgets {S E A} (f : S -> A) : SM S E A := fun s => (Ok (f s), s).
Definition smodify {S E} (f : S -> S) : SM S E unit := fun s => (Ok tt, f s).
Definition sbind {S E A B} (m : SM S E A) (k : A -> SM S E B) : SM S E B :=
  fun s =>
    match m s with
    | (Ok a, s') => k a s'
    | (Err e, s') => (Err e, s')
    end.

Notation "'let!' x ':=' e 'in' k" := (sbind e (fun x => k))
  (at level 10, x binder, e at level 100, k at level 200,
   format "'[v' 'let!'  x  ':='  e  'in' '//' k ']'") : hmntsk_scope.
Notation "e ';;!' k" := (sbind e (fun _ => k))
  (at level 100, right associativity, format "'[v' e ';;!' '//' k ']'") : hmntsk_scope.

(** [for_each f l] is a loop whose body always runs to completion, with the
    errors handled inside the body: [for _, x := range l { f(x) }]. *)
Fixpoint for_each {S X} (f : X -> S -> S) (l : list X) (s : S) : S :=
  match l with
  | [] => s
  | x :: l' => for_each f l' (f x s)
  end.

(** ** Machine integers: Go's [int] and [int64] *)

Definition max_int64 : Z := (2 ^ 63 - 1)%Z.
Definition wrap64 (z : Z) : Z := ((z + 2 ^ 63) mod 2 ^ 64 - 2 ^ 63)%Z.

(** ** Slices and strings of the Go standard library *)

(** [slices.Contains] *)
Definition contains {A} `{EqDecision A} (l : list A) (x : A) : bool :=
  bool_decide (x ∈ l).

(** [sort.Strings]: byte-wise ascending order.  The order is total and
    antisymmetric, so the result does not depend on the sorting algorithm. *)
Definition sort_strings (l : list string) : list string := merge_sort String.le l.

(** [strings.ToLower], on ASCII. *)
Definition lower_byte (c : Ascii.ascii) : Ascii.ascii :=
  let n := Ascii.nat_of_ascii c in
  if decide (65 <= n /\ n <= 90) then Ascii.ascii_of_nat (n + 32) else c.

Fixpoint to_lower (s : string) : string :=
  match s with
  | EmptyString => EmptyString
  | String c s' => String (lower_byte c) (to_lower s')
  end.

(** The double quote character, as a one-character string. *)
Definition dquote : string := String (Ascii.ascii_of_nat 34) EmptyString.

Definition hex_digit (n : nat) : Ascii.ascii :=
  Ascii.ascii_of_nat (if decide (n < 10) then 48 + n else 87 + n).

(** One byte under [strconv.Quote], for the ASCII range.  Bytes above it are
    copied: they are the encoding of printable text in every identifier the
    engine renders; unprintable Unicode is not modelled. *)
Definition quote_byte (c : Ascii.ascii) : string :=
  let n := Ascii.nat_of_ascii c in
  let esc (d : nat) :=
    String (Ascii.ascii_of_nat 92) (String (Ascii.ascii_of_nat d) EmptyString) in
  match n with
  | 7 => esc 97 | 8 => esc 98 | 9 => esc 116 | 10 => esc 110
  | 11 => esc 118 | 12 => esc 102 | 13 => esc 114
  | 34 => esc 34 | 92 => esc 92
  | _ =>
      if decide (n < 32 \/ n = 127)
      then esc 120 +:+
           String (hex_digit (n / 16)) (String (hex_digit (n mod 16)) EmptyString)
      else String c EmptyString
  end.

Fixpoint quote_body (s : string) : string :=
  match s with
  | EmptyString => EmptyString
  | String c s' => quote_byte c +:+ quote_body s'
  end.

(** The verb [%q] of [fmt]. *)
Definition quote (s : string) : string := dquote +:+ quote_body s +:+ dquote.

(** The verb [%v] of [fmt] on a [[]string]. *)
Definition show_strings (l : list string) : string :=
  "[" +:+ String.concat " " l +:+ "]".

(** ** Concatenation of strings *)

#[export] Instance string_app_assoc : Assoc (=) String.append.
Proof.
  intros a b c. induction a as [|x a IH]; [done|].
  change (String x (a +:+ (b +:+ c)) = String x ((a +:+ b) +:+ c)). by rewrite IH.
Qed.

#[export] Instance string_app_nil : RightId (=) "" String.append.
Proof.
  intros a. induction a as [|x a IH]; [done|].
  change (String x (a +:+ "") = String x a). by rewrite IH.
Qed.

Lemma length_append a b : String.length (a +:+ b) = String.length a + String.length b.
Proof.
  induction a as [|c a IH]; [done|].
  change (S (String.length (a +:+ b)) = S (String.length a + String.length b)). by rewrite IH.
Qed.

(** ** Lemmas on results and on the monad *)

Section result_lemmas.
Context {E : Type}.

Lemma rbind_ok {A B} (x : result E A) (k : A -> result E B) b :
  rbind x k = Ok b <-> exists a, x = Ok a /\ k a = Ok b.
Proof. destruct x; naive_solver. Qed.

Lemma rbind_err {A B} (x : result E A) (k : A -> result E B) e :
  rbind x k = Err e <-> x = Err e \/ exists a, x = Ok a /\ k a = Err e.
Proof. destruct x; naive_solver. Qed.

Lemma sbind_ok {S A B} (m : SM S E A) (k : A -> SM S E B) s b s' :
  sbind m k s = (Ok b, s') <-> exists a s1, m s = (Ok a, s1) /\ k a s1 = (Ok b, s').
Proof. unfold sbind. destruct (m s) as [[a|e] s1]; naive_solver. Qed.

Lemma sbind_err {S A B} (m : SM S E A) (k : A -> SM S E B) s e s' :
  sbind m k s = (Err e, s') <->
  m s = (Err e, s') \/ exists a s1, m s = (Ok a, s1) /\ k a s1 = (Err e, s').
Proof. unfold sbind. destruct (m s) as [[a|e'] s1]; naive_solver. Qed.

Lemma sbind_ret {S A B} (a : A) (k : A -> SM S E B) s : sbind (sret a) k s = k a s.
Proof. done. Qed.

Lemma for_each_app {S X} (f : X -> S -> S) l1 l2 s :
  for_each f (l1 ++ l2) s = for_each f l2 (for_each f l1 s).
Proof. revert s; induction l1; cbn; auto. Qed.

(** The induction principle of a loop: an invariant that the body preserves. *)
Lemma for_each_fmap {S X Y} (f : Y -> S -> S) (g : X -> Y) l s :
  for_each f (g <$> l) s = for_each (fun x => f (g x)) l s.
Proof. revert s. induction l as [|x l IH]; intros s; [done|apply IH]. Qed.

Lemma for_each_inv {S X} (P : S -> Prop) (f : X -> S -> S) l s :
  P s -> (forall x s, x ∈ l -> P s -> P (f x s)) -> P (for_each f l s).
Proof.
  revert s; induction l as [|x l IH]; cbn; intros s Hs Hf; [done|].
  apply IH; [apply Hf; [left|done]|]. intros y s' Hy; apply Hf; by right.
Qed.
End result_lemmas.

(** [monad_inv] opens every successful chain of binds in the context. *)
Ltac monad_inv_step :=
  match goal with
  | H : rbind _ _ = Ok _ |- _ => apply rbind_ok in H as (? & ? & H)
  | H : sbind _ _ _ = (Ok _, _) |- _ => apply sbind_ok in H as (? & ? & ? & H)
  | H : sret _ _ = (Ok _, _) |- _ => unfold sret in H
  | H : slift _ _ = (Ok _, _) |- _ => unfold slift in H
  | H : sgets _ _ = (Ok _, _) |- _ => unfold sgets in H
  | H : smodify _ _ = (Ok _, _) |- _ => unfold smodify in H
  | H : sfail _ _ = (Ok _, _) |- _ => discriminate H
  | H : Ok _ = Ok _ |- _ => injection H as H
  | H : Err _ = Ok _ |- _ => discriminate H
  | H : Ok _ = Err _ |- _ => discriminate H
  | H : (Ok _, _) = (Ok _, _) |- _ => injection H as ? ?
  | H : (Err _, _) = (Ok _, _) |- _ => discriminate H
  end.
Ltac monad_inv := repeat (monad_inv_step; subst; cbn beta iota in * ).

(** [split_ifs] splits the conditionals and matches a hypothesis or the goal is
    stuck on, closing the contradictory branches. *)
Ltac split_match_in H :=
  match type of H with
  | context [ if ?b then _ else _ ] => destruct b eqn:?; try discriminate
  | context [ match ?x with _ => _ end ] => destruct x eqn:?; try discriminate
  end.

(** ** Lemmas on integers *)

Lemma wrap64_small z : (- 2 ^ 63 <= z <= max_int64)%Z -> wrap64 z = z.
Proof. unfold wrap64, max_int64. intros ?. rewrite Z.mod_small; lia. Qed.

Lemma wrap64_bounds z : (- 2 ^ 63 <= wrap64 z <= max_int64)%Z.
Proof.
  unfold wrap64, max_int64.
  pose proof (Z.mod_pos_bound (z + 2 ^ 63) (2 ^ 64)). lia.
Qed.

(** ** Lemmas on lists and strings *)

Lemma contains_true {A} `{EqDecision A} (l : list A) x : contains l x = true <-> x ∈ l.
Proof. apply bool_decide_eq_true. Qed.

Lemma contains_false {A} `{EqDecision A} (l : list A) x : contains l x = false <-> x ∉ l.
Proof. apply bool_decide_eq_false. Qed.

Lemma elem_of_sort_strings l x : x ∈ sort_strings l <-> x ∈ l.
Proof. unfold sort_strings. by rewrite merge_sort_Permutation. Qed.

Lemma NoDup_sort_strings l : NoDup (sort_strings l) <-> NoDup l.
Proof. unfold sort_strings. by rewrite merge_sort_Permutation. Qed.

Lemma sort_strings_sorted l : StronglySorted String.le (sort_strings l).
Proof. apply StronglySorted_merge_sort; apply _. Qed.

(** Sorted lists with the same elements and no duplicates are equal. *)
Lemma StronglySorted_NoDup_ext {A} (R : relation A) `{!AntiSymm (=) R} (l1 l2 : list A) :
  StronglySorted R l1 -> StronglySorted R l2 -> NoDup l1 -> NoDup l2 ->
  (forall x, x ∈ l1 <-> x ∈ l2) -> l1 = l2.
Proof.
  intros H1 H2 N1 N2 Hext. apply (StronglySorted_unique R); [done..|].
  by apply NoDup_Permutation.
Qed.

Lemma NoDup_snoc {A} (l : list A) x : NoDup (l ++ [x]) <-> NoDup l /\ x ∉ l.
Proof.
  rewrite NoDup_app. split.
  - intros (? & Hx & _). split; [done|]. intros Hin. apply (Hx x Hin). set_solver.
  - intros [? ?]. split_and!; [done| |apply NoDup_singleton].
    intros y Hy ->%list_elem_of_singleton. done.
Qed.

Lemma NoDup_fmap_inj {A B} (f : A -> B) (l : list A) x y :
  NoDup (f <$> l) -> x ∈ l -> y ∈ l -> f x = f y -> x = y.
Proof.
  induction l as [|a l IH]; cbn; [by intros _ ?%not_elem_of_nil|].
  intros [Ha Hl]%NoDup_cons. rewrite !elem_of_cons.
  intros [->|?] [->|?] E; [done|..|auto]; destruct Ha.
  - rewrite E. by apply list_elem_of_fmap_2.
  - rewrite <- E. by apply list_elem_of_fmap_2.
Qed.

Lemma NoDup_fmap_filter {A B} (f : A -> B) (P : A -> Prop) `{forall x, Decision (P x)}
    (l : list A) :
  NoDup (f <$> l) -> NoDup (f <$> filter P l).
Proof.
  induction l as [|t l IH]; [done|]. cbn [fmap list_fmap]. intros [Ht Hl]%NoDup_cons.
  rewrite filter_cons. case_decide; [|by apply IH]. cbn [fmap list_fmap].
  apply NoDup_cons. split; [|by apply IH].
  intros (u & E & [_ Hu]%list_elem_of_filter)%list_elem_of_fmap.
  apply Ht. rewrite E. by apply list_elem_of_fmap_2.
Qed.

(** ** Comparison functions

    Go orders by three-way comparison.  A lawful comparison is antisymmetric and
    transitive, and values it cannot tell apart compare alike; lawful comparisons
    are closed under reading a key, reversing and refining by a tiebreak. *)

Class Lawful {A} (c : A -> A -> comparison) : Prop := {
  cmp_sym x y : c y x = CompOpp (c x y);
  cmp_trans x y z : c x y = Lt -> c y z = Lt -> c x z = Lt;
  cmp_eq x y z : c x y = Eq -> c x z = c y z
}.

Definition lex {A} (c1 c2 : A -> A -> comparison) (x y : A) : comparison :=
  match c1 x y with Eq => c2 x y | r => r end.
Definition on {A B} (f : A -> B) (c : B -> B -> comparison) (x y : A) : comparison :=
  c (f x) (f y).
Definition directed {A} (descending : bool) (c : A -> A -> comparison) (x y : A)
  : comparison :=
  if descending then CompOpp (c x y) else c x y.

Section comparisons.
Context {A : Type}.
Implicit Types c : A -> A -> comparison.

Lemma cmp_refl c `{!Lawful c} x : c x x = Eq.
Proof. pose proof (cmp_sym (c := c) x x) as H. by destruct (c x x). Qed.

Lemma cmp_eq_r c `{!Lawful c} x y z : c x y = Eq -> c z x = c z y.
Proof.
  intros H. by rewrite (cmp_sym (c := c) x z), (cmp_sym (c := c) y z), (cmp_eq x y z H).
Qed.

#[global] Instance lex_lawful c1 c2 : Lawful c1 -> Lawful c2 -> Lawful (lex c1 c2).
Proof.
  intros H1 H2. unfold lex. constructor.
  - intros x y. rewrite (cmp_sym (c := c1) x y). destruct (c1 x y); cbn; [apply cmp_sym|done..].
  - intros x y z Hxy Hyz.
    destruct (c1 x y) eqn:E1; [|clear Hxy|done];
      (destruct (c1 y z) eqn:E2; [|clear Hyz|done]).
    + rewrite (cmp_eq (c := c1) x y z E1), E2. by eapply (cmp_trans (c := c2)).
    + by rewrite (cmp_eq (c := c1) x y z E1), E2.
    + by rewrite <- (cmp_eq_r c1 y z x E2), E1.
    + by rewrite (cmp_trans (c := c1) x y z E1 E2).
  - intros x y z. destruct (c1 x y) eqn:E1; [|done..]. intros E2.
    by rewrite (cmp_eq (c := c1) x y z E1), (cmp_eq (c := c2) x y z E2).
Qed.

#[global] Instance directed_lawful b c : Lawful c -> Lawful (directed b c).
Proof.
  intros H. destruct b; unfold directed; [|by destruct H]. constructor.
  - intros x y. by rewrite (cmp_sym (c := c) x y).
  - intros x y z. rewrite (cmp_sym (c := c) y x), (cmp_sym (c := c) z y),
      (cmp_sym (c := c) z x), !CompOpp_involutive. intros ??. by eapply cmp_trans.
  - intros x y z Hxy. f_equal. apply cmp_eq. by destruct (c x y).
Qed.

#[global] Instance const_eq_lawful : Lawful (fun _ _ : A => Eq).
Proof. by constructor. Qed.
End comparisons.

#[global] Instance on_lawful {A B} (f : A -> B) c : Lawful c -> Lawful (on f c).
Proof. intros [H1 H2 H3]. unfold on. constructor; eauto. Qed.

#[global] Instance Z_compare_lawful : Lawful Z.compare.
Proof.
  constructor.
  - intros x y. apply Z.compare_antisym.
  - intros x y z. rewrite !Z.compare_lt_iff. lia.
  - by intros x y z ->%Z.compare_eq_iff.
Qed.

#[global] Instance string_compare_lawful : Lawful String.compare.
Proof.
  constructor.
  - intros x y. apply String.compare_antisym.
  - intros x y z Hxy Hyz.
    assert (Hle : String.le x z).
    { trans y; unfold String.le, String.leb; [by rewrite Hxy|by rewrite Hyz]. }
    unfold String.le, String.leb in Hle. destruct (String.compare x z) eqn:E; [|done|done].
    apply String.compare_eq_iff in E as ->.
    rewrite String.compare_antisym, Hyz in Hxy. done.
  - by intros x y z ->%String.compare_eq_iff.
Qed.

Lemma filter_all {A} (P : A -> Prop) `{forall x, Decision (P x)} (l : list A) :
  (forall x, x ∈ l -> P x) -> filter P l = l.
Proof.
  induction l as [|x l IH]; intros Hl; [done|].
  rewrite filter_cons_True by (apply Hl; left). f_equal. apply IH. intros; apply Hl; by right.
Qed.

Lemma filter_none {A} (P : A -> Prop) `{forall x, Decision (P x)} (l : list A) :
  (forall x, x ∈ l -> ~ P x) -> filter P l = [].
Proof.
  induction l as [|x l IH]; intros Hl; [done|].
  rewrite filter_cons_False by (apply Hl; left). apply IH. intros; apply Hl; by right.
Qed.

Lemma list_filter_iff_in {A} (P Q : A -> Prop) `{forall x, Decision (P x)}
    `{forall x, Decision (Q x)} (l : list A) :
  (forall x, x ∈ l -> (P x <-> Q x)) -> filter P l = filter Q l.
Proof.
  induction l as [|x l IH]; intros E; [done|]. rewrite !filter_cons.
  rewrite IH by (intros y Hy; apply E; by right).
  destruct (decide (P x)) as [HP|HP], (decide (Q x)) as [HQ|HQ]; [done| | |done];
    destruct (E x (list_elem_of_here _ _)); tauto.
Qed.

Lemma StronglySorted_filter {A} (R : relation A) (P : A -> Prop)
    `{forall x, Decision (P x)} (l : list A) :
  StronglySorted R l -> StronglySorted R (filter P l).
Proof.
  induction 1 as [|x l Hl IH Hx]; [constructor|]. rewrite filter_cons. case_decide; [|done].
  constructor; [done|]. rewrite Forall_forall in Hx |- *.
  intros y [_ Hy]%list_elem_of_filter. by apply Hx.
Qed.

Lemma StronglySorted_weaken {A} (R1 R2 : relation A) l :
  (forall x y, x ∈ l -> y ∈ l -> R1 x y -> R2 x y) -> StronglySorted R1 l -> StronglySorted R2 l.
Proof.
  intros HR Hs. induction Hs as [|x l Hs IH Hx]; constructor.
  - apply IH. intros a b Ha Hb. apply HR; by right.
  - rewrite Forall_forall in Hx |- *. intros y Hy. apply HR; [by left|by right|by apply Hx].
Qed.

(** Sorting by a lawful comparison. *)
Section sorting.
Context {A : Type} (c : A -> A -> comparison) `{!Lawful c}.

Definition no_later (x y : A) : Prop := c x y <> Gt.

#[global] Instance no_later_dec : RelDecision no_later.
Proof. unfold no_later. intros x y. apply _. Defined.

#[global] Instance no_later_total : Total no_later.
Proof.
  intros x y. unfold no_later. rewrite (cmp_sym (c := c) x y).
  destruct (c x y); cbn; auto.
Qed.

#[global] Instance no_later_trans : Transitive no_later.
Proof.
  intros x y z. unfold no_later. intros Hxy Hyz.
  destruct (c x y) eqn:E1; [by rewrite (cmp_eq (c := c) x y z E1)| |done].
  destruct (c y z) eqn:E2; [|by rewrite (cmp_trans (c := c) x y z E1 E2)|done].
  by rewrite <- (cmp_eq_r c y z x E2), E1.
Qed.

Lemma sorted_by l : StronglySorted no_later (merge_sort no_later l).
Proof. apply StronglySorted_merge_sort; apply _. Qed.

(** Sorting commutes with selecting, when equal keys mean equal elements. *)
Lemma sort_filter (P : A -> Prop) `{forall x, Decision (P x)} (l : list A) :
  (forall x y, x ∈ l -> y ∈ l -> c x y = Eq -> x = y) ->
  merge_sort no_later (filter P l) = filter P (merge_sort no_later l).
Proof.
  intros Hinj. apply (StronglySorted_unique_strong no_later).
  - intros x y. rewrite (merge_sort_Permutation no_later (filter P l)).
    rewrite !list_elem_of_filter, (merge_sort_Permutation no_later l).
    unfold no_later. rewrite (cmp_sym (c := c) x y). intros [_ ?] [_ ?] ??.
    apply Hinj; [done..|]. by destruct (c x y).
  - apply sorted_by.
  - apply StronglySorted_filter, sorted_by.
  - by rewrite !merge_sort_Permutation.
Qed.

(** A sorted list split at an element it does not repeat: the elements beyond
    that one are exactly the rest. *)
Lemma filter_beyond l1 x l2 :
  StronglySorted no_later (l1 ++ x :: l2) ->
  (forall y, y ∈ l2 -> c x y <> Eq) ->
  filter (fun y => c y x = Gt) (l1 ++ x :: l2) = l2.
Proof.
  intros Hs Hne. rewrite filter_app. apply StronglySorted_app in Hs as (H12 & _ & Hs2).
  rewrite (filter_none _ l1); cbn [app].
  2: { intros y Hy. apply (H12 y x); [done|left]. }
  rewrite filter_cons_False by (by rewrite cmp_refl).
  apply filter_all. intros y Hy.
  apply StronglySorted_inv in Hs2 as [_ Hall]. rewrite Forall_forall in Hall.
  specialize (Hall y Hy). unfold no_later in Hall. specialize (Hne y Hy).
  rewrite (cmp_sym (c := c) x y). by destruct (c x y).
Qed.
End sorting.

(** ** The hint database of the development *)

Create HintDb hmntsk.
Create Rewrite HintDb hmntsk.
#[export] Hint Rewrite @contains_true @contains_false elem_of_sort_strings : hmntsk.
#[export] Hint Resolve sort_strings_sorted : hmntsk.
