(* ===== verification/Domain.v ===== *)
(** * Domain: the values the engine owns

    Models [status.go], [transition_table.go], [correlation.go],
    [escalation_policy.go], [task.go] and the sentinels of [errors.go]: the ten
    task states, the priority scale, the transition table, the candidate pool,
    the escalation policy, the task aggregate and its timestamps.

    A timestamp ([time.Time]) is the number of nanoseconds since Go's zero time,
    so [IsZero] is comparison with 0 and truncation is towards minus infinity;
    the zone is not represented, because the engine only compares instants.  A
    duration is a signed number of nanoseconds.  A pointer that may be nil and
    raw JSON (nil or bytes) are options.  A nil slice and an empty slice are
    both [[]]: no modelled code tells them apart, except where it is said. *)

From S2P Require Import Prelude.

(** ** Lifecycle states *)

(** [Status]: a string type in the source, with ten defined values.
    [StatusOther raw] stands for a string that is none of them, such as the
    empty string a task that is not suspended carries in [SuspendedFrom]. *)
Inductive Status : Type :=
| StatusCreated
| StatusReady
| StatusReserved
| StatusInProgress
| StatusSuspended
| StatusCompleted
| StatusFailed
| StatusError
| StatusExited
| StatusObsolete
| StatusOther (raw : string).

#[global] Instance Status_eq_dec : EqDecision Status.
Proof. solve_decision. Defined.

(** The zero value of the string type. *)
Definition StatusNone : Status := StatusOther "".

Definition Status_String (s : Status) : string :=
  match s with
  | StatusCreated => "CREATED"
  | StatusReady => "READY"
  | StatusReserved => "RESERVED"
  | StatusInProgress => "IN_PROGRESS"
  | StatusSuspended => "SUSPENDED"
  | StatusCompleted => "COMPLETED"
  | StatusFailed => "FAILED"
  | StatusError => "ERROR"
  | StatusExited => "EXITED"
  | StatusObsolete => "OBSOLETE"
  | StatusOther raw => raw
  end.

Definition allStatuses : list Status :=
  [StatusCreated; StatusReady; StatusReserved; StatusInProgress; StatusSuspended;
   StatusCompleted; StatusFailed; StatusError; StatusExited; StatusObsolete].

(** [Status(raw)], the conversion of a text. *)
Definition Status_of (raw : string) : Status :=
  default (StatusOther raw)
    (list_find (fun s => Status_String s = raw) allStatuses ≫= fun found => Some found.2).

(** The loop of [Valid]: a linear scan that returns at the first match. *)
Fixpoint scan_for {A} `{EqDecision A} (s : A) (l : list A) : bool :=
  match l with
  | [] => false
  | candidate :: l' => if decide (s = candidate) then true else scan_for s l'
  end.

Definition Status_Valid (s : Status) : bool := scan_for s allStatuses.

Definition IsTerminal (s : Status) : bool :=
  match s with
  | StatusCompleted | StatusFailed | StatusError | StatusExited | StatusObsolete => true
  | StatusCreated | StatusReady | StatusReserved | StatusInProgress | StatusSuspended => false
  | StatusOther _ => false
  end.

Definition IsSuspendable (s : Status) : bool :=
  match s with
  | StatusReady | StatusReserved | StatusInProgress => true
  | StatusCreated | StatusSuspended | StatusCompleted | StatusFailed
  | StatusError | StatusExited | StatusObsolete => false
  | StatusOther _ => false
  end.

(** ** Priority: an [int] between 0 (most urgent) and 10 *)

Definition PriorityHighest : Z := 0.
Definition PriorityDefault : Z := 5.
Definition PriorityLowest : Z := 10.

Definition Priority_Valid (p : Z) : bool :=
  ((PriorityHighest <=? p) && (p <=? PriorityLowest))%Z.

(** ** The transition table *)

Module Transition.
Record t : Type := mk { From : Status; To : Status }.
#[global] Instance eq_dec : EqDecision t.
Proof. solve_decision. Defined.
End Transition.

Definition legalTransitions : list Transition.t :=
  [Transition.mk StatusCreated StatusReady;
   Transition.mk StatusCreated StatusReserved;
   Transition.mk StatusCreated StatusError;

   Transition.mk StatusReady StatusReserved;
   Transition.mk StatusReady StatusSuspended;
   Transition.mk StatusReady StatusObsolete;
   Transition.mk StatusReady StatusExited;

   Transition.mk StatusReserved StatusReady;
   Transition.mk StatusReserved StatusInProgress;
   Transition.mk StatusReserved StatusReserved;
   Transition.mk StatusReserved StatusSuspended;
   Transition.mk StatusReserved StatusObsolete;
   Transition.mk StatusReserved StatusExited;

   Transition.mk StatusInProgress StatusReserved;
   Transition.mk StatusInProgress StatusCompleted;
   Transition.mk StatusInProgress StatusFailed;
   Transition.mk StatusInProgress StatusError;
   Transition.mk StatusInProgress StatusSuspended;
   Transition.mk StatusInProgress StatusExited;

   Transition.mk StatusSuspended StatusReady;
   Transition.mk StatusSuspended StatusReserved;
   Transition.mk StatusSuspended StatusInProgress;
   Transition.mk StatusSuspended StatusExited].

(** [CanTransition] probes the set built from the table. *)
Definition CanTransition (from to : Status) : bool :=
  contains legalTransitions (Transition.mk from to).

Definition AllowedTransitions (from : Status) : list Status :=
  Transition.To <$> filter (fun tr => Transition.From tr = from) legalTransitions.

(** ** Time *)

Abbreviation Time := Z (only parsing).
Abbreviation Duration := Z (only parsing).

Definition Microsecond : Duration := 1000.
Definition Second : Duration := 1000000000.

(** [ts.UTC().Truncate(time.Microsecond)]: down to a multiple of a microsecond
    since the zero time. *)
Definition NormalizeTime (ts : Time) : Time := (ts - ts mod Microsecond)%Z.

Definition normalizeTimePtr (ts : option Time) : option Time :=
  match ts with
  | None => None
  | Some ts => Some (NormalizeTime ts)
  end.

Definition cloneTime (ts : option Time) : option Time :=
  match ts with
  | None => None
  | Some ts => Some ts
  end.

Definition timePtr (ts : Time) : option Time := Some (NormalizeTime ts).

(** ** Raw JSON *)

Abbreviation RawMessage := (option string) (only parsing).

Definition cloneRaw (raw : RawMessage) : RawMessage :=
  match raw with
  | None => None
  | Some bytes => Some bytes
  end.

(** [len(raw) == 0] *)
Definition raw_empty (raw : RawMessage) : bool :=
  match raw with
  | None | Some EmptyString => true
  | Some _ => false
  end.

(** ** Candidate pools *)

Module CandidatePool.
Record t : Type := mk {
  Users : list string;
  Groups : list string;
  Excluded : list string
}.
#[global] Instance eta_t : Eta t := fun p => mk (Users p) (Groups p) (Excluded p).
#[global] Instance eq_dec : EqDecision t.
Proof. solve_decision. Defined.

Definition empty : t := mk [] [] [].

Definition IsEmpty (p : t) : bool :=
  bool_decide (length (Users p) = 0) && bool_decide (length (Groups p) = 0).

Definition Clone (p : t) : t := mk (Users p) (Groups p) (Excluded p).

Definition Equal (p other : t) : bool :=
  bool_decide (Users p = Users other) &&
  bool_decide (Groups p = Groups other) &&
  bool_decide (Excluded p = Excluded other).
End CandidatePool.

(** ** Correlation and callback *)

Module CorrelationData.
Record t : Type := mk {
  OwnerType : string;
  OwnerRef : string;
  ActivityKey : string;
  Extra : gmap string string
}.
#[global] Instance eq_dec : EqDecision t.
Proof. solve_decision. Defined.

Definition empty : t := mk "" "" "" ∅.

Definition IsZero (c : t) : bool :=
  bool_decide (OwnerType c = "") && bool_decide (OwnerRef c = "") &&
  bool_decide (ActivityKey c = "") && bool_decide (size (Extra c) = 0).

Definition Clone (c : t) : t :=
  mk (OwnerType c) (OwnerRef c) (ActivityKey c) (Extra c).
End CorrelationData.

Module CallbackTarget.
Record t : Type := mk {
  Address : string;
  ReferenceParameters : RawMessage
}.
#[global] Instance eq_dec : EqDecision t.
Proof. solve_decision. Defined.

Definition IsZero (c : t) : bool :=
  bool_decide (Address c = "") && raw_empty (ReferenceParameters c).

Definition Clone (c : t) : t := mk (Address c) (cloneRaw (ReferenceParameters c)).
End CallbackTarget.

(** ** Escalation policies *)

Inductive EscalationAction : Type :=
| EscalationNotify
| EscalationWiden
| EscalationSupersede
| EscalationOther (raw : string).

#[global] Instance EscalationAction_eq_dec : EqDecision EscalationAction.
Proof. solve_decision. Defined.

Definition EscalationAction_Valid (a : EscalationAction) : bool :=
  match a with
  | EscalationNotify | EscalationWiden | EscalationSupersede => true
  | EscalationOther _ => false
  end.

Definition EscalationAction_String (a : EscalationAction) : string :=
  match a with
  | EscalationNotify => "NOTIFY"
  | EscalationWiden => "WIDEN"
  | EscalationSupersede => "SUPERSEDE"
  | EscalationOther raw => raw
  end.

Module EscalationPolicy.
Record t : Type := mk {
  Action : EscalationAction;
  AddUsers : list string;
  AddGroups : list string;
  ExemptInProgress : bool;
  MaxEscalations : Z
}.
#[global] Instance eq_dec : EqDecision t.
Proof. solve_decision. Defined.

Definition Clone (p : option t) : option t :=
  match p with
  | None => None
  | Some p =>
      Some (mk (Action p) (AddUsers p) (AddGroups p) (ExemptInProgress p)
               (MaxEscalations p))
  end.

Definition Equal (p other : option t) : bool :=
  match p, other with
  | None, None => true
  | None, Some _ | Some _, None => false
  | Some p, Some other =>
      bool_decide (Action p = Action other) &&
      bool_decide (ExemptInProgress p = ExemptInProgress other) &&
      bool_decide (MaxEscalations p = MaxEscalations other) &&
      bool_decide (AddUsers p = AddUsers other) &&
      bool_decide (AddGroups p = AddGroups other)
  end.
End EscalationPolicy.

(** ** Tasks *)

Module Task.
Record t : Type := mk {
  ID : string;
  Type_ : string;
  Version : Z;
  Status : Status;
  SuspendedFrom : Domain.Status;
  Priority : Z;
  Assignee : string;
  Candidates : CandidatePool.t;
  Correlation : CorrelationData.t;
  Callback : option CallbackTarget.t;
  Escalation : option EscalationPolicy.t;
  Input : RawMessage;
  Progress : RawMessage;
  Output : RawMessage;
  Reason : string;
  CreatedBy : string;
  EscalationCount : Z;
  CreatedAt : Time;
  UpdatedAt : Time;
  DueAt : option Time;
  StartedAt : option Time;
  ClosedAt : option Time;
  EscalatedAt : option Time;
  LockedBy : string;
  LockedUntil : option Time
}.

#[global] Instance eta_t : Eta t := fun x =>
  mk (ID x) (Type_ x) (Version x) (Status x) (SuspendedFrom x) (Priority x)
     (Assignee x) (Candidates x) (Correlation x) (Callback x) (Escalation x)
     (Input x) (Progress x) (Output x) (Reason x) (CreatedBy x)
     (EscalationCount x) (CreatedAt x) (UpdatedAt x) (DueAt x) (StartedAt x)
     (ClosedAt x) (EscalatedAt x) (LockedBy x) (LockedUntil x).
#[global] Instance eq_dec : EqDecision t.
Proof. solve_decision. Defined.

Definition Clone (x : t) : t :=
  let out := x in
  let out := out <| Candidates := CandidatePool.Clone (Candidates x) |> in
  let out := out <| Correlation := CorrelationData.Clone (Correlation x) |> in
  let out := out <| Escalation := EscalationPolicy.Clone (Escalation x) |> in
  let out := out <| Input := cloneRaw (Input x) |> in
  let out := out <| Progress := cloneRaw (Progress x) |> in
  let out := out <| Output := cloneRaw (Output x) |> in
  let out :=
    match Callback x with
    | Some cb => out <| Callback := Some (CallbackTarget.Clone cb) |>
    | None => out
    end in
  let out := out <| DueAt := cloneTime (DueAt x) |> in
  let out := out <| StartedAt := cloneTime (StartedAt x) |> in
  let out := out <| ClosedAt := cloneTime (ClosedAt x) |> in
  let out := out <| EscalatedAt := cloneTime (EscalatedAt x) |> in
  out <| LockedUntil := cloneTime (LockedUntil x) |>.

Definition Normalize (x : t) : t :=
  let out := Clone x in
  let out := out <| CreatedAt := NormalizeTime (CreatedAt x) |> in
  let out := out <| UpdatedAt := NormalizeTime (UpdatedAt x) |> in
  let out := out <| DueAt := normalizeTimePtr (DueAt x) |> in
  let out := out <| StartedAt := normalizeTimePtr (StartedAt x) |> in
  let out := out <| ClosedAt := normalizeTimePtr (ClosedAt x) |> in
  let out := out <| EscalatedAt := normalizeTimePtr (EscalatedAt x) |> in
  out <| LockedUntil := normalizeTimePtr (LockedUntil x) |>.

(** [!now.Before( *t.DueAt)] *)
Definition IsOverdue (x : t) (now : Time) : bool :=
  match DueAt x with
  | None => false
  | Some due =>
      if IsTerminal (Status x) || bool_decide (Status x = StatusSuspended)
      then false
      else negb (now <? due)%Z
  end.

Definition IsLeased (x : t) (now : Time) : bool :=
  match LockedUntil x with
  | None => false
  | Some until => (now <? until)%Z
  end.
End Task.

(** * Lemmas *)

Lemma scan_for_spec {A} `{EqDecision A} (s : A) l : scan_for s l = true <-> s ∈ l.
Proof.
  induction l as [|x l IH]; cbn; [set_solver|].
  case_decide as E; [subst; set_solver|]. rewrite IH. set_solver.
Qed.

(** The valid states are exactly the ten constants. *)
Lemma Status_Valid_iff s :
  Status_Valid s = true <-> forall raw, s <> StatusOther raw.
Proof.
  unfold Status_Valid. rewrite scan_for_spec. unfold allStatuses.
  destruct s; split; intros; try done; try set_solver; naive_solver.
Qed.

Lemma CanTransition_spec from to :
  CanTransition from to = true <-> Transition.mk from to ∈ legalTransitions.
Proof. apply contains_true. Qed.

(** Case analysis over the table: [transition_cases H] leaves one goal for each
    permitted pair. *)
Ltac transition_cases H :=
  apply CanTransition_spec in H; unfold legalTransitions in H;
  repeat (apply elem_of_cons in H as [H|H]; [injection H as -> -> |]);
  [.. | by apply not_elem_of_nil in H].

Lemma CanTransition_source from to :
  CanTransition from to = true -> IsTerminal from = false.
Proof. intros H. by transition_cases H. Qed.

Lemma CanTransition_valid from to :
  CanTransition from to = true -> Status_Valid from = true /\ Status_Valid to = true.
Proof. intros H. by transition_cases H. Qed.

Lemma IsSuspendable_CanTransition s :
  IsSuspendable s = CanTransition s StatusSuspended.
Proof. by destruct s. Qed.

Lemma AllowedTransitions_spec from to :
  to ∈ AllowedTransitions from <-> CanTransition from to = true.
Proof.
  unfold AllowedTransitions. rewrite CanTransition_spec, list_elem_of_fmap.
  split.
  - intros [[f t] [-> [Hf Hin]%list_elem_of_filter]]. cbn in *. by subst.
  - intros Hin. exists (Transition.mk from to). split; [done|].
    by apply list_elem_of_filter.
Qed.

(** ** Timestamps *)

Lemma NormalizeTime_idemp ts : NormalizeTime (NormalizeTime ts) = NormalizeTime ts.
Proof.
  unfold NormalizeTime, Microsecond.
  pose proof (Z.div_mod ts 1000).
  replace (ts - ts mod 1000)%Z with (ts / 1000 * 1000)%Z by lia.
  rewrite Z.mod_mul; lia.
Qed.

Lemma NormalizeTime_bounds ts : (ts - 1000 < NormalizeTime ts <= ts)%Z.
Proof.
  unfold NormalizeTime, Microsecond. pose proof (Z.mod_pos_bound ts 1000). lia.
Qed.

Lemma NormalizeTime_mono a b : (a <= b)%Z -> (NormalizeTime a <= NormalizeTime b)%Z.
Proof.
  unfold NormalizeTime, Microsecond. intros H.
  pose proof (Z.div_le_mono a b 1000). pose proof (Z.div_mod a 1000).
  pose proof (Z.div_mod b 1000). lia.
Qed.

Lemma normalizeTimePtr_idemp ts :
  normalizeTimePtr (normalizeTimePtr ts) = normalizeTimePtr ts.
Proof. destruct ts; cbn; [by rewrite NormalizeTime_idemp|done]. Qed.

Lemma cloneTime_id ts : cloneTime ts = ts.
Proof. by destruct ts. Qed.

Lemma cloneRaw_id raw : cloneRaw raw = raw.
Proof. by destruct raw. Qed.

Lemma Pool_Clone_id p : CandidatePool.Clone p = p.
Proof. by destruct p. Qed.

Lemma Correlation_Clone_id c : CorrelationData.Clone c = c.
Proof. by destruct c. Qed.

Lemma Callback_Clone_id c : CallbackTarget.Clone c = c.
Proof. destruct c as [? []]; done. Qed.

Lemma Policy_Clone_id p : EscalationPolicy.Clone p = p.
Proof. destruct p as [[]|]; done. Qed.

#[export] Hint Rewrite cloneTime_id cloneRaw_id Pool_Clone_id Correlation_Clone_id
  Callback_Clone_id Policy_Clone_id NormalizeTime_idemp normalizeTimePtr_idemp : hmntsk.

(** A deep copy equals the original: copying loses nothing. *)
Lemma Task_Clone_id x : Task.Clone x = x.
Proof.
  destruct x as [????????? [[? []]|] [[]|] [] [] [] ????? [] [] [] [] ? []];
    unfold Task.Clone; cbn;
    by rewrite ?Pool_Clone_id, ?Correlation_Clone_id.
Qed.
#[export] Hint Rewrite Task_Clone_id : hmntsk.

Lemma Task_Normalize_idemp x : Task.Normalize (Task.Normalize x) = Task.Normalize x.
Proof.
  unfold Task.Normalize. rewrite !Task_Clone_id. destruct x; cbn.
  by autorewrite with hmntsk.
Qed.

Lemma IsOverdue_iff x now :
  Task.IsOverdue x now = true <->
  IsTerminal (Task.Status x) = false /\ Task.Status x <> StatusSuspended /\
  exists due, Task.DueAt x = Some due /\ (due <= now)%Z.
Proof.
  unfold Task.IsOverdue. destruct (Task.DueAt x) as [due|]; [|naive_solver].
  destruct (IsTerminal _); cbn; [naive_solver|].
  case_bool_decide; [naive_solver|]. rewrite negb_true_iff, Z.ltb_ge. naive_solver.
Qed.
