(* ===== verification/Errors.v ===== *)
(** * Errors: the engine's error taxonomy

    Models [errors.go] and the error type of [outbox.go]: the concrete error
    types, the text each renders, and which sentinel each matches under
    [errors.Is].  An error that comes from code the engine does not own (the
    host's directory, a strategy, a sink, a cancelled context) is
    [ExternalError], with its text and the sentinels it matches of its own. *)

From S2P Require Import Prelude Domain.

(** ** Sentinels *)

Inductive Sentinel : Type :=
| ErrConflict
| ErrIllegalTransition
| ErrNotFound
| ErrValidation
| ErrUnregisteredType
| ErrUnauthorized
| ErrGroupResolution
| ErrConfiguration.

#[global] Instance Sentinel_eq_dec : EqDecision Sentinel.
Proof. solve_decision. Defined.

(** What [fmt.Errorf] with [%w] makes a sentinel match besides itself. *)
Definition Sentinel_Unwrap (s : Sentinel) : option Sentinel :=
  match s with
  | ErrIllegalTransition => Some ErrConflict
  | ErrUnregisteredType => Some ErrValidation
  | _ => None
  end.

Definition sentinel_is (s target : Sentinel) : bool :=
  bool_decide (s = target) ||
  match Sentinel_Unwrap s with
  | Some s' => bool_decide (s' = target)
  | None => false
  end.

(** ** Error values *)

Module ValidationIssue.
Record t : Type := mk { Pointer : string; Detail : string }.
#[global] Instance eq_dec : EqDecision t.
Proof. solve_decision. Defined.

Definition String_ (i : t) : string :=
  if decide (Pointer i = "") then Detail i else Pointer i +:+ ": " +:+ Detail i.
End ValidationIssue.

Inductive error : Type :=
| ConflictError (TaskID : string) (Expected Current : Z)
| TransitionError (TaskID Operation : string) (From To : Status)
| NotFoundError (TaskID : string)
| ValidationError (Subject : string) (Issues : list ValidationIssue.t)
| UnregisteredTypeError (Type_ : string)
| AuthorizationError (TaskID Actor Operation Reason : string)
| GroupResolutionError (Actor : string) (Groups : list string) (Cause : option error)
| ConfigurationError (Detail : string)
| OutboxNotFoundError (EventID : string)
| Wrapped (prefix : string) (inner : error)
| ExternalError (text : string) (matches : list Sentinel).

(** The methods [Error]. *)
Fixpoint Error (e : error) : string :=
  match e with
  | ConflictError TaskID Expected Current =>
      "hmntsk: conflict on task " +:+ TaskID +:+ ": expected version " +:+
      pretty Expected +:+ ", current version " +:+ pretty Current
  | TransitionError TaskID Operation From To =>
      if decide (To = StatusNone)
      then "hmntsk: " +:+ Operation +:+ " is not legal on task " +:+ TaskID +:+
           " in state " +:+ Status_String From
      else "hmntsk: " +:+ Operation +:+ " cannot move task " +:+ TaskID +:+
           " from " +:+ Status_String From +:+ " to " +:+ Status_String To
  | NotFoundError TaskID => "hmntsk: task " +:+ TaskID +:+ " not found"
  | ValidationError Subject Issues =>
      let subject := if decide (Subject = "") then "value" else Subject in
      match Issues with
      | [] => "hmntsk: " +:+ subject +:+ " is not valid"
      | _ => "hmntsk: " +:+ subject +:+ " is not valid: " +:+
             String.concat "; " (ValidationIssue.String_ <$> Issues)
      end
  | UnregisteredTypeError Type_ =>
      "hmntsk: task type " +:+ quote Type_ +:+ " is not registered"
  | AuthorizationError TaskID Actor Operation Reason =>
      let reason := if decide (Reason = "") then "actor is not permitted" else Reason in
      "hmntsk: " +:+ Operation +:+ " refused on task " +:+ TaskID +:+
      " for actor " +:+ quote Actor +:+ ": " +:+ reason
  | GroupResolutionError Actor Groups Cause =>
      "hmntsk: resolving groups " +:+ show_strings Groups +:+ " for actor " +:+
      quote Actor +:+ ": " +:+
      match Cause with None => "<nil>" | Some cause => Error cause end
  | ConfigurationError Detail => "hmntsk: invalid configuration: " +:+ Detail
  | OutboxNotFoundError EventID => "hmntsk: outbox entry " +:+ EventID +:+ " not found"
  | Wrapped prefix inner => prefix +:+ Error inner
  | ExternalError text _ => text
  end.

(** [errors.Is(e, target)]: the sentinels found by following every [Unwrap]. *)
Fixpoint errors_Is (e : error) (target : Sentinel) : bool :=
  match e with
  | ConflictError _ _ _ => sentinel_is ErrConflict target
  | TransitionError _ _ _ _ => sentinel_is ErrIllegalTransition target
  | NotFoundError _ => sentinel_is ErrNotFound target
  | ValidationError _ _ => sentinel_is ErrValidation target
  | UnregisteredTypeError _ => sentinel_is ErrUnregisteredType target
  | AuthorizationError _ _ _ _ => sentinel_is ErrUnauthorized target
  | GroupResolutionError _ _ Cause =>
      sentinel_is ErrGroupResolution target ||
      match Cause with None => false | Some cause => errors_Is cause target end
  | ConfigurationError _ => sentinel_is ErrConfiguration target
  | OutboxNotFoundError _ => sentinel_is ErrNotFound target
  | Wrapped _ inner => errors_Is inner target
  | ExternalError _ own => existsb (fun s => sentinel_is s target) own
  end.

Abbreviation res := (result error).

(** [errors.Join(errs...)]: nil when every error is nil. *)
Definition errors_Join (errs : list error) : option error :=
  match errs with
  | [] => None
  | _ =>
      Some (ExternalError (String.concat (String (Ascii.ascii_of_nat 10) EmptyString)
                             (Error <$> errs))
              (filter (fun s => existsb (fun e => errors_Is e s) errs = true)
                 [ErrConflict; ErrIllegalTransition; ErrNotFound; ErrValidation;
                  ErrUnregisteredType; ErrUnauthorized; ErrGroupResolution;
                  ErrConfiguration]))
  end.

(** * Lemmas *)

Lemma TransitionError_Is id op from to s :
  errors_Is (TransitionError id op from to) s = true <->
  s = ErrIllegalTransition \/ s = ErrConflict.
Proof. destruct s; cbn; naive_solver. Qed.

Lemma ConflictError_Is id exp cur s :
  errors_Is (ConflictError id exp cur) s = true <-> s = ErrConflict.
Proof. destruct s; cbn; naive_solver. Qed.

(** Wrapping an error changes its text and nothing it matches. *)
Lemma Wrapped_Is prefix e s : errors_Is (Wrapped prefix e) s = errors_Is e s.
Proof. done. Qed.
