(* ===== verification/Event.v ===== *)
(** * Event: operations, history records and the closed event catalogue

    Models [history.go] and [event.go]. *)

From S2P Require Import Prelude Domain.

(** ** Operations *)

Inductive Operation : Type :=
| OpCreate | OpClaim | OpRelease | OpStart | OpSaveProgress | OpComplete | OpFail
| OpDelegate | OpSuspend | OpResume | OpEscalate | OpCancel | OpObsolete | OpFault.

#[global] Instance Operation_eq_dec : EqDecision Operation.
Proof. solve_decision. Defined.

Definition Operation_String (o : Operation) : string :=
  match o with
  | OpCreate => "Create" | OpClaim => "Claim" | OpRelease => "Release"
  | OpStart => "Start" | OpSaveProgress => "SaveProgress" | OpComplete => "Complete"
  | OpFail => "Fail" | OpDelegate => "Delegate" | OpSuspend => "Suspend"
  | OpResume => "Resume" | OpEscalate => "Escalate" | OpCancel => "Cancel"
  | OpObsolete => "Obsolete" | OpFault => "Fault"
  end.

(** ** The audit record of one transition *)

Module TransitionRecord.
Record t : Type := mk {
  TaskID : string;
  Version : Z;
  Operation : Operation;
  From : Status;
  To : Status;
  Actor : string;
  Comment : string;
  At : Time
}.
#[global] Instance eta_t : Eta t := fun r =>
  mk (TaskID r) (Version r) (Operation r) (From r) (To r) (Actor r) (Comment r) (At r).
#[global] Instance eq_dec : EqDecision t.
Proof. solve_decision. Defined.
End TransitionRecord.

(** ** Event types *)

(** [EventTypeOther raw] stands for a string outside the catalogue, such as the
    empty string a map lookup yields for an operation that has no event. *)
Inductive EventType : Type :=
| EventTypeCreated | EventTypeClaimed | EventTypeReleased | EventTypeStarted
| EventTypeDelegated | EventTypeCompleted | EventTypeFailed | EventTypeSuspended
| EventTypeResumed | EventTypeEscalated | EventTypeCancelled | EventTypeObsoleted
| EventTypeErrored
| EventTypeOther (raw : string).

#[global] Instance EventType_eq_dec : EqDecision EventType.
Proof. solve_decision. Defined.

Definition eventCatalogue : list EventType :=
  [EventTypeCreated; EventTypeClaimed; EventTypeReleased; EventTypeStarted;
   EventTypeDelegated; EventTypeCompleted; EventTypeFailed; EventTypeSuspended;
   EventTypeResumed; EventTypeEscalated; EventTypeCancelled; EventTypeObsoleted;
   EventTypeErrored].

Definition EventType_Valid (e : EventType) : bool := scan_for e eventCatalogue.

Definition EventType_String (e : EventType) : string :=
  match e with
  | EventTypeCreated => "task.created" | EventTypeClaimed => "task.claimed"
  | EventTypeReleased => "task.released" | EventTypeStarted => "task.started"
  | EventTypeDelegated => "task.delegated" | EventTypeCompleted => "task.completed"
  | EventTypeFailed => "task.failed" | EventTypeSuspended => "task.suspended"
  | EventTypeResumed => "task.resumed" | EventTypeEscalated => "task.escalated"
  | EventTypeCancelled => "task.cancelled" | EventTypeObsoleted => "task.obsoleted"
  | EventTypeErrored => "task.errored"
  | EventTypeOther raw => raw
  end.

(** [operationEventTypes], with the presence bit of a map probe. *)
Definition EventTypeForOperation (op : Operation) : option EventType :=
  match op with
  | OpCreate => Some EventTypeCreated
  | OpClaim => Some EventTypeClaimed
  | OpRelease => Some EventTypeReleased
  | OpStart => Some EventTypeStarted
  | OpDelegate => Some EventTypeDelegated
  | OpComplete => Some EventTypeCompleted
  | OpFail => Some EventTypeFailed
  | OpSuspend => Some EventTypeSuspended
  | OpResume => Some EventTypeResumed
  | OpEscalate => Some EventTypeEscalated
  | OpCancel => Some EventTypeCancelled
  | OpObsolete => Some EventTypeObsoleted
  | OpFault => Some EventTypeErrored
  | OpSaveProgress => None
  end.

(** [operationEventTypes[op]]: the zero value for an absent key. *)
Definition operationEventTypes (op : Operation) : EventType :=
  default (EventTypeOther "") (EventTypeForOperation op).

(** ** Events *)

Module Event.
Record t : Type := mk {
  ID : string;
  Type_ : EventType;
  TaskID : string;
  TaskType : string;
  Status : Status;
  Version : Z;
  Actor : string;
  Assignee : string;
  Candidates : CandidatePool.t;
  PreviousAssignee : string;
  CreatedBy : string;
  OccurredAt : Time;
  Correlation : CorrelationData.t;
  Callback : option CallbackTarget.t;
  Transition : TransitionRecord.t;
  Reason : string;
  Output : RawMessage
}.
#[global] Instance eta_t : Eta t := fun e =>
  mk (ID e) (Type_ e) (TaskID e) (TaskType e) (Status e) (Version e) (Actor e)
     (Assignee e) (Candidates e) (PreviousAssignee e) (CreatedBy e) (OccurredAt e)
     (Correlation e) (Callback e) (Transition e) (Reason e) (Output e).
#[global] Instance eq_dec : EqDecision t.
Proof. solve_decision. Defined.
End Event.

(** * Lemmas *)

(** Distinct operations have distinct event types, all in the catalogue. *)
Lemma EventTypeForOperation_inj op op' et :
  EventTypeForOperation op = Some et -> EventTypeForOperation op' = Some et -> op = op'.
Proof. by destruct op, op'; cbn; intros [= <-] [=]. Qed.

Lemma EventTypeForOperation_valid op et :
  EventTypeForOperation op = Some et -> EventType_Valid et = true.
Proof. by destruct op; intros [= <-]. Qed.
