(* ===== verification/Lifecycle.v ===== *)
(** * Lifecycle: the state machine of one task

    Models [transitions.go] and the exemption rule of [sweep.go].  Every
    operation is a pure function from a task to a new task and its events; on
    error the caller keeps the task it had, so the result carries no task.

    [requireFrom], [requireActor], [requireAssignee] and [requireAssigneeIfHeld]
    are the guards; [record] builds the next task, its audit record and its
    event.  [saveProgressGuard] and [saveProgressRecord] are the two ends of the
    closure inside [Service.SaveProgress] ([service.go]); the patch and the shape
    check between them are in the service's file, because they need the registry. *)

From S2P Require Import Prelude Domain Errors Event.

(** ** Guards *)

Definition requireFrom (t : Task.t) (op : Operation) (to : Status) (from : list Status)
  : res unit :=
  if contains from (Task.Status t) && CanTransition (Task.Status t) to then Ok tt
  else Err (TransitionError (Task.ID t) (Operation_String op) (Task.Status t) to).

Definition requireActor (id : string) (op : Operation) (actor : string) : res unit :=
  if decide (actor <> "") then Ok tt
  else Err (AuthorizationError id "" (Operation_String op) "no acting actor was supplied").

Definition requireAssignee (t : Task.t) (op : Operation) (actor : string) : res unit :=
  try! _ := requireActor (Task.ID t) op actor in
  if decide (Task.Assignee t = "")
  then Err (AuthorizationError (Task.ID t) actor (Operation_String op)
              "task has no assignee")
  else if decide (Task.Assignee t <> actor)
  then Err (AuthorizationError (Task.ID t) actor (Operation_String op)
              "actor is not the assignee")
  else Ok tt.

Definition requireAssigneeIfHeld (t : Task.t) (op : Operation) (actor : string) : res unit :=
  if decide (Task.Assignee t = "") then requireActor (Task.ID t) op actor
  else requireAssignee t op actor.

(** ** Building the next task and its event *)

Definition cloneNonEmpty (values : list string) : list string :=
  if decide (length values = 0) then [] else values.

Definition snapshotPool (pool : CandidatePool.t) : CandidatePool.t :=
  CandidatePool.mk (cloneNonEmpty (CandidatePool.Users pool))
    (cloneNonEmpty (CandidatePool.Groups pool))
    (cloneNonEmpty (CandidatePool.Excluded pool)).

(** The loop appends to the slice it tests, so a candidate repeated in [extra]
    is added once. *)
Fixpoint appendMissing (base extra : list string) : list string :=
  match extra with
  | [] => base
  | candidate :: extra' =>
      appendMissing (if contains base candidate then base else base ++ [candidate]) extra'
  end.

(** The event's reason is the comment of the operations that close a task
    without an output. *)
Definition eventReason (op : Operation) (comment : string) : string :=
  match op with
  | OpFail | OpCancel | OpObsolete | OpFault => comment
  | OpCreate | OpClaim | OpRelease | OpStart | OpSaveProgress | OpComplete
  | OpDelegate | OpSuspend | OpResume | OpEscalate => ""
  end.

(** [record] in three parts: the next task, the audit record, the event. *)
Definition recordNext (t : Task.t) (to : Status) (now : Time)
    (mutate : Task.t -> Task.t) : Task.t :=
  let at_ := NormalizeTime now in
  let next := Task.Clone t in
  let next := next <| Task.Status := to |> in
  let next := next <| Task.Version := wrap64 (Task.Version t + 1)%Z |> in
  let next := next <| Task.UpdatedAt := at_ |> in
  let next := mutate next in
  if IsTerminal to then
    let next :=
      match Task.ClosedAt next with
      | None => next <| Task.ClosedAt := Some at_ |>
      | Some _ => next
      end in
    let next := next <| Task.LockedBy := "" |> in
    next <| Task.LockedUntil := None |>
  else next.

Definition recordTransition (t : Task.t) (op : Operation) (to : Status)
    (actor comment : string) (now : Time) (next : Task.t) : TransitionRecord.t :=
  {| TransitionRecord.TaskID := Task.ID t;
     TransitionRecord.Version := Task.Version next;
     TransitionRecord.Operation := op;
     TransitionRecord.From := Task.Status t;
     TransitionRecord.To := to;
     TransitionRecord.Actor := actor;
     TransitionRecord.Comment := comment;
     TransitionRecord.At := NormalizeTime now |}.

Definition recordEvent (t : Task.t) (op : Operation) (to : Status)
    (actor comment : string) (now : Time) (next : Task.t) : Event.t :=
  {| Event.ID := "";
     Event.Type_ := operationEventTypes op;
     Event.TaskID := Task.ID next;
     Event.TaskType := Task.Type_ next;
     Event.Status := Task.Status next;
     Event.Version := Task.Version next;
     Event.Actor := actor;
     Event.Assignee := Task.Assignee next;
     Event.Candidates := snapshotPool (Task.Candidates next);
     Event.PreviousAssignee :=
       if decide (Task.Assignee t <> "" /\ Task.Assignee t <> Task.Assignee next)
       then Task.Assignee t else "";
     Event.CreatedBy := Task.CreatedBy next;
     Event.OccurredAt := NormalizeTime now;
     Event.Correlation := CorrelationData.Clone (Task.Correlation next);
     Event.Callback :=
       match Task.Callback next with
       | Some callback => Some (CallbackTarget.Clone callback)
       | None => None
       end;
     Event.Transition := recordTransition t op to actor comment now next;
     Event.Reason := eventReason op comment;
     Event.Output := None |}.

Definition record (t : Task.t) (op : Operation) (to : Status) (actor comment : string)
    (now : Time) (mutate : Task.t -> Task.t) : Task.t * list Event.t :=
  let next := recordNext t to now mutate in
  (next, [recordEvent t op to actor comment now next]).

(** ** The operations *)

Definition Activate (t : Task.t) (actor assignee : string) (now : Time)
  : res (Task.t * list Event.t) :=
  let to := if decide (assignee <> "") then StatusReserved else StatusReady in
  try! _ := requireFrom t OpCreate to [StatusCreated] in
  Ok (record t OpCreate to actor "" now (fun next =>
        next <| Task.Assignee := assignee |>)).

Definition Fault (t : Task.t) (reason : string) (now : Time)
  : res (Task.t * list Event.t) :=
  try! _ := requireFrom t OpFault StatusError [StatusCreated; StatusInProgress] in
  Ok (record t OpFault StatusError "" reason now (fun next =>
        next <| Task.Reason := reason |>)).

Definition Claim (t : Task.t) (actor : string) (now : Time)
  : res (Task.t * list Event.t) :=
  try! _ := requireFrom t OpClaim StatusReserved [StatusReady] in
  try! _ := requireActor (Task.ID t) OpClaim actor in
  Ok (record t OpClaim StatusReserved actor "" now (fun next =>
        next <| Task.Assignee := actor |>)).

Definition Release (t : Task.t) (actor comment : string) (now : Time)
  : res (Task.t * list Event.t) :=
  try! _ := requireFrom t OpRelease StatusReady [StatusReserved] in
  try! _ := requireAssignee t OpRelease actor in
  Ok (record t OpRelease StatusReady actor comment now (fun next =>
        next <| Task.Assignee := "" |>)).

Definition Start (t : Task.t) (actor : string) (now : Time)
  : res (Task.t * list Event.t) :=
  try! _ := requireFrom t OpStart StatusInProgress [StatusReserved] in
  try! _ := requireAssignee t OpStart actor in
  Ok (record t OpStart StatusInProgress actor "" now (fun next =>
        match Task.StartedAt next with
        | None => next <| Task.StartedAt := Some (NormalizeTime now) |>
        | Some _ => next
        end)).

(** [events[0].Output = cloneRaw(output)] *)
Definition setFirstOutput (events : list Event.t) (output : RawMessage) : list Event.t :=
  match events with
  | [] => []
  | e :: rest => (e <| Event.Output := cloneRaw output |>) :: rest
  end.

Definition Complete (t : Task.t) (actor : string) (output : RawMessage)
    (comment : string) (now : Time) : res (Task.t * list Event.t) :=
  try! _ := requireFrom t OpComplete StatusCompleted [StatusInProgress] in
  try! _ := requireAssignee t OpComplete actor in
  let '(next, events) :=
    record t OpComplete StatusCompleted actor comment now (fun next =>
      next <| Task.Output := cloneRaw output |>) in
  Ok (next, setFirstOutput events output).

Definition Fail (t : Task.t) (actor reason : string) (now : Time)
  : res (Task.t * list Event.t) :=
  try! _ := requireFrom t OpFail StatusFailed [StatusInProgress] in
  try! _ := requireAssignee t OpFail actor in
  Ok (record t OpFail StatusFailed actor reason now (fun next =>
        next <| Task.Reason := reason |>)).

Definition Delegate (t : Task.t) (actor target comment : string) (now : Time)
  : res (Task.t * list Event.t) :=
  try! _ := requireFrom t OpDelegate StatusReserved [StatusReserved; StatusInProgress] in
  try! _ := requireAssignee t OpDelegate actor in
  if decide (target = "")
  then Err (ValidationError "request"
              [ValidationIssue.mk "/delegate" "no delegate was named"])
  else
    Ok (record t OpDelegate StatusReserved actor comment now (fun next =>
          next <| Task.Assignee := target |>)).

Definition Suspend (t : Task.t) (actor comment : string) (now : Time)
  : res (Task.t * list Event.t) :=
  try! _ := requireFrom t OpSuspend StatusSuspended
              [StatusReady; StatusReserved; StatusInProgress] in
  try! _ := requireAssigneeIfHeld t OpSuspend actor in
  let from := Task.Status t in
  Ok (record t OpSuspend StatusSuspended actor comment now (fun next =>
        next <| Task.SuspendedFrom := from |>)).

Definition Resume (t : Task.t) (actor comment : string) (now : Time)
  : res (Task.t * list Event.t) :=
  if negb (IsSuspendable (Task.SuspendedFrom t))
  then Err (TransitionError (Task.ID t) (Operation_String OpResume) (Task.Status t)
              (Task.SuspendedFrom t))
  else
    try! _ := requireFrom t OpResume (Task.SuspendedFrom t) [StatusSuspended] in
    try! _ := requireAssigneeIfHeld t OpResume actor in
    Ok (record t OpResume (Task.SuspendedFrom t) actor comment now (fun next =>
          next <| Task.SuspendedFrom := StatusNone |>)).

Definition Obsolete (t : Task.t) (actor reason : string) (now : Time)
  : res (Task.t * list Event.t) :=
  try! _ := requireFrom t OpObsolete StatusObsolete [StatusReady; StatusReserved] in
  Ok (record t OpObsolete StatusObsolete actor reason now (fun next =>
        next <| Task.Reason := reason |>)).

Definition Escalate (t : Task.t) (actor : string) (policy : option EscalationPolicy.t)
    (comment : string) (now : Time) : res (Task.t * list Event.t) :=
  let supersedes :=
    match policy with
    | Some p => bool_decide (EscalationPolicy.Action p = EscalationSupersede)
    | None => false
    end in
  if supersedes then Obsolete t actor comment now
  else if negb (contains [StatusReady; StatusReserved; StatusInProgress] (Task.Status t))
  then Err (TransitionError (Task.ID t) (Operation_String OpEscalate)
              (Task.Status t) (Task.Status t))
  else
    Ok (record t OpEscalate (Task.Status t) actor comment now (fun next =>
          let next := next <| Task.EscalationCount :=
                        wrap64 (Task.EscalationCount t + 1)%Z |> in
          let next := next <| Task.EscalatedAt := timePtr now |> in
          match policy with
          | Some p =>
              if decide (EscalationPolicy.Action p = EscalationWiden) then
                let pool := Task.Candidates next in
                next <| Task.Candidates :=
                  CandidatePool.mk
                    (appendMissing (CandidatePool.Users pool) (EscalationPolicy.AddUsers p))
                    (appendMissing (CandidatePool.Groups pool) (EscalationPolicy.AddGroups p))
                    (CandidatePool.Excluded pool) |>
              else next
          | None => next
          end)).

Definition Cancel (t : Task.t) (actor reason : string) (now : Time)
  : res (Task.t * list Event.t) :=
  try! _ := requireFrom t OpCancel StatusExited
              [StatusReady; StatusReserved; StatusInProgress; StatusSuspended] in
  Ok (record t OpCancel StatusExited actor reason now (fun next =>
        next <| Task.Reason := reason |>)).

(** ** The two ends of a progress save *)

Definition saveProgressGuard (t : Task.t) (actor : string) : res Status :=
  try! to :=
    match Task.Status t with
    | StatusReserved =>
        try! _ := requireFrom t OpSaveProgress StatusInProgress [StatusReserved] in
        Ok StatusInProgress
    | StatusInProgress => Ok (Task.Status t)
    | _ => Err (TransitionError (Task.ID t) (Operation_String OpSaveProgress)
                  (Task.Status t) StatusInProgress)
    end in
  try! _ := requireAssignee t OpSaveProgress actor in
  Ok to.

Definition saveProgressStarted (t : Task.t) : bool :=
  bool_decide (Task.Status t = StatusReserved).

Definition saveProgressRecord (t : Task.t) (to : Status) (actor comment : string)
    (merged : RawMessage) (now : Time) : Task.t * list Event.t :=
  record t OpSaveProgress to actor comment now (fun next =>
    let next := next <| Task.Progress := merged |> in
    match Task.StartedAt next with
    | None =>
        if saveProgressStarted t then next <| Task.StartedAt := timePtr now |> else next
    | Some _ => next
    end).

(** The records a set of events carries. *)
Definition recordsOf (events : list Event.t) : list TransitionRecord.t :=
  Event.Transition <$> events.
