(* ===== verification/LifecycleFacts.v ===== *)
(** * LifecycleFacts: what the state machine guarantees

    The twelve public operations and the two engine-internal ones as a type of
    commands with one interpreter, the well-formedness invariant of a task, and
    the theorems: legality of every move, preservation of the invariant,
    absorption of the terminal states, precedence of the state check over the
    actor check, faithfulness of the event, and the suspend/resume round trip. *)

From S2P Require Import Prelude Domain Errors Event Lifecycle.

(** ** Commands *)

Inductive Command : Type :=
| CmdActivate (actor assignee : string)
| CmdFault (reason : string)
| CmdClaim (actor : string)
| CmdRelease (actor comment : string)
| CmdStart (actor : string)
| CmdSaveProgress (actor comment : string) (merged : RawMessage)
| CmdComplete (actor : string) (output : RawMessage) (comment : string)
| CmdFail (actor reason : string)
| CmdDelegate (actor target comment : string)
| CmdSuspend (actor comment : string)
| CmdResume (actor comment : string)
| CmdEscalate (actor : string) (policy : option EscalationPolicy.t) (comment : string)
| CmdObsolete (actor reason : string)
| CmdCancel (actor reason : string).

(** The operation one command runs.  A save is its guard followed by its record;
    the patch and the shape check in between only choose [merged] or refuse. *)
Definition exec (c : Command) (t : Task.t) (now : Time) : res (Task.t * list Event.t) :=
  match c with
  | CmdActivate actor assignee => Activate t actor assignee now
  | CmdFault reason => Fault t reason now
  | CmdClaim actor => Claim t actor now
  | CmdRelease actor comment => Release t actor comment now
  | CmdStart actor => Start t actor now
  | CmdSaveProgress actor comment merged =>
      try! to := saveProgressGuard t actor in
      Ok (saveProgressRecord t to actor comment merged now)
  | CmdComplete actor output comment => Complete t actor output comment now
  | CmdFail actor reason => Fail t actor reason now
  | CmdDelegate actor target comment => Delegate t actor target comment now
  | CmdSuspend actor comment => Suspend t actor comment now
  | CmdResume actor comment => Resume t actor comment now
  | CmdEscalate actor policy comment => Escalate t actor policy comment now
  | CmdObsolete actor reason => Obsolete t actor reason now
  | CmdCancel actor reason => Cancel t actor reason now
  end.

(** Whether the state alone permits a command, written from the documentation of
    the operations rather than from their code. *)
Definition supersedes (policy : option EscalationPolicy.t) : bool :=
  match policy with
  | Some p => bool_decide (EscalationPolicy.Action p = EscalationSupersede)
  | None => false
  end.

Definition permitted (c : Command) (t : Task.t) : bool :=
  match c, Task.Status t with
  | CmdActivate _ _, StatusCreated => true
  | CmdFault _, (StatusCreated | StatusInProgress) => true
  | CmdClaim _, StatusReady => true
  | (CmdRelease _ _ | CmdStart _), StatusReserved => true
  | (CmdComplete _ _ _ | CmdFail _ _), StatusInProgress => true
  | (CmdSaveProgress _ _ _ | CmdDelegate _ _ _), (StatusReserved | StatusInProgress) => true
  | CmdSuspend _ _, (StatusReady | StatusReserved | StatusInProgress) => true
  | CmdResume _ _, StatusSuspended => IsSuspendable (Task.SuspendedFrom t)
  | CmdEscalate _ policy _, (StatusReady | StatusReserved) => true
  | CmdEscalate _ policy _, StatusInProgress => negb (supersedes policy)
  | CmdObsolete _ _, (StatusReady | StatusReserved) => true
  | CmdCancel _ _, (StatusReady | StatusReserved | StatusInProgress | StatusSuspended) => true
  | _, _ => false
  end.

(** The actor rule of each command: who may run it on this task. *)
Definition may_act (c : Command) (t : Task.t) : bool :=
  match c with
  | CmdClaim actor => bool_decide (actor <> "")
  | CmdRelease actor _ | CmdStart actor | CmdSaveProgress actor _ _
  | CmdComplete actor _ _ | CmdFail actor _ | CmdDelegate actor _ _ =>
      bool_decide (actor <> "" /\ actor = Task.Assignee t)
  | CmdSuspend actor _ | CmdResume actor _ =>
      bool_decide (actor <> "" /\ (Task.Assignee t = "" \/ actor = Task.Assignee t))
  | CmdActivate _ _ | CmdFault _ | CmdEscalate _ _ _ | CmdObsolete _ _ | CmdCancel _ _ => true
  end.

Definition well_formed_args (c : Command) : bool :=
  match c with
  | CmdDelegate _ target _ => bool_decide (target <> "")
  | _ => true
  end.

(** The state a command moves the task to. *)
Definition target_status (c : Command) (t : Task.t) : Status :=
  match c with
  | CmdActivate _ assignee => if decide (assignee <> "") then StatusReserved else StatusReady
  | CmdFault _ => StatusError
  | CmdClaim _ | CmdDelegate _ _ _ => StatusReserved
  | CmdRelease _ _ => StatusReady
  | CmdStart _ | CmdSaveProgress _ _ _ => StatusInProgress
  | CmdComplete _ _ _ => StatusCompleted
  | CmdFail _ _ => StatusFailed
  | CmdSuspend _ _ => StatusSuspended
  | CmdResume _ _ => Task.SuspendedFrom t
  | CmdEscalate _ policy _ => if supersedes policy then StatusObsolete else Task.Status t
  | CmdObsolete _ _ => StatusObsolete
  | CmdCancel _ _ => StatusExited
  end.

Definition command_op (c : Command) : Operation :=
  match c with
  | CmdActivate _ _ => OpCreate
  | CmdFault _ => OpFault
  | CmdClaim _ => OpClaim
  | CmdRelease _ _ => OpRelease
  | CmdStart _ => OpStart
  | CmdSaveProgress _ _ _ => OpSaveProgress
  | CmdComplete _ _ _ => OpComplete
  | CmdFail _ _ => OpFail
  | CmdDelegate _ _ _ => OpDelegate
  | CmdSuspend _ _ => OpSuspend
  | CmdResume _ _ => OpResume
  | CmdEscalate _ policy _ => if supersedes policy then OpObsolete else OpEscalate
  | CmdObsolete _ _ => OpObsolete
  | CmdCancel _ _ => OpCancel
  end.

Definition command_actor (c : Command) : string :=
  match c with
  | CmdFault _ => ""
  | CmdActivate actor _ | CmdClaim actor | CmdRelease actor _ | CmdStart actor
  | CmdSaveProgress actor _ _ | CmdComplete actor _ _ | CmdFail actor _
  | CmdDelegate actor _ _ | CmdSuspend actor _ | CmdResume actor _
  | CmdEscalate actor _ _ | CmdObsolete actor _ | CmdCancel actor _ => actor
  end.

Definition command_comment (c : Command) : string :=
  match c with
  | CmdActivate _ _ | CmdClaim _ | CmdStart _ => ""
  | CmdFault comment | CmdRelease _ comment | CmdSaveProgress _ comment _
  | CmdComplete _ _ comment | CmdFail _ comment | CmdDelegate _ _ comment
  | CmdSuspend _ comment | CmdResume _ comment | CmdEscalate _ _ comment
  | CmdObsolete _ comment | CmdCancel _ comment => comment
  end.

(** The pool an escalation leaves. *)
Definition widened (policy : option EscalationPolicy.t) (pool : CandidatePool.t)
  : CandidatePool.t :=
  match policy with
  | Some p =>
      if decide (EscalationPolicy.Action p = EscalationWiden) then
        CandidatePool.mk
          (appendMissing (CandidatePool.Users pool) (EscalationPolicy.AddUsers p))
          (appendMissing (CandidatePool.Groups pool) (EscalationPolicy.AddGroups p))
          (CandidatePool.Excluded pool)
      else pool
  | None => pool
  end.

(** The effect of each command beyond status, version and timestamps: the
    reference the operations are compared with. *)
Definition effect (c : Command) (t : Task.t) (now : Time) (next : Task.t) : Task.t :=
  match c with
  | CmdActivate _ assignee => next <| Task.Assignee := assignee |>
  | CmdClaim actor => next <| Task.Assignee := actor |>
  | CmdRelease _ _ => next <| Task.Assignee := "" |>
  | CmdDelegate _ target _ => next <| Task.Assignee := target |>
  | CmdStart _ =>
      next <| Task.StartedAt := Some (default (NormalizeTime now) (Task.StartedAt t)) |>
  | CmdSaveProgress _ _ merged =>
      next <| Task.Progress := merged |>
           <| Task.StartedAt :=
             match Task.StartedAt t with
             | Some at_ => Some at_
             | None =>
                 if decide (Task.Status t = StatusReserved) then Some (NormalizeTime now)
                 else None
             end |>
  | CmdComplete _ output _ => next <| Task.Output := output |>
  | CmdFault reason | CmdFail _ reason | CmdObsolete _ reason | CmdCancel _ reason =>
      next <| Task.Reason := reason |>
  | CmdSuspend _ _ => next <| Task.SuspendedFrom := Task.Status t |>
  | CmdResume _ _ => next <| Task.SuspendedFrom := StatusNone |>
  | CmdEscalate _ policy comment =>
      if supersedes policy then next <| Task.Reason := comment |>
      else
        next <| Task.EscalationCount := wrap64 (Task.EscalationCount t + 1)%Z |>
             <| Task.EscalatedAt := Some (NormalizeTime now) |>
             <| Task.Candidates := widened policy (Task.Candidates t) |>
  end.

Definition next_task (c : Command) (t : Task.t) (now : Time) : Task.t :=
  recordNext t (target_status c t) now (effect c t now).

(** The event of a command; completion also carries the output. *)
Definition next_event (c : Command) (t : Task.t) (now : Time) : Event.t :=
  let e := recordEvent t (command_op c) (target_status c t) (command_actor c)
             (command_comment c) now (next_task c t now) in
  match c with
  | CmdComplete _ output _ => e <| Event.Output := output |>
  | _ => e
  end.

(** ** The invariant of a stored task *)

Record TaskWf (t : Task.t) : Prop := {
  wf_valid : Status_Valid (Task.Status t) = true;
  wf_version : (0 <= Task.Version t)%Z;
  wf_pooled :
    Task.Status t = StatusCreated \/ Task.Status t = StatusReady -> Task.Assignee t = "";
  wf_held :
    Task.Status t = StatusReserved \/ Task.Status t = StatusInProgress ->
    Task.Assignee t <> "";
  wf_started : Task.Status t = StatusInProgress -> Task.StartedAt t <> None;
  wf_suspended :
    Task.Status t = StatusSuspended -> IsSuspendable (Task.SuspendedFrom t) = true;
  wf_suspended_from :
    Task.SuspendedFrom t <> StatusNone ->
    Task.Status t = StatusSuspended \/ Task.Status t = StatusExited;
  wf_suspended_holder :
    Task.Status t = StatusSuspended ->
    (Task.Assignee t = "" <-> Task.SuspendedFrom t = StatusReady);
  wf_suspended_started :
    Task.Status t = StatusSuspended -> Task.SuspendedFrom t = StatusInProgress ->
    Task.StartedAt t <> None;
  wf_closed : Task.ClosedAt t <> None <-> IsTerminal (Task.Status t) = true;
  wf_unleased :
    IsTerminal (Task.Status t) = true -> Task.LockedBy t = "" /\ Task.LockedUntil t = None
}.

(** The fields no operation ever changes. *)
Definition same_identity (t t' : Task.t) : Prop :=
  Task.ID t' = Task.ID t /\ Task.Type_ t' = Task.Type_ t /\
  Task.Priority t' = Task.Priority t /\ Task.Correlation t' = Task.Correlation t /\
  Task.Callback t' = Task.Callback t /\ Task.Escalation t' = Task.Escalation t /\
  Task.Input t' = Task.Input t /\ Task.CreatedBy t' = Task.CreatedBy t /\
  Task.CreatedAt t' = Task.CreatedAt t /\ Task.DueAt t' = Task.DueAt t.

(** * Lemmas *)

(** ** Guards *)

Lemma requireFrom_ok t op to from u :
  requireFrom t op to from = Ok u <->
  Task.Status t ∈ from /\ CanTransition (Task.Status t) to = true.
Proof.
  unfold requireFrom. destruct u, (contains from _) eqn:E1, (CanTransition _ to); cbn;
    rewrite <- (contains_true from); split; intros; intuition congruence.
Qed.

Lemma requireFrom_err t op to from e :
  requireFrom t op to from = Err e ->
  e = TransitionError (Task.ID t) (Operation_String op) (Task.Status t) to.
Proof. unfold requireFrom. case_match; congruence. Qed.

Lemma requireActor_ok id op actor u : requireActor id op actor = Ok u <-> actor <> "".
Proof. unfold requireActor. destruct u. case_decide; naive_solver. Qed.

Lemma requireAssignee_ok t op actor u :
  requireAssignee t op actor = Ok u <-> actor <> "" /\ actor = Task.Assignee t.
Proof.
  unfold requireAssignee. destruct u. rewrite rbind_ok.
  setoid_rewrite requireActor_ok. repeat case_decide; naive_solver.
Qed.

Lemma requireAssigneeIfHeld_ok t op actor u :
  requireAssigneeIfHeld t op actor = Ok u <->
  actor <> "" /\ (Task.Assignee t = "" \/ actor = Task.Assignee t).
Proof.
  unfold requireAssigneeIfHeld.
  case_decide; rewrite ?requireActor_ok, ?requireAssignee_ok; naive_solver.
Qed.

Definition is_auth_error (e : error) : Prop :=
  exists id actor op reason, e = AuthorizationError id actor op reason.

Lemma requireActor_err id op actor e : requireActor id op actor = Err e -> is_auth_error e.
Proof. unfold requireActor, is_auth_error. case_decide; naive_solver. Qed.

Lemma requireAssignee_err t op actor e : requireAssignee t op actor = Err e -> is_auth_error e.
Proof.
  unfold requireAssignee. intros [H|(? & ? & H)]%rbind_err; [by eapply requireActor_err|].
  unfold is_auth_error. repeat case_decide; naive_solver.
Qed.

Lemma requireAssigneeIfHeld_err t op actor e :
  requireAssigneeIfHeld t op actor = Err e -> is_auth_error e.
Proof.
  unfold requireAssigneeIfHeld. case_decide; eauto using requireActor_err, requireAssignee_err.
Qed.

Ltac guard_facts :=
  repeat match goal with
  | H : requireFrom _ _ _ _ = Ok _ |- _ => apply requireFrom_ok in H as [? ?]
  | H : requireActor _ _ _ = Ok _ |- _ => apply requireActor_ok in H
  | H : requireAssignee _ _ _ = Ok _ |- _ => apply requireAssignee_ok in H as [? ?]
  | H : requireAssigneeIfHeld _ _ _ = Ok _ |- _ =>
      apply requireAssigneeIfHeld_ok in H as [? ?]
  end.

(** ** The operations against the reference

    A command succeeds exactly when the state permits it, the actor may run it
    and its arguments are well formed; it then yields the reference task and the
    reference event. *)

Lemma supersedes_unfold policy :
  match policy with
  | Some p => bool_decide (EscalationPolicy.Action p = EscalationSupersede)
  | None => false
  end = supersedes policy.
Proof. done. Qed.

(** The base task [record] hands to the mutation. *)
Definition bumped (t : Task.t) (to : Status) (now : Time) : Task.t :=
  t <| Task.Status := to |> <| Task.Version := wrap64 (Task.Version t + 1)%Z |>
    <| Task.UpdatedAt := NormalizeTime now |>.

Lemma recordNext_ext t to now m1 m2 :
  m1 (bumped t to now) = m2 (bumped t to now) ->
  recordNext t to now m1 = recordNext t to now m2.
Proof. unfold recordNext, bumped. rewrite Task_Clone_id. cbn. by intros ->. Qed.

Lemma record_ext t op to actor comment now m1 m2 :
  m1 (bumped t to now) = m2 (bumped t to now) ->
  record t op to actor comment now m1 = record t op to actor comment now m2.
Proof. intros H. unfold record. by rewrite (recordNext_ext _ _ _ m1 m2 H). Qed.

(** Evaluates the state check once the state is a constant. *)
Ltac eval_from :=
  repeat match goal with
  | |- context [ contains ?l (Task.Status ?t) ] =>
      match goal with H : Task.Status t = _ |- _ => rewrite H end
  | |- context [ contains ?l ?x && CanTransition ?a ?b ] =>
      let r := eval vm_compute in (contains l x && CanTransition a b) in
      change (contains l x && CanTransition a b) with r
  | |- context [ contains ?l ?x ] =>
      let r := eval vm_compute in (contains l x) in change (contains l x) with r
  end.

Lemma StartedAt_some (n : Task.t) s :
  Task.StartedAt n = Some s -> n <| Task.StartedAt := Some s |> = n.
Proof. destruct n; cbn. by intros ->. Qed.

Lemma StartedAt_none (n : Task.t) :
  Task.StartedAt n = None -> n <| Task.StartedAt := None |> = n.
Proof. destruct n; cbn. by intros ->. Qed.

(** The mutation each operation passes to [record] agrees with [effect]. *)
Lemma Start_effect t now :
  let m next := match Task.StartedAt next with
                | None => next <| Task.StartedAt := Some (NormalizeTime now) |>
                | Some _ => next
                end in
  m (bumped t StatusInProgress now)
  = effect (CmdStart "") t now (bumped t StatusInProgress now).
Proof. destruct t as [???????????????????? []]; done. Qed.

Lemma Save_effect t to actor comment merged now :
  saveProgressRecord t to actor comment merged now
  = record t OpSaveProgress to actor comment now (effect (CmdSaveProgress actor comment merged) t now).
Proof.
  unfold saveProgressRecord. apply record_ext. unfold saveProgressStarted, effect, bumped.
  destruct t as [???????????????????? []]; cbn; [done|].
  case_bool_decide; case_decide; done.
Qed.

Lemma Escalate_effect t actor policy comment now :
  supersedes policy = false ->
  let m next :=
      let next := next <| Task.EscalationCount := wrap64 (Task.EscalationCount t + 1)%Z |> in
      let next := next <| Task.EscalatedAt := timePtr now |> in
      match policy with
      | Some p =>
          if decide (EscalationPolicy.Action p = EscalationWiden) then
            let pool := Task.Candidates next in
            next <| Task.Candidates :=
              CandidatePool.mk
                (appendMissing (CandidatePool.Users pool) (EscalationPolicy.AddUsers p))
                (appendMissing (CandidatePool.Groups pool) (EscalationPolicy.AddGroups p))
                (CandidatePool.Excluded pool) |>
          else next
      | None => next
      end in
  m (bumped t (Task.Status t) now)
  = effect (CmdEscalate actor policy comment) t now (bumped t (Task.Status t) now).
Proof.
  intros Hs. unfold effect. rewrite Hs. unfold widened, bumped.
  destruct t, policy as [p|]; cbn; [|done]. case_decide; done.
Qed.

Definition reference (c : Command) (t : Task.t) (now : Time) : Task.t * list Event.t :=
  (next_task c t now, [next_event c t now]).

Lemma requireFrom_eval t s op to from :
  Task.Status t = s ->
  requireFrom t op to from =
  if contains from s && CanTransition s to then Ok tt
  else Err (TransitionError (Task.ID t) (Operation_String op) s to).
Proof. by intros <-. Qed.

Ltac eval_requireFrom :=
  match goal with
  | Hs : Task.Status ?t = ?s |- context [ requireFrom ?t ?op ?to ?from ] =>
      rewrite (requireFrom_eval t s op to from Hs);
      let b := eval vm_compute in (contains from s && CanTransition s to) in
      change (contains from s && CanTransition s to) with b;
      cbn beta iota
  end.

Ltac pass_actor :=
  match goal with
  | |- context [ requireActor ?id ?op ?a ] =>
      rewrite (proj2 (requireActor_ok id op a tt)) by naive_solver
  | |- context [ requireAssignee ?t ?op ?a ] =>
      rewrite (proj2 (requireAssignee_ok t op a tt)) by naive_solver
  | |- context [ requireAssigneeIfHeld ?t ?op ?a ] =>
      rewrite (proj2 (requireAssigneeIfHeld_ok t op a tt)) by naive_solver
  end.

(** Closes [Ok (record ... m) = Ok (recordNext ... e, ...)] from the agreement
    of [m] and [e] on the bumped task. *)
Lemma record_reference t op to actor comment now m e :
  m (bumped t to now) = e (bumped t to now) ->
  (Ok (record t op to actor comment now m) : res (Task.t * list Event.t))
  = Ok (recordNext t to now e,
        [recordEvent t op to actor comment now (recordNext t to now e)]).
Proof. intros H. unfold record. by rewrite (recordNext_ext _ _ _ m e H). Qed.

(** What the state forbids is refused as a transition error. *)
Definition transition_refused (t : Task.t) (r : res (Task.t * list Event.t)) : Prop :=
  exists op to, r = Err (TransitionError (Task.ID t) op (Task.Status t) to).

Ltac state_cases :=
  match goal with
  | H : permitted _ ?t = _ |- _ =>
      destruct (Task.Status t) eqn:?Hs; cbn in H;
      repeat match goal with Hs : Task.Status t = _ |- _ => progress rewrite Hs in H end;
      cbn in H; try discriminate H
  end.

Lemma exec_refused c t now :
  permitted c t = false -> transition_refused t (exec c t now).
Proof.
  intros H. unfold transition_refused.
  destruct c; cbn [exec];
    unfold Activate, Fault, Claim, Release, Start, Complete, Fail, Delegate, Suspend,
      Resume, Escalate, Obsolete, Cancel, saveProgressGuard.
  11: destruct (IsSuspendable (Task.SuspendedFrom t)) eqn:Hsus; cbn [negb]; [|by eauto].
  11: destruct (Task.SuspendedFrom t) eqn:Hfrom; try discriminate Hsus.
  14: rewrite supersedes_unfold; destruct (supersedes policy) eqn:Hsup;
      unfold Obsolete.
  all: try case_decide; state_cases; rewrite ?Hs; try eval_requireFrom; eauto.
  all: rewrite ?Hfrom, ?Hsup in H; discriminate H.
Qed.

Lemma exec_accepted c t now :
  permitted c t = true -> may_act c t = true -> well_formed_args c = true ->
  exec c t now = Ok (reference c t now).
Proof.
  intros H Ha Hg. unfold reference, next_event, next_task.
  destruct c; cbn [exec target_status command_op command_actor command_comment effect];
    unfold Activate, Fault, Claim, Release, Start, Complete, Fail, Delegate, Suspend,
      Resume, Escalate, Obsolete, Cancel, saveProgressGuard;
    cbn in Ha, Hg; try apply bool_decide_eq_true in Ha; try apply bool_decide_eq_true in Hg.
  11: assert (Hsus : IsSuspendable (Task.SuspendedFrom t) = true)
      by (cbn in H; by destruct (Task.Status t));
      rewrite Hsus; cbn [negb]; destruct (Task.SuspendedFrom t) eqn:Hfrom; try discriminate Hsus.
  14: rewrite supersedes_unfold; destruct (supersedes policy) eqn:Hsup; unfold Obsolete.
  1: case_decide.
  all: state_cases; rewrite ?Hs; try eval_requireFrom; rewrite ?Hsup, ?Hfrom in *.
  all: cbn [rbind]; try pass_actor; cbn [rbind]; rewrite ?(decide_False _ _ Hg); try reflexivity;
    try discriminate H.
  all: try (rewrite Save_effect; reflexivity).
  all: try (destruct output; reflexivity).
  all: repeat match goal with
       | |- context [ contains ?l ?x ] =>
           let r := eval vm_compute in (contains l x) in change (contains l x) with r
       end; cbn [negb]; try rewrite <- Hs.
  all: apply record_reference; try reflexivity.
  1: apply Start_effect.
  all: try (apply Escalate_effect; exact Hsup).
  all: unfold effect; by rewrite Hsup.
Qed.

Lemma rbind_guard_err {A} (g : res unit) (k : unit -> res A) (P : error -> Prop) :
  (forall u, g <> Ok u) -> (forall e, g = Err e -> P e) ->
  exists e, rbind g k = Err e /\ P e.
Proof. destruct g as [u|e]; intros H; [by destruct (H u)|eauto]. Qed.

Lemma exec_denied c t now :
  permitted c t = true -> may_act c t = false ->
  exists e, exec c t now = Err e /\ is_auth_error e.
Proof.
  intros H Ha.
  destruct c; cbn [exec];
    unfold Claim, Release, Start, Complete, Fail, Delegate, Suspend, Resume,
      saveProgressGuard;
    cbn in Ha; try discriminate Ha; apply bool_decide_eq_false in Ha.
  9: assert (Hsus : IsSuspendable (Task.SuspendedFrom t) = true)
      by (cbn in H; by destruct (Task.Status t));
     rewrite Hsus; cbn [negb]; destruct (Task.SuspendedFrom t) eqn:Hfrom; try discriminate Hsus.
  all: state_cases; rewrite ?Hs; try eval_requireFrom; cbn [rbind].
  all: try (apply rbind_guard_err;
       [ intros [] E; guard_facts; naive_solver
       | eauto using requireActor_err, requireAssignee_err, requireAssigneeIfHeld_err ]).
  all: edestruct (rbind_guard_err (requireAssignee t OpSaveProgress actor)
         (fun _ => Ok StatusInProgress) is_auth_error) as (e & He & ?);
       [ intros [] E; guard_facts; naive_solver | eauto using requireAssignee_err |];
       exists e; by rewrite He.
Qed.

Lemma exec_bad_args c t now :
  permitted c t = true -> may_act c t = true -> well_formed_args c = false ->
  exists issues, exec c t now = Err (ValidationError "request" issues).
Proof.
  intros H Ha Hg. destruct c; try discriminate Hg.
  cbn [exec]. unfold Delegate. cbn in Ha, Hg.
  apply bool_decide_eq_true in Ha. apply bool_decide_eq_false in Hg.
  assert (target = "") as -> by (by apply dec_stable).
  state_cases; eval_requireFrom; pass_actor; cbn; eauto.
Qed.

Lemma exec_spec c t now r :
  exec c t now = Ok r <->
  permitted c t = true /\ may_act c t = true /\ well_formed_args c = true /\
  r = reference c t now.
Proof.
  destruct (permitted c t) eqn:Hp; cycle 1.
  { destruct (exec_refused c t now Hp) as (? & ? & ->). naive_solver. }
  destruct (may_act c t) eqn:Ha; cycle 1.
  { destruct (exec_denied c t now Hp Ha) as (? & -> & _). naive_solver. }
  destruct (well_formed_args c) eqn:Hg; cycle 1.
  { destruct (exec_bad_args c t now Hp Ha Hg) as (? & ->). naive_solver. }
  rewrite (exec_accepted c t now Hp Ha Hg). naive_solver.
Qed.

Lemma exec_inv c t now t' evs :
  exec c t now = Ok (t', evs) ->
  permitted c t = true /\ may_act c t = true /\ well_formed_args c = true /\
  t' = next_task c t now /\ evs = [next_event c t now].
Proof. intros (? & ? & ? & [= -> ->])%exec_spec. done. Qed.

(** ** The fields of the next task *)

Lemma recordNext_fields t to now m :
  let b := m (bumped t to now) in
  recordNext t to now m =
    if IsTerminal to then
      b <| Task.ClosedAt := Some (default (NormalizeTime now) (Task.ClosedAt b)) |>
        <| Task.LockedBy := "" |> <| Task.LockedUntil := None |>
    else b.
Proof.
  unfold recordNext. rewrite Task_Clone_id. fold (bumped t to now). cbv zeta.
  destruct (IsTerminal to); [|done].
  destruct (m (bumped t to now)) as [???????????????????? ? []]; done.
Qed.

(** Case analysis on the command and the state it starts from, with the next
    task computed. *)
Ltac next_cases c t H :=
  unfold next_task; rewrite recordNext_fields;
  destruct c; cbn [target_status effect bumped];
  repeat match goal with
  | |- context [ supersedes ?p ] => destruct (supersedes p) eqn:?
  | |- context [ if decide (?a <> "") then StatusReserved else _ ] => case_decide
  end;
  destruct (Task.Status t) eqn:?Hst; cbn in H; rewrite ?Hst in H; cbn in H;
  try discriminate H.

Lemma next_status c t now :
  permitted c t = true -> Task.Status (next_task c t now) = target_status c t.
Proof.
  intros _. unfold next_task. rewrite recordNext_fields.
  destruct (IsTerminal _), c; cbn; repeat case_match; done.
Qed.

Lemma next_version c t now :
  Task.Version (next_task c t now) = wrap64 (Task.Version t + 1)%Z.
Proof.
  unfold next_task. rewrite recordNext_fields.
  destruct (IsTerminal _), c; cbn; repeat case_match; done.
Qed.

Lemma next_updated c t now :
  Task.UpdatedAt (next_task c t now) = NormalizeTime now.
Proof.
  unfold next_task. rewrite recordNext_fields.
  destruct (IsTerminal _), c; cbn; repeat case_match; done.
Qed.

Lemma next_identity c t now : same_identity t (next_task c t now).
Proof.
  unfold next_task, same_identity. rewrite recordNext_fields.
  destruct (IsTerminal _), c; cbn; repeat case_match; done.
Qed.

Lemma next_pool c t now :
  Task.Candidates (next_task c t now) =
  match c with
  | CmdEscalate _ policy _ =>
      if supersedes policy then Task.Candidates t else widened policy (Task.Candidates t)
  | _ => Task.Candidates t
  end.
Proof.
  unfold next_task. rewrite recordNext_fields.
  destruct (IsTerminal _), c; cbn; repeat case_match; done.
Qed.

(** The target of a permitted command is reachable in the table, except for the
    two commands that may leave the state as it is. *)
Definition stays (c : Command) (t : Task.t) : bool :=
  match c with
  | CmdEscalate _ policy _ => negb (supersedes policy)
  | CmdSaveProgress _ _ _ => bool_decide (Task.Status t = StatusInProgress)
  | _ => false
  end.

Lemma target_legal c t :
  permitted c t = true ->
  if stays c t then target_status c t = Task.Status t
  else CanTransition (Task.Status t) (target_status c t) = true.
Proof.
  intros H. unfold stays.
  destruct c; cbn [target_status]; try case_decide;
    try (destruct (supersedes policy) eqn:Hsup; cbn [negb]);
    state_cases; try done; rewrite ?Hs, ?Hsup in H; try discriminate H.
  all: by destruct (Task.SuspendedFrom t).
Qed.

Lemma target_not_terminal_or_closed c t :
  permitted c t = true -> IsTerminal (Task.Status t) = false.
Proof.
  intros H. destruct c; state_cases; try done.
Qed.

(** ** Preservation of the invariant *)

Lemma next_version_exact c t now :
  (0 <= Task.Version t < max_int64)%Z ->
  Task.Version (next_task c t now) = (Task.Version t + 1)%Z.
Proof. intros ?. rewrite next_version, wrap64_small; unfold max_int64 in *; lia. Qed.

Lemma wf_not_closed t : TaskWf t -> IsTerminal (Task.Status t) = false -> Task.ClosedAt t = None.
Proof.
  intros Hwf Ht. destruct (Task.ClosedAt t) eqn:E; [|done].
  assert (IsTerminal (Task.Status t) = true) by (apply (wf_closed t Hwf); congruence).
  congruence.
Qed.

Lemma wf_not_suspended_from t :
  TaskWf t -> Task.Status t <> StatusSuspended -> Task.Status t <> StatusExited ->
  Task.SuspendedFrom t = StatusNone.
Proof.
  intros Hwf H1 H2. destruct (decide (Task.SuspendedFrom t = StatusNone)) as [|E]; [done|].
  by destruct (wf_suspended_from t Hwf E).
Qed.

(** The three fields the invariant is about, as functions of the command. *)
Definition target_assignee (c : Command) (t : Task.t) : string :=
  match c with
  | CmdActivate _ assignee => assignee
  | CmdClaim actor => actor
  | CmdRelease _ _ => ""
  | CmdDelegate _ target _ => target
  | _ => Task.Assignee t
  end.

Definition target_suspended_from (c : Command) (t : Task.t) : Status :=
  match c with
  | CmdSuspend _ _ => Task.Status t
  | CmdResume _ _ => StatusNone
  | _ => Task.SuspendedFrom t
  end.

Definition target_started (c : Command) (t : Task.t) (now : Time) : option Time :=
  match Task.StartedAt t, c with
  | Some at_, _ => Some at_
  | None, CmdStart _ => Some (NormalizeTime now)
  | None, CmdSaveProgress _ _ _ =>
      if decide (Task.Status t = StatusReserved) then Some (NormalizeTime now) else None
  | None, _ => None
  end.

Lemma next_assignee c t now : Task.Assignee (next_task c t now) = target_assignee c t.
Proof.
  unfold next_task. rewrite recordNext_fields.
  destruct (IsTerminal _), c; cbn; try case_match; done.
Qed.

Lemma next_suspended_from c t now :
  Task.SuspendedFrom (next_task c t now) = target_suspended_from c t.
Proof.
  unfold next_task. rewrite recordNext_fields.
  destruct (IsTerminal _), c; cbn; try case_match; done.
Qed.

Lemma next_started c t now :
  Task.StartedAt (next_task c t now) = target_started c t now.
Proof.
  unfold next_task, target_started. rewrite recordNext_fields.
  destruct (IsTerminal _), c; cbn; destruct (Task.StartedAt t); cbn; try case_match; done.
Qed.

Lemma next_closed c t now :
  Task.ClosedAt (next_task c t now) =
  if IsTerminal (target_status c t)
  then Some (default (NormalizeTime now) (Task.ClosedAt t)) else Task.ClosedAt t.
Proof.
  unfold next_task. rewrite recordNext_fields.
  destruct (IsTerminal _), c; cbn; try case_match; done.
Qed.

Lemma next_lease c t now :
  Task.LockedBy (next_task c t now) =
    (if IsTerminal (target_status c t) then "" else Task.LockedBy t) /\
  Task.LockedUntil (next_task c t now) =
    (if IsTerminal (target_status c t) then None else Task.LockedUntil t).
Proof.
  unfold next_task. rewrite recordNext_fields.
  destruct (IsTerminal _), c; cbn; try case_match; done.
Qed.

#[export] Hint Rewrite next_version next_updated next_pool next_assignee
  next_suspended_from next_started next_closed : hmntsk.

(** Splits on the command and the state it is permitted in, with the actor and
    argument conditions as propositions. *)
Ltac command_cases H Ha Hg :=
  match type of H with
  | permitted ?c ?t = true =>
      destruct c; cbn in Ha, Hg;
      try apply bool_decide_eq_true in Ha; try apply bool_decide_eq_true in Hg;
      cbn [target_status target_assignee target_suspended_from target_started];
      try match goal with |- context [ supersedes ?p ] => destruct (supersedes p) eqn:?Hsup end;
      try case_decide; state_cases; try discriminate
  end.

Lemma next_pooled c t :
  TaskWf t -> permitted c t = true -> may_act c t = true -> well_formed_args c = true ->
  target_status c t = StatusCreated \/ target_status c t = StatusReady ->
  target_assignee c t = "".
Proof.
  intros Hwf H Ha Hg.
  pose proof (wf_pooled t Hwf). pose proof (wf_suspended t Hwf).
  pose proof (wf_suspended_holder t Hwf). clear Hwf.
  command_cases H Ha Hg; try naive_solver.
  intros [E|E]; [by rewrite E in H|naive_solver].
Qed.

Lemma next_held c t :
  TaskWf t -> permitted c t = true -> may_act c t = true -> well_formed_args c = true ->
  target_status c t = StatusReserved \/ target_status c t = StatusInProgress ->
  target_assignee c t <> "".
Proof.
  intros Hwf H Ha Hg.
  pose proof (wf_held t Hwf). pose proof (wf_suspended_holder t Hwf). clear Hwf.
  command_cases H Ha Hg; naive_solver congruence.
Qed.

Lemma next_in_progress c t now :
  TaskWf t -> permitted c t = true -> may_act c t = true -> well_formed_args c = true ->
  target_status c t = StatusInProgress -> target_started c t now <> None.
Proof.
  intros Hwf H Ha Hg.
  pose proof (wf_started t Hwf). pose proof (wf_suspended_started t Hwf). clear Hwf.
  unfold target_started.
  command_cases H Ha Hg; destruct (Task.StartedAt t); naive_solver.
Qed.

Lemma next_suspended c t now :
  TaskWf t -> permitted c t = true -> may_act c t = true -> well_formed_args c = true ->
  target_status c t = StatusSuspended ->
  IsSuspendable (target_suspended_from c t) = true /\
  (target_assignee c t = "" <-> target_suspended_from c t = StatusReady) /\
  (target_suspended_from c t = StatusInProgress -> target_started c t now <> None).
Proof.
  intros Hwf H Ha Hg.
  pose proof (wf_pooled t Hwf). pose proof (wf_held t Hwf). pose proof (wf_started t Hwf).
  clear Hwf. unfold target_started.
  command_cases H Ha Hg; try (destruct (Task.SuspendedFrom t); discriminate);
    destruct (Task.StartedAt t); naive_solver.
Qed.

Lemma next_suspended_from_state c t :
  TaskWf t -> permitted c t = true -> may_act c t = true -> well_formed_args c = true ->
  target_suspended_from c t <> StatusNone ->
  target_status c t = StatusSuspended \/ target_status c t = StatusExited.
Proof.
  intros Hwf H Ha Hg.
  pose proof (wf_not_suspended_from t Hwf). clear Hwf.
  command_cases H Ha Hg; naive_solver.
Qed.

Lemma next_valid c t :
  TaskWf t -> permitted c t = true -> may_act c t = true -> well_formed_args c = true ->
  Status_Valid (target_status c t) = true.
Proof.
  intros Hwf H Ha Hg.
  pose proof (target_legal c t H) as Hl. pose proof (wf_valid t Hwf).
  destruct (stays c t); [by rewrite Hl|]. by apply CanTransition_valid in Hl as [_ ?].
Qed.

Lemma next_closed_iff c t now :
  TaskWf t -> permitted c t = true -> may_act c t = true -> well_formed_args c = true ->
  Task.ClosedAt (next_task c t now) <> None <-> IsTerminal (target_status c t) = true.
Proof.
  intros Hwf H Ha Hg.
  rewrite next_closed. pose proof (wf_not_closed t Hwf (target_not_terminal_or_closed c t H)).
  destruct (IsTerminal _); naive_solver.
Qed.

Lemma next_wf c t now :
  TaskWf t -> (Task.Version t < max_int64)%Z -> permitted c t = true ->
  may_act c t = true -> well_formed_args c = true -> TaskWf (next_task c t now).
Proof.
  intros Hwf Hv Hp Ha Hg. pose proof (wf_version t Hwf).
  pose proof (next_suspended c t now Hwf Hp Ha Hg).
  constructor; rewrite ?next_status, ?next_assignee, ?next_suspended_from,
    ?next_started by done.
  - by apply next_valid.
  - rewrite next_version_exact; lia.
  - by apply next_pooled.
  - by apply next_held.
  - by apply next_in_progress.
  - naive_solver.
  - by apply next_suspended_from_state.
  - naive_solver.
  - naive_solver.
  - by apply next_closed_iff.
  - intros E. destruct (next_lease c t now) as [-> ->]. by rewrite E.
Qed.

(** ** The suspend/resume round trip, and the history of one task *)

(** A stored history tells a task's story: it starts at CREATED, each record
    starts where the one before it ended, versions strictly increase and never
    pass the task's, and the last record ends in the task's state. *)
Inductive Chain : Status -> Z -> list TransitionRecord.t -> Prop :=
| chain_first r :
    TransitionRecord.From r = StatusCreated ->
    (0 < TransitionRecord.Version r)%Z ->
    Chain (TransitionRecord.To r) (TransitionRecord.Version r) [r]
| chain_next s v h r :
    Chain s v h -> TransitionRecord.From r = s -> (v < TransitionRecord.Version r)%Z ->
    Chain (TransitionRecord.To r) (TransitionRecord.Version r) (h ++ [r]).

Definition HistoryOk (t : Task.t) (h : list TransitionRecord.t) : Prop :=
  Forall (fun r => TransitionRecord.TaskID r = Task.ID t) h /\
  exists v, (v <= Task.Version t)%Z /\ Chain (Task.Status t) v h.

(** The record of a command: every accepted command but a save on work already
    started. *)
Definition recorded (c : Command) (t : Task.t) : bool :=
  match c with
  | CmdSaveProgress _ _ _ => saveProgressStarted t
  | _ => true
  end.

Lemma next_event_transition c t now :
  Event.Transition (next_event c t now) =
  recordTransition t (command_op c) (target_status c t) (command_actor c)
    (command_comment c) now (next_task c t now).
Proof. by destruct c. Qed.

Lemma HistoryOk_step c t now h :
  TaskWf t -> (Task.Version t < max_int64)%Z -> permitted c t = true -> HistoryOk t h ->
  HistoryOk (next_task c t now)
    (if recorded c t then h ++ [Event.Transition (next_event c t now)] else h).
Proof.
  intros Hwf Hv Hp [Hids (v & Hle & Hch)].
  pose proof (wf_version t Hwf).
  assert (Hver : Task.Version (next_task c t now) = (Task.Version t + 1)%Z)
    by (apply next_version_exact; lia).
  assert (Hid : Task.ID (next_task c t now) = Task.ID t) by apply next_identity.
  destruct (recorded c t) eqn:Hr.
  - rewrite next_event_transition. split.
    + rewrite Hid. apply Forall_app; split; [done|]. by repeat constructor.
    + eexists (Task.Version (next_task c t now)). split; [lia|].
      rewrite next_status by done.
      apply (chain_next (Task.Status t) v h (recordTransition _ _ _ _ _ _ _)); cbn;
        [done..|lia].
  - split; [by rewrite Hid|]. exists v. split; [lia|].
    rewrite next_status by done. destruct c; try discriminate Hr; cbn in Hr |- *.
    unfold saveProgressStarted in Hr. apply bool_decide_eq_false in Hr.
    state_cases; naive_solver.
Qed.

Lemma HistoryOk_first c t now :
  Task.Status t = StatusCreated -> Task.Version t = 0%Z -> permitted c t = true ->
  HistoryOk (next_task c t now) [Event.Transition (next_event c t now)].
Proof.
  intros Hs Hv Hp.
  assert (Hid : Task.ID (next_task c t now) = Task.ID t) by apply next_identity.
  assert (Hver : Task.Version (next_task c t now) = 1%Z)
    by (rewrite next_version, Hv; reflexivity).
  rewrite next_event_transition. split; [rewrite Hid; by repeat constructor|].
  exists 1%Z. split; [lia|]. rewrite next_status by done.
  pose proof (chain_first (recordTransition t (command_op c) (target_status c t)
    (command_actor c) (command_comment c) now (next_task c t now))) as Hc.
  cbn in Hc. rewrite Hver in Hc. apply Hc; [done|lia].
Qed.

Lemma Chain_app_inv s v h r :
  Chain s v (h ++ [r]) -> s = TransitionRecord.To r /\ v = TransitionRecord.Version r.
Proof.
  intros Hc. remember (h ++ [r]) as l eqn:E. destruct Hc as [r'|s v h' r'].
  - destruct h as [|? [|]]; naive_solver.
  - by apply app_inj_tail in E as [-> ->].
Qed.

(** * Properties *)

(** C10: Every accepted operation keeps a stored task well formed: a pooled task
    has no holder and a held one has one, work in progress has a start time, a
    suspended task remembers a state it can return to and whether it was held,
    the close time is set exactly in the five terminal states, and a closed task
    carries no escalation lease. *)
Theorem lifecycle_preserves_wf c t now t' evs :
  TaskWf t -> (Task.Version t < max_int64)%Z ->
  exec c t now = Ok (t', evs) -> TaskWf t'.
Proof. intros Hwf Hv (? & ? & ? & -> & _)%exec_inv. by apply next_wf. Qed.

(** C11: The outcome of every operation on every branch.  The state is checked
    first: an operation the state forbids is a transition error naming the task
    and its state, whoever asked and with whatever arguments.  Only then is the
    actor checked, then the arguments; an operation that passes all three
    succeeds with the reference task and exactly one event. *)
Theorem lifecycle_outcome c t now :
  if permitted c t then
    if may_act c t then
      if well_formed_args c
      then exec c t now = Ok (next_task c t now, [next_event c t now])
      else exists issues, exec c t now = Err (ValidationError "request" issues)
    else exists e, exec c t now = Err e /\ is_auth_error e
  else exists op to,
    exec c t now = Err (TransitionError (Task.ID t) op (Task.Status t) to).
Proof.
  destruct (permitted c t) eqn:?; [|by apply exec_refused].
  destruct (may_act c t) eqn:?; [|by apply exec_denied].
  destruct (well_formed_args c) eqn:?; [by apply exec_accepted|by apply exec_bad_args].
Qed.

(** No operation moves a task along an edge outside the transition table.
    The only operations that may leave the state as it was are a widening or
    announcing escalation and a progress save on work already started. *)
Theorem lifecycle_legal c t now t' evs :
  exec c t now = Ok (t', evs) ->
  CanTransition (Task.Status t) (Task.Status t') = true \/
  (Task.Status t' = Task.Status t /\
   (command_op c = OpEscalate \/
    command_op c = OpSaveProgress /\ Task.Status t = StatusInProgress)).
Proof.
  intros (Hp & _ & _ & -> & _)%exec_inv. rewrite next_status by done.
  pose proof (target_legal c t Hp) as Hl. destruct (stays c t) eqn:Hst; [right|by left].
  split; [done|]. destruct c; try discriminate Hst; cbn in Hst |- *.
  - right. by apply bool_decide_eq_true in Hst.
  - apply negb_true_iff in Hst. rewrite Hst. by left.
Qed.

(** The five terminal states absorb: every operation on a closed task is
    refused with a transition error, which the error taxonomy also reports as a
    conflict, and the table lists no way out of them. *)
Theorem terminal_absorbs t :
  IsTerminal (Task.Status t) = true ->
  AllowedTransitions (Task.Status t) = [] /\
  forall c now, exists e, exec c t now = Err e /\
    errors_Is e ErrIllegalTransition = true /\ errors_Is e ErrConflict = true.
Proof.
  intros Ht. split; [by destruct (Task.Status t)|]. intros c now.
  destruct (permitted c t) eqn:Hp.
  { apply target_not_terminal_or_closed in Hp. congruence. }
  destruct (exec_refused c t now Hp) as (op & to & ->). eexists; split; [done|].
  by rewrite !TransitionError_Is; auto.
Qed.

(** An accepted operation produces exactly one event, and the event and its
    audit record tell the truth about the transition: they carry the task's
    version and state after it and its state before it, the pool as it now
    stands, the holder it replaced exactly when the holder changed, the output
    only on completion, and a type that is in the closed catalogue for every
    operation but a progress save. *)
Theorem event_faithful c t now t' evs :
  exec c t now = Ok (t', evs) ->
  exists e, evs = [e] /\ Event.ID e = "" /\
    Event.TaskID e = Task.ID t' /\ Event.Status e = Task.Status t' /\
    Event.Version e = Task.Version t' /\ Event.Assignee e = Task.Assignee t' /\
    Event.Candidates e = Task.Candidates t' /\
    Event.PreviousAssignee e =
      (if decide (Task.Assignee t' = Task.Assignee t) then "" else Task.Assignee t) /\
    (command_op c <> OpSaveProgress -> EventType_Valid (Event.Type_ e) = true) /\
    (Event.Output e <> None -> Event.Type_ e = EventTypeCompleted) /\
    TransitionRecord.From (Event.Transition e) = Task.Status t /\
    TransitionRecord.To (Event.Transition e) = Task.Status t' /\
    TransitionRecord.Version (Event.Transition e) = Task.Version t' /\
    TransitionRecord.TaskID (Event.Transition e) = Task.ID t.
Proof.
  intros (Hp & _ & _ & -> & ->)%exec_inv. eexists; split; [done|].
  assert (Hpool : forall l, cloneNonEmpty l = l) by (by intros []).
  assert (Hsnap : forall p, snapshotPool p = p)
    by (intros []; unfold snapshotPool; cbn; by rewrite !Hpool).
  assert (Hty : Event.Type_ (next_event c t now) = operationEventTypes (command_op c))
    by (by destruct c).
  rewrite next_event_transition, Hty. split_and!; try (by destruct c).
  - destruct c; cbn; apply Hsnap.
  - transitivity (if decide (Task.Assignee t <> "" /\
        Task.Assignee t <> Task.Assignee (next_task c t now)) then Task.Assignee t else "");
      [by destruct c|]. repeat case_decide; try done; try (exfalso; naive_solver).
    destruct (decide (Task.Assignee t = "")); naive_solver.
  - destruct c; cbn; try (by intros); by destruct (supersedes policy).
  - cbn. by rewrite next_status.
Qed.

(** C23: Suspending a task and resuming it gives back the task that was
    suspended: state, holder, pool, progress, start time and lease are all as
    they were, and only the version (two higher) and the update time differ.
    Whoever may suspend the task may also resume it. *)
Theorem suspend_resume_roundtrip t actor c1 c2 now1 now2 s evs :
  TaskWf t -> (Task.Version t < max_int64 - 1)%Z ->
  Suspend t actor c1 now1 = Ok (s, evs) ->
  exists evs', Resume s actor c2 now2 =
    Ok (t <| Task.Version := (Task.Version t + 2)%Z |>
          <| Task.UpdatedAt := NormalizeTime now2 |>, evs').
Proof.
  intros Hwf Hv Hs. pose proof (wf_version t Hwf) as Hv0.
  change (exec (CmdSuspend actor c1) t now1 = Ok (s, evs)) in Hs.
  apply exec_inv in Hs as (Hp & Ha & Hg & -> & _).
  set (s := next_task (CmdSuspend actor c1) t now1).
  assert (Hst : Task.Status s = StatusSuspended) by (by apply next_status).
  assert (Hsf : Task.SuspendedFrom s = Task.Status t) by apply next_suspended_from.
  assert (Has : Task.Assignee s = Task.Assignee t) by apply next_assignee.
  assert (Hsus : IsSuspendable (Task.Status t) = true)
    by (clear -Hp; cbn in Hp; by destruct (Task.Status t)).
  exists [next_event (CmdResume actor c2) s now2].
  change (exec (CmdResume actor c2) s now2 = Ok
    (t <| Task.Version := (Task.Version t + 2)%Z |>
       <| Task.UpdatedAt := NormalizeTime now2 |>, [next_event (CmdResume actor c2) s now2])).
  assert (Hsv : Task.Version s = (Task.Version t + 1)%Z)
    by (apply next_version_exact; unfold max_int64 in *; lia).
  rewrite exec_accepted; [|unfold permitted; by rewrite Hst, Hsf|unfold may_act in *; by rewrite Has|done].
  unfold reference. do 2 f_equal. unfold next_task. rewrite recordNext_fields.
  cbn [target_status]. rewrite Hsf.
  replace (IsTerminal (Task.Status t)) with false by (clear -Hsus; by destruct (Task.Status t)).
  unfold bumped. rewrite Hsv, wrap64_small by (unfold max_int64 in *; lia).
  replace (Task.Version t + 1 + 1)%Z with (Task.Version t + 2)%Z by lia.
  assert (Hnone : Task.SuspendedFrom t = StatusNone).
  { apply wf_not_suspended_from; [done|..]; intros E; by rewrite E in Hsus. }
  unfold s, next_task. rewrite recordNext_fields. clear -Hnone. destruct t; cbn in *.
  by subst.
Qed.

(** No operation changes what a task is: its identifier, type, priority,
    correlation, callback target, escalation policy, input, creator, creation
    time and deadline stay as they were created; every operation raises the
    version by exactly one and stamps the update time. *)
Theorem identity_is_immutable c t now t' evs :
  (0 <= Task.Version t < max_int64)%Z -> exec c t now = Ok (t', evs) ->
  same_identity t t' /\ Task.Version t' = (Task.Version t + 1)%Z /\
  Task.UpdatedAt t' = NormalizeTime now.
Proof.
  intros Hv (_ & _ & _ & -> & _)%exec_inv.
  split_and!; [apply next_identity|by apply next_version_exact|apply next_updated].
Qed.

(** ** Widening *)

Lemma elem_of_appendMissing base extra x :
  x ∈ appendMissing base extra <-> x ∈ base \/ x ∈ extra.
Proof.
  revert base; induction extra as [|y extra IH]; intros base; cbn; [set_solver|].
  rewrite IH. destruct (contains base y) eqn:E.
  - apply contains_true in E. set_solver.
  - set_solver.
Qed.

Lemma appendMissing_prefix base extra : base `prefix_of` appendMissing base extra.
Proof.
  revert base; induction extra as [|y extra IH]; intros base; cbn; [done|].
  destruct (contains base y); [done|]. etrans; [by apply prefix_app_r|apply IH].
Qed.

Lemma NoDup_appendMissing base extra : NoDup base -> NoDup (appendMissing base extra).
Proof.
  revert base; induction extra as [|y extra IH]; intros base Hb; cbn; [done|].
  destruct (contains base y) eqn:E; apply IH; [done|].
  apply NoDup_snoc. by apply contains_false in E.
Qed.

Lemma appendMissing_absorb base extra : extra ⊆ base -> appendMissing base extra = base.
Proof.
  revert base; induction extra as [|y extra IH]; intros base Hb; cbn; [done|].
  rewrite (proj2 (contains_true base y)); [apply IH|]; set_solver.
Qed.

(** Widening the pool keeps everyone in it, in the order they were in, adds
    exactly the users and groups the policy names, each once, and never touches
    the exclusions; widening by the same policy again changes nothing. *)
Theorem widening_grows_pool policy pool :
  let pool' := widened policy pool in
  CandidatePool.Users pool `prefix_of` CandidatePool.Users pool' /\
  CandidatePool.Groups pool `prefix_of` CandidatePool.Groups pool' /\
  CandidatePool.Excluded pool' = CandidatePool.Excluded pool /\
  (NoDup (CandidatePool.Users pool) -> NoDup (CandidatePool.Users pool')) /\
  (NoDup (CandidatePool.Groups pool) -> NoDup (CandidatePool.Groups pool')) /\
  (forall p, policy = Some p -> EscalationPolicy.Action p = EscalationWiden ->
     (forall u, u ∈ CandidatePool.Users pool' <->
        u ∈ CandidatePool.Users pool \/ u ∈ EscalationPolicy.AddUsers p) /\
     (forall g, g ∈ CandidatePool.Groups pool' <->
        g ∈ CandidatePool.Groups pool \/ g ∈ EscalationPolicy.AddGroups p)) /\
  widened policy pool' = pool'.
Proof.
  unfold widened. destruct policy as [p|]; cbn; [|naive_solver].
  case_decide as Ha; cbn; [|naive_solver].
  split_and!; auto using appendMissing_prefix, NoDup_appendMissing.
  - intros ? [= <-] _. split; intros ?; apply elem_of_appendMissing.
  - f_equal; apply appendMissing_absorb; intros x Hx; apply elem_of_appendMissing; auto.
Qed.

(** Cancelling a suspended task leaves the suspended-from state set on the
    closed task, although the field is documented as set only while the task is
    suspended. *)
Theorem cancel_keeps_suspended_from t actor reason now :
  TaskWf t -> Task.Status t = StatusSuspended ->
  exists t' evs, Cancel t actor reason now = Ok (t', evs) /\
    Task.Status t' = StatusExited /\ Task.SuspendedFrom t' <> StatusNone.
Proof.
  intros Hwf Hs. pose proof (wf_suspended t Hwf Hs) as Hsus.
  exists (next_task (CmdCancel actor reason) t now), [next_event (CmdCancel actor reason) t now].
  assert (Hp : permitted (CmdCancel actor reason) t = true) by (cbn; by rewrite Hs).
  split_and!; [by apply (exec_accepted (CmdCancel actor reason))|by rewrite next_status|].
  rewrite next_suspended_from. cbn. intros E. by rewrite E in Hsus.
Qed.

(** Escalation itself enforces neither the policy's cap on the number of
    escalations nor its exemption of started work: an operator call succeeds on
    a task that has reached the cap. *)
Theorem escalate_ignores_cap t actor policy comment now :
  supersedes (Some policy) = false -> IsSuspendable (Task.Status t) = true ->
  (0 < EscalationPolicy.MaxEscalations policy <= Task.EscalationCount t)%Z ->
  (Task.EscalationCount t < max_int64)%Z ->
  exists t' evs, Escalate t actor (Some policy) comment now = Ok (t', evs) /\
    Task.EscalationCount t' = (Task.EscalationCount t + 1)%Z.
Proof.
  intros Hsup Hs Hcap Hmax.
  exists (next_task (CmdEscalate actor (Some policy) comment) t now),
    [next_event (CmdEscalate actor (Some policy) comment) t now].
  split.
  - apply (exec_accepted (CmdEscalate actor (Some policy) comment)); [|done..].
    cbn in Hsup |- *. destruct (Task.Status t); try done. by rewrite Hsup.
  - unfold next_task. rewrite recordNext_fields. cbn [target_status effect].
    rewrite Hsup. replace (IsTerminal (Task.Status t)) with false by (by destruct (Task.Status t)).
    cbn. rewrite wrap64_small; unfold max_int64 in *; lia.
Qed.

(** * Witnesses *)

Module LifecycleExamples.

(** An approval somebody has started. *)
Definition started : Task.t := {|
  Task.ID := "t1"; Task.Type_ := "approval"; Task.Version := 3;
  Task.Status := StatusInProgress; Task.SuspendedFrom := StatusNone;
  Task.Priority := 5; Task.Assignee := "ann";
  Task.Candidates := CandidatePool.mk ["ann"; "bob"] [] [];
  Task.Correlation := CorrelationData.empty; Task.Callback := None;
  Task.Escalation := None; Task.Input := Some "{}"; Task.Progress := None;
  Task.Output := None; Task.Reason := ""; Task.CreatedBy := "sys";
  Task.EscalationCount := 2; Task.CreatedAt := 1000; Task.UpdatedAt := 2000;
  Task.DueAt := None; Task.StartedAt := Some 2000%Z; Task.ClosedAt := None;
  Task.EscalatedAt := None; Task.LockedBy := ""; Task.LockedUntil := None |}.

Definition suspended : Task.t := next_task (CmdSuspend "ann" "lunch") started 3000.
Definition closed : Task.t := next_task (CmdCancel "ann" "no") started 3000.
Definition cap_one : EscalationPolicy.t :=
  EscalationPolicy.mk EscalationWiden ["eve"] [] true 1.

Lemma started_wf : TaskWf started.
Proof. constructor; cbn; try lia; try intuition discriminate. Qed.

Lemma suspended_wf : TaskWf suspended.
Proof. apply next_wf; [apply started_wf|done..]. Qed.
End LifecycleExamples.
Import LifecycleExamples.

Lemma lifecycle_preserves_wf_witness :
  TaskWf (next_task (CmdComplete "ann" (Some "{}") "done") started 5000).
Proof.
  apply (lifecycle_preserves_wf (CmdComplete "ann" (Some "{}") "done") started 5000 _
           [next_event (CmdComplete "ann" (Some "{}") "done") started 5000]);
    [exact started_wf|reflexivity|reflexivity].
Defined.

Lemma lifecycle_legal_witness :
  CanTransition StatusInProgress StatusFailed = true \/
  (StatusFailed = StatusInProgress /\
   (OpFail = OpEscalate \/ OpFail = OpSaveProgress /\ StatusInProgress = StatusInProgress)).
Proof.
  apply (lifecycle_legal (CmdFail "ann" "stuck") started 5000
           (next_task (CmdFail "ann" "stuck") started 5000)
           [next_event (CmdFail "ann" "stuck") started 5000]).
  reflexivity.
Defined.

Lemma terminal_absorbs_witness :
  AllowedTransitions StatusExited = [] /\
  forall c now, exists e, exec c closed now = Err e /\
    errors_Is e ErrIllegalTransition = true /\ errors_Is e ErrConflict = true.
Proof. apply (terminal_absorbs closed). reflexivity. Defined.

Lemma event_faithful_witness :
  exists e, [next_event (CmdDelegate "ann" "bob" "") started 5000] = [e] /\
    Event.Assignee e = "bob" /\ Event.PreviousAssignee e = "ann".
Proof.
  destruct (event_faithful (CmdDelegate "ann" "bob" "") started 5000
    (next_task (CmdDelegate "ann" "bob" "") started 5000)
    [next_event (CmdDelegate "ann" "bob" "") started 5000] eq_refl)
    as (e & He & _ & _ & _ & _ & Ha & _ & Hp & _).
  exists e. split_and!; [exact He|exact Ha|exact Hp].
Defined.

Lemma suspend_resume_roundtrip_witness :
  exists evs', Resume suspended "ann" "back" 4000 =
    Ok (started <| Task.Version := 5%Z |> <| Task.UpdatedAt := 4000%Z |>, evs').
Proof.
  apply (suspend_resume_roundtrip started "ann" "lunch" "back" 3000 4000 suspended
    [next_event (CmdSuspend "ann" "lunch") started 3000]);
    [exact started_wf|reflexivity|reflexivity].
Defined.

Lemma identity_is_immutable_witness :
  same_identity started suspended /\ Task.Version suspended = 4%Z /\
  Task.UpdatedAt suspended = 3000%Z.
Proof.
  apply (identity_is_immutable (CmdSuspend "ann" "lunch") started 3000 suspended
    [next_event (CmdSuspend "ann" "lunch") started 3000]);
    [split; [discriminate|reflexivity]|reflexivity].
Defined.

Lemma cancel_keeps_suspended_from_witness :
  exists t' evs, Cancel suspended "boss" "stop" 4000 = Ok (t', evs) /\
    Task.Status t' = StatusExited /\ Task.SuspendedFrom t' <> StatusNone.
Proof.
  apply (cancel_keeps_suspended_from suspended "boss" "stop" 4000);
    [exact suspended_wf|reflexivity].
Defined.

Lemma escalate_ignores_cap_witness :
  exists t' evs, Escalate started "op" (Some cap_one) "again" 4000 = Ok (t', evs) /\
    Task.EscalationCount t' = 3%Z.
Proof.
  apply (escalate_ignores_cap started "op" cap_one "again" 4000);
    [reflexivity|reflexivity|split; [reflexivity|discriminate]|reflexivity].
Defined.
