(* ===== verification/Assignment.v ===== *)
(** * Assignment: who may act on a task

    Models [assignment.go].  The host's directory and the assignment strategy
    are ports: a [GroupResolver] is a record of its two methods and a strategy is
    a function, both of which may fail with an error of their own.  The engine
    passes a context to them and does nothing else with it, so it is left out;
    one call of an operation sees one state of the directory. *)

From S2P Require Import Prelude Domain Errors Event Lifecycle LifecycleFacts.

(** ** Ports *)

Module GroupResolver.
Record t : Type := mk {
  GroupsOf : string -> res (list string);
  MembersOf : string -> res (list string)
}.
End GroupResolver.

Definition AssignmentStrategy : Type := Task.t -> list string -> res string.

(** ** The built-in strategy and the static directory *)

Definition singleCandidate (eligible : list string) : string :=
  match eligible with
  | [only] => only
  | _ => ""
  end.

Definition SingleCandidateStrategy : AssignmentStrategy :=
  fun _ eligible => Ok (singleCandidate eligible).

Module StaticAssignment.
Record t : Type := mk {
  members : gmap string (list string);
  groups : gmap string (list string)
}.

(** [static.groups[actor] = append(static.groups[actor], group)] *)
Definition add_group (group : string) (gs : gmap string (list string)) (actor : string)
  : gmap string (list string) :=
  <[ actor := default [] (gs !! actor) ++ [group] ]> gs.

Definition add_members (gs : gmap string (list string)) (entry : string * list string)
  : gmap string (list string) :=
  foldl (add_group entry.1) gs entry.2.

(** The map is ranged over in some order; sorting each actor's groups afterwards
    makes the result independent of it. *)
Definition NewStaticAssignment (ms : gmap string (list string)) : t :=
  mk ms (sort_strings <$> foldl add_members ∅ (map_to_list ms)).

Definition GroupsOf (s : t) (actor : string) : res (list string) :=
  Ok (default [] (groups s !! actor)).

Definition MembersOf (s : t) (group : string) : res (list string) :=
  Ok (default [] (members s !! group)).

Definition Assign (s : t) : AssignmentStrategy :=
  fun _ eligible => Ok (singleCandidate eligible).

Definition resolver (s : t) : GroupResolver.t :=
  GroupResolver.mk (GroupsOf s) (MembersOf s).
End StaticAssignment.

(** ** Eligibility *)

Definition no_resolver : error :=
  ConfigurationError "no group resolver is configured".

(** The loop over the actor's groups: true at the first that the pool names. *)
Fixpoint any_group (pool_groups : list string) (actorGroups : list string) : bool :=
  match actorGroups with
  | [] => false
  | group :: rest =>
      if contains pool_groups group then true else any_group pool_groups rest
  end.

Definition IsEligible (resolver : option GroupResolver.t) (pool : CandidatePool.t)
    (actor : string) : res bool :=
  if decide (actor = "") then Ok false
  else if contains (CandidatePool.Excluded pool) actor then Ok false
  else if contains (CandidatePool.Users pool) actor then Ok true
  else if decide (length (CandidatePool.Groups pool) = 0) then Ok false
  else
    match resolver with
    | None => Err (GroupResolutionError actor (CandidatePool.Groups pool) (Some no_resolver))
    | Some r =>
        match GroupResolver.GroupsOf r actor with
        | Err e => Err (GroupResolutionError actor (CandidatePool.Groups pool) (Some e))
        | Ok actorGroups => Ok (any_group (CandidatePool.Groups pool) actorGroups)
        end
    end.

(** [for _, user := range users { if user != "" { eligible[user] = struct{}{} } }] *)
Definition add_named (eligible : gset string) (names : list string) : gset string :=
  foldl (fun s user => if decide (user <> "") then s ∪ {[ user ]} else s) eligible names.

(** The loop over the pool's groups, which stops at the first failure. *)
Fixpoint add_groups (resolver : option GroupResolver.t) (pool : CandidatePool.t)
    (groups : list string) (eligible : gset string) : res (gset string) :=
  match groups with
  | [] => Ok eligible
  | group :: rest =>
      match resolver with
      | None => Err (GroupResolutionError "" (CandidatePool.Groups pool) (Some no_resolver))
      | Some r =>
          match GroupResolver.MembersOf r group with
          | Err e => Err (GroupResolutionError "" [group] (Some e))
          | Ok members => add_groups resolver pool rest (add_named eligible members)
          end
      end
  end.

Definition ResolveCandidates (resolver : option GroupResolver.t) (pool : CandidatePool.t)
  : res (list string) :=
  try! eligible :=
    add_groups resolver pool (CandidatePool.Groups pool)
      (add_named ∅ (CandidatePool.Users pool)) in
  let eligible :=
    foldl (fun s excluded => s ∖ {[ excluded ]}) eligible (CandidatePool.Excluded pool) in
  Ok (sort_strings (elements eligible)).

(** ** Placing a new task *)

Definition Assign (resolver : option GroupResolver.t)
    (strategy : option AssignmentStrategy) (task : Task.t) (now : Time)
  : res (Task.t * list Event.t) :=
  match ResolveCandidates resolver (Task.Candidates task) with
  | Err err => Fault task ("candidate resolution failed: " +:+ Error err) now
  | Ok eligible =>
      if decide (length eligible = 0)
      then Fault task "no actor is eligible for this task" now
      else
        let strategy := default SingleCandidateStrategy strategy in
        match strategy task eligible with
        | Err err => Fault task ("assignment strategy failed: " +:+ Error err) now
        | Ok assignee =>
            if bool_decide (assignee <> "") && negb (contains eligible assignee)
            then Fault task
                   ("assignment strategy chose an ineligible actor: " +:+ assignee) now
            else Activate task (Task.CreatedBy task) assignee now
        end
  end.

(** ** The actor rules *)

Definition requireEligible (resolver : option GroupResolver.t) (task : Task.t)
    (op : Operation) (actor : string) : res unit :=
  try! _ := requireActor (Task.ID task) op actor in
  try! eligible := IsEligible resolver (Task.Candidates task) actor in
  if negb eligible
  then Err (AuthorizationError (Task.ID task) actor (Operation_String op)
              "actor is not in the task's candidate pool")
  else Ok tt.

Definition Authorize (resolver : option GroupResolver.t) (task : Task.t)
    (op : Operation) (actor : string) : res unit :=
  match op with
  | OpClaim => requireEligible resolver task op actor
  | OpRelease | OpStart | OpSaveProgress | OpComplete | OpFail | OpDelegate =>
      requireAssignee task op actor
  | OpSuspend | OpResume => requireAssigneeIfHeld task op actor
  | OpCreate | OpEscalate | OpCancel | OpObsolete | OpFault => Ok tt
  end.

Definition AuthorizeDelegate (resolver : option GroupResolver.t) (task : Task.t)
    (actor target : string) : res unit :=
  try! _ := requireAssignee task OpDelegate actor in
  requireEligible resolver task OpDelegate target.

(** ** The interface of a directory

    The two questions a directory answers must agree with each other.  Claims ask
    the first and creation asks the second, so everything that relates them is
    proved from this class, and a directory earns it by an instance. *)
Class CoherentDirectory (r : GroupResolver.t) : Prop := {
  groups_members_agree actor group gs ms :
    GroupResolver.GroupsOf r actor = Ok gs -> GroupResolver.MembersOf r group = Ok ms ->
    (group ∈ gs <-> actor ∈ ms)
}.

(** * Lemmas *)

Lemma any_group_spec pool_groups gs :
  any_group pool_groups gs = true <-> exists g, g ∈ gs /\ g ∈ pool_groups.
Proof.
  induction gs as [|g gs IH]; cbn; [set_solver|].
  destruct (contains pool_groups g) eqn:E.
  - apply contains_true in E. split; [|done]. intros _. exists g. set_solver.
  - apply contains_false in E. rewrite IH. set_solver.
Qed.

Lemma elem_of_add_named s names x :
  x ∈ add_named s names <-> x ∈ s \/ (x ∈ names /\ x <> "").
Proof.
  unfold add_named. revert s; induction names as [|n names IH]; intros s; cbn; [set_solver|].
  rewrite IH. case_decide; set_solver.
Qed.

Lemma elem_of_foldl_difference (s : gset string) l x :
  x ∈ foldl (fun s e => s ∖ {[ e ]}) s l <-> x ∈ s /\ x ∉ l.
Proof. revert s; induction l as [|e l IH]; intros s; cbn; [set_solver|]. rewrite IH. set_solver. Qed.

(** The actors a directory lists for some group of a list. *)
Definition listed (r : GroupResolver.t) (groups : list string) (actor : string) : Prop :=
  exists g ms, g ∈ groups /\ GroupResolver.MembersOf r g = Ok ms /\ actor ∈ ms.

Lemma add_groups_ok resolver pool groups s s' :
  add_groups resolver pool groups s = Ok s' ->
  forall x, x ∈ s' <->
    x ∈ s \/ (x <> "" /\ exists r, resolver = Some r /\ listed r groups x).
Proof.
  unfold listed. revert s; induction groups as [|g groups IH]; intros s H x; cbn in H.
  - injection H as ->. set_solver.
  - destruct resolver as [r|]; [|done].
    destruct (GroupResolver.MembersOf r g) as [ms|] eqn:E; [|done].
    rewrite (IH _ H x), elem_of_add_named. setoid_rewrite elem_of_cons. split.
    + intros [[?|[??]]|(? & r' & [= <-] & g' & ms' & ? & ? & ?)]; [by left|right|right].
      * split; [done|]. exists r. split; [done|]. exists g, ms. auto.
      * split; [done|]. exists r. split; [done|]. exists g', ms'. auto.
    + intros [?|(? & r' & [= <-] & g' & ms' & [->|?] & E' & ?)]; [by do 2 left| |].
      * left; right. rewrite E in E'. injection E' as <-. done.
      * right. split; [done|]. exists r. split; [done|]. exists g', ms'. auto.
Qed.

Lemma ResolveCandidates_ok resolver pool l :
  ResolveCandidates resolver pool = Ok l ->
  StronglySorted String.le l /\ NoDup l /\
  forall x, x ∈ l <-> x <> "" /\ x ∉ CandidatePool.Excluded pool /\
    (x ∈ CandidatePool.Users pool \/
     (exists r, resolver = Some r /\ listed r (CandidatePool.Groups pool) x)).
Proof.
  unfold ResolveCandidates. intros (s & Hs & [= <-])%rbind_ok. split_and!.
  - apply sort_strings_sorted.
  - apply NoDup_sort_strings, NoDup_elements.
  - intros x. rewrite elem_of_sort_strings, elem_of_elements, elem_of_foldl_difference,
      (add_groups_ok _ _ _ _ _ Hs x), elem_of_add_named.
    pose proof (not_elem_of_empty (C := gset string) x). naive_solver.
Qed.

(** Resolution fails only because a group could not be resolved. *)
Lemma ResolveCandidates_err resolver pool e :
  ResolveCandidates resolver pool = Err e ->
  CandidatePool.Groups pool <> [] /\ exists gs c, e = GroupResolutionError "" gs (Some c).
Proof.
  unfold ResolveCandidates. intros [H|(? & _ & ?)]%rbind_err; [|done].
  destruct (CandidatePool.Groups pool) as [|g0 groups0] eqn:Eg; [done|].
  split; [done|]. rewrite <- Eg in H. clear Eg g0 groups0.
  revert H. generalize (CandidatePool.Groups pool) at 1 as groups.
  generalize (add_named ∅ (CandidatePool.Users pool)) as s.
  intros s groups; revert s. induction groups as [|g groups IH]; intros s H; cbn in H; [done|].
  destruct resolver as [r|]; [|naive_solver].
  destruct (GroupResolver.MembersOf r g); [by eapply IH|naive_solver].
Qed.

Lemma IsEligible_ok resolver pool actor b :
  IsEligible resolver pool actor = Ok b ->
  b = true <-> actor <> "" /\ actor ∉ CandidatePool.Excluded pool /\
    (actor ∈ CandidatePool.Users pool \/
     (exists r gs, resolver = Some r /\ GroupResolver.GroupsOf r actor = Ok gs /\
       exists g, g ∈ gs /\ g ∈ CandidatePool.Groups pool)).
Proof.
  unfold IsEligible. case_decide; [naive_solver|].
  destruct (contains (CandidatePool.Excluded pool) actor) eqn:Ex;
    [apply contains_true in Ex; naive_solver|apply contains_false in Ex].
  destruct (contains (CandidatePool.Users pool) actor) eqn:Eu;
    [apply contains_true in Eu; naive_solver|apply contains_false in Eu].
  case_decide as Hlen.
  { apply nil_length_inv in Hlen. rewrite Hlen. intros [= <-]. split; [done|].
    intros (_ & _ & [?|(? & ? & _ & _ & ? & _ & ?%not_elem_of_nil)]); done. }
  destruct resolver as [r|]; [|done].
  destruct (GroupResolver.GroupsOf r actor) as [gs|] eqn:Eg; [|done].
  intros [= <-]. rewrite any_group_spec. split.
  - intros (g & ? & ?). split_and!; [done..|]. right. exists r, gs. eauto.
  - intros (_ & _ & [?|(r' & gs' & [= <-] & E' & g & ? & ?)]); [done|].
    rewrite Eg in E'. injection E' as <-. eauto.
Qed.

Lemma requireEligible_ok resolver task op actor u :
  requireEligible resolver task op actor = Ok u <->
  actor <> "" /\ IsEligible resolver (Task.Candidates task) actor = Ok true.
Proof.
  unfold requireEligible. destruct u. rewrite rbind_ok. setoid_rewrite rbind_ok.
  setoid_rewrite requireActor_ok. split.
  - intros (_ & ? & [] & ? & ?); naive_solver.
  - intros [? H]. exists tt. split; [done|]. by exists true.
Qed.

(** ** The static directory *)

Lemma elem_of_add_group g gs actor a x :
  x ∈ default [] (StaticAssignment.add_group g gs actor !! a) <->
  x ∈ default [] (gs !! a) \/ (x = g /\ a = actor).
Proof.
  unfold StaticAssignment.add_group. destruct (decide (a = actor)) as [->|Hne].
  - rewrite lookup_insert_eq. cbn. set_solver.
  - rewrite lookup_insert_ne by done. naive_solver.
Qed.

Lemma elem_of_foldl_add_group g gs actors a x :
  x ∈ default [] (foldl (StaticAssignment.add_group g) gs actors !! a) <->
  x ∈ default [] (gs !! a) \/ (x = g /\ a ∈ actors).
Proof.
  revert gs; induction actors as [|b actors IH]; intros gs; cbn; [set_solver|].
  rewrite IH, elem_of_add_group. set_solver.
Qed.

Lemma elem_of_foldl_add_members entries gs a x :
  x ∈ default [] (foldl StaticAssignment.add_members gs entries !! a) <->
  x ∈ default [] (gs !! a) \/ exists actors, (x, actors) ∈ entries /\ a ∈ actors.
Proof.
  revert gs; induction entries as [|[g actors] entries IH]; intros gs; cbn.
  { split; [by left|]. intros [?|(? & ?%not_elem_of_nil & _)]; done. }
  rewrite IH. unfold StaticAssignment.add_members; cbn. rewrite elem_of_foldl_add_group.
  setoid_rewrite elem_of_cons. split.
  - intros [[?|[-> ?]]|(l & ? & ?)]; eauto 6.
  - intros [?|(l & [[= -> ->]|?] & ?)]; eauto 6.
Qed.

#[global] Instance static_coherent ms :
  CoherentDirectory (StaticAssignment.resolver (StaticAssignment.NewStaticAssignment ms)).
Proof.
  constructor. cbn. unfold StaticAssignment.GroupsOf, StaticAssignment.MembersOf; cbn.
  intros actor group gs l [= <-] [= <-]. rewrite lookup_fmap.
  assert (Hsort : forall o : option (list string),
    group ∈ default [] (sort_strings <$> o) <-> group ∈ default [] o)
    by (intros [x|]; cbn; [apply elem_of_sort_strings|done]).
  rewrite Hsort, elem_of_foldl_add_members, lookup_empty; cbn.
  setoid_rewrite elem_of_map_to_list. split.
  - intros [?%not_elem_of_nil|(l & -> & ?)]; done.
  - destruct (ms !! group) as [l|]; cbn; [|by intros ?%not_elem_of_nil]. eauto.
Qed.

(** ** Placement *)

Lemma Activate_created t actor assignee now :
  Task.Status t = StatusCreated ->
  Activate t actor assignee now = Ok (reference (CmdActivate actor assignee) t now).
Proof.
  intros Hs. apply (exec_accepted (CmdActivate actor assignee)); [|done..].
  cbn. by rewrite Hs.
Qed.

Lemma Fault_created t reason now :
  Task.Status t = StatusCreated ->
  Fault t reason now = Ok (reference (CmdFault reason) t now).
Proof.
  intros Hs. apply (exec_accepted (CmdFault reason)); [|done..]. cbn. by rewrite Hs.
Qed.

(** Placement of a new task is one of two commands: it faults, or it activates
    for nobody or for an eligible actor. *)
Lemma Assign_command resolver strategy task now :
  Task.Status task = StatusCreated ->
  exists c, Assign resolver strategy task now = Ok (reference c task now) /\
    permitted c task = true /\
    ((exists reason, c = CmdFault reason) \/
     (exists assignee eligible, c = CmdActivate (Task.CreatedBy task) assignee /\
        ResolveCandidates resolver (Task.Candidates task) = Ok eligible /\
        eligible <> [] /\ (assignee = "" \/ assignee ∈ eligible) /\
        default SingleCandidateStrategy strategy task eligible = Ok assignee)).
Proof.
  intros Hs.
  assert (Hpf : forall reason, permitted (CmdFault reason) task = true)
    by (intros; cbn; by rewrite Hs).
  assert (Hpa : forall a b, permitted (CmdActivate a b) task = true)
    by (intros; cbn; by rewrite Hs).
  unfold Assign.
  destruct (ResolveCandidates resolver (Task.Candidates task)) as [eligible|e] eqn:Er;
    [|rewrite Fault_created by done; eauto 10].
  case_decide as Hl; [rewrite Fault_created by done; eauto 10|].
  destruct (default SingleCandidateStrategy strategy task eligible) as [assignee|e] eqn:Es;
    [|rewrite Fault_created by done; eauto 10].
  destruct (bool_decide (assignee <> "") && negb (contains eligible assignee)) eqn:Eb;
    [rewrite Fault_created by done; eauto 10|].
  rewrite Activate_created by done.
  exists (CmdActivate (Task.CreatedBy task) assignee). split_and!; [done..|].
  right. exists assignee, eligible. split_and!; try done; [by intros ->|].
  destruct (decide (assignee = "")) as [|Hne]; [by left|right].
  rewrite bool_decide_true in Eb by done. cbn in Eb. apply negb_false_iff in Eb.
  by apply contains_true.
Qed.

(** * Properties *)

(** Eligibility, decided without a directory whenever the pool alone decides
    it: an empty actor is never eligible, an excluded actor never is whatever
    else names them, a named user always is, and a pool without groups admits
    nobody else.  Only the remaining case asks the directory; without one, or
    with one that fails, the answer is a group-resolution fault that is not an
    authorisation denial of the engine's own. *)
Theorem eligibility_without_directory pool actor :
  (actor = "" \/ actor ∈ CandidatePool.Excluded pool ->
     forall resolver, IsEligible resolver pool actor = Ok false) /\
  (actor <> "" -> actor ∉ CandidatePool.Excluded pool ->
     (actor ∈ CandidatePool.Users pool ->
        forall resolver, IsEligible resolver pool actor = Ok true) /\
     (actor ∉ CandidatePool.Users pool ->
        (CandidatePool.Groups pool = [] ->
           forall resolver, IsEligible resolver pool actor = Ok false) /\
        (CandidatePool.Groups pool <> [] -> exists cause,
           IsEligible None pool actor = Err (GroupResolutionError actor
             (CandidatePool.Groups pool) (Some cause)) /\
           errors_Is cause ErrUnauthorized = false))).
Proof.
  unfold IsEligible. split.
  - intros H resolver. case_decide; [done|].
    destruct H as [?|H]; [done|]. by rewrite (proj2 (contains_true _ _) H).
  - intros Hne Hex. rewrite (proj2 (contains_false _ _) Hex). split.
    + intros Hu resolver. rewrite decide_False by done.
      by rewrite (proj2 (contains_true _ _) Hu).
    + intros Hu. rewrite (proj2 (contains_false _ _) Hu). split.
      * intros -> resolver. by rewrite decide_False.
      * intros Hg. rewrite !decide_False by (done || by intros ?%nil_length_inv). eauto.
Qed.

(** Expanding a pool yields the eligible actors sorted and without
    duplicates: exactly the named users and the members of the named groups,
    less the exclusions and less the empty name. *)
Theorem resolve_candidates_spec r pool l :
  ResolveCandidates (Some r) pool = Ok l ->
  StronglySorted String.le l /\ NoDup l /\
  forall x, x ∈ l <-> x <> "" /\ x ∉ CandidatePool.Excluded pool /\
    (x ∈ CandidatePool.Users pool \/ listed r (CandidatePool.Groups pool) x).
Proof.
  intros (? & ? & Hx)%ResolveCandidates_ok. split_and!; [done..|].
  intros x. rewrite Hx. naive_solver.
Qed.

(** C20: The two views of a pool agree on a coherent directory: whoever creation
    counts as a candidate may claim, and whoever may claim was counted. *)
Theorem eligible_iff_resolved r `{!CoherentDirectory r} pool l actor b :
  ResolveCandidates (Some r) pool = Ok l ->
  (forall g, g ∈ CandidatePool.Groups pool -> is_ok (GroupResolver.MembersOf r g) = true) ->
  is_ok (GroupResolver.GroupsOf r actor) = true ->
  IsEligible (Some r) pool actor = Ok b ->
  (b = true <-> actor ∈ l).
Proof.
  intros Hl Hms Hgs Hb. rewrite (IsEligible_ok _ _ _ _ Hb).
  destruct (ResolveCandidates_ok _ _ _ Hl) as (_ & _ & ->).
  destruct (GroupResolver.GroupsOf r actor) as [gs|] eqn:Eg; [|done].
  split; intros (Hne & Hex & Hor); (split_and!; [done..|]); destruct Hor as [?|Hor]; auto; right.
  - destruct Hor as (r' & gs' & [= <-] & E & g & Hin & Hg).
    rewrite Eg in E. injection E as <-.
    exists r. split; [done|]. specialize (Hms g Hg).
    destruct (GroupResolver.MembersOf r g) as [ms|] eqn:Em; [|done].
    exists g, ms. split_and!; [done..|]. by apply (groups_members_agree actor g gs ms Eg Em) in Hin.
  - destruct Hor as (r' & [= <-] & g & ms & Hg & Em & Hin).
    exists r, gs. split_and!; [done..|]. exists g. split; [|done].
    by apply (groups_members_agree actor g gs ms Eg Em) in Hin.
Qed.

(** The static directory answers its two questions coherently, whatever
    group map it was built from, so everything proved of coherent directories
    holds of it. *)
Theorem static_assignment_coherent members actor group :
  let s := StaticAssignment.NewStaticAssignment members in
  exists gs ms,
    StaticAssignment.GroupsOf s actor = Ok gs /\
    StaticAssignment.MembersOf s group = Ok ms /\
    (group ∈ gs <-> actor ∈ ms) /\ StronglySorted String.le gs.
Proof.
  cbv zeta. eexists _, _. split_and!; [reflexivity..| |].
  - by apply (@groups_members_agree _ (static_coherent members) actor group).
  - cbn. rewrite lookup_fmap. destruct (_ !! actor); cbn; [apply sort_strings_sorted|constructor].
Qed.

(** Placing a new task always succeeds and has three outcomes.  It is
    reserved for an actor the pool resolved to, or pooled with nobody holding
    it, and in both cases somebody is eligible; otherwise it is closed in ERROR
    with the reason recorded.  Under the default strategy a lone candidate gets
    the task and two or more share it. *)
Theorem assign_outcome resolver strategy task now :
  Task.Status task = StatusCreated ->
  exists t' e, Assign resolver strategy task now = Ok (t', [e]) /\
    match ResolveCandidates resolver (Task.Candidates task) with
    | Err _ | Ok [] => Task.Status t' = StatusError
    | Ok eligible =>
        (Task.Status t' = StatusReserved /\ Task.Assignee t' ∈ eligible) \/
        (Task.Status t' = StatusReady /\ Task.Assignee t' = "") \/
        (Task.Status t' = StatusError /\ strategy <> None)
    end /\
    (Task.Status t' = StatusError ->
       Task.Reason t' <> "" /\ Event.Reason e = Task.Reason t' /\
       Event.Type_ e = EventTypeErrored) /\
    (strategy = None -> forall eligible,
       ResolveCandidates resolver (Task.Candidates task) = Ok eligible ->
       Task.Status t' =
         match eligible with
         | [] => StatusError
         | [_] => StatusReserved
         | _ :: _ :: _ => StatusReady
         end).
Proof.
  intros Hs.
  assert (Hf : forall reason, reason <> "" -> exists t' e,
    Fault task reason now = Ok (t', [e]) /\ Task.Status t' = StatusError /\
    (Task.Status t' = StatusError ->
       Task.Reason t' <> "" /\ Event.Reason e = Task.Reason t' /\
       Event.Type_ e = EventTypeErrored)).
  { intros reason ?. rewrite Fault_created by done. eexists _, _.
    split; [reflexivity|]. split; [apply (next_status (CmdFault reason)); cbn; by rewrite Hs|].
    intros _. unfold next_task. rewrite !recordNext_fields. by split_and!. }
  assert (Hact : forall actor assignee, exists t' e,
    Activate task actor assignee now = Ok (t', [e]) /\ Task.Assignee t' = assignee /\
    Task.Status t' = if decide (assignee <> "") then StatusReserved else StatusReady).
  { intros actor assignee. rewrite Activate_created by done. eexists _, _.
    split; [reflexivity|]. split; [apply next_assignee|].
    apply (next_status (CmdActivate actor assignee)). cbn. by rewrite Hs. }
  unfold Assign.
  destruct (ResolveCandidates resolver (Task.Candidates task)) as [eligible|err] eqn:Er.
  2: { destruct (Hf ("candidate resolution failed: " +:+ Error err)) as (t' & e & -> & ? & ?); [done|].
       exists t', e. by split_and!. }
  destruct eligible as [|a rest]; cbn [length].
  { rewrite decide_True by done. edestruct Hf as (t' & e & -> & ? & ?);
      [|exists t', e; split_and!; [done..|by intros _ ? [= <-]]]; done. }
  rewrite decide_False by done.
  apply ResolveCandidates_ok in Er as (_ & _ & Her).
  assert (Ha : a <> "") by (apply (Her a); left).
  destruct strategy as [strategy|]; cbn [default from_option id].
  - destruct (strategy task (a :: rest)) as [assignee|err].
    2: { destruct (Hf ("assignment strategy failed: " +:+ Error err)) as (t' & e & -> & ? & ?); [done|].
         exists t', e. split_and!; [done|by right; right|done|done]. }
    destruct (bool_decide (assignee <> "") && negb (contains (a :: rest) assignee)) eqn:Eb.
    { destruct (Hf ("assignment strategy chose an ineligible actor: " +:+ assignee))
        as (t' & e & -> & ? & ?); [done|]. exists t', e. split_and!; [done|by right; right|done|done]. }
    destruct (Hact (Task.CreatedBy task) assignee) as (t' & e & -> & Has & Hst).
    exists t', e. split; [done|]. case_decide as Hd.
    + rewrite bool_decide_true in Eb by done. apply negb_false_iff, contains_true in Eb.
      split_and!; [left; split; congruence|congruence|done].
    + split_and!; [right; left; split; congruence|congruence|done].
  - unfold SingleCandidateStrategy.
    destruct rest as [|b rest]; cbn [singleCandidate].
    + rewrite bool_decide_true, (proj2 (contains_true [a] a)) by (done || left).
      cbn [andb negb]. destruct (Hact (Task.CreatedBy task) a) as (t' & e & -> & Has & Hst).
      rewrite decide_True in Hst by done. exists t', e.
      split_and!; [done|left; rewrite Has; split; [done|left]|congruence|by intros _ ? [= <-]].
    + rewrite bool_decide_false by (by intros ?). cbn [andb].
      destruct (Hact (Task.CreatedBy task) "") as (t' & e & -> & Has & Hst).
      rewrite decide_False in Hst by (by intros ?). exists t', e. split_and!; [done|by right; left|congruence|by intros _ ? [= <-]].
Qed.

(** Widening never takes a right away: whoever could claim before an
    escalation can claim after it. *)
Theorem widening_keeps_eligible resolver policy pool actor :
  IsEligible resolver pool actor = Ok true ->
  IsEligible resolver (widened policy pool) actor = Ok true.
Proof.
  unfold widened. destruct policy as [p|]; [|done]. case_decide as Hw; [|done]. clear Hw.
  unfold IsEligible. cbn [CandidatePool.Users CandidatePool.Groups CandidatePool.Excluded].
  case_decide; [done|]. destruct (contains (CandidatePool.Excluded pool) actor); [done|].
  destruct (contains (CandidatePool.Users pool) actor) eqn:Eu.
  { apply contains_true in Eu. intros _.
    by rewrite (proj2 (contains_true _ _) (proj2 (elem_of_appendMissing _ _ _) (or_introl Eu))). }
  case_decide; [done|].
  destruct (contains (appendMissing (CandidatePool.Users pool) _) actor); [done|].
  destruct (appendMissing_prefix (CandidatePool.Groups pool) (EscalationPolicy.AddGroups p))
    as [l Hl].
  rewrite decide_False by (rewrite Hl, length_app; lia).
  destruct resolver as [r|]; [|done].
  destruct (GroupResolver.GroupsOf r actor) as [gs|]; [|done].
  intros [= Hg]. apply any_group_spec in Hg as (g & ? & ?). f_equal.
  apply any_group_spec. exists g. rewrite elem_of_appendMissing. auto.
Qed.

(** * Witnesses *)

Module AssignmentExamples.
Definition dir : StaticAssignment.t :=
  StaticAssignment.NewStaticAssignment
    (<[ "clerks" := ["bob"; "ann"; "eve"] ]> (<[ "leads" := ["zoe"] ]> ∅)).
Definition pool : CandidatePool.t := CandidatePool.mk ["kim"] ["clerks"; "leads"] ["eve"].
Definition r : GroupResolver.t := StaticAssignment.resolver dir.
Definition created : Task.t :=
  LifecycleExamples.started <| Task.Status := StatusCreated |>
    <| Task.Assignee := "" |> <| Task.Candidates := pool |>.
End AssignmentExamples.

Import AssignmentExamples.

Example resolve_demo : ResolveCandidates (Some r) pool = Ok ["ann"; "bob"; "kim"; "zoe"].
Proof. vm_compute. reflexivity. Qed.

Lemma eligibility_without_directory_witness :
  IsEligible None pool "eve" = Ok false /\ IsEligible None pool "kim" = Ok true.
Proof.
  split.
  - apply (proj1 (eligibility_without_directory pool "eve")). right. left.
  - apply (proj1 (proj2 (eligibility_without_directory pool "kim") ltac:(done)
      ltac:(cbn; set_solver))). left.
Defined.

Lemma resolve_candidates_spec_witness :
  NoDup ["ann"; "bob"; "kim"; "zoe"] /\ ("ann" ∈ ["ann"; "bob"; "kim"; "zoe"] <->
     "ann" <> "" /\ "ann" ∉ ["eve"] /\ ("ann" ∈ ["kim"] \/ listed r ["clerks"; "leads"] "ann")).
Proof.
  destruct (resolve_candidates_spec r pool ["ann"; "bob"; "kim"; "zoe"]) as (_ & Hn & Hx);
    [vm_compute; reflexivity|].
  split; [exact Hn|exact (Hx "ann")].
Defined.

Lemma eligible_iff_resolved_witness :
  true = true <-> "ann" ∈ ["ann"; "bob"; "kim"; "zoe"].
Proof.
  apply (eligible_iff_resolved r pool _ "ann" true);
    [vm_compute; reflexivity|reflexivity..|vm_compute; reflexivity].
Defined.

Lemma assign_outcome_witness :
  exists t' e, Assign (Some r) None created 5000 = Ok (t', [e]) /\   (None = @None AssignmentStrategy -> forall eligible,
       ResolveCandidates (Some r) pool = Ok eligible ->
       Task.Status t' = match eligible with
         | [] => StatusError | [_] => StatusReserved | _ :: _ :: _ => StatusReady end).
Proof.
  destruct (assign_outcome (Some r) None created 5000) as (t' & e & H & _ & _ & Hd);
    [reflexivity|].
  exists t', e. split; [exact H|exact Hd].
Defined.

Lemma widening_keeps_eligible_witness :
  IsEligible (Some r) (widened (Some (EscalationPolicy.mk EscalationWiden ["new"] ["night"] false 0%Z)) pool)
    "zoe" = Ok true.
Proof. apply widening_keeps_eligible. vm_compute. reflexivity. Defined.
