(* ===== verification/Query.v ===== *)
(** * Query: selecting and ordering tasks

    Models [query.go], the filters and the ordering key the in-memory store
    evaluates ([matches], [matchesCandidate], [position], [compare] of
    [memstore/memstore.go]), and one page of a query over a set of tasks
    ([memstore] [Query]).  The SQL stores evaluate the same key.

    A continuation token is base64 over the JSON of a [cursor]; the rendering
    and the parse of that JSON are the argument [CursorCodec], of which the
    development relies on one law only, that a token the store rendered is read
    back as it was. *)

From S2P Require Import Prelude Domain Errors.

(** ** The query *)

Definition DefaultQueryLimit : Z := 50.
Definition MaxQueryLimit : Z := 500.

Inductive Ordering : Type :=
| OrderCreated
| OrderPriority
| OrderDue
| OrderUrgency
| OrderingOther (raw : string).

#[global] Instance Ordering_eq_dec : EqDecision Ordering.
Proof. solve_decision. Defined.

Definition Ordering_String (o : Ordering) : string :=
  match o with
  | OrderCreated => ""
  | OrderPriority => "priority"
  | OrderDue => "due"
  | OrderUrgency => "urgency"
  | OrderingOther raw => raw
  end.

Definition Ordering_Valid (o : Ordering) : bool :=
  match o with
  | OrderCreated | OrderPriority | OrderDue | OrderUrgency => true
  | OrderingOther _ => false
  end.

Module Query.
Record t : Type := mk {
  Assignee : string;
  Candidate : string;
  Statuses : list Status;
  Types : list string;
  OwnerType : string;
  OwnerRef : string;
  ActivityKey : string;
  Group : string;
  DueBefore : option Time;
  OrderBy : Ordering;
  Limit : Z;
  Cursor : string;
  Descending : bool
}.
#[global] Instance eta : Eta t := fun x =>
  mk (Assignee x) (Candidate x) (Statuses x) (Types x) (OwnerType x) (OwnerRef x)
    (ActivityKey x) (Group x) (DueBefore x) (OrderBy x) (Limit x) (Cursor x)
    (Descending x).
#[global] Instance eq_dec : EqDecision t.
Proof. solve_decision. Defined.

(** The zero value, which matches every task. *)
Definition zero : t :=
  mk "" "" [] [] "" "" "" "" None OrderCreated 0 "" false.

Definition EffectiveLimit (q : t) : Z :=
  if decide (Limit q <= 0)%Z then DefaultQueryLimit
  else if decide (MaxQueryLimit < Limit q)%Z then MaxQueryLimit
  else Limit q.

Definition validate (q : t) : res unit :=
  if negb (Ordering_Valid (OrderBy q))
  then Err (ValidationError "request" [ValidationIssue.mk ""
         ("ordering " +:+ quote (Ordering_String (OrderBy q)) +:+ " is not supported")])
  else Ok tt.

Definition Clone (q : t) : t := q <| DueBefore := cloneTime (DueBefore q) |>.
End Query.

Module ResolvedQuery.
Record t : Type := mk { Query_ : Query.t; CandidateGroups : list string }.
End ResolvedQuery.

Module Page.
Record t : Type := mk { Tasks : list Task.t; NextCursor : string }.
End Page.

(** ** Filters *)

(** The loop over the groups the service resolved for the candidate. *)
Fixpoint in_any_group (task : Task.t) (groups : list string) : bool :=
  match groups with
  | [] => false
  | group :: rest =>
      if contains (CandidatePool.Groups (Task.Candidates task)) group
      then true else in_any_group task rest
  end.

Definition matchesCandidate (task : Task.t) (query : ResolvedQuery.t) : bool :=
  let q := ResolvedQuery.Query_ query in
  if decide (Query.Candidate q = "") then true
  else if contains (CandidatePool.Excluded (Task.Candidates task)) (Query.Candidate q)
  then false
  else if decide (Task.Assignee task <> "")
  then bool_decide (Task.Assignee task = Query.Candidate q)
  else if contains (CandidatePool.Users (Task.Candidates task)) (Query.Candidate q)
  then true
  else in_any_group task (ResolvedQuery.CandidateGroups query).

Definition matches (task : Task.t) (query : ResolvedQuery.t) : bool :=
  let q := ResolvedQuery.Query_ query in
  let corr := Task.Correlation task in
  if bool_decide (Query.Assignee q <> "") && bool_decide (Task.Assignee task <> Query.Assignee q)
  then false
  else if bool_decide (0 < length (Query.Statuses q)) &&
          negb (contains (Query.Statuses q) (Task.Status task))
  then false
  else if bool_decide (0 < length (Query.Types q)) &&
          negb (contains (Query.Types q) (Task.Type_ task))
  then false
  else if bool_decide (Query.OwnerType q <> "") &&
          bool_decide (CorrelationData.OwnerType corr <> Query.OwnerType q)
  then false
  else if bool_decide (Query.OwnerRef q <> "") &&
          bool_decide (CorrelationData.OwnerRef corr <> Query.OwnerRef q)
  then false
  else if bool_decide (Query.ActivityKey q <> "") &&
          bool_decide (CorrelationData.ActivityKey corr <> Query.ActivityKey q)
  then false
  else if bool_decide (Query.Group q <> "") &&
          negb (contains (CandidatePool.Groups (Task.Candidates task)) (Query.Group q))
  then false
  else if
    match Query.DueBefore q with
    | None => false
    | Some limit =>
        match Task.DueAt task with
        | None => true
        | Some due => negb (bool_decide (due < limit)%Z)
        end
    end
  then false
  else matchesCandidate task query.

(** ** Positions and their order *)

Module position.
Record t : Type := mk { Priority : Z; DueAt : option Time; ID : string }.
#[global] Instance eq_dec : EqDecision t.
Proof. solve_decision. Defined.
End position.

Definition positionOf (task : Task.t) : position.t :=
  position.mk (Task.Priority task) (Task.DueAt task) (Task.ID task).

(** [compare], with Go's negative, zero and positive as [Lt], [Eq] and [Gt]. *)
Definition compare (a b : position.t) (query : Query.t) : comparison :=
  let directed c := if Query.Descending query then CompOpp c else c in
  let by_id := directed (String.compare (position.ID a) (position.ID b)) in
  let by_due :=
    if decide (Query.OrderBy query = OrderDue \/ Query.OrderBy query = OrderUrgency) then
      match position.DueAt a, position.DueAt b with
      | None, Some _ => Gt
      | Some _, None => Lt
      | Some da, Some db =>
          match Z.compare da db with
          | Eq => by_id
          | c => directed c
          end
      | None, None => by_id
      end
    else by_id in
  if decide (Query.OrderBy query = OrderPriority \/ Query.OrderBy query = OrderUrgency) then
    match Z.compare (position.Priority a) (position.Priority b) with
    | Eq => by_due
    | c => directed c
    end
  else by_due.

(** ** Continuation tokens *)

Module cursor.
Record t : Type := mk { Ordering_ : Ordering; Descending : bool; After : position.t }.
#[global] Instance eq_dec : EqDecision t.
Proof. solve_decision. Defined.
End cursor.

(** [Marshal] renders a cursor as a token, or fails as [json.Marshal] does on a
    time whose year JSON cannot carry; [Unmarshal] reads a token. *)
Module CursorCodec.
Record t : Type := mk {
  Marshal : cursor.t -> option string;
  Unmarshal : string -> option cursor.t
}.
End CursorCodec.

(** What is relied on: a token that was rendered is not empty, and reads back. *)
Class CursorRoundTrip (codec : CursorCodec.t) : Prop := {
  marshal_nonempty c token : CursorCodec.Marshal codec c = Some token -> token <> "";
  marshal_unmarshal c token :
    CursorCodec.Marshal codec c = Some token -> CursorCodec.Unmarshal codec token = Some c
}.

(** A failure to marshal is a panic in the source; it is an error that matches
    no sentinel here, and nothing modelled handles it. *)
Definition encodeCursor (codec : CursorCodec.t) (query : Query.t) (after : position.t)
  : res string :=
  match CursorCodec.Marshal codec
          (cursor.mk (Query.OrderBy query) (Query.Descending query) after) with
  | Some token => Ok token
  | None => Err (ExternalError "panic: memstore: encode a cursor" [])
  end.

Definition invalidCursor (reason : string) : error :=
  ValidationError "request"
    [ValidationIssue.mk "" ("the cursor is not valid: " +:+ reason)].

Definition decodeCursor (codec : CursorCodec.t) (query : Query.t) : res position.t :=
  match CursorCodec.Unmarshal codec (Query.Cursor query) with
  | None => Err (invalidCursor "it was not issued by this store")
  | Some decoded =>
      if decide (position.ID (cursor.After decoded) = "")
      then Err (invalidCursor "it was not issued by this store")
      else if decide (cursor.Ordering_ decoded <> Query.OrderBy query \/
                      cursor.Descending decoded <> Query.Descending query)
      then Err (invalidCursor "it continues a different ordering or direction")
      else Ok (cursor.After decoded)
  end.

(** ** One page *)

Definition compare_tasks (query : Query.t) (a b : Task.t) : comparison :=
  compare (positionOf a) (positionOf b) query.

(** The loop that keeps the tasks that match and lie beyond the cursor. *)
Fixpoint select (query : ResolvedQuery.t) (after : option position.t)
    (candidates : list Task.t) : list Task.t :=
  match candidates with
  | [] => []
  | task :: rest =>
      if negb (matches task query) then select query after rest
      else
        match after with
        | Some p =>
            match compare (positionOf task) p (ResolvedQuery.Query_ query) with
            | Gt => task :: select query after rest
            | _ => select query after rest
            end
        | None => task :: select query after rest
        end
  end.

(** [slices.SortFunc]: the comparison is total on tasks with distinct
    identifiers, so the result does not depend on the algorithm. *)
Definition sort_tasks (query : Query.t) (l : list Task.t) : list Task.t :=
  merge_sort (no_later (compare_tasks query)) l.

Definition queryPage (codec : CursorCodec.t) (candidates : list Task.t)
    (query : ResolvedQuery.t) : res Page.t :=
  let q := ResolvedQuery.Query_ query in
  if negb (Ordering_Valid (Query.OrderBy q))
  then Err (ValidationError "request" [ValidationIssue.mk ""
         ("ordering " +:+ quote (Ordering_String (Query.OrderBy q)) +:+
          " is not supported")])
  else
    try! after :=
      (if decide (Query.Cursor q <> "")
       then try! decoded := decodeCursor codec q in Ok (Some decoded)
       else Ok None) in
    let matched := sort_tasks q (select query after candidates) in
    let limit := Z.to_nat (Query.EffectiveLimit q) in
    if decide (limit < length matched) then
      let matched := take limit matched in
      match last matched with
      | None => Ok (Page.mk [] "")
      | Some final =>
          try! token := encodeCursor codec q (positionOf final) in
          Ok (Page.mk (Task.Clone <$> matched) token)
      end
    else Ok (Page.mk (Task.Clone <$> matched) "").

(** The counting loop. *)
Definition countMatching (candidates : list Task.t) (query : ResolvedQuery.t) : Z :=
  foldl (fun count task => if matches task query then wrap64 (count + 1) else count)%Z
    0%Z candidates.

(** * Lemmas *)

(** ** The order *)

Definition due_compare (descending : bool) (a b : option Time) : comparison :=
  match a, b with
  | None, Some _ => Gt
  | Some _, None => Lt
  | Some x, Some y => directed descending Z.compare x y
  | None, None => Eq
  end.

#[global] Instance due_compare_lawful b : Lawful (due_compare b).
Proof.
  pose proof (directed_lawful b Z.compare _) as [H1 H2 H3].
  constructor.
  - intros [x|] [y|]; cbn; auto.
  - intros [x|] [y|] [z|]; cbn; eauto; done.
  - intros [x|] [y|] [z|]; cbn; eauto; done.
Qed.

(** The comparison is the lexicographic product of the keys the ordering names. *)
Lemma compare_lex query a b :
  let d := Query.Descending query in
  compare a b query =
  lex (if decide (Query.OrderBy query = OrderPriority \/ Query.OrderBy query = OrderUrgency)
       then on position.Priority (directed d Z.compare) else fun _ _ => Eq)
    (lex (if decide (Query.OrderBy query = OrderDue \/ Query.OrderBy query = OrderUrgency)
          then on position.DueAt (due_compare d) else fun _ _ => Eq)
       (on position.ID (directed d String.compare))) a b.
Proof.
  cbv zeta. unfold compare, lex, on, directed. destruct a as [p1 d1 i1], b as [p2 d2 i2]; cbn.
  destruct (Query.Descending query); repeat case_decide; destruct d1, d2; cbn;
    repeat match goal with |- context [Z.compare ?x ?y] => destruct (Z.compare x y) end; done.
Qed.

#[global] Instance compare_lawful query : Lawful (fun a b => compare a b query).
Proof.
  assert (Lawful (fun a b => lex
    (if decide (Query.OrderBy query = OrderPriority \/ Query.OrderBy query = OrderUrgency)
       then on position.Priority (directed (Query.Descending query) Z.compare)
       else fun _ _ => Eq)
    (lex (if decide (Query.OrderBy query = OrderDue \/ Query.OrderBy query = OrderUrgency)
          then on position.DueAt (due_compare (Query.Descending query)) else fun _ _ => Eq)
       (on position.ID (directed (Query.Descending query) String.compare))) a b)) as [H1 H2 H3].
  { apply lex_lawful; [|apply lex_lawful]; repeat case_decide; apply _. }
  constructor; intros *; rewrite !compare_lex; eauto.
Qed.

#[global] Instance compare_tasks_lawful query : Lawful (compare_tasks query).
Proof. apply (on_lawful positionOf (fun a b => compare a b query) _). Qed.

Lemma compare_eq_ID query a b : compare a b query = Eq -> position.ID a = position.ID b.
Proof.
  rewrite compare_lex. unfold lex, on, directed.
  repeat case_match; try done; intros Hc;
    apply String.compare_eq_iff; by destruct (String.compare _ _).
Qed.

(** The order, the filters and the page size do not read the cursor. *)
Lemma compare_cursor q a b token : compare a b (q <| Query.Cursor := token |>) = compare a b q.
Proof. done. Qed.

Definition continued (query : ResolvedQuery.t) (token : string) : ResolvedQuery.t :=
  ResolvedQuery.mk ((ResolvedQuery.Query_ query) <| Query.Cursor := token |>)
    (ResolvedQuery.CandidateGroups query).

Lemma matches_continued task query token :
  matches task (continued query token) = matches task query.
Proof. done. Qed.

(** ** Selection *)

Definition beyond (query : ResolvedQuery.t) (after : option position.t) (task : Task.t) : Prop :=
  match after with
  | Some p => compare (positionOf task) p (ResolvedQuery.Query_ query) = Gt
  | None => True
  end.
#[global] Instance beyond_dec query after task : Decision (beyond query after task).
Proof. unfold beyond. destruct after; apply _. Defined.

Lemma select_filter query after l :
  select query after l =
  filter (beyond query after) (filter (fun t => matches t query = true) l).
Proof.
  induction l as [|t l IH]; [done|]. cbn [select]. rewrite (filter_cons _ t l).
  destruct (matches t query); cbn [negb].
  - rewrite decide_True by done. rewrite filter_cons, IH.
    destruct after as [p|]; [|done].
    case_decide as Hb; cbn [beyond] in Hb; destruct (compare _ _ _); done.
  - by rewrite decide_False, IH.
Qed.

(** The tasks a query selects, in the query's order. *)
Definition ordered (query : ResolvedQuery.t) (candidates : list Task.t) : list Task.t :=
  sort_tasks (ResolvedQuery.Query_ query)
    (filter (fun t => matches t query = true) candidates).

Lemma elem_of_ordered query l t : t ∈ ordered query l <-> matches t query = true /\ t ∈ l.
Proof. unfold ordered, sort_tasks. by rewrite merge_sort_Permutation, list_elem_of_filter. Qed.

Lemma ordered_sorted query l :
  StronglySorted (no_later (compare_tasks (ResolvedQuery.Query_ query))) (ordered query l).
Proof. apply sorted_by, _. Qed.

Lemma ordered_injective query l x y :
  NoDup (Task.ID <$> l) -> x ∈ l -> y ∈ l ->
  compare_tasks (ResolvedQuery.Query_ query) x y = Eq -> x = y.
Proof.
  intros Hd Hx Hy E%compare_eq_ID. by apply (NoDup_fmap_inj Task.ID l).
Qed.

(** Sorting what lies beyond a cursor is what lies beyond it in the sorted list. *)
Lemma select_ordered query after l :
  NoDup (Task.ID <$> l) ->
  sort_tasks (ResolvedQuery.Query_ query) (select query after l) =
  filter (beyond query after) (ordered query l).
Proof.
  intros Hd. rewrite select_filter. apply sort_filter; [apply _|].
  intros x y [_ Hx]%list_elem_of_filter [_ Hy]%list_elem_of_filter.
  by apply (ordered_injective query l).
Qed.

(** ** Pages *)

(** The page cut from what is left of the sorted list. *)
Definition cut_page (codec : CursorCodec.t) (q : Query.t) (rest : list Task.t) : res Page.t :=
  let limit := Z.to_nat (Query.EffectiveLimit q) in
  if decide (limit < length rest) then
    match last (take limit rest) with
    | None => Ok (Page.mk [] "")
    | Some final =>
        try! token := encodeCursor codec q (positionOf final) in
        Ok (Page.mk (take limit rest) token)
    end
  else Ok (Page.mk rest "").

(** Reading every page of a query in turn, each from the token of the last. *)
Fixpoint walk (codec : CursorCodec.t) (candidates : list Task.t) (query : ResolvedQuery.t)
    (fuel : nat) (token : string) : res (list Task.t) :=
  match fuel with
  | 0 => Err (ExternalError "out of fuel" [])
  | S fuel =>
      try! page := queryPage codec candidates (continued query token) in
      if decide (Page.NextCursor page = "") then Ok (Page.Tasks page)
      else
        try! rest := walk codec candidates query fuel (Page.NextCursor page) in
        Ok (Page.Tasks page ++ rest)
  end.

Lemma Clone_map (l : list Task.t) : Task.Clone <$> l = l.
Proof. induction l as [|t l IH]; [done|]. cbn. by rewrite Task_Clone_id, IH. Qed.

Lemma EffectiveLimit_bounds q : (1 <= Query.EffectiveLimit q <= MaxQueryLimit)%Z.
Proof.
  unfold Query.EffectiveLimit, DefaultQueryLimit, MaxQueryLimit.
  repeat case_decide; lia.
Qed.

Lemma continued_limit query token :
  Query.EffectiveLimit (ResolvedQuery.Query_ (continued query token)) =
  Query.EffectiveLimit (ResolvedQuery.Query_ query).
Proof. done. Qed.

(** A token that reads as a position. *)
Definition reads_as (codec : CursorCodec.t) (query : ResolvedQuery.t) (token : string)
    (after : option position.t) : Prop :=
  match after with
  | None => token = ""
  | Some p =>
      token <> "" /\
      decodeCursor codec (ResolvedQuery.Query_ (continued query token)) = Ok p
  end.

Lemma select_continued query token after l :
  select (continued query token) after l = select query after l.
Proof.
  induction l as [|t l IH]; [done|]. cbn [select]. rewrite IH, matches_continued.
  by destruct after.
Qed.

Lemma queryPage_cut codec l query token after :
  NoDup (Task.ID <$> l) ->
  Ordering_Valid (Query.OrderBy (ResolvedQuery.Query_ query)) = true ->
  reads_as codec query token after ->
  queryPage codec l (continued query token) =
  cut_page codec (ResolvedQuery.Query_ query) (filter (beyond query after) (ordered query l)).
Proof.
  intros Hd Hv Ha. unfold queryPage, cut_page. cbv zeta.
  change (Query.OrderBy (ResolvedQuery.Query_ (continued query token)))
    with (Query.OrderBy (ResolvedQuery.Query_ query)).
  rewrite Hv. cbn [negb].
  change (Query.Cursor (ResolvedQuery.Query_ (continued query token))) with token.
  assert (Hafter : (if decide (token <> "")
      then try! decoded := decodeCursor codec (ResolvedQuery.Query_ (continued query token)) in
           Ok (Some decoded)
      else Ok None) = Ok after).
  { destruct after as [p|]; unfold reads_as in Ha.
    - destruct Ha as [? ->]. by rewrite decide_True.
    - subst token. rewrite decide_False; [done|]. by intros []. }
  rewrite Hafter. cbn [rbind].
  rewrite select_continued.
  change (sort_tasks (ResolvedQuery.Query_ (continued query token)))
    with (sort_tasks (ResolvedQuery.Query_ query)).
  rewrite select_ordered by done. rewrite continued_limit.
  destruct (decide (Z.to_nat _ < length _)); [|by rewrite Clone_map].
  destruct (last _) as [final|]; [|done]. rewrite Clone_map. done.
Qed.

Section paging.
Context (codec : CursorCodec.t) `{!CursorRoundTrip codec}.
Context (query : ResolvedQuery.t) (l : list Task.t).
Hypothesis Hvalid : Ordering_Valid (Query.OrderBy (ResolvedQuery.Query_ query)) = true.
Hypothesis Hdistinct : NoDup (Task.ID <$> l).
Hypothesis Hnamed : forall t, t ∈ l -> Task.ID t <> "".
Let q := ResolvedQuery.Query_ query.

Lemma encode_reads t token :
  Task.ID t <> "" -> encodeCursor codec q (positionOf t) = Ok token ->
  reads_as codec query token (Some (positionOf t)).
Proof.
  intros Hid He. unfold encodeCursor in He.
  destruct (CursorCodec.Marshal codec _) as [tok|] eqn:Em; [|done]. injection He as ->.
  split; [by eapply marshal_nonempty|]. unfold decodeCursor.
  change (Query.Cursor (ResolvedQuery.Query_ (continued query token))) with token.
  rewrite (marshal_unmarshal _ _ Em). cbn. rewrite decide_False by done.
  rewrite decide_False; [done|]. by intros [[]|[]].
Qed.

(** What lies beyond an element of the sorted list is the rest of it. *)
Lemma beyond_suffix l1 t l2 :
  ordered query l = l1 ++ t :: l2 ->
  filter (beyond query (Some (positionOf t))) (ordered query l) = l2.
Proof.
  intros E. pose proof (ordered_sorted query l) as Hs. rewrite E in Hs |- *.
  apply (filter_beyond (compare_tasks (ResolvedQuery.Query_ query)) l1 t l2 Hs).
  intros y Hy Heq.
  assert (Hmem : forall z, z ∈ l1 ++ t :: l2 -> z ∈ l)
    by (intros z Hz; rewrite <- E in Hz; by apply elem_of_ordered in Hz as [_ ?]).
  assert (t = y) as <-.
  { apply (ordered_injective query l); [done|apply Hmem; set_solver..|done]. }
  assert (Hn : NoDup (ordered query l)).
  { unfold ordered, sort_tasks. rewrite merge_sort_Permutation.
    apply NoDup_filter. by apply (NoDup_fmap_1 Task.ID). }
  rewrite E in Hn. apply NoDup_app in Hn as (_ & _ & [Hn _]%NoDup_cons). done.
Qed.

Hypothesis Hencode : forall t, t ∈ l -> exists token, encodeCursor codec q (positionOf t) = Ok token.

Lemma walk_suffix fuel prefix rest token after :
  ordered query l = prefix ++ rest ->
  reads_as codec query token after ->
  filter (beyond query after) (ordered query l) = rest ->
  length rest < fuel ->
  walk codec l query fuel token = Ok rest.
Proof.
  revert prefix rest token after. induction fuel as [|fuel IH]; [lia|].
  intros prefix rest token after Hsplit Hread Hrest Hfuel. cbn [walk].
  rewrite (queryPage_cut codec l query token after) by done. rewrite Hrest.
  unfold cut_page. pose proof (EffectiveLimit_bounds q) as Hlim. fold q.
  set (limit := Z.to_nat (Query.EffectiveLimit q)). assert (1 <= limit) by lia.
  case_decide as Hlong; [|done].
  destruct (last (take limit rest)) as [final|] eqn:El.
  2: { apply last_None, (f_equal length) in El. rewrite length_take in El. cbn in El. lia. }
  apply last_Some in El as [front El].
  assert (Hord : ordered query l = (prefix ++ front) ++ final :: drop limit rest).
  { rewrite Hsplit. rewrite <- (take_drop limit rest) at 1. rewrite El.
    by rewrite <- !app_assoc. }
  assert (final ∈ l) as Hin.
  { assert (final ∈ ordered query l) as H2 by (rewrite Hord; set_solver).
    by apply elem_of_ordered in H2 as [_ ?]. }
  destruct (Hencode final Hin) as [token' Htok]. rewrite Htok. cbn [rbind Page.NextCursor Page.Tasks].
  pose proof (encode_reads final token' (Hnamed _ Hin) Htok) as Hread'.
  rewrite decide_False by (destruct Hread'; done).
  rewrite (IH (prefix ++ front ++ [final]) (drop limit rest) token' (Some (positionOf final))).
  - cbn [rbind]. by rewrite take_drop.
  - rewrite Hord. by rewrite <- !app_assoc.
  - done.
  - by apply (beyond_suffix (prefix ++ front)).
  - rewrite length_drop. lia.
Qed.
End paging.

Lemma countMatching_length l query n :
  (0 <= n)%Z -> (n + Z.of_nat (length l) <= max_int64)%Z ->
  foldl (fun count task => if matches task query then wrap64 (count + 1) else count)%Z n l =
  (n + Z.of_nat (length (filter (fun t => matches t query = true) l)))%Z.
Proof.
  revert n; induction l as [|t l IH]; intros n Hn Hb; cbn [foldl]; [cbn; lia|].
  cbn [length] in Hb. rewrite filter_cons. destruct (matches t query).
  - rewrite decide_True by done. rewrite wrap64_small by (unfold max_int64 in *; lia).
    rewrite IH by lia. cbn [length]. lia.
  - rewrite decide_False by done. apply IH; lia.
Qed.

Lemma filter_flag (b : bool) (P : Prop) `{Decision P} :
  (bool_decide P && b = false) <-> (P -> b = false).
Proof. case_bool_decide; cbn; naive_solver. Qed.

Lemma in_any_group_spec task groups :
  in_any_group task groups = true <->
  exists g, g ∈ groups /\ g ∈ CandidatePool.Groups (Task.Candidates task).
Proof.
  induction groups as [|g gs IH]; cbn.
  { split; [done|]. intros (? & ?%not_elem_of_nil & _). done. }
  setoid_rewrite elem_of_cons.
  destruct (contains _ g) eqn:E; [apply contains_true in E|apply contains_false in E].
  - naive_solver.
  - rewrite IH. naive_solver.
Qed.

Lemma page_last_max q limit l a b :
  last (take limit (sort_tasks q l)) = Some b -> a ∈ take limit (sort_tasks q l) ->
  compare_tasks q a b <> Gt.
Proof.
  pose proof (sorted_by (compare_tasks q) l) as Hs. fold (sort_tasks q l) in Hs.
  rewrite <- (take_drop limit (sort_tasks q l)) in Hs.
  apply StronglySorted_app_1_l in Hs. intros [front E]%last_Some. rewrite E in Hs |- *.
  intros [Ha| ->%list_elem_of_singleton]%elem_of_app; [|by rewrite cmp_refl by apply _].
  by apply (StronglySorted_app_1_elem_of _ _ _ a b Hs Ha); left.
Qed.

(** What a page that is not the last one ends with. *)
Lemma queryPage_final codec l query token page a :
  queryPage codec l (continued query token) = Ok page ->
  Page.NextCursor page <> "" -> a ∈ Page.Tasks page ->
  exists final, encodeCursor codec (ResolvedQuery.Query_ query) (positionOf final) =
      Ok (Page.NextCursor page) /\
    compare_tasks (ResolvedQuery.Query_ query) a final <> Gt.
Proof.
  unfold queryPage; cbv zeta. destruct (negb _); [done|].
  intros (after & _ & H)%rbind_ok Hne Ha.
  destruct (decide (Z.to_nat _ < length _)); [|by injection H as <-].
  destruct (last _) as [final|] eqn:El; [|by injection H as <-].
  apply rbind_ok in H as (tok & He & [= <-]). exists final. split; [exact He|].
  cbn in Ha. rewrite Clone_map in Ha.
  by apply (page_last_max _ _ _ _ _ El Ha).
Qed.

Lemma queryPage_elem codec l query token page b :
  queryPage codec l (continued query token) = Ok page -> b ∈ Page.Tasks page ->
  exists after,
    (if decide (token <> "")
     then try! decoded := decodeCursor codec (ResolvedQuery.Query_ (continued query token)) in
          Ok (Some decoded)
     else Ok None) = Ok after /\
    b ∈ l /\ matches b query = true /\ beyond query after b.
Proof.
  unfold queryPage; cbv zeta. destruct (negb _); [done|].
  intros (after & Hafter & H)%rbind_ok Hb. exists after. split; [exact Hafter|].
  rewrite select_continued in H.
  assert (Hin : b ∈ sort_tasks (ResolvedQuery.Query_ (continued query token))
                      (select query after l)).
  { destruct (decide (Z.to_nat _ < length _)).
    - destruct (last _) as [final|] eqn:El.
      + apply rbind_ok in H as (tok & He & [= <-]). cbn in Hb. rewrite Clone_map in Hb.
        by eapply subseteq_take.
      + injection H as <-. by apply not_elem_of_nil in Hb.
    - injection H as <-. cbn in Hb. by rewrite Clone_map in Hb. }
  unfold sort_tasks in Hin. rewrite merge_sort_Permutation, select_filter in Hin.
  apply list_elem_of_filter in Hin as [? [? ?]%list_elem_of_filter]. done.
Qed.

Lemma queryPage_beyond codec `{!CursorRoundTrip codec} l query token page final b :
  queryPage codec l (continued query token) = Ok page ->
  encodeCursor codec (ResolvedQuery.Query_ query) (positionOf final) = Ok token ->
  token <> "" -> b ∈ Page.Tasks page ->
  compare_tasks (ResolvedQuery.Query_ query) b final = Gt.
Proof.
  intros H He Hne Hb. destruct (queryPage_elem _ _ _ _ _ _ H Hb) as (after & Ha & _ & _ & Hgt).
  rewrite decide_True in Ha by done. apply rbind_ok in Ha as (p & Hp & [= <-]).
  unfold encodeCursor in He. destruct (CursorCodec.Marshal codec _) as [tok|] eqn:Em; [|done].
  injection He as ->. unfold decodeCursor in Hp.
  change (Query.Cursor (ResolvedQuery.Query_ (continued query token))) with token in Hp.
  rewrite (marshal_unmarshal _ _ Em) in Hp. do 2 (case_decide; [done|]).
  injection Hp as <-. exact Hgt.
Qed.

Lemma not_not_eq {A} `{EqDecision A} (x y : A) : ~ (x <> y) <-> x = y.
Proof. split; [apply dec_stable|naive_solver]. Qed.

Lemma matchesCandidate_spec task query :
  let who := Query.Candidate (ResolvedQuery.Query_ query) in
  let pool := Task.Candidates task in
  matchesCandidate task query = true <->
  (who <> "" -> who ∉ CandidatePool.Excluded pool /\
     (if decide (Task.Assignee task = "")
      then who ∈ CandidatePool.Users pool \/
           exists g, g ∈ ResolvedQuery.CandidateGroups query /\ g ∈ CandidatePool.Groups pool
      else Task.Assignee task = who)).
Proof.
  unfold matchesCandidate; cbv zeta. generalize (Query.Candidate (ResolvedQuery.Query_ query)).
  intros who. destruct (decide (who = "")) as [|Hw]; [naive_solver|].
  destruct (contains (CandidatePool.Excluded _) who) eqn:Ex;
    [apply contains_true in Ex; naive_solver|apply contains_false in Ex].
  destruct (decide (Task.Assignee task = "")) as [Ea|Ea].
  - rewrite decide_False by (by intros []).
    destruct (contains (CandidatePool.Users _) who) eqn:Eu;
      [apply contains_true in Eu; naive_solver|apply contains_false in Eu].
    rewrite in_any_group_spec. naive_solver.
  - rewrite decide_True, bool_decide_eq_true by done. naive_solver.
Qed.

(** * Properties *)

(** C19: Reading a query page by page, each page from the token of the last,
    ends after finitely many pages and gives every matching task exactly once,
    in strictly increasing order of the query's key, and as many of them as
    counting the query reports. *)
Theorem pages_concatenate codec `{!CursorRoundTrip codec} l query :
  Ordering_Valid (Query.OrderBy (ResolvedQuery.Query_ query)) = true ->
  NoDup (Task.ID <$> l) ->
  (forall t, t ∈ l -> Task.ID t <> "") ->
  (forall t, t ∈ l -> exists token,
     encodeCursor codec (ResolvedQuery.Query_ query) (positionOf t) = Ok token) ->
  (Z.of_nat (length l) <= max_int64)%Z ->
  exists tasks,
    (forall fuel, length l < fuel -> walk codec l query fuel "" = Ok tasks) /\
    StronglySorted
      (fun a b => compare_tasks (ResolvedQuery.Query_ query) a b = Lt) tasks /\
    (forall t, t ∈ tasks <-> t ∈ l /\ matches t query = true) /\
    countMatching l query = Z.of_nat (length tasks).
Proof.
  intros Hv Hd Hn He Hb. exists (ordered query l).
  assert (Hlen : length (ordered query l) =
    length (filter (fun t => matches t query = true) l)).
  { unfold ordered, sort_tasks. by rewrite merge_sort_Permutation. }
  split_and!.
  - intros fuel Hf. apply (walk_suffix codec query l Hv Hd Hn He fuel [] _ "" None);
      [done|done|by apply filter_all|].
    rewrite Hlen. pose proof (length_filter (fun t => matches t query = true) l). lia.
  - assert (Hnd : NoDup (Task.ID <$> ordered query l)).
    { unfold ordered, sort_tasks. rewrite merge_sort_Permutation.
      by apply NoDup_fmap_filter. }
    pose proof (ordered_sorted query l) as Hs. revert Hnd. clear Hlen.
    induction Hs as [|x r Hr IH Hx]; [constructor|]. cbn. intros [Hni Hnd]%NoDup_cons.
    constructor; [by apply IH|]. rewrite Forall_forall in Hx |- *. intros y Hy.
    specialize (Hx y Hy). unfold no_later in Hx.
    destruct (compare_tasks _ x y) eqn:E; [|done|done].
    destruct Hni. apply compare_eq_ID in E. cbn in E. rewrite E.
    by apply list_elem_of_fmap_2.
  - intros t. rewrite elem_of_ordered. naive_solver.
  - unfold countMatching. rewrite countMatching_length by lia. lia.
Qed.

(** A page never repeats a task of an earlier one, whatever was written in
    between: every task of the page a token continues to sorts strictly after
    every task of the page that issued the token, even when the second page is
    read from a different set of tasks. *)
Theorem later_page_is_beyond codec `{!CursorRoundTrip codec} l1 l2 query token page1 page2 :
  queryPage codec l1 (continued query token) = Ok page1 ->
  Page.NextCursor page1 <> "" ->
  queryPage codec l2 (continued query (Page.NextCursor page1)) = Ok page2 ->
  forall a b, a ∈ Page.Tasks page1 -> b ∈ Page.Tasks page2 ->
  compare_tasks (ResolvedQuery.Query_ query) a b = Lt.
Proof.
  intros H1 Hne H2 a b Ha Hb.
  assert (exists final, encodeCursor codec (ResolvedQuery.Query_ query) (positionOf final) =
            Ok (Page.NextCursor page1) /\
          compare_tasks (ResolvedQuery.Query_ query) a final <> Gt) as (final & He & Hle).
  { by apply (queryPage_final codec l1 query token). }
  assert (compare_tasks (ResolvedQuery.Query_ query) b final = Gt) as Hgt.
  { by apply (queryPage_beyond codec l2 query (Page.NextCursor page1) page2 final). }
  rewrite (cmp_sym (c := compare_tasks (ResolvedQuery.Query_ query)) b a).
  destruct (compare_tasks _ b a) eqn:E; [..|done].
  - rewrite (cmp_eq (c := compare_tasks _) _ _ final E) in Hgt. done.
  - destruct (compare_tasks _ a final) eqn:E2; [|
      by rewrite (cmp_trans (c := compare_tasks _) _ _ _ E E2) in Hgt|done].
    rewrite <- (cmp_eq_r (compare_tasks _) _ _ b E2), E in Hgt. done.
Qed.

(** The query's filters, stated outright: a task is selected exactly when it
    satisfies every filter the query names, and a filter left empty restricts
    nothing.  The candidate filter selects what the candidate may act on: a held
    task only for its holder, a pooled one for whoever the pool names directly
    or through a resolved group, and nothing for somebody the pool excludes. *)
Theorem matches_spec task query :
  let q := ResolvedQuery.Query_ query in
  let pool := Task.Candidates task in
  let corr := Task.Correlation task in
  matches task query = true <->
  (Query.Assignee q <> "" -> Task.Assignee task = Query.Assignee q) /\
  (Query.Statuses q <> [] -> Task.Status task ∈ Query.Statuses q) /\
  (Query.Types q <> [] -> Task.Type_ task ∈ Query.Types q) /\
  (Query.OwnerType q <> "" -> CorrelationData.OwnerType corr = Query.OwnerType q) /\
  (Query.OwnerRef q <> "" -> CorrelationData.OwnerRef corr = Query.OwnerRef q) /\
  (Query.ActivityKey q <> "" -> CorrelationData.ActivityKey corr = Query.ActivityKey q) /\
  (Query.Group q <> "" -> Query.Group q ∈ CandidatePool.Groups pool) /\
  (forall limit, Query.DueBefore q = Some limit ->
     exists due, Task.DueAt task = Some due /\ (due < limit)%Z) /\
  (Query.Candidate q <> "" ->
     Query.Candidate q ∉ CandidatePool.Excluded pool /\
     (if decide (Task.Assignee task = "")
      then Query.Candidate q ∈ CandidatePool.Users pool \/
           exists g, g ∈ ResolvedQuery.CandidateGroups query /\ g ∈ CandidatePool.Groups pool
      else Task.Assignee task = Query.Candidate q)).
Proof.
  cbv zeta. unfold matches; cbv zeta.
  assert (Hcand : matchesCandidate task query = true <->
    (Query.Candidate (ResolvedQuery.Query_ query) <> "" ->
     Query.Candidate (ResolvedQuery.Query_ query) ∉
       CandidatePool.Excluded (Task.Candidates task) /\
     (if decide (Task.Assignee task = "")
      then Query.Candidate (ResolvedQuery.Query_ query) ∈
             CandidatePool.Users (Task.Candidates task) \/
           exists g, g ∈ ResolvedQuery.CandidateGroups query /\
             g ∈ CandidatePool.Groups (Task.Candidates task)
      else Task.Assignee task = Query.Candidate (ResolvedQuery.Query_ query)))).
  { apply matchesCandidate_spec. }
  assert (Hs : forall (P : Prop) `{Decision P} (b : bool) (x : bool),
    (if bool_decide P && b then false else x) = true <-> (P -> b = false) /\ x = true).
  { intros P ? b x. case_bool_decide; destruct b, x; cbn; naive_solver. }
  assert (Hlen : forall {A} (l : list A), 0 < length l <-> l <> [])
    by (intros A [|? ?]; cbn; split; intros; [lia|done|done|lia]).
  rewrite !Hs, !negb_false_iff, !bool_decide_eq_false, !contains_true, !Hlen.
  set (due := match Query.DueBefore _ with Some _ => _ | None => _ end).
  assert (Hdue : due = false <-> forall limit,
    Query.DueBefore (ResolvedQuery.Query_ query) = Some limit ->
    exists d, Task.DueAt task = Some d /\ (d < limit)%Z).
  { subst due. destruct (Query.DueBefore _) as [limit|]; [|naive_solver].
    destruct (Task.DueAt task) as [d|]; [|naive_solver].
    rewrite negb_false_iff, bool_decide_eq_true. naive_solver. }
  rewrite <- Hcand, <- Hdue, !not_not_eq. clear Hs Hlen Hcand Hdue.
  destruct due; split.
  - by intros (_ & _ & _ & _ & _ & _ & _ & ?).
  - by intros (_ & _ & _ & _ & _ & _ & _ & ? & _).
  - intros (? & ? & ? & ? & ? & ? & ? & ?). by split_and!.
  - intros (? & ? & ? & ? & ? & ? & ? & _ & ?). by split_and!.
Qed.

(** What each ordering puts first.  Under the due and urgency orderings a
    task without a deadline comes after every task with one (of its priority,
    for urgency) in both directions; everything else of the order reverses with
    the direction, the tiebreak included; and no two tasks with different
    identifiers are ever tied. *)
Theorem ordering_direction q a b :
  Query.Descending q = false ->
  let down := q <| Query.Descending := true |> in
  (position.DueAt a <> None -> position.DueAt b = None ->
   Query.OrderBy q = OrderDue \/
     Query.OrderBy q = OrderUrgency /\ position.Priority a = position.Priority b ->
   compare a b q = Lt /\ compare a b down = Lt) /\
  ((position.DueAt a = None <-> position.DueAt b = None) \/
     Query.OrderBy q = OrderCreated \/ Query.OrderBy q = OrderPriority ->
   compare a b down = CompOpp (compare a b q)) /\
  (compare a b q = Eq -> position.ID a = position.ID b) /\
  (compare a b down = Eq -> position.ID a = position.ID b).
Proof.
  intros Hd; cbv zeta. split_and!; [| |apply compare_eq_ID..].
  - intros Ha Hb Ho. destruct (position.DueAt a) as [x|] eqn:Ea; [|done].
    unfold compare; cbn. rewrite Ea, Hb. destruct Ho as [->|[-> ->]]; cbn;
      rewrite ?Z.compare_refl; done.
  - intros H. unfold compare; cbn. rewrite Hd.
    destruct (Query.OrderBy q); cbn;
      repeat match goal with
      | |- context [Z.compare ?x ?y] => destruct (Z.compare x y); cbn
      | |- context [match position.DueAt ?x with _ => _ end] =>
          destruct (position.DueAt x) eqn:?; cbn
      end; rewrite ?CompOpp_involutive; try done; naive_solver.
Qed.

(** A token is bound to the ordering and the direction that issued it:
    continuing another one with it, or with anything the store did not issue, is
    refused as a validation error and no page is read. *)
Theorem foreign_cursor_refused codec `{!CursorRoundTrip codec} l query issuer after token :
  Ordering_Valid (Query.OrderBy (ResolvedQuery.Query_ query)) = true ->
  (token <> "" /\ CursorCodec.Unmarshal codec token = None) \/
  (encodeCursor codec issuer after = Ok token /\
   (Query.OrderBy issuer <> Query.OrderBy (ResolvedQuery.Query_ query) \/
    Query.Descending issuer <> Query.Descending (ResolvedQuery.Query_ query))) ->
  exists e, queryPage codec l (continued query token) = Err e /\
    errors_Is e ErrValidation = true.
Proof.
  intros Hv H.
  assert (Hne : token <> "").
  { destruct H as [[? _]|[He _]]; [done|]. unfold encodeCursor in He.
    destruct (CursorCodec.Marshal codec _) eqn:Em; [|done]. injection He as ->.
    by eapply marshal_nonempty. }
  assert (exists e, decodeCursor codec (ResolvedQuery.Query_ (continued query token)) = Err e /\
            errors_Is e ErrValidation = true) as (e & He & Hval).
  { unfold decodeCursor.
    change (Query.Cursor (ResolvedQuery.Query_ (continued query token))) with token.
    destruct H as [[_ ->]|[He Hmis]]; [eauto|].
    unfold encodeCursor in He. destruct (CursorCodec.Marshal codec _) eqn:Em; [|done].
    injection He as ->. rewrite (marshal_unmarshal _ _ Em). case_decide; [eauto|].
    rewrite decide_True by exact Hmis. eauto. }
  exists e. split; [|done]. unfold queryPage; cbv zeta.
  change (Query.OrderBy (ResolvedQuery.Query_ (continued query token)))
    with (Query.OrderBy (ResolvedQuery.Query_ query)). rewrite Hv. cbn [negb].
  change (Query.Cursor (ResolvedQuery.Query_ (continued query token))) with token.
  rewrite decide_True by done. rewrite He. done.
Qed.

(** * Witnesses *)

(** A codec that satisfies the law, for the concrete inputs below: a cursor is
    encoded as a number, the number as a string of its bits, and a deadline past
    the year 9999 fails to render as it does in JSON. *)
Module QueryExamples.
Definition Ordering_raw (o : Ordering) : string := Ordering_String o.
Definition Ordering_of (raw : string) : Ordering :=
  if decide (raw = "") then OrderCreated
  else if decide (raw = "priority") then OrderPriority
  else if decide (raw = "due") then OrderDue
  else if decide (raw = "urgency") then OrderUrgency
  else OrderingOther raw.

Definition flat : Type := string * bool * (Z * option Z * string).
Definition flatten (c : cursor.t) : flat :=
  (Ordering_String (cursor.Ordering_ c), cursor.Descending c,
   (position.Priority (cursor.After c), position.DueAt (cursor.After c),
    position.ID (cursor.After c))).
Definition rebuild (f : flat) : cursor.t :=
  let '(o, d, (p, t, i)) := f in cursor.mk (Ordering_of o) d (position.mk p t i).

Fixpoint bits (p : positive) : string :=
  match p with
  | xH => "."
  | xO p => String (Ascii.ascii_of_nat 48) (bits p)
  | xI p => String (Ascii.ascii_of_nat 49) (bits p)
  end.
Fixpoint unbits (s : string) : option positive :=
  match s with
  | EmptyString => None
  | String c s' =>
      if decide (Ascii.nat_of_ascii c = 48) then xO <$> unbits s'
      else if decide (Ascii.nat_of_ascii c = 49) then xI <$> unbits s'
      else Some xH
  end.

(** 31 December 9999, in nanoseconds since the zero time. *)
Definition last_year : Z := (315537897600 * 1000000000)%Z.

Definition codec : CursorCodec.t :=
  CursorCodec.mk
    (fun c =>
       if decide (Ordering_Valid (cursor.Ordering_ c) = true /\
                  default 0%Z (position.DueAt (cursor.After c)) < last_year)%Z
       then Some (bits (encode (flatten c))) else None)
    (fun token => rebuild <$> (unbits token ≫= decode)).

Lemma unbits_bits p : unbits (bits p) = Some p.
Proof. induction p as [p IH|p IH|]; cbn; rewrite ?IH; done. Qed.

#[global] Instance codec_roundtrip : CursorRoundTrip codec.
Proof.
  constructor; intros c token; cbn; (case_decide as H; [|done]); intros [= <-].
  - by destruct (encode _).
  - rewrite unbits_bits; cbn. rewrite decode_encode; cbn.
    destruct c as [o d [p t i]], H as [H _]; cbn in *. by destruct o.
Qed.

Definition queued (id : string) (priority : Z) (due : option Time) : Task.t := {|
  Task.ID := id; Task.Type_ := "review"; Task.Version := 1;
  Task.Status := StatusReady; Task.SuspendedFrom := StatusNone;
  Task.Priority := priority; Task.Assignee := "";
  Task.Candidates := CandidatePool.mk ["ann"] [] [];
  Task.Correlation := CorrelationData.empty; Task.Callback := None;
  Task.Escalation := None; Task.Input := None; Task.Progress := None;
  Task.Output := None; Task.Reason := ""; Task.CreatedBy := "sys";
  Task.EscalationCount := 0; Task.CreatedAt := 1000; Task.UpdatedAt := 1000;
  Task.DueAt := due; Task.StartedAt := None; Task.ClosedAt := None;
  Task.EscalatedAt := None; Task.LockedBy := ""; Task.LockedUntil := None |}.

Definition inbox : list Task.t :=
  [queued "t3" 5 None; queued "t1" 5 (Some 9000%Z); queued "t4" 1 None; queued "t2" 5 (Some 7000%Z)].
Definition urgent : ResolvedQuery.t :=
  ResolvedQuery.mk
    (Query.zero <| Query.OrderBy := OrderUrgency |> <| Query.Limit := 2%Z |>
       <| Query.Candidate := "ann" |>) [].
Definition first_token : string :=
  bits (encode (flatten (cursor.mk OrderUrgency false (positionOf (queued "t2" 5 (Some 7000%Z)))))).
End QueryExamples.
Import QueryExamples.

Example walk_demo :
  Task.ID <$> match walk codec inbox urgent 5 "" with Ok l => l | Err _ => [] end =
  ["t4"; "t2"; "t1"; "t3"].
Proof. vm_compute. reflexivity. Qed.

Lemma inbox_distinct : NoDup (Task.ID <$> inbox).
Proof. apply (bool_decide_unpack _). vm_compute. reflexivity. Qed.

Lemma pages_concatenate_witness :
  exists tasks, walk codec inbox urgent 5 "" = Ok tasks /\
    countMatching inbox urgent = Z.of_nat (length tasks).
Proof.
  destruct (pages_concatenate codec inbox urgent) as (tasks & Hw & _ & _ & Hc).
  - reflexivity.
  - exact inbox_distinct.
  - intros t Ht. repeat (apply elem_of_cons in Ht as [->|Ht]; [discriminate|]).
    by apply not_elem_of_nil in Ht.
  - intros t Ht.
    repeat (apply elem_of_cons in Ht as [->|Ht]; [eexists; vm_compute; reflexivity|]).
    by apply not_elem_of_nil in Ht.
  - vm_compute. discriminate.
  - exists tasks. split; [apply Hw; cbn; lia|exact Hc].
Defined.

Lemma later_page_is_beyond_witness :
  compare_tasks (ResolvedQuery.Query_ urgent) (queued "t2" 5 (Some 7000%Z)) (queued "t3" 5 None) = Lt.
Proof.
  apply (later_page_is_beyond codec inbox (queued "t0" 1 None :: inbox) urgent ""
    (Page.mk [queued "t4" 1 None; queued "t2" 5 (Some 7000%Z)] first_token)
    (Page.mk [queued "t1" 5 (Some 9000%Z); queued "t3" 5 None] ""));
    [vm_compute; reflexivity|discriminate|vm_compute; reflexivity
    |right; left|right; left].
Defined.

Lemma ordering_direction_witness :
  compare (positionOf (queued "t1" 5 (Some 9000%Z))) (positionOf (queued "t3" 5 None))
    ((ResolvedQuery.Query_ urgent) <| Query.Descending := true |>) = Lt.
Proof.
  apply (ordering_direction (ResolvedQuery.Query_ urgent)
           (positionOf (queued "t1" 5 (Some 9000%Z))) (positionOf (queued "t3" 5 None)));
    [reflexivity|discriminate|reflexivity|right; split; reflexivity].
Defined.

Lemma foreign_cursor_refused_witness :
  exists e, queryPage codec inbox
    (continued (ResolvedQuery.mk Query.zero []) first_token) = Err e /\
    errors_Is e ErrValidation = true.
Proof.
  apply (foreign_cursor_refused codec inbox (ResolvedQuery.mk Query.zero [])
    (ResolvedQuery.Query_ urgent) (positionOf (queued "t2" 5 (Some 7000%Z))));
    [reflexivity|right; split; [vm_compute; reflexivity|left; discriminate]].
Defined.
