(* ===== verification/Outbox.v ===== *)
(** * Outbox: the durable event record, as the relay sees it

    Models [outbox.go]: a recorded event with its delivery state, the three
    conditions an entry can be in, and the requests that move it between them.
    What each request does to an entry is stated here once, as a function of the
    entry, because every store has to do the same. *)

From S2P Require Import Prelude Domain Errors Event.

Definition DefaultOutboxBatch : Z := 50.

Module OutboxClaim.
Record t : Type := mk { Now : Time; Owner : string; Duration : Z; Limit : Z }.
End OutboxClaim.

Module OutboxEntry.
Record t : Type := mk {
  Event : Event.t;
  Attempts : Z;
  NextAttemptAt : option Time;
  LastError : string;
  Accepted : list string;
  PublishedAt : option Time;
  LockedBy : string;
  LockedUntil : option Time
}.
#[global] Instance eta : Eta t := fun x =>
  mk (Event x) (Attempts x) (NextAttemptAt x) (LastError x) (Accepted x)
    (PublishedAt x) (LockedBy x) (LockedUntil x).

Definition Delivered (e : t) : bool := bool_decide (PublishedAt e <> None).

Definition DeadLettered (e : t) : bool :=
  bool_decide (NextAttemptAt e = None) && bool_decide (PublishedAt e = None).

Definition Pending (e : t) : bool :=
  bool_decide (NextAttemptAt e <> None) && bool_decide (PublishedAt e = None).

Definition IsLeased (e : t) (now : Time) : bool :=
  match LockedUntil e with
  | None => false
  | Some until => bool_decide (now < until)%Z
  end.

Definition HasAccepted (e : t) (sink : string) : bool := contains (Accepted e) sink.

(** The identifier of the recorded event, which is the key of the entry. *)
Definition key (e : t) : string := Event.ID (Event e).
End OutboxEntry.

Module AttemptRecord.
Record t : Type := mk {
  EventID : string; Attempts : Z; NextAttemptAt : Time; LastError : string
}.
End AttemptRecord.

Module Acceptance.
Record t : Type := mk {
  EventID : string;
  Accepted : list string;
  PublishedAt : option Time;
  NextAttemptAt : option Time;
  Attempts : Z;
  LastError : string
}.
End Acceptance.

(** [Accepted] is nil when the caller records nothing about acceptance, which
    leaves the entry's own set alone. *)
Module DeadLetter.
Record t : Type := mk {
  EventID : string; Attempts : Z; LastError : string; Accepted : option (list string)
}.
End DeadLetter.

(** ** What each request does to an entry *)

Module Settle.
Definition record_event (event : Event.t) : OutboxEntry.t :=
  OutboxEntry.mk event 0 (Some (NormalizeTime (Event.OccurredAt event))) "" [] None "" None.

Definition free (e : OutboxEntry.t) : OutboxEntry.t :=
  e <| OutboxEntry.LockedBy := "" |> <| OutboxEntry.LockedUntil := None |>.

Definition lease (claim : OutboxClaim.t) (e : OutboxEntry.t) : OutboxEntry.t :=
  e <| OutboxEntry.LockedBy := OutboxClaim.Owner claim |>
    <| OutboxEntry.LockedUntil :=
         Some (NormalizeTime (OutboxClaim.Now claim) + OutboxClaim.Duration claim)%Z |>.

Definition attempt (r : AttemptRecord.t) (e : OutboxEntry.t) : OutboxEntry.t :=
  free (e <| OutboxEntry.Attempts := AttemptRecord.Attempts r |>
          <| OutboxEntry.NextAttemptAt := Some (NormalizeTime (AttemptRecord.NextAttemptAt r)) |>
          <| OutboxEntry.LastError := AttemptRecord.LastError r |>).

Definition accept (a : Acceptance.t) (e : OutboxEntry.t) : OutboxEntry.t :=
  let e := e <| OutboxEntry.Accepted := Acceptance.Accepted a |>
             <| OutboxEntry.Attempts := Acceptance.Attempts a |>
             <| OutboxEntry.LastError := Acceptance.LastError a |> in
  free
    match Acceptance.PublishedAt a with
    | Some at_ =>
        e <| OutboxEntry.PublishedAt := Some (NormalizeTime at_) |>
          <| OutboxEntry.LastError := "" |>
    | None =>
        match Acceptance.NextAttemptAt a with
        | Some at_ => e <| OutboxEntry.NextAttemptAt := Some (NormalizeTime at_) |>
        | None => e
        end
    end.

Definition bury (d : DeadLetter.t) (e : OutboxEntry.t) : OutboxEntry.t :=
  let e := e <| OutboxEntry.Attempts := DeadLetter.Attempts d |>
             <| OutboxEntry.LastError := DeadLetter.LastError d |>
             <| OutboxEntry.NextAttemptAt := None |> in
  free
    match DeadLetter.Accepted d with
    | Some accepted => e <| OutboxEntry.Accepted := accepted |>
    | None => e
    end.

(** Due: still pending, past its next attempt, and not held by a live lease. *)
Definition due (now : Time) (e : OutboxEntry.t) : bool :=
  OutboxEntry.Pending e && negb (OutboxEntry.IsLeased e now) &&
  match OutboxEntry.NextAttemptAt e with
  | Some next => bool_decide (next <= now)%Z
  | None => false
  end.
End Settle.

(** * Properties *)

(** A recorded event is in exactly one of the three conditions: delivered,
    dead-lettered, or pending.  Recording makes it pending and due at once;
    publishing it delivers it whatever it was; dead-lettering an undelivered one
    ends it for good; and every settlement frees the lease and leaves the event
    itself untouched. *)
Theorem outbox_conditions e :
  (OutboxEntry.Delivered e, OutboxEntry.DeadLettered e, OutboxEntry.Pending e)
    ∈ [(true, false, false); (false, true, false); (false, false, true)] /\
  (forall event now, (Event.OccurredAt event <= now)%Z ->
     Settle.due now (Settle.record_event event) = true) /\
  (forall a, Acceptance.PublishedAt a <> None ->
     OutboxEntry.Delivered (Settle.accept a e) = true /\
     OutboxEntry.LastError (Settle.accept a e) = "") /\
  (forall d, OutboxEntry.Delivered e = false ->
     OutboxEntry.DeadLettered (Settle.bury d e) = true /\
     forall now, Settle.due now (Settle.bury d e) = false) /\
  (forall r a d e', e' ∈ [Settle.attempt r e; Settle.accept a e; Settle.bury d e] ->
     OutboxEntry.Event e' = OutboxEntry.Event e /\
     OutboxEntry.LockedBy e' = "" /\ forall now, OutboxEntry.IsLeased e' now = false).
Proof.
  unfold OutboxEntry.Delivered, OutboxEntry.DeadLettered, OutboxEntry.Pending.
  split_and!.
  - destruct (OutboxEntry.PublishedAt e), (OutboxEntry.NextAttemptAt e); cbn;
      rewrite ?bool_decide_eq_true, ?bool_decide_eq_false; set_solver.
  - intros event now H. unfold Settle.due; cbn. apply bool_decide_eq_true.
    pose proof (NormalizeTime_bounds (Event.OccurredAt event)). lia.
  - intros a H. unfold Settle.accept, Settle.free.
    destruct (Acceptance.PublishedAt a); [done|done].
  - intros d Hd. apply bool_decide_eq_false, dec_stable in Hd.
    unfold Settle.due, Settle.bury, Settle.free, OutboxEntry.Pending.
    destruct (DeadLetter.Accepted d); cbn; rewrite Hd; done.
  - intros r a d e' He'. unfold Settle.attempt, Settle.accept, Settle.bury, Settle.free in He'.
    rewrite !elem_of_cons in He'. destruct He' as [->|[->|[->|?%not_elem_of_nil]]]; [done| | |done].
    + by destruct (Acceptance.PublishedAt a), (Acceptance.NextAttemptAt a).
    + by destruct (DeadLetter.Accepted d).
Qed.
