(* ===== verification/Store.v ===== *)
(** * Store: what the engine is promised of its storage

    Models the storage ports of [ports.go] and [outbox.go]: [Repository],
    [Transactor], [EventSink] and [OutboxStore], which the source joins into one
    interface [Store].  The promise is stated against a [Ledger], the flat state
    a reader sees: the tasks, their histories and the recorded events.  Each
    write of the ports is an operation of the ledger; a store implements it when,
    inside a transaction, the ledger it shows changes exactly as that operation
    says, and what it has committed does not change at all.  A transaction is
    begun on the committed ledger and ends by publishing what it shows or by
    leaving the committed ledger as it was.

    The service, the sweep and the relay are proved against [StoreLaws];
    [MemStore.v] proves that the in-memory store satisfies them. *)

From S2P Require Import Prelude Domain Errors Event Query Outbox.

Module LeaseRequest.
Record t : Type := mk {
  Now : Time;
  Owner : string;
  Duration : Z;
  Limit : Z;
  Types : list string
}.
End LeaseRequest.

(** ** The ledger *)

Module Ledger.
Record t : Type := mk {
  tasks : gmap string Task.t;
  history : gmap string (list TransitionRecord.t);
  outbox : list OutboxEntry.t
}.
#[global] Instance eta : Eta t := fun x => mk (tasks x) (history x) (outbox x).

Definition empty : t := mk ∅ ∅ [].

Definition keys (l : t) : list string := OutboxEntry.key <$> outbox l.

(** *** Reading *)

Definition Get (id : string) (l : t) : res Task.t :=
  match tasks l !! id with
  | Some task => Ok task
  | None => Err (NotFoundError id)
  end.

Definition History (id : string) (l : t) : list TransitionRecord.t :=
  default [] (history l !! id).

Definition snapshot (l : t) : list Task.t := (map_to_list (tasks l)).*2.

Definition Entry (id : string) (l : t) : res OutboxEntry.t :=
  match list_find (fun e => OutboxEntry.key e = id) (outbox l) with
  | Some (_, e) => Ok e
  | None => Err (OutboxNotFoundError id)
  end.

(** *** Writing *)

Definition put (task : Task.t) (l : t) : t :=
  l <| tasks := <[ Task.ID task := Task.Normalize task ]> (tasks l) |>.

Definition Create (task : Task.t) : SM t error unit := fun l =>
  match tasks l !! Task.ID task with
  | Some _ => (Err (ConflictError (Task.ID task) 0 0), l)
  | None => (Ok tt, put task l)
  end.

(** The write is conditional on the version the caller read. *)
Definition Update (task : Task.t) (expectedVersion : Z) : SM t error unit := fun l =>
  match tasks l !! Task.ID task with
  | None => (Err (NotFoundError (Task.ID task)), l)
  | Some current =>
      if decide (Task.Version current = expectedVersion) then (Ok tt, put task l)
      else (Err (ConflictError (Task.ID task) expectedVersion (Task.Version current)), l)
  end.

Definition log (record : TransitionRecord.t) (h : gmap string (list TransitionRecord.t))
  : gmap string (list TransitionRecord.t) :=
  let record := record <| TransitionRecord.At := NormalizeTime (TransitionRecord.At record) |> in
  <[ TransitionRecord.TaskID record :=
       default [] (h !! TransitionRecord.TaskID record) ++ [record] ]> h.

Definition AppendHistory (records : list TransitionRecord.t) : SM t error unit := fun l =>
  (Ok tt, l <| history := for_each log records (history l) |>).

Definition Append (events : list Event.t) : SM t error unit := fun l =>
  (Ok tt, l <| outbox := outbox l ++ (Settle.record_event <$> events) |>).

(** A task is claimable by a sweep when it is overdue, nobody holds a live lease
    on it, and its type is one the sweep asks for.  The sweep takes the first of
    them by identifier. *)
Definition claimable (lease : LeaseRequest.t) (task : Task.t) : bool :=
  let now := NormalizeTime (LeaseRequest.Now lease) in
  Task.IsOverdue task now && negb (Task.IsLeased task now) &&
  (bool_decide (LeaseRequest.Types lease = []) ||
   contains (LeaseRequest.Types lease) (Task.Type_ task)).

Definition leased (lease : LeaseRequest.t) (task : Task.t) : Task.t :=
  Task.Normalize
    (task <| Task.LockedBy := LeaseRequest.Owner lease |>
          <| Task.LockedUntil :=
               Some (NormalizeTime (LeaseRequest.Now lease) + LeaseRequest.Duration lease)%Z |>).

Definition batch (limit fallback : Z) : nat :=
  Z.to_nat (if decide (limit <= 0)%Z then fallback else limit).

Definition by_task_id : Task.t -> Task.t -> comparison := on Task.ID String.compare.

Definition ClaimOverdue (lease : LeaseRequest.t) : SM t error (list Task.t) := fun l =>
  let claimed :=
    leased lease <$>
      take (batch (LeaseRequest.Limit lease) 100)
        (filter (fun task => claimable lease task = true)
           (merge_sort (no_later by_task_id) (snapshot l))) in
  (Ok claimed, for_each put claimed l).

(** *** Delivery *)

Definition edit (id : string) (f : OutboxEntry.t -> OutboxEntry.t) : SM t error unit := fun l =>
  if decide (id ∈ keys l)
  then (Ok tt, l <| outbox := (fun e => if decide (OutboxEntry.key e = id) then f e else e)
                                <$> outbox l |>)
  else (Err (OutboxNotFoundError id), l).

Definition RecordAttempt (r : AttemptRecord.t) : SM t error unit :=
  edit (AttemptRecord.EventID r) (Settle.attempt r).
Definition MarkAccepted (a : Acceptance.t) : SM t error unit :=
  edit (Acceptance.EventID a) (Settle.accept a).
Definition MarkDeadLettered (d : DeadLetter.t) : SM t error unit :=
  edit (DeadLetter.EventID d) (Settle.bury d).

(** Oldest first, by the time of the event and then by its identifier. *)
Definition by_age : OutboxEntry.t -> OutboxEntry.t -> comparison :=
  lex (on (fun e => Event.OccurredAt (OutboxEntry.Event e)) Z.compare)
      (on OutboxEntry.key String.compare).

Definition ClaimDueEvents (claim : OutboxClaim.t) : SM t error (list OutboxEntry.t) := fun l =>
  let claimed :=
    Settle.lease claim <$>
      take (batch (OutboxClaim.Limit claim) DefaultOutboxBatch)
        (filter (fun e => Settle.due (NormalizeTime (OutboxClaim.Now claim)) e = true)
           (merge_sort (no_later by_age) (outbox l))) in
  (Ok claimed,
   l <| outbox := (fun e => if decide (OutboxEntry.key e ∈ OutboxEntry.key <$> claimed)
                            then Settle.lease claim e else e) <$> outbox l |>).
End Ledger.

(** ** The interface *)

(** The operations.  [D] is a store as one caller sees it: what is committed,
    and the transaction active on the caller's context, if any.  [Do] runs a
    computation that may also change state of its own, [X]; its first argument
    is what cancelled the context while the computation ran, if anything did. *)
Class Store (D : Type) : Type := {
  Do {X A} : option error -> SM (D * X) error A -> SM (D * X) error A;
  InTransaction : D -> bool;
  Transactional : bool;
  Create : Task.t -> SM D error unit;
  Get : string -> D -> res Task.t;
  Update : Task.t -> Z -> SM D error unit;
  AppendHistory : list TransitionRecord.t -> SM D error unit;
  History : string -> D -> res (list TransitionRecord.t);
  RunQuery : ResolvedQuery.t -> D -> res Page.t;
  RunCount : ResolvedQuery.t -> D -> res Z;
  ClaimOverdue : LeaseRequest.t -> SM D error (list Task.t);
  Append : list Event.t -> SM D error unit;
  OutboxEntry_ : string -> D -> res OutboxEntry.t;
  ClaimDueEvents : OutboxClaim.t -> SM D error (list OutboxEntry.t);
  RecordAttempt : AttemptRecord.t -> SM D error unit;
  MarkAccepted : Acceptance.t -> SM D error unit;
  MarkDeadLettered : DeadLetter.t -> SM D error unit
}.

(** What a caller sees ([view]), what is committed ([base]), when the store is in
    order ([sound]), when the active transaction has recorded no event of its own
    ([relayed]), how the store renders cursors, and the three ends of a
    transaction. *)
Class StoreModel (D : Type) : Type := {
  view : D -> Ledger.t;
  base : D -> Ledger.t;
  sound : D -> Prop;
  relayed : D -> Prop;
  cursors : CursorCodec.t;
  begin : D -> D;
  commit : D -> D;
  rollback : D -> D
}.

(** [within d d']: [d'] is the same transaction as [d], further along. *)
Definition within {D} `{!Store D, !StoreModel D} (d d' : D) : Prop :=
  InTransaction d' = InTransaction d /\ base d' = base d /\ sound d'.

(** A write of the store does what the ledger's operation does. *)
Definition implements {D A} `{!Store D, !StoreModel D}
    (m : SM D error A) (spec : SM Ledger.t error A) (d : D) : Prop :=
  within d (m d).2 /\ (m d).1 = (spec (view d)).1 /\ view (m d).2 = (spec (view d)).2.

(** A write outside a transaction is refused and changes nothing. *)
Definition refused_outside {D A} `{!Store D} (m : SM D error A) (d : D) : Prop :=
  InTransaction d = false ->
  exists e, m d = (Err e, d) /\ errors_Is e ErrConfiguration = true.

(** One write of the ports, on a store and on the ledger. *)
Inductive Write : Type :=
| WCreate (task : Task.t)
| WUpdate (task : Task.t) (expectedVersion : Z)
| WAppendHistory (records : list TransitionRecord.t)
| WAppend (events : list Event.t)
| WClaimOverdue (lease : LeaseRequest.t)
| WClaimDueEvents (claim : OutboxClaim.t)
| WRecordAttempt (record : AttemptRecord.t)
| WMarkAccepted (acceptance : Acceptance.t)
| WMarkDeadLettered (letter : DeadLetter.t).

Definition discard {S A} (m : SM S error A) : SM S error unit :=
  let! _ := m in sret tt.

Definition write_store {D} `{!Store D} (w : Write) : SM D error unit :=
  match w with
  | WCreate task => Create task
  | WUpdate task v => Update task v
  | WAppendHistory records => AppendHistory records
  | WAppend events => Append events
  | WClaimOverdue lease => discard (ClaimOverdue lease)
  | WClaimDueEvents claim => discard (ClaimDueEvents claim)
  | WRecordAttempt record => RecordAttempt record
  | WMarkAccepted acceptance => MarkAccepted acceptance
  | WMarkDeadLettered letter => MarkDeadLettered letter
  end.

Definition write_ledger (w : Write) : SM Ledger.t error unit :=
  match w with
  | WCreate task => Ledger.Create task
  | WUpdate task v => Ledger.Update task v
  | WAppendHistory records => Ledger.AppendHistory records
  | WAppend events => Ledger.Append events
  | WClaimOverdue lease => discard (Ledger.ClaimOverdue lease)
  | WClaimDueEvents claim => discard (Ledger.ClaimDueEvents claim)
  | WRecordAttempt record => Ledger.RecordAttempt record
  | WMarkAccepted acceptance => Ledger.MarkAccepted acceptance
  | WMarkDeadLettered letter => Ledger.MarkDeadLettered letter
  end.

Definition records_events (w : Write) : bool := match w with WAppend _ => true | _ => false end.
Definition claims_events (w : Write) : bool := match w with WClaimDueEvents _ => true | _ => false end.

Class StoreLaws (D : Type) `{!Store D, !StoreModel D} : Prop := {
  transactional : Transactional = true;
  (** Outside a transaction a caller sees what is committed. *)
  view_outside d : sound d -> InTransaction d = false -> view d = base d;
  keyed d id task :
    sound d -> Ledger.tasks (view d) !! id = Some task -> Task.ID task = id;
  distinct_events d : sound d -> NoDup (Ledger.keys (view d));
  (** Transactions. *)
  begin_law d : sound d -> InTransaction d = false ->
    InTransaction (begin d) = true /\ base (begin d) = base d /\
    view (begin d) = base d /\ sound (begin d) /\ relayed (begin d);
  commit_law d : sound d -> InTransaction d = true ->
    InTransaction (commit d) = false /\ base (commit d) = view d /\ sound (commit d);
  rollback_law d : sound d -> InTransaction d = true ->
    InTransaction (rollback d) = false /\ base (rollback d) = base d /\ sound (rollback d);
  do_joins {X A} ce (m : SM (D * X) error A) d x :
    InTransaction d = true -> Do ce m (d, x) = m (d, x);
  do_owns {X A} ce (m : SM (D * X) error A) d x :
    InTransaction d = false ->
    Do ce m (d, x) =
      match m (begin d, x) with
      | (Ok a, (d', x')) =>
          match ce with
          | None => (Ok a, (commit d', x'))
          | Some e => (Err e, (rollback d', x'))
          end
      | (Err e, (d', x')) => (Err e, (rollback d', x'))
      end;
  (** Reads see the view. *)
  get_law id d : sound d -> Get id d = Ledger.Get id (view d);
  history_law id d : sound d -> History id d = Ok (Ledger.History id (view d));
  count_law q d : sound d ->
    RunCount q d = Ok (countMatching (Ledger.snapshot (view d)) q);
  query_law q d : sound d ->
    RunQuery q d = queryPage cursors (Ledger.snapshot (view d)) q;
  entry_law id d : sound d -> OutboxEntry_ id d = Ledger.Entry id (view d);
  (** Writes. *)
  create_law task d : sound d -> InTransaction d = true ->
    implements (Create task) (Ledger.Create task) d;
  update_law task v d : sound d -> InTransaction d = true ->
    implements (Update task v) (Ledger.Update task v) d;
  append_history_law records d : sound d -> InTransaction d = true ->
    implements (AppendHistory records) (Ledger.AppendHistory records) d;
  append_law events d : sound d -> InTransaction d = true ->
    NoDup ((Event.ID <$> events) ++ Ledger.keys (view d)) ->
    implements (Append events) (Ledger.Append events) d;
  claim_overdue_law lease d : sound d -> InTransaction d = true ->
    implements (ClaimOverdue lease) (Ledger.ClaimOverdue lease) d;
  (** A claim of events is promised to a transaction that has recorded none of its
      own, which every other write leaves it. *)
  claim_due_law claim d : sound d -> InTransaction d = true -> relayed d ->
    implements (ClaimDueEvents claim) (Ledger.ClaimDueEvents claim) d;
  relayed_kept w d : sound d -> InTransaction d = true -> relayed d ->
    records_events w = false -> relayed (write_store w d).2;
  (** A settlement of any event, one the transaction recorded itself included. *)
  record_attempt_law r d : sound d -> InTransaction d = true ->
    implements (RecordAttempt r) (Ledger.RecordAttempt r) d;
  mark_accepted_law a d : sound d -> InTransaction d = true ->
    implements (MarkAccepted a) (Ledger.MarkAccepted a) d;
  mark_dead_lettered_law l d : sound d -> InTransaction d = true ->
    implements (MarkDeadLettered l) (Ledger.MarkDeadLettered l) d;
  (** Outside a transaction; no record at all is no write. *)
  create_outside task d : refused_outside (Create task) d;
  update_outside task v d : refused_outside (Update task v) d;
  append_history_outside records d :
    if decide (records = []) then AppendHistory records d = (Ok tt, d)
    else refused_outside (AppendHistory records) d;
  append_outside events d : refused_outside (Append events) d;
  claim_overdue_outside lease d : refused_outside (ClaimOverdue lease) d;
  claim_due_outside claim d : refused_outside (ClaimDueEvents claim) d;
  record_attempt_outside r d : refused_outside (RecordAttempt r) d;
  mark_accepted_outside a d : refused_outside (MarkAccepted a) d;
  mark_dead_lettered_outside l d : refused_outside (MarkDeadLettered l) d
}.

(** * Lemmas *)

#[global] Instance by_age_lawful : Lawful Ledger.by_age.
Proof. unfold Ledger.by_age. apply _. Qed.
#[global] Instance by_task_id_lawful : Lawful Ledger.by_task_id.
Proof. unfold Ledger.by_task_id. apply _. Qed.

Lemma StronglySorted_take {A} (R : relation A) n (l : list A) :
  StronglySorted R l -> StronglySorted R (take n l).
Proof. rewrite <- (take_drop n l) at 1. apply StronglySorted_app_1_l. Qed.

Lemma StronglySorted_fmap_keep {A B} (R : relation A) (R' : relation B) (f : A -> B) l :
  (forall x y, R x y -> R' (f x) (f y)) -> StronglySorted R l -> StronglySorted R' (f <$> l).
Proof.
  intros HR. induction 1 as [|x l _ IH Hx]; cbn; constructor; [done|].
  rewrite Forall_fmap. eapply Forall_impl; [exact Hx|]. intros y; apply HR.
Qed.

(** *** Claiming *)

Definition due_entries (claim : OutboxClaim.t) (l : Ledger.t) : list OutboxEntry.t :=
  take (Ledger.batch (OutboxClaim.Limit claim) DefaultOutboxBatch)
    (filter (fun e => Settle.due (NormalizeTime (OutboxClaim.Now claim)) e = true)
       (merge_sort (no_later Ledger.by_age) (Ledger.outbox l))).

Lemma due_entries_spec claim l e :
  e ∈ due_entries claim l ->
  e ∈ Ledger.outbox l /\ Settle.due (NormalizeTime (OutboxClaim.Now claim)) e = true.
Proof.
  intros H%subseteq_take. rewrite list_elem_of_filter, merge_sort_Permutation in H. naive_solver.
Qed.

Lemma due_entries_sorted claim l :
  StronglySorted (no_later Ledger.by_age) (due_entries claim l).
Proof. apply StronglySorted_take, StronglySorted_filter, sorted_by, _. Qed.

Lemma ClaimDueEvents_eq claim l :
  Ledger.ClaimDueEvents claim l =
  let claimed := Settle.lease claim <$> due_entries claim l in
  (Ok claimed,
   l <| Ledger.outbox :=
     (fun e => if decide (OutboxEntry.key e ∈ OutboxEntry.key <$> claimed)
               then Settle.lease claim e else e) <$> Ledger.outbox l |>).
Proof. done. Qed.

(** What a claim leased is not due until the lease has run out. *)
Lemma leased_not_due claim now e :
  (now < NormalizeTime (OutboxClaim.Now claim) + OutboxClaim.Duration claim)%Z ->
  Settle.due now (Settle.lease claim e) = false.
Proof.
  intros H. unfold Settle.due, OutboxEntry.IsLeased; cbn. rewrite bool_decide_true by done.
  by rewrite andb_false_r.
Qed.

Lemma claim_twice claim1 claim2 l es1 l1 es2 l2 :
  Ledger.ClaimDueEvents claim1 l = (Ok es1, l1) ->
  Ledger.ClaimDueEvents claim2 l1 = (Ok es2, l2) ->
  (NormalizeTime (OutboxClaim.Now claim2) <
     NormalizeTime (OutboxClaim.Now claim1) + OutboxClaim.Duration claim1)%Z ->
  forall id, id ∈ OutboxEntry.key <$> es1 -> id ∉ OutboxEntry.key <$> es2.
Proof.
  rewrite !ClaimDueEvents_eq. cbv zeta. intros [= <- <-] [= <- _] Ht id H1 H2.
  apply list_elem_of_fmap in H2 as (e2 & -> & H2).
  apply list_elem_of_fmap in H2 as (e & -> & H2).
  apply due_entries_spec in H2 as [Hin Hdue]. cbn [Ledger.outbox upd] in Hin.
  apply list_elem_of_fmap in Hin as (e0 & -> & Hin).
  change (OutboxEntry.key (Settle.lease claim2 ?x)) with (OutboxEntry.key x) in H1.
  case_decide as Hk.
  - by rewrite leased_not_due in Hdue.
  - by destruct Hk.
Qed.

Definition overdue_tasks (lease : LeaseRequest.t) (l : Ledger.t) : list Task.t :=
  take (Ledger.batch (LeaseRequest.Limit lease) 100)
    (filter (fun task => Ledger.claimable lease task = true)
       (merge_sort (no_later Ledger.by_task_id) (Ledger.snapshot l))).

Lemma snapshot_lookup l task :
  task ∈ Ledger.snapshot l <-> exists id, Ledger.tasks l !! id = Some task.
Proof.
  unfold Ledger.snapshot. rewrite list_elem_of_fmap. split.
  - intros ([id t] & -> & H%elem_of_map_to_list). by exists id.
  - intros [id H]. exists (id, task). split; [done|]. by apply elem_of_map_to_list.
Qed.

Lemma overdue_tasks_spec lease l task :
  task ∈ overdue_tasks lease l ->
  Ledger.claimable lease task = true /\ exists id, Ledger.tasks l !! id = Some task.
Proof.
  intros H%subseteq_take.
  rewrite list_elem_of_filter, merge_sort_Permutation, snapshot_lookup in H. naive_solver.
Qed.

Lemma ClaimOverdue_eq lease l :
  Ledger.ClaimOverdue lease l =
  let claimed := Ledger.leased lease <$> overdue_tasks lease l in
  (Ok claimed, for_each Ledger.put claimed l).
Proof. done. Qed.

Lemma put_all_lookup ts l id task :
  Ledger.tasks (for_each Ledger.put ts l) !! id = Some task ->
  (exists t, t ∈ ts /\ Task.ID t = id /\ task = Task.Normalize t) \/
  (id ∉ Task.ID <$> ts /\ Ledger.tasks l !! id = Some task).
Proof.
  revert l; induction ts as [|t ts IH]; intros l; cbn [for_each].
  { intros H. right. split; [apply not_elem_of_nil|done]. }
  intros [(t' & ? & ?)|[Hni H]]%IH; [left; exists t'; split; [by right|done]|].
  cbn in H. apply lookup_insert_Some in H as [[<- <-]|[Hne H]].
  - left. exists t. split_and!; [left|done..].
  - right. split; [|done]. cbn. by apply not_elem_of_cons.
Qed.

Lemma put_all_present t ts l :
  t ∈ ts -> is_Some (Ledger.tasks (for_each Ledger.put ts l) !! Task.ID t).
Proof.
  intros Hin. assert (H : forall l', t ∈ ts \/ is_Some (Ledger.tasks l' !! Task.ID t) ->
    is_Some (Ledger.tasks (for_each Ledger.put ts l') !! Task.ID t)); [|by apply H; left].
  clear. induction ts as [|x ts IH]; intros l'; cbn [for_each].
  { by intros [?%not_elem_of_nil|?]. }
  rewrite elem_of_cons. intros [[->|?]|?]; apply IH; [right|by left|right]; cbn.
  - rewrite lookup_insert_eq. eauto.
  - destruct (decide (Task.ID t = Task.ID x)) as [->|?].
    + rewrite lookup_insert_eq. eauto.
    + by rewrite lookup_insert_ne.
Qed.

Lemma leased_lease lease task :
  Task.ID (Ledger.leased lease task) = Task.ID task /\
  Task.LockedBy (Ledger.leased lease task) = LeaseRequest.Owner lease /\
  Task.LockedUntil (Ledger.leased lease task) =
    Some (NormalizeTime
      (NormalizeTime (LeaseRequest.Now lease) + LeaseRequest.Duration lease))%Z.
Proof. unfold Ledger.leased, Task.Normalize. rewrite Task_Clone_id. by destruct task. Qed.

Lemma Normalize_leased lease task :
  Task.Normalize (Ledger.leased lease task) = Ledger.leased lease task.
Proof. unfold Ledger.leased. apply Task_Normalize_idemp. Qed.

Lemma claimable_free lease task :
  Ledger.claimable lease task = true ->
  Task.IsLeased task (NormalizeTime (LeaseRequest.Now lease)) = false.
Proof.
  unfold Ledger.claimable. intros [[_ H]%andb_prop _]%andb_prop. by apply negb_true_iff.
Qed.

Lemma IsLeased_until task until now :
  Task.LockedUntil task = Some until -> (now < until)%Z -> Task.IsLeased task now = true.
Proof. unfold Task.IsLeased. intros -> ?. by apply Z.ltb_lt. Qed.

Lemma claim_tasks_twice lease1 lease2 l ts1 l1 ts2 l2 :
  (forall id task, Ledger.tasks l !! id = Some task -> Task.ID task = id) ->
  Ledger.ClaimOverdue lease1 l = (Ok ts1, l1) ->
  Ledger.ClaimOverdue lease2 l1 = (Ok ts2, l2) ->
  (NormalizeTime (LeaseRequest.Now lease2) <
     NormalizeTime (NormalizeTime (LeaseRequest.Now lease1) + LeaseRequest.Duration lease1))%Z ->
  forall id, id ∈ Task.ID <$> ts1 -> id ∉ Task.ID <$> ts2.
Proof.
  intros Hkey. rewrite !ClaimOverdue_eq. cbv zeta. intros [= <- <-] [= <- _] Ht id H1 H2.
  apply list_elem_of_fmap in H2 as (x2 & -> & H2).
  apply list_elem_of_fmap in H2 as (t2 & -> & H2).
  apply overdue_tasks_spec in H2 as [Hclaim [id2 Hin]].
  destruct (leased_lease lease2 t2) as [Hid2 _]. rewrite Hid2 in H1.
  apply put_all_lookup in Hin as [(t & Hin & Hid & ->)|[Hni Hin]].
  - apply list_elem_of_fmap in Hin as (t0 & -> & _).
    rewrite Normalize_leased in Hclaim. apply claimable_free in Hclaim.
    destruct (leased_lease lease1 t0) as (_ & _ & Hu).
    by rewrite (IsLeased_until _ _ _ Hu Ht) in Hclaim.
  - rewrite (Hkey _ _ Hin) in H1. done.
Qed.

(** ** Scripts: any sequence of the engine's writes

    A script stops at its first error, as the code between [Do] and its end
    does.  Running it on a store inside a transaction and running it on the
    ledger go through the same states. *)

Fixpoint script {S} (write : Write -> SM S error unit) (ws : list Write) : SM S error unit :=
  match ws with
  | [] => sret tt
  | w :: ws => write w ;;! script write ws
  end.

(** No claim of events follows a record of one. *)
Fixpoint claims_first (ws : list Write) : bool :=
  match ws with
  | [] => true
  | w :: ws =>
      if records_events w then forallb (fun w => negb (claims_events w)) ws else claims_first ws
  end.

(** The identifiers a script records. *)
Definition recorded (ws : list Write) : list string :=
  w ← ws; match w with WAppend events => Event.ID <$> events | _ => [] end.

(** The same script inside [Do], which carries a state of its own along. *)
Definition on_store {D X A} (m : SM D error A) : SM (D * X) error A := fun '(d, x) =>
  let '(r, d') := m d in (r, (d', x)).

Section scripts.
Context {D : Type} `{!Store D, !StoreModel D, !StoreLaws D}.

Lemma implements_discard {A} (m : SM D error A) spec d :
  implements m spec d -> implements (discard m) (discard spec) d.
Proof.
  unfold implements, discard, sbind. intros (Hw & Hr & Hv).
  destruct (m d) as [[a|e] d'], (spec (view d)) as [[b|e'] l']; cbn in *; naive_solver.
Qed.

Lemma edit_keys id f l : (forall e, OutboxEntry.key (f e) = OutboxEntry.key e) ->
  Ledger.keys (Ledger.edit id f l).2 = Ledger.keys l.
Proof.
  intros Hf. unfold Ledger.edit. case_decide; [|done]. unfold Ledger.keys; cbn.
  rewrite <- list_fmap_compose. apply list_fmap_ext. intros i e _; cbn. by case_decide.
Qed.

Lemma write_keys w l :
  Ledger.keys (write_ledger w l).2 =
  Ledger.keys l ++ match w with WAppend events => Event.ID <$> events | _ => [] end.
Proof.
  assert (Hput : forall ts l', Ledger.outbox (for_each Ledger.put ts l') = Ledger.outbox l')
    by (induction ts; intros l'; cbn; [done|rewrite IHts; done]).
  destruct w; cbn; unfold Ledger.keys; rewrite ?app_nil_r.
  - unfold Ledger.Create. by destruct (_ !! _).
  - unfold Ledger.Update. destruct (_ !! _); [|done]. by case_decide.
  - done.
  - unfold Ledger.Append; cbn. rewrite fmap_app, <- (list_fmap_compose Settle.record_event). done.
  - unfold discard, sbind; cbn. by rewrite Hput.
  - unfold discard, sbind; cbn. rewrite <- list_fmap_compose. apply list_fmap_ext.
    intros i e _; cbn. by case_decide.
  - by apply edit_keys.
  - apply edit_keys. intros e. unfold Settle.accept.
    by destruct (Acceptance.PublishedAt acceptance), (Acceptance.NextAttemptAt acceptance).
  - apply edit_keys. intros e. unfold Settle.bury. by destruct (DeadLetter.Accepted letter).
Qed.

Lemma write_implements w d :
  sound d -> InTransaction d = true ->
  NoDup (Ledger.keys (view d) ++ match w with WAppend events => Event.ID <$> events | _ => [] end) ->
  (claims_events w = true -> relayed d) ->
  implements (write_store w) (write_ledger w) d.
Proof.
  intros Hd Ha Hf Hr. destruct w; cbn.
  - by apply create_law.
  - by apply update_law.
  - by apply append_history_law.
  - apply append_law; [done..|]. by rewrite Permutation_app_comm.
  - by apply implements_discard, claim_overdue_law.
  - apply implements_discard, claim_due_law; auto.
  - by apply record_attempt_law.
  - by apply mark_accepted_law.
  - by apply mark_dead_lettered_law.
Qed.

(** What a script may still claim: events, while none was recorded. *)
Definition claims_ok (ws : list Write) (d : D) : Prop :=
  (relayed d /\ claims_first ws = true) \/ forallb (fun w => negb (claims_events w)) ws = true.

Lemma claims_ok_step w ws d : sound d -> InTransaction d = true -> claims_ok (w :: ws) d ->
  (claims_events w = true -> relayed d) /\ claims_ok ws (write_store w d).2.
Proof.
  intros Hd Ha [[Hr Hc]|[Hw Hc]%andb_prop].
  - split; [done|]. cbn in Hc. destruct (records_events w) eqn:E; [by right|].
    left. split; [by apply relayed_kept|done].
  - split; [by destruct (claims_events w)|by right].
Qed.

Lemma script_implements ws d :
  sound d -> InTransaction d = true -> NoDup (Ledger.keys (view d) ++ recorded ws) -> claims_ok ws d ->
  implements (script write_store ws) (script write_ledger ws) d.
Proof.
  revert d; induction ws as [|w ws IH]; intros d Hd Ha Hf Hc; [done|].
  destruct (claims_ok_step w ws d Hd Ha Hc) as [Hw0 Hc1].
  unfold recorded in Hf. rewrite bind_cons, app_assoc in Hf.
  assert (Hw : implements (write_store w) (write_ledger w) d).
  { apply write_implements; [done..| |done]. by apply NoDup_app in Hf as (? & _). }
  cbn [script]. unfold implements, sbind in *. destruct Hw as ((Hact & Hb & Hs) & Hr & Hv).
  pose proof (write_keys w (view d)) as Hk.
  destruct (write_store w d) as [r d1], (write_ledger w (view d)) as [r' l1]; cbn in *. subst.
  destruct r' as [[]|e]; [|by split_and!].
  destruct (IH d1) as ((? & ? & ?) & ? & ?); [done|by rewrite Hact|by rewrite Hk|done|].
  split_and!; [|done..]. split_and!; [by rewrite <- Hact|by rewrite <- Hb|done].
Qed.

(** A script in a transaction of its own: all of it is published, or nothing. *)
Lemma script_atomic {X} ws cancelled d (x : X) :
  sound d -> InTransaction d = false -> NoDup (Ledger.keys (base d) ++ recorded ws) ->
  claims_first ws = true ->
  let '(r, l) := script write_ledger ws (base d) in
  exists d',
    Do cancelled (on_store (script write_store ws)) (d, x) =
      (match r, cancelled with
       | Ok _, None => Ok tt
       | Ok _, Some e => Err e
       | Err e, _ => Err e
       end, (d', x)) /\
    InTransaction d' = false /\ sound d' /\
    view d' = match r, cancelled with Ok _, None => l | _, _ => base d end.
Proof.
  intros Hd Hn Hf Hc. destruct (begin_law d Hd Hn) as (Ha & Hb & Hv & Hs & Hrel).
  rewrite do_owns by done. unfold on_store.
  destruct (script_implements ws (begin d)) as ((Hact & Hbase & Hsound) & Hr & Hview);
    [done..|by rewrite Hv|by left|].
  rewrite Hv in Hr, Hview.
  destruct (script write_store ws (begin d)) as [r1 d1], (script write_ledger ws (base d)) as [r l];
    cbn in *. subst. rewrite Ha in Hact.
  destruct (commit_law d1) as (Hc1 & Hc2 & Hc3); [done..|].
  destruct (rollback_law d1) as (Hr1 & Hr2 & Hr3); [done..|].
  destruct r as [[]|e]; [destruct cancelled as [e|]|].
  - exists (rollback d1). split_and!; [done..|]. rewrite view_outside by done. congruence.
  - exists (commit d1). split_and!; [done..|]. by rewrite view_outside.
  - exists (rollback d1). split_and!; [by destruct cancelled|done..|].
    rewrite view_outside by done. destruct cancelled; congruence.
Qed.
End scripts.
