(* ===== verification/MemStore.v ===== *)
(** * MemStore: the in-memory store

    Models [memstore/memstore.go] and [memstore/outbox.go]: the committed state,
    a transaction's staged writes, the repository, the transactor, the event sink
    and the relay's view of the outbox, and proves that they satisfy the store's
    contract ([StoreLaws]).

    A value of type [DB] is the store together with the transaction that travels
    in one caller's context.  Transactions are serialised by a mutex that a
    caller holds from begin to end, so one caller's operations on a transaction
    run without interference from another transaction; a caller without one sees
    the committed state at any time.  Maps are ranged over in an unspecified
    order, here that of [map_to_list]; the results are sorted by a total order or
    do not depend on it. *)

From S2P Require Import Prelude Domain Errors Event Query Outbox Store.

(** ** Rows of the outbox *)

Module outboxRow.
Record t : Type := mk {
  event : Event.t;
  attempts : Z;
  nextAttemptAt : option Time;
  lastError : string;
  accepted : list string;
  publishedAt : option Time;
  lockedBy : string;
  lockedUntil : option Time
}.
#[global] Instance eta : Eta t := fun x =>
  mk (event x) (attempts x) (nextAttemptAt x) (lastError x) (accepted x)
    (publishedAt x) (lockedBy x) (lockedUntil x).

Definition id (r : t) : string := Event.ID (event r).

Definition entry (r : t) : OutboxEntry.t :=
  OutboxEntry.mk (event r) (attempts r) (nextAttemptAt r) (lastError r) (accepted r)
    (publishedAt r) (lockedBy r) (lockedUntil r).

Definition due (r : t) (now : Time) : bool :=
  if bool_decide (publishedAt r <> None) || bool_decide (nextAttemptAt r = None) then false
  else if match lockedUntil r with Some until => bool_decide (now < until)%Z | None => false end
  then false
  else match nextAttemptAt r with
       | Some next => negb (bool_decide (next > now)%Z)
       | None => false
       end.

Definition release (r : t) : t := r <| lockedBy := "" |> <| lockedUntil := None |>.
End outboxRow.

(** ** State *)

Module tx.
Record t : Type := mk {
  tasks : gmap string Task.t;
  history : gmap string (list TransitionRecord.t);
  outbox : list outboxRow.t;
  outboxEdits : gmap string outboxRow.t
}.
#[global] Instance eta : Eta t := fun x =>
  mk (tasks x) (history x) (outbox x) (outboxEdits x).
End tx.

Module Mem.
Record t : Type := mk {
  tasks : gmap string Task.t;
  history : gmap string (list TransitionRecord.t);
  outbox : list outboxRow.t
}.
#[global] Instance eta : Eta t := fun x => mk (tasks x) (history x) (outbox x).

Definition New : t := mk ∅ ∅ [].
End Mem.

Module DB.
Record t : Type := mk { store : Mem.t; active : option tx.t }.
#[global] Instance eta : Eta t := fun x => mk (store x) (active x).
End DB.

(** ** Transactions *)

Definition newTx : tx.t := tx.mk ∅ ∅ [] ∅.

(** [t.store.history[id] = append(t.store.history[id], records...)] *)
Definition merge_history (h : gmap string (list TransitionRecord.t))
    (entry : string * list TransitionRecord.t) : gmap string (list TransitionRecord.t) :=
  <[ entry.1 := default [] (h !! entry.1) ++ entry.2 ]> h.

(** The inner loop of commit: the first row with that identifier is replaced. *)
Fixpoint replace_first (rows : list outboxRow.t) (edit : string * outboxRow.t)
  : list outboxRow.t :=
  match rows with
  | [] => []
  | row :: rest =>
      if decide (outboxRow.id row = edit.1) then edit.2 :: rest
      else row :: replace_first rest edit
  end.

Definition commit_tx (s : Mem.t) (t : tx.t) : Mem.t :=
  let s := s <| Mem.tasks := tx.tasks t ∪ Mem.tasks s |> in
  let s := s <| Mem.history :=
    foldl merge_history (Mem.history s) (map_to_list (tx.history t)) |> in
  let s := s <| Mem.outbox := Mem.outbox s ++ tx.outbox t |> in
  s <| Mem.outbox :=
    foldl replace_first (Mem.outbox s) (map_to_list (tx.outboxEdits t)) |>.

(** [ContextWithTx] and the two ends its [done] function has. *)
Definition ContextWithTx (d : DB.t) : DB.t := d <| DB.active := Some newTx |>.

Definition done_ (publish : bool) (d : DB.t) : DB.t :=
  match DB.active d with
  | Some t =>
      DB.mk (if publish then commit_tx (DB.store d) t else DB.store d) None
  | None => d
  end.

Definition InTransaction_ (d : DB.t) : bool := bool_decide (is_Some (DB.active d)).

(** [Do]; [cancelled] is what [ctx.Err()] reports once [fn] has returned.  What
    [fn] staged is discarded by never reaching the commit. *)
Definition Do_ {X A} (cancelled : option error) (fn : SM (DB.t * X) error A)
  : SM (DB.t * X) error A := fun '(d, x) =>
  if InTransaction_ d then fn (d, x)
  else
    match fn (ContextWithTx d, x) with
    | (Err err, (d', x')) => (Err err, (done_ false d', x'))
    | (Ok a, (d', x')) =>
        match cancelled with
        | Some err => (Err err, (done_ false d', x'))
        | None => (Ok a, (done_ true d', x'))
        end
    end.

Definition errOutsideTransaction (operation : string) : error :=
  ConfigurationError (to_lower operation +:+ " must run inside a transaction").

(** Run a write on the active transaction, or refuse. *)
Definition in_tx {A} (refusal : error) (f : tx.t -> res A * tx.t) : SM DB.t error A := fun d =>
  match DB.active d with
  | None => (Err refusal, d)
  | Some t => let '(r, t') := f t in (r, d <| DB.active := Some t' |>)
  end.

(** ** The event sink *)

Definition new_row (event : Event.t) : outboxRow.t :=
  outboxRow.mk event 0 (Some (NormalizeTime (Event.OccurredAt event))) "" [] None "" None.

Definition append_row (event : Event.t) (t : tx.t) : tx.t :=
  t <| tx.outbox := tx.outbox t ++ [new_row event] |>.

Definition Append_ (events : list Event.t) : SM DB.t error unit :=
  in_tx (ConfigurationError "events may only be appended inside a transaction")
    (fun t => (Ok tt, for_each append_row events t)).

Definition Events (d : DB.t) : list Event.t := outboxRow.event <$> Mem.outbox (DB.store d).

(** ** The repository *)

Definition tx_get (s : Mem.t) (t : tx.t) (id : string) : res Task.t :=
  match tx.tasks t !! id with
  | Some task => Ok (Task.Clone task)
  | None =>
      match Mem.tasks s !! id with
      | Some task => Ok (Task.Clone task)
      | None => Err (NotFoundError id)
      end
  end.

Definition stage (task : Task.t) (t : tx.t) : tx.t :=
  t <| tx.tasks := <[ Task.ID task := Task.Normalize task ]> (tx.tasks t) |>.

Definition Create_ (task : Task.t) : SM DB.t error unit := fun d =>
  in_tx (errOutsideTransaction "Create") (fun t =>
    match tx_get (DB.store d) t (Task.ID task) with
    | Ok _ => (Err (ConflictError (Task.ID task) 0 0), t)
    | Err _ => (Ok tt, stage task t)
    end) d.

Definition Get_ (id : string) (d : DB.t) : res Task.t :=
  match DB.active d with
  | Some t => tx_get (DB.store d) t id
  | None =>
      match Mem.tasks (DB.store d) !! id with
      | Some task => Ok (Task.Clone task)
      | None => Err (NotFoundError id)
      end
  end.

Definition Update_ (task : Task.t) (expectedVersion : Z) : SM DB.t error unit := fun d =>
  in_tx (errOutsideTransaction "Update") (fun t =>
    match tx_get (DB.store d) t (Task.ID task) with
    | Err err => (Err err, t)
    | Ok current =>
        if decide (Task.Version current <> expectedVersion)
        then (Err (ConflictError (Task.ID task) expectedVersion (Task.Version current)), t)
        else (Ok tt, stage task t)
    end) d.

Definition append_record (record : TransitionRecord.t) (t : tx.t) : tx.t :=
  let record := record <| TransitionRecord.At := NormalizeTime (TransitionRecord.At record) |> in
  t <| tx.history :=
    <[ TransitionRecord.TaskID record :=
         default [] (tx.history t !! TransitionRecord.TaskID record) ++ [record] ]>
      (tx.history t) |>.

Definition AppendHistory_ (records : list TransitionRecord.t) : SM DB.t error unit :=
  if decide (length records = 0) then sret tt
  else
    in_tx (errOutsideTransaction "AppendHistory")
      (fun t => (Ok tt, for_each append_record records t)).

Definition History_ (id : string) (d : DB.t) : res (list TransitionRecord.t) :=
  let committed := default [] (Mem.history (DB.store d) !! id) in
  match DB.active d with
  | Some t => Ok (committed ++ default [] (tx.history t !! id))
  | None => Ok committed
  end.

Definition snapshot (d : DB.t) : list Task.t :=
  match DB.active d with
  | Some t => (map_to_list (tx.tasks t ∪ Mem.tasks (DB.store d))).*2
  | None => (map_to_list (Mem.tasks (DB.store d))).*2
  end.

Definition Query_ (codec : CursorCodec.t) (query : ResolvedQuery.t) (d : DB.t) : res Page.t :=
  queryPage codec (snapshot d) query.

Definition Count_ (query : ResolvedQuery.t) (d : DB.t) : res Z :=
  Ok (countMatching (snapshot d) query).

Definition Len (d : DB.t) : nat := size (Mem.tasks (DB.store d)).

(** The loop of [ClaimOverdue], which stops once [limit] tasks are claimed. *)
Fixpoint claim_tasks (lease : LeaseRequest.t) (limit : Z) (candidates : list Task.t)
    (claimed : list Task.t) (t : tx.t) : list Task.t * tx.t :=
  match candidates with
  | [] => (claimed, t)
  | task :: rest =>
      let now := NormalizeTime (LeaseRequest.Now lease) in
      if decide (Z.of_nat (length claimed) = limit) then (claimed, t)
      else if negb (Task.IsOverdue task now) || Task.IsLeased task now
      then claim_tasks lease limit rest claimed t
      else if bool_decide (0 < length (LeaseRequest.Types lease)) &&
              negb (contains (LeaseRequest.Types lease) (Task.Type_ task))
      then claim_tasks lease limit rest claimed t
      else
        let leased := Task.Clone task in
        let leased := leased <| Task.LockedBy := LeaseRequest.Owner lease |> in
        let until := (now + LeaseRequest.Duration lease)%Z in
        let leased := leased <| Task.LockedUntil := Some until |> in
        claim_tasks lease limit rest (claimed ++ [Task.Normalize leased]) (stage leased t)
  end.

Definition ClaimOverdue_ (lease : LeaseRequest.t) : SM DB.t error (list Task.t) := fun d =>
  in_tx (errOutsideTransaction "ClaimOverdue") (fun t =>
    let limit := if decide (LeaseRequest.Limit lease <= 0)%Z then 100%Z
                 else LeaseRequest.Limit lease in
    let candidates := merge_sort (no_later (on Task.ID String.compare)) (snapshot d) in
    let '(claimed, t') := claim_tasks lease limit candidates [] t in
    (Ok claimed, t')) d.

(** ** The relay's view of the outbox *)

Definition apply_edit (t : tx.t) (row : outboxRow.t) : outboxRow.t :=
  match tx.outboxEdits t !! outboxRow.id row with
  | Some edited => edited
  | None => row
  end.

Definition outboxSnapshot (d : DB.t) : list outboxRow.t :=
  match DB.active d with
  | None => Mem.outbox (DB.store d)
  | Some t => (apply_edit t <$> Mem.outbox (DB.store d)) ++ tx.outbox t
  end.

Fixpoint find_row (eventID : string) (rows : list outboxRow.t) : option outboxRow.t :=
  match rows with
  | [] => None
  | row :: rest => if decide (outboxRow.id row = eventID) then Some row else find_row eventID rest
  end.

Definition OutboxEntry_of (eventID : string) (d : DB.t) : res OutboxEntry.t :=
  match find_row eventID (outboxSnapshot d) with
  | Some row => Ok (outboxRow.entry row)
  | None => Err (OutboxNotFoundError eventID)
  end.

Definition row_age : outboxRow.t -> outboxRow.t -> comparison :=
  lex (on (fun row => Event.OccurredAt (outboxRow.event row)) Z.compare)
      (on outboxRow.id String.compare).

(** The loop of [ClaimDueEvents]. *)
Fixpoint claim_rows (claim : OutboxClaim.t) (limit : Z) (candidates : list outboxRow.t)
    (claimed : list OutboxEntry.t) (t : tx.t) : list OutboxEntry.t * tx.t :=
  match candidates with
  | [] => (claimed, t)
  | row :: rest =>
      let now := NormalizeTime (OutboxClaim.Now claim) in
      if decide (Z.of_nat (length claimed) = limit) then (claimed, t)
      else if negb (outboxRow.due row now) then claim_rows claim limit rest claimed t
      else
        let until := (now + OutboxClaim.Duration claim)%Z in
        let row := row <| outboxRow.lockedBy := OutboxClaim.Owner claim |>
                       <| outboxRow.lockedUntil := Some until |> in
        claim_rows claim limit rest (claimed ++ [outboxRow.entry row])
          (t <| tx.outboxEdits := <[ outboxRow.id row := row ]> (tx.outboxEdits t) |>)
  end.

Definition ClaimDueEvents_ (claim : OutboxClaim.t) : SM DB.t error (list OutboxEntry.t) := fun d =>
  in_tx (errOutsideTransaction "ClaimDueEvents") (fun t =>
    let limit := if decide (OutboxClaim.Limit claim <= 0)%Z then DefaultOutboxBatch
                 else OutboxClaim.Limit claim in
    let candidates := merge_sort (no_later row_age) (outboxSnapshot d) in
    let '(claimed, t') := claim_rows claim limit candidates [] t in
    (Ok claimed, t')) d.

(** The inner loop of [editOutbox]: a row this scope appended itself is edited
    where it is staged; [None] when there is none. *)
Fixpoint edit_staged (eventID : string) (edited : outboxRow.t) (staged : list outboxRow.t)
  : option (list outboxRow.t) :=
  match staged with
  | [] => None
  | row :: rest =>
      if decide (outboxRow.id row = eventID) then Some (edited :: rest)
      else cons row <$> edit_staged eventID edited rest
  end.

Definition editOutbox (operation eventID : string) (edit : outboxRow.t -> outboxRow.t)
  : SM DB.t error unit := fun d =>
  in_tx (errOutsideTransaction operation) (fun t =>
    match find_row eventID (outboxSnapshot d) with
    | None => (Err (OutboxNotFoundError eventID), t)
    | Some row =>
        let edited := edit row in
        match edit_staged eventID edited (tx.outbox t) with
        | Some staged => (Ok tt, t <| tx.outbox := staged |>)
        | None => (Ok tt, t <| tx.outboxEdits := <[ eventID := edited ]> (tx.outboxEdits t) |>)
        end
    end) d.

Definition RecordAttempt_ (record : AttemptRecord.t) : SM DB.t error unit :=
  editOutbox "RecordAttempt" (AttemptRecord.EventID record) (fun row =>
    let due := NormalizeTime (AttemptRecord.NextAttemptAt record) in
    let row := row <| outboxRow.attempts := AttemptRecord.Attempts record |> in
    let row := row <| outboxRow.nextAttemptAt := Some due |> in
    let row := row <| outboxRow.lastError := AttemptRecord.LastError record |> in
    outboxRow.release row).

Definition MarkAccepted_ (acceptance : Acceptance.t) : SM DB.t error unit :=
  editOutbox "MarkAccepted" (Acceptance.EventID acceptance) (fun row =>
    let row := row <| outboxRow.accepted := Acceptance.Accepted acceptance |> in
    let row := row <| outboxRow.attempts := Acceptance.Attempts acceptance |> in
    let row := row <| outboxRow.lastError := Acceptance.LastError acceptance |> in
    match Acceptance.PublishedAt acceptance with
    | Some at_ =>
        let published := NormalizeTime at_ in
        let row := row <| outboxRow.publishedAt := Some published |> in
        let row := row <| outboxRow.lastError := "" |> in
        outboxRow.release row
    | None =>
        let row :=
          match Acceptance.NextAttemptAt acceptance with
          | Some at_ => row <| outboxRow.nextAttemptAt := Some (NormalizeTime at_) |>
          | None => row
          end in
        outboxRow.release row
    end).

Definition MarkDeadLettered_ (letter : DeadLetter.t) : SM DB.t error unit :=
  editOutbox "MarkDeadLettered" (DeadLetter.EventID letter) (fun row =>
    let row := row <| outboxRow.attempts := DeadLetter.Attempts letter |> in
    let row := row <| outboxRow.lastError := DeadLetter.LastError letter |> in
    let row := row <| outboxRow.nextAttemptAt := None |> in
    let row :=
      match DeadLetter.Accepted letter with
      | Some accepted => row <| outboxRow.accepted := accepted |>
      | None => row
      end in
    outboxRow.release row).

(** ** The store as one value *)

Section store.
Context (codec : CursorCodec.t).

#[global] Instance MemStore : Store DB.t := {
  Do := @Do_;
  InTransaction := InTransaction_;
  Transactional := true;
  Create := Create_;
  Get := Get_;
  Update := Update_;
  AppendHistory := AppendHistory_;
  History := History_;
  RunQuery := Query_ codec;
  RunCount := Count_;
  ClaimOverdue := ClaimOverdue_;
  Append := Append_;
  OutboxEntry_ := OutboxEntry_of;
  ClaimDueEvents := ClaimDueEvents_;
  RecordAttempt := RecordAttempt_;
  MarkAccepted := MarkAccepted_;
  MarkDeadLettered := MarkDeadLettered_
}.
End store.
