(* ===== verification/MemStoreFacts.v ===== *)
(** * MemStoreFacts: the in-memory store keeps the store's contract

    The ledger a caller of [memstore] sees is the committed state with the
    staged writes of its own transaction laid over it.  Each operation of the
    store is shown to do to that ledger what the ledger's operation says
    ([StoreLaws]), commit to publish exactly that ledger, and rollback to leave
    the committed one alone. *)

From S2P Require Import Prelude Domain Errors Event Query Outbox Store MemStore.

(** ** The ledger of a store *)

Definition app_union (a b : list TransitionRecord.t) : option (list TransitionRecord.t) :=
  Some (a ++ b).

Definition of_mem (s : Mem.t) : Ledger.t :=
  Ledger.mk (Mem.tasks s) (Mem.history s) (outboxRow.entry <$> Mem.outbox s).

Definition laid_over (s : Mem.t) (t : tx.t) : Ledger.t :=
  Ledger.mk (tx.tasks t ∪ Mem.tasks s)
    (union_with app_union (Mem.history s) (tx.history t))
    (outboxRow.entry <$> ((apply_edit t <$> Mem.outbox s) ++ tx.outbox t)).

Definition view_db (d : DB.t) : Ledger.t :=
  match DB.active d with
  | None => of_mem (DB.store d)
  | Some t => laid_over (DB.store d) t
  end.

Definition keyed_tasks (m : gmap string Task.t) : Prop :=
  forall id task, m !! id = Some task -> Task.ID task = id.

Record sound_tx (s : Mem.t) (t : tx.t) : Prop := {
  tx_keyed : keyed_tasks (tx.tasks t);
  tx_rows : NoDup (outboxRow.id <$> (Mem.outbox s ++ tx.outbox t));
  tx_edits id row : tx.outboxEdits t !! id = Some row ->
    outboxRow.id row = id /\ id ∈ outboxRow.id <$> Mem.outbox s
}.

Record sound_mem (s : Mem.t) : Prop := {
  mem_keyed : keyed_tasks (Mem.tasks s);
  mem_rows : NoDup (outboxRow.id <$> Mem.outbox s)
}.

Definition sound_db (d : DB.t) : Prop :=
  sound_mem (DB.store d) /\
  match DB.active d with Some t => sound_tx (DB.store d) t | None => True end.

(** A transaction that has recorded no event of its own. *)
Definition relayed_db (d : DB.t) : Prop :=
  match DB.active d with Some t => tx.outbox t = [] | None => True end.

#[global] Instance MemModel (codec : CursorCodec.t) : StoreModel DB.t := {
  cursors := codec;
  view := view_db;
  base d := of_mem (DB.store d);
  sound := sound_db;
  relayed := relayed_db;
  begin := ContextWithTx;
  commit := done_ true;
  rollback := done_ false
}.

(** ** Commit *)

Lemma merge_history_lookup l h i :
  NoDup l.*1 ->
  foldl merge_history h l !! i =
  union_with app_union (h !! i) ((list_to_map l : gmap string _) !! i).
Proof.
  revert h; induction l as [|[k rs] l IH]; intros h Hd; cbn [foldl fmap list_fmap] in *.
  { cbn. rewrite lookup_empty. by destruct (h !! i). }
  apply NoDup_cons in Hd as [Hk Hd]. rewrite IH by done. cbn [list_to_map foldr uncurry].
  unfold merge_history; cbn [fst snd]. destruct (decide (i = k)) as [->|Hne].
  - rewrite !lookup_insert_eq, not_elem_of_list_to_map_1 by done. by destruct (h !! k).
  - by rewrite !lookup_insert_ne by done.
Qed.

Lemma merge_history_union h g :
  foldl merge_history h (map_to_list g) = union_with app_union h g.
Proof.
  apply map_eq. intros i.
  rewrite merge_history_lookup by apply NoDup_fst_map_to_list.
  by rewrite list_to_map_to_list, lookup_union_with.
Qed.

Definition edited_by (edits : gmap string outboxRow.t) (row : outboxRow.t) : outboxRow.t :=
  default row (edits !! outboxRow.id row).

Lemma replace_first_map rows k e :
  NoDup (outboxRow.id <$> rows) ->
  replace_first rows (k, e) = (fun r => if decide (outboxRow.id r = k) then e else r) <$> rows.
Proof.
  induction rows as [|r rows IH]; [done|]. cbn. intros [Hr Hd]%NoDup_cons.
  case_decide as Hk; [|by rewrite IH]. f_equal.
  transitivity (id <$> rows); [by rewrite list_fmap_id|].
  apply list_fmap_ext. intros i r' Hr'. cbn. rewrite decide_False; [done|].
  intros Hk'. apply Hr. rewrite Hk, <- Hk'. apply list_elem_of_fmap_2.
  by eapply list_elem_of_lookup_2.
Qed.

Lemma fmap_id_rows f (rows : list outboxRow.t) :
  (forall r, outboxRow.id (f r) = outboxRow.id r) ->
  outboxRow.id <$> (f <$> rows) = outboxRow.id <$> rows.
Proof. intros H. rewrite <- list_fmap_compose. apply list_fmap_ext. intros; apply H. Qed.

Lemma replace_all_map l rows :
  NoDup l.*1 -> (forall k e, (k, e) ∈ l -> outboxRow.id e = k) ->
  NoDup (outboxRow.id <$> rows) ->
  foldl replace_first rows l = edited_by (list_to_map l) <$> rows.
Proof.
  revert rows; induction l as [|[k e] l IH]; intros rows Hd He Hr; cbn [foldl].
  { transitivity (id <$> rows); [by rewrite list_fmap_id|]. apply list_fmap_ext.
    intros ? r _. unfold edited_by. cbn. by rewrite lookup_empty. }
  cbn in Hd. apply NoDup_cons in Hd as [Hk Hd].
  assert (Hek : outboxRow.id e = k) by (apply He; left).
  rewrite replace_first_map by done. rewrite IH; [|done| |].
  - rewrite <- list_fmap_compose. apply list_fmap_ext. intros ? r _. unfold edited_by; cbn.
    destruct (decide (outboxRow.id r = k)) as [E|E].
    + rewrite Hek, E, lookup_insert_eq. cbn.
      by rewrite not_elem_of_list_to_map_1 by done.
    + by rewrite lookup_insert_ne by done.
  - intros k' e' Hin. apply He. by right.
  - rewrite fmap_id_rows; [done|]. intros r. by case_decide as Hrk; [rewrite Hek, Hrk|].
Qed.

Lemma edited_by_id edits (rows : list outboxRow.t) :
  (forall r, r ∈ rows -> edits !! outboxRow.id r = None) -> edited_by edits <$> rows = rows.
Proof.
  induction rows as [|r rows IH]; [done|]. intros H. cbn. rewrite IH by (intros; apply H; by right).
  unfold edited_by. by rewrite H by left.
Qed.

(** Committing publishes what the transaction saw. *)
Lemma commit_publishes s t :
  sound_tx s t -> of_mem (commit_tx s t) = laid_over s t.
Proof.
  intros [Hk Hr He]. unfold commit_tx, of_mem, laid_over; cbn. f_equal.
  - apply merge_history_union.
  - f_equal. rewrite replace_all_map.
    + rewrite list_to_map_to_list, fmap_app. f_equal.
      apply edited_by_id. intros r Hin.
      destruct (tx.outboxEdits t !! outboxRow.id r) as [e|] eqn:E; [|done].
      apply He in E as [_ E]. rewrite fmap_app in Hr. apply NoDup_app in Hr as (_ & Hr & _).
      destruct (Hr _ E). by apply list_elem_of_fmap_2.
    + apply NoDup_fst_map_to_list.
    + intros k e Hin%elem_of_map_to_list. by apply He in Hin as [? _].
    + done.
Qed.

Lemma apply_edit_ids s t :
  sound_tx s t -> forall r, outboxRow.id (apply_edit t r) = outboxRow.id r.
Proof.
  intros [_ _ He] r. unfold apply_edit.
  destruct (_ !! outboxRow.id r) as [e|] eqn:E; [|done]. by apply He in E as [? _].
Qed.

Lemma keys_entries (rows : list outboxRow.t) : OutboxEntry.key <$> (outboxRow.entry <$> rows) = outboxRow.id <$> rows.
Proof. rewrite <- list_fmap_compose. by apply list_fmap_ext. Qed.

Lemma laid_over_keys s t :
  sound_tx s t -> Ledger.keys (laid_over s t) = outboxRow.id <$> (Mem.outbox s ++ tx.outbox t).
Proof.
  intros H. unfold Ledger.keys, laid_over; cbn.
  rewrite keys_entries, !fmap_app. f_equal. apply fmap_id_rows. by eapply apply_edit_ids.
Qed.

Lemma commit_sound s t : sound_mem s -> sound_tx s t -> sound_mem (commit_tx s t).
Proof.
  intros [Hs _] Ht. pose proof (commit_publishes s t Ht) as Hc. constructor.
  - intros id task H. cbn in H.
    apply lookup_union_Some_raw in H as [H|[_ H]]; [by eapply tx_keyed|by apply Hs].
  - apply (f_equal Ledger.keys) in Hc. rewrite laid_over_keys in Hc by done.
    unfold Ledger.keys, of_mem in Hc. cbn [Ledger.outbox] in Hc. rewrite keys_entries in Hc.
    rewrite Hc. by apply tx_rows.
Qed.

(** ** Writes *)

(** A write that runs on the active transaction. *)
Lemma in_tx_implements codec {A} (m : SM DB.t error A) (spec : SM Ledger.t error A)
    (s : Mem.t) (t : tx.t) r t' :
  let d := DB.mk s (Some t) in
  m d = (r, DB.mk s (Some t')) ->
  sound_mem s -> sound_tx s t' ->
  spec (laid_over s t) = (r, laid_over s t') ->
  @implements DB.t A (MemStore codec) (MemModel codec) m spec d.
Proof.
  intros d Hm Hs Ht Hspec. unfold implements. rewrite Hm. cbn [fst snd].
  change (@view _ (MemModel codec) d) with (laid_over s t). rewrite Hspec. by split_and!.
Qed.

Lemma tx_get_view s t id : tx_get s t id = Ledger.Get id (laid_over s t).
Proof.
  unfold tx_get, Ledger.Get; cbn. rewrite lookup_union.
  destruct (tx.tasks t !! id) as [x|] eqn:E1; cbn.
  - rewrite Task_Clone_id. by destruct (Mem.tasks s !! id).
  - destruct (Mem.tasks s !! id) eqn:E2; cbn; by rewrite ?Task_Clone_id.
Qed.

Lemma Normalize_ID task : Task.ID (Task.Normalize task) = Task.ID task.
Proof. unfold Task.Normalize. rewrite Task_Clone_id. by destruct task. Qed.

Lemma stage_view s t task : laid_over s (stage task t) = Ledger.put task (laid_over s t).
Proof.
  unfold laid_over, stage, Ledger.put; cbn. f_equal. by rewrite insert_union_l.
Qed.

Lemma stage_sound s t task : sound_tx s t -> sound_tx s (stage task t).
Proof.
  intros [Hk Hr He]. constructor; [|done|done].
  intros id x. unfold stage; cbn. intros [[<- <-]|[_ ?]]%lookup_insert_Some; [|by apply Hk].
  apply Normalize_ID.
Qed.

Lemma append_records_view s records t :
  laid_over s (for_each append_record records t) =
  (laid_over s t) <| Ledger.history :=
    for_each Ledger.log records (Ledger.history (laid_over s t)) |>.
Proof.
  revert t; induction records as [|r records IH]; intros t; [done|].
  cbn [for_each]. rewrite IH.
  assert (Hl : Ledger.history (laid_over s (append_record r t)) =
               Ledger.log r (Ledger.history (laid_over s t))).
  { apply map_eq. intros i. cbn. unfold Ledger.log; cbn.
    destruct (decide (i = TransitionRecord.TaskID r)) as [->|Hne].
    - rewrite lookup_insert_eq, !lookup_union_with, lookup_insert_eq.
      destruct (Mem.history s !! _), (tx.history t !! _); unfold app_union; cbn; by rewrite ?app_assoc.
    - by rewrite lookup_insert_ne, !lookup_union_with, lookup_insert_ne by done. }
  rewrite Hl. done.
Qed.

Lemma append_records_sound s records t :
  sound_tx s t -> sound_tx s (for_each append_record records t).
Proof.
  intros H. apply for_each_inv; [done|]. intros r t' _ [? ? ?]. by constructor.
Qed.

Lemma append_rows events t :
  for_each append_row events t = t <| tx.outbox := tx.outbox t ++ (new_row <$> events) |>.
Proof.
  revert t; induction events as [|e events IH]; intros [a b c d]; cbn [for_each fmap list_fmap].
  - cbn. by rewrite app_nil_r.
  - rewrite IH. cbn. by rewrite <- app_assoc.
Qed.

Lemma append_rows_view s t events :
  laid_over s (for_each append_row events t) =
  (laid_over s t) <| Ledger.outbox :=
    Ledger.outbox (laid_over s t) ++ (Settle.record_event <$> events) |>.
Proof.
  rewrite append_rows. unfold laid_over; cbn. f_equal.
  rewrite !fmap_app, app_assoc, <- (list_fmap_compose new_row). done.
Qed.

Lemma append_rows_sound s t events :
  sound_tx s t -> NoDup ((Event.ID <$> events) ++ Ledger.keys (laid_over s t)) ->
  sound_tx s (for_each append_row events t).
Proof.
  intros H Hd. rewrite laid_over_keys in Hd by done. destruct H as [Hk Hr He].
  rewrite append_rows. constructor; cbn; [done| |done].
  rewrite app_assoc, fmap_app, <- (list_fmap_compose new_row).
  rewrite Permutation_app_comm. exact Hd.
Qed.

(** ** Claiming overdue tasks *)

Lemma claimable_skip lease task :
  let now := NormalizeTime (LeaseRequest.Now lease) in
  Ledger.claimable lease task =
  negb (negb (Task.IsOverdue task now) || Task.IsLeased task now) &&
  negb (bool_decide (0 < length (LeaseRequest.Types lease)) &&
        negb (contains (LeaseRequest.Types lease) (Task.Type_ task))).
Proof.
  cbv zeta. unfold Ledger.claimable.
  assert (bool_decide (0 < length (LeaseRequest.Types lease)) =
          negb (bool_decide (LeaseRequest.Types lease = []))) as ->
    by (destruct (LeaseRequest.Types lease); cbn; repeat case_bool_decide; done || lia).
  destruct (Task.IsOverdue _ _), (Task.IsLeased _ _), (bool_decide _), (contains _ _); done.
Qed.

Lemma claim_tasks_spec lease limit candidates claimed t :
  (Z.of_nat (length claimed) <= limit)%Z ->
  let new := Ledger.leased lease <$>
    take (Z.to_nat limit - length claimed)
      (filter (fun task => Ledger.claimable lease task = true) candidates) in
  claim_tasks lease limit candidates claimed t = (claimed ++ new, for_each stage new t).
Proof.
  revert claimed t; induction candidates as [|task candidates IH]; intros claimed t Hl;
    cbv zeta; cbn [claim_tasks].
  { rewrite filter_nil, take_nil; cbn. by rewrite app_nil_r. }
  case_decide as Hfull.
  { replace (Z.to_nat limit - length claimed) with 0 by lia. cbn. by rewrite app_nil_r. }
  rewrite filter_cons, (claimable_skip lease task).
  destruct (negb (Task.IsOverdue task _) || _); cbn [negb andb];
    [rewrite decide_False by done; by apply IH|].
  destruct (bool_decide _ && _); cbn [negb];
    [rewrite decide_False by done; by apply IH|].
  rewrite decide_True by done. rewrite IH by (rewrite length_app; cbn; lia).
  rewrite length_app; cbn [length]. rewrite Task_Clone_id.
  replace (Z.to_nat limit - length claimed) with
    (S (Z.to_nat limit - (length claimed + 1))) by lia.
  cbn [take fmap list_fmap for_each]. rewrite <- app_assoc. cbn [app].
  f_equal. f_equal. unfold stage, Ledger.leased. f_equal; f_equal.
  by rewrite Normalize_ID, Task_Normalize_idemp.
Qed.

Lemma stage_all_view s l t :
  laid_over s (for_each stage l t) = for_each Ledger.put l (laid_over s t).
Proof.
  revert t; induction l as [|x l IH]; intros t; [done|]. cbn. by rewrite IH, stage_view.
Qed.

Lemma stage_all_sound s l t : sound_tx s t -> sound_tx s (for_each stage l t).
Proof. intros H. apply for_each_inv; [done|]. intros x t' _. apply stage_sound. Qed.

(** ** Editing the outbox *)

Lemma find_row_list_find id rows :
  find_row id rows = snd <$> list_find (fun r => outboxRow.id r = id) rows.
Proof.
  induction rows as [|r rows IH]; [done|]. cbn [find_row list_find].
  case_decide; [done|]. rewrite IH. by destruct (list_find _ rows) as [[? ?]|].
Qed.

Lemma find_entry id rows :
  list_find (fun e => OutboxEntry.key e = id) (outboxRow.entry <$> rows) =
  prod_map (fun i : nat => i) outboxRow.entry <$> list_find (fun r => outboxRow.id r = id) rows.
Proof.
  induction rows as [|r rows IH]; [done|]. cbn [fmap list_fmap list_find].
  change (OutboxEntry.key (outboxRow.entry r)) with (outboxRow.id r).
  case_decide; [done|]. rewrite IH. by destruct (list_find _ rows) as [[? ?]|].
Qed.

Lemma find_row_some id rows row :
  find_row id rows = Some row -> row ∈ rows /\ outboxRow.id row = id.
Proof.
  induction rows as [|r rows IH]; [done|]. cbn. case_decide.
  - intros [= <-]. split; [left|done].
  - intros [? ?]%IH. split; [by right|done].
Qed.

Lemma find_row_none id rows : find_row id rows = None <-> id ∉ outboxRow.id <$> rows.
Proof.
  induction rows as [|r rows IH]; cbn; [split; [by intros _ ?%not_elem_of_nil|done]|].
  rewrite not_elem_of_cons. case_decide; [naive_solver|]. rewrite IH. naive_solver.
Qed.

(** An edit a transaction stages for a committed row, seen on the ledger. *)
Definition with_edit (id : string) (row : outboxRow.t) (t : tx.t) : tx.t :=
  t <| tx.outboxEdits := <[ id := row ]> (tx.outboxEdits t) |>.

(** An edited row takes the place of the one it was made of, wherever that is. *)
Definition put_row (id : string) (row : outboxRow.t) (e : OutboxEntry.t) : OutboxEntry.t :=
  if decide (OutboxEntry.key e = id) then outboxRow.entry row else e.

Lemma with_edit_view s t id row :
  sound_tx s t -> id ∈ outboxRow.id <$> Mem.outbox s ->
  laid_over s (with_edit id row t) =
  (laid_over s t) <| Ledger.outbox := put_row id row <$> Ledger.outbox (laid_over s t) |>.
Proof.
  intros Ht Hid. unfold laid_over; cbn. f_equal. rewrite !fmap_app. f_equal.
  - rewrite <- !list_fmap_compose. apply list_fmap_ext. intros ? r _; cbn. unfold put_row.
    change (OutboxEntry.key (outboxRow.entry (apply_edit t r))) with (outboxRow.id (apply_edit t r)).
    rewrite (apply_edit_ids s t Ht). unfold apply_edit; cbn.
    case_decide as E; [by rewrite E, lookup_insert_eq|by rewrite lookup_insert_ne by done].
  - rewrite <- !list_fmap_compose. apply list_fmap_ext. intros ? r Hr%list_elem_of_lookup_2; cbn.
    unfold put_row. rewrite decide_False; [done|]. change (OutboxEntry.key (outboxRow.entry r)) with (outboxRow.id r).
    intros <-. pose proof (tx_rows _ _ Ht) as Hnd. rewrite fmap_app in Hnd.
    apply NoDup_app in Hnd as (_ & Hnd & _). apply (Hnd _ Hid). by apply list_elem_of_fmap_2.
Qed.

Lemma with_edit_sound s t id row :
  sound_tx s t -> outboxRow.id row = id -> id ∈ outboxRow.id <$> Mem.outbox s ->
  sound_tx s (with_edit id row t).
Proof.
  intros [Hk Hr He] Hid Hin. constructor; [done..|]. unfold with_edit; cbn.
  intros id' row' [[<- <-]|[_ ?]]%lookup_insert_Some; [done|by apply He].
Qed.

Lemma laid_over_distinct s t : sound_tx s t -> NoDup (Ledger.keys (laid_over s t)).
Proof. intros H. rewrite laid_over_keys by done. by apply tx_rows. Qed.

Lemma edit_staged_spec id row rows : NoDup (outboxRow.id <$> rows) ->
  edit_staged id row rows =
  if decide (id ∈ outboxRow.id <$> rows)
  then Some ((fun r => if decide (outboxRow.id r = id) then row else r) <$> rows) else None.
Proof.
  induction rows as [|r rows IH]; [done|]. cbn [fmap list_fmap edit_staged]. intros [Hni Hnd]%NoDup_cons.
  destruct (decide (outboxRow.id r = id)) as [<-|Hne].
  - rewrite decide_True by left. do 2 f_equal. rewrite <- (list_fmap_id rows) at 1. apply list_fmap_ext.
    intros i x Hx%list_elem_of_lookup_2. rewrite decide_False; [done|].
    intros E. apply Hni. rewrite <- E. by apply list_elem_of_fmap_2.
  - rewrite IH by done. destruct (decide (id ∈ outboxRow.id <$> rows)) as [H|H].
    + by rewrite decide_True by (by right).
    + by rewrite decide_False by (intros [?|?]%elem_of_cons; congruence).
Qed.

(** A row the transaction staged itself is edited where it is. *)
Definition with_staged (id : string) (row : outboxRow.t) (t : tx.t) : tx.t :=
  t <| tx.outbox := (fun r => if decide (outboxRow.id r = id) then row else r) <$> tx.outbox t |>.

Lemma with_staged_view s t id row :
  sound_tx s t -> id ∈ outboxRow.id <$> tx.outbox t ->
  laid_over s (with_staged id row t) =
  (laid_over s t) <| Ledger.outbox := put_row id row <$> Ledger.outbox (laid_over s t) |>.
Proof.
  intros Ht Hid. unfold laid_over; cbn. f_equal. rewrite !fmap_app. f_equal.
  - rewrite <- !list_fmap_compose. apply list_fmap_ext. intros ? r Hr%list_elem_of_lookup_2; cbn.
    unfold put_row. change (apply_edit (with_staged id row t) r) with (apply_edit t r).
    change (OutboxEntry.key (outboxRow.entry (apply_edit t r))) with (outboxRow.id (apply_edit t r)).
    rewrite (apply_edit_ids s t Ht), decide_False; [done|].
    intros <-. pose proof (tx_rows _ _ Ht) as Hnd. rewrite fmap_app in Hnd.
    apply NoDup_app in Hnd as (_ & Hnd & _). eapply Hnd; [|exact Hid]. by apply list_elem_of_fmap_2.
  - rewrite <- !list_fmap_compose. apply list_fmap_ext. intros ? r _; cbn. unfold put_row.
    change (OutboxEntry.key (outboxRow.entry r)) with (outboxRow.id r). by case_decide.
Qed.

Lemma with_staged_sound s t id row : sound_tx s t -> outboxRow.id row = id -> sound_tx s (with_staged id row t).
Proof.
  intros [Hk Hr He] Hid. constructor; [done| |done]. unfold with_staged; cbn. rewrite fmap_app in *.
  rewrite (fmap_id_rows (fun r => if decide (outboxRow.id r = id) then row else r)); [done|].
  intros r. case_decide; congruence.
Qed.

(** Editing a row does to the ledger what the edit does to the row's entry. *)
Lemma put_row_edit id row (edit : outboxRow.t -> outboxRow.t) F l :
  (forall row, outboxRow.entry (edit row) = F (outboxRow.entry row)) ->
  NoDup (Ledger.keys l) -> outboxRow.entry row ∈ Ledger.outbox l -> outboxRow.id row = id ->
  Ledger.edit id F l = (Ok tt, l <| Ledger.outbox := put_row id (edit row) <$> Ledger.outbox l |>).
Proof.
  intros Hentry Hnd Hin Hid. unfold Ledger.edit.
  rewrite decide_True by (rewrite <- Hid; exact (list_elem_of_fmap_2 OutboxEntry.key _ _ Hin)).
  enough ((fun e => if decide (OutboxEntry.key e = id) then F e else e) <$> Ledger.outbox l =
    put_row id (edit row) <$> Ledger.outbox l) as -> by done.
  apply list_fmap_ext. intros i e He%list_elem_of_lookup_2. unfold put_row. case_decide as Hk; [|done].
  rewrite Hentry. f_equal. apply (NoDup_fmap_inj OutboxEntry.key (Ledger.outbox l)); [done..|].
  rewrite Hk. exact (eq_sym Hid).
Qed.

Lemma editOutbox_implements codec op id edit F d :
  (forall row, outboxRow.entry (edit row) = F (outboxRow.entry row)) ->
  (forall row, outboxRow.id (edit row) = outboxRow.id row) ->
  sound_db d -> InTransaction_ d = true ->
  @implements DB.t unit (MemStore codec) (MemModel codec) (editOutbox op id edit) (Ledger.edit id F) d.
Proof.
  intros Hentry Hid [Hs Ht] Hact. destruct d as [s [t|]]; [|done]. cbn in Ht.
  set (rows := (apply_edit t <$> Mem.outbox s) ++ tx.outbox t).
  assert (Hids : outboxRow.id <$> rows = outboxRow.id <$> Mem.outbox s ++ tx.outbox t).
  { unfold rows. rewrite !fmap_app, (fmap_id_rows (apply_edit t)); [done|by eapply apply_edit_ids]. }
  pose proof (tx_rows _ _ Ht) as Hnd.
  assert (Hst : NoDup (outboxRow.id <$> tx.outbox t)) by (rewrite fmap_app in Hnd; by apply NoDup_app in Hnd as (_ & _ & ?)).
  destruct (find_row id rows) as [row|] eqn:Ef.
  - pose proof (find_row_some _ _ _ Ef) as [Hin Hrow].
    assert (Hedit := put_row_edit id row edit F (laid_over s t) Hentry (laid_over_distinct s t Ht)
      (list_elem_of_fmap_2 outboxRow.entry _ _ Hin) Hrow).
    destruct (decide (id ∈ outboxRow.id <$> tx.outbox t)) as [Hown|Hown].
    + apply (in_tx_implements codec _ _ s t (Ok tt) (with_staged id (edit row) t)); [|done| |].
      * unfold editOutbox, in_tx; cbn. fold rows. by rewrite Ef, edit_staged_spec, decide_True by done.
      * apply with_staged_sound; [done|by rewrite Hid].
      * by rewrite Hedit, with_staged_view.
    + assert (Hbase : id ∈ outboxRow.id <$> Mem.outbox s).
      { assert (H : id ∈ outboxRow.id <$> rows) by (rewrite <- Hrow; by apply list_elem_of_fmap_2).
        rewrite Hids, fmap_app in H. by apply elem_of_app in H as [?|?]. }
      apply (in_tx_implements codec _ _ s t (Ok tt) (with_edit id (edit row) t)); [|done| |].
      * unfold editOutbox, in_tx; cbn. fold rows. by rewrite Ef, edit_staged_spec, decide_False by done.
      * apply with_edit_sound; [done|by rewrite Hid|done].
      * by rewrite Hedit, with_edit_view.
  - apply (in_tx_implements codec _ _ s t (Err (OutboxNotFoundError id)) t); [|done..|].
    + unfold editOutbox, in_tx; cbn. fold rows. rewrite Ef. by destruct t.
    + apply find_row_none in Ef. unfold Ledger.edit.
      by rewrite decide_False by (by rewrite laid_over_keys, <- Hids).
Qed.

(** ** Claiming due events *)

#[global] Instance row_age_lawful : Lawful row_age.
Proof. unfold row_age. apply _. Qed.

Lemma by_age_key e1 e2 :
  Ledger.by_age e1 e2 = Eq -> OutboxEntry.key e1 = OutboxEntry.key e2.
Proof.
  unfold Ledger.by_age, lex, on. destruct (Z.compare _ _); [|done..].
  apply String.compare_eq_iff.
Qed.

Lemma sort_entries rows :
  NoDup (outboxRow.id <$> rows) ->
  merge_sort (no_later Ledger.by_age) (outboxRow.entry <$> rows) =
  outboxRow.entry <$> merge_sort (no_later row_age) rows.
Proof.
  intros Hd. apply (StronglySorted_unique_strong (no_later Ledger.by_age)).
  - intros x y. rewrite !merge_sort_Permutation. intros Hx Hy Hxy Hyx.
    apply (NoDup_fmap_inj OutboxEntry.key (outboxRow.entry <$> rows));
      [by rewrite keys_entries|done..|].
    apply by_age_key. unfold no_later in *. rewrite (cmp_sym (c := Ledger.by_age) x y) in Hyx.
    by destruct (Ledger.by_age x y).
  - apply sorted_by, _.
  - assert (Hs : StronglySorted (no_later row_age) (merge_sort (no_later row_age) rows))
      by (apply sorted_by, _).
    induction Hs as [|r l _ IH Hr]; cbn; constructor; [done|].
    rewrite Forall_fmap. exact Hr.
  - by rewrite !merge_sort_Permutation.
Qed.

Definition lease_row (claim : OutboxClaim.t) (row : outboxRow.t) : outboxRow.t :=
  row <| outboxRow.lockedBy := OutboxClaim.Owner claim |>
      <| outboxRow.lockedUntil :=
           Some (NormalizeTime (OutboxClaim.Now claim) + OutboxClaim.Duration claim)%Z |>.

Definition stage_lease (claim : OutboxClaim.t) (row : outboxRow.t) (t : tx.t) : tx.t :=
  with_edit (outboxRow.id row) (lease_row claim row) t.

Lemma row_due row now : outboxRow.due row now = Settle.due now (outboxRow.entry row).
Proof.
  unfold outboxRow.due, Settle.due, OutboxEntry.Pending, OutboxEntry.IsLeased.
  destruct row as [? ? [n|] ? ? [p|] ? [u|]]; cbn; repeat case_bool_decide; cbn; try done; lia.
Qed.

Lemma claim_rows_spec claim limit candidates claimed t :
  (Z.of_nat (length claimed) <= limit)%Z ->
  let now := NormalizeTime (OutboxClaim.Now claim) in
  let taken :=
    take (Z.to_nat limit - length claimed)
      (filter (fun row => outboxRow.due row now = true) candidates) in
  claim_rows claim limit candidates claimed t =
  (claimed ++ (Settle.lease claim <$> (outboxRow.entry <$> taken)),
   for_each (stage_lease claim) taken t).
Proof.
  revert claimed t; induction candidates as [|row candidates IH]; intros claimed t Hl;
    cbv zeta; cbn [claim_rows].
  { rewrite filter_nil, take_nil; cbn. by rewrite app_nil_r. }
  case_decide as Hfull.
  { replace (Z.to_nat limit - length claimed) with 0 by lia. cbn. by rewrite app_nil_r. }
  rewrite filter_cons. destruct (outboxRow.due row _); cbn [negb].
  2: { rewrite decide_False by done. by apply IH. }
  rewrite decide_True by done. rewrite IH by (rewrite length_app; cbn; lia).
  rewrite length_app; cbn [length].
  replace (Z.to_nat limit - length claimed) with
    (S (Z.to_nat limit - (length claimed + 1))) by lia.
  cbn [take fmap list_fmap for_each]. rewrite <- app_assoc. done.
Qed.

(** Every lease staged at once: the claimed entries are leased and no other
    entry changes. *)
Lemma stage_leases s claim taken t :
  sound_tx s t -> tx.outbox t = [] ->
  NoDup (outboxRow.id <$> taken) ->
  (forall row, row ∈ taken -> outboxRow.entry row ∈ Ledger.outbox (laid_over s t)) ->
  let t' := for_each (stage_lease claim) taken t in
  sound_tx s t' /\ tx.outbox t' = [] /\
  laid_over s t' =
    (laid_over s t) <| Ledger.outbox :=
      (fun e => if decide (OutboxEntry.key e ∈ outboxRow.id <$> taken)
                then Settle.lease claim e else e) <$> Ledger.outbox (laid_over s t) |>.
Proof.
  revert t; induction taken as [|row taken IH]; intros t Ht Ho Hd Hin; cbv zeta; cbn [for_each].
  { split_and!; [done..|]. unfold laid_over; cbn. f_equal.
    rewrite <- (list_fmap_id (outboxRow.entry <$> _)) at 1. by apply list_fmap_ext. }
  cbn [fmap list_fmap] in Hd. apply NoDup_cons in Hd as [Hnew Hd].
  assert (Hrow : outboxRow.id row ∈ outboxRow.id <$> Mem.outbox s).
  { pose proof (Hin row ltac:(left)) as Hr.
    apply (list_elem_of_fmap_2 OutboxEntry.key) in Hr. fold (Ledger.keys (laid_over s t)) in Hr.
    rewrite laid_over_keys, Ho, app_nil_r in Hr by done. exact Hr. }
  assert (Ht1 : sound_tx s (stage_lease claim row t)) by (by apply with_edit_sound).
  pose proof (with_edit_view s t (outboxRow.id row) (lease_row claim row) Ht Hrow) as Hv.
  fold (stage_lease claim row t) in Hv.
  assert (Hv1 : Ledger.outbox (laid_over s (stage_lease claim row t)) =
    (fun e => if decide (OutboxEntry.key e = outboxRow.id row) then Settle.lease claim e else e)
      <$> Ledger.outbox (laid_over s t)).
  { rewrite Hv. cbn [Ledger.outbox upd]. apply list_fmap_ext.
    intros i e He%list_elem_of_lookup_2. unfold put_row. case_decide as Hk; [|done].
    change (outboxRow.entry (lease_row claim row)) with (Settle.lease claim (outboxRow.entry row)).
    f_equal. symmetry. apply (NoDup_fmap_inj OutboxEntry.key (Ledger.outbox (laid_over s t)));
      [by apply laid_over_distinct|done|apply Hin; left|exact Hk]. }
  destruct (IH (stage_lease claim row t)) as (Hs & Ho' & Hv2); [done..| |].
  - intros row' Hrow'. rewrite Hv1.
    apply list_elem_of_fmap. exists (outboxRow.entry row'). split; [|apply Hin; by right].
    rewrite decide_False; [done|].
    change (OutboxEntry.key (outboxRow.entry row')) with (outboxRow.id row').
    intros E. apply Hnew. rewrite <- E. by apply list_elem_of_fmap_2.
  - split_and!; [done..|]. rewrite Hv2, Hv1, Hv. unfold upd; cbn. f_equal.
    rewrite <- list_fmap_compose. apply list_fmap_ext. intros i e _; cbn.
    destruct (decide (OutboxEntry.key e = outboxRow.id row)) as [E|E].
    + change (OutboxEntry.key (Settle.lease claim e)) with (OutboxEntry.key e).
      rewrite E, decide_False by done. rewrite decide_True by (left). done.
    + apply decide_ext. rewrite elem_of_cons. naive_solver.
Qed.

Lemma active_tx d : InTransaction_ d = true -> exists s t, d = DB.mk s (Some t).
Proof. unfold InTransaction_. rewrite bool_decide_eq_true. intros [t E]. destruct d; cbn in E; subst. eauto. Qed.

Lemma inactive d : InTransaction_ d = false -> d = DB.mk (DB.store d) None.
Proof.
  unfold InTransaction_. rewrite bool_decide_eq_false, <- eq_None_not_Some.
  destruct d; cbn. by intros ->.
Qed.

(** Rewrite the run of a claiming loop with what it is equal to. *)
Ltac rewrite_claim H :=
  match goal with
  | |- context [claim_tasks ?a ?b ?c ?d ?e] =>
      let E := fresh in pose proof (H : claim_tasks a b c d e = _) as E; rewrite E; done
  | |- context [claim_rows ?a ?b ?c ?d ?e] =>
      let E := fresh in pose proof (H : claim_rows a b c d e = _) as E; rewrite E; done
  end.

Section laws.
Context (codec : CursorCodec.t).
#[local] Existing Instance MemStore.

Lemma in_tx_refused {A} e (f : tx.t -> res A * tx.t) d :
  InTransaction_ d = false -> in_tx e f d = (Err e, d).
Proof. intros ->%inactive. done. Qed.

Lemma create_implements task d :
  sound_db d -> InTransaction_ d = true ->
  @implements _ _ (MemStore codec) (MemModel codec) (Create_ task) (Ledger.Create task) d.
Proof.
  intros [Hs Ht] (s & t & ->)%active_tx. cbn in Hs, Ht.
  destruct (Ledger.tasks (laid_over s t) !! Task.ID task) as [x|] eqn:E.
  - apply (in_tx_implements codec _ _ s t (Err (ConflictError (Task.ID task) 0 0)) t);
      [|done..|unfold Ledger.Create; by rewrite E].
    unfold Create_, in_tx; cbn. rewrite tx_get_view. unfold Ledger.Get. by rewrite E.
  - apply (in_tx_implements codec _ _ s t (Ok tt) (stage task t)); [|done|by apply stage_sound|].
    + unfold Create_, in_tx; cbn. rewrite tx_get_view. unfold Ledger.Get. by rewrite E.
    + unfold Ledger.Create. by rewrite E, stage_view.
Qed.

Lemma update_implements task v d :
  sound_db d -> InTransaction_ d = true ->
  @implements _ _ (MemStore codec) (MemModel codec) (Update_ task v) (Ledger.Update task v) d.
Proof.
  intros [Hs Ht] (s & t & ->)%active_tx. cbn in Hs, Ht.
  assert (Hm : forall r t', (match Ledger.Get (Task.ID task) (laid_over s t) with
      | Err err => (Err err, t)
      | Ok current =>
          if decide (Task.Version current <> v)
          then (Err (ConflictError (Task.ID task) v (Task.Version current)), t)
          else (Ok tt, stage task t)
      end = (r, t')) -> Update_ task v (DB.mk s (Some t)) = (r, DB.mk s (Some t'))).
  { intros r t' H. unfold Update_, in_tx; cbn. by rewrite tx_get_view, H. }
  unfold Ledger.Get in Hm.
  destruct (Ledger.tasks (laid_over s t) !! Task.ID task) as [x|] eqn:E.
  - destruct (decide (Task.Version x = v)) as [Hv|Hv].
    + apply (in_tx_implements codec _ _ s t (Ok tt) (stage task t));
        [apply Hm; by rewrite decide_False by (by intros [])|done|by apply stage_sound|].
      unfold Ledger.Update. by rewrite E, decide_True, stage_view by done.
    + apply (in_tx_implements codec _ _ s t
        (Err (ConflictError (Task.ID task) v (Task.Version x))) t);
        [apply Hm; by rewrite decide_True|done..|].
      unfold Ledger.Update. by rewrite E, decide_False by done.
  - apply (in_tx_implements codec _ _ s t (Err (NotFoundError (Task.ID task))) t);
      [by apply Hm|done..|]. unfold Ledger.Update. by rewrite E.
Qed.

Lemma append_history_implements records d :
  sound_db d -> InTransaction_ d = true ->
  @implements _ _ (MemStore codec) (MemModel codec) (AppendHistory_ records)
    (Ledger.AppendHistory records) d.
Proof.
  intros [Hs Ht] (s & t & ->)%active_tx. cbn in Hs, Ht.
  apply (in_tx_implements codec _ _ s t (Ok tt) (for_each append_record records t));
    [|done|by apply append_records_sound|].
  - unfold AppendHistory_. by destruct records.
  - unfold Ledger.AppendHistory. by rewrite append_records_view.
Qed.

Lemma append_implements events d :
  sound_db d -> InTransaction_ d = true ->
  NoDup ((Event.ID <$> events) ++ Ledger.keys (view_db d)) ->
  @implements _ _ (MemStore codec) (MemModel codec) (Append_ events) (Ledger.Append events) d.
Proof.
  intros [Hs Ht] (s & t & ->)%active_tx Hd. cbn in Hs, Ht.
  apply (in_tx_implements codec _ _ s t (Ok tt) (for_each append_row events t));
    [done|done|by apply append_rows_sound|].
  unfold Ledger.Append. by rewrite append_rows_view.
Qed.

Lemma claim_overdue_implements lease d :
  sound_db d -> InTransaction_ d = true ->
  @implements _ _ (MemStore codec) (MemModel codec) (ClaimOverdue_ lease)
    (Ledger.ClaimOverdue lease) d.
Proof.
  intros [Hs Ht] (s & t & ->)%active_tx. cbn in Hs, Ht.
  set (limit := if decide (LeaseRequest.Limit lease <= 0)%Z then 100%Z else LeaseRequest.Limit lease).
  assert (Hlim : (0 <= limit)%Z) by (subst limit; case_decide; lia).
  pose proof (claim_tasks_spec lease limit
    (merge_sort (no_later Ledger.by_task_id) (Ledger.snapshot (laid_over s t))) [] t Hlim) as Hc.
  cbv zeta in Hc. rewrite Nat.sub_0_r in Hc. cbn [app] in Hc.
  match type of Hc with _ = (?c, ?t') =>
    apply (in_tx_implements codec _ _ s t (Ok c) t'); [|done|by apply stage_all_sound|] end.
  - unfold ClaimOverdue_, in_tx; cbn. rewrite_claim Hc.
  - rewrite stage_all_view. done.
Qed.

Lemma claim_due_implements claim d :
  sound_db d -> InTransaction_ d = true -> relayed_db d ->
  @implements _ _ (MemStore codec) (MemModel codec) (ClaimDueEvents_ claim)
    (Ledger.ClaimDueEvents claim) d /\
  relayed_db (ClaimDueEvents_ claim d).2.
Proof.
  intros [Hs Ht] (s & t & ->)%active_tx Hrel. cbn in Hs, Ht, Hrel.
  set (limit := if decide (OutboxClaim.Limit claim <= 0)%Z then DefaultOutboxBatch
                else OutboxClaim.Limit claim).
  assert (Hlim : (0 <= limit)%Z) by (subst limit; unfold DefaultOutboxBatch; case_decide; lia).
  set (rows := apply_edit t <$> Mem.outbox s).
  assert (Hview : Ledger.outbox (laid_over s t) = outboxRow.entry <$> rows)
    by (unfold laid_over; cbn; by rewrite Hrel, app_nil_r).
  assert (Hids : NoDup (outboxRow.id <$> rows)).
  { rewrite <- keys_entries, <- Hview. by apply laid_over_distinct. }
  set (due_rows := filter (fun row =>
    outboxRow.due row (NormalizeTime (OutboxClaim.Now claim)) = true) (merge_sort (no_later row_age) rows)).
  set (taken := take (Z.to_nat limit) due_rows).
  assert (Hc : claim_rows claim limit (merge_sort (no_later row_age) rows) [] t =
    (Settle.lease claim <$> (outboxRow.entry <$> taken), for_each (stage_lease claim) taken t)).
  { pose proof (claim_rows_spec claim limit (merge_sort (no_later row_age) rows) [] t Hlim) as Hc.
    cbv zeta in Hc. by rewrite Nat.sub_0_r in Hc. }
  assert (Hsub : forall row, row ∈ taken -> row ∈ rows).
  { intros row Hrow%subseteq_take. unfold due_rows in Hrow.
    rewrite list_elem_of_filter, merge_sort_Permutation in Hrow. by destruct Hrow. }
  assert (Hnd : NoDup (outboxRow.id <$> taken)).
  { unfold taken. rewrite fmap_take. eapply sublist_NoDup; [|apply sublist_take].
    unfold due_rows. apply NoDup_fmap_filter. by rewrite merge_sort_Permutation. }
  destruct (stage_leases s claim taken t Ht Hrel Hnd) as (Ht' & Ho' & Hv').
  { intros row Hrow%Hsub. rewrite Hview. by apply list_elem_of_fmap_2. }
  assert (Hm : ClaimDueEvents_ claim (DB.mk s (Some t)) =
    (Ok (Settle.lease claim <$> (outboxRow.entry <$> taken)),
     DB.mk s (Some (for_each (stage_lease claim) taken t)))).
  { unfold ClaimDueEvents_, in_tx; cbn. rewrite Hrel, app_nil_r. rewrite_claim Hc. }
  split; [|rewrite Hm; exact Ho'].
  apply (in_tx_implements codec _ _ s t _ _ Hm); [done|done|].
  assert (Hclaimed :
    take (Ledger.batch (OutboxClaim.Limit claim) DefaultOutboxBatch)
      (filter (fun e => Settle.due (NormalizeTime (OutboxClaim.Now claim)) e = true)
        (merge_sort (no_later Ledger.by_age) (Ledger.outbox (laid_over s t)))) =
    outboxRow.entry <$> taken).
  { rewrite Hview, sort_entries by done. unfold taken. rewrite fmap_take. f_equal.
    unfold due_rows. generalize (merge_sort (no_later row_age) rows). intros l.
    induction l as [|r l IH]; [done|]. cbn [fmap list_fmap]. rewrite !filter_cons, <- row_due, IH.
    by case_decide. }
  unfold Ledger.ClaimDueEvents. rewrite Hclaimed, Hv'.
  assert (Hkeys : OutboxEntry.key <$> (Settle.lease claim <$> (outboxRow.entry <$> taken)) =
                  outboxRow.id <$> taken)
    by (rewrite <- !list_fmap_compose; by apply list_fmap_ext).
  by rewrite Hkeys.
Qed.

(** Only a record of events stages a row. *)
Lemma append_records_outbox records t : tx.outbox (for_each append_record records t) = tx.outbox t.
Proof. revert t; induction records as [|r records IH]; intros t; [done|]. cbn [for_each]. by rewrite IH. Qed.

Lemma claim_tasks_outbox lease limit candidates claimed t :
  tx.outbox (claim_tasks lease limit candidates claimed t).2 = tx.outbox t.
Proof.
  revert claimed t; induction candidates as [|task candidates IH]; intros claimed t; cbn [claim_tasks]; [done|].
  case_decide; [done|]. destruct (_ || _); [apply IH|]. destruct (_ && _); [apply IH|]. by rewrite IH.
Qed.

Lemma in_tx_staged {A} e (f : tx.t -> res A * tx.t) d :
  (forall t, DB.active d = Some t -> tx.outbox (f t).2 = tx.outbox t) ->
  relayed_db d -> relayed_db (in_tx e f d).2.
Proof.
  intros Hf Hr. unfold in_tx. destruct d as [s [t|]]; [|done]. cbn in *. specialize (Hf t eq_refl).
  destruct (f t) as [r t']. cbn in *. congruence.
Qed.

Lemma discard_state {S A} (m : SM S error A) s : (discard m s).2 = (m s).2.
Proof. unfold discard, sbind. by destruct (m s) as [[?|?] ?]. Qed.

Lemma edit_staged_kept op id edit d : relayed_db d -> relayed_db (editOutbox op id edit d).2.
Proof.
  intros Hr. apply in_tx_staged; [|done]. intros t Ht. unfold relayed_db in Hr. rewrite Ht in Hr.
  destruct (find_row _ _); [|done]. by rewrite Hr.
Qed.

Lemma relayed_kept_db w d : sound_db d -> InTransaction_ d = true -> relayed_db d ->
  records_events w = false -> relayed_db (@write_store _ (MemStore codec) w d).2.
Proof.
  intros Hd Ha Hr Hw. destruct w; try done; cbn [write_store]; rewrite ?discard_state.
  - apply in_tx_staged; [|done]. intros t _. by destruct (tx_get _ _ _).
  - apply in_tx_staged; [|done]. intros t _. destruct (tx_get _ _ _); [|done]. by destruct (decide _).
  - cbn. unfold AppendHistory_. case_decide; [done|]. apply in_tx_staged; [|done]. intros t _.
    apply append_records_outbox.
  - apply in_tx_staged; [|done]. intros t _.
    cbv beta zeta. match goal with |- context [claim_tasks ?a ?b ?c ?d ?e] =>
      pose proof (claim_tasks_outbox a b c d e); by destruct (claim_tasks a b c d e) end.
  - by apply claim_due_implements.
  - by apply edit_staged_kept.
  - by apply edit_staged_kept.
  - by apply edit_staged_kept.
Qed.

#[global] Instance mem_store_laws : @StoreLaws DB.t (MemStore codec) (MemModel codec).
Proof.
  constructor.
  - done.
  - intros d _ Hn. unfold view, base; cbn. apply inactive in Hn. rewrite Hn. done.
  - intros [s [t|]] id task [[Hs _] Ht]; cbn in *; [|apply Hs].
    intros [H|[_ H]]%lookup_union_Some_raw; [by eapply tx_keyed|by apply Hs].
  - intros [s [t|]] [[_ Hs] Ht]; cbn in *; [by apply laid_over_distinct|].
    unfold Ledger.keys; cbn. by rewrite keys_entries.
  - intros d [Hs _] Hn. apply inactive in Hn. rewrite Hn. cbn. split_and!; [done|done| |split|done].
    + unfold laid_over, of_mem; cbn. rewrite app_nil_r. f_equal.
      * by rewrite map_empty_union.
      * apply map_eq. intros i. rewrite lookup_union_with, lookup_empty.
        by destruct (Mem.history _ !! i).
      * f_equal. rewrite <- (list_fmap_id (Mem.outbox _)) at 2. apply list_fmap_ext.
        intros ? r _. unfold apply_edit; cbn. by rewrite lookup_empty.
    + exact Hs.
    + destruct Hs as [_ Hs]. constructor; cbn.
      * intros ? ?. by rewrite lookup_empty.
      * by rewrite app_nil_r.
      * intros ? ?. by rewrite lookup_empty.
  - intros d [Hs Ht] (s & t & ->)%active_tx. cbn in *. split_and!; [done|by apply commit_publishes|].
    split; [by apply commit_sound|done].
  - intros d [Hs Ht] (s & t & ->)%active_tx. cbn in *. by split_and!.
  - intros X A ce m d x Hact. cbn in Hact |- *. by rewrite Hact.
  - intros X A ce m d x Hact. cbn in Hact |- *. rewrite Hact.
    destruct (m (ContextWithTx d, x)) as [[a|e] [d' x']]; [by destruct ce|done].
  - intros id [s [t|]] _; cbn; [apply tx_get_view|].
    unfold Ledger.Get; cbn. destruct (Mem.tasks s !! id); [by rewrite Task_Clone_id|done].
  - intros id [s [t|]] _; cbn; [|done]. f_equal. unfold Ledger.History; cbn.
    rewrite lookup_union_with.
    destruct (Mem.history s !! id), (tx.history t !! id); cbn; by rewrite ?app_nil_r.
  - intros q [s [t|]] _; done.
  - intros q [s [t|]] _; done.
  - intros id [s [t|]] _; cbn; unfold OutboxEntry_of, Ledger.Entry; cbn;
      rewrite find_row_list_find, find_entry; by destruct (list_find _ _) as [[? ?]|].
  - apply create_implements.
  - apply update_implements.
  - apply append_history_implements.
  - apply append_implements.
  - apply claim_overdue_implements.
  - intros claim d Hd Ha Hr. by apply claim_due_implements.
  - apply relayed_kept_db.
  - intros r d Hd Ha. by apply editOutbox_implements.
  - intros a d Hd Ha. apply editOutbox_implements; [| |done..];
      intros row; unfold Settle.accept, Settle.free, outboxRow.release;
      by destruct (Acceptance.PublishedAt a), (Acceptance.NextAttemptAt a).
  - intros l d Hd Ha. apply editOutbox_implements; [| |done..];
      intros row; unfold Settle.bury, Settle.free, outboxRow.release;
      by destruct (DeadLetter.Accepted l).
  - intros task d Hn. apply inactive in Hn. rewrite Hn. eexists. split; reflexivity.
  - intros task v d Hn. apply inactive in Hn. rewrite Hn. eexists. split; reflexivity.
  - intros records d. destruct records as [|r rs]; [done|].
    rewrite decide_False by done. intros Hn. apply inactive in Hn. rewrite Hn. eexists. split; reflexivity.
  - intros events d Hn. apply inactive in Hn. rewrite Hn. eexists. split; reflexivity.
  - intros lease d Hn. apply inactive in Hn. rewrite Hn. eexists. split; reflexivity.
  - intros claim d Hn. apply inactive in Hn. rewrite Hn. eexists. split; reflexivity.
  - intros r d Hn. apply inactive in Hn. rewrite Hn. eexists. split; reflexivity.
  - intros a d Hn. apply inactive in Hn. rewrite Hn. eexists. split; reflexivity.
  - intros l d Hn. apply inactive in Hn. rewrite Hn. eexists. split; reflexivity.
Qed.
End laws.

(** * Properties *)

(** C5: The in-memory store keeps the contract of the storage ports.  Inside a
    transaction each of its writes -- of tasks, histories and events, claims of
    overdue tasks, and settlements of any event, the transaction's own included --
    changes the ledger the caller sees exactly as the ledger's own operation does,
    result and error included, and leaves the committed one alone; a claim of events
    does so in a transaction that has recorded none of its own (the one exception,
    which [own_events_claimed_twice] exhibits).  Reads see the transaction's own
    writes, commit publishes precisely what the transaction saw, rollback nothing, a
    nested [Do] joins, and every write outside a transaction is refused, but for an
    [AppendHistory] of no records, which does nothing. *)
Theorem memstore_refines_ledger codec : @StoreLaws DB.t (MemStore codec) (MemModel codec).
Proof. apply mem_store_laws. Qed.

(** C6: A transaction is all or nothing.  Any sequence of writes run inside one
    [Do] -- any of the nine, in which no claim of events comes after a record of
    events -- either reaches its end, and then what is committed is what the ledger's
    operations make of the previous commit; or it fails at the first write that
    is refused, or its context is cancelled, and then what is committed is what
    was committed before, history and outbox included.  The identifiers of the
    recorded events are new. *)
Theorem memstore_transaction_atomic ws cancelled (s : Mem.t) :
  sound_mem s -> NoDup (Ledger.keys (of_mem s) ++ recorded ws) -> claims_first ws = true ->
  let '(r, l) := script write_ledger ws (of_mem s) in
  exists s', sound_mem s' /\
    Do_ cancelled (on_store (script (@write_store _ (MemStore (CursorCodec.mk (fun _ => None)
          (fun _ => None)))) ws)) (DB.mk s None, tt) =
      (match r, cancelled with
       | Ok _, None => Ok tt | Ok _, Some e => Err e | Err e, _ => Err e
       end, (DB.mk s' None, tt)) /\
    of_mem s' = match r, cancelled with Ok _, None => l | _, _ => of_mem s end.
Proof.
  intros Hs Hf Hc. set (codec := CursorCodec.mk _ _).
  pose proof (@script_atomic _ (MemStore codec) (MemModel codec) (mem_store_laws codec)
    unit ws cancelled (DB.mk s None) tt (conj Hs I) eq_refl Hf Hc) as H.
  change (base (DB.mk s None)) with (of_mem s) in H.
  destruct (script write_ledger ws (of_mem s)) as [r l].
  destruct H as (d' & Hdo & Hn & [Hsound _] & Hv). apply inactive in Hn. rewrite Hn in *.
  exists (DB.store d'). split_and!; [exact Hsound|exact Hdo|exact Hv].
Qed.

(** No update is lost.  A write succeeds only on the version it was computed
    from; once one writer has moved a task on from version [v], every other
    writer still holding [v] is refused with a conflict that names the version
    the task is at now, and the refused write changes nothing. *)
Theorem no_lost_update t1 t2 v d :
  sound_db d -> InTransaction_ d = true ->
  Task.ID t2 = Task.ID t1 -> Task.Version t1 <> v ->
  forall d1, Update_ t1 v d = (Ok tt, d1) ->
  Get_ (Task.ID t1) d1 = Ok (Task.Normalize t1) /\
  exists e d2, Update_ t2 v d1 = (Err e, d2) /\ view_db d2 = view_db d1 /\
    e = ConflictError (Task.ID t1) v (Task.Version t1) /\ errors_Is e ErrConflict = true.
Proof.
  intros Hd Ha Hid Hv d1 H1. set (codec := CursorCodec.mk (fun _ => None) (fun _ => None)).
  destruct (update_implements codec t1 v d Hd Ha) as ((Ha1 & _ & Hd1) & Hr & Hview).
  rewrite H1 in *. cbn [fst snd] in *. cbn in Ha1, Hd1, Hview.
  unfold Ledger.Update in Hr, Hview. cbn in Hr, Hview.
  destruct (Ledger.tasks (view_db d) !! Task.ID t1) as [cur|]; [|done].
  destruct (decide (_ = v)); [|done]. cbn [snd] in Hview.
  assert (Hlook : Ledger.tasks (view_db d1) !! Task.ID t1 = Some (Task.Normalize t1))
    by (rewrite Hview; apply lookup_insert_eq).
  split.
  - pose proof (@get_law _ _ _ (mem_store_laws codec) (Task.ID t1) d1 Hd1) as Hg.
    cbn in Hg. rewrite Hg. unfold Ledger.Get. by rewrite Hlook.
  - destruct (update_implements codec t2 v d1 Hd1) as (_ & Hr2 & Hv2); [congruence|].
    unfold Ledger.Update in Hr2, Hv2. cbn in Hr2, Hv2. rewrite Hid, Hlook in Hr2, Hv2.
    assert (Hver : Task.Version (Task.Normalize t1) = Task.Version t1)
      by (unfold Task.Normalize; rewrite Task_Clone_id; by destruct t1).
    rewrite Hver, decide_False in Hr2, Hv2 by done.
    destruct (Update_ t2 v d1) as [r2 d2]. cbn in Hr2, Hv2. subst r2.
    by eexists _, d2.
Qed.

(** A claim of due events is bounded, ordered and exclusive.  It leases at
    most its limit, oldest first, only events that were due, all to the claiming
    relay until its lease runs out; and until then no other claim gets any of
    them, whoever makes it. *)
Theorem event_claims_exclusive claim1 claim2 d :
  sound_db d -> InTransaction_ d = true -> relayed_db d ->
  exists es1 d1 es2 d2,
    ClaimDueEvents_ claim1 d = (Ok es1, d1) /\ ClaimDueEvents_ claim2 d1 = (Ok es2, d2) /\
    length es1 <= Ledger.batch (OutboxClaim.Limit claim1) DefaultOutboxBatch /\
    StronglySorted (no_later Ledger.by_age) es1 /\
    (forall e, e ∈ es1 ->
       OutboxEntry.LockedBy e = OutboxClaim.Owner claim1 /\
       exists e0, e0 ∈ Ledger.outbox (view_db d) /\ e = Settle.lease claim1 e0 /\
         Settle.due (NormalizeTime (OutboxClaim.Now claim1)) e0 = true) /\
    ((NormalizeTime (OutboxClaim.Now claim2) <
        NormalizeTime (OutboxClaim.Now claim1) + OutboxClaim.Duration claim1)%Z ->
     forall id, id ∈ OutboxEntry.key <$> es1 -> id ∉ OutboxEntry.key <$> es2).
Proof.
  intros Hd Ha Hr. set (codec := CursorCodec.mk (fun _ => None) (fun _ => None)).
  destruct (claim_due_implements codec claim1 d Hd Ha Hr) as [((Ha1 & _ & Hd1) & Hr1 & Hv1) Hrel].
  destruct (ClaimDueEvents_ claim1 d) as [r1 d1]. cbn in Ha1, Hd1, Hr1, Hv1, Hrel.
  destruct (claim_due_implements codec claim2 d1 Hd1) as [(_ & Hr2 & _) _]; [congruence|done|].
  destruct (ClaimDueEvents_ claim2 d1) as [r2 d2] eqn:E2. cbn in Hr2.
  eexists _, d1, _, d2. split_and!; [by rewrite Hr1|by rewrite E2, Hr2|..].
  - rewrite length_fmap, length_take. lia.
  - eapply StronglySorted_fmap_keep; [|apply due_entries_sorted]. done.
  - intros e (e0 & -> & [Hin Hdue]%due_entries_spec)%list_elem_of_fmap.
    split; [done|]. by exists e0.
  - intros Ht. apply (claim_twice claim1 claim2 (view_db d) _ (view_db d1) _
      (Ledger.ClaimDueEvents claim2 (view_db d1)).2); [by rewrite Hv1|reflexivity|exact Ht].
Qed.

(** A sweep's claim of overdue tasks is bounded and exclusive: at most its
    limit, only tasks that were overdue, not held by a live lease and of a type
    it asked for, each leased to the sweeper and otherwise unchanged; and until
    the lease runs out no other claim gets any of them. *)
Theorem task_claims_exclusive lease1 lease2 d :
  sound_db d -> InTransaction_ d = true ->
  exists ts1 d1 ts2 d2,
    ClaimOverdue_ lease1 d = (Ok ts1, d1) /\ ClaimOverdue_ lease2 d1 = (Ok ts2, d2) /\
    length ts1 <= Ledger.batch (LeaseRequest.Limit lease1) 100 /\
    (forall t, t ∈ ts1 ->
       Get_ (Task.ID t) d1 = Ok t /\ Task.LockedBy t = LeaseRequest.Owner lease1 /\
       exists t0, Ledger.tasks (view_db d) !! Task.ID t = Some t0 /\
         Ledger.claimable lease1 t0 = true /\ t = Ledger.leased lease1 t0) /\
    ((NormalizeTime (LeaseRequest.Now lease2) <
        NormalizeTime (NormalizeTime (LeaseRequest.Now lease1) +
                       LeaseRequest.Duration lease1))%Z ->
     forall id, id ∈ Task.ID <$> ts1 -> id ∉ Task.ID <$> ts2).
Proof.
  intros Hd Ha. set (codec := CursorCodec.mk (fun _ => None) (fun _ => None)).
  pose proof (@keyed _ _ _ (mem_store_laws codec) d) as Hkey.
  specialize (fun id t => Hkey id t Hd). cbn in Hkey.
  destruct (claim_overdue_implements codec lease1 d Hd Ha) as ((Ha1 & _ & Hd1) & Hr1 & Hv1).
  destruct (ClaimOverdue_ lease1 d) as [r1 d1]. cbn [fst snd] in *. cbn in Ha1, Hd1, Hr1, Hv1.
  destruct (claim_overdue_implements codec lease2 d1 Hd1) as (_ & Hr2 & _); [congruence|].
  destruct (ClaimOverdue_ lease2 d1) as [r2 d2] eqn:E2. cbn in Hr2.
  eexists _, d1, _, d2. split_and!; [by rewrite Hr1|by rewrite E2, Hr2|..].
  - rewrite length_fmap, length_take. lia.
  - intros t (t0 & -> & Hin)%list_elem_of_fmap.
    pose proof (overdue_tasks_spec lease1 (view_db d) t0 Hin) as [Hclaim [id Hlook]].
    destruct (leased_lease lease1 t0) as (Hid & Hby & _). rewrite Hid.
    assert (Task.ID t0 = id) as <- by (by apply Hkey).
    split_and!; [|done|by exists t0].
    pose proof (@get_law _ _ _ (mem_store_laws codec) (Task.ID t0) d1 Hd1) as Hg.
    cbn in Hg. rewrite Hg, Hv1. unfold Ledger.Get.
    destruct (Ledger.tasks (for_each Ledger.put _ _) !! Task.ID t0) as [x|] eqn:E.
    + apply put_all_lookup in E as [(t' & Hin' & Hid' & ->)|[Hni _]].
      * apply list_elem_of_fmap in Hin' as (t1 & -> & Hin1).
        destruct (leased_lease lease1 t1) as (Hid1 & _ & _). rewrite Hid1 in Hid'.
        apply overdue_tasks_spec in Hin1 as [_ [id1 Hlook1]].
        rewrite <- (Hkey _ _ Hlook1), Hid', Hlook in Hlook1. injection Hlook1 as <-.
        by rewrite Normalize_leased.
      * destruct Hni. rewrite <- Hid. by do 2 apply list_elem_of_fmap_2.
    + destruct (put_all_present (Ledger.leased lease1 t0)
        (Ledger.leased lease1 <$> overdue_tasks lease1 (view_db d)) (view_db d)) as [y Hy];
        [by apply list_elem_of_fmap_2|]. rewrite Hid in Hy. unfold overdue_tasks in Hy.
      by rewrite Hy in E.
  - intros Ht. apply (claim_tasks_twice lease1 lease2 (view_db d) _ (view_db d1) _
      (Ledger.ClaimOverdue lease2 (view_db d1)).2 Hkey); [by rewrite Hv1|reflexivity|exact Ht].
Qed.

(** C25: Where the in-memory store departs from the contract: a scope that claims
    an event it recorded itself.  The lease is staged among the edits of
    committed rows, where the scope's own reads do not look, so the same scope
    claims the event again at once; and a delivery recorded in that scope is
    overwritten at commit by the row as it was claimed, so the event is committed
    as undelivered. *)
Theorem own_events_claimed_twice event claim acceptance published :
  (Event.OccurredAt event <= OutboxClaim.Now claim)%Z ->
  Acceptance.EventID acceptance = Event.ID event ->
  Acceptance.PublishedAt acceptance = Some published ->
  let d0 := (Append_ [event] (ContextWithTx (DB.mk Mem.New None))).2 in
  exists e d1 d2 d3,
    ClaimDueEvents_ claim d0 = (Ok [e], d1) /\
    ClaimDueEvents_ claim d1 = (Ok [e], d2) /\
    MarkAccepted_ acceptance d1 = (Ok tt, d3) /\
    (exists delivered, OutboxEntry_of (Event.ID event) d3 = Ok delivered /\
       OutboxEntry.Delivered delivered = true) /\
    (exists committed, OutboxEntry_of (Event.ID event) (done_ true d3) = Ok committed /\
       OutboxEntry.Delivered committed = false /\ OutboxEntry.Accepted committed = []).
Proof.
  intros Ho Hid Hp. cbv zeta.
  assert (Hdue : outboxRow.due (new_row event) (NormalizeTime (OutboxClaim.Now claim)) = true).
  { unfold outboxRow.due; cbn. apply negb_true_iff, bool_decide_eq_false.
    pose proof (NormalizeTime_mono _ _ Ho). lia. }
  assert (Hclaim : forall edits,
    ClaimDueEvents_ claim (DB.mk Mem.New (Some (tx.mk ∅ ∅ [new_row event] edits))) =
    (Ok [outboxRow.entry (lease_row claim (new_row event))],
     DB.mk Mem.New (Some (tx.mk ∅ ∅ [new_row event]
       (<[ Event.ID event := lease_row claim (new_row event) ]> edits))))).
  { intros edits. unfold ClaimDueEvents_, in_tx. cbn [DB.active DB.store].
    change (merge_sort _ (outboxSnapshot _)) with [new_row event].
    cbv zeta. cbn [claim_rows length]. rewrite decide_False.
    - rewrite Hdue. done.
    - unfold DefaultOutboxBatch. case_decide; lia. }
  eexists (outboxRow.entry (lease_row claim (new_row event))), _, _, _.
  split_and!.
  - apply Hclaim.
  - apply Hclaim.
  - unfold MarkAccepted_, editOutbox, in_tx; cbn. rewrite Hid, Hp.
    unfold outboxRow.id; cbn. rewrite !decide_True by done. reflexivity.
  - eexists. split; [unfold OutboxEntry_of; cbn; unfold outboxRow.id; cbn;
      by rewrite decide_True by done|reflexivity].
  - eexists. split.
    + unfold OutboxEntry_of, done_, commit_tx; cbn.
      rewrite insert_empty, map_to_list_singleton; cbn. unfold outboxRow.id; cbn.
      rewrite decide_True by done. cbn. unfold outboxRow.id; cbn. by rewrite decide_True by done.
    + done.
Qed.

(** * Witnesses *)

Module MemStoreExamples.
Definition waiting (id : string) (due : option Time) : Task.t := {|
  Task.ID := id; Task.Type_ := "review"; Task.Version := 1;
  Task.Status := StatusReady; Task.SuspendedFrom := StatusNone;
  Task.Priority := 5; Task.Assignee := "";
  Task.Candidates := CandidatePool.mk ["ann"] [] [];
  Task.Correlation := CorrelationData.empty; Task.Callback := None;
  Task.Escalation := None; Task.Input := None; Task.Progress := None;
  Task.Output := None; Task.Reason := ""; Task.CreatedBy := "sys";
  Task.EscalationCount := 0; Task.CreatedAt := 1000; Task.UpdatedAt := 1000;
  Task.DueAt := due; Task.StartedAt := None; Task.ClosedAt := None;
  Task.EscalatedAt := None; Task.LockedBy := ""; Task.LockedUntil := None |}.

Definition happened (id : string) (at_ : Time) : Event.t :=
  Event.mk id EventTypeCreated "t1" "review" StatusReady 1 "sys" "" (CandidatePool.mk ["ann"] [] [])
    "" "sys" at_ CorrelationData.empty None
    (TransitionRecord.mk "t1" 1 OpCreate StatusCreated StatusReady "sys" "" at_) "" None.

Definition base_script : list Write :=
  [WCreate (waiting "t1" (Some 5000%Z)); WCreate (waiting "t2" (Some 4000%Z));
   WAppend [happened "e2" 3000; happened "e1" 2000]].

Definition seeded : Mem.t :=
  DB.store (Do_ None (on_store (script (@write_store _ (MemStore
    (CursorCodec.mk (fun _ => None) (fun _ => None)))) base_script)) (DB.mk Mem.New None, tt)).2.1.

Definition moved (due : option Time) : Task.t :=
  (waiting "t1" due) <| Task.Version := 2%Z |>.

Lemma New_sound : sound_mem Mem.New.
Proof. constructor; [intros id task H; cbn in H; by rewrite lookup_empty in H|constructor]. Qed.

Lemma seeded_sound : sound_mem seeded.
Proof.
  pose proof (@script_atomic _ (MemStore (CursorCodec.mk (fun _ => None) (fun _ => None)))
    (MemModel _) (mem_store_laws _) unit base_script None (DB.mk Mem.New None) tt
    (conj New_sound I) eq_refl) as H.
  destruct (script write_ledger base_script _) as [r l].
  destruct H as (d' & Hdo & _ & [Hs _] & _).
  - apply (bool_decide_unpack _). vm_compute. reflexivity.
  - reflexivity.
  - match type of Hdo with ?l = _ => change (sound_mem (DB.store l.2.1)) end.
    rewrite Hdo. exact Hs.
Qed.

Definition opened : DB.t := ContextWithTx (DB.mk seeded None).

Lemma opened_sound : sound_db opened.
Proof.
  apply (@begin_law _ _ _ (mem_store_laws (CursorCodec.mk (fun _ => None) (fun _ => None)))
    (DB.mk seeded None)); [split; [exact seeded_sound|exact I]|reflexivity].
Qed.
End MemStoreExamples.
Import MemStoreExamples.

(** A relay claims an event, the task moves on, and both its event and the new one
    are settled before the transaction ends. *)
Definition busy_script : list Write :=
  [WClaimDueEvents (OutboxClaim.mk 6000 "relay" 5000 1); WUpdate (moved None) 1; WAppend [happened "e3" 4000];
   WMarkAccepted (Acceptance.mk "e1" ["hook"] (Some 7000%Z) None 1 "");
   WMarkAccepted (Acceptance.mk "e3" ["hook"] (Some 7000%Z) None 1 "")].

Lemma memstore_transaction_atomic_witness :
  let '(r, l) := script write_ledger busy_script (of_mem seeded) in
  exists s', sound_mem s' /\ r = Ok tt /\ of_mem s' = l /\
    (OutboxEntry.Delivered <$> Ledger.outbox l) = [false; true; true].
Proof.
  pose proof (memstore_transaction_atomic busy_script None seeded
    seeded_sound ltac:(apply (bool_decide_unpack _); vm_compute; reflexivity) eq_refl) as H.
  destruct (script write_ledger _ _) as [r l] eqn:E.
  destruct H as (s' & Hs & _ & Hv).
  assert (Hr : r = Ok tt).
  { assert (H : (r, l).1 = Ok tt) by (rewrite <- E; vm_compute; reflexivity). exact H. }
  subst r. exists s'. split_and!; [exact Hs|reflexivity|exact Hv|].
  change l with (@Ok error unit tt, l).2. rewrite <- E. vm_compute. reflexivity.
Defined.

Lemma no_lost_update_witness :
  exists d1 e d2,
    Update_ (moved None) 1 opened = (Ok tt, d1) /\
    Update_ (moved (Some 9000%Z)) 1 d1 = (Err e, d2) /\
    errors_Is e ErrConflict = true.
Proof.
  eexists.
  destruct (no_lost_update (moved None)
    (moved (Some 9000%Z)) 1 opened opened_sound eq_refl
    eq_refl ltac:(discriminate)
    (Update_ (moved None) 1 opened).2) as (_ & e & d2 & H & _ & _ & He).
  - vm_compute. reflexivity.
  - exists e, d2. split_and!; [|exact H|exact He]. vm_compute. reflexivity.
Defined.

Lemma event_claims_exclusive_witness :
  exists es1 d1 es2 d2,
    ClaimDueEvents_ (OutboxClaim.mk 6000 "relay-a" 5000 1) opened = (Ok es1, d1) /\
    ClaimDueEvents_ (OutboxClaim.mk 6000 "relay-b" 5000 5) d1 = (Ok es2, d2) /\
    forall id, id ∈ OutboxEntry.key <$> es1 -> id ∉ OutboxEntry.key <$> es2.
Proof.
  destruct (event_claims_exclusive (OutboxClaim.mk 6000 "relay-a" 5000 1)
    (OutboxClaim.mk 6000 "relay-b" 5000 5) opened opened_sound eq_refl eq_refl)
    as (es1 & d1 & es2 & d2 & H1 & H2 & _ & _ & _ & Hx).
  exists es1, d1, es2, d2. split_and!; [exact H1|exact H2|apply Hx; vm_compute; reflexivity].
Defined.

Example event_claims_demo :
  ((ClaimDueEvents_ (OutboxClaim.mk 6000 "relay-a" 5000 1) opened).1,
   (ClaimDueEvents_ (OutboxClaim.mk 6000 "relay-b" 5000 5)
     (ClaimDueEvents_ (OutboxClaim.mk 6000 "relay-a" 5000 1) opened).2).1) =
  (Ok [outboxRow.entry (lease_row (OutboxClaim.mk 6000 "relay-a" 5000 1) (new_row (happened "e1" 2000)))],
   Ok [outboxRow.entry (lease_row (OutboxClaim.mk 6000 "relay-b" 5000 5) (new_row (happened "e2" 3000)))]).
Proof. vm_compute. reflexivity. Qed.

Lemma task_claims_exclusive_witness :
  exists ts1 d1 ts2 d2,
    ClaimOverdue_ (LeaseRequest.mk 6000 "sweep-a" 5000 1 []) opened = (Ok ts1, d1) /\
    ClaimOverdue_ (LeaseRequest.mk 6000 "sweep-b" 5000 5 []) d1 = (Ok ts2, d2) /\
    forall id, id ∈ Task.ID <$> ts1 -> id ∉ Task.ID <$> ts2.
Proof.
  destruct (task_claims_exclusive (LeaseRequest.mk 6000 "sweep-a" 5000 1 [])
    (LeaseRequest.mk 6000 "sweep-b" 5000 5 []) opened opened_sound eq_refl)
    as (ts1 & d1 & ts2 & d2 & H1 & H2 & _ & _ & Hx).
  exists ts1, d1, ts2, d2. split_and!; [exact H1|exact H2|apply Hx; vm_compute; reflexivity].
Defined.

Lemma own_events_claimed_twice_witness :
  exists d3 committed, OutboxEntry_of "e9" (done_ true d3) = Ok committed /\
    OutboxEntry.Delivered committed = false.
Proof.
  destruct (own_events_claimed_twice (happened "e9" 2000) (OutboxClaim.mk 6000 "relay-a" 5000 1)
    (Acceptance.mk "e9" ["hook"] (Some 6000%Z) None 1 "") 6000)
    as (e & d1 & d2 & d3 & _ & _ & _ & _ & committed & H & Hd & _);
    [discriminate|reflexivity|reflexivity|].
  exists d3, committed. split; [exact H|exact Hd].
Defined.
