(* ===== verification/Ident.v ===== *)
(** * Ident: identifiers

    Models [id.go]: the port that mints identifiers and its default
    implementation, which emits RFC 9562 version 7 UUIDs.  A byte is a number
    from 0 to 255 and the sixteen bytes are a list; shifts and masks are written
    as in the source.  The wall clock and the system's randomness are the inputs
    of one call, so a run of the generator is a function of the readings it was
    given, including a clock that stands still or goes backwards. *)

From Stdlib Require Import Ascii.
From S2P Require Import Prelude Domain Errors.

(** ** The port *)

Class IDGenerator (G : Type) : Type := {
  NewTaskID : G -> res string * G
}.

(** The next [n] identifiers are new: none is among those used before, and none
    comes twice.  This is what the port's documentation asks of a generator. *)
Fixpoint fresh {G} `{!IDGenerator G} (n : nat) (g : G) (used : list string) : Prop :=
  match n with
  | 0 => True
  | S n =>
      match NewTaskID g with
      | (Ok id, g') => id ∉ used /\ fresh n g' (id :: used)
      | (Err _, g') => fresh n g' used
      end
  end.

(** ** The default generator *)

Module UUIDv7Generator.
Record t : Type := mk { lastMS : Z; counter : Z }.
Definition zero : t := mk 0 0.
End UUIDv7Generator.

Definition uuidV7CounterMax : Z := 0x0FFF.

Definition tick (observed : Z) (g : UUIDv7Generator.t) : Z * Z * UUIDv7Generator.t :=
  let g :=
    if decide (observed > UUIDv7Generator.lastMS g)%Z
    then UUIDv7Generator.mk observed 0
    else if decide (UUIDv7Generator.counter g < uuidV7CounterMax)%Z
    then UUIDv7Generator.mk (UUIDv7Generator.lastMS g) (UUIDv7Generator.counter g + 1)
    else UUIDv7Generator.mk (wrap64 (UUIDv7Generator.lastMS g + 1)) 0 in
  (UUIDv7Generator.lastMS g, UUIDv7Generator.counter g, g).

(** [binary.BigEndian.PutUint64] *)
Definition PutUint64 (v : Z) : list Z :=
  (fun shift => Z.land (Z.shiftr v shift) 255) <$> [56; 48; 40; 32; 24; 16; 8; 0]%Z.

Definition set_byte (i : nat) (b : Z) (buf : list Z) : list Z := <[ i := b ]> buf.

(** The buffer of one identifier, from eight random bytes. *)
Definition fill (ms counter : Z) (random : list Z) : list Z :=
  let buf := PutUint64 (Z.land (Z.shiftl (Z.land ms (2 ^ 64 - 1)) 16) (2 ^ 64 - 1)) ++ random in
  let buf := set_byte 6 (Z.lor 0x70 (Z.land (Z.land (Z.shiftr counter 8) 0x0F) 255)) buf in
  let buf := set_byte 7 (Z.land counter 255) buf in
  set_byte 8 (Z.lor (Z.land (nth 8 buf 0%Z) 0x3F) 0x80) buf.

Definition hex_char (n : Z) : Ascii.ascii := hex_digit (Z.to_nat n).

(** [hex.Encode] *)
Fixpoint hex_Encode (bytes : list Z) : string :=
  match bytes with
  | [] => EmptyString
  | b :: rest =>
      String (hex_char (Z.shiftr b 4)) (String (hex_char (Z.land b 15)) (hex_Encode rest))
  end.

Definition slice (from to : nat) (b : list Z) : list Z := take (to - from) (drop from b).

Definition formatUUID (b : list Z) : string :=
  hex_Encode (slice 0 4 b) +:+ "-" +:+ hex_Encode (slice 4 6 b) +:+ "-" +:+
  hex_Encode (slice 6 8 b) +:+ "-" +:+ hex_Encode (slice 8 10 b) +:+ "-" +:+
  hex_Encode (slice 10 16 b).

(** One reading: the clock in milliseconds and what reading eight random bytes
    gave. *)
Record reading : Type := mk_reading { observed : Z; random : result string (list Z) }.

Definition mint (r : reading) (g : UUIDv7Generator.t) : res string * UUIDv7Generator.t :=
  match random r with
  | Err text =>
      (Err (ExternalError ("hmntsk: read randomness for task id: " +:+ text) []), g)
  | Ok bytes =>
      let '(ms, counter, g') := tick (observed r) g in
      (Ok (formatUUID (fill ms counter bytes)), g')
  end.

(** The generator with the readings it will be given. *)
Record UUIDSource : Type := mk_source {
  generator : UUIDv7Generator.t; readings : nat -> reading; next : nat
}.

#[global] Instance UUIDv7 : IDGenerator UUIDSource := {
  NewTaskID s :=
    let '(r, g) := mint (readings s (next s)) (generator s) in
    (r, mk_source g (readings s) (S (next s)))
}.

(** * Lemmas *)

(** ** Bytes *)

Definition is_byte (b : Z) : Prop := (0 <= b < 256)%Z.

(** Big-endian bytes, and their order. *)
Fixpoint big_endian (n : nat) (v : Z) : list Z :=
  match n with
  | 0 => []
  | S n => ((v / 256 ^ Z.of_nat n) mod 256)%Z :: big_endian n v
  end.

Fixpoint bytes_compare (l1 l2 : list Z) : comparison :=
  match l1, l2 with
  | [], [] => Eq
  | [], _ :: _ => Lt
  | _ :: _, [] => Gt
  | x :: l1, y :: l2 => match Z.compare x y with Eq => bytes_compare l1 l2 | c => c end
  end.

Lemma div_of_mod v a b : (0 < a)%Z -> (0 < b)%Z -> ((v mod (a * b)) / a = (v / a) mod b)%Z.
Proof.
  intros Ha Hb. rewrite Z.rem_mul_r by lia.
  rewrite (Z.mul_comm a), Z.div_add by lia. rewrite Z.div_small by (apply Z.mod_pos_bound; lia). lia.
Qed.

Lemma big_endian_mod n m v : n <= m -> big_endian n (v mod 256 ^ Z.of_nat m) = big_endian n v.
Proof.
  induction n as [|n IH]; intros Hm; [done|]. cbn [big_endian]. f_equal; [|apply IH; lia].
  replace (Z.of_nat m) with (Z.of_nat n + (1 + Z.of_nat (m - S n)))%Z by lia.
  pose proof (Z.pow_pos_nonneg 256 (Z.of_nat n)).
  pose proof (Z.pow_pos_nonneg 256 (Z.of_nat (m - S n))).
  rewrite Z.pow_add_r, div_of_mod by lia. rewrite Z.pow_add_r by lia.
  rewrite Z.rem_mul_r by lia. rewrite Z.add_comm, Z.mul_comm.
  change (256 ^ 1)%Z with 256%Z. rewrite Z.add_comm, Z_mod_plus_full. apply Z.mod_mod. lia.
Qed.

Lemma bytes_compare_big_endian n v w :
  (0 <= v < 256 ^ Z.of_nat n)%Z -> (0 <= w < 256 ^ Z.of_nat n)%Z ->
  bytes_compare (big_endian n v) (big_endian n w) = Z.compare v w.
Proof.
  revert v w; induction n as [|n IH]; intros v w Hv Hw.
  { change (256 ^ Z.of_nat 0)%Z with 1%Z in *. by assert (v = w) as -> by lia; rewrite Z.compare_refl. }
  cbn [big_endian bytes_compare]. rewrite Nat2Z.inj_succ, Z.pow_succ_r in Hv, Hw by lia.
  pose proof (Z.pow_pos_nonneg 256 (Z.of_nat n)) as Hp.
  set (p := (256 ^ Z.of_nat n)%Z) in *.
  assert (Hdv : (0 <= v / p < 256)%Z)
    by (split; [apply Z.div_pos; lia|apply Z.div_lt_upper_bound; lia]).
  assert (Hdw : (0 <= w / p < 256)%Z)
    by (split; [apply Z.div_pos; lia|apply Z.div_lt_upper_bound; lia]).
  rewrite !Z.mod_small by lia.
  pose proof (Z.div_mod v p) as Ev. pose proof (Z.div_mod w p) as Ew.
  pose proof (Z.mod_pos_bound v p) as Bv. pose proof (Z.mod_pos_bound w p) as Bw.
  destruct (Z.compare_spec (v / p) (w / p)) as [E|E|E].
  - rewrite <- (big_endian_mod n n v), <- (big_endian_mod n n w) by lia. fold p.
    rewrite IH by (fold p; lia). rewrite Ev, Ew at 2 by lia. rewrite E.
    symmetry. apply Z.add_compare_mono_l.
  - symmetry. apply Z.compare_lt_iff. nia.
  - symmetry. apply Z.compare_gt_iff. nia.
Qed.

(** ** Text *)

Lemma string_compare_app a b c d :
  String.length a = String.length b ->
  String.compare (a +:+ c) (b +:+ d) =
  match String.compare a b with Eq => String.compare c d | r => r end.
Proof.
  revert b; induction a as [|x a IH]; intros [|y b] Hl; try done.
  change (String x a +:+ c) with (String x (a +:+ c)).
  change (String y b +:+ d) with (String y (b +:+ d)).
  cbn -[Ascii.compare]. destruct (Ascii.compare x y); [|done..]. apply IH. by injection Hl.
Qed.

Lemma hex_char_compare x y :
  (0 <= x < 16)%Z -> (0 <= y < 16)%Z -> Ascii.compare (hex_char x) (hex_char y) = Z.compare x y.
Proof.
  intros Hx Hy.
  assert (Hin : forall z, (0 <= z < 16)%Z -> z ∈ [0;1;2;3;4;5;6;7;8;9;10;11;12;13;14;15]%Z).
  { intros z Hz. rewrite !elem_of_cons. lia. }
  apply Hin in Hx, Hy.
  assert (H : forallb (fun x => forallb (fun y =>
      bool_decide (Ascii.compare (hex_char x) (hex_char y) = Z.compare x y))
      [0;1;2;3;4;5;6;7;8;9;10;11;12;13;14;15]%Z) [0;1;2;3;4;5;6;7;8;9;10;11;12;13;14;15]%Z = true)
    by (vm_compute; reflexivity).
  rewrite forallb_forall in H. apply list_elem_of_In in Hx, Hy.
  specialize (H x Hx). rewrite forallb_forall in H. specialize (H y Hy).
  by apply bool_decide_eq_true in H.
Qed.

Lemma nibbles b : is_byte b -> (0 <= Z.shiftr b 4 < 16 /\ 0 <= Z.land b 15 < 16 /\
  b = Z.shiftr b 4 * 16 + Z.land b 15)%Z.
Proof.
  intros Hb. rewrite Z.shiftr_div_pow2 by lia. change 15%Z with (Z.ones 4).
  rewrite Z.land_ones by lia. change (2 ^ 4)%Z with 16%Z.
  pose proof (Z.div_mod b 16). pose proof (Z.mod_pos_bound b 16). unfold is_byte in Hb.
  assert (b / 16 < 16)%Z by (apply Z.div_lt_upper_bound; lia).
  pose proof (Z.div_pos b 16). lia.
Qed.

Lemma hex_Encode_compare l1 l2 :
  length l1 = length l2 -> Forall is_byte l1 -> Forall is_byte l2 ->
  String.compare (hex_Encode l1) (hex_Encode l2) = bytes_compare l1 l2.
Proof.
  revert l2; induction l1 as [|x l1 IH]; intros [|y l2] Hl H1 H2; try done.
  apply Forall_cons in H1 as [Hx H1], H2 as [Hy H2]. cbn in Hl. cbn -[Ascii.compare].
  destruct (nibbles x Hx) as (Hx1 & Hx2 & Ex), (nibbles y Hy) as (Hy1 & Hy2 & Ey).
  rewrite !hex_char_compare by done. rewrite IH by (done || lia).
  destruct (Z.compare_spec (Z.shiftr x 4) (Z.shiftr y 4)) as [E|E|E].
  - destruct (Z.compare_spec (Z.land x 15) (Z.land y 15)) as [E'|E'|E'].
    + assert (x = y) as -> by lia. by rewrite Z.compare_refl.
    + by rewrite (proj2 (Z.compare_lt_iff x y)) by lia.
    + by rewrite (proj2 (Z.compare_gt_iff x y)) by lia.
  - by rewrite (proj2 (Z.compare_lt_iff x y)) by lia.
  - by rewrite (proj2 (Z.compare_gt_iff x y)) by lia.
Qed.

Lemma hex_Encode_length l : String.length (hex_Encode l) = 2 * length l.
Proof. induction l as [|b l IH]; [done|]. cbn. rewrite IH. lia. Qed.

(** ** The bytes of one identifier *)

(** The high eight bytes of an identifier, as a number. *)
Definition high (ms counter : Z) : Z := (ms * 2 ^ 16 + 0x7000 + counter)%Z.

Lemma shiftr_land8 v k : (0 <= k)%Z -> Z.land (Z.shiftr v k) 255 = (v / 2 ^ k mod 256)%Z.
Proof.
  intros. rewrite Z.shiftr_div_pow2 by done. change 255%Z with (Z.ones 8).
  by rewrite Z.land_ones.
Qed.

Lemma PutUint64_big_endian v : PutUint64 v = big_endian 8 v.
Proof.
  unfold PutUint64. cbn [fmap list_fmap]. rewrite !shiftr_land8 by lia. reflexivity.
Qed.

Lemma big_endian_bytes n v : Forall is_byte (big_endian n v).
Proof.
  induction n as [|n IH]; constructor; [|done]. apply Z.mod_pos_bound. lia.
Qed.

Lemma big_endian_length n v : length (big_endian n v) = n.
Proof. induction n; cbn; auto. Qed.

Definition ticked (ms counter : Z) : Prop :=
  (0 <= ms < 2 ^ 48 /\ 0 <= counter <= uuidV7CounterMax)%Z.

Lemma version_byte counter :
  (0 <= counter <= uuidV7CounterMax)%Z ->
  Z.lor 0x70 (Z.land (Z.land (Z.shiftr counter 8) 0x0F) 255) = (0x70 + counter / 256)%Z.
Proof.
  unfold uuidV7CounterMax. intros Hc. rewrite Z.shiftr_div_pow2 by lia. change (2 ^ 8)%Z with 256%Z.
  assert (Hq : (counter / 256)%Z ∈ [0;1;2;3;4;5;6;7;8;9;10;11;12;13;14;15]%Z).
  { pose proof (Z.div_pos counter 256).
    assert (counter / 256 < 16)%Z by (apply Z.div_lt_upper_bound; lia).
    rewrite !elem_of_cons. lia. }
  rewrite !elem_of_cons in Hq. repeat (destruct Hq as [->|Hq]; [reflexivity|]).
  by apply not_elem_of_nil in Hq.
Qed.

Lemma low_byte counter : (0 <= counter)%Z -> Z.land counter 255 = (counter mod 256)%Z.
Proof. intros. change 255%Z with (Z.ones 8). by rewrite Z.land_ones. Qed.

(** The first eight bytes are the time in milliseconds, the version and the
    counter, most significant first. *)
Lemma fill_high ms counter random :
  ticked ms counter -> length random = 8 ->
  take 8 (fill ms counter random) = big_endian 8 (high ms counter) /\
  length (fill ms counter random) = 16.
Proof.
  intros [Hms Hc] Hr. unfold fill.
  assert (Hx : Z.land (Z.shiftl (Z.land ms (2 ^ 64 - 1)) 16) (2 ^ 64 - 1) = (ms * 2 ^ 16)%Z).
  { change (2 ^ 64 - 1)%Z with (Z.ones 64). rewrite !Z.land_ones, Z.shiftl_mul_pow2 by lia.
    rewrite (Z.mod_small ms), Z.mod_small by lia. done. }
  rewrite Hx. destruct random as [|r0 rest]; [done|].
  rewrite PutUint64_big_endian, version_byte, low_byte by (done || lia).
  unfold set_byte. cbn [big_endian app nth]. split; [|cbn in *; lia].
  cbn -[Z.div Z.mul Z.pow Z.modulo Z.add Z.of_nat big_endian high].
  cbn [big_endian]. unfold high, uuidV7CounterMax in *.
  change (Z.of_nat 7) with 7%Z; change (Z.of_nat 6) with 6%Z; change (Z.of_nat 5) with 5%Z;
    change (Z.of_nat 4) with 4%Z; change (Z.of_nat 3) with 3%Z; change (Z.of_nat 2) with 2%Z;
    change (Z.of_nat 1) with 1%Z; change (Z.of_nat 0) with 0%Z.
  assert (Hhigh : forall k, (2 <= k)%Z ->
    (ms * 2 ^ 16 / 256 ^ k = (ms * 2 ^ 16 + 0x7000 + counter) / 256 ^ k)%Z).
  { intros k Hk. replace (256 ^ k)%Z with (2 ^ 16 * 256 ^ (k - 2))%Z.
    2: { change (2 ^ 16)%Z with (256 ^ 2)%Z. rewrite <- Z.pow_add_r by lia. f_equal. lia. }
    pose proof (Z.pow_pos_nonneg 256 (k - 2)).
    rewrite <- !Z.div_div by lia. f_equal. rewrite Z.div_mul by lia.
    rewrite <- Z.add_assoc, Z.add_comm, Z.div_add, Z.div_small by lia. lia. }
  rewrite !Hhigh by lia. do 6 f_equal. f_equal; [|f_equal].
  - change (256 ^ 1)%Z with 256%Z.
    replace (ms * 2 ^ 16 + 0x7000 + counter)%Z
      with (counter + (ms * 256 + 0x70) * 256)%Z by lia.
    rewrite Z.div_add by lia.
    assert (0 <= counter / 256 < 16)%Z
      by (split; [apply Z.div_pos; lia|apply Z.div_lt_upper_bound; lia]).
    replace (counter / 256 + (ms * 256 + 112))%Z with (0x70 + counter / 256 + ms * 256)%Z by lia.
    rewrite Z.mod_add, Z.mod_small by lia. done.
  - change (256 ^ 0)%Z with 1%Z. rewrite Z.div_1_r.
    replace (ms * 2 ^ 16 + 0x7000 + counter)%Z
      with (counter + (ms * 256 + 0x70) * 256)%Z by lia.
    by rewrite Z.mod_add by lia.
Qed.

Lemma bytes_compare_app a b c d :
  length a = length b ->
  bytes_compare (a ++ c) (b ++ d) =
  match bytes_compare a b with Eq => bytes_compare c d | r => r end.
Proof.
  revert b; induction a as [|x a IH]; intros [|y b] Hl; try done. cbn.
  destruct (Z.compare x y); [|done..]. apply IH. by injection Hl.
Qed.

(** Canonical text orders like the bytes it renders. *)
Lemma formatUUID_lt b c :
  length b = 16 -> length c = 16 -> Forall is_byte (take 8 b) -> Forall is_byte (take 8 c) ->
  bytes_compare (take 8 b) (take 8 c) = Lt ->
  String.compare (formatUUID b) (formatUUID c) = Lt.
Proof.
  intros Hb Hc Fb Fc.
  assert (E : forall l : list Z, take 8 l = slice 0 4 l ++ slice 4 6 l ++ slice 6 8 l).
  { intros l. do 8 (destruct l as [|? l]; [done|]). done. }
  assert (Hlen : forall f t, f <= t -> t <= 8 -> length (slice f t b) = t - f /\
    length (slice f t c) = t - f).
  { intros f t ? ?. unfold slice. rewrite !length_take, !length_drop. lia. }
  rewrite E in Fb, Fc. rewrite !(E b), !(E c).
  apply Forall_app in Fb as [Fb1 [Fb2 Fb3]%Forall_app], Fc as [Fc1 [Fc2 Fc3]%Forall_app].
  destruct (Hlen 0 4), (Hlen 4 6), (Hlen 6 8); [lia..|].
  assert (Heq : forall f t, f <= t -> t <= 8 -> length (slice f t b) = length (slice f t c)).
  { intros f t ? ?. by destruct (Hlen f t) as [-> ->]. }
  unfold formatUUID.
  rewrite !bytes_compare_app by (apply Heq; lia).
  rewrite string_compare_app by (rewrite !hex_Encode_length, Heq by lia; done).
  rewrite hex_Encode_compare by (done || apply Heq; lia).
  destruct (bytes_compare (slice 0 4 b) _); [|done..].
  rewrite string_compare_app by done. rewrite (cmp_refl String.compare).
  rewrite string_compare_app by (rewrite !hex_Encode_length, Heq by lia; done).
  rewrite hex_Encode_compare by (done || apply Heq; lia).
  destruct (bytes_compare (slice 4 6 b) _); [|done..].
  rewrite string_compare_app by done. rewrite (cmp_refl String.compare).
  rewrite string_compare_app by (rewrite !hex_Encode_length, Heq by lia; done).
  rewrite hex_Encode_compare by (done || apply Heq; lia). intros ->. done.
Qed.

Lemma minted_lt ms1 c1 r1 ms2 c2 r2 :
  ticked ms1 c1 -> ticked ms2 c2 -> length r1 = 8 -> length r2 = 8 ->
  (high ms1 c1 < high ms2 c2)%Z ->
  String.compare (formatUUID (fill ms1 c1 r1)) (formatUUID (fill ms2 c2 r2)) = Lt.
Proof.
  intros H1 H2 L1 L2 Hlt.
  destruct (fill_high ms1 c1 r1 H1 L1) as [E1 N1], (fill_high ms2 c2 r2 H2 L2) as [E2 N2].
  apply formatUUID_lt; [done..| | |]; rewrite ?E1, ?E2; try apply big_endian_bytes.
  assert (Hb : forall ms c, ticked ms c -> (0 <= high ms c < 256 ^ Z.of_nat 8)%Z).
  { intros ms c [? ?]. unfold high, uuidV7CounterMax in *.
    change (256 ^ Z.of_nat 8)%Z with (2 ^ 64)%Z. lia. }
  rewrite bytes_compare_big_endian by (by apply Hb). by apply Z.compare_lt_iff.
Qed.

(** ** Runs of the generator *)

Definition last_high (g : UUIDv7Generator.t) : Z :=
  high (UUIDv7Generator.lastMS g) (UUIDv7Generator.counter g).

(** A generator that can mint [n] more identifiers before the forty-eight bits
    of the time run out. *)
Definition roomy (n : nat) (g : UUIDv7Generator.t) : Prop :=
  (0 <= UUIDv7Generator.lastMS g /\ UUIDv7Generator.lastMS g + Z.of_nat n < 2 ^ 48 /\
   0 <= UUIDv7Generator.counter g <= uuidV7CounterMax)%Z.

(** A reading of a clock before the year 10889, with a whole number of random
    bytes if any. *)
Definition sane (n : nat) (r : reading) : Prop :=
  (observed r + Z.of_nat n < 2 ^ 48)%Z /\
  forall bytes, random r = Ok bytes -> length bytes = 8.

Lemma tick_advances n o g ms c g' :
  roomy (S n) g -> (o + Z.of_nat (S n) < 2 ^ 48)%Z -> tick o g = (ms, c, g') ->
  ticked ms c /\ roomy n g' /\ (last_high g < high ms c)%Z /\ last_high g' = high ms c.
Proof.
  unfold roomy, ticked, last_high, high, tick, uuidV7CounterMax. intros (? & ? & ?) Ho.
  destruct (decide _); [|destruct (decide _)]; cbn; intros [= <- <- <-]; cbn.
  - lia.
  - lia.
  - rewrite wrap64_small by (unfold max_int64; lia). lia.
Qed.

(** Minted after everything up to [h]. *)
Definition minted_after (h : Z) (id : string) : Prop :=
  exists ms c r, ticked ms c /\ length r = 8 /\ id = formatUUID (fill ms c r) /\
    (h < high ms c)%Z.
Definition minted_by (h : Z) (id : string) : Prop :=
  exists ms c r, ticked ms c /\ length r = 8 /\ id = formatUUID (fill ms c r) /\
    (high ms c <= h)%Z.

Lemma minted_order h a b : minted_by h a -> minted_after h b -> String.compare a b = Lt.
Proof.
  intros (? & ? & ? & ? & ? & -> & ?) (? & ? & ? & ? & ? & -> & ?). apply minted_lt; (done || lia).
Qed.

Lemma mint_step n r g id g' :
  roomy (S n) g -> sane (S n) r -> mint r g = (Ok id, g') ->
  minted_after (last_high g) id /\ minted_by (last_high g') id /\
  roomy n g' /\ (last_high g < last_high g')%Z.
Proof.
  intros Hg [Ho Hr]. unfold mint. destruct (random r) as [bytes|]; [|done].
  destruct (tick (observed r) g) as [[ms c] g1] eqn:Et. intros [= <- <-].
  destruct (tick_advances n _ _ _ _ _ Hg Ho Et) as (? & ? & ? & Hh).
  split_and!; [|exists ms, c, bytes; rewrite Hh|done|lia].
  - exists ms, c, bytes. auto.
  - split_and!; auto. lia.
Qed.

Lemma mint_err r g e g' : mint r g = (Err e, g') -> g' = g.
Proof.
  unfold mint. destruct (random r); [|by intros [= _ <-]].
  by destruct (tick _ _) as [[? ?] ?].
Qed.

Lemma roomy_less n g : roomy (S n) g -> roomy n g.
Proof. unfold roomy. lia. Qed.
Lemma sane_less n r : sane (S n) r -> sane n r.
Proof. intros [? ?]. split; [lia|done]. Qed.

Lemma minted_by_later h h' id : (h <= h')%Z -> minted_by h id -> minted_by h' id.
Proof. intros ? (ms & c & r & ? & ? & ? & ?). exists ms, c, r. split_and!; [done..|lia]. Qed.

(** The identifiers of a sequence of calls. *)
Fixpoint mint_all (rs : list reading) (g : UUIDv7Generator.t) : list string :=
  match rs with
  | [] => []
  | r :: rs =>
      match mint r g with
      | (Ok id, g') => id :: mint_all rs g'
      | (Err _, g') => mint_all rs g'
      end
  end.

Lemma mint_all_after rs g :
  roomy (length rs) g -> Forall (sane (length rs)) rs ->
  Forall (minted_after (last_high g)) (mint_all rs g).
Proof.
  revert g; induction rs as [|r rs IH]; intros g Hg Hs; [constructor|]. cbn [length mint_all] in *.
  apply Forall_cons in Hs as [Hr Hs].
  assert (Hs' : Forall (sane (length rs)) rs) by (eapply Forall_impl; [exact Hs|]; apply sane_less).
  destruct (mint r g) as [[id|e] g'] eqn:Em.
  - destruct (mint_step _ _ _ _ _ Hg Hr Em) as (? & _ & ? & Hlt). constructor; [done|].
    eapply Forall_impl; [by apply IH|]. cbn.
    intros id' (ms & c & r' & ? & ? & ? & ?). exists ms, c, r'. split_and!; [done..|lia].
  - apply mint_err in Em as ->. apply IH; [by apply roomy_less|done].
Qed.

(** * Properties *)

(** C22: Identifiers sort in the order they were minted, strictly, whatever the
    clock does: one that stands still uses the sub-millisecond counter, one that
    runs backwards is ignored, and an exhausted counter borrows from the next
    millisecond.  So the identifiers of one generator are distinct, and ordering
    tasks by identifier is ordering them by creation. *)
Theorem ids_strictly_increasing rs g :
  roomy (length rs) g -> Forall (sane (length rs)) rs ->
  StronglySorted (fun a b => String.compare a b = Lt) (mint_all rs g) /\
  NoDup (mint_all rs g).
Proof.
  intros Hg Hs.
  assert (Hsorted : StronglySorted (fun a b => String.compare a b = Lt) (mint_all rs g)).
  { revert g Hg Hs; induction rs as [|r rs IH]; intros g Hg Hs; [constructor|].
    cbn [length mint_all] in *. apply Forall_cons in Hs as [Hr Hs].
    assert (Hs' : Forall (sane (length rs)) rs)
      by (eapply Forall_impl; [exact Hs|]; apply sane_less).
    destruct (mint r g) as [[id|e] g'] eqn:Em.
    - destruct (mint_step _ _ _ _ _ Hg Hr Em) as (_ & ? & ? & _). constructor; [by apply IH|].
      eapply Forall_impl; [by apply mint_all_after|]. intros id'. by apply minted_order.
    - apply mint_err in Em as ->. apply IH; [by apply roomy_less|done]. }
  split; [done|]. clear Hg Hs. induction Hsorted as [|x l _ IH Hx]; constructor; [|done].
  intros Hin. rewrite Forall_forall in Hx. specialize (Hx x Hin).
  by rewrite (cmp_refl String.compare) in Hx.
Qed.

(** The default generator keeps the port's promise to the engine: as long as
    its forty-eight bit clock has room, the identifiers it will mint are new,
    none among those it minted before and none twice. *)
Theorem uuid_generator_fresh n s used :
  roomy n (generator s) -> (forall k, sane n (readings s k)) ->
  Forall (minted_by (last_high (generator s))) used ->
  fresh n s used.
Proof.
  revert s used; induction n as [|n IH]; intros [g rs k] used Hg Hs Hu; [done|]. cbn in *.
  assert (Hs' : forall k, sane n (rs k)) by (intros; by apply sane_less).
  destruct (mint (rs k) g) as [[id|e] g'] eqn:Em.
  - destruct (mint_step _ _ _ _ _ Hg (Hs k) Em) as (Ha & Hb & Hg' & Hlt). split.
    + intros Hin. rewrite Forall_forall in Hu.
      pose proof (minted_order _ _ _ (Hu id Hin) Ha) as H.
      by rewrite (cmp_refl String.compare) in H.
    + apply IH; [done..|]. constructor; [done|].
      eapply Forall_impl; [exact Hu|]. cbn. intros id'. apply minted_by_later. lia.
  - apply mint_err in Em as ->. apply IH; [by apply roomy_less|done..].
Qed.

(** An identifier is a canonical version 7 UUID: thirty-six characters, the
    hyphens in their places, the version nibble 7, and the variant nibble one of
    8, 9, a and b. *)
Theorem uuid_canonical ms counter random id :
  ticked ms counter -> length random = 8 -> Forall is_byte random ->
  id = formatUUID (fill ms counter random) ->
  String.length id = 36 /\
  (forall i, i ∈ [8; 13; 18; 23] -> String.get i id = Some "-"%char) /\
  String.get 14 id = Some "7"%char /\
  (exists c, String.get 19 id = Some c /\ c ∈ ["8"; "9"; "a"; "b"]%char).
Proof.
  intros Ht Hr Hb ->. destruct Ht as [Hms Hc].
  assert (Hv : Z.shiftr (Z.lor 0x70 (Z.land (Z.land (Z.shiftr counter 8) 0x0F) 255)) 4 = 7%Z).
  { rewrite version_byte by done. unfold uuidV7CounterMax in Hc.
    rewrite Z.shiftr_div_pow2 by lia. change (2 ^ 4)%Z with 16%Z.
    assert (0 <= counter / 256 < 16)%Z
      by (split; [apply Z.div_pos; lia|apply Z.div_lt_upper_bound; lia]).
    symmetry. apply (Z.div_unique _ 16 7 (counter / 256)); lia. }
  assert (Hvar : forall b, is_byte b ->
    hex_char (Z.shiftr (Z.lor (Z.land b 0x3F) 0x80) 4) ∈ ["8"; "9"; "a"; "b"]%char).
  { intros b Hb'. assert (H : forallb (fun n =>
        bool_decide (hex_char (Z.shiftr (Z.lor (Z.land (Z.of_nat n) 0x3F) 0x80) 4)
                     ∈ ["8"; "9"; "a"; "b"]%char)) (seq 0 256) = true) by (vm_compute; reflexivity).
    rewrite forallb_forall in H. specialize (H (Z.to_nat b)).
    rewrite Z2Nat.id in H by (destruct Hb'; lia).
    apply (bool_decide_eq_true_1 _). apply H, in_seq. destruct Hb'; lia. }
  do 8 (destruct random as [|? random]; [done|]). destruct random; [|done].
  apply Forall_cons in Hb as [Hb0 _].
  unfold fill, PutUint64, set_byte. cbn [fmap list_fmap app nth].
  cbn -[Z.lor Z.land Z.shiftr Z.shiftl hex_char].
  split_and!.
  - done.
  - intros i Hi. repeat (apply elem_of_cons in Hi as [->|Hi]; [done|]).
    by apply not_elem_of_nil in Hi.
  - transitivity (Some (hex_char 7)); [rewrite <- Hv|]; reflexivity.
  - eexists. split; [reflexivity|]. by apply Hvar.
Qed.

(** * Witnesses *)

Module IdentExamples.
(** A clock that stands still, then runs backwards. *)
Definition stuck : list reading :=
  [mk_reading 1700000000000 (Ok [1;2;3;4;5;6;7;8]%Z);
   mk_reading 1700000000000 (Ok [9;2;3;4;5;6;7;8]%Z);
   mk_reading 1600000000000 (Ok [0;2;3;4;5;6;7;255]%Z)].
Definition source : UUIDSource :=
  mk_source UUIDv7Generator.zero
    (fun k => nth k stuck (mk_reading 1700000000001 (Ok [0;0;0;0;0;0;0;0]%Z))) 0.
End IdentExamples.
Import IdentExamples.

Example mint_demo :
  mint_all stuck UUIDv7Generator.zero =
  ["018bcfe5-6800-7000-8102-030405060708"; "018bcfe5-6800-7001-8902-030405060708";
   "018bcfe5-6800-7002-8002-0304050607ff"].
Proof. vm_compute. reflexivity. Qed.

Lemma stuck_sane n : (Z.of_nat n <= 1000)%Z -> forall k, sane n (readings source k).
Proof.
  intros Hn k. cbn. do 3 (destruct k as [|k]; [split; [cbn; lia|by intros ? [= <-]]|]).
  destruct k; (split; [cbn; lia|by intros ? [= <-]]).
Qed.

Lemma ids_strictly_increasing_witness : NoDup (mint_all stuck UUIDv7Generator.zero).
Proof.
  apply (ids_strictly_increasing stuck UUIDv7Generator.zero).
  - split_and!; vm_compute; (discriminate || reflexivity).
  - repeat constructor; try (by intros ? [= <-]).
Defined.

Lemma uuid_generator_fresh_witness : fresh 5 source [].
Proof.
  apply uuid_generator_fresh.
  - split_and!; vm_compute; (discriminate || reflexivity).
  - apply stuck_sane. lia.
  - constructor.
Defined.

Lemma uuid_canonical_witness :
  String.get 14 "018bcfe5-6800-7000-8102-030405060708" = Some "7"%char.
Proof.
  apply (uuid_canonical 1700000000000 0 [1;2;3;4;5;6;7;8]%Z).
  - split; vm_compute; split; (discriminate || reflexivity).
  - reflexivity.
  - repeat constructor; vm_compute; (discriminate || reflexivity).
  - vm_compute. reflexivity.
Defined.
