(* ===== verification/Schema.v ===== *)
(** * Schema: the shape-only form of an input schema

    Models the schema rewriting of [schema.go]: [relaxSchema], [relaxSchemaMap]
    and [relaxSchemaArray], over JSON values as [encoding/json] decodes them into
    [any] (an object is its fields, each name once, in some order; a number is
    its text).  Compiling and evaluating a schema is the work of a third-party
    validator, a parameter of [Registry.v]. *)

From S2P Require Import Prelude.

Inductive json : Type :=
| JNull
| JBool (b : bool)
| JNumber (text : string)
| JString (s : string)
| JArray (items : list json)
| JObject (fields : list (string * json)).

Definition schemaKeywordsWithSchemaValues : list string :=
  ["additionalItems"; "additionalProperties"; "contains"; "contentSchema";
   "else"; "if"; "items"; "not"; "propertyNames"; "then";
   "unevaluatedItems"; "unevaluatedProperties"].

Definition schemaKeywordsWithSchemaMaps : list string :=
  ["$defs"; "definitions"; "dependentSchemas"; "patternProperties"; "properties"].

Definition schemaKeywordsWithSchemaArrays : list string :=
  ["allOf"; "anyOf"; "oneOf"; "prefixItems"].

Definition completenessKeywords : list string :=
  ["dependentRequired"; "minItems"; "minProperties"; "required"].

(** Which of the three functions a value is handed to; [Verbatim] for none. *)
Inductive position : Type := Schema | SchemaMap | SchemaArray | Verbatim.

Definition position_of (key : string) : position :=
  if contains schemaKeywordsWithSchemaValues key then Schema
  else if contains schemaKeywordsWithSchemaMaps key then SchemaMap
  else if contains schemaKeywordsWithSchemaArrays key then SchemaArray
  else Verbatim.

(** The three mutually recursive functions, told apart by the position. *)
Fixpoint relax (p : position) (node : json) : json :=
  match p, node with
  | Schema, JObject typed =>
      JObject
        ((fix loop (typed : list (string * json)) : list (string * json) :=
            match typed with
            | [] => []
            | (key, value) :: rest =>
                if contains completenessKeywords key then loop rest
                else (key, relax (position_of key) value) :: loop rest
            end) typed)
  | SchemaMap, JObject typed =>
      JObject
        ((fix loop (typed : list (string * json)) : list (string * json) :=
            match typed with
            | [] => []
            | (name, schema) :: rest => (name, relax Schema schema) :: loop rest
            end) typed)
  | SchemaArray, JArray typed =>
      JArray
        ((fix loop (typed : list json) : list json :=
            match typed with
            | [] => []
            | schema :: rest => relax Schema schema :: loop rest
            end) typed)
  | _, _ => node
  end.

Definition relaxSchema : json -> json := relax Schema.
Definition relaxSchemaMap : json -> json := relax SchemaMap.
Definition relaxSchemaArray : json -> json := relax SchemaArray.

(** * Lemmas *)

Definition relax_fields (fields : list (string * json)) : list (string * json) :=
  (fun kv => (kv.1, relax (position_of kv.1) kv.2)) <$>
    filter (fun kv => kv.1 ∉ completenessKeywords) fields.

Lemma relax_object fields : relax Schema (JObject fields) = JObject (relax_fields fields).
Proof.
  cbn. f_equal. unfold relax_fields. induction fields as [|[k v] fields IH]; [done|].
  rewrite filter_cons. cbn [fst].
  destruct (contains completenessKeywords k) eqn:E.
  - apply contains_true in E. by rewrite decide_False by naive_solver.
  - apply contains_false in E. rewrite decide_True by done. cbn. by rewrite IH.
Qed.

Lemma relax_map fields :
  relax SchemaMap (JObject fields) = JObject (prod_map id (relax Schema) <$> fields).
Proof. cbn. f_equal. induction fields as [|[k v] fields IH]; [done|]. cbn. by rewrite IH. Qed.

Lemma relax_array items : relax SchemaArray (JArray items) = JArray (relax Schema <$> items).
Proof. done. Qed.

Lemma relax_verbatim node : relax Verbatim node = node.
Proof. by destruct node. Qed.

(** Induction on JSON values that reaches the items and the fields. *)
Lemma json_ind' (P : json -> Prop)
    (Hnull : P JNull) (Hbool : forall b, P (JBool b)) (Hnum : forall t, P (JNumber t))
    (Hstr : forall s, P (JString s))
    (Harr : forall items, Forall P items -> P (JArray items))
    (Hobj : forall fields, Forall (fun kv => P kv.2) fields -> P (JObject fields)) :
  forall node, P node.
Proof.
  fix IH 1. intros [|b|t|s|items|fields]; [done|done|done|done| |].
  - apply Harr. induction items; constructor; [apply IH|done].
  - apply Hobj. induction fields as [|[k v] fields]; constructor; [apply IH|done].
Qed.

(** No completeness keyword is left in any schema of a document. *)
Inductive lenient : position -> json -> Prop :=
| lenient_verbatim node : lenient Verbatim node
| lenient_schema fields :
    (forall k v, (k, v) ∈ fields ->
       k ∉ completenessKeywords /\ lenient (position_of k) v) ->
    lenient Schema (JObject fields)
| lenient_map fields :
    (forall k v, (k, v) ∈ fields -> lenient Schema v) -> lenient SchemaMap (JObject fields)
| lenient_array items :
    (forall v, v ∈ items -> lenient Schema v) -> lenient SchemaArray (JArray items)
| lenient_other p node :
    match p, node with
    | (Schema | SchemaMap), JObject _ | SchemaArray, JArray _ => False
    | _, _ => True
    end -> lenient p node.

(** * Properties *)

(** Relaxing a schema removes every completeness requirement at every depth
    at which a schema stands, and only there: the relaxed document holds none;
    relaxing it again changes nothing; a document that held none is returned
    unchanged; and a property that merely is called like a requirement keeps its
    place and its (relaxed) schema. *)
Theorem relax_removes_completeness p node :
  lenient p (relax p node) /\
  (lenient p node -> relax p node = node) /\
  relax p (relax p node) = relax p node /\
  (forall properties name schema,
     (name, schema) ∈ properties ->
     exists properties', relaxSchema (JObject [("properties", JObject properties)]) =
       JObject [("properties", JObject properties')] /\
       (name, relaxSchema schema) ∈ properties').
Proof.
  assert (Hlen : forall node p, lenient p (relax p node)).
  { clear. induction node as [| | | |items IH|fields IH] using json_ind'; intros p;
      try (destruct p; constructor; done).
    - destruct p; try (constructor; done). rewrite relax_array. constructor.
      intros v (w & -> & Hw)%list_elem_of_fmap. rewrite Forall_forall in IH. by apply IH.
    - rewrite Forall_forall in IH. destruct p; try (constructor; done).
      + rewrite relax_object. constructor.
        intros k v ([k' w] & [= -> ->] & [Hk Hw]%list_elem_of_filter)%list_elem_of_fmap.
        split; [done|]. apply (IH _ Hw).
      + rewrite relax_map. constructor.
        intros k v ([k' w] & [= -> ->] & Hw)%list_elem_of_fmap. apply (IH _ Hw). }
  assert (Hid : forall node p, lenient p node -> relax p node = node).
  { clear. induction node as [| | | |items IH|fields IH] using json_ind'; intros p Hl;
      try (by destruct p).
    - destruct p; try done. rewrite relax_array. f_equal.
      inversion Hl as [| | |? Hi|? ? Hf]; subst; [|done].
      rewrite Forall_forall in IH. rewrite <- (list_fmap_id items) at 2.
      apply list_fmap_ext. intros i v Hv%list_elem_of_lookup_2. by apply IH, Hi.
    - rewrite Forall_forall in IH. destruct p; try done.
      + rewrite relax_object. f_equal. inversion Hl as [|? Hi| | |? ? Hf]; subst; [|done].
        unfold relax_fields. rewrite filter_all by (intros [k v] Hin; by apply (Hi k v Hin)).
        rewrite <- (list_fmap_id fields) at 2.
        apply list_fmap_ext. intros i [k v] Hv%list_elem_of_lookup_2. cbn. f_equal.
        apply (IH (k, v) Hv). by apply Hi.
      + rewrite relax_map. f_equal. inversion Hl as [| |? Hi| |? ? Hf]; subst; [|done].
        rewrite <- (list_fmap_id fields) at 2.
        apply list_fmap_ext. intros i [k v] Hv%list_elem_of_lookup_2. cbn. f_equal.
        apply (IH (k, v) Hv). by eapply Hi. }
  split_and!; [apply Hlen|apply Hid|apply Hid, Hlen|].
  intros properties name schema Hin. exists (prod_map id (relax Schema) <$> properties).
  unfold relaxSchema. rewrite relax_object. unfold relax_fields.
  rewrite filter_cons_True by (cbn; set_solver). cbn -[relax].
  change (position_of "properties") with SchemaMap. rewrite relax_map. split; [done|].
  by apply (list_elem_of_fmap_2 (prod_map id (relax Schema)) _ (name, schema)).
Qed.

(** C24: Relaxing does not only drop requirements: under [not] it adds one.  A
    schema that forbids some fields from being present together relaxes to a
    negated empty schema, and whatever validator evaluates it, by the meaning of
    [not] and of the empty schema, no draft at all is accepted, complete and
    valid documents included. *)
Theorem relaxed_not_refuses_all (accepts : json -> json -> bool) names document :
  (forall s d, accepts (JObject [("not", s)]) d = negb (accepts s d)) ->
  (forall d, accepts (JObject []) d = true) ->
  accepts (relaxSchema (JObject [("not", JObject [("required", JArray names)])])) document = false /\
  (accepts (JObject [("required", JArray names)]) document = false ->
   accepts (JObject [("not", JObject [("required", JArray names)])]) document = true).
Proof.
  intros Hnot Hempty.
  change (relaxSchema (JObject [("not", JObject [("required", JArray names)])]))
    with (JObject [("not", JObject [])]).
  rewrite !Hnot, Hempty. split; [done|]. by intros ->.
Qed.

(** * Witnesses *)

Module SchemaExamples.
Fixpoint member (name : string) (fields : list (string * json)) : bool :=
  match fields with
  | [] => false
  | (k, _) :: rest => bool_decide (k = name) || member name rest
  end.

(** A validator for the two keywords. *)
Fixpoint accepts (schema : json) (document : json) : bool :=
  match schema with
  | JObject [("not", s)] => negb (accepts s document)
  | JObject [("required", JArray names)] =>
      match document with
      | JObject fields =>
          forallb (fun n => match n with JString name => member name fields | _ => true end) names
      | _ => true
      end
  | _ => true
  end.
End SchemaExamples.
Import SchemaExamples.

Lemma relaxed_not_refuses_all_witness :
  accepts (relaxSchema (JObject [("not", JObject [("required", JArray [JString "a"])])]))
    (JObject [("b", JNull)]) = false /\
  accepts (JObject [("not", JObject [("required", JArray [JString "a"])])])
    (JObject [("b", JNull)]) = true.
Proof.
  destruct (relaxed_not_refuses_all accepts [JString "a"] (JObject [("b", JNull)])) as [H1 H2];
    [reflexivity|reflexivity|].
  split; [exact H1|apply H2; reflexivity].
Defined.
