(* ===== verification/Registry.v ===== *)
(** * Registry: task types, and the tasks made from them

    Models [registry.go] and [create.go]: the type specification, its
    registration, the validators a registered type carries, and the construction
    of a new task from a request.

    The schema validator is third-party code behind the seam [schemaCompiler]; it
    and the JSON reader and writer are the fields of [Env], arguments of
    everything here.  A validator is a function of the subject and the document. *)

From S2P Require Import Prelude Domain Errors Event Lifecycle LifecycleFacts Schema.

(** ** Specifications *)

Module TypeSpec.
Record t : Type := mk {
  Name : string;
  Title : string;
  Description : string;
  InputSchema : RawMessage;
  OutputSchema : RawMessage;
  DefaultPriority : Z;
  DefaultDeadline : Z;
  DefaultEscalation : option EscalationPolicy.t;
  DefaultAssignment : CandidatePool.t;
  Metadata : gmap string string
}.
#[global] Instance eta : Eta t := fun x =>
  mk (Name x) (Title x) (Description x) (InputSchema x) (OutputSchema x)
    (DefaultPriority x) (DefaultDeadline x) (DefaultEscalation x) (DefaultAssignment x)
    (Metadata x).

Definition Clone (s : t) : t :=
  let out := s in
  let out := out <| InputSchema := cloneRaw (InputSchema s) |> in
  let out := out <| OutputSchema := cloneRaw (OutputSchema s) |> in
  let out := out <| DefaultEscalation := EscalationPolicy.Clone (DefaultEscalation s) |> in
  out <| DefaultAssignment := CandidatePool.Clone (DefaultAssignment s) |>.
End TypeSpec.

Definition validator : Type := string -> RawMessage -> res unit.

(** The code the registry calls: [schemaCompiler.Compile], [json.Unmarshal] into
    [any], and [json.Marshal] of such a value; the errors of the last two are
    their texts. *)
Module Env.
Record t : Type := mk {
  Compile : string -> RawMessage -> res validator;
  Unmarshal : string -> result string json;
  Marshal : json -> result string string
}.
End Env.

(** [len(bytes.TrimSpace(raw)) == 0], on the white space of ASCII. *)
Definition is_space (c : Ascii.ascii) : bool :=
  let n := Ascii.nat_of_ascii c in bool_decide (n ∈ [9; 10; 11; 12; 13; 32]).

Fixpoint all_space (s : string) : bool :=
  match s with
  | EmptyString => true
  | String c s' => is_space c && all_space s'
  end.

Definition blank (raw : RawMessage) : bool :=
  match raw with None => true | Some s => all_space s end.

Definition bytes_of (raw : RawMessage) : string := default "" raw.

Definition permissiveSchema : validator := fun _ _ => Ok tt.

(** ** The registry *)

Module registeredType.
Record t : Type := mk {
  spec : TypeSpec.t; input : validator; shape : validator; output : validator
}.
End registeredType.

Abbreviation Registry := (gmap string registeredType.t) (only parsing).
Definition NewRegistry : Registry := ∅.

Section registry.
Context (env : Env.t).

(** [canonicalJSON]: the text, or the failure to read it. *)
Definition canonicalJSON (raw : RawMessage) : option string :=
  if blank raw then Some ""
  else
    match Env.Unmarshal env (bytes_of raw) with
    | Err _ => None
    | Ok parsed =>
        match Env.Marshal env parsed with Ok out => Some out | Err _ => None end
    end.

Definition equalJSON (a b : RawMessage) : bool :=
  match canonicalJSON a, canonicalJSON b with
  | Some left_, Some right_ => bool_decide (left_ = right_)
  | _, _ => bool_decide (bytes_of a = bytes_of b)
  end.

Definition Equal (s other : TypeSpec.t) : bool :=
  if bool_decide (TypeSpec.Name s <> TypeSpec.Name other) ||
     bool_decide (TypeSpec.Title s <> TypeSpec.Title other) ||
     bool_decide (TypeSpec.Description s <> TypeSpec.Description other) ||
     bool_decide (TypeSpec.DefaultPriority s <> TypeSpec.DefaultPriority other) ||
     bool_decide (TypeSpec.DefaultDeadline s <> TypeSpec.DefaultDeadline other) ||
     negb (EscalationPolicy.Equal (TypeSpec.DefaultEscalation s) (TypeSpec.DefaultEscalation other)) ||
     negb (CandidatePool.Equal (TypeSpec.DefaultAssignment s) (TypeSpec.DefaultAssignment other)) ||
     negb (bool_decide (TypeSpec.Metadata s = TypeSpec.Metadata other))
  then false
  else equalJSON (TypeSpec.InputSchema s) (TypeSpec.InputSchema other) &&
       equalJSON (TypeSpec.OutputSchema s) (TypeSpec.OutputSchema other).

Definition task_type (name : string) : string := "task type " +:+ quote name.

Definition compileRelaxed (name : string) (document : RawMessage) : res validator :=
  if blank document then Ok permissiveSchema
  else
    match Env.Unmarshal env (bytes_of document) with
    | Err err =>
        Err (ConfigurationError (task_type name +:+ " has an invalid input schema: " +:+ err))
    | Ok parsed =>
        match Env.Marshal env (relaxSchema parsed) with
        | Err err =>
            Err (ConfigurationError
              (task_type name +:+ ": cannot derive a shape-only input schema: " +:+ err))
        | Ok relaxed =>
            match Env.Compile env (name +:+ ".input.shape") (Some relaxed) with
            | Err err =>
                Err (ConfigurationError
                  (task_type name +:+ ": cannot compile the shape-only input schema: " +:+ Error err))
            | Ok v => Ok v
            end
        end
    end.

Definition compile (spec : TypeSpec.t) : res registeredType.t :=
  let name := TypeSpec.Name spec in
  match Env.Compile env (name +:+ ".input") (TypeSpec.InputSchema spec) with
  | Err err =>
      Err (ConfigurationError (task_type name +:+ " has an invalid input schema: " +:+ Error err))
  | Ok input =>
      try! shape := compileRelaxed name (TypeSpec.InputSchema spec) in
      match Env.Compile env (name +:+ ".output") (TypeSpec.OutputSchema spec) with
      | Err err =>
          Err (ConfigurationError (task_type name +:+ " has an invalid output schema: " +:+ Error err))
      | Ok output => Ok (registeredType.mk spec input shape output)
      end
  end.

Definition Register (spec : TypeSpec.t) : SM Registry error unit := fun types =>
  let name := TypeSpec.Name spec in
  if decide (name = "")
  then (Err (ConfigurationError "task type name must not be empty"), types)
  else if negb (Priority_Valid (TypeSpec.DefaultPriority spec))
  then (Err (ConfigurationError
         (task_type name +:+ ": default priority " +:+ pretty (TypeSpec.DefaultPriority spec) +:+
          " is outside the range " +:+ pretty PriorityHighest +:+ ".." +:+ pretty PriorityLowest)),
        types)
  else if decide (TypeSpec.DefaultDeadline spec < 0)%Z
  then (Err (ConfigurationError
         (task_type name +:+ ": default deadline must not be negative")), types)
  else
    match compile (TypeSpec.Clone spec) with
    | Err err => (Err err, types)
    | Ok entry =>
        match types !! name with
        | Some existing =>
            if Equal (registeredType.spec existing) spec then (Ok tt, types)
            else (Err (ConfigurationError
                   (task_type name +:+ " is already registered with a different configuration")),
                  types)
        | None => (Ok tt, <[ name := entry ]> types)
        end
    end.
End registry.

Definition lookup (types : Registry) (name : string) : res registeredType.t :=
  match types !! name with
  | Some entry => Ok entry
  | None => Err (UnregisteredTypeError name)
  end.

Definition Lookup (types : Registry) (name : string) : res TypeSpec.t :=
  try! entry := lookup types name in
  Ok (TypeSpec.Clone (registeredType.spec entry)).

Definition Names (types : Registry) : list string := sort_strings ((map_to_list types).*1).

Definition Has (types : Registry) (name : string) : bool := bool_decide (is_Some (types !! name)).

Definition ValidateInput (types : Registry) (name : string) (payload : RawMessage) : res unit :=
  try! entry := lookup types name in
  registeredType.input entry "input" payload.

Definition ValidateShape (types : Registry) (name : string) (payload : RawMessage) : res unit :=
  try! entry := lookup types name in
  registeredType.shape entry "progress" payload.

Definition ValidateOutput (types : Registry) (name : string) (payload : RawMessage) : res unit :=
  try! entry := lookup types name in
  registeredType.output entry "output" payload.

(** ** New tasks *)

Module CreateRequest.
Record t : Type := mk {
  Type_ : string;
  Actor : string;
  ID : string;
  Input : RawMessage;
  Priority : option Z;
  DueAt : option Time;
  Deadline : option Z;
  Candidates : option CandidatePool.t;
  Escalation : option EscalationPolicy.t;
  Correlation : CorrelationData.t;
  Callback : option CallbackTarget.t
}.
End CreateRequest.

Definition resolveDueAt (spec : TypeSpec.t) (req : CreateRequest.t) (createdAt : Time)
  : option Time :=
  match CreateRequest.DueAt req with
  | Some _ => normalizeTimePtr (CreateRequest.DueAt req)
  | None =>
      match CreateRequest.Deadline req with
      | Some deadline =>
          if decide (0 < deadline)%Z then timePtr (createdAt + deadline)%Z
          else if decide (0 < TypeSpec.DefaultDeadline spec)%Z
          then timePtr (createdAt + TypeSpec.DefaultDeadline spec)%Z else None
      | None =>
          if decide (0 < TypeSpec.DefaultDeadline spec)%Z
          then timePtr (createdAt + TypeSpec.DefaultDeadline spec)%Z else None
      end
  end.

Definition NewTask (s : TypeSpec.t) (id : string) (req : CreateRequest.t) (now : Time) : Task.t :=
  let at_ := NormalizeTime now in
  let task := {|
    Task.ID := id; Task.Type_ := TypeSpec.Name s; Task.Version := 0;
    Task.Status := StatusCreated; Task.SuspendedFrom := StatusNone;
    Task.Priority := TypeSpec.DefaultPriority s; Task.Assignee := "";
    Task.Candidates := CandidatePool.Clone (TypeSpec.DefaultAssignment s);
    Task.Correlation := CorrelationData.Clone (CreateRequest.Correlation req);
    Task.Callback := None;
    Task.Escalation := EscalationPolicy.Clone (TypeSpec.DefaultEscalation s);
    Task.Input := cloneRaw (CreateRequest.Input req); Task.Progress := None;
    Task.Output := None; Task.Reason := ""; Task.CreatedBy := CreateRequest.Actor req;
    Task.EscalationCount := 0; Task.CreatedAt := at_; Task.UpdatedAt := at_;
    Task.DueAt := None; Task.StartedAt := None; Task.ClosedAt := None;
    Task.EscalatedAt := None; Task.LockedBy := ""; Task.LockedUntil := None |} in
  let task :=
    match CreateRequest.Priority req with
    | Some priority => task <| Task.Priority := priority |>
    | None => task
    end in
  let task :=
    match CreateRequest.Candidates req with
    | Some pool => task <| Task.Candidates := CandidatePool.Clone pool |>
    | None => task
    end in
  let task :=
    match CreateRequest.Escalation req with
    | Some _ => task <| Task.Escalation := EscalationPolicy.Clone (CreateRequest.Escalation req) |>
    | None => task
    end in
  let task :=
    match CreateRequest.Callback req with
    | Some callback => task <| Task.Callback := Some (CallbackTarget.Clone callback) |>
    | None => task
    end in
  task <| Task.DueAt := resolveDueAt s req at_ |>.

(** * Lemmas *)

Lemma TypeSpec_Clone_id s : TypeSpec.Clone s = s.
Proof.
  destruct s. unfold TypeSpec.Clone; cbn.
  by rewrite !cloneRaw_id, Pool_Clone_id, Policy_Clone_id.
Qed.

Lemma Equal_refl env s : Equal env s s = true.
Proof.
  assert (HJ : forall raw, equalJSON env raw raw = true).
  { intros raw. unfold equalJSON. destruct (canonicalJSON env raw); by apply bool_decide_true. }
  assert (HE : EscalationPolicy.Equal (TypeSpec.DefaultEscalation s) (TypeSpec.DefaultEscalation s) = true)
    by (unfold EscalationPolicy.Equal; case_match; [by rewrite !bool_decide_true|done]).
  assert (HP : CandidatePool.Equal (TypeSpec.DefaultAssignment s) (TypeSpec.DefaultAssignment s) = true)
    by (unfold CandidatePool.Equal; by rewrite !bool_decide_true).
  unfold Equal. rewrite HE, HP, !HJ, !(bool_decide_false (_ <> _)), bool_decide_true by naive_solver.
  done.
Qed.

Lemma compile_spec env spec entry : compile env spec = Ok entry -> registeredType.spec entry = spec.
Proof.
  unfold compile. destruct (Env.Compile _ _ _); [|done].
  intros (? & _ & H)%rbind_ok. destruct (Env.Compile _ _ _); [|done]. by injection H as <-.
Qed.

Lemma compile_err env spec e : compile env spec = Err e -> errors_Is e ErrConfiguration = true.
Proof.
  unfold compile, compileRelaxed.
  destruct (Env.Compile _ _ (TypeSpec.InputSchema spec)); [|by intros [= <-]].
  intros [H|(? & _ & H)]%rbind_err.
  - destruct (blank _); [done|]. destruct (Env.Unmarshal _ _); [|by injection H as <-].
    destruct (Env.Marshal _ _); [|by injection H as <-].
    destruct (Env.Compile _ _ _); [done|by injection H as <-].
  - destruct (Env.Compile _ _ _); [done|by injection H as <-].
Qed.

(** What a specification must be for its name to be looked at. *)
Definition registrable (env : Env.t) (spec : TypeSpec.t) (entry : registeredType.t) : Prop :=
  TypeSpec.Name spec <> "" /\ Priority_Valid (TypeSpec.DefaultPriority spec) = true /\
  (0 <= TypeSpec.DefaultDeadline spec)%Z /\ compile env spec = Ok entry.

Lemma Register_cases env spec :
  (exists e, (forall types', Register env spec types' = (Err e, types')) /\
     errors_Is e ErrConfiguration = true) \/
  (exists entry, registrable env spec entry /\
     forall types', Register env spec types' =
       match types' !! TypeSpec.Name spec with
       | Some existing =>
           if Equal env (registeredType.spec existing) spec then (Ok tt, types')
           else (Err (ConfigurationError (task_type (TypeSpec.Name spec) +:+
                  " is already registered with a different configuration")), types')
       | None => (Ok tt, <[ TypeSpec.Name spec := entry ]> types')
       end).
Proof.
  unfold Register, registrable. rewrite TypeSpec_Clone_id.
  destruct (decide (TypeSpec.Name spec = "")); [left; eauto|].
  destruct (Priority_Valid _); cbn [negb]; [|left; eauto].
  destruct (decide (TypeSpec.DefaultDeadline spec < 0)%Z); [left; eauto|].
  destruct (compile env spec) as [entry|e] eqn:Ec; [|left; eauto using compile_err].
  right. exists entry. split_and!; [done|done|lia|done|done].
Qed.

Lemma new_task_priority spec id req now :
  Task.Priority (NewTask spec id req now) =
  default (TypeSpec.DefaultPriority spec) (CreateRequest.Priority req).
Proof.
  unfold NewTask; cbv zeta.
  by destruct (CreateRequest.Priority req), (CreateRequest.Candidates req),
    (CreateRequest.Escalation req), (CreateRequest.Callback req).
Qed.

(** * Properties *)

(** Registering a type either fails as a configuration error and changes
    nothing, or leaves exactly that name registered with a specification equal to
    the one given, the very one when the name was new, and every other name as it
    was; registering it again then succeeds and changes nothing, and registering
    anything under the name that differs from it is refused. *)
Theorem register_outcome env spec types :
  let '(r, types') := Register env spec types in
  match r with
  | Err e => types' = types /\ errors_Is e ErrConfiguration = true
  | Ok _ =>
      (exists found, Lookup types' (TypeSpec.Name spec) = Ok found /\
         Equal env found spec = true /\
         (Has types (TypeSpec.Name spec) = false -> found = spec)) /\
      (forall name, name <> TypeSpec.Name spec -> types' !! name = types !! name) /\
      Register env spec types' = (Ok tt, types') /\
      (forall other found, TypeSpec.Name other = TypeSpec.Name spec ->
         Lookup types' (TypeSpec.Name spec) = Ok found -> Equal env found other = false ->
         exists e, Register env other types' = (Err e, types') /\
           errors_Is e ErrConfiguration = true)
  end.
Proof.
  destruct (Register_cases env spec) as [(e & -> & He)|(entry & (_ & _ & _ & Hc) & HR)]; [done|].
  pose proof (compile_spec _ _ _ Hc) as Hs.
  assert (Hrefused : forall other types' found, TypeSpec.Name other = TypeSpec.Name spec ->
    Lookup types' (TypeSpec.Name spec) = Ok found -> Equal env found other = false ->
    exists e, Register env other types' = (Err e, types') /\ errors_Is e ErrConfiguration = true).
  { intros other types' found Hn (entry' & Hl & [= <-])%rbind_ok Hne. unfold lookup in Hl.
    rewrite TypeSpec_Clone_id in Hne.
    destruct (Register_cases env other) as [(e & -> & He)|(? & _ & ->)]; [eauto|].
    rewrite Hn. destruct (types' !! TypeSpec.Name spec); [|done]. injection Hl as Hl. subst.
    rewrite Hne. eauto. }
  rewrite (HR types). unfold Lookup, lookup, Has.
  destruct (types !! TypeSpec.Name spec) as [existing|] eqn:El.
  - destruct (Equal env (registeredType.spec existing) spec) eqn:Eq; [|done].
    rewrite El. split_and!; [|done|by rewrite HR, El, Eq|].
    + exists (registeredType.spec existing). cbn. by rewrite TypeSpec_Clone_id.
    + intros other found Hn. specialize (Hrefused other types found Hn).
      unfold Lookup, lookup in Hrefused. by rewrite El in Hrefused.
  - cbv beta iota. split_and!.
    + exists spec. rewrite lookup_insert_eq. cbn. rewrite Hs, TypeSpec_Clone_id.
      split_and!; [done|apply Equal_refl|done].
    + intros name Hn. by rewrite lookup_insert_ne.
    + by rewrite HR, lookup_insert_eq, Hs, Equal_refl.
    + intros other found. apply Hrefused.
Qed.

(** An unregistered name is refused the same way everywhere, as an error that
    is both "unregistered type" and "validation"; the registered names are listed
    once each, sorted. *)
Theorem registry_names types name :
  (Has types name = false ->
     forall payload, exists e,
       Lookup types name = Err e /\ ValidateInput types name payload = Err e /\
       ValidateShape types name payload = Err e /\ ValidateOutput types name payload = Err e /\
       errors_Is e ErrUnregisteredType = true /\ errors_Is e ErrValidation = true) /\
  (name ∈ Names types <-> Has types name = true) /\
  NoDup (Names types) /\ StronglySorted String.le (Names types).
Proof.
  unfold Has, Names, Lookup, ValidateInput, ValidateShape, ValidateOutput, lookup. split_and!.
  - intros H%bool_decide_eq_false payload. apply eq_None_not_Some in H. rewrite H.
    exists (UnregisteredTypeError name). by split_and!.
  - rewrite elem_of_sort_strings, bool_decide_eq_true, list_elem_of_fmap. split.
    + intros ([k v] & -> & Hk%elem_of_map_to_list). by exists v.
    + intros [v Hv]. exists (name, v). split; [done|]. by apply elem_of_map_to_list.
  - apply NoDup_sort_strings, NoDup_fst_map_to_list.
  - apply sort_strings_sorted.
Qed.

Lemma NewTask_wf spec id req now : TaskWf (NewTask spec id req now).
Proof.
  unfold NewTask. cbv zeta. rewrite !Pool_Clone_id, !Policy_Clone_id, cloneRaw_id.
  constructor; destruct (CreateRequest.Priority req), (CreateRequest.Candidates req),
    (CreateRequest.Escalation req), (CreateRequest.Callback req); cbn;
    intuition discriminate || done.
Qed.

Lemma NewTask_new spec id req now :
  Task.ID (NewTask spec id req now) = id /\ Task.Version (NewTask spec id req now) = 0%Z /\
  Task.Status (NewTask spec id req now) = StatusCreated.
Proof.
  unfold NewTask. cbv zeta.
  destruct (CreateRequest.Priority req), (CreateRequest.Candidates req),
    (CreateRequest.Escalation req), (CreateRequest.Callback req); done.
Qed.

(** The task a request makes is well formed, in state CREATED at version 0,
    with what the request supplied and the type's defaults elsewhere; and its due
    date follows the precedence: an explicit instant, else a positive interval of
    the request, else the type's, else none. *)
Theorem new_task_outcome spec id req now :
  let t := NewTask spec id req now in
  TaskWf t /\ Task.ID t = id /\ Task.Type_ t = TypeSpec.Name spec /\ Task.Version t = 0%Z /\
  Task.Status t = StatusCreated /\ Task.CreatedBy t = CreateRequest.Actor req /\
  Task.CreatedAt t = NormalizeTime now /\
  Task.Priority t = default (TypeSpec.DefaultPriority spec) (CreateRequest.Priority req) /\
  Task.Candidates t = default (TypeSpec.DefaultAssignment spec) (CreateRequest.Candidates req) /\
  Task.Escalation t =
    match CreateRequest.Escalation req with
    | Some p => Some p | None => TypeSpec.DefaultEscalation spec
    end /\
  Task.Input t = CreateRequest.Input req /\ Task.Callback t = CreateRequest.Callback req /\
  Task.DueAt t =
    match CreateRequest.DueAt req, CreateRequest.Deadline req with
    | Some due, _ => Some (NormalizeTime due)
    | None, Some interval =>
        if decide (0 < interval)%Z then Some (NormalizeTime (NormalizeTime now + interval))
        else if decide (0 < TypeSpec.DefaultDeadline spec)%Z
        then Some (NormalizeTime (NormalizeTime now + TypeSpec.DefaultDeadline spec)) else None
    | None, None =>
        if decide (0 < TypeSpec.DefaultDeadline spec)%Z
        then Some (NormalizeTime (NormalizeTime now + TypeSpec.DefaultDeadline spec)) else None
    end.
Proof.
  cbv zeta. pose proof (NewTask_wf spec id req now) as Hwf. revert Hwf.
  unfold NewTask, resolveDueAt. cbv zeta.
  rewrite !Pool_Clone_id, !Policy_Clone_id, cloneRaw_id. intros Hwf.
  split_and!; [exact Hwf|..].
  all: destruct (CreateRequest.Priority req), (CreateRequest.Candidates req) as [pool|],
         (CreateRequest.Escalation req), (CreateRequest.Callback req); cbn;
       rewrite ?Pool_Clone_id, ?Callback_Clone_id, ?Correlation_Clone_id; try done;
       by destruct (CreateRequest.DueAt req), (CreateRequest.Deadline req).
Qed.

(** The scale's neutral priority is never applied: a type that leaves its
    default priority unset makes tasks of the highest priority when the request
    names none, and a request's own priority is taken without a range check. *)
Theorem priority_defaults_to_highest spec id req now p :
  TypeSpec.DefaultPriority spec = 0%Z ->
  (CreateRequest.Priority req = None ->
     Task.Priority (NewTask spec id req now) = PriorityHighest /\
     Task.Priority (NewTask spec id req now) <> PriorityDefault) /\
  (CreateRequest.Priority req = Some p -> Priority_Valid p = false ->
     Task.Priority (NewTask spec id req now) = p).
Proof.
  intros Hs. rewrite new_task_priority, Hs. split.
  - intros ->. by split.
  - by intros ->.
Qed.

(** * Witnesses *)

Module RegistryExamples.
Definition env : Env.t :=
  Env.mk (fun _ raw => if blank raw then Ok permissiveSchema
                       else Err (ExternalError "no compiler" []))
    (fun _ => Err "no reader") (fun _ => Err "no writer").
Definition approval : TypeSpec.t :=
  TypeSpec.mk "approval" "Approval" "" None None 0 (3600 * 1000000000) None
    (CandidatePool.mk ["ann"; "bob"] [] []) ∅.
Definition request (priority : option Z) : CreateRequest.t :=
  CreateRequest.mk "approval" "sys" "" (Some "{}") priority None None None None
    CorrelationData.empty None.
Definition types : Registry := (Register env approval NewRegistry).2.
End RegistryExamples.
Import RegistryExamples.

Example register_demo :
  (Register env approval NewRegistry).1 = Ok tt /\ (Register env approval types).1 = Ok tt /\
  is_ok (Register env (approval <| TypeSpec.Title := "Other" |>) types).1 = false /\
  Names types = ["approval"].
Proof. vm_compute. done. Qed.

Lemma priority_defaults_to_highest_witness :
  Task.Priority (NewTask approval "t1" (request None) 5000) = PriorityHighest /\
  Task.Priority (NewTask approval "t1" (request (Some 99%Z)) 5000) = 99%Z.
Proof.
  split.
  - exact (proj1 (proj1 (priority_defaults_to_highest approval "t1" (request None) 5000 0 eq_refl)
      eq_refl)).
  - exact (proj2 (priority_defaults_to_highest approval "t1" (request (Some 99%Z)) 5000 99 eq_refl)
      eq_refl eq_refl).
Defined.
