(* ===== verification/Service.v ===== *)
(** * Service: the engine

    Models [service.go], [relayport.go], [patch.go] and the claiming half of
    [sweep.go]: the pipeline every lifecycle operation runs, the operations on top
    of it, creation, queries and counts, and the functions the relay calls.

    The service is written against the storage interface of [Store.v].  A
    computation of the engine threads a store and a [Run]: how often the clock
    was read, the identifier generators, and what was handed to the in-process
    handlers.  The host's parts are fields of [Service.t]: the clock gives the
    instant of each reading, the directory and the strategy are those of
    [Assignment.v], a handler answers an event with an error or none, and the
    RFC 6902 library decodes a patch into a function on documents.  Of a context
    only two things matter to the code: the transaction it carries, which the
    store's state holds, and whether it was cancelled while a transaction ran,
    the argument [cancelled]. *)

From S2P Require Import Prelude Domain Errors Event Lifecycle LifecycleFacts Assignment.
From S2P Require Import Query Outbox Store Ident Registry.

Definition DefaultOutboxLease : Z := (5 * 60 * 1000000000)%Z.
Definition DefaultLeaseDuration : Z := (5 * 60 * 1000000000)%Z.
Definition DefaultSweepBatch : Z := 100.
Definition MaxCountBuckets : Z := 32.

Module Service.
Record t : Type := mk {
  registry : Registry;
  resolver : option GroupResolver.t;
  strategy : AssignmentStrategy;
  clock : nat -> Time;
  handlers : list (Event.t -> option error);
  DecodePatch : string -> result string (string -> result string string)
}.
#[global] Instance eta : Eta t := fun x =>
  mk (registry x) (resolver x) (strategy x) (clock x) (handlers x) (DecodePatch x).
End Service.

(** What one process has done and will draw on. *)
Module Run.
Record t {G : Type} : Type := mk {
  ticks : nat;
  ids : G;
  eventIDs : G;
  delivered : list (nat * Event.t);
  dispatchErrors : list error
}.
Arguments t : clear implicits.
Arguments mk {G}.
#[global] Instance eta {G} : Eta (t G) := fun x =>
  mk (ticks x) (ids x) (eventIDs x) (delivered x) (dispatchErrors x).
End Run.

Module Result.
Record t : Type := mk { Task_ : Task.t; Events : list Event.t; pending : list Event.t }.

Definition Pending (r : t) : bool := bool_decide (0 < length (pending r)).
End Result.

Module TaskRequest.
Record t : Type := mk {
  TaskID : string; Actor : string; Version : option Z; Comment : string
}.
End TaskRequest.

Definition defaultedPayload (payload : RawMessage) : RawMessage :=
  if raw_empty payload then Some "{}" else payload.

Section service.
Context {D G : Type} `{!Store D, !IDGenerator G}.
Context (s : Service.t).

Definition M (A : Type) : Type := SM (D * Run.t G) error A.

Definition read {A} (f : D -> res A) : M A := fun '(d, x) => (f d, (d, x)).
Definition write {A} (m : SM D error A) : M A := on_store m.

(** [s.clock.Now()] *)
Definition Now : M Time := fun '(d, x) =>
  (Ok (Service.clock s (Run.ticks x)), (d, x <| Run.ticks := S (Run.ticks x) |>)).

Definition newTaskID : M string := fun '(d, x) =>
  let '(r, g) := NewTaskID (Run.ids x) in (r, (d, x <| Run.ids := g |>)).

Definition newEventID : M string := fun '(d, x) =>
  let '(r, g) := NewTaskID (Run.eventIDs x) in (r, (d, x <| Run.eventIDs := g |>)).

(** ** Recording an outcome *)

(** [stamp]: every event that lacks an identifier gets one. *)
Fixpoint stamp (events : list Event.t) : M (list Event.t) :=
  match events with
  | [] => sret []
  | event :: rest =>
      let! event :=
        (if decide (Event.ID event <> "") then sret event
         else let! id := newEventID in sret (event <| Event.ID := id |>)) in
      let! rest := stamp rest in
      sret (event :: rest)
  end.

(** The caller's slice is stamped in place, so the stamped events are what this
    returns. *)
Definition persistOutcome (events : list Event.t) (records : list TransitionRecord.t)
  : M (list Event.t) :=
  (if decide (0 < length records) then write (AppendHistory records) else sret tt) ;;!
  if decide (length events = 0) then sret events
  else
    let! stamped := stamp events in
    write (Append stamped) ;;!
    sret stamped.

(** ** Delivery to in-process handlers *)

Fixpoint handle (event : Event.t) (i : nat) (hs : list (Event.t -> option error))
    (x : Run.t G * list error) : Run.t G * list error :=
  match hs with
  | [] => x
  | h :: rest =>
      let '(run, errs) := x in
      let run := run <| Run.delivered := Run.delivered run ++ [(i, event)] |> in
      handle event (S i) rest
        (run, match h event with Some err => errs ++ [err] | None => errs end)
  end.

Definition deliver (events : list Event.t) (x : Run.t G) : option error * Run.t G :=
  if bool_decide (length events = 0) || bool_decide (length (Service.handlers s) = 0)
  then (None, x)
  else
    let '(x, errs) :=
      for_each (fun event => handle event 0 (Service.handlers s)) events (x, []) in
    (errors_Join errs, x).

Definition finish (task : Task.t) (events : list Event.t) (hostLed : bool) : M Result.t :=
  fun '(d, x) =>
  if hostLed then (Ok (Result.mk task events events), (d, x))
  else
    let '(err, x) := deliver events x in
    let x :=
      match err with
      | Some err => x <| Run.dispatchErrors := Run.dispatchErrors x ++ [err] |>
      | None => x
      end in
    (Ok (Result.mk task events []), (d, x)).

(** [Result.Dispatch] *)
Definition Dispatch (r : Result.t) (x : Run.t G) : option error * Run.t G :=
  if decide (length (Result.pending r) = 0) then (None, x) else deliver (Result.pending r) x.

(** ** The pipeline *)

Definition outcome : Type := Task.t * list Event.t * list TransitionRecord.t.

(** What [mutate] runs inside the transaction. *)
Definition mutate_body (req : TaskRequest.t) (step : Task.t -> Time -> res outcome)
  : M (Task.t * list Event.t) :=
  let! current := read (Get (TaskRequest.TaskID req)) in
  match TaskRequest.Version req with
  | Some version =>
      if decide (version <> Task.Version current)
      then sfail (ConflictError (TaskRequest.TaskID req) version (Task.Version current))
      else sret tt
  | None => sret tt
  end ;;!
  let! now := Now in
  let! npr := slift (step current now) in
  let '(next, produced, records) := npr in
  write (Update next (Task.Version current)) ;;!
  let! produced := persistOutcome produced records in
  sret (next, produced).

Definition mutate (cancelled : option error) (req : TaskRequest.t)
    (step : Task.t -> Time -> res outcome) : M Result.t :=
  if decide (TaskRequest.TaskID req = "")
  then sfail (ValidationError "request" [ValidationIssue.mk "/taskId" "is required"])
  else fun w =>
    let hostLed := InTransaction w.1 in
    (let! te := Do cancelled (mutate_body req step) in
     finish te.1 te.2 hostLed) w.

(** ** The operations *)

Definition of_transition (r : res (Task.t * list Event.t)) : res outcome :=
  try! ne := r in Ok (ne.1, ne.2, recordsOf ne.2).

Definition Claim (cancelled : option error) (req : TaskRequest.t) : M Result.t :=
  mutate cancelled req (fun task now =>
    try! ne := Lifecycle.Claim task (TaskRequest.Actor req) now in
    try! _ := Authorize (Service.resolver s) task OpClaim (TaskRequest.Actor req) in
    Ok (ne.1, ne.2, recordsOf ne.2)).

Definition Release (cancelled : option error) (req : TaskRequest.t) : M Result.t :=
  mutate cancelled req (fun task now =>
    of_transition (Lifecycle.Release task (TaskRequest.Actor req) (TaskRequest.Comment req) now)).

Definition Start (cancelled : option error) (req : TaskRequest.t) : M Result.t :=
  mutate cancelled req (fun task now =>
    of_transition (Lifecycle.Start task (TaskRequest.Actor req) now)).

Definition Complete (cancelled : option error) (req : TaskRequest.t) (output : RawMessage)
  : M Result.t :=
  mutate cancelled req (fun task now =>
    try! ne := Lifecycle.Complete task (TaskRequest.Actor req) output (TaskRequest.Comment req) now in
    try! _ := ValidateOutput (Service.registry s) (Task.Type_ task) (defaultedPayload output) in
    Ok (ne.1, ne.2, recordsOf ne.2)).

Definition Fail_ (cancelled : option error) (req : TaskRequest.t) : M Result.t :=
  mutate cancelled req (fun task now =>
    of_transition (Lifecycle.Fail task (TaskRequest.Actor req) (TaskRequest.Comment req) now)).

Definition Delegate (cancelled : option error) (req : TaskRequest.t) (target : string)
  : M Result.t :=
  mutate cancelled req (fun task now =>
    try! ne := Lifecycle.Delegate task (TaskRequest.Actor req) target (TaskRequest.Comment req) now in
    try! _ := AuthorizeDelegate (Service.resolver s) task (TaskRequest.Actor req) target in
    Ok (ne.1, ne.2, recordsOf ne.2)).

Definition Suspend (cancelled : option error) (req : TaskRequest.t) : M Result.t :=
  mutate cancelled req (fun task now =>
    of_transition (Lifecycle.Suspend task (TaskRequest.Actor req) (TaskRequest.Comment req) now)).

Definition Resume (cancelled : option error) (req : TaskRequest.t) : M Result.t :=
  mutate cancelled req (fun task now =>
    of_transition (Lifecycle.Resume task (TaskRequest.Actor req) (TaskRequest.Comment req) now)).

Definition escalationPolicy (task : Task.t) : option EscalationPolicy.t :=
  match Task.Escalation task with
  | Some p => Some p
  | None =>
      match Lookup (Service.registry s) (Task.Type_ task) with
      | Ok spec => TypeSpec.DefaultEscalation spec
      | Err _ => None
      end
  end.

Definition Escalate (cancelled : option error) (req : TaskRequest.t) : M Result.t :=
  mutate cancelled req (fun task now =>
    of_transition (Lifecycle.Escalate task (TaskRequest.Actor req) (escalationPolicy task)
                     (TaskRequest.Comment req) now)).

Definition Cancel (cancelled : option error) (req : TaskRequest.t) : M Result.t :=
  mutate cancelled req (fun task now =>
    of_transition (Lifecycle.Cancel task (TaskRequest.Actor req) (TaskRequest.Comment req) now)).

(** [applyJSONPatch] *)
Definition applyJSONPatch (document patch : RawMessage) : res RawMessage :=
  if raw_empty patch then Ok (cloneRaw document)
  else
    match Service.DecodePatch s (bytes_of patch) with
    | Err err =>
        Err (ValidationError "patch"
               [ValidationIssue.mk "" ("is not a valid RFC 6902 patch: " +:+ err)])
    | Ok apply =>
        let base := if raw_empty document then "{}" else bytes_of document in
        match apply base with
        | Err err =>
            Err (ValidationError "patch" [ValidationIssue.mk "" ("could not be applied: " +:+ err)])
        | Ok merged => Ok (Some merged)
        end
    end.

Definition SaveProgress (cancelled : option error) (req : TaskRequest.t) (patch : RawMessage)
  : M Result.t :=
  mutate cancelled req (fun task now =>
    try! to := saveProgressGuard task (TaskRequest.Actor req) in
    try! merged := applyJSONPatch (Task.Progress task) patch in
    try! _ := ValidateShape (Service.registry s) (Task.Type_ task) merged in
    let started := saveProgressStarted task in
    let '(next, produced) :=
      saveProgressRecord task to (TaskRequest.Actor req) (TaskRequest.Comment req) merged now in
    if negb started then Ok (next, [], []) else Ok (next, [], recordsOf produced)).

(** ** Creation *)

(** What [Create] runs inside the transaction. *)
Definition create_body (spec : TypeSpec.t) (id : string) (req : CreateRequest.t)
  : M (Task.t * list Event.t) :=
  let! now := Now in
  let created := NewTask spec id req now in
  let! pe := slift (Assign (Service.resolver s) (Some (Service.strategy s)) created now) in
  let '(placed, produced) := pe in
  write (Create placed) ;;!
  let! produced := persistOutcome produced (recordsOf produced) in
  sret (placed, produced).

Definition Create_ (cancelled : option error) (req : CreateRequest.t) : M Result.t :=
  let! spec := slift (Lookup (Service.registry s) (CreateRequest.Type_ req)) in
  slift (ValidateInput (Service.registry s) (CreateRequest.Type_ req)
           (defaultedPayload (CreateRequest.Input req))) ;;!
  let! id :=
    (if decide (CreateRequest.ID req = "") then newTaskID else sret (CreateRequest.ID req)) in
  fun w =>
    let hostLed := InTransaction w.1 in
    (let! te := Do cancelled (create_body spec id req) in
     finish te.1 te.2 hostLed) w.

(** ** Reads *)

Definition Get_ (id : string) : M Task.t := read (Get id).
Definition History_ (id : string) : M (list TransitionRecord.t) := read (History id).

Definition Eligible (task : Task.t) (actor : string) : res bool :=
  IsEligible (Service.resolver s) (Task.Candidates task) actor.
Definition ResolveCandidates_ (pool : CandidatePool.t) : res (list string) :=
  ResolveCandidates (Service.resolver s) pool.

(** [resolve], with the cache a map or nil. *)
Definition resolve (query : Query.t) (cache : option (gmap string (list string)))
  : res (ResolvedQuery.t * option (gmap string (list string))) :=
  try! _ := Query.validate query in
  let resolved := Query.Clone query in
  if decide (Query.Candidate query = "") then Ok (ResolvedQuery.mk resolved [], cache)
  else
    match cache ≫= (fun c => c !! Query.Candidate query) with
    | Some groups => Ok (ResolvedQuery.mk resolved groups, cache)
    | None =>
        match Service.resolver s with
        | None => Err (GroupResolutionError (Query.Candidate query) [] (Some no_resolver))
        | Some resolver =>
            match GroupResolver.GroupsOf resolver (Query.Candidate query) with
            | Err err => Err (GroupResolutionError (Query.Candidate query) [] (Some err))
            | Ok groups =>
                Ok (ResolvedQuery.mk resolved groups,
                    (fun c => <[ Query.Candidate query := groups ]> c) <$> cache)
            end
        end
    end.

Definition Query_ (query : Query.t) (d : D) : res Page.t :=
  try! resolved := resolve query None in RunQuery resolved.1 d.

Definition Count_ (query : Query.t) (d : D) : res Z :=
  try! resolved := resolve query None in RunCount resolved.1 d.

Fixpoint validate_all (buckets : gmap string Query.t) (names : list string) : res unit :=
  match names with
  | [] => Ok tt
  | name :: rest =>
      match buckets !! name with
      | Some q => try! _ := Query.validate q in validate_all buckets rest
      | None => validate_all buckets rest
      end
  end.

Fixpoint count_all (buckets : gmap string Query.t) (names : list string)
    (groups : option (gmap string (list string))) (counts : gmap string Z) (d : D)
  : res (gmap string Z) :=
  match names with
  | [] => Ok counts
  | name :: rest =>
      match buckets !! name with
      | Some q =>
          try! resolved := resolve q groups in
          try! count := RunCount resolved.1 d in
          count_all buckets rest resolved.2 (<[ name := count ]> counts) d
      | None => count_all buckets rest groups counts d
      end
  end.

Definition CountBuckets (buckets : gmap string Query.t) (d : D) : res (gmap string Z) :=
  if decide (MaxCountBuckets < Z.of_nat (size buckets))%Z
  then Err (ValidationError "request" [ValidationIssue.mk ""
         (pretty (size buckets) +:+ " buckets exceed the limit of " +:+ pretty MaxCountBuckets)])
  else
    let names := sort_strings ((map_to_list buckets).*1) in
    try! _ := validate_all buckets names in
    count_all buckets names (Some ∅) ∅ d.

(** ** Claiming and settling, for the sweep and the relay *)

Definition ClaimOverdue_ (cancelled : option error) (lease : LeaseRequest.t) : M (list Task.t) :=
  let duration := if decide (LeaseRequest.Duration lease <= 0)%Z then DefaultLeaseDuration
                  else LeaseRequest.Duration lease in
  let limit := if decide (LeaseRequest.Limit lease <= 0)%Z then DefaultSweepBatch
               else LeaseRequest.Limit lease in
  let! now := (if decide (LeaseRequest.Now lease = 0%Z) then Now
               else sret (LeaseRequest.Now lease)) in
  Do cancelled (write (ClaimOverdue
    (LeaseRequest.mk now (LeaseRequest.Owner lease) duration limit (LeaseRequest.Types lease)))).

Definition ClaimDueEvents_ (cancelled : option error) (claim : OutboxClaim.t)
  : M (list OutboxEntry.t) :=
  let duration := if decide (OutboxClaim.Duration claim <= 0)%Z then DefaultOutboxLease
                  else OutboxClaim.Duration claim in
  let limit := if decide (OutboxClaim.Limit claim <= 0)%Z then DefaultOutboxBatch
               else OutboxClaim.Limit claim in
  let! now := (if decide (OutboxClaim.Now claim = 0%Z) then Now
               else sret (OutboxClaim.Now claim)) in
  Do cancelled (write (ClaimDueEvents
    (OutboxClaim.mk now (OutboxClaim.Owner claim) duration limit))).

Definition RecordDeliveryAttempt (cancelled : option error) (r : AttemptRecord.t) : M unit :=
  Do cancelled (write (RecordAttempt r)).
Definition MarkEventAccepted (cancelled : option error) (a : Acceptance.t) : M unit :=
  Do cancelled (write (MarkAccepted a)).
Definition MarkEventDeadLettered (cancelled : option error) (l : DeadLetter.t) : M unit :=
  Do cancelled (write (MarkDeadLettered l)).
Definition NewEventID : M string := newEventID.
End service.
