(* ===== verification/ServiceFacts.v ===== *)
(** * ServiceFacts: what the engine guarantees

    Proved against the storage interface ([StoreLaws]) and the port of identifier
    generators ([fresh]), so for every store and generator that keep theirs; the
    witnesses run the engine on the in-memory store with the default generator. *)

From S2P Require Import Prelude Domain Errors Event Lifecycle LifecycleFacts Assignment.
From S2P Require Import Query Outbox Store Ident Registry Service.

(** ** One type for the operations of the pipeline *)

Inductive Call : Type :=
| CallClaim
| CallRelease
| CallStart
| CallSaveProgress (patch : RawMessage)
| CallComplete (output : RawMessage)
| CallFail
| CallDelegate (target : string)
| CallSuspend
| CallResume
| CallEscalate
| CallCancel.

Definition call {D G} `{!Store D, !IDGenerator G} (s : Service.t) (cancelled : option error)
    (c : Call) (req : TaskRequest.t) : M (D := D) (G := G) Result.t :=
  match c with
  | CallClaim => Service.Claim s cancelled req
  | CallRelease => Service.Release s cancelled req
  | CallStart => Service.Start s cancelled req
  | CallSaveProgress patch => Service.SaveProgress s cancelled req patch
  | CallComplete output => Service.Complete s cancelled req output
  | CallFail => Service.Fail_ s cancelled req
  | CallDelegate target => Service.Delegate s cancelled req target
  | CallSuspend => Service.Suspend s cancelled req
  | CallResume => Service.Resume s cancelled req
  | CallEscalate => Service.Escalate s cancelled req
  | CallCancel => Service.Cancel s cancelled req
  end.

(** The step each operation hands to the pipeline. *)
Definition step_of (s : Service.t) (c : Call) (req : TaskRequest.t) (task : Task.t) (now : Time)
  : res outcome :=
  let actor := TaskRequest.Actor req in
  let comment := TaskRequest.Comment req in
  match c with
  | CallClaim =>
      try! ne := Lifecycle.Claim task actor now in
      try! _ := Authorize (Service.resolver s) task OpClaim actor in
      Ok (ne.1, ne.2, recordsOf ne.2)
  | CallRelease => of_transition (Lifecycle.Release task actor comment now)
  | CallStart => of_transition (Lifecycle.Start task actor now)
  | CallSaveProgress patch =>
      try! to := saveProgressGuard task actor in
      try! merged := applyJSONPatch s (Task.Progress task) patch in
      try! _ := ValidateShape (Service.registry s) (Task.Type_ task) merged in
      let '(next, produced) := saveProgressRecord task to actor comment merged now in
      if negb (saveProgressStarted task) then Ok (next, [], [])
      else Ok (next, [], recordsOf produced)
  | CallComplete output =>
      try! ne := Lifecycle.Complete task actor output comment now in
      try! _ := ValidateOutput (Service.registry s) (Task.Type_ task) (defaultedPayload output) in
      Ok (ne.1, ne.2, recordsOf ne.2)
  | CallFail => of_transition (Lifecycle.Fail task actor comment now)
  | CallDelegate target =>
      try! ne := Lifecycle.Delegate task actor target comment now in
      try! _ := AuthorizeDelegate (Service.resolver s) task actor target in
      Ok (ne.1, ne.2, recordsOf ne.2)
  | CallSuspend => of_transition (Lifecycle.Suspend task actor comment now)
  | CallResume => of_transition (Lifecycle.Resume task actor comment now)
  | CallEscalate =>
      of_transition (Lifecycle.Escalate task actor (escalationPolicy s task) comment now)
  | CallCancel => of_transition (Lifecycle.Cancel task actor comment now)
  end.

Lemma call_mutate {D G} `{!Store D, !IDGenerator G} s cancelled c req :
  call (D := D) (G := G) s cancelled c req = mutate s cancelled req (step_of s c req).
Proof. by destruct c. Qed.

(** The command a call runs on a task it finds. *)
Definition runs (s : Service.t) (c : Call) (req : TaskRequest.t) (task : Task.t) (cmd : Command)
  : Prop :=
  let actor := TaskRequest.Actor req in
  let comment := TaskRequest.Comment req in
  match c with
  | CallClaim => cmd = CmdClaim actor /\
      Authorize (Service.resolver s) task OpClaim actor = Ok tt
  | CallRelease => cmd = CmdRelease actor comment
  | CallStart => cmd = CmdStart actor
  | CallSaveProgress patch => exists merged,
      cmd = CmdSaveProgress actor comment merged /\
      applyJSONPatch s (Task.Progress task) patch = Ok merged /\
      ValidateShape (Service.registry s) (Task.Type_ task) merged = Ok tt
  | CallComplete output => cmd = CmdComplete actor output comment /\
      ValidateOutput (Service.registry s) (Task.Type_ task) (defaultedPayload output) = Ok tt
  | CallFail => cmd = CmdFail actor comment
  | CallDelegate target => cmd = CmdDelegate actor target comment /\
      AuthorizeDelegate (Service.resolver s) task actor target = Ok tt
  | CallSuspend => cmd = CmdSuspend actor comment
  | CallResume => cmd = CmdResume actor comment
  | CallEscalate => cmd = CmdEscalate actor (escalationPolicy s task) comment
  | CallCancel => cmd = CmdCancel actor comment
  end.

(** The only operation that is not announced. *)
Definition silent (cmd : Command) : bool :=
  match cmd with CmdSaveProgress _ _ _ => true | _ => false end.

Definition outcome_of (cmd : Command) (task : Task.t) (now : Time) : outcome :=
  (next_task cmd task now,
   if silent cmd then [] else [next_event cmd task now],
   if LifecycleFacts.recorded cmd task then [Event.Transition (next_event cmd task now)] else []).

Lemma of_transition_ok r o :
  of_transition r = Ok o <-> exists next evs, r = Ok (next, evs) /\ o = (next, evs, recordsOf evs).
Proof.
  unfold of_transition. rewrite rbind_ok. split.
  - intros ([next evs] & -> & [= <-]). eauto.
  - intros (next & evs & -> & ->). by exists (next, evs).
Qed.

Lemma exec_ok_next cmd task now next evs :
  exec cmd task now = Ok (next, evs) ->
  next = next_task cmd task now /\ evs = [next_event cmd task now] /\
  permitted cmd task = true /\ may_act cmd task = true.
Proof. intros H. apply exec_inv in H. naive_solver. Qed.

(** A step succeeds exactly when the command it runs does, and yields the
    command's task, event and record. *)
Lemma step_of_command s c req task now o :
  step_of s c req task now = Ok o <->
  exists cmd, runs s c req task cmd /\ is_ok (exec cmd task now) = true /\
    o = outcome_of cmd task now.
Proof.
  assert (Hplain : forall cmd, silent cmd = false ->
    LifecycleFacts.recorded cmd task = true ->
    of_transition (exec cmd task now) = Ok o <->
    is_ok (exec cmd task now) = true /\ o = outcome_of cmd task now).
  { intros cmd Hs Hr. rewrite of_transition_ok. unfold outcome_of. rewrite Hs, Hr.
    destruct (exec cmd task now) as [[next evs]|] eqn:E; cbn; [|naive_solver].
    destruct (exec_ok_next _ _ _ _ _ E) as (-> & -> & _). naive_solver. }
  assert (Hguarded : forall cmd (guard : res unit), silent cmd = false ->
    LifecycleFacts.recorded cmd task = true ->
    (try! ne := exec cmd task now in try! _ := guard in Ok (ne.1, ne.2, recordsOf ne.2)) = Ok o <->
    guard = Ok tt /\ is_ok (exec cmd task now) = true /\ o = outcome_of cmd task now).
  { intros cmd guard Hs Hr. rewrite <- (Hplain cmd Hs Hr). unfold of_transition.
    destruct (exec cmd task now) as [ne|]; cbn; [|naive_solver].
    destruct guard as [[]|]; cbn; naive_solver. }
  destruct c; cbn [step_of runs];
    lazymatch goal with
    | |- of_transition ?r = _ <-> _ =>
        split; [intros H; eexists; split; [reflexivity|]; by apply Hplain
               |intros (cmd & -> & H); by apply Hplain in H]
    | |- _ <-> exists cmd, (cmd = ?k /\ ?g) /\ _ =>
        pose proof (Hguarded k) as Hg; cbn [exec] in Hg;
        rewrite Hg by done; clear; naive_solver
    | |- _ => idtac
    end.
  clear Hplain Hguarded. split.
  - intros (to & Hto & H)%rbind_ok. apply rbind_ok in H as (merged & Hm & H).
    apply rbind_ok in H as ([] & Hv & H).
    exists (CmdSaveProgress (TaskRequest.Actor req) (TaskRequest.Comment req) merged).
    assert (He : exec (CmdSaveProgress (TaskRequest.Actor req) (TaskRequest.Comment req) merged)
                   task now = Ok (saveProgressRecord task to (TaskRequest.Actor req)
                                    (TaskRequest.Comment req) merged now))
      by (cbn; by rewrite Hto).
    split; [by eauto|]. rewrite He. split; [done|].
    destruct (saveProgressRecord _ _ _ _ _ _) as [next evs].
    destruct (exec_ok_next _ _ _ _ _ He) as (-> & -> & _).
    unfold outcome_of; cbn. destruct (saveProgressStarted task); cbn in H; by injection H as <-.
  - intros (cmd & (merged & -> & Hm & Hv) & He & ->). cbn in He.
    destruct (saveProgressGuard task (TaskRequest.Actor req)) as [to|] eqn:Hto; [|done].
    cbn [rbind]. rewrite Hm. cbn [rbind]. rewrite Hv. cbn [rbind].
    assert (He' : exec (CmdSaveProgress (TaskRequest.Actor req) (TaskRequest.Comment req) merged)
                   task now = Ok (saveProgressRecord task to (TaskRequest.Actor req)
                                    (TaskRequest.Comment req) merged now))
      by (cbn; by rewrite Hto).
    destruct (saveProgressRecord _ _ _ _ _ _) as [next evs].
    destruct (exec_ok_next _ _ _ _ _ He') as (-> & -> & _).
    unfold outcome_of; cbn. by destruct (saveProgressStarted task).
Qed.

(** ** Running a computation inside a transaction *)

Section facts.
Context {D G : Type} `{!Store D, !IDGenerator G, !StoreModel D, !StoreLaws D}.
Context (s : Service.t).
Implicit Types (d : D) (x : Run.t G).

(** What a list of events is stamped with, without the rest of the run. *)
Fixpoint stamps (events : list Event.t) (g : G) : res (list Event.t) * G :=
  match events with
  | [] => (Ok [], g)
  | event :: rest =>
      if decide (Event.ID event <> "") then
        let '(r, g) := stamps rest g in (try! rest := r in Ok (event :: rest), g)
      else
        match NewTaskID g with
        | (Err e, g) => (Err e, g)
        | (Ok id, g) =>
            let '(r, g) := stamps rest g in
            (try! rest := r in Ok (event <| Event.ID := id |> :: rest), g)
        end
  end.

Lemma stamp_run events d x :
  stamp (D := D) events (d, x) =
  ((stamps events (Run.eventIDs x)).1,
   (d, x <| Run.eventIDs := (stamps events (Run.eventIDs x)).2 |>)).
Proof.
  revert x; induction events as [|e events IH]; intros x; cbn [stamp stamps].
  { by destruct x. }
  unfold sbind. case_decide; cbn.
  - rewrite IH. by destruct (stamps events _) as [[|] ?].
  - unfold newEventID; cbn. destruct (NewTaskID (Run.eventIDs x)) as [[id|err] g]; cbn; [|done].
    rewrite IH; cbn. by destruct (stamps events g) as [[|] ?].
Qed.

Lemma fresh_weaken n (g : G) used used' :
  (forall id, id ∈ used' -> id ∈ used) -> fresh n g used -> fresh n g used'.
Proof.
  revert g used used'; induction n as [|n IH]; intros g used used' Hs; cbn; [done|].
  destruct (NewTaskID g) as [[id|] g']; [|by apply IH].
  intros [Hid Hf]. split; [naive_solver|]. eapply IH; [|exact Hf].
  intros id'. rewrite !elem_of_cons. naive_solver.
Qed.

Lemma fresh_less n (g : G) used : fresh (S n) g used -> fresh n g used.
Proof.
  revert g used; induction n as [|n IH]; intros g used; [done|].
  cbn [fresh]. destruct (NewTaskID g) as [[id|] g']; cbn in *; [|by apply IH].
  intros [? Hf]. split; [done|]. by apply IH.
Qed.

(** Stamping draws new identifiers and leaves the generator with fewer to go. *)
Lemma stamps_fresh events k (g g' : G) used stamped :
  (forall e, e ∈ events -> Event.ID e = "") ->
  fresh (length events + k) g used -> NoDup used ->
  stamps events g = (Ok stamped, g') ->
  NoDup ((Event.ID <$> stamped) ++ used) /\ fresh k g' ((Event.ID <$> stamped) ++ used).
Proof.
  revert g g' used stamped; induction events as [|e events IH]; intros g g' used stamped He Hf Hu.
  { cbn. intros [= <- <-]. done. }
  cbn [stamps length Nat.add fresh] in *.
  rewrite decide_False by (rewrite He by left; by intros []).
  destruct (NewTaskID g) as [[id|] g1]; [|done]. destruct Hf as [Hid Hf].
  destruct (stamps events g1) as [[rest|] g2] eqn:Es; [|done]. intros [= <- <-].
  destruct (IH g1 g2 (id :: used) rest) as [Hn Hk]; [intros; apply He; by right|done| |done|].
  { by constructor. }
  cbn [fmap list_fmap]. split.
  - rewrite <- Permutation_middle in Hn. exact Hn.
  - eapply fresh_weaken; [|exact Hk]. intros id'. cbn.
    rewrite !elem_of_cons, !elem_of_app, elem_of_cons. naive_solver.
Qed.

Lemma stamps_events events (g g' : G) stamped :
  stamps events g = (Ok stamped, g') ->
  Forall2 (fun e e' => e' = e <| Event.ID := Event.ID e' |>) events stamped.
Proof.
  revert g g' stamped; induction events as [|e events IH]; intros g g' stamped; cbn [stamps].
  { by intros [= <- _]. }
  case_decide.
  - destruct (stamps events g) as [[rest|] ?] eqn:Es; [|done]. intros [= <- _].
    constructor; [by destruct e|by eapply IH].
  - destruct (NewTaskID g) as [[id|] g1]; [|done].
    destruct (stamps events g1) as [[rest|] ?] eqn:Es; [|done]. intros [= <- _].
    constructor; [by destruct e|by eapply IH].
Qed.

(** The ledger after an outcome is written. *)
Definition apply_outcome (next : Task.t) (records : list TransitionRecord.t)
    (stamped : list Event.t) (l : Ledger.t) : Ledger.t :=
  (Ledger.Append stamped (Ledger.AppendHistory records (Ledger.put next l)).2).2.

Lemma persist_run events records d x :
  sound d -> InTransaction d = true ->
  (forall e, e ∈ events -> Event.ID e = "") ->
  fresh (length events) (Run.eventIDs x) (Ledger.keys (view d)) ->
  exists d' x',
    persistOutcome events records (d, x) = ((stamps events (Run.eventIDs x)).1, (d', x')) /\
    within d d' /\ Run.ticks x' = Run.ticks x /\ Run.delivered x' = Run.delivered x /\
    Run.eventIDs x' = (stamps events (Run.eventIDs x)).2 /\
    view d' =
      match (stamps events (Run.eventIDs x)).1 with
      | Ok stamped => (Ledger.Append stamped (Ledger.AppendHistory records (view d)).2).2
      | Err _ => (Ledger.AppendHistory records (view d)).2
      end.
Proof.
  intros Hd Ha He Hf.
  unfold persistOutcome. set (first := if decide (0 < length records) then _ else _).
  assert (Hfirst : exists d1, first (d, x) = (Ok tt, (d1, x)) /\ within d d1 /\ view d1 = (Ledger.AppendHistory records (view d)).2).
  { subst first. case_decide as Hl.
    - destruct (append_history_law records d Hd Ha) as (Hw & Hr & Hv).
      unfold write, on_store. destruct (AppendHistory records d) as [r d1]. cbn in *. subst.
      by exists d1.
    - destruct records; [|cbn in Hl; lia]. exists d. split_and!; [done|by split_and!|].
      by destruct (view d). }
  destruct Hfirst as (d1 & Hrun & (Ha1 & Hb1 & Hd1) & Hv1).
  unfold sbind. rewrite Hrun. clear first Hrun.
  assert (Hk1 : Ledger.keys (view d1) = Ledger.keys (view d)) by (by rewrite Hv1).
  case_decide as Hl.
  { destruct events; [|done]. exists d1, x. cbn. split_and!; [done|by split_and!|done..|].
    rewrite Hv1. unfold Ledger.Append; cbn.
    rewrite app_nil_r. by destruct (view d). }
  rewrite stamp_run. destruct (stamps events (Run.eventIDs x)) as [[stamped|err] g] eqn:Es;
    cbn [fst snd].
  2: { eexists _, _. split_and!; [done|by split_and!|done..]. }
  destruct (stamps_fresh events 0 (Run.eventIDs x) g (Ledger.keys (view d)) stamped He)
    as [Hn _]; [by rewrite Nat.add_0_r|by apply distinct_events|done|].
  destruct (append_law stamped d1 Hd1) as ((Ha2 & Hb2 & Hd2) & Hr2 & Hv2);
    [by rewrite Ha1|by rewrite Hk1|].
  unfold write, on_store. destruct (Append stamped d1) as [r d2]. cbn in *. subst r.
  eexists d2, _. split_and!; [done| |done..|].
  - split_and!; congruence || done.
  - by rewrite Hv2, Hv1.
Qed.

(** What the pipeline decides from the ledger it reads. *)
Definition plan (req : TaskRequest.t) (step : Task.t -> Time -> res outcome) (l : Ledger.t)
    (now : Time) : res outcome :=
  try! current := Ledger.Get (TaskRequest.TaskID req) l in
  try! _ :=
    match TaskRequest.Version req with
    | Some version =>
        if decide (version <> Task.Version current)
        then Err (ConflictError (TaskRequest.TaskID req) version (Task.Version current))
        else Ok tt
    | None => Ok tt
    end in
  step current now.

(** A step that keeps the task's identifier and announces at most one event. *)
Definition proper_step (step : Task.t -> Time -> res outcome) : Prop :=
  forall t now next evs recs, step t now = Ok (next, evs, recs) ->
    Task.ID next = Task.ID t /\ length evs <= 1 /\ forall e, e ∈ evs -> Event.ID e = "".

(** What a body made of the plan: its result and the ledger it leaves. *)
Definition outcome_written (o : res outcome) (g : G) (l : Ledger.t)
    (r : res (Task.t * list Event.t)) (l' : Ledger.t) : Prop :=
  match o with
  | Err e => r = Err e /\ l' = l
  | Ok (next, evs, recs) =>
      match (stamps evs g).1 with
      | Err e => r = Err e /\ Ledger.keys l' = Ledger.keys l
      | Ok stamped => r = Ok (next, stamped) /\ l' = apply_outcome next recs stamped l
      end
  end.

(** What is left of the generator. *)
Definition spent (o : res outcome) (g : G) : G :=
  match o with Err _ => g | Ok (_, evs, _) => (stamps evs g).2 end.

Lemma fresh_at_most n m (g : G) used : n <= m -> fresh m g used -> fresh n g used.
Proof. induction 1; [done|]. intros ?%fresh_less. auto. Qed.

Lemma write_persist (next : Task.t) events records (m : SM D error unit)
    (spec : SM Ledger.t error unit) d x :
  sound d -> InTransaction d = true -> implements m spec d ->
  spec (view d) = (Ok tt, Ledger.put next (view d)) ->
  (forall e, e ∈ events -> Event.ID e = "") ->
  fresh (length events) (Run.eventIDs x) (Ledger.keys (view d)) ->
  exists r d' x',
    (write m ;;! let! produced := persistOutcome events records in sret (next, produced)) (d, x) =
      (r, (d', x')) /\
    within d d' /\ Run.ticks x' = Run.ticks x /\ Run.delivered x' = Run.delivered x /\
    Run.eventIDs x' = (stamps events (Run.eventIDs x)).2 /\
    match (stamps events (Run.eventIDs x)).1 with
    | Err e => r = Err e /\ Ledger.keys (view d') = Ledger.keys (view d)
    | Ok stamped => r = Ok (next, stamped) /\ view d' = apply_outcome next records stamped (view d)
    end.
Proof.
  intros Hd Ha ((Ha1 & Hb1 & Hd1) & Hr & Hv) Hspec He Hf. rewrite Hspec in Hr, Hv.
  unfold sbind, write, on_store. destruct (m d) as [r1 d1]. cbn [fst snd] in *. subst r1.
  destruct (persist_run events records d1 x) as (d2 & x2 & Hp & (Ha2 & Hb2 & Hd2) & Ht & Hde & Hg & Hview);
    [done|by rewrite Ha1|done|by rewrite Hv|].
  rewrite Hp. destruct (stamps events (Run.eventIDs x)) as [[stamped|e] g]; cbn [fst snd] in *.
  - eexists _, d2, x2. split_and!; [reflexivity| |done..|].
    + split_and!; congruence || done.
    + by rewrite Hview, Hv.
  - eexists _, d2, x2. split_and!; [reflexivity| |done..|by rewrite Hview, Hv].
    split_and!; congruence || done.
Qed.

(** A body run inside a transaction carries its plan out. *)
Definition carries_out (body : M (D := D) (G := G) (Task.t * list Event.t))
    (plan : Ledger.t -> Run.t G -> res outcome) : Prop :=
  forall d x, sound d -> InTransaction d = true ->
    fresh 1 (Run.eventIDs x) (Ledger.keys (view d)) ->
    exists r d' x',
      body (d, x) = (r, (d', x')) /\ within d d' /\ Run.delivered x' = Run.delivered x /\
      Run.eventIDs x' = spent (plan (view d) x) (Run.eventIDs x) /\
      outcome_written (plan (view d) x) (Run.eventIDs x) (view d) r (view d').

Lemma step_write next evs recs (m : SM D error unit) spec d x :
  length evs <= 1 -> (forall e, e ∈ evs -> Event.ID e = "") ->
  sound d -> InTransaction d = true -> implements m spec d ->
  spec (view d) = (Ok tt, Ledger.put next (view d)) ->
  fresh 1 (Run.eventIDs x) (Ledger.keys (view d)) ->
  exists r d' x',
    (write m ;;! let! produced := persistOutcome evs recs in sret (next, produced)) (d, x) =
      (r, (d', x')) /\
    within d d' /\ Run.delivered x' = Run.delivered x /\
    Run.eventIDs x' = spent (Ok (next, evs, recs)) (Run.eventIDs x) /\
    outcome_written (Ok (next, evs, recs)) (Run.eventIDs x) (view d) r (view d').
Proof.
  intros Hlen Hev Hd Ha Hm Hspec Hf.
  edestruct (write_persist next evs recs m spec d x)
    as (r & d' & x' & Hp & Hw & _ & Hde & Hg & Hout); [done..| |].
  { by eapply fresh_at_most. }
  by exists r, d', x'.
Qed.

Lemma mutate_body_run req step :
  proper_step step ->
  carries_out (mutate_body s req step)
    (fun l x => plan req step l (Service.clock s (Run.ticks x))).
Proof.
  intros Hstep d x Hd Ha Hf. unfold mutate_body, plan, read, slift.
  unfold sbind at 1. rewrite get_law by done. unfold Ledger.Get.
  destruct (Ledger.tasks (view d) !! TaskRequest.TaskID req) as [current|] eqn:El; cbn [rbind].
  2: { eexists _, d, x. split_and!; [reflexivity|by split_and!|done..]. }
  pose proof (keyed d _ _ Hd El) as Hkey.
  assert (Hgo : forall ce : unit, exists r d' x',
      (let! now := Now s in
       let! npr := (fun w => (step current now, w)) in
       let '(next, produced, records) := npr in
       write (Update next (Task.Version current)) ;;!
       let! produced := persistOutcome produced records in sret (next, produced)) (d, x) =
        (r, (d', x')) /\ within d d' /\ Run.delivered x' = Run.delivered x /\
      let o := try! _ := (Ok ce : res unit) in step current (Service.clock s (Run.ticks x)) in
      Run.eventIDs x' = spent o (Run.eventIDs x) /\
      outcome_written o (Run.eventIDs x) (view d) r (view d')).
  { intros []. unfold sbind at 1, Now. unfold sbind at 1. cbn [rbind].
    destruct (step current _) as [[[next evs] recs]|e] eqn:Es.
    2: { eexists _, d, _. split_and!; [reflexivity|by split_and!|done..]. }
    destruct (Hstep _ _ _ _ _ Es) as (Hid & Hlen & Hev).
    set (x1 := x <| Run.ticks := S (Run.ticks x) |>).
    destruct (step_write next evs recs (Update next (Task.Version current))
      (Ledger.Update next (Task.Version current)) d x1)
      as (r & d' & x' & Hrun); [done..|by apply update_law| |done|by exists r, d', x'].
    unfold Ledger.Update. rewrite Hid, Hkey, El. by rewrite decide_True. }
  destruct (TaskRequest.Version req) as [v|]; [|apply (Hgo tt)].
  unfold sbind at 1. destruct (decide (v <> Task.Version current)); [|apply (Hgo tt)].
  eexists _, d, x. split_and!; [reflexivity|by split_and!|done..].
Qed.

Definition create_plan (spec : TypeSpec.t) (id : string) (req : CreateRequest.t) (l : Ledger.t)
    (now : Time) : res outcome :=
  try! pe := Assign (Service.resolver s) (Some (Service.strategy s)) (NewTask spec id req now) now in
  match Ledger.tasks l !! Task.ID pe.1 with
  | Some _ => Err (ConflictError (Task.ID pe.1) 0 0)
  | None => Ok (pe.1, pe.2, recordsOf pe.2)
  end.

Lemma created_command spec id req now :
  exists c, Assign (Service.resolver s) (Some (Service.strategy s)) (NewTask spec id req now) now =
    Ok (reference c (NewTask spec id req now) now) /\
  permitted c (NewTask spec id req now) = true /\ silent c = false.
Proof.
  destruct (Assign_command (Service.resolver s) (Some (Service.strategy s))
    (NewTask spec id req now) now) as (c & Hc & Hp & Hk).
  { apply NewTask_new. }
  exists c. split_and!; [done..|].
  by destruct Hk as [[? ->]|(? & ? & -> & _)].
Qed.

Lemma create_body_run spec id req :
  carries_out (create_body s spec id req)
    (fun l x => create_plan spec id req l (Service.clock s (Run.ticks x))).
Proof.
  intros d x Hd Ha Hf. unfold create_body, create_plan, slift.
  unfold sbind at 1, Now. set (now := Service.clock s (Run.ticks x)).
  set (x1 := x <| Run.ticks := S (Run.ticks x) |>).
  destruct (created_command spec id req now) as (c & Hc & _ & _).
  unfold sbind at 1. rewrite Hc. cbn [rbind]. unfold reference. cbn [fst snd].
  set (placed := next_task c _ now). set (event := next_event c _ now).
  pose proof (create_law placed d Hd Ha) as Hm. unfold Ledger.Create in Hm.
  destruct (Ledger.tasks (view d) !! Task.ID placed) eqn:El.
  - unfold sbind, write, on_store. destruct Hm as (Hw & Hr & Hv). rewrite El in Hr, Hv.
    destruct (Create placed d) as [r1 d1]; cbn in Hr, Hv, Hw. subst r1.
    eexists _, d1, x1. split_and!; [reflexivity|done..].
  - destruct (step_write placed [event] (recordsOf [event]) (Create placed)
      (Ledger.Create placed) d x1) as (r & d' & x' & Hrun); [done| |done..| |done|].
    + intros e ->%list_elem_of_singleton. by destruct c.
    + unfold Ledger.Create. by rewrite El.
    + by exists r, d', x'.
Qed.

(** ** An operation on a store of its own, and inside the host's transaction *)

(** *** Delivery *)

(** Each event to each handler in turn, whatever the handlers answer. *)
Definition handed (events : list Event.t) : list (nat * Event.t) :=
  event ← events; imap (fun i _ => (i, event)) (Service.handlers s).

Lemma handle_run event i hs x errs :
  (handle event i hs (x, errs)).1 =
  x <| Run.delivered := Run.delivered x ++ imap (fun j _ => (i + j, event)) hs |>.
Proof.
  revert i x errs; induction hs as [|h hs IH]; intros i x errs; cbn [handle imap].
  { rewrite app_nil_r. by destruct x. }
  rewrite IH. cbn. rewrite <- app_assoc. cbn. rewrite Nat.add_0_r.
  by rewrite (imap_ext _ (fun j _ => (i + S j, event))) by (intros; f_equal; lia).
Qed.

Lemma handle_all_run events x errs :
  (for_each (fun event => handle event 0 (Service.handlers s)) events (x, errs)).1 =
  x <| Run.delivered := Run.delivered x ++ handed events |>.
Proof.
  revert x errs; induction events as [|e events IH]; intros x errs; cbn [for_each].
  { cbn. rewrite app_nil_r. by destruct x. }
  pose proof (handle_run e 0 (Service.handlers s) x errs) as Hh.
  destruct (handle e 0 (Service.handlers s) (x, errs)) as [x1 errs1]; cbn in Hh. rewrite IH, Hh. cbn.
  by rewrite <- app_assoc.
Qed.

Lemma deliver_run events x :
  (deliver s events x).2 = x <| Run.delivered := Run.delivered x ++ handed events |>.
Proof.
  unfold deliver. destruct (decide (length events = 0)) as [Hl|Hl].
  { rewrite bool_decide_true by done. destruct events; [|done]. cbn. rewrite app_nil_r.
    by destruct x. }
  rewrite (bool_decide_false (length events = 0)) by done. cbn [orb].
  case_bool_decide as Hh.
  { unfold handed. destruct (Service.handlers s); [|done]. cbn.
    assert (E : (event ← events; ([] : list (nat * Event.t))) = [])
      by (clear; induction events; [done|exact IHevents]).
    rewrite E, app_nil_r. by destruct x. }
  pose proof (handle_all_run events x []) as Ha.
  by destruct (for_each _ events (x, [])) as [x1 errs]; cbn in *.
Qed.

Lemma finish_run task events hostLed d x :
  exists x', finish s task events hostLed (d, x) =
    (Ok (Result.mk task events (if hostLed then events else [])), (d, x')) /\
  Run.delivered x' = Run.delivered x ++ (if hostLed then [] else handed events) /\
  Run.ticks x' = Run.ticks x /\ Run.ids x' = Run.ids x /\ Run.eventIDs x' = Run.eventIDs x.
Proof.
  unfold finish. destruct hostLed.
  { exists x. by rewrite app_nil_r. }
  pose proof (deliver_run events x) as Hd. destruct (deliver s events x) as [err x1]; cbn in Hd.
  subst x1. eexists. split; [reflexivity|]. by destruct err.
Qed.

(** What a caller learns, what is committed and what the handlers saw. *)
Definition published (cancelled : option error) (o : res outcome) (g : G) (l l' : Ledger.t)
    (seen seen' : list (nat * Event.t)) (r : res Result.t) : Prop :=
  match o with
  | Err e => r = Err e /\ l' = l /\ seen' = seen
  | Ok (next, evs, recs) =>
      match (stamps evs g).1, cancelled with
      | Err e, _ | Ok _, Some e => r = Err e /\ l' = l /\ seen' = seen
      | Ok stamped, None =>
          r = Ok (Result.mk next stamped []) /\ l' = apply_outcome next recs stamped l /\
          seen' = seen ++ handed stamped
      end
  end.

(** Inside the host's transaction nothing is published and nothing handed over:
    the result carries the events for the host to dispatch. *)
Definition deferred (o : res outcome) (g : G) (l l' : Ledger.t) (r : res Result.t) : Prop :=
  match o with
  | Err e => r = Err e /\ l' = l
  | Ok (next, evs, recs) =>
      match (stamps evs g).1 with
      | Err e => r = Err e /\ Ledger.keys l' = Ledger.keys l
      | Ok stamped =>
          r = Ok (Result.mk next stamped stamped) /\ l' = apply_outcome next recs stamped l
      end
  end.

Lemma own_run cancelled body plan d x :
  carries_out body plan -> sound d -> InTransaction d = false ->
  fresh 1 (Run.eventIDs x) (Ledger.keys (base d)) ->
  exists r d' x',
    (let! te := Do cancelled body in finish s te.1 te.2 false) (d, x) = (r, (d', x')) /\
    InTransaction d' = false /\ sound d' /\
    Run.eventIDs x' = spent (plan (base d) x) (Run.eventIDs x) /\
    published cancelled (plan (base d) x) (Run.eventIDs x) (base d) (base d')
      (Run.delivered x) (Run.delivered x') r.
Proof.
  intros Hbody Hd Hn Hf. destruct (begin_law d Hd Hn) as (Ha & Hb & Hv & Hs & _).
  destruct (Hbody (begin d) x) as (r & d1 & x1 & Hrun & (Ha1 & Hb1 & Hs1) & Hde & Hg & Hout);
    [done..|by rewrite Hv|].
  unfold sbind. rewrite do_owns, Hrun by done. clear Hrun. rewrite Hv in Hg, Hout.
  destruct (commit_law d1) as (Hc1 & Hc2 & Hc3); [done|congruence|].
  destruct (rollback_law d1) as (Hr1 & Hr2 & Hr3); [done|congruence|].
  assert (Hback : base (rollback d1) = base d) by congruence.
  unfold published, outcome_written in *.
  destruct (plan (base d) x) as [[[next evs] recs]|e].
  2: { destruct Hout as [-> _]. eexists _, _, _. split_and!; [reflexivity|done..]. }
  destruct (stamps evs (Run.eventIDs x)).1 as [stamped|e].
  2: { destruct Hout as [-> _]. eexists _, _, _. split_and!; [reflexivity|done..]. }
  destruct Hout as [-> Hl]. destruct cancelled as [e|].
  { eexists _, _, _. split_and!; [reflexivity|done..]. }
  destruct (finish_run next stamped false (commit d1) x1) as (x2 & Hfin & Hde2 & _ & _ & Hg2).
  cbn [fst snd]. rewrite Hfin.
  eexists _, _, _. split_and!; [reflexivity|done|done|congruence|done|congruence|congruence].
Qed.

Lemma joined_run cancelled body plan d x :
  carries_out body plan -> sound d -> InTransaction d = true ->
  fresh 1 (Run.eventIDs x) (Ledger.keys (view d)) ->
  exists r d' x',
    (let! te := Do cancelled body in finish s te.1 te.2 true) (d, x) = (r, (d', x')) /\
    within d d' /\ Run.delivered x' = Run.delivered x /\
    deferred (plan (view d) x) (Run.eventIDs x) (view d) (view d') r.
Proof.
  intros Hbody Hd Ha Hf.
  destruct (Hbody d x) as (r & d1 & x1 & Hrun & Hw & Hde & _ & Hout); [done..|].
  unfold sbind. rewrite do_joins, Hrun by done. clear Hrun.
  unfold deferred, outcome_written in *.
  destruct (plan (view d) x) as [[[next evs] recs]|e].
  2: { destruct Hout as [-> ?]. eexists _, _, _. split_and!; [reflexivity|done..]. }
  destruct (stamps evs (Run.eventIDs x)).1 as [stamped|e].
  2: { destruct Hout as [-> ?]. eexists _, _, _. split_and!; [reflexivity|done..]. }
  destruct Hout as [-> Hl].
  destruct (finish_run next stamped true d1 x1) as (x2 & Hfin & Hde2 & _).
  cbn [fst snd]. rewrite Hfin.
  eexists _, _, _. split_and!; [reflexivity|done| |done|done].
  by rewrite Hde2, app_nil_r.
Qed.

Lemma step_of_proper c req : proper_step (step_of s c req).
Proof.
  intros t now next evs recs (cmd & _ & _ & [= -> -> ->])%step_of_command.
  split; [apply next_identity|]. destruct (silent cmd); cbn; split; [lia| |lia|].
  - by intros e ?%not_elem_of_nil.
  - intros e ->%list_elem_of_singleton. by destruct cmd.
Qed.

Lemma call_run cancelled c req d x :
  TaskRequest.TaskID req <> "" ->
  call s cancelled c req (d, x) =
  (let! te := Do cancelled (mutate_body s req (step_of s c req)) in
   finish s te.1 te.2 (InTransaction d)) (d, x).
Proof. intros Hid. rewrite call_mutate. unfold mutate. by rewrite decide_False. Qed.

Lemma call_own cancelled c req d x :
  sound d -> InTransaction d = false -> TaskRequest.TaskID req <> "" ->
  fresh 1 (Run.eventIDs x) (Ledger.keys (base d)) ->
  let o := plan req (step_of s c req) (base d) (Service.clock s (Run.ticks x)) in
  exists r d' x',
    call s cancelled c req (d, x) = (r, (d', x')) /\ InTransaction d' = false /\ sound d' /\
    Run.eventIDs x' = spent o (Run.eventIDs x) /\
    published cancelled o (Run.eventIDs x) (base d) (base d')
      (Run.delivered x) (Run.delivered x') r.
Proof.
  intros Hd Hn Hid Hf o. rewrite call_run, Hn by done.
  apply (own_run cancelled _ _ d x (mutate_body_run req _ (step_of_proper c req)));
    [done..|exact Hf].
Qed.

Lemma plan_accepted c req l now next evs recs :
  plan req (step_of s c req) l now = Ok (next, evs, recs) ->
  exists current cmd,
    Ledger.tasks l !! TaskRequest.TaskID req = Some current /\
    (forall v, TaskRequest.Version req = Some v -> v = Task.Version current) /\
    runs s c req current cmd /\ is_ok (exec cmd current now) = true /\
    (next, evs, recs) = outcome_of cmd current now.
Proof.
  unfold plan, Ledger.Get. destruct (_ !! _) as [current|]; [|done]. cbn [rbind].
  intros ([] & Hv & Hstep)%rbind_ok. apply step_of_command in Hstep as (cmd & Hr & He & ->).
  exists current, cmd. split_and!; [done| |done..].
  intros v Hver. rewrite Hver in Hv.
  destruct (decide (v <> Task.Version current)) as [|Heq]; [done|by apply dec_stable in Heq].
Qed.

(** What one task's outcome changes: its own row, its own history, and the end of
    the outbox. *)
Lemma apply_outcome_spec next recs stamped l :
  Forall (fun r => TransitionRecord.TaskID r = Task.ID next) recs ->
  let l' := apply_outcome next recs stamped l in
  Ledger.tasks l' = <[ Task.ID next := Task.Normalize next ]> (Ledger.tasks l) /\
  Ledger.outbox l' = Ledger.outbox l ++ (Settle.record_event <$> stamped) /\
  Ledger.History (Task.ID next) l' = Ledger.History (Task.ID next) l ++
    ((fun r => r <| TransitionRecord.At := NormalizeTime (TransitionRecord.At r) |>) <$> recs) /\
  (forall id, id <> Task.ID next -> Ledger.History id l' = Ledger.History id l).
Proof.
  intros Hr. cbn. split_and!; [done..| |]; unfold Ledger.History; cbn; clear stamped.
  - generalize (Ledger.history l) as h. induction Hr as [|r recs Hid _ IH]; intros h; cbn [for_each].
    { by rewrite app_nil_r. }
    rewrite IH. unfold Ledger.log; cbn. rewrite Hid, lookup_insert_eq. cbn.
    by rewrite <- app_assoc.
  - intros id Hne. generalize (Ledger.history l) as h.
    induction Hr as [|r recs Hid _ IH]; intros h; cbn [for_each]; [done|].
    rewrite IH. unfold Ledger.log; cbn. by rewrite Hid, lookup_insert_ne by congruence.
Qed.

Lemma outcome_records cmd t now :
  Forall (fun r => TransitionRecord.TaskID r = Task.ID (next_task cmd t now))
    (outcome_of cmd t now).2.
Proof.
  unfold outcome_of; cbn [snd].
  destruct (LifecycleFacts.recorded cmd t); constructor; [|constructor].
  rewrite next_event_transition. cbn. symmetry. apply next_identity.
Qed.

Lemma record_normal r now :
  TransitionRecord.At r = NormalizeTime now ->
  r <| TransitionRecord.At := NormalizeTime (TransitionRecord.At r) |> = r.
Proof. intros H. rewrite H, NormalizeTime_idemp, <- H. by destruct r. Qed.

(** A silent command draws no identifier; any other draws one. *)
Lemma stamps_outcome cmd t now (g : G) used stamped :
  fresh 1 g used -> NoDup used -> (stamps (outcome_of cmd t now).1.2 g).1 = Ok stamped ->
  stamped = [] /\ silent cmd = true \/
  exists id, silent cmd = false /\ id ∉ used /\
    stamped = [(next_event cmd t now) <| Event.ID := id |>].
Proof.
  intros Hf Hu. unfold outcome_of; cbn [fst snd]. destruct (silent cmd) eqn:Hs; cbn [stamps fst].
  { intros [= <-]. by left. }
  assert (He : Event.ID (next_event cmd t now) = "") by (by destruct cmd).
  rewrite decide_False by (rewrite He; by intros []). cbn [fresh] in Hf.
  destruct (NewTaskID g) as [[id|] g1]; [|done]. cbn. intros [= <-]. right.
  exists id. by destruct Hf.
Qed.

(** *** Creation *)

(** The identifier a creation uses: the caller's, or one drawn from the generator. *)
Definition drawn (req : CreateRequest.t) (x : Run.t G) : res string * Run.t G :=
  if decide (CreateRequest.ID req = "") then
    let '(r, g) := NewTaskID (Run.ids x) in (r, x <| Run.ids := g |>)
  else (Ok (CreateRequest.ID req), x).

Definition admitted_type (req : CreateRequest.t) : res TypeSpec.t :=
  try! spec := Lookup (Service.registry s) (CreateRequest.Type_ req) in
  try! _ := ValidateInput (Service.registry s) (CreateRequest.Type_ req)
              (defaultedPayload (CreateRequest.Input req)) in
  Ok spec.

Lemma create_run cancelled req d x :
  Create_ s cancelled req (d, x) =
  match admitted_type req with
  | Err e => (Err e, (d, x))
  | Ok spec =>
      match drawn req x with
      | (Err e, x1) => (Err e, (d, x1))
      | (Ok id, x1) =>
          (let! te := Do cancelled (create_body s spec id req) in
           finish s te.1 te.2 (InTransaction d)) (d, x1)
      end
  end.
Proof.
  unfold Create_, admitted_type, drawn, sbind, slift.
  destruct (Lookup _ _) as [spec|]; [|done]. cbn [rbind].
  destruct (ValidateInput _ _ _) as [[]|]; [|done]. cbn [rbind]. case_decide; [|done].
  unfold newTaskID. by destruct (NewTaskID _) as [[] ?].
Qed.

Lemma drawn_kept req x r x1 :
  drawn req x = (r, x1) ->
  Run.eventIDs x1 = Run.eventIDs x /\ Run.delivered x1 = Run.delivered x /\
  Run.ticks x1 = Run.ticks x.
Proof.
  unfold drawn. case_decide; [destruct (NewTaskID _)|]; by intros [= _ <-].
Qed.

(** What creation decides: nothing but an error, or the plan for a drawn identifier. *)
Definition creation (req : CreateRequest.t) (x : Run.t G) (l : Ledger.t) : res outcome :=
  try! spec := admitted_type req in
  try! id := (drawn req x).1 in
  create_plan spec id req l (Service.clock s (Run.ticks x)).

Lemma create_own cancelled req d x :
  sound d -> InTransaction d = false -> fresh 1 (Run.eventIDs x) (Ledger.keys (base d)) ->
  exists r d' x',
    Create_ s cancelled req (d, x) = (r, (d', x')) /\ InTransaction d' = false /\ sound d' /\
    Run.eventIDs x' = spent (creation req x (base d)) (Run.eventIDs x) /\
    published cancelled (creation req x (base d)) (Run.eventIDs x) (base d) (base d')
      (Run.delivered x) (Run.delivered x') r.
Proof.
  intros Hd Hn Hf. rewrite create_run, Hn. unfold creation.
  destruct (admitted_type req) as [spec|e]; cbn [rbind].
  2: { by exists (Err e), d, x. }
  destruct (drawn req x) as [r x1] eqn:Ed.
  destruct (drawn_kept _ _ _ _ Ed) as (Hg & Hde & Ht). destruct r as [id|e]; cbn [fst rbind].
  2: { by exists (Err e), d, x1. }
  rewrite <- Hg, <- Hde, <- Ht.
  apply (own_run cancelled _ _ d x1 (create_body_run spec id req)); [done..|by rewrite Hg].
Qed.

Lemma creation_accepted req x l next evs recs :
  creation req x l = Ok (next, evs, recs) ->
  exists spec id cmd,
    let fresh_task := NewTask spec id req (Service.clock s (Run.ticks x)) in
    Lookup (Service.registry s) (CreateRequest.Type_ req) = Ok spec /\
    ValidateInput (Service.registry s) (CreateRequest.Type_ req)
      (defaultedPayload (CreateRequest.Input req)) = Ok tt /\
    (CreateRequest.ID req <> "" -> id = CreateRequest.ID req) /\
    Ledger.tasks l !! id = None /\ permitted cmd fresh_task = true /\ silent cmd = false /\
    Assign (Service.resolver s) (Some (Service.strategy s)) fresh_task
      (Service.clock s (Run.ticks x)) = Ok (reference cmd fresh_task (Service.clock s (Run.ticks x))) /\
    (next, evs, recs) = outcome_of cmd fresh_task (Service.clock s (Run.ticks x)).
Proof.
  unfold creation, admitted_type. set (now := Service.clock s (Run.ticks x)).
  intros (spec & Hspec & H)%rbind_ok.
  apply rbind_ok in Hspec as (spec' & Hl & Hspec). apply rbind_ok in Hspec as ([] & Hval & [= ->]).
  apply rbind_ok in H as (id & Hid & H). unfold create_plan in H.
  destruct (created_command spec id req now) as (cmd & Hc & Hp & Hs).
  rewrite Hc in H. unfold reference in H. cbn [rbind fst snd] in H.
  destruct (next_identity cmd (NewTask spec id req now) now) as [Hnid _].
  destruct (NewTask_new spec id req now) as [Hnew _]. rewrite Hnid, Hnew in H.
  destruct (Ledger.tasks l !! id) eqn:El; [done|]. injection H as <- <- <-.
  exists spec, id, cmd. cbv zeta. split_and!; [done..| |done|done|done|done|].
  - intros Hne. unfold drawn in Hid. rewrite decide_False in Hid by done. by injection Hid.
  - unfold outcome_of. rewrite Hs. by destruct cmd.
Qed.

(** ** Properties *)

(** An operation of the service on a store outside any transaction, for every
    operation, request and state: it is decided by the task and the version the
    ledger holds and by the lifecycle step; either the task, its history and its
    event are committed together and the handlers are handed the event, or the
    error is returned, the committed ledger is what it was and no handler hears
    of it.  A cancellation during the transaction undoes it. *)
Theorem call_published cancelled c req d x :
  sound d -> InTransaction d = false -> TaskRequest.TaskID req <> "" ->
  fresh 1 (Run.eventIDs x) (Ledger.keys (base d)) ->
  exists r d' x',
    call s cancelled c req (d, x) = (r, (d', x')) /\ InTransaction d' = false /\ sound d' /\
    published cancelled
      (plan req (step_of s c req) (base d) (Service.clock s (Run.ticks x)))
      (Run.eventIDs x) (base d) (base d') (Run.delivered x) (Run.delivered x') r.
Proof.
  intros Hd Hn Hid Hf. destruct (call_own cancelled c req d x) as (r & d' & x' & Hc & Ha & Hs & _ & Hp);
    [done..|]. by exists r, d', x'.
Qed.

(** C1: What an accepted operation did: there was a task under the requested
    identifier, at the requested version when one was named; the operation's
    lifecycle command was legal for it and its own checks passed; the stored task
    is the command's, every other task is untouched; the history grew by the
    command's record; and the outbox grew by the command's event under an
    identifier no event had before.  Saving progress announces nothing. *)
Theorem call_accepted cancelled c req d x result d' x' :
  sound d -> InTransaction d = false -> fresh 1 (Run.eventIDs x) (Ledger.keys (base d)) ->
  call s cancelled c req (d, x) = (Ok result, (d', x')) ->
  let id := TaskRequest.TaskID req in
  let now := Service.clock s (Run.ticks x) in
  exists current cmd,
    Ledger.tasks (base d) !! id = Some current /\
    (forall v, TaskRequest.Version req = Some v -> v = Task.Version current) /\
    runs s c req current cmd /\ is_ok (exec cmd current now) = true /\
    Result.Task_ result = next_task cmd current now /\
    Ledger.tasks (base d') =
      <[ id := Task.Normalize (next_task cmd current now) ]> (Ledger.tasks (base d)) /\
    Ledger.History id (base d') = Ledger.History id (base d) ++
      (if LifecycleFacts.recorded cmd current then [Event.Transition (next_event cmd current now)]
       else []) /\
    (forall other, other <> id -> Ledger.History other (base d') = Ledger.History other (base d)) /\
    Ledger.outbox (base d') =
      Ledger.outbox (base d) ++ (Settle.record_event <$> Result.Events result) /\
    (Result.Events result = [] /\ silent cmd = true \/
     exists event, silent cmd = false /\ event ∉ Ledger.keys (base d) /\
       Result.Events result = [(next_event cmd current now) <| Event.ID := event |>]) /\
    Run.delivered x' = Run.delivered x ++ handed (Result.Events result).
Proof.
  intros Hd Hn Hf Hcall id now.
  assert (Hid : id <> "").
  { intros Hid. rewrite call_mutate in Hcall. unfold mutate in Hcall.
    by rewrite decide_True in Hcall. }
  destruct (call_own cancelled c req d x) as (r & d1 & x1 & Hc & _ & _ & _ & Hp); [done..|].
  rewrite Hc in Hcall. injection Hcall as -> -> ->. unfold published in Hp.
  destruct (plan req _ (base d) _) as [[[next evs] recs]|] eqn:Eplan; [|naive_solver].
  apply plan_accepted in Eplan as (current & cmd & Hcur & Hver & Hruns & Hex & Ho).
  injection Ho as -> -> ->.
  destruct (stamps _ _).1 as [stamped|] eqn:Es; [|naive_solver].
  destruct cancelled; [naive_solver|]. destruct Hp as ([= ->] & Hbase & Hde).
  pose proof (apply_outcome_spec _ _ stamped (base d) (outcome_records cmd current now)) as Hspec.
  cbv zeta in Hspec. unfold outcome_of in Hspec; cbn [snd] in Hspec. fold now in Hbase. rewrite <- Hbase in Hspec.
  destruct Hspec as (Htasks & Hout & Hhist & Hothers).
  assert (Hkey : Task.ID (next_task cmd current now) = id).
  { destruct (next_identity cmd current now) as [-> _]. eapply (keyed d); [done|].
    by rewrite view_outside. }
  rewrite Hkey in *. unfold outcome_of in *; cbn [fst snd] in *.
  exists current, cmd. split_and!; [done..| |done|done| |done].
  - rewrite Hhist. destruct (LifecycleFacts.recorded cmd current); [|done].
    cbn [fmap list_fmap]. rewrite (record_normal _ now); [done|]. by rewrite next_event_transition.
  - eapply (stamps_outcome cmd current now); [done| |exact Es].
    rewrite <- view_outside by done. by apply distinct_events.
Qed.

(** The same operation inside the host's transaction: the host's ledger takes
    the outcome, the committed ledger and the handlers see nothing, and the result
    hands the host the events to dispatch once its transaction has committed. *)
Theorem call_deferred cancelled c req d x :
  sound d -> InTransaction d = true -> TaskRequest.TaskID req <> "" ->
  fresh 1 (Run.eventIDs x) (Ledger.keys (view d)) ->
  exists r d' x',
    call s cancelled c req (d, x) = (r, (d', x')) /\
    InTransaction d' = true /\ sound d' /\ base d' = base d /\
    Run.delivered x' = Run.delivered x /\
    deferred (plan req (step_of s c req) (view d) (Service.clock s (Run.ticks x)))
      (Run.eventIDs x) (view d) (view d') r /\
    forall result, r = Ok result ->
      Result.Pending result = bool_decide (0 < length (Result.Events result)) /\
      (Dispatch s result x').2 =
        x' <| Run.delivered := Run.delivered x ++ handed (Result.Events result) |>.
Proof.
  intros Hd Ha Hid Hf. rewrite call_run, Ha by done.
  destruct (joined_run cancelled _ _ d x (mutate_body_run req _ (step_of_proper c req)))
    as (r & d' & x' & Hr & (Ha' & Hb & Hs) & Hde & Hout); [done..|].
  exists r, d', x'. split_and!; [done|by rewrite Ha'|done..|].
  intros result ->. assert (Hp : Result.pending result = Result.Events result).
  { unfold deferred in Hout. repeat case_match; naive_solver. }
  unfold Result.Pending, Dispatch. rewrite Hp. split; [done|]. rewrite <- Hde. case_decide as Hl.
  - destruct (Result.Events result); [|done]. cbn. rewrite app_nil_r. by destruct x'.
  - apply deliver_run.
Qed.

(** What an accepted creation did: the type is registered, its input passed,
    the identifier was free; the stored task is the template placed by the
    assignment step, and its history and event start with the placement. *)
Theorem create_accepted cancelled req d x result d' x' :
  sound d -> InTransaction d = false -> fresh 1 (Run.eventIDs x) (Ledger.keys (base d)) ->
  Create_ s cancelled req (d, x) = (Ok result, (d', x')) ->
  let now := Service.clock s (Run.ticks x) in
  exists spec id cmd event,
    let fresh_task := NewTask spec id req now in
    Lookup (Service.registry s) (CreateRequest.Type_ req) = Ok spec /\
    ValidateInput (Service.registry s) (CreateRequest.Type_ req)
      (defaultedPayload (CreateRequest.Input req)) = Ok tt /\
    (CreateRequest.ID req <> "" -> id = CreateRequest.ID req) /\
    Ledger.tasks (base d) !! id = None /\
    Assign (Service.resolver s) (Some (Service.strategy s)) fresh_task now =
      Ok (reference cmd fresh_task now) /\
    Result.Task_ result = next_task cmd fresh_task now /\
    Ledger.tasks (base d') =
      <[ id := Task.Normalize (Result.Task_ result) ]> (Ledger.tasks (base d)) /\
    Ledger.History id (base d') =
      Ledger.History id (base d) ++ [Event.Transition (next_event cmd fresh_task now)] /\
    event ∉ Ledger.keys (base d) /\
    Result.Events result = [(next_event cmd fresh_task now) <| Event.ID := event |>] /\
    Ledger.outbox (base d') =
      Ledger.outbox (base d) ++ (Settle.record_event <$> Result.Events result) /\
    Run.delivered x' = Run.delivered x ++ handed (Result.Events result).
Proof.
  intros Hd Hn Hf Hcall now.
  destruct (create_own cancelled req d x) as (r & d1 & x1 & Hc & _ & _ & _ & Hp); [done..|].
  rewrite Hc in Hcall. injection Hcall as -> -> ->. unfold published in Hp.
  destruct (creation req x (base d)) as [[[next evs] recs]|] eqn:Eplan; [|naive_solver].
  apply creation_accepted in Eplan as (spec & id & cmd & Hl & Hv & Hid & Hfree & _ & Hsil & Has & Ho).
  injection Ho as -> -> ->. fold now in Has, Hp.
  set (t := NewTask spec id req now) in *.
  destruct (stamps _ _).1 as [stamped|] eqn:Es; [|naive_solver].
  destruct cancelled; [naive_solver|]. destruct Hp as ([= ->] & Hbase & Hde).
  pose proof (apply_outcome_spec _ _ stamped (base d) (outcome_records cmd t now)) as Hspec.
  cbv zeta in Hspec. unfold outcome_of in Hspec; cbn [snd] in Hspec. rewrite <- Hbase in Hspec.
  destruct Hspec as (Htasks & Hout & Hhist & _).
  destruct (stamps_outcome cmd t now (Run.eventIDs x) (Ledger.keys (base d)) stamped)
    as [[_ Habs]|(event & _ & Hfresh & ->)]; [done| |exact Es|congruence|].
  { rewrite <- view_outside by done. by apply distinct_events. }
  assert (Hkey : Task.ID (next_task cmd t now) = id).
  { destruct (next_identity cmd t now) as [-> _]. apply NewTask_new. }
  rewrite Hkey in Htasks, Hhist.
  exists spec, id, cmd, event. cbv zeta. split_and!; [done..| |done|done|done|done].
  rewrite Hhist. replace (LifecycleFacts.recorded cmd t) with true by (by destruct cmd).
  cbn [fmap list_fmap]. rewrite (record_normal _ now); [done|]. by rewrite next_event_transition.
Qed.
End facts.
