(* ===== verification/ServiceReads.v ===== *)
(** * ServiceReads: queries and counts

    What the read half of the service promises: a row of bucket counts is one
    count per bucket, although the groups of each candidate are resolved once for
    the whole row; and the candidate filter of a query shows an actor the open
    work the eligibility check lets the actor claim. *)

From S2P Require Import Prelude Domain Errors Event Lifecycle LifecycleFacts Assignment.
From S2P Require Import Query Outbox Store Ident Registry Service.

Section reads.
Context {D : Type} `{!Store D}.
Context (s : Service.t).

(** What a cache of resolved groups may hold. *)
Definition cache_ok (cache : gmap string (list string)) : Prop :=
  forall candidate groups, cache !! candidate = Some groups ->
    exists resolver, Service.resolver s = Some resolver /\
      GroupResolver.GroupsOf resolver candidate = Ok groups.

Lemma resolve_cached query cache :
  cache_ok cache ->
  match resolve s query (Some cache) with
  | Ok (resolved, cache') =>
      resolve s query None = Ok (resolved, None) /\ exists c, cache' = Some c /\ cache_ok c
  | Err e => resolve s query None = Err e
  end.
Proof.
  intros Hc. unfold resolve. destruct (Query.validate query) as [[]|]; [|done]. cbn [rbind].
  destruct (decide (Query.Candidate query = "")); [by eauto|].
  change (None ≫= (fun c : gmap string (list string) => c !! Query.Candidate query))
    with (@None (list string)).
  change (Some cache ≫= (fun c => c !! Query.Candidate query)) with (cache !! Query.Candidate query).
  destruct (cache !! Query.Candidate query) as [groups|] eqn:El.
  - destruct (Hc _ _ El) as (resolver & -> & ->). eauto.
  - destruct (Service.resolver s) as [resolver|] eqn:Er; [|done].
    destruct (GroupResolver.GroupsOf resolver _) as [groups|] eqn:Eg; [|done].
    split; [done|]. eexists; split; [reflexivity|]. intros c g.
    intros [[<- <-]|[_ ?]]%lookup_insert_Some; [by exists resolver|by apply Hc].
Qed.

Lemma Count_invalid query e (d : D) : Query.validate query = Err e -> Count_ s query d = Err e.
Proof. intros H. unfold Count_, resolve. by rewrite H. Qed.

Lemma validate_all_spec buckets names :
  match validate_all buckets names with
  | Ok _ => True
  | Err e => exists name q, buckets !! name = Some q /\ Query.validate q = Err e
  end.
Proof.
  induction names as [|name names IH]; cbn; [done|].
  destruct (buckets !! name) as [q|] eqn:Eq; [|exact IH].
  destruct (Query.validate q) as [[]|] eqn:Ev; [exact IH|]. cbn. eauto.
Qed.

Lemma count_all_spec buckets names cache counts (d : D) :
  NoDup names -> cache_ok cache -> (forall name, name ∈ names -> is_Some (buckets !! name)) ->
  match count_all s buckets names (Some cache) counts d with
  | Ok counts' =>
      (forall name, name ∈ names -> exists q n,
         buckets !! name = Some q /\ Count_ s q d = Ok n /\ counts' !! name = Some n) /\
      (forall name, name ∉ names -> counts' !! name = counts !! name)
  | Err e => exists name q, buckets !! name = Some q /\ Count_ s q d = Err e
  end.
Proof.
  intros Hn. revert cache counts; induction Hn as [|name names Hni _ IH];
    intros cache counts Hc Hb; cbn [count_all].
  { split; [by intros ? ?%not_elem_of_nil|done]. }
  destruct (Hb name) as [q Hq]; [by left|]. rewrite Hq.
  pose proof (resolve_cached q cache Hc) as Hres.
  destruct (resolve s q (Some cache)) as [[resolved cache']|e]; cbn [rbind].
  2: { exists name, q. split; [done|]. unfold Count_. by rewrite Hres. }
  destruct Hres as (Hres & c & -> & Hc').
  assert (Hcount : Count_ s q d = RunCount resolved d) by (unfold Count_; by rewrite Hres).
  cbn [fst snd]. destruct (RunCount resolved d) as [n|e]; cbn [rbind]; [|by exists name, q].
  specialize (IH c (<[ name := n ]> counts) Hc' ltac:(intros; apply Hb; by right)).
  destruct (count_all _ _ _ _ _ _) as [counts'|e]; [|done]. destruct IH as [Hin Hout]. split.
  - intros name' [->|Hin']%elem_of_cons; [|by apply Hin].
    exists q, n. rewrite Hout by done. by rewrite lookup_insert_eq.
  - intros name' [Hne Hni']%not_elem_of_cons. rewrite Hout by done.
    by rewrite lookup_insert_ne.
Qed.

(** A row of bucket counts is one [Count] per bucket, although each
    candidate's groups are looked up once for the row: when the row succeeds it
    names exactly the buckets asked for, each with the count its query has alone;
    when it fails, it had too many buckets or one of their counts fails alone with
    that error. *)
Theorem count_buckets_agree buckets (d : D) :
  match CountBuckets s buckets d with
  | Ok counts =>
      (Z.of_nat (size buckets) <= MaxCountBuckets)%Z /\
      forall name,
        match buckets !! name with
        | Some q => exists n, Count_ s q d = Ok n /\ counts !! name = Some n
        | None => counts !! name = None
        end
  | Err e =>
      (MaxCountBuckets < Z.of_nat (size buckets))%Z \/
      exists name q, buckets !! name = Some q /\ Count_ s q d = Err e
  end.
Proof.
  unfold CountBuckets. destruct (decide (MaxCountBuckets < Z.of_nat (size buckets))%Z) as [|Hs];
    [by left|].
  set (names := sort_strings _).
  assert (Hperm : names ≡ₚ (map_to_list buckets).*1) by apply merge_sort_Permutation.
  assert (Hdom : forall name, name ∈ names <-> is_Some (buckets !! name)).
  { intros name. rewrite Hperm, list_elem_of_fmap. split.
    - intros ([k q] & -> & Hin%elem_of_map_to_list). eauto.
    - intros [q Hq]. exists (name, q). split; [done|]. by apply elem_of_map_to_list. }
  pose proof (validate_all_spec buckets names) as Hval.
  destruct (validate_all buckets names) as [[]|e]; cbn [rbind].
  2: { right. destruct Hval as (name & q & Hq & Hv). exists name, q.
       split; [done|]. by apply Count_invalid. }
  pose proof (count_all_spec buckets names ∅ ∅ d) as Hall.
  destruct (count_all _ _ _ _ _ _) as [counts|e].
  - destruct Hall as [Hin Hout].
    { rewrite Hperm. apply NoDup_fst_map_to_list. }
    { intros c g. by rewrite lookup_empty. }
    { intros name. apply Hdom. }
    split; [lia|]. intros name. destruct (buckets !! name) as [q|] eqn:Eq.
    + destruct (Hin name) as (q' & n & Hq' & Hc & Hl); [apply Hdom; eauto|].
      exists n. by replace q with q' by congruence.
    + rewrite Hout; [apply lookup_empty|]. rewrite Hdom, Eq. by intros [].
  - right. apply Hall; [|intros c g; by rewrite lookup_empty|intros name; apply Hdom].
    rewrite Hperm. apply NoDup_fst_map_to_list.
Qed.

(** ** The inbox *)

Lemma in_any_group_any task groups :
  in_any_group task groups = any_group (CandidatePool.Groups (Task.Candidates task)) groups.
Proof. induction groups as [|g groups IH]; cbn; [done|]. by case_match. Qed.

Lemma any_group_nil groups : any_group [] groups = false.
Proof. by induction groups. Qed.

(** The inbox agrees with the eligibility check: for a task nobody holds, the
    candidate filter of a query, with the groups the service resolved for it, lets
    a task through exactly when the check finds the candidate eligible; a task
    someone holds it shows to the holder alone, unless the pool excludes them. *)
Theorem inbox_is_eligibility query resolved task :
  resolve s query None = Ok (resolved, None) -> Query.Candidate query <> "" ->
  matchesCandidate task resolved =
    if decide (Task.Assignee task = "")
    then match Eligible s task (Query.Candidate query) with Ok eligible => eligible | Err _ => false end
    else bool_decide (Task.Assignee task = Query.Candidate query) &&
         negb (contains (CandidatePool.Excluded (Task.Candidates task)) (Query.Candidate query)).
Proof.
  intros Hres Hne. unfold resolve in Hres. apply rbind_ok in Hres as ([] & _ & Hres).
  rewrite decide_False in Hres by done. cbn in Hres.
  destruct (Service.resolver s) as [resolver|] eqn:Er; [|done].
  destruct (GroupResolver.GroupsOf resolver _) as [groups|] eqn:Eg; [|done].
  injection Hres as <-. unfold matchesCandidate. cbn [ResolvedQuery.Query_ ResolvedQuery.CandidateGroups].
  change (Query.Candidate (Query.Clone query)) with (Query.Candidate query).
  rewrite decide_False by done. unfold Eligible, IsEligible. rewrite Er, Eg, in_any_group_any.
  rewrite (decide_False (P := Query.Candidate query = "")) by done.
  destruct (contains (CandidatePool.Excluded _) _); [by destruct (decide _); rewrite ?andb_false_r|].
  rewrite andb_true_r. destruct (decide (Task.Assignee task = "")) as [->|Ha].
  - rewrite decide_False by (by intros []). destruct (contains (CandidatePool.Users _) _); [done|].
    destruct (decide (length (CandidatePool.Groups (Task.Candidates task)) = 0)) as [Hl|Hl].
    + destruct (CandidatePool.Groups _); [|done]. by rewrite any_group_nil.
    + by destruct (any_group _ groups).
  - by rewrite decide_True.
Qed.
End reads.
