(* ===== verification/EngineInvariant.v ===== *)
(** * EngineInvariant: every ledger the engine can reach is in order

    The invariant relates the three things the engine writes together: each task
    is well formed and stored under its identifier, its history tells the story of
    its state and version, and every recorded event is backed by a record of the
    history of the task it names.  It holds for the empty ledger and is kept by
    any sequence of creations, operations and sweep claims, on any store that
    keeps [StoreLaws], whatever they answer. *)

From S2P Require Import Prelude Domain Errors Event Lifecycle LifecycleFacts Assignment.
From S2P Require Import Query Outbox Store Ident Registry Service ServiceFacts.

Record LedgerOk (n : Z) (l : Ledger.t) : Prop := {
  ok_tasks id task : Ledger.tasks l !! id = Some task ->
    Task.ID task = id /\ TaskWf task /\ HistoryOk task (Ledger.History id l) /\
    (Task.Version task <= n)%Z /\ Task.Normalize task = task;
  ok_absent id : Ledger.tasks l !! id = None -> Ledger.History id l = [];
  ok_announced e : e ∈ Ledger.outbox l ->
    Event.Transition (OutboxEntry.Event e)
      ∈ Ledger.History (Event.TaskID (OutboxEntry.Event e)) l
}.

Lemma LedgerOk_empty : LedgerOk 0 Ledger.empty.
Proof.
  constructor; cbn.
  - intros id task. by rewrite lookup_empty.
  - done.
  - by intros e ?%not_elem_of_nil.
Qed.

Lemma LedgerOk_later n m l : (n <= m)%Z -> LedgerOk n l -> LedgerOk m l.
Proof.
  intros Hle [Ht Ha He]. constructor; [|done..].
  intros id task (?&?&?&?&?)%Ht. split_and!; [done..|lia|done].
Qed.

(** ** Storing a normalised task changes nothing the invariant speaks of *)

Lemma Normalize_fields t :
  Task.ID (Task.Normalize t) = Task.ID t /\ Task.Version (Task.Normalize t) = Task.Version t /\
  Task.Status (Task.Normalize t) = Task.Status t.
Proof. unfold Task.Normalize. rewrite Task_Clone_id. by destruct t. Qed.

Lemma Normalize_wf t : TaskWf t -> TaskWf (Task.Normalize t).
Proof.
  intros []. unfold Task.Normalize. rewrite Task_Clone_id.
  assert (Hn : forall o, normalizeTimePtr o = None <-> o = None) by (by intros []).
  destruct t; cbn in *. constructor; cbn in *; rewrite ?Hn; done.
Qed.

Lemma HistoryOk_same t t' h :
  Task.ID t' = Task.ID t -> Task.Version t' = Task.Version t -> Task.Status t' = Task.Status t ->
  HistoryOk t h -> HistoryOk t' h.
Proof. unfold HistoryOk. by intros -> -> ->. Qed.

Lemma leased_wf lease task :
  Ledger.claimable lease task = true -> TaskWf task -> TaskWf (Ledger.leased lease task).
Proof.
  intros Hc Hwf. apply Normalize_wf.
  assert (Hopen : IsTerminal (Task.Status task) = false).
  { unfold Ledger.claimable, Task.IsOverdue in Hc. destruct (Task.DueAt task); [|done].
    by destruct (IsTerminal (Task.Status task)). }
  destruct Hwf, task; cbn in *. constructor; cbn; try done. by rewrite Hopen.
Qed.

Lemma leased_fields lease task :
  Task.ID (Ledger.leased lease task) = Task.ID task /\
  Task.Version (Ledger.leased lease task) = Task.Version task /\
  Task.Status (Ledger.leased lease task) = Task.Status task.
Proof.
  unfold Ledger.leased. destruct (Normalize_fields (task <| Task.LockedBy := LeaseRequest.Owner lease |>
    <| Task.LockedUntil := Some (NormalizeTime (LeaseRequest.Now lease) +
         LeaseRequest.Duration lease)%Z |>)) as (-> & -> & ->). by destruct task.
Qed.

(** ** The steps *)

Lemma outcome_keeps n l next rec events :
  LedgerOk n l -> TaskWf next -> (Task.Version next <= n + 1)%Z ->
  Forall (fun r => TransitionRecord.TaskID r = Task.ID next /\
                   r <| TransitionRecord.At := NormalizeTime (TransitionRecord.At r) |> = r) rec ->
  HistoryOk next (Ledger.History (Task.ID next) l ++ rec) ->
  (forall e, e ∈ events -> Event.TaskID e = Task.ID next /\ Event.Transition e ∈ rec) ->
  LedgerOk (n + 1) (apply_outcome next rec events l).
Proof.
  intros [Ht Ha He] Hwf Hv Hrec Hh Hev.
  destruct (apply_outcome_spec next rec events l) as (Htasks & Hout & Hhist & Hother).
  { eapply Forall_impl; [exact Hrec|]. by intros ? []. }
  assert (Hrec' : (fun r => r <| TransitionRecord.At := NormalizeTime (TransitionRecord.At r) |>) <$> rec
                  = rec).
  { clear -Hrec. induction Hrec as [|r rec [_ Hr] _ IH]; [done|].
    rewrite fmap_cons, IH. cbn beta. by rewrite Hr. }
  rewrite Hrec' in Hhist. destruct (Normalize_fields next) as (Hid & Hver & Hst).
  constructor.
  - intros id task. rewrite Htasks. intros [[<- <-]|[Hne Hl]]%lookup_insert_Some.
    + rewrite Hhist, Hid, Hver.
      split_and!; [done|by apply Normalize_wf| |done|apply Task_Normalize_idemp].
      by eapply HistoryOk_same.
    + destruct (Ht _ _ Hl) as (?&?&?&?&?). rewrite Hother by done. split_and!; [done..|lia|done].
  - intros id. rewrite Htasks. intros [Hl Hne]%lookup_insert_None.
    rewrite Hother by done. by apply Ha.
  - intros e. rewrite Hout. intros [Hin|Hin]%elem_of_app.
    + apply He in Hin. destruct (decide (Event.TaskID (OutboxEntry.Event e) = Task.ID next)) as [E|Hne].
      * rewrite E in Hin |- *. rewrite Hhist. apply elem_of_app. by left.
      * by rewrite Hother.
    + apply list_elem_of_fmap in Hin as (ev & -> & Hin).
      change (OutboxEntry.Event (Settle.record_event ev)) with ev.
      destruct (Hev ev Hin) as [-> Htr]. rewrite Hhist. apply elem_of_app. by right.
Qed.

Lemma claim_keeps n l lease :
  LedgerOk n l -> LedgerOk n (Ledger.ClaimOverdue lease l).2.
Proof.
  intros [Ht Ha He]. rewrite ClaimOverdue_eq. cbv zeta. cbn [snd].
  set (ts := Ledger.leased lease <$> overdue_tasks lease l).
  assert (Hsame : forall l', Ledger.history (for_each Ledger.put ts l') = Ledger.history l' /\
    Ledger.outbox (for_each Ledger.put ts l') = Ledger.outbox l').
  { clear. induction ts as [|t ts IH]; intros l'; cbn; [done|]. destruct (IH (Ledger.put t l')). done. }
  destruct (Hsame l) as [Hh Ho].
  assert (Hhist : forall id, Ledger.History id (for_each Ledger.put ts l) = Ledger.History id l)
    by (intros; unfold Ledger.History; by rewrite Hh).
  constructor.
  - intros id task. rewrite Hhist. intros [(t & Hin & Hid & ->)|[_ Hl]]%put_all_lookup; [|by apply Ht].
    apply list_elem_of_fmap in Hin as (t0 & -> & Hin).
    apply overdue_tasks_spec in Hin as [Hc [id0 Hl]].
    destruct (Ht _ _ Hl) as (Hk & Hwf & Hok & Hv & _).
    destruct (leased_fields lease t0) as (Hi & Hve & Hs). rewrite Normalize_leased.
    replace id with id0 by congruence.
    split_and!; [congruence|by apply leased_wf| |by rewrite Hve|apply Normalize_leased].
    by eapply HistoryOk_same.
  - intros id Hl. rewrite Hhist. apply Ha.
    destruct (Ledger.tasks l !! id) as [t|] eqn:E; [|done]. exfalso.
    assert (Hkeep : forall l', is_Some (Ledger.tasks l' !! id) ->
      is_Some (Ledger.tasks (for_each Ledger.put ts l') !! id)).
    { clear. induction ts as [|x ts IH]; intros l' H; cbn; [done|]. apply IH. cbn.
      apply lookup_insert_is_Some. destruct (decide (Task.ID x = id)); [by left|by right]. }
    destruct (Hkeep l) as [? E']; [by rewrite E|]. by rewrite E' in Hl.
  - intros e. rewrite Ho, Hhist. apply He.
Qed.

(** ** How a ledger advances *)

(** Equal but for the lease. *)
Definition same_work (t t' : Task.t) : Prop :=
  t = t' <| Task.LockedBy := Task.LockedBy t |> <| Task.LockedUntil := Task.LockedUntil t |>.

Definition advances (l l' : Ledger.t) : Prop :=
  forall id t, Ledger.tasks l !! id = Some t ->
    exists t', Ledger.tasks l' !! id = Some t' /\
      (same_work t t' \/ (Task.Version t < Task.Version t')%Z).

Lemma same_work_fields t t' :
  same_work t t' -> Task.Version t = Task.Version t' /\ Task.Status t = Task.Status t' /\
    Task.EscalationCount t = Task.EscalationCount t' /\ Task.ID t = Task.ID t' /\
    Task.Escalation t = Task.Escalation t' /\ Task.Type_ t = Task.Type_ t'.
Proof. unfold same_work. intros ->. done. Qed.

Lemma same_work_refl t : same_work t t.
Proof. by destruct t. Qed.

Lemma same_work_trans t1 t2 t3 : same_work t1 t2 -> same_work t2 t3 -> same_work t1 t3.
Proof. unfold same_work. intros -> ->. by destruct t3. Qed.

Lemma advances_refl l : advances l l.
Proof. intros id t Ht. exists t. split; [done|]. left. apply same_work_refl. Qed.

Lemma advances_trans l1 l2 l3 : advances l1 l2 -> advances l2 l3 -> advances l1 l3.
Proof.
  intros H12 H23 id t1 Ht1. destruct (H12 _ _ Ht1) as (t2 & Ht2 & H2).
  destruct (H23 _ _ Ht2) as (t3 & Ht3 & H3). exists t3. split; [done|].
  destruct H2 as [H2|H2], H3 as [H3|H3].
  - left. by eapply same_work_trans.
  - right. apply same_work_fields in H2 as [-> _]. done.
  - right. apply same_work_fields in H3 as [<- _]. done.
  - right. lia.
Qed.

Lemma advances_put t next recs stamped l id :
  Task.ID next = Task.ID t -> Task.ID next = id -> (Task.Version t < Task.Version next)%Z ->
  Ledger.tasks l !! id = Some t -> advances l (apply_outcome next recs stamped l).
Proof.
  intros Hk <- Hv Ht id' t' Ht'. cbn. destruct (decide (Task.ID next = id')) as [<-|Hne].
  - rewrite lookup_insert_eq. eexists; split; [done|]. right.
    destruct (Normalize_fields next) as (_ & -> & _). congruence.
  - rewrite lookup_insert_ne by done. exists t'. split; [done|]. left. apply same_work_refl.
Qed.

Lemma leased_same_work lease t : Task.Normalize t = t -> same_work t (Ledger.leased lease t).
Proof.
  unfold same_work, Ledger.leased, Task.Normalize. rewrite !Task_Clone_id.
  destruct t; cbn. intros Hn. injection Hn. intros. f_equal; congruence.
Qed.

Lemma advances_claim n lease l :
  LedgerOk n l -> advances l (Ledger.ClaimOverdue lease l).2.
Proof.
  intros Hok id t Ht. rewrite ClaimOverdue_eq. cbv zeta. cbn [snd].
  set (ts := Ledger.leased lease <$> overdue_tasks lease l).
  assert (Hkeep : forall l', is_Some (Ledger.tasks l' !! id) ->
    is_Some (Ledger.tasks (for_each Ledger.put ts l') !! id)).
  { clear. induction ts as [|x ts IH]; intros l' H; cbn; [done|]. apply IH. cbn.
    apply lookup_insert_is_Some. destruct (decide (Task.ID x = id)); [by left|by right]. }
  destruct (Hkeep l) as [t' Ht']; [by rewrite Ht|]. exists t'. split; [done|]. left.
  apply put_all_lookup in Ht' as [(t1 & Hin & Hid & ->)|[_ Hl]].
  - apply list_elem_of_fmap in Hin as (t0 & -> & Hin).
    apply overdue_tasks_spec in Hin as [_ [id0 Hl]].
    destruct (ok_tasks _ _ Hok _ _ Hl) as (Hk & _ & _ & _ & Hnorm).
    rewrite (proj1 (leased_fields lease t0)) in Hid.
    assert (t0 = t) as -> by (rewrite Hk in Hid; congruence).
    rewrite Normalize_leased. by apply leased_same_work.
  - replace t' with t by congruence. apply same_work_refl.
Qed.

(** ** Any sequence of operations *)

Inductive EngineOp : Type :=
| EngineCreate (req : CreateRequest.t)
| EngineCall (c : Call) (req : TaskRequest.t)
| EngineClaim (lease : LeaseRequest.t).

Section engine.
Context {D G : Type} `{!Store D, !IDGenerator G, !StoreModel D, !StoreLaws D}.
Context (s : Service.t).
Implicit Types (d : D) (x : Run.t G).

(** An operation, and what cancelled its context while it ran. *)
Definition perform (op : option error * EngineOp) (w : D * Run.t G) : D * Run.t G :=
  match op.2 with
  | EngineCreate req => (Create_ s op.1 req w).2
  | EngineCall c req => (call s op.1 c req w).2
  | EngineClaim lease => (ClaimOverdue_ s op.1 lease w).2
  end.

(** *** The identifiers left *)

Lemma stamps_left evs k (g : G) used :
  length evs <= 1 -> (forall e, e ∈ evs -> Event.ID e = "") -> fresh (S k) g used ->
  match (stamps evs g).1 with
  | Ok stamped => fresh k (stamps evs g).2 ((Event.ID <$> stamped) ++ used)
  | Err _ => fresh k (stamps evs g).2 used
  end.
Proof.
  intros Hlen He Hf. destruct evs as [|e [|]]; cbn in Hlen; [by apply fresh_less| |lia].
  cbn [stamps]. rewrite decide_False by (rewrite He by left; by intros []). cbn [fresh] in Hf.
  destruct (NewTaskID g) as [[id|] g1]; cbn; naive_solver.
Qed.

Lemma published_left cancelled next evs recs k (g : G) l l' seen seen' r :
  length evs <= 1 -> (forall e, e ∈ evs -> Event.ID e = "") ->
  published s cancelled (Ok (next, evs, recs)) g l l' seen seen' r ->
  fresh (S k) g (Ledger.keys l) ->
  fresh k (spent (Ok (next, evs, recs)) g) (Ledger.keys l').
Proof.
  intros Hlen He Hp Hf. pose proof (stamps_left evs k g _ Hlen He Hf) as Hs. cbn in Hp |- *.
  destruct (stamps evs g) as [[stamped|e] g'] eqn:Eg; cbn [fst snd] in *.
  2: { by destruct Hp as (_ & -> & _). }
  destruct cancelled as [e|].
  { destruct Hp as (_ & -> & _). eapply fresh_weaken; [|exact Hs]. set_solver. }
  destruct Hp as (_ & -> & _). eapply fresh_weaken; [|exact Hs]. intros id.
  unfold Ledger.keys; cbn. rewrite fmap_app, <- (list_fmap_compose Settle.record_event).
  rewrite !elem_of_app. intros [?|?]; [by right|by left].
Qed.

(** *** What is committed is in order *)

Lemma published_keeps cancelled cmd t now n (g : G) l l' seen seen' r :
  LedgerOk n l -> TaskWf (next_task cmd t now) -> (Task.Version (next_task cmd t now) <= n + 1)%Z ->
  HistoryOk (next_task cmd t now)
    (Ledger.History (Task.ID t) l ++
     (if LifecycleFacts.recorded cmd t then [Event.Transition (next_event cmd t now)] else [])) ->
  published s cancelled (Ok (outcome_of cmd t now)) g l l' seen seen' r ->
  LedgerOk (n + 1) l'.
Proof.
  intros Hok Hwf Hv Hh Hp.
  assert (Hsame : l' = l -> LedgerOk (n + 1) l')
    by (intros ->; eapply LedgerOk_later; [|exact Hok]; lia).
  assert (Hid : Task.ID (next_task cmd t now) = Task.ID t) by apply next_identity.
  unfold outcome_of, published in Hp.
  destruct (stamps _ g) as [[stamped|e] g'] eqn:Eg; cbn [fst] in Hp; [|naive_solver].
  destruct cancelled as [e|]; [naive_solver|]. destruct Hp as (_ & -> & _).
  apply outcome_keeps; [done..| |by rewrite Hid|].
  - destruct (LifecycleFacts.recorded cmd t); constructor; [|constructor].
    rewrite next_event_transition, Hid. split; [done|by apply (record_normal _ now)].
  - apply stamps_events in Eg. intros e He. destruct (silent cmd) eqn:Hs.
    { inversion Eg; subst. by apply not_elem_of_nil in He. }
    inversion Eg as [|e0 e1 ? ? Heq Hnil]; subst. inversion Hnil; subst.
    apply list_elem_of_singleton in He as ->.
    replace (LifecycleFacts.recorded cmd t) with true by (by destruct cmd).
    rewrite Heq. cbn. split; [|by left]. rewrite Hid. by destruct cmd.
Qed.

(** The outcome of a legal command on a task in order. *)
Definition orderly (n : Z) (l : Ledger.t) (out : outcome) : Prop :=
  exists cmd t now, out = outcome_of cmd t now /\ TaskWf (next_task cmd t now) /\
    (Task.Version (next_task cmd t now) <= n + 1)%Z /\
    HistoryOk (next_task cmd t now)
      (Ledger.History (Task.ID t) l ++
       (if LifecycleFacts.recorded cmd t then [Event.Transition (next_event cmd t now)] else [])).

Lemma published_step cancelled o n k (g : G) l l' seen seen' r :
  LedgerOk n l -> fresh (S k) g (Ledger.keys l) -> (forall out, o = Ok out -> orderly n l out) ->
  published s cancelled o g l l' seen seen' r ->
  LedgerOk (n + 1) l' /\ fresh k (spent o g) (Ledger.keys l').
Proof.
  intros Hok Hf Ho Hp. destruct o as [out|e].
  2: { destruct Hp as (_ & -> & _). split; [eapply LedgerOk_later; [|exact Hok]; lia|].
       by apply fresh_less. }
  destruct (Ho out eq_refl) as (cmd & t & now & -> & Hwf & Hv & Hh).
  split; [by eapply published_keeps|]. eapply published_left; [| |exact Hp|done]; cbn;
    destruct (silent cmd); cbn; try lia.
  - by intros e ?%not_elem_of_nil.
  - intros e ->%list_elem_of_singleton. by destruct cmd.
Qed.

Lemma call_orderly c req l now n out :
  LedgerOk n l -> (n < max_int64)%Z ->
  plan req (step_of s c req) l now = Ok out -> orderly n l out.
Proof.
  intros Hok Hn Hplan. destruct out as [[next evs] recs].
  apply plan_accepted in Hplan as (t & cmd & Ht & _ & _ & He & ->).
  destruct (ok_tasks _ _ Hok _ _ Ht) as (Hid & Hwf & Hh & Hv & _).
  destruct (exec cmd t now) as [[next' evs']|] eqn:E; [|done].
  destruct (exec_inv _ _ _ _ _ E) as (Hp & Ha & Hg & -> & ->).
  exists cmd, t, now. split_and!; [done| | |].
  - apply next_wf; [done|lia|done..].
  - pose proof (wf_version t Hwf). rewrite next_version_exact; lia.
  - rewrite Hid. pose proof (HistoryOk_step cmd t now _ Hwf ltac:(lia) Hp Hh) as H.
    destruct (LifecycleFacts.recorded cmd t); [done|by rewrite app_nil_r].
Qed.

Lemma created_orderly req x l n out :
  LedgerOk n l -> (0 <= n)%Z -> creation s req x l = Ok out -> orderly n l out.
Proof.
  intros Hok Hn H. destruct out as [[next evs] recs].
  apply creation_accepted in H as (spec & id & cmd & H). cbv zeta in H.
  destruct H as (_ & _ & _ & Hfree & Hp & Hs & Has & ->).
  set (now := Service.clock s (Run.ticks x)) in *. set (t := NewTask spec id req now) in *.
  destruct (NewTask_new spec id req now) as (Hid & Hv & Hst). fold t in Hid, Hv, Hst.
  assert (Hplace : may_act cmd t = true /\ well_formed_args cmd = true).
  { unfold permitted in Hp. rewrite Hst in Hp. by destruct cmd. }
  exists cmd, t, now. split_and!; [done| | |].
  - apply next_wf; [apply NewTask_wf|by rewrite Hv|naive_solver..].
  - rewrite next_version_exact by (by rewrite Hv). lia.
  - rewrite Hid, (ok_absent _ _ Hok) by done. cbn [app].
    replace (LifecycleFacts.recorded cmd t) with true by (by destruct cmd).
    by apply HistoryOk_first.
Qed.

Lemma claim_run cancelled lease d x :
  sound d -> InTransaction d = false ->
  exists r d' x' lease',
    ClaimOverdue_ s cancelled lease (d, x) = (r, (d', x')) /\
    InTransaction d' = false /\ sound d' /\ Run.eventIDs x' = Run.eventIDs x /\
    base d' = match cancelled with
              | None => (Ledger.ClaimOverdue lease' (base d)).2
              | Some _ => base d
              end /\
    r = match cancelled with
        | None => (Ledger.ClaimOverdue lease' (base d)).1
        | Some e => Err e
        end /\
    LeaseRequest.Owner lease' = LeaseRequest.Owner lease /\
    LeaseRequest.Types lease' = LeaseRequest.Types lease /\
    LeaseRequest.Limit lease' =
      (if decide (LeaseRequest.Limit lease <= 0)%Z then DefaultSweepBatch
       else LeaseRequest.Limit lease) /\
    LeaseRequest.Now lease' =
      (if decide (LeaseRequest.Now lease = 0%Z) then Service.clock s (Run.ticks x)
       else LeaseRequest.Now lease) /\
    Run.delivered x' = Run.delivered x.
Proof.
  intros Hd Hn. unfold ClaimOverdue_, Now, sret. unfold sbind.
  set (w := if decide (LeaseRequest.Now lease = 0%Z) then _ else _).
  assert (Hw : exists x1, w (d, x) =
      (Ok (if decide (LeaseRequest.Now lease = 0%Z) then Service.clock s (Run.ticks x)
           else LeaseRequest.Now lease), (d, x1)) /\ Run.eventIDs x1 = Run.eventIDs x /\
      Run.delivered x1 = Run.delivered x)
    by (subst w; case_decide; eauto).
  destruct Hw as (x1 & -> & Hg & Hde). clear w. set (now := if decide (_ = _) then _ else _). rewrite do_owns by done.
  destruct (begin_law d Hd Hn) as (Ha & Hb & Hv & Hs & _).
  set (lease' := LeaseRequest.mk _ _ _ _ _).
  destruct (claim_overdue_law lease' (begin d)) as ((Ha1 & Hb1 & Hs1) & Hr & Hvw); [done..|].
  rewrite Hv in Hr, Hvw. unfold write, on_store.
  destruct (ClaimOverdue lease' (begin d)) as [r1 d1]. cbn [fst snd] in *. subst r1.
  destruct (commit_law d1) as (Hc1 & Hc2 & Hc3); [done|congruence|].
  destruct (rollback_law d1) as (Hr1 & Hr2 & Hr3); [done|congruence|].
  rewrite ClaimOverdue_eq in *. cbv zeta in *. cbn [fst snd] in *.
  destruct cancelled as [e|].
  - eexists _, _, x1, lease'. split_and!; [reflexivity|done..|congruence|done|done|done|done|done|done].
  - eexists _, _, x1, lease'. rewrite ClaimOverdue_eq. cbv zeta. cbn [fst snd].
    split_and!; [reflexivity|done..|congruence|done|done|done|done|done|done].
Qed.

Lemma perform_step op d x n k :
  sound d -> InTransaction d = false -> LedgerOk n (base d) -> (0 <= n < max_int64)%Z ->
  fresh (S k) (Run.eventIDs x) (Ledger.keys (base d)) ->
  let w := perform op (d, x) in
  sound w.1 /\ InTransaction w.1 = false /\ LedgerOk (n + 1) (base w.1) /\
  fresh k (Run.eventIDs w.2) (Ledger.keys (base w.1)).
Proof.
  intros Hd Hn Hok Hm Hf. destruct op as [ce [req|c req|lease]]; unfold perform; cbn [fst snd].
  - destruct (create_own s ce req d x) as (r & d' & x' & -> & Ha & Hs & Hg & Hp); [done..| |].
    { by eapply fresh_at_most; [|exact Hf]; lia. }
    cbn [fst snd]. rewrite Hg. split_and!; [done..| |]; eapply published_step; eauto;
      intros; eapply created_orderly; eauto; lia.
  - destruct (decide (TaskRequest.TaskID req = "")) as [E|E].
    { rewrite call_mutate. unfold mutate. rewrite decide_True by done. cbn.
      split_and!; [done..| |by apply fresh_less]. eapply LedgerOk_later; [|exact Hok]. lia. }
    destruct (call_own s ce c req d x) as (r & d' & x' & -> & Ha & Hs & Hg & Hp); [done..| |].
    { by eapply fresh_at_most; [|exact Hf]; lia. }
    cbn [fst snd]. rewrite Hg. split_and!; [done..| |]; eapply published_step; eauto;
      intros; eapply call_orderly; eauto; lia.
  - destruct (claim_run ce lease d x) as (r & d' & x' & lease' & -> & Ha & Hs & Hg & Hb & _);
      [done..|]. cbn [fst snd]. rewrite Hg, Hb. apply fresh_less in Hf.
    split_and!; [done..| |].
    + eapply (LedgerOk_later n); [lia|]. destruct ce; [done|]. by apply claim_keeps.
    + destruct ce; [done|]. rewrite ClaimOverdue_eq. cbn [snd]. unfold Ledger.keys.
      assert (Ho : forall ts l, Ledger.outbox (for_each Ledger.put ts l) = Ledger.outbox l)
        by (intros ts; induction ts as [|t ts IH]; intros l; cbn; [done|by rewrite IH]).
      by rewrite Ho.
Qed.

(** *** A version names one state of a task *)

Lemma published_changes cancelled o (g : G) l l' seen seen' r :
  published s cancelled o g l l' seen seen' r ->
  l' = l \/ exists next evs recs stamped,
    o = Ok (next, evs, recs) /\ l' = apply_outcome next recs stamped l.
Proof.
  unfold published. destruct o as [[[next evs] recs]|e]; [|naive_solver].
  destruct (stamps evs g).1; [|naive_solver]. destruct cancelled; naive_solver.
Qed.

Lemma perform_advances op d x n :
  sound d -> InTransaction d = false -> LedgerOk n (base d) -> (0 <= n < max_int64)%Z ->
  fresh 1 (Run.eventIDs x) (Ledger.keys (base d)) ->
  advances (base d) (base (perform op (d, x)).1).
Proof.
  intros Hd Hn Hok Hm Hf. destruct op as [ce [req|c req|lease]]; unfold perform; cbn [fst snd].
  - destruct (create_own s ce req d x) as (r & d' & x' & -> & _ & _ & _ & Hp); [done..|].
    cbn [fst snd]. apply published_changes in Hp as [->|(next & evs & recs & st & Ho & ->)];
      [apply advances_refl|].
    apply creation_accepted in Ho as (spec & id & cmd & H). cbv zeta in H.
    destruct H as (_ & _ & _ & Hfree & _ & _ & _ & [= -> _ _]).
    intros id' t Ht. exists t. split; [|left; apply same_work_refl]. cbn.
    destruct (next_identity cmd (NewTask spec id req (Service.clock s (Run.ticks x)))
      (Service.clock s (Run.ticks x))) as [-> _].
    destruct (NewTask_new spec id req (Service.clock s (Run.ticks x))) as [-> _].
    rewrite lookup_insert_ne; [done|]. congruence.
  - destruct (decide (TaskRequest.TaskID req = "")) as [E|E].
    { rewrite call_mutate. unfold mutate. rewrite decide_True by done. apply advances_refl. }
    destruct (call_own s ce c req d x) as (r & d' & x' & -> & _ & _ & _ & Hp); [done..|].
    cbn [fst snd]. apply published_changes in Hp as [->|(next & evs & recs & st & Ho & ->)];
      [apply advances_refl|].
    apply plan_accepted in Ho as (t & cmd & Ht & _ & _ & He & [= -> _ _]).
    destruct (ok_tasks _ _ Hok _ _ Ht) as (Hid & Hwf & _ & Hv & _).
    apply advances_put with (t := t) (id := TaskRequest.TaskID req); [| | |done].
    + apply next_identity.
    + by rewrite (proj1 (next_identity cmd t _)), Hid.
    + pose proof (wf_version t Hwf). rewrite next_version_exact; lia.
  - destruct (claim_run ce lease d x) as (r & d' & x' & lease' & -> & _ & _ & _ & Hb & _);
      [done..|]. cbn [fst snd]. rewrite Hb. destruct ce; [apply advances_refl|].
    by eapply advances_claim.
Qed.

Lemma perform_steps ops d x n k :
  sound d -> InTransaction d = false -> LedgerOk n (base d) -> (0 <= n)%Z ->
  (n + Z.of_nat (length ops) <= max_int64)%Z ->
  fresh (length ops + k) (Run.eventIDs x) (Ledger.keys (base d)) ->
  let w := for_each perform ops (d, x) in
  sound w.1 /\ InTransaction w.1 = false /\
  LedgerOk (n + Z.of_nat (length ops)) (base w.1) /\
  fresh k (Run.eventIDs w.2) (Ledger.keys (base w.1)) /\
  advances (base d) (base w.1).
Proof.
  revert d x n; induction ops as [|op ops IH]; intros d x n Hd Hn Hok H0 Hm Hf; cbn [for_each].
  { cbn [length]. rewrite Z.add_0_r. split_and!; [done..|apply advances_refl]. }
  cbn [length Nat.add] in Hm, Hf.
  destruct (perform_step op d x n (length ops + k)) as (Hd' & Hn' & Hok' & Hf');
    [done..|lia|done|].
  assert (Ha : advances (base d) (base (perform op (d, x)).1)).
  { eapply perform_advances; [done..|lia|]. by eapply fresh_at_most; [|exact Hf]; lia. }
  destruct (perform op (d, x)) as [d1 x1]; cbn [fst snd] in *.
  destruct (IH d1 x1 (n + 1)%Z) as (? & ? & ? & ? & Hadv); [done..|lia|lia|done|].
  split_and!; [done..| |done|by eapply advances_trans].
  replace (n + Z.of_nat (length (op :: ops)))%Z
    with (n + 1 + Z.of_nat (length ops))%Z by (cbn [length]; lia). done.
Qed.

(** C4: Optimistic concurrency is sound: whatever other operations ran in between,
    a task found again at the version it was read at is the task that was read,
    but for its sweep lease; otherwise its version is higher.  No task is ever
    removed. *)
Theorem version_names_state ops d x n id t :
  sound d -> InTransaction d = false -> LedgerOk n (base d) -> (0 <= n)%Z ->
  (n + Z.of_nat (length ops) <= max_int64)%Z ->
  fresh (length ops) (Run.eventIDs x) (Ledger.keys (base d)) ->
  Ledger.tasks (base d) !! id = Some t ->
  exists t', Ledger.tasks (base (for_each perform ops (d, x)).1) !! id = Some t' /\
    (same_work t t' \/ (Task.Version t < Task.Version t')%Z).
Proof.
  intros Hd Hn Hok H0 Hm Hf. apply (perform_steps ops d x n 0); [done..|].
  by rewrite Nat.add_0_r.
Qed.

(** C3: Whatever sequence of creations, operations and sweep claims the engine
    performs on a store, accepted, refused or cancelled, the committed ledger stays
    in order: each task is well formed under its own identifier, its history is a
    chain of transitions from CREATED to its state, histories exist for stored
    tasks only, and each recorded event is backed by a record of that history. *)
Theorem engine_preserves_ledger ops d x n :
  sound d -> InTransaction d = false -> LedgerOk n (base d) -> (0 <= n)%Z ->
  (n + Z.of_nat (length ops) <= max_int64)%Z ->
  fresh (length ops) (Run.eventIDs x) (Ledger.keys (base d)) ->
  let d' := (for_each perform ops (d, x)).1 in
  sound d' /\ LedgerOk (n + Z.of_nat (length ops)) (base d').
Proof.
  intros Hd Hn Hok H0 Hm Hf.
  destruct (perform_steps ops d x n 0) as (? & _ & ? & _); [done..|by rewrite Nat.add_0_r|done].
Qed.
End engine.
