(* ===== verification/Sweep.v ===== *)
(** * Sweep: the deadline sweep

    Models [sweep.go]: the sweeper's options, [Sweep] and [exemption].  ([Run],
    which calls [Sweep] on a ticker, is in [Ticker.v].)  Between
    the transactions of one sweep other callers may act on the store: [others i]
    is what they did before the [i]-th claimed task is considered, any sequence of
    operations of the engine.  [cancelled i] is what cancelled the context while
    the [i]-th transaction of the sweep ran, if anything did; the claim is the
    transaction 0. *)

From S2P Require Import Prelude Domain Errors Event Lifecycle LifecycleFacts Assignment.
From S2P Require Import Query Outbox Store Ident Registry Service ServiceFacts.
From S2P Require Import EngineInvariant.

Module Sweeper.
Record t : Type := mk {
  owner : string;
  lease : Z;
  batch : Z;
  types : list string
}.
#[global] Instance eta : Eta t := fun x => mk (owner x) (lease x) (batch x) (types x).
End Sweeper.

Definition WithSweepOwner (owner : string) (s : Sweeper.t) : Sweeper.t :=
  if decide (owner <> "") then s <| Sweeper.owner := owner |> else s.
Definition WithLeaseDuration (duration : Z) (s : Sweeper.t) : Sweeper.t :=
  if decide (0 < duration)%Z then s <| Sweeper.lease := duration |> else s.
Definition WithSweepBatch (batch : Z) (s : Sweeper.t) : Sweeper.t :=
  if decide (0 < batch)%Z then s <| Sweeper.batch := batch |> else s.
Definition WithSweepTypes (types : list string) (s : Sweeper.t) : Sweeper.t :=
  s <| Sweeper.types := Sweeper.types s ++ types |>.

Definition exemption (task : Task.t) (policy : option EscalationPolicy.t) : string :=
  if IsTerminal (Task.Status task) then "the task is already closed"
  else if decide (Task.Status task = StatusSuspended) then "the task is suspended"
  else
    match policy with
    | None => ""
    | Some policy =>
        if EscalationPolicy.ExemptInProgress policy &&
           bool_decide (Task.Status task = StatusInProgress)
        then "the policy exempts work already started"
        else if bool_decide (0 < EscalationPolicy.MaxEscalations policy)%Z &&
                bool_decide (EscalationPolicy.MaxEscalations policy <= Task.EscalationCount task)%Z
        then "the task has been escalated as often as its policy allows"
        else ""
    end.

Module SweepResult.
Record t : Type := mk {
  Claimed : nat;
  Escalated : nat;
  Exempted : nat;
  Events : list Event.t
}.
#[global] Instance eta : Eta t := fun x => mk (Claimed x) (Escalated x) (Exempted x) (Events x).
End SweepResult.

Section sweep.
Context {D G : Type} `{!Store D, !IDGenerator G}.
Context (s : Service.t).

Definition NewSweeper (opts : list (Sweeper.t -> Sweeper.t)) : M (D := D) (G := G) Sweeper.t :=
  let! owner := newEventID in
  sret (for_each (fun opt => opt) opts
    (Sweeper.mk ("sweeper-" +:+ owner) DefaultLeaseDuration DefaultSweepBatch [])).

Context (sw : Sweeper.t) (cancelled : nat -> option error)
  (others : nat -> list (option error * EngineOp)).

(** The request the sweeper makes for a task it claimed. *)
Definition escalation_request (task : Task.t) : TaskRequest.t :=
  TaskRequest.mk (Task.ID task) (Sweeper.owner sw) (Some (Task.Version task)) "deadline passed".

(** The loop over the claimed tasks; the errors are those given to [onError]. *)
Fixpoint sweep_each (i : nat) (claimed : list Task.t) (result : SweepResult.t)
    (errs : list error) (w : D * Run.t G) : SweepResult.t * list error * (D * Run.t G) :=
  match claimed with
  | [] => (result, errs, w)
  | task :: rest =>
      let w := for_each (perform s) (others i) w in
      let policy := escalationPolicy s task in
      if decide (exemption task policy <> "") then
        sweep_each (S i) rest
          (result <| SweepResult.Exempted := S (SweepResult.Exempted result) |>) errs w
      else
        match Service.Escalate s (cancelled (S i)) (escalation_request task) w with
        | (Err err, w) =>
            let errs :=
              if negb (errors_Is err ErrConflict)
              then errs ++ [Wrapped ("hmntsk: escalate task " +:+ Task.ID task +:+ ": ") err]
              else errs in
            sweep_each (S i) rest result errs w
        | (Ok escalated, w) =>
            let result := result <| SweepResult.Escalated := S (SweepResult.Escalated result) |> in
            let result := result <| SweepResult.Events :=
                                      SweepResult.Events result ++ Result.Events escalated |> in
            if Result.Pending escalated then
              let '(err, x) := Dispatch s escalated w.2 in
              let errs := match err with Some err => errs ++ [err] | None => errs end in
              sweep_each (S i) rest result errs (w.1, x)
            else sweep_each (S i) rest result errs w
        end
  end.

Definition Sweep (w : D * Run.t G) : res SweepResult.t * list error * (D * Run.t G) :=
  match Now s w with
  | (Err err, w) => (Err err, [], w)
  | (Ok now, w) =>
      match ClaimOverdue_ s (cancelled 0)
              (LeaseRequest.mk now (Sweeper.owner sw) (Sweeper.lease sw) (Sweeper.batch sw)
                 (Sweeper.types sw)) w with
      | (Err err, w) => (Err err, [], w)
      | (Ok claimed, w) =>
          let '(result, errs, w) :=
            sweep_each 0 claimed (SweepResult.mk (length claimed) 0 0 []) [] w in
          (Ok result, errs, w)
      end
  end.
End sweep.

(** * Lemmas *)

(** What the sweep must leave alone. *)
Lemma exemption_spec task policy :
  exemption task policy = "" <->
  IsTerminal (Task.Status task) = false /\ Task.Status task <> StatusSuspended /\
  forall p, policy = Some p ->
    ~ (EscalationPolicy.ExemptInProgress p = true /\ Task.Status task = StatusInProgress) /\
    ~ (0 < EscalationPolicy.MaxEscalations p <= Task.EscalationCount task)%Z.
Proof.
  unfold exemption. destruct (IsTerminal _); [naive_solver|].
  destruct (decide (Task.Status task = StatusSuspended)); [naive_solver|].
  destruct policy as [p|]; [|naive_solver].
  destruct (EscalationPolicy.ExemptInProgress p) eqn:E; cbn [andb];
    repeat case_bool_decide; cbn [andb];
    (split; [intros ?; split_and!; try done; intros ? [= <-]; split; intros []; first [done|congruence|lia]
            |intros (_ & _ & Hp); destruct (Hp p eq_refl) as [Hx Hy];
             first [done|exfalso; apply Hx; by split|exfalso; apply Hy; lia]]).
Qed.

Lemma exemption_same_work task task' policy :
  same_work task task' -> exemption task policy = exemption task' policy.
Proof.
  intros (_ & Hs & Hc & _)%same_work_fields. unfold exemption. by rewrite Hs, Hc.
Qed.

Section facts.
Context {D G : Type} `{!Store D, !IDGenerator G, !StoreModel D, !StoreLaws D}.
Context (s : Service.t) (sw : Sweeper.t) (cancelled : nat -> option error)
  (others : nat -> list (option error * EngineOp)).
Implicit Types (d : D) (x : Run.t G) (w : D * Run.t G).

(** An escalation the sweep made of a task it claimed: the task it found was the
    task it claimed, but for the lease, and its policy did not exempt it. *)
Definition escalation_of (task : Task.t) (e : Event.t) : Prop :=
  exists current now id,
    same_work task current /\ exemption current (escalationPolicy s current) = "" /\
    e = (next_event (CmdEscalate (Sweeper.owner sw) (escalationPolicy s current) "deadline passed")
           current now) <| Event.ID := id |>.

(** Why an escalation of a claimed task was refused: somebody moved the task on since
    it was claimed, which is a conflict that names the version it is at; or the
    lifecycle refuses to escalate it as it is; or no identifier could be minted for
    the event; or the transaction was cancelled. *)
Definition refused_because (ce : option error) (task : Task.t) (err : error) : Prop :=
  (exists v, (Task.Version task < v)%Z /\ err = ConflictError (Task.ID task) (Task.Version task) v) \/
  (exists current now, same_work task current /\
     exec (CmdEscalate (Sweeper.owner sw) (escalationPolicy s current) "deadline passed") current now = Err err) \/
  (exists g : G, (NewTaskID g).1 = Err err) \/
  ce = Some err \/
  Task.ID task = "".

(** What became of each claimed task. *)
Inductive Fate : Type :=
| Exempted
| Escalated (e : Event.t)
| GivenUp (err : error).

Definition fated (i : nat) (task : Task.t) (f : Fate) : Prop :=
  match f with
  | Exempted => exemption task (escalationPolicy s task) <> ""
  | Escalated e => exemption task (escalationPolicy s task) = "" /\ escalation_of task e
  | GivenUp err => exemption task (escalationPolicy s task) = "" /\ refused_because (cancelled (S i)) task err
  end.

(** In the order of the claim, the [i]-th in the [i+1]-th transaction. *)
Inductive fates : nat -> list Task.t -> list Fate -> Prop :=
| fates_nil i : fates i [] []
| fates_cons i task f rest fs : fated i task f -> fates (S i) rest fs -> fates i (task :: rest) (f :: fs).

Definition exempted_in (fs : list Fate) : nat :=
  length (omap (fun f => match f with Exempted => Some tt | _ => None end) fs).
Definition events_in (fs : list Fate) : list Event.t :=
  omap (fun f => match f with Escalated e => Some e | _ => None end) fs.

(** What the error handler hears: every refusal that is not a conflict. *)
Definition reports (claimed : list Task.t) (fs : list Fate) : list error :=
  omap (fun tf => match tf.2 with
     | GivenUp err => if errors_Is err ErrConflict then None
                      else Some (Wrapped ("hmntsk: escalate task " +:+ Task.ID tf.1 +:+ ": ") err)
     | _ => None
     end) (zip claimed fs).

(** A claimed task is still there, as it was claimed or further on. *)
Definition tracked (l : Ledger.t) (task : Task.t) : Prop :=
  exists t, Ledger.tasks l !! Task.ID task = Some t /\
    (same_work task t \/ (Task.Version task < Task.Version t)%Z).

Lemma tracked_advances l l' task : advances l l' -> tracked l task -> tracked l' task.
Proof.
  intros Ha (t & Ht & H). destruct (Ha _ _ Ht) as (t' & Ht' & H'). exists t'. split; [done|].
  destruct H as [H|H], H' as [H'|H'].
  - left. by eapply same_work_trans.
  - right. apply same_work_fields in H as [-> _]. done.
  - right. apply same_work_fields in H' as [<- _]. done.
  - right. lia.
Qed.

Lemma escalationPolicy_same_work task task' :
  same_work task task' -> escalationPolicy s task = escalationPolicy s task'.
Proof.
  intros (_ & _ & _ & _ & Hp & Ht)%same_work_fields. unfold escalationPolicy. by rewrite Hp, Ht.
Qed.

Lemma escalate_op ce task w :
  (Service.Escalate s ce (escalation_request sw task) w).2 =
  perform s (ce, EngineCall CallEscalate (escalation_request sw task)) w.
Proof. done. Qed.

Lemma escalate_fate ce task d x r w' :
  sound d -> InTransaction d = false -> fresh 1 (Run.eventIDs x) (Ledger.keys (base d)) ->
  tracked (base d) task -> exemption task (escalationPolicy s task) = "" ->
  Service.Escalate s ce (escalation_request sw task) (d, x) = (r, w') ->
  match r with
  | Ok escalated => Result.pending escalated = [] /\
      exists e, Result.Events escalated = [e] /\ escalation_of task e
  | Err err => refused_because ce task err
  end.
Proof.
  intros Hd Hn Hf (t & Ht & Hsame) Hex Hcall.
  change (call s ce CallEscalate (escalation_request sw task) (d, x) = (r, w')) in Hcall.
  destruct (decide (TaskRequest.TaskID (escalation_request sw task) = "")) as [E|E].
  { rewrite call_mutate in Hcall. unfold mutate in Hcall. rewrite decide_True in Hcall by done.
    injection Hcall as <- _. by do 4 right. }
  destruct (call_own s ce CallEscalate (escalation_request sw task) d x)
    as (r' & d1 & x1 & Hc & _ & _ & _ & Hp); [done..|].
  rewrite Hc in Hcall. injection Hcall as -> _. unfold published in Hp.
  destruct (plan _ _ _ _) as [[[next evs] recs]|err] eqn:Eplan.
  - apply plan_accepted in Eplan as (current & cmd & Hcur & Hver & Hruns & _ & Ho).
    cbn [escalation_request TaskRequest.TaskID] in Hcur. assert (current = t) as -> by congruence.
    injection Ho as -> -> ->. cbn [runs] in Hruns. subst cmd.
    destruct (stamps _ _) as [[stamped|err] g'] eqn:Es; cbn [fst] in Hp.
    + destruct ce as [err|]; [destruct Hp as [-> _]; by do 3 right; left|].
      destruct Hp as (-> & _). split; [done|].
      specialize (Hver _ eq_refl). destruct Hsame as [Hsame|]; [|lia].
      apply (f_equal fst) in Es.
      eapply (stamps_outcome (CmdEscalate _ _ _) t) in Es
        as [[_ Habs]|(id & _ & _ & Hev)]; [done| |exact Hf|].
      * eexists; split; [exact Hev|]. exists t. eexists _, id. split_and!; [done| |reflexivity].
        by rewrite <- (exemption_same_work task), <- (escalationPolicy_same_work task).
      * rewrite <- view_outside by done. by apply distinct_events.
    + destruct Hp as [-> _]. right; right; left. exists (Run.eventIDs x).
      unfold outcome_of in Es. cbn [silent fst snd stamps] in Es. 
      change (Event.ID (next_event _ _ _)) with "" in Es. rewrite decide_False in Es by (intros H; by apply H).
      destruct (NewTaskID _) as [[id|e] g1]; [discriminate Es|]. by injection Es as ->.
  - destruct Hp as (-> & _). unfold plan, Ledger.Get in Eplan.
    cbn [escalation_request TaskRequest.TaskID TaskRequest.Version] in Eplan. rewrite Ht in Eplan. cbn [rbind] in Eplan.
    destruct (decide (Task.Version task <> Task.Version t)) as [Hne|Heq]; cbn [rbind] in Eplan.
    + injection Eplan as <-. left. exists (Task.Version t). split; [|done].
      destruct Hsame as [[Hv _]%same_work_fields|]; [by destruct Hne|done].
    + apply dec_stable in Heq. right; left. exists t, (Service.clock s (Run.ticks x)).
      destruct Hsame as [Hsame|]; [|lia]. split; [done|].
      cbn [step_of] in Eplan. unfold of_transition in Eplan. cbn [exec].
      change (TaskRequest.Actor _) with (Sweeper.owner sw) in Eplan.
      change (TaskRequest.Comment _) with "deadline passed" in Eplan.
      destruct (Lifecycle.Escalate _ _ _ _ _); cbn [rbind] in Eplan; [discriminate Eplan|by injection Eplan as ->].
Qed.

(** The transactions the loop makes, the others' included. *)
Fixpoint budget (i n : nat) : nat :=
  match n with 0 => 0 | S n => length (others i) + 1 + budget (S i) n end.

(** The result is what became of the tasks, and nothing else. *)
Definition accounted (i : nat) (claimed : list Task.t) (before : SweepResult.t) (errs : list error)
    (after : SweepResult.t) (errs' : list error) : Prop :=
  exists fs, fates i claimed fs /\
    after = SweepResult.mk (SweepResult.Claimed before)
      (SweepResult.Escalated before + length (events_in fs))
      (SweepResult.Exempted before + exempted_in fs)
      (SweepResult.Events before ++ events_in fs) /\
    errs' = errs ++ reports claimed fs.

Lemma accounted_nil i before errs : accounted i [] before errs before errs.
Proof.
  exists []. split_and!; [constructor| |by rewrite app_nil_r].
  destruct before; cbn. by rewrite app_nil_r, !Nat.add_0_r.
Qed.

Lemma accounted_cons i task rest f before errs after errs' :
  fated i task f ->
  accounted (S i) rest
    (SweepResult.mk (SweepResult.Claimed before) (SweepResult.Escalated before + length (events_in [f]))
       (SweepResult.Exempted before + exempted_in [f]) (SweepResult.Events before ++ events_in [f]))
    (errs ++ reports [task] [f]) after errs' ->
  accounted i (task :: rest) before errs after errs'.
Proof.
  intros Hf (fs & Hfs & -> & ->). exists (f :: fs). split; [by constructor|].
  change (f :: fs) with ([f] ++ fs). change (task :: rest) with ([task] ++ rest).
  unfold events_in, exempted_in, reports.
  change (zip ([task] ++ rest) ([f] ++ fs)) with (zip [task] [f] ++ zip rest fs).
  rewrite !omap_app, !length_app. cbn [SweepResult.Claimed SweepResult.Escalated SweepResult.Exempted SweepResult.Events].
  by rewrite !(assoc_L (++)), !Nat.add_assoc.
Qed.

Lemma sweep_each_run i claimed before errs d x n k :
  sound d -> InTransaction d = false -> LedgerOk n (base d) -> (0 <= n)%Z ->
  (n + Z.of_nat (budget i (length claimed)) <= max_int64)%Z ->
  fresh (budget i (length claimed) + k) (Run.eventIDs x) (Ledger.keys (base d)) ->
  Forall (tracked (base d)) claimed ->
  let '(after, errs', w') := sweep_each s sw cancelled others i claimed before errs (d, x) in
  accounted i claimed before errs after errs' /\
  exists ops, w' = for_each (perform s) ops (d, x) /\ length ops <= budget i (length claimed).
Proof.
  revert i before errs d x n; induction claimed as [|task rest IH];
    intros i before errs d x n Hd Hn Hok H0 Hm Hf Ht; cbn [sweep_each].
  { split; [apply accounted_nil|by exists []]. }
  cbn [length budget] in *. apply Forall_cons in Ht as [Htask Hrest].
  destruct (perform_steps s (others i) d x n (1 + budget (S i) (length rest) + k))
    as (Hd1 & Hn1 & Hok1 & Hf1 & Ha1); [done..|lia| |].
  { by replace (length (others i) + (1 + budget (S i) (length rest) + k))
      with (length (others i) + 1 + budget (S i) (length rest) + k) by lia. }
  destruct (for_each (perform s) (others i) (d, x)) as [d1 x1] eqn:E1. cbn [fst snd] in *.
  apply (tracked_advances _ _ _ Ha1) in Htask.
  assert (Hrest1 : Forall (tracked (base d1)) rest)
    by (eapply Forall_impl; [exact Hrest|]; intros ?; by apply tracked_advances).
  destruct (decide (exemption task (escalationPolicy s task) <> "")) as [Hex|Hex].
  - specialize (IH (S i) (before <| SweepResult.Exempted := S (SweepResult.Exempted before) |>)
      errs d1 x1 _ Hd1 Hn1 Hok1 ltac:(lia) ltac:(lia)).
    destruct (sweep_each _ _ _ _ _ _ _ _ _) as [[after errs'] w'].
    destruct IH as (Hacc & ops & -> & Hlen); [by eapply fresh_at_most; [|exact Hf1]; lia|done|].
    split.
    + apply (accounted_cons i task rest Exempted); [done|]. cbn.
      rewrite !app_nil_r, Nat.add_0_r, Nat.add_1_r. destruct before; exact Hacc.
    + exists (others i ++ ops). rewrite for_each_app, E1, length_app. split; [done|lia].
  - apply dec_stable in Hex.
    pose proof (escalate_op (cancelled (S i)) task (d1, x1)) as Hop.
    destruct (perform_steps s [(cancelled (S i), EngineCall CallEscalate (escalation_request sw task))]
      d1 x1 (n + Z.of_nat (length (others i))) (budget (S i) (length rest) + k))
      as (Hd2 & Hn2 & Hok2 & Hf2 & Ha2); [done..|lia|cbn [length]; lia|exact Hf1|].
    cbn [for_each] in Hd2, Hn2, Hok2, Hf2, Ha2. rewrite <- Hop in *.
    assert (Hrest2 : Forall (tracked (base (Service.Escalate s (cancelled (S i))
        (escalation_request sw task) (d1, x1)).2.1)) rest)
      by (eapply Forall_impl; [exact Hrest1|]; intros ?; by apply tracked_advances).
    pose proof (escalate_fate (cancelled (S i)) task d1 x1) as Hacc.
    destruct (Service.Escalate _ _ _ _) as [r [d2 x2]] eqn:Eesc. cbn [fst snd length] in *.
    assert (Hops : forall ops, for_each (perform s) (others i ++
      (cancelled (S i), EngineCall CallEscalate (escalation_request sw task)) :: ops) (d, x) =
      for_each (perform s) ops (d2, x2)).
    { intros ops. rewrite for_each_app, E1. cbn [for_each]. by rewrite <- Hop. }
    specialize (Hacc r (d2, x2) Hd1 Hn1 ltac:(by eapply fresh_at_most; [|exact Hf1]; lia) Htask Hex eq_refl).
    destruct r as [escalated|err].
    + destruct Hacc as (Hpend & e & Hev & Hof).
      unfold Result.Pending. rewrite Hpend. cbn [length]. rewrite bool_decide_false by lia.
      rewrite Hev.
      match goal with |- context[sweep_each _ _ _ _ _ _ ?mid ?er _] => set (b := mid) end.
      specialize (IH (S i) b errs d2 x2 _ Hd2 Hn2 Hok2 ltac:(lia) ltac:(lia) Hf2 Hrest2).
      destruct (sweep_each _ _ _ _ _ _ _ _ _) as [[after errs'] w'].
      destruct IH as (Ha & ops & -> & Hlen). split.
      * apply (accounted_cons i task rest (Escalated e)); [done|]. cbn.
        rewrite app_nil_r, Nat.add_0_r, Nat.add_1_r. subst b. destruct before; exact Ha.
      * eexists. rewrite Hops, length_app. split; [reflexivity|cbn; lia].
    + match goal with |- context[sweep_each _ _ _ _ _ _ _ ?er _] => set (er' := er) end.
      specialize (IH (S i) before er' d2 x2 _ Hd2 Hn2 Hok2 ltac:(lia) ltac:(lia) Hf2 Hrest2).
      destruct (sweep_each _ _ _ _ _ _ _ _ _) as [[after errs'] w'].
      destruct IH as (Ha & ops & -> & Hlen). split.
      * apply (accounted_cons i task rest (GivenUp err)); [done|].
        subst er'. unfold reports. cbn. rewrite app_nil_r, !Nat.add_0_r.
        destruct (errors_Is err ErrConflict); cbn [negb] in Ha; cbn; rewrite ?app_nil_r; destruct before; exact Ha.
      * eexists. rewrite Hops, length_app. split; [reflexivity|cbn; lia].
Qed.

Lemma claimed_tracked n lease l :
  LedgerOk n l ->
  Forall (tracked (Ledger.ClaimOverdue lease l).2) (Ledger.leased lease <$> overdue_tasks lease l).
Proof.
  intros Hok. rewrite ClaimOverdue_eq. cbv zeta. cbn [snd]. apply Forall_forall. intros task Hin.
  destruct (put_all_present task _ l Hin) as [t Ht]. exists t. split; [done|]. left.
  apply put_all_lookup in Ht as [(t' & Hin' & Hid & ->)|[Hni _]].
  2: { destruct Hni. apply list_elem_of_fmap. by exists task. }
  apply list_elem_of_fmap in Hin as (t0 & -> & Hin). apply list_elem_of_fmap in Hin' as (t1 & -> & Hin').
  apply overdue_tasks_spec in Hin as [_ [id0 H0]]. apply overdue_tasks_spec in Hin' as [_ [id1 H1]].
  rewrite !(proj1 (leased_fields lease _)) in Hid.
  destruct (ok_tasks _ _ Hok _ _ H0) as [E0 _]. destruct (ok_tasks _ _ Hok _ _ H1) as [E1 _].
  assert (t0 = t1) as -> by congruence. rewrite Normalize_leased. apply same_work_refl.
Qed.

Lemma budget_mono i m n : m <= n -> budget i m <= budget i n.
Proof.
  revert i n; induction m as [|m IH]; intros i n Hle; cbn; [lia|].
  destruct n as [|n]; cbn; [lia|]. pose proof (IH (S i) n). lia.
Qed.

(** The most tasks one sweep claims. *)
Definition sweep_limit : nat :=
  Z.to_nat (if decide (Sweeper.batch sw <= 0)%Z then DefaultSweepBatch else Sweeper.batch sw).

Lemma overdue_tasks_length lease l :
  length (overdue_tasks lease l) <= Ledger.batch (LeaseRequest.Limit lease) 100.
Proof. unfold overdue_tasks. rewrite length_take. lia. Qed.

End facts.
