(* ===== verification/EngineExamples.v ===== *)
(** * EngineExamples: the engine run on the in-memory store

    The theorems about the service and the sweep at a concrete service: one task
    type, the in-memory store, the default identifier generator and a clock that
    advances one second with each reading. *)

From S2P Require Import Prelude Domain Errors Event Lifecycle LifecycleFacts Assignment.
From S2P Require Import Query Outbox Store MemStore MemStoreFacts Ident Registry Service.
From S2P Require Import ServiceFacts ServiceReads EngineInvariant Sweep.
Import RegistryExamples IdentExamples MemStoreExamples.

Module EngineExamples.
Definition codec : CursorCodec.t := CursorCodec.mk (fun _ => None) (fun _ => None).
#[local] Instance store : Store DB.t := MemStore codec.
#[local] Instance model : StoreModel DB.t := MemModel codec.
#[local] Instance laws : StoreLaws DB.t := mem_store_laws codec.

#[global] Instance fresh_dec {G} `{!IDGenerator G} n (g : G) used : Decision (fresh n g used).
Proof.
  revert g used; induction n as [|n IH]; intros g used; cbn; [left; exact I|].
  destruct (NewTaskID g) as [[id|] g']; [|apply IH].
  apply and_dec; [apply _|apply IH].
Defined.

Definition office : Service.t := Service.mk types None SingleCandidateStrategy
  (fun k => 1700000000000000000 + 1000000000 * Z.of_nat k)%Z [fun _ => None]
  (fun _ => Err "no patches").

Definition start : DB.t := DB.mk Mem.New None.
Definition start_run : Run.t UUIDSource := Run.mk 0 source source [] [].

Definition order : CreateRequest.t :=
  CreateRequest.mk "approval" "sys" "t1" (Some "{}") None (Some 1600000000000000000%Z) None None None
    CorrelationData.empty None.

(** The store and the run after the creation of one task. *)
Definition placed : DB.t := (perform office (None, EngineCreate order) (start, start_run)).1.
Definition placed_run : Run.t UUIDSource :=
  (perform office (None, EngineCreate order) (start, start_run)).2.
Definition ask (actor : string) : TaskRequest.t := TaskRequest.mk "t1" actor None "".
Definition joined : DB.t := ContextWithTx placed.

Lemma start_sound : sound start.
Proof. split; [exact New_sound|exact I]. Qed.

Lemma start_ok : LedgerOk 0 (base start).
Proof. exact LedgerOk_empty. Qed.

Lemma fresh_by_computation {G} `{!IDGenerator G} n (g : G) used :
  bool_decide (fresh n g used) = true -> fresh n g used.
Proof. apply bool_decide_eq_true_1. Qed.

Lemma placed_sound : sound placed /\ LedgerOk 1 (base placed).
Proof.
  destruct (perform_steps office [(None, EngineCreate order)] start start_run 0 0)
    as (Hs & _ & Hok & _).
  - exact start_sound.
  - reflexivity.
  - exact start_ok.
  - lia.
  - cbn [length]. unfold max_int64. lia.
  - apply fresh_by_computation. vm_compute. reflexivity.
  - done.
Qed.

Lemma joined_sound : sound joined.
Proof.
  destruct (begin_law placed) as (_ & _ & _ & H & _); [apply placed_sound|reflexivity|exact H].
Qed.

(** A run that a computation shows to succeed. *)
Lemma ran {A B C} (o : res A * (B * C)) :
  is_ok o.1 = true -> exists a b c, o = (Ok a, (b, c)).
Proof. destruct o as [[a|] [? ?]]; [|done]. by eauto. Qed.
End EngineExamples.
Import EngineExamples.
#[local] Existing Instances store model laws.

Lemma call_published_witness :
  exists r d' x',
    call office (Some (ExternalError "deadline" [])) CallClaim (ask "ann") (placed, placed_run) = (r, (d', x')) /\
    InTransaction d' = false /\ base d' = base placed.
Proof.
  destruct (call_published office (Some (ExternalError "deadline" [])) CallClaim (ask "ann")
    placed placed_run) as (r & d' & x' & Hc & Ha & _ & Hp).
  - apply placed_sound.
  - vm_compute. reflexivity.
  - discriminate.
  - apply fresh_by_computation. vm_compute. reflexivity.
  - exists r, d', x'. split_and!; [exact Hc|exact Ha|].
    unfold published in Hp. destruct (plan _ _ _ _) as [[[next evs] recs]|]; [|apply Hp].
    destruct (stamps _ _).1; apply Hp.
Defined.

Lemma call_accepted_witness :
  exists result d' x' current cmd,
    call office None CallClaim (ask "ann") (placed, placed_run) = (Ok result, (d', x')) /\
    Ledger.tasks (base placed) !! "t1" = Some current /\ cmd = CmdClaim "ann" /\
    Result.Task_ result = next_task cmd current (Service.clock office (Run.ticks placed_run)).
Proof.
  destruct (ran (call office None CallClaim (ask "ann") (placed, placed_run)))
    as (result & d' & x' & Hr); [vm_compute; reflexivity|].
  destruct (call_accepted office None CallClaim (ask "ann") placed placed_run result d' x')
    as (current & cmd & Hc & _ & [Hcmd _] & _ & Ht & _).
  - apply placed_sound.
  - vm_compute. reflexivity.
  - apply fresh_by_computation. vm_compute. reflexivity.
  - exact Hr.
  - exists result, d', x', current, cmd. split_and!; [exact Hr|exact Hc|exact Hcmd|exact Ht].
Defined.

Lemma call_deferred_witness :
  exists r d' x',
    call office None CallClaim (ask "ann") (joined, placed_run) = (r, (d', x')) /\ base d' = base joined /\
    Run.delivered x' = Run.delivered placed_run.
Proof.
  destruct (call_deferred office None CallClaim (ask "ann") joined placed_run)
    as (r & d' & x' & Hc & _ & _ & Hb & Hde & _).
  - exact joined_sound.
  - vm_compute. reflexivity.
  - discriminate.
  - apply fresh_by_computation. vm_compute. reflexivity.
  - exists r, d', x'. split_and!; [exact Hc|exact Hb|exact Hde].
Defined.

Lemma create_accepted_witness :
  exists result d' x',
    Create_ office None order (start, start_run) = (Ok result, (d', x')) /\
    Ledger.tasks (base d') = <[ "t1" := Task.Normalize (Result.Task_ result) ]> ∅.
Proof.
  destruct (ran (Create_ office None order (start, start_run))) as (result & d' & x' & Hr);
    [vm_compute; reflexivity|].
  destruct (create_accepted office None order start start_run result d' x')
    as (spec & id & cmd & event & _ & _ & Hid & _ & _ & _ & Ht & _).
  - exact start_sound.
  - reflexivity.
  - apply fresh_by_computation. vm_compute. reflexivity.
  - exact Hr.
  - exists result, d', x'. split; [exact Hr|]. rewrite (Hid ltac:(discriminate)) in Ht. exact Ht.
Defined.

Definition day : list (option error * EngineOp) :=
  [(None, EngineCreate order); (None, EngineCall CallClaim (ask "ann"));
   (Some (ExternalError "deadline" []), EngineCall CallStart (ask "ann"));
   (None, EngineClaim (LeaseRequest.mk 1700000009000000000 "w" 5 10 []))].

Lemma engine_preserves_ledger_witness :
  LedgerOk 4 (base (for_each (perform office) day (start, start_run)).1).
Proof.
  apply (engine_preserves_ledger office day start start_run 0).
  - exact start_sound.
  - reflexivity.
  - exact start_ok.
  - lia.
  - unfold max_int64. cbn. lia.
  - apply fresh_by_computation. vm_compute. reflexivity.
Defined.

Lemma version_names_state_witness :
  exists t t', Ledger.tasks (base placed) !! "t1" = Some t /\
    Ledger.tasks (base (for_each (perform office) (tail day) (placed, placed_run)).1) !! "t1" = Some t' /\
    (same_work t t' \/ (Task.Version t < Task.Version t')%Z).
Proof.
  destruct (Ledger.tasks (base placed) !! "t1") as [t|] eqn:Ht; [|vm_compute in Ht; discriminate].
  destruct (version_names_state office (tail day) placed placed_run 1 "t1" t) as (t' & H1 & H2).
  - apply placed_sound.
  - vm_compute. reflexivity.
  - apply placed_sound.
  - lia.
  - unfold max_int64. cbn. lia.
  - apply fresh_by_computation. vm_compute. reflexivity.
  - exact Ht.
  - exists t, t'. split_and!; [reflexivity|exact H1|exact H2].
Defined.

Definition sweeper : Sweeper.t := Sweeper.mk "sweeper-1" 300000000000 2 [].


Definition staffed : Service.t := Service.mk types (Some AssignmentExamples.r)
  SingleCandidateStrategy (fun _ => 0%Z) [] (fun _ => Err "no patches").
Definition inbox : Query.t := Query.zero <| Query.Candidate := "bob" |>.
Definition open_task : Task.t :=
  AssignmentExamples.created <| Task.Status := StatusReady |>.

Lemma inbox_is_eligibility_witness :
  matchesCandidate open_task (ResolvedQuery.mk (Query.Clone inbox) ["clerks"]) = true /\
  Eligible staffed open_task "bob" = Ok true.
Proof.
  split; [|vm_compute; reflexivity].
  rewrite (inbox_is_eligibility staffed inbox); [vm_compute; reflexivity..|discriminate].
Defined.

(** The sweep escalates the overdue task once; its lease keeps a second sweep off. *)
Example sweep_demo :
  let first := Sweep office sweeper (fun _ => None) (fun _ => []) (placed, placed_run) in
  let second := Sweep office sweeper (fun _ => None) (fun _ => []) first.2 in
  (fun r => match r with
            | Ok x => (SweepResult.Claimed x, SweepResult.Escalated x, SweepResult.Exempted x)
            | Err _ => (0, 0, 0)
            end) <$> [first.1.1; second.1.1] = [(1, 1, 0); (0, 0, 0)] /\
  length (Ledger.outbox (base second.2.1)) = 2.
Proof. vm_compute. done. Qed.
