(* ===== verification/Kind.v ===== *)
(** * Kind: a typed handle on one task type

    Models [kind.go]: the definition of a type from Go types and the typed creation,
    completion, reading and handling of its tasks.  A handle is its type's name and
    whether it was made by [Define]; what it does, it does through the service of
    [Service.v].  The encodings of the two Go types and the schemas derived from
    them by reflection ([schemagen.go]) are parameters.  Where [Get] fails it
    returns its partly decoded task beside the error; that task is not modelled.

    Shown: what is written through a handle is read back through it, a completed
    task's typed output reaches the handlers of its type and no other's, and a task
    of another type is refused. *)

From S2P Require Import Prelude Domain Errors Event Lifecycle LifecycleFacts Assignment.
From S2P Require Import Query Outbox Store MemStore MemStoreFacts Ident Registry Service ServiceFacts EngineExamples.

(** A Go type: its values, its zero, its encoding and the schema derived from it. *)
Module GoType.
Record t : Type := mk {
  T : Type;
  zero : T;
  Marshal : T -> result string string;
  Unmarshal : string -> result string T;
  DeriveSchema : res string
}.
Arguments mk {T}.
End GoType.

Module Kind.
Record t : Type := mk { defined : bool; name : string }.
End Kind.

Module TypedTask.
Record t (In Out : Type) : Type := mk { Task_ : Task.t; Input : In; Output : Out }.
Arguments mk {In Out}.
Arguments Task_ {In Out}.
Arguments Input {In Out}.
Arguments Output {In Out}.
End TypedTask.

Definition not_defined : error := ConfigurationError "task kind was not defined against a service".

Definition payload_issue (subject detail : string) : error :=
  ValidationError subject [ValidationIssue.mk "" detail].

Section kind.
Context (In Out : GoType.t).

(** [svc.Register] changes the registry the service points to. *)
Definition Define (env : Env.t) (svc : option Service.t) (spec : TypeSpec.t)
  : res Kind.t * option Service.t :=
  match svc with
  | None => (Err (ConfigurationError "a service is required to define a task type"), None)
  | Some s =>
      let derived (given : RawMessage) (T : GoType.t) : res RawMessage :=
        if raw_empty given then try! schema := GoType.DeriveSchema T in Ok (Some schema) else Ok given in
      match derived (TypeSpec.InputSchema spec) In with
      | Err e => (Err e, svc)
      | Ok input =>
          match derived (TypeSpec.OutputSchema spec) Out with
          | Err e => (Err e, svc)
          | Ok output =>
              let spec := spec <| TypeSpec.InputSchema := input |> <| TypeSpec.OutputSchema := output |> in
              let '(r, types) := Register env spec (Service.registry s) in
              let s := Service.mk types (Service.resolver s) (Service.strategy s) (Service.clock s)
                         (Service.handlers s) (Service.DecodePatch s) in
              (match r with Err e => Err e | Ok _ => Ok (Kind.mk true (TypeSpec.Name spec)) end, Some s)
          end
      end
  end.

Section operations.
Context {D G : Type} `{!Store D, !IDGenerator G}.
Context (s : Service.t) (k : Kind.t).

Definition Create_ (cancelled : option error) (input : GoType.T In) (req : CreateRequest.t) : M (D := D) (G := G) Result.t :=
  if negb (Kind.defined k) then sfail not_defined
  else
    match GoType.Marshal In input with
    | Err err => sfail (payload_issue "input" ("could not be encoded: " +:+ err))
    | Ok payload =>
        Service.Create_ s cancelled (CreateRequest.mk (Kind.name k) (CreateRequest.Actor req) (CreateRequest.ID req)
          (Some payload) (CreateRequest.Priority req) (CreateRequest.DueAt req) (CreateRequest.Deadline req)
          (CreateRequest.Candidates req) (CreateRequest.Escalation req) (CreateRequest.Correlation req)
          (CreateRequest.Callback req))
    end.

Definition Complete_ (cancelled : option error) (output : GoType.T Out) (req : TaskRequest.t)
  : M (D := D) (G := G) Result.t :=
  if negb (Kind.defined k) then sfail not_defined
  else
    match GoType.Marshal Out output with
    | Err err => sfail (payload_issue "output" ("could not be encoded: " +:+ err))
    | Ok payload => Service.Complete s cancelled req (Some payload)
    end.

(** A payload decoded, the zero value when there is none. *)
Definition decoded (T : GoType.t) (subject : string) (payload : RawMessage) : res (GoType.T T) :=
  match payload with
  | None | Some EmptyString => Ok (GoType.zero T)
  | Some bytes =>
      match GoType.Unmarshal T bytes with
      | Err err => Err (payload_issue subject ("could not be decoded: " +:+ err))
      | Ok value => Ok value
      end
  end.

Definition Get_ (id : string) : M (D := D) (G := G) (TypedTask.t (GoType.T In) (GoType.T Out)) :=
  if negb (Kind.defined k) then sfail not_defined
  else
    let! task := Service.Get_ id in
    if decide (Task.Type_ task <> Kind.name k)
    then sfail (payload_issue "request" ("task " +:+ id +:+ " is of type " +:+ quote (Task.Type_ task) +:+
                                         ", not " +:+ quote (Kind.name k)))
    else
      let! input := slift (decoded In "input" (Task.Input task)) in
      let! output := slift (decoded Out "output" (Task.Output task)) in
      sret (TypedTask.mk task input output).

Definition OnCompleted (handle : Event.t -> GoType.T Out -> option error) : Event.t -> option error := fun event =>
  if decide (Event.Type_ event <> EventTypeCompleted \/ Event.TaskType event <> Kind.name k) then None
  else
    match decoded Out "output" (Event.Output event) with
    | Err e => Some e
    | Ok output => handle event output
    end.
End operations.
End kind.

(** * Lemmas *)

(** Every type is registered under its own name. *)
Definition Named (types : Registry) : Prop :=
  forall name entry, types !! name = Some entry -> TypeSpec.Name (registeredType.spec entry) = name.

Lemma NewRegistry_named : Named NewRegistry.
Proof. intros name entry H. unfold NewRegistry in H. by apply lookup_empty_Some in H. Qed.

Lemma Register_named env spec types : Named types -> Named (Register env spec types).2.
Proof.
  intros HN. destruct (Register_cases env spec) as [(e & -> & _)|(entry & (_ & _ & _ & Hc) & ->)]; [done|].
  pose proof (compile_spec _ _ _ Hc) as Hs. destruct (types !! _) as [existing|]; [by destruct (Equal _ _ _)|].
  cbn [snd]. intros name entry' [ [<- <-]|[_ H] ]%lookup_insert_Some; [by rewrite Hs|by apply HN].
Qed.

(** What an encoding must do: no value is written as nothing, and each is read back. *)
Definition faithful (T : GoType.t) : Prop :=
  forall v payload, GoType.Marshal T v = Ok payload -> payload <> "" /\ GoType.Unmarshal T payload = Ok v.

Lemma decoded_faithful T subject v payload : faithful T -> GoType.Marshal T v = Ok payload ->
  decoded T subject (Some payload) = Ok v.
Proof. intros HT Hm. destruct (HT v payload Hm) as [Hne HU]. unfold decoded. destruct payload; [done|]. by rewrite HU. Qed.

Lemma Normalize_payloads t :
  Task.Type_ (Task.Normalize t) = Task.Type_ t /\ Task.Input (Task.Normalize t) = Task.Input t /\
  Task.Output (Task.Normalize t) = Task.Output t.
Proof. unfold Task.Normalize. rewrite ?Task_Clone_id. by destruct t. Qed.

Section facts.
Context {D G : Type} `{!Store D, !IDGenerator G, !StoreModel D, !StoreLaws D}.
Context (In Out : GoType.t) (HIn : faithful In) (HOut : faithful Out).
Context (s : Service.t) (Hnamed : Named (Service.registry s)).

Lemma Get_held k id d (x : Run.t G) task input output : sound d -> InTransaction d = false -> Kind.defined k = true ->
  Ledger.tasks (base d) !! id = Some task -> Task.Type_ task = Kind.name k ->
  decoded In "input" (Task.Input task) = Ok input -> decoded Out "output" (Task.Output task) = Ok output ->
  Get_ In Out k id (d, x) = (Ok (TypedTask.mk task input output), (d, x)).
Proof.
  intros Hd Hn Hk Ht Hty Hi Ho. unfold Get_. rewrite Hk. cbn [negb].
  unfold sbind, Service.Get_, read. rewrite get_law, view_outside by done. unfold Ledger.Get. rewrite Ht.
  rewrite decide_False by tauto. unfold slift. by rewrite Hi, Ho.
Qed.

Lemma next_output c t now :
  Task.Output (next_task c t now) = match c with CmdComplete _ output _ => output | _ => Task.Output t end.
Proof.
  unfold next_task. rewrite recordNext_fields. destruct (IsTerminal _), c; cbn; repeat case_match; done.
Qed.

(** What a creation through the service stored. *)
Lemma created_run cancelled req d (x : Run.t G) result d' x' :
  sound d -> InTransaction d = false -> fresh 1 (Run.eventIDs x) (Ledger.keys (base d)) ->
  Service.Create_ s cancelled req (d, x) = (Ok result, (d', x')) ->
  exists id, Ledger.tasks (base d') !! id = Some (Task.Normalize (Result.Task_ result)) /\
    Task.ID (Result.Task_ result) = id /\ Task.Type_ (Result.Task_ result) = CreateRequest.Type_ req /\
    Task.Input (Result.Task_ result) = CreateRequest.Input req /\ Task.Output (Result.Task_ result) = None.
Proof.
  intros Hd Hn Hf Hc.
  destruct (create_accepted s cancelled req d x result d' x' Hd Hn Hf Hc)
    as (spec & id & cmd & event & Hl & _ & _ & _ & Has & Ht & Hb & _).
  set (now := Service.clock s (Run.ticks x)) in *. set (t := NewTask spec id req now) in *.
  destruct (created_command s spec id req now) as (c & Hcmd & Hp & _). fold t in Hcmd, Hp.
  assert (Hnext : next_task c t now = next_task cmd t now).
  { assert (E : reference c t now = reference cmd t now) by congruence. by apply (f_equal fst) in E. }
  rewrite <- Hnext in Ht.
  destruct (NewTask_new spec id req now) as (Hid & _ & Hst). fold t in Hid, Hst.
  destruct (next_identity c t now) as (Hi & Hty & _ & _ & _ & _ & Hin & _).
  exists id. rewrite Ht, Hi, Hty, Hin, next_output. split_and!.
  - rewrite Hb, lookup_insert_eq. by rewrite Ht.
  - done.
  - unfold t. apply rbind_ok in Hl as (entry & Hl & [= <-]). rewrite TypeSpec_Clone_id.
    unfold lookup in Hl. destruct (_ !! _) as [e|] eqn:E; [|done]. injection Hl as ->.
    rewrite <- (Hnamed _ _ E). unfold NewTask. cbv zeta.
    by destruct (CreateRequest.Priority req), (CreateRequest.Candidates req), (CreateRequest.Escalation req),
      (CreateRequest.Callback req).
  - unfold t, NewTask. cbv zeta.
    destruct (CreateRequest.Priority req), (CreateRequest.Candidates req), (CreateRequest.Escalation req),
      (CreateRequest.Callback req); cbn; by destruct (CreateRequest.Input req).
  - assert (Ho : Task.Output t = None).
    { unfold t, NewTask. cbv zeta.
      by destruct (CreateRequest.Priority req), (CreateRequest.Candidates req), (CreateRequest.Escalation req),
        (CreateRequest.Callback req). }
    destruct c; try done. unfold permitted in Hp. by rewrite Hst in Hp.
Qed.

(** What a completion through the service stored and announced. *)
Lemma completed_run cancelled req output d (x : Run.t G) result d' x' :
  sound d -> InTransaction d = false -> fresh 1 (Run.eventIDs x) (Ledger.keys (base d)) ->
  Service.Complete s cancelled req output (d, x) = (Ok result, (d', x')) ->
  let id := TaskRequest.TaskID req in
  sound d' /\ InTransaction d' = false /\
  exists current event, Ledger.tasks (base d) !! id = Some current /\
    Ledger.tasks (base d') !! id = Some (Task.Normalize (Result.Task_ result)) /\
    Task.Type_ (Result.Task_ result) = Task.Type_ current /\
    Task.Input (Result.Task_ result) = Task.Input current /\ Task.Output (Result.Task_ result) = output /\
    Result.Events result = [event] /\ Event.Type_ event = EventTypeCompleted /\
    Event.TaskType event = Task.Type_ current /\ Event.Output event = output.
Proof.
  intros Hd Hn Hf Hcall id. set (now := Service.clock s (Run.ticks x)).
  assert (Hid : TaskRequest.TaskID req <> "").
  { intros Hid. unfold Service.Complete, mutate in Hcall. by rewrite decide_True in Hcall. }
  destruct (call_own s cancelled (CallComplete output) req d x) as (r & d1 & x1 & Hc & Hn1 & Hs1 & _ & Hp); [done..|].
  change (call s cancelled (CallComplete output) req) with (Service.Complete (D := D) (G := G) s cancelled req output) in Hc.
  rewrite Hc in Hcall. injection Hcall as -> -> ->. split; [done|]. split; [done|]. unfold published in Hp.
  destruct (plan req _ (base d) _) as [ [ [next evs] recs]|] eqn:Eplan; [|naive_solver].
  apply plan_accepted in Eplan as (current & cmd & Hcur & _ & [Hcmd _] & _ & Ho). injection Ho as -> -> ->.
  fold now in Hp. destruct (stamps _ _).1 as [stamped|] eqn:Es; [|naive_solver].
  destruct cancelled; [naive_solver|]. destruct Hp as ([= ->] & Hbase & _).
  pose proof (apply_outcome_spec _ _ stamped (base d) (outcome_records cmd current now)) as Hspec.
  cbv zeta in Hspec. unfold outcome_of in Hspec; cbn [snd] in Hspec. rewrite <- Hbase in Hspec.
  destruct Hspec as (Htasks & _).
  destruct (next_identity cmd current now) as (Hi & Hty & _ & _ & _ & _ & Hin & _).
  assert (Hkey : Task.ID current = id) by (eapply (keyed d); [done|by rewrite view_outside]).
  destruct (stamps_outcome cmd current now (Run.eventIDs x) (Ledger.keys (base d)) stamped)
    as [ [_ Habs]|(event & _ & _ & ->)]; [done| |exact Es|subst cmd; done|].
  { rewrite <- view_outside by done. by apply distinct_events. }
  assert (Hett : Event.TaskType (next_event cmd current now) = Task.Type_ current).
  { rewrite <- Hty. by destruct cmd. }
  exists current. eexists. cbn [Result.Task_ Result.Events].
  rewrite Htasks, Hi, Hkey, lookup_insert_eq, next_output, Hty, Hin.
  split_and!; try done; by subst cmd.
Qed.

Lemma Define_named env spec k' s' : Define In Out env (Some s) spec = (Ok k', Some s') ->
  Kind.defined k' = true /\ Kind.name k' = TypeSpec.Name spec /\ Named (Service.registry s') /\
  Has (Service.registry s') (Kind.name k') = true.
Proof.
  unfold Define. destruct (if raw_empty (TypeSpec.InputSchema spec) then _ else _) as [input|]; [|done].
  destruct (if raw_empty (TypeSpec.OutputSchema spec) then _ else _) as [output|]; [|done].
  set (spec' := _ <| TypeSpec.OutputSchema := output |>).
  pose proof (Register_named env spec' _ Hnamed) as HN. pose proof (register_outcome env spec' (Service.registry s)) as HR.
  destruct (Register env spec' (Service.registry s)) as [ [ []|e] types]; [|done]. intros H. injection H as <- <-.
  split_and!; [done..|]. destruct HR as ((found & Hl & _) & _). cbn [Kind.name Service.registry].
  unfold Has. apply bool_decide_eq_true. unfold Lookup, lookup in Hl. destruct (types !! _); [by eexists|done].
Qed.

(** A typed handle is the untyped service, and loses nothing.  What [Define]
    accepts is a handle on the type it registered.  A task created through it is
    read back with the input it was given and no output; completing a task of the
    type through it is read back with the input as it was and the output given, and
    its event calls the handler of this handle once with that output, and the
    handler of no handle of another name; a task of another type is refused as not
    valid, never decoded. *)
Theorem typed_roundtrip k cancelled (d : D) (x : Run.t G) :
  (forall env spec k' s', Define In Out env (Some s) spec = (Ok k', Some s') ->
     Kind.defined k' = true /\ Kind.name k' = TypeSpec.Name spec /\ Named (Service.registry s') /\
     Has (Service.registry s') (Kind.name k') = true) /\
  (Kind.defined k = true -> sound d -> InTransaction d = false ->
  fresh 1 (Run.eventIDs x) (Ledger.keys (base d)) ->
  (forall input req result d' x', Create_ In s k cancelled input req (d, x) = (Ok result, (d', x')) ->
     sound d' -> InTransaction d' = false ->
     Get_ In Out k (Task.ID (Result.Task_ result)) (d', x') =
       (Ok (TypedTask.mk (Task.Normalize (Result.Task_ result)) input (GoType.zero Out)), (d', x'))) /\
  (forall output req result d' x', Complete_ Out s k cancelled output req (d, x) = (Ok result, (d', x')) ->
     exists current, Ledger.tasks (base d) !! TaskRequest.TaskID req = Some current /\
     (Task.Type_ current = Kind.name k ->
      (forall input, decoded In "input" (Task.Input current) = Ok input ->
        Get_ In Out k (TaskRequest.TaskID req) (d', x') =
          (Ok (TypedTask.mk (Task.Normalize (Result.Task_ result)) input output), (d', x'))) /\
      exists event, Result.Events result = [event] /\
        (forall handle, OnCompleted Out k handle event = handle event output) /\
        (forall other handle, Kind.name other <> Kind.name k -> OnCompleted Out other handle event = None))) /\
  (forall id task, Ledger.tasks (base d) !! id = Some task -> Task.Type_ task <> Kind.name k ->
     exists e, Get_ In Out k id (d, x) = (Err e, (d, x)) /\ errors_Is e ErrValidation = true)).
Proof.
  split; [by apply Define_named|]. intros Hk Hd Hn Hf. split_and!.
  - intros input req result d' x' Hc Hd' Hn'. unfold Create_ in Hc. rewrite Hk in Hc. cbn [negb] in Hc.
    destruct (GoType.Marshal In input) as [payload|] eqn:Hm; [|done].
    destruct (created_run _ _ _ _ _ _ _ Hd Hn Hf Hc) as (id & Ht & <- & Hty & Hin & Hout).
    destruct (Normalize_payloads (Result.Task_ result)) as (Ety & Ein & Eout).
    apply (Get_held k _ d' x' _ _ _ Hd' Hn' Hk Ht); [by rewrite Ety, Hty| |].
    + rewrite Ein, Hin. by apply decoded_faithful.
    + by rewrite Eout, Hout.
  - intros output req result d' x' Hc. unfold Complete_ in Hc. rewrite Hk in Hc. cbn [negb] in Hc.
    destruct (GoType.Marshal Out output) as [payload|] eqn:Hm; [|done].
    destruct (completed_run _ _ _ _ _ _ _ _ Hd Hn Hf Hc)
      as (Hd' & Hn' & current & event & Hcur & Ht & Hty & Hin & Hout & He & Het & Hett & Heo).
    destruct (Normalize_payloads (Result.Task_ result)) as (Ety & Ein & Eout).
    exists current. split; [done|]. intros Hname. split.
    + intros input Hi. apply (Get_held k _ d' x' _ _ _ Hd' Hn' Hk Ht); [by rewrite Ety, Hty| |].
      * by rewrite Ein, Hin.
      * rewrite Eout, Hout. by apply decoded_faithful.
    + exists event. split; [done|]. unfold OnCompleted. split.
      * intros handle. rewrite decide_False by (intros [H|H]; congruence).
        by rewrite Heo, (decoded_faithful Out "output" output payload HOut Hm).
      * intros other handle Hne. rewrite decide_True; [done|]. right. congruence.
  - intros id task Ht Hne. eexists. unfold Get_. rewrite Hk. cbn [negb].
    unfold sbind, Service.Get_, read. rewrite get_law, view_outside by done. unfold Ledger.Get. rewrite Ht.
    rewrite decide_True by done. split; [done|]. done.
Qed.
End facts.

(** ** A type of two answers *)

Module KindExamples.
Definition answer_type : GoType.t :=
  GoType.mk false (fun b : bool => Ok (if b then "{}" else "{ }"))
    (fun text => if decide (text = "{}") then Ok true else if decide (text = "{ }") then Ok false else Err "no answer")
    (Ok "{}").
Definition approvals : Kind.t := Kind.mk true "approval".
Definition bare : CreateRequest.t :=
  CreateRequest.mk "ignored" "sys" "t7" None None None None None None CorrelationData.empty None.
End KindExamples.
Import KindExamples.
Import RegistryExamples IdentExamples MemStoreExamples EngineExamples.
#[local] Existing Instances EngineExamples.store EngineExamples.model EngineExamples.laws.

Lemma answer_faithful : faithful answer_type.
Proof. intros [] payload H; injection H as <-; done. Qed.

Lemma types_named : Named types.
Proof. apply Register_named, NewRegistry_named. Qed.

Lemma typed_roundtrip_witness : exists result d' x',
  Create_ answer_type office approvals None true bare (start, start_run) = (Ok result, (d', x')) /\
  Get_ answer_type answer_type approvals "t7" (d', x') =
    (Ok (TypedTask.mk (Task.Normalize (Result.Task_ result)) true false), (d', x')).
Proof.
  destruct (Create_ answer_type office approvals None true bare (start, start_run)) as [[result|e] [d' x']] eqn:E;
    [|vm_compute in E; discriminate E].
  exists result, d', x'. split; [reflexivity|].
  assert (Hf : fresh 1 (Run.eventIDs start_run) (Ledger.keys (base start)))
    by (apply fresh_by_computation; vm_compute; reflexivity).
  pose proof (proj1 (proj2 (typed_roundtrip answer_type answer_type answer_faithful answer_faithful office types_named
    approvals None start start_run) eq_refl start_sound eq_refl Hf) true bare result d' x' E) as H.
  assert (Hd : sound d' /\ InTransaction d' = false).
  { destruct (create_own office None (CreateRequest.mk "approval" "sys" "t7" (Some "{}") None None None None None
      CorrelationData.empty None) start start_run) as (r & d1 & x1 & Hc & Hn & Hs & _).
    - exact start_sound.
    - reflexivity.
    - exact Hf.
    - unfold Create_ in E. cbn [Kind.defined approvals negb GoType.Marshal answer_type] in E.
      assert (Heq : (Ok result, (d', x')) = (r, (d1, x1))) by (rewrite <- E; exact Hc).
      injection Heq as _ -> _. by split. }
  specialize (H (proj1 Hd) (proj2 Hd)).
  assert (Hid : Task.ID (Result.Task_ result) = "t7") by (vm_compute in E; injection E as <- _ _; reflexivity).
  rewrite Hid in H. exact H.
Defined.

(** A handle of another name, and one nobody defined. *)
Example other_handles_refuse :
  is_ok (Get_ (D := MemStore.DB.t) (G := UUIDSource) answer_type answer_type (Kind.mk true "other") "t1" (placed, placed_run)).1 = false /\
  is_ok (Get_ (D := MemStore.DB.t) (G := UUIDSource) answer_type answer_type approvals "t1" (placed, placed_run)).1 = true /\
  is_ok (Create_ answer_type office (Kind.mk false "") None true bare (start, start_run)).1 = false.
Proof. vm_compute. done. Qed.
