(* ===== verification/Construct.v ===== *)
(** * Construct: building a service

    Models the construction of [service.go]: the options of a service, [New] and
    the resolution of the event handlers.  A nil argument of an option is [None];
    a factory is given the service under construction, whose registry it may
    extend, and answers with handlers, some of them nil, or an error.  The default
    generators, the system's clock and the RFC 6902 library are arguments. *)

From S2P Require Import Prelude Domain Errors Event Assignment Store Ident Registry Service.

Definition Handler : Type := Event.t -> option error.
Definition Factory : Type := Service.t -> res (list (option Handler)) * Registry.

(** A service being built, with the generators its runs draw on. *)
Module Construction.
Record t {G : Type} : Type := mk {
  service : Service.t;
  ids : G;
  eventIDs : G;
  factories : list Factory;
  onDispatchError : bool           (* whether the host hears of dispatch errors *)
}.
Arguments t : clear implicits.
Arguments mk {G}.
#[global] Instance eta {G} : Eta (t G) := fun x =>
  mk (service x) (ids x) (eventIDs x) (factories x) (onDispatchError x).
End Construction.

Section construct.
Context {G : Type}.

Inductive Option : Type :=
| WithRegistry (registry : option Registry)
| WithGroupResolver (resolver : option GroupResolver.t)
| WithAssignmentStrategy (strategy : option AssignmentStrategy)
| WithClock (clock : option (nat -> Time))
| WithIDGenerator (generator : option G)
| WithEventHandlers (handlers : list (option Handler))
| WithEventHandlerFactory (factory : option Factory)
| WithDispatchErrorHandler (handler : bool).

Definition on_service (f : Service.t -> Service.t) (c : Construction.t G) : Construction.t G :=
  c <| Construction.service := f (Construction.service c) |>.

Definition add_factory (factory : Factory) (c : Construction.t G) : Construction.t G :=
  c <| Construction.factories := Construction.factories c ++ [factory] |>.

Definition apply_option (opt : Option) (c : Construction.t G) : Construction.t G :=
  match opt with
  | WithRegistry (Some registry) => on_service (fun s => s <| Service.registry := registry |>) c
  | WithGroupResolver resolver => on_service (fun s => s <| Service.resolver := resolver |>) c
  | WithAssignmentStrategy (Some strategy) => on_service (fun s => s <| Service.strategy := strategy |>) c
  | WithClock (Some clock) => on_service (fun s => s <| Service.clock := clock |>) c
  | WithIDGenerator (Some generator) => c <| Construction.ids := generator |>
  | WithEventHandlers handlers => add_factory (fun s => (Ok handlers, Service.registry s)) c
  | WithEventHandlerFactory (Some factory) => add_factory factory c
  | WithDispatchErrorHandler true => c <| Construction.onDispatchError := true |>
  | _ => c
  end.

(** The loop over the factories; each sees the service with the handlers of those
    before it. *)
Fixpoint resolve_each (factories : list Factory) (s : Service.t) : res Service.t :=
  match factories with
  | [] => Ok s
  | factory :: rest =>
      let '(built, registry) := factory s in
      let s := s <| Service.registry := registry |> in
      match built with
      | Err err => Err (Wrapped "hmntsk: build event handlers: " err)
      | Ok built =>
          resolve_each rest (s <| Service.handlers := Service.handlers s ++ omap id built |>)
      end
  end.

Definition resolveHandlers (c : Construction.t G) : res (Construction.t G) :=
  try! s := resolve_each (Construction.factories c) (Construction.service c) in
  Ok (c <| Construction.service := s |> <| Construction.factories := [] |>).

Definition not_transactional : string :=
  "the durable event sink must participate in the host's transaction; " +:+
  "an in-memory or remote sink loses every event produced by a transaction that " +:+
  "commits and then crashes before delivery".

Context (SystemClock : nat -> Time) (NewUUIDv7Generator : G).
Context (DecodePatch : string -> result string (string -> result string string)).

Definition default_construction : Construction.t G :=
  Construction.mk
    (Service.mk NewRegistry None SingleCandidateStrategy SystemClock [] DecodePatch)
    NewUUIDv7Generator NewUUIDv7Generator [] false.

(** The store given, if it is not nil, says whether its event sink is
    transactional. *)
Definition New (transactional : option bool) (opts : list Option) : res (Construction.t G) :=
  match transactional with
  | None => Err (ConfigurationError "a store is required")
  | Some transactional =>
      let svc := for_each apply_option opts default_construction in
      if negb transactional then Err (ConfigurationError not_transactional)
      else resolveHandlers svc
  end.

(** ** What is built *)

Lemma resolve_each_ok factories : forall s s', resolve_each factories s = Ok s' ->
  Service.resolver s' = Service.resolver s /\ Service.strategy s' = Service.strategy s /\
  Service.clock s' = Service.clock s /\ Service.DecodePatch s' = Service.DecodePatch s /\
  exists more, Service.handlers s' = Service.handlers s ++ more.
Proof.
  induction factories as [|factory rest IH]; intros s s'; cbn [resolve_each].
  - intros [= <-]. split_and!; try done. exists []. by rewrite app_nil_r.
  - destruct (factory s) as [ [built|err] registry]; [|done]. intros H. apply IH in H as (-> & -> & -> & -> & more & ->).
    split_and!; try done. exists (omap id built ++ more). cbn. by rewrite app_assoc.
Qed.

(** Factories that answer with the same handlers whatever the service, and leave
    its registry alone, as those of [WithEventHandlers] do. *)
Definition gives (handlers : list (option Handler)) : Factory := fun s => (Ok handlers, Service.registry s).

Lemma resolve_gives given : forall s, resolve_each (gives <$> given) s =
  Ok (s <| Service.handlers := Service.handlers s ++ omap id (concat given) |>).
Proof.
  induction given as [|handlers given IH]; intros s; cbn [fmap list_fmap resolve_each concat].
  - rewrite app_nil_r. by destruct s.
  - unfold gives at 1. rewrite IH. f_equal. destruct s. cbn. f_equal. by rewrite omap_app, app_assoc.
Qed.

(** Handlers run in the order they were registered, nil ones left out. *)
Theorem handlers_in_order given :
  let built := New (Some true) (WithEventHandlers <$> given) in
  exists c, built = Ok c /\ Service.handlers (Construction.service c) = omap id (concat given).
Proof.
  cbv zeta. unfold New. cbn [negb].
  assert (H : forall l c, for_each apply_option (WithEventHandlers <$> l) c =
    c <| Construction.factories := Construction.factories c ++ (gives <$> l) |>).
  { induction l as [|x l IH]; intros c; cbn [fmap list_fmap for_each].
    - rewrite app_nil_r. by destruct c.
    - rewrite IH. destruct c. cbn. f_equal. by rewrite <- app_assoc. }
  rewrite H. unfold resolveHandlers. cbn [Construction.factories default_construction upd app].
  rewrite resolve_gives. eexists. split; [reflexivity|]. done.
Qed.

(** A store whose events could outlive their transaction is refused, whatever the
    options. *)
Lemma outside_sink_refused opts : New (Some false) opts = Err (ConfigurationError not_transactional).
Proof. done. Qed.
End construct.
