(* ===== verification/Float64.v ===== *)
(** * Float64: Go's [float64]

    The binary64 arithmetic the retry schedules are computed in, as the
    specification floats of the Standard Library: conversion from an integer, the
    four operations used, [math.Ldexp], the built-in [max] and [min], and the
    integer part a conversion to an integer keeps. *)

From Stdlib Require Import Floats.SpecFloat.
From S2P Require Import Prelude.

Definition float64_prec : Z := 53.
Definition float64_emax : Z := 1024.

Definition float64 (n : Z) : spec_float :=
  binary_normalize float64_prec float64_emax n 0 false.
Definition float64_mul : spec_float -> spec_float -> spec_float :=
  SFmul float64_prec float64_emax.
Definition float64_add : spec_float -> spec_float -> spec_float :=
  SFadd float64_prec float64_emax.
Definition float64_sub : spec_float -> spec_float -> spec_float :=
  SFsub float64_prec float64_emax.
Definition Ldexp (f : spec_float) (exponent : Z) : spec_float :=
  SFldexp float64_prec float64_emax f exponent.

(** The built-in [max] and [min] of two floats. *)
Definition float64_max (a b : spec_float) : spec_float :=
  match SFcompare a b with
  | None => S754_nan
  | Some Lt => b
  | Some _ => a
  end.
Definition float64_min (a b : spec_float) : spec_float :=
  match SFcompare a b with
  | None => S754_nan
  | Some Gt => b
  | Some _ => a
  end.

(** The integer part of a float, if it has one. *)
Definition float64_trunc (f : spec_float) : option Z :=
  match f with
  | S754_zero _ => Some 0%Z
  | S754_finite sign m e =>
      let magnitude :=
        (if decide (0 <= e) then Z.pos m * 2 ^ e else Z.pos m / 2 ^ (- e))%Z in
      Some (if sign then (- magnitude)%Z else magnitude)
  | S754_infinity _ | S754_nan => None
  end.
