(* ===== verification/Relay.v ===== *)
(** * Relay: delivering recorded events

    Models [relay/relay.go] and [relay/sink.go]: the relay's options and its
    construction, the fan-out of one event to the sinks that have not taken it,
    the settlement of its outcome, the pass over a claimed batch, and the back-off
    schedule.  ([Run], which calls [Relay] on a ticker, is in [Ticker.v].)

    A sink is the host's: its name, and what it answers to an attempt, which may
    depend on everything it was offered before.  Between the transactions of one
    pass other processes may act on the store: [others i] is what they did before
    the [i]-th claimed event is delivered.  [cancelled i] is what cancelled the
    context during the [i]-th transaction, the claim being number 0.  The schedule
    is computed in binary64 floating point, as the code does, with the
    specification floats of the Standard Library; converting a float that no
    [int64] represents is the platform's business, the argument [unrepresentable]. *)

From Stdlib Require Import Floats.SpecFloat.
From S2P Require Import Prelude Domain Errors Event Outbox Store Ident Registry.
From S2P Require Import Assignment Query Lifecycle LifecycleFacts Service Float64.

Definition DefaultMaxAttempts : Z := 5.
Definition DefaultBackoff : Z := (30 * 1000000000)%Z.
Definition DefaultBackoffCeiling : Z := (3600 * 1000000000)%Z.

(** [0.2] *)
Definition DefaultJitter : spec_float := S754_finite false 7205759403792794 (-55).

(** ** Sinks *)

Inductive OutcomeStatus : Type :=
| OutcomeUnclassified
| OutcomeDelivered
| OutcomeRetryable
| OutcomePermanent.

Definition OutcomeStatus_String (s : OutcomeStatus) : string :=
  match s with
  | OutcomeDelivered => "delivered"
  | OutcomeRetryable => "retryable"
  | OutcomePermanent => "permanent"
  | OutcomeUnclassified => "unclassified"
  end.

Definition OutcomeStatus_Valid (s : OutcomeStatus) : bool :=
  match s with
  | OutcomeDelivered | OutcomeRetryable | OutcomePermanent => true
  | OutcomeUnclassified => false
  end.

Module Outcome.
Record t : Type := mk { Status : OutcomeStatus; Err : option error }.

Definition Delivered : t := mk OutcomeDelivered None.
Definition Retryable (err : error) : t := mk OutcomeRetryable (Some err).
Definition Permanent (err : error) : t := mk OutcomePermanent (Some err).
End Outcome.

Module Attempt.
Record t : Type := mk { Event : Event.t; DeliveryID : string; Number : Z }.
End Attempt.

(** What a pass offered: to which sink, and what. *)
Definition Offer : Type := string * Attempt.t.

Module Sink.
Record t : Type := mk { Name : string; Deliver : list Offer -> Attempt.t -> Outcome.t }.
End Sink.

(** ** The relay and its options *)

Module Relay.
Record t : Type := mk {
  sinks : list Sink.t;
  names : list string;
  owner : string;
  lease : Z;
  batch : Z;
  maxAttempts : Z;
  backoff : Z;
  ceiling : Z;
  jitter : spec_float;
  random : nat -> spec_float
}.
#[global] Instance eta : Eta t := fun x =>
  mk (sinks x) (names x) (owner x) (lease x) (batch x) (maxAttempts x) (backoff x)
    (ceiling x) (jitter x) (random x).

Definition Sinks (r : t) : list string := names r.
End Relay.

(** A nil sink is left out. *)
Definition WithSinks (sinks : list (option Sink.t)) (r : Relay.t) : Relay.t :=
  r <| Relay.sinks := Relay.sinks r ++ omap id sinks |>.
Definition WithRelayOwner (owner : string) (r : Relay.t) : Relay.t :=
  if decide (owner <> "") then r <| Relay.owner := owner |> else r.
Definition WithRelayLease (duration : Z) (r : Relay.t) : Relay.t :=
  if decide (0 < duration)%Z then r <| Relay.lease := duration |> else r.
Definition WithRelayBatch (batch : Z) (r : Relay.t) : Relay.t :=
  if decide (0 < batch)%Z then r <| Relay.batch := batch |> else r.
Definition WithMaxAttempts (attempts : Z) (r : Relay.t) : Relay.t :=
  if decide (0 < attempts)%Z then r <| Relay.maxAttempts := attempts |> else r.
Definition WithBackoff (base ceiling : Z) (r : Relay.t) : Relay.t :=
  let r := if decide (0 < base)%Z then r <| Relay.backoff := base |> else r in
  let r := if decide (0 < ceiling)%Z then r <| Relay.ceiling := ceiling |> else r in
  if decide (Relay.ceiling r < Relay.backoff r)%Z
  then r <| Relay.ceiling := Relay.backoff r |> else r.
Definition WithJitter (fraction : spec_float) (r : Relay.t) : Relay.t :=
  if SFltb fraction (float64 0) then r
  else r <| Relay.jitter := float64_min fraction (float64 1) |>.
Definition WithJitterSource (source : nat -> spec_float) (r : Relay.t) : Relay.t :=
  r <| Relay.random := source |>.

(** The loop of [nameSinks], with the names it has seen. *)
Fixpoint read_names (sinks : list Sink.t) (seen : list string) : res (list string) :=
  match sinks with
  | [] => Ok seen
  | sink :: rest =>
      let name := Sink.Name sink in
      if decide (name = "")
      then Err (ConfigurationError
             "every sink must be named; per-sink acceptance is recorded under the name")
      else if contains seen name
      then Err (ConfigurationError ("two sinks are named " +:+ name +:+
             "; acceptance recorded for one would be read as acceptance by the other"))
      else read_names rest (seen ++ [name])
  end.

Definition nameSinks (r : Relay.t) : res Relay.t :=
  if decide (length (Relay.sinks r) = 0)
  then Err (ConfigurationError ("a relay needs at least one sink; one with none would mark " +:+
         "every event delivered having delivered it nowhere"))
  else try! names := read_names (Relay.sinks r) [] in Ok (r <| Relay.names := names |>).

(** What a relay starts from: [rand.Float64] is the argument. *)
Definition newRelay (random : nat -> spec_float) : Relay.t :=
  Relay.mk [] [] "" DefaultOutboxLease DefaultOutboxBatch DefaultMaxAttempts DefaultBackoff
    DefaultBackoffCeiling DefaultJitter random.

(** ** Results *)

Module SinkResult.
Record t : Type := mk {
  Delivered : nat; Retryable : nat; Permanent : nat; Unclassified : nat; Skipped : nat
}.
#[global] Instance eta : Eta t := fun x =>
  mk (Delivered x) (Retryable x) (Permanent x) (Unclassified x) (Skipped x).
Definition zero : t := mk 0 0 0 0 0.
End SinkResult.

Module RelayResult.
Record t : Type := mk {
  Claimed : nat;
  Delivered : nat;
  Retried : nat;
  DeadLettered : nat;
  Unsettled : nat;
  Sinks : gmap string SinkResult.t
}.
#[global] Instance eta : Eta t := fun x =>
  mk (Claimed x) (Delivered x) (Retried x) (DeadLettered x) (Unsettled x) (Sinks x).
End RelayResult.

(** What a pass accumulates: its result, what it told the error handler, what it
    offered, and how often it drew from the jitter's source. *)
Module Pass.
Record t : Type := mk {
  result : RelayResult.t; reported : list error; offers : list Offer; draws : nat
}.
#[global] Instance eta : Eta t := fun x => mk (result x) (reported x) (offers x) (draws x).
End Pass.

Module fanResult.
Record t : Type := mk { accepted : list string; failures : list string; permanent : bool }.
#[global] Instance eta : Eta t := fun x => mk (accepted x) (failures x) (permanent x).

Definition lastError (f : t) : string := String.concat "; " (failures f).
End fanResult.

Definition errUnclassified : error := ExternalError
  ("the sink returned an unclassified outcome, which is a bug in the sink rather than a " +:+
   "verdict about its destination") [].
Definition errUnexplained : error :=
  ExternalError "the sink reported a failure without saying what went wrong" [].

(** ** The back-off schedule *)

Section schedule.
Context (unrepresentable : spec_float -> Z) (r : Relay.t).

(** [time.Duration(f)] *)
Definition toDuration (f : spec_float) : Z :=
  match float64_trunc f with
  | Some n =>
      if decide (- 2 ^ 63 <= n <= max_int64)%Z then n else unrepresentable f
  | None => unrepresentable f
  end.

(** With the number of draws made so far; returns the instant and the draws. *)
Definition nextAttemptAt (now : Time) (attempts : Z) (draws : nat) : Time * nat :=
  let delay := Ldexp (float64 (Relay.backoff r)) (Z.max attempts 0) in
  let ceiling := float64 (Relay.ceiling r) in
  let delay := if SFltb ceiling delay then ceiling else delay in
  let '(delay, draws) :=
    if SFltb (float64 0) (Relay.jitter r) then
      (float64_mul delay
         (float64_add (float64 1)
            (float64_mul (Relay.jitter r)
               (float64_sub (float64_mul (float64 2) (Relay.random r draws)) (float64 1)))),
       S draws)
    else (delay, draws) in
  ((now + toDuration (float64_max delay (float64 0)))%Z, draws).
End schedule.

(** ** A pass *)

Section relay.
Context {D G : Type} `{!Store D, !IDGenerator G}.
Context (s : Service.t) (unrepresentable : spec_float -> Z).

Definition NewRelay (random : nat -> spec_float) (opts : list (Relay.t -> Relay.t))
  : M (D := D) (G := G) Relay.t :=
  let relay := for_each (fun opt => opt) opts (newRelay random) in
  let! relay := slift (nameSinks relay) in
  if decide (Relay.owner relay = "") then
    let! owner := NewEventID in
    sret (relay <| Relay.owner := "relay-" +:+ owner |>)
  else sret relay.

Context (r : Relay.t).

Definition emptyResult (claimed : nat) : RelayResult.t :=
  RelayResult.mk claimed 0 0 0 0
    (for_each (fun name => <[ name := SinkResult.zero ]>) (Relay.names r) ∅).

Definition report (err : error) (p : Pass.t) : Pass.t :=
  p <| Pass.reported := Pass.reported p ++ [err] |>.

Definition tally (name : string) (f : SinkResult.t -> SinkResult.t) (p : Pass.t) : Pass.t :=
  let result := Pass.result p in
  let entry := default SinkResult.zero (RelayResult.Sinks result !! name) in
  p <| Pass.result :=
         result <| RelayResult.Sinks := <[ name := f entry ]> (RelayResult.Sinks result) |> |>.

Definition refused (eventID sink : string) (cause : error) (fp : fanResult.t * Pass.t)
  : fanResult.t * Pass.t :=
  let '(out, p) := fp in
  (out <| fanResult.failures := fanResult.failures out ++ [sink +:+ ": " +:+ Error cause] |>,
   report (Wrapped ("hmntsk: deliver event " +:+ eventID +:+ " to sink " +:+ sink +:+ ": ") cause) p).

(** What one sink's answer does to the fan-out. *)
Definition answered (eventID name : string) (outcome : Outcome.t) (out : fanResult.t) (p : Pass.t)
  : fanResult.t * Pass.t :=
  let cause := default errUnexplained (Outcome.Err outcome) in
  match Outcome.Status outcome with
  | OutcomeDelivered =>
      (out <| fanResult.accepted := fanResult.accepted out ++ [name] |>,
       tally name (fun x => x <| SinkResult.Delivered := S (SinkResult.Delivered x) |>) p)
  | OutcomeRetryable =>
      let p := tally name (fun x => x <| SinkResult.Retryable := S (SinkResult.Retryable x) |>) p in
      refused eventID name cause (out, p)
  | OutcomePermanent =>
      let p := tally name (fun x => x <| SinkResult.Permanent := S (SinkResult.Permanent x) |>) p in
      refused eventID name cause (out <| fanResult.permanent := true |>, p)
  | OutcomeUnclassified =>
      let p :=
        tally name (fun x => x <| SinkResult.Unclassified := S (SinkResult.Unclassified x) |>) p in
      refused eventID name errUnclassified (out <| fanResult.permanent := true |>, p)
  end.

(** One event to one sink. *)
Definition offer_to (entry : OutboxEntry.t) (name : string) (sink : Sink.t) (out : fanResult.t)
    (p : Pass.t) (w : D * Run.t G) : fanResult.t * Pass.t * (D * Run.t G) :=
  if OutboxEntry.HasAccepted entry name then
    (out, tally name (fun x => x <| SinkResult.Skipped := S (SinkResult.Skipped x) |>) p, w)
  else
    let event := OutboxEntry.Event entry in
    let number := (OutboxEntry.Attempts entry + 1)%Z in
    let '(id, w) := NewEventID w in
    let '(deliveryID, p) :=
      match id with
      | Ok id => (id, p)
      | Err err => ("", report (Wrapped ("hmntsk: mint a delivery identifier for event " +:+
                                         Event.ID event +:+ ": ") err) p)
      end in
    let attempt := Attempt.mk event deliveryID number in
    let outcome := Sink.Deliver sink (Pass.offers p) attempt in
    let p := p <| Pass.offers := Pass.offers p ++ [(name, attempt)] |> in
    (answered (Event.ID event) name outcome out p, w).

Fixpoint fan_each (entry : OutboxEntry.t) (sinks : list (string * Sink.t)) (out : fanResult.t)
    (p : Pass.t) (w : D * Run.t G) : fanResult.t * Pass.t * (D * Run.t G) :=
  match sinks with
  | [] => (out, p, w)
  | (name, sink) :: rest =>
      let '(out, p, w) := offer_to entry name sink out p w in
      fan_each entry rest out p w
  end.

Definition fanOut (entry : OutboxEntry.t) (p : Pass.t) (w : D * Run.t G)
  : fanResult.t * Pass.t * (D * Run.t G) :=
  fan_each entry (combine (Relay.names r) (Relay.sinks r))
    (fanResult.mk (OutboxEntry.Accepted entry) [] false) p w.

(** Which write settles an outcome, and which counter it belongs in. *)
Inductive Settlement : Type :=
| SettleDelivered (a : Acceptance.t)
| SettleDead (d : DeadLetter.t)
| SettlePartly (a : Acceptance.t)
| SettleRetry (a : AttemptRecord.t).

Definition decide_settlement (entry : OutboxEntry.t) (fan : fanResult.t) (now : Time) (draws : nat)
  : Settlement * nat :=
  let id := Event.ID (OutboxEntry.Event entry) in
  let attempts := (OutboxEntry.Attempts entry + 1)%Z in
  if decide (length (fanResult.failures fan) = 0) then
    (SettleDelivered (Acceptance.mk id (fanResult.accepted fan) (Some now) None attempts ""), draws)
  else if fanResult.permanent fan || bool_decide (Relay.maxAttempts r <= attempts)%Z then
    (SettleDead (DeadLetter.mk id attempts (fanResult.lastError fan)
                   (Some (fanResult.accepted fan))), draws)
  else
    let '(next, draws) := nextAttemptAt unrepresentable r now (OutboxEntry.Attempts entry) draws in
    if decide (length (OutboxEntry.Accepted entry) < length (fanResult.accepted fan)) then
      (SettlePartly (Acceptance.mk id (fanResult.accepted fan) None (Some next) attempts
                       (fanResult.lastError fan)), draws)
    else
      (SettleRetry (AttemptRecord.mk id attempts next (fanResult.lastError fan)), draws).

Definition write_settlement (cancelled : option error) (x : Settlement) : M (D := D) (G := G) unit :=
  match x with
  | SettleDelivered a | SettlePartly a => MarkEventAccepted cancelled a
  | SettleDead d => MarkEventDeadLettered cancelled d
  | SettleRetry a => RecordDeliveryAttempt cancelled a
  end.

Definition count_settled (x : Settlement) (result : RelayResult.t) : RelayResult.t :=
  match x with
  | SettleDelivered _ => result <| RelayResult.Delivered := S (RelayResult.Delivered result) |>
  | SettleDead _ => result <| RelayResult.DeadLettered := S (RelayResult.DeadLettered result) |>
  | SettlePartly _ | SettleRetry _ =>
      result <| RelayResult.Retried := S (RelayResult.Retried result) |>
  end.

Definition settle (cancelled : option error) (entry : OutboxEntry.t) (now : Time)
    (p : Pass.t) (w : D * Run.t G) : Pass.t * (D * Run.t G) :=
  let '(fan, p, w) := fanOut entry p w in
  let '(x, draws) := decide_settlement entry fan now (Pass.draws p) in
  let p := p <| Pass.draws := draws |> in
  let '(res, w) := write_settlement cancelled x w in
  let result := Pass.result p in
  match res with
  | Err err =>
      let p := p <| Pass.result :=
                      result <| RelayResult.Unsettled := S (RelayResult.Unsettled result) |> |> in
      (report (Wrapped ("hmntsk: settle event " +:+ Event.ID (OutboxEntry.Event entry) +:+ ": ") err) p,
       w)
  | Ok _ => (p <| Pass.result := count_settled x result |>, w)
  end.

Context (cancelled : nat -> option error) (others : nat -> D -> D).

Fixpoint settle_each (i : nat) (claimed : list OutboxEntry.t) (now : Time) (p : Pass.t)
    (w : D * Run.t G) : Pass.t * (D * Run.t G) :=
  match claimed with
  | [] => (p, w)
  | entry :: rest =>
      let '(p, w) := settle (cancelled (S i)) entry now p (others i w.1, w.2) in
      settle_each (S i) rest now p w
  end.

Definition Relay_ (p : Pass.t) (w : D * Run.t G) : res Pass.t * (D * Run.t G) :=
  match Now s w with
  | (Err err, w) => (Err err, w)
  | (Ok now, w) =>
      let now := NormalizeTime now in
      match ClaimDueEvents_ s (cancelled 0)
              (OutboxClaim.mk now (Relay.owner r) (Relay.lease r) (Relay.batch r)) w with
      | (Err err, w) => (Err err, w)
      | (Ok claimed, w) =>
          let p := p <| Pass.result := emptyResult (length claimed) |> in
          let '(p, w) := settle_each 0 claimed now p w in (Ok p, w)
      end
  end.
End relay.
