(* ===== verification/RelayFacts.v ===== *)
(** * RelayFacts: what the relay guarantees

    First the fan-out of one event, then its settlement on a store that keeps
    [StoreLaws], then the pass over a claimed batch, and the back-off schedule. *)

From Stdlib Require Import Floats.SpecFloat.
From S2P Require Import Float64.
From S2P Require Import Prelude Domain Errors Event Outbox Store Ident Registry.
From S2P Require Import Assignment Query Lifecycle LifecycleFacts Service Relay.

(** ** Names *)

Lemma read_names_spec sinks seen names :
  NoDup seen -> "" ∉ seen ->
  read_names sinks seen = Ok names <->
  names = seen ++ (Sink.Name <$> sinks) /\ NoDup names /\ "" ∉ names.
Proof.
  revert seen; induction sinks as [|sink sinks IH]; intros seen Hnd He; cbn [read_names].
  { cbn. rewrite app_nil_r. split; [by intros [= <-]|by intros (-> & _)]. }
  rewrite fmap_cons.
  replace (seen ++ Sink.Name sink :: (Sink.Name <$> sinks))
    with ((seen ++ [Sink.Name sink]) ++ (Sink.Name <$> sinks)) by (by rewrite <- app_assoc).
  destruct (decide (Sink.Name sink = "")) as [E|E].
  { split; [done|]. intros (-> & _ & H). destruct H.
    rewrite !elem_of_app. left; right. rewrite E. by left. }
  destruct (contains seen (Sink.Name sink)) eqn:Ec.
  { apply contains_true in Ec. split; [done|]. intros (-> & H & _). exfalso.
    apply NoDup_app in H as (H & _). apply NoDup_app in H as (_ & H & _).
    apply (H _ Ec). by left. }
  apply IH.
  - apply NoDup_app. split_and!; [done| |apply NoDup_singleton].
    intros x Hx ->%list_elem_of_singleton.
    apply contains_true in Hx. congruence.
  - rewrite elem_of_app, list_elem_of_singleton. intros [?|?]; [done|congruence].
Qed.

(** ** The fan-out of one event *)

Definition counts (r : RelayResult.t) : nat * nat * nat * nat * nat :=
  (RelayResult.Claimed r, RelayResult.Delivered r, RelayResult.Retried r,
   RelayResult.DeadLettered r, RelayResult.Unsettled r).

Definition sink_total (x : SinkResult.t) : nat :=
  SinkResult.Delivered x + SinkResult.Retryable x + SinkResult.Permanent x +
  SinkResult.Unclassified x + SinkResult.Skipped x.

(** How many events a pass has accounted for at a sink. *)
Definition total (p : Pass.t) (name : string) : nat :=
  sink_total (default SinkResult.zero (RelayResult.Sinks (Pass.result p) !! name)).

(** [p'] is [p] with one more event accounted for at [name]. *)
Definition tallied (name : string) (p p' : Pass.t) : Prop :=
  counts (Pass.result p') = counts (Pass.result p) /\ Pass.draws p' = Pass.draws p /\
  forall name', total p' name' = total p name' + (if decide (name' = name) then 1 else 0).

Lemma tally_tallied name f p :
  (forall x, sink_total (f x) = S (sink_total x)) -> tallied name p (tally name f p).
Proof.
  intros Hf. split_and!; [done..|]. intros name'. unfold total, tally; cbn.
  destruct (decide (name' = name)) as [->|Hne].
  - rewrite lookup_insert_eq. cbn. rewrite Hf. lia.
  - rewrite lookup_insert_ne by done. lia.
Qed.

Lemma tallied_report name p p' err : tallied name p p' -> tallied name p (report err p').
Proof. done. Qed.

(** Whether an answer rules out another attempt. *)
Definition final (o : Outcome.t) : bool :=
  match Outcome.Status o with
  | OutcomePermanent | OutcomeUnclassified => true
  | OutcomeDelivered | OutcomeRetryable => false
  end.

Definition taken (o : Outcome.t) : bool :=
  match Outcome.Status o with OutcomeDelivered => true | _ => false end.

Lemma answered_spec id name o out p :
  let '(out', p') := answered id name o out p in
  tallied name p p' /\ Pass.offers p' = Pass.offers p /\
  fanResult.accepted out' = fanResult.accepted out ++ (if taken o then [name] else []) /\
  length (fanResult.failures out') = length (fanResult.failures out) + (if taken o then 0 else 1) /\
  fanResult.permanent out' = fanResult.permanent out || final o.
Proof.
  unfold answered, taken, final, refused.
  destruct (Outcome.Status o); cbn -[tally]; rewrite ?length_app, ?app_nil_r, ?orb_false_r, ?orb_true_r;
    cbn -[tally]; split_and!; try done; try lia;
    try (apply tallied_report); apply tally_tallied; intros x; unfold sink_total; cbn; lia.
Qed.

Definition occurrences (name : string) (l : list string) : nat :=
  length (filter (fun x => x = name) l).

Lemma occurrences_once name l : NoDup l -> name ∈ l -> occurrences name l = 1.
Proof.
  unfold occurrences. induction 1 as [|x l Hx _ IH]; [by intros ?%not_elem_of_nil|].
  rewrite elem_of_cons, filter_cons. intros [->|Hin].
  - rewrite decide_True by done. cbn. f_equal.
    enough (filter (fun y => y = x) l = []) as -> by done.
    apply filter_none. intros y Hy ->. done.
  - rewrite decide_False by (intros ->; done). by apply IH.
Qed.

(** [p'] accounts for one event more than [p] at each of [names]. *)
Definition tallied_all (names : list string) (p p' : Pass.t) : Prop :=
  counts (Pass.result p') = counts (Pass.result p) /\ Pass.draws p' = Pass.draws p /\
  forall name, total p' name = total p name + occurrences name names.

Lemma tallied_all_nil p : tallied_all [] p p.
Proof. split_and!; [done..|]. intros name. unfold occurrences; cbn. lia. Qed.

Lemma tallied_all_cons name names p1 p2 p3 :
  tallied name p1 p2 -> tallied_all names p2 p3 -> tallied_all (name :: names) p1 p3.
Proof.
  intros (Hc & Hd & Ht) (Hc' & Hd' & Ht'). split_and!; [congruence..|].
  intros name'. rewrite Ht', Ht. unfold occurrences. rewrite filter_cons.
  destruct (decide (name' = name)) as [->|Hne].
  - rewrite decide_True by done. cbn. lia.
  - rewrite decide_False by congruence. lia.
Qed.

(** The sinks an event is offered to. *)
Definition unaccepted (entry : OutboxEntry.t) (names : list string) : list string :=
  filter (fun name => OutboxEntry.HasAccepted entry name = false) names.

Definition takers (answers : list (string * Outcome.t)) : list string :=
  (filter (fun a => taken a.2 = true) answers).*1.
Definition refusals (answers : list (string * Outcome.t)) : nat :=
  length (filter (fun a => taken a.2 = false) answers).

(** Offers made one after the other, the first [before] of a pass being made already:
    each to a sink, answered with what that sink says of the attempt then. *)
Inductive asked (sinks : list (string * Sink.t)) :
    list Offer -> list Offer -> list (string * Outcome.t) -> Prop :=
| asked_none before : asked sinks before [] []
| asked_next before name sink attempt rest answers :
    (name, sink) ∈ sinks -> asked sinks (before ++ [(name, attempt)]) rest answers ->
    asked sinks before ((name, attempt) :: rest)
      ((name, Sink.Deliver sink before attempt) :: answers).

Lemma asked_names sinks before offers answers :
  asked sinks before offers answers -> offers.*1 = answers.*1.
Proof. induction 1; cbn; [done|by f_equal]. Qed.

Lemma asked_among sinks sinks' before offers answers :
  (forall x, x ∈ sinks -> x ∈ sinks') -> asked sinks before offers answers -> asked sinks' before offers answers.
Proof. intros Hs. induction 1; constructor; auto. Qed.

(** The attempts are of this event, under its next number. *)
Definition attempts_at (entry : OutboxEntry.t) (offers : list Offer) : Prop :=
  Forall (fun o => Attempt.Event o.2 = OutboxEntry.Event entry /\
                   Attempt.Number o.2 = (OutboxEntry.Attempts entry + 1)%Z) offers.

(** The whole of a fan-out: who was offered the event, in which order, with what
    answer, and what was made of the answers. *)
Record fanned (entry : OutboxEntry.t) (sinks : list (string * Sink.t)) (out out' : fanResult.t)
    (p p' : Pass.t) (answers : list (string * Outcome.t)) : Prop := {
  fanned_names : answers.*1 = unaccepted entry sinks.*1;
  fanned_offers : exists new, Pass.offers p' = Pass.offers p ++ new /\
    asked sinks (Pass.offers p) new answers /\ attempts_at entry new;
  fanned_accepted : fanResult.accepted out' = fanResult.accepted out ++ takers answers;
  fanned_failures :
    length (fanResult.failures out') = length (fanResult.failures out) + refusals answers;
  fanned_permanent :
    fanResult.permanent out' = fanResult.permanent out || existsb (fun a => final a.2) answers;
  fanned_tally : tallied_all sinks.*1 p p'
}.

Section fan_out.
Context {D G : Type} `{!IDGenerator G}.
Implicit Types (w : D * Run.t G).

Lemma NewEventID_kept w :
  let '(_, w') := NewEventID w in w'.1 = w.1 /\ Run.delivered w'.2 = Run.delivered w.2 /\
    Run.ticks w'.2 = Run.ticks w.2.
Proof. destruct w as [d x]. unfold NewEventID, newEventID. by destruct (NewTaskID _). Qed.

Lemma offer_to_spec entry name sink out p w :
  let '(out', p', w') := offer_to entry name sink out p w in
  w'.1 = w.1 /\ Run.delivered w'.2 = Run.delivered w.2 /\ tallied name p p' /\
  if OutboxEntry.HasAccepted entry name then out' = out /\ Pass.offers p' = Pass.offers p
  else exists attempt,
    let o := Sink.Deliver sink (Pass.offers p) attempt in
    Pass.offers p' = Pass.offers p ++ [(name, attempt)] /\
    Attempt.Event attempt = OutboxEntry.Event entry /\
    Attempt.Number attempt = (OutboxEntry.Attempts entry + 1)%Z /\
    fanResult.accepted out' = fanResult.accepted out ++ (if taken o then [name] else []) /\
    length (fanResult.failures out') = length (fanResult.failures out) + (if taken o then 0 else 1) /\
    fanResult.permanent out' = fanResult.permanent out || final o.
Proof.
  unfold offer_to. destruct (OutboxEntry.HasAccepted entry name).
  { split_and!; [done..| |done|done]. apply tally_tallied. intros x. unfold sink_total; cbn. lia. }
  pose proof (NewEventID_kept w) as Hkept. destruct (NewEventID w) as [id w'].
  destruct Hkept as (Hd & Hde & _).
  set (named := match id with Ok id => (id, p) | Err err => _ end).
  assert (Hp : Pass.result named.2 = Pass.result p /\ Pass.draws named.2 = Pass.draws p /\
    Pass.offers named.2 = Pass.offers p) by (subst named; by destruct id).
  destruct named as [deliveryID p1]. cbn [snd] in Hp. destruct Hp as (Hr & Hdr & Ho).
  set (attempt := Attempt.mk _ _ _). set (p2 := p1 <| Pass.offers := _ |>).
  pose proof (answered_spec (Event.ID (OutboxEntry.Event entry)) name
    (Sink.Deliver sink (Pass.offers p1) attempt) out p2) as Ha.
  destruct (answered _ _ _ _ _) as [out' p']. destruct Ha as (Ht & Hof & Hacc & Hf & Hpm).
  split_and!; [done|done| |].
  - destruct Ht as (Hc & Hdd & Htot). subst p2. cbn in *. unfold total in *. cbn in Htot.
    rewrite Hr in *. split_and!; [done|congruence|done].
  - exists attempt. cbv zeta. rewrite <- Ho. split_and!; done.
Qed.

Lemma fan_each_spec entry sinks out p w :
  let '(out', p', w') := fan_each entry sinks out p w in
  w'.1 = w.1 /\ Run.delivered w'.2 = Run.delivered w.2 /\
  exists answers, fanned entry sinks out out' p p' answers.
Proof.
  revert out p w; induction sinks as [|[name sink] sinks IH]; intros out p w; cbn [fan_each].
  { split_and!; [done..|]. exists []. constructor; cbn; rewrite ?app_nil_r, ?orb_false_r;
      try done; try apply tallied_all_nil.
    exists []. rewrite app_nil_r. split_and!; [done|constructor..]. }
  pose proof (offer_to_spec entry name sink out p w) as Ho.
  destruct (offer_to entry name sink out p w) as [[out1 p1] w1].
  destruct Ho as (Hd1 & Hde1 & Ht1 & Ho). specialize (IH out1 p1 w1).
  destruct (fan_each _ _ _ _ _) as [[out2 p2] w2].
  destruct IH as (Hd2 & Hde2 & answers & [Hn (new & Hnew & Hask & Hall) Hacc Hf Hpm Ht]).
  apply (asked_among _ ((name, sink) :: sinks)) in Hask; [|by right].
  split; [by rewrite Hd2, Hd1|]. split; [by rewrite Hde2, Hde1|].
  pose proof (tallied_all_cons _ _ _ _ _ Ht1 Ht) as Htall.
  unfold unaccepted in Hn.
  destruct (OutboxEntry.HasAccepted entry name) eqn:Eh.
  - destruct Ho as [-> Ho]. exists answers. constructor; [| | | | |done]; try done.
    + unfold unaccepted. cbn [fmap list_fmap fst]. rewrite filter_cons, decide_False by congruence.
      exact Hn.
    + exists new. rewrite Hnew, Ho in *. by split_and!.
  - destruct Ho as (attempt & Hoff & Hev & Hnum & Hacc1 & Hf1 & Hpm1).
    set (o := Sink.Deliver sink (Pass.offers p) attempt) in *.
    exists ((name, o) :: answers). constructor; [| | | | |done].
    + unfold unaccepted. cbn [fmap list_fmap fst]. rewrite filter_cons, decide_True by done.
      by f_equal.
    + exists ((name, attempt) :: new). rewrite Hoff in Hask. rewrite Hnew, Hoff, <- app_assoc.
      split_and!; [done|constructor; [by left|done]|by constructor].
    + rewrite Hacc, Hacc1, <- app_assoc. f_equal. unfold takers. rewrite filter_cons. cbn [snd].
      by destruct (taken o).
    + rewrite Hf, Hf1. unfold refusals. rewrite filter_cons. cbn [snd].
      destruct (taken o); [rewrite decide_False by done|rewrite decide_True by done];
        cbn [length]; lia.
    + rewrite Hpm, Hpm1. cbn. by rewrite orb_assoc.
Qed.
End fan_out.

(** ** Settling one event *)

(** The names a relay records acceptance under, as construction leaves them. *)
Definition named (r : Relay.t) : Prop :=
  Relay.names r = Sink.Name <$> Relay.sinks r /\ NoDup (Relay.names r).

Lemma named_sinks r : named r -> (combine (Relay.names r) (Relay.sinks r)).*1 = Relay.names r.
Proof.
  intros [-> _]. induction (Relay.sinks r) as [|sink sinks IH]; cbn; [done|]. by f_equal.
Qed.

Definition handled (r : RelayResult.t) : nat :=
  RelayResult.Delivered r + RelayResult.Retried r + RelayResult.DeadLettered r +
  RelayResult.Unsettled r.

Definition ledger_settle (x : Settlement) : SM Ledger.t error unit :=
  match x with
  | SettleDelivered a | SettlePartly a => Ledger.MarkAccepted a
  | SettleDead l => Ledger.MarkDeadLettered l
  | SettleRetry a => Ledger.RecordAttempt a
  end.

Definition settled_row (x : Settlement) : OutboxEntry.t -> OutboxEntry.t :=
  match x with
  | SettleDelivered a | SettlePartly a => Settle.accept a
  | SettleDead l => Settle.bury l
  | SettleRetry a => Settle.attempt a
  end.

Definition settled_id (x : Settlement) : string :=
  match x with
  | SettleDelivered a | SettlePartly a => Acceptance.EventID a
  | SettleDead l => DeadLetter.EventID l
  | SettleRetry a => AttemptRecord.EventID a
  end.

Lemma ledger_settle_edit x : ledger_settle x = Ledger.edit (settled_id x) (settled_row x).
Proof. by destruct x. Qed.

Section accounting.
Context {D G : Type} `{!Store D, !IDGenerator G}.
Context (s : Service.t) (unrepresentable : spec_float -> Z) (r : Relay.t).
Implicit Types (w : D * Run.t G).

(** What a settlement adds to a pass, whatever the store answered. *)
Lemma settle_counts ce entry now p w :
  named r ->
  let '(p', w') := settle unrepresentable r ce entry now p w in
  RelayResult.Claimed (Pass.result p') = RelayResult.Claimed (Pass.result p) /\
  handled (Pass.result p') = S (handled (Pass.result p)) /\
  (forall name, name ∈ Relay.names r -> total p' name = S (total p name)) /\
  exists new, Pass.offers p' = Pass.offers p ++ new /\
    new.*1 = unaccepted entry (Relay.names r) /\
    Forall (fun o => Attempt.Event o.2 = OutboxEntry.Event entry /\
                     Attempt.Number o.2 = (OutboxEntry.Attempts entry + 1)%Z) new.
Proof.
  intros Hr. unfold settle, fanOut.
  pose proof (fan_each_spec entry (combine (Relay.names r) (Relay.sinks r))
    (fanResult.mk (OutboxEntry.Accepted entry) [] false) p w) as Hf.
  destruct (fan_each _ _ _ _ _) as [[fan p1] w1].
  destruct Hf as (_ & _ & answers & [Hn (new & Hnew & Hnn%asked_names & Hall) _ _ _ (Hc & _ & Ht)]).
  rewrite named_sinks in Hn, Ht by done.
  destruct (decide_settlement _ _ _ _ _ _) as [x draws].
  destruct (write_settlement ce x w1) as [[[]|err] w2].
  - injection Hc as Hc1 Hc2 Hc3 Hc4 Hc5. split_and!.
    + by destruct x.
    + unfold handled. destruct x; cbn; lia.
    + intros name Hin. transitivity (total p1 name); [by destruct x|].
      rewrite Ht, occurrences_once; [lia|apply Hr|done].
    + exists new. by rewrite <- Hnn in Hn.
  - injection Hc as Hc1 Hc2 Hc3 Hc4 Hc5. split_and!.
    + done.
    + unfold handled. cbn. lia.
    + intros name Hin. transitivity (total p1 name); [done|].
      rewrite Ht, occurrences_once; [lia|apply Hr|done].
    + exists new. by rewrite <- Hnn in Hn.
Qed.

Lemma settle_each_counts cancelled others i claimed now p w :
  named r ->
  let '(p', w') := settle_each unrepresentable r cancelled others i claimed now p w in
  RelayResult.Claimed (Pass.result p') = RelayResult.Claimed (Pass.result p) /\
  handled (Pass.result p') = handled (Pass.result p) + length claimed /\
  (forall name, name ∈ Relay.names r -> total p' name = total p name + length claimed) /\
  exists new, Pass.offers p' = Pass.offers p ++ new /\
    Forall (fun o => exists entry, entry ∈ claimed /\ o.1 ∈ Relay.names r /\
              OutboxEntry.HasAccepted entry o.1 = false /\
              Attempt.Event o.2 = OutboxEntry.Event entry /\
              Attempt.Number o.2 = (OutboxEntry.Attempts entry + 1)%Z) new.
Proof.
  intros Hr. revert i p w; induction claimed as [|entry claimed IH]; intros i p w; cbn [settle_each].
  { cbn. split_and!; [done|lia|intros; lia|]. exists []. by rewrite app_nil_r. }
  pose proof (settle_counts (cancelled (S i)) entry now p (others i w.1, w.2) Hr) as Hs.
  destruct (settle _ _ _ _ _ _ _) as [p1 w1].
  destruct Hs as (Hc1 & Hh1 & Ht1 & new1 & Hn1 & Hnn1 & Ha1). specialize (IH (S i) p1 w1).
  destruct (settle_each _ _ _ _ _ _ _ _ _) as [p2 w2].
  destruct IH as (Hc2 & Hh2 & Ht2 & new2 & Hn2 & Ha2). cbn [length]. split_and!.
  - congruence.
  - lia.
  - intros name Hin. rewrite Ht2, Ht1 by done. lia.
  - exists (new1 ++ new2). rewrite Hn2, Hn1, <- app_assoc. split; [done|]. apply Forall_app. split.
    + rewrite Forall_forall in Ha1. apply Forall_forall. intros o Ho.
      assert (Hin : o.1 ∈ new1.*1) by (apply list_elem_of_fmap; eauto).
      rewrite Hnn1 in Hin. apply list_elem_of_filter in Hin as [Hacc Hin].
      exists entry. destruct (Ha1 o Ho). split_and!; [by left|done..].
    + eapply Forall_impl; [exact Ha2|]. intros o (e & He & Hrest). exists e.
      split; [by right|done].
Qed.
End accounting.

Section settlement.
Context {D G : Type} `{!Store D, !IDGenerator G, !StoreModel D, !StoreLaws D}.
Context (s : Service.t) (unrepresentable : spec_float -> Z) (r : Relay.t).
Implicit Types (d : D) (run : Run.t G).

(** A settlement in a transaction of its own: written whole, or not at all. *)
Lemma write_settlement_run ce x d run :
  sound d -> InTransaction d = false ->
  exists res d', write_settlement ce x (d, run) = (res, (d', run)) /\
    sound d' /\ InTransaction d' = false /\
    is_ok res = bool_decide (ce = None) && is_ok (ledger_settle x (base d)).1 /\
    base d' = if is_ok res then (ledger_settle x (base d)).2 else base d.
Proof.
  intros Hd Hn. destruct (begin_law d Hd Hn) as (Ha & Hb & Hv & Hs & Hrel).
  assert (Hrun : forall (m : SM D error unit) spec, implements m spec (begin d) ->
    exists res d', Do ce (write m) (d, run) = (res, (d', run)) /\
      sound d' /\ InTransaction d' = false /\
      is_ok res = bool_decide (ce = None) && is_ok (spec (base d)).1 /\
      base d' = if is_ok res then (spec (base d)).2 else base d).
  { intros m spec ((Ha1 & Hb1 & Hs1) & Hr & Hvw). rewrite do_owns by done.
    unfold write, on_store. destruct (m (begin d)) as [res d1]. rewrite Hv in Hr, Hvw.
    cbn [fst snd] in *.
    destruct (commit_law d1) as (Hc1 & Hc2 & Hc3); [done|congruence|].
    destruct (rollback_law d1) as (Hr1 & Hr2 & Hr3); [done|congruence|].
    destruct res as [[]|e]; [destruct ce as [e|]|].
    - eexists _, _. split_and!; [reflexivity|done..|cbn; congruence].
    - eexists _, _. rewrite <- Hr. split_and!; [reflexivity|done..|cbn; congruence].
    - eexists _, _. rewrite <- Hr, andb_false_r. split_and!; [reflexivity|done..|cbn; congruence]. }
  destruct x; unfold write_settlement, MarkEventAccepted, MarkEventDeadLettered,
    RecordDeliveryAttempt, ledger_settle; apply Hrun.
  - by apply mark_accepted_law.
  - by apply mark_dead_lettered_law.
  - by apply mark_accepted_law.
  - by apply record_attempt_law.
Qed.

(** What the pass makes of the answers, as a row of the ledger. *)
Definition verdict (entry e' : OutboxEntry.t) (answers : list (string * Outcome.t)) (now : Time)
  : Prop :=
  let attempts := (OutboxEntry.Attempts entry + 1)%Z in
  OutboxEntry.Event e' = OutboxEntry.Event entry /\
  OutboxEntry.Attempts e' = attempts /\
  OutboxEntry.Accepted e' = OutboxEntry.Accepted entry ++ takers answers /\
  OutboxEntry.LockedBy e' = "" /\ OutboxEntry.LockedUntil e' = None /\
  if decide (refusals answers = 0) then OutboxEntry.PublishedAt e' = Some (NormalizeTime now)
  else if existsb (fun a => final a.2) answers || bool_decide (Relay.maxAttempts r <= attempts)%Z
  then OutboxEntry.DeadLettered e' = true
  else OutboxEntry.Pending e' = true /\ exists draws,
    OutboxEntry.NextAttemptAt e' =
      Some (NormalizeTime (nextAttemptAt unrepresentable r now (OutboxEntry.Attempts entry) draws).1).

Lemma decide_settlement_row entry fan now draws answers :
  OutboxEntry.Pending entry = true ->
  fanResult.accepted fan = OutboxEntry.Accepted entry ++ takers answers ->
  length (fanResult.failures fan) = refusals answers ->
  fanResult.permanent fan = existsb (fun a => final a.2) answers ->
  let x := (decide_settlement unrepresentable r entry fan now draws).1 in
  settled_id x = OutboxEntry.key entry /\ verdict entry (settled_row x entry) answers now.
Proof.
  intros Hp Hacc Hf Hperm. unfold decide_settlement, verdict. rewrite Hf, Hperm, Hacc.
  unfold OutboxEntry.Pending in Hp. apply andb_prop in Hp as [Hnext Hpub].
  apply bool_decide_eq_true in Hpub. destruct (decide (refusals answers = 0)) as [|Hne].
  { split; [done|]. cbn. by split_and!. }
  destruct (existsb _ _ || bool_decide _).
  { split; [done|]. cbn. split_and!; try done. unfold OutboxEntry.DeadLettered; cbn.
    by rewrite Hpub. }
  destruct (nextAttemptAt _ _ _ _ draws) as [next draws'] eqn:En.
  rewrite length_app. case_decide as Hl.
  - split; [done|]. cbn. split_and!; try done; unfold OutboxEntry.Pending; cbn.
    + by rewrite Hpub.
    + exists draws. by rewrite En.
  - split; [done|]. cbn. split_and!; try done; unfold OutboxEntry.Pending; cbn.
    + destruct (takers answers); [by rewrite app_nil_r|cbn in Hl; lia].
    + by rewrite Hpub.
    + exists draws. by rewrite En.
Qed.

(** The ledger with the row of one event replaced. *)
Definition replace_row (entry e' : OutboxEntry.t) (l : Ledger.t) : Ledger.t :=
  l <| Ledger.outbox :=
    (fun e => if decide (OutboxEntry.key e = OutboxEntry.key entry) then e' else e)
      <$> Ledger.outbox l |>.

(** An event offered to the sinks that had not taken it, in their order, after the
    offers [before]; the attempts are of it and new, and its row becomes the verdict
    on what those sinks answered. *)
Definition judged (now : Time) (before new : list Offer) (row : OutboxEntry.t * OutboxEntry.t) : Prop :=
  exists answers, asked (combine (Relay.names r) (Relay.sinks r)) before new answers /\
    answers.*1 = unaccepted row.1 (Relay.names r) /\ attempts_at row.1 new /\
    verdict row.1 row.2 answers now.

Lemma settle_run ce entry now p d run :
  sound d -> InTransaction d = false -> named r ->
  OutboxEntry.Pending entry = true -> entry ∈ Ledger.outbox (base d) ->
  let '(p', w') := settle unrepresentable r ce entry now p (d, run) in
  exists new e',
    Pass.offers p' = Pass.offers p ++ new /\ judged now (Pass.offers p) new (entry, e') /\
    Run.delivered w'.2 = Run.delivered run /\ sound w'.1 /\ InTransaction w'.1 = false /\
    RelayResult.Unsettled (Pass.result p') = RelayResult.Unsettled (Pass.result p) +
      (if decide (ce = None) then 0 else 1) /\
    base w'.1 = if decide (ce = None) then replace_row entry e' (base d) else base d.
Proof.
  intros Hd Hn Hr Hp Hin. unfold settle, fanOut.
  pose proof (fan_each_spec entry (combine (Relay.names r) (Relay.sinks r))
    (fanResult.mk (OutboxEntry.Accepted entry) [] false) p (d, run)) as Hf.
  destruct (fan_each _ _ _ _ _) as [[fan p1] [d1 run1]]. cbn [fst snd] in Hf.
  destruct Hf as (-> & Hde & answers & [Hnames (new & Hnew & Hask & Hatt) Hacc Hfail Hperm (Hc & _ & _)]).
  rewrite named_sinks in Hnames by done. cbn in Hacc, Hfail, Hperm.
  destruct (decide_settlement_row entry fan now (Pass.draws p1) answers Hp Hacc Hfail Hperm)
    as [Hid Hv].
  destruct (decide_settlement _ _ _ _ _ _) as [x draws]. cbn [fst] in Hid, Hv.
  assert (Hj : judged now (Pass.offers p) new (entry, settled_row x entry)) by (by exists answers).
  destruct (write_settlement_run ce x d run1) as (res & d' & -> & Hd' & Hn' & Hok & Hb); [done..|].
  injection Hc as _ _ _ _ Hun. rewrite ledger_settle_edit in Hok, Hb. unfold Ledger.edit in Hok, Hb.
  rewrite Hid, decide_True in Hok, Hb by (apply list_elem_of_fmap; eauto).
  cbn [fst snd is_ok] in Hok, Hb. rewrite andb_true_r in Hok.
  destruct res as [[]|err]; cbn [is_ok] in Hb, Hok; exists new, (settled_row x entry);
    cbn [fst snd]; [apply eq_sym, bool_decide_eq_true in Hok|apply eq_sym, bool_decide_eq_false in Hok].
  - rewrite !decide_True by done. split_and!; [by destruct x|done..|by destruct x; cbn; rewrite Hun; lia|].
    rewrite Hb. unfold replace_row. apply (f_equal (fun l => (base d) <| Ledger.outbox := l |>)).
    assert (Hkeys : NoDup (Ledger.keys (base d)))
      by (rewrite <- view_outside by done; by apply distinct_events).
    apply list_fmap_ext. intros i e Hi. case_decide as Hk; [|done]. f_equal.
    apply list_elem_of_lookup_2 in Hi. by eapply NoDup_fmap_inj.
  - rewrite !decide_False by done. split_and!; [done..|cbn; rewrite Hun; lia|done].
Qed.

(** One event, delivered and settled on a store outside any transaction.
    Exactly the sinks that had not taken it are offered it, each once, in order, and
    what they answer is what counts;
    then, unless the write is cancelled, the row of that event alone is replaced by
    one that keeps the event, counts the attempt, adds the sinks that took it to
    those that had, frees the lease, and is delivered when no sink refused,
    dead-lettered when one refused for good or the attempts ran out, and pending
    until the scheduled instant otherwise.  A cancelled write leaves the ledger as
    it was and counts as unsettled.  The in-process handlers see nothing of it. *)
Theorem settlement_outcome ce entry now p d run :
  sound d -> InTransaction d = false -> named r ->
  OutboxEntry.Pending entry = true -> entry ∈ Ledger.outbox (base d) ->
  let '(p', w') := settle unrepresentable r ce entry now p (d, run) in
  exists new e',
    Pass.offers p' = Pass.offers p ++ new /\ judged now (Pass.offers p) new (entry, e') /\
    Run.delivered w'.2 = Run.delivered run /\ sound w'.1 /\ InTransaction w'.1 = false /\
    RelayResult.Unsettled (Pass.result p') = RelayResult.Unsettled (Pass.result p) +
      (if decide (ce = None) then 0 else 1) /\
    base w'.1 = if decide (ce = None) then replace_row entry e' (base d) else base d.
Proof. apply settle_run. Qed.

(** *** A pass nobody disturbs *)

Lemma replace_row_other entry e' e l :
  OutboxEntry.key e <> OutboxEntry.key entry -> e ∈ Ledger.outbox l ->
  e ∈ Ledger.outbox (replace_row entry e' l).
Proof.
  intros Hne Hin. cbn. apply list_elem_of_fmap. exists e. by rewrite decide_False.
Qed.

Definition replace_rows (rows : list (OutboxEntry.t * OutboxEntry.t)) : Ledger.t -> Ledger.t :=
  for_each (fun row => replace_row row.1 row.2) rows.

(** The claimed events in turn, each offered after the ones before it. *)
Inductive pass_judged (now : Time) :
    list Offer -> list (OutboxEntry.t * OutboxEntry.t) -> list Offer -> Prop :=
| judged_none offers : pass_judged now offers [] offers
| judged_next before new row rows after :
    judged now before new row -> pass_judged now (before ++ new) rows after ->
    pass_judged now before (row :: rows) after.

Lemma settle_each_run i claimed now p d run :
  sound d -> InTransaction d = false -> named r ->
  NoDup (OutboxEntry.key <$> claimed) ->
  Forall (fun e => OutboxEntry.Pending e = true /\ e ∈ Ledger.outbox (base d)) claimed ->
  let '(p', w') :=
    settle_each unrepresentable r (fun _ => None) (fun _ d => d) i claimed now p (d, run) in
  exists rows, rows.*1 = claimed /\ pass_judged now (Pass.offers p) rows (Pass.offers p') /\
    base w'.1 = replace_rows rows (base d) /\
    RelayResult.Unsettled (Pass.result p') = RelayResult.Unsettled (Pass.result p) /\
    Run.delivered w'.2 = Run.delivered run.
Proof.
  revert i p d run; induction claimed as [|entry claimed IH];
    intros i p d run Hd Hn Hr Hnd Hall; cbn [settle_each].
  { exists []. split_and!; [done|constructor|done..]. }
  cbn [fst snd]. rewrite fmap_cons in Hnd. apply NoDup_cons in Hnd as [Hni Hnd].
  apply Forall_cons in Hall as [[Hp Hin] Hall].
  pose proof (settle_run None entry now p d run Hd Hn Hr Hp Hin) as Hs.
  destruct (settle _ _ _ _ _ _ _) as [p1 [d1 run1]]. cbn [fst snd] in Hs.
  destruct Hs as (new & e' & Hoff & Hj & Hde & Hd1 & Hn1 & Hu & Hb).
  rewrite decide_True in Hu by done. rewrite decide_True in Hb by done. rewrite Nat.add_0_r in Hu.
  specialize (IH (S i) p1 d1 run1 Hd1 Hn1 Hr Hnd).
  destruct (settle_each _ _ _ _ _ _ _ _ _) as [p2 w2].
  destruct IH as (rows & Hfst & Hjs & Hb2 & Hu2 & Hde2).
  { rewrite Forall_forall in Hall. apply Forall_forall. intros e He.
    destruct (Hall e He) as [Hpe Hine]. split; [done|]. rewrite Hb.
    apply replace_row_other; [|done]. intros Hk. destruct Hni. rewrite <- Hk.
    apply list_elem_of_fmap; eauto. }
  exists ((entry, e') :: rows). split_and!.
  - cbn. by f_equal.
  - rewrite Hoff in Hjs. by econstructor.
  - by rewrite Hb2, Hb.
  - congruence.
  - congruence.
Qed.

Lemma claim_due_run claim d run :
  sound d -> InTransaction d = false -> OutboxClaim.Now claim <> 0%Z ->
  exists claim' d',
    ClaimDueEvents_ s None claim (d, run) =
      ((Ledger.ClaimDueEvents claim' (base d)).1, (d', run)) /\
    InTransaction d' = false /\ sound d' /\
    base d' = (Ledger.ClaimDueEvents claim' (base d)).2 /\
    OutboxClaim.Now claim' = OutboxClaim.Now claim /\
    OutboxClaim.Owner claim' = OutboxClaim.Owner claim.
Proof.
  intros Hd Hn Hnow. unfold ClaimDueEvents_, sret, sbind. rewrite decide_False by done.
  rewrite do_owns by done. destruct (begin_law d Hd Hn) as (Ha & Hb & Hv & Hs & Hrel).
  set (claim' := OutboxClaim.mk _ _ _ _).
  destruct (claim_due_law claim' (begin d)) as ((Ha1 & Hb1 & Hs1) & Hr & Hvw); [done..|].
  rewrite Hv in Hr, Hvw. unfold write, on_store.
  destruct (ClaimDueEvents claim' (begin d)) as [r1 d1]. cbn [fst snd] in *. subst r1.
  destruct (commit_law d1) as (Hc1 & Hc2 & Hc3); [done|congruence|].
  rewrite ClaimDueEvents_eq in *. cbv zeta in *. cbn [fst snd] in *.
  exists claim', (commit d1). rewrite ClaimDueEvents_eq. cbv zeta. cbn [fst snd].
  split_and!; [done..|congruence|done|done].
Qed.

Lemma claimed_rows claim l :
  NoDup (Ledger.keys l) ->
  let claimed := Settle.lease claim <$> due_entries claim l in
  NoDup (OutboxEntry.key <$> claimed) /\
  Forall (fun e => OutboxEntry.Pending e = true /\
                   e ∈ Ledger.outbox (Ledger.ClaimDueEvents claim l).2) claimed.
Proof.
  intros Hnd claimed. rewrite ClaimDueEvents_eq. cbv zeta. cbn [snd Ledger.outbox upd].
  assert (Hkeys : OutboxEntry.key <$> claimed = OutboxEntry.key <$> due_entries claim l).
  { unfold claimed. by rewrite <- list_fmap_compose. }
  split.
  - rewrite Hkeys. unfold due_entries. rewrite fmap_take.
    eapply sublist_NoDup; [|apply sublist_take]. apply NoDup_fmap_filter.
    by rewrite merge_sort_Permutation.
  - apply Forall_forall. intros e He. fold claimed.
    pose proof He as He0. apply list_elem_of_fmap in He as (e0 & -> & He).
    apply due_entries_spec in He as [Hin Hdue]. split.
    + unfold Settle.due in Hdue. by apply andb_prop in Hdue as [[? _]%andb_prop _].
    + apply list_elem_of_fmap. exists e0. split; [|done].
      rewrite decide_True; [done|]. apply list_elem_of_fmap. by exists (Settle.lease claim e0).
Qed.

(** C13: A pass nobody disturbs settles every event it claims.  It leases the due
    events and commits that first; then it takes them in order, offers each to
    exactly the sinks that had not taken it -- each sink once, after everything
    offered before, the attempt carrying the event and its next number -- and
    replaces the row of the event by the verdict on what [Sink.Deliver] answered to
    those very offers: the sinks that took it are added, it is delivered at that
    instant when none refused, dead-lettered when one refused for good or the
    attempts ran out, pending until the scheduled instant otherwise.  Nothing is left
    unsettled, and no other row, task or history changes. *)
Theorem pass_settles_batch p d run p' w' :
  sound d -> InTransaction d = false -> named r ->
  NormalizeTime (Service.clock s (Run.ticks run)) <> 0%Z ->
  Relay_ s unrepresentable r (fun _ => None) (fun _ d => d) p (d, run) = (Ok p', w') ->
  let now := NormalizeTime (Service.clock s (Run.ticks run)) in
  exists claim claimed rows,
    Ledger.ClaimDueEvents claim (base d) = (Ok claimed, (Ledger.ClaimDueEvents claim (base d)).2) /\
    OutboxClaim.Now claim = now /\ OutboxClaim.Owner claim = Relay.owner r /\
    rows.*1 = claimed /\ pass_judged now (Pass.offers p) rows (Pass.offers p') /\
    base w'.1 = replace_rows rows (Ledger.ClaimDueEvents claim (base d)).2 /\
    RelayResult.Unsettled (Pass.result p') = 0 /\ Run.delivered w'.2 = Run.delivered run.
Proof.
  intros Hd Hn Hr Hnow. unfold Relay_, Now. set (now := NormalizeTime _) in *. cbv zeta.
  set (run1 := run <| Run.ticks := S (Run.ticks run) |>).
  destruct (claim_due_run (OutboxClaim.mk now (Relay.owner r) (Relay.lease r) (Relay.batch r)) d run1)
    as (claim & d1 & Hc & Hn1 & Hd1 & Hb1 & Hcn & Hco); [done..|].
  rewrite Hc. rewrite ClaimDueEvents_eq in Hb1 |- *. cbv zeta in Hb1 |- *. cbn [fst snd] in Hb1 |- *.
  set (claimed := Settle.lease claim <$> due_entries claim (base d)) in *.
  destruct (claimed_rows claim (base d)) as [Hnd Hrows].
  { rewrite <- view_outside by done. by apply distinct_events. }
  rewrite ClaimDueEvents_eq in Hrows. cbv zeta in Hrows. cbn [snd] in Hrows.
  match goal with |- context[settle_each _ _ _ _ _ _ _ ?p0 _] => set (p1 := p0) end.
  pose proof (settle_each_run 0 claimed now p1 d1 run1 Hd1 Hn1 Hr Hnd) as Hs.
  destruct (settle_each _ _ _ _ _ _ _ _ _) as [p2 w2].
  destruct Hs as (rows & Hfst & Hj & Hb2 & Hu & Hde); [by rewrite Hb1|].
  intros [= <- <-]. exists claim, claimed, rows. rewrite ClaimDueEvents_eq. cbv zeta. cbn [fst snd].
  split_and!; [done..|by rewrite Hb2, Hb1|done|done].
Qed.
End settlement.

(** ** A pass, whatever the store and the sinks do *)

Section pass.
Context {D G : Type} `{!Store D, !IDGenerator G}.
Context (s : Service.t) (unrepresentable : spec_float -> Z) (r : Relay.t).

Lemma emptyResult_zero claimed name p :
  Pass.result p = emptyResult r claimed -> total p name = 0.
Proof.
  intros Hp. unfold total. rewrite Hp. unfold emptyResult; cbn [RelayResult.Sinks].
  assert (Hz : forall names (m : gmap string SinkResult.t),
    sink_total (default SinkResult.zero (m !! name)) = 0 ->
    sink_total (default SinkResult.zero
      (for_each (fun n => <[ n := SinkResult.zero ]>) names m !! name)) = 0).
  { induction names as [|n names IH]; intros m Hm; cbn; [done|]. apply IH.
    destruct (decide (n = name)) as [->|Hne];
      [by rewrite lookup_insert_eq|by rewrite lookup_insert_ne]. }
  apply Hz. by rewrite lookup_empty.
Qed.

(** A pass accounts for every event it claims, whatever the store, the sinks,
    other callers and cancellations do: delivered, retried, dead-lettered and
    unsettled add up to claimed, and so do the entries of every configured sink;
    and it offers an event only to a sink that, when the event was claimed, had not
    taken it, numbered one more than the attempts on record. *)
Theorem pass_accounts cancelled others p (w : D * Run.t G) p' w' :
  named r -> Relay_ s unrepresentable r cancelled others p w = (Ok p', w') ->
  exists claimed,
    RelayResult.Claimed (Pass.result p') = length claimed /\
    handled (Pass.result p') = length claimed /\
    (forall name, name ∈ Relay.names r -> total p' name = length claimed) /\
    exists new, Pass.offers p' = Pass.offers p ++ new /\
      Forall (fun o => exists entry, entry ∈ claimed /\ o.1 ∈ Relay.names r /\
                OutboxEntry.HasAccepted entry o.1 = false /\
                Attempt.Event o.2 = OutboxEntry.Event entry /\
                Attempt.Number o.2 = (OutboxEntry.Attempts entry + 1)%Z) new.
Proof.
  intros Hr. unfold Relay_. destruct (Now s w) as [[now|err] w1]; [|done].
  destruct (ClaimDueEvents_ s (cancelled 0) _ w1) as [[claimed|err] w2]; [|done].
  set (p1 := p <| Pass.result := emptyResult r (length claimed) |>).
  pose proof (settle_each_counts unrepresentable r cancelled others 0 claimed (NormalizeTime now)
    p1 w2 Hr) as Hs.
  destruct (settle_each _ _ _ _ _ _ _ _ _) as [p2 w3]. intros [= <- <-].
  destruct Hs as (Hc & Hh & Ht & Hoff). exists claimed. split_and!; [done|done| |done].
  intros name Hin. rewrite Ht, (emptyResult_zero (length claimed)) by done. done.
Qed.

(** Construction refuses what could only fail later: a relay is returned
    exactly when its options leave it at least one sink, every sink named and no
    two sharing a name (and an identifier can be had for an unnamed owner); the
    names are then those of its sinks, in order. *)
Theorem new_relay_named random opts (w : D * Run.t G) :
  let start := for_each (fun opt => opt) opts (newRelay random) in
  let names := Sink.Name <$> Relay.sinks start in
  match NewRelay random opts w with
  | (Ok relay, w') =>
      names <> [] /\ "" ∉ names /\ NoDup names /\ Relay.names relay = names /\
      Relay.sinks relay = Relay.sinks start /\ Relay.owner relay <> "" /\ w'.1 = w.1
  | (Err err, w') =>
      w'.1 = w.1 /\
      (errors_Is err ErrConfiguration = true /\ w' = w /\
       ~ (names <> [] /\ "" ∉ names /\ NoDup names) \/
       Relay.owner start = "" /\ (NewEventID w).1 = Err err)
  end.
Proof.
  cbv zeta. set (start := for_each _ opts _). unfold NewRelay, sbind, slift. fold start.
  unfold nameSinks. destruct (decide (length (Relay.sinks start) = 0)) as [Hl|Hl].
  { split; [done|]. left. split_and!; [done..|]. intros [Hne _]. destruct Hne.
    by destruct (Relay.sinks start). }
  assert (Hne : Sink.Name <$> Relay.sinks start <> []) by (by destruct (Relay.sinks start)).
  pose proof (read_names_spec (Relay.sinks start) []) as Hspec.
  assert (Herr : forall e, read_names (Relay.sinks start) [] = Err e -> errors_Is e ErrConfiguration = true).
  { generalize (@nil string). clear. induction (Relay.sinks start) as [|sink sinks IH];
      intros seen e; cbn; [done|].
    case_decide; [by intros [= <-]|]. destruct (contains _ _); [by intros [= <-]|]. apply IH. }
  destruct (read_names (Relay.sinks start) []) as [names|e]; cbn [rbind].
  2: { split; [done|]. left. split_and!; [by apply Herr|done|]. intros (_ & He & Hnd).
       specialize (Hspec (Sink.Name <$> Relay.sinks start) ltac:(constructor)
         ltac:(apply not_elem_of_nil)). naive_solver. }
  destruct (proj1 (Hspec names ltac:(constructor) ltac:(apply not_elem_of_nil)) eq_refl)
    as (-> & Hnd & He). cbn [app] in *.
  change (Relay.owner (start <| Relay.names := _ |>)) with (Relay.owner start).
  destruct (decide (Relay.owner start = "")) as [Ho|Ho]; [|by split_and!].
  pose proof (NewEventID_kept w) as Hk. destruct (NewEventID w) as [[id|e] w'].
  - destruct Hk as [Hk _]. by split_and!.
  - destruct Hk as [Hk _]. split; [done|]. by right.
Qed.
End pass.
