(* ===== verification/Backoff.v ===== *)
(** * Backoff: the retry schedule is the one documented

    [nextAttemptAt] computes [min(backoff * 2^attempts, ceiling)] in binary64.
    Integers below [2^53] are represented exactly and doubling is exact, so with
    jitter off the schedule is that formula to the nanosecond, overflow of the
    doubling included.

    The relay is then run with one sink that takes everything and one that is down,
    over the store [EngineExamples.v] leaves after the creation of a task. *)

From Stdlib Require Import Floats.SpecFloat.
From S2P Require Import Float64.
From S2P Require Import Prelude Domain Event Relay.

(** ** Positive floats with a full mantissa *)

Definition full (m : positive) : Prop := (2 ^ 52 <= Z.pos m < 2 ^ 53)%Z.

Lemma digits_bounds m :
  (2 ^ (Z.pos (digits2_pos m) - 1) <= Z.pos m < 2 ^ Z.pos (digits2_pos m))%Z.
Proof.
  induction m as [m IH|m IH|]; cbn [digits2_pos]; [| |done].
  all: rewrite Pos2Z.inj_succ; unfold Z.succ; rewrite Z.add_simpl_r.
  all: replace (Z.pos (digits2_pos m)) with (Z.pos (digits2_pos m) - 1 + 1)%Z at 1 by lia.
  all: rewrite !Z.pow_add_r by lia; change (2 ^ 1)%Z with 2%Z; lia.
Qed.

Lemma digits_unique m d : (0 < d)%Z -> (2 ^ (d - 1) <= Z.pos m < 2 ^ d)%Z ->
  Z.pos (digits2_pos m) = d.
Proof.
  intros Hd [Hl Hu]. pose proof (digits_bounds m) as [Hl' Hu'].
  assert (d - 1 < Z.pos (digits2_pos m))%Z by (apply (Z.pow_lt_mono_r_iff 2); lia).
  assert (Z.pos (digits2_pos m) - 1 < d)%Z by (apply (Z.pow_lt_mono_r_iff 2); lia).
  lia.
Qed.

Lemma iter_shift m k : Z.pos (Pos.iter xO m k) = (Z.pos m * 2 ^ Z.pos k)%Z.
Proof.
  induction k as [|k IH] using Pos.peano_ind.
  { change (Pos.iter xO m 1) with (xO m). rewrite Pos2Z.inj_xO. change (2 ^ 1)%Z with 2%Z. lia. }
  rewrite Pos.iter_succ, Pos2Z.inj_xO, IH, Pos2Z.inj_succ, Z.pow_succ_r by lia. lia.
Qed.

Lemma shr_none mrs e : shr mrs e 0 = (mrs, e).
Proof. done. Qed.

Lemma round_full m e :
  full m -> (-1074 <= e)%Z ->
  binary_round_aux float64_prec float64_emax false (Z.pos m) e loc_Exact =
    if (e <=? 971)%Z then S754_finite false m e else S754_infinity false.
Proof.
  intros Hm He. unfold binary_round_aux, shr_fexp.
  assert (Hd : Zdigits2 (Z.pos m) = 53%Z) by (cbn; by apply digits_unique).
  assert (Hf : (fexp float64_prec float64_emax (53 + e) - e = 0)%Z)
    by (unfold fexp, SpecFloat.emin, float64_prec, float64_emax; lia).
  rewrite Hd, Hf, shr_none. cbn [shr_record_of_loc shr_m loc_of_shr_record round_nearest_even].
  by rewrite Hd, Hf, shr_none.
Qed.

(** Rounding a short mantissa shifts it to full length. *)
Lemma round_short m e :
  (Z.pos (digits2_pos m) <= 53)%Z -> (-1074 <= e - (53 - Z.pos (digits2_pos m)))%Z ->
  exists m', full m' /\
    Z.pos m' = (Z.pos m * 2 ^ (53 - Z.pos (digits2_pos m)))%Z /\
    binary_round float64_prec float64_emax false m e =
      if (e - (53 - Z.pos (digits2_pos m)) <=? 971)%Z
      then S754_finite false m' (e - (53 - Z.pos (digits2_pos m))) else S754_infinity false.
Proof.
  intros Hd He. unfold binary_round.
  replace (fexp float64_prec float64_emax (Z.pos (digits2_pos m) + e))
    with (e - (53 - Z.pos (digits2_pos m)))%Z
    by (unfold fexp, SpecFloat.emin, float64_prec, float64_emax; lia).
  pose proof (digits_bounds m) as [Hl Hu]. set (d := Z.pos (digits2_pos m)) in *.
  unfold shl_align. destruct (e - (53 - d) - e)%Z as [|k|k] eqn:Ek; [| lia|].
  - assert (d = 53)%Z as -> by lia. exists m. change (2 ^ (53 - 53))%Z with 1%Z.
    split_and!; [done|lia|]. change (53 - 53)%Z with 0%Z in *. rewrite Z.sub_0_r in *.
    cbv beta iota. by apply round_full.
  - assert (Hk : (53 - d = Z.pos k)%Z) by lia. rewrite Hk in *.
    exists (Pos.iter xO m k).
    assert (Hfull : full (Pos.iter xO m k)).
    { unfold full. rewrite iter_shift, <- Hk. split.
      - replace (2 ^ 52)%Z with (2 ^ (d - 1) * 2 ^ (53 - d))%Z
          by (rewrite <- Z.pow_add_r by lia; f_equal; lia).
        apply Z.mul_le_mono_nonneg_r; lia.
      - replace (2 ^ 53)%Z with (2 ^ d * 2 ^ (53 - d))%Z
          by (rewrite <- Z.pow_add_r by lia; f_equal; lia).
        apply Z.mul_lt_mono_pos_r; lia. }
    split_and!; [done|apply iter_shift|]. cbv beta iota. by apply round_full.
Qed.

(** [f] is exactly [z], for a positive [z]. *)
Definition is_float (f : spec_float) (z : Z) : Prop :=
  exists m e, f = S754_finite false m e /\ full m /\ (-52 <= e <= 971)%Z /\
    (Z.pos m * 2 ^ (e + 52) = z * 2 ^ 52)%Z.

Lemma float64_exact z : (0 < z < 2 ^ 53)%Z -> is_float (float64 z) z.
Proof.
  intros Hz. destruct z as [|m|m]; try lia. unfold float64, binary_normalize.
  pose proof (digits_bounds m) as [Hl Hu].
  assert (Hd : (Z.pos (digits2_pos m) <= 53)%Z).
  { enough (Z.pos (digits2_pos m) - 1 < 53)%Z by lia.
    apply (Z.pow_lt_mono_r_iff 2); lia. }
  destruct (round_short m 0 Hd) as (m' & Hm' & Hv & ->); [lia|].
  set (d := Z.pos (digits2_pos m)) in *.
  rewrite (proj2 (Z.leb_le (0 - (53 - d)) 971)) by lia.
  exists m', (0 - (53 - d))%Z. split_and!; [done|done|lia|lia|].
  rewrite Hv, <- Z.mul_assoc, <- Z.pow_add_r by lia. f_equal. f_equal. lia.
Qed.

Lemma is_float_trunc f z : is_float f z -> float64_trunc f = Some z.
Proof.
  intros (m & e & -> & _ & He & Hv). unfold float64_trunc. f_equal. case_decide as H.
  - rewrite Z.pow_add_r, Z.mul_assoc in Hv by lia. apply Z.mul_cancel_r in Hv; lia.
  - assert (Hm : (Z.pos m = z * 2 ^ (- e))%Z).
    { apply (Z.mul_cancel_r _ _ (2 ^ (e + 52))); [lia|].
      rewrite Hv, <- Z.mul_assoc, <- Z.pow_add_r by lia. f_equal. f_equal. lia. }
    rewrite Hm. apply Z.div_mul. lia.
Qed.

(** ** Comparison *)

Lemma full_compare m1 e1 m2 e2 :
  full m1 -> full m2 -> (0 <= e1)%Z -> (0 <= e2)%Z ->
  match (e1 ?= e2)%Z with
  | Lt => Lt
  | Gt => Gt
  | Eq => Pos.compare_cont Eq m1 m2
  end = (Z.pos m1 * 2 ^ e1 ?= Z.pos m2 * 2 ^ e2)%Z.
Proof.
  intros [Hl1 Hu1] [Hl2 Hu2] He1 He2.
  assert (Hlt : forall m m' e e', (Z.pos m < 2 ^ 53)%Z -> (2 ^ 52 <= Z.pos m')%Z ->
    (0 <= e < e')%Z -> (Z.pos m * 2 ^ e < Z.pos m' * 2 ^ e')%Z).
  { intros m m' e e' Hm Hm' He.
    apply (Z.lt_le_trans _ (2 ^ 53 * 2 ^ e)); [apply Z.mul_lt_mono_pos_r; lia|].
    replace (2 ^ 53 * 2 ^ e)%Z with (2 ^ 52 * 2 ^ (e + 1))%Z
      by (rewrite <- !Z.pow_add_r by lia; f_equal; lia).
    apply Z.mul_le_mono_nonneg; [lia|done|lia|]. apply Z.pow_le_mono_r; lia. }
  destruct (Z.compare_spec e1 e2) as [->|H|H]; symmetry.
  - change (Pos.compare_cont Eq m1 m2) with (Z.pos m1 ?= Z.pos m2)%Z.
    destruct (Z.compare_spec (Z.pos m1) (Z.pos m2)) as [->|H|H].
    + apply Z.compare_refl.
    + apply Z.compare_lt_iff, Z.mul_lt_mono_pos_r; lia.
    + apply Z.compare_gt_iff, Z.mul_lt_mono_pos_r; lia.
  - apply Z.compare_lt_iff, Hlt; lia.
  - apply Z.compare_gt_iff, Hlt; lia.
Qed.

Lemma is_float_ltb f g z y : is_float f z -> is_float g y -> SFltb f g = bool_decide (z < y)%Z.
Proof.
  intros (m1 & e1 & -> & Hm1 & He1 & Hv1) (m2 & e2 & -> & Hm2 & He2 & Hv2).
  unfold SFltb, SFcompare.
  pose proof (full_compare m1 (e1 + 52) m2 (e2 + 52) Hm1 Hm2 ltac:(lia) ltac:(lia)) as Hc.
  rewrite Hv1, Hv2 in Hc.
  replace (e1 + 52 ?= e2 + 52)%Z with (e1 ?= e2)%Z in Hc
    by (destruct (Z.compare_spec e1 e2), (Z.compare_spec (e1 + 52) (e2 + 52)); lia || done).
  rewrite Hc. destruct (Z.compare_spec (z * 2 ^ 52) (y * 2 ^ 52)); case_bool_decide; lia || done.
Qed.

(** ** Doubling *)

(** Doubling is exact until it overflows, and then it is past every integer here. *)
Lemma Ldexp_float f z a :
  is_float f z -> (0 <= a)%Z ->
  is_float (Ldexp f a) (z * 2 ^ a) \/
  Ldexp f a = S754_infinity false /\ (2 ^ 1023 <= z * 2 ^ a)%Z.
Proof.
  intros (m & e & -> & Hm & He & Hv) Ha. unfold Ldexp, SFldexp.
  assert (Hd : Z.pos (digits2_pos m) = 53%Z) by (apply digits_unique; [lia|exact Hm]).
  destruct (round_short m (e + a)) as (m' & Hm' & Hv' & ->); [lia|lia|].
  rewrite Hd in *. change (53 - 53)%Z with 0%Z in *. rewrite Z.sub_0_r, Z.mul_1_r in *.
  assert (m' = m) as -> by (by injection Hv').
  assert (Hz : (Z.pos m * 2 ^ (e + a + 52) = z * 2 ^ a * 2 ^ 52)%Z).
  { replace (e + a + 52)%Z with (e + 52 + a)%Z by lia.
    rewrite Z.pow_add_r, Z.mul_assoc, Hv by lia. lia. }
  destruct (Z.leb_spec (e + a) 971) as [Hle|Hgt].
  - left. exists m, (e + a)%Z. split_and!; [done|done|lia|lia|exact Hz].
  - right. split; [done|]. apply (Z.mul_le_mono_pos_r _ _ (2 ^ 52)); [lia|].
    rewrite <- Hz. apply (Z.le_trans _ (2 ^ 52 * 2 ^ (e + a + 52))).
    + rewrite <- !Z.pow_add_r by lia. apply Z.pow_le_mono_r; lia.
    + apply Z.mul_le_mono_nonneg_r; [lia|apply Hm].
Qed.

Lemma float64_max_zero f z : is_float f z -> float64_max f (float64 0) = f.
Proof. by intros (m & e & -> & _). Qed.

(** C21: With jitter off, an event that has failed [attempts] times before is due
    again exactly [min(backoff * 2^attempts, ceiling)] nanoseconds from now,
    however many attempts there were: the doubling is exact in floating point, its
    overflow is caught by the ceiling, and nothing is drawn from the jitter's
    source.  This holds for delays below [2^53] nanoseconds, more than a hundred
    days. *)
Theorem schedule_exact unrepresentable r now attempts draws :
  (0 < Relay.backoff r < 2 ^ 53)%Z -> (0 < Relay.ceiling r < 2 ^ 53)%Z ->
  SFltb (float64 0) (Relay.jitter r) = false -> (0 <= attempts)%Z ->
  nextAttemptAt unrepresentable r now attempts draws =
    ((now + Z.min (Relay.backoff r * 2 ^ attempts) (Relay.ceiling r))%Z, draws).
Proof.
  intros Hb Hc Hj Ha. unfold nextAttemptAt. rewrite Hj, Z.max_l by done.
  pose proof (float64_exact _ Hb) as Hfb. pose proof (float64_exact _ Hc) as Hfc.
  assert (Hclose : forall f z, is_float f z -> (0 <= z < 2 ^ 53)%Z ->
    toDuration unrepresentable (float64_max f (float64 0)) = z).
  { intros f z Hf Hz. rewrite (float64_max_zero f z Hf). unfold toDuration.
    rewrite (is_float_trunc f z Hf). unfold max_int64. rewrite decide_True; [done|lia]. }
  destruct (Ldexp_float _ _ attempts Hfb Ha) as [Hd|[-> Hbig]].
  - rewrite (is_float_ltb _ _ _ _ Hfc Hd). case_bool_decide as Hlt.
    + rewrite (Hclose _ _ Hfc) by lia. by rewrite Z.min_r by lia.
    + assert (0 < 2 ^ attempts)%Z by (apply Z.pow_pos_nonneg; lia).
      rewrite (Hclose _ _ Hd) by nia. by rewrite Z.min_l by lia.
  - assert (Hinf : SFltb (float64 (Relay.ceiling r)) (S754_infinity false) = true)
      by (destruct Hfc as (m & e & -> & _); done).
    rewrite Hinf, (Hclose _ _ Hfc) by lia.
    assert (2 ^ 53 <= 2 ^ 1023)%Z by (apply Z.pow_le_mono_r; lia).
    by rewrite Z.min_r by lia.
Qed.

(** A retry is never scheduled before the instant of the pass, whatever the
    configuration and the jitter, as long as the delay is a number of nanoseconds
    the machine has. *)
Theorem schedule_never_early unrepresentable r now attempts draws :
  (forall f, 0 <= unrepresentable f)%Z ->
  (now <= (nextAttemptAt unrepresentable r now attempts draws).1)%Z.
Proof.
  intros Hu. unfold nextAttemptAt. destruct (if SFltb _ _ then _ else _) as [delay draws'] eqn:E.
  clear E. cbn [fst].
  enough (0 <= toDuration unrepresentable (float64_max delay (float64 0)))%Z by lia.
  unfold toDuration. destruct (float64_trunc _) as [n|] eqn:Et; [|apply Hu].
  case_decide; [|apply Hu]. revert Et. unfold float64_max, float64, binary_normalize.
  destruct delay as [sg|sg| |sg m e]; cbn [SFcompare]; try (by intros [= <-]).
  - destruct sg; [by intros [= <-]|done].
  - destruct sg; unfold float64_trunc; [by intros [= <-]|]. intros [= <-].
    destruct (decide (0 <= e)%Z); [apply Z.mul_nonneg_nonneg; [lia|apply Z.pow_nonneg; lia]|].
    apply Z.div_pos; [lia|apply Z.pow_pos_nonneg; lia].
Qed.

(** * Witnesses *)

Module BackoffExamples.
Definition steady : Relay.t :=
  Relay.mk [] [] "" 0 0 5 DefaultBackoff DefaultBackoffCeiling (float64 0) (fun _ => float64 0).
Definition half : nat -> spec_float := fun _ => S754_finite false 4503599627370496 (-53).
Definition shaken : Relay.t :=
  steady <| Relay.jitter := DefaultJitter |> <| Relay.random := half |>.
End BackoffExamples.
Import BackoffExamples.

Example schedule_demo :
  (fun attempts => (nextAttemptAt (fun _ => 0%Z) steady 0 attempts 0).1) <$> [0; 1; 2; 6; 7; 5000]%Z =
    [30000000000; 60000000000; 120000000000; 1920000000000; 3600000000000; 3600000000000]%Z /\
  nextAttemptAt (fun _ => 0%Z) shaken 0 1 3 = (60000000000%Z, 4).
Proof. vm_compute. done. Qed.

Lemma schedule_exact_witness :
  nextAttemptAt (fun _ => 0%Z) steady 1000 6 3 = (1920000001000%Z, 3).
Proof.
  rewrite (schedule_exact (fun _ => 0%Z) steady 1000 6 3);
    [reflexivity|split; vm_compute; reflexivity..|vm_compute; reflexivity|lia].
Defined.

Lemma schedule_never_early_witness :
  (1000 <= (nextAttemptAt (fun _ => 0) shaken 1000 6 3).1)%Z.
Proof. apply schedule_never_early. intros _. lia. Defined.

(** * At concrete inputs *)

From S2P Require Import Errors Lifecycle LifecycleFacts Assignment Query Outbox Store MemStore MemStoreFacts Ident Registry Service EngineExamples RelayFacts.
Import EngineExamples.

#[local] Existing Instances store model laws.

Module RelayExamples.
Definition up : Sink.t := Sink.mk "up" (fun _ _ => Outcome.Delivered).
Definition down : Sink.t :=
  Sink.mk "down" (fun _ _ => Outcome.Retryable (ExternalError "connection refused" [])).
Definition courier : Relay.t :=
  Relay.mk [up; down] ["up"; "down"] "relay-1" DefaultOutboxLease 50 5 DefaultBackoff
    DefaultBackoffCeiling (float64 0) (fun _ => float64 0).
Definition before : Pass.t := Pass.mk (RelayResult.mk 0 0 0 0 0 ∅) [] [] 0.
Definition pass (w : DB.t * Run.t UUIDSource) :=
  Relay_ office (fun _ => 0%Z) courier (fun _ => None) (fun _ d => d) before w.
Definition summary (r : res Pass.t) : list nat :=
  match r with
  | Ok p => let x := Pass.result p in
      [RelayResult.Claimed x; RelayResult.Delivered x; RelayResult.Retried x;
       RelayResult.DeadLettered x; RelayResult.Unsettled x; length (Pass.offers p)]
  | Err _ => []
  end.

Lemma courier_named : named courier.
Proof. split; [reflexivity|]. apply (bool_decide_unpack _). vm_compute. reflexivity. Qed.
End RelayExamples.
Import RelayExamples.

(** The first pass delivers to one sink; the row remembers it, and is not due again
    at the next reading of the clock. *)
Example pass_demo :
  let first := pass (placed, placed_run) in
  let second := pass first.2 in
  summary first.1 = [1; 0; 1; 0; 0; 2] /\
  OutboxEntry.Accepted <$> Ledger.outbox (base first.2.1) = [["up"]] /\
  summary second.1 = [0; 0; 0; 0; 0; 0].
Proof. vm_compute. done. Qed.

Lemma pass_settles_batch_witness :
  exists p' w' rows, pass (placed, placed_run) = (Ok p', w') /\
    pass_judged (fun _ => 0%Z) courier (NormalizeTime (Service.clock office (Run.ticks placed_run)))
      (Pass.offers before) rows (Pass.offers p') /\ length (Pass.offers p') = 2 /\
    RelayResult.Unsettled (Pass.result p') = 0.
Proof.
  destruct (pass (placed, placed_run)) as [r w'] eqn:E.
  destruct r as [p'|e]; [|vm_compute in E; discriminate].
  destruct (pass_settles_batch office (fun _ => 0%Z) courier before placed placed_run p' w')
    as (claim & claimed & rows & _ & _ & _ & _ & Hj & _ & Hu & _).
  - apply placed_sound.
  - vm_compute. reflexivity.
  - exact courier_named.
  - vm_compute. discriminate.
  - exact E.
  - exists p', w', rows. split_and!; [reflexivity|exact Hj| |exact Hu].
    assert (H : match (pass (placed, placed_run)).1 with Ok p => length (Pass.offers p) = 2 | Err _ => False end)
      by (vm_compute; reflexivity).
    rewrite E in H. exact H.
Defined.

Lemma pass_accounts_witness :
  exists p' w', pass (placed, placed_run) = (Ok p', w') /\
    handled (Pass.result p') = RelayResult.Claimed (Pass.result p').
Proof.
  destruct (pass (placed, placed_run)) as [r w'] eqn:E.
  destruct r as [p'|e]; [|vm_compute in E; discriminate].
  destruct (pass_accounts office (fun _ => 0%Z) courier (fun _ => None) (fun _ d => d) before
    (placed, placed_run) p' w' courier_named E) as (claimed & H1 & H2 & _).
  exists p', w'. split; [reflexivity|]. rewrite H1. exact H2.
Defined.

Lemma settlement_outcome_witness :
  exists entry new e',
    Ledger.outbox (base placed) = [entry] /\
    judged (fun _ => 0%Z) courier 1700000005000000000 (Pass.offers before) new (entry, e').
Proof.
  destruct (Ledger.outbox (base placed)) as [|entry [|]] eqn:E; [vm_compute in E; discriminate| |
    vm_compute in E; discriminate].
  pose proof (settlement_outcome (fun _ => 0%Z) courier None entry 1700000005000000000 before
    placed placed_run) as H.
  destruct (settle _ _ _ _ _ _ _) as [p' w'].
  destruct H as (new & e' & _ & Hj & _).
  - apply placed_sound.
  - vm_compute. reflexivity.
  - exact courier_named.
  - assert (Hp : (forall e, Ledger.outbox (base placed) = [e] -> OutboxEntry.Pending e = true))
      by (intros e He; vm_compute in He; injection He as <-; vm_compute; reflexivity).
    exact (Hp entry E).
  - rewrite E. left.
  - exists entry, new, e'. split; [reflexivity|exact Hj].
Defined.
