(* ===== verification/Calendar.v ===== *)
(** * Calendar: instants as dates, and as text of one width

    What [time.Time] is to the code that writes an instant as text: the proleptic
    Gregorian date and the time of day of an instant, counted in nanoseconds from
    the zero time, 0001-01-01T00:00:00Z; and decimal fields of fixed width, whose
    byte-wise order is that of the numbers they show. *)

From S2P Require Import Prelude.

(** ** Fields of fixed width *)

(** The decimal digit of a number below ten. *)
Definition digit (n : Z) : Ascii.ascii := Ascii.ascii_of_N (Z.to_N (48 + n)).

(** The last [width] decimal digits of a number. *)
Fixpoint padded (width : nat) (n : Z) : string :=
  match width with
  | 0 => ""
  | S width => (padded width (n / 10) +:+ String (digit (n mod 10)) "")%string
  end.

Definition digit_value (c : Ascii.ascii) : option Z :=
  let n := Z.of_N (Ascii.N_of_ascii c) in
  if decide (48 <= n <= 57)%Z then Some (n - 48)%Z else None.

(** Reads exactly [width] digits, onto what was read before them. *)
Fixpoint read_digits (width : nat) (acc : Z) (s : string) : option (Z * string) :=
  match width with
  | 0 => Some (acc, s)
  | S width =>
      match s with
      | EmptyString => None
      | String c s =>
          match digit_value c with
          | None => None
          | Some v => read_digits width (10 * acc + v)%Z s
          end
      end
  end.

(** ** Dates *)

Definition leap (y : Z) : bool :=
  (bool_decide (y mod 4 = 0) && (negb (bool_decide (y mod 100 = 0)) || bool_decide (y mod 400 = 0)))%Z.

(** The days before the first of January of a year. *)
Definition days_before_year (y : Z) : Z :=
  (365 * (y - 1) + (y - 1) / 4 - (y - 1) / 100 + (y - 1) / 400)%Z.

(** The year of a day and the day within it: whole cycles of 400, 100, 4 and 1
    years, the last of which may not count a fifth century or a fifth year. *)
Definition year_of (n : Z) : Z * Z :=
  (let q400 := n / 146097 in let n := n - 146097 * q400 in
   let q100 := n / 36524 in let q100 := q100 - q100 / 4 in let n := n - 36524 * q100 in
   let q4 := n / 1461 in let n := n - 1461 * q4 in
   let q1 := n / 365 in let q1 := q1 - q1 / 4 in let n := n - 365 * q1 in
   (400 * q400 + 100 * q100 + 4 * q4 + q1 + 1, n))%Z.

Definition month_lengths (y : Z) : list Z :=
  [31; if leap y then 29 else 28; 31; 30; 31; 30; 31; 31; 30; 31; 30; 31]%Z.

(** The month of a day of the year, counted from [m], and the day within it. *)
Fixpoint month_of (lengths : list Z) (m n : Z) : Z * Z :=
  match lengths with
  | [] => (m, n + 1)%Z
  | length :: rest => if decide (n < length)%Z then (m, n + 1)%Z else month_of rest (m + 1) (n - length)
  end.

Definition sum (l : list Z) : Z := foldr Z.add 0%Z l.

Definition days_in (y m : Z) : Z := default 0%Z (month_lengths y !! Z.to_nat (m - 1)).
Definition days_before_month (y m : Z) : Z := sum (take (Z.to_nat (m - 1)) (month_lengths y)).

(** ** Instants *)

Module Civil.
Record t : Type := mk { year : Z; month : Z; day : Z; hour : Z; minute : Z; second : Z; nanos : Z }.
End Civil.

Definition civil (t : Z) : Civil.t :=
  (let days := t / 86400000000000 in
   let rest := t mod 86400000000000 in
   let '(y, n) := year_of days in
   let '(m, d) := month_of (month_lengths y) 1 n in
   Civil.mk y m d (rest / 3600000000000) (rest / 60000000000 mod 60) (rest / 1000000000 mod 60)
     (rest mod 1000000000))%Z.

(** [time.Date] in UTC. *)
Definition instant_of (c : Civil.t) : Z :=
  ((days_before_year (Civil.year c) + days_before_month (Civil.year c) (Civil.month c) +
    (Civil.day c - 1)) * 86400000000000 + Civil.hour c * 3600000000000 +
   Civil.minute c * 60000000000 + Civil.second c * 1000000000 + Civil.nanos c)%Z.

(** A date and a time of day. *)
Definition valid_civil (c : Civil.t) : bool :=
  (bool_decide (1 <= Civil.year c)%Z && bool_decide (1 <= Civil.month c <= 12)%Z &&
   bool_decide (1 <= Civil.day c <= days_in (Civil.year c) (Civil.month c))%Z &&
   bool_decide (0 <= Civil.hour c < 24)%Z && bool_decide (0 <= Civil.minute c < 60)%Z &&
   bool_decide (0 <= Civil.second c < 60)%Z && bool_decide (0 <= Civil.nanos c < 1000000000)%Z).

(** The first instant of the year 10000. *)
Definition year_10000 : Z := (days_before_year 10000 * 86400000000000)%Z.

Example epoch : civil 62135596800000000000 = Civil.mk 1970 1 1 0 0 0 0.
Proof. vm_compute. reflexivity. Qed.
Example leap_day : civil 63844804805123456789 = Civil.mk 2024 2 29 12 0 5 123456789.
Proof. vm_compute. reflexivity. Qed.

(** * Lemmas *)

(** ** Fields *)

Lemma length_padded width n : String.length (padded width n) = width.
Proof.
  revert n. induction width as [|width IH]; intros n; [done|]. cbn [padded].
  rewrite length_append, IH. cbn. lia.
Qed.

Lemma digit_value_digit n : (0 <= n < 10)%Z -> digit_value (digit n) = Some n.
Proof.
  intros H. assert (Hn : n ∈ [0; 1; 2; 3; 4; 5; 6; 7; 8; 9]%Z).
  { rewrite !elem_of_cons. lia. }
  repeat (apply elem_of_cons in Hn as [->|Hn]; [reflexivity|]). by apply elem_of_nil in Hn.
Qed.

Lemma read_digits_app width1 width2 acc s :
  read_digits (width1 + width2) acc s =
  match read_digits width1 acc s with
  | Some (acc', s') => read_digits width2 acc' s'
  | None => None
  end.
Proof.
  revert acc s. induction width1 as [|w IH]; intros acc s; [done|]. cbn.
  destruct s as [|c s]; [done|]. destruct (digit_value c); [apply IH|done].
Qed.

(** A field is read back as the number it shows. *)
Lemma read_padded width n acc rest : (0 <= n < 10 ^ Z.of_nat width)%Z ->
  read_digits width acc (padded width n +:+ rest) = Some (acc * 10 ^ Z.of_nat width + n, rest)%Z.
Proof.
  revert n acc rest. induction width as [|width IH]; intros n acc rest Hn.
  { cbn in *. change ("" +:+ rest) with rest. do 2 f_equal. lia. }
  cbn [padded]. rewrite <- (assoc_L String.append).
  replace (S width) with (width + 1) by lia. rewrite read_digits_app.
  rewrite Nat2Z.inj_succ, Z.pow_succ_r in Hn by lia.
  rewrite IH by (pose proof (Z.div_lt_upper_bound n 10 (10 ^ Z.of_nat width)); 
                 pose proof (Z.div_pos n 10); lia).
  change (String (digit (n mod 10)) "" +:+ rest) with (String (digit (n mod 10)) rest).
  cbn [read_digits]. rewrite digit_value_digit by (apply Z.mod_pos_bound; lia).
  replace (Z.of_nat (width + 1)) with (Z.succ (Z.of_nat width)) by lia.
  rewrite Z.pow_succ_r by lia. do 2 f_equal. pose proof (Z.div_mod n 10). lia.
Qed.

(** The order of texts is that of their first parts, when these are of one length. *)
Lemma compare_app a b x y : String.length a = String.length b ->
  String.compare (a +:+ x) (b +:+ y) =
  match String.compare a b with Eq => String.compare x y | c => c end.
Proof.
  revert b. induction a as [|c a IH]; intros [|d b] Hl; try (exact eq_refl || discriminate Hl).
  change (String c a +:+ x) with (String c (a +:+ x)).
  change (String d b +:+ y) with (String d (b +:+ y)). cbn.
  destruct (Ascii.compare c d); [|done..]. apply IH. by injection Hl.
Qed.

Lemma compare_digit m n : (0 <= m < 10)%Z -> (0 <= n < 10)%Z ->
  String.compare (String (digit m) "") (String (digit n) "") = (m ?= n)%Z.
Proof.
  intros Hm Hn.
  assert (Hall : forall k, (0 <= k < 10)%Z -> k ∈ [0; 1; 2; 3; 4; 5; 6; 7; 8; 9]%Z)
    by (intros k Hk; rewrite !elem_of_cons; lia).
  apply Hall in Hm. apply Hall in Hn.
  repeat (apply elem_of_cons in Hm as [->|Hm]); [..|by apply elem_of_nil in Hm];
    repeat (apply elem_of_cons in Hn as [->|Hn]; [reflexivity|]); by apply elem_of_nil in Hn.
Qed.

(** Fields of one width are ordered as the numbers they show. *)
Lemma compare_padded width m n :
  (0 <= m < 10 ^ Z.of_nat width)%Z -> (0 <= n < 10 ^ Z.of_nat width)%Z ->
  String.compare (padded width m) (padded width n) = (m ?= n)%Z.
Proof.
  revert m n. induction width as [|width IH]; intros m n Hm Hn.
  { cbn in *. assert (m = n) as -> by lia. by rewrite Z.compare_refl. }
  rewrite Nat2Z.inj_succ, Z.pow_succ_r in Hm, Hn by lia.
  cbn [padded]. rewrite compare_app by (by rewrite !length_padded).
  pose proof (Z.div_mod m 10 ltac:(lia)) as Em. pose proof (Z.div_mod n 10 ltac:(lia)) as En.
  pose proof (Z.mod_pos_bound m 10 ltac:(lia)) as Bm.
  pose proof (Z.mod_pos_bound n 10 ltac:(lia)) as Bn.
  rewrite IH, compare_digit by lia.
  destruct (Z.compare_spec (m / 10) (n / 10)) as [E|E|E]; symmetry.
  - destruct (Z.compare_spec (m mod 10) (n mod 10)) as [E'|E'|E'];
      [apply Z.compare_eq_iff|apply Z.compare_lt_iff|apply Z.compare_gt_iff]; lia.
  - apply Z.compare_lt_iff. lia.
  - apply Z.compare_gt_iff. lia.
Qed.

(** ** Dates *)

(** [lia] with quotients and remainders by constants. *)
Ltac dlia := Z.div_mod_to_equations; lia.

Lemma year_of_spec n : (0 <= n)%Z ->
  (n = days_before_year (year_of n).1 + (year_of n).2 /\ 1 <= (year_of n).1 /\
   0 <= (year_of n).2 < 365 + (if leap (year_of n).1 then 1 else 0))%Z.
Proof.
  intros Hn. unfold year_of. cbv zeta. cbn [fst snd].
  set (a := (n / 146097)%Z). set (n1 := (n - 146097 * a)%Z).
  set (b := (n1 / 36524 - n1 / 36524 / 4)%Z). set (n2 := (n1 - 36524 * b)%Z).
  set (c := (n2 / 1461)%Z). set (n3 := (n2 - 1461 * c)%Z).
  set (e := (n3 / 365 - n3 / 365 / 4)%Z).
  assert (H1 : (0 <= a /\ 0 <= n1 < 146097)%Z) by (unfold n1, a; dlia).
  assert (Hb : (0 <= b <= 3 /\ 0 <= n2 /\ (n2 < 36524 \/ b = 3 /\ n2 <= 36524))%Z)
    by (clearbody n1; unfold n2, b; dlia).
  assert (Hc : (0 <= c <= 24 /\ 0 <= n3 < 1461 /\ (c < 24 \/ n3 < 1460 \/ b = 3))%Z)
    by (clearbody n2; unfold n3, c; dlia).
  assert (He : (0 <= e <= 3 /\ 0 <= n3 - 365 * e /\ (n3 - 365 * e < 365 \/ e = 3 /\ n3 - 365 * e <= 365))%Z)
    by (clearbody n3; unfold e; dlia).
  assert (Hs : n = (146097 * a + 36524 * b + 1461 * c + n3)%Z) by (unfold n3, n2, n1; lia).
  clearbody e c b a n3.
  set (y := (400 * a + 100 * b + 4 * c + e + 1)%Z).
  assert (Hy : days_before_year y = (146097 * a + 36524 * b + 1461 * c + 365 * e)%Z).
  { unfold days_before_year, y.
    replace (400 * a + 100 * b + 4 * c + e + 1 - 1)%Z with (400 * a + 100 * b + 4 * c + e)%Z by lia.
    dlia. }
  rewrite Hy. split; [lia|]. split; [unfold y; lia|]. split; [lia|].
  clear Hy. unfold leap, y. repeat case_bool_decide; cbn [andb orb negb]; dlia.
Qed.

Lemma month_of_spec lengths m n :
  Forall (fun x => 0 <= x)%Z lengths -> (0 <= n < sum lengths)%Z ->
  exists k length, lengths !! k = Some length /\ (month_of lengths m n).1 = (m + Z.of_nat k)%Z /\
    (1 <= (month_of lengths m n).2 <= length)%Z /\
    n = (sum (take k lengths) + ((month_of lengths m n).2 - 1))%Z.
Proof.
  intros Hl. revert m n. induction Hl as [|x lengths Hx _ IH]; intros m n Hn; [cbn in Hn; lia|].
  change (sum (x :: lengths)) with (x + sum lengths)%Z in Hn.
  cbn [month_of]. case_decide as Hlt.
  - exists 0, x. cbn. split_and!; [done|lia..].
  - destruct (IH (m + 1)%Z (n - x)%Z) as (k & length & Hk & E1 & E2 & E3); [lia|].
    exists (S k), length. change (sum (take (S k) (x :: lengths))) with (x + sum (take k lengths))%Z.
    split_and!; [done|rewrite E1; lia|lia..].
Qed.

Lemma sum_month_lengths y : sum (month_lengths y) = (365 + (if leap y then 1 else 0))%Z.
Proof. unfold month_lengths. by destruct (leap y). Qed.

Lemma month_lengths_nonneg y : Forall (fun x => 0 <= x)%Z (month_lengths y).
Proof. unfold month_lengths. destruct (leap y); repeat constructor; lia. Qed.

(** An instant's date and time of day are valid, and are those of no other. *)
Lemma civil_spec t : (0 <= t)%Z -> valid_civil (civil t) = true /\ instant_of (civil t) = t.
Proof.
  intros Ht. unfold civil. cbv zeta.
  assert (Hday : (0 <= t / 86400000000000)%Z) by (apply Z.div_pos; lia).
  pose proof (year_of_spec _ Hday) as (Ey & Hy & Hn).
  destruct (year_of (t / 86400000000000)) as [y n]. cbn [fst snd] in *.
  destruct (month_of_spec (month_lengths y) 1 n) as (k & length & Hk & Em & Hd & En).
  { apply month_lengths_nonneg. } { rewrite sum_month_lengths. lia. }
  destruct (month_of (month_lengths y) 1 n) as [m d]. cbn [fst snd] in *.
  assert (Hk12 : k < 12) by (apply lookup_lt_Some in Hk; exact Hk).
  set (rest := (t mod 86400000000000)%Z).
  assert (Hrest : (0 <= rest < 86400000000000)%Z) by (unfold rest; dlia).
  assert (Et : t = (t / 86400000000000 * 86400000000000 + rest)%Z) by (unfold rest; dlia).
  assert (Hin : days_in y m = length).
  { unfold days_in. rewrite Em. replace (Z.to_nat (1 + Z.of_nat k - 1)) with k by lia. by rewrite Hk. }
  assert (Hbefore : days_before_month y m = sum (take k (month_lengths y))).
  { unfold days_before_month. rewrite Em. by replace (Z.to_nat (1 + Z.of_nat k - 1)) with k by lia. }
  clearbody rest. split.
  - unfold valid_civil. cbn. rewrite Hin. repeat rewrite bool_decide_true; [done|dlia..].
  - unfold instant_of. cbn. rewrite Hbefore. rewrite Et at 1. 
    replace (days_before_year y + sum (take k (month_lengths y)) + (d - 1))%Z
      with (t / 86400000000000)%Z by lia.
    dlia.
Qed.

(** ** The order of dates is the order of instants *)

Lemma compare_lexicographic a a' x x' (c : comparison) :
  (a < a' -> x < x')%Z -> (a' < a -> x' < x)%Z -> (a = a' -> c = (x ?= x')%Z) ->
  match (a ?= a')%Z with Eq => c | r => r end = (x ?= x')%Z.
Proof.
  intros H1 H2 H3. destruct (Z.compare_spec a a') as [E|E|E]; [by apply H3|..]; symmetry.
  - apply Z.compare_lt_iff. auto.
  - apply Z.compare_gt_iff. auto.
Qed.

Definition compare_civil (a b : Civil.t) : comparison :=
  let next x y c := match (x ?= y)%Z with Eq => c | r => r end in
  next (Civil.year a) (Civil.year b)
  (next (Civil.month a) (Civil.month b)
  (next (Civil.day a) (Civil.day b)
  (next (Civil.hour a) (Civil.hour b)
  (next (Civil.minute a) (Civil.minute b)
  (next (Civil.second a) (Civil.second b) (Civil.nanos a ?= Civil.nanos b)%Z))))).

Lemma days_before_month_mono y m m' :
  (1 <= m)%Z -> (m < m' <= 12)%Z -> (days_before_month y m + days_in y m <= days_before_month y m')%Z.
Proof.
  intros Hm Hm'. unfold days_before_month, days_in, month_lengths.
  assert (Hc : forall k, (1 <= k <= 12)%Z -> k ∈ [1; 2; 3; 4; 5; 6; 7; 8; 9; 10; 11; 12]%Z)
    by (intros k Hk; rewrite !elem_of_cons; lia).
  pose proof (Hc m ltac:(lia)) as H1. pose proof (Hc m' ltac:(lia)) as H2. clear Hc.
  destruct (leap y);
    repeat (apply elem_of_cons in H1 as [->|H1]); try (by apply elem_of_nil in H1);
    repeat (apply elem_of_cons in H2 as [->|H2]); try (by apply elem_of_nil in H2);
    try lia; vm_compute; discriminate.
Qed.

Lemma days_in_year y m : (1 <= m <= 12)%Z ->
  (0 <= days_before_month y m)%Z /\
  (days_before_month y m + days_in y m <= 365 + (if leap y then 1 else 0))%Z.
Proof.
  intros Hm. unfold days_before_month, days_in, month_lengths.
  assert (H1 : m ∈ [1; 2; 3; 4; 5; 6; 7; 8; 9; 10; 11; 12]%Z) by (rewrite !elem_of_cons; lia).
  destruct (leap y);
    repeat (apply elem_of_cons in H1 as [->|H1]); try (by apply elem_of_nil in H1);
    split; vm_compute; discriminate.
Qed.

Lemma days_before_year_mono y y' : (1 <= y)%Z -> (y < y')%Z ->
  (days_before_year y + 365 + (if leap y then 1 else 0) <= days_before_year y')%Z.
Proof.
  intros Hy Hlt.
  assert (Hmono : (days_before_year (y + 1) <= days_before_year y')%Z) by (unfold days_before_year; dlia).
  enough (days_before_year (y + 1) = days_before_year y + 365 + (if leap y then 1 else 0))%Z by lia.
  clear Hmono Hlt. unfold days_before_year, leap. repeat case_bool_decide; cbn [andb orb negb]; dlia.
Qed.

Lemma valid_civil_bounds c : valid_civil c = true ->
  (1 <= Civil.year c /\ 1 <= Civil.month c <= 12 /\
   1 <= Civil.day c <= days_in (Civil.year c) (Civil.month c) /\ 0 <= Civil.hour c < 24 /\
   0 <= Civil.minute c < 60 /\ 0 <= Civil.second c < 60 /\ 0 <= Civil.nanos c < 1000000000)%Z.
Proof. unfold valid_civil. rewrite !andb_true_iff, !bool_decide_eq_true. tauto. Qed.

Lemma compare_civil_instant a b : valid_civil a = true -> valid_civil b = true ->
  compare_civil a b = (instant_of a ?= instant_of b)%Z.
Proof.
  intros (Ya & Ma & Da & Ha & Mia & Sa & Na)%valid_civil_bounds
    (Yb & Mb & Db & Hb & Mib & Sb & Nb)%valid_civil_bounds.
  pose proof (days_in_year (Civil.year a) _ Ma) as [La Ua].
  pose proof (days_in_year (Civil.year b) _ Mb) as [Lb Ub].
  pose proof (days_before_year_mono (Civil.year a) (Civil.year b) Ya) as Yab.
  pose proof (days_before_year_mono (Civil.year b) (Civil.year a) Yb) as Yba.
  pose proof (fun y => days_before_month_mono y (Civil.month a) (Civil.month b)) as Mab.
  pose proof (fun y => days_before_month_mono y (Civil.month b) (Civil.month a)) as Mba.
  destruct a as [ya ma da ha mia sa na], b as [yb mb db hb mib sb nb].
  unfold compare_civil, instant_of. cbn in *.
  set (Pa := days_before_year ya) in *. set (Pb := days_before_year yb) in *.
  set (A := days_before_month ya ma) in *. set (B := days_before_month yb mb) in *.
  apply compare_lexicographic; [lia|lia|intros <-].
  specialize (Mab ya). specialize (Mba ya). fold A in Mab, Mba. fold B in Mab, Mba.
  apply compare_lexicographic; [lia|lia|intros <-].
  repeat (apply compare_lexicographic; [lia|lia|intros <-]).
  unfold Pa, Pb, A, B. symmetry.
  destruct (Z.compare_spec na nb); [apply Z.compare_eq_iff|apply Z.compare_lt_iff|apply Z.compare_gt_iff]; lia.
Qed.

(** Distinct valid dates are distinct instants. *)
Lemma civil_instant c : valid_civil c = true -> (0 <= instant_of c)%Z -> civil (instant_of c) = c.
Proof.
  intros Hc Hpos. destruct (civil_spec (instant_of c) Hpos) as [Hv He].
  pose proof (compare_civil_instant (civil (instant_of c)) c Hv Hc) as Hcmp.
  rewrite He, Z.compare_refl in Hcmp. revert Hcmp. unfold compare_civil.
  destruct (civil (instant_of c)) as [y1 m1 d1 h1 i1 s1 n1], c as [y2 m2 d2 h2 i2 s2 n2]. cbn.
  repeat match goal with
    | |- match (?x ?= ?y)%Z with _ => _ end = _ -> _ =>
        destruct (Z.compare_spec x y) as [->|?|?]; [|discriminate|discriminate]
    end.
  by intros ->%Z.compare_eq_iff.
Qed.

Lemma days_before_year_le y y' : (y <= y')%Z -> (days_before_year y <= days_before_year y')%Z.
Proof. intros H. unfold days_before_year. dlia. Qed.

Lemma instant_year c : valid_civil c = true ->
  (days_before_year (Civil.year c) * 86400000000000 <= instant_of c)%Z.
Proof.
  intros (Hy & Hm & Hd & Hr)%valid_civil_bounds.
  pose proof (days_in_year (Civil.year c) _ Hm) as [Hl _]. unfold instant_of. lia.
Qed.

Lemma year_bound t : (0 <= t < year_10000)%Z -> (Civil.year (civil t) < 10000)%Z.
Proof.
  intros [Ht Hb]. destruct (civil_spec t Ht) as [Hv He].
  apply instant_year in Hv. rewrite He in Hv. revert Hv. generalize (Civil.year (civil t)).
  intros y Hv. apply Z.lt_nge. intros Hge%days_before_year_le.
  revert Hge Hb. unfold year_10000. generalize (days_before_year 10000). intros k. lia.
Qed.
