(* ===== verification/Sqlkit.v ===== *)
(** * Sqlkit: dialects, statements, and the values columns hold

    Models [sqlkit/dialect.go], [sqlkit/statement.go] and [sqlkit/codec.go]: what
    varies from one database to another, the writer of statements, and how values
    are stored in columns and read back, with the theorems that they are read
    back as they were and that stored instants are ordered as instants.

    What [time.Format] and [time.Parse] do with the layouts of the source is
    written out on [Calendar.v]; [strings.TrimSpace] is on ASCII.  A year past
    9999 is printed by its last four digits here. *)

From Stdlib Require Import Ascii Floats.SpecFloat.
From S2P Require Import Prelude Domain Errors Float64 Registry Calendar.

(** ** Dialects *)

(** The three of the package, and PostgreSQL behind [questionMarks], the wrapper of
    [store/gorm] that replaces [Placeholder]; around the others it changes
    nothing. *)
Inductive Dialect : Type := PostgreSQL | MySQL | SQLite | QuestionMarked.
#[global] Instance Dialect_eq_dec : EqDecision Dialect.
Proof. solve_decision. Defined.

Definition Dialects : list Dialect := [PostgreSQL; MySQL; SQLite].

Definition Name (d : Dialect) : string :=
  match d with PostgreSQL | QuestionMarked => "postgres" | MySQL => "mysql" | SQLite => "sqlite" end.

Fixpoint by_name (name : string) (l : list Dialect) : option Dialect :=
  match l with
  | [] => None
  | d :: l => if decide (Name d = name) then Some d else by_name name l
  end.
Definition DialectByName (name : string) : option Dialect := by_name name Dialects.

(** The position of an argument counts from one. *)
Definition Placeholder (d : Dialect) (position : nat) : string :=
  match d with PostgreSQL => "$" +:+ pretty position | _ => "?" end.

(** The loop of [quoteWith]. *)
Fixpoint quote_inside (identifier : string) (mark : Ascii.ascii) : string :=
  match identifier with
  | EmptyString => String mark ""
  | String c rest =>
      if decide (c = mark) then String mark (String c (quote_inside rest mark))
      else String c (quote_inside rest mark)
  end.
Definition quoteWith (identifier : string) (mark : Ascii.ascii) : string :=
  String mark (quote_inside identifier mark).

Definition double_mark : Ascii.ascii := Ascii.ascii_of_nat 34.
Definition back_mark : Ascii.ascii := Ascii.ascii_of_nat 96.

Definition Quote (d : Dialect) (identifier : string) : string :=
  quoteWith identifier (match d with MySQL => back_mark | _ => double_mark end).

Definition SupportsReturning (d : Dialect) : bool :=
  match d with MySQL => false | _ => true end.
Definition SupportsSkipLocked (d : Dialect) : bool :=
  match d with SQLite => false | _ => true end.
Definition IdentifierCollation (d : Dialect) : string :=
  match d with PostgreSQL | QuestionMarked => "C" | MySQL => "utf8mb4_0900_as_cs" | SQLite => "BINARY" end.
Definition TimestampColumnType (d : Dialect) : string :=
  match d with PostgreSQL | QuestionMarked => "timestamptz(6)" | MySQL => "DATETIME(6)" | SQLite => "TEXT" end.
Definition JSONColumnType (d : Dialect) : string :=
  match d with PostgreSQL | QuestionMarked => "text" | MySQL => "LONGTEXT" | SQLite => "TEXT" end.
Definition BooleanTrue (d : Dialect) : string :=
  match d with PostgreSQL | QuestionMarked => "TRUE" | _ => "1" end.

Definition onConflictSuffix (d : Dialect) (keyColumns updateColumns : list string) : string :=
  " ON CONFLICT (" +:+ String.concat ", " (Quote d <$> keyColumns) +:+ ") DO UPDATE SET " +:+
  String.concat ", " ((fun column => Quote d column +:+ " = EXCLUDED." +:+ Quote d column)
                        <$> updateColumns).

Definition UpsertSuffix (d : Dialect) (keyColumns updateColumns : list string) : string :=
  match d with
  | MySQL =>
      " ON DUPLICATE KEY UPDATE " +:+
      String.concat ", " ((fun column => Quote d column +:+ " = VALUES(" +:+ Quote d column +:+ ")")
                            <$> updateColumns)
  | _ => onConflictSuffix d keyColumns updateColumns
  end.

(** ** Values *)

(** What a statement binds: nil, text, an [int64], or a native timestamp. *)
Inductive Value : Type :=
| VNil
| VString (s : string)
| VInt (z : Z)
| VTime (t : Time).
#[global] Instance Value_eq_dec : EqDecision Value.
Proof. solve_decision. Defined.

(** What a driver hands back for a column; [RawOther] is any other Go type, named
    as the verb [%T] names it. *)
Inductive Raw : Type :=
| RawNil
| RawTime (t : Time)
| RawString (s : string)
| RawBytes (s : string)
| RawInt64 (z : Z)
| RawInt32 (z : Z)
| RawInt (z : Z)
| RawFloat64 (f : spec_float)
| RawOther (type : string).

Definition type_of (v : Raw) : string :=
  match v with
  | RawNil => "<nil>" | RawTime _ => "time.Time" | RawString _ => "string"
  | RawBytes _ => "[]uint8" | RawInt64 _ => "int64" | RawInt32 _ => "int32" | RawInt _ => "int"
  | RawFloat64 _ => "float64" | RawOther type => type
  end.

(** An error of the package: its text, matching no sentinel. *)
Definition plain (text : string) : error := ExternalError text [].

(** ** Statements *)

Module Statement.
Record t : Type := mk { SQL : string; Args : list Value }.
Definition zero : t := mk "" [].
Definition IsZero (s : t) : bool := bool_decide (SQL s = "").
End Statement.

(** [Writer]: the text written and the arguments bound. *)
Module Writer.
Record t : Type := mk { dialect : Dialect; sql : string; args : list Value }.
#[global] Instance eta : Eta t := fun x => mk (dialect x) (sql x) (args x).
End Writer.

Definition NewWriter (d : Dialect) : Writer.t := Writer.mk d "" [].

Definition Write (parts : list string) (w : Writer.t) : Writer.t :=
  for_each (fun part w => w <| Writer.sql := Writer.sql w +:+ part |>) parts w.

Definition Bind (value : Value) (w : Writer.t) : string * Writer.t :=
  let w := w <| Writer.args := Writer.args w ++ [value] |> in
  (Placeholder (Writer.dialect w) (length (Writer.args w)), w).

(** The loop of [BindAll]. *)
Fixpoint bind_each (values : list Value) (w : Writer.t) : list string * Writer.t :=
  match values with
  | [] => ([], w)
  | value :: rest =>
      let '(marker, w) := Bind value w in
      let '(markers, w) := bind_each rest w in
      (marker :: markers, w)
  end.

Definition BindAll (values : list Value) (w : Writer.t) : string * Writer.t :=
  let '(markers, w) := bind_each values w in (String.concat ", " markers, w).

Definition Done (w : Writer.t) : Statement.t := Statement.mk (Writer.sql w) (Writer.args w).

(** ** Instants as text *)

(** The date and the time of day to the second, with what stands between them. *)
Definition date_text (separator : ascii) (c : Civil.t) : string :=
  padded 4 (Civil.year c) +:+ "-" +:+ padded 2 (Civil.month c) +:+ "-" +:+
  padded 2 (Civil.day c) +:+ String separator "" +:+ padded 2 (Civil.hour c) +:+ ":" +:+
  padded 2 (Civil.minute c) +:+ ":" +:+ padded 2 (Civil.second c).

(** [t.Format(TimestampLayout)], of an instant in UTC. *)
Definition format_timestamp (t : Time) : string :=
  date_text "T" (civil t) +:+ "." +:+ padded 6 (Civil.nanos (civil t) / 1000) +:+ "Z".

Inductive Fraction : Type :=
| ExactlySix              (* .000000 *)
| UpToNine                (* .999999999 *)
| Unmentioned.            (* accepted all the same *)

Inductive Zone : Type :=
| LiteralZ                (* Z *)
| ZoneOrZ                 (* Z07:00 *)
| ZoneOffset              (* -07:00 *)
| NoZone.

(** A layout: what separates the date from the time, and what follows the
    seconds. *)
Module Layout.
Record t : Type := mk { separator : Ascii.ascii; fraction : Fraction; zone : Zone }.
End Layout.

Definition TimestampLayout : Layout.t := Layout.mk "T"%char ExactlySix LiteralZ.

Definition timestampLayouts : list Layout.t :=
  [TimestampLayout;
   Layout.mk "T"%char UpToNine ZoneOrZ;
   Layout.mk " "%char UpToNine ZoneOffset;
   Layout.mk " "%char UpToNine NoZone;
   Layout.mk " "%char Unmentioned NoZone].

Fixpoint cutspace (s : string) : string :=
  match s with
  | String c rest => if decide (c = " "%char) then cutspace rest else s
  | EmptyString => ""
  end.

(** [skip] of one character of the layout: a space stands for any run of them,
    and for the end of the text. *)
Definition literal (c : Ascii.ascii) (s : string) : option string :=
  if decide (c = " "%char) then
    match s with
    | String d _ => if decide (d = c) then Some (cutspace s) else None
    | EmptyString => Some ""
    end
  else
    match s with
    | String d rest => if decide (d = c) then Some rest else None
    | EmptyString => None
    end.

(** [getnum] of an hour: two digits, or one that no digit follows. *)
Definition read_hour (s : string) : option (Z * string) :=
  match read_digits 2 0 s with
  | Some r => Some r
  | None => read_digits 1 0 s
  end.

(** The digits at the front of a text, and what follows. *)
Fixpoint span_digits (s : string) : string * string :=
  match s with
  | String c rest =>
      match digit_value c with
      | Some _ => let '(digits, rest) := span_digits rest in (String c digits, rest)
      | None => ("", s)
      end
  | EmptyString => ("", "")
  end.

(** The nanoseconds of the digits after a decimal point, at most nine of them. *)
Definition nanos_of (digits : string) : Z :=
  let kept := String.substring 0 9 digits in
  match read_digits (String.length kept) 0 kept with
  | Some (v, _) => v * 10 ^ (9 - Z.of_nat (String.length kept))
  | None => 0
  end%Z.

Definition is_point (c : Ascii.ascii) : bool := bool_decide (c = "."%char) || bool_decide (c = ","%char).

(** A fraction that may be left out. *)
Definition read_fraction (s : string) : Z * string :=
  match s with
  | String c rest =>
      if is_point c then
        match span_digits rest with
        | (EmptyString, _) => (0%Z, s)
        | (digits, rest) => (nanos_of digits, rest)
        end
      else (0%Z, s)
  | EmptyString => (0%Z, s)
  end.

Definition read_nanos (f : Fraction) (s : string) : option (Z * string) :=
  match f with
  | ExactlySix =>
      match s with
      | String c rest =>
          if is_point c then
            match read_digits 6 0 rest with
            | Some (micros, rest) => Some (micros * 1000, rest)%Z
            | None => None
            end
          else None
      | EmptyString => None
      end
  | UpToNine | Unmentioned => Some (read_fraction s)
  end.

(** The seconds east of UTC. *)
Definition read_offset (s : string) : option (Z * string) :=
  match s with
  | String sign rest =>
      if decide (sign = "+"%char \/ sign = "-"%char) then
        match read_digits 2 0 rest with
        | None => None
        | Some (hours, rest) =>
            match literal ":"%char rest with
            | None => None
            | Some rest =>
                match read_digits 2 0 rest with
                | None => None
                | Some (minutes, rest) =>
                    if decide (24 < hours \/ 60 < minutes)%Z then None
                    else
                      let seconds := ((hours * 60 + minutes) * 60)%Z in
                      Some (if decide (sign = "-"%char) then - seconds else seconds, rest)%Z
                end
            end
        end
      else None
  | EmptyString => None
  end.

Definition read_zone (z : Zone) (s : string) : option (Z * string) :=
  match z with
  | LiteralZ => (fun rest => (0%Z, rest)) <$> literal "Z"%char s
  | ZoneOrZ =>
      match literal "Z"%char s with Some rest => Some (0%Z, rest) | None => read_offset s end
  | ZoneOffset => read_offset s
  | NoZone => Some (0%Z, s)
  end.

(** The ranges [time.Parse] checks: of a date of any year, the calendar repeating
    every 400 years. *)
Definition in_range (c : Civil.t) : bool :=
  valid_civil (Civil.mk (Civil.year c + 400) (Civil.month c) (Civil.day c) (Civil.hour c)
    (Civil.minute c) (Civil.second c) (Civil.nanos c)).

(** [time.Parse], in the order the layout is read. *)
Definition time_parse (layout : Layout.t) (s : string) : option Time :=
  '(year, s) ← read_digits 4 0 s;
  s ← literal "-"%char s;
  '(month, s) ← read_digits 2 0 s;
  s ← literal "-"%char s;
  '(day, s) ← read_digits 2 0 s;
  s ← literal (Layout.separator layout) s;
  '(hour, s) ← read_hour s;
  s ← literal ":"%char s;
  '(minute, s) ← read_digits 2 0 s;
  s ← literal ":"%char s;
  '(second, s) ← read_digits 2 0 s;
  '(nanos, s) ← read_nanos (Layout.fraction layout) s;
  '(offset, s) ← read_zone (Layout.zone layout) s;
  let c := Civil.mk year month day hour minute second nanos in
  if bool_decide (s = "") && in_range c
  then Some (instant_of c - offset * 1000000000)%Z else None.

(** ** Codecs *)

(** [strings.TrimSpace], on the white space of ASCII. *)
Fixpoint trim_left (s : string) : string :=
  match s with
  | String c rest => if is_space c then trim_left rest else s
  | EmptyString => ""
  end.
Fixpoint trim_right (s : string) : string :=
  match s with
  | String c rest => if all_space s then "" else String c (trim_right rest)
  | EmptyString => ""
  end.
Definition TrimSpace (s : string) : string := trim_right (trim_left s).

Definition EncodeTime (d : Dialect) (instant : option Time) : Value :=
  match instant with
  | None => VNil
  | Some t =>
      if decide (t = 0%Z) then VNil
      else if decide (TimestampColumnType d = "TEXT")
      then VString (format_timestamp (NormalizeTime t))
      else VTime (NormalizeTime t)
  end.

(** The loop of [parseTimestamp]. *)
Fixpoint first_layout (layouts : list Layout.t) (s : string) : option Time :=
  match layouts with
  | [] => None
  | layout :: rest =>
      match time_parse layout s with
      | Some t => Some (NormalizeTime t)
      | None => first_layout rest s
      end
  end.

Definition parseTimestamp (value : string) : result error Time :=
  let trimmed := TrimSpace value in
  if decide (trimmed = "") then Ok 0%Z
  else
    match first_layout timestampLayouts trimmed with
    | Some t => Ok t
    | None => Err (plain ("sqlkit: cannot read " +:+ quote value +:+ " as a timestamp"))
    end.

Definition cannot_read (value : Raw) (what : string) : error :=
  plain ("sqlkit: cannot read " +:+ type_of value +:+ " as " +:+ what).

Definition DecodeTime (value : Raw) : result error Time :=
  match value with
  | RawNil => Ok 0%Z
  | RawTime t => Ok (NormalizeTime t)
  | RawString s | RawBytes s => parseTimestamp s
  | _ => Err (cannot_read value "a timestamp")
  end.

Definition EncodeRaw (payload : RawMessage) : Value :=
  match payload with
  | None | Some EmptyString => VNil
  | Some s => VString s
  end.

Definition DecodeJSON (value : Raw) : result error RawMessage :=
  match value with
  | RawNil => Ok None
  | RawString s | RawBytes s => if decide (s = "") then Ok None else Ok (Some s)
  | _ => Err (cannot_read value "JSON")
  end.

Definition DecodeString (value : Raw) : result error string :=
  match value with
  | RawNil => Ok ""
  | RawString s | RawBytes s => Ok s
  | _ => Err (cannot_read value "text")
  end.

(** What [fmt.Sscanf] reads by the verb [%d] from a text that is not blank: a sign
    that may be missing, and digits, which must not be; the rest is left.  Digits
    may be set apart by underscores, which [strconv.ParseInt] then refuses. *)
Fixpoint span_number (s : string) : string * string :=
  match s with
  | String c rest =>
      if decide (digit_value c <> None \/ c = "_"%char)
      then let '(digits, rest) := span_number rest in (String c digits, rest)
      else ("", s)
  | EmptyString => ("", "")
  end.

Definition sign_of (s : string) : string * string :=
  match s with
  | String c rest =>
      if decide (c = "+"%char \/ c = "-"%char) then (String c "", rest) else ("", s)
  | EmptyString => ("", "")
  end.

(** [strconv.Atoi], and [strconv.ParseInt] in base ten and 64 bits: a sign that may be missing, then decimal digits, within the
    range of [int]. *)
Definition Atoi (s : string) : option Z :=
  let '(sign, digits) := sign_of s in
  if decide (digits = "") then None
  else
    match read_digits (String.length digits) 0 digits with
    | None => None
    | Some (n, _) =>
        let n := (if decide (sign = "-") then - n else n)%Z in
        if decide (- 2 ^ 63 <= n <= max_int64)%Z then Some n else None
    end.

Definition ParseInt_error (token why : string) : string :=
  "strconv.ParseInt: parsing " +:+ quote token +:+ ": " +:+ why.

Definition scan_int (s : string) : Z + string :=
  let '(sign, rest) := sign_of s in
  let '(digits, rest') := span_number rest in
  if decide (digits = "") then
    inr (if decide (rest = "") then "unexpected EOF" else "expected integer")
  else
    match read_digits (String.length digits) 0 digits with
    | None => inr (ParseInt_error (sign +:+ digits) "invalid syntax")
    | Some (n, _) =>
        let n := (if decide (sign = "-") then - n else n)%Z in
        if decide (- 2 ^ 63 <= n <= max_int64)%Z then inl n
        else inr (ParseInt_error (sign +:+ digits) "value out of range")
    end.

Definition parseInt (value : string) : result error Z :=
  let trimmed := TrimSpace value in
  if decide (trimmed = "") then Ok 0%Z
  else
    match scan_int trimmed with
    | inl n => Ok n
    | inr why => Err (plain ("sqlkit: cannot read " +:+ quote value +:+ " as an integer: " +:+ why))
    end.

(** A float with no [int64] converts to the least one, as on amd64; the language
    leaves it open. *)
Definition int64_of (f : spec_float) : Z :=
  match float64_trunc f with
  | Some n => if decide (- 2 ^ 63 <= n <= max_int64)%Z then n else (- 2 ^ 63)%Z
  | None => (- 2 ^ 63)%Z
  end.

Definition DecodeInt (value : Raw) : result error Z :=
  match value with
  | RawNil => Ok 0%Z
  | RawInt64 n | RawInt32 n | RawInt n => Ok n
  | RawFloat64 f => Ok (int64_of f)
  | RawString s | RawBytes s => parseInt s
  | _ => Err (cannot_read value "an integer")
  end.

(** ** What drivers hand back

    What the drivers of the three databases document of a value that was bound: a
    native timestamp comes back as one, or as text where MySQL's is not asked to
    parse it; text comes back as text or bytes; an integer as one, or in
    decimal. *)

Definition mysql_text (t : Time) : string :=
  date_text " " (civil t) +:+ "." +:+ padded 6 (Civil.nanos (civil t) / 1000).

Inductive HandsBack : Dialect -> Value -> Raw -> Prop :=
| back_null d : HandsBack d VNil RawNil
| back_string d s : HandsBack d (VString s) (RawString s)
| back_bytes d s : HandsBack d (VString s) (RawBytes s)
| back_int64 d z : HandsBack d (VInt z) (RawInt64 z)
| back_decimal d z : HandsBack d (VInt z) (RawBytes (pretty z))
| back_time d t : HandsBack d (VTime t) (RawTime t)
| back_time_text t : HandsBack MySQL (VTime t) (RawBytes (mysql_text t)).

(** * Lemmas *)

(** ** White space *)

Lemma all_space_app a b : all_space (a +:+ b) = all_space a && all_space b.
Proof.
  induction a as [|c a IH]; [done|].
  change (is_space c && all_space (a +:+ b) = is_space c && all_space a && all_space b).
  by rewrite IH, andb_assoc.
Qed.

Lemma trim_right_last s c : is_space c = false ->
  trim_right (s +:+ String c "") = s +:+ String c "".
Proof.
  intros Hc. induction s as [|d s IH].
  { change ("" +:+ String c "") with (String c ""). cbn. by rewrite Hc. }
  change (String d s +:+ String c "") with (String d (s +:+ String c "")).
  cbn [trim_right all_space]. rewrite all_space_app. cbn [all_space]. rewrite Hc, !andb_false_r.
  by rewrite IH.
Qed.

Lemma trim_left_first c s : is_space c = false -> trim_left (String c s) = String c s.
Proof. intros Hc. cbn. by rewrite Hc. Qed.

Lemma is_space_digit c n : digit_value c = Some n -> is_space c = false.
Proof.
  unfold digit_value, is_space. case_decide as Hn; [|done]. intros _.
  apply bool_decide_eq_false. unfold nat_of_ascii. intros Hin.
  repeat (apply elem_of_cons in Hin as [Hin|Hin]; [lia|]). by apply elem_of_nil in Hin.
Qed.

(** ** Texts of instants *)

Lemma literal_cons c s : c <> " "%char -> literal c (String c s) = Some s.
Proof. intros Hc. unfold literal. by rewrite decide_False, decide_True by done. Qed.

Lemma literal_other c d s : d <> c -> literal c (String d s) = None.
Proof. intros Hd. unfold literal. case_decide; by rewrite decide_False by done. Qed.

Lemma padded_first width n : exists c s k,
  padded (S width) n = String c s /\ digit_value c = Some k.
Proof.
  revert n. induction width as [|width IH]; intros n.
  - exists (digit (n mod 10)), "", (n mod 10)%Z. split; [done|].
    apply digit_value_digit, Z.mod_pos_bound. lia.
  - destruct (IH (n / 10)%Z) as (c & s & k & E & Hk).
    exists c, (s +:+ String (digit (n mod 10)) ""), k. split; [|done].
    change (padded (S (S width)) n) with (padded (S width) (n / 10) +:+ String (digit (n mod 10)) "").
    by rewrite E.
Qed.

Lemma literal_padded c width n rest : digit_value c = None ->
  literal c (padded (S width) n +:+ rest) = None.
Proof.
  intros Hc. destruct (padded_first width n) as (d & s & k & -> & Hd).
  change (String d s +:+ rest) with (String d (s +:+ rest)). apply literal_other. congruence.
Qed.

Lemma cutspace_padded width n rest :
  cutspace (padded (S width) n +:+ rest) = padded (S width) n +:+ rest.
Proof.
  destruct (padded_first width n) as (d & s & k & -> & Hd).
  change (String d s +:+ rest) with (String d (s +:+ rest)). cbn [cutspace].
  rewrite decide_False; [done|]. intros ->. discriminate Hd.
Qed.

(** A space or a letter between the date and the time is read by its own layouts. *)
Lemma literal_separator c width n rest :
  literal c (String c (padded (S width) n +:+ rest)) = Some (padded (S width) n +:+ rest).
Proof.
  destruct (decide (c = " "%char)) as [->|Hc]; [|by apply literal_cons].
  unfold literal. rewrite !decide_True by done. f_equal.
  change (cutspace (String " " (padded (S width) n +:+ rest)))
    with (cutspace (padded (S width) n +:+ rest)). apply cutspace_padded.
Qed.

Lemma in_range_valid c : valid_civil c = true -> in_range c = true.
Proof.
  intros (Hy & Hm & Hd & Hr)%valid_civil_bounds.
  unfold in_range, valid_civil. cbn [Civil.year Civil.month Civil.day Civil.hour Civil.minute
    Civil.second Civil.nanos].
  assert (Hleap : days_in (Civil.year c + 400) (Civil.month c) = days_in (Civil.year c) (Civil.month c)).
  { unfold days_in, month_lengths. enough (leap (Civil.year c + 400) = leap (Civil.year c)) as -> by done.
    unfold leap. f_equal; [|f_equal; [f_equal|]]; apply bool_decide_ext; dlia. }
  rewrite Hleap. repeat rewrite bool_decide_true; [done|lia..].
Qed.

Definition with_nanos (c : Civil.t) (nanos : Z) : Civil.t :=
  Civil.mk (Civil.year c) (Civil.month c) (Civil.day c) (Civil.hour c) (Civil.minute c)
    (Civil.second c) nanos.

Lemma instant_with_nanos c n :
  (instant_of (with_nanos c n) = instant_of c - Civil.nanos c + n)%Z.
Proof.
  unfold instant_of, with_nanos.
  cbn [Civil.year Civil.month Civil.day Civil.hour Civil.minute Civil.second Civil.nanos]. lia.
Qed.

Lemma instant_mod c : (instant_of c mod 1000 = Civil.nanos c mod 1000)%Z.
Proof. unfold instant_of. dlia. Qed.

(** What the layout still has to read after the seconds. *)
Definition read_tail (layout : Layout.t) (c : Civil.t) (s : string) : option Time :=
  '(nanos, s) ← read_nanos (Layout.fraction layout) s;
  '(offset, s) ← read_zone (Layout.zone layout) s;
  let c := with_nanos c nanos in
  if bool_decide (s = "") && in_range c
  then Some (instant_of c - offset * 1000000000)%Z else None.

Lemma date_text_app sep c rest :
  date_text sep c +:+ rest =
  padded 4 (Civil.year c) +:+ String "-" (padded 2 (Civil.month c) +:+ String "-"
  (padded 2 (Civil.day c) +:+ String sep (padded 2 (Civil.hour c) +:+ String ":"
  (padded 2 (Civil.minute c) +:+ String ":" (padded 2 (Civil.second c) +:+ rest))))).
Proof. unfold date_text. by rewrite <- !(assoc_L String.append). Qed.

Section printed.
Context (c : Civil.t) (Hc : valid_civil c = true) (Hy : (Civil.year c < 10000)%Z).

Lemma field_bounds :
  (0 <= Civil.year c < 10 ^ Z.of_nat 4 /\ 0 <= Civil.month c < 10 ^ Z.of_nat 2 /\
   0 <= Civil.day c < 10 ^ Z.of_nat 2 /\ 0 <= Civil.hour c < 10 ^ Z.of_nat 2 /\
   0 <= Civil.minute c < 10 ^ Z.of_nat 2 /\ 0 <= Civil.second c < 10 ^ Z.of_nat 2)%Z.
Proof.
  apply valid_civil_bounds in Hc as (Hy' & Hm & Hd & Hr).
  assert (Hdays : (days_in (Civil.year c) (Civil.month c) <= 31)%Z).
  { unfold days_in, month_lengths. assert (H1 : Civil.month c ∈ [1; 2; 3; 4; 5; 6; 7; 8; 9; 10; 11; 12]%Z)
      by (rewrite !elem_of_cons; lia). destruct (leap _);
      repeat (apply elem_of_cons in H1 as [->|H1]); try (by apply elem_of_nil in H1);
      vm_compute; discriminate. }
  cbn. lia.
Qed.

Lemma time_parse_date layout rest :
  time_parse layout (date_text (Layout.separator layout) c +:+ rest) = read_tail layout c rest.
Proof.
  destruct field_bounds as (By & Bm & Bd & Bh & Bi & Bs).
  unfold time_parse, read_tail. rewrite date_text_app.
  repeat (first [rewrite read_padded by done | rewrite literal_cons by done
                |rewrite literal_separator]; cbn [mbind option_bind]).
  unfold read_hour. rewrite read_padded by done. cbn [mbind option_bind].
  repeat (first [rewrite read_padded by done | rewrite literal_cons by done]; cbn [mbind option_bind]).
  by rewrite !Z.mul_0_l, !Z.add_0_l.
Qed.

Lemma time_parse_other layout sep rest : sep <> Layout.separator layout ->
  time_parse layout (date_text sep c +:+ rest) = None.
Proof.
  intros Hs. destruct field_bounds as (By & Bm & Bd & _). unfold time_parse. rewrite date_text_app.
  repeat (first [rewrite read_padded by done | rewrite literal_cons by done]; cbn [mbind option_bind]).
  by rewrite literal_other.
Qed.
End printed.

(** ** Reading back *)

(** The date to the microsecond. *)
Lemma read_tail_micros c layout s : valid_civil c = true ->
  read_nanos (Layout.fraction layout) s = Some (Civil.nanos c / 1000 * 1000, "Z")%Z /\
    Layout.zone layout = LiteralZ \/
  read_nanos (Layout.fraction layout) s = Some (Civil.nanos c / 1000 * 1000, "")%Z /\
    Layout.zone layout = NoZone ->
  read_tail layout c s = Some (NormalizeTime (instant_of c)).
Proof.
  intros Hv Hs. unfold read_tail.
  assert (Hr : in_range (with_nanos c (Civil.nanos c / 1000 * 1000)) = true).
  { apply in_range_valid. apply valid_civil_bounds in Hv as (Hy & Hm & Hd & Hh & Hmi & Hse & Hn).
    unfold valid_civil, with_nanos. cbn [Civil.year Civil.month
      Civil.day Civil.hour Civil.minute Civil.second Civil.nanos].
    rewrite !bool_decide_true by done. cbn [andb]. apply bool_decide_eq_true. clear -Hn. dlia. }
  assert (He : (instant_of (with_nanos c (Civil.nanos c / 1000 * 1000)) = NormalizeTime (instant_of c))%Z).
  { rewrite instant_with_nanos. unfold NormalizeTime, Microsecond. rewrite instant_mod.
    generalize (Civil.nanos c). intros n. clear. dlia. }
  destruct Hs as [ [-> ->] | [-> ->] ]; cbn [mbind option_bind read_zone].
  - rewrite literal_cons by done. cbn [fmap option_fmap option_map mbind option_bind].
    rewrite Hr, He. cbn [andb]. by rewrite Z.mul_0_l, Z.sub_0_r.
  - rewrite Hr, He. cbn [andb]. by rewrite Z.mul_0_l, Z.sub_0_r.
Qed.

Lemma micros_bounds c : valid_civil c = true ->
  (0 <= Civil.nanos c / 1000 < 10 ^ Z.of_nat 6)%Z.
Proof.
  intros (_ & _ & _ & _ & _ & _ & Hn)%valid_civil_bounds.
  change (10 ^ Z.of_nat 6)%Z with 1000000%Z. revert Hn. generalize (Civil.nanos c). intros n Hn. dlia.
Qed.

Lemma civil_valid t : (0 <= t < year_10000)%Z ->
  valid_civil (civil t) = true /\ (Civil.year (civil t) < 10000)%Z /\ instant_of (civil t) = t.
Proof.
  intros Ht. destruct (civil_spec t (proj1 Ht)) as [Hv He].
  split; [exact Hv|]. split; [by apply year_bound|exact He].
Qed.

Lemma span_digits_padded width n :
  (0 <= n < 10 ^ Z.of_nat width)%Z -> span_digits (padded width n) = (padded width n, "").
Proof.
  intros _. revert n. assert (Hsnoc : forall s c v, digit_value c = Some v ->
    span_digits s = (s, "") -> span_digits (s +:+ String c "") = (s +:+ String c "", "")).
  { intros s c v Hc. induction s as [|d s IH].
    - intros _. change ("" +:+ String c "") with (String c ""). cbn. by rewrite Hc.
    - change (String d s +:+ String c "") with (String d (s +:+ String c "")). cbn [span_digits].
      destruct (digit_value d); [|discriminate]. destruct (span_digits s) as [x y].
      intros [= -> ->]. by rewrite IH. }
  induction width as [|width IH]; intros n; [done|].
  cbn [padded]. eapply Hsnoc; [|apply IH].
  apply digit_value_digit, Z.mod_pos_bound. lia.
Qed.

Lemma substring_all s n : String.length s <= n -> String.substring 0 n s = s.
Proof.
  revert n. induction s as [|c s IH]; intros [|n] Hn; cbn in *; [done..|lia|]. rewrite IH; [done|lia].
Qed.

Lemma read_nanos_six n : (0 <= n < 10 ^ Z.of_nat 6)%Z ->
  read_nanos ExactlySix (String "." (padded 6 n +:+ "Z")) = Some (n * 1000, "Z")%Z /\
  read_nanos UpToNine (String "." (padded 6 n)) = Some (n * 1000, "")%Z.
Proof.
  intros Hn. split.
  - cbn [read_nanos]. by rewrite read_padded.
  - cbn [read_nanos read_fraction]. rewrite span_digits_padded by done.
    assert (Hl : String.length (padded 6 n) = 6) by apply length_padded.
    assert (Hr : nanos_of (padded 6 n) = (n * 1000)%Z).
    { unfold nanos_of. rewrite substring_all by (rewrite Hl; lia). rewrite Hl.
      pose proof (read_padded 6 n 0 "" Hn) as Hr. rewrite (right_id_L "" String.append) in Hr.
      by rewrite Hr. }
    destruct (padded 6 n) as [|c s]; [discriminate Hl|]. cbn. by rewrite Hr.
Qed.

Lemma TrimSpace_text n s c : is_space c = false ->
  TrimSpace (padded 4 n +:+ s +:+ String c "") = padded 4 n +:+ s +:+ String c "".
Proof.
  intros Hc. unfold TrimSpace. destruct (padded_first 3 n) as (d & p & k & -> & Hd).
  change (String d p +:+ s +:+ String c "") with (String d (p +:+ s +:+ String c "")).
  rewrite trim_left_first by (by eapply is_space_digit).
  change (String d (p +:+ s +:+ String c "")) with (String d p +:+ s +:+ String c "").
  by rewrite (assoc_L String.append), trim_right_last.
Qed.

Lemma parse_text n s c t : is_space c = false ->
  first_layout timestampLayouts (padded 4 n +:+ s +:+ String c "") = Some t ->
  parseTimestamp (padded 4 n +:+ s +:+ String c "") = Ok t.
Proof.
  intros Hc Ht. unfold parseTimestamp. rewrite TrimSpace_text by done.
  rewrite decide_False; [by rewrite Ht|].
  destruct (padded_first 3 n) as (d & p & k & -> & Hd). discriminate.
Qed.

Section read_back.
Context (c : Civil.t) (Hc : valid_civil c = true) (Hy : (Civil.year c < 10000)%Z).

Lemma parse_stored :
  parseTimestamp (date_text "T" c +:+ "." +:+ padded 6 (Civil.nanos c / 1000) +:+ "Z") =
  Ok (NormalizeTime (instant_of c)).
Proof.
  destruct (read_nanos_six _ (micros_bounds c Hc)) as [Hn _].
  assert (Hp : first_layout timestampLayouts
    (date_text "T" c +:+ "." +:+ padded 6 (Civil.nanos c / 1000) +:+ "Z") =
    Some (NormalizeTime (instant_of c))).
  { cbn [first_layout timestampLayouts].
    rewrite (time_parse_date c Hc Hy TimestampLayout).
    rewrite (read_tail_micros c TimestampLayout) by (by first [left | done]).
    by rewrite NormalizeTime_idemp. }
  revert Hp. unfold date_text. rewrite <- !(assoc_L String.append). intros Hp.
  rewrite !(assoc_L String.append "-"), !(assoc_L String.append) in Hp |- *.
  rewrite <- !(assoc_L String.append (padded 4 _)) in Hp |- *. by apply parse_text.
Qed.

Lemma parse_mysql :
  parseTimestamp (date_text " " c +:+ "." +:+ padded 6 (Civil.nanos c / 1000)) =
  Ok (NormalizeTime (instant_of c)).
Proof.
  destruct (read_nanos_six _ (micros_bounds c Hc)) as [_ Hn].
  set (m := (Civil.nanos c / 1000)%Z) in *.
  assert (Hp : first_layout timestampLayouts (date_text " " c +:+ "." +:+ padded 6 m) =
    Some (NormalizeTime (instant_of c))).
  { cbn [first_layout timestampLayouts].
    rewrite !(time_parse_other c Hc Hy) by discriminate.
    rewrite (time_parse_date c Hc Hy (Layout.mk " " UpToNine ZoneOffset)).
    rewrite (time_parse_date c Hc Hy (Layout.mk " " UpToNine NoZone)).
    unfold read_tail at 1. cbn [Layout.fraction]. change ("." +:+ padded 6 m) with (String "." (padded 6 m)).
    rewrite Hn. cbn [mbind option_bind Layout.zone read_zone read_offset].
    rewrite (read_tail_micros c (Layout.mk " " UpToNine NoZone)) by (by first [right | done]).
    by rewrite NormalizeTime_idemp. }
  revert Hp. change (padded 6 m) with (padded 5 (m / 10) +:+ String (digit (m mod 10)) "").
  unfold date_text. rewrite <- !(assoc_L String.append). intros Hp.
  rewrite !(assoc_L String.append "-"), !(assoc_L String.append) in Hp |- *.
  rewrite <- !(assoc_L String.append (padded 4 _)) in Hp |- *. apply parse_text; [|done].
  eapply is_space_digit, digit_value_digit, Z.mod_pos_bound. lia.
Qed.
End read_back.

(** ** Decimal integers *)

Lemma span_number_digits s : (forall c, c ∈ String.list_ascii_of_string s -> digit_value c <> None) ->
  span_number s = (s, "").
Proof.
  induction s as [|c s IH]; intros Hs; [done|]. cbn [span_number].
  rewrite decide_True by (left; apply Hs; cbn; left). rewrite IH; [done|].
  intros d Hd. apply Hs. cbn. by right.
Qed.

(** The digits [pretty] prints, before what it had printed. *)
Lemma pretty_digits (x : N) : exists w,
  (forall s, pretty_N_go x s = w +:+ s) /\
  (forall c, c ∈ String.list_ascii_of_string w -> digit_value c <> None) /\
  (forall s, read_digits (String.length w) 0 (w +:+ s) = Some (Z.of_N x, s)).
Proof.
  induction (N.lt_wf_0 x) as [x _ IH].
  destruct (decide (x = 0)%N) as [->|Hx].
  { exists "". split_and!; [intros s; by rewrite pretty_N_go_0|intros c Hc; by apply elem_of_nil in Hc|done]. }
  destruct (IH (x / 10)%N) as (w & Hgo & Hdigits & Hread); [apply N.div_lt; lia|].
  set (c := pretty_N_char (x mod 10)).
  assert (Hc : digit_value c = Some (Z.of_N (x mod 10))).
  { unfold c. pose proof (N.mod_lt x 10 ltac:(lia)) as Hm. revert Hm. generalize (x mod 10)%N. intros k Hk.
    assert (Hin : k ∈ [0; 1; 2; 3; 4; 5; 6; 7; 8; 9]%N) by (rewrite !elem_of_cons; lia).
    repeat (apply elem_of_cons in Hin as [->|Hin]; [reflexivity|]). by apply elem_of_nil in Hin. }
  exists (w +:+ String c ""). split_and!.
  - intros s. rewrite pretty_N_go_step by lia. rewrite Hgo. by rewrite <- (assoc_L String.append).
  - intros d Hd. assert (Happ : forall a b, String.list_ascii_of_string (a +:+ b) =
      String.list_ascii_of_string a ++ String.list_ascii_of_string b).
    { intros a b. induction a as [|e a IHa]; [done|].
      change (e :: String.list_ascii_of_string (a +:+ b) = e :: (String.list_ascii_of_string a ++ String.list_ascii_of_string b)).
      by rewrite IHa. }
    rewrite Happ in Hd. apply elem_of_app in Hd as [Hd|Hd]; [by apply Hdigits|].
    apply list_elem_of_singleton in Hd as ->. by rewrite Hc.
  - intros s. rewrite length_append, read_digits_app, <- (assoc_L String.append), Hread.
    change (String.length (String c "")) with 1. change (String c "" +:+ s) with (String c s).
    cbn [read_digits]. rewrite Hc. do 2 f_equal. pose proof (N.div_mod x 10 ltac:(lia)). lia.
Qed.

Lemma TrimSpace_none s :
  (forall c, c ∈ String.list_ascii_of_string s -> is_space c = false) -> TrimSpace s = s.
Proof.
  intros Hs. assert (Hl : trim_left s = s).
  { destruct s as [|c s]; [done|]. apply trim_left_first, Hs. cbn. left. }
  unfold TrimSpace. rewrite Hl. clear Hl. induction s as [|c s IH]; [done|].
  cbn [trim_right all_space]. rewrite (Hs c) by (cbn; left). cbn [andb]. rewrite IH; [done|].
  intros d Hd. apply Hs. cbn. by right.
Qed.

Lemma pretty_pos p : exists w,
  pretty (N.pos p) = w /\ w <> "" /\
  (forall c, c ∈ String.list_ascii_of_string w -> digit_value c <> None) /\
  read_digits (String.length w) 0 w = Some (Z.pos p, "").
Proof.
  destruct (pretty_digits (N.pos p)) as (w & Hgo & Hdigits & Hread).
  specialize (Hread ""). rewrite (right_id_L "" String.append) in Hread.
  exists w. split_and!; [|intros ->; discriminate Hread|done|done].
  change (pretty (N.pos p)) with (pretty_N_go (N.pos p) ""). by rewrite Hgo, (right_id_L "" String.append).
Qed.

Lemma digit_no_sign c : digit_value c <> None -> ~ (c = "+"%char \/ c = "-"%char).
Proof. intros Hc [-> | ->]; by apply Hc. Qed.

Lemma digit_no_space c : digit_value c <> None -> is_space c = false.
Proof. destruct (digit_value c) eqn:E; [|done]. intros _. by eapply is_space_digit. Qed.

(** A decimal is read back as the integer it shows. *)
Lemma parseInt_pretty z : (- 2 ^ 63 <= z <= max_int64)%Z -> parseInt (pretty z) = Ok z.
Proof.
  intros Hz. destruct z as [|p|p]; [done|..]; destruct (pretty_pos p) as (w & Hw & Hne & Hd & Hr);
    unfold parseInt.
  - change (pretty (Z.pos p)) with (pretty (N.pos p)). rewrite Hw.
    rewrite TrimSpace_none by (intros c Hc; by apply digit_no_space, Hd).
    rewrite decide_False by done. unfold scan_int.
    assert (Hs : sign_of w = ("", w)).
    { destruct w as [|c w]; [done|]. cbn. rewrite decide_False; [done|].
      apply digit_no_sign, Hd. cbn. left. }
    rewrite Hs, span_number_digits by done. cbn iota beta. rewrite decide_False by done.
    rewrite Hr. cbv zeta. rewrite (decide_False (P := "" = "-")) by done.
    by rewrite decide_True.
  - change (pretty (Z.neg p)) with (String "-" (pretty (N.pos p))). rewrite Hw.
    rewrite TrimSpace_none; [|intros c Hc; cbn in Hc; apply elem_of_cons in Hc as [->|Hc];
      [done|by apply digit_no_space, Hd] ].
    rewrite decide_False by done. unfold scan_int.
    change (sign_of (String "-" w)) with ("-", w). cbn iota beta.
    rewrite span_number_digits by done. cbn iota beta. rewrite decide_False by done.
    rewrite Hr. cbv zeta. rewrite (decide_True (P := "-" = "-")) by done.
    by rewrite decide_True.
Qed.

Lemma Atoi_bounds s n : Atoi s = Some n -> (- 2 ^ 63 <= n <= max_int64)%Z.
Proof.
  unfold Atoi. destruct (sign_of s) as [sign digits]. case_decide; [done|].
  destruct (read_digits _ _ _) as [ [m rest]|]; [|done]. cbv zeta.
  destruct (decide (sign = "-")); case_decide; intros [= <-]; done.
Qed.

(** A decimal is read back as the integer it shows. *)
Lemma Atoi_pretty z : (- 2 ^ 63 <= z <= max_int64)%Z -> Atoi (pretty z) = Some z.
Proof.
  intros Hz. destruct z as [|p|p]; [done|..]; destruct (pretty_pos p) as (w & Hw & Hne & Hd & Hr);
    unfold Atoi.
  - change (pretty (Z.pos p)) with (pretty (N.pos p)). rewrite Hw.
    assert (Hs : sign_of w = ("", w)).
    { destruct w as [|c w]; [done|]. cbn. rewrite decide_False; [done|].
      apply digit_no_sign, Hd. cbn. left. }
    rewrite Hs. cbn iota beta. rewrite decide_False, Hr by done. cbv zeta.
    rewrite (decide_False (P := "" = "-")) by done. by rewrite decide_True.
  - change (pretty (Z.neg p)) with (String "-" (pretty (N.pos p))). rewrite Hw.
    change (sign_of (String "-" w)) with ("-", w). cbn iota beta. rewrite decide_False, Hr by done. cbv zeta.
    rewrite (decide_True (P := "-" = "-")) by done. by rewrite decide_True.
Qed.

(** ** The order of stored instants *)

Lemma compare_same c x y : String.compare (String c x) (String c y) = String.compare x y.
Proof. cbn. unfold Ascii.compare. by rewrite N.compare_refl. Qed.

Lemma compare_date a b x y : valid_civil a = true -> valid_civil b = true ->
  (Civil.year a < 10000)%Z -> (Civil.year b < 10000)%Z ->
  String.compare (date_text "T" a +:+ x) (date_text "T" b +:+ y) =
  match compare_civil (with_nanos a 0) (with_nanos b 0) with
  | Eq => String.compare x y
  | c => c
  end.
Proof.
  intros Va Vb Ya Yb.
  destruct (field_bounds a Va Ya) as (A1 & A2 & A3 & A4 & A5 & A6).
  destruct (field_bounds b Vb Yb) as (B1 & B2 & B3 & B4 & B5 & B6).
  rewrite !date_text_app. unfold compare_civil, with_nanos.
  cbn [Civil.year Civil.month Civil.day Civil.hour Civil.minute Civil.second Civil.nanos].
  repeat (rewrite compare_app by (by rewrite !length_padded); rewrite compare_padded by done;
          match goal with |- match (?m ?= ?n)%Z with _ => _ end = _ =>
            destruct (m ?= n)%Z; [|done..] end;
          rewrite ?compare_same).
  done.
Qed.

(** Among instants of four-digit years, texts are ordered as the instants they
    show, to the microsecond. *)
Lemma compare_stored a b : valid_civil a = true -> valid_civil b = true ->
  (Civil.year a < 10000)%Z -> (Civil.year b < 10000)%Z ->
  String.compare (date_text "T" a +:+ "." +:+ padded 6 (Civil.nanos a / 1000) +:+ "Z")
    (date_text "T" b +:+ "." +:+ padded 6 (Civil.nanos b / 1000) +:+ "Z") =
  (NormalizeTime (instant_of a) ?= NormalizeTime (instant_of b))%Z.
Proof.
  intros Va Vb Ya Yb.
  assert (Hnano : forall c n, valid_civil c = true -> (0 <= n < 1000000000)%Z ->
    valid_civil (with_nanos c n) = true).
  { intros c n (Hy & Hm & Hd & Hh & Hmi & Hse & _)%valid_civil_bounds Hn.
    unfold valid_civil, with_nanos. cbn [Civil.year Civil.month Civil.day Civil.hour Civil.minute
      Civil.second Civil.nanos]. by rewrite !bool_decide_true. }
  assert (Hm : forall c, valid_civil c = true -> (0 <= Civil.nanos c / 1000 * 1000 < 1000000000)%Z).
  { intros c (_ & _ & _ & _ & _ & _ & Hn)%valid_civil_bounds. revert Hn. clear.
    generalize (Civil.nanos c). intros n Hn. dlia. }
  assert (He : forall c, (NormalizeTime (instant_of c) =
    instant_of (with_nanos c (Civil.nanos c / 1000 * 1000)))%Z).
  { intros c. rewrite instant_with_nanos. unfold NormalizeTime, Microsecond. rewrite instant_mod.
    generalize (Civil.nanos c). intros n. clear. dlia. }
  rewrite !He, <- compare_civil_instant by auto. rewrite compare_date by done.
  change (String.compare ("." +:+ padded 6 (Civil.nanos a / 1000) +:+ "Z")
    ("." +:+ padded 6 (Civil.nanos b / 1000) +:+ "Z"))
    with (String.compare (String "." (padded 6 (Civil.nanos a / 1000) +:+ "Z"))
    (String "." (padded 6 (Civil.nanos b / 1000) +:+ "Z"))).
  rewrite compare_same, compare_app by (by rewrite !length_padded).
  rewrite compare_padded by (by apply micros_bounds).
  assert (Hmicros : (Civil.nanos a / 1000 ?= Civil.nanos b / 1000 =
    (Civil.nanos a / 1000 * 1000 ?= Civil.nanos b / 1000 * 1000))%Z).
  { generalize (Civil.nanos a / 1000)%Z (Civil.nanos b / 1000)%Z. clear. intros m n.
    destruct (Z.compare_spec m n), (Z.compare_spec (m * 1000) (n * 1000)); done || lia. }
  rewrite Hmicros. unfold compare_civil, with_nanos.
  cbn [Civil.year Civil.month Civil.day Civil.hour Civil.minute Civil.second Civil.nanos].
  repeat (destruct (_ ?= _)%Z; try done).
Qed.

(** * Theorems *)

Lemma EncodeTime_set d t : (0 < t)%Z ->
  EncodeTime d (Some t) =
  match d with
  | SQLite => VString (format_timestamp (NormalizeTime t))
  | _ => VTime (NormalizeTime t)
  end.
Proof.
  intros Ht. unfold EncodeTime. rewrite decide_False by lia.
  destruct d; [by rewrite decide_False..|by rewrite decide_True|by rewrite decide_False].
Qed.

Lemma stored_null_read_back d raw : HandsBack d VNil raw ->
  DecodeTime raw = Ok 0%Z /\ DecodeString raw = Ok "" /\ DecodeJSON raw = Ok None.
Proof. inversion 1; done. Qed.

Lemma stored_text_read_back d s raw : HandsBack d (VString s) raw -> DecodeString raw = Ok s.
Proof. inversion 1; done. Qed.

Lemma stored_integer_read_back d z raw : (- 2 ^ 63 <= z <= max_int64)%Z ->
  HandsBack d (VInt z) raw -> DecodeInt raw = Ok z.
Proof. intros Hz. inversion 1; [done|]. by apply parseInt_pretty. Qed.

(** A payload is read back byte for byte; one without bytes is none. *)
Lemma stored_payload_read_back d payload raw : HandsBack d (EncodeRaw payload) raw ->
  DecodeJSON raw = Ok (if raw_empty payload then None else payload).
Proof. destruct payload as [ [|c s]|]; inversion 1; done. Qed.

(** An instant of the years 1 to 9999 is read back to the microsecond, on
    every dialect and whatever its driver makes of the column: a native
    timestamp, or the text of one. *)
Theorem stored_instant_read_back d t raw :
  (0 < t < year_10000)%Z -> HandsBack d (EncodeTime d (Some t)) raw ->
  DecodeTime raw = Ok (NormalizeTime t).
Proof.
  intros Ht Hraw. destruct (civil_valid (NormalizeTime t)) as (Hv & Hy & Hi).
  { unfold NormalizeTime, Microsecond. revert Ht. generalize year_10000. intros k Ht. dlia. }
  rewrite EncodeTime_set in Hraw by lia. destruct d.
  - inversion Hraw; subst. cbn [DecodeTime]. by rewrite NormalizeTime_idemp.
  - inversion Hraw; subst; cbn [DecodeTime]; [by rewrite NormalizeTime_idemp|].
    unfold mysql_text. by rewrite parse_mysql, Hi, NormalizeTime_idemp.
  - unfold format_timestamp in Hraw.
    inversion Hraw; subst; cbn [DecodeTime]; by rewrite parse_stored, Hi, NormalizeTime_idemp.
  - inversion Hraw; subst. cbn [DecodeTime]. by rewrite NormalizeTime_idemp.
Qed.

Lemma normalized_bounds t : (0 < t < year_10000)%Z -> (0 <= NormalizeTime t < year_10000)%Z.
Proof. unfold NormalizeTime, Microsecond. generalize year_10000. intros k Ht. dlia. Qed.

Lemma compare_formatted a b : (0 <= a < year_10000)%Z -> (0 <= b < year_10000)%Z ->
  String.compare (format_timestamp a) (format_timestamp b) = (NormalizeTime a ?= NormalizeTime b)%Z.
Proof.
  intros Ha Hb. destruct (civil_valid _ Ha) as (Va & Ya & Ia). destruct (civil_valid _ Hb) as (Vb & Yb & Ib).
  unfold format_timestamp. by rewrite compare_stored, Ia, Ib.
Qed.

(** Where instants are stored as text, the byte-wise order of the texts is the
    order of the instants to the microsecond, so that an index on the column is
    an index by time. *)
Theorem stored_instants_in_order a b x y :
  (0 < a < year_10000)%Z -> (0 < b < year_10000)%Z ->
  EncodeTime SQLite (Some a) = VString x -> EncodeTime SQLite (Some b) = VString y ->
  String.compare x y = (NormalizeTime a ?= NormalizeTime b)%Z.
Proof.
  intros Ha Hb. rewrite !EncodeTime_set by lia. intros Ex Ey. injection Ex as <-. injection Ey as <-.
  by rewrite compare_formatted, !NormalizeTime_idemp by (by apply normalized_bounds).
Qed.

(** * Witnesses *)

(** 2024-02-29T12:00:05.123456789Z, and a microsecond later. *)
Definition noon : Time := 63844804805123456789%Z.
Definition later : Time := (noon + 1000)%Z.

Lemma stored_instant_read_back_witness :
  DecodeTime (RawBytes "2024-02-29 12:00:05.123456") = Ok 63844804805123456000%Z.
Proof.
  apply (stored_instant_read_back MySQL noon); [split; reflexivity|].
  exact (back_time_text (NormalizeTime noon)).
Defined.

Lemma stored_instants_in_order_witness :
  String.compare "2024-02-29T12:00:05.123456Z" "2024-02-29T12:00:05.123457Z" = Lt.
Proof.
  rewrite (stored_instants_in_order noon later); [vm_compute; reflexivity|..];
    [split; reflexivity|split; reflexivity|vm_compute; reflexivity|vm_compute; reflexivity].
Defined.
