(* ===== verification/SqlBuilder.v ===== *)
(** * SqlBuilder: the statements of the SQL stores

    Models [store/sqlcore/builder.go], [query.go], [encode.go] and [types.go]:
    the statement of every operation of a task store, written piece by piece by
    the writer of [Sqlkit.v] exactly as the source writes it, its markers handed
    out in the order the values are bound.

    A method that is given the writer is a function in the state monad [W]; the
    arguments of a call of [write] are evaluated before it, as in Go.  Encoding a
    value as JSON is code outside the repository: the argument [SqlJson]. *)

From S2P Require Import Prelude Domain Errors Event Query Outbox Store Registry Sqlkit.

(** ** The state monad of a writer *)

Definition W (A : Type) : Type := Writer.t -> A * Writer.t.
Definition wret {A} (a : A) : W A := fun w => (a, w).
Definition wbind {A B} (m : W A) (k : A -> W B) : W B := fun w => let '(a, w) := m w in k a w.

Notation "'let*' x ':=' e 'in' k" := (wbind e (fun x => k))
  (at level 10, x binder, e at level 100, k at level 200,
   format "'[v' 'let*'  x  ':='  e  'in' '//' k ']'") : hmntsk_scope.
Notation "e ';;*' k" := (wbind e (fun _ => k))
  (at level 100, right associativity, format "'[v' e ';;*' '//' k ']'") : hmntsk_scope.

Definition write (parts : list string) : W unit := fun w => (tt, Write parts w).
Definition bind_ (value : Value) : W string := Bind value.
Definition bindAll (values : list Value) : W string := BindAll values.

(** A loop that appends what its body returns. *)
Fixpoint collect {A X} (body : X -> W A) (l : list X) : W (list A) :=
  match l with
  | [] => wret []
  | x :: rest => let* a := body x in let* more := collect body rest in wret (a :: more)
  end.

(** ** Tables and columns *)

Definition TasksTable : string := "tasks".
Definition CandidatesTable : string := "task_candidates".
Definition HistoryTable : string := "task_history".
Definition OutboxTable : string := "task_outbox".
Definition TypesTable : string := "task_types".

Definition CandidateUser : string := "user".
Definition CandidateGroup : string := "group".
Definition CandidateExcluded : string := "excluded".

Definition taskColumns : list string :=
  ["id"; "task_type"; "version"; "status"; "suspended_from"; "priority"; "assignee";
   "owner_type"; "owner_ref"; "activity_key"; "correlation_extra";
   "callback_address"; "callback_params"; "escalation";
   "input"; "progress"; "output"; "reason"; "created_by"; "escalation_count";
   "created_at"; "updated_at"; "due_at"; "started_at"; "closed_at"; "escalated_at";
   "locked_by"; "locked_until"].

Definition historyColumns : list string :=
  ["task_id"; "version"; "operation"; "from_status"; "to_status"; "actor"; "comment"; "at"].

Definition outboxColumns : list string :=
  ["id"; "task_id"; "task_type"; "event_type"; "occurred_at"; "published_at"; "payload";
   "attempts"; "next_attempt_at"; "last_error"; "locked_by"; "locked_until"; "accepted_sinks"].

Definition typeColumns : list string :=
  ["name"; "title"; "description"; "input_schema"; "output_schema";
   "default_priority"; "default_deadline_ms"; "default_escalation"; "default_assignment";
   "updated_at"; "metadata"].

Definition tableOrder : list string :=
  [TasksTable; CandidatesTable; HistoryTable; OutboxTable; TypesTable].

Definition workingStatuses : list Status := [StatusReady; StatusReserved; StatusInProgress].

(** ** Builders *)

Module Builder.
Record t : Type := mk { dialect : Dialect; prefix : string }.
#[global] Instance eta : Eta t := fun x => mk (dialect x) (prefix x).
End Builder.

(** [WithTablePrefix], the one option. *)
Inductive BuilderOption : Type := WithTablePrefix (prefix : string).

Definition apply_option (opt : BuilderOption) (b : Builder.t) : Builder.t :=
  match opt with WithTablePrefix prefix => b <| Builder.prefix := prefix |> end.

Definition New (d : Dialect) (opts : list BuilderOption) : Builder.t :=
  for_each apply_option opts (Builder.mk d "").

(** ** Values *)

(** What is stored as JSON: the dynamic types [encodeValue] is given. *)
Inductive Encodable : Type :=
| ENil
| EMap (m : gmap string string)
| ERaw (raw : RawMessage)
| EPolicy (p : option EscalationPolicy.t)
| EStrings (l : list string)
| EPool (p : CandidatePool.t).

(** [json.Marshal] of each type, and [json.Unmarshal] into it; errors are their
    texts. *)
Module SqlJson.
Record t : Type := mk {
  Marshal : Encodable -> option string;
  UnmarshalMap : string -> result string (gmap string string);
  UnmarshalPolicy : string -> result string EscalationPolicy.t;
  UnmarshalStrings : string -> result string (list string);
  UnmarshalPool : string -> result string CandidatePool.t;
  MarshalEvent : Event.t -> result string string;
  UnmarshalEvent : string -> result string Event.t
}.
End SqlJson.

Definition nullString (value : string) : Value :=
  if decide (value = "") then VNil else VString value.

Definition callbackAddress (target : option CallbackTarget.t) : string :=
  match target with None => "" | Some c => CallbackTarget.Address c end.

Definition callbackParameters (target : option CallbackTarget.t) : Encodable :=
  match target with
  | None => ENil
  | Some c =>
      if raw_empty (CallbackTarget.ReferenceParameters c) then ENil
      else ERaw (CallbackTarget.ReferenceParameters c)
  end.

Definition limit_or (fallback limit : Z) : Z := if decide (limit <= 0)%Z then fallback else limit.
Definition DefaultLeaseBatch : Z := 100.

Record EventRow : Type := mkEventRow {
  row_ID : string;
  row_TaskID : string;
  row_TaskType : string;
  row_EventType : EventType;
  row_OccurredAt : Time;
  row_Payload : RawMessage
}.

(** The values of each table's columns, in their order. *)
Section values.
Context (json : SqlJson.t) (d : Dialect).

Definition encodeTime (instant : option Time) : Value := EncodeTime d instant.
Definition encodeRaw (payload : RawMessage) : Value := EncodeRaw payload.

Definition marshalled (value : Encodable) : Value :=
  match SqlJson.Marshal json value with
  | None => VNil
  | Some encoded => if decide (encoded = "null") then VNil else VString encoded
  end.

Definition encodeValue (value : Encodable) : Value :=
  match value with
  | ENil => VNil
  | EMap m => if decide (m = ∅) then VNil else marshalled value
  | ERaw raw => encodeRaw raw
  | EPolicy None => VNil
  | _ => marshalled value
  end.

Definition encodeSinks (sinks : list string) : Value :=
  match sinks with [] => VNil | _ => encodeValue (EStrings sinks) end.

Definition taskArgs (task : Task.t) : list Value :=
  let task := Task.Normalize task in
  let corr := Task.Correlation task in
  [VString (Task.ID task);
   VString (Task.Type_ task);
   VInt (Task.Version task);
   VString (Status_String (Task.Status task));
   nullString (Status_String (Task.SuspendedFrom task));
   VInt (Task.Priority task);
   nullString (Task.Assignee task);
   nullString (CorrelationData.OwnerType corr);
   nullString (CorrelationData.OwnerRef corr);
   nullString (CorrelationData.ActivityKey corr);
   encodeValue (EMap (CorrelationData.Extra corr));
   nullString (callbackAddress (Task.Callback task));
   encodeValue (callbackParameters (Task.Callback task));
   encodeValue (EPolicy (Task.Escalation task));
   encodeRaw (Task.Input task);
   encodeRaw (Task.Progress task);
   encodeRaw (Task.Output task);
   nullString (Task.Reason task);
   nullString (Task.CreatedBy task);
   VInt (Task.EscalationCount task);
   encodeTime (Some (Task.CreatedAt task));
   encodeTime (Some (Task.UpdatedAt task));
   encodeTime (Task.DueAt task);
   encodeTime (Task.StartedAt task);
   encodeTime (Task.ClosedAt task);
   encodeTime (Task.EscalatedAt task);
   nullString (Task.LockedBy task);
   encodeTime (Task.LockedUntil task)].

Definition history_values (record : TransitionRecord.t) : list Value :=
  let at_ := NormalizeTime (TransitionRecord.At record) in
  [VString (TransitionRecord.TaskID record);
   VInt (TransitionRecord.Version record);
   VString (Operation_String (TransitionRecord.Operation record));
   VString (Status_String (TransitionRecord.From record));
   VString (Status_String (TransitionRecord.To record));
   nullString (TransitionRecord.Actor record);
   nullString (TransitionRecord.Comment record);
   encodeTime (Some at_)].

Definition outbox_values (row : EventRow) : list Value :=
  let occurred := NormalizeTime (row_OccurredAt row) in
  [VString (row_ID row);
   VString (row_TaskID row);
   VString (row_TaskType row);
   VString (EventType_String (row_EventType row));
   encodeTime (Some occurred);
   VNil;
   encodeRaw (row_Payload row);
   VInt 0;
   encodeTime (Some occurred);
   VNil;
   VNil;
   VNil;
   VNil].

Definition type_values (spec : TypeSpec.t) (now : Time) : list Value :=
  [VString (TypeSpec.Name spec);
   nullString (TypeSpec.Title spec);
   nullString (TypeSpec.Description spec);
   encodeRaw (TypeSpec.InputSchema spec);
   encodeRaw (TypeSpec.OutputSchema spec);
   VInt (TypeSpec.DefaultPriority spec);
   VInt (Z.quot (TypeSpec.DefaultDeadline spec) 1000000);
   encodeValue (EPolicy (TypeSpec.DefaultEscalation spec));
   encodeValue (EPool (TypeSpec.DefaultAssignment spec));
   encodeTime (Some (NormalizeTime now));
   encodeValue (EMap (TypeSpec.Metadata spec))].

End values.

Section builder.
Context (json : SqlJson.t) (b : Builder.t).
Let d := Builder.dialect b.
Let q (identifier : string) : string := Quote (Builder.dialect b) identifier.

Definition TableName (name : string) : string := Builder.prefix b +:+ name.
Definition Table (name : string) : string := q (TableName name).
Definition Tables : list string := TableName <$> tableOrder.

Definition quoteList (alias : string) (columns : list string) : string :=
  String.concat ", "
    ((fun column => if decide (alias <> "") then alias +:+ "." +:+ q column else q column)
       <$> columns).

(** [begin], the body, and [done]. *)
Definition built (body : W unit) : Statement.t := Done (body (NewWriter d)).2.

(** ** Tasks *)

Definition InsertTask (task : Task.t) : Statement.t := built (
  write ["INSERT INTO "; Table TasksTable; " ("; quoteList "" taskColumns; ") VALUES ("];;*
  let* markers := bindAll (taskArgs json d task) in
  write [markers];;*
  write [")"]).

(** The loop of [UpdateTask] over the columns and their values. *)
Fixpoint assignments (columns : list string) (args : list Value) : W (list string) :=
  match columns, args with
  | column :: columns, arg :: args =>
      if decide (column = "id") then assignments columns args
      else
        let* marker := bind_ arg in
        let* more := assignments columns args in
        wret ((q column +:+ " = " +:+ marker) :: more)
  | _, _ => wret []
  end.

Definition UpdateTask (task : Task.t) (expectedVersion : Z) : Statement.t := built (
  write ["UPDATE "; Table TasksTable; " SET "];;*
  let* sets := assignments taskColumns (taskArgs json d task) in
  write [String.concat ", " sets];;*
  let* id := bind_ (VString (Task.ID task)) in
  write [" WHERE "; q "id"; " = "; id];;*
  let* version := bind_ (VInt expectedVersion) in
  write [" AND "; q "version"; " = "; version]).

Definition SelectTask (id : string) : Statement.t := built (
  write ["SELECT "; quoteList "" taskColumns; " FROM "; Table TasksTable];;*
  let* marker := bind_ (VString id) in
  write [" WHERE "; q "id"; " = "; marker]).

Definition SelectTaskVersion (id : string) : Statement.t := built (
  write ["SELECT "; q "version"; " FROM "; Table TasksTable];;*
  let* marker := bind_ (VString id) in
  write [" WHERE "; q "id"; " = "; marker]).

Definition DeleteTask (id : string) : Statement.t := built (
  write ["DELETE FROM "; Table TasksTable];;*
  let* marker := bind_ (VString id) in
  write [" WHERE "; q "id"; " = "; marker]).

(** ** Candidates *)

Definition candidate_entries (pool : CandidatePool.t) : list (string * string) :=
  (pair CandidateUser <$> CandidatePool.Users pool) ++
  (pair CandidateGroup <$> CandidatePool.Groups pool) ++
  (pair CandidateExcluded <$> CandidatePool.Excluded pool).

Definition candidate_values (id : string) (i : nat) (e : string * string) : list Value :=
  [VString id; VString e.1; VString e.2; VInt (Z.of_nat i)].

(** One parenthesised row of markers. *)
Definition marker_row (values : list Value) : W string :=
  let* markers := bindAll values in wret ("(" +:+ markers +:+ ")").

Definition InsertCandidates (id : string) (pool : CandidatePool.t) : Statement.t :=
  let entries := candidate_entries pool in
  if decide (entries = []) then Statement.zero
  else built (
    write ["INSERT INTO "; Table CandidatesTable; " ("];;*
    write [quoteList "" ["task_id"; "kind"; "value"; "ordinal"] ];;*
    write [") VALUES "];;*
    let* rows := collect marker_row (imap (candidate_values id) entries) in
    write [String.concat ", " rows]).

Definition DeleteCandidates (id : string) : Statement.t := built (
  write ["DELETE FROM "; Table CandidatesTable];;*
  let* marker := bind_ (VString id) in
  write [" WHERE "; q "task_id"; " = "; marker]).

Definition SelectCandidates (ids : list string) : Statement.t :=
  match ids with
  | [] => Statement.zero
  | _ => built (
      write ["SELECT "; quoteList "" ["task_id"; "kind"; "value"] ];;*
      write [" FROM "; Table CandidatesTable];;*
      let* markers := bindAll (VString <$> ids) in
      write [" WHERE "; q "task_id"; " IN ("; markers; ")"];;*
      write [" ORDER BY "; q "task_id"; ", "; q "kind"];;*
      write [", "; q "ordinal"])
  end.

(** ** Histories *)

Definition InsertHistory (records : list TransitionRecord.t) : Statement.t :=
  match records with
  | [] => Statement.zero
  | _ => built (
      write ["INSERT INTO "; Table HistoryTable; " ("; quoteList "" historyColumns; ") VALUES "];;*
      let* rows := collect (fun record => marker_row (history_values d record)) records in
      write [String.concat ", " rows])
  end.

Definition SelectHistory (id : string) : Statement.t := built (
  write ["SELECT "; quoteList "" historyColumns; " FROM "; Table HistoryTable];;*
  let* marker := bind_ (VString id) in
  write [" WHERE "; q "task_id"; " = "; marker];;*
  write [" ORDER BY "; q "version"; ", "; q "at"]).

(** ** The outbox *)

Definition InsertOutbox (payloads : list EventRow) : Statement.t :=
  match payloads with
  | [] => Statement.zero
  | _ => built (
      write ["INSERT INTO "; Table OutboxTable; " ("; quoteList "" outboxColumns; ") VALUES "];;*
      let* rows := collect (fun row => marker_row (outbox_values d row)) payloads in
      write [String.concat ", " rows])
  end.

(** [LIMIT], where there is one. *)
Definition SelectOutbox (limit : Z) : Statement.t := built (
  write ["SELECT "; quoteList "" outboxColumns; " FROM "; Table OutboxTable];;*
  write [" WHERE "; q "published_at"; " IS NULL"];;*
  write [" ORDER BY "; q "occurred_at"; ", "; q "id"];;*
  if decide (0 < limit)%Z
  then let* marker := bind_ (VInt limit) in write [" LIMIT "; marker]
  else wret tt).

Definition MarkOutboxPublished (at_ : Time) (ids : list string) : Statement.t :=
  match ids with
  | [] => Statement.zero
  | _ => built (
      let published := NormalizeTime at_ in
      write ["UPDATE "; Table OutboxTable; " SET "; q "published_at"];;*
      let* marker := bind_ (encodeTime d (Some published)) in
      write [" = "; marker];;*
      let* markers := bindAll (VString <$> ids) in
      write [" WHERE "; q "id"; " IN ("; markers; ")"])
  end.

(** ** The type registry *)

Definition UpsertType (spec : TypeSpec.t) (now : Time) : Statement.t := built (
  write ["INSERT INTO "; Table TypesTable; " ("; quoteList "" typeColumns; ") VALUES ("];;*
  let* markers := bindAll (type_values json d spec now) in
  write [markers];;*
  write [")"];;*
  write [UpsertSuffix d ["name"] (drop 1 typeColumns)]).

Definition SelectType (name : string) : Statement.t := built (
  write ["SELECT "; quoteList "" typeColumns; " FROM "; Table TypesTable];;*
  let* marker := bind_ (VString name) in
  write [" WHERE "; q "name"; " = "; marker]).

Definition SelectTypes : Statement.t := built (
  write ["SELECT "; quoteList "" typeColumns; " FROM "; Table TypesTable];;*
  write [" ORDER BY "; q "name"]).

Definition DeleteType (name : string) : Statement.t := built (
  write ["DELETE FROM "; Table TypesTable];;*
  let* marker := bind_ (VString name) in
  write [" WHERE "; q "name"; " = "; marker]).

(** ** Cursors *)

Definition invalidQuery (detail : string) : error :=
  ValidationError "request" [ValidationIssue.mk "" detail].

Definition NextCursor (codec : CursorCodec.t) (query : Query.t) (last : Task.t) : res string :=
  match CursorCodec.Marshal codec
          (cursor.mk (Query.OrderBy query) (Query.Descending query)
             (position.mk (Task.Priority last) (Task.DueAt last) (Task.ID last))) with
  | Some token => Ok token
  | None => Err (ExternalError "panic: sqlcore: encode a cursor" [])
  end.

Definition decodeCursor (codec : CursorCodec.t) (query : Query.t) : res position.t :=
  match CursorCodec.Unmarshal codec (Query.Cursor query) with
  | None => Err (invalidQuery "the cursor is not valid: it was not issued by this store")
  | Some decoded =>
      if decide (position.ID (cursor.After decoded) = "")
      then Err (invalidQuery "the cursor is not valid: it was not issued by this store")
      else if decide (cursor.Ordering_ decoded <> Query.OrderBy query \/
                      cursor.Descending decoded <> Query.Descending query)
      then Err (invalidQuery "the cursor is not valid: it continues a different ordering or direction")
      else Ok (cursor.After decoded)
  end.

(** ** The ordering key *)

Inductive keyTerm : Type := termPriority | termNoDeadline | termDue | termID.
#[global] Instance keyTerm_eq_dec : EqDecision keyTerm.
Proof. solve_decision. Defined.

Definition orderingKey (ordering : Ordering) : list keyTerm :=
  match ordering with
  | OrderPriority => [termPriority; termID]
  | OrderDue => [termNoDeadline; termDue; termID]
  | OrderUrgency => [termPriority; termNoDeadline; termDue; termID]
  | _ => [termID]
  end.

Definition taskColumn (column : string) : string := q "t" +:+ "." +:+ q column.

Definition term_name (term : keyTerm) : string :=
  match term with
  | termPriority => "priority"
  | termNoDeadline | termDue => "due_at"
  | termID => "id"
  end.
Definition termColumn (term : keyTerm) : string := taskColumn (term_name term).

Definition orderBy (query : Query.t) : string :=
  let direction := if Query.Descending query then " DESC" else " ASC" in
  String.concat ", "
    ((fun term =>
        match term with
        | termNoDeadline => "CASE WHEN " +:+ termColumn term +:+ " IS NULL THEN 1 ELSE 0 END ASC"
        | _ => termColumn term +:+ direction
        end) <$> orderingKey (Query.OrderBy query)).

(** An empty text where the source returns one: the term says nothing. *)
Definition keyEqual (term : keyTerm) (after : position.t) : W string :=
  let column := termColumn term in
  match term with
  | termPriority =>
      let* marker := bind_ (VInt (position.Priority after)) in wret (column +:+ " = " +:+ marker)
  | termNoDeadline =>
      match position.DueAt after with
      | None => wret (column +:+ " IS NULL")
      | Some _ => wret (column +:+ " IS NOT NULL")
      end
  | termDue =>
      match position.DueAt after with
      | None => wret ""
      | Some _ =>
          let* marker := bind_ (encodeTime d (position.DueAt after)) in wret (column +:+ " = " +:+ marker)
      end
  | termID =>
      let* marker := bind_ (VString (position.ID after)) in wret (column +:+ " = " +:+ marker)
  end.

Definition keyBeyond (term : keyTerm) (after : position.t) (strictly : string) : W string :=
  let column := termColumn term in
  match term with
  | termPriority =>
      let* marker := bind_ (VInt (position.Priority after)) in wret (column +:+ strictly +:+ marker)
  | termNoDeadline => wret (column +:+ " IS NULL")
  | termDue =>
      let* marker := bind_ (encodeTime d (position.DueAt after)) in
      wret (column +:+ strictly +:+ marker)
  | termID =>
      let* marker := bind_ (VString (position.ID after)) in wret (column +:+ strictly +:+ marker)
  end.

(** The loop over the terms before one. *)
Fixpoint equal_parts (terms : list keyTerm) (after : position.t) : W (list string) :=
  match terms with
  | [] => wret []
  | term :: rest =>
      let* equal := keyEqual term after in
      let* more := equal_parts rest after in
      wret (if decide (equal <> "") then equal :: more else more)
  end.

(** The loop of [keysetCondition]: the terms already passed, and those to come. *)
Fixpoint keyset_disjuncts (passed terms : list keyTerm) (after : position.t) (strictly : string)
  : W (list string) :=
  match terms with
  | [] => wret []
  | term :: rest =>
      if decide ((term = termNoDeadline \/ term = termDue) /\ position.DueAt after = None)
      then keyset_disjuncts (passed ++ [term]) rest after strictly
      else
        let* parts := equal_parts passed after in
        let* beyond := keyBeyond term after strictly in
        let* more := keyset_disjuncts (passed ++ [term]) rest after strictly in
        wret (("(" +:+ String.concat " AND " (parts ++ [beyond]) +:+ ")") :: more)
  end.

Definition keysetCondition (query : Query.t) (after : position.t) : W string :=
  let strictly := if Query.Descending query then " < " else " > " in
  let* disjuncts := keyset_disjuncts [] (orderingKey (Query.OrderBy query)) after strictly in
  wret
    match disjuncts with
    | [only] => only
    | _ => "(" +:+ String.concat " OR " disjuncts +:+ ")"
    end.

(** ** Filters *)

(** A condition that is there when a filter is set. *)
Definition when (set : bool) (condition : W (list string)) : W (list string) :=
  if set then condition else wret [].

Definition in_list (column : string) (values : list Value) : W string :=
  let* markers := bindAll values in wret (column +:+ " IN (" +:+ markers +:+ ")").

Definition column_filter (filter : string * string) : W (list string) :=
  when (bool_decide (filter.2 <> ""))
    (let* marker := bind_ (VString filter.2) in wret [taskColumn filter.1 +:+ " = " +:+ marker]).

Definition candidateCondition (query : ResolvedQuery.t) : W string :=
  let candidate := Query.Candidate (ResolvedQuery.Query_ query) in
  if decide (candidate = "") then wret ""
  else
    let alias := q "t" +:+ "." in
    let candidates := Table CandidatesTable in
    let child := q "c" in
    let excluded := q "x" in
    let* m1 := bind_ (VString candidate) in
    let held := "(" +:+ alias +:+ q "assignee" +:+ " = " +:+ m1 +:+ ")" in
    let* m2 := bind_ (VString CandidateUser) in
    let* m3 := bind_ (VString candidate) in
    let user := "(" +:+ child +:+ "." +:+ q "kind" +:+ " = " +:+ m2 +:+
      " AND " +:+ child +:+ "." +:+ q "value" +:+ " = " +:+ m3 +:+ ")" in
    let* groups :=
      when (bool_decide (ResolvedQuery.CandidateGroups query <> []))
        (let* m := bind_ (VString CandidateGroup) in
         let* ms := bindAll (VString <$> ResolvedQuery.CandidateGroups query) in
         wret ["(" +:+ child +:+ "." +:+ q "kind" +:+ " = " +:+ m +:+
           " AND " +:+ child +:+ "." +:+ q "value" +:+ " IN (" +:+ ms +:+ "))"]) in
    let pooled := "(" +:+ alias +:+ q "assignee" +:+ " IS NULL AND EXISTS (" +:+
      "SELECT 1 FROM " +:+ candidates +:+ " AS " +:+ child +:+
      " WHERE " +:+ child +:+ "." +:+ q "task_id" +:+ " = " +:+ alias +:+ q "id" +:+
      " AND (" +:+ String.concat " OR " (user :: groups) +:+ ")))" in
    let* m4 := bind_ (VString CandidateExcluded) in
    let* m5 := bind_ (VString candidate) in
    let notExcluded := "NOT EXISTS (SELECT 1 FROM " +:+ candidates +:+ " AS " +:+ excluded +:+
      " WHERE " +:+ excluded +:+ "." +:+ q "task_id" +:+ " = " +:+ alias +:+ q "id" +:+
      " AND " +:+ excluded +:+ "." +:+ q "kind" +:+ " = " +:+ m4 +:+
      " AND " +:+ excluded +:+ "." +:+ q "value" +:+ " = " +:+ m5 +:+ ")" in
    wret ("((" +:+ held +:+ " OR " +:+ pooled +:+ ") AND " +:+ notExcluded +:+ ")").

Definition queryConditions (query : ResolvedQuery.t) : W (list string) :=
  let qu := ResolvedQuery.Query_ query in
  let* c1 := when (bool_decide (Query.Assignee qu <> ""))
    (let* m := bind_ (VString (Query.Assignee qu)) in wret [taskColumn "assignee" +:+ " = " +:+ m]) in
  let* c2 := when (bool_decide (Query.Statuses qu <> []))
    (let* c := in_list (taskColumn "status") (VString ∘ Status_String <$> Query.Statuses qu) in
     wret [c]) in
  let* c3 := when (bool_decide (Query.Types qu <> []))
    (let* c := in_list (taskColumn "task_type") (VString <$> Query.Types qu) in wret [c]) in
  let* c4 := collect column_filter
    [("owner_type", Query.OwnerType qu); ("owner_ref", Query.OwnerRef qu);
     ("activity_key", Query.ActivityKey qu)] in
  let* c5 :=
    match Query.DueBefore qu with
    | None => wret []
    | Some _ =>
        let* m := bind_ (encodeTime d (Query.DueBefore qu)) in
        wret [taskColumn "due_at" +:+ " IS NOT NULL"; taskColumn "due_at" +:+ " < " +:+ m]
    end in
  let* c6 := when (bool_decide (Query.Group qu <> ""))
    (let alias := q "t" +:+ "." in
     let groups := q "g" in
     let* m1 := bind_ (VString CandidateGroup) in
     let* m2 := bind_ (VString (Query.Group qu)) in
     wret ["EXISTS (SELECT 1 FROM " +:+ Table CandidatesTable +:+ " AS " +:+ groups +:+
       " WHERE " +:+ groups +:+ "." +:+ q "task_id" +:+ " = " +:+ alias +:+ q "id" +:+
       " AND " +:+ groups +:+ "." +:+ q "kind" +:+ " = " +:+ m1 +:+
       " AND " +:+ groups +:+ "." +:+ q "value" +:+ " = " +:+ m2 +:+ ")"]) in
  let* candidate := candidateCondition query in
  wret (c1 ++ c2 ++ c3 ++ concat c4 ++ c5 ++ c6 ++
        (if decide (candidate <> "") then [candidate] else [])).

(** ** Queries *)

Definition where_ (conditions : list string) : W unit :=
  if decide (0 < length conditions)
  then write [" WHERE "; String.concat " AND " conditions] else wret tt.

Definition query_body (query : ResolvedQuery.t) (after : option position.t) : W unit :=
  let qu := ResolvedQuery.Query_ query in
  let tasks := q "t" in
  write ["SELECT "; quoteList tasks taskColumns];;*
  write [" FROM "; Table TasksTable; " AS "; tasks];;*
  let* conditions := queryConditions query in
  let* beyond :=
    match after with
    | None => wret []
    | Some p => let* c := keysetCondition qu p in wret [c]
    end in
  where_ (conditions ++ beyond);;*
  write [" ORDER BY "; orderBy qu];;*
  let* marker := bind_ (VInt (Query.EffectiveLimit qu + 1)) in
  write [" LIMIT "; marker].

Definition QueryTasks (codec : CursorCodec.t) (query : ResolvedQuery.t) : res Statement.t :=
  let qu := ResolvedQuery.Query_ query in
  if negb (Ordering_Valid (Query.OrderBy qu))
  then Err (invalidQuery
         ("ordering " +:+ quote (Ordering_String (Query.OrderBy qu)) +:+ " is not supported"))
  else
    try! after :=
      (if decide (Query.Cursor qu <> "")
       then try! key := decodeCursor codec qu in Ok (Some key)
       else Ok None) in
    Ok (built (query_body query after)).

Definition CountTasks (query : ResolvedQuery.t) : Statement.t := built (
  write ["SELECT COUNT(*)"];;*
  write [" FROM "; Table TasksTable; " AS "; q "t"];;*
  let* conditions := queryConditions query in
  where_ conditions).

(** ** Leases on tasks *)

Definition overdueConditions (lease : LeaseRequest.t) : W (list string) :=
  let now := encodeTime d (Some (NormalizeTime (LeaseRequest.Now lease))) in
  let* m1 := bind_ now in
  let* statuses := bindAll (VString ∘ Status_String <$> workingStatuses) in
  let* m2 := bind_ now in
  let conditions :=
    [q "due_at" +:+ " IS NOT NULL";
     q "due_at" +:+ " <= " +:+ m1;
     q "status" +:+ " IN (" +:+ statuses +:+ ")";
     "(" +:+ q "locked_until" +:+ " IS NULL OR " +:+ q "locked_until" +:+ " <= " +:+ m2 +:+ ")"] in
  let* types := when (bool_decide (LeaseRequest.Types lease <> []))
    (let* c := in_list (q "task_type") (VString <$> LeaseRequest.Types lease) in wret [c]) in
  wret (conditions ++ types).

(** [LIMIT], and the lock where the dialect has it. *)
Definition batch_of (limit : Z) : W unit :=
  let* marker := bind_ (VInt limit) in
  write [" LIMIT "; marker];;*
  if SupportsSkipLocked d then write [" FOR UPDATE SKIP LOCKED"] else wret tt.

Definition SelectOverdue (lease : LeaseRequest.t) : Statement.t := built (
  write ["SELECT "; q "id"; " FROM "; Table TasksTable];;*
  let* conditions := overdueConditions lease in
  write [" WHERE "; String.concat " AND " conditions];;*
  write [" ORDER BY "; q "due_at"; ", "; q "id"];;*
  batch_of (limit_or DefaultLeaseBatch (LeaseRequest.Limit lease))).

(** The two assignments that take a lease. *)
Definition take_lease (owner : string) (until : Time) : W unit :=
  let* by_ := bind_ (nullString owner) in
  write [q "locked_by"; " = "; by_; ", "];;*
  let* until := bind_ (encodeTime d (Some until)) in
  write [q "locked_until"; " = "; until].

Definition ClaimLease (id : string) (lease : LeaseRequest.t) : Statement.t := built (
  let until := NormalizeTime (LeaseRequest.Now lease + LeaseRequest.Duration lease)%Z in
  write ["UPDATE "; Table TasksTable; " SET "];;*
  take_lease (LeaseRequest.Owner lease) until;;*
  let* marker := bind_ (VString id) in
  write [" WHERE "; q "id"; " = "; marker];;*
  let* conditions := overdueConditions lease in
  write [" AND "; String.concat " AND " conditions]).

Definition ReleaseLease (id owner : string) : Statement.t := built (
  write ["UPDATE "; Table TasksTable; " SET "];;*
  let* by_ := bind_ VNil in
  write [q "locked_by"; " = "; by_; ", "];;*
  let* until := bind_ VNil in
  write [q "locked_until"; " = "; until];;*
  let* marker := bind_ (VString id) in
  write [" WHERE "; q "id"; " = "; marker];;*
  let* held := bind_ (VString owner) in
  write [" AND "; q "locked_by"; " = "; held]).

(** ** Leases on events, and their settlement *)

Definition dueEventConditions (claim : OutboxClaim.t) : W (list string) :=
  let now := encodeTime d (Some (NormalizeTime (OutboxClaim.Now claim))) in
  let* m1 := bind_ now in
  let* m2 := bind_ now in
  wret
    [q "published_at" +:+ " IS NULL";
     q "next_attempt_at" +:+ " IS NOT NULL";
     q "next_attempt_at" +:+ " <= " +:+ m1;
     "(" +:+ q "locked_until" +:+ " IS NULL OR " +:+ q "locked_until" +:+ " <= " +:+ m2 +:+ ")"].

Definition SelectDueEvents (claim : OutboxClaim.t) : Statement.t := built (
  write ["SELECT "; q "id"; " FROM "; Table OutboxTable];;*
  let* conditions := dueEventConditions claim in
  write [" WHERE "; String.concat " AND " conditions];;*
  write [" ORDER BY "; q "occurred_at"; ", "; q "id"];;*
  batch_of (limit_or DefaultOutboxBatch (OutboxClaim.Limit claim))).

Definition ClaimEvent (eventID : string) (claim : OutboxClaim.t) : Statement.t := built (
  let until := NormalizeTime (OutboxClaim.Now claim + OutboxClaim.Duration claim)%Z in
  write ["UPDATE "; Table OutboxTable; " SET "];;*
  take_lease (OutboxClaim.Owner claim) until;;*
  let* marker := bind_ (VString eventID) in
  write [" WHERE "; q "id"; " = "; marker];;*
  let* conditions := dueEventConditions claim in
  write [" AND "; String.concat " AND " conditions]).

Definition releaseDelivery : W string :=
  let* m1 := bind_ VNil in
  let* m2 := bind_ VNil in
  wret (", " +:+ q "locked_by" +:+ " = " +:+ m1 +:+ ", " +:+ q "locked_until" +:+ " = " +:+ m2).

(** The lease is released, and the row is that of the event. *)
Definition release_where (eventID : string) : W unit :=
  let* released := releaseDelivery in
  write [released];;*
  let* marker := bind_ (VString eventID) in
  write [" WHERE "; q "id"; " = "; marker].

Definition RecordAttempt (record : AttemptRecord.t) : Statement.t := built (
  let due := NormalizeTime (AttemptRecord.NextAttemptAt record) in
  write ["UPDATE "; Table OutboxTable; " SET "];;*
  let* m1 := bind_ (VInt (AttemptRecord.Attempts record)) in
  write [q "attempts"; " = "; m1; ", "];;*
  let* m2 := bind_ (encodeTime d (Some due)) in
  write [q "next_attempt_at"; " = "; m2; ", "];;*
  let* m3 := bind_ (nullString (AttemptRecord.LastError record)) in
  write [q "last_error"; " = "; m3];;*
  release_where (AttemptRecord.EventID record)).

Definition MarkAccepted (acceptance : Acceptance.t) : Statement.t := built (
  let lastError :=
    match Acceptance.PublishedAt acceptance with
    | Some _ => "" | None => Acceptance.LastError acceptance end in
  write ["UPDATE "; Table OutboxTable; " SET "];;*
  let* m1 := bind_ (encodeSinks json (Acceptance.Accepted acceptance)) in
  write [q "accepted_sinks"; " = "; m1; ", "];;*
  let* m2 := bind_ (VInt (Acceptance.Attempts acceptance)) in
  write [q "attempts"; " = "; m2; ", "];;*
  let* m3 := bind_ (nullString lastError) in
  write [q "last_error"; " = "; m3; ", "];;*
  let* m4 := bind_ (encodeTime d (Acceptance.PublishedAt acceptance)) in
  write [q "published_at"; " = "; m4];;*
  (match Acceptance.PublishedAt acceptance, Acceptance.NextAttemptAt acceptance with
   | None, Some _ =>
       write [", "; q "next_attempt_at"];;*
       let* m5 := bind_ (encodeTime d (Acceptance.NextAttemptAt acceptance)) in
       write [" = "; m5]
   | _, _ => wret tt
   end);;*
  release_where (Acceptance.EventID acceptance)).

Definition MarkDeadLettered (letter : DeadLetter.t) : Statement.t := built (
  write ["UPDATE "; Table OutboxTable; " SET "];;*
  let* m1 := bind_ (VInt (DeadLetter.Attempts letter)) in
  write [q "attempts"; " = "; m1; ", "];;*
  let* m2 := bind_ (nullString (DeadLetter.LastError letter)) in
  write [q "last_error"; " = "; m2; ", "];;*
  (match DeadLetter.Accepted letter with
   | Some accepted =>
       let* m := bind_ (encodeSinks json accepted) in
       write [q "accepted_sinks"; " = "; m; ", "]
   | None => wret tt
   end);;*
  let* m3 := bind_ VNil in
  write [q "next_attempt_at"; " = "; m3];;*
  release_where (DeadLetter.EventID letter)).

Definition SelectOutboxEntry (eventID : string) : Statement.t := built (
  write ["SELECT "; quoteList "" outboxColumns; " FROM "; Table OutboxTable];;*
  let* marker := bind_ (VString eventID) in
  write [" WHERE "; q "id"; " = "; marker]).
End builder.

(** ** Conflicts *)

Definition CheckAffected (affected : Z) (id : string) (expected current : Z) : res unit :=
  if decide (0 < affected)%Z then Ok tt
  else if decide (current = 0)%Z then Err (NotFoundError id)
  else Err (ConflictError id expected current).
