(* ===== verification/SqlPrint.v ===== *)
(** * SqlPrint: the statements as syntax

    The statements of [SqlBuilder.v] as syntax trees, and their printing.  A
    printed statement is a list of pieces, literal text and bound values; showing
    it puts a marker in place of each value, numbered from left to right.  Each
    statement the builder writes is the printing of a tree, so that its text
    depends on what was asked for and never on the values, and its arguments are
    the values in the order of their markers.  What the trees mean is in
    [SqlMeaning.v]. *)

From S2P Require Import Prelude Domain Errors Event Query Outbox Store Registry Sqlkit SqlBuilder.

(** ** Pieces *)

Inductive piece : Type := Lit (text : string) | Arg (value : Value).

Fixpoint values_of (ps : list piece) : list Value :=
  match ps with
  | [] => []
  | Lit _ :: ps => values_of ps
  | Arg v :: ps => v :: values_of ps
  end.

(** The text, where [n] values were bound before. *)
Fixpoint show (d : Dialect) (n : nat) (ps : list piece) : string :=
  match ps with
  | [] => ""
  | Lit text :: ps => text +:+ show d n ps
  | Arg _ :: ps => Placeholder d (S n) +:+ show d (S n) ps
  end.

Definition statement_of (d : Dialect) (ps : list piece) : Statement.t :=
  Statement.mk (show d 0 ps) (values_of ps).

Fixpoint joined (sep : string) (pss : list (list piece)) : list piece :=
  match pss with
  | [] => []
  | [ps] => ps
  | ps :: pss => ps ++ Lit sep :: joined sep pss
  end.

Definition markers (vs : list Value) : list piece := joined ", " ((fun v => [Arg v]) <$> vs).

(** ** Trees *)

(** A column of the table, or of a table named by an alias. *)
Inductive Column : Type := Col (alias : option string) (name : string).

Inductive Op : Type := OpEqual | OpLess | OpAtMost | OpMore.

Inductive Test : Type :=
| TCmp (c : Column) (op : Op) (v : Value)
| TIn (c : Column) (vs : list Value)
| TNull (c : Column)
| TNotNull (c : Column)
| TSame (c1 c2 : Column)
| TAll (ts : list Test)
| TAny (ts : list Test)
| TParen (t : Test)
| TExists (negated : bool) (table alias : string) (t : Test).

(** A term of an ordering: rows without a value last, or by a column. *)
Inductive OrderTerm : Type :=
| MissingLast (c : Column)
| By (c : Column) (descending : option bool).

Inductive Selection : Type := Count | Columns (alias : option string) (names : list string).

Inductive Sql : Type :=
| Select (what : Selection) (table : string) (alias : option string) (tests : list Test)
    (order : list OrderTerm) (limit : option Z) (lock : bool)
| Insert (table : string) (columns : list string) (rows : list (list Value))
| Upsert (table : string) (columns : list string) (row : list Value) (keys : list string)
| Update (table : string) (sets : list (string * Value)) (tests : list Test)
| Delete (table : string) (tests : list Test).

(** *** Printing *)

Section print.
Context (b : Builder.t).
Let q (identifier : string) : string := Quote (Builder.dialect b) identifier.

Definition column_text (c : Column) : string :=
  match c with
  | Col None name => q name
  | Col (Some alias) name => q alias +:+ "." +:+ q name
  end.

Definition op_text (op : Op) : string :=
  match op with OpEqual => " = " | OpLess => " < " | OpAtMost => " <= " | OpMore => " > " end.

Fixpoint print (t : Test) : list piece :=
  match t with
  | TCmp c op v => [Lit (column_text c +:+ op_text op); Arg v]
  | TIn c vs => Lit (column_text c +:+ " IN (") :: markers vs ++ [Lit ")"]
  | TNull c => [Lit (column_text c +:+ " IS NULL")]
  | TNotNull c => [Lit (column_text c +:+ " IS NOT NULL")]
  | TSame c1 c2 => [Lit (column_text c1 +:+ " = " +:+ column_text c2)]
  | TAll ts => joined " AND " (List.map print ts)
  | TAny ts => joined " OR " (List.map print ts)
  | TParen t => Lit "(" :: print t ++ [Lit ")"]
  | TExists negated table alias t =>
      Lit ((if negated then "NOT " else "") +:+ "EXISTS (SELECT 1 FROM " +:+ Table b table +:+
           " AS " +:+ q alias +:+ " WHERE ") :: print t ++ [Lit ")"]
  end.

(** An operand of AND or OR, which parentheses must close off if it is one of
    them itself. *)
Definition atomic (t : Test) : bool :=
  match t with TAll _ | TAny _ => false | _ => true end.

(** Whether the text can be read in one way only: AND and OR never meet. *)
Fixpoint unambiguous (t : Test) : bool :=
  match t with
  | TAll ts | TAny ts => forallb (fun t => atomic t && unambiguous t) ts
  | TParen t | TExists _ _ _ t => unambiguous t
  | _ => true
  end.

Definition order_text (o : OrderTerm) : string :=
  match o with
  | MissingLast c => "CASE WHEN " +:+ column_text c +:+ " IS NULL THEN 1 ELSE 0 END ASC"
  | By c None => column_text c
  | By c (Some descending) => column_text c +:+ (if descending then " DESC" else " ASC")
  end.

Definition print_where (tests : list Test) : list piece :=
  match tests with [] => [] | _ => Lit " WHERE " :: print (TAll tests) end.

Definition print_order (order : list OrderTerm) : list piece :=
  match order with
  | [] => []
  | _ => [Lit (" ORDER BY " +:+ String.concat ", " (order_text <$> order))]
  end.

Definition print_limit (limit : option Z) : list piece :=
  match limit with None => [] | Some n => [Lit " LIMIT "; Arg (VInt n)] end.

Definition selection_text (what : Selection) : string :=
  match what with
  | Count => "COUNT(*)"
  | Columns None names => quoteList b "" names
  | Columns (Some alias) names => quoteList b (q alias) names
  end.

Definition print_row (row : list Value) : list piece := Lit "(" :: markers row ++ [Lit ")"].

Definition print_set (set : string * Value) : list piece :=
  [Lit (q set.1 +:+ " = "); Arg set.2].

Definition print_sql (s : Sql) : list piece :=
  match s with
  | Select what table alias tests order limit lock =>
      Lit ("SELECT " +:+ selection_text what +:+ " FROM " +:+ Table b table +:+
           match alias with None => "" | Some alias => " AS " +:+ q alias end) ::
      print_where tests ++ print_order order ++ print_limit limit ++
      (if lock then [Lit " FOR UPDATE SKIP LOCKED"] else [])
  | Insert table columns rows =>
      Lit ("INSERT INTO " +:+ Table b table +:+ " (" +:+ quoteList b "" columns +:+ ") VALUES ") ::
      joined ", " (print_row <$> rows)
  | Upsert table columns row keys =>
      Lit ("INSERT INTO " +:+ Table b table +:+ " (" +:+ quoteList b "" columns +:+ ") VALUES ") ::
      print_row row ++ [Lit (UpsertSuffix (Builder.dialect b) keys
        (filter (fun column => column ∉ keys) columns))]
  | Update table sets tests =>
      Lit ("UPDATE " +:+ Table b table +:+ " SET ") :: joined ", " (print_set <$> sets) ++
      print_where tests
  | Delete table tests => Lit ("DELETE FROM " +:+ Table b table) :: print_where tests
  end.

Definition rendered (s : Sql) : Statement.t := statement_of (Builder.dialect b) (print_sql s).
End print.

(** ** The tree of each statement *)

(** What the stores ask the builder for, one constructor per method. *)
Inductive Request : Type :=
| QInsertTask (task : Task.t)
| QUpdateTask (task : Task.t) (expectedVersion : Z)
| QSelectTask (id : string)
| QSelectTaskVersion (id : string)
| QDeleteTask (id : string)
| QInsertCandidates (id : string) (pool : CandidatePool.t)
| QDeleteCandidates (id : string)
| QSelectCandidates (ids : list string)
| QInsertHistory (records : list TransitionRecord.t)
| QSelectHistory (id : string)
| QInsertOutbox (rows : list EventRow)
| QSelectOutbox (limit : Z)
| QMarkOutboxPublished (at_ : Time) (ids : list string)
| QUpsertType (spec : TypeSpec.t) (now : Time)
| QSelectType (name : string)
| QSelectTypes
| QDeleteType (name : string)
| QQueryTasks (query : ResolvedQuery.t) (after : option position.t)
| QCountTasks (query : ResolvedQuery.t)
| QSelectOverdue (lease : LeaseRequest.t)
| QClaimLease (id : string) (lease : LeaseRequest.t)
| QReleaseLease (id owner : string)
| QSelectDueEvents (claim : OutboxClaim.t)
| QClaimEvent (eventID : string) (claim : OutboxClaim.t)
| QRecordAttempt (record : AttemptRecord.t)
| QMarkAccepted (acceptance : Acceptance.t)
| QMarkDeadLettered (letter : DeadLetter.t)
| QSelectOutboxEntry (eventID : string).

(** The method, once an ordering was accepted and a cursor was read. *)
Definition written (json : SqlJson.t) (b : Builder.t) (r : Request) : Statement.t :=
  match r with
  | QInsertTask task => InsertTask json b task
  | QUpdateTask task expected => UpdateTask json b task expected
  | QSelectTask id => SelectTask b id
  | QSelectTaskVersion id => SelectTaskVersion b id
  | QDeleteTask id => DeleteTask b id
  | QInsertCandidates id pool => InsertCandidates b id pool
  | QDeleteCandidates id => DeleteCandidates b id
  | QSelectCandidates ids => SelectCandidates b ids
  | QInsertHistory records => InsertHistory b records
  | QSelectHistory id => SelectHistory b id
  | QInsertOutbox rows => InsertOutbox b rows
  | QSelectOutbox limit => SelectOutbox b limit
  | QMarkOutboxPublished at_ ids => MarkOutboxPublished b at_ ids
  | QUpsertType spec now => UpsertType json b spec now
  | QSelectType name => SelectType b name
  | QSelectTypes => SelectTypes b
  | QDeleteType name => DeleteType b name
  | QQueryTasks query after => built b (query_body b query after)
  | QCountTasks query => CountTasks b query
  | QSelectOverdue lease => SelectOverdue b lease
  | QClaimLease id lease => ClaimLease b id lease
  | QReleaseLease id owner => ReleaseLease b id owner
  | QSelectDueEvents claim => SelectDueEvents b claim
  | QClaimEvent id claim => ClaimEvent b id claim
  | QRecordAttempt record => RecordAttempt b record
  | QMarkAccepted acceptance => MarkAccepted json b acceptance
  | QMarkDeadLettered letter => MarkDeadLettered json b letter
  | QSelectOutboxEntry id => SelectOutboxEntry b id
  end.

Definition own (name : string) : Column := Col None name.
Definition of_t (name : string) : Column := Col (Some "t") name.
Definition is_ (c : Column) (s : string) : Test := TCmp c OpEqual (VString s).

(** *** Queries *)

Definition term_column (term : keyTerm) : Column := of_t (term_name term).

Definition order_terms (query : Query.t) : list OrderTerm :=
  (fun term =>
     match term with
     | termNoDeadline => MissingLast (term_column term)
     | _ => By (term_column term) (Some (Query.Descending query))
     end) <$> orderingKey (Query.OrderBy query).

Definition optional (set : bool) (tests : list Test) : list Test := if set then tests else [].

Section trees.
Context (json : SqlJson.t) (d : Dialect).

(** The terms that a task tied with the cursor agrees on. *)
Definition tied (term : keyTerm) (after : position.t) : list Test :=
  let column := term_column term in
  match term with
  | termPriority => [TCmp column OpEqual (VInt (position.Priority after))]
  | termNoDeadline =>
      match position.DueAt after with None => [TNull column] | Some _ => [TNotNull column] end
  | termDue =>
      match position.DueAt after with
      | None => []
      | Some _ => [TCmp column OpEqual (EncodeTime d (position.DueAt after))]
      end
  | termID => [is_ column (position.ID after)]
  end.

Definition past_cursor (op : Op) (term : keyTerm) (after : position.t) : Test :=
  let column := term_column term in
  match term with
  | termPriority => TCmp column op (VInt (position.Priority after))
  | termNoDeadline => TNull column
  | termDue => TCmp column op (EncodeTime d (position.DueAt after))
  | termID => TCmp column op (VString (position.ID after))
  end.

Fixpoint keyset_tests (op : Op) (passed terms : list keyTerm) (after : position.t) : list Test :=
  match terms with
  | [] => []
  | term :: rest =>
      if decide ((term = termNoDeadline \/ term = termDue) /\ position.DueAt after = None)
      then keyset_tests op (passed ++ [term]) rest after
      else TParen (TAll (concat ((fun term => tied term after) <$> passed) ++ [past_cursor op term after]))
             :: keyset_tests op (passed ++ [term]) rest after
  end.

Definition strict_op (query : Query.t) : Op := if Query.Descending query then OpLess else OpMore.

Definition keyset_test (query : Query.t) (after : position.t) : Test :=
  match keyset_tests (strict_op query) [] (orderingKey (Query.OrderBy query)) after with
  | [only] => only
  | tests => TParen (TAny tests)
  end.

(** A candidate row of the task, of a kind and a value. *)
Definition candidate_exists (negated : bool) (alias : string) (tests : list Test) : Test :=
  TExists negated CandidatesTable alias
    (TAll (TSame (Col (Some alias) "task_id") (of_t "id") :: tests)).

Definition kind_is (alias kind : string) : Test := is_ (Col (Some alias) "kind") kind.
Definition value_is (alias value : string) : Test := is_ (Col (Some alias) "value") value.

Definition candidate_test (query : ResolvedQuery.t) : list Test :=
  let candidate := Query.Candidate (ResolvedQuery.Query_ query) in
  let groups := ResolvedQuery.CandidateGroups query in
  optional (bool_decide (candidate <> ""))
    [TParen (TAll
      [TParen (TAny
        [TParen (is_ (of_t "assignee") candidate);
         TParen (TAll
           [TNull (of_t "assignee");
            candidate_exists false "c"
              [TParen (TAny
                 (TParen (TAll [kind_is "c" CandidateUser; value_is "c" candidate]) ::
                  optional (bool_decide (groups <> []))
                    [TParen (TAll [kind_is "c" CandidateGroup;
                                   TIn (Col (Some "c") "value") (VString <$> groups)])]))]])]);
       candidate_exists true "x" [kind_is "x" CandidateExcluded; value_is "x" candidate]])].

Definition filter_test (name value : string) : list Test :=
  optional (bool_decide (value <> "")) [is_ (of_t name) value].

Definition query_tests (query : ResolvedQuery.t) : list Test :=
  let qu := ResolvedQuery.Query_ query in
  filter_test "assignee" (Query.Assignee qu) ++
  optional (bool_decide (Query.Statuses qu <> []))
    [TIn (of_t "status") (VString ∘ Status_String <$> Query.Statuses qu)] ++
  optional (bool_decide (Query.Types qu <> [])) [TIn (of_t "task_type") (VString <$> Query.Types qu)] ++
  filter_test "owner_type" (Query.OwnerType qu) ++
  filter_test "owner_ref" (Query.OwnerRef qu) ++
  filter_test "activity_key" (Query.ActivityKey qu) ++
  match Query.DueBefore qu with
  | None => []
  | Some _ => [TNotNull (of_t "due_at"); TCmp (of_t "due_at") OpLess (EncodeTime d (Query.DueBefore qu))]
  end ++
  optional (bool_decide (Query.Group qu <> ""))
    [candidate_exists false "g" [kind_is "g" CandidateGroup; value_is "g" (Query.Group qu)]] ++
  candidate_test query.

(** *** Leases *)

Definition lease_free (now : Value) : Test :=
  TParen (TAny [TNull (own "locked_until"); TCmp (own "locked_until") OpAtMost now]).

Definition overdue_tests (lease : LeaseRequest.t) : list Test :=
  let now := EncodeTime d (Some (NormalizeTime (LeaseRequest.Now lease))) in
  [TNotNull (own "due_at"); TCmp (own "due_at") OpAtMost now;
   TIn (own "status") (VString ∘ Status_String <$> workingStatuses); lease_free now] ++
  optional (bool_decide (LeaseRequest.Types lease <> []))
    [TIn (own "task_type") (VString <$> LeaseRequest.Types lease)].

Definition due_tests (claim : OutboxClaim.t) : list Test :=
  let now := EncodeTime d (Some (NormalizeTime (OutboxClaim.Now claim))) in
  [TNull (own "published_at"); TNotNull (own "next_attempt_at");
   TCmp (own "next_attempt_at") OpAtMost now; lease_free now].

Definition lease_sets (owner : string) (until : Time) : list (string * Value) :=
  [("locked_by", nullString owner); ("locked_until", EncodeTime d (Some until))].

Definition release_sets : list (string * Value) := [("locked_by", VNil); ("locked_until", VNil)].

(** *** Settlements *)

Definition attempt_sets (record : AttemptRecord.t) : list (string * Value) :=
  [("attempts", VInt (AttemptRecord.Attempts record));
   ("next_attempt_at", EncodeTime d (Some (NormalizeTime (AttemptRecord.NextAttemptAt record))));
   ("last_error", nullString (AttemptRecord.LastError record))] ++ release_sets.

Definition accepted_sets (acceptance : Acceptance.t) : list (string * Value) :=
  [("accepted_sinks", encodeSinks json (Acceptance.Accepted acceptance));
   ("attempts", VInt (Acceptance.Attempts acceptance));
   ("last_error", nullString (match Acceptance.PublishedAt acceptance with
      | Some _ => "" | None => Acceptance.LastError acceptance end));
   ("published_at", EncodeTime d (Acceptance.PublishedAt acceptance))] ++
  match Acceptance.PublishedAt acceptance, Acceptance.NextAttemptAt acceptance with
  | None, Some _ => [("next_attempt_at", EncodeTime d (Acceptance.NextAttemptAt acceptance))]
  | _, _ => []
  end ++ release_sets.

Definition dead_sets (letter : DeadLetter.t) : list (string * Value) :=
  [("attempts", VInt (DeadLetter.Attempts letter));
   ("last_error", nullString (DeadLetter.LastError letter))] ++
  match DeadLetter.Accepted letter with
  | Some accepted => [("accepted_sinks", encodeSinks json accepted)]
  | None => []
  end ++ [("next_attempt_at", VNil)] ++ release_sets.
End trees.

(** *** All requests *)

Definition all_of (names : list string) : Selection := Columns None names.
Definition by_id (id : string) : list Test := [is_ (own "id") id].
Definition for_task (id : string) : list Test := [is_ (own "task_id") id].
Definition plain_order (names : list string) : list OrderTerm := (fun name => By (own name) None) <$> names.

Definition select_all (table : string) (names : list string) (tests : list Test)
    (order : list string) (limit : option Z) : Sql :=
  Select (all_of names) table None tests (plain_order order) limit false.

Definition values_where (names : list string) (values : list Value) (except : string)
  : list (string * Value) :=
  filter (fun set => set.1 <> except) (zip names values).

(** One page of a query, from a cursor on, and the row after it. *)
Definition page_query (d : Dialect) (query : ResolvedQuery.t) (after : option position.t) : Sql :=
  let qu := ResolvedQuery.Query_ query in
  Select (Columns (Some "t") taskColumns) TasksTable (Some "t")
    (query_tests d query ++ match after with None => [] | Some p => [keyset_test d qu p] end)
    (order_terms qu) (Some (Query.EffectiveLimit qu + 1)%Z) false.

(** The tree of a request; none where there is nothing to write. *)
Definition tree (json : SqlJson.t) (d : Dialect) (r : Request) : option Sql :=
  match r with
  | QInsertTask task => Some (Insert TasksTable taskColumns [taskArgs json d task])
  | QUpdateTask task expected =>
      Some (Update TasksTable (values_where taskColumns (taskArgs json d task) "id")
        [is_ (own "id") (Task.ID task); TCmp (own "version") OpEqual (VInt expected)])
  | QSelectTask id => Some (select_all TasksTable taskColumns (by_id id) [] None)
  | QSelectTaskVersion id => Some (select_all TasksTable ["version"] (by_id id) [] None)
  | QDeleteTask id => Some (Delete TasksTable (by_id id))
  | QInsertCandidates id pool =>
      match candidate_entries pool with
      | [] => None
      | entries => Some (Insert CandidatesTable ["task_id"; "kind"; "value"; "ordinal"]
                     (imap (candidate_values id) entries))
      end
  | QDeleteCandidates id => Some (Delete CandidatesTable (for_task id))
  | QSelectCandidates ids =>
      match ids with
      | [] => None
      | _ => Some (select_all CandidatesTable ["task_id"; "kind"; "value"]
               [TIn (own "task_id") (VString <$> ids)] ["task_id"; "kind"; "ordinal"] None)
      end
  | QInsertHistory records =>
      match records with
      | [] => None
      | _ => Some (Insert HistoryTable historyColumns (history_values d <$> records))
      end
  | QSelectHistory id =>
      Some (select_all HistoryTable historyColumns (for_task id) ["version"; "at"] None)
  | QInsertOutbox rows =>
      match rows with
      | [] => None
      | _ => Some (Insert OutboxTable outboxColumns (outbox_values d <$> rows))
      end
  | QSelectOutbox limit =>
      Some (select_all OutboxTable outboxColumns [TNull (own "published_at")] ["occurred_at"; "id"]
        (if decide (0 < limit)%Z then Some limit else None))
  | QMarkOutboxPublished at_ ids =>
      match ids with
      | [] => None
      | _ => Some (Update OutboxTable [("published_at", EncodeTime d (Some (NormalizeTime at_)))]
               [TIn (own "id") (VString <$> ids)])
      end
  | QUpsertType spec now =>
      Some (Upsert TypesTable typeColumns (type_values json d spec now) ["name"])
  | QSelectType name => Some (select_all TypesTable typeColumns [is_ (own "name") name] [] None)
  | QSelectTypes => Some (select_all TypesTable typeColumns [] ["name"] None)
  | QDeleteType name => Some (Delete TypesTable [is_ (own "name") name])
  | QQueryTasks query after => Some (page_query d query after)
  | QCountTasks query =>
      Some (Select Count TasksTable (Some "t") (query_tests d query) [] None false)
  | QSelectOverdue lease =>
      Some (Select (all_of ["id"]) TasksTable None (overdue_tests d lease)
        (plain_order ["due_at"; "id"]) (Some (limit_or DefaultLeaseBatch (LeaseRequest.Limit lease)))
        (SupportsSkipLocked d))
  | QClaimLease id lease =>
      Some (Update TasksTable
        (lease_sets d (LeaseRequest.Owner lease)
           (NormalizeTime (LeaseRequest.Now lease + LeaseRequest.Duration lease)))
        (by_id id ++ overdue_tests d lease))
  | QReleaseLease id owner =>
      Some (Update TasksTable release_sets (by_id id ++ [is_ (own "locked_by") owner]))
  | QSelectDueEvents claim =>
      Some (Select (all_of ["id"]) OutboxTable None (due_tests d claim)
        (plain_order ["occurred_at"; "id"])
        (Some (limit_or DefaultOutboxBatch (OutboxClaim.Limit claim))) (SupportsSkipLocked d))
  | QClaimEvent id claim =>
      Some (Update OutboxTable
        (lease_sets d (OutboxClaim.Owner claim)
           (NormalizeTime (OutboxClaim.Now claim + OutboxClaim.Duration claim)))
        (by_id id ++ due_tests d claim))
  | QRecordAttempt record =>
      Some (Update OutboxTable (attempt_sets d record) (by_id (AttemptRecord.EventID record)))
  | QMarkAccepted acceptance =>
      Some (Update OutboxTable (accepted_sets json d acceptance) (by_id (Acceptance.EventID acceptance)))
  | QMarkDeadLettered letter =>
      Some (Update OutboxTable (dead_sets json letter) (by_id (DeadLetter.EventID letter)))
  | QSelectOutboxEntry id => Some (select_all OutboxTable outboxColumns (by_id id) [] None)
  end.
