(* ===== verification/SqlPrintFacts.v ===== *)
(** * SqlPrintFacts: every statement is the printing of its tree

    What a computation of the writer does, in terms of the pieces it stands for,
    and from it that each method of the builder writes its tree of
    [SqlPrint.v]. *)

From S2P Require Import Prelude Domain Errors Event Query Outbox Store Registry Sqlkit SqlBuilder SqlPrint.

Lemma values_of_app ps1 ps2 : values_of (ps1 ++ ps2) = values_of ps1 ++ values_of ps2.
Proof. induction ps1 as [|[] ps1 IH]; cbn; [done|done|by rewrite IH]. Qed.

Lemma show_app d n ps1 ps2 :
  show d n (ps1 ++ ps2) = show d n ps1 +:+ show d (n + length (values_of ps1)) ps2.
Proof.
  revert n. induction ps1 as [|[s|v] ps1 IH]; intros n.
  - cbn. by rewrite Nat.add_0_r.
  - change (s +:+ show d n (ps1 ++ ps2) = (s +:+ show d n ps1) +:+ show d (n + length (values_of ps1)) ps2).
    by rewrite IH, (assoc_L String.append).
  - change (Placeholder d (S n) +:+ show d (S n) (ps1 ++ ps2) =
      (Placeholder d (S n) +:+ show d (S n) ps1) +:+ show d (n + S (length (values_of ps1))) ps2).
    rewrite IH, (assoc_L String.append). by rewrite Nat.add_succ_r.
Qed.

(** The texts of several lists of pieces, one after the other. *)
Fixpoint shows (d : Dialect) (n : nat) (pss : list (list piece)) : list string :=
  match pss with
  | [] => []
  | ps :: pss => show d n ps :: shows d (n + length (values_of ps)) pss
  end.

Lemma values_of_joined sep pss : values_of (joined sep pss) = values_of (concat pss).
Proof.
  induction pss as [|ps [|ps' pss] IH]; [done|by cbn; rewrite app_nil_r|].
  change (values_of (ps ++ Lit sep :: joined sep (ps' :: pss)) = values_of (ps ++ concat (ps' :: pss))).
  rewrite !values_of_app. cbn [values_of]. by rewrite IH.
Qed.

Lemma concat_shows d n sep pss : String.concat sep (shows d n pss) = show d n (joined sep pss).
Proof.
  revert n. induction pss as [|ps [|ps' pss] IH]; intros n; [done|done|].
  change (show d n ps +:+ sep +:+ String.concat sep (shows d (n + length (values_of ps)) (ps' :: pss)) =
    show d n (ps ++ Lit sep :: joined sep (ps' :: pss))).
  rewrite IH, show_app. done.
Qed.

Lemma shows_app d n pss1 pss2 :
  shows d n (pss1 ++ pss2) = shows d n pss1 ++ shows d (n + length (values_of (concat pss1))) pss2.
Proof.
  revert n. induction pss1 as [|ps pss IH]; intros n; cbn; [by rewrite Nat.add_0_r|].
  rewrite IH, values_of_app, length_app. by rewrite Nat.add_assoc.
Qed.

(** ** What a computation of the writer does *)

(** The writer after binding some values, and after writing too. *)
Definition bound (w : Writer.t) (vs : list Value) : Writer.t :=
  Writer.mk (Writer.dialect w) (Writer.sql w) (Writer.args w ++ vs).

Definition position_of (w : Writer.t) : nat := length (Writer.args w).

(** A text that was not written yet, with its values bound. *)
Definition Yields (m : W string) (ps : list piece) : Prop := forall w,
  m w = (show (Writer.dialect w) (position_of w) ps, bound w (values_of ps)).

Definition YieldsAll (m : W (list string)) (pss : list (list piece)) : Prop := forall w,
  m w = (shows (Writer.dialect w) (position_of w) pss, bound w (values_of (concat pss))).

(** A text that was written, after what was. *)
Definition appended (w : Writer.t) (ps : list piece) : Writer.t :=
  Writer.mk (Writer.dialect w)
    (Writer.sql w +:+ show (Writer.dialect w) (position_of w) ps) (Writer.args w ++ values_of ps).

Definition Writes (m : W unit) (ps : list piece) : Prop := forall w, m w = (tt, appended w ps).

Lemma bound_nil w : bound w [] = w.
Proof. destruct w. unfold bound; cbn. by rewrite app_nil_r. Qed.

Lemma bound_bound w vs1 vs2 : bound (bound w vs1) vs2 = bound w (vs1 ++ vs2).
Proof. unfold bound; cbn. by rewrite <- app_assoc. Qed.

Lemma position_bound w vs : position_of (bound w vs) = position_of w + length vs.
Proof. unfold position_of, bound; cbn. by rewrite length_app. Qed.

Lemma appended_nil w : appended w [] = w.
Proof. destruct w. unfold appended; cbn. by rewrite app_nil_r, (right_id_L "" String.append). Qed.

Lemma appended_appended w ps1 ps2 : appended (appended w ps1) ps2 = appended w (ps1 ++ ps2).
Proof.
  unfold appended, position_of; cbn. rewrite show_app, values_of_app, length_app.
  by rewrite <- app_assoc, (assoc_L String.append).
Qed.

(** Two lists of pieces that are written alike. *)
Definition Same (ps1 ps2 : list piece) : Prop :=
  values_of ps1 = values_of ps2 /\ forall d n, show d n ps1 = show d n ps2.

Lemma Same_refl ps : Same ps ps. Proof. done. Qed.

Lemma Writes_same m ps1 ps2 : Same ps1 ps2 -> Writes m ps1 -> Writes m ps2.
Proof. intros [Hv Hs] Hm w. rewrite Hm. unfold appended. by rewrite Hv, Hs. Qed.

Lemma Yields_same m ps1 ps2 : Same ps1 ps2 -> Yields m ps1 -> Yields m ps2.
Proof. intros [Hv Hs] Hm w. rewrite Hm. by rewrite Hv, Hs. Qed.

Lemma writes_ret : Writes (wret tt) [].
Proof. intros w. by rewrite appended_nil. Qed.

Lemma writes_seq m1 m2 ps1 ps2 : Writes m1 ps1 -> Writes m2 ps2 -> Writes (m1 ;;* m2) (ps1 ++ ps2).
Proof. intros H1 H2 w. unfold wbind. by rewrite H1, H2, appended_appended. Qed.

Lemma writes_text parts : Writes (write parts) (Lit <$> parts).
Proof.
  intros w. unfold write. f_equal. revert w. unfold Write.
  induction parts as [|s parts IH]; intros w; cbn [for_each fmap list_fmap]; [by rewrite appended_nil|].
  rewrite IH. change (Lit s :: (Lit <$> parts)) with ([Lit s] ++ (Lit <$> parts)).
  rewrite <- appended_appended. f_equal.
  unfold appended; cbn. by rewrite app_nil_r, (right_id_L "" String.append).
Qed.

(** A text is bound, and then written between others. *)
Lemma writes_between m ps before after_ :
  Yields m ps ->
  Writes (let* s := m in write (before ++ s :: after_)) ((Lit <$> before) ++ ps ++ (Lit <$> after_)).
Proof.
  intros Hm w. unfold wbind. rewrite Hm. unfold write. f_equal.
  assert (HW : forall parts w, Write parts w = appended w (Lit <$> parts)).
  { intros parts w'. pose proof (writes_text parts w') as E. unfold write in E. by injection E. }
  rewrite HW. unfold appended, bound; cbn.
  assert (Hl : forall l, values_of (Lit <$> l) = []) by (induction l; cbn; auto).
  assert (Hs : forall d n n' l, show d n (Lit <$> l) = show d n' (Lit <$> l)).
  { intros d n n' l. induction l as [|s l IH]; [done|]. cbn [fmap list_fmap show]. by rewrite IH. }
  rewrite !values_of_app, !Hl, !app_nil_r, fmap_app, fmap_cons. cbn [app].
  rewrite !show_app. cbn [show]. rewrite !Hl. cbn [length]. rewrite !Nat.add_0_r.
  by rewrite (Hs _ (length _) (position_of w) before),
    (Hs _ (length _) (position_of w + length (values_of ps)) after_).
Qed.

Lemma yields_text s : Yields (wret s) [Lit s].
Proof. intros w. unfold wret. cbn. by rewrite bound_nil, (right_id_L "" String.append). Qed.

Lemma yields_bind v : Yields (bind_ v) [Arg v].
Proof.
  intros w. unfold bind_, Bind. cbn. f_equal.
  rewrite length_app, (right_id_L "" String.append). cbn. by rewrite Nat.add_1_r.
Qed.

Lemma yields_all_nil : YieldsAll (wret []) [].
Proof. intros w. cbn. by rewrite bound_nil. Qed.

Lemma yields_collect {X} (body : X -> W string) (f : X -> list piece) l :
  (forall x, Yields (body x) (f x)) -> YieldsAll (collect body l) (f <$> l).
Proof.
  intros Hf. induction l as [|x l IH]; [apply yields_all_nil|]. intros w.
  cbn [collect]. unfold wbind. rewrite Hf, IH. unfold wret.
  rewrite position_bound, bound_bound. cbn [fmap list_fmap shows concat]. by rewrite values_of_app.
Qed.

Lemma yields_bindAll vs : Yields (bindAll vs) (markers vs).
Proof.
  intros w. unfold bindAll, BindAll, markers. rewrite values_of_joined, <- concat_shows.
  assert (E : bind_each vs w = collect bind_ vs w).
  { revert w. induction vs as [|v vs IH]; intros w; [done|]. cbn [bind_each collect]. unfold wbind, bind_.
    destruct (Bind v w) as [s w']. rewrite IH. fold bind_. unfold wret.
    destruct (collect bind_ vs w') as [l w'']. done. }
  pose proof (yields_collect bind_ (fun v => [Arg v]) vs yields_bind w) as Hc.
  by rewrite E, Hc.
Qed.

(** ** Conditions *)

Lemma bind_eq v w : bind_ v w = (Placeholder (Writer.dialect w) (S (position_of w)), bound w [v]).
Proof. rewrite (yields_bind v w). cbn. by rewrite (right_id_L "" String.append). Qed.

Lemma bindAll_eq vs w :
  bindAll vs w = (show (Writer.dialect w) (position_of w) (markers vs), bound w vs).
Proof.
  rewrite (yields_bindAll vs w). do 2 f_equal. unfold markers. rewrite values_of_joined.
  induction vs; cbn; [done|]. by f_equal.
Qed.

Lemma values_of_markers vs : values_of (markers vs) = vs.
Proof. unfold markers. rewrite values_of_joined. induction vs; cbn; [done|]. by f_equal. Qed.

(** Runs a computation of the writer, and compares texts up to the grouping of
    their parts. *)
Ltac run := unfold wbind, wret; rewrite ?bind_eq, ?bindAll_eq; cbn [fst snd Writer.dialect bound].
Ltac same_text :=
  unfold taskColumn, termColumn, lease_free, is_, print_set; cbn [print List.map joined]; cbn [column_text of_t own op_text fst snd];
  cbn [show values_of app]; rewrite ?show_app, ?values_of_app, ?values_of_markers;
  cbn [show values_of app length String.concat];
  rewrite ?length_app; cbn [length]; rewrite ?Nat.add_succ_r, ?Nat.add_0_r;
  cbn [Nat.add]; rewrite ?app_nil_r, ?(right_id_L "" String.append), <- ?(assoc_L String.append);
  reflexivity.

Ltac same_values :=
  unfold lease_free, is_, print_set; cbn [print List.map joined];
  repeat (progress (cbn [values_of app]; rewrite ?values_of_app, ?values_of_markers));
  rewrite ?app_nil_r, <- ?app_assoc; reflexivity.

Section conditions.
Context (json : SqlJson.t) (b : Builder.t).
Let d := Builder.dialect b.

Lemma taskColumn_text name : taskColumn b name = column_text b (of_t name).
Proof. done. Qed.

Lemma yields_in_list c vs :
  Yields (in_list (column_text b c) vs) (print b (TIn c vs)).
Proof. intros w. unfold in_list. run. cbn [print]. same_text. Qed.

Lemma yields_compare c op v :
  Yields (let* m := bind_ v in wret (column_text b c +:+ op_text op +:+ m)) (print b (TCmp c op v)).
Proof. intros w. run. cbn [print]. same_text. Qed.

(** A condition that is there, or not. *)
Lemma yields_when set m pss : YieldsAll m pss -> YieldsAll (when set m) (if set then pss else []).
Proof. destruct set; [done|]. intros _. apply yields_all_nil. Qed.

Lemma yields_one m ps : Yields m ps -> YieldsAll (let* c := m in wret [c]) [ps].
Proof. intros Hm w. unfold wbind, wret. rewrite Hm. cbn [shows concat]. by rewrite app_nil_r. Qed.

Lemma yields_all_app m1 m2 pss1 pss2 : YieldsAll m1 pss1 -> YieldsAll m2 pss2 ->
  YieldsAll (let* l1 := m1 in let* l2 := m2 in wret (l1 ++ l2)) (pss1 ++ pss2).
Proof.
  intros H1 H2 w. unfold wbind, wret. rewrite H1, H2. cbn [Writer.dialect bound].
  by rewrite bound_bound, position_bound, concat_app, values_of_app, shows_app.
Qed.

Lemma yields_filter name value :
  YieldsAll (column_filter b (name, value)) (List.map (print b) (filter_test name value)).
Proof.
  unfold column_filter, filter_test, optional. cbn [fst snd].
  pose proof (yields_when (bool_decide (value <> ""))
    (let* marker := bind_ (VString value) in wret [taskColumn b name +:+ " = " +:+ marker])
    [print b (is_ (of_t name) value)]) as H.
  destruct (bool_decide _); apply H;
    exact (yields_one _ _ (yields_compare (of_t name) OpEqual (VString value))).
Qed.

Lemma op_text_strict qu : op_text (strict_op qu) = if Query.Descending qu then " < " else " > ".
Proof. unfold strict_op. by destruct (Query.Descending qu). Qed.

Lemma yields_beyond op term after :
  Yields (keyBeyond b term after (op_text op)) (print b (past_cursor d op term after)).
Proof.
  destruct term.
  - exact (yields_compare (term_column termPriority) op _).
  - apply yields_text.
  - exact (yields_compare (term_column termDue) op _).
  - exact (yields_compare (term_column termID) op _).
Qed.

Lemma quoted_nonempty c rest ps d' n : show d' n (Lit (column_text b (of_t c) +:+ rest) :: ps) <> "".
Proof. unfold column_text, of_t. cbn [show]. unfold Quote, quoteWith. by destruct (Builder.dialect b). Qed.

(** [keyEqual] says nothing, or one condition. *)
Lemma yields_equal term after :
  (tied d term after = [] /\ keyEqual b term after = wret "") \/
  exists t, tied d term after = [t] /\ Yields (keyEqual b term after) (print b t) /\
    forall d' n, show d' n (print b t) <> "".
Proof.
  destruct term; cbn [keyEqual tied].
  - right. eexists. split; [done|]. split; [exact (yields_compare (term_column termPriority) OpEqual _)|].
    intros; apply quoted_nonempty.
  - right. destruct (position.DueAt after); eexists; (split; [done|]);
      (split; [apply yields_text|intros; apply quoted_nonempty]).
  - destruct (position.DueAt after) eqn:E; [|by left]. rewrite <- E.
    right. eexists. split; [done|]. split; [exact (yields_compare (term_column termDue) OpEqual _)|].
    intros; apply quoted_nonempty.
  - right. eexists. split; [done|]. split; [exact (yields_compare (term_column termID) OpEqual _)|].
    intros; apply quoted_nonempty.
Qed.

Lemma yields_equal_parts terms after :
  YieldsAll (equal_parts b terms after)
    (List.map (print b) (concat ((fun term => tied d term after) <$> terms))).
Proof.
  induction terms as [|term terms IH]; [apply yields_all_nil|]. intros w. cbn [equal_parts fmap list_fmap concat].
  destruct (yields_equal term after) as [ [Et Ek] | (t & Et & Hy & Hne)]; rewrite Et; cbn [app List.map].
  - rewrite Ek. unfold wbind, wret. rewrite IH. by rewrite decide_False by (intros H; by apply H).
  - unfold wbind, wret. rewrite Hy, IH, decide_True by apply Hne.
    cbn [shows concat Writer.dialect bound]. by rewrite bound_bound, position_bound, values_of_app.
Qed.

(** Conditions joined and closed off. *)
Lemma show_paren d' n ps : show d' n (Lit "(" :: ps ++ [Lit ")"]) = "(" +:+ show d' n ps +:+ ")".
Proof. cbn [show]. rewrite show_app. done. Qed.

Lemma values_of_paren ps : values_of (Lit "(" :: ps ++ [Lit ")"]) = values_of ps.
Proof. cbn. by rewrite values_of_app, app_nil_r. Qed.

Lemma yields_disjuncts op passed terms after :
  YieldsAll (keyset_disjuncts b passed terms after (op_text op))
    (List.map (print b) (keyset_tests d op passed terms after)).
Proof.
  revert passed. induction terms as [|term terms IH]; intros passed; [apply yields_all_nil|].
  intros w. cbn [keyset_disjuncts keyset_tests]. case_decide; [apply IH|].
  unfold wbind, wret. rewrite yields_equal_parts, yields_beyond, IH.
  cbn [List.map shows concat Writer.dialect bound]. rewrite !bound_bound, !position_bound.
  set (parts := List.map (print b) _). set (last := print b (past_cursor d op term after)).
  assert (E : print b (TParen (TAll (concat ((fun term => tied d term after) <$> passed) ++
    [past_cursor d op term after]))) = Lit "(" :: joined " AND " (parts ++ [last]) ++ [Lit ")"]).
  { cbn [print]. by rewrite List.map_app. }
  rewrite E, values_of_app, values_of_paren, values_of_joined, concat_app, values_of_app.
  cbn [concat]. rewrite app_nil_r, <- app_assoc. f_equal.
  rewrite ?length_app, ?Nat.add_assoc. do 2 f_equal.
  rewrite show_paren, <- concat_shows, shows_app. cbn [shows]. done.
Qed.

Lemma yields_keyset qu after :
  Yields (keysetCondition b qu after) (print b (keyset_test d qu after)).
Proof.
  intros w. unfold keysetCondition, keyset_test, wbind, wret.
  rewrite <- op_text_strict, yields_disjuncts.
  destruct (keyset_tests d _ _ _ _) as [|t [|t' ts]]; cbn [List.map].
  - cbn. by rewrite bound_nil.
  - cbn [shows concat]. by rewrite app_nil_r.
  - change (print b (TParen (TAny (t :: t' :: ts)))) with
      (Lit "(" :: joined " OR " (List.map (print b) (t :: t' :: ts)) ++ [Lit ")"]).
    rewrite show_paren, values_of_paren, values_of_joined, <- concat_shows. done.
Qed.

Lemma yields_candidate query :
  YieldsAll
    (let* c := candidateCondition b query in wret (if decide (c <> "") then [c] else []))
    (List.map (print b) (candidate_test query)).
Proof.
  intros w. unfold candidateCondition, candidate_test.
  destruct (decide (Query.Candidate (ResolvedQuery.Query_ query) = "")) as [->|Hc].
  { cbn. by rewrite bound_nil. }
  rewrite (bool_decide_true (Query.Candidate _ <> "")) by done. unfold when, wbind, wret.
  destruct (ResolvedQuery.CandidateGroups query) as [|g gs] eqn:Eg; cbn [bool_decide].
  - rewrite (bool_decide_false ([] <> [])) by (intros H; by apply H).
    rewrite !bind_eq. rewrite decide_True by done. cbn [optional List.map shows concat]. rewrite app_nil_r, !bound_bound, !position_bound.
    cbn [print List.map joined candidate_exists kind_is value_is is_ of_t column_text op_text Writer.dialect bound].
    do 2 f_equal. same_text.
  - rewrite (bool_decide_true (g :: gs <> [])) by done.
    rewrite !bind_eq, bindAll_eq, !bind_eq. rewrite decide_True by done. cbn [optional List.map shows concat]. rewrite app_nil_r, !bound_bound, !position_bound.
    cbn [print List.map joined candidate_exists kind_is value_is is_ of_t column_text op_text Writer.dialect bound].
    do 2 f_equal; [same_text|same_values].
Qed.

(** The blocks of [queryConditions]. *)
Lemma yields_in_block set c vs :
  YieldsAll (when set (let* t := in_list (column_text b c) vs in wret [t]))
    (List.map (print b) (optional set [TIn c vs])).
Proof.
  pose proof (yields_when set _ _ (yields_one _ _ (yields_in_list c vs))) as H. by destruct set.
Qed.

Lemma yields_due_before qu :
  YieldsAll
    match Query.DueBefore qu with
    | None => wret []
    | Some _ =>
        let* m := bind_ (encodeTime d (Query.DueBefore qu)) in
        wret [taskColumn b "due_at" +:+ " IS NOT NULL"; taskColumn b "due_at" +:+ " < " +:+ m]
    end
    (List.map (print b)
       match Query.DueBefore qu with
       | None => []
       | Some _ => [TNotNull (of_t "due_at"); TCmp (of_t "due_at") OpLess (EncodeTime d (Query.DueBefore qu))]
       end).
Proof.
  destruct (Query.DueBefore qu) as [t|]; [|apply yields_all_nil]. intros w. run.
  cbn [List.map print shows concat column_text of_t op_text].
  do 2 f_equal; [same_text|f_equal; same_text].
Qed.

Lemma yields_group qu :
  YieldsAll (when (bool_decide (Query.Group qu <> ""))
    (let alias := Quote d "t" +:+ "." in
     let groups := Quote d "g" in
     let* m1 := bind_ (VString CandidateGroup) in
     let* m2 := bind_ (VString (Query.Group qu)) in
     wret ["EXISTS (SELECT 1 FROM " +:+ Table b CandidatesTable +:+ " AS " +:+ groups +:+
       " WHERE " +:+ groups +:+ "." +:+ Quote d "task_id" +:+ " = " +:+ alias +:+ Quote d "id" +:+
       " AND " +:+ groups +:+ "." +:+ Quote d "kind" +:+ " = " +:+ m1 +:+
       " AND " +:+ groups +:+ "." +:+ Quote d "value" +:+ " = " +:+ m2 +:+ ")"]))
    (List.map (print b) (optional (bool_decide (Query.Group qu <> ""))
       [candidate_exists false "g" [kind_is "g" CandidateGroup; value_is "g" (Query.Group qu)]])).
Proof.
  destruct (bool_decide _); [|apply yields_all_nil]. intros w. cbn zeta. unfold when. run.
  cbn [optional List.map print shows concat joined candidate_exists kind_is value_is is_ of_t column_text op_text].
  rewrite bound_bound, !position_bound. do 2 f_equal. same_text.
Qed.

Lemma yields_conditions query :
  YieldsAll (queryConditions b query) (List.map (print b) (query_tests d query)).
Proof.
  intros w. unfold queryConditions, query_tests. set (qu := ResolvedQuery.Query_ query).
  pose proof (yields_filter "assignee" (Query.Assignee qu)) as H1.
  unfold column_filter in H1. cbn [fst snd] in H1.
  pose proof (yields_in_block (bool_decide (Query.Statuses qu <> [])) (of_t "status")
    (VString ∘ Status_String <$> Query.Statuses qu)) as H2.
  pose proof (yields_in_block (bool_decide (Query.Types qu <> [])) (of_t "task_type")
    (VString <$> Query.Types qu)) as H3.
  pose proof (yields_due_before qu) as H5. pose proof (yields_group qu) as H6.
  pose proof (yields_candidate query) as H7.
  unfold YieldsAll in H1, H2, H3, H5, H6, H7. rewrite !taskColumn_text in *.
  cbn [collect]. unfold wbind, wret in *.
  rewrite H1. cbn iota beta. rewrite H2. cbn iota beta. rewrite H3. cbn iota beta.
  rewrite !yields_filter. cbn iota beta. rewrite H5. cbn iota beta. rewrite H6. cbn iota beta.
  match goal with |- context [candidateCondition b query ?w'] => specialize (H7 w');
    destruct (candidateCondition b query w') as [c wc] end.
  injection H7 as Hc Hw. rewrite Hc, Hw. rewrite !List.map_app.
  repeat match goal with |- context [List.map (print b) ?l] => generalize (List.map (print b) l); intros ? end.
  cbn [concat Writer.dialect bound]. rewrite !bound_bound, !position_bound, app_nil_r.
  rewrite !shows_app, !concat_app, !values_of_app, !length_app, !Nat.add_assoc, <- !app_assoc. done.
Qed.

Lemma yields_overdue lease :
  YieldsAll (overdueConditions b lease) (List.map (print b) (overdue_tests d lease)).
Proof.
  intros w. unfold overdueConditions, overdue_tests.
  pose proof (yields_in_block (bool_decide (LeaseRequest.Types lease <> [])) (own "task_type")
    (VString <$> LeaseRequest.Types lease)) as Ht.
  rewrite List.map_app. unfold YieldsAll in Ht. cbn [column_text own] in Ht.
  set (types := List.map (print b) (optional _ _)) in *. clearbody types.
  cbv zeta. unfold wbind, wret in *. rewrite !bind_eq, !bindAll_eq, !bind_eq, Ht. clear Ht.
  cbn [List.map concat app lease_free Writer.dialect bound]. rewrite !bound_bound, !position_bound.
  generalize (VString ∘ Status_String <$> workingStatuses). intros working.
  f_equal; [|f_equal; cbn [print joined List.map]; same_values].
  cbn [shows app]. f_equal; [same_text|].
  f_equal; [same_text|]. f_equal; [same_text|].
  f_equal; [same_text|].
  f_equal. unfold lease_free. cbn [print joined List.map values_of app].
  repeat (progress (cbn [values_of app length]; rewrite ?values_of_app, ?values_of_markers, ?length_app)).
  cbn [length]. lia.
Qed.

Lemma yields_due claim :
  YieldsAll (dueEventConditions b claim) (List.map (print b) (due_tests d claim)).
Proof.
  intros w. unfold dueEventConditions, due_tests. cbv zeta. run.
  cbn [List.map concat shows lease_free app]. rewrite !bound_bound, !position_bound. f_equal.
  do 3 (f_equal; [same_text|]). f_equal. same_text.
Qed.

(** ** Statements *)

Lemma built_writes body ps s :
  Writes body ps -> Same ps (print_sql b s) -> built b body = rendered b s.
Proof.
  intros Hw [Hv Hs]. unfold built, rendered, statement_of, Done. rewrite Hw. cbn. by rewrite Hv, <- Hs.
Qed.

Definition when_where (pss : list (list piece)) : list piece :=
  match pss with [] => [] | _ => Lit " WHERE " :: joined " AND " pss end.

Lemma values_of_where pss : values_of (when_where pss) = values_of (concat pss).
Proof. destruct pss; [done|]. cbn [when_where values_of]. by rewrite values_of_joined. Qed.

Lemma print_where_map tests : print_where b tests = when_where (List.map (print b) tests).
Proof. by destruct tests. Qed.

(** Conditions are gathered, and then written. *)
Lemma writes_where m pss : YieldsAll m pss -> Writes (let* cs := m in where_ cs) (when_where pss).
Proof.
  intros Hm w. unfold wbind. rewrite Hm. unfold where_. destruct pss as [|ps pss].
  { rewrite decide_False by (cbn; lia). unfold wret. cbn. by rewrite bound_nil, appended_nil. }
  rewrite decide_True by (cbn; lia). unfold write, Write. cbn [for_each]. f_equal.
  unfold appended, bound; cbn [Writer.sql Writer.args Writer.dialect upd Writer.eta]. 
  rewrite concat_shows. cbn [when_where show values_of]. rewrite values_of_joined.
  by rewrite <- (assoc_L String.append).
Qed.
Lemma write_eq parts w : write parts w = (tt, appended w (Lit <$> parts)).
Proof. apply writes_text. Qed.

Lemma length_values (l : list string) : values_of (Lit <$> l) = [].
Proof. induction l; cbn; auto. Qed.

Lemma position_appended w ps : position_of (appended w ps) = position_of w + length (values_of ps).
Proof. unfold position_of, appended; cbn. by rewrite length_app. Qed.

Lemma where_eq m pss w : YieldsAll m pss ->
  (let '(cs, w') := m w in where_ cs w') = (tt, appended w (when_where pss)).
Proof. intros Hm. apply (writes_where m pss Hm w). Qed.
End conditions.

Lemma write_mk parts d s a :
  write parts (Writer.mk d s a) = (tt, Writer.mk d (s +:+ show d 0 (Lit <$> parts)) a).
Proof.
  rewrite write_eq. unfold appended; cbn. rewrite length_values, app_nil_r. do 2 f_equal.
  unfold position_of; cbn. f_equal. generalize 0, (length a). induction parts as [|p parts IH]; [done|].
  intros m n. cbn [fmap list_fmap show]. by rewrite (IH m n).
Qed.

Lemma bind_mk v d s a : bind_ v (Writer.mk d s a) = (Placeholder d (S (length a)), Writer.mk d s (a ++ [v])).
Proof. apply bind_eq. Qed.

Lemma bindAll_mk vs d s a :
  bindAll vs (Writer.mk d s a) = (show d (length a) (markers vs), Writer.mk d s (a ++ vs)).
Proof. apply bindAll_eq. Qed.

(** Runs a whole statement. *)
Ltac run_statement :=
  unfold built, rendered, statement_of, Done, wbind, wret, NewWriter;
  repeat (first [rewrite write_mk | rewrite bind_mk | rewrite bindAll_mk];
          cbn iota beta; cbn [app length]);
  cbn [snd Writer.sql Writer.args Writer.dialect fmap list_fmap].

Ltac same_statement :=
  unfold select_all, by_id, for_task, is_, plain_order, all_of, attempt_sets,
    accepted_sets, dead_sets, lease_sets, encodeTime, print_row; unfold release_sets;
  cbn [print_sql print_where print_order print_limit selection_text fmap list_fmap order_text app
       joined print_set fst snd print List.map op_text column_text own];
  unfold print_row; f_equal; first [same_text|same_values].


(** ** Lists of rows, assignments and conditions *)

Section lists.
Context (b : Builder.t).
Let d := Builder.dialect b.

Lemma all_mk m pss d' s a : YieldsAll m pss ->
  m (Writer.mk d' s a) = (shows d' (length a) pss, Writer.mk d' s (a ++ values_of (concat pss))).
Proof. intros Hm. apply Hm. Qed.

Lemma yields_row vs : Yields (marker_row vs) (print_row vs).
Proof. intros w. unfold marker_row, print_row. run. same_text. Qed.

Lemma yields_rows {X} (f : X -> list Value) l :
  YieldsAll (collect (fun x => marker_row (f x)) l) (print_row <$> (f <$> l)).
Proof. rewrite <- list_fmap_compose. apply yields_collect. intros x. apply yields_row. Qed.

Lemma yields_assignments columns args :
  YieldsAll (assignments b columns args) (print_set b <$> values_where columns args "id").
Proof.
  revert args. induction columns as [|c columns IH]; intros [|v args]; [apply yields_all_nil..|].
  intros w. cbn [assignments]. unfold values_where. cbn [zip zip_with]. rewrite filter_cons. cbn [fst].
  destruct (decide (c = "id")) as [->|Hc].
  - rewrite decide_False by (intros H; by apply H). apply IH.
  - rewrite decide_True by done. unfold wbind, wret. rewrite bind_eq. rewrite IH.
    cbn [fmap list_fmap shows concat Writer.dialect bound]. rewrite bound_bound, position_bound.
    do 2 f_equal.
    unfold print_set. cbn [show fst snd]. by rewrite (right_id_L "" String.append), <- (assoc_L String.append).
Qed.

Lemma where_mk d' s a n pss :
  where_ (shows d' n pss) (Writer.mk d' s a) =
  (tt, Writer.mk d' (s +:+ show d' n (when_where pss)) a).
Proof.
  unfold where_. destruct pss as [|ps pss].
  { rewrite decide_False by (cbn; lia). unfold wret. cbn. by rewrite (right_id_L "" String.append). }
  rewrite decide_True by (cbn; lia). rewrite write_mk. cbn [fmap list_fmap show].
  by rewrite concat_shows, (right_id_L "" String.append).
Qed.

(** [orderBy] prints the terms of the ordering. *)
Lemma orderBy_text qu : print_order b (order_terms qu) = [Lit (" ORDER BY " +:+ orderBy b qu)].
Proof.
  unfold print_order, order_terms, orderBy.
  destruct (Query.OrderBy qu), (Query.Descending qu); reflexivity.
Qed.
End lists.

#[local] Opaque quoteList Quote Placeholder Table.

(** ** The longer statements *)

Section statements.
Context (json : SqlJson.t) (b : Builder.t).
Let d := Builder.dialect b.

Lemma update_task_text task expected :
  UpdateTask json b task expected =
  rendered b (Update TasksTable (values_where taskColumns (taskArgs json d task) "id")
    [is_ (own "id") (Task.ID task); TCmp (own "version") OpEqual (VInt expected)]).
Proof.
  unfold UpdateTask. fold d. pose proof (yields_assignments b taskColumns (taskArgs json d task)) as Ha.
  revert Ha. generalize (values_where taskColumns (taskArgs json d task) "id"). intros sets Ha.
  generalize (taskArgs json d task), Ha. clear Ha. intros args Ha.
  unfold built, rendered, statement_of, Done, wbind, wret, NewWriter. fold d.
  rewrite write_mk. cbn iota beta. rewrite (all_mk _ _ _ _ _ Ha). cbn iota beta.
  run_statement. rewrite concat_shows. cbn [print_sql is_]. f_equal.
  - cbn [print_where print List.map joined op_text column_text own].
    rewrite <- values_of_joined with (sep := ", "). same_text.
  - rewrite <- values_of_joined with (sep := ", "). cbn [print_where print List.map joined]. same_values.
Qed.

(** Rows gathered, and then written. *)
Lemma insert_text table columns (rows : list (list Value)) m :
  YieldsAll m (print_row <$> rows) -> rows <> [] ->
  built b (write ["INSERT INTO "; Table b table; " ("; quoteList b "" columns; ") VALUES "];;*
           let* rows := m in write [String.concat ", " rows]) =
  rendered b (Insert table columns rows).
Proof.
  intros Hm _. unfold built, rendered, statement_of, Done, wbind, wret, NewWriter.
  rewrite write_mk. cbn iota beta. rewrite (all_mk _ _ _ _ _ Hm). cbn iota beta.
  rewrite write_mk. cbn [snd Writer.sql Writer.args fmap list_fmap].
  rewrite concat_shows. cbn [print_sql]. f_equal.
  - same_text.
  - by rewrite <- values_of_joined with (sep := ", ").
Qed.

Lemma insert_candidates_text id pool :
  InsertCandidates b id pool =
  match candidate_entries pool with
  | [] => Statement.zero
  | entries => rendered b (Insert CandidatesTable ["task_id"; "kind"; "value"; "ordinal"]
                 (imap (candidate_values id) entries))
  end.
Proof.
  unfold InsertCandidates. destruct (candidate_entries pool) as [|e es] eqn:E.
  { by rewrite decide_True. }
  rewrite decide_False by done. set (rows := imap (candidate_values id) (e :: es)).
  rewrite <- (insert_text CandidatesTable _ rows (collect marker_row rows));
    [|apply yields_collect, yields_row|done].
  reflexivity.
Qed.

Lemma query_text query after :
  built b (query_body b query after) =
  rendered b (Select (Columns (Some "t") taskColumns) TasksTable (Some "t")
    (query_tests d query ++
     match after with None => [] | Some p => [keyset_test d (ResolvedQuery.Query_ query) p] end)
    (order_terms (ResolvedQuery.Query_ query))
    (Some (Query.EffectiveLimit (ResolvedQuery.Query_ query) + 1)%Z) false).
Proof.
  set (qu := ResolvedQuery.Query_ query). unfold query_body. fold qu. fold d.
  set (more := match after with None => wret [] | Some p => let* c := keysetCondition b qu p in wret [c] end).
  set (tests := match after with None => [] | Some p => [keyset_test d qu p] end).
  assert (Hm : YieldsAll more (List.map (print b) tests)).
  { unfold more, tests. destruct after; [|apply yields_all_nil]. apply yields_one, yields_keyset. }
  pose proof (yields_conditions b query) as Hc. fold d in Hc. clearbody more tests.
  unfold built, rendered, statement_of, Done, wbind, wret, NewWriter. fold d.
  repeat (rewrite write_mk; cbn iota beta). rewrite (all_mk _ _ _ _ _ Hc). cbn iota beta. rewrite (all_mk _ _ _ _ _ Hm). cbn iota beta.
  rewrite app_nil_l, length_nil, <- shows_app, where_mk. cbn iota beta.
  run_statement. cbn [print_sql]. rewrite print_where_map, orderBy_text, List.map_app.
  rewrite <- values_of_app, <- concat_app.
  set (pss := List.map (print b) (query_tests d query) ++ List.map (print b) tests).
  rewrite <- values_of_where. cbn [print_limit selection_text]. fold d. f_equal; [same_text|same_values].
Qed.

Lemma count_text query :
  CountTasks b query = rendered b (Select Count TasksTable (Some "t") (query_tests d query) [] None false).
Proof.
  unfold CountTasks. pose proof (yields_conditions b query) as Hc. fold d in Hc. revert Hc.
  generalize (query_tests d query). intros tests Hc.
  unfold built, rendered, statement_of, Done, wbind, wret, NewWriter. fold d.
  repeat (rewrite write_mk; cbn iota beta). rewrite (all_mk _ _ _ _ _ Hc). cbn iota beta.
  rewrite where_mk. cbn [snd Writer.sql Writer.args fmap list_fmap print_sql]. rewrite print_where_map.
  set (pss := List.map (print b) tests).
  rewrite <- values_of_where. cbn [print_limit print_order selection_text]. fold d.
  f_equal; [same_text|same_values].
Qed.

(** A selection of identifiers under a lease, and the claim of one row. *)
Lemma select_locked_text table m tests order limit :
  YieldsAll m (List.map (print b) tests) -> tests <> [] ->
  built b (write ["SELECT "; Quote d "id"; " FROM "; Table b table];;*
    let* conditions := m in
    write [" WHERE "; String.concat " AND " conditions];;*
    write [" ORDER BY "; Quote d order; ", "; Quote d "id"];;*
    batch_of b limit) =
  rendered b (Select (all_of ["id"]) table None tests (plain_order [order; "id"]) (Some limit)
    (SupportsSkipLocked d)).
Proof.
  intros Hm Hne. unfold batch_of. fold d. destruct (SupportsSkipLocked d) eqn:Es;
    unfold built, rendered, statement_of, Done, wbind, wret, NewWriter; fold d;
    rewrite write_mk; cbn iota beta; rewrite (all_mk _ _ _ _ _ Hm); cbn iota beta;
    run_statement; cbn [print_sql]; rewrite print_where_map, concat_shows;
    destruct (List.map (print b) tests) as [|ps pss] eqn:E; try (by destruct tests);
    cbn [when_where]; rewrite <- values_of_joined with (sep := " AND ");
    cbn [all_of selection_text print_order plain_order print_limit fmap list_fmap order_text column_text own];
    fold d; (f_equal; [same_text|same_values]).
Qed.

Lemma claim_text table m tests owner until id :
  YieldsAll m (List.map (print b) tests) -> tests <> [] ->
  built b (write ["UPDATE "; Table b table; " SET "];;*
    take_lease b owner until;;*
    let* marker := bind_ (VString id) in
    write [" WHERE "; Quote d "id"; " = "; marker];;*
    let* conditions := m in
    write [" AND "; String.concat " AND " conditions]) =
  rendered b (Update table (lease_sets d owner until) (by_id id ++ tests)).
Proof.
  intros Hm Hne. unfold take_lease, lease_sets. fold d.
  unfold built, rendered, statement_of, Done, wbind, wret, NewWriter. fold d.
  repeat (first [rewrite write_mk | rewrite bind_mk]; cbn iota beta; cbn [app length]).
  rewrite (all_mk _ _ _ _ _ Hm). cbn iota beta. run_statement.
  rewrite concat_shows. cbn [print_sql by_id print_where app print List.map].
  destruct (List.map (print b) tests) as [|ps pss] eqn:E; [by destruct tests|].
  cbn [joined]. rewrite <- values_of_joined with (sep := " AND ").
  set (rest := joined " AND " (ps :: pss)). 
  cbn [fmap list_fmap joined print_set fst snd]. fold d.
  f_equal; first [same_text|same_values].
Qed.
End statements.

(** The statement of every request is the printing of its tree. *)
Lemma request_printed json b r :
  written json b r =
  match tree json (Builder.dialect b) r with
  | Some s => rendered b s
  | None => Statement.zero
  end.
Proof.
  destruct r; cbn [written tree].
  - unfold InsertTask. generalize (taskArgs json (Builder.dialect b) task). intros args.
    run_statement. same_statement.
  - apply update_task_text.
  - unfold SelectTask. run_statement. same_statement.
  - unfold SelectTaskVersion. run_statement. same_statement.
  - unfold DeleteTask. run_statement. same_statement.
  - rewrite insert_candidates_text. by destruct (candidate_entries pool).
  - unfold DeleteCandidates. run_statement. same_statement.
  - unfold SelectCandidates. destruct ids; [done|]. run_statement. same_statement.
  - unfold InsertHistory. destruct records; [done|]. apply insert_text; [apply yields_rows|done].
  - unfold SelectHistory. run_statement. same_statement.
  - unfold InsertOutbox. destruct rows; [done|]. apply insert_text; [apply yields_rows|done].
  - unfold SelectOutbox. destruct (decide (0 < limit)%Z); [run_statement; same_statement|].
    run_statement. same_statement.
  - unfold MarkOutboxPublished. destruct ids; [done|]. run_statement. same_statement.
  - unfold UpsertType. generalize (type_values json (Builder.dialect b) spec now). intros args.
    run_statement. change (filter _ _) with (drop 1 typeColumns). same_statement.
  - unfold SelectType. run_statement. same_statement.
  - unfold SelectTypes. run_statement. same_statement.
  - unfold DeleteType. run_statement. same_statement.
  - apply query_text.
  - apply count_text.
  - apply select_locked_text; [apply yields_overdue|done].
  - apply claim_text; [apply yields_overdue|done].
  - unfold ReleaseLease. run_statement. same_statement.
  - apply select_locked_text; [apply yields_due|done].
  - apply claim_text; [apply yields_due|done].
  - unfold RecordAttempt, release_where, releaseDelivery. run_statement. same_statement.
  - unfold MarkAccepted, accepted_sets, release_where, releaseDelivery.
    destruct (Acceptance.PublishedAt acceptance), (Acceptance.NextAttemptAt acceptance);
      run_statement; same_statement.
  - unfold MarkDeadLettered, dead_sets, release_where, releaseDelivery.
    destruct (DeadLetter.Accepted letter); run_statement; same_statement.
  - unfold SelectOutboxEntry. run_statement. same_statement.
Qed.

(** The conditions of a statement. *)
Definition conditions_of (s : Sql) : list Test :=
  match s with
  | Select _ _ _ tests _ _ _ | Update _ _ tests | Delete _ tests => tests
  | _ => []
  end.

Lemma keyset_tests_atomic d op passed terms after :
  Forall (fun t => atomic t && unambiguous t = true) (keyset_tests d op passed terms after).
Proof.
  revert passed. induction terms as [|term terms IH]; intros passed; [by constructor|].
  cbn [keyset_tests]. case_decide; [apply IH|]. constructor; [|apply IH]. cbn [atomic unambiguous andb].
  rewrite forallb_app. apply andb_true_iff. split; [|by destruct term].
  apply forallb_forall. intros t (l & Hl & Ht)%in_concat.
  apply list_elem_of_In, list_elem_of_fmap in Hl as (term' & -> & _).
  unfold tied in Ht. destruct term', (position.DueAt after); cbn in Ht; intuition (subst; done).
Qed.

Lemma keyset_test_atomic d q after :
  atomic (keyset_test d q after) && unambiguous (keyset_test d q after) = true.
Proof.
  unfold keyset_test. pose proof (keyset_tests_atomic d (strict_op q) [] (orderingKey (Query.OrderBy q)) after) as Hf.
  destruct (keyset_tests _ _ _ _ _) as [|t [|t' ts] ] eqn:E; [done|by rewrite Forall_singleton in Hf|].
  cbn [atomic unambiguous andb]. apply forallb_forall. intros x Hx. apply list_elem_of_In in Hx.
  rewrite Forall_forall in Hf. by apply Hf.
Qed.

(** Tests that can stand in a conjunction, read in one way. *)
Definition plain_tests (ts : list Test) : bool := forallb (fun t => atomic t && unambiguous t) ts.

Lemma plain_app ts1 ts2 : plain_tests (ts1 ++ ts2) = plain_tests ts1 && plain_tests ts2.
Proof. apply forallb_app. Qed.

Lemma plain_optional set ts : plain_tests ts = true -> plain_tests (optional set ts) = true.
Proof. by destruct set. Qed.

Lemma query_tests_plain d query : plain_tests (query_tests d query) = true.
Proof.
  unfold query_tests, filter_test, candidate_test. rewrite !plain_app, !andb_true_iff.
  split_and!; try (by apply plain_optional).
  - by destruct (Query.DueBefore _).
  - apply plain_optional. by destruct (bool_decide (ResolvedQuery.CandidateGroups query <> [])).
Qed.

Lemma overdue_tests_plain d lease : plain_tests (overdue_tests d lease) = true.
Proof. unfold overdue_tests. rewrite plain_app. by apply andb_true_iff; split; [|apply plain_optional]. Qed.

(** A condition is a conjunction of operands each of which reads in one way. *)
Lemma conditions_unambiguous json d r s : tree json d r = Some s ->
  unambiguous (TAll (conditions_of s)) = true.
Proof.
  destruct r; cbn [tree]; intros H;
    repeat match type of H with context [match ?x with _ => _ end] => destruct x end;
    try discriminate H; apply (inj Some) in H as <-; cbn [conditions_of select_all page_query];
    cbn [unambiguous]; fold plain_tests; rewrite ?plain_app, ?query_tests_plain, ?overdue_tests_plain;
    try reflexivity.
  destruct after; [|done]. cbn. by rewrite andb_true_r, keyset_test_atomic.
Qed.

(** What a statement's text is laid out from, its values left out. *)
Definition mask (p : piece) : option string := match p with Lit text => Some text | Arg _ => None end.

Lemma show_masked d n ps1 ps2 : mask <$> ps1 = mask <$> ps2 -> show d n ps1 = show d n ps2.
Proof.
  revert n ps2. induction ps1 as [|[t1|v1] ps1 IH]; intros n [|[t2|v2] ps2]; try done; cbn;
    intros E; injection E as E; subst; f_equal; auto.
Qed.

(** C31: Every statement of the SQL stores is the printing of its tree, and no value
    that was given reaches its text: any other values in the same places give the
    same text, which has the dialect's markers in their stead, numbered from left
    to right, and the arguments are those values, in that order.  The condition of
    every statement reads in one way only: an AND or OR is never an operand of
    another without its parentheses. *)
Theorem statements_are_printed json b r :
  match tree json (Builder.dialect b) r with
  | None => written json b r = Statement.zero
  | Some s =>
      written json b r = rendered b s /\
      Statement.Args (written json b r) = values_of (print_sql b s) /\
      (forall ps, mask <$> ps = mask <$> print_sql b s ->
         Statement.SQL (statement_of (Builder.dialect b) ps) = Statement.SQL (written json b r)) /\
      unambiguous (TAll (conditions_of s)) = true
  end.
Proof.
  pose proof (request_printed json b r) as H. destruct (tree json (Builder.dialect b) r) as [s|] eqn:E; [|done].
  rewrite H. split_and!; [done|done| |by eapply conditions_unambiguous].
  intros ps Hps. by apply show_masked.
Qed.
