(* ===== verification/SqlMeaning.v ===== *)
(** * SqlMeaning: what the statements mean

    The meaning of the trees of [SqlPrint.v] on rows, as the SQL standard gives
    it to the constructs used: tests are three-valued, a comparison with NULL
    being unknown; a row is selected, or changed, where the conditions are true;
    a selection is in the order asked for, cut at its limit.  Texts are compared
    by the collation of the column, an argument: the stores rely on its being
    byte-wise. *)

From S2P Require Import Prelude Domain Errors Event Query Outbox Store Registry Calendar Sqlkit SqlBuilder SqlPrint.

(** ** Tests *)

Definition Row : Type := string -> Value.

(** The rows a condition speaks of: the row of the table itself, and the rows of
    the tables that have an alias. *)
Definition Env : Type := option string -> Row.

Definition also (env : Env) (alias : string) (row : Row) : Env :=
  fun a => if decide (a = Some alias) then row else env a.

Definition Tri : Type := option bool.

Definition and3 (a b : Tri) : Tri :=
  match a, b with
  | Some false, _ | _, Some false => Some false
  | Some true, Some true => Some true
  | _, _ => None
  end.
Definition or3 (a b : Tri) : Tri :=
  match a, b with
  | Some true, _ | _, Some true => Some true
  | Some false, Some false => Some false
  | _, _ => None
  end.

Definition op_holds (op : Op) (c : comparison) : bool :=
  match op, c with
  | OpEqual, Eq | OpLess, Lt | OpAtMost, Lt | OpAtMost, Eq | OpMore, Gt => true
  | _, _ => false
  end.

Section meaning.
Context (collate : string -> string -> comparison).
Context (tables : string -> list Row).

(** Values of one type are ordered; with NULL nothing is. *)
Definition compare_values (a b : Value) : option comparison :=
  match a, b with
  | VString x, VString y => Some (collate x y)
  | VInt x, VInt y => Some (x ?= y)%Z
  | VTime x, VTime y => Some (x ?= y)%Z
  | _, _ => None
  end.

Definition test_values (op : Op) (a b : Value) : Tri := op_holds op <$> compare_values a b.

Definition cell (env : Env) (c : Column) : Value := match c with Col alias name => env alias name end.

Definition missing (v : Value) : bool := match v with VNil => true | _ => false end.

Fixpoint eval (env : Env) (t : Test) : Tri :=
  match t with
  | TCmp c op v => test_values op (cell env c) v
  | TIn c vs => foldr or3 (Some false) (List.map (test_values OpEqual (cell env c)) vs)
  | TNull c => Some (missing (cell env c))
  | TNotNull c => Some (negb (missing (cell env c)))
  | TSame c1 c2 => test_values OpEqual (cell env c1) (cell env c2)
  | TAll ts => foldr and3 (Some true) (List.map (eval env) ts)
  | TAny ts => foldr or3 (Some false) (List.map (eval env) ts)
  | TParen t => eval env t
  | TExists negated table alias t =>
      Some (xorb negated
        (existsb (fun row => bool_decide (eval (also env alias row) t = Some true)) (tables table)))
  end.

Definition holds (env : Env) (t : Test) : bool := bool_decide (eval env t = Some true).

(** Every condition of a list. *)
Definition selects (env : Env) (tests : list Test) : bool := forallb (holds env) tests.

(** ** Orderings *)

(** Where NULL goes is the dialect's own choice. *)
Definition order_compare (nulls_first : bool) (descending : bool) (a b : Value) : comparison :=
  let directed (c : comparison) := if descending then CompOpp c else c in
  match missing a, missing b with
  | true, true => Eq
  | true, false => directed (if nulls_first then Lt else Gt)
  | false, true => directed (if nulls_first then Gt else Lt)
  | false, false => match compare_values a b with Some c => directed c | None => Eq end
  end.

Definition term_compare (nulls_first : bool) (o : OrderTerm) (a b : Env) : comparison :=
  match o with
  | MissingLast c =>
      match missing (cell a c), missing (cell b c) with
      | true, false => Gt
      | false, true => Lt
      | _, _ => Eq
      end
  | By c descending => order_compare nulls_first (default false descending) (cell a c) (cell b c)
  end.

Fixpoint terms_compare (nulls_first : bool) (order : list OrderTerm) (a b : Env) : comparison :=
  match order with
  | [] => Eq
  | o :: order =>
      match term_compare nulls_first o a b with Eq => terms_compare nulls_first order a b | c => c end
  end.

(** The rows a selection may answer with: those its conditions select, in its
    order, cut at its limit. *)
Definition Answers {A} (env_of : A -> Env) (nulls_first : bool) (tests : list Test)
    (order : list OrderTerm) (limit : option Z) (rows answer : list A) : Prop :=
  exists sorted,
    sorted ≡ₚ filter (fun a => selects (env_of a) tests = true) rows /\
    StronglySorted (fun a b => terms_compare nulls_first order (env_of a) (env_of b) <> Gt) sorted /\
    answer = match limit with None => sorted | Some n => take (Z.to_nat n) sorted end.

Definition AnswersTo {A} (env_of : A -> Env) (nulls_first : bool) (s : Sql) (rows answer : list A)
  : Prop :=
  match s with
  | Select _ _ _ tests order limit _ => Answers env_of nulls_first tests order limit rows answer
  | _ => False
  end.
End meaning.

(** ** Rows *)

(** The value a list of columns and values gives a column. *)
Fixpoint assigned (sets : list (string * Value)) (column : string) : option Value :=
  match sets with
  | [] => None
  | (name, v) :: sets => if decide (name = column) then Some v else assigned sets column
  end.

Definition row_of (names : list string) (values : list Value) : Row :=
  fun column => default VNil (assigned (zip names values) column).

(** What an update makes of a row. *)
Definition set_columns (sets : list (string * Value)) (row : Row) : Row :=
  fun column => default (row column) (assigned sets column).

(** One table alone, by its name or by an alias. *)
Definition env_of (alias : option string) (row : Row) : Env :=
  fun a => if decide (a = alias) then row else fun _ => VNil.

(** *** The rows of the values the stores keep *)

Section rows.
Context (json : SqlJson.t) (d : Dialect).

Definition task_row (task : Task.t) : Row := row_of taskColumns (taskArgs json d task).

Definition candidate_columns : list string := ["task_id"; "kind"; "value"; "ordinal"].

Definition candidate_rows (task : Task.t) : list Row :=
  row_of candidate_columns <$>
    imap (candidate_values (Task.ID task)) (candidate_entries (Task.Candidates task)).

(** The row of a recorded event, as its delivery changes it. *)
Definition entry_values (payload : RawMessage) (e : OutboxEntry.t) : list Value :=
  let event := OutboxEntry.Event e in
  [VString (Event.ID event);
   VString (Event.TaskID event);
   VString (Event.TaskType event);
   VString (EventType_String (Event.Type_ event));
   EncodeTime d (Some (NormalizeTime (Event.OccurredAt event)));
   EncodeTime d (OutboxEntry.PublishedAt e);
   EncodeRaw payload;
   VInt (OutboxEntry.Attempts e);
   EncodeTime d (OutboxEntry.NextAttemptAt e);
   nullString (OutboxEntry.LastError e);
   nullString (OutboxEntry.LockedBy e);
   EncodeTime d (OutboxEntry.LockedUntil e);
   encodeSinks json (OutboxEntry.Accepted e)].

Definition entry_row (payload : RawMessage) (e : OutboxEntry.t) : Row :=
  row_of outboxColumns (entry_values payload e).

(** The tables of a store that keeps these tasks. *)
Definition task_tables (tasks : list Task.t) (table : string) : list Row :=
  if decide (table = CandidatesTable) then tasks ≫= candidate_rows
  else if decide (table = TasksTable) then task_row <$> tasks
  else [].
End rows.

(** * Lemmas *)

(** ** Three-valued logic *)

Lemma or3_true l : foldr or3 (Some false) l = Some true <-> Some true ∈ l.
Proof.
  induction l as [|x l IH]; cbn; [split; [done|by intros ?%elem_of_nil]|].
  rewrite elem_of_cons, <- IH.
  destruct x as [ [] |], (foldr or3 (Some false) l) as [ [] |]; cbn; naive_solver.
Qed.

Lemma and3_true l : foldr and3 (Some true) l = Some true <-> Forall (eq (Some true)) l.
Proof.
  induction l as [|x l IH]; cbn; [split; [constructor|done]|].
  rewrite Forall_cons, <- IH.
  destruct x as [ [] |], (foldr and3 (Some true) l) as [ [] |]; cbn; naive_solver.
Qed.

Section tests.
Context (collate : string -> string -> comparison).
Context (tables : string -> list Row).
Let holds := holds collate tables.
Let selects := selects collate tables.

Lemma holds_true env t : holds env t = true <-> eval collate tables env t = Some true.
Proof. apply bool_decide_eq_true. Qed.

Lemma holds_all env ts : holds env (TAll ts) = true <-> Forall (fun t => holds env t = true) ts.
Proof.
  rewrite holds_true. cbn [eval]. rewrite and3_true.
  induction ts as [|t ts IH]; cbn [List.map]; rewrite ?Forall_cons, ?Forall_nil; [done|].
  rewrite IH, holds_true. naive_solver.
Qed.

Lemma holds_any env ts : holds env (TAny ts) = true <-> exists t, t ∈ ts /\ holds env t = true.
Proof.
  rewrite holds_true. cbn [eval]. rewrite or3_true.
  induction ts as [|t ts IH]; cbn [List.map].
  { split; [by intros ?%elem_of_nil|by intros (? & ?%elem_of_nil & _)]. }
  rewrite elem_of_cons, IH. setoid_rewrite elem_of_cons. setoid_rewrite holds_true. naive_solver.
Qed.

Lemma holds_all_forallb env ts : holds env (TAll ts) = forallb (holds env) ts.
Proof.
  apply eq_true_iff_eq. rewrite holds_all, forallb_forall, Forall_forall.
  by setoid_rewrite list_elem_of_In.
Qed.

Lemma holds_any_existsb env ts : holds env (TAny ts) = existsb (holds env) ts.
Proof.
  apply eq_true_iff_eq. rewrite holds_any, existsb_exists. by setoid_rewrite list_elem_of_In.
Qed.

Lemma holds_paren env t : holds env (TParen t) = holds env t.
Proof. done. Qed.

Lemma holds_null env c : holds env (TNull c) = true <-> cell env c = VNil.
Proof. rewrite holds_true. cbn [eval]. destruct (cell env c); cbn; naive_solver. Qed.

Lemma holds_not_null env c : holds env (TNotNull c) = true <-> cell env c <> VNil.
Proof. rewrite holds_true. cbn [eval]. destruct (cell env c); cbn; naive_solver. Qed.

Lemma selects_app env ts1 ts2 : selects env (ts1 ++ ts2) = selects env ts1 && selects env ts2.
Proof. apply forallb_app. Qed.

Lemma selects_cons env t ts : selects env (t :: ts) = holds env t && selects env ts.
Proof. done. Qed.

Lemma selects_forall env ts : selects env ts = true <-> Forall (fun t => holds env t = true) ts.
Proof.
  induction ts as [|t ts IH]; [by rewrite Forall_nil|].
  rewrite selects_cons, Forall_cons, andb_true_iff, IH. done.
Qed.

Lemma selects_optional env set ts :
  selects env (optional set ts) = true <-> (set = true -> selects env ts = true).
Proof. destruct set; cbn; naive_solver. Qed.

Lemma holds_exists env negated table alias t :
  holds env (TExists negated table alias t) = true <->
  (if negated then ~ exists row, row ∈ tables table /\ holds (also env alias row) t = true
   else exists row, row ∈ tables table /\ holds (also env alias row) t = true).
Proof.
  rewrite holds_true. cbn [eval].
  assert (He : existsb (fun row => bool_decide (eval collate tables (also env alias row) t = Some true))
      (tables table) = true <-> exists row, row ∈ tables table /\ holds (also env alias row) t = true).
  { rewrite existsb_exists. by setoid_rewrite <- list_elem_of_In. }
  destruct (existsb _ _); destruct negated; cbn; naive_solver.
Qed.

(** Texts under a byte-wise collation. *)
Section bytewise.
Context (Hbytes : forall x y, collate x y = String.compare x y).

Lemma holds_is env c s : holds env (is_ c s) = true <-> cell env c = VString s.
Proof.
  rewrite holds_true. unfold is_. cbn [eval]. unfold test_values. destruct (cell env c); cbn;
    [naive_solver| |naive_solver..].
  rewrite Hbytes. split.
  - intros H. f_equal. apply String.compare_eq_iff. by destruct (String.compare s0 s).
  - intros [= ->]. by rewrite (cmp_refl String.compare).
Qed.

Lemma holds_in env c l :
  holds env (TIn c (VString <$> l)) = true <-> exists s, s ∈ l /\ cell env c = VString s.
Proof.
  rewrite holds_true. cbn [eval]. rewrite or3_true.
  induction l as [|s l IH]; cbn [fmap list_fmap List.map].
  { split; [by intros ?%elem_of_nil|by intros (? & ?%elem_of_nil & _)]. }
  rewrite elem_of_cons, IH. setoid_rewrite elem_of_cons.
  pose proof (holds_is env c s) as Hs. rewrite holds_true in Hs. cbn [is_ eval] in Hs.
  naive_solver.
Qed.

Lemma holds_same env c1 c2 s : cell env c2 = VString s ->
  holds env (TSame c1 c2) = true <-> cell env c1 = VString s.
Proof.
  intros H2. rewrite <- holds_is. unfold holds, SqlMeaning.holds, is_. cbn [eval]. by rewrite H2.
Qed.
End bytewise.
End tests.
