(* ===== verification/SqlQuery.v ===== *)
(** * SqlQuery: the SQL query is the query

    The query of the SQL stores against the one of [Query.v], which the in-memory
    store runs: on the rows of the same tasks, the conditions select the tasks
    that match, the cursor's condition those that lie beyond it, and the ordering
    is the query's, so that the rows of a page are the same page. *)

From S2P Require Import Prelude Domain Errors Event Query Outbox Store Registry Calendar Sqlkit SqlBuilder SqlPrint SqlPrintFacts SqlMeaning.

(** A task as the stores keep it: to the microsecond, its status spelled as one
    of the constants where it is one of them, its deadline within the years that
    have four digits. *)
Definition Spelled (s : Status) : Prop :=
  match s with StatusOther raw => raw ∉ (Status_String <$> allStatuses) | _ => True end.

Definition Deadline (t : Time) : Prop := (Microsecond <= t < year_10000)%Z /\ NormalizeTime t = t.

Definition Storable (task : Task.t) : Prop :=
  Task.Normalize task = task /\ Spelled (Task.Status task) /\
  forall due, Task.DueAt task = Some due -> Deadline due.

Lemma Spelled_inj a b : Spelled a -> Spelled b -> Status_String a = Status_String b -> a = b.
Proof.
  intros Ha Hb. destruct a, b; cbn; intros E; try done; try (by rewrite E);
    try (destruct Ha; rewrite E; cbn; set_solver); destruct Hb; rewrite <- E; cbn; set_solver.
Qed.

(** The query with its deadline to the microsecond, as a column holds it. *)
Definition stored_query (query : ResolvedQuery.t) : ResolvedQuery.t :=
  let q := ResolvedQuery.Query_ query in
  ResolvedQuery.mk (q <| Query.DueBefore := normalizeTimePtr (Query.DueBefore q) |>)
    (ResolvedQuery.CandidateGroups query).

Section query.
Context (collate : string -> string -> comparison).
Context (Hbytes : forall x y, collate x y = String.compare x y).
Context (json : SqlJson.t) (d : Dialect).

Definition t_env (task : Task.t) : Env := env_of (Some "t") (task_row json d task).

(** ** Cells *)

Lemma nullString_is v s : s <> "" -> nullString v = VString s <-> v = s.
Proof. intros Hs. unfold nullString. case_decide; naive_solver. Qed.

Lemma nullString_nil v : nullString v = VNil <-> v = "".
Proof. unfold nullString. case_decide; naive_solver. Qed.

Section row.
Context (task : Task.t) (Hn : Task.Normalize task = task).

Ltac by_column := unfold t_env, env_of, cell, of_t, task_row, taskArgs; rewrite Hn; reflexivity.

Lemma cell_id : cell (t_env task) (of_t "id") = VString (Task.ID task).
Proof. by_column. Qed.
Lemma cell_assignee : cell (t_env task) (of_t "assignee") = nullString (Task.Assignee task).
Proof. by_column. Qed.
Lemma cell_status : cell (t_env task) (of_t "status") = VString (Status_String (Task.Status task)).
Proof. by_column. Qed.
Lemma cell_type : cell (t_env task) (of_t "task_type") = VString (Task.Type_ task).
Proof. by_column. Qed.
Lemma cell_owner_type :
  cell (t_env task) (of_t "owner_type") = nullString (CorrelationData.OwnerType (Task.Correlation task)).
Proof. by_column. Qed.
Lemma cell_owner_ref :
  cell (t_env task) (of_t "owner_ref") = nullString (CorrelationData.OwnerRef (Task.Correlation task)).
Proof. by_column. Qed.
Lemma cell_activity_key :
  cell (t_env task) (of_t "activity_key") = nullString (CorrelationData.ActivityKey (Task.Correlation task)).
Proof. by_column. Qed.
Lemma cell_priority : cell (t_env task) (of_t "priority") = VInt (Task.Priority task).
Proof. by_column. Qed.
Lemma cell_due : cell (t_env task) (of_t "due_at") = EncodeTime d (Task.DueAt task).
Proof. by_column. Qed.
End row.

(** ** Stored instants *)

Lemma compare_times a b : Deadline a -> (0 < b < year_10000)%Z ->
  compare_values collate (EncodeTime d (Some a)) (EncodeTime d (Some b)) = Some (a ?= NormalizeTime b)%Z.
Proof.
  intros [Ha Hn] Hb. rewrite !EncodeTime_set by (unfold Microsecond in *; lia).
  destruct d; cbn [compare_values]; try by rewrite Hn.
  rewrite Hbytes, compare_formatted, !NormalizeTime_idemp, Hn; [done|..];
    apply normalized_bounds; unfold Microsecond in *; lia.
Qed.

Lemma test_time op a b : Deadline a -> (0 < b < year_10000)%Z ->
  test_values collate op (EncodeTime d (Some a)) (EncodeTime d (Some b)) =
  Some (op_holds op (a ?= NormalizeTime b)%Z).
Proof. intros Ha Hb. unfold test_values. by rewrite compare_times. Qed.

Lemma due_missing task : Storable task ->
  missing (EncodeTime d (Task.DueAt task)) = match Task.DueAt task with None => true | Some _ => false end.
Proof.
  intros (_ & _ & Hd). destruct (Task.DueAt task) as [due|]; [|done].
  destruct (Hd _ eq_refl) as [Hb _]. rewrite EncodeTime_set by (unfold Microsecond in *; lia).
  by destruct d.
Qed.

(** ** Candidates *)

Lemma entries_user pool v : (CandidateUser, v) ∈ candidate_entries pool <-> v ∈ CandidatePool.Users pool.
Proof. unfold candidate_entries. rewrite !elem_of_app, !list_elem_of_fmap. naive_solver. Qed.
Lemma entries_group pool v : (CandidateGroup, v) ∈ candidate_entries pool <-> v ∈ CandidatePool.Groups pool.
Proof. unfold candidate_entries. rewrite !elem_of_app, !list_elem_of_fmap. naive_solver. Qed.
Lemma entries_excluded pool v :
  (CandidateExcluded, v) ∈ candidate_entries pool <-> v ∈ CandidatePool.Excluded pool.
Proof. unfold candidate_entries. rewrite !elem_of_app, !list_elem_of_fmap. naive_solver. Qed.

Section stored.
Context (tasks : list Task.t) (Hids : NoDup (Task.ID <$> tasks)) (Hst : Forall Storable tasks).
Context (tables : string -> list Row).
Context (Htables : forall row, row ∈ tables CandidatesTable <-> row ∈ tasks ≫= candidate_rows).
#[local] Abbreviation holds := (SqlMeaning.holds collate tables).
#[local] Abbreviation selects := (SqlMeaning.selects collate tables).

Definition entry_env (task : Task.t) (alias : string) (i : nat) (e : string * string) : Env :=
  also (t_env task) alias (row_of candidate_columns (candidate_values (Task.ID task) i e)).

Lemma holds_kind task alias i e k :
  holds (entry_env task alias i e) (kind_is alias k) = true <-> e.1 = k.
Proof.
  unfold kind_is. rewrite (holds_is _ _ Hbytes). unfold entry_env, also. cbn [cell].
  rewrite decide_True by done. cbn. naive_solver.
Qed.

Lemma holds_value task alias i e v :
  holds (entry_env task alias i e) (value_is alias v) = true <-> e.2 = v.
Proof.
  unfold value_is. rewrite (holds_is _ _ Hbytes). unfold entry_env, also. cbn [cell].
  rewrite decide_True by done. cbn. naive_solver.
Qed.

Lemma holds_values task alias i e l :
  holds (entry_env task alias i e) (TIn (Col (Some alias) "value") (VString <$> l)) = true <-> e.2 ∈ l.
Proof.
  rewrite (holds_in _ _ Hbytes). unfold entry_env, also. cbn [cell].
  rewrite decide_True by done. cbn. naive_solver.
Qed.

(** Identifiers being distinct, the candidate rows of a task are its own. *)
Lemma holds_candidate task negated alias tests : task ∈ tasks -> alias <> "t" ->
  holds (t_env task) (candidate_exists negated alias tests) = true <->
  let found := exists i e, candidate_entries (Task.Candidates task) !! i = Some e /\
    Forall (fun t => holds (entry_env task alias i e) t = true) tests in
  if negated then ~ found else found.
Proof.
  intros Hin Ha. unfold candidate_exists. rewrite holds_exists. cbv zeta.
  assert (He : (exists row, row ∈ tables CandidatesTable /\
      holds (also (t_env task) alias row)
        (TAll (TSame (Col (Some alias) "task_id") (of_t "id") :: tests)) = true) <->
    exists i e, candidate_entries (Task.Candidates task) !! i = Some e /\
      Forall (fun t => holds (entry_env task alias i e) t = true) tests).
  { assert (Hcell : forall row, cell (also (t_env task) alias row) (of_t "id") = VString (Task.ID task)).
    { intros row. cbn [cell of_t]. unfold also. rewrite decide_False by congruence.
      change (cell (t_env task) (of_t "id") = VString (Task.ID task)). apply cell_id.
      by eapply Forall_forall in Hst as [Hn _]. }
    setoid_rewrite Htables. split.
    - intros (row & (other & Hrow & Hother)%list_elem_of_bind & Hall).
      apply list_elem_of_fmap in Hrow as (values & -> & Hvalues).
      apply elem_of_lookup_imap in Hvalues as (i & e & -> & He).
      apply holds_all, Forall_cons in Hall as [Hsame Htests].
      rewrite (holds_same _ _ Hbytes _ _ _ _ (Hcell _)) in Hsame.
      unfold also in Hsame. cbn [cell] in Hsame. rewrite decide_True in Hsame by done.
      cbn in Hsame. injection Hsame as Hid.
      assert (other = task) as -> by (by apply (NoDup_fmap_inj Task.ID tasks)).
      by exists i, e.
    - intros (i & e & He & Htests).
      exists (row_of candidate_columns (candidate_values (Task.ID task) i e)). split.
      + apply list_elem_of_bind. exists task. split; [|done]. apply list_elem_of_fmap.
        eexists; split; [done|]. apply elem_of_lookup_imap. by exists i, e.
      + apply holds_all, Forall_cons. split; [|exact Htests].
        rewrite (holds_same _ _ Hbytes _ _ _ _ (Hcell _)). unfold also. cbn [cell].
        by rewrite decide_True. }
  destruct negated; by rewrite <- He.
Qed.

Lemma holds_kind_value task negated alias k v : task ∈ tasks -> alias <> "t" ->
  holds (t_env task) (candidate_exists negated alias [kind_is alias k; value_is alias v]) = true <->
  if negated then (k, v) ∉ candidate_entries (Task.Candidates task)
  else (k, v) ∈ candidate_entries (Task.Candidates task).
Proof.
  intros Hin Ha. rewrite holds_candidate by done. cbv zeta.
  assert (He : (exists i e, candidate_entries (Task.Candidates task) !! i = Some e /\
      Forall (fun t => holds (entry_env task alias i e) t = true) [kind_is alias k; value_is alias v]) <->
    (k, v) ∈ candidate_entries (Task.Candidates task)).
  { rewrite list_elem_of_lookup. split.
    - intros (i & [k' v'] & He & Hf). rewrite !Forall_cons, holds_kind, holds_value in Hf.
      destruct Hf as (<- & <- & _). by exists i.
    - intros (i & He). exists i, (k, v). split; [done|].
      rewrite !Forall_cons, holds_kind, holds_value. done. }
  destruct negated; by rewrite He.
Qed.

(** ** Filters *)

Lemma holds_nullable task name v s :
  cell (t_env task) (of_t name) = nullString v ->
  selects (t_env task) (filter_test name s) = true <-> (s <> "" -> v = s).
Proof.
  intros Hcell. unfold filter_test. rewrite selects_optional, bool_decide_eq_true.
  rewrite selects_cons, andb_true_r, (holds_is _ _ Hbytes), Hcell.
  split; intros H Hs; apply (nullString_is v s Hs), H, Hs.
Qed.

Lemma holds_listed task name v l :
  cell (t_env task) (of_t name) = VString v ->
  selects (t_env task) (optional (bool_decide (l <> [])) [TIn (of_t name) (VString <$> l)]) = true <->
  (l <> [] -> v ∈ l).
Proof.
  intros Hcell. rewrite selects_optional, bool_decide_eq_true.
  rewrite selects_cons, andb_true_r, (holds_in _ _ Hbytes), Hcell. naive_solver.
Qed.

Lemma holds_statuses task l : Storable task -> Forall Spelled l ->
  selects (t_env task)
    (optional (bool_decide (l <> [])) [TIn (of_t "status") (VString ∘ Status_String <$> l)]) = true <->
  (l <> [] -> Task.Status task ∈ l).
Proof.
  intros (Hn & Hs & _) Hl. rewrite selects_optional, bool_decide_eq_true.
  rewrite list_fmap_compose, selects_cons, andb_true_r, (holds_in _ _ Hbytes), (cell_status _ Hn).
  enough ((exists s, s ∈ Status_String <$> l /\ VString (Status_String (Task.Status task)) = VString s) <->
    Task.Status task ∈ l) as -> by done.
  setoid_rewrite list_elem_of_fmap. split.
  - intros (s & (x & -> & Hx) & [= E]). apply Spelled_inj in E as ->; [done|done|].
    by eapply Forall_forall in Hl.
  - intros Hx. eexists. split; [by eexists|done].
Qed.

Lemma holds_due_before task limit : Storable task ->
  (forall t, limit = Some t -> (0 <= t < year_10000)%Z) ->
  selects (t_env task)
    match limit with
    | None => []
    | Some _ => [TNotNull (of_t "due_at"); TCmp (of_t "due_at") OpLess (EncodeTime d limit)]
    end = true <->
  (forall t, normalizeTimePtr limit = Some t -> exists due, Task.DueAt task = Some due /\ (due < t)%Z).
Proof.
  intros Hst' Hl. destruct limit as [t|]; [|naive_solver]. specialize (Hl t eq_refl).
  pose proof Hst' as (Hn & _ & Hd). cbn [normalizeTimePtr].
  rewrite !selects_cons, andb_true_r, andb_true_iff, holds_not_null.
  rewrite holds_true. cbn [eval]. rewrite (cell_due _ Hn).
  destruct (Task.DueAt task) as [due|]; [|naive_solver].
  specialize (Hd due eq_refl). destruct (decide (t = 0%Z)) as [->|Ht].
  - unfold Deadline in Hd. split.
    + intros [_ H]. exfalso. revert H. unfold test_values.
      change (EncodeTime d (Some 0%Z)) with VNil. by destruct (EncodeTime d (Some due)).
    + intros H. destruct (H _ eq_refl) as (due' & [= <-] & Hlt).
      change (NormalizeTime 0) with 0%Z in Hlt. unfold Microsecond in Hd. lia.
  - rewrite test_time by (done || lia).
    assert (Hpos : (0 < due)%Z) by (destruct Hd as [Hd _]; unfold Microsecond in Hd; lia).
    rewrite EncodeTime_set by done.
    split.
    + intros [_ H] t' [= <-]. exists due. split; [done|].
      injection H as H. revert H. by destruct (Z.compare_spec due (NormalizeTime t)).
    + intros H. destruct (H _ eq_refl) as (due' & [= <-] & Hlt).
      apply Z.compare_lt_iff in Hlt. rewrite Hlt. split; [by destruct d|done].
Qed.

Lemma holds_group task g : task ∈ tasks ->
  selects (t_env task) (optional (bool_decide (g <> ""))
    [candidate_exists false "g" [kind_is "g" CandidateGroup; value_is "g" g]]) = true <->
  (g <> "" -> g ∈ CandidatePool.Groups (Task.Candidates task)).
Proof.
  intros Hin. rewrite selects_optional, bool_decide_eq_true.
  by rewrite selects_cons, andb_true_r, holds_kind_value, entries_group by done.
Qed.

Lemma holds_reach task candidate groups : task ∈ tasks ->
  holds (t_env task) (candidate_exists false "c"
    [TParen (TAny
       (TParen (TAll [kind_is "c" CandidateUser; value_is "c" candidate]) ::
        optional (bool_decide (groups <> []))
          [TParen (TAll [kind_is "c" CandidateGroup; TIn (Col (Some "c") "value") (VString <$> groups)])]))]) = true <->
  candidate ∈ CandidatePool.Users (Task.Candidates task) \/
  exists g, g ∈ groups /\ g ∈ CandidatePool.Groups (Task.Candidates task).
Proof.
  intros Hin. rewrite holds_candidate by done. cbv zeta.
  setoid_rewrite <- entries_user. setoid_rewrite <- entries_group. setoid_rewrite list_elem_of_lookup.
  assert (Hg : forall t : Test, t ∈ optional (bool_decide (groups <> []))
      [TParen (TAll [kind_is "c" CandidateGroup; TIn (Col (Some "c") "value") (VString <$> groups)])] <->
    groups <> [] /\ t = TParen (TAll [kind_is "c" CandidateGroup; TIn (Col (Some "c") "value") (VString <$> groups)])).
  { intros t. unfold optional. case_bool_decide; rewrite ?list_elem_of_singleton, ?elem_of_nil; naive_solver. }
  split.
  - intros (i & [k v] & He & Hf). rewrite Forall_singleton, holds_paren, holds_any in Hf.
    destruct Hf as (t & Ht & Hh). apply elem_of_cons in Ht as [->|Ht].
    + rewrite holds_paren, holds_all, !Forall_cons, holds_kind, holds_value in Hh.
      destruct Hh as (<- & <- & _). left. by exists i.
    + apply Hg in Ht as [_ ->]. rewrite holds_paren, holds_all, !Forall_cons, holds_kind, holds_values in Hh.
      destruct Hh as (<- & Hv & _). right. exists v. split; [by apply list_elem_of_lookup|]. by exists i.
  - intros [ (i & He) | (g & (j & Hj) & (i & He)) ].
    + exists i, (CandidateUser, candidate). split; [done|].
      rewrite Forall_singleton, holds_paren, holds_any. eexists. split; [by left|].
      rewrite holds_paren, holds_all, !Forall_cons, holds_kind, holds_value. done.
    + exists i, (CandidateGroup, g). split; [done|].
      rewrite Forall_singleton, holds_paren, holds_any. eexists. split.
      * right. apply Hg. split; [|done]. intros ->. by rewrite lookup_nil in Hj.
      * rewrite holds_paren, holds_all, !Forall_cons, holds_kind, holds_values.
        split_and!; [done| |done]. by eapply list_elem_of_lookup_2.
Qed.

Lemma exists_either {A} (P : A -> Prop) a b : (exists t, (t = a \/ t = b) /\ P t) <-> P a \/ P b.
Proof. naive_solver. Qed.

Lemma holds_candidate_test task query : task ∈ tasks -> Storable task ->
  let who := Query.Candidate (ResolvedQuery.Query_ query) in
  let pool := Task.Candidates task in
  selects (t_env task) (candidate_test query) = true <->
  (who <> "" -> who ∉ CandidatePool.Excluded pool /\
     (if decide (Task.Assignee task = "")
      then who ∈ CandidatePool.Users pool \/
           exists g, g ∈ ResolvedQuery.CandidateGroups query /\ g ∈ CandidatePool.Groups pool
      else Task.Assignee task = who)).
Proof.
  intros Hin (Hn & _). cbv zeta. unfold candidate_test. generalize (ResolvedQuery.CandidateGroups query).
  intros groups. rewrite selects_optional, bool_decide_eq_true.
  generalize (Query.Candidate (ResolvedQuery.Query_ query)). intros who.
  enough (who <> "" -> _ <-> _) as H by (split; intros Hx Hw; apply (H Hw), Hx, Hw). intros Hw.
  rewrite selects_cons, andb_true_r, holds_paren, holds_all, !Forall_cons, holds_paren, holds_any.
  rewrite holds_kind_value, entries_excluded by done.
  setoid_rewrite elem_of_cons. setoid_rewrite list_elem_of_singleton. rewrite exists_either.
  assert (Hheld : holds (t_env task) (TParen (is_ (of_t "assignee") who)) = true <-> Task.Assignee task = who).
  { rewrite holds_paren, (holds_is _ _ Hbytes), (cell_assignee _ Hn). by apply nullString_is. }
  assert (Hpooled : holds (t_env task) (TParen (TAll [TNull (of_t "assignee");
      candidate_exists false "c"
        [TParen (TAny
           (TParen (TAll [kind_is "c" CandidateUser; value_is "c" who]) ::
            optional (bool_decide (groups <> []))
              [TParen (TAll [kind_is "c" CandidateGroup; TIn (Col (Some "c") "value") (VString <$> groups)])]))]])) = true <->
    Task.Assignee task = "" /\ (who ∈ CandidatePool.Users (Task.Candidates task) \/
      exists g, g ∈ groups /\ g ∈ CandidatePool.Groups (Task.Candidates task))).
  { rewrite holds_paren, holds_all, !Forall_cons, Forall_nil, holds_reach, holds_null, (cell_assignee _ Hn),
      nullString_nil by done. naive_solver. }
  rewrite Hheld, Hpooled, Forall_nil. clear -Hw. case_decide as Ea; rewrite ?Ea; intuition congruence.
Qed.

(** The conditions select the tasks that match. *)
Lemma selects_matching task query : task ∈ tasks ->
  Forall Spelled (Query.Statuses (ResolvedQuery.Query_ query)) ->
  (forall t, Query.DueBefore (ResolvedQuery.Query_ query) = Some t -> (0 <= t < year_10000)%Z) ->
  selects (t_env task) (query_tests d query) = true <->
  matches task (stored_query query) = true.
Proof.
  intros Hin Hspelled Hdue. assert (Hst' : Storable task) by (by eapply Forall_forall in Hst).
  pose proof Hst' as (Hn & _). rewrite matches_spec. unfold stored_query, query_tests.
  destruct query as [q groups]. cbn [ResolvedQuery.Query_ ResolvedQuery.CandidateGroups] in *.
  rewrite !selects_app, !andb_true_iff.
  rewrite (holds_nullable _ _ _ _ (cell_assignee _ Hn)), (holds_nullable _ _ _ _ (cell_owner_type _ Hn)),
    (holds_nullable _ _ _ _ (cell_owner_ref _ Hn)), (holds_nullable _ _ _ _ (cell_activity_key _ Hn)),
    (holds_listed _ _ _ _ (cell_type _ Hn)), holds_statuses, holds_due_before, holds_group,
    holds_candidate_test by done.
  cbn. tauto.
Qed.

(** ** Cursors *)

Definition towards (q : Query.t) (c : comparison) : comparison :=
  if Query.Descending q then CompOpp c else c.

Lemma strict_holds q c : op_holds (strict_op q) c = true <-> towards q c = Gt.
Proof. unfold strict_op, towards. by destruct (Query.Descending q), c. Qed.

Lemma equal_holds c : op_holds OpEqual c = true <-> c = Eq.
Proof. by destruct c. Qed.

(** Decides which terms an ordering has, and which of them a cursor has a value of. *)
Ltac decide_terms :=
  repeat first
    [rewrite decide_False by (first [by intros [ [|] ?] | by intros [|] ])
    |rewrite decide_True by (first [by left | by right | by split; [left|] | by split; [right|] ])].

Section cursor.
Context (task : Task.t) (Hst' : Storable task).

Lemma holds_priority op p :
  holds (t_env task) (TCmp (term_column termPriority) op (VInt p)) = op_holds op (Task.Priority task ?= p)%Z.
Proof.
  destruct Hst' as (Hn & _). unfold SqlMeaning.holds. cbn [eval].
  change (term_column termPriority) with (of_t "priority"). rewrite (cell_priority _ Hn).
  unfold test_values. cbn [compare_values fmap option_fmap option_map]. by destruct (op_holds _ _).
Qed.

Lemma holds_id op s :
  holds (t_env task) (TCmp (term_column termID) op (VString s)) = op_holds op (String.compare (Task.ID task) s).
Proof.
  destruct Hst' as (Hn & _). unfold SqlMeaning.holds. cbn [eval].
  change (term_column termID) with (of_t "id"). rewrite (cell_id _ Hn).
  unfold test_values. cbn [compare_values fmap option_fmap option_map]. rewrite Hbytes. by destruct (op_holds _ _).
Qed.

Lemma holds_due op b : Deadline b ->
  holds (t_env task) (TCmp (term_column termDue) op (EncodeTime d (Some b))) =
  match Task.DueAt task with None => false | Some a => op_holds op (a ?= b)%Z end.
Proof.
  intros [Hb Hbn]. destruct Hst' as (Hn & _ & Hd). unfold SqlMeaning.holds. cbn [eval].
  change (term_column termDue) with (of_t "due_at"). rewrite (cell_due _ Hn).
  destruct (Task.DueAt task) as [a|]; [|done].
  rewrite test_time, Hbn; [by destruct (op_holds _ _)|by apply Hd|unfold Microsecond in Hb; lia].
Qed.

Lemma holds_no_deadline term : term = termNoDeadline \/ term = termDue ->
  holds (t_env task) (TNull (term_column term)) =
    match Task.DueAt task with None => true | Some _ => false end /\
  holds (t_env task) (TNotNull (term_column term)) =
    match Task.DueAt task with None => false | Some _ => true end.
Proof.
  intros Ht. unfold SqlMeaning.holds. cbn [eval].
  assert (Hm : missing (cell (t_env task) (term_column term)) =
    match Task.DueAt task with None => true | Some _ => false end).
  { rewrite <- due_missing by done. f_equal. destruct Hst' as (Hn & _).
    destruct Ht as [-> | ->]; apply (cell_due _ Hn). }
  rewrite Hm. by destruct (Task.DueAt task).
Qed.

(** The condition of a cursor selects what the query's order puts after it. *)
Lemma holds_keyset q after : Ordering_Valid (Query.OrderBy q) = true ->
  (forall due, position.DueAt after = Some due -> Deadline due) ->
  holds (t_env task) (keyset_test d q after) = true <-> compare (positionOf task) after q = Gt.
Proof.
  intros Hv Hd.
  destruct (holds_no_deadline termNoDeadline (or_introl eq_refl)) as [Hnull Hnot].
  destruct after as [p due i]. cbn [position.DueAt] in Hd.
  unfold keyset_test, compare, positionOf. cbn [position.Priority position.DueAt position.ID].
  destruct (Query.OrderBy q); try discriminate Hv; destruct due as [b|];
    cbn [orderingKey keyset_tests position.DueAt];
    decide_terms;
    cbn [fmap list_fmap concat app past_cursor tied position.DueAt position.Priority position.ID];
    rewrite ?holds_paren, ?holds_any_existsb; cbn [existsb];
    rewrite ?holds_paren, ?holds_all_forallb; cbn [forallb];
    rewrite ?Hnull, ?Hnot, ?holds_priority, ?holds_id, ?holds_due by (by apply Hd);
    unfold strict_op; destruct (Query.Descending q), (Task.DueAt task) as [a|];
    repeat match goal with |- context [(?x ?= ?y)%Z] => destruct (x ?= y)%Z end;
    try destruct (String.compare _ _); done.
Qed.
End cursor.

(** ** The order *)

Section order.
Context (nulls_first : bool) (a b : Task.t) (Ha : Storable a) (Hb : Storable b).

Lemma order_priority descending :
  term_compare collate nulls_first (By (term_column termPriority) (Some descending)) (t_env a) (t_env b) =
  if descending then CompOpp (Task.Priority a ?= Task.Priority b)%Z else (Task.Priority a ?= Task.Priority b)%Z.
Proof.
  destruct Ha as (Na & _), Hb as (Nb & _). cbn [term_compare default].
  change (term_column termPriority) with (of_t "priority").
  by rewrite (cell_priority _ Na), (cell_priority _ Nb).
Qed.

Lemma order_id descending :
  term_compare collate nulls_first (By (term_column termID) (Some descending)) (t_env a) (t_env b) =
  if descending then CompOpp (String.compare (Task.ID a) (Task.ID b)) else String.compare (Task.ID a) (Task.ID b).
Proof.
  destruct Ha as (Na & _), Hb as (Nb & _). cbn [term_compare default].
  change (term_column termID) with (of_t "id"). rewrite (cell_id _ Na), (cell_id _ Nb).
  unfold order_compare. cbn. by rewrite Hbytes.
Qed.

Lemma order_missing :
  term_compare collate nulls_first (MissingLast (term_column termNoDeadline)) (t_env a) (t_env b) =
  match Task.DueAt a, Task.DueAt b with None, Some _ => Gt | Some _, None => Lt | _, _ => Eq end.
Proof.
  cbn [term_compare]. change (term_column termNoDeadline) with (of_t "due_at").
  rewrite (cell_due _ (proj1 Ha)), (cell_due _ (proj1 Hb)), !due_missing by done.
  by destruct (Task.DueAt a), (Task.DueAt b).
Qed.

Lemma order_due descending :
  term_compare collate nulls_first (By (term_column termDue) (Some descending)) (t_env a) (t_env b) =
  match Task.DueAt a, Task.DueAt b with
  | Some x, Some y => if descending then CompOpp (x ?= y)%Z else (x ?= y)%Z
  | None, None => Eq
  | None, Some _ => if descending then CompOpp (if nulls_first then Lt else Gt) else if nulls_first then Lt else Gt
  | Some _, None => if descending then CompOpp (if nulls_first then Gt else Lt) else if nulls_first then Gt else Lt
  end.
Proof.
  cbn [term_compare default]. change (term_column termDue) with (of_t "due_at").
  rewrite (cell_due _ (proj1 Ha)), (cell_due _ (proj1 Hb)). unfold order_compare.
  rewrite !due_missing by done. destruct Ha as (_ & _ & Da), Hb as (_ & _ & Db).
  destruct (Task.DueAt a) as [x|], (Task.DueAt b) as [y|]; try done.
  destruct (Db y eq_refl) as [By Ny]. rewrite compare_times, Ny; [done|by apply Da|].
  unfold Microsecond in By. lia.
Qed.

(** The terms order the rows as the query orders the tasks. *)
Lemma terms_compare_query q : Ordering_Valid (Query.OrderBy q) = true ->
  terms_compare collate nulls_first (order_terms q) (t_env a) (t_env b) = compare_tasks q a b.
Proof.
  intros Hv. unfold order_terms, compare_tasks, compare, positionOf.
  cbn [position.Priority position.DueAt position.ID].
  destruct (Query.OrderBy q); try discriminate Hv; cbn [orderingKey fmap list_fmap terms_compare];
    rewrite ?order_priority, ?order_missing, ?order_due, ?order_id; decide_terms;
    destruct (Query.Descending q), (Task.DueAt a), (Task.DueAt b);
    repeat match goal with |- context [(?x ?= ?y)%Z] => destruct (x ?= y)%Z end;
    try destruct (String.compare _ _); done.
Qed.
End order.
End stored.
End query.

(** Where the query starts: its cursor, read. *)
Definition start_of (codec : CursorCodec.t) (q : Query.t) : res (option position.t) :=
  if decide (Query.Cursor q <> "") then try! p := decodeCursor codec q in Ok (Some p) else Ok None.

Section answers.
Context (collate : string -> string -> comparison).
Context (Hbytes : forall x y, collate x y = String.compare x y).
Context (json : SqlJson.t) (d : Dialect) (nulls_first : bool).
Context (tasks : list Task.t) (Hids : NoDup (Task.ID <$> tasks)) (Hst : Forall Storable tasks).
Context (tables : string -> list Row).
Context (Htables : forall row, row ∈ tables CandidatesTable <-> row ∈ tasks ≫= candidate_rows).
Context (query : ResolvedQuery.t) (after : option position.t).
#[local] Abbreviation q := (ResolvedQuery.Query_ query).
Context (Hordering : Ordering_Valid (Query.OrderBy q) = true).
Context (Hspelled : Forall Spelled (Query.Statuses q)).
Context (Hbefore : forall t, Query.DueBefore q = Some t -> (0 <= t < year_10000)%Z).
Context (Hafter : forall p due, after = Some p -> position.DueAt p = Some due -> Deadline due).

Lemma selects_beyond task : task ∈ tasks ->
  selects collate tables (t_env json d task)
    (query_tests d query ++ match after with None => [] | Some p => [keyset_test d q p] end) = true <->
  matches task (stored_query query) = true /\ beyond (stored_query query) after task.
Proof.
  intros Hin. rewrite selects_app, andb_true_iff.
  rewrite (selects_matching collate Hbytes json d tasks Hids Hst tables Htables) by done.
  destruct after as [p|]; [|by split; intros [? _] ]. rewrite selects_cons, andb_true_r.
  assert (Hst' : Storable task) by (by eapply Forall_forall in Hst).
  by rewrite (holds_keyset collate Hbytes json d tables task Hst' q p Hordering (fun due => Hafter p due eq_refl)).
Qed.

Lemma answer_is_list answer :
  AnswersTo collate tables (t_env json d) nulls_first (page_query d query after) tasks answer ->
  answer = take (S (Z.to_nat (Query.EffectiveLimit q)))
    (sort_tasks q (select (stored_query query) after tasks)).
Proof.
  intros (sorted & Hperm & Hsorted & ->).
  replace (S (Z.to_nat (Query.EffectiveLimit q))) with (Z.to_nat (Query.EffectiveLimit q + 1))
    by (pose proof (EffectiveLimit_bounds q); lia).
  f_equal.
  assert (Hin : forall x, x ∈ sorted -> x ∈ tasks).
  { intros x. rewrite Hperm, list_elem_of_filter. tauto. }
  apply (StronglySorted_unique_strong (no_later (compare_tasks q))).
  - intros x y Hx Hy Hxy Hyx. apply Hin in Hx.
    unfold sort_tasks in Hy. rewrite merge_sort_Permutation, select_filter, !list_elem_of_filter in Hy.
    apply (ordered_injective query tasks); [done..|tauto|].
    unfold no_later in Hxy, Hyx. rewrite (cmp_sym (c := compare_tasks q) x y) in Hyx.
    by destruct (compare_tasks q x y).
  - eapply StronglySorted_weaken; [|exact Hsorted]. intros x y Hx%Hin Hy%Hin Hxy. unfold no_later.
    rewrite <- (terms_compare_query collate Hbytes json d nulls_first x y);
      [exact Hxy|by eapply Forall_forall in Hst..|done].
  - apply sorted_by, _.
  - unfold sort_tasks. rewrite Hperm, merge_sort_Permutation, select_filter, list_filter_filter.
    match goal with |- ?a ≡ₚ ?b => enough (a = b) as -> by done end.
    apply list_filter_iff_in. intros x Hx. rewrite (selects_beyond x Hx). apply and_comm.
Qed.
End answers.

(** What a SQL store's query selects is what the in-memory store's query
    selects, in the same order, in a database that compares texts by their bytes,
    wherever it puts NULL: whatever the filters, the ordering, its direction and the
    cursor, any answer to the statement on the rows of a store's tasks is the rows of
    the first tasks of the in-memory store's list, one more than the page holds, the
    deadline of the filter being taken to the microsecond -- which the in-memory store
    itself does not do. *)
Theorem sql_query_is_query collate json d prefix nulls_first codec tasks query after :
  (forall x y, collate x y = String.compare x y) ->
  NoDup (Task.ID <$> tasks) -> Forall Storable tasks ->
  let q := ResolvedQuery.Query_ query in
  Ordering_Valid (Query.OrderBy q) = true -> start_of codec q = Ok after ->
  Forall Spelled (Query.Statuses q) ->
  (forall t, Query.DueBefore q = Some t -> (0 <= t < year_10000)%Z) ->
  (forall p due, after = Some p -> position.DueAt p = Some due -> Deadline due) ->
  QueryTasks (Builder.mk d prefix) codec query =
    Ok (rendered (Builder.mk d prefix) (page_query d query after)) /\
  forall answer,
    AnswersTo collate (task_tables json d tasks) (t_env json d) nulls_first
      (page_query d query after) tasks answer ->
    answer = take (S (Z.to_nat (Query.EffectiveLimit q)))
      (sort_tasks q (select (stored_query query) after tasks)).
Proof.
  intros Hbytes Hids Hst q Hordering Hstart Hspelled Hbefore Hafter. split.
  - unfold QueryTasks. fold q. rewrite Hordering. cbn [negb]. fold (start_of codec q).
    rewrite Hstart. cbn [rbind]. by rewrite query_text.
  - intros answer. by apply answer_is_list.
Qed.
