(* ===== verification/SqlLease.v ===== *)
(** * SqlLease: the SQL claims and settlements are the ledger's

    The conditional updates by which the SQL stores claim overdue tasks and due
    events, and settle events, against the operations of the ledger ([Store.v],
    [Outbox.v]): their conditions are true of a row exactly when the ledger would
    claim what the row holds, and what they assign is the row of what the ledger
    makes of it. *)

From S2P Require Import Prelude Domain Errors Event Query Outbox Store Registry Calendar Sqlkit SqlBuilder SqlPrint SqlPrintFacts SqlMeaning SqlQuery.

(** A row read by its own columns. *)
Definition own_env (row : Row) : Env := env_of None row.

(** Rows that agree on the columns of a table. *)
Definition same_row (columns : list string) (row1 row2 : Row) : Prop :=
  Forall (fun column => row1 column = row2 column) columns.

Definition Stamp (t : option Time) : Prop := forall x, t = Some x -> Deadline x.

Section leases.
Context (collate : string -> string -> comparison).
Context (Hbytes : forall x y, collate x y = String.compare x y).
Context (json : SqlJson.t) (d : Dialect) (tables : string -> list Row).
#[local] Abbreviation holds := (SqlMeaning.holds collate tables).
#[local] Abbreviation selects := (SqlMeaning.selects collate tables).

Lemma missing_stamp t : Stamp t -> missing (EncodeTime d t) = bool_decide (t = None).
Proof.
  intros Ht. destruct t as [x|]; [|done]. destruct (Ht x eq_refl) as [Hx _].
  rewrite EncodeTime_set by (unfold Microsecond in Hx; lia). by destruct d.
Qed.

Lemma holds_stamp env c op t now : cell env c = EncodeTime d t -> Stamp t -> Deadline now ->
  holds env (TCmp c op (EncodeTime d (Some now))) =
  match t with None => false | Some x => op_holds op (x ?= now)%Z end.
Proof.
  intros Hc Ht [Hb Hn]. unfold SqlMeaning.holds. cbn [eval]. rewrite Hc. destruct t as [x|]; [|done].
  rewrite (test_time collate Hbytes), Hn; [by destruct (op_holds _ _)|by apply Ht|].
  unfold Microsecond in Hb. lia.
Qed.

Lemma holds_stamp_null env c t : cell env c = EncodeTime d t -> Stamp t ->
  holds env (TNull c) = bool_decide (t = None) /\ holds env (TNotNull c) = negb (bool_decide (t = None)).
Proof.
  intros Hc Ht. unfold SqlMeaning.holds. cbn [eval]. rewrite Hc, missing_stamp by done.
  by destruct (bool_decide (t = None)).
Qed.

Lemma at_most x now : op_holds OpAtMost (x ?= now)%Z = negb (now <? x)%Z.
Proof. unfold Z.ltb. rewrite (Z.compare_antisym x now). by destruct (x ?= now)%Z. Qed.

(** A lease that is free, or has run out. *)
Lemma holds_free env t now : cell env (own "locked_until") = EncodeTime d t -> Stamp t -> Deadline now ->
  holds env (lease_free (EncodeTime d (Some now))) =
  negb match t with None => false | Some until => (now <? until)%Z end.
Proof.
  intros Hc Ht Hn. unfold lease_free. rewrite holds_paren, holds_any_existsb. cbn [existsb].
  destruct (holds_stamp_null _ _ _ Hc Ht) as [-> _]. rewrite (holds_stamp _ _ _ _ _ Hc Ht Hn), orb_false_r.
  destruct t as [x|]; [|done]. by rewrite at_most.
Qed.

(** ** Overdue tasks *)

Section task.
Context (task : Task.t) (Hn : Task.Normalize task = task) (Hspelled : Spelled (Task.Status task)).
Context (Hdue : Stamp (Task.DueAt task)) (Hlocked : Stamp (Task.LockedUntil task)).

Ltac by_column := unfold own_env, env_of, cell, own, task_row, taskArgs; rewrite Hn; reflexivity.

Lemma own_id : cell (own_env (task_row json d task)) (own "id") = VString (Task.ID task).
Proof. by_column. Qed.
Lemma own_due : cell (own_env (task_row json d task)) (own "due_at") = EncodeTime d (Task.DueAt task).
Proof. by_column. Qed.
Lemma own_locked :
  cell (own_env (task_row json d task)) (own "locked_until") = EncodeTime d (Task.LockedUntil task).
Proof. by_column. Qed.
Lemma own_status :
  cell (own_env (task_row json d task)) (own "status") = VString (Status_String (Task.Status task)).
Proof. by_column. Qed.
Lemma own_type : cell (own_env (task_row json d task)) (own "task_type") = VString (Task.Type_ task).
Proof. by_column. Qed.

Lemma holds_working :
  holds (own_env (task_row json d task)) (TIn (own "status") (VString ∘ Status_String <$> workingStatuses)) =
  contains workingStatuses (Task.Status task).
Proof.
  apply eq_true_iff_eq. rewrite list_fmap_compose, (holds_in _ _ Hbytes), own_status, contains_true.
  setoid_rewrite list_elem_of_fmap. split.
  - intros (s & (x & -> & Hx) & [= E]). apply Spelled_inj in E as ->; [done|done|].
    unfold workingStatuses in Hx. rewrite !elem_of_cons in Hx.
    destruct Hx as [-> | [-> | [-> | Hx] ] ]; [done..|by apply elem_of_nil in Hx].
  - intros Hx. eexists. split; [by eexists|done].
Qed.

Lemma holds_types types :
  selects (own_env (task_row json d task))
    (optional (bool_decide (types <> [])) [TIn (own "task_type") (VString <$> types)]) =
  bool_decide (types = []) || contains types (Task.Type_ task).
Proof.
  apply eq_true_iff_eq. rewrite selects_optional, bool_decide_eq_true, orb_true_iff, bool_decide_eq_true.
  rewrite selects_cons, andb_true_r, (holds_in _ _ Hbytes), own_type, contains_true.
  destruct (decide (types = [])); naive_solver.
Qed.

Lemma selects_id id :
  selects (own_env (task_row json d task)) (by_id id) = bool_decide (Task.ID task = id).
Proof.
  apply eq_true_iff_eq. unfold by_id.
  rewrite selects_cons, andb_true_r, (holds_is _ _ Hbytes), own_id, bool_decide_eq_true. naive_solver.
Qed.

(** The conditions of a claim are those of the ledger, for the states a sweep
    works on. *)
Lemma selects_overdue lease : Deadline (NormalizeTime (LeaseRequest.Now lease)) ->
  selects (own_env (task_row json d task)) (overdue_tests d lease) =
  Ledger.claimable lease task && contains workingStatuses (Task.Status task).
Proof.
  intros Hnow. unfold overdue_tests. cbv zeta. set (now := NormalizeTime (LeaseRequest.Now lease)) in *.
  rewrite !selects_app, holds_types. unfold SqlMeaning.selects. cbn [forallb].
  rewrite holds_working, (holds_free _ _ _ own_locked Hlocked Hnow).
  destruct (holds_stamp_null _ _ _ own_due Hdue) as [_ ->].
  rewrite (holds_stamp _ _ _ _ _ own_due Hdue Hnow).
  unfold Ledger.claimable, Task.IsOverdue, Task.IsLeased. fold now.
  destruct (Task.DueAt task) as [due|]; cbn [bool_decide negb andb]; [|by rewrite ?andb_false_r].
  rewrite at_most.
  assert (Hw : contains workingStatuses (Task.Status task) = true ->
    IsTerminal (Task.Status task) || bool_decide (Task.Status task = StatusSuspended) = false).
  { rewrite contains_true. unfold workingStatuses. rewrite !elem_of_cons.
    intros [-> | [-> | [-> | Hx] ] ]; [done..|by apply elem_of_nil in Hx]. }
  change (bool_decide (Some due = None)) with false.
  destruct (contains workingStatuses _); [rewrite Hw by done|]; cbn [negb andb];
    rewrite ?andb_true_r, ?andb_false_r, ?andb_false_l, ?andb_assoc; done.
Qed.

(** A write is conditional on the version that was read. *)
Lemma selects_version id expected :
  selects (own_env (task_row json d task))
    (by_id id ++ [TCmp (own "version") OpEqual (VInt expected)]) =
  bool_decide (Task.ID task = id) && bool_decide (Task.Version task = expected).
Proof.
  rewrite selects_app, selects_id. f_equal.
  unfold SqlMeaning.selects, SqlMeaning.holds. cbn [forallb app eval]. rewrite andb_true_r.
  assert (cell (own_env (task_row json d task)) (own "version") = VInt (Task.Version task)) as ->
    by by_column.
  unfold test_values. cbn [compare_values fmap option_fmap option_map].
  apply eq_true_iff_eq. rewrite !bool_decide_eq_true.
  destruct (Z.compare_spec (Task.Version task) expected); cbn; naive_solver lia.
Qed.
End task.

(** The row of the new state is what a write leaves. *)
Lemma updated_row task task' : Task.ID task' = Task.ID task ->
  same_row taskColumns
    (set_columns (values_where taskColumns (taskArgs json d task') "id") (task_row json d task))
    (task_row json d task').
Proof.
  intros Hid. unfold same_row, taskColumns.
  repeat (apply Forall_cons; split); [|reflexivity..|by apply Forall_nil].
  change (VString (Task.ID (Task.Normalize task)) = VString (Task.ID (Task.Normalize task'))).
  unfold Task.Normalize. rewrite !Task_Clone_id. f_equal. symmetry. exact Hid.
Qed.

(** The row of the leased task is what a claim leaves. *)
Lemma leased_row lease task :
  NormalizeTime (LeaseRequest.Now lease) = LeaseRequest.Now lease ->
  same_row taskColumns
    (set_columns (lease_sets d (LeaseRequest.Owner lease)
       (NormalizeTime (LeaseRequest.Now lease + LeaseRequest.Duration lease))) (task_row json d task))
    (task_row json d (Ledger.leased lease task)).
Proof.
  intros Hnow. unfold same_row, taskColumns, task_row, taskArgs, Ledger.leased.
  rewrite Task_Normalize_idemp. unfold Task.Normalize. rewrite !Task_Clone_id, Hnow.
  repeat (apply Forall_cons; split); [reflexivity..|by apply Forall_nil].
Qed.

(** While the lease lives, nobody's claim takes the row. *)
Lemma leased_not_selected row owner until lease :
  Deadline until -> Deadline (NormalizeTime (LeaseRequest.Now lease)) ->
  (NormalizeTime (LeaseRequest.Now lease) < until)%Z ->
  selects (own_env (set_columns (lease_sets d owner until) row)) (overdue_tests d lease) = false.
Proof.
  intros Hu Hnow Hlt. unfold overdue_tests. cbv zeta. rewrite selects_app.
  unfold SqlMeaning.selects at 1. cbn [forallb].
  rewrite (holds_free _ (Some until)); [|done|by intros x [= <-]|done].
  apply Z.ltb_lt in Hlt as ->. cbn [negb]. by rewrite !andb_false_r.
Qed.

(** ** Due events *)

Section entry.
Context (payload : RawMessage) (e : OutboxEntry.t).
Context (Hpublished : Stamp (OutboxEntry.PublishedAt e)) (Hnext : Stamp (OutboxEntry.NextAttemptAt e)).
Context (Hlocked : Stamp (OutboxEntry.LockedUntil e)).
#[local] Abbreviation row := (entry_row json d payload e).

Lemma entry_selects_id id :
  selects (own_env row) (by_id id) = bool_decide (Event.ID (OutboxEntry.Event e) = id).
Proof.
  apply eq_true_iff_eq. unfold by_id.
  rewrite selects_cons, andb_true_r, (holds_is _ _ Hbytes), bool_decide_eq_true.
  change (cell (own_env row) (own "id")) with (VString (Event.ID (OutboxEntry.Event e))). naive_solver.
Qed.

Lemma selects_due claim : Deadline (NormalizeTime (OutboxClaim.Now claim)) ->
  selects (own_env row) (due_tests d claim) = Settle.due (NormalizeTime (OutboxClaim.Now claim)) e.
Proof.
  intros Hnow. unfold due_tests. cbv zeta. unfold SqlMeaning.selects. cbn [forallb].
  destruct (holds_stamp_null (own_env row) (own "published_at") _ eq_refl Hpublished) as [-> _].
  destruct (holds_stamp_null (own_env row) (own "next_attempt_at") _ eq_refl Hnext) as [_ ->].
  rewrite (holds_stamp (own_env row) (own "next_attempt_at") _ _ _ eq_refl Hnext Hnow).
  rewrite (holds_free (own_env row) _ _ eq_refl Hlocked Hnow).
  unfold Settle.due, OutboxEntry.Pending, OutboxEntry.IsLeased.
  destruct (OutboxEntry.NextAttemptAt e) as [next|]; [|by rewrite ?andb_false_r].
  change (bool_decide (Some next = None)) with false. rewrite at_most.
  replace (bool_decide (next <= NormalizeTime (OutboxClaim.Now claim))%Z)
    with (negb (NormalizeTime (OutboxClaim.Now claim) <? next)%Z).
  2: { apply eq_true_iff_eq. rewrite negb_true_iff, bool_decide_eq_true. apply Z.ltb_ge. }
  change (bool_decide (Some next <> None)) with true.
  replace (match OutboxEntry.LockedUntil e with None => false | Some until => _ end)
    with (OutboxEntry.IsLeased e (NormalizeTime (OutboxClaim.Now claim))).
  2: { unfold OutboxEntry.IsLeased. destruct (OutboxEntry.LockedUntil e); [|done].
       apply eq_true_iff_eq. rewrite bool_decide_eq_true. symmetry. apply Z.ltb_lt. }
  fold (OutboxEntry.IsLeased e (NormalizeTime (OutboxClaim.Now claim))). cbn [negb andb].
  rewrite andb_true_r, <- andb_assoc. f_equal. apply andb_comm.
Qed.
End entry.

Lemma EncodeTime_normalized x : (Microsecond <= x)%Z ->
  EncodeTime d (Some (NormalizeTime x)) = EncodeTime d (Some x).
Proof.
  intros Hx. pose proof (NormalizeTime_mono _ _ Hx) as Hm. change (NormalizeTime Microsecond) with 1000%Z in Hm.
  rewrite !EncodeTime_set by (unfold Microsecond in *; lia). by rewrite NormalizeTime_idemp.
Qed.

(** The row of the leased event is what a claim leaves. *)
Lemma leased_entry payload claim e :
  NormalizeTime (OutboxClaim.Now claim) = OutboxClaim.Now claim ->
  (Microsecond <= OutboxClaim.Now claim + OutboxClaim.Duration claim)%Z ->
  same_row outboxColumns
    (set_columns (lease_sets d (OutboxClaim.Owner claim)
       (NormalizeTime (OutboxClaim.Now claim + OutboxClaim.Duration claim))) (entry_row json d payload e))
    (entry_row json d payload (Settle.lease claim e)).
Proof.
  intros Hnow Hu. unfold same_row, outboxColumns, entry_row, Settle.lease. rewrite Hnow.
  repeat (apply Forall_cons; split); first [reflexivity|by apply Forall_nil|idtac].
  by apply EncodeTime_normalized.
Qed.

Lemma leased_not_due_again row owner until claim :
  Deadline until -> Deadline (NormalizeTime (OutboxClaim.Now claim)) ->
  (NormalizeTime (OutboxClaim.Now claim) < until)%Z ->
  selects (own_env (set_columns (lease_sets d owner until) row)) (due_tests d claim) = false.
Proof.
  intros Hu Hnow Hlt. unfold due_tests. cbv zeta. unfold SqlMeaning.selects. cbn [forallb].
  rewrite (holds_free _ (Some until)); [|done|by intros x [= <-]|done].
  apply Z.ltb_lt in Hlt as ->. cbn [negb]. by rewrite !andb_false_r.
Qed.

(** ** Settlements *)

Ltac by_columns := repeat (apply Forall_cons; split); [reflexivity..|by apply Forall_nil].

Lemma attempted_entry payload r e :
  same_row outboxColumns (set_columns (attempt_sets d r) (entry_row json d payload e))
    (entry_row json d payload (Settle.attempt r e)).
Proof. unfold same_row, outboxColumns. by_columns. Qed.

(** What an acceptance leaves is what the ledger's leaves of an event that was
    not delivered: the column of the delivery is written in any case. *)
Lemma accepted_entry payload a e :
  (forall x, Acceptance.PublishedAt a = Some x -> (Microsecond <= x)%Z) ->
  (forall x, Acceptance.NextAttemptAt a = Some x -> (Microsecond <= x)%Z) ->
  same_row outboxColumns (set_columns (accepted_sets json d a) (entry_row json d payload e))
    (entry_row json d payload (Settle.accept a (e <| OutboxEntry.PublishedAt := None |>))).
Proof.
  intros Hp Hn. unfold same_row, outboxColumns, accepted_sets, Settle.accept.
  destruct (Acceptance.PublishedAt a) as [x|]; [|destruct (Acceptance.NextAttemptAt a) as [x|] ];
    [..|by_columns];
    repeat (apply Forall_cons; split); first [reflexivity|by apply Forall_nil|idtac];
    symmetry; apply (EncodeTime_normalized x); auto.
Qed.

Lemma buried_entry payload l e :
  same_row outboxColumns (set_columns (dead_sets json l) (entry_row json d payload e))
    (entry_row json d payload (Settle.bury l e)).
Proof.
  unfold same_row, outboxColumns, dead_sets, Settle.bury. destruct (DeadLetter.Accepted l); by_columns.
Qed.
End leases.

(** ** Updates *)

(** The rows an update changes, and what it makes of them. *)
Definition affects collate tables (s : Sql) (row : Row) : bool :=
  match s with
  | Update _ _ tests => selects collate tables (own_env row) tests
  | _ => false
  end.

Definition changed (s : Sql) (row : Row) : Row :=
  match s with
  | Update _ sets _ => set_columns sets row
  | _ => row
  end.

(** A task as the stores keep it, its instants within the years of four digits. *)
Definition Kept (task : Task.t) : Prop :=
  Task.Normalize task = task /\ Spelled (Task.Status task) /\
  Stamp (Task.DueAt task) /\ Stamp (Task.LockedUntil task).

Definition KeptEntry (e : OutboxEntry.t) : Prop :=
  Stamp (OutboxEntry.PublishedAt e) /\ Stamp (OutboxEntry.NextAttemptAt e) /\
  Stamp (OutboxEntry.LockedUntil e).

(** The trees of the conditional updates. *)
Section updates.
Context (json : SqlJson.t) (d : Dialect).

Definition task_update (task : Task.t) (expected : Z) : Sql :=
  Update TasksTable (values_where taskColumns (taskArgs json d task) "id")
    (by_id (Task.ID task) ++ [TCmp (own "version") OpEqual (VInt expected)]).

Definition lease_update (id : string) (lease : LeaseRequest.t) : Sql :=
  Update TasksTable
    (lease_sets d (LeaseRequest.Owner lease)
       (NormalizeTime (LeaseRequest.Now lease + LeaseRequest.Duration lease)))
    (by_id id ++ overdue_tests d lease).

Definition event_update (id : string) (claim : OutboxClaim.t) : Sql :=
  Update OutboxTable
    (lease_sets d (OutboxClaim.Owner claim)
       (NormalizeTime (OutboxClaim.Now claim + OutboxClaim.Duration claim)))
    (by_id id ++ due_tests d claim).

Definition attempt_update (r : AttemptRecord.t) : Sql :=
  Update OutboxTable (attempt_sets d r) (by_id (AttemptRecord.EventID r)).
Definition accept_update (a : Acceptance.t) : Sql :=
  Update OutboxTable (accepted_sets json d a) (by_id (Acceptance.EventID a)).
Definition bury_update (l : DeadLetter.t) : Sql :=
  Update OutboxTable (dead_sets json l) (by_id (DeadLetter.EventID l)).
End updates.

(** The updates of the task table, on a database that compares texts by their
    bytes.  An update changes the row of a task exactly when it is the task written
    and still at the version that was read, and leaves the row of the new state; a
    claim, of an instant cut to the microsecond, changes it exactly when the ledger
    would claim the task and it is in one of the three states that are worked on --
    the ledger claims an overdue task in any state that is not final -- and leaves the
    row of the leased task. *)
Theorem sql_task_writes_refine collate tables json b task :
  (forall x y, collate x y = String.compare x y) -> Kept task ->
  let d := Builder.dialect b in
  let row := task_row json d task in
  let taken s := affects collate tables s row in
  let becomes s task' := same_row taskColumns (changed s row) (task_row json d task') in
  (forall task' expected, let s := task_update json d task' expected in
     UpdateTask json b task' expected = rendered b s /\
     taken s = bool_decide (Task.ID task = Task.ID task') && bool_decide (Task.Version task = expected) /\
     (taken s = true -> becomes s task')) /\
  (forall id lease, let s := lease_update d id lease in
     ClaimLease b id lease = rendered b s /\
     (Deadline (LeaseRequest.Now lease) ->
        taken s = bool_decide (Task.ID task = id) &&
          (Ledger.claimable lease task && contains workingStatuses (Task.Status task)) /\
        becomes s (Ledger.leased lease task))).
Proof.
  intros Hbytes (Hn & Hspelled & Hdue & Hlocked). cbv zeta. set (d := Builder.dialect b). split.
  - intros task' expected. split; [exact (request_printed json b (QUpdateTask task' expected))|].
    unfold affects, task_update. rewrite (selects_version collate Hbytes json d tables task Hn).
    split; [done|]. intros [Hid _]%andb_prop. apply updated_row. by apply bool_decide_eq_true in Hid.
  - intros id lease. split; [exact (request_printed json b (QClaimLease id lease))|]. intros [Hb Hnow].
    unfold affects, lease_update. split; [|by apply leased_row].
    rewrite selects_app, (selects_id collate Hbytes json d tables task Hn). f_equal.
    apply selects_overdue; [done..|]. by rewrite Hnow.
Qed.

(** The updates of the outbox, on a database that compares texts by their bytes.
    A claim changes the row of an
    event exactly when the event is due, and leaves the row of the leased event;
    recording an attempt, an acceptance or a dead letter changes the row of its
    event alone and leaves the row of what the ledger makes of the event -- for an
    acceptance, of the event as if it had not been delivered, since the time of the
    delivery is overwritten even by an acceptance that has none. *)
Theorem sql_outbox_writes_refine collate tables json b payload e :
  (forall x y, collate x y = String.compare x y) -> KeptEntry e ->
  let d := Builder.dialect b in
  let row := entry_row json d payload e in
  let taken s := affects collate tables s row in
  let its id := bool_decide (Event.ID (OutboxEntry.Event e) = id) in
  let becomes s e' := same_row outboxColumns (changed s row) (entry_row json d payload e') in
  (forall id claim, let s := event_update d id claim in
     ClaimEvent b id claim = rendered b s /\
     (Deadline (OutboxClaim.Now claim) -> (0 <= OutboxClaim.Duration claim)%Z ->
        taken s = its id && Settle.due (OutboxClaim.Now claim) e /\ becomes s (Settle.lease claim e))) /\
  (forall r, let s := attempt_update d r in
     RecordAttempt b r = rendered b s /\
     taken s = its (AttemptRecord.EventID r) /\ becomes s (Settle.attempt r e)) /\
  (forall a, let s := accept_update json d a in
     MarkAccepted json b a = rendered b s /\ taken s = its (Acceptance.EventID a) /\
     ((forall x, Acceptance.PublishedAt a = Some x -> (Microsecond <= x)%Z) ->
      (forall x, Acceptance.NextAttemptAt a = Some x -> (Microsecond <= x)%Z) ->
      becomes s (Settle.accept a (e <| OutboxEntry.PublishedAt := None |>)))) /\
  (forall l, let s := bury_update json l in
     MarkDeadLettered json b l = rendered b s /\
     taken s = its (DeadLetter.EventID l) /\ becomes s (Settle.bury l e)).
Proof.
  intros Hbytes (Hp & Hnext & Hlocked). cbv zeta. set (d := Builder.dialect b).
  pose proof (entry_selects_id collate Hbytes json d tables payload e) as Hid.
  split_and!.
  - intros id claim. split; [exact (request_printed json b (QClaimEvent id claim))|]. intros [Hb Hnow] Hl.
    split; [|by apply leased_entry; [|lia] ].
    unfold affects, event_update. rewrite selects_app, Hid. f_equal.
    rewrite selects_due; [by rewrite Hnow|done..|by rewrite Hnow].
  - intros r. split_and!; [exact (request_printed json b (QRecordAttempt r))|apply Hid|].
    apply attempted_entry.
  - intros a. split_and!; [exact (request_printed json b (QMarkAccepted a))|apply Hid|].
    apply accepted_entry.
  - intros l. split_and!; [exact (request_printed json b (QMarkDeadLettered l))|apply Hid|].
    apply buried_entry.
Qed.

(** What was claimed cannot be claimed again while the lease lives: once a
    claim's update changed a row, of a task or of an event, no claim of any owner,
    for any batch, changes it before the time its lease runs out. *)
Theorem sql_claims_exclude collate tables json b row :
  (forall x y, collate x y = String.compare x y) ->
  let d := Builder.dialect b in
  (forall id1 lease1 id2 lease2,
     written json b (QClaimLease id1 lease1) = rendered b (lease_update d id1 lease1) /\
     let until := NormalizeTime (LeaseRequest.Now lease1 + LeaseRequest.Duration lease1) in
     let now := NormalizeTime (LeaseRequest.Now lease2) in
     (Deadline until -> Deadline now -> (now < until)%Z ->
      affects collate tables (lease_update d id2 lease2) (changed (lease_update d id1 lease1) row) = false)) /\
  (forall id1 claim1 id2 claim2,
     written json b (QClaimEvent id1 claim1) = rendered b (event_update d id1 claim1) /\
     let until := NormalizeTime (OutboxClaim.Now claim1 + OutboxClaim.Duration claim1) in
     let now := NormalizeTime (OutboxClaim.Now claim2) in
     (Deadline until -> Deadline now -> (now < until)%Z ->
      affects collate tables (event_update d id2 claim2) (changed (event_update d id1 claim1) row) = false)).
Proof.
  intros Hbytes. split; intros id1 c1 id2 c2;
    (split; [exact (request_printed json b _)|intros ends now Hu Hnow Hlt]);
    unfold affects, changed, lease_update, event_update; rewrite selects_app; apply andb_false_iff; right.
  - by apply leased_not_selected.
  - by apply leased_not_due_again.
Qed.
