(* ===== verification/SqlScan.v ===== *)
(** * SqlScan: reading rows back

    Models [store/sqlcore/scan.go] and the reading half of [types.go] and
    [encode.go]: what the SQL stores make of the rows a driver hands back -- tasks,
    candidate pools, history, recorded events and task types -- and the theorems
    that what was stored is what is read.

    A result set is the list of its rows, each the columns a driver scanned or the
    error of the scan, and the error the set ended with, if any.  [json.Unmarshal]
    is the argument [json]. *)

From S2P Require Import Prelude Domain Errors Event Query Outbox Store Registry Calendar Sqlkit SqlBuilder SqlPrint SqlPrintFacts SqlMeaning.

(** ** Result sets *)

Module Rows.
Record t : Type := mk { each : list (result error (list Raw)); ended : option error }.
End Rows.

(** The loop of the functions that read every row. *)
Fixpoint scan_each {A} (scanning : string) (convert : list Raw -> res A)
    (rows : list (result error (list Raw))) : res (list A) :=
  match rows with
  | [] => Ok []
  | Err e :: _ => Err (Wrapped ("sqlcore: scan " +:+ scanning +:+ " row: ") e)
  | Ok values :: rest =>
      try! a := convert values in
      try! more := scan_each scanning convert rest in
      Ok (a :: more)
  end.

Definition scan_rows {A} (scanning reading : string) (convert : list Raw -> res A) (rows : Rows.t)
  : res (list A) :=
  try! all := scan_each scanning convert (Rows.each rows) in
  match Rows.ended rows with
  | None => Ok all
  | Some e => Err (Wrapped ("sqlcore: read " +:+ reading +:+ " rows: ") e)
  end.

Definition value_at (values : list Raw) (index : nat) : Raw := nth index values RawNil.

(** The closure [read]: the failure names the column. *)
Definition read_column {A} (columns : list string) (decode : Raw -> res A) (values : list Raw)
    (index : nat) : res A :=
  match decode (value_at values index) with
  | Ok a => Ok a
  | Err e => Err (Wrapped ("sqlcore: column " +:+ nth index columns "" +:+ ": ") e)
  end.

(** The zero instant is absence. *)
Definition optionalTime (value : Time) : option Time := if decide (value = 0%Z) then None else Some value.

(** A text under a failed [json.Unmarshal]. *)
Definition unmarshalled {A} (prefix : string) (r : result string A) : res A :=
  match r with Ok a => Ok a | Err text => Err (Wrapped prefix (plain text)) end.

Definition bytes_of (raw : RawMessage) : string := default "" raw.

(** A record as it is read: its operation is whatever text the column holds. *)
Module HistoryRow.
Record t : Type := mk {
  TaskID : string; Version : Z; Operation : string; From : Status; To : Status;
  Actor : string; Comment : string; At : Time
}.
Definition of_record (r : TransitionRecord.t) : t :=
  mk (TransitionRecord.TaskID r) (TransitionRecord.Version r)
    (Operation_String (TransitionRecord.Operation r)) (TransitionRecord.From r) (TransitionRecord.To r)
    (TransitionRecord.Actor r) (TransitionRecord.Comment r) (TransitionRecord.At r).
End HistoryRow.

Section scan.
Context (json : SqlJson.t).

(** ** Tasks *)

(** [TaskScanner.Task], on the columns last scanned. *)
Definition Task_ (values : list Raw) : res Task.t :=
  let readString := read_column taskColumns DecodeString values in
  let readInt := read_column taskColumns DecodeInt values in
  let readRaw := read_column taskColumns DecodeJSON values in
  let readTime := read_column taskColumns DecodeTime values in
  try! id := readString 0 in
  try! taskType := readString 1 in
  try! version := readInt 2 in
  try! status := readString 3 in
  try! suspendedFrom := readString 4 in
  try! priority := readInt 5 in
  try! assignee := readString 6 in
  try! ownerType := readString 7 in
  try! ownerRef := readString 8 in
  try! activityKey := readString 9 in
  try! correlationExtra := readRaw 10 in
  try! callbackAddr := readString 11 in
  try! callbackParams := readRaw 12 in
  try! escalation := readRaw 13 in
  try! input := readRaw 14 in
  try! progress := readRaw 15 in
  try! output := readRaw 16 in
  try! reason := readString 17 in
  try! createdBy := readString 18 in
  try! escalationCount := readInt 19 in
  try! createdAt := readTime 20 in
  try! updatedAt := readTime 21 in
  try! due := readTime 22 in
  try! started := readTime 23 in
  try! closed := readTime 24 in
  try! escalated := readTime 25 in
  try! lockedBy := readString 26 in
  try! lockedUntil := readTime 27 in
  try! extra :=
    (if raw_empty correlationExtra then Ok ∅
     else unmarshalled "sqlcore: column correlation_extra: "
            (SqlJson.UnmarshalMap json (bytes_of correlationExtra))) in
  let callback :=
    if negb (bool_decide (callbackAddr = "")) || negb (raw_empty callbackParams)
    then Some (CallbackTarget.mk callbackAddr callbackParams) else None in
  try! policy :=
    (if raw_empty escalation then Ok None
     else
       try! p := unmarshalled "sqlcore: column escalation: "
                   (SqlJson.UnmarshalPolicy json (bytes_of escalation)) in
       Ok (Some p)) in
  Ok (Task.mk id taskType version (Status_of status) (Status_of suspendedFrom) priority assignee
        CandidatePool.empty (CorrelationData.mk ownerType ownerRef activityKey extra) callback policy
        input progress output reason createdBy escalationCount createdAt updatedAt
        (optionalTime due) (optionalTime started) (optionalTime closed) (optionalTime escalated)
        lockedBy (optionalTime lockedUntil)).

Definition ScanTasks (rows : Rows.t) : res (list Task.t) := scan_rows "task" "task" Task_ rows.

(** ** Counts *)

Definition ScanCount (rows : Rows.t) : res Z :=
  match Rows.each rows with
  | [] =>
      match Rows.ended rows with
      | Some e => Err (Wrapped "hmntsk: read the task count: " e)
      | None => Err (plain "hmntsk: the task count returned no row")
      end
  | Err e :: _ => Err (Wrapped "hmntsk: scan the task count: " e)
  | Ok values :: _ => DecodeInt (value_at values 0)
  end.

(** ** Candidates *)

(** The switch on the kind of a candidate row. *)
Definition add_candidate (kind value : string) (pool : CandidatePool.t) : option CandidatePool.t :=
  if decide (kind = CandidateUser)
  then Some (pool <| CandidatePool.Users := CandidatePool.Users pool ++ [value] |>)
  else if decide (kind = CandidateGroup)
  then Some (pool <| CandidatePool.Groups := CandidatePool.Groups pool ++ [value] |>)
  else if decide (kind = CandidateExcluded)
  then Some (pool <| CandidatePool.Excluded := CandidatePool.Excluded pool ++ [value] |>)
  else None.

Fixpoint candidate_loop (pools : gmap string CandidatePool.t) (rows : list (result error (list Raw)))
  : res (gmap string CandidatePool.t) :=
  match rows with
  | [] => Ok pools
  | Err e :: _ => Err (Wrapped "sqlcore: scan candidate row: " e)
  | Ok values :: rest =>
      try! id := DecodeString (value_at values 0) in
      try! rowKind := DecodeString (value_at values 1) in
      try! rowValue := DecodeString (value_at values 2) in
      match add_candidate rowKind rowValue (default CandidatePool.empty (pools !! id)) with
      | None => Err (plain ("sqlcore: unknown candidate kind " +:+ quote rowKind))
      | Some pool => candidate_loop (<[id := pool]> pools) rest
      end
  end.

Definition ScanCandidates (rows : Rows.t) : res (gmap string CandidatePool.t) :=
  try! pools := candidate_loop ∅ (Rows.each rows) in
  match Rows.ended rows with
  | None => Ok pools
  | Some e => Err (Wrapped "sqlcore: read candidate rows: " e)
  end.

(** ** History *)

Definition historyRecord (values : list Raw) : res HistoryRow.t :=
  try! taskID := DecodeString (value_at values 0) in
  try! version := DecodeInt (value_at values 1) in
  try! operation := DecodeString (value_at values 2) in
  try! from := DecodeString (value_at values 3) in
  try! to := DecodeString (value_at values 4) in
  try! actor := DecodeString (value_at values 5) in
  try! comment := DecodeString (value_at values 6) in
  try! at_ := DecodeTime (value_at values 7) in
  Ok (HistoryRow.mk taskID version operation (Status_of from) (Status_of to) actor comment at_).

Definition ScanHistory (rows : Rows.t) : res (list HistoryRow.t) :=
  scan_rows "history" "history" historyRecord rows.

(** ** Recorded events *)

Definition outbox_event (values : list Raw) : res Event.t :=
  try! payload := DecodeJSON (value_at values 6) in
  unmarshalled "sqlcore: decode outbox payload: " (SqlJson.UnmarshalEvent json (bytes_of payload)).

Definition ScanOutbox (rows : Rows.t) : res (list Event.t) := scan_rows "outbox" "outbox" outbox_event rows.

Fixpoint EventRows (events : list Event.t) : res (list EventRow) :=
  match events with
  | [] => Ok []
  | event :: rest =>
      try! payload := unmarshalled ("sqlcore: encode event " +:+ Event.ID event +:+ ": ")
                        (SqlJson.MarshalEvent json event) in
      try! rows := EventRows rest in
      Ok (mkEventRow (Event.ID event) (Event.TaskID event) (Event.TaskType event) (Event.Type_ event)
            (Event.OccurredAt event) (Some payload) :: rows)
  end.

Definition decodeSinks (value : Raw) : res (list string) :=
  try! raw := DecodeJSON value in
  if raw_empty raw then Ok []
  else unmarshalled "sqlcore: column accepted_sinks: " (SqlJson.UnmarshalStrings json (bytes_of raw)).

Definition decode_event (value : Raw) : res Event.t :=
  try! payload := DecodeJSON value in
  unmarshalled "decode outbox payload: " (SqlJson.UnmarshalEvent json (bytes_of payload)).

Definition outboxEntry (values : list Raw) : res OutboxEntry.t :=
  let readTime := read_column outboxColumns DecodeTime values in
  try! published := readTime 5 in
  try! event := read_column outboxColumns decode_event values 6 in
  try! attempts := read_column outboxColumns DecodeInt values 7 in
  try! next := readTime 8 in
  try! lastError := read_column outboxColumns DecodeString values 9 in
  try! lockedBy := read_column outboxColumns DecodeString values 10 in
  try! lockedUntil := readTime 11 in
  try! accepted := read_column outboxColumns decodeSinks values 12 in
  Ok (OutboxEntry.mk event attempts (optionalTime next) lastError accepted (optionalTime published)
        lockedBy (optionalTime lockedUntil)).

Definition ScanOutboxEntries (rows : Rows.t) : res (list OutboxEntry.t) :=
  scan_rows "outbox" "outbox" outboxEntry rows.

(** ** Task types *)

Definition typeSpec (values : list Raw) : res TypeSpec.t :=
  try! name := DecodeString (value_at values 0) in
  try! title := DecodeString (value_at values 1) in
  try! description := DecodeString (value_at values 2) in
  try! inputSchema := DecodeJSON (value_at values 3) in
  try! outputSchema := DecodeJSON (value_at values 4) in
  try! priority := DecodeInt (value_at values 5) in
  try! deadline := DecodeInt (value_at values 6) in
  try! escalation := DecodeJSON (value_at values 7) in
  try! policy :=
    (if raw_empty escalation then Ok None
     else
       try! p := unmarshalled "sqlcore: column default_escalation: "
                   (SqlJson.UnmarshalPolicy json (bytes_of escalation)) in
       Ok (Some p)) in
  try! assignment := DecodeJSON (value_at values 8) in
  try! pool :=
    (if raw_empty assignment then Ok CandidatePool.empty
     else unmarshalled "sqlcore: column default_assignment: "
            (SqlJson.UnmarshalPool json (bytes_of assignment))) in
  try! metadata := DecodeJSON (value_at values 10) in
  try! meta :=
    (if raw_empty metadata then Ok ∅
     else unmarshalled "sqlcore: column metadata: " (SqlJson.UnmarshalMap json (bytes_of metadata))) in
  Ok (TypeSpec.mk name title description inputSchema outputSchema priority
        (wrap64 (deadline * 1000000)) policy pool meta).

Definition ScanTypes (rows : Rows.t) : res (list TypeSpec.t) := scan_rows "task type" "task type" typeSpec rows.
End scan.

(** * Reading back *)

(** What a driver hands back of the values of a row. *)
Definition RowBack (d : Dialect) (values : list Value) (raws : list Raw) : Prop :=
  Forall2 (HandsBack d) values raws.

(** An instant of the years 1 to 9999, or the zero time. *)
Definition Dated (t : Time) : Prop := (0 <= t < year_10000)%Z.
Definition DatedPtr (t : option Time) : Prop := forall x, t = Some x -> Dated x.
Definition Int64 (z : Z) : Prop := (- 2 ^ 63 <= z <= max_int64)%Z.

(** What storing makes of a value: nothing is kept of an empty payload, of the zero
    time, or of a callback without an address and parameters. *)
Definition stored_raw (raw : RawMessage) : RawMessage := if raw_empty raw then None else raw.
Definition stored_time (t : option Time) : option Time := t ≫= fun x => optionalTime (NormalizeTime x).
Definition stored_callback (c : option CallbackTarget.t) : option CallbackTarget.t :=
  c ≫= fun c =>
    if CallbackTarget.IsZero c then None
    else Some (CallbackTarget.mk (CallbackTarget.Address c) (stored_raw (CallbackTarget.ReferenceParameters c))).
Definition stored_status (s : Status) : Status := Status_of (Status_String s).

Definition stored_task (t : Task.t) : Task.t :=
  Task.mk (Task.ID t) (Task.Type_ t) (Task.Version t) (stored_status (Task.Status t))
    (stored_status (Task.SuspendedFrom t)) (Task.Priority t) (Task.Assignee t) CandidatePool.empty
    (Task.Correlation t) (stored_callback (Task.Callback t)) (Task.Escalation t)
    (stored_raw (Task.Input t)) (stored_raw (Task.Progress t)) (stored_raw (Task.Output t))
    (Task.Reason t) (Task.CreatedBy t) (Task.EscalationCount t)
    (NormalizeTime (Task.CreatedAt t)) (NormalizeTime (Task.UpdatedAt t)) (stored_time (Task.DueAt t))
    (stored_time (Task.StartedAt t)) (stored_time (Task.ClosedAt t)) (stored_time (Task.EscalatedAt t))
    (Task.LockedBy t) (stored_time (Task.LockedUntil t)).

Definition stored_record (r : TransitionRecord.t) : TransitionRecord.t :=
  TransitionRecord.mk (TransitionRecord.TaskID r) (TransitionRecord.Version r) (TransitionRecord.Operation r)
    (stored_status (TransitionRecord.From r)) (stored_status (TransitionRecord.To r))
    (TransitionRecord.Actor r) (TransitionRecord.Comment r) (NormalizeTime (TransitionRecord.At r)).

Definition stored_entry (e : OutboxEntry.t) : OutboxEntry.t :=
  OutboxEntry.mk (OutboxEntry.Event e) (OutboxEntry.Attempts e) (stored_time (OutboxEntry.NextAttemptAt e))
    (OutboxEntry.LastError e) (OutboxEntry.Accepted e) (stored_time (OutboxEntry.PublishedAt e))
    (OutboxEntry.LockedBy e) (stored_time (OutboxEntry.LockedUntil e)).

(** A type's deadline is kept to the millisecond. *)
Definition stored_spec (spec : TypeSpec.t) : TypeSpec.t :=
  TypeSpec.mk (TypeSpec.Name spec) (TypeSpec.Title spec) (TypeSpec.Description spec)
    (stored_raw (TypeSpec.InputSchema spec)) (stored_raw (TypeSpec.OutputSchema spec))
    (TypeSpec.DefaultPriority spec) (Z.quot (TypeSpec.DefaultDeadline spec) 1000000 * 1000000)
    (TypeSpec.DefaultEscalation spec) (TypeSpec.DefaultAssignment spec) (TypeSpec.Metadata spec).

(** The JSON of a value reads back as the value. *)
Section keeps.
Context (json : SqlJson.t).

Definition Marshals (e : Encodable) (back : string -> Prop) : Prop :=
  exists s, SqlJson.Marshal json e = Some s /\ s <> "" /\ s <> "null" /\ back s.

Definition KeepsMap (m : gmap string string) : Prop :=
  m <> ∅ -> Marshals (EMap m) (fun s => SqlJson.UnmarshalMap json s = Ok m).
Definition KeepsPolicy (p : option EscalationPolicy.t) : Prop :=
  forall q, p = Some q -> Marshals (EPolicy p) (fun s => SqlJson.UnmarshalPolicy json s = Ok q).
Definition KeepsStrings (l : list string) : Prop :=
  l <> [] -> Marshals (EStrings l) (fun s => SqlJson.UnmarshalStrings json s = Ok l).
Definition KeepsPool (p : CandidatePool.t) : Prop :=
  Marshals (EPool p) (fun s => SqlJson.UnmarshalPool json s = Ok p).
End keeps.

(** ** Cells *)

Section cells.
Context (json : SqlJson.t) (d : Dialect).

Lemma text_back s raw : HandsBack d (VString s) raw -> DecodeString raw = Ok s.
Proof. apply stored_text_read_back. Qed.

Lemma null_text_back s raw : HandsBack d (nullString s) raw -> DecodeString raw = Ok s.
Proof. unfold nullString. case_decide; [subst; by inversion 1|apply stored_text_read_back]. Qed.

Lemma int_back z raw : Int64 z -> HandsBack d (VInt z) raw -> DecodeInt raw = Ok z.
Proof. intros Hz. by apply stored_integer_read_back. Qed.

Lemma raw_back payload raw : HandsBack d (EncodeRaw payload) raw -> DecodeJSON raw = Ok (stored_raw payload).
Proof. apply stored_payload_read_back. Qed.

Lemma time_back t raw : Dated t -> HandsBack d (EncodeTime d (Some t)) raw ->
  DecodeTime raw = Ok (NormalizeTime t).
Proof.
  intros Ht. destruct (decide (t = 0%Z)) as [->|Hne]; [by inversion 1|].
  apply stored_instant_read_back. unfold Dated in Ht. lia.
Qed.

Lemma normalized_dated t : Dated t -> Dated (NormalizeTime t).
Proof.
  unfold Dated. intros H. destruct (decide (t = 0%Z)) as [->|]; [done|]. apply normalized_bounds. lia.
Qed.

Lemma time_ptr_back t raw : DatedPtr t -> HandsBack d (EncodeTime d t) raw ->
  exists x, DecodeTime raw = Ok x /\ optionalTime x = stored_time t.
Proof.
  intros Ht Hraw. destruct t as [x|].
  - exists (NormalizeTime x). split; [apply time_back; [by apply Ht|done]|done].
  - exists 0%Z. split; [by inversion Hraw|done].
Qed.

Lemma marshalled_back e s raw : SqlJson.Marshal json e = Some s -> s <> "" -> s <> "null" ->
  HandsBack d (marshalled json e) raw -> DecodeJSON raw = Ok (Some s).
Proof.
  intros Hm He Hn. unfold marshalled. rewrite Hm, decide_False by done.
  inversion 1; cbn; by rewrite decide_False.
Qed.

Lemma raw_empty_set s : s <> "" -> raw_empty (Some s) = false.
Proof. by destruct s. Qed.

Lemma map_back m raw : KeepsMap json m -> HandsBack d (encodeValue json (EMap m)) raw ->
  exists x, DecodeJSON raw = Ok x /\ forall prefix,
    (if raw_empty x then Ok ∅ else unmarshalled prefix (SqlJson.UnmarshalMap json (bytes_of x))) = Ok m.
Proof.
  intros Hk. cbn [encodeValue]. case_decide as Hm; [subst m|].
  { inversion 1; subst. by exists None. }
  destruct (Hk Hm) as (s & Hs & He & Hn & Hback). intros Hraw. exists (Some s).
  split; [by eapply marshalled_back|]. intros prefix. rewrite raw_empty_set by done. cbn. by rewrite Hback.
Qed.

Lemma policy_back p raw : KeepsPolicy json p -> HandsBack d (encodeValue json (EPolicy p)) raw ->
  exists x, DecodeJSON raw = Ok x /\ forall prefix,
    (if raw_empty x then Ok None
     else try! q := unmarshalled prefix (SqlJson.UnmarshalPolicy json (bytes_of x)) in Ok (Some q)) = Ok p.
Proof.
  intros Hk. destruct p as [p|]; cbn [encodeValue].
  2: { inversion 1; subst. by exists None. }
  destruct (Hk p eq_refl) as (s & Hs & He & Hn & Hback). intros Hraw. exists (Some s).
  split; [by eapply marshalled_back|]. intros prefix. rewrite raw_empty_set by done. cbn. by rewrite Hback.
Qed.

Lemma pool_back p raw : KeepsPool json p -> HandsBack d (encodeValue json (EPool p)) raw ->
  exists x, DecodeJSON raw = Ok x /\ forall prefix,
    (if raw_empty x then Ok CandidatePool.empty
     else unmarshalled prefix (SqlJson.UnmarshalPool json (bytes_of x))) = Ok p.
Proof.
  intros (s & Hs & He & Hn & Hback) Hraw. exists (Some s).
  split; [by eapply marshalled_back|]. intros prefix. rewrite raw_empty_set by done. cbn. by rewrite Hback.
Qed.

Lemma sinks_back l raw : KeepsStrings json l -> HandsBack d (encodeSinks json l) raw ->
  decodeSinks json raw = Ok l.
Proof.
  intros Hk. destruct l as [|x l]; [by inversion 1|]. intros Hraw.
  destruct (Hk ltac:(done)) as (s & Hs & He & Hn & Hback). unfold decodeSinks.
  erewrite marshalled_back by done. cbn [rbind]. rewrite raw_empty_set by done. cbn. by rewrite Hback.
Qed.

Lemma callback_back c raw1 raw2 :
  HandsBack d (nullString (callbackAddress c)) raw1 ->
  HandsBack d (encodeValue json (callbackParameters c)) raw2 ->
  exists a p, DecodeString raw1 = Ok a /\ DecodeJSON raw2 = Ok p /\
    (if negb (bool_decide (a = "")) || negb (raw_empty p) then Some (CallbackTarget.mk a p) else None) =
    stored_callback c.
Proof.
  intros H1%null_text_back H2.
  assert (Hp : DecodeJSON raw2 = Ok (c ≫= fun c => stored_raw (CallbackTarget.ReferenceParameters c))).
  { destruct c as [c|]; cbn [callbackParameters] in H2; [|by inversion H2].
    cbn [mbind option_bind]. unfold stored_raw. destruct (raw_empty (CallbackTarget.ReferenceParameters c)) eqn:E.
    - by inversion H2.
    - cbn [encodeValue] in H2. unfold encodeRaw in H2. apply raw_back in H2. rewrite H2. unfold stored_raw. by rewrite E. }
  eexists _, _. split; [exact H1|]. split; [exact Hp|].
  destruct c as [ [a p]|]; [|done]. cbn. unfold CallbackTarget.IsZero. cbn.
  assert (raw_empty (stored_raw p) = raw_empty p) as -> by (unfold stored_raw; by destruct p as [ [|]|]).
  by destruct (bool_decide (a = "")), (raw_empty p).
Qed.
End cells.

Lemma read_ok {A} columns (decode : Raw -> res A) values i raw a :
  value_at values i = raw -> decode raw = Ok a -> read_column columns decode values i = Ok a.
Proof. unfold read_column. by intros -> ->. Qed.

Lemma bind_ok {A B} (x : res A) (k : A -> res B) a : x = Ok a -> rbind x k = k a.
Proof. by intros ->. Qed.

(** Takes a row apart into its columns. *)
Ltac columns_of H :=
  repeat (let raw := fresh "raw" in let rest := fresh "rest" in let Hraw := fresh "Hraw" in
          apply Forall2_cons_inv_l in H as (raw & rest & Hraw & H & ->));
  apply Forall2_nil_inv_l in H as ->.

Ltac read_cell :=
  match goal with
  | |- context [rbind (read_column ?cs ?decode ?vs ?i) _] =>
      erewrite (read_ok cs decode vs i) by
        (first [reflexivity
               |eassumption
               |eapply text_back; eassumption
               |eapply null_text_back; eassumption
               |eapply raw_back; eassumption
               |eapply time_back; [|eassumption]; eassumption
               |eapply int_back; [|eassumption]; eassumption]);
      cbn [rbind]
  end.

(** The cells whose reading is more than one decoder. *)
Ltac other_cells :=
  repeat match goal with
  | H : HandsBack ?d (EncodeTime ?d ?t) ?raw, Ht : DatedPtr ?t |- _ =>
      destruct (time_ptr_back d t raw Ht H) as (? & ? & ?); clear H
  | H : HandsBack ?d (encodeValue ?json (EMap ?m)) ?raw, Hk : KeepsMap ?json ?m |- _ =>
      destruct (map_back json d m raw Hk H) as (? & ? & ?); clear H
  | H : HandsBack ?d (encodeValue ?json (EPolicy ?p)) ?raw, Hk : KeepsPolicy ?json ?p |- _ =>
      destruct (policy_back json d p raw Hk H) as (? & ? & ?); clear H
  | H : HandsBack ?d (encodeValue ?json (EPool ?p)) ?raw, Hk : KeepsPool ?json ?p |- _ =>
      destruct (pool_back json d p raw Hk H) as (? & ? & ?); clear H
  | H1 : HandsBack ?d (nullString (callbackAddress ?c)) ?raw1,
    H2 : HandsBack ?d (encodeValue ?json (callbackParameters ?c)) ?raw2 |- _ =>
      destruct (callback_back json d c raw1 raw2 H1 H2) as (? & ? & ? & ? & ?); clear H1 H2
  end.

Ltac finish_cells :=
  repeat match goal with
  | H : forall prefix, _ = Ok _ |- _ => rewrite H; clear H; cbn [rbind]
  | H : optionalTime _ = _ |- _ => rewrite H; clear H
  | H : (if _ then Some (CallbackTarget.mk _ _) else None) = _ |- _ => rewrite H; clear H
  end.

(** A column that is decoded without naming it. *)
Ltac decode_cell :=
  match goal with
  | |- context [rbind (?decode (value_at ?vs ?i)) _] =>
      let raw := eval cbv [value_at nth] in (value_at vs i) in
      change (value_at vs i) with raw;
      erewrite (bind_ok (decode raw)) by
        (first [eassumption
               |eapply text_back; eassumption
               |eapply null_text_back; eassumption
               |eapply raw_back; eassumption
               |eapply time_back; [|eassumption]; eassumption
               |eapply int_back; [|eassumption]; eassumption]);
      cbn [rbind]
  end.

(** What a task can be stored as. *)
Record Encoded (json : SqlJson.t) (task : Task.t) : Prop := {
  enc_version : Int64 (Task.Version task);
  enc_priority : Int64 (Task.Priority task);
  enc_escalations : Int64 (Task.EscalationCount task);
  enc_created : Dated (Task.CreatedAt task);
  enc_updated : Dated (Task.UpdatedAt task);
  enc_due : DatedPtr (Task.DueAt task);
  enc_started : DatedPtr (Task.StartedAt task);
  enc_closed : DatedPtr (Task.ClosedAt task);
  enc_escalated : DatedPtr (Task.EscalatedAt task);
  enc_locked : DatedPtr (Task.LockedUntil task);
  enc_extra : KeepsMap json (CorrelationData.Extra (Task.Correlation task));
  enc_policy : KeepsPolicy json (Task.Escalation task)
}.

Lemma task_back json d task raws : Encoded json task -> Task.Normalize task = task ->
  RowBack d (taskArgs json d task) raws -> Task_ json raws = Ok (stored_task task).
Proof.
  intros [] Hn H. unfold taskArgs in H. rewrite Hn in H. cbv zeta in H. unfold encodeTime in H. unfold RowBack in H.
  columns_of H.
  other_cells. unfold Task_. cbv zeta. repeat read_cell. finish_cells.
  unfold stored_task. do 2 f_equal; [|done..]. by destruct (Task.Correlation task).
Qed.

Lemma history_back d r raws : Int64 (TransitionRecord.Version r) -> Dated (TransitionRecord.At r) ->
  RowBack d (history_values d r) raws ->
  historyRecord raws = Ok (HistoryRow.of_record (stored_record r)).
Proof.
  intros Hv Ha H. unfold history_values, encodeTime, RowBack in H. cbv zeta in H. columns_of H.
  apply normalized_dated in Ha.
  unfold historyRecord. repeat decode_cell. by rewrite NormalizeTime_idemp.
Qed.

(** What an outbox entry can be stored as. *)
Record EncodedEntry (json : SqlJson.t) (payload : RawMessage) (e : OutboxEntry.t) : Prop := {
  enc_event : exists s, payload = Some s /\ s <> "" /\
    SqlJson.UnmarshalEvent json s = Ok (OutboxEntry.Event e);
  enc_attempts : Int64 (OutboxEntry.Attempts e);
  enc_published : DatedPtr (OutboxEntry.PublishedAt e);
  enc_next : DatedPtr (OutboxEntry.NextAttemptAt e);
  enc_until : DatedPtr (OutboxEntry.LockedUntil e);
  enc_sinks : KeepsStrings json (OutboxEntry.Accepted e)
}.

Lemma entry_back json d payload e raws : EncodedEntry json payload e ->
  RowBack d (entry_values json d payload e) raws ->
  outboxEntry json raws = Ok (stored_entry e).
Proof.
  intros [ (s & -> & Hs & Hback) ] H. unfold entry_values, RowBack in H. cbv zeta in H. columns_of H.
  other_cells.
  assert (decode_event json raw5 = Ok (OutboxEntry.Event e)).
  { apply raw_back in Hraw5. unfold decode_event. rewrite Hraw5. cbn [rbind]. unfold stored_raw.
    rewrite raw_empty_set by done. cbn. by rewrite Hback. }
  assert (decodeSinks json raw11 = Ok (OutboxEntry.Accepted e)) by (by eapply sinks_back).
  unfold outboxEntry. cbv zeta. repeat read_cell. by finish_cells.
Qed.

(** What a task type can be stored as. *)
Record EncodedType (json : SqlJson.t) (spec : TypeSpec.t) : Prop := {
  enc_default_priority : Int64 (TypeSpec.DefaultPriority spec);
  enc_deadline : Int64 (TypeSpec.DefaultDeadline spec);
  enc_default_escalation : KeepsPolicy json (TypeSpec.DefaultEscalation spec);
  enc_default_assignment : KeepsPool json (TypeSpec.DefaultAssignment spec);
  enc_metadata : KeepsMap json (TypeSpec.Metadata spec)
}.

Lemma milliseconds_bounds n : Int64 n ->
  Int64 (Z.quot n 1000000) /\ Int64 (Z.quot n 1000000 * 1000000).
Proof.
  unfold Int64, max_int64. intros Hn. Z.to_euclidean_division_equations. lia.
Qed.

Lemma type_back json d spec now raws : EncodedType json spec ->
  RowBack d (type_values json d spec now) raws ->
  typeSpec json raws = Ok (stored_spec spec).
Proof.
  intros [] H. unfold type_values, encodeTime, RowBack in H. columns_of H. other_cells.
  pose proof (milliseconds_bounds _ enc_deadline0) as [Hq Hw].
  unfold typeSpec. repeat first [decode_cell | progress finish_cells].
  by rewrite wrap64_small.
Qed.

(** ** Candidates *)

(** A row of the candidates' table: its task, its place among the task's entries,
    its kind and its value. *)
Definition Candidate : Type := string * nat * (string * string).

Definition candidate_cells (c : Candidate) : list Value := candidate_values c.1.1 c.1.2 c.2.
Definition candidate_env (c : Candidate) : Env := env_of None (row_of candidate_columns (candidate_cells c)).

Definition candidates_of (task : Task.t) : list Candidate :=
  imap (fun i e => (Task.ID task, i, e)) (candidate_entries (Task.Candidates task)).

(** The columns read, as a driver hands them back. *)
Definition CandidatesBack (d : Dialect) (answer : list Candidate) (rows : Rows.t) : Prop :=
  Rows.ended rows = None /\ exists raws,
    Rows.each rows = Ok <$> raws /\ Forall2 (fun c raws => RowBack d (take 3 (candidate_cells c)) raws) answer raws.

Definition valued (kind : string) (l : list (string * string)) : list string :=
  snd <$> filter (fun e => e.1 = kind) l.

Lemma valued_app kind l1 l2 : valued kind (l1 ++ l2) = valued kind l1 ++ valued kind l2.
Proof. unfold valued. by rewrite filter_app, fmap_app. Qed.

Lemma valued_cons kind e l :
  valued kind (e :: l) = if decide (e.1 = kind) then e.2 :: valued kind l else valued kind l.
Proof. unfold valued. rewrite filter_cons. by case_decide. Qed.

Lemma valued_same kind l : valued kind ((fun v => (kind, v)) <$> l) = l.
Proof.
  induction l as [|v l IH]; [done|]. change (?f <$> v :: l) with (f v :: (f <$> l)).
  by rewrite valued_cons, decide_True, IH.
Qed.

Lemma valued_other kind kind' l : kind' <> kind -> valued kind ((fun v => (kind', v)) <$> l) = [].
Proof.
  intros Hk. induction l as [|v l IH]; [done|]. change (?f <$> v :: l) with (f v :: (f <$> l)).
  by rewrite valued_cons, decide_False, IH.
Qed.

Definition pool_of (l : list (string * string)) : CandidatePool.t :=
  CandidatePool.mk (valued CandidateUser l) (valued CandidateGroup l) (valued CandidateExcluded l).

Lemma pool_of_entries pool : pool_of (candidate_entries pool) = pool.
Proof.
  unfold pool_of, candidate_entries. destruct pool as [us gs es].
  cbn [CandidatePool.Users CandidatePool.Groups CandidatePool.Excluded].
  by rewrite !valued_app, !valued_same, !valued_other, !app_nil_r by done.
Qed.

Lemma add_candidate_ok kind value pool : kind ∈ [CandidateUser; CandidateGroup; CandidateExcluded] ->
  exists pool', add_candidate kind value pool = Some pool' /\
    forall seen, pool = pool_of seen -> pool' = pool_of (seen ++ [(kind, value)]).
Proof.
  unfold add_candidate, pool_of. intros Hkind. rewrite !elem_of_cons in Hkind.
  destruct Hkind as [-> | [-> | [-> | []%elem_of_nil] ] ]; (eexists; split; [reflexivity|]);
    intros seen ->; rewrite !valued_app; cbn; by rewrite ?app_nil_r.
Qed.

(** The loop adds each row to the pool of its task. *)
Lemma candidate_loop_pools d answer raws pools :
  Forall2 (fun c raws => RowBack d (take 3 (candidate_cells c)) raws) answer raws ->
  Forall (fun c => c.2.1 ∈ [CandidateUser; CandidateGroup; CandidateExcluded]) answer ->
  exists pools', candidate_loop pools (Ok <$> raws) = Ok pools' /\ forall id seen,
    default CandidatePool.empty (pools !! id) = pool_of seen ->
    default CandidatePool.empty (pools' !! id) = pool_of (seen ++ (snd <$> filter (fun c : Candidate => c.1.1 = id) answer)).
Proof.
  intros Hraws. revert pools. induction Hraws as [|c raw answer raws Hc Hraws IH]; intros pools Hk.
  { exists pools. split; [done|]. intros id seen Hseen. cbn. by rewrite app_nil_r. }
  apply Forall_cons in Hk as [Hkind Hk]. destruct c as [ [id i] [kind value] ]. cbn [fst snd] in Hkind.
  unfold RowBack, candidate_cells, candidate_values in Hc. cbn [take fst snd] in Hc. columns_of Hc.
  apply text_back in Hraw, Hraw0, Hraw1.
  destruct (add_candidate_ok kind value (default CandidatePool.empty (pools !! id)) Hkind) as (pool & Hadd & Hpool).
  destruct (IH (<[id := pool]> pools) Hk) as (pools' & Hloop & Hpools).
  exists pools'. split.
  - change (Ok <$> ?r :: raws) with (Ok r :: (Ok <$> raws) : list (result error (list Raw))).
    cbn [candidate_loop]. repeat decode_cell. by rewrite Hadd.
  - intros id' seen Hseen. rewrite filter_cons. cbn [fst snd]. case_decide as Hid.
    + subst id'. change (snd <$> ?c :: ?l) with (snd c :: (snd <$> l)). rewrite cons_middle, app_assoc.
      apply Hpools. rewrite lookup_insert_eq. by apply Hpool.
    + apply Hpools. by rewrite lookup_insert_ne.
Qed.

Lemma list_eq_nil {A} (l : list A) : (forall x, x ∉ l) -> l = [].
Proof. destruct l as [|x l]; [done|]. intros H. destruct (H x). by left. Qed.

(** A task's rows of a kind, in the order of their ordinals. *)
Definition part (id kind : string) (l : list Candidate) : list Candidate :=
  filter (fun c : Candidate => c.1.1 = id /\ c.2.1 = kind) l.

Definition by_ordinal (a b : Candidate) : Prop := a.1.2 <= b.1.2.

Lemma imap_sorted (id : string) (entries : list (string * string)) :
  StronglySorted by_ordinal (imap (fun i e => (id, i, e)) entries).
Proof.
  enough (forall n, StronglySorted by_ordinal (imap (fun i e => (id, n + i, e)) entries)) as H by exact (H 0).
  induction entries as [|e entries IH]; intros n; [constructor|]. rewrite imap_cons. constructor.
  - erewrite (imap_ext _ (fun i e => (id, S n + i, e))); [apply IH|].
    intros i e' _. cbn. by rewrite Nat.add_succ_r.
  - apply Forall_forall. intros c (i & e' & -> & _)%elem_of_lookup_imap. unfold by_ordinal. cbn. lia.
Qed.

Lemma candidates_of_in c task : c ∈ candidates_of task ->
  c.1.1 = Task.ID task /\ candidate_entries (Task.Candidates task) !! c.1.2 = Some c.2.
Proof. by intros (i & e & -> & He)%elem_of_lookup_imap. Qed.

Lemma part_app id kind l1 l2 : part id kind (l1 ++ l2) = part id kind l1 ++ part id kind l2.
Proof. apply filter_app. Qed.

Lemma part_other id kind task : Task.ID task <> id -> part id kind (candidates_of task) = [].
Proof.
  intros Hid. unfold part. apply list_eq_nil. intros c. rewrite list_elem_of_filter.
  intros [ [Hc _] [Hc' _]%candidates_of_in]. congruence.
Qed.

Lemma part_own tasks task kind : NoDup (Task.ID <$> tasks) -> task ∈ tasks ->
  part (Task.ID task) kind (tasks ≫= candidates_of) = part (Task.ID task) kind (candidates_of task).
Proof.
  intros Hnd Hin. induction tasks as [|t tasks IH]; [by apply elem_of_nil in Hin|].
  rewrite fmap_cons, NoDup_cons in Hnd. destruct Hnd as [Hout Hnd]. rewrite bind_cons, part_app.
  apply elem_of_cons in Hin as [->|Hin].
  - rewrite <- (app_nil_r (part _ _ (candidates_of t))) at 2. f_equal.
    apply list_eq_nil. intros c. unfold part. rewrite list_elem_of_filter.
    intros [ [Hc _] (t' & Hc' & Ht')%list_elem_of_bind]. apply candidates_of_in in Hc' as [Hc' _].
    apply Hout. rewrite list_elem_of_fmap. exists t'. split; congruence.
  - rewrite part_other, IH; [done|done..|]. intros E. apply Hout. rewrite list_elem_of_fmap. by exists task.
Qed.

Lemma part_values id kind l :
  snd <$> (snd <$> part id kind l) = valued kind (snd <$> filter (fun c : Candidate => c.1.1 = id) l).
Proof.
  unfold part. induction l as [|c l IH]; [done|]. rewrite !filter_cons.
  destruct (decide (c.1.1 = id)) as [Hid|Hid].
  - change (snd <$> c :: ?l) with (snd c :: (snd <$> l)). rewrite valued_cons.
    destruct (decide (c.2.1 = kind)) as [Hk|Hk].
    + rewrite decide_True by done. cbn [fmap list_fmap]. by f_equal.
    + by rewrite decide_False by tauto.
  - by rewrite decide_False by tauto.
Qed.

Lemma valued_part task kind :
  snd <$> (snd <$> part (Task.ID task) kind (candidates_of task)) =
  valued kind (candidate_entries (Task.Candidates task)).
Proof.
  rewrite part_values. f_equal. unfold candidates_of. generalize (candidate_entries (Task.Candidates task)).
  intros entries. enough (forall n, snd <$> filter (fun c : Candidate => c.1.1 = Task.ID task)
    (imap (fun i e => (Task.ID task, n + i, e)) entries) = entries) as H by exact (H 0).
  induction entries as [|e entries IH]; intros n; [done|]. rewrite imap_cons, filter_cons, decide_True by done.
  cbn [fmap list_fmap snd]. f_equal.
  erewrite (imap_ext _ (fun i e => (Task.ID task, S n + i, e))); [apply IH|].
  intros i e' _. cbn. by rewrite Nat.add_succ_r.
Qed.

Section candidates.
Context (collate : string -> string -> comparison).
Context (Hbytes : forall x y, collate x y = String.compare x y).
Context (json : SqlJson.t) (d : Dialect) (tables : string -> list Row) (nulls_first : bool).
Context (tasks : list Task.t) (Hids : NoDup (Task.ID <$> tasks)) (ids : list string).

Definition candidates_query : Sql :=
  select_all CandidatesTable ["task_id"; "kind"; "value"] [TIn (own "task_id") (VString <$> ids)]
    ["task_id"; "kind"; "ordinal"] None.

Context (answer : list Candidate).
Context (Hanswer : AnswersTo collate tables candidate_env nulls_first candidates_query
  (tasks ≫= candidates_of) answer).

Lemma selects_listed (c : Candidate) :
  selects collate tables (candidate_env c) [TIn (own "task_id") (VString <$> ids)] = true <-> c.1.1 ∈ ids.
Proof.
  rewrite selects_cons, andb_true_r, (holds_in _ _ Hbytes).
  change (cell (candidate_env c) (own "task_id")) with (VString c.1.1). naive_solver.
Qed.

Lemma ordinals_in_order (a b : Candidate) : a.1.1 = b.1.1 -> a.2.1 = b.2.1 ->
  terms_compare collate nulls_first (plain_order ["task_id"; "kind"; "ordinal"]) (candidate_env a) (candidate_env b) <> Gt ->
  by_ordinal a b.
Proof.
  intros Hi Hk. unfold plain_order. cbn [fmap list_fmap terms_compare term_compare default].
  change (cell (candidate_env ?c) (own "task_id")) with (VString c.1.1).
  change (cell (candidate_env ?c) (own "kind")) with (VString c.2.1).
  change (cell (candidate_env ?c) (own "ordinal")) with (VInt (Z.of_nat c.1.2)).
  unfold order_compare. cbn [missing compare_values]. rewrite Hi, Hk, !Hbytes, !(cmp_refl String.compare).
  unfold by_ordinal. destruct (Z.compare_spec (Z.of_nat a.1.2) (Z.of_nat b.1.2)); [lia|lia|done].
Qed.

Lemma answer_part task kind : task ∈ tasks -> Task.ID task ∈ ids ->
  part (Task.ID task) kind answer = part (Task.ID task) kind (candidates_of task).
Proof.
  intros Hin Hid. destruct Hanswer as (sorted & Hperm & Hsorted & ->).
  assert (Hpart : part (Task.ID task) kind sorted ≡ₚ part (Task.ID task) kind (candidates_of task)).
  { unfold part at 1. rewrite Hperm, list_filter_filter, <- (part_own tasks task kind Hids Hin).
    unfold part. match goal with |- ?a ≡ₚ ?b => enough (a = b) as -> by done end.
    apply list_filter_iff_in. intros c _. rewrite selects_listed. split; [tauto|].
    intros [Hc Hk]. rewrite Hc. tauto. }
  apply (StronglySorted_unique_strong by_ordinal); [| | |done].
  - intros a b Ha Hb Hab Hba. rewrite Hpart in Ha. unfold part in Ha, Hb.
    apply list_elem_of_filter in Ha as [_ [Ia Ea]%candidates_of_in].
    apply list_elem_of_filter in Hb as [_ [Ib Eb]%candidates_of_in].
    destruct a as [ [ia na] ea], b as [ [ib nb] eb]. unfold by_ordinal in *. cbn in *. subst.
    assert (na = nb) as -> by lia. congruence.
  - eapply StronglySorted_weaken; [|apply (StronglySorted_filter _ _ _ Hsorted)].
    intros a b [ [Ia Ka] _]%list_elem_of_filter [ [Ib Kb] _]%list_elem_of_filter.
    apply ordinals_in_order; congruence.
  - apply StronglySorted_filter, imap_sorted.
Qed.

Lemma answer_kinds : Forall (fun c => c.2.1 ∈ [CandidateUser; CandidateGroup; CandidateExcluded]) answer.
Proof.
  destruct Hanswer as (sorted & Hperm & _ & ->). apply Forall_forall. intros c Hc.
  rewrite Hperm, list_elem_of_filter in Hc. destruct Hc as [_ (t & Hc & _)%list_elem_of_bind].
  apply candidates_of_in in Hc as [_ He]. apply list_elem_of_lookup_2 in He.
  unfold candidate_entries in He. rewrite !elem_of_app, !list_elem_of_fmap in He. rewrite !elem_of_cons.
  destruct He as [ (v & -> & _) | [ (v & -> & _) | (v & -> & _) ] ]; cbn; auto.
Qed.

(** The pools of the tasks asked for are read back. *)
Lemma pools_back rows : CandidatesBack d answer rows ->
  exists pools, ScanCandidates rows = Ok pools /\ forall task, task ∈ tasks -> Task.ID task ∈ ids ->
    default CandidatePool.empty (pools !! Task.ID task) = Task.Candidates task.
Proof.
  intros (Hend & raws & Heach & Hraws).
  destruct (candidate_loop_pools d answer raws ∅ Hraws answer_kinds) as (pools & Hloop & Hpools).
  exists pools. unfold ScanCandidates. rewrite Heach, Hloop, Hend. split; [done|].
  intros task Hin Hid. rewrite (Hpools (Task.ID task) []) by (by rewrite lookup_empty).
  unfold pool_of. cbn [app]. rewrite <- !part_values, !answer_part, !valued_part by done.
  apply pool_of_entries.
Qed.
End candidates.

(** A task that storing changes nothing of: no payload is empty text, no callback
    is empty, and every instant is later than the zero time by a microsecond. *)
Record Whole (task : Task.t) : Prop := {
  whole_status : stored_status (Task.Status task) = Task.Status task;
  whole_suspended : stored_status (Task.SuspendedFrom task) = Task.SuspendedFrom task;
  whole_input : stored_raw (Task.Input task) = Task.Input task;
  whole_progress : stored_raw (Task.Progress task) = Task.Progress task;
  whole_output : stored_raw (Task.Output task) = Task.Output task;
  whole_callback : stored_callback (Task.Callback task) = Task.Callback task;
  whole_instants : forall t, Some t ∈ [Task.DueAt task; Task.StartedAt task; Task.ClosedAt task;
    Task.EscalatedAt task; Task.LockedUntil task] -> (Microsecond <= t)%Z
}.

Lemma stored_time_whole t : normalizeTimePtr t = t ->
  (forall x, t = Some x -> (Microsecond <= x)%Z) -> stored_time t = t.
Proof.
  intros Hn Hx. destruct t as [x|]; [|done]. injection Hn as Hn. specialize (Hx x eq_refl).
  cbn. rewrite Hn. unfold optionalTime. rewrite decide_False; [done|]. unfold Microsecond in Hx. lia.
Qed.

Lemma stored_task_whole task : Whole task -> Task.Normalize task = task ->
  stored_task task = task <| Task.Candidates := CandidatePool.empty |>.
Proof.
  intros [] Hn. unfold Task.Normalize in Hn. rewrite Task_Clone_id in Hn.
  destruct task. cbn in *. injection Hn as Hc Hu Hd Hs Hcl He Hl. unfold stored_task. cbn.
  rewrite whole_status0, whole_suspended0, whole_input0, whole_progress0, whole_output0, whole_callback0.
  rewrite Hc, Hu. rewrite !stored_time_whole; try done; intros x ->; apply whole_instants0; set_solver.
Qed.

Lemma insert_args json b task :
  Statement.Args (InsertTask json b task) = taskArgs json (Builder.dialect b) task.
Proof.
  pose proof (request_printed json b (QInsertTask task)) as H. cbn [written tree] in H. rewrite H.
  unfold rendered, statement_of. cbn [Statement.Args print_sql fmap list_fmap joined values_of].
  unfold print_row. by rewrite values_of_paren, values_of_markers.
Qed.

(** C32: A stored task is read back.  The statements that insert it and select it
    name the same columns; whatever a driver makes of the values that were bound, and
    in whatever order the database returns the candidates' rows within what the
    statement asks for, the task that was scanned with the pool that was collected
    for it is the task that was stored. *)
Theorem stored_task_read_back collate tables nulls_first json b tasks ids task raws answer rows :
  (forall x y, collate x y = String.compare x y) ->
  NoDup (Task.ID <$> tasks) -> task ∈ tasks -> Task.ID task ∈ ids ->
  Encoded json task -> Whole task -> Task.Normalize task = task ->
  let d := Builder.dialect b in
  RowBack d (Statement.Args (InsertTask json b task)) raws ->
  AnswersTo collate tables candidate_env nulls_first (candidates_query ids) (tasks ≫= candidates_of) answer ->
  CandidatesBack d answer rows ->
  InsertTask json b task = rendered b (Insert TasksTable taskColumns [taskArgs json d task]) /\
  SelectTask b (Task.ID task) = rendered b (select_all TasksTable taskColumns (by_id (Task.ID task)) [] None) /\
  SelectCandidates b ids = rendered b (candidates_query ids) /\
  exists read pools, Task_ json raws = Ok read /\ ScanCandidates rows = Ok pools /\
    read <| Task.Candidates := default CandidatePool.empty (pools !! Task.ID read) |> = task.
Proof.
  intros Hbytes Hnd Hin Hid Henc Hw Hn d Hraws Hanswer Hrows.
  split_and!; [exact (request_printed json b (QInsertTask task))|exact (request_printed json b (QSelectTask _))| |].
  { pose proof (request_printed json b (QSelectCandidates ids)) as H. cbn [written tree] in H. rewrite H.
    by destruct ids; [apply elem_of_nil in Hid|]. }
  rewrite insert_args in Hraws. exists (stored_task task).
  destruct (pools_back collate Hbytes d tables nulls_first tasks Hnd ids answer Hanswer rows Hrows)
    as (pools & Hscan & Hpools).
  exists pools. split; [by apply (task_back _ d _ _ Henc Hn)|]. split; [done|].
  rewrite stored_task_whole by done. change (Task.ID (task <| Task.Candidates := CandidatePool.empty |>)) with (Task.ID task).
  rewrite Hpools by done. by destruct task.
Qed.

(** The history, the recorded events and the task types are read back too: of
    the values of a row, whatever a driver makes of them, the record, the entry with
    the state of its delivery, and the type, with instants to the microsecond, a
    type's deadline to the millisecond, and nothing for an empty payload.  An event
    that was just recorded reads back as an entry that nothing was done to. *)
Theorem stored_rows_read_back json d raws :
  (forall r, Int64 (TransitionRecord.Version r) -> Dated (TransitionRecord.At r) ->
     RowBack d (history_values d r) raws -> historyRecord raws = Ok (HistoryRow.of_record (stored_record r))) /\
  (forall payload e, EncodedEntry json payload e ->
     RowBack d (entry_values json d payload e) raws -> outboxEntry json raws = Ok (stored_entry e)) /\
  (forall spec now, EncodedType json spec ->
     RowBack d (type_values json d spec now) raws -> typeSpec json raws = Ok (stored_spec spec)) /\
  (forall event payload, SqlJson.MarshalEvent json event = Ok payload ->
     exists row, EventRows json [event] = Ok [row] /\
       outbox_values d row = entry_values json d (Some payload) (Settle.record_event event)).
Proof.
  split_and!.
  - intros r. apply history_back.
  - intros payload e. apply entry_back.
  - intros spec now. apply type_back.
  - intros event payload Hm. eexists. cbn [EventRows]. rewrite Hm. by split.
Qed.
