(* ===== verification/SqlExamples.v ===== *)
(** * SqlExamples: the SQL statements at concrete rows

    The theorems about the SQL stores at the tasks of the query's examples and at
    one recorded event. *)

From S2P Require Import Prelude Domain Errors Event Query Outbox Store Registry Calendar Sqlkit SqlBuilder SqlPrint SqlPrintFacts SqlMeaning SqlQuery SqlLease SqlScan.
Import QueryExamples.

Module SqlExamples.
(** An encoder that writes lists of names alone. *)
Definition json : SqlJson.t :=
  SqlJson.mk
    (fun v => match v with EStrings l => Some (String.concat "," l) | _ => None end)
    (fun _ => Err "text") (fun _ => Err "text") (fun _ => Err "text") (fun _ => Err "text")
    (fun _ => Err "text") (fun _ => Err "text").

Definition after_t2 : position.t := positionOf (queued "t2" 5 (Some 7000%Z)).
Definition second_page : ResolvedQuery.t :=
  ResolvedQuery.mk ((ResolvedQuery.Query_ urgent) <| Query.Cursor := first_token |>) [].
Definition rest : list Task.t := [queued "t1" 5 (Some 9000%Z); queued "t3" 5 None].

Ltac deadline := split; [split; vm_compute; congruence|vm_compute; reflexivity].

Lemma queued_storable id priority due : Stamp due ->
  Task.Normalize (queued id priority due) = queued id priority due -> Storable (queued id priority due).
Proof. intros Hd Hn. split; [exact Hn|]. split; [exact I|exact Hd]. Qed.

Lemma inbox_storable : Forall Storable inbox.
Proof.
  unfold inbox. repeat (apply Forall_cons; split); [..|by apply Forall_nil];
    (apply queued_storable; [|reflexivity]); intros due E; try discriminate E; injection E as <-;
    deadline.
Qed.

(** What the database answers. *)
Lemma rest_answers :
  AnswersTo String.compare (task_tables json SQLite inbox) (t_env json SQLite) true
    (page_query SQLite second_page (Some after_t2)) inbox rest.
Proof.
  exists rest. split; [|split; [|vm_compute; reflexivity] ].
  - match goal with |- _ ≡ₚ ?l => assert (l = [queued "t3" 5 None; queued "t1" 5 (Some 9000%Z)]) as -> end;
      [vm_compute; reflexivity|apply Permutation_swap].
  - repeat constructor; vm_compute; discriminate.
Qed.

(** A claimed task and a recorded event. *)
Definition overdue : Task.t := queued "t1" 5 (Some 9000%Z).
Definition sweep : LeaseRequest.t := LeaseRequest.mk 20000 "sweeper" 60000 10 [].
Definition finished : Event.t :=
  Event.mk "e1" EventTypeCompleted "t1" "review" StatusCompleted 4 "ann" "ann" (CandidatePool.mk ["ann"] [] [])
    "" "sys" 5000 CorrelationData.empty None
    (TransitionRecord.mk "t1" 4 OpComplete StatusInProgress StatusCompleted "ann" "" 5000) "" None.
Definition recorded : OutboxEntry.t := Settle.record_event finished.
Definition relay : OutboxClaim.t := OutboxClaim.mk 20000 "relay" 60000 10.
End SqlExamples.
Import SqlExamples.

Lemma sql_query_is_query_witness :
  QueryTasks (Builder.mk SQLite "") QueryExamples.codec second_page =
    Ok (rendered (Builder.mk SQLite "") (page_query SQLite second_page (Some after_t2))) /\
  rest = take 3 (sort_tasks (ResolvedQuery.Query_ second_page)
    (select (stored_query second_page) (Some after_t2) inbox)).
Proof.
  destruct (sql_query_is_query String.compare SqlExamples.json SQLite "" true QueryExamples.codec inbox
    second_page (Some after_t2)) as [Htext Hrows].
  - reflexivity.
  - exact inbox_distinct.
  - exact inbox_storable.
  - reflexivity.
  - vm_compute. reflexivity.
  - constructor.
  - discriminate.
  - intros p due [= <-] [= <-]. deadline.
  - split; [exact Htext|exact (Hrows rest rest_answers)].
Defined.

Lemma overdue_kept : Kept overdue.
Proof.
  split_and!; [reflexivity|exact I|..]; intros x E; try discriminate E; injection E as <-; deadline.
Qed.

Lemma twenty_deadline : Deadline 20000.
Proof. deadline. Qed.

Lemma recorded_kept : KeptEntry recorded.
Proof.
  split_and!; intros x E; try discriminate E; injection E as <-; deadline.
Qed.

Lemma sql_task_writes_refine_witness :
  let row := task_row SqlExamples.json SQLite overdue in
  let s := lease_update SQLite "t1" sweep in
  affects String.compare (fun _ => []) s row = true /\
  same_row taskColumns (changed s row) (task_row SqlExamples.json SQLite (Ledger.leased sweep overdue)).
Proof.
  destruct (sql_task_writes_refine String.compare (fun _ => []) SqlExamples.json (Builder.mk SQLite "") overdue)
    as [_ Hclaim]; [done|exact overdue_kept|].
  destruct (Hclaim "t1" sweep) as [_ Hs]. destruct (Hs twenty_deadline) as [Haffects Hrow].
  split; [exact Haffects|exact Hrow].
Defined.

Lemma sql_outbox_writes_refine_witness :
  let row := entry_row SqlExamples.json MySQL None recorded in
  let s := event_update MySQL "e1" relay in
  affects String.compare (fun _ => []) s row = true /\
  same_row outboxColumns (changed s row) (entry_row SqlExamples.json MySQL None (Settle.lease relay recorded)).
Proof.
  destruct (sql_outbox_writes_refine String.compare (fun _ => []) SqlExamples.json (Builder.mk MySQL "") None
    recorded) as [Hclaim _]; [done|exact recorded_kept|].
  destruct (Hclaim "e1" relay) as [_ Hs].
  destruct (Hs twenty_deadline) as [Haffects Hrow]; [cbn; lia|].
  split; [exact Haffects|exact Hrow].
Defined.

Lemma sql_claims_exclude_witness :
  affects String.compare (fun _ => [])
    (lease_update PostgreSQL "t1" (LeaseRequest.mk 70000 "other" 60000 10 []))
    (changed (lease_update PostgreSQL "t1" sweep) (task_row SqlExamples.json PostgreSQL overdue)) = false.
Proof.
  destruct (sql_claims_exclude String.compare (fun _ => []) SqlExamples.json (Builder.mk PostgreSQL "")
    (task_row SqlExamples.json PostgreSQL overdue)) as [Htasks _]; [done|].
  destruct (Htasks "t1" sweep "t1" (LeaseRequest.mk 70000 "other" 60000 10 [])) as [_ H].
  apply H; [deadline..|vm_compute; reflexivity].
Defined.

(** ** Reading back *)

(** A driver that hands every value back as the type it was bound with. *)
Definition hand (v : Value) : Raw :=
  match v with VNil => RawNil | VString s => RawString s | VInt z => RawInt64 z | VTime t => RawTime t end.

Lemma handed d values : RowBack d values (hand <$> values).
Proof. induction values as [|v values IH]; constructor; [destruct v; constructor|exact IH]. Qed.

Definition its_candidate : Candidate := ("t1", 0, (CandidateUser, "ann")).
Definition its_rows : Rows.t := Rows.mk [Ok [RawString "t1"; RawBytes "user"; RawBytes "ann"]] None.

Lemma overdue_encoded : Encoded SqlExamples.json overdue.
Proof.
  split; try (intros x E; try discriminate E; injection E as <-); try (split; vm_compute; congruence).
  - intros H. destruct (H eq_refl).
Qed.

Lemma overdue_whole : Whole overdue.
Proof.
  split; try reflexivity. intros t Ht. unfold overdue in Ht. cbn in Ht. rewrite !elem_of_cons in Ht.
  destruct Ht as [E | [E | [E | [E | [E | []%elem_of_nil] ] ] ] ]; try discriminate E.
  injection E as ->. vm_compute. congruence.
Qed.

Lemma its_answer :
  AnswersTo String.compare (fun _ => []) candidate_env true (candidates_query ["t1"])
    (inbox ≫= candidates_of) [its_candidate].
Proof.
  exists [its_candidate]. split; [vm_compute; reflexivity|].
  split; [repeat constructor|reflexivity].
Qed.

Lemma stored_task_read_back_witness :
  exists read pools, Task_ SqlExamples.json (hand <$> taskArgs SqlExamples.json MySQL overdue) = Ok read /\
    ScanCandidates its_rows = Ok pools /\
    read <| Task.Candidates := default CandidatePool.empty (pools !! Task.ID read) |> = overdue.
Proof.
  apply (stored_task_read_back String.compare (fun _ => []) true SqlExamples.json (Builder.mk MySQL "") inbox ["t1"]
    overdue (hand <$> taskArgs SqlExamples.json MySQL overdue) [its_candidate] its_rows).
  - reflexivity.
  - exact inbox_distinct.
  - right. left.
  - left.
  - exact overdue_encoded.
  - exact overdue_whole.
  - reflexivity.
  - rewrite insert_args. apply handed.
  - exact its_answer.
  - split; [reflexivity|]. exists [ [RawString "t1"; RawBytes "user"; RawBytes "ann"] ].
    split; [reflexivity|]. repeat constructor.
Defined.

Lemma stored_rows_read_back_witness :
  historyRecord (hand <$> history_values SQLite (Event.Transition finished)) =
    Ok (HistoryRow.of_record (stored_record (Event.Transition finished))).
Proof.
  apply (stored_rows_read_back SqlExamples.json SQLite (hand <$> history_values SQLite (Event.Transition finished)));
    [split; vm_compute; congruence..|apply handed].
Defined.
