(* ===== verification/Transport.v ===== *)
(** * Transport: the REST contract

    Models [transport/core]: [seam.go] (requests, responses and routes), [dto.go]
    (the bodies), [errors.go] (engine errors on the wire), [authorize.go] (the
    query and read policies) and [api.go] (the route table, the handlers and the
    query parameters).

    A handler takes a request and threads the state of the engine of [Service.v]:
    it never fails, every failure being a response.  [encoding/json] is the
    argument [json]: it reads the two request bodies, and writes the replies, an
    inductive type with the bodies the handlers answer with.  A policy is a
    function to an error or none; the eligibility check a read carries is the
    answer it would give, since asking changes nothing. *)

From Stdlib Require Import Ascii.
From S2P Require Import Prelude Domain Errors Event Lifecycle LifecycleFacts Assignment.
From S2P Require Import Query Outbox Store Ident Registry Service ServiceFacts Calendar Sqlkit.

(** ** Requests and responses *)

Module Request.
Record t : Type := mk {
  Method : string;
  Path : string;
  Params : gmap string string;
  Query_ : gmap string (list string);
  Body : string;
  Actor : string
}.

Definition Param (r : t) (name : string) : string := default "" (Params r !! name).
Definition QueryValues (r : t) (name : string) : list string := default [] (Query_ r !! name).
Definition QueryValue (r : t) (name : string) : string :=
  match QueryValues r name with [] => "" | value :: _ => value end.
End Request.

Module Response.
Record t : Type := mk { Status : Z; Headers : gmap string string; Body : string }.
End Response.

(** ** Bodies *)

Module CreateTaskRequest.
Record t : Type := mk {
  Type_ : string;
  ID : string;
  Input : RawMessage;
  Priority : option Z;
  DueAt : option Time;
  DeadlineSeconds : option Z;
  Candidates : option CandidatePool.t;
  Escalation : option EscalationPolicy.t;
  Correlation : CorrelationData.t;
  Callback : option CallbackTarget.t
}.
Definition zero : t := mk "" "" None None None None None None CorrelationData.empty None.
End CreateTaskRequest.

Module OperationRequest.
Record t : Type := mk {
  Version : option Z;
  Comment : string;
  Output : RawMessage;
  Delegate : string;
  Patch : RawMessage
}.
Definition zero : t := mk None "" None "" None.
End OperationRequest.

Inductive ErrorCode : Type :=
| CodeNone | CodeConflict | CodeForbidden | CodeNotFound | CodeValidation | CodeUnregisteredType
| CodeInternal.
#[global] Instance ErrorCode_eq_dec : EqDecision ErrorCode.
Proof. solve_decision. Defined.

Module ErrorDetail.
Record t : Type := mk {
  Code : ErrorCode;
  Message : string;
  CurrentVersion : option Z;
  TaskType : string;
  Issues : list ValidationIssue.t
}.
#[global] Instance eta : Eta t := fun x =>
  mk (Code x) (Message x) (CurrentVersion x) (TaskType x) (Issues x).
End ErrorDetail.

Module TaskTypeResponse.
Record t : Type := mk {
  Name : string;
  Title : string;
  Description : string;
  InputSchema : RawMessage;
  OutputSchema : RawMessage;
  DefaultPriority : Z;
  DefaultDeadlineSeconds : Z;
  Metadata : gmap string string
}.
End TaskTypeResponse.

Definition taskTypeResponse (spec : TypeSpec.t) : TaskTypeResponse.t :=
  TaskTypeResponse.mk (TypeSpec.Name spec) (TypeSpec.Title spec) (TypeSpec.Description spec)
    (TypeSpec.InputSchema spec) (TypeSpec.OutputSchema spec) (TypeSpec.DefaultPriority spec)
    (Z.quot (TypeSpec.DefaultDeadline spec) 1000000000) (TypeSpec.Metadata spec).

(** What a handler gives [encode]. *)
Inductive Reply : Type :=
| TaskReply (task : Task.t)
| PageReply (tasks : list Task.t) (nextCursor : string)
| CountReply (count : Z)
| HistoryReply (records : list TransitionRecord.t)
| TaskTypeReply (type : TaskTypeResponse.t)
| TaskTypeListReply (types : list TaskTypeResponse.t)
| ErrorReply (detail : ErrorDetail.t).

Module BodyJson.
Record t : Type := mk {
  UnmarshalCreate : string -> result string CreateTaskRequest.t;
  UnmarshalOperation : string -> result string OperationRequest.t;
  Marshal : Reply -> option string
}.
End BodyJson.

(** ** Errors on the wire *)

Definition StatusOK : Z := 200.
Definition StatusCreated : Z := 201.
Definition StatusBadRequest : Z := 400.
Definition StatusForbidden : Z := 403.
Definition StatusNotFound : Z := 404.
Definition StatusConflict : Z := 409.
Definition StatusInternalServerError : Z := 500.

Definition StatusFor (err : option error) : Z :=
  match err with
  | None => StatusOK
  | Some e =>
      if errors_Is e ErrGroupResolution then StatusInternalServerError
      else if errors_Is e ErrNotFound then StatusNotFound
      else if errors_Is e ErrUnauthorized then StatusForbidden
      else if errors_Is e ErrConflict then StatusConflict
      else if errors_Is e ErrValidation then StatusBadRequest
      else StatusInternalServerError
  end.

Definition CodeFor (err : option error) : ErrorCode :=
  match err with
  | None => CodeNone
  | Some e =>
      if errors_Is e ErrGroupResolution then CodeInternal
      else if errors_Is e ErrNotFound then CodeNotFound
      else if errors_Is e ErrUnauthorized then CodeForbidden
      else if errors_Is e ErrConflict then CodeConflict
      else if errors_Is e ErrUnregisteredType then CodeUnregisteredType
      else if errors_Is e ErrValidation then CodeValidation
      else CodeInternal
  end.

(** [errors.As]: the first error of a concrete type along the chain. *)
Fixpoint errors_As {A} (pick : error -> option A) (e : error) : option A :=
  match pick e with
  | Some a => Some a
  | None =>
      match e with
      | Wrapped _ inner => errors_As pick inner
      | GroupResolutionError _ _ (Some cause) => errors_As pick cause
      | _ => None
      end
  end.

Definition as_conflict (e : error) : option Z :=
  match e with ConflictError _ _ current => Some current | _ => None end.
Definition as_unregistered (e : error) : option string :=
  match e with UnregisteredTypeError type => Some type | _ => None end.
Definition as_validation (e : error) : option (list ValidationIssue.t) :=
  match e with ValidationError _ issues => Some issues | _ => None end.

Definition errorDetail (e : error) : ErrorDetail.t :=
  let code := CodeFor (Some e) in
  let detail := ErrorDetail.mk code (Error e) None "" [] in
  let detail :=
    if bool_decide (code = CodeInternal) && negb (errors_Is e ErrGroupResolution)
    then detail <| ErrorDetail.Message := "the request could not be completed" |> else detail in
  let detail := detail <| ErrorDetail.CurrentVersion := errors_As as_conflict e |> in
  let detail := detail <| ErrorDetail.TaskType := default "" (errors_As as_unregistered e) |> in
  detail <| ErrorDetail.Issues := default [] (errors_As as_validation e) |>.

Definition badRequest (pointer message : string) : error :=
  ValidationError "request" [ValidationIssue.mk pointer message].

(** ** Policies *)

Definition Me : string := "me".

Module TaskRead.
Record t : Type := mk { Actor : string; Task_ : Task.t; eligible : option (res bool) }.

Definition Eligible (r : t) : res bool := default (Ok false) (eligible r).
End TaskRead.

Definition QueryAuthorizer : Type := string -> Query.t -> option error.
Definition TaskReadAuthorizer : Type := TaskRead.t -> option error.

(** The error wraps the sentinel under its own text. *)
Definition refusal (reason : string) : error :=
  ExternalError ("hmntsk: actor not authorised: " +:+ reason) [ErrUnauthorized].

Definition selfOnly : QueryAuthorizer := fun actor query =>
  if decide (actor = "") then Some (refusal "no acting user is established")
  else if decide (Query.Group query <> "")
  then Some (refusal "a group's queue is not an actor's own inbox")
  else if decide (Query.Candidate query = "" /\ Query.Assignee query = "")
  then Some (refusal "a query must name the acting user as its candidate or assignee")
  else if decide ((Query.Candidate query <> "" /\ Query.Candidate query <> actor) \/
                  (Query.Assignee query <> "" /\ Query.Assignee query <> actor))
  then Some (refusal "an actor may query only their own inbox")
  else None.
Definition SelfOnly : QueryAuthorizer := selfOnly.

Definition participantsOnly : TaskReadAuthorizer := fun read =>
  if decide (TaskRead.Actor read = "") then Some (refusal "no acting user is established")
  else if decide (TaskRead.Actor read = Task.Assignee (TaskRead.Task_ read) \/
                  TaskRead.Actor read = Task.CreatedBy (TaskRead.Task_ read))
  then None
  else
    match TaskRead.Eligible read with
    | Err e => Some e
    | Ok true => None
    | Ok false => Some (refusal "an actor may read only tasks they hold, created or are eligible for")
    end.
Definition ParticipantsOnly : TaskReadAuthorizer := participantsOnly.

(** [AllowAllPolicy], under both interfaces. *)
Definition AllowAll_AuthorizeQuery : QueryAuthorizer := fun _ _ => None.
Definition AllowAll_AuthorizeRead : TaskReadAuthorizer := fun _ => None.

(** A refusal has the text of its cause and matches one sentinel. *)
Definition policyRefusedError (cause : error) : error := ExternalError (Error cause) [ErrUnauthorized].

Definition refuse (e : error) : error :=
  if errors_Is e ErrGroupResolution then e else policyRefusedError e.

(** ** Query parameters *)

Definition parseOrdering (value : string) : option Ordering :=
  if decide (value = "" \/ value = "created") then Some OrderCreated
  else if decide (value = Ordering_String OrderPriority) then Some OrderPriority
  else if decide (value = Ordering_String OrderDue) then Some OrderDue
  else if decide (value = Ordering_String OrderUrgency) then Some OrderUrgency
  else None.

(** [time.RFC3339] *)
Definition RFC3339 : Layout.t := Layout.mk "T"%char Unmentioned ZoneOrZ.

(** The loop over the statuses. *)
Fixpoint parse_statuses (values : list string) : res (list Status) :=
  match values with
  | [] => Ok []
  | status :: rest =>
      if negb (Status_Valid (Status_of status))
      then Err (badRequest "status" ("is not a task status: " +:+ status))
      else try! more := parse_statuses rest in Ok (Status_of status :: more)
  end.

Definition parseQuery (req : Request.t) : res Query.t :=
  try! ordering :=
    (match parseOrdering (Request.QueryValue req "orderBy") with
     | Some ordering => Ok ordering
     | None => Err (badRequest "orderBy" "must be one of created, priority, due or urgency")
     end) in
  if decide (Request.QueryValue req "order" <> "")
  then Err (badRequest "order" "is no longer a parameter; use direction=asc|desc")
  else
    let direction := Request.QueryValue req "direction" in
    try! descending :=
      (if decide (direction = "" \/ direction = "asc") then Ok false
       else if decide (direction = "desc") then Ok true
       else Err (badRequest "direction" "must be asc or desc")) in
    try! statuses := parse_statuses (Request.QueryValues req "status") in
    let limit := Request.QueryValue req "limit" in
    try! limit :=
      (if decide (limit = "") then Ok 0%Z
       else
         match Atoi limit with
         | Some n =>
             if decide (n < 0)%Z
             then Err (badRequest "limit" "must be a non-negative whole number") else Ok n
         | None => Err (badRequest "limit" "must be a non-negative whole number")
         end) in
    let dueBefore := Request.QueryValue req "dueBefore" in
    try! dueBefore :=
      (if decide (dueBefore = "") then Ok None
       else
         match time_parse RFC3339 dueBefore with
         | Some instant => Ok (Some instant)
         | None => Err (badRequest "dueBefore" "must be an RFC 3339 timestamp")
         end) in
    Ok (Query.mk (Request.QueryValue req "assignee") (Request.QueryValue req "candidate") statuses
          (Request.QueryValues req "type") (Request.QueryValue req "ownerType")
          (Request.QueryValue req "ownerRef") (Request.QueryValue req "activityKey")
          (Request.QueryValue req "group") dueBefore ordering limit
          (Request.QueryValue req "cursor") descending).

(** ** The contract *)

Definition DefaultBasePath : string := "/v1".

Module API.
Record t : Type := mk {
  service : Service.t;
  basePath : string;
  authorizer : option QueryAuthorizer;
  readAuthorizer : option TaskReadAuthorizer
}.
#[global] Instance eta : Eta t := fun x =>
  mk (service x) (basePath x) (authorizer x) (readAuthorizer x).
End API.

(** [strings.TrimRight(path, "/")] *)
Fixpoint trim_slashes (s : string) : string :=
  match s with
  | EmptyString => ""
  | String c rest =>
      let rest := trim_slashes rest in
      if decide (rest = "" /\ c = "/"%char) then "" else String c rest
  end.

(** The options; a policy may be nil. *)
Inductive Option : Type :=
| WithBasePath (path : string)
| WithQueryAuthorizer (authorizer : option QueryAuthorizer)
| WithTaskReadAuthorizer (authorizer : option TaskReadAuthorizer).

Definition apply_option (opt : Option) (a : API.t) : API.t :=
  match opt with
  | WithBasePath path =>
      let trimmed := trim_slashes path in
      if decide (trimmed <> "") then a <| API.basePath := trimmed |> else a
  | WithQueryAuthorizer authorizer => a <| API.authorizer := authorizer |>
  | WithTaskReadAuthorizer authorizer => a <| API.readAuthorizer := authorizer |>
  end.

Definition New (service : option Service.t) (opts : list Option) : res API.t :=
  match service with
  | None => Err (ConfigurationError "a service is required to serve the API")
  | Some service =>
      let api := for_each apply_option opts
        (API.mk service DefaultBasePath (Some SelfOnly) (Some ParticipantsOnly)) in
      match API.authorizer api with
      | None =>
          Err (ConfigurationError
            "WithQueryAuthorizer was given no policy; pass transportcore.AllowAll to permit every query")
      | Some _ =>
          match API.readAuthorizer api with
          | None =>
              Err (ConfigurationError
                "WithTaskReadAuthorizer was given no policy; pass transportcore.AllowAll to permit every read")
          | Some _ => Ok api
          end
      end
  end.

(** Only [New] builds the contract, so that a policy is never nil when it is asked;
    a nil one would panic. *)
Definition ask_query (a : API.t) (actor : string) (query : Query.t) : option error :=
  match API.authorizer a with Some f => f actor query | None => Some (ExternalError "panic: nil policy" []) end.
Definition ask_read (a : API.t) (read : TaskRead.t) : option error :=
  match API.readAuthorizer a with Some f => f read | None => Some (ExternalError "panic: nil policy" []) end.

Section handlers.
Context {D G : Type} `{!Store D, !IDGenerator G}.
Context (json : BodyJson.t) (a : API.t) (cancelled : option error).
#[local] Abbreviation s := (API.service a).

(** The engine as the handlers run it. *)
Definition Engine : Type := D * Run.t G.
Definition Handler : Type := Request.t -> Engine -> Response.t * Engine.

Definition encode (status : Z) (value : Reply) : Response.t :=
  match BodyJson.Marshal json value with
  | Some body => Response.mk status ∅ body
  | None =>
      Response.mk StatusInternalServerError ∅
        ("{" +:+ dquote +:+ "error" +:+ dquote +:+ ":{" +:+ dquote +:+ "code" +:+ dquote +:+ ":" +:+
         dquote +:+ "internal" +:+ dquote +:+ "," +:+ dquote +:+ "message" +:+ dquote +:+ ":" +:+
         dquote +:+ "the response could not be encoded" +:+ dquote +:+ "}}")
  end.

Definition fail (e : error) : Response.t := encode (StatusFor (Some e)) (ErrorReply (errorDetail e)).

Definition NotFoundResponse : Response.t :=
  encode StatusNotFound (ErrorReply (ErrorDetail.mk CodeNotFound "no such route" None "" [])).

(** [decode], into a body whose zero value is given. *)
Definition decode {A} (unmarshal : string -> result string A) (zero : A) (body : string) : res A :=
  if decide (TrimSpace body = "") then Ok zero
  else
    match unmarshal body with
    | Ok value => Ok value
    | Err text => Err (badRequest "" ("the request body is not valid JSON: " +:+ text))
    end.

(** Renders the outcome of a service call that may change the engine's state. *)
Definition answer {A} (m : M (D := D) (G := G) A) (k : A -> Engine -> Response.t * Engine) : Engine -> Response.t * Engine :=
  fun w => match m w with (Ok x, w) => k x w | (Err e, w) => (fail e, w) end.

Definition respond (status : Z) (result : Result.t) : Engine -> Response.t * Engine :=
  fun '(d, x) => (encode status (TaskReply (Result.Task_ result)), (d, (Dispatch s result x).2)).

Definition create_request (req : Request.t) (body : CreateTaskRequest.t) : CreateRequest.t :=
  CreateRequest.mk (CreateTaskRequest.Type_ body) (Request.Actor req) (CreateTaskRequest.ID body)
    (CreateTaskRequest.Input body) (CreateTaskRequest.Priority body) (CreateTaskRequest.DueAt body)
    ((fun seconds => wrap64 (seconds * 1000000000)) <$> CreateTaskRequest.DeadlineSeconds body)
    (CreateTaskRequest.Candidates body) (CreateTaskRequest.Escalation body)
    (CreateTaskRequest.Correlation body) (CreateTaskRequest.Callback body).

Definition createTask : Handler := fun req =>
  match decode (BodyJson.UnmarshalCreate json) CreateTaskRequest.zero (Request.Body req) with
  | Err e => fun w => (fail e, w)
  | Ok body => answer (Create_ s cancelled (create_request req body)) (respond StatusCreated)
  end.

(** *** Reads *)

Definition authorizedTask (req : Request.t) (d : D) : res Task.t :=
  if decide (Request.Actor req = "")
  then Err (refuse (ExternalError "reading a task needs an acting user" []))
  else
    try! task := Get (Request.Param req "id") d in
    let read := TaskRead.mk (Request.Actor req) task
      (Some (Service.Eligible s task (Request.Actor req))) in
    match ask_read a read with
    | Some e => Err (refuse e)
    | None => Ok task
    end.

Definition reading {A} (r : res A) (reply : A -> Reply) : Response.t :=
  match r with Ok x => encode StatusOK (reply x) | Err e => fail e end.

Definition getTask : Handler := fun req w => (reading (authorizedTask req w.1) TaskReply, w).

Definition getHistory : Handler := fun req w =>
  (reading (try! task := authorizedTask req w.1 in History (Task.ID task) w.1) HistoryReply, w).

(** One of the two fields that may name the acting user. *)
Definition resolve_me (req : Request.t) (named : string) : res string :=
  if decide (named <> Me) then Ok named
  else if decide (Request.Actor req = "")
  then Err (refuse (ExternalError "the query names me, but no acting user is established" []))
  else Ok (Request.Actor req).

Definition authorizedQuery (req : Request.t) : res Query.t :=
  try! query := parseQuery req in
  try! candidate := resolve_me req (Query.Candidate query) in
  let query := query <| Query.Candidate := candidate |> in
  try! assignee := resolve_me req (Query.Assignee query) in
  let query := query <| Query.Assignee := assignee |> in
  match ask_query a (Request.Actor req) query with
  | Some e => Err (refuse e)
  | None => Ok query
  end.

Definition queryTasks : Handler := fun req w =>
  (reading (try! query := authorizedQuery req in Query_ s query w.1)
     (fun page => PageReply (Page.Tasks page) (Page.NextCursor page)), w).

Definition countTasks : Handler := fun req w =>
  (reading (try! query := authorizedQuery req in Count_ s query w.1) CountReply, w).

Definition listTaskTypes : Handler := fun _ w =>
  let types := omap
    (fun name => match Lookup (Service.registry s) name with
                 | Ok spec => Some (taskTypeResponse spec)
                 | Err _ => None
                 end) (Names (Service.registry s)) in
  (encode StatusOK (TaskTypeListReply types), w).

Definition getTaskType : Handler := fun req w =>
  (match Lookup (Service.registry s) (Request.Param req "name") with
   | Ok spec => encode StatusOK (TaskTypeReply (taskTypeResponse spec))
   | Err e =>
       encode StatusNotFound
         (ErrorReply (ErrorDetail.mk CodeNotFound (Error e) None (Request.Param req "name") []))
   end, w).

(** *** Operations *)

Definition task_request (req : Request.t) (body : OperationRequest.t) : TaskRequest.t :=
  TaskRequest.mk (Request.Param req "id") (Request.Actor req) (OperationRequest.Version body)
    (OperationRequest.Comment body).

Definition invoke (op : Operation) (task : TaskRequest.t) (body : OperationRequest.t)
  : M (D := D) (G := G) Result.t :=
  match op with
  | OpClaim => Claim s cancelled task
  | OpRelease => Release s cancelled task
  | OpStart => Start s cancelled task
  | OpSaveProgress => SaveProgress s cancelled task (OperationRequest.Patch body)
  | OpComplete => Complete s cancelled task (OperationRequest.Output body)
  | OpFail => Fail_ s cancelled task
  | OpDelegate => Service.Delegate s cancelled task (OperationRequest.Delegate body)
  | OpSuspend => Suspend s cancelled task
  | OpResume => Resume s cancelled task
  | OpEscalate => Escalate s cancelled task
  | OpCancel => Cancel s cancelled task
  | _ => sfail (badRequest "" ("operation " +:+ Operation_String op +:+ " is not reachable over HTTP"))
  end.

Definition operation (op : Operation) : Handler := fun req =>
  match decode (BodyJson.UnmarshalOperation json) OperationRequest.zero (Request.Body req) with
  | Err e => fun w => (fail e, w)
  | Ok body => answer (invoke op (task_request req body) body) (respond StatusOK)
  end.

(** *** Routes *)

Record Route : Type := mkRoute {
  route_Method : string;
  route_Pattern : string;
  route_OperationID : string;
  route_Summary : string;
  route_Handler : Handler
}.

Definition path (suffix : string) : string := API.basePath a +:+ suffix.

Definition Routes : list Route :=
  [mkRoute "POST" (path "/tasks") "createTask" "Create a task." createTask;
   mkRoute "GET" (path "/tasks") "queryTasks"
     "Query tasks by assignee, eligibility, group, status, type or correlation, in a supported ordering."
     queryTasks;
   mkRoute "GET" (path "/tasks/count") "countTasks"
     "Count the tasks a query matches, such as for an inbox badge." countTasks;
   mkRoute "GET" (path "/tasks/{id}") "getTask" "Read one task." getTask;
   mkRoute "DELETE" (path "/tasks/{id}") "cancelTask" "Cancel a task." (operation OpCancel);
   mkRoute "GET" (path "/tasks/{id}/history") "getTaskHistory" "Read a task's transition history."
     getHistory;
   mkRoute "POST" (path "/tasks/{id}/claim") "claimTask" "Reserve a pooled task." (operation OpClaim);
   mkRoute "POST" (path "/tasks/{id}/release") "releaseTask" "Return a reserved task to its pool."
     (operation OpRelease);
   mkRoute "POST" (path "/tasks/{id}/start") "startTask" "Begin work on a reserved task."
     (operation OpStart);
   mkRoute "POST" (path "/tasks/{id}/progress") "saveTaskProgress"
     "Apply an RFC 6902 patch to a task's saved progress." (operation OpSaveProgress);
   mkRoute "POST" (path "/tasks/{id}/complete") "completeTask" "Close a task with an output payload."
     (operation OpComplete);
   mkRoute "POST" (path "/tasks/{id}/fail") "failTask" "Record that the actor could not do the work."
     (operation OpFail);
   mkRoute "POST" (path "/tasks/{id}/delegate") "delegateTask" "Reassign a task to another eligible actor."
     (operation OpDelegate);
   mkRoute "POST" (path "/tasks/{id}/suspend") "suspendTask" "Withdraw a task from circulation."
     (operation OpSuspend);
   mkRoute "POST" (path "/tasks/{id}/resume") "resumeTask"
     "Return a suspended task to the state it came from." (operation OpResume);
   mkRoute "POST" (path "/tasks/{id}/escalate") "escalateTask" "Apply a task's escalation policy."
     (operation OpEscalate);
   mkRoute "GET" (path "/task-types") "listTaskTypes" "List the registered task types." listTaskTypes;
   mkRoute "GET" (path "/task-types/{name}") "getTaskType"
     "Read a task type's input and output schemas." getTaskType].
End handlers.

(** [Route.Params]: the names between braces, the last opening brace before a closing
    one counting. *)
Fixpoint pattern_params (open : option string) (pattern : string) : list string :=
  match pattern with
  | EmptyString => []
  | String c rest =>
      if decide (c = "{"%char) then pattern_params (Some "") rest
      else if decide (c = "}"%char) then
        match open with
        | Some name => name :: pattern_params None rest
        | None => pattern_params None rest
        end
      else pattern_params ((fun name => name +:+ String c "") <$> open) rest
  end.
Definition Params (pattern : string) : list string := pattern_params None pattern.
