(* ===== verification/TransportFacts.v ===== *)
(** * TransportFacts: what the REST contract promises

    Errors on the wire, who may read what, the queries a request can make, and the
    lifecycle operations over HTTP. *)

From S2P Require Import Prelude Domain Errors Event Lifecycle LifecycleFacts Assignment.
From S2P Require Import Query Outbox Store MemStore MemStoreFacts Ident Registry Service.
From S2P Require Import ServiceFacts ServiceReads EngineInvariant EngineExamples Calendar Sqlkit Transport.
Import RegistryExamples IdentExamples MemStoreExamples EngineExamples.

(** ** Errors *)

(** The status of each code. *)
Definition status_of_code (code : ErrorCode) : Z :=
  match code with
  | CodeNone => 200
  | CodeConflict => 409
  | CodeForbidden => 403
  | CodeNotFound => 404
  | CodeValidation | CodeUnregisteredType => 400
  | CodeInternal => 500
  end.

Lemma errors_Is_implies (a b : Sentinel) :
  (forall s, sentinel_is s a = true -> sentinel_is s b = true) ->
  forall e, errors_Is e a = true -> errors_Is e b = true.
Proof.
  intros Hab. fix IH 1. intros [ | | | | | |actor groups [cause|]| | |prefix inner|text own];
    cbn [errors_Is]; try apply Hab.
  - rewrite !orb_true_iff. intros [H|H]; [left; by apply Hab|right; by apply IH].
  - rewrite !orb_false_r. apply Hab.
  - apply IH.
  - rewrite !existsb_exists. intros (s & Hs & Ha). exists s. auto.
Qed.

Lemma unregistered_validation e : errors_Is e ErrUnregisteredType = true -> errors_Is e ErrValidation = true.
Proof. apply errors_Is_implies. by intros []. Qed.

(** C36: Errors on the wire.  The status is the one of the code and never of a
    success; a directory that could not be reached is an internal error, whatever
    else its cause is, and never a refusal; an error nobody anticipated shows none
    of its text; a conflict carries the current version, an unregistered type its
    name and a failed validation every issue, through any wrapping; and each of
    the engine's own errors has the code the contract names. *)
Theorem errors_on_the_wire e :
  let detail := errorDetail e in
  StatusFor (Some e) = status_of_code (ErrorDetail.Code detail) /\ (400 <= StatusFor (Some e))%Z /\
  (errors_Is e ErrGroupResolution = true -> StatusFor (Some e) = StatusInternalServerError) /\
  (ErrorDetail.Code detail = CodeInternal -> errors_Is e ErrGroupResolution = false ->
     ErrorDetail.Message detail = "the request could not be completed") /\
  (forall prefix, errorDetail (Wrapped prefix e) =
     detail <| ErrorDetail.Message := ErrorDetail.Message (errorDetail (Wrapped prefix e)) |>) /\
  match e with
  | ConflictError _ _ current =>
      detail = ErrorDetail.mk CodeConflict (Error e) (Some current) "" []
  | TransitionError _ _ _ _ => detail = ErrorDetail.mk CodeConflict (Error e) None "" []
  | NotFoundError _ | OutboxNotFoundError _ => detail = ErrorDetail.mk CodeNotFound (Error e) None "" []
  | ValidationError _ issues => detail = ErrorDetail.mk CodeValidation (Error e) None "" issues
  | UnregisteredTypeError type => detail = ErrorDetail.mk CodeUnregisteredType (Error e) None type []
  | AuthorizationError _ _ _ _ => detail = ErrorDetail.mk CodeForbidden (Error e) None "" []
  | GroupResolutionError _ _ _ => ErrorDetail.Code detail = CodeInternal /\ ErrorDetail.Message detail = Error e
  | _ => True
  end.
Proof.
  cbv zeta. assert (Hcode : ErrorDetail.Code (errorDetail e) = CodeFor (Some e)).
  { unfold errorDetail. by destruct (bool_decide _ && _). }
  rewrite Hcode. split_and!.
  - unfold StatusFor, CodeFor. pose proof (unregistered_validation e) as Hu.
    destruct (errors_Is e ErrGroupResolution), (errors_Is e ErrNotFound), (errors_Is e ErrUnauthorized),
      (errors_Is e ErrConflict), (errors_Is e ErrUnregisteredType), (errors_Is e ErrValidation); try done.
    discriminate (Hu eq_refl).
  - unfold StatusFor, StatusInternalServerError, StatusNotFound, StatusForbidden, StatusConflict, StatusBadRequest.
    repeat case_match; lia.
  - cbn. by intros ->.
  - intros Hc Hg. unfold errorDetail. rewrite Hc, Hg. by rewrite bool_decide_true.
  - intros prefix. unfold errorDetail. cbn [errors_As as_conflict as_unregistered as_validation].
    change (CodeFor (Some (Wrapped prefix e))) with (CodeFor (Some e)).
    change (errors_Is (Wrapped prefix e) ErrGroupResolution) with (errors_Is e ErrGroupResolution).
    by destruct (bool_decide _ && _).
  - by destruct e.
Qed.

(** ** Queries *)

Lemma parse_statuses_valid values l : parse_statuses values = Ok l ->
  Forall (fun s => Status_Valid s = true) l /\ l = Status_of <$> values.
Proof.
  revert l. induction values as [|v values IH]; intros l; cbn [parse_statuses].
  { intros [= <-]. by split. }
  destruct (Status_Valid (Status_of v)) eqn:Ev; cbn [negb]; [|done].
  intros (more & Hm & [= <-])%rbind_ok. destruct (IH _ Hm) as [Hf ->]. split; [by constructor|done].
Qed.

(** A refusal of the request itself. *)
Definition bad_request (e : error) : Prop := exists pointer message, e = badRequest pointer message.

Lemma parse_statuses_bad values e : parse_statuses values = Err e -> bad_request e.
Proof.
  induction values as [|v values IH]; cbn [parse_statuses]; [done|].
  destruct (negb _); [intros [= <-]; by eexists _, _|].
  destruct (parse_statuses values) as [l|e']; [done|]. cbn. intros [= <-]. by apply IH.
Qed.

Ltac refused_request H :=
  repeat match type of H with context [match ?x with _ => _ end] => destruct x end;
  first [discriminate H|injection H as <-; by eexists _, _].

Lemma parseQuery_sound req :
  match parseQuery req with
  | Err e => bad_request e
  | Ok q =>
      Ordering_Valid (Query.OrderBy q) = true /\ (0 <= Query.Limit q <= max_int64)%Z /\
      Forall (fun s => Status_Valid s = true) (Query.Statuses q) /\
      Query.Statuses q = Status_of <$> Request.QueryValues req "status" /\
      Query.validate q = Ok tt
  end.
Proof.
  unfold parseQuery.
  destruct (parseOrdering _) as [ordering|] eqn:Eo; cbn [rbind]; [|by eexists _, _].
  case_decide; [by eexists _, _|]. cbv zeta.
  match goal with |- context [rbind ?r _] => destruct r as [descending|e] eqn:Ed end; cbn [rbind].
  2: refused_request Ed.
  destruct (parse_statuses _) as [statuses|e] eqn:Es; cbn [rbind]; [|by eapply parse_statuses_bad].
  match goal with |- context [rbind ?r _] => destruct r as [limit|e] eqn:El end; cbn [rbind].
  2: refused_request El.
  match goal with |- context [rbind ?r _] => destruct r as [before|e] eqn:Eb end; cbn [rbind].
  2: refused_request Eb.
  apply parse_statuses_valid in Es as [Hf ->].
  assert (Ho : Ordering_Valid ordering = true).
  { unfold parseOrdering in Eo. repeat case_decide; by simplify_eq. }
  assert (Hl : (0 <= limit <= max_int64)%Z).
  { destruct (decide (_ = "")); [injection El as <-; done|].
    destruct (Atoi _) as [k|] eqn:Ek; [|done]. apply Atoi_bounds in Ek.
    destruct (decide (k < 0)%Z); [done|]. injection El as <-. lia. }
  split_and!; [exact Ho|apply Hl|apply Hl|exact Hf|done|].
  unfold Query.validate. cbn [Query.OrderBy]. by rewrite Ho.
Qed.

(** ** Handlers *)

Section handlers.
Context {D G : Type} `{!Store D, !IDGenerator G, !StoreModel D, !StoreLaws D}.
Context (json : BodyJson.t) (a : API.t) (cancelled : option error).
#[local] Abbreviation s := (API.service a).
#[local] Abbreviation Engine := (D * Run.t G)%type.
#[local] Abbreviation fail := (fail json).
#[local] Abbreviation encode := (encode json).

(** *** Reading a task *)

(** Who the default policy lets read a task. *)
Definition takes_part (task : Task.t) (actor : string) : bool :=
  bool_decide (actor = Task.Assignee task) || bool_decide (actor = Task.CreatedBy task) ||
  match Eligible s task actor with Ok eligible => eligible | Err _ => false end.

(** An eligibility check that fails is the failure of the directory. *)
Lemma eligible_error pool actor resolver e :
  IsEligible resolver pool actor = Err e -> errors_Is e ErrGroupResolution = true.
Proof.
  unfold IsEligible. repeat case_decide; try done; repeat case_match; try done;
    intros [= <-]; reflexivity.
Qed.

(** C34: Who may read a task and its history under the default policy, and what each
    caller is told.  Reading never changes the engine.  A caller without an
    identity is refused before the store is read, so that the answer is the same
    whatever is stored; a task that is not there is not found; a task that is
    there is shown, with its history, to its holder, its creator and whoever is
    eligible for it, and to nobody else: others are refused, or told that the
    directory could not be asked. *)
Theorem task_reads_answered req (d : D) (x : Run.t G) :
  API.readAuthorizer a = Some ParticipantsOnly -> sound d ->
  let id := Request.Param req "id" in
  let actor := Request.Actor req in
  let get := getTask json a req (d, x) in
  let history := getHistory json a req (d, x) in
  get.2 = (d, x) /\ history.2 = (d, x) /\
  if decide (actor = "")
  then get.1 = encode StatusForbidden (ErrorReply
         (ErrorDetail.mk CodeForbidden "reading a task needs an acting user" None "" [])) /\
       history.1 = get.1
  else
    match Ledger.tasks (view d) !! id with
    | None =>
        get.1 = encode StatusNotFound (ErrorReply
          (ErrorDetail.mk CodeNotFound (Error (NotFoundError id)) None "" [])) /\
        history.1 = get.1
    | Some task =>
        if takes_part task actor
        then get.1 = encode StatusOK (TaskReply task) /\
             history.1 = encode StatusOK (HistoryReply (Ledger.History id (view d)))
        else
          history.1 = get.1 /\
          match Eligible s task actor with
          | Ok _ => get.1 = encode StatusForbidden (ErrorReply
              (ErrorDetail.mk CodeForbidden
                 ("hmntsk: actor not authorised: an actor may read only tasks they hold, " +:+
                  "created or are eligible for") None "" []))
          | Err e => get.1 = encode StatusInternalServerError (ErrorReply (errorDetail e)) /\
                     ErrorDetail.Code (errorDetail e) = CodeInternal
          end
    end.
Proof.
  intros Hp Hd id actor get history. subst get history.
  unfold getTask, getHistory, authorizedTask. cbn [fst snd].
  rewrite (get_law _ _ Hd). unfold Ledger.Get. fold actor id.
  split; [done|]. split; [done|]. destruct (decide (actor = "")) as [|Ha]; [by split|].
  destruct (Ledger.tasks (view d) !! id) as [task|] eqn:El; cbn [rbind]; [|by split].
  unfold ask_read. rewrite Hp. unfold ParticipantsOnly, participantsOnly, TaskRead.Eligible, takes_part.
  cbn [TaskRead.Actor TaskRead.Task_ TaskRead.eligible default]. rewrite (decide_False (P := actor = "")) by done.
  assert (Hid : Task.ID task = id) by (by eapply keyed).
  assert (Hh : reading json (try! task' := Ok task in History (Task.ID task') d) HistoryReply =
               encode StatusOK (HistoryReply (Ledger.History id (view d)))).
  { cbn [rbind]. by rewrite (history_law _ _ Hd), Hid. }
  destruct (decide (actor = Task.Assignee task \/ actor = Task.CreatedBy task)) as [Hact|Hact].
  { replace (_ || _ || _) with true; [by split|]. symmetry. rewrite !orb_true_iff. left.
    by destruct Hact; [left|right]; apply bool_decide_true. }
  rewrite !bool_decide_false by naive_solver. cbn [orb].
  destruct (Eligible s task actor) as [[]|e] eqn:He; cbn [default Datatypes.id]; [by split|by split|].
  apply eligible_error in He. unfold refuse. rewrite He. split; [done|].
  split; [unfold reading, Transport.fail, StatusFor; by rewrite He|].
  unfold errorDetail, CodeFor. rewrite He. by destruct (bool_decide _ && _).
Qed.

(** *** Inboxes *)

(** The filter a query leaves the acting user with. *)
Definition own_query (actor : string) (query : Query.t) : Prop :=
  actor <> "" /\ Query.Group query = "" /\
  (Query.Candidate query = actor \/ Query.Assignee query = actor) /\
  (Query.Candidate query = "" \/ Query.Candidate query = actor) /\
  (Query.Assignee query = "" \/ Query.Assignee query = actor).

Lemma selfOnly_own actor query : selfOnly actor query = None -> own_query actor query.
Proof.
  unfold selfOnly, own_query. case_decide; [done|]. case_decide as Hg; [done|].
  case_decide as Hn; [done|]. case_decide as Ho; [done|]. intros _.
  destruct (decide (Query.Candidate query = "")), (decide (Query.Assignee query = "")),
    (decide (Query.Candidate query = actor)), (decide (Query.Assignee query = actor)); tauto.
Qed.

Lemma authorized_own req query :
  API.authorizer a = Some SelfOnly -> authorizedQuery a req = Ok query ->
  own_query (Request.Actor req) query.
Proof.
  intros Ha. unfold authorizedQuery, ask_query. rewrite Ha.
  intros (q & _ & (candidate & _ & (assignee & _ & H)%rbind_ok)%rbind_ok)%rbind_ok.
  destruct (SelfOnly _ _) eqn:E; [done|]. injection H as <-. by apply selfOnly_own.
Qed.

(** The work an actor holds or could take. *)
Definition own_work (actor : string) (task : Task.t) : Prop :=
  Task.Assignee task = actor \/ Task.Assignee task = "" /\ Eligible s task actor = Ok true.

Lemma resolved_groups query resolved :
  resolve s query None = Ok (resolved, None) ->
  ResolvedQuery.Query_ resolved = Query.Clone query /\
  (Query.Candidate query <> "" -> exists resolver, Service.resolver s = Some resolver /\
     GroupResolver.GroupsOf resolver (Query.Candidate query) = Ok (ResolvedQuery.CandidateGroups resolved)).
Proof.
  unfold resolve. intros ([] & _ & H)%rbind_ok. case_decide; [by injection H as <-|]. cbn in H.
  destruct (Service.resolver s) as [resolver|]; [|done].
  destruct (GroupResolver.GroupsOf _ _) as [groups|] eqn:Eg; [|done].
  injection H as <-. split; [done|]. intros _. by exists resolver.
Qed.

(** Resolving without a cache leaves none. *)
Lemma resolve_uncached query resolved cache : resolve s query None = Ok (resolved, cache) -> cache = None.
Proof.
  unfold resolve. intros ([] & _ & H)%rbind_ok. case_decide; [by injection H as <-|]. cbn in H.
  destruct (Service.resolver s); [|done]. destruct (GroupResolver.GroupsOf _ _); [by injection H as <-|done].
Qed.

Lemma parseQuery_group req query : parseQuery req = Ok query -> Query.Group query = Request.QueryValue req "group".
Proof.
  unfold parseQuery. intros (ordering & _ & H)%rbind_ok. case_decide; [done|]. cbv zeta in H.
  do 4 (apply rbind_ok in H as (? & _ & H)). by injection H as <-.
Qed.

Lemma authorized_group req query :
  API.authorizer a = Some SelfOnly -> authorizedQuery a req = Ok query ->
  Request.QueryValue req "group" = "".
Proof.
  intros Ha Hq. destruct (authorized_own _ _ Ha Hq) as (_ & Hg & _). revert Hq Hg.
  unfold authorizedQuery.
  intros (q & <-%parseQuery_group & (candidate & _ & (assignee & _ & H)%rbind_ok)%rbind_ok)%rbind_ok.
  destruct (ask_query _ _ _); [done|]. by injection H as <-.
Qed.

Lemma continued_same query :
  continued query (Query.Cursor (ResolvedQuery.Query_ query)) = query.
Proof. by destruct query as [[] ?]. Qed.

Lemma matched_own actor query resolved task :
  own_query actor query -> resolve s query None = Ok (resolved, None) ->
  matches task resolved = true -> own_work actor task.
Proof.
  intros (Hne & _ & Hor & Hc & Hb) Hres Hm. apply resolved_groups in Hres as [Hq Hg].
  apply matches_spec in Hm. rewrite Hq in Hm.
  destruct Hm as (Hm & _ & _ & _ & _ & _ & _ & _ & Hcand).
  change (Query.Assignee (Query.Clone query)) with (Query.Assignee query) in Hm.
  change (Query.Candidate (Query.Clone query)) with (Query.Candidate query) in Hcand.
  destruct Hor as [Hor|Hor]; [|left; rewrite <- Hor; apply Hm; congruence].
  rewrite Hor in Hcand, Hg. destruct (Hcand Hne) as [Hex Hin]. destruct (Hg Hne) as (resolver & Hr & Hgr).
  unfold own_work. case_decide as Hu; [right|by left]. split; [done|].
  unfold Eligible, IsEligible. rewrite Hr, Hgr, (decide_False (P := actor = "")) by done.
  destruct (contains (CandidatePool.Excluded _) actor) eqn:Ee; [by apply contains_true in Ee|].
  destruct (contains (CandidatePool.Users _) actor) eqn:Eu; [done|].
  destruct Hin as [Hin|Hin]; [apply contains_true in Hin; congruence|].
  case_decide as Hl; [|by rewrite (proj2 (any_group_spec _ _) Hin)].
  apply nil_length_inv in Hl. rewrite Hl in Hin. by destruct Hin as (g & _ & ?%not_elem_of_nil).
Qed.

(** C35: Under the default policy a query shows the acting user their own inbox and
    nothing else: it never changes the engine, and it answers with an error or
    with a page whose every task is stored as it is shown, and is held by the
    acting user or held by nobody and open to them.  A group's queue is never
    shown, and neither is anybody's inbox to a caller without an identity. *)
Theorem own_inbox_only req (d : D) (x : Run.t G) :
  API.authorizer a = Some SelfOnly -> sound d ->
  (queryTasks json a req (d, x)).2 = (d, x) /\
  ((exists e, (queryTasks json a req (d, x)).1 = fail e) \/
   exists tasks next,
     Request.Actor req <> "" /\ Request.QueryValue req "group" = "" /\
     (queryTasks json a req (d, x)).1 = encode StatusOK (PageReply tasks next) /\
     Forall (fun task => Ledger.tasks (view d) !! Task.ID task = Some task /\
                         own_work (Request.Actor req) task) tasks).
Proof.
  intros Ha Hd. split; [done|]. unfold queryTasks. cbn [fst snd].
  destruct (authorizedQuery a req) as [query|e] eqn:Eq; cbn [rbind]; [|left; by exists e].
  pose proof (authorized_own _ _ Ha Eq) as Hown. unfold Query_.
  destruct (resolve s query None) as [[resolved cache]|e] eqn:Er; cbn [rbind]; [|left; by exists e].
  assert (cache = None) as -> by (by eapply resolve_uncached).
  cbn [fst]. rewrite (query_law _ _ Hd).
  destruct (queryPage _ _ resolved) as [page|e] eqn:Ep; [right|left; by exists e].
  exists (Page.Tasks page), (Page.NextCursor page). split; [apply Hown|]. split; [|split; [done|]].
  { by eapply authorized_group. }
  apply Forall_forall. intros task Hin.
  rewrite <- (continued_same resolved) in Ep.
  destruct (queryPage_elem _ _ _ _ _ _ Ep Hin) as (_ & _ & Hs & Hm & _).
  split; [|by eapply matched_own].
  apply snapshot_lookup in Hs as [id Hid]. by rewrite (keyed d id task Hd Hid).
Qed.

(** *** Operations *)

(** The service call an operation over HTTP makes. *)
Definition call_of (op : Operation) (body : OperationRequest.t) : option Call :=
  match op with
  | OpClaim => Some CallClaim
  | OpRelease => Some CallRelease
  | OpStart => Some CallStart
  | OpSaveProgress => Some (CallSaveProgress (OperationRequest.Patch body))
  | OpComplete => Some (CallComplete (OperationRequest.Output body))
  | OpFail => Some CallFail
  | OpDelegate => Some (CallDelegate (OperationRequest.Delegate body))
  | OpSuspend => Some CallSuspend
  | OpResume => Some CallResume
  | OpEscalate => Some CallEscalate
  | OpCancel => Some CallCancel
  | _ => None
  end.

Lemma invoke_call op task body :
  invoke (D := D) (G := G) a cancelled op task body =
  match call_of op body with
  | Some c => call s cancelled c task
  | None => sfail (badRequest "" ("operation " +:+ Operation_String op +:+ " is not reachable over HTTP"))
  end.
Proof. by destruct op. Qed.

(** What an operation over HTTP answers and leaves behind, where [o] is what the
    operation makes of the committed ledger. *)
Definition answered (o : res outcome) (g : G) (l l' : Ledger.t)
    (seen seen' : list (nat * Event.t)) (response : Response.t) : Prop :=
  match (try! out := o in
         try! stamped := (stamps out.1.2 g).1 in
         match cancelled with Some e => Err e | None => Ok (out, stamped) end) with
  | Err e => response = fail e /\ l' = l /\ seen' = seen
  | Ok (next, evs, recs, stamped) =>
      response = encode StatusOK (TaskReply next) /\ l' = apply_outcome next recs stamped l /\
      seen' = seen ++ handed s stamped
  end.

Lemma published_answered o g l l' seen seen' r (d : D) (x : Run.t G) :
  published s cancelled o g l l' seen seen' r ->
  exists response,
    (match r with Ok result => respond json a StatusOK result (d, x) | Err e => (fail e, (d, x)) end) =
    (response, (d, x)) /\
    answered o g l l' seen seen' response.
Proof.
  unfold published, answered. destruct o as [[[next evs] recs]|e]; cbn [rbind fst snd].
  2: { intros (-> & ? & ?). by eexists. }
  destruct (stamps evs g).1 as [stamped|e]; cbn [rbind]; [|intros (-> & ? & ?); by eexists].
  destruct cancelled as [e|]; [intros (-> & ? & ?); by eexists|].
  intros (-> & ? & ?). by eexists.
Qed.

(** C33: A lifecycle operation over HTTP does what the service operation of its name
    does, with the task of the path, the actor of the request and the version of
    the body, and no more: the engine commits the outcome and answers the task with
    200, or commits nothing and answers the error; a body that cannot be read is
    refused before the store is touched.  A version other than the stored one is
    answered 409 with the stored version, and a task that is not there 404. *)
Theorem operation_over_http op req (d : D) (x : Run.t G) :
  sound d -> InTransaction d = false -> Request.Param req "id" <> "" ->
  fresh 1 (Run.eventIDs x) (Ledger.keys (base d)) ->
  exists response d' x',
    operation json a cancelled op req (d, x) = (response, (d', x')) /\
    match decode (BodyJson.UnmarshalOperation json) OperationRequest.zero (Request.Body req) with
    | Err e => response = fail e /\ d' = d /\ x' = x
    | Ok body =>
        match call_of op body with
        | None =>
            d' = d /\ x' = x /\ response = fail (badRequest ""
              ("operation " +:+ Operation_String op +:+ " is not reachable over HTTP"))
        | Some c =>
            let task := task_request req body in
            sound d' /\ InTransaction d' = false /\
            answered (plan task (step_of s c task) (base d) (Service.clock s (Run.ticks x)))
              (Run.eventIDs x) (base d) (base d') (Run.delivered x) (Run.delivered x') response /\
            match Ledger.tasks (base d) !! Request.Param req "id" with
            | None => response = fail (NotFoundError (Request.Param req "id")) /\ base d' = base d
            | Some current =>
                forall v, OperationRequest.Version body = Some v -> v <> Task.Version current ->
                base d' = base d /\ exists message,
                response = encode StatusConflict (ErrorReply
                  (ErrorDetail.mk CodeConflict message (Some (Task.Version current)) "" []))
            end
        end
    end.
Proof.
  intros Hd Hn Hid Hf. unfold operation.
  destruct (decode _ _ _) as [body|e]; [|by eexists _, _, _]. unfold answer. rewrite invoke_call.
  destruct (call_of op body) as [c|]; [|by eexists _, _, _].
  destruct (call_own s cancelled c (task_request req body) d x)
    as (r & d1 & x1 & -> & Hn1 & Hs1 & _ & Hpub); [done..|].
  destruct (published_answered _ _ _ _ _ _ _ d1 x1 Hpub) as (response & Hresp & Hans).
  exists response, d1, x1. split; [by destruct r|]. split_and!; [done..|].
  destruct (Ledger.tasks (base d) !! Request.Param req "id") as [current|] eqn:El.
  - intros v Hv Hne. unfold plan, Ledger.Get, task_request in Hans. cbn [TaskRequest.TaskID TaskRequest.Version] in Hans.
    rewrite El, Hv in Hans. cbn [rbind] in Hans. rewrite decide_True in Hans by done. cbn [rbind] in Hans.
    destruct Hans as (-> & -> & _). split; [done|]. by eexists.
  - unfold plan, Ledger.Get, task_request in Hans. cbn [TaskRequest.TaskID] in Hans. rewrite El in Hans.
    by destruct Hans as (-> & -> & _).
Qed.
(** *** Routes *)

(** What a request is matched on, below the base path. *)
Definition route_key (r : Route (D := D) (G := G)) : string * string := (route_Method r, route_Pattern r).

Lemma path_inj : Inj (=) (=) (path a).
Proof. intros x y. unfold path. apply (inj (String.append (API.basePath a))). Qed.

(** No two routes answer the same requests or share an identifier, and each
    operation that is reachable has a route of its own. *)
Theorem routes_distinct :
  NoDup (route_key <$> Routes json a cancelled) /\
  NoDup (route_OperationID <$> Routes json a cancelled) /\
  forall op body, is_Some (call_of op body) ->
    exists r, r ∈ Routes json a cancelled /\ route_Handler r = operation json a cancelled op.
Proof.
  split; [|split].
  - pose (keys := [("POST", "/tasks"); ("GET", "/tasks"); ("GET", "/tasks/count"); ("GET", "/tasks/{id}");
      ("DELETE", "/tasks/{id}"); ("GET", "/tasks/{id}/history"); ("POST", "/tasks/{id}/claim");
      ("POST", "/tasks/{id}/release"); ("POST", "/tasks/{id}/start"); ("POST", "/tasks/{id}/progress");
      ("POST", "/tasks/{id}/complete"); ("POST", "/tasks/{id}/fail"); ("POST", "/tasks/{id}/delegate");
      ("POST", "/tasks/{id}/suspend"); ("POST", "/tasks/{id}/resume"); ("POST", "/tasks/{id}/escalate");
      ("GET", "/task-types"); ("GET", "/task-types/{name}")]).
    change (NoDup (prod_map id (path a) <$> keys)). apply NoDup_fmap_2.
    + intros [m1 p1] [m2 p2] [= -> ->%path_inj]. done.
    + by apply (bool_decide_eq_true_1 (NoDup keys)).
  - by apply (bool_decide_eq_true_1 _).
  - intros op body [c Hc]. unfold Routes.
    rewrite <- (Exists_exists (fun r => route_Handler r = operation json a cancelled op)).
    destruct op; try done; repeat (first [apply Exists_cons_hd; reflexivity|apply Exists_cons_tl]).
Qed.
End handlers.

(** * At concrete inputs *)

Module TransportExamples.
#[export] Existing Instances store model laws.

(** A codec of bodies that knows one of each: a claim names the version 9. *)
Definition json : BodyJson.t := BodyJson.mk
  (fun _ => Err "no creations")
  (fun body =>
     if decide (body = "{v9}") then Ok (OperationRequest.mk (Some 9%Z) "" None "" None)
     else Err "invalid character")
  (fun reply =>
     match reply with
     | TaskReply task => Some (Task.ID task)
     | PageReply tasks _ => Some (String.concat "," (Task.ID <$> tasks))
     | ErrorReply detail => Some (ErrorDetail.Message detail)
     | _ => None
     end).

Definition desk : API.t := API.mk staffed DefaultBasePath (Some SelfOnly) (Some ParticipantsOnly).
Definition counter : API.t := API.mk office DefaultBasePath (Some SelfOnly) (Some ParticipantsOnly).

Definition asking (actor id body : string) : Request.t :=
  Request.mk "POST" "" {[ "id" := id ]} ∅ body actor.
Definition asking_for (actor : string) (parameters : list (string * list string)) : Request.t :=
  Request.mk "GET" "/v1/tasks" ∅ (list_to_map parameters) "" actor.
End TransportExamples.
Import TransportExamples.

Lemma task_reads_answered_witness :
  (getTask json counter (asking "sys" "t1" "") (placed, placed_run)).1 = Response.mk 200 ∅ "t1" /\
  (getTask json counter (asking "sys" "t2" "") (placed, placed_run)).1 =
  (getHistory json counter (asking "sys" "t2" "") (placed, placed_run)).1.
Proof.
  destruct (task_reads_answered json counter (asking "sys" "t1" "") placed placed_run) as (_ & _ & H).
  - reflexivity.
  - exact (proj1 placed_sound).
  - destruct (task_reads_answered json counter (asking "sys" "t2" "") placed placed_run) as (_ & _ & H2).
    + reflexivity.
    + exact (proj1 placed_sound).
    + split; [vm_compute; reflexivity|symmetry; exact (proj1 H2)].
Defined.

Lemma own_inbox_only_witness :
  (queryTasks json desk (asking_for "bob" [("candidate", ["me"])]) (placed, placed_run)).2 =
    (placed, placed_run) /\
  Response.Status (queryTasks json desk (asking_for "bob" [("candidate", ["ann"])]) (placed, placed_run)).1 = 403%Z.
Proof.
  split; [|vm_compute; reflexivity].
  apply (own_inbox_only json desk (asking_for "bob" [("candidate", ["me"])]) placed placed_run).
  - reflexivity.
  - exact (proj1 placed_sound).
Defined.

Lemma operation_over_http_witness :
  exists response d' x' message,
    operation json counter None OpClaim (asking "ann" "t1" "{v9}") (placed, placed_run) = (response, (d', x')) /\
    base d' = base placed /\
    response = encode json StatusConflict (ErrorReply (ErrorDetail.mk CodeConflict message (Some 1%Z) "" [])).
Proof.
  destruct (operation_over_http json counter None OpClaim (asking "ann" "t1" "{v9}") placed placed_run)
    as (response & d' & x' & Hrun & H).
  - exact (proj1 placed_sound).
  - vm_compute. reflexivity.
  - discriminate.
  - apply fresh_by_computation. vm_compute. reflexivity.
  - destruct H as (_ & _ & _ & H).
    destruct (Ledger.tasks (base placed) !! "t1") as [current|] eqn:El; [|vm_compute in El; discriminate El].
    assert (Hv : Task.Version current = 1%Z).
    { vm_compute in El. injection El as <-. reflexivity. }
    change (Request.Param (asking "ann" "t1" "{v9}") "id") with "t1" in H. rewrite El in H.
    specialize (H 9%Z eq_refl). rewrite Hv in H. destruct H as [Hb (message & Hresp)]; [discriminate|].
    exists response, d', x', message. split; [exact Hrun|]. split; [exact Hb|exact Hresp].
Defined.

(** A claim without a body is carried out. *)
Example claimed_over_http :
  let '(response, (d', _)) :=
    operation json counter None OpClaim (asking "ann" "t1" " ") (placed, placed_run) in
  response = Response.mk 200 ∅ "t1" /\ (Task.Assignee <$> Ledger.tasks (base d') !! "t1") = Some "ann".
Proof. vm_compute. done. Qed.

Example query_parameters :
  (fun pair => match parseQuery (asking_for "bob" pair) with
            | Ok query => Ok (Query.Limit query, Query.OrderBy query, Query.Statuses query, Query.Descending query)
            | Err e => Err (Error e)
            end) <$>
  [[("limit", ["+10"; "99"]); ("orderBy", ["due"]); ("direction", ["desc"]); ("status", ["READY"; "RESERVED"])];
   [("limit", ["-1"])]; [("limit", ["9223372036854775808"])]; [("order", ["asc"])]; [("dueBefore", ["tomorrow"])]] =
  [Ok (10, OrderDue, [StatusReady; StatusReserved], true);
   Err (Error (badRequest "limit" "must be a non-negative whole number"));
   Err (Error (badRequest "limit" "must be a non-negative whole number"));
   Err (Error (badRequest "order" "is no longer a parameter; use direction=asc|desc"));
   Err (Error (badRequest "dueBefore" "must be an RFC 3339 timestamp"))]%Z.
Proof. vm_compute. reflexivity. Qed.

Example options_read :
  API.basePath <$> (match New (Some office) [WithBasePath "/api//"; WithBasePath "/"] with Ok api => Some api | Err _ => None end) = Some "/api" /\
  is_ok (New (Some office) [WithQueryAuthorizer None]) = false /\ is_ok (New None []) = false /\
  Params "/v1/{a}/x/{{b}/}{" = ["a"; "b"].
Proof. vm_compute. done. Qed.
