(* ===== verification/Route.v ===== *)
(** * Route: route templates

    Models [metadata.go]: the placeholders of a template and their expansion for
    one task.  Shown: the expansion, which looks for a closing brace and then for
    the nearest opening one before it, reads the template once from left to right,
    replacing each innermost pair of braces whose name it knows. *)

From Stdlib Require Import Ascii.
From S2P Require Import Prelude Domain.

Definition MetadataFormKey : string := "hmntsk.formKey".
Definition MetadataRoute : string := "hmntsk.route".

(** ** Go's strings *)

(** [s[:n]] and [s[n:]] *)
Fixpoint upto (n : nat) (s : string) : string :=
  match n, s with
  | S n, String c s => String c (upto n s)
  | _, _ => ""
  end.

Fixpoint from (n : nat) (s : string) : string :=
  match n, s with
  | S n, String _ s => from n s
  | _, _ => s
  end.

(** [strings.IndexByte] and [strings.LastIndexByte], none for -1. *)
Fixpoint IndexByte (c : ascii) (s : string) : option nat :=
  match s with
  | "" => None
  | String d s => if decide (d = c) then Some 0 else S <$> IndexByte c s
  end.

Fixpoint LastIndexByte (c : ascii) (s : string) : option nat :=
  match s with
  | "" => None
  | String d s =>
      match LastIndexByte c s with
      | Some n => Some (S n)
      | None => if decide (d = c) then Some 0 else None
      end
  end.

(** [strings.CutPrefix] *)
Fixpoint CutPrefix (s prefix : string) : option string :=
  match prefix, s with
  | "", _ => Some s
  | String p prefix, String c s => if decide (c = p) then CutPrefix s prefix else None
  | String _ _, "" => None
  end.

(** ** Expansion *)

Definition routeValue (name : string) (task : Task.t) : option string :=
  let correlation := Task.Correlation task in
  if decide (name = "task.id") then Some (Task.ID task)
  else if decide (name = "task.type") then Some (Task.Type_ task)
  else if decide (name = "correlation.ownerType") then Some (CorrelationData.OwnerType correlation)
  else if decide (name = "correlation.ownerRef") then Some (CorrelationData.OwnerRef correlation)
  else if decide (name = "correlation.activityKey")
  then Some (CorrelationData.ActivityKey correlation)
  else match CutPrefix name "correlation.extra." with
       | Some key => CorrelationData.Extra correlation !! key
       | None => None
       end.

(** The loop of [ExpandRoute], on what is left of the template and what has been
    written; each turn consumes a closing brace. *)
Fixpoint expand_loop (fuel : nat) (task : Task.t) (rest out : string) : string :=
  match fuel with
  | 0 => (out +:+ rest)%string
  | S fuel =>
      match IndexByte "}" rest with
      | None => (out +:+ rest)%string
      | Some closing =>
          let head := upto closing rest in
          match LastIndexByte "{" head with
          | None =>
              expand_loop fuel task (from (S closing) rest) (out +:+ upto (S closing) rest)%string
          | Some opening =>
              let out := (out +:+ upto opening rest)%string in
              let out :=
                match routeValue (from (S opening) head) task with
                | Some value => (out +:+ value)%string
                | None => (out +:+ from opening (upto (S closing) rest))%string
                end in
              expand_loop fuel task (from (S closing) rest) out
          end
      end
  end.

Definition ExpandRoute (template : string) (task : Task.t) : string :=
  expand_loop (S (String.length template)) task template "".

(** ** One pass

    [open] is what was read since the last opening brace not yet closed. *)

Definition flush (open : option string) : string :=
  match open with Some name => "{" +:+ name | None => "" end.

Fixpoint scan (task : Task.t) (open : option string) (s : string) : string :=
  match s with
  | "" => flush open
  | String c s =>
      if decide (c = "{"%char) then (flush open +:+ scan task (Some "") s)%string
      else if decide (c = "}"%char) then
        match open with
        | Some name =>
            (default ("{" +:+ name +:+ "}") (routeValue name task) +:+ scan task None s)%string
        | None => String c (scan task None s)
        end
      else
        match open with
        | Some name => scan task (Some (name +:+ String c "")) s
        | None => String c (scan task None s)
        end
  end.

(** * Lemmas *)

Fixpoint occurs (c : ascii) (s : string) : Prop :=
  match s with "" => False | String d s => d = c \/ occurs c s end.

Lemma upto_from n s : (upto n s +:+ from n s)%string = s.
Proof.
  revert s. induction n as [|n IH]; intros [|c s]; try done.
  change (String c (upto n s +:+ from n s) = String c s). by rewrite IH.
Qed.

Lemma IndexByte_spec c s :
  match IndexByte c s with
  | Some n => s = (upto n s +:+ String c (from (S n) s))%string /\ ~ occurs c (upto n s) /\
              upto (S n) s = (upto n s +:+ String c "")%string
  | None => ~ occurs c s
  end.
Proof.
  induction s as [|d s IH]; [by intros []|]. cbn [IndexByte].
  destruct (decide (d = c)) as [->|Hne].
  - split_and!; [done|by intros []|by destruct s].
  - destruct (IndexByte c s) as [n|]; cbn [fmap option_fmap option_map].
    + destruct IH as (E & Hno & Eu). split_and!.
      * change (String d s = String d (upto n s +:+ String c (from (S n) s))). by rewrite <- E.
      * cbn. by intros [?|?].
      * change (String d (upto (S n) s) = String d (upto n s +:+ String c "")). by rewrite Eu.
    + cbn. by intros [?|?].
Qed.

Lemma LastIndexByte_spec c s :
  match LastIndexByte c s with
  | Some n => s = (upto n s +:+ String c (from (S n) s))%string /\ ~ occurs c (from (S n) s) /\
              n < String.length s
  | None => ~ occurs c s
  end.
Proof.
  induction s as [|d s IH]; [by intros []|]. cbn [LastIndexByte].
  destruct (LastIndexByte c s) as [n|].
  - destruct IH as (E & Hno & Hlt). split_and!; [|exact Hno|cbn; lia].
    change (String d s = String d (upto n s +:+ String c (from (S n) s))). by rewrite <- E.
  - case_decide as Ed; [subst; cbn; split_and!; auto with lia|]. cbn. by intros [?|?].
Qed.

Lemma upto_app n a b : n <= String.length a -> upto n (a +:+ b)%string = upto n a.
Proof.
  revert a. induction n as [|n IH]; intros [|c a] Hn; cbn in Hn; try done; [lia|].
  change (String c (upto n (a +:+ b)) = String c (upto n a)). rewrite IH; [done|lia].
Qed.

Lemma from_app n a b : n <= String.length a -> from n (a +:+ b)%string = (from n a +:+ b)%string.
Proof.
  revert a. induction n as [|n IH]; intros [|c a] Hn; cbn in Hn; try done; [lia|].
  apply IH. lia.
Qed.

Lemma from_upto n a : n <= String.length a -> from n (upto n a) = "".
Proof. revert a. induction n as [|n IH]; intros [|c a] Hn; cbn in *; try done. apply IH. lia. Qed.

Lemma upto_length n a : n <= String.length a -> String.length (upto n a) = n.
Proof. revert a. induction n as [|n IH]; intros [|c a] Hn; cbn in *; try lia. rewrite IH; lia. Qed.

(** Reading text that closes nothing. *)
Lemma scan_plain task open s rest :
  ~ occurs "}" s -> ~ occurs "{" s ->
  scan task open (s +:+ rest) =
    match open with
    | Some name => scan task (Some (name +:+ s)) rest
    | None => s +:+ scan task None rest
    end%string.
Proof.
  revert open. induction s as [|c s IH]; intros open Hc Ho.
  - destruct open as [name|]; [|done]. by rewrite (right_id "" String.append).
  - change (String c s +:+ rest)%string with (String c (s +:+ rest)). cbn [occurs scan] in *.
    rewrite !decide_False by naive_solver. destruct open as [name|]; rewrite IH by naive_solver.
    + by rewrite <- (assoc_L String.append).
    + done.
Qed.

Lemma scan_opens task open s rest :
  ~ occurs "}" s ->
  scan task open (s +:+ "{" +:+ rest)%string =
    (flush open +:+ s +:+ scan task (Some "") rest)%string.
Proof.
  revert open. induction s as [|c s IH]; intros open Hc; [by destruct open|].
  change (String c s +:+ "{" +:+ rest)%string with (String c (s +:+ "{" +:+ rest)%string).
  cbn [occurs scan] in *. case_decide as Eo; [|rewrite decide_False by naive_solver].
  - rewrite IH by naive_solver. subst c. done.
  - destruct open as [name|]; rewrite IH by naive_solver; [|done]. cbn [flush].
    by rewrite <- !(assoc_L String.append).
Qed.

Lemma scan_end task open s : ~ occurs "}" s -> scan task open s = (flush open +:+ s)%string.
Proof.
  revert open. induction s as [|c s IH]; intros open Hc; cbn [scan].
  - by rewrite (right_id "" String.append).
  - cbn [occurs] in Hc. case_decide as Eo; [|rewrite decide_False by naive_solver].
    + rewrite IH by naive_solver. by subst c.
    + destruct open as [name|]; rewrite IH by naive_solver; [|done]. cbn [flush].
      by rewrite <- !(assoc_L String.append).
Qed.

Lemma occurs_app c a d b : ~ occurs c (a +:+ String d b)%string -> ~ occurs c a /\ ~ occurs c b.
Proof.
  induction a as [|x a IHa]; [cbn; naive_solver|].
  change (String x a +:+ String d b)%string with (String x (a +:+ String d b)%string).
  cbn [occurs]. naive_solver.
Qed.

(** Reading a name to its closing brace. *)
Lemma scan_name task name tail : ~ occurs "}" name -> ~ occurs "{" name ->
  scan task (Some "") (name +:+ "}" +:+ tail)%string =
    (default ("{" +:+ name +:+ "}") (routeValue name task) +:+ scan task None tail)%string.
Proof. intros Hc Ho. by rewrite scan_plain. Qed.

Lemma scan_plain_close task s tail : ~ occurs "}" s -> ~ occurs "{" s ->
  scan task None (s +:+ "}" +:+ tail)%string = (s +:+ "}" +:+ scan task None tail)%string.
Proof. intros Hc Ho. by rewrite scan_plain. Qed.

Lemma expand_loop_scan task fuel rest out : String.length rest < fuel ->
  expand_loop fuel task rest out = (out +:+ scan task None rest)%string.
Proof.
  revert rest out. induction fuel as [|fuel IH]; intros rest out Hlen; [lia|]. cbn [expand_loop].
  pose proof (IndexByte_spec "}" rest) as Hi. destruct (IndexByte "}" rest) as [closing|].
  2: { by rewrite scan_end. }
  destruct Hi as (E & Hno & Eu). set (head := upto closing rest) in *.
  set (tail := from (S closing) rest) in *.
  assert (Ht : String.length tail < fuel).
  { pose proof (f_equal String.length E) as El. rewrite length_append in El.
    cbn [String.length] in El. lia. }
  pose proof (LastIndexByte_spec "{" head) as Hl. destruct (LastIndexByte "{" head) as [opening|].
  - destruct Hl as (Eh & Hop & Hlt). set (name := from (S opening) head) in *.
    assert (Hnc : ~ occurs "}" (upto opening head) /\ ~ occurs "}" name).
    { rewrite Eh in Hno. by apply occurs_app in Hno. }
    destruct Hnc as [Hn1 Hn2].
    assert (Eo : upto opening rest = upto opening head).
    { transitivity (upto opening (head +:+ String "}" tail)%string); [by rewrite <- E|].
      apply upto_app. lia. }
    assert (Ef : from opening (upto (S closing) rest) = ("{" +:+ name +:+ "}")%string).
    { rewrite Eu, from_app by lia. rewrite Eh at 1.
      rewrite from_app by (rewrite upto_length; lia). rewrite from_upto by lia. done. }
    assert (Er : rest = (upto opening head +:+ "{" +:+ name +:+ "}" +:+ tail)%string).
    { rewrite E at 1. rewrite Eh at 1. by rewrite <- !(assoc_L String.append). }
    rewrite IH, Eo, Ef by done. rewrite Er at 1. rewrite scan_opens by done. cbn [flush].
    rewrite scan_name by done. destruct (routeValue name task); cbn [default];
      by rewrite <- !(assoc_L String.append).
  - rewrite IH, Eu by done. rewrite E at 1.
    change (String "}" tail) with ("}" +:+ tail)%string. rewrite scan_plain_close by done.
    by rewrite <- !(assoc_L String.append).
Qed.

(** * Properties *)

(** C30: Expanding a template reads it once from left to right: text outside
    braces is kept, an opening brace that another one follows before any closing
    one is text, and each innermost pair of braces becomes the value of its name
    for the task, or stays as written when the name is not known. *)
Theorem expand_route_one_pass template task : ExpandRoute template task = scan task None template.
Proof. unfold ExpandRoute. rewrite expand_loop_scan by lia. done. Qed.
