(* ===== verification/Json.v ===== *)
(** * Json: well-formed JSON, and writing objects of strings

    [json.Valid] of Go's [encoding/json], which the notification store uses to
    check a publisher's payload: the byte-at-a-time scanner, one state per
    expected byte and a stack of the containers that are open.  A document is
    valid when the scanner accepts every byte and then the end of input.

    What [json.Marshal] writes for a struct whose fields are strings: the escapes
    of [appendString] with HTML escaping on, invalid UTF-8 replaced, fields in
    order, empty ones left out where their tag says so.  No source of the
    repository is modelled here.  Shown: what is written is accepted by the
    scanner, whatever the strings hold. *)

From Stdlib Require Import Ascii.
From S2P Require Import Prelude.

Module Scanner.
(** What an open container expects after the value being scanned. *)
Inductive container : Type := ObjectKey | ObjectValue | ArrayValue.

Inductive state : Type :=
| BeginValue            (* a value must start here *)
| BeginValueOrEmpty     (* just after the opening bracket of an array *)
| BeginStringOrEmpty    (* just after the opening brace of an object *)
| BeginString           (* after a comma in an object *)
| EndValue              (* a value has just ended *)
| EndTop                (* the top-level value has ended *)
| InString | InStringEsc
| InStringEscU (todo : nat)   (* hexadecimal digits still to come *)
| Neg | Digit0 | Digit1
| Dot | Dot0 | ExpMark | ExpSign | Exp0
| Word (rest : string)        (* the rest of true, false or null *)
| Invalid.

(** The deepest nesting the decoder accepts. *)
Definition maxNestingDepth : Z := 10000.

Definition is_space (c : Ascii.ascii) : bool :=
  match Ascii.nat_of_ascii c with 32 | 9 | 13 | 10 => true | _ => false end.
Definition is_digit (c : Ascii.ascii) : bool :=
  let n := Ascii.nat_of_ascii c in Nat.leb 48 n && Nat.leb n 57.
Definition is_hex (c : Ascii.ascii) : bool :=
  let n := Ascii.nat_of_ascii c in
  is_digit c || (Nat.leb 97 n && Nat.leb n 102) || (Nat.leb 65 n && Nat.leb n 70).

Record t : Type := mk { step : state; open : list container; depth : Z }.

(** The state once a value has ended: the end of the document or of a member. *)
Definition after (open : list container) : state :=
  match open with [] => EndTop | _ => EndValue end.

Definition close_value (open : list container) (depth : Z) : t :=
  mk (after open) open depth.

Definition push (c : container) (next : state) (s : t) : t :=
  if decide (maxNestingDepth < depth s + 1)%Z then mk Invalid (open s) (depth s)
  else mk next (c :: open s) (depth s + 1).

Definition begin_value (c : Ascii.ascii) (s : t) : t :=
  let go next := mk next (open s) (depth s) in
  match Ascii.nat_of_ascii c with
  | 123 => push ObjectKey BeginStringOrEmpty s
  | 91 => push ArrayValue BeginValueOrEmpty s
  | 34 => go InString
  | 45 => go Neg
  | 48 => go Digit0
  | 116 => go (Word "rue")
  | 102 => go (Word "alse")
  | 110 => go (Word "ull")
  | _ => if is_digit c then go Digit1 else go Invalid
  end.

(** The byte after a value: space, a separator or the container's end. *)
Definition end_value (c : Ascii.ascii) (s : t) : t :=
  let go next := mk next (open s) (depth s) in
  match open s with
  | [] => if is_space c then go EndTop else go Invalid
  | top :: rest =>
      if is_space c then go EndValue
      else match top, Ascii.nat_of_ascii c with
           | ObjectKey, 58 => mk BeginValue (ObjectValue :: rest) (depth s)
           | ObjectValue, 44 => mk BeginString (ObjectKey :: rest) (depth s)
           | ObjectValue, 125 => close_value rest (depth s - 1)
           | ArrayValue, 44 => go BeginValue
           | ArrayValue, 93 => close_value rest (depth s - 1)
           | _, _ => go Invalid
           end
  end.

Definition feed (c : Ascii.ascii) (s : t) : t :=
  let go next := mk next (open s) (depth s) in
  let n := Ascii.nat_of_ascii c in
  let ended := close_value (open s) (depth s) in
  match step s with
  | BeginValue => if is_space c then s else begin_value c s
  | BeginValueOrEmpty =>
      if is_space c then s
      else if Nat.eqb n 93 then end_value c s else begin_value c s
  | BeginStringOrEmpty =>
      if is_space c then s
      else if Nat.eqb n 125
      then end_value c (mk EndValue (ObjectValue :: tail (open s)) (depth s))
      else if Nat.eqb n 34 then go InString else go Invalid
  | BeginString =>
      if is_space c then s else if Nat.eqb n 34 then go InString else go Invalid
  | EndValue | EndTop => end_value c s
  | InString =>
      if Nat.eqb n 34 then ended
      else if Nat.eqb n 92 then go InStringEsc
      else if Nat.ltb n 32 then go Invalid else s
  | InStringEsc =>
      match n with
      | 98 | 102 | 110 | 114 | 116 | 92 | 47 | 34 => go InString
      | 117 => go (InStringEscU 3)
      | _ => go Invalid
      end
  | InStringEscU todo =>
      if is_hex c
      then match todo with O => go InString | S k => go (InStringEscU k) end
      else go Invalid
  | Neg =>
      if Nat.eqb n 48 then go Digit0 else if is_digit c then go Digit1 else go Invalid
  | Digit1 =>
      if is_digit c then s
      else if Nat.eqb n 46 then go Dot
      else if Nat.eqb n 101 || Nat.eqb n 69 then go ExpMark else end_value c ended
  | Digit0 =>
      if Nat.eqb n 46 then go Dot
      else if Nat.eqb n 101 || Nat.eqb n 69 then go ExpMark else end_value c ended
  | Dot => if is_digit c then go Dot0 else go Invalid
  | Dot0 =>
      if is_digit c then s
      else if Nat.eqb n 101 || Nat.eqb n 69 then go ExpMark else end_value c ended
  | ExpMark =>
      if Nat.eqb n 43 || Nat.eqb n 45 then go ExpSign
      else if is_digit c then go Exp0 else go Invalid
  | ExpSign => if is_digit c then go Exp0 else go Invalid
  | Exp0 => if is_digit c then s else end_value c ended
  | Word (String d rest) =>
      if decide (c = d)
      then match rest with EmptyString => ended | _ => go (Word rest) end
      else go Invalid
  | Word EmptyString => go Invalid
  | Invalid => s
  end.

(** A number may end with the input; anything else must have ended already. *)
Definition accepts_end (s : t) : bool :=
  match open s, step s with
  | [], (EndTop | Digit0 | Digit1 | Dot0 | Exp0) => true
  | _, _ => false
  end.

Fixpoint scan (data : string) (s : t) : t :=
  match data with
  | EmptyString => s
  | String c rest => scan rest (feed c s)
  end.
End Scanner.

(** [json.Valid] *)
Definition json_Valid (data : string) : bool :=
  Scanner.accepts_end (Scanner.scan data (Scanner.mk Scanner.BeginValue [] 0)).

(** A document with every kind of value, and documents that break off. *)
Definition quoted (s : string) : string := dquote +:+ s +:+ dquote.

Example json_accepts :
  json_Valid ("{" +:+ quoted "a" +:+ ": [1, -0.5e+3, true, null, " +:+ quoted "x\u00e9\n"
              +:+ "], " +:+ quoted "b" +:+ ":{}}") = true.
Proof. vm_compute. reflexivity. Qed.

Example json_refuses :
  json_Valid <$> ["{"; "[1,]"; "01"; "tru"; EmptyString; "1 2"; "{" +:+ quoted "a" +:+ "}"; "-"]
  = [false; false; false; false; false; false; false; false].
Proof. vm_compute. reflexivity. Qed.

(** * Writing objects of strings *)

(** ** Runes *)

Definition byte_in (lo hi : nat) (c : ascii) : bool :=
  Nat.leb lo (nat_of_ascii c) && Nat.leb (nat_of_ascii c) hi.

Definition continuation : ascii -> bool := byte_in 128 191.

(** The size of the valid rune a string above ASCII starts with, 0 when it starts
    with none. *)
Definition rune_size (s : string) : nat :=
  match s with
  | String a (String b rest) =>
      if byte_in 194 223 a && continuation b then 2
      else
        let second := if byte_in 224 224 a then byte_in 160 191 b
                      else if byte_in 237 237 a then byte_in 128 159 b
                      else if byte_in 240 240 a then byte_in 144 191 b
                      else if byte_in 244 244 a then byte_in 128 143 b
                      else continuation b in
        match rest with
        | String c rest =>
            if byte_in 224 239 a && second && continuation c then 3
            else match rest with
                 | String d _ =>
                     if byte_in 240 244 a && second && continuation c && continuation d then 4
                     else 0
                 | _ => 0
                 end
        | _ => 0
        end
  | _ => 0
  end.

(** U+2028 or U+2029: its last hexadecimal digit. *)
Definition line_separator (s : string) : option ascii :=
  match s with
  | String a (String b (String c _)) =>
      if decide (nat_of_ascii a = 226 /\ nat_of_ascii b = 128 /\
                 (nat_of_ascii c = 168 \/ nat_of_ascii c = 169))
      then Some (hex_digit (nat_of_ascii c - 160)) else None
  | _ => None
  end.

(** ** Strings *)

Definition backslash : ascii := ascii_of_nat 92.
Definition escaped (c : ascii) : string := String backslash (String c "").

(** A byte of ASCII. *)
Definition escape_byte (c : ascii) : string :=
  let n := nat_of_ascii c in
  match n with
  | 92 | 34 => escaped c
  | 8 => escaped "b" | 12 => escaped "f" | 10 => escaped "n"
  | 13 => escaped "r" | 9 => escaped "t"
  | _ =>
      if decide (n < 32 \/ n = 38 \/ n = 60 \/ n = 62)
      then escaped "u" +:+ "00" +:+
           String (hex_digit (n / 16)) (String (hex_digit (n mod 16)) "")
      else String c ""
  end.

(** The bytes of the current rune still to copy, or to leave out. *)
Inductive Run : Type := Copy (n : nat) | Omit (n : nat).

Fixpoint append_string (run : Run) (s : string) : string :=
  match s with
  | "" => ""
  | String c rest =>
      match run with
      | Copy (S n) => String c (append_string (Copy n) rest)
      | Omit (S n) => append_string (Omit n) rest
      | _ =>
          if decide (nat_of_ascii c < 128)
          then escape_byte c +:+ append_string (Copy 0) rest
          else match line_separator s with
               | Some digit => escaped "u" +:+ "202" +:+ String digit (append_string (Omit 2) rest)
               | None =>
                   match rune_size s with
                   | 0 => escaped "u" +:+ "fffd" +:+ append_string (Copy 0) rest
                   | S n => String c (append_string (Copy n) rest)
                   end
               end
      end
  end.

Definition marshal_string (s : string) : string :=
  dquote +:+ append_string (Copy 0) s +:+ dquote.

(** ** Objects

    A field: its key, its value, whether it is left out when empty. *)

Definition Field : Type := string * string * bool.

Definition kept (f : Field) : bool :=
  let '(_, value, omitempty) := f in negb (omitempty && bool_decide (value = "")).

Definition marshal_field (f : Field) : string :=
  let '(key, value, _) := f in marshal_string key +:+ ":" +:+ marshal_string value.

Definition marshal_object (fields : list Field) : string :=
  "{" +:+ String.concat "," (marshal_field <$> filter (fun f => kept f = true) fields) +:+ "}".

Example marshal_demo :
  marshal_object [("a", "x<y" +:+ String (ascii_of_nat 200) "" +:+ dquote, false); ("b", "", true)] =
  "{" +:+ quoted "a" +:+ ":" +:+
    quoted ("x" +:+ escaped "u" +:+ "003cy" +:+ escaped "u" +:+ "fffd" +:+ escaped (ascii_of_nat 34)) +:+ "}".
Proof. vm_compute. reflexivity. Qed.

(** * Lemmas *)

(** Inside a string of a document. *)
Abbreviation inside := (Scanner.mk Scanner.InString).

Lemma scan_app a b s : Scanner.scan (a +:+ b)%string s = Scanner.scan b (Scanner.scan a s).
Proof.
  revert s. induction a as [|c a IH]; intros s; [done|]. apply IH.
Qed.

(** A byte above ASCII is text. *)
Lemma feed_high c o d : 128 <= nat_of_ascii c -> Scanner.feed c (inside o d) = inside o d.
Proof.
  intros Hc. unfold Scanner.feed. cbn.
  destruct (Nat.eqb_spec (nat_of_ascii c) 34); [lia|].
  destruct (Nat.eqb_spec (nat_of_ascii c) 92); [lia|].
  destruct (Nat.leb_spec (nat_of_ascii c) 31); [lia|done].
Qed.

(** An escaped byte is text. *)
Lemma scan_escape_byte c o d : nat_of_ascii c < 128 ->
  Scanner.scan (escape_byte c) (inside o d) = inside o d.
Proof.
  intros Hc%Nat.ltb_lt. revert Hc.
  destruct c as [[] [] [] [] [] [] [] []]; first [reflexivity|intros Hc; vm_compute in Hc; discriminate].
Qed.

Lemma byte_in_low lo hi c : 128 <= lo -> byte_in lo hi c = true -> 128 <= nat_of_ascii c.
Proof. intros Hlo [H%Nat.leb_le _]%andb_true_iff. lia. Qed.

(** The first [n] bytes are above ASCII. *)
Fixpoint highs (n : nat) (s : string) : Prop :=
  match n, s with
  | S n, String c s => 128 <= nat_of_ascii c /\ highs n s
  | _, _ => True
  end.

Lemma rune_size_highs s n : rune_size s = S n -> highs (S n) s.
Proof.
  destruct s as [|a [|b rest]]; [done|done|]. cbn [rune_size].
  destruct (byte_in 194 223 a && continuation b) eqn:E2.
  { apply andb_true_iff in E2 as [Ha Hb]. intros [= <-]. cbn.
    split_and!; [eapply byte_in_low, Ha; lia|eapply byte_in_low, Hb; lia|done]. }
  set (second := if byte_in 224 224 a then _ else _).
  assert (Hs : second = true -> 128 <= nat_of_ascii b).
  { unfold second. repeat case_match; intros Hb; eapply byte_in_low, Hb; lia. }
  destruct rest as [|c rest]; [done|].
  destruct (byte_in 224 239 a && second && continuation c) eqn:E3.
  { apply andb_true_iff in E3 as [[Ha Hb]%andb_true_iff Hc]. intros [= <-]. cbn.
    split_and!; [eapply byte_in_low, Ha; lia|by apply Hs|eapply byte_in_low, Hc; lia|done]. }
  destruct rest as [|d rest]; [done|].
  destruct (byte_in 240 244 a && second && continuation c && continuation d) eqn:E4; [|done].
  apply andb_true_iff in E4 as [[[Ha Hb]%andb_true_iff Hc]%andb_true_iff Hd]. intros [= <-]. cbn.
  split_and!; [eapply byte_in_low, Ha; lia|by apply Hs|eapply byte_in_low, Hc; lia
    |eapply byte_in_low, Hd; lia|done].
Qed.

(** What is written of a string stays inside it. *)
Definition run_ok (run : Run) (s : string) : Prop :=
  match run with Copy n => highs n s | Omit _ => True end.

Lemma scan_append_string run s o d : run_ok run s ->
  Scanner.scan (append_string run s) (inside o d) = inside o d.
Proof.
  revert run. induction s as [|c s IH]; intros run Hrun; [done|]. cbn [append_string].
  assert (Hstart : Scanner.scan
    (if decide (nat_of_ascii c < 128) then escape_byte c +:+ append_string (Copy 0) s
     else match line_separator (String c s) with
          | Some digit => escaped "u" +:+ "202" +:+ String digit (append_string (Omit 2) s)
          | None => match rune_size (String c s) with
                    | 0 => escaped "u" +:+ "fffd" +:+ append_string (Copy 0) s
                    | S n => String c (append_string (Copy n) s)
                    end
          end) (inside o d) = inside o d).
  { case_decide as Hc; [by rewrite scan_app, scan_escape_byte, IH|].
    destruct (line_separator (String c s)) as [digit|] eqn:El.
    - rewrite !scan_app. unfold line_separator in El.
      destruct s as [|b [|e s]]; [done|done|]. case_decide as Ed; [|done].
      assert (Hd : Scanner.scan (String digit "") (Scanner.mk (Scanner.InStringEscU 0) o d) = inside o d).
      { destruct Ed as (_ & _ & [He|He]); rewrite He in El; injection El as <-; reflexivity. }
      change (String digit (append_string (Omit 2) (String b (String e s))))
        with (String digit "" +:+ append_string (Omit 2) (String b (String e s)))%string.
      rewrite scan_app. change (Scanner.scan "202" _) with (Scanner.mk (Scanner.InStringEscU 0) o d).
      rewrite Hd. by apply IH.
    - destruct (rune_size (String c s)) as [|n] eqn:Er.
      + rewrite !scan_app. by apply IH.
      + apply rune_size_highs in Er as [Hhigh Hrest]. cbn [Scanner.scan].
        rewrite feed_high by done. by apply IH. }
  destruct run as [[|n]|[|n]]; [exact Hstart| |exact Hstart|by apply IH].
  destruct Hrun as [Hhigh Hrest]. cbn [Scanner.scan]. rewrite feed_high by done. by apply IH.
Qed.

(** A written string is one value, or one key. *)
Lemma scan_marshal_string s st o d :
  (forall c, c = ascii_of_nat 34 -> Scanner.feed c (Scanner.mk st o d) = inside o d) ->
  Scanner.scan (marshal_string s) (Scanner.mk st o d) = Scanner.close_value o d.
Proof.
  intros Hq. unfold marshal_string, dquote. rewrite !scan_app. cbn [Scanner.scan].
  rewrite Hq by done. by rewrite scan_append_string.
Qed.

Lemma scan_marshal_field f st d :
  (forall c, c = ascii_of_nat 34 ->
     Scanner.feed c (Scanner.mk st [Scanner.ObjectKey] d) = inside [Scanner.ObjectKey] d) ->
  Scanner.scan (marshal_field f) (Scanner.mk st [Scanner.ObjectKey] d) =
    Scanner.mk Scanner.EndValue [Scanner.ObjectValue] d.
Proof.
  intros Hq. destruct f as [[key value] omit]. unfold marshal_field.
  rewrite !scan_app, scan_marshal_string by done.
  change (Scanner.scan ":" _) with (Scanner.mk Scanner.BeginValue [Scanner.ObjectValue] d).
  by rewrite scan_marshal_string by (intros c ->; reflexivity).
Qed.

(** What is written is a valid document. *)
Lemma marshal_object_valid fields : json_Valid (marshal_object fields) = true.
Proof.
  unfold json_Valid, marshal_object. rewrite !scan_app.
  set (l := marshal_field <$> _). cbn [Scanner.scan].
  change (Scanner.feed "{" _) with
    (Scanner.mk Scanner.BeginStringOrEmpty [Scanner.ObjectKey] 1).
  assert (Hl : forall x, x ∈ l -> exists f, x = marshal_field f).
  { intros x (f & -> & _)%list_elem_of_fmap. eauto. }
  destruct l as [|x l]; [done|].
  assert (Hmore : forall l x, (forall y, y ∈ x :: l -> exists f, y = marshal_field f) ->
    forall st, (forall c, c = ascii_of_nat 34 ->
      Scanner.feed c (Scanner.mk st [Scanner.ObjectKey] 1) = inside [Scanner.ObjectKey] 1) ->
    Scanner.scan (String.concat "," (x :: l)) (Scanner.mk st [Scanner.ObjectKey] 1) =
      Scanner.mk Scanner.EndValue [Scanner.ObjectValue] 1).
  { clear. intros l. induction l as [|y l IH]; intros x Hx st Hst.
    - destruct (Hx x) as [f ->]; [left|]. by apply scan_marshal_field.
    - destruct (Hx x) as [f ->]; [left|].
      change (String.concat "," (marshal_field f :: y :: l))
        with (marshal_field f +:+ "," +:+ String.concat "," (y :: l))%string.
      rewrite !scan_app, scan_marshal_field by done. cbn [Scanner.scan].
      change (Scanner.feed "," _) with (Scanner.mk Scanner.BeginString [Scanner.ObjectKey] 1).
      apply IH; [intros z Hz; apply Hx; by right|]. by intros c ->. }
  rewrite (Hmore l x Hl); [reflexivity|]. by intros c ->.
Qed.
