(* ===== verification/Webhook.v ===== *)
(** * Webhook: the sink that posts events to callbacks

    Models [delivery/webhook]: [policy.go] (which addresses may be dialled),
    [signature.go] (signing and verifying), [payload.go] (the body), [errors.go]
    and [sink.go] (a delivery and how its end is classified).

    An address is netip's: four octets or sixteen with an IPv6 zone, as integers,
    and its predicates are netip's own.  HMAC-SHA256 is the argument [mac], the
    encoding of a body [Marshal], and the parsing of URLs and addresses, the
    requests of [net/http] and its client are the fields of [Net.t]. *)

From Stdlib Require Import Ascii.
From S2P Require Import Prelude Domain Errors Event Ident Calendar Sqlkit Route Json Float64 Relay.

(** ** Addresses *)

Inductive Addr : Type :=
| NoAddr
| Addr4 (ip : Z)
| Addr6 (ip : Z) (zone : string).
#[global] Instance Addr_eq_dec : EqDecision Addr.
Proof. solve_decision. Defined.

Definition IsValid (ip : Addr) : bool := match ip with NoAddr => false | _ => true end.
Definition Is4 (ip : Addr) : bool := match ip with Addr4 _ => true | _ => false end.
Definition Is6 (ip : Addr) : bool := match ip with Addr6 _ _ => true | _ => false end.

(** One octet, the first being the most significant of [size]. *)
Definition octet (size i : nat) (ip : Z) : Z := Z.land (Z.shiftr ip (8 * (Z.of_nat size - 1 - Z.of_nat i))) 255.
Definition v4 (i : nat) : Z -> Z := octet 4 i.
Definition v6u16 (ip : Z) : Z := Z.land (Z.shiftr ip 112) 65535.

Definition Is4In6 (ip : Addr) : bool :=
  match ip with Addr6 ip _ => bool_decide (Z.shiftr ip 32 = 65535%Z) | _ => false end.

(** [Unmap] drops the zone with the prefix. *)
Definition Unmap (ip : Addr) : Addr :=
  match ip with
  | Addr6 n _ => if Is4In6 ip then Addr4 (Z.land n 4294967295) else ip
  | _ => ip
  end.

Definition As16 (ip : Z) : list Z := (fun i => octet 16 i ip) <$> seq 0 16.
Definition AddrFrom4 (octets : list Z) : Addr :=
  Addr4 (foldl (fun acc b => Z.lor (Z.shiftl acc 8) b) 0%Z octets).

(** [net] in four octets. *)
Definition unmapped (ip : Addr) : Addr := if Is4In6 ip then Unmap ip else ip.

Definition IsUnspecified (ip : Addr) : bool := bool_decide (ip = Addr4 0) || bool_decide (ip = Addr6 0 "").
Definition IsLoopback (ip : Addr) : bool :=
  match unmapped ip with
  | Addr4 n => bool_decide (v4 0 n = 127%Z)
  | Addr6 n _ => bool_decide (n = 1%Z)
  | NoAddr => false
  end.
Definition IsLinkLocalUnicast (ip : Addr) : bool :=
  match unmapped ip with
  | Addr4 n => bool_decide (v4 0 n = 169%Z) && bool_decide (v4 1 n = 254%Z)
  | Addr6 n _ => bool_decide (Z.land (v6u16 n) 65472 = 65152%Z)
  | NoAddr => false
  end.
Definition IsMulticast (ip : Addr) : bool :=
  match unmapped ip with
  | Addr4 n => bool_decide (Z.land (v4 0 n) 240 = 224%Z)
  | Addr6 n _ => bool_decide (Z.shiftr n 120 = 255%Z)
  | NoAddr => false
  end.
Definition IsInterfaceLocalMulticast (ip : Addr) : bool :=
  match unmapped ip with
  | Addr6 n _ => bool_decide (Z.land (v6u16 n) 65295 = 65281%Z)
  | _ => false
  end.
Definition IsLinkLocalMulticast (ip : Addr) : bool :=
  match unmapped ip with
  | Addr4 n => bool_decide (v4 0 n = 224%Z) && bool_decide (v4 1 n = 0%Z) && bool_decide (v4 2 n = 0%Z)
  | Addr6 n _ => bool_decide (Z.land (v6u16 n) 65295 = 65282%Z)
  | NoAddr => false
  end.
Definition IsPrivate (ip : Addr) : bool :=
  match unmapped ip with
  | Addr4 n =>
      bool_decide (v4 0 n = 10%Z) ||
      bool_decide (v4 0 n = 172%Z) && bool_decide (Z.land (v4 1 n) 240 = 16%Z) ||
      bool_decide (v4 0 n = 192%Z) && bool_decide (v4 1 n = 168%Z)
  | Addr6 n _ => bool_decide (Z.land (octet 16 0 n) 254 = 252%Z)
  | NoAddr => false
  end.

(** [Prefix.Contains]: of one family, and never of an address with a zone. *)
Module Prefix.
Record t : Type := mk { ip : Addr; bits : Z }.
End Prefix.

Definition Contains (p : Prefix.t) (ip : Addr) : bool :=
  match Prefix.ip p, ip with
  | Addr4 n, Addr4 m => bool_decide (Z.shiftr (Z.lxor m n) (32 - Prefix.bits p) = 0%Z)
  | Addr6 n _, Addr6 m zone =>
      bool_decide (zone = "") && bool_decide (Z.shiftr (Z.lxor m n) (128 - Prefix.bits p) = 0%Z)
  | _, _ => false
  end.

(** ** The destination policy *)

Definition ipv4 (a b c d : Z) : Addr := AddrFrom4 [a; b; c; d].
Definition ipv6 (high : Z) : Addr := Addr6 (Z.shiftl high 64) "".

(** 64:ff9b::/96, 64:ff9b:1::/48 and 2002::/16 *)
Definition nat64WellKnown : Prefix.t := Prefix.mk (ipv6 0x0064ff9b00000000) 96.
Definition nat64LocalUse : Prefix.t := Prefix.mk (ipv6 0x0064ff9b00010000) 48.
Definition sixToFour : Prefix.t := Prefix.mk (ipv6 0x2002000000000000) 16.

Definition refusedPrefixes : list (Prefix.t * string) :=
  [(Prefix.mk (ipv4 0 0 0 0) 8, "this-network address (RFC 1122)");
   (Prefix.mk (ipv4 100 64 0 0) 10, "shared address space (RFC 6598)");
   (Prefix.mk (ipv4 192 0 0 0) 24, "IETF protocol assignment (RFC 6890)");
   (Prefix.mk (ipv4 198 18 0 0) 15, "benchmarking address (RFC 2544)");
   (Prefix.mk (ipv4 255 255 255 255) 32, "broadcast address")].

Definition unwrapIPv4 (ip : Addr) : Addr :=
  if Is4In6 ip then Unmap ip
  else
    match ip with
    | Addr6 n _ =>
        let octets := As16 n in
        if Contains nat64WellKnown ip || Contains nat64LocalUse ip then AddrFrom4 (slice 12 16 octets)
        else if Contains sixToFour ip then AddrFrom4 (slice 2 6 octets)
        else ip
    | _ => ip
    end.

(** The loop over [refusedPrefixes]. *)
Fixpoint refused_by (prefixes : list (Prefix.t * string)) (ip : Addr) : string :=
  match prefixes with
  | [] => ""
  | (prefix, reason) :: rest => if Contains prefix ip then reason else refused_by rest ip
  end.

Definition refusalReason (ip : Addr) : string :=
  if negb (IsValid ip) then "not a valid IP address"
  else
    let ip := unwrapIPv4 ip in
    if IsUnspecified ip then "unspecified address"
    else if IsLoopback ip then "loopback address"
    else if IsLinkLocalUnicast ip
    then "link-local address, which is where a cloud metadata service lives"
    else if IsInterfaceLocalMulticast ip || IsLinkLocalMulticast ip || IsMulticast ip
    then "multicast address"
    else if IsPrivate ip && Is4 ip then "private-range address (RFC 1918)"
    else if IsPrivate ip then "unique-local address (RFC 4193)"
    else if negb (Is4 ip) then ""
    else refused_by refusedPrefixes ip.

Module Destination.
Record t : Type := mk { Network : string; Host : string; IP : Addr; Port : Z }.
End Destination.

(** ** Errors *)

Inductive Sentinel : Type :=
| ErrConfiguration | ErrAddress | ErrDestinationRefused | ErrRedirect | ErrReferenceParameters
| ErrStatus | ErrSignatureMissing | ErrSignatureMismatch | ErrSignatureStale.
#[global] Instance Sentinel_eq_dec : EqDecision Sentinel.
Proof. solve_decision. Defined.

Definition Sentinel_text (s : Sentinel) : string :=
  match s with
  | ErrConfiguration => "webhook: invalid configuration"
  | ErrAddress => "webhook: unusable callback address"
  | ErrDestinationRefused => "webhook: destination refused by policy"
  | ErrRedirect => "webhook: redirect not followed"
  | ErrReferenceParameters => "webhook: reference parameters are not valid json"
  | ErrStatus => "webhook: unexpected response status"
  | ErrSignatureMissing => "webhook: signature or timestamp is missing"
  | ErrSignatureMismatch => "webhook: signature does not match"
  | ErrSignatureStale => "webhook: signature timestamp is outside the freshness window"
  end.

(** [Described] is [fmt.Errorf] of a sentinel and a text, and [Foreign] an error of
    other code with the sentinels it matches. *)
Inductive error : Type :=
| ConfigurationError (Detail : string)
| AddressError (Address Detail : string) (Cause : option error)
| DestinationError (Network : string) (IP : Addr) (Port : Z) (Reason : string) (Cause : option error)
| StatusError (StatusCode : Z) (Address Body : string)
| Described (sentinel : Sentinel) (detail : string)
| Wrapped (prefix : string) (inner : error)
| Foreign (text : string) (own : list Sentinel).

Section text.
Context (AddrPort_String : Addr -> Z -> string).

Fixpoint Error (e : error) : string :=
  match e with
  | ConfigurationError detail => "webhook: invalid configuration: " +:+ detail
  | AddressError address detail cause =>
      "webhook: callback address " +:+ quote address +:+ " is unusable: " +:+ detail +:+
      match cause with Some cause => ": " +:+ Error cause | None => "" end
  | DestinationError _ ip port reason _ =>
      "webhook: destination " +:+ AddrPort_String ip port +:+ " refused by policy: " +:+ reason
  | StatusError code address body =>
      "webhook: " +:+ address +:+ " answered " +:+ pretty code +:+
      (if decide (body = "") then "" else ": " +:+ body)
  | Described sentinel detail => Sentinel_text sentinel +:+ detail
  | Wrapped prefix inner => prefix +:+ Error inner
  | Foreign text _ => text
  end.
End text.

Fixpoint errors_Is (e : error) (target : Sentinel) : bool :=
  match e with
  | ConfigurationError _ => bool_decide (target = ErrConfiguration)
  | AddressError _ _ cause =>
      bool_decide (target = ErrAddress) || match cause with Some c => errors_Is c target | None => false end
  | DestinationError _ _ _ _ cause =>
      bool_decide (target = ErrDestinationRefused) ||
      match cause with Some c => errors_Is c target | None => false end
  | StatusError _ _ _ => bool_decide (target = ErrStatus)
  | Described sentinel _ => bool_decide (target = sentinel)
  | Wrapped _ inner => errors_Is inner target
  | Foreign _ own => bool_decide (target ∈ own)
  end.

Abbreviation wres := (result error).

(** ** Policies *)

Definition DestinationPolicy : Type := Destination.t -> option error.

Definition DefaultPolicy_Allow : DestinationPolicy := fun dest =>
  let reason := refusalReason (Destination.IP dest) in
  if decide (reason = "") then None
  else Some (DestinationError (Destination.Network dest) (Destination.IP dest) (Destination.Port dest) reason None).

Definition AllowLoopback : DestinationPolicy := fun dest =>
  if IsLoopback (unwrapIPv4 (Destination.IP dest)) then None else DefaultPolicy_Allow dest.

(** ** Signatures *)

Definition SignatureVersion : string := "v1".
Definition DefaultTolerance : Z := (5 * 60 * 1000000000)%Z.
Definition HeaderTimestamp : string := "Hmntsk-Timestamp".
Definition HeaderSignature : string := "Hmntsk-Signature".

(** Seconds between the zero time and the Unix epoch. *)
Definition unixToInternal : Z := 62135596800.
Definition Unix (t : Time) : Z := wrap64 (t / 1000000000 - unixToInternal).
Definition time_Unix (seconds : Z) : Time := (wrap64 (seconds + unixToInternal) * 1000000000)%Z.

(** [t.Sub(u)] and [Duration.Abs], which stop at the ends of a duration. *)
Definition Sub (t u : Time) : Z := Z.max (- 2 ^ 63) (Z.min max_int64 (t - u)).
Definition Abs (d : Z) : Z := Z.min max_int64 (Z.abs d).

Definition FormatTimestamp (timestamp : Time) : string := pretty (Unix timestamp).

Definition ParseTimestamp (value : string) : wres Time :=
  match Atoi value with
  | Some seconds => Ok (time_Unix seconds)
  | None => Err (Described ErrSignatureMissing (": " +:+ quote value +:+ " is not a unix timestamp"))
  end.

(** One hexadecimal digit, in either case. *)
Definition from_hex (c : ascii) : option Z :=
  let n := Z.of_nat (nat_of_ascii c) in
  if decide (48 <= n <= 57)%Z then Some (n - 48)%Z
  else if decide (97 <= n <= 102)%Z then Some (n - 87)%Z
  else if decide (65 <= n <= 70)%Z then Some (n - 55)%Z
  else None.

(** [hex.DecodeString] *)
Fixpoint hex_Decode (s : string) : option (list Z) :=
  match s with
  | EmptyString => Some []
  | String hi (String lo rest) =>
      h ← from_hex hi; l ← from_hex lo; bytes ← hex_Decode rest; Some (Z.lor (Z.shiftl h 4) l :: bytes)
  | String _ EmptyString => None
  end.

Definition decodeSignature (value : string) : option (list Z) :=
  encoded ← CutPrefix value (SignatureVersion +:+ "="); hex_Decode encoded.

Definition equalSignature (presented expected : string) : bool :=
  match decodeSignature presented, decodeSignature expected with
  | Some presented, Some expected => bool_decide (presented = expected)
  | _, _ => false
  end.

(** The bytes a signature covers. *)
Definition signed_material (timestamp : Time) (body : string) : string :=
  FormatTimestamp timestamp +:+ "." +:+ body.

Module Verifier.
Record t : Type := mk { secret : string; tolerance : Z; clock : nat -> Time }.
#[global] Instance eta : Eta t := fun x => mk (secret x) (tolerance x) (clock x).
End Verifier.

Inductive VerifierOption : Type :=
| WithTolerance (tolerance : Z)
| WithVerifierClock (clock : option (nat -> Time)).

Definition apply_verifier_option (opt : VerifierOption) (v : Verifier.t) : Verifier.t :=
  match opt with
  | WithTolerance tolerance => v <| Verifier.tolerance := tolerance |>
  | WithVerifierClock (Some clock) => v <| Verifier.clock := clock |>
  | WithVerifierClock None => v
  end.

Definition NewVerifier (SystemClock : nat -> Time) (secret : string) (opts : list VerifierOption)
  : wres Verifier.t :=
  let verifier := for_each apply_verifier_option opts (Verifier.mk secret DefaultTolerance SystemClock) in
  if decide (Verifier.secret verifier = "")
  then Err (ConfigurationError "a signing secret is required to verify a delivery")
  else if decide (Verifier.tolerance verifier <= 0)%Z
  then Err (ConfigurationError "the freshness window must be positive")
  else Ok verifier.

Definition Header : Type := gmap string string.
Definition Get (header : Header) (name : string) : string := default "" (header !! name).

Section signing.
Context (mac : string -> string -> list Z).

Definition Sign (secret : string) (timestamp : Time) (body : string) : string :=
  SignatureVersion +:+ "=" +:+ hex_Encode (mac secret (signed_material timestamp body)).

(** The text of a stale signature, which shows two durations. *)
Context (stale_text : Z -> Z -> string).

Definition Verify (v : Verifier.t) (tick : nat) (header : Header) (body : string) : wres unit :=
  let presented := Get header HeaderSignature in
  if decide (presented = "")
  then Err (Described ErrSignatureMissing (": no " +:+ HeaderSignature +:+ " header"))
  else
    let raw := Get header HeaderTimestamp in
    if decide (raw = "")
    then Err (Described ErrSignatureMissing (": no " +:+ HeaderTimestamp +:+ " header"))
    else
      try! timestamp := ParseTimestamp raw in
      if negb (equalSignature presented (Sign (Verifier.secret v) timestamp body))
      then Err (Described ErrSignatureMismatch "")
      else
        let skew := Abs (Sub (Verifier.clock v tick) timestamp) in
        if decide (Verifier.tolerance v < skew)%Z
        then Err (Described ErrSignatureStale (stale_text skew (Verifier.tolerance v)))
        else Ok tt.
End signing.

(** ** Bodies *)

Module PayloadEvent.
Record t : Type := mk {
  ID : string;
  Type_ : EventType;
  TaskID : string;
  TaskType : string;
  Status : Status;
  Version : Z;
  Actor : string;
  Assignee : string;
  Candidates : CandidatePool.t;
  PreviousAssignee : string;
  CreatedBy : string;
  OccurredAt : Time;
  Reason : string;
  Output : RawMessage
}.
End PayloadEvent.

Module Payload.
Record t : Type := mk {
  DeliveryID : string;
  DeliveredAt : Time;
  Event : PayloadEvent.t;
  Correlation : CorrelationData.t;
  ReferenceParameters : RawMessage
}.
#[global] Instance eta : Eta t := fun x =>
  mk (DeliveryID x) (DeliveredAt x) (Event x) (Correlation x) (ReferenceParameters x).
End Payload.

Definition newPayload (event : Event.t) (deliveryID : string) (deliveredAt : Time) : Payload.t :=
  Payload.mk deliveryID deliveredAt
    (PayloadEvent.mk (Event.ID event) (Event.Type_ event) (Event.TaskID event) (Event.TaskType event)
       (Event.Status event) (Event.Version event) (Event.Actor event) (Event.Assignee event)
       (Event.Candidates event) (Event.PreviousAssignee event) (Event.CreatedBy event)
       (Event.OccurredAt event) (Event.Reason event) (Event.Output event))
    (Event.Correlation event)
    (Event.Callback event ≫= CallbackTarget.ReferenceParameters).

(** The last byte dropped. *)
Fixpoint but_last (s : string) : string :=
  match s with
  | EmptyString => ""
  | String c EmptyString => ""
  | String c rest => String c (but_last rest)
  end.

Definition MarshalJSON (Marshal : Payload.t -> result string string) (p : Payload.t) : wres string :=
  let parameters := default "" (Payload.ReferenceParameters p) in
  match Marshal (p <| Payload.ReferenceParameters := None |>) with
  | Err text => Err (Foreign ("webhook: encode delivery body: " +:+ text) [])
  | Ok encoded =>
      if decide (parameters = "") then Ok encoded
      else if negb (json_Valid parameters)
      then Err (Described ErrReferenceParameters ": they cannot be echoed inside a json body")
      else
        Ok (but_last encoded +:+ (if decide (2 < String.length encoded) then "," else "") +:+
            dquote +:+ "referenceParameters" +:+ dquote +:+ ":" +:+ parameters +:+ "}")
  end.

(** ** The sink *)

Module URL.
Record t : Type := mk { Scheme : string; Host : string; Hostname : string; String_ : string; Redacted : string }.
End URL.

(** A request, with the hostname its context carries to the dialler. *)
Module HttpRequest.
Record t : Type := mk { URL : string; Hostname : string; Header : gmap string string; Body : string }.
End HttpRequest.

(** What the sink uses of [net/url], [net/netip] and [net/http]: a client dials
    under the control function it is given. *)
Module Net.
Record t : Type := mk {
  url_Parse : string -> result string URL.t;
  NewRequest : string -> option string;
  ParseAddrPort : string -> option (Addr * Z);
  Do : (string -> string -> option error) -> Z -> HttpRequest.t -> result error (Z * string)
}.
End Net.

Definition DefaultName : string := "webhook".
Definition DefaultTimeout : Z := (10 * 1000000000)%Z.
Definition UserAgent : string := "hmntsk-webhook/1".
Definition ContentType : string := "application/json; charset=utf-8".
Definition HeaderEventID : string := "Hmntsk-Event-Id".
Definition HeaderDeliveryID : string := "Hmntsk-Delivery-Id".
Definition HeaderEventType : string := "Hmntsk-Event-Type".
Definition HeaderTaskID : string := "Hmntsk-Task-Id".
Definition HeaderTaskType : string := "Hmntsk-Task-Type".
Definition HeaderOwnerType : string := "Hmntsk-Correlation-Owner-Type".
Definition HeaderOwnerRef : string := "Hmntsk-Correlation-Owner-Ref".
Definition HeaderActivityKey : string := "Hmntsk-Correlation-Activity-Key".
Definition maxResponseSnippet : nat := 256.

Module Sink.
Record t : Type := mk {
  name : string;
  secret : string;
  timeout : Z;
  policy : DestinationPolicy;
  clock : nat -> Time
}.
#[global] Instance eta : Eta t := fun x => mk (name x) (secret x) (timeout x) (policy x) (clock x).
End Sink.

Inductive Option : Type :=
| WithName (name : string)
| WithTimeout (timeout : Z)
| WithDestinationPolicy (policy : option DestinationPolicy)
| WithClock (clock : option (nat -> Time)).

Definition apply_option (opt : Option) (s : Sink.t) : Sink.t :=
  match opt with
  | WithName name => s <| Sink.name := name |>
  | WithTimeout timeout => s <| Sink.timeout := timeout |>
  | WithDestinationPolicy (Some policy) => s <| Sink.policy := policy |>
  | WithClock (Some clock) => s <| Sink.clock := clock |>
  | WithDestinationPolicy None | WithClock None => s
  end.

Definition New (SystemClock : nat -> Time) (secret : string) (opts : list Option) : wres Sink.t :=
  let sink := for_each apply_option opts
    (Sink.mk DefaultName secret DefaultTimeout DefaultPolicy_Allow SystemClock) in
  if decide (Sink.secret sink = "")
  then Err (ConfigurationError "a signing secret is required; deliveries are always signed")
  else
    let sink := sink <| Sink.name := TrimSpace (Sink.name sink) |> in
    if decide (Sink.name sink = "")
    then Err (ConfigurationError "a sink name is required, and is written to the database")
    else if decide (Sink.timeout sink <= 0)%Z
    then Err (ConfigurationError "the per-attempt timeout must be positive")
    else Ok sink.

(** A header value without control characters; the tab is allowed. *)
Definition header_byte (c : ascii) : bool :=
  let n := nat_of_ascii c in bool_decide (n = 9) || negb (bool_decide (n < 32) || bool_decide (n = 127)).
Fixpoint validHeaderValue (value : string) : bool :=
  match value with
  | EmptyString => true
  | String c rest => header_byte c && validHeaderValue rest
  end.

Definition setHeader (name value : string) (header : Header) : Header :=
  if bool_decide (value = "") || negb (validHeaderValue value) then header else <[ name := value ]> header.

Definition retryableStatus (status : Z) : bool :=
  if decide (status = 408 \/ status = 429)%Z then true
  else bool_decide (status < 400)%Z || bool_decide (500 <= status)%Z.

(** Control characters become spaces; white space at either end is dropped before
    and after. *)
Fixpoint spaced (s : string) : string :=
  match s with
  | EmptyString => ""
  | String c rest =>
      let n := nat_of_ascii c in
      String (if bool_decide (n < 32) || bool_decide (n = 127) then " "%char else c) (spaced rest)
  end.
Definition snippet (body : string) : string :=
  TrimSpace (spaced (TrimSpace (String.substring 0 maxResponseSnippet body))).

Section sink.
Context (AddrPort_String : Addr -> Z -> string).
Context (mac : string -> string -> list Z).
Context (Marshal : Payload.t -> result string string).
Context (net : Net.t) (s : Sink.t).

(** The control function of the dialler, for a request to [host]. *)
Definition allow (host network address : string) : option error :=
  match Net.ParseAddrPort net address with
  | None =>
      Some (DestinationError network NoAddr 0
              ("the dialler was given " +:+ quote address +:+ ", which is not an address and port") None)
  | Some (ip, port) =>
      match Sink.policy s (Destination.mk network host ip port) with
      | None => None
      | Some err =>
          if errors_Is err ErrDestinationRefused then Some err
          else Some (DestinationError network ip port (Error AddrPort_String err) (Some err))
      end
  end.

(** An outcome carries its error as an error of another package. *)
Definition as_error (e : error) : Errors.error := ExternalError (Error AddrPort_String e) [].
Definition Retryable (e : error) : Outcome.t := Outcome.Retryable (as_error e).
Definition Permanent (e : error) : Outcome.t := Outcome.Permanent (as_error e).

Definition parseAddress (address : string) : wres URL.t :=
  match Net.url_Parse net address with
  | Err text => Err (AddressError address "it is not a URL" (Some (Foreign text [])))
  | Ok target =>
      if decide (URL.Scheme target <> "http" /\ URL.Scheme target <> "https")
      then Err (AddressError address ("this sink speaks http and https, not " +:+ quote (URL.Scheme target)) None)
      else if decide (URL.Host target = "") then Err (AddressError address "it names no host" None)
      else Ok target
  end.

Definition headers (event : Event.t) (deliveryID : string) (now : Time) (body : string) : Header :=
  let h := <[ "User-Agent" := UserAgent ]> (<[ "Accept" := "application/json" ]>
             (<[ "Content-Type" := ContentType ]> ∅)) in
  let h := setHeader HeaderEventID (Event.ID event) h in
  let h := setHeader HeaderDeliveryID deliveryID h in
  let h := setHeader HeaderEventType (EventType_String (Event.Type_ event)) h in
  let h := setHeader HeaderTaskID (Event.TaskID event) h in
  let h := setHeader HeaderTaskType (Event.TaskType event) h in
  let h := setHeader HeaderOwnerType (CorrelationData.OwnerType (Event.Correlation event)) h in
  let h := setHeader HeaderOwnerRef (CorrelationData.OwnerRef (Event.Correlation event)) h in
  let h := setHeader HeaderActivityKey (CorrelationData.ActivityKey (Event.Correlation event)) h in
  let h := <[ HeaderTimestamp := FormatTimestamp now ]> h in
  <[ HeaderSignature := Sign mac (Sink.secret s) now body ]> h.

Definition newRequest (target : URL.t) (event : Event.t) (deliveryID : string) (now : Time) (body : string)
  : wres HttpRequest.t :=
  match Net.NewRequest net (URL.String_ target) with
  | Some text => Err (AddressError (URL.Redacted target) "no request can be made to it" (Some (Foreign text [])))
  | None =>
      Ok (HttpRequest.mk (URL.String_ target) (URL.Hostname target) (headers event deliveryID now body) body)
  end.

Definition classifyError (target : URL.t) (err : error) : Outcome.t :=
  let failure := Wrapped ("webhook: post to " +:+ URL.Redacted target +:+ ": ") err in
  if errors_Is err ErrDestinationRefused || errors_Is err ErrRedirect then Permanent failure
  else Retryable failure.

Definition send (request : HttpRequest.t) (target : URL.t) : Outcome.t :=
  match Net.Do net (allow (HttpRequest.Hostname request)) (Sink.timeout s) request with
  | Err err => classifyError target err
  | Ok (status, body) =>
      if decide (200 <= status < 300)%Z then Outcome.Delivered
      else
        let failure := StatusError status (URL.Redacted target) (snippet body) in
        if retryableStatus status then Retryable failure else Permanent failure
  end.

(** What a delivery does before it sends: nothing to send, a failure that no
    attempt changes, or a request. *)
Definition prepare (tick : nat) (attempt : Attempt.t) : option (wres (URL.t * HttpRequest.t)) :=
  let event := Attempt.Event attempt in
  match Event.Callback event with
  | None => None
  | Some callback =>
      if decide (CallbackTarget.Address callback = "") then None
      else Some (
        try! target := parseAddress (CallbackTarget.Address callback) in
        let now := Sink.clock s tick in
        try! body := MarshalJSON Marshal (newPayload event (Attempt.DeliveryID attempt) now) in
        try! request := newRequest target event (Attempt.DeliveryID attempt) now body in
        Ok (target, request))
  end.

Definition Deliver (tick : nat) (attempt : Attempt.t) : Outcome.t :=
  match prepare tick attempt with
  | None => Outcome.Delivered
  | Some (Err err) => Permanent err
  | Some (Ok (target, request)) => send request target
  end.
End sink.
