(* ===== verification/WebhookFacts.v ===== *)
(** * WebhookFacts: what the webhook sink promises

    Which addresses the default policy lets through, in every notation; that a
    receiver with the same secret accepts exactly what was signed, while it is
    fresh; and how every end of a delivery is classified. *)

From Stdlib Require Import Ascii.
From S2P Require Import Prelude Domain Errors Event Ident Calendar Sqlkit Route Json Float64 Relay Webhook.

(** ** Octets and prefixes *)

#[local] Open Scope Z_scope.

(** A check of every value below a bound is a proof for all of them. *)
Lemma checked (p : Z -> bool) n : forallb p (seqZ 0 n) = true -> forall x, 0 <= x < n -> p x = true.
Proof.
  intros H x Hx. rewrite forallb_forall in H. apply H, list_elem_of_In, elem_of_seqZ. lia.
Qed.

Lemma octet_div size i n :
  octet size i n = (n / 2 ^ (8 * (Z.of_nat size - 1 - Z.of_nat i))) mod 256 \/
  8 * (Z.of_nat size - 1 - Z.of_nat i) < 0.
Proof.
  destruct (decide (8 * (Z.of_nat size - 1 - Z.of_nat i) < 0)); [by right|left].
  unfold octet. change 255 with (Z.ones 8). rewrite Z.land_ones, Z.shiftr_div_pow2 by lia. done.
Qed.

Lemma lor_octet acc b : 0 <= b < 256 -> Z.lor (Z.shiftl acc 8) b = acc * 256 + b.
Proof.
  intros Hb. rewrite <- Z.lxor_lor, <- Z.add_nocarry_lxor; rewrite ?Z.shiftl_mul_pow2 by lia; [done|..];
    apply Z.bits_inj'; intros k Hk; rewrite Z.land_spec, Z.bits_0.
  all: destruct (decide (k < 8)); [rewrite Z.mul_pow2_bits_low by lia; done|].
  all: rewrite andb_comm; replace (Z.testbit b k) with false; [done|].
  all: symmetry; destruct (decide (b = 0)) as [->|]; [apply Z.bits_0|].
  all: apply Z.bits_above_log2; [lia|]; apply Z.log2_lt_pow2; [lia|].
  all: apply (Z.lt_le_trans _ (2 ^ 8)); [lia|]; apply Z.pow_le_mono_r; lia.
Qed.

Lemma AddrFrom4_sum a b c d :
  0 <= a < 256 -> 0 <= b < 256 -> 0 <= c < 256 -> 0 <= d < 256 ->
  AddrFrom4 [a; b; c; d] = Addr4 (((a * 256 + b) * 256 + c) * 256 + d).
Proof. intros. unfold AddrFrom4. cbn [foldl]. by rewrite !lor_octet by lia. Qed.

Lemma same_prefix m n k : 0 <= k -> Z.shiftr (Z.lxor m n) k = 0 <-> m / 2 ^ k = n / 2 ^ k.
Proof. intros Hk. by rewrite Z.shiftr_lxor, Z.lxor_eq_0_iff, !Z.shiftr_div_pow2. Qed.

(** ** IPv4 addresses in IPv6 clothing *)

(** The notations of an IPv4 address: itself, IPv4-mapped, NAT64 under either
    prefix, and 6to4. *)
Inductive notation (v : Z) : Addr -> Prop :=
| plain_ipv4 : notation v (Addr4 v)
| mapped_ipv4 zone : notation v (Addr6 (65535 * 2 ^ 32 + v) zone)
| nat64_ipv4 : notation v (Addr6 (0x64ff9b * 2 ^ 96 + v) "")
| nat64_local_ipv4 middle : 0 <= middle < 2 ^ 48 ->
    notation v (Addr6 (0x64ff9b0001 * 2 ^ 80 + middle * 2 ^ 32 + v) "")
| sixToFour_ipv4 rest : 0 <= rest < 2 ^ 80 -> notation v (Addr6 (0x2002 * 2 ^ 112 + v * 2 ^ 80 + rest) "").

Lemma As16_slice (n : Z) :
  AddrFrom4 (slice 12 16 (As16 n)) = Addr4 (n mod 2 ^ 32) /\
  AddrFrom4 (slice 2 6 (As16 n)) = Addr4 (n / 2 ^ 80 mod 2 ^ 32).
Proof.
  assert (Hword : forall k, 0 <= k ->
    AddrFrom4 [n / 2 ^ (k + 24) mod 256; n / 2 ^ (k + 16) mod 256; n / 2 ^ (k + 8) mod 256; n / 2 ^ k mod 256] =
    Addr4 (n / 2 ^ k mod 2 ^ 32)).
  { intros k Hk. rewrite !Z.pow_add_r, <- !Z.div_div by lia. generalize (n / 2 ^ k). intros m.
    rewrite AddrFrom4_sum by (apply Z.mod_pos_bound; lia). f_equal. clear. dlia. }
  assert (Hoct : forall i, (i < 16)%nat -> octet 16 i n = n / 2 ^ (8 * (15 - Z.of_nat i)) mod 256).
  { intros i Hi. destruct (octet_div 16 i n) as [->|]; [do 3 f_equal; lia|lia]. }
  split.
  - pose proof (Hword 0 ltac:(lia)) as H. rewrite Z.pow_0_r, Z.div_1_r in H. rewrite <- H.
    unfold slice, As16. cbn [seq fmap list_fmap drop take Nat.sub]. rewrite !Hoct by lia.
    change (2 ^ (8 * (15 - Z.of_nat 15))) with 1. by rewrite Z.div_1_r.
  - rewrite <- (Hword 80) by lia.
    unfold slice, As16. cbn [seq fmap list_fmap drop take Nat.sub]. by rewrite !Hoct by lia.
Qed.

Lemma contains6 high bits n :
  0 <= bits <= 128 ->
  Contains (Prefix.mk (ipv6 high) bits) (Addr6 n "") = bool_decide (n / 2 ^ (128 - bits) = (high * 2 ^ 64) / 2 ^ (128 - bits)).
Proof.
  intros Hb. unfold Contains, ipv6. cbn [Prefix.ip Prefix.bits]. rewrite bool_decide_true by done. cbn [andb].
  apply bool_decide_ext. rewrite same_prefix by lia. by rewrite Z.shiftl_mul_pow2.
Qed.

Lemma contains6_zone p n zone : zone <> "" -> Contains p (Addr6 n zone) = false.
Proof. intros Hz. unfold Contains. destruct (Prefix.ip p); [done..|]. by rewrite bool_decide_false. Qed.

Lemma contains4 a b c d bits m :
  0 <= a < 256 -> 0 <= b < 256 -> 0 <= c < 256 -> 0 <= d < 256 -> 0 <= bits <= 32 ->
  Contains (Prefix.mk (ipv4 a b c d) bits) (Addr4 m) =
  bool_decide (m / 2 ^ (32 - bits) = (((a * 256 + b) * 256 + c) * 256 + d) / 2 ^ (32 - bits)).
Proof.
  intros. unfold Contains, ipv4. cbn [Prefix.ip Prefix.bits]. rewrite AddrFrom4_sum by lia.
  apply bool_decide_ext. apply same_prefix. lia.
Qed.

(** Whatever the notation, the policy judges the IPv4 address. *)
Lemma unwrap_notation v a : 0 <= v < 2 ^ 32 -> notation v a -> unwrapIPv4 a = Addr4 v.
Proof.
  intros Hv Hn. destruct Hn as [|zone| |middle Hm|rest Hr]; unfold unwrapIPv4, Is4In6, Unmap; [done|..].
  - assert (Hs : Z.shiftr (65535 * 2 ^ 32 + v) 32 = 65535).
    { rewrite Z.shiftr_div_pow2 by lia. clear -Hv. dlia. }
    unfold Is4In6. rewrite bool_decide_true by exact Hs. f_equal.
    change 4294967295 with (Z.ones 32). rewrite Z.land_ones by lia. clear -Hv. dlia.
  - rewrite bool_decide_false; [|rewrite Z.shiftr_div_pow2 by lia; clear -Hv; dlia].
    unfold nat64WellKnown. rewrite contains6 by lia.
    rewrite bool_decide_true by (clear -Hv; dlia). cbn [orb].
    rewrite (proj1 (As16_slice _)). f_equal. clear -Hv. dlia.
  - rewrite bool_decide_false; [|rewrite Z.shiftr_div_pow2 by lia; clear -Hv Hm; dlia].
    unfold nat64WellKnown, nat64LocalUse. rewrite !contains6 by lia.
    rewrite orb_comm, bool_decide_true by (clear -Hv Hm; dlia). cbn [orb].
    rewrite (proj1 (As16_slice _)). f_equal. clear -Hv Hm. dlia.
  - rewrite bool_decide_false; [|rewrite Z.shiftr_div_pow2 by lia; clear -Hv Hr; dlia].
    unfold nat64WellKnown, nat64LocalUse, sixToFour. rewrite !contains6 by lia.
    rewrite !bool_decide_false by (clear -Hv Hr; dlia). cbn [orb].
    rewrite bool_decide_true by (clear -Hv Hr; dlia).
    rewrite (proj2 (As16_slice _)). f_equal. clear -Hv Hr. dlia.
Qed.

(** ** The ranges the policy refuses *)

(** The reason of the first range that holds an address, and none outside. *)
Fixpoint reason_in (ranges : list (Z * Z * string)) (n : Z) : string :=
  match ranges with
  | [] => ""
  | (first, final, reason) :: rest => if bool_decide (first <= n <= final) then reason else reason_in rest n
  end.

Definition dotted (a b c d : Z) : Z := ((a * 256 + b) * 256 + c) * 256 + d.

Definition ipv4_ranges : list (Z * Z * string) :=
  [(0, 0, "unspecified address");
   (dotted 127 0 0 0, dotted 127 255 255 255, "loopback address");
   (dotted 169 254 0 0, dotted 169 254 255 255, "link-local address, which is where a cloud metadata service lives");
   (dotted 224 0 0 0, dotted 239 255 255 255, "multicast address");
   (dotted 10 0 0 0, dotted 10 255 255 255, "private-range address (RFC 1918)");
   (dotted 172 16 0 0, dotted 172 31 255 255, "private-range address (RFC 1918)");
   (dotted 192 168 0 0, dotted 192 168 255 255, "private-range address (RFC 1918)");
   (0, dotted 0 255 255 255, "this-network address (RFC 1122)");
   (dotted 100 64 0 0, dotted 100 127 255 255, "shared address space (RFC 6598)");
   (dotted 192 0 0 0, dotted 192 0 0 255, "IETF protocol assignment (RFC 6890)");
   (dotted 198 18 0 0, dotted 198 19 255 255, "benchmarking address (RFC 2544)");
   (dotted 255 255 255 255, dotted 255 255 255 255, "broadcast address")].

Definition ipv6_ranges : list (Z * Z * string) :=
  [(0, 0, "unspecified address");
   (1, 1, "loopback address");
   (0xfe80 * 2 ^ 112, 0xfec0 * 2 ^ 112 - 1, "link-local address, which is where a cloud metadata service lives");
   (0xff * 2 ^ 120, 2 ^ 128 - 1, "multicast address");
   (0xfc * 2 ^ 120, 0xfe * 2 ^ 120 - 1, "unique-local address (RFC 4193)")].

Lemma mask_240 b : 0 <= b < 256 -> Z.land b 240 = b / 16 * 16.
Proof.
  intros Hb. apply Z.eqb_eq.
  exact (checked (fun b => Z.land b 240 =? b / 16 * 16) 256 ltac:(vm_compute; reflexivity) b Hb).
Qed.

Lemma v4_first n : 0 <= n < 2 ^ 32 -> v4 0 n = n / 2 ^ 24.
Proof. intros Hn. unfold v4. destruct (octet_div 4 0 n) as [->|]; [|lia]. cbn. clear -Hn. dlia. Qed.
Lemma v4_second n : v4 1 n = n / 2 ^ 16 mod 256.
Proof. unfold v4. by destruct (octet_div 4 1 n) as [->|]; [|lia]. Qed.
Lemma v4_third n : v4 2 n = n / 2 ^ 8 mod 256.
Proof. unfold v4. by destruct (octet_div 4 2 n) as [->|]; [|lia]. Qed.

(** A test of octets is a test of the whole address. *)
Ltac interval H := rewrite <- ?bool_decide_and, <- ?bool_decide_or; apply bool_decide_ext; clear -H; dlia.

Lemma if_same {A} (b1 b2 : bool) (x y1 y2 : A) :
  b1 = b2 -> y1 = y2 -> (if b1 then x else y1) = (if b2 then x else y2).
Proof. by intros -> ->. Qed.

Lemma if_or {A} (b1 b2 : bool) (x y : A) : (if b1 || b2 then x else y) = if b1 then x else if b2 then x else y.
Proof. by destruct b1. Qed.

Lemma if_again {A} (b : bool) (x y z : A) : (if b then x else if b then y else z) = if b then x else z.
Proof. by destruct b. Qed.

Lemma ipv4_reason v : 0 <= v < 2 ^ 32 -> refusalReason (Addr4 v) = reason_in ipv4_ranges v.
Proof.
  intros Hv. unfold refusalReason. cbn [IsValid negb]. change (unwrapIPv4 (Addr4 v)) with (Addr4 v). cbv zeta.
  unfold IsUnspecified, IsLoopback, IsLinkLocalUnicast, IsInterfaceLocalMulticast, IsLinkLocalMulticast,
    IsMulticast, IsPrivate, unmapped. cbn [Is4In6 Is4 negb andb orb].
  replace (bool_decide (Addr4 v = Addr6 0 "")) with false by (symmetry; by apply bool_decide_false).
  rewrite orb_false_r, andb_true_r.
  unfold refusedPrefixes, refused_by. rewrite !contains4 by lia.
  rewrite v4_first, v4_second, v4_third by exact Hv.
  rewrite !mask_240 by (clear -Hv; dlia).
  cbn [reason_in ipv4_ranges]. unfold dotted.
  apply if_same; [apply bool_decide_ext; split; [intros [= ->]; lia|intros ?; f_equal; lia]|].
  apply if_same; [interval Hv|]. apply if_same; [interval Hv|]. apply if_same; [interval Hv|].
  rewrite if_again, !if_or. do 8 (apply if_same; [interval Hv|]). done.
Qed.

(** *** IPv6 addresses of their own *)

Lemma v6u16_div n : 0 <= n < 2 ^ 128 -> v6u16 n = n / 2 ^ 112.
Proof.
  intros Hn. unfold v6u16. change 65535 with (Z.ones 16). rewrite Z.land_ones, Z.shiftr_div_pow2 by lia.
  clear -Hn. dlia.
Qed.

Lemma mask_group u : 0 <= u < 65536 ->
  Z.land u 65472 = u / 64 * 64 /\ (Z.land u 65295 = 65281 -> u / 256 = 255) /\ (Z.land u 65295 = 65282 -> u / 256 = 255).
Proof.
  intros Hu.
  assert (Hhigh : Z.land u 65295 / 256 = u / 256).
  { change 256 with (2 ^ 8). rewrite <- !Z.shiftr_div_pow2, Z.shiftr_land by lia.
    change (Z.shiftr 65295 8) with (Z.ones 8). rewrite Z.land_ones, Z.shiftr_div_pow2 by lia. clear -Hu. dlia. }
  split; [|split; intros H; by rewrite <- Hhigh, H].
  change (u / 64 * 64) with (u / 2 ^ 6 * 2 ^ 6).
  rewrite <- Z.shiftr_div_pow2, <- Z.shiftl_mul_pow2, <- Z.ldiff_ones_r by lia.
  rewrite <- (Z.mod_small u (2 ^ 16)) at 2 by lia. rewrite <- Z.land_ones by lia.
  rewrite Z.ldiff_land, <- Z.land_assoc. f_equal.
Qed.

Lemma mask_254 b : 0 <= b < 256 -> Z.land b 254 = b / 2 * 2.
Proof.
  intros Hb. apply Z.eqb_eq.
  exact (checked (fun b => Z.land b 254 =? b / 2 * 2) 256 ltac:(vm_compute; reflexivity) b Hb).
Qed.

(** Addresses that stand for an IPv4 address, read without their zone. *)
Definition embeds (n : Z) : Prop :=
  n / 2 ^ 32 = 65535 \/ n / 2 ^ 32 = 0x64ff9b * 2 ^ 64 \/ n / 2 ^ 80 = 0x64ff9b0001 \/ n / 2 ^ 112 = 0x2002.

(** The reason for an IPv6 address that is judged as one. *)
Lemma ipv6_reason n zone : 0 <= n < 2 ^ 128 -> n / 2 ^ 32 <> 65535 -> zone <> "" \/ ~ embeds n ->
  refusalReason (Addr6 n zone) =
  if decide (n = 0 /\ zone <> "") then "" else reason_in ipv6_ranges n.
Proof.
  intros Hn Hm He.
  assert (H46 : forall z, Is4In6 (Addr6 n z) = false).
  { intros z. unfold Is4In6. apply bool_decide_false. by rewrite Z.shiftr_div_pow2. }
  assert (Hu : unwrapIPv4 (Addr6 n zone) = Addr6 n zone).
  { unfold unwrapIPv4. rewrite H46. destruct (decide (zone = "")) as [->|Hz]; [|by rewrite !contains6_zone].
    destruct He as [|He]; [done|]. unfold embeds in He.
    unfold nat64WellKnown, nat64LocalUse, sixToFour. rewrite !contains6 by lia.
    rewrite !bool_decide_false; [done|clear -He; dlia..]. }
  unfold refusalReason. cbn [IsValid negb]. rewrite Hu. cbv zeta.
  unfold IsUnspecified, IsLoopback, IsLinkLocalUnicast, IsInterfaceLocalMulticast, IsLinkLocalMulticast,
    IsMulticast, IsPrivate, unmapped. rewrite H46. cbn [Is4 negb andb orb].
  rewrite v6u16_div, Z.shiftr_div_pow2 by lia.
  assert (Hu16 : 0 <= n / 2 ^ 112 < 65536) by (clear -Hn; dlia).
  destruct (mask_group _ Hu16) as (-> & H1 & H2).
  rewrite andb_false_r. replace (octet 16 0 n) with (n / 2 ^ 120).
  2: { destruct (octet_div 16 0 n) as [->|]; [|lia]. cbn. clear -Hn. dlia. }
  rewrite mask_254 by (clear -Hn; dlia).
  replace (bool_decide (Z.land (n / 2 ^ 112) 65295 = 65281) || bool_decide (Z.land (n / 2 ^ 112) 65295 = 65282) ||
    bool_decide (n / 2 ^ 120 = 255)) with (bool_decide (n / 2 ^ 120 = 255)).
  2: { rewrite <- !bool_decide_or. apply bool_decide_ext. clear -H1 H2 Hn.
       assert (Hd : n / 2 ^ 112 / 256 = n / 2 ^ 120) by (rewrite Z.div_div by lia; done). rewrite Hd in H1, H2. tauto. }
  rewrite (bool_decide_false (Addr6 n zone = Addr4 0)) by done. cbn [orb].
  case_decide as Hz.
  - destruct Hz as [-> Hz]. rewrite bool_decide_false by congruence. done.
  - cbn [reason_in ipv6_ranges].
    apply if_same.
    { apply bool_decide_ext. split; [intros [= -> ->]; lia|]. intros H0. assert (n = 0) as -> by lia.
      f_equal. destruct (decide (zone = "")); [done|]. by destruct Hz. }
    do 4 (apply if_same; [interval Hn|]). done.
Qed.

Lemma embeds_notation n : 0 <= n < 2 ^ 128 -> embeds n -> exists v, 0 <= v < 2 ^ 32 /\ notation v (Addr6 n "").
Proof.
  intros Hn [H|[H|[H|H]]].
  - exists (n mod 2 ^ 32). split; [apply Z.mod_pos_bound; lia|].
    replace n with (65535 * 2 ^ 32 + n mod 2 ^ 32) at 2 by (clear -H; dlia). constructor.
  - exists (n mod 2 ^ 32). split; [apply Z.mod_pos_bound; lia|].
    replace n with (0x64ff9b * 2 ^ 96 + n mod 2 ^ 32) at 2 by (clear -H; dlia). constructor.
  - exists (n mod 2 ^ 32). split; [apply Z.mod_pos_bound; lia|].
    replace n with (0x64ff9b0001 * 2 ^ 80 + (n / 2 ^ 32 mod 2 ^ 48) * 2 ^ 32 + n mod 2 ^ 32) at 2
      by (clear -H; dlia).
    constructor. apply Z.mod_pos_bound. lia.
  - exists (n / 2 ^ 80 mod 2 ^ 32). split; [apply Z.mod_pos_bound; lia|].
    replace n with (0x2002 * 2 ^ 112 + (n / 2 ^ 80 mod 2 ^ 32) * 2 ^ 80 + n mod 2 ^ 80) at 2 by (clear -H; dlia).
    constructor. apply Z.mod_pos_bound. lia.
Qed.

(** C38: The default policy refuses exactly the ranges it names.  An IPv4 address is
    judged as itself in each of its notations, IPv4-mapped, NAT64 under either
    prefix and 6to4; any other IPv6 address by the IPv6 ranges.  The policy that
    allows loopback allows that besides, and nothing more.  An address with a zone
    escapes all but the mapped notation, and the unspecified address with a zone is
    not refused either: for every IPv4 address there is a NAT64 address, with a
    zone, that the policy lets through. *)
Theorem default_policy_ranges :
  (forall v a dest, 0 <= v < 2 ^ 32 -> notation v a -> Destination.IP dest = a ->
     refusalReason a = reason_in ipv4_ranges v /\
     (DefaultPolicy_Allow dest = None <-> reason_in ipv4_ranges v = "") /\
     (AllowLoopback dest = None <->
        dotted 127 0 0 0 <= v <= dotted 127 255 255 255 \/ reason_in ipv4_ranges v = "")) /\
  (forall n zone, 0 <= n < 2 ^ 128 -> (forall v, 0 <= v < 2 ^ 32 -> ~ notation v (Addr6 n zone)) ->
     refusalReason (Addr6 n zone) =
     if decide (n = 0 /\ zone <> "") then "" else reason_in ipv6_ranges n) /\
  (forall v zone, 0 <= v < 2 ^ 32 -> zone <> "" -> refusalReason (Addr6 (0x64ff9b * 2 ^ 96 + v) zone) = "").
Proof.
  split; [|split].
  - intros v a dest Hv Ha Hd. pose proof (unwrap_notation v a Hv Ha) as Hu.
    assert (Hr : refusalReason a = reason_in ipv4_ranges v).
    { rewrite <- (ipv4_reason v Hv). unfold refusalReason. rewrite Hu.
      replace (IsValid a) with true by (by destruct Ha). done. }
    assert (Hallow : DefaultPolicy_Allow dest = None <-> reason_in ipv4_ranges v = "").
    { unfold DefaultPolicy_Allow. rewrite Hd, Hr. cbv zeta. by case_decide. }
    split; [done|]. split; [done|]. unfold AllowLoopback. rewrite Hd, Hu.
    replace (IsLoopback (Addr4 v)) with (bool_decide (dotted 127 0 0 0 <= v <= dotted 127 255 255 255)).
    2: { unfold IsLoopback, unmapped. cbn [Is4In6]. rewrite v4_first by done. unfold dotted. interval Hv. }
    case_bool_decide; tauto.
  - intros n zone Hn Hno. apply ipv6_reason; [done|..].
    + intros Hm. apply (Hno (n mod 2 ^ 32)); [apply Z.mod_pos_bound; lia|].
      replace n with (65535 * 2 ^ 32 + n mod 2 ^ 32) at 2 by (clear -Hm; dlia). constructor.
    + destruct (decide (zone = "")) as [->|]; [right|by left]. intros He.
      destruct (embeds_notation n Hn He) as (v & Hv & Hnot). by apply (Hno v).
  - intros v zone Hv Hz. rewrite ipv6_reason; [|clear -Hv; dlia|clear -Hv; dlia|by left].
    rewrite decide_False by (clear -Hv; lia). unfold ipv6_ranges. cbn [reason_in].
    rewrite !bool_decide_false; [done|clear -Hv; lia..].
Qed.

(** ** Signatures *)

Lemma from_hex_char b : 0 <= b < 256 ->
  from_hex (hex_char (Z.shiftr b 4)) = Some (Z.shiftr b 4) /\
  from_hex (hex_char (Z.land b 15)) = Some (Z.land b 15) /\
  Z.lor (Z.shiftl (Z.shiftr b 4) 4) (Z.land b 15) = b.
Proof.
  intros Hb.
  pose proof (checked (fun b =>
    match from_hex (hex_char (Z.shiftr b 4)), from_hex (hex_char (Z.land b 15)) with
    | Some h, Some l => (h =? Z.shiftr b 4) && (l =? Z.land b 15) && (Z.lor (Z.shiftl (Z.shiftr b 4) 4) (Z.land b 15) =? b)
    | _, _ => false
    end) 256 ltac:(vm_compute; reflexivity) b Hb) as H.
  cbn beta in H. destruct (from_hex _) as [h|]; [|done]. destruct (from_hex _) as [l|]; [|done].
  rewrite !andb_true_iff, !Z.eqb_eq in H. destruct H as [[-> ->] H]. done.
Qed.

(** Bytes. *)
Definition octets (l : list Z) : Prop := Forall (fun b => 0 <= b < 256) l.

Lemma hex_round l : octets l -> hex_Decode (hex_Encode l) = Some l.
Proof.
  induction 1 as [|b l Hb _ IH]; [done|]. cbn [hex_Encode hex_Decode].
  destruct (from_hex_char b Hb) as (-> & -> & Hl). cbn [mbind option_bind]. rewrite IH. cbn. by rewrite Hl.
Qed.

Lemma CutPrefix_app prefix s : CutPrefix (prefix +:+ s) prefix = Some s.
Proof.
  induction prefix as [|c prefix IH]; [by destruct s|]. change (String c prefix +:+ s) with (String c (prefix +:+ s)).
  cbn [CutPrefix]. by rewrite decide_True.
Qed.

Lemma wrap64_shift a k : wrap64 (wrap64 a + k) = wrap64 (a + k).
Proof. unfold wrap64. clear. dlia. Qed.

(** The instant a timestamp header is read as, whatever was written into it. *)
Lemma Unix_time_Unix seconds : (- 2 ^ 63 <= seconds <= max_int64) -> Unix (time_Unix seconds) = seconds.
Proof.
  intros Hs. unfold Unix, time_Unix. rewrite Z.div_mul by lia.
  replace (wrap64 (seconds + unixToInternal) - unixToInternal)
    with (wrap64 (seconds + unixToInternal) + - unixToInternal) by lia.
  rewrite wrap64_shift. rewrite wrap64_small; lia.
Qed.

Lemma ParseTimestamp_Format t : ParseTimestamp (FormatTimestamp t) = Ok (time_Unix (Unix t)).
Proof. unfold ParseTimestamp, FormatTimestamp. rewrite Atoi_pretty; [done|]. apply wrap64_bounds. Qed.

Lemma FormatTimestamp_nonempty t : FormatTimestamp t <> "".
Proof.
  intros H. pose proof (ParseTimestamp_Format t) as Hp. rewrite H in Hp. discriminate Hp.
Qed.

(** *** What the separator is for *)

Definition no_dot (s : string) : Prop := forall c, c ∈ String.list_ascii_of_string s -> c <> "."%char.

Lemma no_dot_split a b x y : no_dot a -> no_dot b -> a +:+ "." +:+ x = b +:+ "." +:+ y -> a = b /\ x = y.
Proof.
  revert b. induction a as [|c a IH]; intros [|d b] Ha Hb H.
  - by injection H.
  - injection H as Hc _. destruct (Hb "."%char); [cbn; rewrite Hc; left|done].
  - injection H as Hc _. destruct (Ha "."%char); [cbn; rewrite Hc; left|done].
  - change (String c (a +:+ "." +:+ x) = String d (b +:+ "." +:+ y)) in H. injection H as -> H.
    destruct (IH b) as [-> ->]; [| |exact H|done].
    + intros e He. apply Ha. cbn. by right.
    + intros e He. apply Hb. cbn. by right.
Qed.

Lemma pretty_no_dot (z : Z) : no_dot (pretty z).
Proof.
  assert (Hpos : forall p, no_dot (pretty (N.pos p))).
  { intros p. destruct (pretty_pos p) as (w & -> & _ & Hd & _). intros c Hc ->. by apply (Hd _ Hc). }
  destruct z as [|p|p].
  - intros c Hc. vm_compute in Hc. apply list_elem_of_singleton in Hc as ->. done.
  - apply Hpos.
  - intros c Hc. change (pretty (Z.neg p)) with (String "-" (pretty (N.pos p))) in Hc. cbn in Hc.
    apply elem_of_cons in Hc as [->|Hc]; [done|by eapply Hpos].
Qed.

(** A timestamp and a body cannot be split again at another point. *)
Lemma signed_material_inj t1 t2 b1 b2 :
  signed_material t1 b1 = signed_material t2 b2 -> Unix t1 = Unix t2 /\ b1 = b2.
Proof.
  unfold signed_material, FormatTimestamp. intros H.
  apply no_dot_split in H as [H ->]; [|apply pretty_no_dot..]. split; [|done].
  assert (Hr : forall t, Atoi (pretty (Unix t)) = Some (Unix t)) by (intros t; apply Atoi_pretty, wrap64_bounds).
  pose proof (Hr t1) as H1. rewrite H, Hr in H1. by injection H1.
Qed.

Section verifying.
Context (mac : string -> string -> list Z) (stale_text : Z -> Z -> string).
Context (mac_octets : forall key text, octets (mac key text)).
#[local] Abbreviation Verify := (Verify mac stale_text).

Lemma decodeSignature_Sign secret t body :
  decodeSignature (Sign mac secret t body) = Some (mac secret (signed_material t body)).
Proof.
  unfold decodeSignature, Sign. rewrite (assoc_L String.append), CutPrefix_app. cbn [mbind option_bind].
  by apply hex_round.
Qed.

Lemma equalSignature_Sign presented secret t body :
  equalSignature presented (Sign mac secret t body) = true <->
  decodeSignature presented = Some (mac secret (signed_material t body)).
Proof.
  unfold equalSignature. rewrite decodeSignature_Sign. destruct (decodeSignature presented); [|done].
  rewrite bool_decide_eq_true. split; [by intros ->|by intros [= ->] ].
Qed.

(** What a verifier accepts: a digest of the body under the instant its timestamp
    header shows, in either case of hexadecimal, while that instant is within the
    window on either side of the clock; and the error otherwise. *)
Theorem Verify_spec v tick header body :
  Verifier.tolerance v < max_int64 ->
  match Atoi (Get header HeaderTimestamp) with
  | Some seconds =>
      let shown := time_Unix seconds in
      if decide (decodeSignature (Get header HeaderSignature) =
                 Some (mac (Verifier.secret v) (signed_material shown body)))
      then if decide (Z.abs (Verifier.clock v tick - shown) <= Verifier.tolerance v)
           then Verify v tick header body = Ok tt
           else exists e, Verify v tick header body = Err e /\ errors_Is e ErrSignatureStale = true
      else exists e, Verify v tick header body = Err e /\
             (errors_Is e ErrSignatureMismatch = true \/ errors_Is e ErrSignatureMissing = true)
  | None => exists e, Verify v tick header body = Err e /\ errors_Is e ErrSignatureMissing = true
  end.
Proof.
  intros Htol. unfold Webhook.Verify. cbv zeta.
  destruct (Atoi (Get header HeaderTimestamp)) as [seconds|] eqn:Ea.
  2: { case_decide; [by eexists|]. case_decide; [by eexists|]. unfold ParseTimestamp. rewrite Ea. by eexists. }
  assert (Hraw : Get header HeaderTimestamp <> "") by (intros H; rewrite H in Ea; discriminate Ea).
  rewrite (decide_False (P := Get header HeaderTimestamp = "")) by done.
  unfold ParseTimestamp. rewrite Ea. cbn [rbind].
  destruct (decide (Get header HeaderSignature = "")) as [Hp|Hp].
  { rewrite Hp. change (decodeSignature "") with (@None (list Z)).
    rewrite decide_False by done. eexists. split; [done|]. by right. }
  destruct (decide (decodeSignature _ = _)) as [Hs|Hs].
  - rewrite (proj2 (equalSignature_Sign _ _ _ _) Hs). cbn [negb].
    assert (Habs : (Verifier.tolerance v < Abs (Sub (Verifier.clock v tick) (time_Unix seconds))) <->
      ~ Z.abs (Verifier.clock v tick - time_Unix seconds) <= Verifier.tolerance v).
    { unfold Abs, Sub, max_int64 in *. clear -Htol. lia. }
    destruct (decide (Z.abs _ <= _)) as [Hc|Hc].
    + rewrite decide_False by tauto. done.
    + rewrite decide_True by (by apply Habs). by eexists.
  - destruct (equalSignature _ _) eqn:He; [by apply equalSignature_Sign in He|]. eexists. split; [done|]. by left.
Qed.
End verifying.

(** ** Deliveries *)

Lemma pretty_N_header p : validHeaderValue (pretty (N.pos p)) = true.
Proof.
  destruct (pretty_pos p) as (w & -> & _ & Hd & _). clear p. revert Hd.
  induction w as [|c w IH]; intros Hd; [done|]. cbn [validHeaderValue]. rewrite IH.
  2: { intros d Hin. apply Hd. cbn. by right. }
  rewrite andb_true_r. assert (Hc : digit_value c <> None) by (apply Hd; cbn; left).
  destruct c as [[] [] [] [] [] [] [] []]; done.
Qed.

Lemma validHeaderValue_app a b : validHeaderValue (a +:+ b) = validHeaderValue a && validHeaderValue b.
Proof.
  induction a as [|c a IH]; [done|]. change (String c a +:+ b) with (String c (a +:+ b)).
  cbn [validHeaderValue]. by rewrite IH, andb_assoc.
Qed.

Lemma pretty_header (z : Z) : validHeaderValue (pretty z) = true.
Proof.
  destruct z as [|p|p]; [done|apply pretty_N_header|].
  change (pretty (Z.neg p)) with (String "-" (pretty (N.pos p))). cbn [validHeaderValue].
  by rewrite pretty_N_header.
Qed.

Lemma hex_header l : octets l -> validHeaderValue (hex_Encode l) = true.
Proof.
  induction 1 as [|b l Hb _ IH]; [done|]. cbn [hex_Encode validHeaderValue]. rewrite IH, andb_true_r.
  exact (checked (fun b => header_byte (hex_char (Z.shiftr b 4)) && header_byte (hex_char (Z.land b 15))) 256
    ltac:(vm_compute; reflexivity) b Hb).
Qed.

Lemma Get_insert (h : Header) name value : Get (<[ name := value ]> h) name = value.
Proof. unfold Get, Header in *. by rewrite (lookup_insert_eq (M := gmap string)). Qed.
Lemma Get_insert_ne (h : Header) name other value : name <> other -> Get (<[ name := value ]> h) other = Get h other.
Proof. intros Hne. unfold Get, Header in *. by rewrite (lookup_insert_ne (M := gmap string)). Qed.

(** A header map without control characters. *)
Definition clean (h : Header) : Prop := map_Forall (fun _ value => validHeaderValue value = true) h.

Lemma clean_set name value h : clean h -> clean (setHeader name value h).
Proof.
  intros Hh. unfold setHeader. destruct (bool_decide (value = "")); [done|].
  destruct (validHeaderValue value) eqn:E; [|done]. cbn. by apply map_Forall_insert_2.
Qed.

Section delivering.
Context (AddrPort_String : Addr -> Z -> string) (mac : string -> string -> list Z).
Context (Marshal : Payload.t -> result string string) (net : Net.t) (s : Sink.t).
#[local] Abbreviation prepare := (prepare mac Marshal net s).
#[local] Abbreviation Deliver := (Deliver AddrPort_String mac Marshal net s).
#[local] Abbreviation allow := (allow AddrPort_String net s).

(** A refusal is recognisable whatever error the policy gave. *)
Lemma allow_refusal host network address e :
  allow host network address = Some e -> errors_Is e ErrDestinationRefused = true.
Proof.
  unfold Webhook.allow. destruct (Net.ParseAddrPort net address) as [[ip port]|]; [|by intros [= <-] ].
  destruct (Sink.policy s _) as [err|]; [|done].
  destruct (errors_Is err ErrDestinationRefused) eqn:E; intros [= <-]; [done|]. cbn [errors_Is]. by rewrite bool_decide_true.
Qed.

Lemma allow_public host network address :
  Sink.policy s = DefaultPolicy_Allow -> allow host network address = None ->
  exists ip port, Net.ParseAddrPort net address = Some (ip, port) /\ refusalReason ip = "".
Proof.
  intros Hp. unfold Webhook.allow. destruct (Net.ParseAddrPort net address) as [[ip port]|]; [|done].
  rewrite Hp. unfold DefaultPolicy_Allow. cbn [Destination.IP]. cbv zeta. case_decide as Hr; [by eauto|].
  by case_match.
Qed.

Lemma prepare_request tick attempt target request :
  prepare tick attempt = Some (Ok (target, request)) ->
  HttpRequest.Header request =
    headers mac s (Attempt.Event attempt) (Attempt.DeliveryID attempt) (Sink.clock s tick) (HttpRequest.Body request).
Proof.
  unfold Webhook.prepare. destruct (Event.Callback _) as [callback|]; [|done]. case_decide; [done|].
  intros Hrun. apply (inj Some) in Hrun.
  apply rbind_ok in Hrun as (url & _ & Hrun). cbv zeta in Hrun. apply rbind_ok in Hrun as (body & _ & Hrun).
  apply rbind_ok in Hrun as (r & Hr & Hrun). injection Hrun as -> ->.
  unfold newRequest in Hr. destruct (Net.NewRequest _ _); [done|]. by injection Hr as <-.
Qed.

(** A status decides the outcome by its range. *)
Ltac by_status :=
  split; [done|]; split; [assumption|]; split; split; intros; first [done|lia|exfalso; lia].

(** How every delivery ends.  An event without a callback address is delivered
    with nothing sent.  An address or a body that cannot be used, a destination the
    policy refuses, whatever its error, a redirect, and a status of the client's
    own fault are permanent; any other failure to connect and a status that may
    pass are retried; a success is a status from 200 to 299.  Under the default
    policy, with a client that dials only what its control function permits, an
    answer comes from an address outside every refused range. *)
Theorem webhook_delivery_outcome tick attempt :
  Sink.policy s = DefaultPolicy_Allow ->
  (forall control timeout request answer, Net.Do net control timeout request = Ok answer ->
     exists network address, control network address = None) ->
  let outcome := Deliver tick attempt in
  OutcomeStatus_Valid (Outcome.Status outcome) = true /\
  match prepare tick attempt with
  | None => outcome = Outcome.Delivered
  | Some (Err e) => outcome = Permanent AddrPort_String e
  | Some (Ok (target, request)) =>
      match Net.Do net (allow (HttpRequest.Hostname request)) (Sink.timeout s) request with
      | Ok (status, _) =>
          (exists address ip port, Net.ParseAddrPort net address = Some (ip, port) /\ refusalReason ip = "") /\
          (Outcome.Status outcome = OutcomeDelivered <-> 200 <= status < 300) /\
          (Outcome.Status outcome = OutcomePermanent <->
             400 <= status < 500 /\ status <> 408 /\ status <> 429)
      | Err e =>
          Outcome.Status outcome <> OutcomeDelivered /\
          (Outcome.Status outcome = OutcomePermanent <->
             errors_Is e ErrDestinationRefused = true \/ errors_Is e ErrRedirect = true) /\
          (forall network address, allow (HttpRequest.Hostname request) network address = Some e ->
             Outcome.Status outcome = OutcomePermanent)
      end
  end.
Proof.
  intros Hp Hdial outcome. subst outcome. unfold Webhook.Deliver.
  destruct (prepare tick attempt) as [[[target request]|e]|]; [|done..]. unfold send.
  destruct (Net.Do net _ _ request) as [[status body]|e] eqn:Hdo.
  - apply Hdial in Hdo as (network & address & Hc). apply allow_public in Hc as (ip & port & Hip); [|done].
    assert (Hip' : exists address ip port, Net.ParseAddrPort net address = Some (ip, port) /\ refusalReason ip = "") by eauto.
    unfold retryableStatus. case_decide as H2; [cbn; by_status|]. case_decide as H4; [cbn; by_status|].
    destruct (bool_decide (status < 400) || bool_decide (500 <= status)) eqn:Hb; cbn;
      rewrite ?orb_true_iff, ?orb_false_iff, ?bool_decide_eq_true, ?bool_decide_eq_false in Hb; by_status.
  - unfold classifyError. destruct (errors_Is e ErrDestinationRefused || errors_Is e ErrRedirect) eqn:Hb;
      rewrite ?orb_true_iff, ?orb_false_iff in Hb; cbn.
    + split_and!; [done..|by split|done].
    + split_and!; [done..| |].
      * split; [done|]. intros [H|H]; destruct Hb; congruence.
      * intros network address Ha%allow_refusal. destruct Hb; congruence.
Qed.
End delivering.

(** A delivery verifies.  A receiver with the sink's secret accepts the request
    of a delivery with a body exactly when its digest is that of the body sent and
    its clock is within the window of the second of signing; the timestamp and the
    body under the signature cannot be split again at another point, and no header
    carries a control character, whatever the event says. *)
Theorem delivery_verifies mac stale_text Marshal net s tick attempt target request v tick' body :
  (forall key text, octets (mac key text)) ->
  prepare mac Marshal net s tick attempt = Some (Ok (target, request)) ->
  Verifier.secret v = Sink.secret s -> Verifier.tolerance v < max_int64 ->
  let sent := Sink.clock s tick in
  let digest b := mac (Sink.secret s) (signed_material sent b) in
  (Verify mac stale_text v tick' (HttpRequest.Header request) body = Ok tt <->
     digest body = digest (HttpRequest.Body request) /\
     Z.abs (Verifier.clock v tick' - time_Unix (Unix sent)) <= Verifier.tolerance v) /\
  (forall t b, signed_material t b = signed_material sent (HttpRequest.Body request) ->
     Unix t = Unix sent /\ b = HttpRequest.Body request) /\
  clean (HttpRequest.Header request).
Proof.
  intros Hmac Hprep Hsec Htol sent digest. apply prepare_request in Hprep.
  assert (Hts : Get (HttpRequest.Header request) HeaderTimestamp = FormatTimestamp sent).
  { rewrite Hprep. unfold headers. cbv zeta. by rewrite Get_insert_ne, Get_insert by done. }
  assert (Hsig : Get (HttpRequest.Header request) HeaderSignature =
                 Sign mac (Sink.secret s) sent (HttpRequest.Body request)).
  { rewrite Hprep. unfold headers. cbv zeta. by rewrite Get_insert. }
  split; [|split; [by intros t b ?%signed_material_inj|]].
  - pose proof (Verify_spec mac stale_text Hmac v tick' (HttpRequest.Header request) body Htol) as Hv.
    rewrite Hts, Hsig in Hv. unfold FormatTimestamp in Hv. rewrite Atoi_pretty in Hv by apply wrap64_bounds.
    cbv zeta in Hv. rewrite decodeSignature_Sign, Hsec in Hv by done.
    replace (signed_material (time_Unix (Unix sent)) body) with (signed_material sent body) in Hv
      by (unfold signed_material, FormatTimestamp; by rewrite Unix_time_Unix by apply wrap64_bounds).
    fold (digest body) (digest (HttpRequest.Body request)) in Hv.
    destruct (decide (Some _ = Some _)) as [Hd|Hd].
    + destruct (decide (Z.abs _ <= _)) as [Hc|Hc].
      * split; [intros _|done]. split; [congruence|done].
      * destruct Hv as (e & He & _). rewrite He. split; [done|tauto].
    + destruct Hv as (e & He & _). rewrite He. split; [done|]. intros [Hq _]. by rewrite Hq in Hd.
  - rewrite Hprep. unfold headers. cbv zeta.
    apply map_Forall_insert_2; [unfold Sign; by rewrite !validHeaderValue_app, hex_header by apply Hmac|].
    apply map_Forall_insert_2; [apply pretty_header|].
    repeat apply clean_set. repeat (apply map_Forall_insert_2; [done|]). apply map_Forall_empty.
Qed.

(** * At concrete inputs *)

Module WebhookExamples.
Definition bytes (s : string) : list Z := (fun c => Z.of_nat (nat_of_ascii c)) <$> String.list_ascii_of_string s.
Definition mac (key text : string) : list Z := bytes (key +:+ text).

Lemma mac_octets key text : octets (mac key text).
Proof.
  unfold octets, mac, bytes. apply Forall_fmap, Forall_forall. intros c _.
  pose proof (nat_ascii_bounded c). cbn. lia.
Qed.

Definition public : Addr := Addr4 (dotted 93 184 216 34).
Definition metadata : Addr := Addr4 (dotted 169 254 169 254).

(** A client that dials the address a host resolves to. *)
Definition net : Net.t := Net.mk
  (fun address =>
     if decide (address = "https://example.com/hook") then Ok (URL.mk "https" "example.com" "example.com" address address)
     else if decide (address = "http://metadata/") then Ok (URL.mk "http" "metadata" "metadata" address address)
     else Err "missing protocol scheme")
  (fun _ => None)
  (fun address =>
     if decide (address = "93.184.216.34:443") then Some (public, 443%Z)
     else if decide (address = "169.254.169.254:80") then Some (metadata, 80%Z) else None)
  (fun control _ request =>
     let address := if decide (HttpRequest.Hostname request = "metadata") then "169.254.169.254:80"
                    else "93.184.216.34:443" in
     match control "tcp4" address with Some e => Err e | None => Ok (204%Z, "") end).

Definition sink : Sink.t := Sink.mk DefaultName "s3cret" DefaultTimeout DefaultPolicy_Allow
  (fun _ => 63871200000500000000%Z).

Definition called (address : string) : Event.t :=
  Event.mk "e1" EventTypeCompleted "t1" "approval" StatusCompleted 4 "ann" "ann" CandidatePool.empty "" "sys"
    63871200000000000000 CorrelationData.empty (Some (CallbackTarget.mk address None)) (TransitionRecord.mk "t1" 4 OpComplete StatusInProgress StatusCompleted "ann" "" 63871200000000000000) "" None.
Definition attempt (address : string) : Attempt.t := Attempt.mk (called address) "d1" 1.
Definition Marshal (_ : Payload.t) : result string string := Ok "{}".
Definition show (_ : Addr) (_ : Z) : string := "".

Definition receiver : Verifier.t := Verifier.mk "s3cret" DefaultTolerance (fun _ => 63871200100000000000%Z).
End WebhookExamples.
Import WebhookExamples.

Lemma net_dials control timeout request answer :
  Net.Do net control timeout request = Ok answer -> exists network address, control network address = None.
Proof.
  cbn. destruct (control _ _) eqn:E; [done|]. intros _. eauto.
Qed.

Lemma webhook_delivery_outcome_witness :
  OutcomeStatus_Valid (Outcome.Status (Deliver show mac Marshal net sink 0 (attempt "https://example.com/hook"))) = true /\
  Deliver show mac Marshal net sink 0 (attempt "https://example.com/hook") = Outcome.Delivered /\
  Outcome.Status (Deliver show mac Marshal net sink 0 (attempt "http://metadata/")) = OutcomePermanent.
Proof.
  split; [|split; vm_compute; reflexivity].
  exact (proj1 (webhook_delivery_outcome show mac Marshal net sink 0 (attempt "https://example.com/hook")
    eq_refl net_dials)).
Defined.

Lemma delivery_verifies_witness :
  exists target request,
    prepare mac Marshal net sink 0 (attempt "https://example.com/hook") = Some (Ok (target, request)) /\
    Verify mac (fun _ _ => "") receiver 0 (HttpRequest.Header request) "{}" = Ok tt.
Proof.
  destruct (prepare mac Marshal net sink 0 (attempt "https://example.com/hook")) as [[[target request]|e]|] eqn:E.
  2: vm_compute in E; discriminate E.
  2: vm_compute in E; discriminate E.
  exists target, request. split; [reflexivity|].
  refine (proj2 (proj1 (delivery_verifies mac (fun _ _ => "") Marshal net sink 0 (attempt "https://example.com/hook")
    target request receiver 0 "{}" mac_octets E eq_refl eq_refl)) _).
  split; [|vm_compute; discriminate].
  vm_compute in E. injection E as _ <-. reflexivity.
Defined.

(** Loopback in its notations, and the two addresses with a zone that escape. *)
Example notations_refused :
  refusalReason <$> [Addr4 (dotted 127 0 0 1); Addr6 (65535 * 2 ^ 32 + dotted 127 0 0 1) "eth0";
    Addr6 (0x64ff9b * 2 ^ 96 + dotted 127 0 0 1) ""; Addr6 (0x2002 * 2 ^ 112 + dotted 127 0 0 1 * 2 ^ 80) "";
    Addr6 1 "lo"; Addr4 (dotted 93 184 216 34);
    Addr6 (0x64ff9b * 2 ^ 96 + dotted 169 254 169 254) "eth0"; Addr6 0 "lo"]%Z =
  ["loopback address"; "loopback address"; "loopback address"; "loopback address"; "loopback address"; ""; ""; ""].
Proof. vm_compute. reflexivity. Qed.

Example headers_kept_clean :
  setHeader HeaderOwnerRef (String (ascii_of_nat 10) "x") ∅ = ∅ /\ validHeaderValue (String (ascii_of_nat 9) "x") = true.
Proof. vm_compute. done. Qed.

Example sinks_built :
  is_ok (New (fun _ => 0%Z) "" []) = false /\ is_ok (New (fun _ => 0%Z) "k" [WithName "  "]) = false /\
  is_ok (New (fun _ => 0%Z) "k" [WithTimeout 0]) = false /\
  (match New (fun _ => 0%Z) "k" [WithName " hook "; WithDestinationPolicy None] with
   | Ok s => Sink.name s | Err _ => "" end) = "hook" /\
  is_ok (NewVerifier (fun _ => 0%Z) "k" [WithTolerance 0]) = false.
Proof. vm_compute. done. Qed.

Example reference_parameters_spliced :
  let payload := newPayload (called "https://example.com/hook") "d1" 0 in
  MarshalJSON (fun _ => Ok "{}") payload = Ok "{}" /\
  MarshalJSON (fun _ => Ok "{:}") (payload <| Payload.ReferenceParameters := Some " [1] " |>) =
    Ok ("{:," +:+ dquote +:+ "referenceParameters" +:+ dquote +:+ ": [1] }") /\
  is_ok (MarshalJSON (fun _ => Ok "{}") (payload <| Payload.ReferenceParameters := Some "[" |>)) = false.
Proof. vm_compute. done. Qed.
