(* ===== verification/Interaction.v ===== *)
(** * Interaction: programs that call out, one call at a time

    A pass of a dispatcher talks to a store, a mailer and a host between its own
    steps, and other processes act between any two of its calls.  Such a program
    is a value of [prog]: a result, or a call with what follows its answer.  This
    file gives the programs, a weakest precondition over any meaning of the calls,
    the pools of programs that run interleaved over a shared state, and the
    theorem that a property each program keeps under interference holds of every
    state a pool reaches.  Pools whose programs are not stopped come to rest. *)

From S2P Require Import Prelude.

(** ** Programs *)

Inductive prog (E : Type -> Type) (A : Type) : Type :=
| Ret (a : A)
| Call {X : Type} (e : E X) (k : X -> prog E A).
Arguments Ret {E A} a.
Arguments Call {E A X} e k.

Fixpoint bind {E A B} (p : prog E A) (k : A -> prog E B) : prog E B :=
  match p with
  | Ret a => k a
  | Call e f => Call e (fun x => bind (f x) k)
  end.

Definition call {E X} (e : E X) : prog E X := Call e Ret.

Notation "'do!' x ':=' p 'in' k" := (bind p (fun x => k))
  (at level 10, x binder, p at level 100, k at level 200,
   format "'[v' 'do!'  x  ':='  p  'in' '//' k ']'") : hmntsk_scope.

(** A loop whose body may call out, over a state of its own. *)
Fixpoint loop {E S X} (f : X -> S -> prog E S) (l : list X) (s : S) : prog E S :=
  match l with
  | [] => Ret s
  | x :: l => do! s := f x s in loop f l s
  end.

(** ** Running a program alone *)

Fixpoint run {E W A} (answer : forall X, E X -> W -> X * W) (p : prog E A) (w : W) : A * W :=
  match p with
  | Ret a => (a, w)
  | Call e k => let '(x, w) := answer _ e w in run answer (k x) w
  end.

(** ** Weakest preconditions

    The state may change between two calls as [env] says; a call is allowed where
    [may] holds, and [does] relates a call, the state, its answer and the state it
    leaves. *)

Section wp.
Context {E : Type -> Type} {S : Type}.
Context (env : S -> S -> Prop).
Context (may : forall X, E X -> S -> Prop).
Context (does : forall X, E X -> S -> X -> S -> Prop).

Fixpoint wp {A} (p : prog E A) (Q : A -> S -> Prop) (s : S) : Prop :=
  match p with
  | Ret a => Q a s
  | Call e k =>
      forall s1, env s s1 -> may _ e s1 /\
      forall x s2, does _ e s1 x s2 -> wp (k x) Q s2
  end.

Lemma wp_bind {A B} (p : prog E A) (k : A -> prog E B) Q s :
  wp p (fun a => wp (k a) Q) s -> wp (bind p k) Q s.
Proof.
  revert s. induction p as [a|X e f IH]; intros s; [done|]. cbn.
  intros H s1 Hs. destruct (H s1 Hs) as [Hm Hf]. split; [done|]. intros x s2 Hx.
  apply IH, Hf, Hx.
Qed.

Lemma wp_mono {A} (p : prog E A) (Q1 Q2 : A -> S -> Prop) s :
  (forall a s, Q1 a s -> Q2 a s) -> wp p Q1 s -> wp p Q2 s.
Proof.
  intros HQ. revert s. induction p as [a|X e f IH]; intros s; cbn; [apply HQ|].
  intros H s1 Hs. destruct (H s1 Hs) as [Hm Hf]. split; [done|]. intros x s2 Hx.
  apply IH, Hf, Hx.
Qed.

Lemma wp_call {X} (e : E X) Q s :
  (forall s1, env s s1 -> may _ e s1 /\ forall x s2, does _ e s1 x s2 -> Q x s2) ->
  wp (call e) Q s.
Proof. done. Qed.

(** A loop keeps what its body keeps; [P] is told what is still to come. *)
Lemma wp_loop {T X} (f : X -> T -> prog E T) (P : list X -> T -> S -> Prop) l t s :
  (forall x rest t s, P (x :: rest) t s -> wp (f x t) (P rest) s) ->
  P l t s -> wp (loop f l t) (P []) s.
Proof.
  intros Hf. revert t s. induction l as [|x l IH]; intros t s HP; [done|]. cbn.
  apply wp_bind. eapply wp_mono; [|by apply Hf]. intros t' s'. apply IH.
Qed.

(** The environment's steps before a call are the call's business. *)
Lemma wp_env {A} (p : prog E A) (Q : A -> S -> Prop) s s' :
  Transitive env -> (forall a s s', Q a s -> env s s' -> Q a s') ->
  wp p Q s -> env s s' -> wp p Q s'.
Proof.
  intros HT HQ. destruct p as [a|X e f]; cbn; [eauto|].
  intros H Hs s1 Hs1. apply H. by etrans.
Qed.
End wp.

(** ** Pools

    Programs named by [I] run interleaved.  A step starts a program, makes the
    call one of them is at, stops one at any point, a call whose answer it never
    sees included, or is a step of the surroundings. *)

Section pool.
Context {I : Type} `{Countable I} {E : Type -> Type} {S A : Type}.
Context (body : I -> prog E A -> Prop).
Context (does : I -> forall X, E X -> S -> X -> S -> Prop).
Context (outside : S -> S -> Prop).

Abbreviation pool := (gmap I (prog E A)).

Inductive step : pool * S -> pool * S -> Prop :=
| step_start i p (P : pool) s :
    P !! i = None -> body i p -> step (P, s) (<[i := p]> P, s)
| step_call i X (e : E X) k (P : pool) s x s' :
    P !! i = Some (Call e k) -> does i X e s x s' -> step (P, s) (<[i := k x]> P, s')
| step_stop i (P : pool) s : step (P, s) (delete i P, s)
| step_stop_in_call i X (e : E X) k (P : pool) s x s' :
    P !! i = Some (Call e k) -> does i X e s x s' -> step (P, s) (delete i P, s')
| step_outside (P : pool) s s' : outside s s' -> step (P, s) (P, s').

Definition steps : pool * S -> pool * S -> Prop := rtc step.

(** What it takes: an invariant, for each program what the others may do to it,
    and that every allowed call keeps the invariant and does to the others no more
    than that. *)
Context (Inv : S -> Prop).
Context (rely : I -> S -> S -> Prop) `{!forall i, PreOrder (rely i)}.
Context (may : I -> forall X, E X -> S -> Prop).
Context (ends : I -> A -> S -> Prop).

Definition safe (i : I) (p : prog E A) (s : S) : Prop :=
  wp (fun s s' => rely i s s' /\ Inv s') (may i) (does i) p (ends i) s.

Definition good (c : pool * S) : Prop :=
  Inv c.2 /\ forall i p, c.1 !! i = Some p -> safe i p c.2.

Hypothesis ends_ok : forall i a s s', ends i a s -> rely i s s' -> Inv s' -> ends i a s'.

Lemma safe_rely i p s s' : safe i p s -> rely i s s' -> Inv s' -> safe i p s'.
Proof.
  unfold safe. destruct p as [a|X e f]; cbn; [apply ends_ok|].
  intros Hs Hr HI s1 [Hr1 HI1]. apply Hs. split; [|done]. by etrans.
Qed.

Hypothesis call_ok : forall i X (e : E X) s x s',
  Inv s -> may i X e s -> does i X e s x s' ->
  Inv s' /\ forall j, j <> i -> rely j s s'.
Hypothesis outside_ok : forall s s', Inv s -> outside s s' ->
  Inv s' /\ forall j, rely j s s'.
Hypothesis body_ok : forall i p s, body i p -> Inv s -> safe i p s.

Lemma good_call i X (e : E X) k P s x s' :
  good (P, s) -> P !! i = Some (Call e k) -> does i X e s x s' ->
  good (delete i P, s') /\ safe i (k x) s'.
Proof.
  intros [HI HP] Hi Hd. cbn in HI, HP.
  pose proof (HP i _ Hi s (conj (reflexivity s) HI)) as [Hm Hk].
  destruct (call_ok i X e s x s' HI Hm Hd) as [HI' Hr]. split; [|by apply Hk].
  split; [done|]. cbn. intros j p [Hj Hp]%lookup_delete_Some.
  eapply safe_rely; [by apply HP|by apply Hr|done].
Qed.

Lemma step_good c c' : step c c' -> good c -> good c'.
Proof.
  intros Hstep Hgood. destruct Hstep as [i p P s Hi Hb|i X e k P s x s' Hi Hd|i P s
    |i X e k P s x s' Hi Hd|P s s' Ho].
  - destruct Hgood as [HI HP]. split; [done|]. cbn in *.
    intros j q [[<- <-]|[_ Hq]]%lookup_insert_Some; [by apply body_ok|by apply HP].
  - destruct (good_call i X e k P s x s' Hgood Hi Hd) as [[HI HP] Hk].
    split; [done|]. cbn in *. intros j q [[<- <-]|[Hne Hq]]%lookup_insert_Some; [done|].
    apply HP. by rewrite lookup_delete_ne.
  - destruct Hgood as [HI HP]. split; [done|]. cbn in *.
    intros j q [_ Hq]%lookup_delete_Some. by apply HP.
  - by destruct (good_call i X e k P s x s' Hgood Hi Hd).
  - destruct Hgood as [HI HP]. destruct (outside_ok s s' HI Ho) as [HI' Hr].
    split; [done|]. cbn in *. intros j q Hq. eapply safe_rely; [by apply HP|apply Hr|done].
Qed.

Lemma steps_good c c' : steps c c' -> good c -> good c'.
Proof. induction 1; eauto using step_good. Qed.
End pool.

(** ** Pools at work

    A turn is one call of one program that is not stopped; a working pool takes
    turns and starts programs.  Programs are finite, so turns come to an end
    whatever the calls answer. *)

Section work.
Context {I : Type} `{Countable I} {E : Type -> Type} {S A : Type}.
Context (body : I -> prog E A -> Prop).
Context (does : I -> forall X, E X -> S -> X -> S -> Prop).

Inductive turn : gmap I (prog E A) * S -> gmap I (prog E A) * S -> Prop :=
| turn_call i X (e : E X) k P s x s' :
    P !! i = Some (Call e k) -> does i X e s x s' -> turn (P, s) (<[i := k x]> P, s').

Inductive work : gmap I (prog E A) * S -> gmap I (prog E A) * S -> Prop :=
| work_start i p P s : P !! i = None -> body i p -> work (P, s) (<[i := p]> P, s)
| work_turn c c' : turn c c' -> work c c'.

(** Nothing is left to do: no program can make its call. *)
Definition at_rest (c : gmap I (prog E A) * S) : Prop := forall c', ~ turn c c'.

Lemma work_steps outside c c' : rtc work c c' -> steps body does outside c c'.
Proof.
  induction 1 as [|c1 c2 c3 Hstep _ IH]; [apply rtc_refl|]. eapply rtc_l; [|exact IH].
  destruct Hstep as [i p P s Hi Hb|? ? [i X e k P s x s' Hi Hd]].
  - by apply step_start.
  - by eapply step_call.
Qed.

Lemma turns_work c c' : rtc turn c c' -> rtc work c c'.
Proof. induction 1; [apply rtc_refl|]. eapply rtc_l; [by apply work_turn|done]. Qed.

(** What is left of a program after its first call. *)
Definition rest_of (q p : prog E A) : Prop :=
  match p with
  | Ret _ => False
  | Call _ k => exists x, q = k x
  end.

Definition shrinks (P' P : gmap I (prog E A)) : Prop :=
  exists i p q, P !! i = Some p /\ rest_of q p /\ P' = <[i := q]> P.

Lemma shrinks_insert P : Acc shrinks P ->
  forall i p, P !! i = None -> Acc shrinks (<[i := p]> P).
Proof.
  induction 1 as [P _ IHP]. intros i p Hi.
  assert (Hother : forall q0 j p' q, j <> i -> P !! j = Some p' -> rest_of q p' ->
            Acc shrinks (<[j := q]> (<[i := q0]> P))).
  { intros q0 j p' q Hne Hj Hq. rewrite insert_insert_ne by done.
    apply IHP; [by exists j, p', q|by rewrite lookup_insert_ne]. }
  induction p as [a|X e k IHp]; constructor; intros P' (j & p' & q & Hj & Hq & ->);
    apply lookup_insert_Some in Hj as [[<- <-]|[Hne Hj]]; try (eapply Hother; [congruence|eassumption..]).
  - destruct Hq.
  - destruct Hq as [x ->]. rewrite insert_insert_eq. apply IHp.
Qed.

Lemma shrinks_wf P : Acc shrinks P.
Proof.
  induction P as [|i p P Hi IH] using map_ind; [|by apply shrinks_insert].
  constructor. intros P' (i & p & q & Hi & _). by rewrite lookup_empty in Hi.
Qed.

(** Turns come to an end. *)
Lemma turns_end c : Acc (flip turn) c.
Proof.
  destruct c as [P s]. revert s. induction (shrinks_wf P) as [P _ IH]. intros s.
  constructor. intros c' Hturn. unfold flip in Hturn.
  remember (P, s) as c eqn:Ec. destruct Hturn as [i X e k P0 s0 x s' Hi Hd].
  injection Ec as -> ->. apply IH. exists i, (Call e k), (k x). split_and!; [done|by exists x|done].
Qed.

(** Only the programs of the pool take turns. *)
Lemma turns_names c c' : rtc turn c c' -> dom c'.1 = dom c.1.
Proof.
  induction 1 as [|c1 c2 c3 Hturn _ IH]; [done|]. rewrite IH.
  destruct Hturn as [i X e k P s x s' Hi Hd]. cbn [fst]. rewrite dom_insert_L.
  apply elem_of_dom_2 in Hi. set_solver.
Qed.

(** Whoever a state names as at work is in the pool, if only its own calls can
    name it; and a new program is one the state does not name.  Then what every
    program keeps under interference holds of every state the pool reaches. *)
Context (busy : I -> S -> Prop).
Hypothesis busy_ok : forall i X (e : E X) s x s' j,
  does i X e s x s' -> busy j s' -> busy j s \/ j = i.

Definition staffed (c : gmap I (prog E A) * S) : Prop :=
  forall j, busy j c.2 -> is_Some (c.1 !! j).

Lemma work_staffed c c' : work c c' -> staffed c -> staffed c'.
Proof.
  intros Hstep H1. destruct Hstep as [i p P s Hi Hb|? ? [i X e k P s x s' Hi Hd]];
    unfold staffed in *; cbn [fst snd] in *; intros j Hj; apply lookup_insert_is_Some'.
  - right. by apply H1.
  - destruct (busy_ok i X e s x s' j Hd Hj) as [Hs| ->]; auto.
Qed.

Context (Inv : S -> Prop).
Context (rely : I -> S -> S -> Prop) `{!forall i, PreOrder (rely i)}.
Context (may : I -> forall X, E X -> S -> Prop).
Context (ends : I -> A -> S -> Prop).
Hypothesis ends_ok : forall i a s s', ends i a s -> rely i s s' -> Inv s' -> ends i a s'.
Hypothesis call_ok : forall i X (e : E X) s x s',
  Inv s -> may i X e s -> does i X e s x s' ->
  Inv s' /\ forall j, j <> i -> rely j s s'.
Hypothesis body_ok : forall i p s,
  body i p -> Inv s -> ~ busy i s -> safe does Inv rely may ends i p s.

Lemma works_good c c' : rtc work c c' -> good does Inv rely may ends c -> staffed c ->
  good does Inv rely may ends c' /\ staffed c'.
Proof.
  induction 1 as [|c1 c2 c3 Hstep _ IH]; [done|]. intros Hg Hs.
  pose proof (work_staffed c1 c2 Hstep Hs) as Hs2. apply IH; [|done]. clear IH.
  destruct Hstep as [i p P s Hi Hb|? ? [i X e k P s x s' Hi Hd]].
  - destruct Hg as [HI HP]. split; [done|]. cbn in *.
    intros j q [[<- <-]|[_ Hq]]%lookup_insert_Some; [|by apply HP].
    apply body_ok; [done..|]. intros Hbusy. destruct (Hs i Hbusy) as [q Hq].
    cbn in Hq. congruence.
  - destruct (good_call does Inv rely may ends ends_ok call_ok i X e k P s x s' Hg Hi Hd)
      as [[HI HP] Hk].
    split; [done|]. cbn in *. intros j q [[<- <-]|[Hne Hq]]%lookup_insert_Some; [done|].
    apply HP. by rewrite lookup_delete_ne.
Qed.
End work.

(** A pool of one that runs to its end is one way to step. *)
Lemma run_steps {I} `{Countable I} {E S A} (body : I -> prog E A -> Prop)
    (does : I -> forall X, E X -> S -> X -> S -> Prop) (outside : S -> S -> Prop) (i : I)
    (answer : forall X, E X -> S -> X * S) p s P :
  (forall X (e : E X) s, does i X e s (answer X e s).1 (answer X e s).2) ->
  P !! i = Some p ->
  steps body does outside (P, s)
    (<[i := Ret (run answer p s).1]> P, (run answer p s).2).
Proof.
  intros Ha. revert s P. induction p as [a|X e k IH]; intros s P Hi; cbn [run].
  { rewrite insert_id by done. apply rtc_refl. }
  pose proof (Ha X e s) as Hd. destruct (answer X e s) as [x s1]. cbn [fst snd] in Hd.
  eapply rtc_l; [by eapply step_call|].
  assert (E1 : <[i := k x]> P !! i = Some (k x)) by apply lookup_insert_eq.
  specialize (IH x s1 _ E1). rewrite insert_insert_eq in IH. exact IH.
Qed.

Lemma start_and_run {I} `{Countable I} {E S A} (body : I -> prog E A -> Prop)
    (does : I -> forall X, E X -> S -> X -> S -> Prop) (outside : S -> S -> Prop) (i : I)
    (answer : forall X, E X -> S -> X * S) p s :
  (forall X (e : E X) s, does i X e s (answer X e s).1 (answer X e s).2) -> body i p ->
  exists P, steps body does outside (∅, s) (P, (run answer p s).2).
Proof.
  intros Ha Hb. eexists. eapply rtc_l; [apply step_start; [apply lookup_empty|exact Hb]|].
  apply run_steps; [exact Ha|apply lookup_insert_eq].
Qed.

(** ** Running a program alone when a call may have to wait *)

Fixpoint try_run {E W A} (answer : forall X, E X -> W -> option (X * W)) (p : prog E A) (w : W)
  : option (A * W) :=
  match p with
  | Ret a => Some (a, w)
  | Call e k =>
      match answer _ e w with
      | Some (x, w) => try_run answer (k x) w
      | None => None
      end
  end.

Lemma try_run_turns {I} `{Countable I} {E S A} (does : I -> forall X, E X -> S -> X -> S -> Prop)
    (i : I) (answer : forall X, E X -> S -> option (X * S)) (p : prog E A) s a s' P :
  (forall X (e : E X) s x s', answer X e s = Some (x, s') -> does i X e s x s') ->
  P !! i = Some p -> try_run answer p s = Some (a, s') ->
  rtc (turn does) (P, s) (<[i := Ret a]> P, s').
Proof.
  intros Ha. revert s P. induction p as [b|X e k IH]; intros s P Hi; cbn [try_run].
  { intros [= -> ->]. rewrite insert_id by done. apply rtc_refl. }
  destruct (answer X e s) as [[x s1]|] eqn:Ee; [|done]. intros Hr.
  eapply rtc_l; [by eapply turn_call, Ha|].
  assert (E1 : <[i := k x]> P !! i = Some (k x)) by apply lookup_insert_eq.
  specialize (IH x s1 _ E1 Hr). by rewrite insert_insert_eq in IH.
Qed.

(** Programs run one after the other. *)
Fixpoint try_all {I E W A} (answer : I -> forall X, E X -> W -> option (X * W))
    (l : list (I * prog E A)) (w : W) : option W :=
  match l with
  | [] => Some w
  | (i, p) :: l =>
      match try_run (answer i) p w with
      | Some (_, w) => try_all answer l w
      | None => None
      end
  end.

Lemma try_all_works {I} `{Countable I} {E S A} (body : I -> prog E A -> Prop)
    (does : I -> forall X, E X -> S -> X -> S -> Prop)
    (answer : I -> forall X, E X -> S -> option (X * S)) l s s' P :
  (forall i X (e : E X) s x s', answer i X e s = Some (x, s') -> does i X e s x s') ->
  NoDup l.*1 -> (forall i, i ∈ l.*1 -> P !! i = None) -> (forall i p, (i, p) ∈ l -> body i p) ->
  try_all answer l s = Some s' ->
  exists P', rtc (work body does) (P, s) (P', s') /\
    (forall i, i ∉ l.*1 -> P' !! i = P !! i) /\ forall i, i ∈ l.*1 -> exists a, P' !! i = Some (Ret a).
Proof.
  intros Ha. revert s P. induction l as [|[i p] l IH]; intros s P Hnd Hfree Hbody; cbn [try_all].
  { intros [= ->]. exists P. split_and!; [apply rtc_refl|done|]. by intros i ?%elem_of_nil. }
  destruct (try_run (answer i) p s) as [[a s1]|] eqn:Er; [|done]. intros Hall.
  apply NoDup_cons in Hnd as [Hi Hnd]. cbn [fmap list_fmap fst] in *.
  destruct (IH s1 (<[i := Ret a]> P)) as (P' & Hw & Hout & Hin).
  { done. }
  { intros j Hj. rewrite lookup_insert_ne by (intros ->; done). apply Hfree. by right. }
  { intros j q Hj. apply Hbody. by right. }
  { done. }
  exists P'. split_and!.
  - eapply rtc_l; [apply work_start; [apply Hfree; by left|apply Hbody; by left]|].
    etrans; [apply turns_work|].
    + apply (try_run_turns does i (answer i) p s a s1); [apply Ha|apply lookup_insert_eq|done].
    + by rewrite insert_insert_eq.
  - intros j Hj%not_elem_of_cons. rewrite Hout by apply Hj. by rewrite lookup_insert_ne by naive_solver.
  - intros j [->|Hj]%elem_of_cons; [|by apply Hin].
    exists a. rewrite Hout by done. apply lookup_insert_eq.
Qed.
