(* ===== verification/Text.v ===== *)
(** * Text: what the standard library makes of texts and instants

    White space in UTF-8 as [unicode.IsSpace] has it, and [time.RFC3339Nano], which
    the sinks and the signals are written in.  No source of the repository is
    modelled here.  Shown: an instant of a year below 10000 is read back to the
    nanosecond. *)

From Stdlib Require Import Ascii.
From S2P Require Import Prelude Domain Calendar Sqlkit.

Definition newline : string := String (ascii_of_nat 10) "".

(** ** White space *)

Definition byte_is (c : ascii) (n : nat) : bool := Nat.eqb (nat_of_ascii c) n.
Definition byte_within (c : ascii) (lo hi : nat) : bool :=
  Nat.leb lo (nat_of_ascii c) && Nat.leb (nat_of_ascii c) hi.

(** A string begins with a white space character. *)
Definition space_rune (s : string) : bool :=
  match s with
  | EmptyString => false
  | String a rest =>
      byte_within a 9 13 || byte_is a 32 ||
      match rest with
      | EmptyString => false
      | String b rest =>
          byte_is a 194 && (byte_is b 133 || byte_is b 160) ||
          match rest with
          | EmptyString => false
          | String c _ =>
              byte_is a 225 && byte_is b 154 && byte_is c 128 ||
              byte_is a 226 && byte_is b 128 && (byte_within c 128 138 || byte_within c 168 169 || byte_is c 175) ||
              byte_is a 226 && byte_is b 129 && byte_is c 159 ||
              byte_is a 227 && byte_is b 128 && byte_is c 128
          end
      end
  end.

(** [strings.IndexFunc(s, unicode.IsSpace) >= 0]; no byte inside a character
    begins a white space one. *)
Fixpoint has_space (s : string) : bool :=
  match s with
  | EmptyString => false
  | String _ rest => space_rune s || has_space rest
  end.

(** [len(bytes.TrimSpace(b)) == 0]: nothing but white space. *)
Fixpoint blank (s : string) : bool :=
  match s with
  | EmptyString => true
  | String a EmptyString => space_rune s
  | String a ((String b EmptyString) as rest) =>
      if space_rune (String a "") then blank rest else space_rune s
  | String a ((String b ((String c more) as rest')) as rest) =>
      if space_rune (String a "") then blank rest
      else if space_rune (String a (String b "")) then blank rest'
      else space_rune (String a (String b (String c ""))) && blank more
  end.

(** ** Instants to the nanosecond *)

(** The fraction of [time.RFC3339Nano]: nine digits without the zeros at the end,
    and no point when nothing is left. *)
Fixpoint drop_zeros (s : string) : string :=
  match s with
  | EmptyString => ""
  | String c rest =>
      match drop_zeros rest with
      | EmptyString => if decide (c = "0"%char) then "" else String c ""
      | kept => String c kept
      end
  end.

Definition fraction_text (nanos : Z) : string :=
  match drop_zeros (padded 9 nanos) with EmptyString => "" | digits => "." +:+ digits end.

(** [t.UTC().Format(time.RFC3339Nano)]. *)
Definition format_nano (t : Time) : string :=
  date_text "T" (civil t) +:+ fraction_text (Civil.nanos (civil t)) +:+ "Z".

(** * Lemmas *)

Definition RFC3339Nano : Layout.t := Layout.mk "T"%char UpToNine ZoneOrZ.

Fixpoint zeros (n : nat) : string := match n with 0 => "" | S n => String "0" (zeros n) end.

Lemma drop_zeros_spec s : exists k, s = drop_zeros s +:+ zeros k.
Proof.
  induction s as [|c s [k IH]]; [by exists 0|]. cbn [drop_zeros].
  destruct (drop_zeros s) as [|d kept] eqn:E.
  - case_decide as Hc.
    + exists (S k). subst c. rewrite IH at 1. done.
    + exists k. change (String c "" +:+ zeros k) with (String c ("" +:+ zeros k)). by rewrite <- IH.
  - exists k. change (String c (String d kept) +:+ zeros k) with (String c (String d kept +:+ zeros k)). by rewrite <- IH.
Qed.

Lemma read_zeros k acc : read_digits k acc (zeros k) = Some (acc * 10 ^ Z.of_nat k, "")%Z.
Proof.
  revert acc. induction k as [|k IH]; intros acc; [cbn; do 2 f_equal; lia|]. cbn [zeros read_digits].
  change (digit_value "0") with (Some 0%Z). cbn iota. rewrite IH, Nat2Z.inj_succ, Z.pow_succ_r by lia.
  do 2 f_equal. lia.
Qed.

(** What reads as digits, and then more. *)
Lemma read_digits_front a b width acc r : String.length a = width ->
  read_digits (width + String.length b) acc (a +:+ b) = Some r ->
  exists v, forall rest, read_digits width acc (a +:+ rest) = Some (v, rest) /\ span_digits (a +:+ "Z") = (a, "Z").
Proof.
  intros <-. revert acc. induction a as [|c a IH]; intros acc H; [by exists acc|].
  change (String c a +:+ b) with (String c (a +:+ b)) in H. cbn [String.length Nat.add read_digits] in H.
  destruct (digit_value c) as [v|] eqn:Hc; [|done]. destruct (IH _ H) as [w Hw]. exists w. intros rest.
  change (String c a +:+ rest) with (String c (a +:+ rest)). change (String c a +:+ "Z") with (String c (a +:+ "Z")).
  cbn [String.length read_digits span_digits]. rewrite Hc. destruct (Hw rest) as [-> ->]. done.
Qed.

Lemma read_fraction_text n : (0 <= n < 10 ^ Z.of_nat 9)%Z -> read_fraction (fraction_text n +:+ "Z") = (n, "Z").
Proof.
  intros Hn. unfold fraction_text. destruct (drop_zeros_spec (padded 9 n)) as [k Hk].
  set (kept := drop_zeros (padded 9 n)) in *.
  assert (Hl : String.length kept + k = 9).
  { rewrite <- (length_padded 9 n), Hk, length_append. f_equal. clear. induction k; cbn; lia. }
  pose proof (read_padded 9 n 0 "" Hn) as Hr. rewrite (right_id_L "" String.append), Hk, Z.mul_0_l, Z.add_0_l in Hr.
  assert (Hr' : read_digits (String.length kept + String.length (zeros k)) 0 (kept +:+ zeros k) = Some (n, "")).
  { replace (String.length kept + String.length (zeros k)) with 9; [exact Hr|]. rewrite <- Hl. f_equal. clear. induction k; cbn; lia. }
  destruct (read_digits_front kept (zeros k) _ 0 _ eq_refl Hr') as [v Hv].
  assert (Hval : n = (v * 10 ^ Z.of_nat k)%Z).
  { rewrite <- Hl, read_digits_app in Hr. rewrite (proj1 (Hv (zeros k))), read_zeros in Hr. congruence. }
  destruct kept as [|c kept'] eqn:E.
  - specialize (Hv ""). cbn in Hv. destruct Hv as [ [= <-] _ ]. by rewrite Hval.
  - destruct (Hv "") as [H0 Hs]. change ("." +:+ String c kept' +:+ "Z") with (String "." (String c kept' +:+ "Z")).
    rewrite <- (assoc_L String.append). change ("." +:+ String c kept' +:+ "Z") with (String "." (String c kept' +:+ "Z")).
    cbn [read_fraction]. change (is_point ".") with true. cbn iota. rewrite Hs.
    f_equal. unfold nanos_of. rewrite substring_all by lia. rewrite (right_id_L "" String.append) in H0. rewrite H0, Hval.
    do 2 f_equal. lia.
Qed.

Lemma format_nano_back t : (0 <= t < year_10000)%Z -> time_parse RFC3339Nano (format_nano t) = Some t.
Proof.
  intros Ht. destruct (civil_valid t Ht) as (Hv & Hy & He). unfold format_nano.
  rewrite (time_parse_date _ Hv Hy RFC3339Nano). unfold read_tail.
  pose proof Hv as (_ & _ & _ & _ & _ & _ & Hn)%valid_civil_bounds.
  change (read_nanos (Layout.fraction RFC3339Nano)) with (fun s => Some (read_fraction s)). cbn beta.
  rewrite read_fraction_text by (change (10 ^ Z.of_nat 9)%Z with 1000000000%Z; exact Hn). cbn [mbind option_bind].
  change (read_zone (Layout.zone RFC3339Nano) "Z") with (Some (0%Z, "")). cbn [mbind option_bind].
  assert (Hw : with_nanos (civil t) (Civil.nanos (civil t)) = civil t) by (by destruct (civil t)).
  rewrite Hw, in_range_valid, He by done. by rewrite Z.mul_0_l, Z.sub_0_r.
Qed.
