(* ===== verification/RedisSink.v ===== *)
(** * RedisSink: the sink that appends to a Redis stream

    Models [delivery/redis]: the options and the construction of a sink
    ([redis.go], [retention.go]), the message an event becomes, the bound every
    append carries, the one XADD of a delivery and how its end is classified, and
    the errors ([errors.go]).

    A delivery is a program whose only call is the append.  Its answer is the
    client's, or that the attempt's context ended first: the append is then
    abandoned, not cancelled.  The client's errors are the type [Cause], the
    encoding of an event the argument [Marshal]; the type of trim modes is
    [string], as the code's is.  An instant is written for years before 10000. *)

From Stdlib Require Import Ascii.
From S2P Require Import Prelude Domain Errors Event Ident Calendar Sqlkit Text Relay Webhook Interaction.


Definition DefaultName : string := "redis".
Definition DefaultStream : string := "hmntsk.events".
Definition DefaultTimeout : Z := (5 * 1000000000)%Z.
Definition Schema : string := "hmntsk.event.v1".

Definition FieldSchema : string := "schema".
Definition FieldEventID : string := "eventId".
Definition FieldDeliveryID : string := "deliveryId".
Definition FieldAttempt : string := "attempt".
Definition FieldEventType : string := "eventType".
Definition FieldTaskID : string := "taskId".
Definition FieldTaskType : string := "taskType".
Definition FieldStatus : string := "status".
Definition FieldVersion : string := "version".
Definition FieldOccurredAt : string := "occurredAt".
Definition FieldActor : string := "actor".
Definition FieldAssignee : string := "assignee".
Definition FieldOwnerType : string := "ownerType".
Definition FieldOwnerRef : string := "ownerRef".
Definition FieldActivityKey : string := "activityKey".
Definition FieldEvent : string := "event".

(** ** Errors *)

Inductive Sentinel : Type := ErrConfiguration | ErrInvalidEvent | ErrPublish.
#[global] Instance Sentinel_eq_dec : EqDecision Sentinel.
Proof. solve_decision. Defined.

Inductive error (Cause : Type) : Type :=
| ConfigurationError (Detail : string)
| InvalidEventError (TaskID Detail : string) (cause : option Cause)
| PublishError (Stream EventID : string) (cause : option Cause).
Arguments ConfigurationError {Cause} Detail.
Arguments InvalidEventError {Cause} TaskID Detail cause.
Arguments PublishError {Cause} Stream EventID cause.

Definition Error {Cause} (text : Cause -> string) (e : error Cause) : string :=
  match e with
  | ConfigurationError Detail => "redis: invalid configuration: " +:+ Detail
  | InvalidEventError TaskID Detail cause =>
      (if decide (TaskID = "") then "redis: invalid event" else "redis: invalid event for task " +:+ TaskID) +:+
      (if decide (Detail = "") then "" else ": " +:+ Detail) +:+
      match cause with None => "" | Some cause => ": " +:+ text cause end
  | PublishError Stream EventID cause =>
      "redis: publishing event " +:+ EventID +:+ " to stream " +:+ quote Stream +:+ ": " +:+
      match cause with None => "<nil>" | Some cause => text cause end
  end.

(** [Unwrap]: the sentinel, and the cause where there is one. *)
Definition Unwrap {Cause} (e : error Cause) : Sentinel * option Cause :=
  match e with
  | ConfigurationError _ => (ErrConfiguration, None)
  | InvalidEventError _ _ cause => (ErrInvalidEvent, cause)
  | PublishError _ _ cause => (ErrPublish, cause)
  end.

(** ** Retention *)

Definition TrimKeepRef : string := "KEEPREF".
Definition TrimDelRef : string := "DELREF".
Definition TrimAcked : string := "ACKED".

Definition TrimMode_valid (m : string) : bool :=
  bool_decide (m = TrimKeepRef) || bool_decide (m = TrimDelRef) || bool_decide (m = TrimAcked).

Module retention.
Record t : Type := mk { maxLen : option Z; maxAge : option Z; mode : string; exact : bool }.
#[global] Instance eta : Eta t := fun x => mk (maxLen x) (maxAge x) (mode x) (exact x).
Definition zero : t := mk None None "" false.
End retention.

Definition not_positive (bound : option Z) : bool :=
  match bound with Some n => bool_decide (n <= 0)%Z | None => false end.

Definition validate {Cause} (r : retention.t) : option (error Cause) :=
  let maxLen := retention.maxLen r in
  let maxAge := retention.maxAge r in
  if not_positive maxLen then Some (ConfigurationError
    "the stream length bound must be positive; omit WithMaxLen to leave the stream unbounded")
  else if not_positive maxAge then Some (ConfigurationError
    "the stream age bound must be positive; omit WithMaxAge to leave the stream unbounded")
  else if bool_decide (maxLen <> None) && bool_decide (maxAge <> None) then Some (ConfigurationError
    "the stream can be bounded by length or by age, not both; choose WithMaxLen or WithMaxAge")
  else if (bool_decide (retention.mode r <> "") || retention.exact r) &&
          bool_decide (maxLen = None) && bool_decide (maxAge = None)
  then Some (ConfigurationError
    ((if decide (retention.mode r = "") then "WithExactTrim" else "WithTrimMode") +:+
     " needs WithMaxLen or WithMaxAge; on its own it trims nothing"))
  else if bool_decide (retention.mode r <> "") && negb (TrimMode_valid (retention.mode r))
  then Some (ConfigurationError
    ("trim mode " +:+ quote (retention.mode r) +:+ " is not TrimKeepRef, TrimDelRef or TrimAcked"))
  else None.

(** The arguments of one append; a zero [MaxLen], an empty [MinID] and an empty
    [Mode] are not sent. *)
Module XAddArgs.
Record t : Type := mk {
  Stream : string;
  Values : list (string * string);
  MaxLen : Z;
  MinID : string;
  Approx : bool;
  Mode : string
}.
#[global] Instance eta : Eta t := fun x => mk (Stream x) (Values x) (MaxLen x) (MinID x) (Approx x) (Mode x).
End XAddArgs.

(** [t.UnixMilli()]. *)
Definition UnixMilli (t : Time) : Z := wrap64 ((t - unixToInternal * 1000000000) / 1000000).

Definition trim (r : retention.t) (args : XAddArgs.t) (now : Time) : XAddArgs.t :=
  let args := args <| XAddArgs.Mode := retention.mode r |> in
  match retention.maxLen r, retention.maxAge r with
  | Some n, _ => args <| XAddArgs.MaxLen := n |> <| XAddArgs.Approx := negb (retention.exact r) |>
  | None, Some age =>
      args <| XAddArgs.MinID := pretty (UnixMilli (now - age)) +:+ "-0" |>
           <| XAddArgs.Approx := negb (retention.exact r) |>
  | None, None => args
  end.

(** ** The sink *)

Module Sink.
Record t : Type := mk { name : string; stream : string; timeout : Z; retention : retention.t; clock : nat -> Time }.
#[global] Instance eta : Eta t := fun x => mk (name x) (stream x) (timeout x) (retention x) (clock x).
End Sink.

Inductive Option : Type :=
| WithName (name : string)
| WithStream (stream : string)
| WithTimeout (timeout : Z)
| WithMaxLen (n : Z)
| WithMaxAge (age : Z)
| WithTrimMode (mode : string)
| WithExactTrim
| WithClock (clock : option (nat -> Time)).

Definition on_retention (f : retention.t -> retention.t) (s : Sink.t) : Sink.t :=
  s <| Sink.retention := f (Sink.retention s) |>.

Definition apply_option (opt : Option) (s : Sink.t) : Sink.t :=
  match opt with
  | WithName name => s <| Sink.name := name |>
  | WithStream stream => s <| Sink.stream := stream |>
  | WithTimeout timeout => s <| Sink.timeout := timeout |>
  | WithMaxLen n => on_retention (fun r => r <| retention.maxLen := Some n |>) s
  | WithMaxAge age => on_retention (fun r => r <| retention.maxAge := Some age |>) s
  | WithTrimMode mode => on_retention (fun r => r <| retention.mode := mode |>) s
  | WithExactTrim => on_retention (fun r => r <| retention.exact := true |>) s
  | WithClock (Some clock) => s <| Sink.clock := clock |>
  | WithClock None => s
  end.

(** [client] says that the client given is not nil. *)
Definition New {Cause} (SystemClock : nat -> Time) (client : bool) (opts : list Option)
  : result (error Cause) Sink.t :=
  let cfg := for_each apply_option opts
    (Sink.mk DefaultName DefaultStream DefaultTimeout retention.zero SystemClock) in
  if negb client then Err (ConfigurationError "a Redis client is required")
  else if decide (Sink.name cfg = "") then Err (ConfigurationError "the sink name must not be empty")
  else if decide (Sink.stream cfg = "") then Err (ConfigurationError "the stream name must not be empty")
  else if decide (Sink.timeout cfg <= 0)%Z then Err (ConfigurationError "the publish timeout must be positive")
  else match validate (Sink.retention cfg) with Some err => Err err | None => Ok cfg end.

(** ** The message *)

Section delivering.
Context {Cause : Type} (text : Cause -> string) (Marshal : Event.t -> result Cause string).

Definition no_identifier : string := "the event has no identifier, so a consumer could not de-duplicate it".
Definition no_json : string := "the event will not marshal to JSON".

Definition present (pair : string * string) : bool := negb (bool_decide (pair.2 = "")).

Definition message (attempt : Attempt.t) : result (error Cause) (list (string * string)) :=
  let event := Attempt.Event attempt in
  if decide (Event.ID event = "") then Err (InvalidEventError (Event.TaskID event) no_identifier None)
  else
    match Marshal event with
    | Err cause => Err (InvalidEventError (Event.TaskID event) no_json (Some cause))
    | Ok encoded =>
        let values :=
          [(FieldSchema, Schema);
           (FieldEventID, Event.ID event);
           (FieldDeliveryID, Attempt.DeliveryID attempt);
           (FieldAttempt, pretty (Attempt.Number attempt));
           (FieldEventType, EventType_String (Event.Type_ event));
           (FieldTaskID, Event.TaskID event);
           (FieldTaskType, Event.TaskType event);
           (FieldStatus, Status_String (Event.Status event));
           (FieldVersion, pretty (Event.Version event));
           (FieldOccurredAt, format_nano (Event.OccurredAt event))] in
        let optional :=
          [(FieldActor, Event.Actor event);
           (FieldAssignee, Event.Assignee event);
           (FieldOwnerType, CorrelationData.OwnerType (Event.Correlation event));
           (FieldOwnerRef, CorrelationData.OwnerRef (Event.Correlation event));
           (FieldActivityKey, CorrelationData.ActivityKey (Event.Correlation event))] in
        Ok (values ++ filter (fun pair => present pair = true) optional ++ [(FieldEvent, encoded)])
    end.

(** ** Delivering *)

(** The client answered, with the error it gives if any, or the context did. *)
Inductive Answer : Type :=
| Answered (err : option Cause)
| Expired (err : Cause).

(** An append under a context that ends after [timeout]. *)
Inductive call : Type -> Type :=
| XAdd (timeout : Z) (args : XAddArgs.t) : call Answer.

Definition xadd_args (s : Sink.t) (tick : nat) (values : list (string * string)) : XAddArgs.t :=
  trim (Sink.retention s) (XAddArgs.mk (Sink.stream s) values 0 "" false "") (Sink.clock s tick).

Definition publish (s : Sink.t) (tick : nat) (values : list (string * string)) : prog call (option Cause) :=
  do! answer := Interaction.call (XAdd (Sink.timeout s) (xadd_args s tick values)) in
  Ret match answer with Answered err => err | Expired err => Some err end.

Definition as_error (e : error Cause) : Errors.error := ExternalError (Error text e) [].

Definition Deliver (s : Sink.t) (tick : nat) (attempt : Attempt.t) : prog call Outcome.t :=
  match message attempt with
  | Err err => Ret (Outcome.Permanent (as_error err))
  | Ok values =>
      do! err := publish s tick values in
      Ret match err with
          | Some cause =>
              Outcome.Retryable (as_error (PublishError (Sink.stream s) (Event.ID (Attempt.Event attempt)) (Some cause)))
          | None => Outcome.Delivered
          end
  end.
End delivering.
