(* ===== verification/RedisFacts.v ===== *)
(** * RedisFacts: what the Redis sink promises

    A consumer reads from an entry's fields what the event holds, the instant to
    the nanosecond.  On a stream that this sink's publications alone grow, those
    abandoned included, every delivery the relay is told of is on the record, in
    order, and the bound never drops what it was to keep. *)

From Stdlib Require Import Ascii.
From S2P Require Import Prelude Domain Errors Event Ident Calendar Sqlkit Text Relay Webhook Interaction RedisSink.

(** ** Reading an entry *)

(** The values a consumer finds, by field. *)
Definition fields (values : list (string * string)) : gmap string string := list_to_map values.

(** An optional field is there when there is something to say. *)
Definition said (value : string) : option string := if decide (value = "") then None else Some value.

Definition flat_fields : list string :=
  [FieldSchema; FieldEventID; FieldDeliveryID; FieldAttempt; FieldEventType; FieldTaskID; FieldTaskType;
   FieldStatus; FieldVersion; FieldOccurredAt].
Definition optional_fields : list string :=
  [FieldActor; FieldAssignee; FieldOwnerType; FieldOwnerRef; FieldActivityKey].

Section reading.
Context {Cause : Type} (Marshal : Event.t -> result Cause string).

Lemma sublist_filter_fst (l : list (string * string)) : (filter (fun pair => present pair = true) l).*1 `sublist_of` l.*1.
Proof. induction l as [|x l IH]; [done|]. rewrite filter_cons. case_decide; cbn; by constructor. Qed.

Ltac in_list := cbn [app]; repeat first [apply list_elem_of_here | apply list_elem_of_further].

Section optional.
Context (pre opt post : list (string * string)) (Hnd : NoDup (pre ++ opt ++ post).*1).

Lemma written_NoDup : NoDup (pre ++ filter (fun pair => present pair = true) opt ++ post).*1.
Proof.
  eapply sublist_NoDup; [exact Hnd|]. rewrite !fmap_app.
  apply sublist_app; [done|]. apply sublist_app; [apply sublist_filter_fst|done].
Qed.

Lemma required_field k v : (k, v) ∈ pre ++ post ->
  fields (pre ++ filter (fun pair => present pair = true) opt ++ post) !! k = Some v.
Proof. intros H. apply elem_of_list_to_map_1; [apply written_NoDup|]. set_solver. Qed.

Lemma optional_field k v : (k, v) ∈ opt ->
  fields (pre ++ filter (fun pair => present pair = true) opt ++ post) !! k = said v.
Proof.
  intros H. unfold said. case_decide as Hv.
  - apply not_elem_of_list_to_map_1. subst v. intros ([k' v'] & Hk & Hin)%list_elem_of_fmap. cbn in Hk. subst k'.
    assert (Hp : present (k, v') = true -> (k, v') <> (k, "")) by (intros Hp [= ->]; discriminate Hp).
    rewrite !elem_of_app, list_elem_of_filter in Hin.
    assert (Hsame : forall x y, x ∈ pre ++ opt ++ post -> y ∈ pre ++ opt ++ post -> x.1 = y.1 -> x = y).
    { intros x y [i Hi]%list_elem_of_lookup [j Hj]%list_elem_of_lookup Hxy.
      assert (i = j) as -> by (eapply NoDup_lookup; [exact Hnd|rewrite list_lookup_fmap, Hi; done|
        rewrite list_lookup_fmap, Hj; cbn; by rewrite Hxy]). congruence. }
    assert (Heq : (k, v') = (k, "") ) by (apply Hsame; rewrite ?elem_of_app; naive_solver).
    destruct Hin as [Hin|[ [Hpr _]|Hin] ]; [|by apply Hp|].
    all: injection Heq as ->; rewrite !fmap_app in Hnd; apply (list_elem_of_fmap_2 fst) in Hin, H;
      rewrite !NoDup_app in Hnd; set_solver.
  - apply elem_of_list_to_map_1; [apply written_NoDup|]. rewrite !elem_of_app, list_elem_of_filter.
    right. left. split; [|done]. unfold present. cbn. by rewrite bool_decide_eq_false_2.
Qed.
End optional.

(** An entry of the stream holds the event.  An attempt renders exactly when its
    event has an identifier and encodes; then no field is written twice, ten fields
    are always there, and a consumer reads from them the identifiers, the type, the
    status, the number of the attempt, the version and the instant to the
    nanosecond, an optional field exactly where the event says something, and the
    whole event as it was encoded. *)
Theorem redis_message_readable attempt : let event := Attempt.Event attempt in
  (is_ok (message Marshal attempt) = true <-> Event.ID event <> "" /\ is_ok (Marshal event) = true) /\
  forall values, message Marshal attempt = Ok values ->
    NoDup values.*1 /\ values.*1 `sublist_of` flat_fields ++ optional_fields ++ [FieldEvent] /\
    fields values !! FieldSchema = Some Schema /\
    fields values !! FieldEventID = Some (Event.ID event) /\
    fields values !! FieldDeliveryID = Some (Attempt.DeliveryID attempt) /\
    ((- 2 ^ 63 <= Attempt.Number attempt <= max_int64)%Z ->
     fields values !! FieldAttempt ≫= Atoi = Some (Attempt.Number attempt)) /\
    fields values !! FieldEventType = Some (EventType_String (Event.Type_ event)) /\
    fields values !! FieldTaskID = Some (Event.TaskID event) /\
    fields values !! FieldTaskType = Some (Event.TaskType event) /\
    fields values !! FieldStatus = Some (Status_String (Event.Status event)) /\
    ((- 2 ^ 63 <= Event.Version event <= max_int64)%Z ->
     fields values !! FieldVersion ≫= Atoi = Some (Event.Version event)) /\
    ((0 <= Event.OccurredAt event < year_10000)%Z ->
     fields values !! FieldOccurredAt ≫= time_parse RFC3339Nano = Some (Event.OccurredAt event)) /\
    fields values !! FieldActor = said (Event.Actor event) /\
    fields values !! FieldAssignee = said (Event.Assignee event) /\
    fields values !! FieldOwnerType = said (CorrelationData.OwnerType (Event.Correlation event)) /\
    fields values !! FieldOwnerRef = said (CorrelationData.OwnerRef (Event.Correlation event)) /\
    fields values !! FieldActivityKey = said (CorrelationData.ActivityKey (Event.Correlation event)) /\
    Ok (default "" (fields values !! FieldEvent)) = Marshal event.
Proof.
  intros event. unfold message. fold event. split.
  - case_decide as Hid; [cbn; naive_solver|]. destruct (Marshal event); cbn; naive_solver.
  - intros values. case_decide as Hid; [done|]. destruct (Marshal event) as [encoded|cause] eqn:HM; [|done].
    intros Hmsg. match type of Hmsg with Ok (?pre ++ filter _ ?opt ++ ?post) = _ =>
      assert (Hnd : NoDup (pre ++ opt ++ post).*1) by (apply (bool_decide_unpack _); vm_compute; exact I);
      assert (Hreq := required_field pre opt post Hnd); assert (Hopt := optional_field pre opt post Hnd);
      assert (Hw := written_NoDup pre opt post Hnd);
      assert (Hval : values = pre ++ filter (fun pair => present pair = true) opt ++ post) by congruence
    end.
    rewrite <- Hval in Hreq, Hopt, Hw. clear Hmsg. split; [exact Hw|].
    split. { rewrite Hval, !fmap_app. apply sublist_app; [done|]. apply sublist_app; [apply sublist_filter_fst|done]. }
    split_and!; try (apply Hreq; in_list); try (apply Hopt; in_list).
    + intros Hn. erewrite Hreq by in_list. cbn. by apply Atoi_pretty.
    + intros Hn. erewrite Hreq by in_list. cbn. by apply Atoi_pretty.
    + intros Hn. erewrite Hreq by in_list. cbn [mbind option_bind]. by apply format_nano_back.
    + erewrite Hreq by in_list. done.
Qed.
End reading.

(** ** The stream

    What a broker does of an append, as Redis documents XADD: the entry comes
    last, under an identifier that begins with the broker's milliseconds, and the
    oldest are dropped as the arguments say: down to a length or up to an age,
    exactly that far, or no further than that.  A trim that spares what a group
    has not acknowledged may stop short of its bound. *)

Module Entry.
Record t : Type := mk { Millis : Z; Values : list (string * string) }.
End Entry.

(** Everything appended, and how much of it is gone. *)
Module Stream.
Record t : Type := mk { log : list Entry.t; trimmed : nat }.
Definition kept (st : t) : list Entry.t := drop (trimmed st) (log st).
End Stream.

Definition bound (args : XAddArgs.t) (log : list Entry.t) (from to : nat) : Prop :=
  let exact := XAddArgs.Approx args = false /\ XAddArgs.Mode args <> TrimAcked in
  let kept := Z.of_nat (length log - to) in
  if decide (0 < XAddArgs.MaxLen args)%Z then
    (Z.min (XAddArgs.MaxLen args) (Z.of_nat (length log - from)) <= kept /\
     (exact -> kept <= XAddArgs.MaxLen args))%Z
  else if decide (XAddArgs.MinID args <> "") then
    forall ms, XAddArgs.MinID args = pretty ms +:+ "-0" ->
      Forall (fun e => Entry.Millis e < ms)%Z (take (to - from) (drop from log)) /\
      (exact -> Forall (fun e => ms <= Entry.Millis e)%Z (drop to log))
  else to = from.

Definition adds (args : XAddArgs.t) (st st' : Stream.t) : Prop :=
  exists ms, Stream.log st' = Stream.log st ++ [Entry.mk ms (XAddArgs.Values args)] /\
    Stream.trimmed st <= Stream.trimmed st' <= length (Stream.log st') /\
    bound args (Stream.log st') (Stream.trimmed st) (Stream.trimmed st').

(** An append that is answered well was made.  After any other answer it was not
    made yet. *)
Definition answers {Cause} X (e : call (Cause := Cause) X) (st : Stream.t) : X -> Stream.t -> Prop :=
  match e with
  | XAdd _ args => fun answer st' =>
      match answer with Answered None => adds args st st' | _ => st' = st end
  end.

Section retaining.
Context {Cause : Type} (text : Cause -> string) (Marshal : Event.t -> result Cause string) (s : Sink.t).

Abbreviation Offered := (nat * Attempt.t)%type.

(** Between two calls appends of this sink arrive that were abandoned, that the
    client repeats, or that other processes make. *)
Definition arrives (st st' : Stream.t) : Prop :=
  exists tick attempt values, message Marshal attempt = Ok values /\ adds (xadd_args s tick values) st st'.

Definition deliver_each : list Offered -> list Outcome.t -> prog call (list Outcome.t) :=
  loop (fun '(tick, attempt) outs => do! out := Deliver text Marshal s tick attempt in Ret (outs ++ [out])).

(** The messages of the attempts that were told delivered. *)
Definition delivered (offers : list Offered) (outs : list Outcome.t) : list (list (string * string)) :=
  omap (fun '((_, attempt), out) =>
    match message Marshal attempt with
    | Ok values => match Outcome.Status out with OutcomeDelivered => Some values | _ => None end
    | Err _ => None
    end) (zip offers outs).

(** What the bound was to keep is there. *)
Definition Within (st : Stream.t) : Prop :=
  Stream.trimmed st <= length (Stream.log st) /\
  match retention.maxLen (Sink.retention s), retention.maxAge (Sink.retention s) with
  | Some n, _ => (Z.min n (Z.of_nat (length (Stream.log st))) <= Z.of_nat (length (Stream.kept st)))%Z
  | None, Some age =>
      Forall (fun e => exists tick, Entry.Millis e < UnixMilli (Sink.clock s tick - age))%Z
        (take (Stream.trimmed st) (Stream.log st))
  | None, None => Stream.trimmed st = 0
  end.

Definition Exactly (st : Stream.t) : Prop :=
  retention.exact (Sink.retention s) = true -> retention.mode (Sink.retention s) <> TrimAcked ->
  forall n, retention.maxLen (Sink.retention s) = Some n -> (Z.of_nat (length (Stream.kept st)) <= n)%Z.

Context (Hvalid : validate (Cause := Cause) (Sink.retention s) = None).

Lemma valid_bounds :
  (forall n, retention.maxLen (Sink.retention s) = Some n -> (0 < n)%Z) /\
  (retention.maxLen (Sink.retention s) <> None -> retention.maxAge (Sink.retention s) = None).
Proof.
  revert Hvalid. unfold validate, not_positive. intros H.
  destruct (retention.maxLen _) as [n|] eqn:En; [|split; [discriminate|congruence]].
  destruct (bool_decide (n <= 0)%Z) eqn:E; [discriminate H|]. apply bool_decide_eq_false in E.
  split; [intros m Hm; injection Hm as <-; lia|].
  destruct (retention.maxAge _) as [age|]; [|done]. destruct (bool_decide (age <= 0)%Z); discriminate H.
Qed.

Lemma adds_within tick values st st' : adds (xadd_args s tick values) st st' ->
  Within st -> Within st' /\ Exactly st'.
Proof.
  intros (ms & Hlog & Ht & Hb) [Ht0 HW]. destruct valid_bounds as [Hpos Hone].
  unfold Within, Exactly, Stream.kept. rewrite !length_drop.
  unfold bound, xadd_args, trim in Hb.
  destruct (retention.maxLen (Sink.retention s)) as [n|].
  - specialize (Hpos n eq_refl). unfold Stream.kept in HW. rewrite length_drop in HW.
    cbn in Hb. rewrite decide_True in Hb by done. destruct Hb as [Hlow Hhigh].
    assert (Hl : length (Stream.log st') = S (length (Stream.log st))) by (rewrite Hlog, length_app; cbn; lia).
    split; [split; [lia|]|].
    + lia.
    + intros Hex Hm m [= <-]. apply Hhigh. by rewrite Hex.
  - split; [|intros _ _ m; discriminate]. split; [lia|]. destruct (retention.maxAge (Sink.retention s)) as [age|].
    + cbn in Hb. rewrite decide_False, decide_True in Hb.
      3: lia. 2: { intros H. apply (f_equal String.length) in H. rewrite length_append in H. cbn in H. lia. }
      destruct (Hb _ eq_refl) as [Hd _].
      replace (Stream.trimmed st') with (Stream.trimmed st + (Stream.trimmed st' - Stream.trimmed st)) by lia.
      rewrite <- take_take_drop. apply Forall_app. split.
      * rewrite Hlog, take_app_le by done. exact HW.
      * eapply Forall_impl; [exact Hd|]. intros e He. by exists tick.
    + cbn in Hb. rewrite decide_False, decide_False in Hb by (first [lia | naive_solver]). lia.
Qed.
Lemma adds_log args st st' : adds args st st' ->
  exists e, Stream.log st' = Stream.log st ++ [e] /\ Entry.Values e = XAddArgs.Values args.
Proof. intros (ms & Hl & _). by eexists. Qed.

Lemma xadd_values tick values : XAddArgs.Values (xadd_args s tick values) = values.
Proof.
  unfold xadd_args, trim. destruct (retention.maxLen _); [done|]. by destruct (retention.maxAge _).
Qed.

(** What has happened since [st0]: [offers] were made and answered as [outs]. *)
Definition since (st0 : Stream.t) (offers : list Offered) (outs : list Outcome.t) (st : Stream.t) : Prop :=
  Within st /\
  (Exactly st \/ st = st0 /\ ~ exists out, out ∈ outs /\ Outcome.Status out = OutcomeDelivered) /\
  Forall2 (fun '(_, attempt) out =>
    OutcomeStatus_Valid (Outcome.Status out) = true /\
    (Outcome.Status out = OutcomePermanent <-> is_ok (message Marshal attempt) = false)) offers outs /\
  exists new, Stream.log st = Stream.log st0 ++ new /\
    Forall (fun e => exists attempt, message Marshal attempt = Ok (Entry.Values e)) new /\
    delivered offers outs `sublist_of` Entry.Values <$> new.

Lemma since_adds st0 offers outs st tick attempt values st' : since st0 offers outs st ->
  message Marshal attempt = Ok values -> adds (xadd_args s tick values) st st' ->
  since st0 offers outs st' /\ Exactly st' /\
  (forall out, Outcome.Status out = OutcomeDelivered -> since st0 (offers ++ [(tick, attempt)]) (outs ++ [out]) st').
Proof.
  intros (HW & _ & HF & new & Hl & Hnew & Hsub) Hm Ha.
  destruct (adds_within _ _ _ _ Ha HW) as [HW' HE'].
  destruct (adds_log _ _ _ Ha) as (e & He & Hv). rewrite xadd_values in Hv.
  assert (Hl' : Stream.log st' = Stream.log st0 ++ new ++ [e]) by (by rewrite He, Hl, (assoc_L app)).
  assert (Hnew' : Forall (fun e => exists attempt, message Marshal attempt = Ok (Entry.Values e)) (new ++ [e])).
  { apply Forall_app. split; [done|]. apply Forall_singleton. exists attempt. by rewrite Hv. }
  unfold since. split; [|split; [done|intros out Ho]].
  - split_and!; [done|by left|done|]. exists (new ++ [e]). split_and!; [done..|].
    rewrite fmap_app. by apply sublist_inserts_r.
  - split_and!; [done|by left| |].
    + apply Forall2_app; [done|]. constructor; [|constructor]. rewrite Ho, Hm. done.
    + exists (new ++ [e]). split_and!; [done..|]. unfold delivered.
      rewrite zip_with_app by (by eapply Forall2_length). rewrite omap_app, fmap_app. cbn [zip_with].
      apply sublist_app; [done|]. cbn. rewrite Hm, Ho, Hv. done.
Qed.

Lemma since_arrives st0 offers outs st st' : since st0 offers outs st -> rtc arrives st st' ->
  since st0 offers outs st'.
Proof.
  intros H Hr. induction Hr as [|st st1 st2 (tick & attempt & values & Hm & Ha) _ IH]; [done|].
  apply IH. by eapply since_adds.
Qed.

(** An outcome that tells of no entry. *)
Lemma since_out st0 offers outs st tick attempt out : since st0 offers outs st ->
  Outcome.Status out <> OutcomeDelivered -> OutcomeStatus_Valid (Outcome.Status out) = true ->
  (Outcome.Status out = OutcomePermanent <-> is_ok (message Marshal attempt) = false) ->
  since st0 (offers ++ [(tick, attempt)]) (outs ++ [out]) st.
Proof.
  intros (HW & HE & HF & new & Hl & Hnew & Hsub) Ho Hv Hp. unfold since. split_and!; [done| | |].
  - destruct HE as [HE | [-> Hno] ]; [by left|right]. split; [done|].
    intros (x & [Hx | ->%list_elem_of_singleton]%elem_of_app & Hd); [|done]. apply Hno. eauto.
  - apply Forall2_app; [done|]. constructor; [by split|constructor].
  - exists new. split_and!; [done..|]. unfold delivered.
    rewrite zip_with_app by (by eapply Forall2_length). rewrite omap_app. cbn [zip_with]. cbn [omap list_omap].
    destruct (message Marshal attempt); [|by rewrite (right_id_L [] app)].
    destruct (Outcome.Status out); by rewrite ?(right_id_L [] app).
Qed.

End retaining.

Lemma New_valid {Cause} clock opts s : New (Cause := Cause) clock true opts = Ok s ->
  validate (Cause := Cause) (Sink.retention s) = None.
Proof.
  unfold New. cbn [negb]. repeat (case_decide; [done|]). destruct (validate _) eqn:E; [done|]. intros HN.
  injection HN as <-. exact E.
Qed.

(** What the sink says it delivered is on the stream.  A sink that was built
    delivers any number of attempts, while appends of its own that were abandoned or
    repeated, or that other processes make, arrive in between.  Each attempt is
    answered, and permanently exactly when its event cannot be rendered.  The stream
    only grows at its end, by messages of attempts; the messages of the attempts
    answered delivered are among them in the order they were made; and the bound has
    dropped none of what it keeps: the latest entries up to the length, or those not
    older than the age at some reading of the clock, or all of them without a bound.
    After an exact trim by length no more are left than the bound. *)
Theorem redis_stream_keeps_delivered {Cause} (text : Cause -> string) Marshal clock opts s offers st :
  New (Cause := Cause) clock true opts = Ok s -> Within s st ->
  wp (rtc (arrives Marshal s)) (fun _ _ _ => True) answers (deliver_each text Marshal s offers [])
    (fun outs st' => since Marshal s st offers outs st') st.
Proof.
  intros HN HW. pose proof (New_valid _ _ _ HN) as Hvalid.
  assert (H0 : since Marshal s st [] [] st).
  { unfold since. split_and!; [done| |constructor|].
    - right. split; [done|]. intros (x & []%elem_of_nil & _).
    - exists []. rewrite (right_id_L [] app). split_and!; [done|constructor..]. }
  assert (HL : exists past, past ++ offers = offers /\ since Marshal s st past [] st) by (by exists []).
  eapply wp_mono; [|refine (wp_loop _ _ _ _ (fun rest outs st' =>
    exists past, past ++ rest = offers /\ since Marshal s st past outs st') offers [] st _ HL)].
  { cbn. intros outs st' (past & <- & H). by rewrite (right_id_L [] app). }
  clear HL. intros [tick attempt] rest outs st1 (past & Hpast & H).
  assert (Hstep : forall out st2, since Marshal s st (past ++ [(tick, attempt)]) (outs ++ [out]) st2 ->
    exists past, past ++ rest = offers /\ since Marshal s st past (outs ++ [out]) st2).
  { intros out st2 H2. exists (past ++ [(tick, attempt)]). by rewrite <- (assoc_L app). }
  apply wp_bind. unfold Deliver. destruct (message Marshal attempt) as [values|err] eqn:Hm.
  - apply wp_bind. unfold publish. apply wp_bind, wp_call. intros st2 Hr. split; [done|].
    apply (since_arrives _ _ Hvalid _ _ _ _ _ H) in Hr.
    intros [ [cause|] | cause ] st3 Hx; cbn in Hx |- *; apply Hstep.
    1, 3: subst st3; apply since_out; [done..|by rewrite Hm].
    destruct (since_adds _ _ Hvalid _ _ _ _ _ _ _ _ Hr Hm Hx) as (_ & _ & Hd). by apply Hd.
  - cbn. apply Hstep, since_out; [done..|by rewrite Hm].
Qed.
