(* ===== verification/NatsSink.v ===== *)
(** * NatsSink: the sinks that publish to NATS

    Models [delivery/nats]: the settings both sinks share and the subject prefix
    they allow ([sink.go]), the message an event becomes ([message.go]), the
    delivery of each sink and how its end is classified ([sink.go],
    [jetstream.go]), and the errors ([errors.go]).

    A delivery is a program whose calls are the context's and the client's.  The
    client's errors are the type [Cause], with two of its sentinels as predicates;
    the encoding of an event and the reading of a header are arguments.  A string
    is its bytes; white space is that of [unicode.IsSpace], in UTF-8. *)

From Stdlib Require Import Ascii.
From S2P Require Import Prelude Domain Errors Event Text Relay Interaction.


Definition DefaultName : string := "nats".
Definition DefaultJetStreamName : string := "jetstream".
Definition DefaultSubjectPrefix : string := "hmntsk.events".
Definition DefaultTimeout : Z := (5 * 1000000000)%Z.
Definition Schema : string := "hmntsk.nats.event.v1".
Definition ContentType : string := "application/json".

Definition HeaderEventID : string := "Hmntsk-Event-Id".
Definition HeaderDeliveryID : string := "Hmntsk-Delivery-Id".
Definition HeaderAttempt : string := "Hmntsk-Attempt".
Definition HeaderEventType : string := "Hmntsk-Event-Type".
Definition HeaderTaskID : string := "Hmntsk-Task-Id".
Definition HeaderTaskType : string := "Hmntsk-Task-Type".
Definition HeaderOwnerType : string := "Hmntsk-Correlation-Owner-Type".
Definition HeaderOwnerRef : string := "Hmntsk-Correlation-Owner-Ref".
Definition HeaderActivityKey : string := "Hmntsk-Correlation-Activity-Key".
Definition HeaderSchema : string := "Hmntsk-Schema".

(** ** Errors *)

Inductive Sentinel : Type := ErrConfiguration | ErrInvalidEvent | ErrPublish.

Inductive error (Cause : Type) : Type :=
| ConfigurationError (Detail : string)
| InvalidEventError (TaskID Detail : string) (cause : option Cause)
| PublishError (Subject EventID : string) (cause : option Cause).
Arguments ConfigurationError {Cause} Detail.
Arguments InvalidEventError {Cause} TaskID Detail cause.
Arguments PublishError {Cause} Subject EventID cause.

Definition Error {Cause} (text : Cause -> string) (e : error Cause) : string :=
  match e with
  | ConfigurationError Detail => "nats: invalid configuration: " +:+ Detail
  | InvalidEventError TaskID Detail cause =>
      (if decide (TaskID = "") then "nats: invalid event" else "nats: invalid event for task " +:+ TaskID) +:+
      (if decide (Detail = "") then "" else ": " +:+ Detail) +:+
      match cause with None => "" | Some cause => ": " +:+ text cause end
  | PublishError Subject EventID cause =>
      "nats: publishing event " +:+ EventID +:+ " to subject " +:+ quote Subject +:+ ": " +:+
      match cause with None => "<nil>" | Some cause => text cause end
  end.

(** [Unwrap]: the sentinel, and the cause where there is one. *)
Definition Unwrap {Cause} (e : error Cause) : Sentinel * option Cause :=
  match e with
  | ConfigurationError _ => (ErrConfiguration, None)
  | InvalidEventError _ _ cause => (ErrInvalidEvent, cause)
  | PublishError _ _ cause => (ErrPublish, cause)
  end.

(** ** Settings *)

Module config.
Record t : Type := mk { name : string; subjectPrefix : string; timeout : Z }.
#[global] Instance eta : Eta t := fun x => mk (name x) (subjectPrefix x) (timeout x).
End config.

Module jetStreamConfig.
Record t : Type := mk { config : config.t; expectStream : string; expectStreamSet : bool }.
#[global] Instance eta : Eta t := fun x => mk (config x) (expectStream x) (expectStreamSet x).
End jetStreamConfig.

Inductive Option : Type :=
| WithName (name : string)
| WithSubjectPrefix (prefix : string)
| WithTimeout (timeout : Z).

Inductive JetStreamOption : Type :=
| Shared (opt : Option)
| WithExpectStream (stream : string).

Definition apply_option (opt : Option) (c : config.t) : config.t :=
  match opt with
  | WithName name => c <| config.name := name |>
  | WithSubjectPrefix prefix => c <| config.subjectPrefix := prefix |>
  | WithTimeout timeout => c <| config.timeout := timeout |>
  end.

Definition applyJetStream (opt : JetStreamOption) (c : jetStreamConfig.t) : jetStreamConfig.t :=
  match opt with
  | Shared opt => c <| jetStreamConfig.config := apply_option opt (jetStreamConfig.config c) |>
  | WithExpectStream stream =>
      c <| jetStreamConfig.expectStream := stream |> <| jetStreamConfig.expectStreamSet := true |>
  end.

Definition defaultConfig (name : string) : config.t := config.mk name DefaultSubjectPrefix DefaultTimeout.

(** [strings.SplitSeq(s, ".")]. *)
Fixpoint split_dots (s : string) : list string :=
  match s with
  | EmptyString => [""]
  | String c rest =>
      if decide (c = "."%char) then "" :: split_dots rest
      else match split_dots rest with
           | token :: tokens => String c token :: tokens
           | [] => [String c ""]
           end
  end.

(** The loop over the tokens. *)
Fixpoint bad_token (prefix : string) (tokens : list string) : option string :=
  match tokens with
  | [] => None
  | token :: rest =>
      if decide (token = "")
      then Some ("the subject prefix " +:+ quote prefix +:+
                 " has an empty token; remove the leading, trailing or doubled dot")
      else if decide (token = "*" \/ token = ">")
      then Some ("the subject prefix " +:+ quote prefix +:+ " contains the wildcard " +:+ quote token +:+
                 ", and a message cannot be published to a wildcard")
      else bad_token prefix rest
  end.

Definition validateSubjectPrefix {Cause} (prefix : string) : option (error Cause) :=
  if decide (prefix = "")
  then Some (ConfigurationError ("the subject prefix must not be empty; omit WithSubjectPrefix to keep " +:+
                                 quote DefaultSubjectPrefix))
  else if has_space prefix
  then Some (ConfigurationError ("the subject prefix " +:+ quote prefix +:+
                                 " contains whitespace, which a NATS subject cannot"))
  else ConfigurationError <$> bad_token prefix (split_dots prefix).

Definition validate {Cause} (c : config.t) : option (error Cause) :=
  if decide (config.name c = "")
  then Some (ConfigurationError "the sink name must not be empty; omit WithName to keep the default")
  else if decide (config.timeout c <= 0)%Z
  then Some (ConfigurationError "the publish timeout must be positive; omit WithTimeout to keep the default")
  else validateSubjectPrefix (config.subjectPrefix c).

Definition validate_jetstream {Cause} (c : jetStreamConfig.t) : option (error Cause) :=
  match validate (jetStreamConfig.config c) with
  | Some err => Some err
  | None =>
      if jetStreamConfig.expectStreamSet c && bool_decide (jetStreamConfig.expectStream c = "")
      then Some (ConfigurationError
        "the expected stream must not be empty; omit WithExpectStream to publish without the check")
      else None
  end.

(** ** Messages *)

Module Msg.
Record t : Type := mk { Subject : string; Header : gmap string (list string); Data : string }.
End Msg.

(** The options of a publication to JetStream. *)
Inductive PublishOpt : Type :=
| WithRetryAttempts (n : Z)
| ExpectStream (stream : string)
| WithMsgID (id : string).

Module JetStreamSink.
Record t : Type := mk { config : config.t; publishOpts : list PublishOpt }.
End JetStreamSink.

(** [conn] and [js] say that what the host gave is not nil. *)
Definition NewSink {Cause} (conn : bool) (opts : list Option) : result (error Cause) config.t :=
  let cfg := for_each apply_option opts (defaultConfig DefaultName) in
  if negb conn
  then Err (ConfigurationError "a NATS connection is required; pass the *nats.Conn the host dialled")
  else match validate cfg with Some err => Err err | None => Ok cfg end.

Definition NewJetStreamSink {Cause} (js : bool) (opts : list JetStreamOption)
  : result (error Cause) JetStreamSink.t :=
  let cfg := for_each applyJetStream opts (jetStreamConfig.mk (defaultConfig DefaultJetStreamName) "" false) in
  if negb js
  then Err (ConfigurationError "a JetStream context is required; pass jetstream.New on the host's connection")
  else match validate_jetstream cfg with
       | Some err => Err err
       | None =>
           Ok (JetStreamSink.mk (jetStreamConfig.config cfg)
             ([WithRetryAttempts 0] ++
              if jetStreamConfig.expectStreamSet cfg then [ExpectStream (jetStreamConfig.expectStream cfg)] else []))
       end.

Section delivering.
Context {Cause : Type} (text : Cause -> string) (is_max_payload is_bad_subject : Cause -> bool).
Context (Marshal : Event.t -> result Cause string).
Context (Header_Get : gmap string (list string) -> string -> string).

Definition no_identifier : string :=
  "the event has no identifier, so neither a consumer nor a stream could de-duplicate it".
Definition no_json : string := "the event will not marshal to JSON".

(** A header that is left out when there is nothing to say. *)
Definition optional (name value : string) (header : gmap string (list string)) : gmap string (list string) :=
  if decide (value = "") then header else <[ name := [value] ]> header.

Definition header_of (attempt : Attempt.t) : gmap string (list string) :=
  let event := Attempt.Event attempt in
  let header := <[ "Content-Type" := [ContentType] ]> (<[ HeaderSchema := [Schema] ]>
    (<[ HeaderEventID := [Event.ID event] ]> (<[ HeaderDeliveryID := [Attempt.DeliveryID attempt] ]>
    (<[ HeaderAttempt := [pretty (Attempt.Number attempt)] ]>
    (<[ HeaderEventType := [EventType_String (Event.Type_ event)] ]>
    (<[ HeaderTaskID := [Event.TaskID event] ]> (<[ HeaderTaskType := [Event.TaskType event] ]> ∅))))))) in
  let header := optional HeaderOwnerType (CorrelationData.OwnerType (Event.Correlation event)) header in
  let header := optional HeaderOwnerRef (CorrelationData.OwnerRef (Event.Correlation event)) header in
  optional HeaderActivityKey (CorrelationData.ActivityKey (Event.Correlation event)) header.

Definition message (subjectPrefix : string) (attempt : Attempt.t) : result (error Cause) Msg.t :=
  let event := Attempt.Event attempt in
  if decide (Event.ID event = "") then Err (InvalidEventError (Event.TaskID event) no_identifier None)
  else
    match Marshal event with
    | Err cause => Err (InvalidEventError (Event.TaskID event) no_json (Some cause))
    | Ok body =>
        Ok (Msg.mk (subjectPrefix +:+ "." +:+ EventType_String (Event.Type_ event)) (header_of attempt) body)
    end.

(** ** Delivering *)

(** Each call is made under the context of the attempt, which ends after the
    sink's timeout. *)
Inductive call : Type -> Type :=
| CtxErr : call (option Cause)
| PublishMsg (msg : Msg.t) : call (option Cause)
| FlushWithContext (timeout : Z) : call (option Cause)
| JetStreamPublish (timeout : Z) (msg : Msg.t) (opts : list PublishOpt) : call (option Cause).

Definition as_error (e : error Cause) : Errors.error := ExternalError (Error text e) [].

Definition publishFailed (msg : Msg.t) (cause : Cause) : Outcome.t :=
  let err := as_error (PublishError (Msg.Subject msg) (Header_Get (Msg.Header msg) HeaderEventID) (Some cause)) in
  if is_max_payload cause || is_bad_subject cause then Outcome.Permanent err else Outcome.Retryable err.

Definition deliver (cfg : config.t) (attempt : Attempt.t) (publish : Z -> Msg.t -> prog call (option Cause))
  : prog call Outcome.t :=
  match message (config.subjectPrefix cfg) attempt with
  | Err err => Ret (Outcome.Permanent (as_error err))
  | Ok msg =>
      do! err := publish (config.timeout cfg) msg in
      Ret match err with Some cause => publishFailed msg cause | None => Outcome.Delivered end
  end.

Definition publish (timeout : Z) (msg : Msg.t) : prog call (option Cause) :=
  do! ended := Interaction.call CtxErr in
  match ended with
  | Some err => Ret (Some err)
  | None =>
      do! refused := Interaction.call (PublishMsg msg) in
      match refused with
      | Some err => Ret (Some err)
      | None => Interaction.call (FlushWithContext timeout)
      end
  end.

Definition Deliver (cfg : config.t) (attempt : Attempt.t) : prog call Outcome.t := deliver cfg attempt publish.

Definition publish_jetstream (s : JetStreamSink.t) (timeout : Z) (msg : Msg.t) : prog call (option Cause) :=
  Interaction.call (JetStreamPublish timeout msg
    (JetStreamSink.publishOpts s ++ [WithMsgID (Header_Get (Msg.Header msg) HeaderEventID)])).

Definition Deliver_jetstream (s : JetStreamSink.t) (attempt : Attempt.t) : prog call Outcome.t :=
  deliver (JetStreamSink.config s) attempt (publish_jetstream s).
End delivering.
