(* ===== verification/NatsFacts.v ===== *)
(** * NatsFacts: what the NATS sinks promise

    A validated prefix makes subjects that messages can be published to, and one
    attempt makes at most one publication, delivered only when it was confirmed.

    The theorems of [RedisFacts.v] and of this file are then applied to one event, an
    encoding that writes an empty object, and clients whose errors are their texts. *)

From Stdlib Require Import Ascii.
From S2P Require Import Prelude Domain Errors Event Text Relay Interaction NatsSink.

(** ** Subjects *)

(** What NATS asks of the subject of a publication. *)
Definition publishable (subject : string) : Prop :=
  has_space subject = false /\
  Forall (fun token => token <> "" /\ token <> "*" /\ token <> ">") (split_dots subject).

Lemma split_dots_app a b : split_dots (a +:+ "." +:+ b) = split_dots a ++ split_dots b.
Proof.
  induction a as [|c a IH]; [done|]. change (String c a +:+ "." +:+ b) with (String c (a +:+ "." +:+ b)).
  cbn [split_dots]. case_decide; [by rewrite IH|]. rewrite IH.
  destruct (split_dots a) as [|token tokens] eqn:E; [|done].
  destruct a as [|d a]; [done|]. cbn in E. case_decide; [done|]. by destruct (split_dots a).
Qed.

(** A dot is no part of a white space character. *)
Lemma space_rune_app c a b : space_rune (String c a +:+ "." +:+ b) = space_rune (String c a).
Proof.
  destruct a as [|d [|e a] ]; [..|done].
  - change (String c "" +:+ "." +:+ b) with (String c (String "." b)). cbn [space_rune].
    change (byte_is "." 133) with false. change (byte_is "." 160) with false.
    change (byte_is "." 154) with false. change (byte_is "." 128) with false. change (byte_is "." 129) with false.
    rewrite !andb_false_r. destruct b; cbn; by rewrite ?orb_false_r.
  - change (String c (String d "") +:+ "." +:+ b) with (String c (String d (String "." b))). cbn [space_rune].
    change (byte_is "." 128) with false. change (byte_is "." 159) with false. change (byte_is "." 175) with false.
    change (byte_within "." 128 138) with false. change (byte_within "." 168 169) with false.
    by rewrite !andb_false_r, !orb_false_r.
Qed.

Lemma has_space_app a b : has_space (a +:+ "." +:+ b) = has_space a || has_space b.
Proof.
  induction a as [|c a IH]; [cbn; by destruct b as [|? [|? ?]]|].
  change (has_space (String c a +:+ "." +:+ b))
    with (space_rune (String c a +:+ "." +:+ b) || has_space (a +:+ "." +:+ b)).
  rewrite space_rune_app, IH. apply orb_assoc.
Qed.

Lemma event_type_publishable et : EventType_Valid et = true -> publishable (EventType_String et).
Proof.
  destruct et; first [discriminate 1 | intros _; split; [reflexivity|]; cbn; repeat constructor; discriminate].
Qed.

Section facts.
Context {Cause : Type}.

Lemma bad_token_none prefix tokens : bad_token prefix tokens = None <->
  Forall (fun token => token <> "" /\ token <> "*" /\ token <> ">") tokens.
Proof.
  induction tokens as [|token tokens IH]; [by split|]. cbn [bad_token]. rewrite Forall_cons, <- IH.
  case_decide as H1; [naive_solver|]. case_decide as H2; naive_solver.
Qed.

Lemma validateSubjectPrefix_spec prefix :
  validateSubjectPrefix (Cause := Cause) prefix = None <-> publishable prefix.
Proof.
  unfold validateSubjectPrefix, publishable. rewrite <- (bad_token_none prefix). case_decide as H1.
  - split; [done|]. intros [_ H]. subst prefix. by cbn in H.
  - destruct (has_space prefix); [naive_solver|]. destruct (bad_token _ _); naive_solver.
Qed.

Lemma subject_publishable prefix et : publishable prefix -> EventType_Valid et = true ->
  publishable (prefix +:+ "." +:+ EventType_String et).
Proof.
  intros [Hs Ht] Het. destruct (event_type_publishable et Het) as [Hs' Ht']. split.
  - by rewrite has_space_app, Hs, Hs'.
  - rewrite split_dots_app. by apply Forall_app.
Qed.

Lemma validate_prefix c : validate (Cause := Cause) c = None -> publishable (config.subjectPrefix c).
Proof. unfold validate. repeat (case_decide; [done|]). apply validateSubjectPrefix_spec. Qed.

Lemma NewSink_prefix opts cfg : NewSink (Cause := Cause) true opts = Ok cfg -> publishable (config.subjectPrefix cfg).
Proof.
  unfold NewSink. cbn [negb]. destruct (validate _) eqn:E; [done|]. intros HN. injection HN as <-. by apply validate_prefix.
Qed.

Lemma NewJetStreamSink_prefix opts s : NewJetStreamSink (Cause := Cause) true opts = Ok s ->
  publishable (config.subjectPrefix (JetStreamSink.config s)) /\
  exists expected, JetStreamSink.publishOpts s = WithRetryAttempts 0 :: expected /\
    forall opt, opt ∈ expected -> exists stream, opt = ExpectStream stream /\ stream <> "".
Proof.
  unfold NewJetStreamSink, validate_jetstream. cbn [negb]. set (c := for_each _ _ _).
  destruct (validate _) eqn:E; [done|]. destruct (jetStreamConfig.expectStreamSet c && _) eqn:Ex; [done|].
  intros HN. injection HN as <-. cbn. split; [by apply validate_prefix|]. eexists. split; [done|].
  intros opt. destruct (jetStreamConfig.expectStreamSet c); [|by intros []%elem_of_nil].
  intros ->%list_elem_of_singleton. eexists. split; [done|]. by apply bool_decide_eq_false in Ex.
Qed.
End facts.

(** ** One attempt *)

Section delivering.
Context {Cause : Type} (text : Cause -> string) (is_max_payload is_bad_subject : Cause -> bool).
Context (Marshal : Event.t -> result Cause string).
Context (Header_Get : gmap string (list string) -> string -> string).

(** The first value of a header. *)
Context (Header_Get_one : forall header name value, header !! name = Some [value] -> Header_Get header name = value).

Inductive Done : Type := Did (X : Type) (e : call (Cause := Cause) X) (x : X).
Arguments Did {X} e x.

(** The client refuses a subject as bad only when nothing can be published to it;
    the calls made and their answers are recorded. *)
Definition answers X (e : call X) (calls : list Done) : X -> list Done -> Prop :=
  let refuses subject answer :=
    forall cause, answer = Some cause -> is_bad_subject cause = true -> ~ publishable subject in
  match e with
  | PublishMsg msg => fun x calls' => calls' = calls ++ [Did (PublishMsg msg) x] /\ refuses (Msg.Subject msg) x
  | JetStreamPublish timeout msg opts => fun x calls' =>
      calls' = calls ++ [Did (JetStreamPublish timeout msg opts) x] /\ refuses (Msg.Subject msg) x
  | e => fun x calls' => calls' = calls ++ [Did e x] /\
           match e with
           | PublishMsg _ | JetStreamPublish _ _ _ => fun _ => True
           | CtxErr | FlushWithContext _ => fun x => forall cause, x = Some cause -> is_bad_subject cause = false
           end x
  end.

(** How one publication may end, and the error it ends with. *)
Inductive published (timeout : Z) (msg : Msg.t) : list Done -> option Cause -> Prop :=
| cancelled cause : published timeout msg [Did CtxErr (Some cause)] (Some cause)
| refused cause : published timeout msg [Did CtxErr None; Did (PublishMsg msg) (Some cause)] (Some cause)
| flushed answer : published timeout msg
    [Did CtxErr None; Did (PublishMsg msg) None; Did (FlushWithContext timeout) answer] answer.

Definition verdict (out : Outcome.t) (answer : option Cause) : Prop :=
  match answer with
  | None => out = Outcome.Delivered
  | Some cause =>
      Outcome.Status out = if is_max_payload cause then OutcomePermanent else OutcomeRetryable
  end.

Definition attempted (prefix : string) (attempt : Attempt.t) (out : Outcome.t) (calls : list Done)
  (ends : Msg.t -> list Done -> option Cause -> Prop) : Prop :=
  match message Marshal prefix attempt with
  | Err err => calls = [] /\ Outcome.Status out = OutcomePermanent /\
      (Event.ID (Attempt.Event attempt) = "" \/ is_ok (Marshal (Attempt.Event attempt)) = false)
  | Ok msg => Event.ID (Attempt.Event attempt) <> "" /\ publishable (Msg.Subject msg) /\
      split_dots (Msg.Subject msg) = split_dots prefix ++ split_dots (EventType_String (Event.Type_ (Attempt.Event attempt))) /\
      exists answer, ends msg calls answer /\ verdict out answer
  end.

Lemma message_subject prefix attempt msg : message Marshal prefix attempt = Ok msg ->
  Event.ID (Attempt.Event attempt) <> "" /\
  Msg.Subject msg = prefix +:+ "." +:+ EventType_String (Event.Type_ (Attempt.Event attempt)) /\
  Msg.Header msg = header_of attempt /\ Ok (Msg.Data msg) = Marshal (Attempt.Event attempt).
Proof.
  unfold message. case_decide as H1; [done|]. destruct (Marshal _); [|done]. intros H. injection H as <-. by split_and!.
Qed.

Lemma message_err prefix attempt err : message Marshal prefix attempt = Err err ->
  Event.ID (Attempt.Event attempt) = "" \/ is_ok (Marshal (Attempt.Event attempt)) = false.
Proof. unfold message. case_decide; [by left|]. destruct (Marshal _); [done|by right]. Qed.

Lemma header_event_id attempt : Header_Get (header_of attempt) HeaderEventID = Event.ID (Attempt.Event attempt).
Proof.
  apply Header_Get_one. unfold header_of, optional. repeat case_decide; by simplify_map_eq.
Qed.

Lemma publishFailed_verdict msg cause : is_bad_subject cause = false ->
  verdict (publishFailed text is_max_payload is_bad_subject Header_Get msg cause) (Some cause).
Proof. intros H. unfold publishFailed, verdict. rewrite H, orb_false_r. by destruct (is_max_payload cause). Qed.

Abbreviation deliver_ := (deliver text is_max_payload is_bad_subject Marshal Header_Get).

(** A delivery by any publication whose ends are known. *)
Lemma deliver_attempted cfg attempt publish ends : EventType_Valid (Event.Type_ (Attempt.Event attempt)) = true ->
  publishable (config.subjectPrefix cfg) ->
  (forall msg, publishable (Msg.Subject msg) -> Msg.Header msg = header_of attempt ->
     wp eq (fun _ _ _ => True) answers (publish (config.timeout cfg) msg)
       (fun answer calls => ends msg calls answer /\ forall cause, answer = Some cause -> is_bad_subject cause = false) []) ->
  wp eq (fun _ _ _ => True) answers (deliver_ cfg attempt publish)
    (fun out calls => attempted (config.subjectPrefix cfg) attempt out calls ends) [].
Proof.
  intros Het Hp Hends. unfold deliver, attempted. destruct (message _ _ attempt) as [msg|err] eqn:Hm.
  - destruct (message_subject _ _ _ Hm) as (Hid & Hs & Hh & _).
    assert (Hpub : publishable (Msg.Subject msg)) by (rewrite Hs; by apply subject_publishable).
    apply wp_bind. eapply wp_mono; [|by apply Hends]. intros answer calls [He Hb]. cbn.
    split_and!; [done..|by rewrite Hs, split_dots_app|]. exists answer. split; [done|].
    destruct answer as [cause|]; [|done]. apply publishFailed_verdict. by apply Hb.
  - cbn. split_and!; [done..|by eapply message_err].
Qed.

(** One attempt, at most one publication.  A sink on plain subjects and a sink on
    JetStream, as their constructors made them, publish an event of the catalogue
    under their prefix and its type, to a subject that NATS accepts.  An event that cannot be rendered
    is refused for good and nothing is called.  Otherwise the plain sink stops at an
    ended context before anything is on the wire, publishes once, and is delivered
    only when the flush after it was confirmed; the JetStream sink publishes once,
    without retries of its own, under the event's identifier, and is delivered when
    that was acknowledged.  A failure is permanent exactly when the message is too
    large; the subject is never the reason. *)
Theorem nats_delivery_outcome attempt : EventType_Valid (Event.Type_ (Attempt.Event attempt)) = true ->
  (forall opts cfg, NewSink (Cause := Cause) true opts = Ok cfg ->
     wp eq (fun _ _ _ => True) answers (Deliver text is_max_payload is_bad_subject Marshal Header_Get cfg attempt)
       (fun out calls => attempted (config.subjectPrefix cfg) attempt out calls (published (config.timeout cfg))) []) /\
  (forall opts s, NewJetStreamSink (Cause := Cause) true opts = Ok s ->
     wp eq (fun _ _ _ => True) answers
       (Deliver_jetstream text is_max_payload is_bad_subject Marshal Header_Get s attempt)
       (fun out calls => attempted (config.subjectPrefix (JetStreamSink.config s)) attempt out calls
          (fun msg calls answer => exists expected,
             (forall opt, opt ∈ expected -> exists stream, opt = ExpectStream stream /\ stream <> "") /\
             calls = [Did (JetStreamPublish (config.timeout (JetStreamSink.config s)) msg
               (WithRetryAttempts 0 :: expected ++ [WithMsgID (Event.ID (Attempt.Event attempt))])) answer])) []).
Proof.
  intros Het. split; intros opts s HN.
  - apply deliver_attempted; [done|by eapply NewSink_prefix|]. intros msg Hpub _. unfold publish.
    apply wp_bind, wp_call. intros ? <-. split; [done|]. intros [cause|] calls [-> H1]; cbn.
    { split; [constructor|]. intros ? [= <-]. by apply H1. }
    intros ? <-. split; [done|]. intros [cause|] calls [-> H2]; cbn.
    { split; [constructor|]. intros ? [= <-]. destruct (is_bad_subject cause) eqn:E; [|done]. by destruct (H2 cause). }
    intros ? <-. split; [done|]. intros answer calls [-> H3]. cbn. split; [constructor|]. done.
  - destruct (NewJetStreamSink_prefix _ _ HN) as (Hp & expected & Ho & Hx).
    apply deliver_attempted; [done..|]. intros msg Hpub Hh. unfold publish_jetstream. apply wp_call.
    intros ? <-. split; [done|]. intros answer calls [-> H]. split.
    + exists expected. split; [done|]. by rewrite Ho, Hh, header_event_id.
    + intros cause ->. destruct (is_bad_subject cause) eqn:E; [|done]. by destruct (H cause).
Qed.
End delivering.

(** * At concrete inputs *)

From S2P Require Import Ident Calendar Sqlkit Webhook RedisSink RedisFacts.

Module BusExamples.
Definition event : Event.t :=
  Event.mk "e1" EventTypeCompleted "t1" "approval" StatusCompleted 4 "ann" "" CandidatePool.empty "" "sys"
    63871200000120000000 CorrelationData.empty None
    (TransitionRecord.mk "t1" 4 OpComplete StatusInProgress StatusCompleted "ann" "" 63871200000120000000) "" None.
Definition attempt : Attempt.t := Attempt.mk event "d1" 2.
Definition Marshal (_ : Event.t) : result string string := Ok "{}".
Definition text (cause : string) : string := cause.
Definition clock (_ : nat) : Time := 63871200001000000000%Z.

Definition Header_Get (header : gmap string (list string)) (name : string) : string :=
  match header !! name with Some (value :: _) => value | _ => "" end.

Definition bounded : RedisSink.Sink.t :=
  RedisSink.Sink.mk "redis" "hmntsk.events" RedisSink.DefaultTimeout
    (RedisSink.retention.mk (Some 2%Z) None "" true) clock.
Definition empty_stream : Stream.t := Stream.mk [] 0.
End BusExamples.
Import BusExamples.

Lemma redis_message_readable_witness : exists values,
  RedisSink.message Marshal attempt = Ok values /\ NoDup values.*1 /\
  fields values !! RedisSink.FieldEventID = Some "e1" /\ fields values !! RedisSink.FieldAssignee = None /\
  fields values !! RedisSink.FieldOccurredAt = Some "2024-12-31T00:00:00.12Z".
Proof.
  destruct (RedisSink.message Marshal attempt) as [values|err] eqn:E; [|vm_compute in E; discriminate E].
  exists values. split; [reflexivity|].
  destruct (proj2 (redis_message_readable Marshal attempt) values E) as (Hnd & _ & _ & Hid & _).
  split; [exact Hnd|]. split; [exact Hid|]. vm_compute in E. injection E as <-. vm_compute. split; reflexivity.
Defined.

Lemma redis_stream_keeps_delivered_witness :
  wp (rtc (arrives Marshal bounded)) (fun _ _ _ => True) RedisFacts.answers
    (deliver_each text Marshal bounded [(0, attempt); (1, attempt); (2, attempt)] [])
    (fun outs st => since Marshal bounded empty_stream [(0, attempt); (1, attempt); (2, attempt)] outs st) empty_stream.
Proof.
  apply (redis_stream_keeps_delivered text Marshal clock [RedisSink.WithMaxLen 2; RedisSink.WithExactTrim] bounded
    [(0, attempt); (1, attempt); (2, attempt)] empty_stream).
  - vm_compute. reflexivity.
  - split; vm_compute; [constructor|discriminate].
Defined.

(** A broker that appends, and trims to the length asked for. *)
Definition append_exactly X (e : RedisSink.call (Cause := string) X) : list (list (string * string)) ->
  X * list (list (string * string)) :=
  match e with
  | RedisSink.XAdd _ args => fun entries =>
      let all := entries ++ [RedisSink.XAddArgs.Values args] in
      (RedisSink.Answered None, drop (length all - Z.to_nat (RedisSink.XAddArgs.MaxLen args)) all)
  end.

Example three_deliveries_two_kept :
  let '(outs, entries) := Interaction.run append_exactly
    (deliver_each text Marshal bounded [(0, attempt); (1, attempt); (2, attempt)] []) [] in
  outs = [Outcome.Delivered; Outcome.Delivered; Outcome.Delivered] /\ length entries = 2.
Proof. vm_compute. split; reflexivity. Qed.

Example redis_sinks_built :
  is_ok (RedisSink.New (Cause := string) clock false []) = false /\
  is_ok (RedisSink.New (Cause := string) clock true [RedisSink.WithMaxLen 0]) = false /\
  is_ok (RedisSink.New (Cause := string) clock true [RedisSink.WithMaxLen 5; RedisSink.WithMaxAge 5]) = false /\
  is_ok (RedisSink.New (Cause := string) clock true [RedisSink.WithExactTrim]) = false /\
  is_ok (RedisSink.New (Cause := string) clock true [RedisSink.WithMaxAge 5; RedisSink.WithTrimMode "OLD"]) = false /\
  is_ok (RedisSink.New (Cause := string) clock true [RedisSink.WithMaxAge 5; RedisSink.WithTrimMode "ACKED"]) = true.
Proof. vm_compute. done. Qed.

Example age_bound_is_an_identifier :
  RedisSink.XAddArgs.MinID (RedisSink.xadd_args
    (bounded <| RedisSink.Sink.retention := RedisSink.retention.mk None (Some 1000000000%Z) "" false |>) 0 []) =
  "1735603200000-0".
Proof. vm_compute. reflexivity. Qed.

(** ** NATS *)

Definition too_large (cause : string) : bool := bool_decide (cause = "maximum payload exceeded").
Definition bad_subject (cause : string) : bool := bool_decide (cause = "invalid subject").

Lemma Header_Get_first (header : gmap string (list string)) name value :
  header !! name = Some [value] -> Header_Get header name = value.
Proof. intros H. unfold Header_Get. by rewrite H. Qed.

Lemma nats_delivery_outcome_witness :
  exists cfg, NatsSink.NewSink (Cause := string) true [] = Ok cfg /\
    wp eq (fun _ _ _ => True) (NatsFacts.answers bad_subject)
      (NatsSink.Deliver text too_large bad_subject Marshal Header_Get cfg attempt)
      (fun out calls => attempted too_large Marshal "hmntsk.events" attempt out calls
         (published NatsSink.DefaultTimeout)) [].
Proof.
  destruct (NatsSink.NewSink (Cause := string) true []) as [cfg|err] eqn:E; [|vm_compute in E; discriminate E].
  exists cfg. split; [reflexivity|].
  pose proof (proj1 (nats_delivery_outcome text too_large bad_subject Marshal Header_Get Header_Get_first attempt eq_refl)
    [] cfg E) as H.
  vm_compute in E. injection E as <-. exact H.
Defined.

(** A client that answers from a script. *)
Definition scripted X (e : NatsSink.call (Cause := string) X) : list (option string) -> X * list (option string) :=
  match e with
  | NatsSink.CtxErr | NatsSink.PublishMsg _ | NatsSink.FlushWithContext _ | NatsSink.JetStreamPublish _ _ _ =>
      fun answers => (default None (head answers), tail answers)
  end.

Example nats_outcomes :
  let deliver answers := Outcome.Status (Interaction.run scripted
    (NatsSink.Deliver text too_large bad_subject Marshal Header_Get
       (NatsSink.defaultConfig NatsSink.DefaultName) attempt) answers).1 in
  deliver [None; None; None] = OutcomeDelivered /\
  deliver [None; None; Some "context deadline exceeded"] = OutcomeRetryable /\
  deliver [None; Some "maximum payload exceeded"] = OutcomePermanent /\
  deliver [Some "context canceled"] = OutcomeRetryable.
Proof. vm_compute. done. Qed.

Example prefixes :
  is_Some (NatsSink.validateSubjectPrefix (Cause := string) "a..b") /\
  is_Some (NatsSink.validateSubjectPrefix (Cause := string) "a.*") /\
  is_Some (NatsSink.validateSubjectPrefix (Cause := string) "a b") /\
  is_Some (NatsSink.validateSubjectPrefix (Cause := string)
    ("a" +:+ String (ascii_of_nat 226) (String (ascii_of_nat 128) (String (ascii_of_nat 175) "b")))) /\
  NatsSink.validateSubjectPrefix (Cause := string) "a*.b" = None.
Proof. split_and!; (by eexists) || reflexivity. Qed.
