(* ===== verification/SqlStore.v ===== *)
(** * SqlStore: the storage ports over database/sql

    Models [store/sql/store.go]: each method of the store as a program of driver
    calls.  A call is named by the request it makes of the builder; the statement
    it sends is what [SqlBuilder.v] writes for the request ([written]), and a
    request with nothing to write sends nothing.  A driver answers an execution
    with the rows it affected and a query with its rows and the error of closing
    them, or fails either.  What the answers mean is in [SqlStoreFacts.v]. *)

From Stdlib Require Import Ascii.
From S2P Require Import Prelude Domain Errors Event Query Outbox Store Registry Calendar Sqlkit SqlBuilder.
From S2P Require Import SqlPrint SqlQuery SqlScan Interaction.

(** ** The driver *)

Inductive SqlE : Type -> Type :=
| Exec (r : Request) : SqlE (res (res Z))                 (* ExecContext, then RowsAffected *)
| Fetch (r : Request) : SqlE (res (Rows.t * option error)) (* QueryContext, then Close *)
| BeginTx : SqlE (option error)
| Commit : SqlE (option error)
| Rollback : SqlE unit
| ContextErr : SqlE (option error).

(** A method: a program that ends with a result or an error. *)
Definition Method (A : Type) : Type := prog SqlE (res A).

Definition obind {E A B} (m : prog E (res A)) (k : A -> prog E (res B)) : prog E (res B) :=
  bind m (fun r => match r with Ok a => k a | Err e => Ret (Err e) end).
Definition lift {E A} (r : res A) : prog E (res A) := Ret r.
Notation "'may!' x ':=' m 'in' k" := (obind m (fun x => k))
  (at level 10, x binder, m at level 100, k at level 200,
   format "'[v' 'may!'  x  ':='  m  'in' '//' k ']'") : hmntsk_scope.

(** *** Construction *)

Inductive Option : Type := WithTablePrefix (prefix : string).

(** The prefix the options leave in [config]. *)
Definition configured (opts : list Option) : string :=
  for_each (fun opt _ => let 'WithTablePrefix prefix := opt in prefix) opts "".

(** A store is its builder; the handle is what its programs call. *)
Definition New (d : Dialect) (opts : list Option) : Builder.t :=
  SqlBuilder.New d [SqlBuilder.WithTablePrefix (configured opts)].

Definition sentinels : list Sentinel :=
  [ErrConflict; ErrIllegalTransition; ErrNotFound; ErrValidation; ErrUnregisteredType; ErrUnauthorized;
   ErrGroupResolution; ErrConfiguration].

(** [fmt.Errorf] of a text around an error. *)
Definition around (before : string) (e : error) (after : string) : error :=
  ExternalError (before +:+ Error e +:+ after) (filter (fun s => errors_Is e s = true) sentinels).

Section store.
Context (json : SqlJson.t) (b : Builder.t) (codec : CursorCodec.t).

Definition failed_statement (r : Request) (e : error) : error :=
  around "hmntsk: " e
    (String (ascii_of_nat 10) "statement: " +:+ Statement.SQL (written json b r)).

Definition exec (r : Request) : Method (option (res Z)) :=
  if Statement.IsZero (written json b r) then Ret (Ok None)
  else
    do! answer := call (Exec r) in
    Ret (match answer with Ok result => Ok (Some result) | Err e => Err (failed_statement r e) end).

Definition query (r : Request) : Method (Rows.t * option error) :=
  do! answer := call (Fetch r) in
  Ret (match answer with Ok rows => Ok rows | Err e => Err (failed_statement r e) end).

(** [result.RowsAffected()]; a nil result, which only a statement that was not
    sent has, would panic. *)
Definition affected_by (result : option (res Z)) (what : string) : res Z :=
  match result with
  | Some (Ok n) => Ok n
  | Some (Err e) => Err (Wrapped ("hmntsk: read the rows affected by " +:+ what +:+ ": ") e)
  | None => Err (ExternalError "panic: nil pointer" [])
  end.

(** The rows of a query, scanned, the error of the scan before that of closing. *)
Definition scanned {A} (r : Request) (scan : Rows.t -> res A) (what : string) : Method A :=
  may! rows := query r in
  Ret (match scan rows.1, rows.2 with
       | Err e, _ => Err e
       | Ok _, Some e => Err (Wrapped ("hmntsk: read " +:+ what +:+ ": ") e)
       | Ok a, None => Ok a
       end).

(** ** Tasks *)

(** [Row.Scan] of the first row. *)
Definition first_row (rows : Rows.t) (closed : option error) : option (res (list Raw)) :=
  match Rows.each rows with
  | [] => match Rows.ended rows with Some e => Some (Err e) | None => None end
  | Err e :: _ => Some (Err e)
  | Ok values :: _ => match closed with Some e => Some (Err e) | None => Some (Ok values) end
  end.

Definition version (id : string) : Method Z :=
  do! answer := call (Fetch (QSelectTaskVersion id)) in
  let unreadable e := Err (Wrapped ("hmntsk: read the current version of task " +:+ id +:+ ": ") e) in
  Ret (match answer with
       | Err e => unreadable e
       | Ok (rows, closed) =>
           match first_row rows closed with
           | None => Err (NotFoundError id)
           | Some (Err e) => unreadable e
           | Some (Ok values) => DecodeInt (value_at values 0)
           end
       end).

Definition Create (task : Task.t) : Method unit :=
  do! current := version (Task.ID task) in
  match current with
  | Ok current => Ret (Err (ConflictError (Task.ID task) 0 current))
  | Err e =>
      if negb (errors_Is e ErrNotFound) then Ret (Err e)
      else
        may! _ := exec (QInsertTask task) in
        may! _ := exec (QInsertCandidates (Task.ID task) (Task.Candidates task)) in
        Ret (Ok tt)
  end.

Definition attachCandidates (tasks : list Task.t) : Method (list Task.t) :=
  if decide (length tasks = 0) then Ret (Ok tasks)
  else
    may! pools := scanned (QSelectCandidates (Task.ID <$> tasks)) ScanCandidates "candidate rows" in
    Ret (Ok ((fun task => task <| Task.Candidates := default CandidatePool.empty (pools !! Task.ID task) |>)
               <$> tasks)).

Definition Get (id : string) : Method Task.t :=
  may! tasks := scanned (QSelectTask id) (ScanTasks json) ("task " +:+ id) in
  if decide (length tasks = 0) then Ret (Err (NotFoundError id))
  else
    may! tasks := attachCandidates tasks in
    Ret (match tasks with task :: _ => Ok task | [] => Err (ExternalError "panic: index out of range" []) end).

Definition Update (task : Task.t) (expectedVersion : Z) : Method unit :=
  may! result := exec (QUpdateTask task expectedVersion) in
  may! affected := lift (affected_by result ("updating task " +:+ Task.ID task)) in
  if decide (affected = 0)%Z then
    do! current := version (Task.ID task) in
    match current with
    | Err e =>
        if negb (errors_Is e ErrNotFound) then Ret (Err e)
        else Ret (CheckAffected 0 (Task.ID task) expectedVersion 0)
    | Ok current => Ret (CheckAffected 0 (Task.ID task) expectedVersion current)
    end
  else
    may! _ := exec (QDeleteCandidates (Task.ID task)) in
    may! _ := exec (QInsertCandidates (Task.ID task) (Task.Candidates task)) in
    Ret (Ok tt).

Definition AppendHistory (records : list TransitionRecord.t) : Method unit :=
  may! _ := exec (QInsertHistory records) in Ret (Ok tt).

Definition History (id : string) : Method (list HistoryRow.t) :=
  scanned (QSelectHistory id) ScanHistory ("the history of task " +:+ id).

Definition Count (query : ResolvedQuery.t) : Method Z :=
  scanned (QCountTasks query) ScanCount "the task count".

(** The request of a query whose ordering and cursor are accepted. *)
Definition page_request (query : ResolvedQuery.t) : res Request :=
  try! _ := QueryTasks b codec query in
  try! after := start_of codec (ResolvedQuery.Query_ query) in
  Ok (QQueryTasks query after).

Definition Query_ (query : ResolvedQuery.t) : Method Page.t :=
  may! request := lift (page_request query) in
  may! tasks := scanned request (ScanTasks json) "the task page" in
  let q := ResolvedQuery.Query_ query in
  let limit := Z.to_nat (Query.EffectiveLimit q) in
  may! cut := lift (
    if decide (limit < length tasks) then
      let tasks := take limit tasks in
      match last tasks with
      | Some final => try! token := NextCursor codec q final in Ok (tasks, token)
      | None => Err (ExternalError "panic: index out of range" [])
      end
    else Ok (tasks, "")) in
  may! tasks := attachCandidates cut.1 in
  Ret (Ok (Page.mk tasks cut.2)).

(** *** Leases *)

(** The loop over rows of one text each. *)
Fixpoint scan_texts (scanning : string) (rows : list (res (list Raw))) : res (list string) :=
  match rows with
  | [] => Ok []
  | Err e :: _ => Err (Wrapped ("hmntsk: scan " +:+ scanning +:+ " identifier: ") e)
  | Ok values :: rest =>
      try! id := DecodeString (value_at values 0) in
      try! more := scan_texts scanning rest in
      Ok (id :: more)
  end.

Definition identifiers (r : Request) (scanning reading : string) : Method (list string) :=
  may! rows := query r in
  Ret (match scan_texts scanning (Rows.each rows.1), Rows.ended rows.1, rows.2 with
       | Err e, _, _ => Err e
       | Ok _, Some e, _ | Ok _, None, Some e => Err (Wrapped ("hmntsk: read " +:+ reading +:+ ": ") e)
       | Ok ids, None, None => Ok ids
       end).

Definition overdueIDs (lease : LeaseRequest.t) : Method (list string) :=
  identifiers (QSelectOverdue lease) "an overdue task" "overdue tasks".
Definition dueEventIDs (claim : OutboxClaim.t) : Method (list string) :=
  identifiers (QSelectDueEvents claim) "a due event" "due events".

(** The loop of a claim: what each conditional update took is read again. *)
Fixpoint claim_each {A} (take_ : string -> Request) (what : string) (read : string -> Method A)
    (ids : list string) : Method (list A) :=
  match ids with
  | [] => Ret (Ok [])
  | id :: rest =>
      may! result := exec (take_ id) in
      may! affected := lift (affected_by result (what +:+ id)) in
      if decide (affected = 0)%Z then claim_each take_ what read rest
      else
        may! taken := read id in
        may! more := claim_each take_ what read rest in
        Ret (Ok (taken :: more))
  end.

Definition ClaimOverdue (lease : LeaseRequest.t) : Method (list Task.t) :=
  may! ids := overdueIDs lease in
  claim_each (fun id => QClaimLease id lease) "leasing task " Get ids.

(** ** The outbox *)

Definition Append (events : list Event.t) : Method unit :=
  if decide (length events = 0) then Ret (Ok tt)
  else
    may! rows := lift (EventRows json events) in
    may! _ := exec (QInsertOutbox rows) in
    Ret (Ok tt).

Definition Events (limit : Z) : Method (list Event.t) :=
  may! rows := query (QSelectOutbox limit) in
  Ret (ScanOutbox json rows.1).

Definition OutboxEntry_ (eventID : string) : Method OutboxEntry.t :=
  may! entries := scanned (QSelectOutboxEntry eventID) (ScanOutboxEntries json) ("outbox entry " +:+ eventID) in
  Ret (match entries with [] => Err (OutboxNotFoundError eventID) | entry :: _ => Ok entry end).

Definition ClaimDueEvents (claim : OutboxClaim.t) : Method (list OutboxEntry.t) :=
  may! ids := dueEventIDs claim in
  claim_each (fun id => QClaimEvent id claim) "claiming event " OutboxEntry_ ids.

Definition settleOutbox (eventID : string) (r : Request) : Method unit :=
  may! result := exec r in
  may! affected := lift (affected_by result ("settling event " +:+ eventID)) in
  if decide (0 < affected)%Z then Ret (Ok tt)
  else may! _ := OutboxEntry_ eventID in Ret (Ok tt).

Definition RecordAttempt (record : AttemptRecord.t) : Method unit :=
  settleOutbox (AttemptRecord.EventID record) (QRecordAttempt record).
Definition MarkAccepted (acceptance : Acceptance.t) : Method unit :=
  settleOutbox (Acceptance.EventID acceptance) (QMarkAccepted acceptance).
Definition MarkDeadLettered (letter : DeadLetter.t) : Method unit :=
  settleOutbox (DeadLetter.EventID letter) (QMarkDeadLettered letter).

(** ** Transactions *)

(** Within a transaction of the caller's, its function runs as it is; otherwise it
    runs in a transaction of its own, rolled back unless it was committed. *)
Definition Do_ {A} (joined : bool) (fn : Method A) : Method A :=
  if joined then fn
  else
    do! failure := call BeginTx in
    match failure with
    | Some e => Ret (Err (Wrapped "hmntsk: begin transaction: " e))
    | None =>
        do! outcome := fn in
        match outcome with
        | Err e => do! _ := call Rollback in Ret (Err e)
        | Ok a =>
            do! cancelled := call ContextErr in
            match cancelled with
            | Some e => do! _ := call Rollback in Ret (Err e)
            | None =>
                do! failure := call Commit in
                match failure with
                | Some e => do! _ := call Rollback in Ret (Err (Wrapped "hmntsk: commit transaction: " e))
                | None => Ret (Ok a)
                end
            end
        end
    end.
End store.
