(* ===== verification/SqlStoreFacts.v ===== *)
(** * SqlStoreFacts: the SQL store keeps the ledger

    What a database that carries out the statements does to the tables, by the
    meaning of their trees ([SqlMeaning.v]), and from it that the methods of
    [SqlStore.v], run on tables that hold a ledger's tasks, candidates and outbox,
    answer what the ledger answers and leave tables that hold what the ledger
    becomes. *)

From S2P Require Import Prelude Domain Errors Event Query Outbox Store Registry Calendar Sqlkit SqlBuilder.
From S2P Require Import SqlPrint SqlPrintFacts SqlMeaning SqlQuery SqlLease SqlScan Interaction SqlStore.

(** ** Tables *)

Definition columns_of (table : string) : list string :=
  if decide (table = TasksTable) then taskColumns
  else if decide (table = CandidatesTable) then candidate_columns
  else if decide (table = HistoryTable) then historyColumns
  else if decide (table = OutboxTable) then outboxColumns
  else typeColumns.

(** The rows of each table, as the values of its columns in their order. *)
Definition Contents : Type := string -> list (list Value).

Definition row_in (table : string) (cells : list Value) : Row := row_of (columns_of table) cells.
Definition tables_of (T : Contents) : string -> list Row := fun table => row_in table <$> T table.
Definition with_table (table : string) (rows : list (list Value)) (T : Contents) : Contents :=
  fun name => if decide (name = table) then rows else T name.

Section semantics.
Context (collate : string -> string -> comparison) (nulls_first : bool).
Context (json : SqlJson.t) (d : Dialect).

(** The rows a driver hands back, all of them and without an error. *)
Definition rows_back (values : list (list Value)) (rows : Rows.t) : Prop :=
  Rows.ended rows = None /\ exists raws, Rows.each rows = Ok <$> raws /\ Forall2 (RowBack d) values raws.

(** What a selection reads.  One that locks its rows may skip those others hold. *)
Definition fetches (s : Sql) (T : Contents) (rows : Rows.t) : Prop :=
  match s with
  | Select what table alias _ _ _ lock =>
      exists visible answer,
        (if lock then visible ⊆+ T table else visible = T table) /\
        AnswersTo collate (tables_of T) (fun cells => env_of alias (row_in table cells)) nulls_first s
          visible answer /\
        rows_back
          match what with
          | SqlPrint.Count => [[VInt (Z.of_nat (length answer))]]
          | Columns _ names => (fun cells => row_in table cells <$> names) <$> answer
          end rows
  | _ => False
  end.

Definition set_cells (table : string) (sets : list (string * Value)) (cells : list Value) : list Value :=
  set_columns sets (row_in table cells) <$> columns_of table.

(** What a change does, and the rows it is said to affect: those it names, of
    which MySQL counts only those that are different afterwards. *)
Definition executes (s : Sql) (T : Contents) (affected : Z) (T' : Contents) : Prop :=
  match s with
  | Insert table columns rows =>
      T' = with_table table (T table ++ ((fun row => row_of columns row <$> columns_of table) <$> rows)) T /\
      affected = Z.of_nat (length rows)
  | SqlPrint.Update table sets tests =>
      let named cells := selects collate (tables_of T) (own_env (row_in table cells)) tests in
      T' = with_table table ((fun cells => if named cells then set_cells table sets cells else cells) <$> T table) T /\
      affected = Z.of_nat (length (filter (fun cells => named cells = true /\
        (d = MySQL -> set_cells table sets cells <> cells)) (T table)))
  | Delete table tests =>
      let named cells := selects collate (tables_of T) (own_env (row_in table cells)) tests in
      T' = with_table table (filter (fun cells => named cells = false) (T table)) T /\
      affected = Z.of_nat (length (filter (fun cells => named cells = true) (T table)))
  | _ => False
  end.

(** A method but for its transaction only makes statements. *)
Definition statement_only X (e : SqlE X) (T : Contents) : Prop :=
  match e with Exec _ | Fetch _ => True | _ => False end.

(** A database that answers every statement of a method.  The rows come without an
    error, whatever their order within what the statement asks for. *)
Definition does X (e : SqlE X) (T : Contents) : X -> Contents -> Prop :=
  match e in SqlE X return X -> Contents -> Prop with
  | Exec r => fun answer T' =>
      exists s affected, tree json d r = Some s /\ answer = Ok (Ok affected) /\ executes s T affected T'
  | Fetch r => fun answer T' =>
      T' = T /\ exists s rows, tree json d r = Some s /\ answer = Ok (rows, None) /\ fetches s T rows
  | _ => fun _ _ => False
  end.

(** Every way a method can end. *)
Definition ends {A} (m : Method A) (T : Contents) (Q : res A -> Contents -> Prop) : Prop :=
  wp (=) statement_only does m Q T.
End semantics.

(** ** Answers over a list of things stored *)

Section answers.
Context (collate : string -> string -> comparison) (nulls_first : bool) (tables : string -> list Row).

(** The answer on the cells of things is the cells of an answer on the things. *)
Lemma answers_stored {A B} (cells : A -> B) (env : B -> Env) tests order limit xs rows answer :
  rows ≡ₚ cells <$> xs ->
  Answers collate tables env nulls_first tests order limit rows answer ->
  exists xs', answer = cells <$> xs' /\
    Answers collate tables (fun x => env (cells x)) nulls_first tests order limit xs xs'.
Proof.
  intros Hrows (sorted & Hperm & Hs & ->).
  assert (Hf : sorted ≡ₚ cells <$> filter (fun x => selects collate tables (env (cells x)) tests = true) xs).
  { rewrite Hperm, Hrows. clear. induction xs as [|x xs IH]; [done|]. cbn [fmap list_fmap].
    rewrite !filter_cons. destruct (decide (selects _ _ (env (cells x)) _ = true)); [by rewrite fmap_cons, IH|exact IH]. }
  apply Permutation_map_inv in Hf as (xs' & Hxs & Hp). 
  exists (match limit with None => xs' | Some n => take (Z.to_nat n) xs' end). split.
  { rewrite Hxs. destruct limit; [|done]. by rewrite fmap_take. }
  exists xs'. split; [by symmetry|]. split; [|done]. rewrite Hxs in Hs. clear -Hs.
  induction xs' as [|x xs IH]; [constructor|]. cbn [List.map] in Hs. inversion Hs as [|? ? Hrest Hall]; subst.
  constructor; [by apply IH|]. exact (proj1 (Forall_fmap _ _ _) Hall).
Qed.

Lemma answers_in {A} (env : A -> Env) tests order limit rows answer x :
  Answers collate tables env nulls_first tests order limit rows answer -> x ∈ answer ->
  x ∈ rows /\ selects collate tables (env x) tests = true.
Proof.
  intros (sorted & Hperm & _ & ->) Hx.
  assert (Hs : x ∈ sorted) by (destruct limit; [by eapply subseteq_take|done]).
  rewrite Hperm in Hs. apply list_elem_of_filter in Hs. tauto.
Qed.

Lemma answers_same {A} (env1 env2 : A -> Env) tests order limit rows1 rows2 answer :
  rows1 ≡ₚ rows2 -> (forall x, x ∈ rows1 -> env1 x = env2 x) ->
  Answers collate tables env1 nulls_first tests order limit rows1 answer ->
  Answers collate tables env2 nulls_first tests order limit rows2 answer.
Proof.
  intros Hr He (sorted & Hperm & Hs & ->).
  assert (Hin : forall x, x ∈ sorted -> x ∈ rows1).
  { intros x. rewrite Hperm. intros [_ ?]%list_elem_of_filter. done. }
  exists sorted. split; [|split; [|done]].
  - rewrite Hperm, Hr. erewrite list_filter_iff_in; [done|]. intros x Hx. rewrite He; [done|]. by rewrite Hr.
  - clear -Hs Hin He. induction Hs as [|x l Hs IH Hall]; [constructor|]. constructor.
    + apply IH. intros y Hy. apply Hin. by right.
    + rewrite Forall_forall in Hall |- *. intros y Hy. rewrite <- !He; [by apply Hall|..].
      * apply Hin. by right.
      * apply Hin. by left.
Qed.
End answers.

(** ** Cells *)

Lemma row_of_cells names values : NoDup names -> length names = length values ->
  row_of names values <$> names = values.
Proof.
  revert values. induction names as [|n names IH]; intros [|v values] Hn Hl; try done. inversion Hn as [|? ? Hni Hnd]; subst.
  cbn [fmap list_fmap]. f_equal.
  - unfold row_of. cbn [zip zip_with assigned]. by rewrite decide_True.
  - rewrite <- (IH values) at 2 by (done || (cbn in Hl; lia)). apply list_fmap_ext. intros i m Hm.
    unfold row_of. cbn [zip zip_with assigned]. rewrite decide_False; [done|]. intros <-. apply Hni.
    by eapply list_elem_of_lookup_2.
Qed.

Lemma columns_distinct table : NoDup (columns_of table).
Proof. unfold columns_of. repeat case_decide; by apply (bool_decide_eq_true_1 (NoDup _)). Qed.

Lemma cells_of_row table cells : length cells = length (columns_of table) ->
  row_in table cells <$> columns_of table = cells.
Proof. intros Hl. by apply row_of_cells; [apply columns_distinct|]. Qed.

(** Rows that agree on the columns have the same cells. *)
Lemma same_cells table row1 row2 : same_row (columns_of table) row1 row2 ->
  row1 <$> columns_of table = row2 <$> columns_of table.
Proof.
  unfold same_row. intros H. apply list_fmap_ext. intros i c Hc. rewrite Forall_forall in H.
  apply H. by eapply list_elem_of_lookup_2.
Qed.

Lemma scan_handed {A B} (convert : list Raw -> res A) (cells : B -> list Value) (g : B -> A) d xs rows
    scanning reading :
  (forall x raws, x ∈ xs -> RowBack d (cells x) raws -> convert raws = Ok (g x)) ->
  rows_back d (cells <$> xs) rows -> scan_rows scanning reading convert rows = Ok (g <$> xs).
Proof.
  intros Hc (Hend & raws & Heach & Hraws). unfold scan_rows. rewrite Heach, Hend.
  assert (Hs : scan_each scanning convert (Ok <$> raws) = Ok (g <$> xs)); [|by rewrite Hs].
  clear -Hc Hraws. revert raws Hraws. induction xs as [|x xs IH]; intros raws Hraws.
  - inversion Hraws; subst. done.
  - cbn [fmap list_fmap] in Hraws. inversion Hraws as [|? raw ? raws' Hr Hrest]; subst.
    cbn [fmap list_fmap scan_each]. rewrite (Hc x raw) by (done || left). cbn [rbind].
    rewrite IH; [done| |done]. intros y r Hy. apply Hc. by right.
Qed.

(** ** Methods on a database that answers *)

Section running.
Context (collate : string -> string -> comparison) (Hbytes : forall x y, collate x y = String.compare x y).
Context (nulls_first : bool) (json : SqlJson.t) (b : Builder.t) (codec : CursorCodec.t).
#[local] Abbreviation d := (Builder.dialect b).
#[local] Abbreviation ends := (ends collate nulls_first json d).
#[local] Abbreviation fetches := (fetches collate nulls_first d).
#[local] Abbreviation executes := (executes collate d).

Lemma ends_ret {A} (r : res A) T (Q : res A -> Contents -> Prop) : Q r T -> ends (Ret r) T Q.
Proof. done. Qed.

Lemma ends_bind {A B} (m : Method A) (k : res A -> Method B) T Q :
  ends m T (fun r T' => ends (k r) T' Q) -> ends (bind m k) T Q.
Proof. apply wp_bind. Qed.

Lemma ends_obind {A B} (m : Method A) (k : A -> Method B) T Q :
  ends m T (fun r T' => match r with Ok a => ends (k a) T' Q | Err e => Q (Err e) T' end) ->
  ends (obind m k) T Q.
Proof.
  intros H. apply ends_bind. eapply wp_mono; [|exact H]. by intros [a|e] T'.
Qed.

Lemma ends_mono {A} (m : Method A) T (Q1 Q2 : res A -> Contents -> Prop) :
  ends m T Q1 -> (forall r T', Q1 r T' -> Q2 r T') -> ends m T Q2.
Proof. intros H HQ. by eapply wp_mono; [|exact H]. Qed.

Lemma rendered_sent s : Statement.IsZero (rendered b s) = false.
Proof. apply bool_decide_false. by destruct s. Qed.

Lemma sent r s : tree json d r = Some s -> Statement.IsZero (written json b r) = false.
Proof. intros Ht. rewrite request_printed, Ht. apply rendered_sent. Qed.

Lemma ends_exec r s T Q : tree json d r = Some s ->
  (forall affected T', executes s T affected T' -> Q (Ok (Some (Ok affected))) T') ->
  ends (exec json b r) T Q.
Proof.
  intros Ht HQ. unfold exec. rewrite (sent _ _ Ht). intros ? <-. split; [done|].
  intros x T' (s' & n & Ht' & -> & Hx). rewrite Ht in Ht'. injection Ht' as <-. by apply HQ.
Qed.

Lemma ends_skip r T Q : tree json d r = None -> Q (Ok None) T -> ends (exec json b r) T Q.
Proof. intros Ht HQ. unfold exec. by rewrite request_printed, Ht. Qed.

Lemma ends_fetch r s T (Q : res (Rows.t * option error) -> Contents -> Prop) : tree json d r = Some s ->
  (forall rows, fetches s T rows -> Q (Ok (rows, None)) T) -> ends (call (Fetch r)) T Q.
Proof.
  intros Ht HQ. intros ? <-. split; [done|]. intros x T' (-> & s' & rows & Ht' & -> & Hx).
  rewrite Ht in Ht'. injection Ht' as <-. by apply HQ.
Qed.

Lemma ends_query r s T Q : tree json d r = Some s ->
  (forall rows, fetches s T rows -> Q (Ok (rows, None)) T) -> ends (query json b r) T Q.
Proof. intros Ht HQ. unfold query. apply ends_bind. by eapply ends_fetch. Qed.

Lemma ends_scanned {A} r s (scan : Rows.t -> res A) what T Q : tree json d r = Some s ->
  (forall rows, fetches s T rows -> Q (scan rows) T) -> ends (scanned json b r scan what) T Q.
Proof.
  intros Ht HQ. unfold scanned. apply ends_obind. eapply ends_query; [exact Ht|]. intros rows Hr.
  apply ends_ret. cbn [fst snd]. specialize (HQ rows Hr). by destruct (scan rows).
Qed.

(** *** Changes of a table that holds things *)

Section changes.
Context {A : Type} (cells : A -> list Value) (table : string) (xs : list A) (T T' : Contents).
Context (Hheld : T table ≡ₚ cells <$> xs).

Definition others_kept : Prop := forall other, other <> table -> T' other = T other.

Lemma table_kept rows : T' = with_table table rows T -> others_kept /\ T' table = rows.
Proof.
  intros HT. split.
  - intros other Ho. rewrite HT. unfold with_table. by rewrite decide_False.
  - rewrite HT. unfold with_table. by rewrite decide_True.
Qed.

Lemma executes_insert new n :
  Forall (fun x => length (cells x) = length (columns_of table)) new ->
  executes (Insert table (columns_of table) (cells <$> new)) T n T' ->
  others_kept /\ T' table ≡ₚ cells <$> (xs ++ new).
Proof.
  intros Hlen [ [Hother ->]%table_kept _]. split; [done|]. rewrite fmap_app, Hheld. f_equiv.
  rewrite <- list_fmap_compose. match goal with |- ?l ≡ₚ ?r => enough (l = r) as -> by done end.
  apply list_fmap_ext. intros i x Hx%list_elem_of_lookup_2. rewrite Forall_forall in Hlen.
  by apply row_of_cells; [apply columns_distinct|rewrite (Hlen x Hx)].
Qed.

Context (tests : list Test) (named : A -> bool).
Context (Hnamed : forall x, x ∈ xs ->
  selects collate (tables_of T) (own_env (row_in table (cells x))) tests = named x).

Lemma executes_delete n : executes (Delete table tests) T n T' ->
  others_kept /\ T' table ≡ₚ cells <$> filter (fun x => named x = false) xs.
Proof.
  intros [ [Hother ->]%table_kept _]. split; [done|]. rewrite Hheld. clear Hheld.
  induction xs as [|x l IH]; [done|]. cbn [fmap list_fmap]. rewrite !filter_cons.
  rewrite (Hnamed x) by left. specialize (IH (fun y Hy => Hnamed y (list_elem_of_further _ _ _ Hy))).
  case_decide; [|done]. cbn [fmap list_fmap]. by rewrite IH.
Qed.

Context (sets : list (string * Value)) (becomes : A -> A).
Context (Hbecomes : forall x, x ∈ xs -> named x = true -> set_cells table sets (cells x) = cells (becomes x)).

Lemma executes_update n : executes (SqlPrint.Update table sets tests) T n T' ->
  others_kept /\ T' table ≡ₚ cells <$> ((fun x => if named x then becomes x else x) <$> xs) /\
  n = Z.of_nat (length (filter (fun x => named x = true /\ (d = MySQL -> cells (becomes x) <> cells x)) xs)).
Proof.
  intros [ [Hother ->]%table_kept ->]. split; [done|]. split.
  - rewrite Hheld, <- !list_fmap_compose.
    match goal with |- ?l ≡ₚ ?r => enough (l = r) as -> by done end.
    apply list_fmap_ext. intros i x Hx%list_elem_of_lookup_2. unfold compose. rewrite Hnamed by done.
    destruct (named x) eqn:E; [by apply Hbecomes|done].
  - f_equal. rewrite Hheld. clear Hheld.
    induction xs as [|x l IH]; [done|]. cbn [fmap list_fmap]. rewrite !filter_cons.
    specialize (IH (fun y Hy => Hnamed y (list_elem_of_further _ _ _ Hy))
      (fun y Hy => Hbecomes y (list_elem_of_further _ _ _ Hy))).
    assert (Hx : x ∈ x :: l) by left.
    destruct (named x) eqn:E.
    + rewrite (Hnamed x Hx), E, (Hbecomes x Hx E).
      repeat case_decide; try tauto; cbn [length]; by rewrite IH.
    + rewrite (Hnamed x Hx), E. by rewrite !decide_False by (intros [? _]; done).
Qed.
End changes.

(** An instant is not stored as an earlier one is, nor as none. *)
Lemma stamp_differs t until : Stamp t -> Deadline until -> (forall x, t = Some x -> (x < until)%Z) ->
  EncodeTime d t <> EncodeTime d (Some until).
Proof.
  intros Ht Huntil Hlt H. pose proof Huntil as [Hub Hun]. destruct t as [x|].
  - pose proof (Ht x eq_refl) as [Hb Hx]. specialize (Hlt x eq_refl).
    assert (Hc : compare_values collate (EncodeTime d (Some until)) (EncodeTime d (Some x)) = Some (until ?= x)%Z).
    { rewrite (compare_times collate Hbytes), Hx; [done..|unfold Microsecond in *; lia]. }
    rewrite H, (compare_times collate Hbytes), Hun, Z.compare_refl in Hc by (done || unfold Microsecond in *; lia).
    injection Hc as Hc. symmetry in Hc. apply Z.compare_eq in Hc. lia.
  - assert (Hm : missing (EncodeTime d (Some until)) = false) by (by rewrite missing_stamp; [|intros x [= <-] ]).
    by rewrite <- H in Hm.
Qed.

(** *** Claims

    A loop that takes each of the things found, and reads what it took.  [I] is
    told what is still to be taken and the state the tables hold. *)
Section claims.
Context {A B S : Type} (key : A -> string) (got : A -> B) (next : A -> S -> S).
Context (take_ : string -> Request) (what : string) (read : string -> Method B).
Context (taking : string -> Sql) (Htree : forall id, tree json d (take_ id) = Some (taking id)).
Context (I : list A -> S -> Contents -> Prop).
Context (Htake : forall x todo s T T' n, I (x :: todo) s T -> executes (taking (key x)) T n T' ->
  n <> 0%Z /\ I todo (next x s) T').
Context (Hread : forall x todo s T T' Q, I (x :: todo) s T -> I todo (next x s) T' -> Q (Ok (got x)) T' ->
  ends (read (key x)) T' Q).

Lemma ends_claim_each todo : forall s T Q, I todo s T ->
  (forall T', I [] (for_each next todo s) T' -> Q (Ok (got <$> todo)) T') ->
  ends (claim_each json b take_ what read (key <$> todo)) T Q.
Proof.
  induction todo as [|x todo IH]; intros s T Q HI HQ; [by apply ends_ret, HQ|].
  cbn [fmap list_fmap claim_each]. apply ends_obind. eapply ends_exec; [apply Htree|]. intros n T1 Hx.
  destruct (Htake _ _ _ _ _ _ HI Hx) as [Hn HI1].
  apply ends_obind, ends_ret. cbn [affected_by]. rewrite decide_False by done.
  apply ends_obind, (Hread x todo s T T1); [done..|].
  apply ends_obind, (IH (next x s)); [done|]. intros T2 HI2. by apply ends_ret, HQ.
Qed.
End claims.

(** The identifiers a selection finds. *)
Lemma identifiers_back {A} (cells : A -> list Value) table (key : A -> string) scanning todo raws :
  (forall x, x ∈ todo -> row_in table (cells x) "id" = VString (key x)) ->
  Forall2 (RowBack d) ((fun cells => row_in table cells <$> ["id"]) <$> (cells <$> todo)) raws ->
  scan_texts scanning (Ok <$> raws) = Ok (key <$> todo).
Proof.
  intros Hid. revert raws. induction todo as [|x todo IH]; intros raws Hraws;
    inversion Hraws as [|? raw ? rest Hr Hrest]; subst; [done|].
  cbn [fmap list_fmap] in Hr. inversion Hr as [|? v ? vs Hv Hvs]; subst. inversion Hvs; subst.
  cbn [fmap list_fmap scan_texts]. change (value_at [v] 0) with v. rewrite Hid in Hv by left.
  rewrite (text_back d (key x) v) by exact Hv. cbn [rbind].
  rewrite IH; [done| |exact Hrest]. intros y Hy. apply Hid. by right.
Qed.

End running.
