(* ===== verification/SqlStoreTasks.v ===== *)
(** * SqlStoreTasks: the tasks and their history in SQL

    The methods of [SqlStore.v] that read and write tasks and history, run on
    tables that hold a ledger's: they answer what the ledger answers and leave
    tables that hold what the ledger becomes. *)

From S2P Require Import Prelude Domain Errors Event Query Outbox Store Registry Calendar Sqlkit SqlBuilder.
From S2P Require Import SqlPrint SqlPrintFacts SqlMeaning SqlQuery SqlLease SqlScan Interaction SqlStore SqlStoreFacts.

(** ** The ledger's tasks as a list *)

Definition keyed (l : Ledger.t) : Prop :=
  forall id task, Ledger.tasks l !! id = Some task -> Task.ID task = id.

(** The tasks of other identifiers. *)
Definition others (id : string) (l : Ledger.t) : list Task.t :=
  (map_to_list (delete id (Ledger.tasks l))).*2.

Lemma others_other id l task : keyed l -> task ∈ others id l -> Task.ID task <> id.
Proof.
  intros Hk ([key ?] & -> & Hin)%list_elem_of_fmap. apply elem_of_map_to_list in Hin.
  apply lookup_delete_Some in Hin as [Hne Hin]. cbn. by rewrite (Hk _ _ Hin).
Qed.

Lemma snapshot_some id l task : Ledger.tasks l !! id = Some task ->
  Ledger.snapshot l ≡ₚ task :: others id l.
Proof.
  intros H. unfold Ledger.snapshot, others. rewrite <- (insert_delete_id (Ledger.tasks l) id task) at 1 by done.
  rewrite map_to_list_insert by apply lookup_delete_eq. done.
Qed.

Lemma snapshot_none id l : Ledger.tasks l !! id = None -> Ledger.snapshot l = others id l.
Proof. intros H. unfold Ledger.snapshot, others. by rewrite delete_id. Qed.

Lemma snapshot_put task l : Task.Normalize task = task ->
  Ledger.snapshot (Ledger.put task l) ≡ₚ task :: others (Task.ID task) l.
Proof.
  intros Hn. unfold Ledger.put, Ledger.snapshot, others. cbn [Ledger.tasks upd].
  rewrite Hn, <- insert_delete_eq, map_to_list_insert by apply lookup_delete_eq. done.
Qed.

Lemma keyed_put task l : Task.Normalize task = task -> keyed l -> keyed (Ledger.put task l).
Proof.
  intros Hn Hk id t. cbn [Ledger.put Ledger.tasks]. change (Ledger.tasks (Ledger.put task l))
    with (<[Task.ID task := Task.Normalize task]> (Ledger.tasks l)). rewrite Hn.
  intros [ [<- <-] | [_ Ht] ]%lookup_insert_Some; [done|by apply Hk].
Qed.

Section tasks.
Context (collate : string -> string -> comparison) (Hbytes : forall x y, collate x y = String.compare x y).
Context (nulls_first : bool) (json : SqlJson.t) (b : Builder.t) (codec : CursorCodec.t).
#[local] Abbreviation d := (Builder.dialect b).
#[local] Abbreviation ends := (ends collate nulls_first json d).
#[local] Abbreviation fetches := (fetches collate nulls_first d).
#[local] Abbreviation executes := (executes collate d).


(** A task that storing and reading changes nothing of, at a version of its own. *)
Definition Fits (task : Task.t) : Prop :=
  Encoded json task /\ Whole task /\ Kept task /\ Task.Version task <> 0%Z.

(** The tasks and their candidates, in any order of rows. *)
Record HoldsTasks (T : Contents) (l : Ledger.t) : Prop := {
  held_tasks : T TasksTable ≡ₚ taskArgs json d <$> Ledger.snapshot l;
  held_candidates : T CandidatesTable ≡ₚ candidate_cells <$> (Ledger.snapshot l ≫= candidates_of);
  held_keyed : keyed l;
  held_fit : Forall Fits (Ledger.snapshot l)
}.

Lemma snapshot_ids l : keyed l ->
  NoDup (Task.ID <$> Ledger.snapshot l).
Proof.
  intros Hk. unfold Ledger.snapshot. rewrite <- list_fmap_compose.
  assert (He : forall kt, kt ∈ map_to_list (Ledger.tasks l) -> (Task.ID ∘ snd) kt = kt.1).
  { intros [id task] Hin%elem_of_map_to_list. by apply Hk. }
  pose proof (NoDup_fst_map_to_list (Ledger.tasks l)) as Hnd. revert He Hnd.
  generalize (map_to_list (Ledger.tasks l)). intros kts He Hnd.
  replace (Task.ID ∘ snd <$> kts) with kts.*1; [done|].
  apply list_fmap_ext. intros i kt Hkt. symmetry. apply He. by eapply list_elem_of_lookup_2.
Qed.

Lemma snapshot_in l task : keyed l ->
  task ∈ Ledger.snapshot l <-> Ledger.tasks l !! Task.ID task = Some task.
Proof.
  intros Hk. rewrite snapshot_lookup. split; [|by eauto]. intros [id Hid]. by rewrite (Hk id task Hid).
Qed.

(** A task without its candidates, as its own row is read. *)
Definition bare (task : Task.t) : Task.t := task <| Task.Candidates := CandidatePool.empty |>.

Lemma task_cells task : taskArgs json d task = task_row json d task <$> taskColumns.
Proof. symmetry. apply (cells_of_row TasksTable). done. Qed.

Lemma scan_tasks xs rows : Forall Fits xs -> rows_back d (taskArgs json d <$> xs) rows ->
  ScanTasks json rows = Ok (bare <$> xs).
Proof.
  intros Hfit Hrows. unfold ScanTasks. eapply (scan_handed _ (taskArgs json d) bare); [|exact Hrows].
  intros x raws Hx Hr. rewrite Forall_forall in Hfit. destruct (Hfit x Hx) as (He & Hw & (Hn & _) & _).
  rewrite (task_back json d x raws He Hn Hr). by rewrite stored_task_whole.
Qed.

(** The tasks of a selection of whole rows. *)
Lemma fetch_tasks alias tests order limit T l rows : HoldsTasks T l ->
  fetches (Select (Columns alias taskColumns) TasksTable alias tests order limit false) T rows ->
  exists xs, Answers collate (tables_of T) (fun task => env_of alias (task_row json d task)) nulls_first
      tests order limit (Ledger.snapshot l) xs /\
    ScanTasks json rows = Ok (bare <$> xs) /\ Forall (fun task => task ∈ Ledger.snapshot l) xs.
Proof.
  intros HT (visible & answer & -> & Ha & Hrows). cbn [AnswersTo] in Ha.
  eapply answers_stored in Ha as (xs & Hxs & Ha); [|exact (held_tasks _ _ HT)]. subst answer.
  change (fun x => env_of alias (row_in TasksTable (taskArgs json d x)))
    with (fun task => env_of alias (task_row json d task)) in Ha.
  assert (Hin : Forall (fun task => task ∈ Ledger.snapshot l) xs).
  { apply Forall_forall. intros x Hx. by apply (answers_in _ _ _ _ _ _ _ _ _ _ Ha). }
  exists xs. split; [done|]. split; [|done]. apply scan_tasks.
  { apply Forall_forall. intros x Hx. rewrite Forall_forall in Hin. pose proof (held_fit _ _ HT) as Hf.
    rewrite Forall_forall in Hf. by apply Hf, Hin. }
  assert (Hc : (fun cells => row_in TasksTable cells <$> taskColumns) <$> (taskArgs json d <$> xs) =
               taskArgs json d <$> xs).
  { rewrite <- list_fmap_compose. apply list_fmap_ext. intros i x _. by apply (cells_of_row TasksTable). }
  rewrite <- Hc. exact Hrows.
Qed.

(** The candidates of the tasks read are theirs again. *)
Lemma attach_tasks T l xs Q : HoldsTasks T l -> Forall (fun task => task ∈ Ledger.snapshot l) xs ->
  Q (Ok xs) T -> ends (attachCandidates json b (bare <$> xs)) T Q.
Proof.
  intros HT Hin HQ. unfold attachCandidates. rewrite length_fmap. case_decide as Hl.
  { apply nil_length_inv in Hl as ->. by apply ends_ret. }
  assert (Hids : Task.ID <$> (bare <$> xs) = Task.ID <$> xs) by (by rewrite <- list_fmap_compose).
  rewrite Hids. apply ends_obind. eapply ends_scanned.
  { cbn [tree]. destruct xs; [done|]. reflexivity. }
  intros rows (visible & answer & -> & Ha & Hrows). cbn [AnswersTo select_all] in Ha.
  eapply answers_stored in Ha as (cs & Hcs & Ha); [|exact (held_candidates _ _ HT)]. subst answer.
  assert (Hback : CandidatesBack d cs rows).
  { destruct Hrows as (He & raws & Hr & Hrs). split; [done|]. exists raws. split; [done|].
    cbn [all_of] in Hrs.
    rewrite <- list_fmap_compose, Forall2_fmap_l in Hrs.
    eapply Forall2_impl; [exact Hrs|]. by intros [ [id i] [kind value] ] r H. }
  destruct (pools_back collate Hbytes d (tables_of T) nulls_first (Ledger.snapshot l)
    (snapshot_ids l (held_keyed _ _ HT)) (Task.ID <$> xs) cs Ha rows Hback) as (pools & Hscan & Hpools).
  rewrite Hscan. apply ends_ret. replace (_ <$> (bare <$> xs)) with xs; [done|].
  rewrite <- list_fmap_compose. symmetry. rewrite <- (list_fmap_id xs) at 2. apply list_fmap_ext.
  intros i x Hx%list_elem_of_lookup_2. rewrite Forall_forall in Hin. unfold compose, bare. cbn.
  rewrite Hpools; [by destruct x|by apply Hin|]. apply list_elem_of_fmap. by exists x.
Qed.

(** *** Reading *)

Lemma fits_of T l task : HoldsTasks T l -> task ∈ Ledger.snapshot l -> Fits task.
Proof. intros HT Hin. pose proof (held_fit _ _ HT) as Hf. rewrite Forall_forall in Hf. by apply Hf. Qed.

Lemma fits_normal task : Fits task -> Task.Normalize task = task.
Proof. by intros (_ & _ & (Hn & _) & _). Qed.

(** The tasks that the condition on an identifier selects. *)
Lemma selected_by_id T l id : HoldsTasks T l ->
  filter (fun task => selects collate (tables_of T) (env_of None (task_row json d task)) (by_id id) = true)
    (Ledger.snapshot l) ≡ₚ
  match Ledger.tasks l !! id with Some task => [task] | None => [] end.
Proof.
  intros HT.
  assert (Hf : filter (fun task => selects collate (tables_of T) (env_of None (task_row json d task)) (by_id id) = true)
      (Ledger.snapshot l) = filter (fun task => Task.ID task = id) (Ledger.snapshot l)).
  { apply list_filter_iff_in. intros task Hin. pose proof (fits_normal _ (fits_of _ _ _ HT Hin)) as Hn.
    change (env_of None ?r) with (own_env r). by rewrite (selects_id collate Hbytes), bool_decide_eq_true. }
  rewrite Hf. clear Hf.
  assert (Ho : filter (fun task => Task.ID task = id) (others id l) = []).
  { apply filter_none. intros task Hin. apply (others_other _ l); [apply HT|done]. }
  destruct (Ledger.tasks l !! id) as [task|] eqn:E.
  - rewrite (snapshot_some _ _ _ E), filter_cons, Ho. by rewrite decide_True by (by apply HT).
  - by rewrite (snapshot_none _ _ E), Ho.
Qed.

Lemma ends_Get id T l Q : HoldsTasks T l -> Q (Ledger.Get id l) T -> ends (Get json b id) T Q.
Proof.
  intros HT HQ. unfold Get. apply ends_obind. eapply ends_scanned; [reflexivity|]. intros rows Hr.
  eapply fetch_tasks in Hr as (xs & (sorted & Hp & _ & ->) & Hscan & Hin); [|done]. rewrite Hscan.
  rewrite (selected_by_id _ _ _ HT) in Hp. unfold Ledger.Get in HQ. rewrite length_fmap.
  destruct (Ledger.tasks l !! id) as [task|].
  - apply Permutation_singleton_r in Hp as ->. cbn [length]. rewrite decide_False by done.
    apply ends_obind. apply (attach_tasks T l); [done..|]. by apply ends_ret.
  - apply Permutation_nil_r in Hp as ->. by apply ends_ret.
Qed.

(** The version that is stored. *)
Lemma ends_version id T l Q : HoldsTasks T l ->
  Q (match Ledger.tasks l !! id with
     | Some task => Ok (Task.Version task)
     | None => Err (NotFoundError id)
     end) T ->
  ends (version id) T Q.
Proof.
  intros HT HQ. unfold version. apply ends_bind. eapply ends_fetch; [reflexivity|].
  intros rows (visible & answer & -> & Ha & (Hend & raws & Heach & Hraws)). apply ends_ret.
  cbn [AnswersTo select_all] in Ha.
  eapply answers_stored in Ha as (xs & Hxs & (sorted & Hp & _ & ->)); [|exact (held_tasks _ _ HT)]. subst answer.
  change (fun x => env_of None (row_in TasksTable (taskArgs json d x)))
    with (fun task => env_of None (task_row json d task)) in Hp.
  rewrite (selected_by_id _ _ _ HT) in Hp. unfold first_row. rewrite Heach, Hend.
  destruct (Ledger.tasks l !! id) as [task|] eqn:E.
  - apply Permutation_singleton_r in Hp as ->. cbn [all_of fmap list_fmap] in Hraws.
    inversion Hraws as [|? raw ? rest Hraw Hrest]; subst. inversion Hrest; subst. cbn [fmap list_fmap].
    inversion Hraw as [|? v ? vs Hv Hvs]; subst. inversion Hvs; subst.
    assert (Hin : task ∈ Ledger.snapshot l) by (apply snapshot_lookup; by exists id).
    destruct (fits_of _ _ _ HT Hin) as (Henc & _ & (Hn & _) & _).
    change (row_in TasksTable (taskArgs json d task) "version")
      with (VInt (Task.Version (Task.Normalize task))) in Hv. rewrite Hn in Hv.
    change (value_at [v] 0) with v. by rewrite (int_back d _ _ (enc_version _ _ Henc) Hv).
  - apply Permutation_nil_r in Hp as ->. inversion Hraws; subst. done.
Qed.
(** *** Writing *)

Lemma set_task_cells task task' : Task.ID task' = Task.ID task ->
  set_cells TasksTable (values_where taskColumns (taskArgs json d task') "id") (taskArgs json d task) =
  taskArgs json d task'.
Proof.
  intros Hid. unfold set_cells. rewrite (task_cells task').
  apply (same_cells TasksTable). by apply updated_row.
Qed.

Lemma holds_put T T' l task : HoldsTasks T l -> Fits task ->
  T' TasksTable ≡ₚ taskArgs json d <$> (task :: others (Task.ID task) l) ->
  T' CandidatesTable ≡ₚ candidate_cells <$> ((task :: others (Task.ID task) l) ≫= candidates_of) ->
  HoldsTasks T' (Ledger.put task l).
Proof.
  intros HT Hfit Ht Hc. pose proof (fits_normal _ Hfit) as Hn.
  pose proof (snapshot_put task l Hn) as Hs. split.
  - by rewrite Hs.
  - by rewrite Hs.
  - by apply keyed_put, HT.
  - rewrite Hs. constructor; [done|]. apply Forall_forall. intros t Hin. apply (fits_of T l); [done|].
    unfold others in Hin. apply list_elem_of_fmap in Hin as ([key ?] & -> & Hin). apply elem_of_map_to_list in Hin.
    apply lookup_delete_Some in Hin as [_ Hin]. apply snapshot_lookup. by exists key.
Qed.

(** Tables that hold the same rows hold the same ledger. *)
Lemma tables_same T T' l : HoldsTasks T l ->
  T' TasksTable ≡ₚ T TasksTable -> T' CandidatesTable ≡ₚ T CandidatesTable -> HoldsTasks T' l.
Proof. intros [H1 H2 H3 H4] Ht Hc. split; [by rewrite Ht|by rewrite Hc|done..]. Qed.

Lemma ends_insert_candidates task T Q :
  (forall r T', others_kept CandidatesTable T T' ->
     T' CandidatesTable ≡ₚ T CandidatesTable ++ (candidate_cells <$> candidates_of task) -> Q (Ok r) T') ->
  ends (exec json b (QInsertCandidates (Task.ID task) (Task.Candidates task))) T Q.
Proof.
  intros HQ. destruct (candidate_entries (Task.Candidates task)) as [|e es] eqn:Ee.
  { apply ends_skip; [cbn [tree]; by rewrite Ee|]. apply HQ; [done|].
    unfold candidates_of. rewrite Ee. cbn. by rewrite app_nil_r. }
  eapply ends_exec; [cbn [tree]; by rewrite Ee|]. rewrite <- Ee.
  intros n T' [ [Hother Ht]%table_kept _]. apply HQ; [done|]. rewrite Ht. f_equiv.
  match goal with |- ?l ≡ₚ ?r => enough (l = r) as -> by done end.
  unfold candidates_of. rewrite !fmap_imap. apply imap_ext. intros i x _.
  apply (cells_of_row CandidatesTable (candidate_values (Task.ID task) i x)). by destruct x.
Qed.

Lemma ends_Create task T l Q : HoldsTasks T l -> Fits task ->
  (forall T', match Ledger.tasks l !! Task.ID task with
     | Some stored => T' = T -> Q (Err (ConflictError (Task.ID task) 0 (Task.Version stored))) T'
     | None => HoldsTasks T' (Ledger.put task l) ->
         (forall other, other ∉ [TasksTable; CandidatesTable] -> T' other = T other) -> Q (Ok tt) T'
     end) ->
  ends (Create json b task) T Q.
Proof.
  intros HT Hfit HQ. unfold Create. apply ends_bind. apply (ends_version _ _ l _ HT).
  destruct (Ledger.tasks l !! Task.ID task) as [stored|] eqn:E; [by apply ends_ret, HQ|].
  change (errors_Is (NotFoundError (Task.ID task)) ErrNotFound) with true. cbn [negb].
  apply ends_obind. eapply ends_exec; [reflexivity|]. intros n T1 Hx.
  apply (executes_insert collate b (taskArgs json d) TasksTable (Ledger.snapshot l) T T1 (held_tasks _ _ HT) [task])
    in Hx as [Hother Hrows]; [|by repeat constructor].
  apply ends_obind, ends_insert_candidates. intros r T2 Hother2 Hrows2. apply ends_ret. apply HQ.
  - apply (holds_put T); [done..| |].
    + rewrite Hother2, Hrows, (snapshot_none _ _ E) by done. by rewrite Permutation_app_comm.
    + rewrite Hrows2, Hother, (held_candidates _ _ HT), (snapshot_none _ _ E), bind_cons, fmap_app by done.
      by rewrite Permutation_app_comm.
  - intros other Ho. rewrite Hother2, Hother; [done| |]; intros ->; apply Ho; [left|right; left].
Qed.

Lemma other_candidates id l task : keyed l -> Ledger.tasks l !! id = Some task ->
  filter (fun c : Candidate => bool_decide (c.1.1 = id) = false) (Ledger.snapshot l ≫= candidates_of) ≡ₚ
  others id l ≫= candidates_of.
Proof.
  intros Hk E. rewrite (snapshot_some _ _ _ E), bind_cons, filter_app.
  rewrite filter_none, filter_all; [done| |].
  - intros c (t & Hc & Ht)%list_elem_of_bind. apply candidates_of_in in Hc as [-> _].
    apply bool_decide_eq_false. by apply (others_other _ l).
  - intros c Hc. apply candidates_of_in in Hc as [-> _]. rewrite (Hk _ _ E).
    by rewrite bool_decide_eq_true_2.
Qed.

Lemma selects_for_task tables id (c : Candidate) :
  selects collate tables (own_env (row_in CandidatesTable (candidate_cells c))) (for_task id) =
  bool_decide (c.1.1 = id).
Proof.
  apply eq_true_iff_eq. unfold for_task. rewrite selects_cons, andb_true_r, (holds_is _ _ Hbytes), bool_decide_eq_true.
  change (cell (own_env (row_in CandidatesTable (candidate_cells c))) (own "task_id")) with (VString c.1.1).
  naive_solver.
Qed.

(** What the conditional update of a task does to the rows. *)
Lemma executes_task_update T T' l task expected n : HoldsTasks T l ->
  executes (task_update json d task expected) T n T' ->
  let written t := bool_decide (Task.ID t = Task.ID task) && bool_decide (Task.Version t = expected) in
  others_kept TasksTable T T' /\
  T' TasksTable ≡ₚ taskArgs json d <$> ((fun t => if written t then task else t) <$> Ledger.snapshot l) /\
  n = Z.of_nat (length (filter (fun t => written t = true /\
        (d = MySQL -> taskArgs json d task <> taskArgs json d t)) (Ledger.snapshot l))).
Proof.
  intros HT Hx written. unfold task_update in Hx.
  apply (executes_update collate b (taskArgs json d) TasksTable (Ledger.snapshot l) T T' (held_tasks _ _ HT) _ written)
    with (becomes := fun _ => task) in Hx; [done| |].
  - intros t Hin. apply (selects_version collate Hbytes json d). by apply fits_normal, (fits_of T l).
  - intros t _ [Hid _]%andb_prop. apply set_task_cells. by apply bool_decide_eq_true in Hid.
Qed.

Lemma version_cell task : Fits task -> taskArgs json d task !! 2 = Some (VInt (Task.Version task)).
Proof.
  intros Hfit. change (taskArgs json d task !! 2) with (Some (VInt (Task.Version (Task.Normalize task)))).
  by rewrite fits_normal.
Qed.

Lemma ends_Update task expected T l Q : HoldsTasks T l -> Fits task -> Task.Version task <> expected ->
  (forall T', HoldsTasks T' (Ledger.Update task expected l).2 ->
     (forall other, other ∉ [TasksTable; CandidatesTable] -> T' other = T other) ->
     Q (Ledger.Update task expected l).1 T') ->
  ends (Update json b task expected) T Q.
Proof.
  intros HT Hfit Hv HQ. unfold Update. apply ends_obind. eapply ends_exec; [reflexivity|].
  intros n T1 (Hother & Hrows & Hn)%(executes_task_update T T1 l); [|done].
  apply ends_obind, ends_ret. cbn [affected_by]. unfold Ledger.Update in HQ.
  assert (Hrest : forall t, t ∈ others (Task.ID task) l -> bool_decide (Task.ID t = Task.ID task) = false).
  { intros t Ht. apply bool_decide_eq_false. apply (others_other _ l); [apply HT|done]. }
  assert (Hnone : forall (P : Task.t -> Prop) `{!forall t, Decision (P t)},
    filter (fun t => (bool_decide (Task.ID t = Task.ID task) && bool_decide (Task.Version t = expected)) = true /\
      P t) (others (Task.ID task) l) = []).
  { intros P ?. apply filter_none. intros t Ht [Hw _]. by rewrite (Hrest t Ht) in Hw. }
  assert (Hsame : (fun t => if bool_decide (Task.ID t = Task.ID task) && bool_decide (Task.Version t = expected)
      then task else t) <$> others (Task.ID task) l = others (Task.ID task) l).
  { rewrite <- (list_fmap_id (others _ _)) at 2. apply list_fmap_ext. intros i t Ht%list_elem_of_lookup_2.
    by rewrite (Hrest t Ht). }
  assert (Hkept : T1 TasksTable ≡ₚ taskArgs json d <$> Ledger.snapshot l -> HoldsTasks T1 l).
  { intros Hr. apply (tables_same T); [done| |by rewrite Hother]. by rewrite Hr, (held_tasks _ _ HT). }
  assert (Hout : forall other, other ∉ [TasksTable; CandidatesTable] -> T1 other = T other).
  { intros other Ho. apply Hother. intros ->. apply Ho. left. }
  destruct (Ledger.tasks l !! Task.ID task) as [stored|] eqn:E.
  2: { rewrite (snapshot_none _ _ E) in Hrows, Hn. rewrite Hnone in Hn. rewrite Hn, decide_True by done.
       rewrite Hsame in Hrows.
       rewrite (snapshot_none _ _ E) in Hkept. specialize (Hkept Hrows).
       apply ends_bind, (ends_version _ _ l); [done|]. rewrite E.
       change (errors_Is (NotFoundError (Task.ID task)) ErrNotFound) with true. by apply ends_ret, HQ. }
  pose proof (snapshot_some _ _ _ E) as Hs. pose proof (held_keyed _ _ HT _ _ E) as Hid.
  assert (Hin : stored ∈ Ledger.snapshot l) by (rewrite Hs; left).
  pose proof (fits_of _ _ _ HT Hin) as Hfs.
  rewrite Hs in Hrows, Hn. rewrite fmap_cons, Hsame in Hrows. rewrite filter_cons, Hnone in Hn.
  rewrite Hid in Hrows, Hn. rewrite (bool_decide_eq_true_2 (Task.ID task = Task.ID task)) in Hrows, Hn by done.
  cbn [andb] in Hrows, Hn. destruct (decide (Task.Version stored = expected)) as [Ev|Ev].
  - rewrite (bool_decide_eq_true_2 _ Ev) in Hrows, Hn. rewrite decide_True in Hn.
    2: { split; [done|]. intros _ Heq. pose proof (version_cell _ Hfit) as H1. rewrite Heq, version_cell in H1 by done.
         congruence. }
    rewrite Hn, decide_False by done. apply ends_obind. eapply ends_exec; [reflexivity|].
    intros n' T2 Hx. eapply (executes_delete collate b candidate_cells CandidatesTable) in Hx as [Hother2 Hrows2].
    2: { rewrite (Hother CandidatesTable) by done. apply HT. }
    2: { intros c _. apply selects_for_task. }
    rewrite (other_candidates _ _ _ (held_keyed _ _ HT) E) in Hrows2.
    apply ends_obind, ends_insert_candidates. intros r T3 Hother3 Hrows3. apply ends_ret. apply HQ.
    + apply (holds_put T); [done..| |].
      * by rewrite Hother3, Hother2, Hrows by done.
      * rewrite Hrows3, Hrows2, bind_cons, fmap_app. by rewrite Permutation_app_comm.
    + intros other Ho. rewrite Hother3, Hother2; [by apply Hout| |]; intros ->; apply Ho; right; left.
  - rewrite (bool_decide_eq_false_2 _ Ev) in Hrows, Hn. rewrite decide_False in Hn by (by intros [? _]).
    rewrite Hn, decide_True by done. rewrite <- Hs in Hrows. specialize (Hkept Hrows).
    apply ends_bind, (ends_version _ _ l); [done|]. rewrite E. apply ends_ret. unfold CheckAffected.
    destruct Hfs as (_ & _ & _ & Hnz). cbn [Z.ltb Z.compare]. rewrite (decide_False (P := _ = 0%Z)) by done.
    by apply HQ.
Qed.

End tasks.

(** ** Queries *)

Section queries.
Context (collate : string -> string -> comparison) (Hbytes : forall x y, collate x y = String.compare x y).
Context (nulls_first : bool) (json : SqlJson.t) (b : Builder.t) (codec : CursorCodec.t).
#[local] Abbreviation d := (Builder.dialect b).
#[local] Abbreviation ends := (ends collate nulls_first json d).
#[local] Abbreviation HoldsTasks := (HoldsTasks json b).

Context (T : Contents) (l : Ledger.t) (HT : HoldsTasks T l).

Lemma held_storable : Forall Storable (Ledger.snapshot l).
Proof.
  apply Forall_forall. intros t Ht. pose proof (fits_of _ _ _ _ _ HT Ht) as (_ & _ & (Hn & Hs & Hd & _) & _).
  by split_and!.
Qed.

(** The rows of the candidates' table are the tasks' candidates. *)
Lemma held_candidate_rows row :
  row ∈ tables_of T CandidatesTable <-> row ∈ Ledger.snapshot l ≫= candidate_rows.
Proof.
  unfold tables_of. rewrite (held_candidates _ _ _ _ HT), <- list_fmap_compose.
  unfold candidate_rows. rewrite list_elem_of_fmap, list_elem_of_bind. setoid_rewrite list_elem_of_bind.
  unfold candidates_of. setoid_rewrite list_elem_of_fmap. setoid_rewrite elem_of_lookup_imap. split.
  - intros (c & -> & t & (i & e & -> & He) & Ht). exists t. split; [|done]. eexists. split; [|by exists i, e]. done.
  - intros (t & (v & -> & i & e & -> & He) & Ht). eexists. split; [|exists t; split; [by exists i, e|done] ]. done.
Qed.

Context (query : ResolvedQuery.t).
#[local] Abbreviation q := (ResolvedQuery.Query_ query).
Context (Hspelled : Forall Spelled (Query.Statuses q)).
Context (Hbefore : forall t, Query.DueBefore q = Some t -> (0 <= t < year_10000)%Z).

Lemma ends_Count Q : (Z.of_nat (length (Ledger.snapshot l)) <= max_int64)%Z ->
  Q (Ok (countMatching (Ledger.snapshot l) (stored_query query))) T -> ends (Count json b query) T Q.
Proof.
  intros Hsmall HQ. unfold Count. eapply ends_scanned; [reflexivity|].
  intros rows (visible & answer & -> & Ha & (Hend & raws & Heach & Hraws)). cbn [AnswersTo] in Ha.
  eapply answers_stored in Ha as (xs & Hxs & (sorted & Hp & _ & ->)); [|exact (held_tasks _ _ _ _ HT)]. subst answer.
  assert (Hn : length sorted = length (filter (fun t => matches t (stored_query query) = true) (Ledger.snapshot l))).
  { rewrite Hp. f_equal. apply list_filter_iff_in. intros t Ht.
    apply (selects_matching collate Hbytes json d _ (snapshot_ids l (held_keyed _ _ _ _ HT)) held_storable
      (tables_of T) held_candidate_rows); done. }
  inversion Hraws as [|? raw ? rest Hr Hrest]; subst. inversion Hrest; subst.
  inversion Hr as [|? v ? vs Hv Hvs]; subst. inversion Hvs; subst.
  unfold ScanCount. rewrite Heach. cbn [fmap list_fmap]. change (value_at [v] 0) with v.
  unfold countMatching in HQ. rewrite countMatching_length, Z.add_0_l in HQ by lia.
  rewrite length_fmap, Hn in Hv. apply int_back in Hv; [by rewrite Hv|].
  pose proof (length_filter (fun t => matches t (stored_query query) = true) (Ledger.snapshot l)).
  unfold Int64, max_int64 in *. lia.
Qed.

Context (after : option position.t).
Context (Hordering : Ordering_Valid (Query.OrderBy q) = true) (Hstart : start_of codec q = Ok after).
Context (Hafter : forall p due, after = Some p -> position.DueAt p = Some due -> Deadline due).

#[local] Abbreviation limit := (Z.to_nat (Query.EffectiveLimit q)).
#[local] Abbreviation matched := (sort_tasks q (select (stored_query query) after (Ledger.snapshot l))).

(** The ledger's page of an ordering and a cursor that are accepted. *)
Lemma ledger_page :
  queryPage codec (Ledger.snapshot l) (stored_query query) =
  if decide (limit < length matched) then
    match last (take limit matched) with
    | None => Ok (Page.mk [] "")
    | Some final => try! token := encodeCursor codec q (positionOf final) in Ok (Page.mk (take limit matched) token)
    end
  else Ok (Page.mk matched "").
Proof.
  assert (Hclone : forall ts : list Task.t, Task.Clone <$> ts = ts).
  { intros ts. rewrite <- (list_fmap_id ts) at 2. apply list_fmap_ext. intros i t _. apply Task_Clone_id. }
  transitivity (try! after := start_of codec q in
    let matched := sort_tasks q (select (stored_query query) after (Ledger.snapshot l)) in
    if decide (limit < length matched) then
      let matched := take limit matched in
      match last matched with
      | None => Ok (Page.mk [] "")
      | Some final =>
          try! token := encodeCursor codec q (positionOf final) in Ok (Page.mk (Task.Clone <$> matched) token)
      end
    else Ok (Page.mk (Task.Clone <$> matched) "")).
  { unfold queryPage. change (Query.OrderBy (ResolvedQuery.Query_ (stored_query query))) with (Query.OrderBy q).
    rewrite Hordering. reflexivity. }
  rewrite Hstart. cbn [rbind]. cbv zeta. by rewrite !Hclone.
Qed.

(** A page is the ledger's, up to the text of a failure to write a cursor. *)
Lemma ends_Query Q :
  (forall r, match queryPage codec (Ledger.snapshot l) (stored_query query) with
             | Ok page => r = Ok page | Err _ => exists e, r = Err e end -> Q r T) ->
  ends (Query_ json b codec query) T Q.
Proof.
  rewrite ledger_page. intros HQ. unfold Query_, page_request. cbv zeta. apply ends_obind, ends_ret.
  assert (Hb : exists s, QueryTasks b codec query = Ok s).
  { unfold QueryTasks. rewrite Hordering. cbn [negb]. fold (start_of codec q). rewrite Hstart. by eexists. }
  destruct Hb as [s ->]. cbn [rbind]. rewrite Hstart. cbn [rbind].
  apply ends_obind. eapply ends_scanned; [reflexivity|]. intros rows Hr.
  eapply fetch_tasks in Hr as (xs & Ha & Hscan & Hin); [|exact HT]. rewrite Hscan. cbv beta iota.
  apply (answer_is_list collate Hbytes json d nulls_first _ (snapshot_ids l (held_keyed _ _ _ _ HT)) held_storable
    (tables_of T) held_candidate_rows query after Hordering Hspelled Hbefore Hafter) in Ha.
  assert (Hlen : limit < length xs <-> limit < length matched) by (rewrite Ha, length_take; lia).
  apply ends_obind, ends_ret. rewrite length_fmap.
  destruct (decide (limit < length matched)) as [Hl|Hl].
  - rewrite (decide_True (P := limit < length xs)) by tauto.
    assert (Ht : take limit xs = take limit matched) by (rewrite Ha, take_take; f_equal; lia).
    rewrite <- fmap_take, fmap_last, Ht.
    assert (Hin' : Forall (fun t => t ∈ Ledger.snapshot l) (take limit matched)) by (rewrite <- Ht; by apply Forall_take).
    destruct (last (take limit matched)) as [final|] eqn:El.
    2: { apply last_None in El. pose proof (EffectiveLimit_bounds q). apply (f_equal length) in El.
         rewrite length_take in El. cbn in El. lia. }
    cbn [fmap option_fmap option_map]. unfold NextCursor, encodeCursor in *.
    change (Task.Priority (bare final)) with (Task.Priority final). change (Task.DueAt (bare final)) with (Task.DueAt final).
    change (Task.ID (bare final)) with (Task.ID final). unfold positionOf in HQ.
    destruct (CursorCodec.Marshal codec _) as [token|]; cbn [rbind] in *; [|apply HQ; by eexists].
    apply ends_obind. apply (attach_tasks collate Hbytes nulls_first json b T l); [done..|]. by apply ends_ret, HQ.
  - rewrite (decide_False (P := limit < length xs)) by tauto. cbn [fst snd].
    apply ends_obind. apply (attach_tasks collate Hbytes nulls_first json b T l); [done..|]. apply ends_ret, HQ.
    rewrite Ha, take_ge by lia. done.
Qed.
End queries.

(** ** History *)

(** A record as it is stored, and one that storing and reading changes nothing of. *)
Definition logged (r : TransitionRecord.t) : TransitionRecord.t :=
  r <| TransitionRecord.At := NormalizeTime (TransitionRecord.At r) |>.

Record FitsRecord (r : TransitionRecord.t) : Prop := {
  fit_version : Int64 (TransitionRecord.Version r);
  fit_at : Dated (TransitionRecord.At r);
  fit_from : stored_status (TransitionRecord.From r) = TransitionRecord.From r;
  fit_to : stored_status (TransitionRecord.To r) = TransitionRecord.To r
}.

Definition records (h : gmap string (list TransitionRecord.t)) : list TransitionRecord.t :=
  mjoin (map_to_list h).*2.

Record HoldsHistory (d : Dialect) (T : Contents) (l : Ledger.t) : Prop := {
  held_records : T HistoryTable ≡ₚ history_values d <$> records (Ledger.history l);
  held_filed : forall id rs, Ledger.history l !! id = Some rs ->
    Forall (fun r => TransitionRecord.TaskID r = id) rs;
  held_fit_records : Forall (fun r => FitsRecord r /\ logged r = r) (records (Ledger.history l))
}.

Lemma records_some h id rs : h !! id = Some rs -> records h ≡ₚ rs ++ records (delete id h).
Proof.
  intros H. unfold records. rewrite <- (insert_delete_id h id rs) at 1 by done.
  by rewrite map_to_list_insert by apply lookup_delete_eq.
Qed.

Lemma records_at h id : records h ≡ₚ default [] (h !! id) ++ records (delete id h).
Proof. destruct (h !! id) eqn:E; [by apply records_some|]. by rewrite delete_id. Qed.

Lemma records_insert h id rs : records (<[id := rs]> h) ≡ₚ rs ++ records (delete id h).
Proof.
  rewrite (records_some _ id rs) by apply lookup_insert_eq. by rewrite delete_insert_eq.
Qed.

Lemma records_log r h : records (Ledger.log r h) ≡ₚ records h ++ [logged r].
Proof.
  unfold Ledger.log. rewrite records_insert, (records_at h (TransitionRecord.TaskID r)).
  change (TransitionRecord.TaskID (logged r)) with (TransitionRecord.TaskID r).
  rewrite <- !app_assoc. apply Permutation_app_head, Permutation_app_comm.
Qed.

Lemma records_log_all rs h : records (for_each Ledger.log rs h) ≡ₚ records h ++ (logged <$> rs).
Proof.
  revert h. induction rs as [|r rs IH]; intros h; cbn [for_each fmap list_fmap]; [by rewrite app_nil_r|].
  by rewrite IH, records_log, <- app_assoc.
Qed.

Lemma filed_log rs h :
  (forall id rs, h !! id = Some rs -> Forall (fun r => TransitionRecord.TaskID r = id) rs) ->
  forall id rs', for_each Ledger.log rs h !! id = Some rs' -> Forall (fun r => TransitionRecord.TaskID r = id) rs'.
Proof.
  revert h. induction rs as [|r rs IH]; intros h Hh; [done|]. cbn [for_each]. apply IH. clear IH.
  unfold Ledger.log. intros id rs' [ [<- <-] | [_ H] ]%lookup_insert_Some; [|by apply Hh].
  apply Forall_app. split; [|by constructor].
  destruct (h !! _) eqn:E; [by apply Hh|done].
Qed.

Lemma logged_values d r : history_values d (logged r) = history_values d r.
Proof.
  unfold history_values. change (TransitionRecord.At (logged r)) with (NormalizeTime (TransitionRecord.At r)).
  by rewrite NormalizeTime_idemp.
Qed.

Section history.
Context (collate : string -> string -> comparison) (Hbytes : forall x y, collate x y = String.compare x y).
Context (nulls_first : bool) (json : SqlJson.t) (b : Builder.t).
#[local] Abbreviation d := (Builder.dialect b).
#[local] Abbreviation ends := (ends collate nulls_first json d).

Lemma ends_AppendHistory rs T l Q : HoldsHistory d T l -> Forall FitsRecord rs ->
  (forall T', HoldsHistory d T' (Ledger.AppendHistory rs l).2 ->
     (forall other, other <> HistoryTable -> T' other = T other) -> Q (Ok tt) T') ->
  ends (AppendHistory json b rs) T Q.
Proof.
  intros HT Hfit HQ. unfold AppendHistory. apply ends_obind.
  destruct rs as [|r rs]; [apply ends_skip; [done|]; apply ends_ret; apply HQ; [by destruct HT|done]|].
  eapply ends_exec; [reflexivity|]. intros n T' Hx.
  apply (executes_insert collate b (history_values d) HistoryTable (records (Ledger.history l)) T T'
    (held_records _ _ _ HT) (r :: rs)) in Hx as [Hother Hrows].
  2: { apply Forall_forall. by intros. }
  apply ends_ret. apply HQ; [|done]. destruct HT as [_ Hfiled Hfits]. split.
  - change (Ledger.history (Ledger.AppendHistory (r :: rs) l).2)
      with (for_each Ledger.log (r :: rs) (Ledger.history l)).
    rewrite Hrows, records_log_all, !fmap_app. f_equiv. rewrite <- (list_fmap_compose logged).
    match goal with |- ?l ≡ₚ ?r => enough (l = r) as -> by done end.
    apply list_fmap_ext. intros i x _. symmetry. apply logged_values.
  - by apply filed_log.
  - change (Ledger.history (Ledger.AppendHistory (r :: rs) l).2)
      with (for_each Ledger.log (r :: rs) (Ledger.history l)).
    rewrite records_log_all. apply Forall_app. split; [done|]. apply Forall_fmap.
    eapply Forall_impl; [exact Hfit|]. intros x []. split.
    + split; [done|by apply normalized_dated|done..].
    + unfold compose, logged. destruct x. cbn. by rewrite NormalizeTime_idemp.
Qed.

Definition older (r1 r2 : TransitionRecord.t) : Prop :=
  (TransitionRecord.Version r1 < TransitionRecord.Version r2)%Z.

Lemma older_unique rs r1 r2 : StronglySorted older rs -> r1 ∈ rs -> r2 ∈ rs ->
  TransitionRecord.Version r1 = TransitionRecord.Version r2 -> r1 = r2.
Proof.
  induction 1 as [|r rs _ IH Hr]; [by intros ?%elem_of_nil|]. rewrite Forall_forall in Hr. unfold older in Hr.
  intros [-> |H1]%elem_of_cons [-> |H2]%elem_of_cons Hv; [done|..|by apply IH].
  - specialize (Hr _ H2). lia.
  - specialize (Hr _ H1). lia.
Qed.

Definition record_env (r : TransitionRecord.t) : Env := env_of None (row_in HistoryTable (history_values d r)).

(** The records of one task. *)
Lemma selected_records tables T l id : HoldsHistory d T l ->
  filter (fun r => selects collate tables (record_env r) (for_task id) = true) (records (Ledger.history l)) ≡ₚ
  Ledger.History id l.
Proof.
  intros HT.
  assert (Hf : filter (fun r => selects collate tables (record_env r) (for_task id) = true)
      (records (Ledger.history l)) = filter (fun r => TransitionRecord.TaskID r = id) (records (Ledger.history l))).
  { apply list_filter_iff_in. intros r _. unfold for_task. rewrite selects_cons, andb_true_r, (holds_is _ _ Hbytes).
    change (cell (record_env r) (own "task_id")) with (VString (TransitionRecord.TaskID r)). naive_solver. }
  rewrite Hf, (records_at _ id), filter_app. clear Hf. destruct HT as [_ Hfiled _].
  rewrite (filter_none _ (records (delete id (Ledger.history l)))).
  2: { intros r Hr%list_elem_of_join. destruct Hr as (rs & Hr & ([key ?] & -> & Hin)%list_elem_of_fmap).
       apply elem_of_map_to_list, lookup_delete_Some in Hin as [Hne Hin]. apply Hfiled in Hin.
       rewrite Forall_forall in Hin. cbn in Hr. by rewrite (Hin r Hr). }
  rewrite app_nil_r, filter_all; [done|]. intros r Hr. unfold Ledger.History in Hr.
  destruct (Ledger.history l !! id) as [rs|] eqn:E; [|by apply elem_of_nil in Hr].
  apply Hfiled in E. rewrite Forall_forall in E. by apply E.
Qed.

Lemma versions_in_order r1 r2 :
  terms_compare collate nulls_first (plain_order ["version"; "at"]) (record_env r1) (record_env r2) <> Gt ->
  (TransitionRecord.Version r1 <= TransitionRecord.Version r2)%Z.
Proof.
  unfold plain_order. cbn [fmap list_fmap terms_compare term_compare default].
  change (cell (record_env ?r) (own "version")) with (VInt (TransitionRecord.Version r)).
  unfold order_compare at 1. cbn [missing compare_values].
  destruct (Z.compare_spec (TransitionRecord.Version r1) (TransitionRecord.Version r2)); [lia|lia|done].
Qed.

(** A history in the order of its versions is read in its order. *)
Lemma ends_History id T l Q : HoldsHistory d T l -> StronglySorted older (Ledger.History id l) ->
  Q (Ok (HistoryRow.of_record <$> Ledger.History id l)) T -> ends (History json b id) T Q.
Proof.
  intros HT Hs HQ. unfold History. eapply ends_scanned; [reflexivity|].
  intros rows (visible & answer & -> & Ha & Hrows). cbn [AnswersTo select_all] in Ha.
  eapply answers_stored in Ha as (xs & Hxs & (sorted & Hp & Hsorted & ->)); [|exact (held_records _ _ _ HT)].
  subst answer. fold record_env in Hp, Hsorted. rewrite (selected_records _ _ _ _ HT) in Hp.
  assert (Hin : forall r, r ∈ Ledger.History id l -> FitsRecord r /\ logged r = r).
  { intros r Hr. destruct HT as [_ _ Hfits]. rewrite (records_at _ id) in Hfits.
    apply Forall_app in Hfits as [Hfits _]. rewrite Forall_forall in Hfits. by apply Hfits. }
  assert (sorted = Ledger.History id l) as ->.
  { apply (StronglySorted_unique_strong (fun r1 r2 => (TransitionRecord.Version r1 <= TransitionRecord.Version r2)%Z));
      [| | |done].
    - intros r1 r2 H1 H2 H12 H21. rewrite Hp in H1. apply (older_unique _ _ _ Hs); [done..|lia].
    - eapply StronglySorted_weaken; [|exact Hsorted]. intros r1 r2 _ _. apply versions_in_order.
    - eapply StronglySorted_weaken; [|exact Hs]. unfold older. lia. }
  unfold ScanHistory. erewrite (scan_handed _ (history_values d) HistoryRow.of_record); [exact HQ| |].
  - intros r raws Hr Hraws. apply Hin in Hr as [ [Hv Ha Hfrom Hto] Hl].
    rewrite (history_back d r raws Hv Ha Hraws). do 2 f_equal.
    unfold stored_record. rewrite Hfrom, Hto. rewrite <- Hl at 9. by destruct r.
  - assert (Hc : (fun cells => row_in HistoryTable cells <$> historyColumns) <$>
      (history_values d <$> Ledger.History id l) = history_values d <$> Ledger.History id l).
    { rewrite <- list_fmap_compose. apply list_fmap_ext. intros i x _. by apply (cells_of_row HistoryTable). }
    rewrite <- Hc. exact Hrows.
Qed.
End history.

(** ** Leases *)

(** A selection that may skip rows reads some of the things stored. *)
Lemma visible_stored {A} (cells : A -> list Value) (lock : bool) visible rows (xs : list A) :
  (if lock then visible ⊆+ rows else visible = rows) -> rows ≡ₚ cells <$> xs ->
  exists seen, visible ≡ₚ cells <$> seen /\ seen ⊆+ xs /\ (lock = false -> seen = xs).
Proof.
  destruct lock; [|intros ->; by exists xs].
  intros (skipped & Hv)%submseteq_Permutation Hr. rewrite Hr in Hv. symmetry in Hv.
  apply Permutation_map_inv in Hv as (ys & Hys & Hp). 
  change (List.map cells ys) with (cells <$> ys) in Hys. symmetry in Hys.
  apply fmap_app_inv in Hys as (seen & hidden & Hseen & _ & ->). exists seen.
  split; [by rewrite Hseen|]. split; [|done]. rewrite Hp. by apply submseteq_inserts_r.
Qed.

Section leases.
Context (collate : string -> string -> comparison) (Hbytes : forall x y, collate x y = String.compare x y).
Context (nulls_first : bool) (json : SqlJson.t) (b : Builder.t).
#[local] Abbreviation d := (Builder.dialect b).
#[local] Abbreviation ends := (ends collate nulls_first json d).
#[local] Abbreviation executes := (executes collate d).
#[local] Abbreviation HoldsTasks := (HoldsTasks json b).

Context (lease : LeaseRequest.t) (Hnow : Deadline (LeaseRequest.Now lease)).
#[local] Abbreviation until := (NormalizeTime (LeaseRequest.Now lease + LeaseRequest.Duration lease)).
Context (Huntil : Deadline until) (Hlong : (LeaseRequest.Now lease < until)%Z).

Definition taken_by (task : Task.t) : bool :=
  Ledger.claimable lease task && contains workingStatuses (Task.Status task).

Lemma leased_until task : Task.LockedUntil (Ledger.leased lease task) = Some until.
Proof.
  destruct (leased_lease lease task) as (_ & _ & ->). destruct Hnow as [_ ->]. done.
Qed.

Lemma leased_normal task : Task.Normalize task = task ->
  Ledger.leased lease task =
  task <| Task.LockedBy := LeaseRequest.Owner lease |> <| Task.LockedUntil := Some until |>.
Proof.
  intros Hn. pose proof (leased_until task) as Hu. revert Hu Hn. unfold Ledger.leased, Task.Normalize.
  rewrite !Task_Clone_id. destruct task. cbn. intros [= Hu] [= Hc Hup Hd Hs Hcl He _].
  by rewrite Hc, Hup, Hd, Hs, Hcl, He, Hu.
Qed.

Lemma leased_candidates task : Task.Normalize task = task ->
  candidates_of (Ledger.leased lease task) = candidates_of task.
Proof. intros Hn. by rewrite leased_normal. Qed.

Lemma until_dated : DatedPtr (Some until).
Proof. destruct Huntil as [Hb _]. intros x [= <-]. unfold Dated, Microsecond in *. lia. Qed.

Lemma leased_fits task : Fits json task -> Fits json (Ledger.leased lease task).
Proof.
  intros (He & Hw & Hk & Hv). pose proof Hk as (Hn & Hs & Hd & Hl). pose proof (Normalize_leased lease task) as Hnl.
  pose proof until_dated as Hu. rewrite (leased_normal _ Hn) in Hnl |- *. split_and!; [| | |exact Hv].
  - destruct He. split; [done..|exact Hu|done|done].
  - destruct Hw as [H1 H2 H3 H4 H5 H6 H7]. split; [done..|]. intros t Ht.
    rewrite !elem_of_cons in Ht. destruct Ht as [Ht|[Ht|[Ht|[Ht|[ [= ->] |Ht] ] ] ] ].
    1-4: apply H7; rewrite !elem_of_cons; tauto.
    + by destruct Huntil as [ [? _] _].
    + by apply elem_of_nil in Ht.
  - split_and!; [done|exact Hs|exact Hd|]. intros x [= <-]. done.
Qed.

(** A lease is longer than what it replaces, so the row is different afterwards. *)
Lemma leased_differs task : Fits json task -> taken_by task = true ->
  taskArgs json d (Ledger.leased lease task) <> taskArgs json d task.
Proof.
  intros Hfit Ht Heq. pose proof Hfit as (_ & _ & (Hn & _ & _ & Hl) & _).
  assert (Hlast : forall t, Fits json t -> taskArgs json d t !! 27 = Some (EncodeTime d (Task.LockedUntil t))).
  { intros t Hf. change (taskArgs json d t !! 27) with (Some (EncodeTime d (Task.LockedUntil (Task.Normalize t)))).
    by rewrite (fits_normal json). }
  pose proof (Hlast _ (leased_fits _ Hfit)) as H1. rewrite Heq, Hlast, leased_until in H1 by done.
  apply (inj Some) in H1. unfold taken_by in Ht. apply andb_prop in Ht as [Ht _]. apply claimable_free in Ht.
  destruct Hnow as [_ Hnn]. rewrite Hnn in Ht. unfold Task.IsLeased in Ht.
  destruct Huntil as [Hub Hun]. apply (stamp_differs collate Hbytes b (Task.LockedUntil task) until); [done..| |done].
  intros x E. rewrite E in Ht. apply Z.ltb_ge in Ht. lia.
Qed.

Lemma set_lease_cells task :
  set_cells TasksTable (lease_sets d (LeaseRequest.Owner lease) until) (taskArgs json d task) =
  taskArgs json d (Ledger.leased lease task).
Proof.
  unfold set_cells. rewrite (task_cells json b (Ledger.leased lease task)). apply (same_cells TasksTable). apply leased_row. by destruct Hnow.
Qed.

Lemma executes_lease T T' l task n : HoldsTasks T l ->
  Ledger.tasks l !! Task.ID task = Some task -> taken_by task = true ->
  executes (lease_update d (Task.ID task) lease) T n T' ->
  HoldsTasks T' (Ledger.put (Ledger.leased lease task) l) /\ others_kept TasksTable T T' /\ n <> 0%Z.
Proof.
  intros HT E Ht Hx. unfold lease_update in Hx.
  apply (executes_update collate b (taskArgs json d) TasksTable (Ledger.snapshot l) T T' (held_tasks _ _ _ _ HT) _
      (fun t => bool_decide (Task.ID t = Task.ID task) && taken_by t))
    with (becomes := Ledger.leased lease) in Hx as (Hother & Hrows & ->).
  2: { intros t Hin. pose proof (fits_of _ _ _ _ _ HT Hin) as (_ & _ & (Hn & Hs & Hd & Hl) & _).
       change (row_in TasksTable (taskArgs json d t)) with (task_row json d t).
       rewrite selects_app, (selects_id collate Hbytes json d) by done. f_equal.
       rewrite (selects_overdue collate Hbytes json d); [done..|]. by rewrite (proj2 Hnow). }
  2: { intros t _ _. apply set_lease_cells. }
  pose proof (snapshot_some _ _ _ E) as Hs. assert (Hin : task ∈ Ledger.snapshot l) by (rewrite Hs; left).
  pose proof (fits_of _ _ _ _ _ HT Hin) as Hfit. destruct (leased_lease lease task) as (Hid & _).
  assert (Hrest : forall t, t ∈ others (Task.ID task) l -> bool_decide (Task.ID t = Task.ID task) = false).
  { intros t Hto. apply bool_decide_eq_false. apply (others_other _ l); [apply HT|done]. }
  assert (Hsame : (fun t => if bool_decide (Task.ID t = Task.ID task) && taken_by t
      then Ledger.leased lease t else t) <$> others (Task.ID task) l = others (Task.ID task) l).
  { rewrite <- (list_fmap_id (others _ _)) at 2. apply list_fmap_ext. intros i t Hto%list_elem_of_lookup_2.
    by rewrite (Hrest t Hto). }
  split_and!; [|done|].
  - apply (holds_put json b T); [done|by apply leased_fits| |]; rewrite Hid.
    + rewrite Hrows, Hs, fmap_cons, Hsame. by rewrite (bool_decide_eq_true_2 (Task.ID task = _)), Ht by done.
    + rewrite Hother by done. rewrite (held_candidates _ _ _ _ HT), Hs, !bind_cons.
      by rewrite leased_candidates by (by apply (fits_normal json)).
  - intros Hn. rewrite Hs, filter_cons, decide_True in Hn; [done|].
    rewrite (bool_decide_eq_true_2 (Task.ID task = _)), Ht by done. split; [done|]. intros _. by apply leased_differs.
Qed.

(** Tables that hold a ledger in which these tasks are still to be leased. *)
Definition to_lease (T0 : Contents) (todo : list Task.t) (l : Ledger.t) (T : Contents) : Prop :=
  HoldsTasks T l /\ NoDup (Task.ID <$> todo) /\
  (forall task, task ∈ todo -> Ledger.tasks l !! Task.ID task = Some task /\ taken_by task = true) /\
  (forall other, other <> TasksTable -> T other = T0 other).

Lemma leased_next T0 task todo l T T' n :
  to_lease T0 (task :: todo) l T -> executes (lease_update d (Task.ID task) lease) T n T' ->
  n <> 0%Z /\ to_lease T0 todo (Ledger.put (Ledger.leased lease task) l) T'.
Proof.
  intros (HT & Hnd & Htodo & Hkept) Hx. cbn [fmap list_fmap] in Hnd. apply NoDup_cons in Hnd as [Hni Hnd].
  destruct (Htodo task) as [E Ht]; [left|].
  destruct (executes_lease _ _ _ _ _ HT E Ht Hx) as (HT1 & Hother & Hn).
  split; [done|]. split_and!; [done..| |].
  - intros t Hto. destruct (Htodo t) as [Et Htt]; [by right|]. split; [|done].
    change (Ledger.tasks (Ledger.put ?t l)) with (<[Task.ID t := Task.Normalize t]> (Ledger.tasks l)).
    rewrite lookup_insert_ne; [done|]. rewrite (proj1 (leased_lease lease task)). intros Heq. apply Hni.
    rewrite Heq. apply list_elem_of_fmap. by exists t.
  - intros other Ho. by rewrite Hother, Hkept.
Qed.

Lemma read_leased T0 task todo l T T' Q :
  to_lease T0 (task :: todo) l T -> to_lease T0 todo (Ledger.put (Ledger.leased lease task) l) T' ->
  Q (Ok (Ledger.leased lease task)) T' -> ends (Get json b (Task.ID task)) T' Q.
Proof.
  intros _ (HT' & _) HQ. apply (ends_Get collate Hbytes nulls_first json b _ _ _ _ HT'). unfold Ledger.Get.
  change (Ledger.tasks (Ledger.put ?t l)) with (<[Task.ID t := Task.Normalize t]> (Ledger.tasks l)).
  by rewrite (proj1 (leased_lease lease task)), lookup_insert_eq, Normalize_leased.
Qed.

Lemma ends_ClaimOverdue T l Q : HoldsTasks T l ->
  (forall T' todo, NoDup (Task.ID <$> todo) ->
     (forall task, task ∈ todo -> Ledger.tasks l !! Task.ID task = Some task /\ taken_by task = true) ->
     length todo <= Ledger.batch (LeaseRequest.Limit lease) DefaultLeaseBatch ->
     (SupportsSkipLocked d = false -> length todo =
        min (Ledger.batch (LeaseRequest.Limit lease) DefaultLeaseBatch)
          (length (filter (fun task => taken_by task = true) (Ledger.snapshot l)))) ->
     HoldsTasks T' (for_each Ledger.put (Ledger.leased lease <$> todo) l) ->
     (forall other, other <> TasksTable -> T' other = T other) -> Q (Ok (Ledger.leased lease <$> todo)) T') ->
  ends (ClaimOverdue json b lease) T Q.
Proof.
  intros HT HQ. unfold ClaimOverdue, overdueIDs, identifiers. apply ends_obind, ends_obind.
  eapply ends_query; [reflexivity|]. intros rows (visible & answer & Hvis & Ha & (Hend & raws & Heach & Hraws)).
  cbn [AnswersTo] in Ha. apply ends_ret.
  destruct (visible_stored (taskArgs json d) _ _ _ _ Hvis (held_tasks _ _ _ _ HT)) as (seen & Hseen & Hsub & Hall).
  eapply answers_stored in Ha as (todo & Htodo & (sorted & Hp & _ & Hcut)); [|exact Hseen]. subst answer.
  assert (Hf : filter (fun t => selects collate (tables_of T)
      (env_of None (row_in TasksTable (taskArgs json d t))) (overdue_tests d lease) = true) seen =
    filter (fun t => taken_by t = true) seen).
  { apply list_filter_iff_in. intros t Hin.
    assert (Hin' : t ∈ Ledger.snapshot l) by (by eapply elem_of_submseteq).
    pose proof (fits_of _ _ _ _ _ HT Hin') as (_ & _ & (Hn & Hs & Hd & Hl) & _).
    change (env_of None (row_in TasksTable (taskArgs json d t))) with (own_env (task_row json d t)).
    rewrite (selects_overdue collate Hbytes json d); [done..|]. by rewrite (proj2 Hnow). }
  rewrite Hf in Hp. clear Hf. cbn [fst snd]. rewrite Heach, Hend.
  rewrite (identifiers_back b (taskArgs json d) TasksTable Task.ID _ todo); [| |exact Hraws].
  2: { intros t _. change (row_in TasksTable (taskArgs json d t) "id") with (VString (Task.ID (Task.Normalize t))).
       unfold Task.Normalize. by rewrite Task_Clone_id. }
  assert (Hin : forall t, t ∈ todo -> t ∈ Ledger.snapshot l /\ taken_by t = true).
  { intros t Ht. rewrite Hcut in Ht. apply subseteq_take in Ht. rewrite Hp, list_elem_of_filter in Ht.
    split; [|tauto]. eapply elem_of_submseteq; [|exact Hsub]. tauto. }
  assert (Hkey : forall t, t ∈ todo -> Ledger.tasks l !! Task.ID t = Some t /\ taken_by t = true).
  { intros t [Hs Ht]%Hin. split; [|done]. by apply snapshot_in; [apply HT|]. }
  assert (Hnd : NoDup (Task.ID <$> todo)).
  { assert (Hd : NoDup (Task.ID <$> seen)).
    { pose proof (snapshot_ids l (held_keyed _ _ _ _ HT)) as Hd. apply submseteq_Permutation in Hsub as [rest Hr].
      rewrite Hr, fmap_app in Hd. by apply NoDup_app in Hd as [? _]. }
    rewrite Hcut, fmap_take. eapply sublist_NoDup; [|apply sublist_take].
    rewrite Hp. by apply NoDup_fmap_filter. }
  assert (Hlimit : Z.to_nat (limit_or DefaultLeaseBatch (LeaseRequest.Limit lease)) =
    Ledger.batch (LeaseRequest.Limit lease) DefaultLeaseBatch).
  { done. }
  apply (ends_claim_each collate nulls_first json b Task.ID (Ledger.leased lease) (fun t => Ledger.put (Ledger.leased lease t))
    (fun id => QClaimLease id lease) _ _ (fun id => lease_update d id lease) (fun id => eq_refl) (to_lease T) (leased_next T) (read_leased T) todo l).
  { by split_and!. }
  intros T' (HT' & _ & _ & Hother). apply HQ; try done.
  - rewrite Hcut, Hlimit, length_take. lia.
  - intros Hlock. rewrite Hcut, Hlimit, length_take, Hp. by rewrite Hall.
  - by rewrite for_each_fmap.
Qed.
End leases.
