(* ===== verification/SqlStoreOutbox.v ===== *)
(** * SqlStoreOutbox: recorded events in SQL

    The methods of [SqlStore.v] that record, claim and settle events, run on tables
    that hold a ledger's outbox: they answer what the ledger answers and leave
    tables that hold what the ledger becomes. *)

From S2P Require Import Prelude Domain Errors Event Query Outbox Store Registry Calendar Sqlkit SqlBuilder.
From S2P Require Import SqlPrint SqlPrintFacts SqlMeaning SqlQuery SqlLease SqlScan Interaction SqlStore SqlStoreFacts SqlStoreTasks.

Section outbox.
Context (collate : string -> string -> comparison) (Hbytes : forall x y, collate x y = String.compare x y).
Context (nulls_first : bool) (json : SqlJson.t) (b : Builder.t).
#[local] Abbreviation d := (Builder.dialect b).
#[local] Abbreviation ends := (ends collate nulls_first json d).
#[local] Abbreviation executes := (executes collate d).

(** The row of an entry: its event as it was encoded when it was recorded. *)
Definition payload_of (event : Event.t) : RawMessage :=
  match SqlJson.MarshalEvent json event with Ok s => Some s | Err _ => None end.
Definition entry_cells (e : OutboxEntry.t) : list Value :=
  entry_values json d (payload_of (OutboxEntry.Event e)) e.

(** An entry that storing and reading changes nothing of. *)
Definition FitsEntry (e : OutboxEntry.t) : Prop :=
  EncodedEntry json (payload_of (OutboxEntry.Event e)) e /\ KeptEntry e /\
  Deadline (Event.OccurredAt (OutboxEntry.Event e)).

Record HoldsOutbox (T : Contents) (l : Ledger.t) : Prop := {
  held_entries : T OutboxTable ≡ₚ entry_cells <$> Ledger.outbox l;
  held_distinct : NoDup (Ledger.keys l);
  held_fit_entries : Forall FitsEntry (Ledger.outbox l)
}.

Lemma stored_stamp t : Stamp t -> stored_time t = t.
Proof.
  intros Ht. destruct t as [x|]; [|done]. destruct (Ht x eq_refl) as [Hb Hn]. cbn. rewrite Hn.
  unfold optionalTime. rewrite decide_False; [done|]. unfold Microsecond in Hb. lia.
Qed.

Lemma entry_fits_back e : FitsEntry e -> stored_entry e = e.
Proof.
  intros (_ & (Hp & Hn & Hl) & _). unfold stored_entry. rewrite !stored_stamp by done. by destruct e.
Qed.

Lemma keys_in l e : e ∈ Ledger.outbox l -> OutboxEntry.key e ∈ Ledger.keys l.
Proof. intros He. apply list_elem_of_fmap. by exists e. Qed.

Lemma entry_unique l e1 e2 : NoDup (Ledger.keys l) -> e1 ∈ Ledger.outbox l -> e2 ∈ Ledger.outbox l ->
  OutboxEntry.key e1 = OutboxEntry.key e2 -> e1 = e2.
Proof.
  unfold Ledger.keys. generalize (Ledger.outbox l). intros es. induction es as [|e es IH]; intros Hnd;
    [by intros ?%elem_of_nil|].
  cbn [fmap list_fmap] in Hnd. apply NoDup_cons in Hnd as [Hni Hnd].
  intros [-> |H1]%elem_of_cons [-> |H2]%elem_of_cons Hk; [done|..|by apply IH]; destruct Hni;
    [rewrite Hk|rewrite <- Hk]; apply list_elem_of_fmap; eauto.
Qed.

Lemma filter_key l id : NoDup (Ledger.keys l) ->
  filter (fun e => OutboxEntry.key e = id) (Ledger.outbox l) =
  match list_find (fun e => OutboxEntry.key e = id) (Ledger.outbox l) with Some (_, e) => [e] | None => [] end.
Proof.
  unfold Ledger.keys. generalize (Ledger.outbox l). intros es. induction es as [|e es IH]; intros Hnd; [done|].
  cbn [fmap list_fmap] in Hnd. apply NoDup_cons in Hnd as [Hni Hnd]. rewrite filter_cons. cbn [list_find].
  case_decide as He.
  - rewrite filter_none; [done|]. intros x Hx Hk. apply Hni. rewrite He, <- Hk. apply list_elem_of_fmap. eauto.
  - rewrite IH by done. by destruct (list_find _ es) as [ [? ?]|].
Qed.

Lemma entry_named tables e id :
  selects collate tables (own_env (row_in OutboxTable (entry_cells e))) (by_id id) =
  bool_decide (OutboxEntry.key e = id).
Proof. apply (entry_selects_id collate Hbytes json d). Qed.

(** *** Reading *)

Lemma ends_OutboxEntry id T l Q : HoldsOutbox T l -> Q (Ledger.Entry id l) T ->
  ends (OutboxEntry_ json b id) T Q.
Proof.
  intros HT HQ. unfold OutboxEntry_. apply ends_obind. eapply ends_scanned; [reflexivity|].
  intros rows (visible & answer & -> & Ha & Hrows). cbn [AnswersTo select_all] in Ha.
  eapply answers_stored in Ha as (xs & Hxs & (sorted & Hp & _ & ->)); [|exact (held_entries _ _ HT)]. subst answer.
  assert (Hf : filter (fun e => selects collate (tables_of T)
      (env_of None (row_in OutboxTable (entry_cells e))) (by_id id) = true) (Ledger.outbox l) =
    filter (fun e => OutboxEntry.key e = id) (Ledger.outbox l)).
  { apply list_filter_iff_in. intros e _. change (env_of None ?r) with (own_env r).
    by rewrite entry_named, bool_decide_eq_true. }
  rewrite Hf, filter_key in Hp by apply HT. clear Hf.
  assert (Hscan : ScanOutboxEntries json rows = Ok sorted).
  { unfold ScanOutboxEntries.
    assert (Hin : forall e, e ∈ sorted -> FitsEntry e).
    { intros e He. rewrite Hp in He. destruct (list_find _ _) as [ [i e'] |] eqn:E; [|by apply elem_of_nil in He].
      apply list_elem_of_singleton in He as ->. apply list_find_Some in E as (Hl & _).
      pose proof (held_fit_entries _ _ HT) as Hf. rewrite Forall_forall in Hf. apply Hf. by eapply list_elem_of_lookup_2. }
    rewrite <- (list_fmap_id sorted) at 1. unfold Datatypes.id. apply (scan_handed _ entry_cells (fun e => e) d).
    - intros e raws He Hr. rewrite (entry_back json d _ e raws (proj1 (Hin e He)) Hr). by rewrite entry_fits_back by auto.
    - assert (Hc : (fun cells => row_in OutboxTable cells <$> outboxColumns) <$> (entry_cells <$> sorted) =
        entry_cells <$> sorted).
      { rewrite <- list_fmap_compose. apply list_fmap_ext. intros i x _. by apply (cells_of_row OutboxTable). }
      rewrite <- Hc. exact Hrows. }
  rewrite Hscan. apply ends_ret. unfold Ledger.Entry in HQ.
  destruct (list_find _ _) as [ [i e] |].
  - by apply Permutation_singleton_r in Hp as ->.
  - by apply Permutation_nil_r in Hp as ->.
Qed.

(** *** Recording *)

(** The rows of events that can be encoded. *)
Lemma event_rows events : Forall (fun e => is_Some (payload_of e)) events ->
  exists rows, EventRows json events = Ok rows /\
    outbox_values d <$> rows = entry_cells <$> (Settle.record_event <$> events).
Proof.
  induction 1 as [|e events [payload He] _ (rows & Hrows & Hcells)]; [by exists []|].
  unfold payload_of in He. cbn [EventRows]. destruct (SqlJson.MarshalEvent json e) as [p|] eqn:Em; [|done].
  cbn [unmarshalled rbind]. rewrite Hrows. cbn [rbind]. eexists. split; [done|].
  cbn [fmap list_fmap]. f_equal; [|exact Hcells]. unfold entry_cells, payload_of.
  change (OutboxEntry.Event (Settle.record_event e)) with e. by rewrite Em.
Qed.

Lemma fits_payload e : FitsEntry e -> is_Some (payload_of (OutboxEntry.Event e)).
Proof. intros ([ (s & Hs & _) ] & _). by exists s. Qed.

Lemma ends_Append events T l Q : HoldsOutbox T l ->
  Forall (fun e => FitsEntry (Settle.record_event e)) events ->
  NoDup ((Event.ID <$> events) ++ Ledger.keys l) ->
  (forall T', HoldsOutbox T' (Ledger.Append events l).2 ->
     (forall other, other <> OutboxTable -> T' other = T other) -> Q (Ok tt) T') ->
  ends (Append json b events) T Q.
Proof.
  intros HT Hfits Hnd HQ. unfold Append.
  assert (Hheld : forall T', T' OutboxTable ≡ₚ entry_cells <$> (Ledger.outbox l ++ (Settle.record_event <$> events)) ->
    HoldsOutbox T' (Ledger.Append events l).2).
  { intros T' Hr. destruct HT as [_ _ Hf]. split; [done| |by apply Forall_app; split; [|apply Forall_fmap] ].
    unfold Ledger.keys.
    change (Ledger.outbox (Ledger.Append events l).2) with (Ledger.outbox l ++ (Settle.record_event <$> events)).
    rewrite fmap_app, <- (list_fmap_compose Settle.record_event). by rewrite Permutation_app_comm. }
  case_decide as Hl.
  { apply nil_length_inv in Hl as ->. apply ends_ret, HQ; [|done]. apply Hheld.
    by rewrite app_nil_r, (held_entries _ _ HT). }
  destruct (event_rows events) as (rows & Hrows & Hcells).
  { eapply Forall_impl; [exact Hfits|]. intros e. apply (fits_payload (Settle.record_event e)). }
  apply ends_obind, ends_ret. rewrite Hrows. apply ends_obind. eapply ends_exec.
  { cbn [tree]. destruct rows; [|reflexivity]. by destruct events. }
  intros n T' Hx. rewrite Hcells in Hx.
  apply (executes_insert collate b entry_cells OutboxTable (Ledger.outbox l) T T' (held_entries _ _ HT)) in Hx
    as [Hother Hnew]; [|by apply Forall_forall].
  apply ends_ret, HQ; [by apply Hheld|done].
Qed.

(** *** Settling *)

Lemma set_entry_cells sets e e' : OutboxEntry.Event e' = OutboxEntry.Event e ->
  same_row outboxColumns (set_columns sets (entry_row json d (payload_of (OutboxEntry.Event e)) e))
    (entry_row json d (payload_of (OutboxEntry.Event e)) e') ->
  set_cells OutboxTable sets (entry_cells e) = entry_cells e'.
Proof.
  intros He Hs. unfold set_cells. transitivity (entry_row json d (payload_of (OutboxEntry.Event e)) e' <$> outboxColumns).
  - by apply (same_cells OutboxTable).
  - unfold entry_cells. rewrite He. by apply (cells_of_row OutboxTable).
Qed.

Definition edited (id : string) (f : OutboxEntry.t -> OutboxEntry.t) (e : OutboxEntry.t) : OutboxEntry.t :=
  if bool_decide (OutboxEntry.key e = id) then f e else e.

Lemma edit_outbox id f l : Ledger.outbox (Ledger.edit id f l).2 = edited id f <$> Ledger.outbox l.
Proof.
  unfold Ledger.edit. destruct (decide (id ∈ Ledger.keys l)) as [Hin|Hin]; cbn [snd].
  - apply list_fmap_ext. intros i e _. unfold edited.
    destruct (decide (OutboxEntry.key e = id)) as [Hk|Hk];
      [by rewrite (bool_decide_eq_true_2 _ Hk)|by rewrite (bool_decide_eq_false_2 _ Hk)].
  - rewrite <- (list_fmap_id (Ledger.outbox l)) at 1. apply list_fmap_ext. intros i e He%list_elem_of_lookup_2.
    unfold edited. rewrite bool_decide_eq_false_2; [done|]. intros <-. by apply Hin, keys_in.
Qed.

Section edit.
Context (id : string) (f : OutboxEntry.t -> OutboxEntry.t) (l : Ledger.t).
Context (Hevent : forall e, e ∈ Ledger.outbox l -> OutboxEntry.key e = id ->
  OutboxEntry.Event (f e) = OutboxEntry.Event e).

Lemma edited_key e : e ∈ Ledger.outbox l -> OutboxEntry.key (edited id f e) = OutboxEntry.key e.
Proof.
  intros He. unfold edited. destruct (bool_decide _) eqn:E; [|done]. apply bool_decide_eq_true in E.
  unfold OutboxEntry.key. by rewrite Hevent.
Qed.

Lemma edit_keeps_keys : Ledger.keys (Ledger.edit id f l).2 = Ledger.keys l.
Proof.
  unfold Ledger.keys. rewrite edit_outbox, <- list_fmap_compose. apply list_fmap_ext.
  intros i e He%list_elem_of_lookup_2. by apply edited_key.
Qed.

(** The edit fails exactly where the entry is not found afterwards. *)
Lemma entry_after_edit :
  match Ledger.Entry id (Ledger.edit id f l).2 with Ok _ => Ok tt | Err e => Err e end = (Ledger.edit id f l).1.
Proof.
  pose proof edit_keeps_keys as Hkeys. unfold Ledger.Entry, Ledger.edit in *.
  destruct (decide (id ∈ Ledger.keys l)) as [Hin|Hin]; cbn [fst snd] in *.
  - rewrite <- Hkeys in Hin. apply list_elem_of_fmap in Hin as (e & Hk & He).
    destruct (list_find _ _) as [ [i x] |] eqn:E; [done|]. apply list_find_None in E.
    rewrite Forall_forall in E. by destruct (E e He).
  - destruct (list_find _ _) as [ [i x] |] eqn:E; [|done]. apply list_find_Some in E as (Hx & Hk & _).
    exfalso. apply Hin. rewrite <- Hk. apply keys_in. by eapply list_elem_of_lookup_2.
Qed.

Lemma holds_edit T T' : HoldsOutbox T l ->
  (forall e, e ∈ Ledger.outbox l -> OutboxEntry.key e = id -> FitsEntry (f e)) ->
  T' OutboxTable ≡ₚ entry_cells <$> (edited id f <$> Ledger.outbox l) ->
  HoldsOutbox T' (Ledger.edit id f l).2.
Proof.
  intros [_ Hnd Hfit] Hf Hrows. split; [by rewrite edit_outbox|by rewrite edit_keeps_keys|].
  rewrite edit_outbox. apply Forall_fmap, Forall_forall. intros e He. rewrite Forall_forall in Hfit.
  unfold compose, edited. destruct (bool_decide _) eqn:E; [|by apply Hfit].
  apply bool_decide_eq_true in E. by apply Hf.
Qed.
End edit.

(** An update of the row of one event is an edit of its entry. *)
Lemma ends_settle id r sets f T l Q : HoldsOutbox T l ->
  tree json d r = Some (SqlPrint.Update OutboxTable sets (by_id id)) ->
  (forall e, e ∈ Ledger.outbox l -> OutboxEntry.key e = id -> OutboxEntry.Event (f e) = OutboxEntry.Event e /\
     set_cells OutboxTable sets (entry_cells e) = entry_cells (f e) /\ FitsEntry (f e)) ->
  (forall T', HoldsOutbox T' (Ledger.edit id f l).2 ->
     (forall other, other <> OutboxTable -> T' other = T other) -> Q (Ledger.edit id f l).1 T') ->
  ends (settleOutbox json b id r) T Q.
Proof.
  intros HT Ht Hf HQ. unfold settleOutbox. apply ends_obind. eapply ends_exec; [exact Ht|]. intros n T1 Hx.
  apply (executes_update collate b entry_cells OutboxTable (Ledger.outbox l) T T1 (held_entries _ _ HT) _
      (fun e => bool_decide (OutboxEntry.key e = id)))
    with (becomes := f) in Hx as (Hother & Hrows & Hn).
  2: { intros e _. apply entry_named. }
  2: { intros e He Hk%bool_decide_eq_true. by apply Hf. }
  assert (Hevent : forall e, e ∈ Ledger.outbox l -> OutboxEntry.key e = id ->
    OutboxEntry.Event (f e) = OutboxEntry.Event e) by (intros e He Hk; by apply Hf).
  assert (Hl' : HoldsOutbox T1 (Ledger.edit id f l).2).
  { apply (holds_edit id f l Hevent T); [done| |done]. intros e He Hk. by apply Hf. }
  apply ends_obind, ends_ret. cbn [affected_by]. destruct (decide (0 < n)%Z) as [Hpos|Hpos].
  - apply ends_ret. replace (Ok tt) with (Ledger.edit id f l).1; [by apply HQ|]. unfold Ledger.edit.
    rewrite decide_True; [done|]. rewrite Hn in Hpos.
    destruct (filter _ (Ledger.outbox l)) as [|e es] eqn:E; [done|].
    assert (He : e ∈ e :: es) by left. rewrite <- E in He. apply list_elem_of_filter in He as [ [Hk _] He].
    apply bool_decide_eq_true in Hk as <-. by apply keys_in.
  - apply ends_obind, (ends_OutboxEntry _ _ (Ledger.edit id f l).2); [done|].
    pose proof (entry_after_edit id f l Hevent) as Hentry.
    destruct (Ledger.Entry id (Ledger.edit id f l).2) as [e|e]; [apply ends_ret|]; rewrite Hentry; by apply HQ.
Qed.

(** What a settlement may write: instants within the years of four digits. *)
Definition Within (t : option Time) : Prop := forall x, t = Some x -> Deadline (NormalizeTime x).

Lemma within_stamp t : Within t -> Stamp (normalizeTimePtr t).
Proof. intros Ht x. destruct t as [y|]; [|done]. intros [= <-]. by apply Ht. Qed.
Lemma stamp_dated t : Stamp t -> DatedPtr t.
Proof. intros Ht x ->. destruct (Ht x eq_refl) as [Hb _]. unfold Dated, Microsecond in *. lia. Qed.
Lemma within_late t x : Within t -> t = Some x -> (Microsecond <= x)%Z.
Proof. intros Ht Hx. destruct (Ht x Hx) as [Hb _]. pose proof (NormalizeTime_bounds x). lia. Qed.

(** An entry of the same event with other particulars. *)
Lemma fits_again e e' : FitsEntry e -> OutboxEntry.Event e' = OutboxEntry.Event e ->
  Int64 (OutboxEntry.Attempts e') -> KeepsStrings json (OutboxEntry.Accepted e') -> KeptEntry e' -> FitsEntry e'.
Proof.
  intros ([He _ _ _ _ _] & _ & Ho) Hev Ha Hs Hk. pose proof Hk as (Hp & Hn & Hl). unfold FitsEntry. rewrite Hev.
  split_and!; [|done|done]. split; [by rewrite Hev|done|by apply stamp_dated..|done].
Qed.

Lemma ends_RecordAttempt r T l Q : HoldsOutbox T l ->
  Int64 (AttemptRecord.Attempts r) -> Within (Some (AttemptRecord.NextAttemptAt r)) ->
  (forall T', HoldsOutbox T' (Ledger.RecordAttempt r l).2 ->
     (forall other, other <> OutboxTable -> T' other = T other) -> Q (Ledger.RecordAttempt r l).1 T') ->
  ends (RecordAttempt json b r) T Q.
Proof.
  intros HT Ha Hn HQ. eapply ends_settle; [done|reflexivity| |exact HQ]. intros e He _.
  assert (Hfit : FitsEntry e) by (pose proof (held_fit_entries _ _ HT) as Hf; rewrite Forall_forall in Hf; by apply Hf).
  split_and!; [done| |].
  - apply set_entry_cells; [done|]. apply attempted_entry.
  - pose proof Hfit as ([ ] & (Hp & _) & _). apply (fits_again e); [done..|]. split_and!; [done| |by intros ? [=]].
    apply (within_stamp _ Hn).
Qed.

Lemma ends_MarkAccepted a T l Q : HoldsOutbox T l ->
  Int64 (Acceptance.Attempts a) -> KeepsStrings json (Acceptance.Accepted a) ->
  Within (Acceptance.PublishedAt a) -> Within (Acceptance.NextAttemptAt a) ->
  (Acceptance.PublishedAt a = None -> forall e, e ∈ Ledger.outbox l ->
     OutboxEntry.key e = Acceptance.EventID a -> OutboxEntry.PublishedAt e = None) ->
  (forall T', HoldsOutbox T' (Ledger.MarkAccepted a l).2 ->
     (forall other, other <> OutboxTable -> T' other = T other) -> Q (Ledger.MarkAccepted a l).1 T') ->
  ends (MarkAccepted json b a) T Q.
Proof.
  intros HT Ha Hs Hp Hn Hnew HQ. eapply ends_settle; [done|reflexivity| |exact HQ]. intros e He Hk.
  assert (Hfit : FitsEntry e) by (pose proof (held_fit_entries _ _ HT) as Hf; rewrite Forall_forall in Hf; by apply Hf).
  assert (Hsame : Settle.accept a (e <| OutboxEntry.PublishedAt := None |>) = Settle.accept a e).
  { unfold Settle.accept. destruct (Acceptance.PublishedAt a) as [x|]; [done|].
    specialize (Hnew eq_refl e He Hk). destruct e. cbn in Hnew. by subst. }
  split_and!.
  - unfold Settle.accept. by destruct (Acceptance.PublishedAt a), (Acceptance.NextAttemptAt a).
  - rewrite <- Hsame. apply set_entry_cells.
    { unfold Settle.accept. by destruct (Acceptance.PublishedAt a), (Acceptance.NextAttemptAt a). }
    apply accepted_entry; intros x Hx; (eapply within_late; [|exact Hx]; done).
  - pose proof Hfit as (_ & (Hpe & Hne & _) & _). pose proof (within_stamp _ Hp) as Hps. pose proof (within_stamp _ Hn) as Hns.
    unfold Settle.accept. destruct (Acceptance.PublishedAt a) as [x|], (Acceptance.NextAttemptAt a) as [y|];
      (apply (fits_again e); [done..|]); split_and!; done || by intros ? [=].
Qed.

Lemma ends_MarkDeadLettered dl T l Q : HoldsOutbox T l ->
  Int64 (DeadLetter.Attempts dl) -> (forall s, DeadLetter.Accepted dl = Some s -> KeepsStrings json s) ->
  (forall T', HoldsOutbox T' (Ledger.MarkDeadLettered dl l).2 ->
     (forall other, other <> OutboxTable -> T' other = T other) -> Q (Ledger.MarkDeadLettered dl l).1 T') ->
  ends (MarkDeadLettered json b dl) T Q.
Proof.
  intros HT Ha Hs HQ. eapply ends_settle; [done|reflexivity| |exact HQ]. intros e He _.
  assert (Hfit : FitsEntry e) by (pose proof (held_fit_entries _ _ HT) as Hf; rewrite Forall_forall in Hf; by apply Hf).
  assert (Hev : OutboxEntry.Event (Settle.bury dl e) = OutboxEntry.Event e)
    by (unfold Settle.bury; by destruct (DeadLetter.Accepted dl)).
  split_and!; [done| |].
  - apply set_entry_cells; [done|]. apply buried_entry.
  - pose proof Hfit as ([ ] & (Hp & _) & _).
    apply (fits_again e); [done|done|unfold Settle.bury; by destruct (DeadLetter.Accepted dl)|..];
      unfold Settle.bury; destruct (DeadLetter.Accepted dl) as [s|]; cbn; try done; try (by apply Hs);
      split_and!; done || by intros ? [=].
Qed.
End outbox.

(** ** Claims *)

Section claims.
Context (collate : string -> string -> comparison) (Hbytes : forall x y, collate x y = String.compare x y).
Context (nulls_first : bool) (json : SqlJson.t) (b : Builder.t).
#[local] Abbreviation d := (Builder.dialect b).
#[local] Abbreviation ends := (ends collate nulls_first json d).
#[local] Abbreviation executes := (executes collate d).
#[local] Abbreviation HoldsOutbox := (HoldsOutbox json b).
#[local] Abbreviation cells := (entry_cells json b).

Context (claim : OutboxClaim.t) (Hnow : Deadline (OutboxClaim.Now claim)) (Hlong : (0 < OutboxClaim.Duration claim)%Z).
#[local] Abbreviation until := (OutboxClaim.Now claim + OutboxClaim.Duration claim)%Z.
Context (Huntil : Deadline until).
#[local] Abbreviation due := (Settle.due (OutboxClaim.Now claim)).

Lemma claimed_until e : OutboxEntry.LockedUntil (Settle.lease claim e) = Some until.
Proof. cbn. by rewrite (proj2 Hnow). Qed.

Lemma claimed_fits e : FitsEntry json e -> FitsEntry json (Settle.lease claim e).
Proof.
  intros Hfit. pose proof Hfit as ([ ] & (Hp & Hn & _) & _). apply (fits_again json e); [done..|].
  split_and!; [done..|]. rewrite claimed_until. by intros x [= <-].
Qed.

Lemma claimed_differs e : FitsEntry json e -> due e = true -> cells (Settle.lease claim e) <> cells e.
Proof.
  intros (_ & (_ & _ & Hl) & _) Hd Heq.
  assert (Hlock : forall x, cells x !! 11 = Some (EncodeTime d (OutboxEntry.LockedUntil x))) by done.
  pose proof (Hlock (Settle.lease claim e)) as H1. rewrite Heq, Hlock, claimed_until in H1. apply (inj Some) in H1.
  revert H1. apply (stamp_differs collate Hbytes b); [done..|]. intros x Hx.
  unfold Settle.due, OutboxEntry.IsLeased in Hd. rewrite Hx in Hd.
  apply andb_prop in Hd as [ [_ Hd]%andb_prop _]. apply negb_true_iff, bool_decide_eq_false in Hd. lia.
Qed.

Lemma entry_due tables e : FitsEntry json e ->
  selects collate tables (own_env (row_in OutboxTable (cells e))) (due_tests d claim) = due e.
Proof.
  intros (_ & (Hp & Hn & Hl) & _).
  change (row_in OutboxTable (cells e)) with (entry_row json d (payload_of json (OutboxEntry.Event e)) e).
  rewrite (selects_due collate Hbytes json d); [|done..|]; by rewrite (proj2 Hnow).
Qed.

(** Tables that hold a ledger in which these events are still to be claimed. *)
Definition to_claim (T0 : Contents) (todo : list OutboxEntry.t) (l : Ledger.t) (T : Contents) : Prop :=
  HoldsOutbox T l /\ NoDup (OutboxEntry.key <$> todo) /\
  (forall e, e ∈ todo -> e ∈ Ledger.outbox l /\ due e = true) /\
  (forall other, other <> OutboxTable -> T other = T0 other).

Definition claimed_next (e : OutboxEntry.t) (l : Ledger.t) : Ledger.t :=
  (Ledger.edit (OutboxEntry.key e) (Settle.lease claim) l).2.

Lemma fit_entry T l e : HoldsOutbox T l -> e ∈ Ledger.outbox l -> FitsEntry json e.
Proof. intros HT He. pose proof (held_fit_entries _ _ _ _ HT) as Hf. rewrite Forall_forall in Hf. by apply Hf. Qed.

Lemma claimed_take T0 e todo l T T' n :
  to_claim T0 (e :: todo) l T -> executes (event_update d (OutboxEntry.key e) claim) T n T' ->
  n <> 0%Z /\ to_claim T0 todo (claimed_next e l) T'.
Proof.
  intros (HT & Hnd & Htodo & Hkept) Hx. cbn [fmap list_fmap] in Hnd. apply NoDup_cons in Hnd as [Hni Hnd].
  destruct (Htodo e) as [He Hd]; [left|]. unfold event_update in Hx.
  assert (Hnamed : forall x, x ∈ Ledger.outbox l ->
    bool_decide (OutboxEntry.key x = OutboxEntry.key e) && due x = bool_decide (OutboxEntry.key x = OutboxEntry.key e)).
  { intros x Hin. destruct (decide (OutboxEntry.key x = OutboxEntry.key e)) as [Hk|Hk];
      [|by rewrite (bool_decide_eq_false_2 _ Hk)].
    rewrite (entry_unique l x e) by (done || apply HT). by rewrite Hd, andb_true_r. }
  apply (executes_update collate b cells OutboxTable (Ledger.outbox l) T T' (held_entries _ _ _ _ HT) _
      (fun x => bool_decide (OutboxEntry.key x = OutboxEntry.key e)))
    with (becomes := Settle.lease claim) in Hx as (Hother & Hrows & ->).
  2: { intros x Hin. rewrite selects_app, (entry_named collate Hbytes json b), entry_due by (by eapply fit_entry).
       by apply Hnamed. }
  2: { intros x Hin _. apply set_entry_cells; [done|]. apply leased_entry; [by destruct Hnow|].
       destruct Huntil as [ [? _] _]. unfold Microsecond in *. lia. }
  split.
  { intros Hn. assert (Hin : e ∈ filter (fun x => bool_decide (OutboxEntry.key x = OutboxEntry.key e) = true /\
      (d = MySQL -> cells (Settle.lease claim x) <> cells x)) (Ledger.outbox l)).
    { apply list_elem_of_filter. split; [|done]. split; [by apply bool_decide_eq_true|]. intros _.
      apply claimed_differs; [by eapply fit_entry|done]. }
    destruct (filter _ _); [by apply elem_of_nil in Hin|done]. }
  assert (Hk : forall x, x ∈ Ledger.outbox l -> OutboxEntry.key x = OutboxEntry.key e ->
    OutboxEntry.Event (Settle.lease claim x) = OutboxEntry.Event x) by done.
  split_and!.
  - apply (holds_edit json b _ _ l Hk T); [done| |exact Hrows]. intros x Hin _. apply claimed_fits. by eapply fit_entry.
  - done.
  - intros x Hx. destruct (Htodo x) as [Hin Hdx]; [by right|]. split; [|done]. unfold claimed_next.
    rewrite edit_outbox. apply list_elem_of_fmap. exists x. split; [|done]. unfold edited.
    rewrite bool_decide_eq_false_2; [done|]. intros Heq. apply Hni. rewrite <- Heq. apply list_elem_of_fmap. by exists x.
  - intros other Ho. by rewrite Hother, Hkept.
Qed.

Lemma read_claimed T0 e todo l T T' Q :
  to_claim T0 (e :: todo) l T -> to_claim T0 todo (claimed_next e l) T' ->
  Q (Ok (Settle.lease claim e)) T' -> ends (OutboxEntry_ json b (OutboxEntry.key e)) T' Q.
Proof.
  intros (HT & _ & Htodo & _) (HT' & _) HQ. destruct (Htodo e) as [He _]; [left|].
  apply (ends_OutboxEntry collate Hbytes nulls_first json b _ _ _ _ HT').
  assert (Hin : Settle.lease claim e ∈ Ledger.outbox (claimed_next e l)).
  { unfold claimed_next. rewrite edit_outbox. apply list_elem_of_fmap. exists e. split; [|done]. unfold edited.
    by rewrite bool_decide_eq_true_2. }
  replace (Ledger.Entry (OutboxEntry.key e) (claimed_next e l)) with (Ok (E := error) (Settle.lease claim e)); [done|].
  unfold Ledger.Entry. destruct (list_find _ _) as [ [i x] |] eqn:E.
  - apply list_find_Some in E as (Hx & Hkx & _). f_equal.
    apply (entry_unique (claimed_next e l)); [apply HT'|done|by eapply list_elem_of_lookup_2|done].
  - apply list_find_None in E. rewrite Forall_forall in E. by destruct (E _ Hin).
Qed.

Lemma claimed_all todo : NoDup (OutboxEntry.key <$> todo) -> forall l,
  for_each claimed_next todo l =
  l <| Ledger.outbox := (fun e => if decide (OutboxEntry.key e ∈ OutboxEntry.key <$> todo)
                                  then Settle.lease claim e else e) <$> Ledger.outbox l |>.
Proof.
  induction todo as [|e todo IH]; intros Hnd l.
  { cbn [for_each fmap list_fmap]. destruct l as [ts h es]. 
    change (Ledger.mk ts h es = Ledger.mk ts h
      ((fun e => if decide (OutboxEntry.key e ∈ []) then Settle.lease claim e else e) <$> es)).
    f_equal. rewrite <- (list_fmap_id es) at 1. apply list_fmap_ext. intros i e _.
    rewrite decide_False; [done|]. apply not_elem_of_nil. }
  cbn [fmap list_fmap] in Hnd. apply NoDup_cons in Hnd as [Hni Hnd]. cbn [for_each]. rewrite IH by done.
  assert (Hrest : forall o, (claimed_next e l) <| Ledger.outbox := o |> = l <| Ledger.outbox := o |>).
  { intros o. unfold claimed_next, Ledger.edit. by destruct (decide _). }
  rewrite Hrest. unfold claimed_next. rewrite edit_outbox, <- list_fmap_compose. 
  match goal with |- l <| Ledger.outbox := ?a |> = l <| Ledger.outbox := ?a' |> => enough (a = a') as -> by done end.
  apply list_fmap_ext.
  intros i x _. unfold compose, edited. cbn [fmap list_fmap].
  destruct (decide (OutboxEntry.key x = OutboxEntry.key e)) as [Hk|Hk].
  - rewrite (bool_decide_eq_true_2 _ Hk). rewrite decide_False by (change (OutboxEntry.key x ∉ OutboxEntry.key <$> todo); by rewrite Hk).
    rewrite decide_True; [done|]. rewrite Hk. left.
  - rewrite (bool_decide_eq_false_2 _ Hk).
    destruct (decide (OutboxEntry.key x ∈ OutboxEntry.key <$> todo)) as [Hi|Hi];
      [rewrite decide_True by (by right)|rewrite decide_False]; [done..|].
    by intros [?|?]%elem_of_cons.
Qed.

Definition event_env (e : OutboxEntry.t) : Env := env_of None (row_in OutboxTable (cells e)).

(** The order asked for is that of the ledger. *)
Lemma events_in_age x y : FitsEntry json x -> FitsEntry json y ->
  terms_compare collate nulls_first (plain_order ["occurred_at"; "id"]) (event_env x) (event_env y) = Ledger.by_age x y.
Proof.
  intros (_ & _ & Hx) (_ & _ & Hy). unfold plain_order. cbn [fmap list_fmap terms_compare term_compare default].
  change (cell (event_env ?e) (own "occurred_at"))
    with (EncodeTime d (Some (NormalizeTime (Event.OccurredAt (OutboxEntry.Event e))))).
  change (cell (event_env ?e) (own "id")) with (VString (OutboxEntry.key e)).
  rewrite (proj2 Hx), (proj2 Hy). unfold order_compare.
  rewrite !missing_stamp by (intros ? [= <-]; done). change (bool_decide (Some ?t = None)) with false.
  cbv iota. pose proof Hy as [Hb Hn]. rewrite (compare_times collate Hbytes), Hn by (done || unfold Microsecond in *; lia).
  cbn [missing compare_values]. rewrite Hbytes. unfold Ledger.by_age, lex, on.
  by destruct (Event.OccurredAt (OutboxEntry.Event x) ?= Event.OccurredAt (OutboxEntry.Event y))%Z,
    (String.compare (OutboxEntry.key x) (OutboxEntry.key y)).
Qed.

Lemma ends_ClaimDueEvents T l Q : HoldsOutbox T l ->
  (forall T' todo, NoDup (OutboxEntry.key <$> todo) ->
     (forall e, e ∈ todo -> e ∈ Ledger.outbox l /\ due e = true) ->
     length todo <= Ledger.batch (OutboxClaim.Limit claim) DefaultOutboxBatch ->
     StronglySorted (no_later Ledger.by_age) todo ->
     (SupportsSkipLocked d = false -> todo = due_entries claim l) ->
     HoldsOutbox T' (for_each claimed_next todo l) ->
     (forall other, other <> OutboxTable -> T' other = T other) -> Q (Ok (Settle.lease claim <$> todo)) T') ->
  ends (ClaimDueEvents json b claim) T Q.
Proof.
  intros HT HQ. unfold ClaimDueEvents, dueEventIDs, identifiers. apply ends_obind, ends_obind.
  eapply ends_query; [reflexivity|]. intros rows (visible & answer & Hvis & Ha & (Hend & raws & Heach & Hraws)).
  cbn [AnswersTo] in Ha. apply ends_ret.
  destruct (visible_stored cells _ _ _ _ Hvis (held_entries _ _ _ _ HT)) as (seen & Hseen & Hsub & Hall).
  eapply answers_stored in Ha as (todo & Htodo & (sorted & Hp & Hsorted & Hcut)); [|exact Hseen]. subst answer.
  pose proof (fun e => fit_entry _ _ e HT) as Hfits.
  assert (Hseen_in : forall e, e ∈ seen -> e ∈ Ledger.outbox l) by (intros e He; by eapply elem_of_submseteq).
  assert (Hf : filter (fun e => selects collate (tables_of T) (env_of None (row_in OutboxTable (cells e)))
      (due_tests d claim) = true) seen = filter (fun e => due e = true) seen).
  { apply list_filter_iff_in. intros e He. change (env_of None ?r) with (own_env r).
    by rewrite entry_due by auto. }
  rewrite Hf in Hp. clear Hf. cbn [fst snd]. rewrite Heach, Hend.
  rewrite (identifiers_back b cells OutboxTable OutboxEntry.key _ todo); [|done|exact Hraws].
  assert (Hin_sorted : forall e, e ∈ sorted -> e ∈ Ledger.outbox l /\ due e = true).
  { intros e He. rewrite Hp, list_elem_of_filter in He. destruct He. auto. }
  assert (Hage : StronglySorted (no_later Ledger.by_age) sorted).
  { eapply StronglySorted_weaken; [|exact Hsorted]. intros x y [Hx _]%Hin_sorted [Hy _]%Hin_sorted Hxy.
    change (terms_compare collate nulls_first (plain_order ["occurred_at"; "id"]) (event_env x) (event_env y) <> Gt) in Hxy.
    unfold no_later. by rewrite events_in_age in Hxy by auto. }
  assert (Hin : forall e, e ∈ todo -> e ∈ Ledger.outbox l /\ due e = true).
  { intros e He. apply Hin_sorted. rewrite Hcut in He. by apply subseteq_take in He. }
  assert (Hnd : NoDup (OutboxEntry.key <$> todo)).
  { assert (Hd : NoDup (OutboxEntry.key <$> seen)).
    { pose proof (held_distinct _ _ _ _ HT) as Hd. unfold Ledger.keys in Hd.
      apply submseteq_Permutation in Hsub as [rest Hr]. rewrite Hr, fmap_app in Hd. by apply NoDup_app in Hd as [? _]. }
    rewrite Hcut, fmap_take. eapply sublist_NoDup; [|apply sublist_take]. rewrite Hp. by apply NoDup_fmap_filter. }
  apply (ends_claim_each collate nulls_first json b OutboxEntry.key (Settle.lease claim) claimed_next
    (fun id => QClaimEvent id claim) _ _ (fun id => event_update d id claim) (fun id => eq_refl)
    (to_claim T) (claimed_take T) (read_claimed T) todo l).
  { by split_and!. }
  intros T' (HT' & _ & _ & Hother). apply HQ; try done.
  - rewrite Hcut, length_take. unfold limit_or, Ledger.batch. lia.
  - rewrite Hcut. by apply StronglySorted_take.
  - intros Hlock. rewrite Hcut. unfold due_entries. f_equal. rewrite (proj2 Hnow).
    apply (StronglySorted_unique_strong (no_later Ledger.by_age)); [|done| |].
    + intros x y Hx Hy Hxy Hyx. apply Hin_sorted in Hx as [Hx _].
      apply list_elem_of_filter in Hy as [_ Hy]. rewrite merge_sort_Permutation in Hy.
      apply (entry_unique l); [apply HT|done..|].
      unfold no_later in Hxy, Hyx. rewrite (cmp_sym (c := Ledger.by_age) x y) in Hyx.
      unfold Ledger.by_age, lex, on in Hxy, Hyx.
      destruct (_ ?= _)%Z; cbn in *; try done.
      apply String.compare_eq_iff. by destruct (String.compare (OutboxEntry.key x) (OutboxEntry.key y)).
    + apply StronglySorted_filter, sorted_by, _.
    + rewrite Hp, (Hall Hlock), merge_sort_Permutation. done.
Qed.
End claims.
