(* ===== verification/SqlStoreRefines.v ===== *)
(** * SqlStoreRefines: the SQL store implements the storage ports

    Transactions over a database, and from the files before the theorems that the
    SQL store keeps the ledger of [Store.v]: a transaction of writes commits what
    the ledger's writes make of the ledger or nothing, the reads answer what the
    ledger's reads answer, and the claims take only what the ledger would let them
    take.

    The theorems are then applied at the tables of one task and one recorded event. *)

From S2P Require Import Prelude Domain Errors Event Query Outbox Store Registry Calendar Sqlkit SqlBuilder.
From S2P Require Import SqlPrint SqlPrintFacts SqlMeaning SqlQuery SqlLease SqlScan Interaction SqlStore SqlStoreFacts.
From S2P Require Import SqlStoreTasks SqlStoreOutbox.

(** ** Transactions

    A database as one connection uses it: what is committed, and the contents a
    transaction sees while one is open.  Outside a transaction a statement commits
    by itself. *)

Record Db : Type := mk_db { committed : Contents; working : option Contents }.

Section transactions.
Context (stmt : forall X, SqlE X -> Contents -> X -> Contents -> Prop).
(** Whether beginning and committing can fail, and the context can be cancelled. *)
Context (faults : bool).

Definition may_db X (e : SqlE X) (db : Db) : Prop :=
  match e with
  | BeginTx => working db = None
  | Commit => is_Some (working db)
  | _ => True
  end.

(** A statement acts on what its connection sees. *)
Definition stmt_db X (e : SqlE X) (db : Db) (answer : X) (db' : Db) : Prop :=
  exists T', stmt X e (default (committed db) (working db)) answer T' /\
    db' = match working db with
          | Some _ => mk_db (committed db) (Some T')
          | None => mk_db T' None
          end.

(** A commit that fails may have taken effect. *)
Definition does_db X (e : SqlE X) : Db -> X -> Db -> Prop :=
  match e in SqlE X return Db -> X -> Db -> Prop with
  | BeginTx => fun db answer db' =>
      match answer with
      | None => db' = mk_db (committed db) (Some (committed db))
      | Some _ => faults = true /\ db' = db
      end
  | Commit => fun db answer db' =>
      let done := mk_db (default (committed db) (working db)) None in
      match answer with
      | None => db' = done
      | Some _ => faults = true /\ (db' = mk_db (committed db) None \/ db' = done)
      end
  | Rollback => fun db _ db' => db' = mk_db (committed db) None
  | ContextErr => fun db answer db' => (answer <> None -> faults = true) /\ db' = db
  | Exec r => stmt_db _ (Exec r)
  | Fetch r => stmt_db _ (Fetch r)
  end.

Definition ends_db {A} (m : Method A) (db : Db) (Q : res A -> Db -> Prop) : Prop :=
  wp (=) may_db does_db m Q db.

(** Statements made inside a transaction change what it sees and nothing else. *)
Lemma inside {A} (p : prog SqlE A) C : forall T Q,
  wp (=) statement_only stmt p Q T ->
  wp (=) may_db does_db p (fun r db => exists T', db = mk_db C (Some T') /\ Q r T') (mk_db C (Some T)).
Proof.
  induction p as [a|X e k IH]; intros T Q; cbn [wp]; [by exists T|].
  intros H db <-. destruct (H T eq_refl) as [Hm Hk].
  destruct e; try done; (split; [done|]); intros x db' (T' & Hs & ->); apply IH, Hk, Hs.
Qed.

(** A transaction of its own: committed whole, or what was committed before.  It
    fails where its function does, or by a fault of the transaction. *)
Lemma ends_Do {A} (fn : Method A) T Q :
  wp (=) statement_only stmt fn Q T ->
  ends_db (Do_ false fn) (mk_db T None) (fun r db => working db = None /\
    match r with
    | Ok a => Q (Ok a) (committed db)
    | Err e =>
        (committed db = T /\ (faults = true \/ exists T', Q (Err e) T')) \/
        (faults = true /\ exists cause a, e = Wrapped "hmntsk: commit transaction: " cause /\ Q (Ok a) (committed db))
    end).
Proof.
  intros H. unfold Do_. apply wp_bind, wp_call. intros db <-. split; [done|].
  intros [e|] db' Hb; [destruct Hb as [Hf ->]; split; [done|]; left; auto|]. cbn in Hb. subst db'.
  apply wp_bind. eapply wp_mono; [|exact (inside fn T T Q H)]. intros [a|e] db (T' & -> & HQ).
  - apply wp_bind, wp_call. intros db <-. split; [done|]. intros [e|] db' [Hf ->].
    { specialize (Hf ltac:(done)). apply wp_bind, wp_call. intros db <-. split; [done|].
      intros x db' ->. split; [done|]. left. auto. }
    apply wp_bind, wp_call. intros db <-. split; [by eexists|]. intros [e|] db' Hdone; cbn in Hdone.
    + destruct Hdone as [Hfault Hdone]. apply wp_bind, wp_call. intros db <-. split; [done|]. intros x db2 ->.
      split; [done|]. destruct Hdone as [-> | ->]; [left; auto|right]. split; [done|]. by exists e, a.
    + by subst.
  - apply wp_bind, wp_call. intros db <-. split; [done|]. intros x db' ->. split; [done|]. left. split; [done|].
    right. by exists T'.
Qed.
End transactions.

(** ** The ledger, whole *)

Section refines.
Context (collate : string -> string -> comparison) (Hbytes : forall x y, collate x y = String.compare x y).
Context (nulls_first : bool) (json : SqlJson.t) (b : Builder.t).
#[local] Abbreviation d := (Builder.dialect b).
#[local] Abbreviation ends := (ends collate nulls_first json d).

Record Holds (T : Contents) (l : Ledger.t) : Prop := {
  holds_tasks : HoldsTasks json b T l;
  holds_history : HoldsHistory d T l;
  holds_outbox : HoldsOutbox json b T l
}.

Lemma history_kept T T' l l' : HoldsHistory d T l -> T' HistoryTable = T HistoryTable ->
  Ledger.history l' = Ledger.history l -> HoldsHistory d T' l'.
Proof. intros [H1 H2 H3] Ht Hl. split; rewrite ?Ht, Hl; done. Qed.

Lemma outbox_kept T T' l l' : HoldsOutbox json b T l -> T' OutboxTable = T OutboxTable ->
  Ledger.outbox l' = Ledger.outbox l -> HoldsOutbox json b T' l'.
Proof. intros [H1 H2 H3] Ht Hl. split; unfold Ledger.keys in *; rewrite ?Ht, Hl; done. Qed.

Lemma tasks_kept T T' l l' : HoldsTasks json b T l -> T' TasksTable = T TasksTable ->
  T' CandidatesTable = T CandidatesTable -> Ledger.tasks l' = Ledger.tasks l -> HoldsTasks json b T' l'.
Proof.
  intros [H1 H2 H3 H4] Ht Hc Hl. split; unfold keyed, Ledger.snapshot in *; rewrite ?Ht, ?Hc, Hl; done.
Qed.

(** ** Scripts of writes *)

Definition sql_write (w : Store.Write) : Method unit :=
  match w with
  | WCreate task => Create json b task
  | WUpdate task expected => Update json b task expected
  | WAppendHistory records => AppendHistory json b records
  | WAppend events => Append json b events
  | WClaimOverdue lease => may! _ := ClaimOverdue json b lease in Ret (Ok tt)
  | WClaimDueEvents claim => may! _ := ClaimDueEvents json b claim in Ret (Ok tt)
  | WRecordAttempt record => RecordAttempt json b record
  | WMarkAccepted acceptance => MarkAccepted json b acceptance
  | WMarkDeadLettered letter => MarkDeadLettered json b letter
  end.

Fixpoint sql_script (ws : list Store.Write) : Method unit :=
  match ws with
  | [] => Ret (Ok tt)
  | w :: ws => may! _ := sql_write w in sql_script ws
  end.

(** What the engine writes: values the tables can hold, a task at a new version, an
    event that is not recorded, an acceptance that does not take a delivery back.
    Claims are not among the writes of a script. *)
Definition writable (w : Store.Write) (l : Ledger.t) : Prop :=
  match w with
  | WCreate task => Fits json task
  | WUpdate task expected => Fits json task /\ Task.Version task <> expected
  | WAppendHistory records => Forall FitsRecord records
  | WAppend events =>
      Forall (fun e => FitsEntry json (Settle.record_event e)) events /\
      NoDup ((Event.ID <$> events) ++ Ledger.keys l)
  | WClaimOverdue _ | WClaimDueEvents _ => False
  | WRecordAttempt r => Int64 (AttemptRecord.Attempts r) /\ Within (Some (AttemptRecord.NextAttemptAt r))
  | WMarkAccepted a =>
      Int64 (Acceptance.Attempts a) /\ KeepsStrings json (Acceptance.Accepted a) /\
      Within (Acceptance.PublishedAt a) /\ Within (Acceptance.NextAttemptAt a) /\
      (Acceptance.PublishedAt a = None -> forall e, e ∈ Ledger.outbox l ->
         OutboxEntry.key e = Acceptance.EventID a -> OutboxEntry.PublishedAt e = None)
  | WMarkDeadLettered dl =>
      Int64 (DeadLetter.Attempts dl) /\ (forall s, DeadLetter.Accepted dl = Some s -> KeepsStrings json s)
  end.

Fixpoint writable_all (ws : list Store.Write) (l : Ledger.t) : Prop :=
  match ws with
  | [] => True
  | w :: ws => writable w l /\ ((write_ledger w l).1 = Ok tt -> writable_all ws (write_ledger w l).2)
  end.

(** The same outcome; a conflict of the SQL store also names the version stored. *)
Definition agrees (r spec : res unit) : Prop :=
  match r, spec with
  | Ok _, Ok _ => True
  | Err (ConflictError id expected _), Err (ConflictError id' expected' _) => id = id' /\ expected = expected'
  | Err e, Err e' => e = e'
  | _, _ => False
  end.

Lemma agrees_refl r : agrees r r.
Proof. by destruct r as [| [] ]. Qed.

(** A settlement touches the events alone. *)
Lemma settled_kept T l id f T' : Holds T l -> HoldsOutbox json b T' (Ledger.edit id f l).2 ->
  (forall other, other <> OutboxTable -> T' other = T other) -> Holds T' (Ledger.edit id f l).2.
Proof.
  intros [Ht Hh Ho] Ho' Hother.
  assert (Hsame : Ledger.tasks (Ledger.edit id f l).2 = Ledger.tasks l /\
    Ledger.history (Ledger.edit id f l).2 = Ledger.history l) by (unfold Ledger.edit; by destruct (decide _)).
  split; [| |done]; [apply (tasks_kept T _ l)|apply (history_kept T _ l)]; try done; try apply Hsame; by apply Hother.
Qed.

Lemma ends_write w T l : Holds T l -> writable w l ->
  ends (sql_write w) T (fun r T' => agrees r (write_ledger w l).1 /\
    (r = Ok tt -> Holds T' (write_ledger w l).2)).
Proof.
  intros HT Hw. pose proof HT as [Ht Hh Ho].
  destruct w as [task|task expected|rs|events|lease|claim|r|a|dl]; cbn [sql_write write_ledger] in *.
  - apply (ends_Create collate Hbytes nulls_first json b _ _ l); [done..|]. intros T'. unfold Ledger.Create.
    destruct (Ledger.tasks l !! Task.ID task) as [stored|]; [by intros _|]. intros Ht' Hother. split; [done|]. intros _.
    split; [done| |]; [apply (history_kept T _ l)|apply (outbox_kept T _ l)]; try done; apply Hother;
      by apply (bool_decide_eq_true_1 (_ ∉ _)).
  - destruct Hw as [Hfit Hv]. apply (ends_Update collate Hbytes nulls_first json b _ _ _ l); [done..|].
    intros T' Ht' Hother. split; [apply agrees_refl|]. intros Hok.
    assert (Hsame : Ledger.history (Ledger.Update task expected l).2 = Ledger.history l /\
      Ledger.outbox (Ledger.Update task expected l).2 = Ledger.outbox l).
    { unfold Ledger.Update. destruct (_ !! _); [|done]. by destruct (decide _). }
    split; [done| |]; [apply (history_kept T _ l)|apply (outbox_kept T _ l)]; try done; try apply Hsame; apply Hother;
      by apply (bool_decide_eq_true_1 (_ ∉ _)).
  - apply (ends_AppendHistory collate nulls_first json b _ _ l); [done..|]. intros T' Hh' Hother.
    split; [done|]. intros _. split; [|done|]; [apply (tasks_kept T _ l)|apply (outbox_kept T _ l)]; try done; by apply Hother.
  - destruct Hw as [Hfits Hnd]. apply (ends_Append collate nulls_first json b _ _ l); [done..|].
    intros T' Ho' Hother. split; [done|]. intros _.
    split; [| |done]; [apply (tasks_kept T _ l)|apply (history_kept T _ l)]; try done; by apply Hother.
  - done.
  - done.
  - destruct Hw as [Ha Hn]. apply (ends_RecordAttempt collate Hbytes nulls_first json b _ _ l); [done..|].
    intros T' Ho' Hother. split; [apply agrees_refl|]. intros _. by apply (settled_kept T).
  - destruct Hw as (Ha & Hs & Hp & Hn & Hnew). apply (ends_MarkAccepted collate Hbytes nulls_first json b _ _ l); [done..|].
    intros T' Ho' Hother. split; [apply agrees_refl|]. intros _. by apply (settled_kept T).
  - destruct Hw as [Ha Hs]. apply (ends_MarkDeadLettered collate Hbytes nulls_first json b _ _ l); [done..|].
    intros T' Ho' Hother. split; [apply agrees_refl|]. intros _. by apply (settled_kept T).
Qed.

Lemma ends_script ws : forall T l, Holds T l -> writable_all ws l ->
  ends (sql_script ws) T (fun r T' => agrees r (script write_ledger ws l).1 /\
    (r = Ok tt -> Holds T' (script write_ledger ws l).2)).
Proof.
  induction ws as [|w ws IH]; intros T l HT Hw; cbn [sql_script script]; [by apply ends_ret|].
  destruct Hw as [Hw Hrest]. apply ends_obind. eapply ends_mono; [by apply ends_write|].
  intros r T1 [Ha HT1]. unfold sbind. destruct (write_ledger w l) as [r' l1] eqn:E. cbn [fst snd] in *.
  destruct r as [ [] |e], r' as [ [] |e']; try done.
  - apply IH; auto.
  - by destruct e.
Qed.
End refines.


(** C15: What the SQL store reads is what the ledger shows.  On tables that hold a
    ledger, in a database that compares texts by their bytes - PostgreSQL and SQLite
    as the schema declares them, not MySQL - a task, a recorded event, a history whose
    versions increase, a count and a page of a query are answered as the ledger
    answers them, an absent task or event by the error that names it, and nothing is
    changed.  A deadline a query filters by is cut to the microsecond first, which
    the in-memory store's query does not do. *)
Theorem sql_reads_answer_ledger collate nulls_first json b codec T l :
  (forall x y, collate x y = String.compare x y) -> Holds json b T l ->
  let answers {A} (m : Method A) (good : res A -> Prop) :=
    ends collate nulls_first json (Builder.dialect b) m T (fun r T' => T' = T /\ good r) in
  (forall id, answers (Get json b id) (eq (Ledger.Get id l))) /\
  (forall id, answers (OutboxEntry_ json b id) (eq (Ledger.Entry id l))) /\
  (forall id, StronglySorted older (Ledger.History id l) ->
     answers (History json b id) (eq (Ok (HistoryRow.of_record <$> Ledger.History id l)))) /\
  (forall query, let q := ResolvedQuery.Query_ query in
     Forall Spelled (Query.Statuses q) ->
     (forall t, Query.DueBefore q = Some t -> (0 <= t < year_10000)%Z) ->
     ((Z.of_nat (length (Ledger.snapshot l)) <= max_int64)%Z ->
        answers (Count json b query) (eq (Ok (countMatching (Ledger.snapshot l) (stored_query query))))) /\
     (forall after, Ordering_Valid (Query.OrderBy q) = true -> start_of codec q = Ok after ->
        (forall p due, after = Some p -> position.DueAt p = Some due -> Deadline due) ->
        answers (Query_ json b codec query) (fun r =>
          match queryPage codec (Ledger.snapshot l) (stored_query query) with
          | Ok page => r = Ok page
          | Err _ => exists e, r = Err e
          end))).
Proof.
  intros Hbytes [Ht Hh Ho] answers. split_and!.
  - intros id. by apply (ends_Get collate Hbytes nulls_first json b _ _ l).
  - intros id. by apply (ends_OutboxEntry collate Hbytes nulls_first json b _ _ l).
  - intros id Hs. by apply (ends_History collate Hbytes nulls_first json b _ _ l).
  - intros query q Hspelled Hbefore. split.
    + intros Hsmall. by apply (ends_Count collate Hbytes nulls_first json b _ l).
    + intros after Hordering Hstart Hafter.
      apply (ends_Query collate Hbytes nulls_first json b codec T l Ht query Hspelled Hbefore after); done.
Qed.


(** * At concrete inputs *)

From S2P Require Import SqlExamples.
Import QueryExamples SqlExamples.

Module SqlStoreExamples.
(** An encoder that knows one event. *)
Definition encoder : SqlJson.t :=
  SqlJson.mk
    (fun v => match v with EStrings l => Some (String.concat "," l) | _ => None end)
    (fun _ => Err "text") (fun _ => Err "text") (fun _ => Err "text") (fun _ => Err "text")
    (fun e => if decide (Event.ID e = "e1") then Ok "{e1}" else Err "text")
    (fun s => if decide (s = "{e1}") then Ok finished else Err "text").

Definition builder : Builder.t := Builder.mk SQLite "".

Definition ledger : Ledger.t := Ledger.mk {[ "t1" := overdue ]} ∅ [recorded].
Definition empty_ledger : Ledger.t := Ledger.mk {[ "t1" := overdue ]} ∅ [].

(** The tables, with these rows of events. *)
Definition tables (events : list OutboxEntry.t) : Contents := fun table =>
  if decide (table = TasksTable) then [taskArgs encoder SQLite overdue]
  else if decide (table = CandidatesTable) then candidate_cells <$> candidates_of overdue
  else if decide (table = OutboxTable) then entry_cells encoder builder <$> events
  else [].

(** The task started, its record and its event. *)
Definition started : Task.t := overdue <| Task.Version := 2%Z |> <| Task.Assignee := "ann" |>.
Definition its_writes : list Store.Write :=
  [WUpdate started 1; WAppendHistory [Event.Transition finished]; WAppend [finished] ].
Definition written_ledger : Ledger.t :=
  (script write_ledger its_writes empty_ledger).2.
End SqlStoreExamples.
Import SqlStoreExamples.

(** The fields of a task written out. *)
Ltac task_fits :=
  split_and!;
  [split; try (intros x E; try discriminate E; injection E as <-); try (split; vm_compute; congruence);
   intros H; destruct (H eq_refl)
  |split; try reflexivity; intros t Ht; cbn in Ht; rewrite !elem_of_cons in Ht;
   destruct Ht as [E | [E | [E | [E | [E | []%elem_of_nil] ] ] ] ]; try discriminate E;
   injection E as ->; vm_compute; congruence
  |split_and!; [reflexivity|exact I|..]; intros x E; try discriminate E; injection E as <-; deadline
  |discriminate].

Lemma overdue_fits : Fits encoder overdue.
Proof. task_fits. Qed.
Lemma started_fits : Fits encoder started.
Proof. task_fits. Qed.

Lemma recorded_fits : FitsEntry encoder recorded.
Proof.
  split_and!; [|exact recorded_kept|deadline]. split.
  - by exists "{e1}".
  - split; vm_compute; congruence.
  - intros x [=].
  - intros x [= <-]. split; vm_compute; congruence.
  - intros x [=].
  - intros H. destruct (H eq_refl).
Qed.

Lemma tables_hold events : NoDup (OutboxEntry.key <$> events) -> Forall (FitsEntry encoder) events ->
  Holds encoder builder (tables events) (Ledger.mk {[ "t1" := overdue ]} ∅ events).
Proof.
  intros Hnd Hfits. split.
  - assert (Hs : Ledger.snapshot (Ledger.mk {[ "t1" := overdue ]} ∅ events) = [overdue]).
    { unfold Ledger.snapshot. cbn [Ledger.tasks]. by rewrite map_to_list_singleton. }
    split.
    + by rewrite Hs.
    + rewrite Hs. cbn [mbind list_bind]. by rewrite app_nil_r.
    + intros id task H. cbn [Ledger.tasks] in H. by apply lookup_singleton_Some in H as [<- <-].
    + rewrite Hs. constructor; [exact overdue_fits|done].
  - split; done.
  - by split.
Qed.

Lemma ledger_held : Holds encoder builder (tables [recorded]) ledger.
Proof. apply tables_hold; [by apply (bool_decide_eq_true_1 (NoDup _))|constructor; [exact recorded_fits|constructor] ]. Qed.
Lemma empty_held : Holds encoder builder (tables []) empty_ledger.
Proof. by apply tables_hold; constructor. Qed.

Lemma finished_fits : FitsRecord (Event.Transition finished).
Proof. by split; try (split; vm_compute; congruence). Qed.

Lemma its_writes_writable : writable_all encoder its_writes empty_ledger.
Proof.
  split; [split; [exact started_fits|discriminate]|]. intros _.
  split; [constructor; [exact finished_fits|constructor]|]. intros _.
  split; [|done]. split; [constructor; [exact recorded_fits|constructor]|]. by apply (bool_decide_eq_true_1 (NoDup _)).
Qed.


Lemma sql_reads_answer_ledger_witness :
  ends String.compare true encoder SQLite (Get encoder builder "t1") (tables [recorded])
    (fun r T' => T' = tables [recorded] /\ Ok overdue = r) /\
  ends String.compare true encoder SQLite (Get encoder builder "t2") (tables [recorded])
    (fun r T' => T' = tables [recorded] /\ Err (NotFoundError "t2") = r).
Proof.
  split; exact (proj1 (sql_reads_answer_ledger String.compare true encoder builder QueryExamples.codec (tables [recorded])
    ledger (fun _ _ => eq_refl) ledger_held) _).
Defined.


(** ** A database that answers

    The meaning of the statements is met: these tables answer a selection with the
    task's row, and the conditional update of the task with one row affected. *)

Lemma a_selection_is_answered :
  does String.compare true encoder SQLite _ (Fetch (QSelectTask "t1")) (tables [recorded])
    (Ok (Rows.mk [Ok (hand <$> taskArgs encoder SQLite overdue)] None, None)) (tables [recorded]).
Proof.
  split; [done|]. eexists _, _. split; [reflexivity|]. split; [reflexivity|].
  exists [taskArgs encoder SQLite overdue], [taskArgs encoder SQLite overdue].
  split; [reflexivity|]. split.
  - exists [taskArgs encoder SQLite overdue]. split; [vm_compute; reflexivity|]. split; [repeat constructor|reflexivity].
  - split; [reflexivity|]. exists [hand <$> taskArgs encoder SQLite overdue]. split; [reflexivity|].
    constructor; [apply handed|constructor].
Qed.

Lemma an_update_is_answered :
  exists T', does String.compare true encoder SQLite _ (Exec (QUpdateTask started 1)) (tables [recorded])
    (Ok (Ok 1%Z)) T' /\ T' TasksTable = [taskArgs encoder SQLite started].
Proof.
  eexists. split.
  - eexists _, _. split; [reflexivity|]. split; [reflexivity|]. split; [reflexivity|]. vm_compute. reflexivity.
  - vm_compute. reflexivity.
Qed.
