(* ===== verification/SqlDrivers.v ===== *)
(** * SqlDrivers: the storage ports over pgx and over GORM

    Models [store/pgx/store.go] in the module [SqlPgx] and [store/gorm/store.go] in
    the module [SqlGorm]: each method of the stores as a program of driver calls,
    and the dialect wrapper that makes statements carry GORM's own marker.  As in
    [SqlStore.v] a call is named by the request it makes of the builder.

    A pgx driver answers an execution with the number of rows it affected, a query
    with its rows, whose closing cannot fail, and the query of one row with its
    columns, or none where there is no row.  A GORM handle answers an execution with
    the number of rows it affected and a query with its rows, whose closing error
    the store drops.  What the methods do is in [SqlAdapters.v]. *)

From S2P Require Import Prelude Domain Errors Event Query Outbox Store Registry Calendar Sqlkit SqlBuilder.
From S2P Require Import SqlPrint SqlQuery SqlScan Interaction SqlStore.

(** * pgx *)

Module SqlPgx.
(** ** The driver *)

Inductive PgxE : Type -> Type :=
| Exec (r : Request) : PgxE (res Z)                         (* Exec, the tag's RowsAffected *)
| Fetch (r : Request) : PgxE (res Rows.t)                   (* Query *)
| QueryRow (r : Request) : PgxE (res (option (list Raw)))   (* QueryRow, then Scan; None is ErrNoRows *)
| Begin : PgxE (option error)
| Commit : PgxE (option error)
| Rollback : PgxE unit
| ContextErr : PgxE (option error).

Definition Method (A : Type) : Type := prog PgxE (res A).

(** *** Construction *)

Inductive Option : Type := WithTablePrefix (prefix : string).

Definition configured (opts : list Option) : string :=
  for_each (fun opt _ => let 'WithTablePrefix prefix := opt in prefix) opts "".

Definition New (opts : list Option) : Builder.t :=
  SqlBuilder.New PostgreSQL [SqlBuilder.WithTablePrefix (configured opts)].

Section store.
Context (json : SqlJson.t) (b : Builder.t) (codec : CursorCodec.t).

Definition exec (r : Request) : Method Z :=
  if Statement.IsZero (written json b r) then Ret (Ok 0%Z)
  else
    do! tag := call (Exec r) in
    Ret (match tag with Ok affected => Ok affected | Err e => Err (failed_statement json b r e) end).

Definition query (r : Request) : Method Rows.t :=
  do! answer := call (Fetch r) in
  Ret (match answer with Ok rows => Ok rows | Err e => Err (failed_statement json b r e) end).

(** The rows of a query, scanned. *)
Definition scanned {A} (r : Request) (scan : Rows.t -> res A) : Method A :=
  may! rows := query r in Ret (scan rows).

(** ** Tasks *)

Definition version (id : string) : Method Z :=
  do! current := call (QueryRow (QSelectTaskVersion id)) in
  Ret (match current with
       | Err e => Err (Wrapped ("hmntsk: read the current version of task " +:+ id +:+ ": ") e)
       | Ok None => Err (NotFoundError id)
       | Ok (Some values) => DecodeInt (value_at values 0)
       end).

Definition Create (task : Task.t) : Method unit :=
  do! current := version (Task.ID task) in
  match current with
  | Ok current => Ret (Err (ConflictError (Task.ID task) 0 current))
  | Err e =>
      if negb (errors_Is e ErrNotFound) then Ret (Err e)
      else
        may! _ := exec (QInsertTask task) in
        may! _ := exec (QInsertCandidates (Task.ID task) (Task.Candidates task)) in
        Ret (Ok tt)
  end.

Definition attachCandidates (tasks : list Task.t) : Method (list Task.t) :=
  if decide (length tasks = 0) then Ret (Ok tasks)
  else
    may! pools := scanned (QSelectCandidates (Task.ID <$> tasks)) ScanCandidates in
    Ret (Ok ((fun task => task <| Task.Candidates := default CandidatePool.empty (pools !! Task.ID task) |>)
               <$> tasks)).

Definition Get (id : string) : Method Task.t :=
  may! tasks := scanned (QSelectTask id) (ScanTasks json) in
  if decide (length tasks = 0) then Ret (Err (NotFoundError id))
  else
    may! tasks := attachCandidates tasks in
    Ret (match tasks with task :: _ => Ok task | [] => Err (ExternalError "panic: index out of range" []) end).

Definition Update (task : Task.t) (expectedVersion : Z) : Method unit :=
  may! affected := exec (QUpdateTask task expectedVersion) in
  if decide (affected = 0)%Z then
    do! current := version (Task.ID task) in
    match current with
    | Err e =>
        if negb (errors_Is e ErrNotFound) then Ret (Err e)
        else Ret (CheckAffected 0 (Task.ID task) expectedVersion 0)
    | Ok current => Ret (CheckAffected 0 (Task.ID task) expectedVersion current)
    end
  else
    may! _ := exec (QDeleteCandidates (Task.ID task)) in
    may! _ := exec (QInsertCandidates (Task.ID task) (Task.Candidates task)) in
    Ret (Ok tt).

Definition AppendHistory (records : list TransitionRecord.t) : Method unit :=
  may! _ := exec (QInsertHistory records) in Ret (Ok tt).

Definition History (id : string) : Method (list HistoryRow.t) :=
  scanned (QSelectHistory id) ScanHistory.

Definition Count (query : ResolvedQuery.t) : Method Z :=
  scanned (QCountTasks query) ScanCount.

Definition Query_ (query : ResolvedQuery.t) : Method Page.t :=
  may! request := lift (page_request b codec query) in
  may! tasks := scanned request (ScanTasks json) in
  let q := ResolvedQuery.Query_ query in
  let limit := Z.to_nat (Query.EffectiveLimit q) in
  may! cut := lift (
    if decide (limit < length tasks) then
      let tasks := take limit tasks in
      match last tasks with
      | Some final => try! token := NextCursor codec q final in Ok (tasks, token)
      | None => Err (ExternalError "panic: index out of range" [])
      end
    else Ok (tasks, "")) in
  may! tasks := attachCandidates cut.1 in
  Ret (Ok (Page.mk tasks cut.2)).

(** *** Leases *)

Definition identifiers (r : Request) (scanning reading : string) : Method (list string) :=
  may! rows := query r in
  Ret (match scan_texts scanning (Rows.each rows), Rows.ended rows with
       | Err e, _ => Err e
       | Ok _, Some e => Err (Wrapped ("hmntsk: read " +:+ reading +:+ ": ") e)
       | Ok ids, None => Ok ids
       end).

Definition overdueIDs (lease : LeaseRequest.t) : Method (list string) :=
  identifiers (QSelectOverdue lease) "an overdue task" "overdue tasks".
Definition dueEventIDs (claim : OutboxClaim.t) : Method (list string) :=
  identifiers (QSelectDueEvents claim) "a due event" "due events".

Fixpoint claim_each {A} (take_ : string -> Request) (read : string -> Method A) (ids : list string)
    : Method (list A) :=
  match ids with
  | [] => Ret (Ok [])
  | id :: rest =>
      may! affected := exec (take_ id) in
      if decide (affected = 0)%Z then claim_each take_ read rest
      else
        may! taken := read id in
        may! more := claim_each take_ read rest in
        Ret (Ok (taken :: more))
  end.

Definition ClaimOverdue (lease : LeaseRequest.t) : Method (list Task.t) :=
  may! ids := overdueIDs lease in
  claim_each (fun id => QClaimLease id lease) Get ids.

(** ** The outbox *)

Definition Append (events : list Event.t) : Method unit :=
  if decide (length events = 0) then Ret (Ok tt)
  else
    may! rows := lift (EventRows json events) in
    may! _ := exec (QInsertOutbox rows) in
    Ret (Ok tt).

Definition Events (limit : Z) : Method (list Event.t) :=
  may! rows := query (QSelectOutbox limit) in
  Ret (ScanOutbox json rows).

Definition OutboxEntry_ (eventID : string) : Method OutboxEntry.t :=
  may! entries := scanned (QSelectOutboxEntry eventID) (ScanOutboxEntries json) in
  Ret (match entries with [] => Err (OutboxNotFoundError eventID) | entry :: _ => Ok entry end).

Definition ClaimDueEvents (claim : OutboxClaim.t) : Method (list OutboxEntry.t) :=
  may! ids := dueEventIDs claim in
  claim_each (fun id => QClaimEvent id claim) OutboxEntry_ ids.

Definition settleOutbox (eventID : string) (r : Request) : Method unit :=
  may! affected := exec r in
  if decide (0 < affected)%Z then Ret (Ok tt)
  else may! _ := OutboxEntry_ eventID in Ret (Ok tt).

Definition RecordAttempt (record : AttemptRecord.t) : Method unit :=
  settleOutbox (AttemptRecord.EventID record) (QRecordAttempt record).
Definition MarkAccepted (acceptance : Acceptance.t) : Method unit :=
  settleOutbox (Acceptance.EventID acceptance) (QMarkAccepted acceptance).
Definition MarkDeadLettered (letter : DeadLetter.t) : Method unit :=
  settleOutbox (DeadLetter.EventID letter) (QMarkDeadLettered letter).

(** ** Transactions *)

(** Within a transaction of the caller's, its function runs as it is; otherwise it
    runs in a transaction of its own, rolled back unless it was committed. *)
Definition Do_ {A} (joined : bool) (fn : Method A) : Method A :=
  if joined then fn
  else
    do! failure := call Begin in
    match failure with
    | Some e => Ret (Err (Wrapped "hmntsk: begin transaction: " e))
    | None =>
        do! outcome := fn in
        match outcome with
        | Err e => do! _ := call Rollback in Ret (Err e)
        | Ok a =>
            do! cancelled := call ContextErr in
            match cancelled with
            | Some e => do! _ := call Rollback in Ret (Err e)
            | None =>
                do! failure := call Commit in
                match failure with
                | Some e => do! _ := call Rollback in Ret (Err (Wrapped "hmntsk: commit transaction: " e))
                | None => Ret (Ok a)
                end
            end
        end
    end.
End store.
End SqlPgx.

(** * GORM *)

Module SqlGorm.
(** ** The driver *)

Inductive GormE : Type -> Type :=
| Exec (r : Request) : GormE (res Z)         (* Exec: Error, or RowsAffected *)
| Fetch (r : Request) : GormE (res Rows.t)   (* Raw(...).Rows() *)
| Begin : GormE (option error)
| Commit : GormE (option error)
| Rollback : GormE unit
| ContextErr : GormE (option error).

Definition Method (A : Type) : Type := prog GormE (res A).

(** *** Construction *)

(** The wrapper replaces [Placeholder] alone, by the marker MySQL and SQLite have
    of their own. *)
Definition questionMarks (d : Dialect) : Dialect :=
  match d with PostgreSQL => QuestionMarked | _ => d end.

Inductive Option : Type := WithTablePrefix (prefix : string).

Definition configured (opts : list Option) : string :=
  for_each (fun opt _ => let 'WithTablePrefix prefix := opt in prefix) opts "".

Definition New (d : Dialect) (opts : list Option) : Builder.t :=
  SqlBuilder.New (questionMarks d) [SqlBuilder.WithTablePrefix (configured opts)].

Section store.
Context (json : SqlJson.t) (b : Builder.t) (codec : CursorCodec.t).

Definition exec (r : Request) : Method Z :=
  if Statement.IsZero (written json b r) then Ret (Ok 0%Z)
  else
    do! result := call (Exec r) in
    Ret (match result with Ok affected => Ok affected | Err e => Err (failed_statement json b r e) end).

Definition query (r : Request) : Method Rows.t :=
  do! answer := call (Fetch r) in
  Ret (match answer with Ok rows => Ok rows | Err e => Err (failed_statement json b r e) end).

(** The rows of a query, scanned. *)
Definition scanned {A} (r : Request) (scan : Rows.t -> res A) : Method A :=
  may! rows := query r in Ret (scan rows).

(** ** Tasks *)

Definition version (id : string) : Method Z :=
  may! rows := query (QSelectTaskVersion id) in
  Ret (match Rows.each rows with
       | [] =>
           match Rows.ended rows with
           | Some e => Err (Wrapped ("hmntsk: read the current version of task " +:+ id +:+ ": ") e)
           | None => Err (NotFoundError id)
           end
       | Err e :: _ => Err (Wrapped ("hmntsk: read the current version of task " +:+ id +:+ ": ") e)
       | Ok values :: _ => DecodeInt (value_at values 0)
       end).

Definition Create (task : Task.t) : Method unit :=
  do! current := version (Task.ID task) in
  match current with
  | Ok current => Ret (Err (ConflictError (Task.ID task) 0 current))
  | Err e =>
      if negb (errors_Is e ErrNotFound) then Ret (Err e)
      else
        may! _ := exec (QInsertTask task) in
        may! _ := exec (QInsertCandidates (Task.ID task) (Task.Candidates task)) in
        Ret (Ok tt)
  end.

Definition attachCandidates (tasks : list Task.t) : Method (list Task.t) :=
  if decide (length tasks = 0) then Ret (Ok tasks)
  else
    may! pools := scanned (QSelectCandidates (Task.ID <$> tasks)) ScanCandidates in
    Ret (Ok ((fun task => task <| Task.Candidates := default CandidatePool.empty (pools !! Task.ID task) |>)
               <$> tasks)).

Definition Get (id : string) : Method Task.t :=
  may! tasks := scanned (QSelectTask id) (ScanTasks json) in
  if decide (length tasks = 0) then Ret (Err (NotFoundError id))
  else
    may! tasks := attachCandidates tasks in
    Ret (match tasks with task :: _ => Ok task | [] => Err (ExternalError "panic: index out of range" []) end).

Definition Update (task : Task.t) (expectedVersion : Z) : Method unit :=
  may! affected := exec (QUpdateTask task expectedVersion) in
  if decide (affected = 0)%Z then
    do! current := version (Task.ID task) in
    match current with
    | Err e =>
        if negb (errors_Is e ErrNotFound) then Ret (Err e)
        else Ret (CheckAffected 0 (Task.ID task) expectedVersion 0)
    | Ok current => Ret (CheckAffected 0 (Task.ID task) expectedVersion current)
    end
  else
    may! _ := exec (QDeleteCandidates (Task.ID task)) in
    may! _ := exec (QInsertCandidates (Task.ID task) (Task.Candidates task)) in
    Ret (Ok tt).

Definition AppendHistory (records : list TransitionRecord.t) : Method unit :=
  may! _ := exec (QInsertHistory records) in Ret (Ok tt).

Definition History (id : string) : Method (list HistoryRow.t) :=
  scanned (QSelectHistory id) ScanHistory.

Definition Count (query : ResolvedQuery.t) : Method Z :=
  scanned (QCountTasks query) ScanCount.

Definition Query_ (query : ResolvedQuery.t) : Method Page.t :=
  may! request := lift (page_request b codec query) in
  may! tasks := scanned request (ScanTasks json) in
  let q := ResolvedQuery.Query_ query in
  let limit := Z.to_nat (Query.EffectiveLimit q) in
  may! cut := lift (
    if decide (limit < length tasks) then
      let tasks := take limit tasks in
      match last tasks with
      | Some final => try! token := NextCursor codec q final in Ok (tasks, token)
      | None => Err (ExternalError "panic: index out of range" [])
      end
    else Ok (tasks, "")) in
  may! tasks := attachCandidates cut.1 in
  Ret (Ok (Page.mk tasks cut.2)).

(** *** Leases *)

Definition identifiers (r : Request) (scanning reading : string) : Method (list string) :=
  may! rows := query r in
  Ret (match scan_texts scanning (Rows.each rows), Rows.ended rows with
       | Err e, _ => Err e
       | Ok _, Some e => Err (Wrapped ("hmntsk: read " +:+ reading +:+ ": ") e)
       | Ok ids, None => Ok ids
       end).

Definition overdueIDs (lease : LeaseRequest.t) : Method (list string) :=
  identifiers (QSelectOverdue lease) "an overdue task" "overdue tasks".
Definition dueEventIDs (claim : OutboxClaim.t) : Method (list string) :=
  identifiers (QSelectDueEvents claim) "a due event" "due events".

Fixpoint claim_each {A} (take_ : string -> Request) (read : string -> Method A) (ids : list string)
    : Method (list A) :=
  match ids with
  | [] => Ret (Ok [])
  | id :: rest =>
      may! affected := exec (take_ id) in
      if decide (affected = 0)%Z then claim_each take_ read rest
      else
        may! taken := read id in
        may! more := claim_each take_ read rest in
        Ret (Ok (taken :: more))
  end.

Definition ClaimOverdue (lease : LeaseRequest.t) : Method (list Task.t) :=
  may! ids := overdueIDs lease in
  claim_each (fun id => QClaimLease id lease) Get ids.

(** ** The outbox *)

Definition Append (events : list Event.t) : Method unit :=
  if decide (length events = 0) then Ret (Ok tt)
  else
    may! rows := lift (EventRows json events) in
    may! _ := exec (QInsertOutbox rows) in
    Ret (Ok tt).

Definition Events (limit : Z) : Method (list Event.t) :=
  may! rows := query (QSelectOutbox limit) in
  Ret (ScanOutbox json rows).

Definition OutboxEntry_ (eventID : string) : Method OutboxEntry.t :=
  may! entries := scanned (QSelectOutboxEntry eventID) (ScanOutboxEntries json) in
  Ret (match entries with [] => Err (OutboxNotFoundError eventID) | entry :: _ => Ok entry end).

Definition ClaimDueEvents (claim : OutboxClaim.t) : Method (list OutboxEntry.t) :=
  may! ids := dueEventIDs claim in
  claim_each (fun id => QClaimEvent id claim) OutboxEntry_ ids.

Definition settleOutbox (eventID : string) (r : Request) : Method unit :=
  may! affected := exec r in
  if decide (0 < affected)%Z then Ret (Ok tt)
  else may! _ := OutboxEntry_ eventID in Ret (Ok tt).

Definition RecordAttempt (record : AttemptRecord.t) : Method unit :=
  settleOutbox (AttemptRecord.EventID record) (QRecordAttempt record).
Definition MarkAccepted (acceptance : Acceptance.t) : Method unit :=
  settleOutbox (Acceptance.EventID acceptance) (QMarkAccepted acceptance).
Definition MarkDeadLettered (letter : DeadLetter.t) : Method unit :=
  settleOutbox (DeadLetter.EventID letter) (QMarkDeadLettered letter).

(** ** Transactions *)

(** Within a transaction of the caller's, its function runs as it is; otherwise it
    runs in a transaction of its own, rolled back unless it was committed. *)
Definition Do_ {A} (joined : bool) (fn : Method A) : Method A :=
  if joined then fn
  else
    do! failure := call Begin in
    match failure with
    | Some e => Ret (Err (Wrapped "hmntsk: begin transaction: " e))
    | None =>
        do! outcome := fn in
        match outcome with
        | Err e => do! _ := call Rollback in Ret (Err e)
        | Ok a =>
            do! cancelled := call ContextErr in
            match cancelled with
            | Some e => do! _ := call Rollback in Ret (Err e)
            | None =>
                do! failure := call Commit in
                match failure with
                | Some e => do! _ := call Rollback in Ret (Err (Wrapped "hmntsk: commit transaction: " e))
                | None => Ret (Ok a)
                end
            end
        end
    end.
End store.
End SqlGorm.
