(* ===== verification/SqlAdapters.v ===== *)
(** * SqlAdapters: the pgx and GORM stores are the database/sql store

    The programs of [SqlDrivers.v] against those of [SqlStore.v]: call
    by call they make the same requests and end with the same answers, where the
    three drivers answer alike.  What was shown of the database/sql store on a
    database that carries out its statements is then true of the others, above all
    that they keep the ledger. *)

From S2P Require Import Prelude Domain Errors Event Query Outbox Store Registry Calendar Sqlkit SqlBuilder.
From S2P Require Import SqlPrint SqlPrintFacts SqlMeaning SqlQuery SqlLease SqlScan SqlExamples Interaction SqlStore.
From S2P Require Import SqlStoreFacts SqlStoreTasks SqlStoreOutbox SqlStoreRefines.
From S2P Require Import SqlDrivers.
Import QueryExamples SqlExamples SqlStoreExamples.

(** ** One driver in terms of another

    What a call is for a database/sql driver, and which of that driver's answers
    an answer stands for. *)
Record Sent (X : Type) : Type := sent_as {
  reply : Type;
  as_sql : SqlE reply;
  stands_for : X -> reply -> Prop
}.
Arguments reply {X} _.
Arguments as_sql {X} _.
Arguments stands_for {X} _ _ _.
Arguments sent_as {X reply} _ _.

Definition counted (x : res Z) (y : res (res Z)) : Prop :=
  y = match x with Ok n => Ok (Ok n) | Err e => Err e end.
Definition rows_read (x : res Rows.t) (y : res (Rows.t * option error)) : Prop :=
  y = match x with Ok rows => Ok (rows, None) | Err e => Err e end.

(** What [Scan] of one row makes of a result set: it closes the rows and reports
    the error they ended with. *)
Definition one_row (rows : Rows.t) : res (option (list Raw)) :=
  match first_row rows (Rows.ended rows) with
  | None => Ok None
  | Some (Err e) => Err e
  | Some (Ok values) => Ok (Some values)
  end.

Definition pgx_sent X (e : SqlPgx.PgxE X) : Sent X :=
  match e in SqlPgx.PgxE X return Sent X with
  | SqlPgx.Exec r => sent_as (Exec r) counted
  | SqlPgx.Fetch r => sent_as (Fetch r) rows_read
  | SqlPgx.QueryRow r => sent_as (Fetch r) (fun x y =>
      match y with
      | Err e => x = Err e
      | Ok (rows, closed) => closed = Rows.ended rows /\ x = one_row rows
      end)
  | SqlPgx.Begin => sent_as BeginTx eq
  | SqlPgx.Commit => sent_as Commit eq
  | SqlPgx.Rollback => sent_as Rollback eq
  | SqlPgx.ContextErr => sent_as ContextErr eq
  end.

(** Failing to read a version is worded differently, and left out. *)
Definition gorm_sent X (e : SqlGorm.GormE X) : Sent X :=
  match e in SqlGorm.GormE X return Sent X with
  | SqlGorm.Exec r => sent_as (Exec r) counted
  | SqlGorm.Fetch r => sent_as (Fetch r) (fun x y =>
      rows_read x y /\ (forall id, r = QSelectTaskVersion id -> is_ok x = true))
  | SqlGorm.Begin => sent_as BeginTx eq
  | SqlGorm.Commit => sent_as Commit eq
  | SqlGorm.Rollback => sent_as Rollback eq
  | SqlGorm.ContextErr => sent_as ContextErr eq
  end.

(** ** Programs in step *)

Section mirrors.
Context {F : Type -> Type} (sent : forall X, F X -> Sent X).

Inductive mirrors {A} : prog F A -> prog SqlE A -> Prop :=
| mirrors_ret a : mirrors (Ret a) (Ret a)
| mirrors_call X (e : F X) k k' :
    (forall x y, stands_for (sent X e) x y -> mirrors (k x) (k' y)) ->
    mirrors (Call e k) (Call (as_sql (sent X e)) k').

Lemma mirrors_bind {A B} (p : prog F A) p' (k : A -> prog F B) k' :
  mirrors p p' -> (forall a, mirrors (k a) (k' a)) -> mirrors (bind p k) (bind p' k').
Proof. induction 1 as [a|X e f f' _ IH]; intros Hk; cbn [bind]; [apply Hk|]. constructor. auto. Qed.

Lemma mirrors_obind {A B} (p : prog F (res A)) p' (k : A -> prog F (res B)) k' :
  mirrors p p' -> (forall a, mirrors (k a) (k' a)) -> mirrors (obind p k) (obind p' k').
Proof. intros Hp Hk. apply mirrors_bind; [done|]. intros [a|e]; [apply Hk|constructor]. Qed.

(** The database behind a driver, as the adapter's driver shows it. *)
Section through.
Context {S : Type} (env : S -> S -> Prop).
Context (may : forall X, SqlE X -> S -> Prop) (does : forall X, SqlE X -> S -> X -> S -> Prop).

Definition allowed X (e : F X) (s : S) : Prop := may _ (as_sql (sent X e)) s.
Definition through X (e : F X) (s : S) (x : X) (s' : S) : Prop :=
  exists y, stands_for (sent X e) x y /\ does _ (as_sql (sent X e)) s y s'.

(** A program in step ends as the other does. *)
Lemma wp_mirrors {A} (p : prog F A) p' Q s :
  mirrors p p' -> wp env may does p' Q s -> wp env allowed through p Q s.
Proof.
  intros Hp. revert s. induction Hp as [a|X e k k' _ IH]; intros s; cbn [wp]; [done|].
  intros H s1 Hs. destruct (H s1 Hs) as [Hm Hk]. split; [done|]. intros x s2 (y & Hxy & Hd). eauto.
Qed.
End through.
End mirrors.

(** ** The methods, one by one *)

Inductive StoreOp : Type -> Type :=
| OpCreate (task : Task.t) : StoreOp unit
| OpGet (id : string) : StoreOp Task.t
| OpUpdate (task : Task.t) (expectedVersion : Z) : StoreOp unit
| OpAppendHistory (records : list TransitionRecord.t) : StoreOp unit
| OpHistory (id : string) : StoreOp (list HistoryRow.t)
| OpCount (query : ResolvedQuery.t) : StoreOp Z
| OpQuery (query : ResolvedQuery.t) : StoreOp Page.t
| OpClaimOverdue (lease : LeaseRequest.t) : StoreOp (list Task.t)
| OpAppend (events : list Event.t) : StoreOp unit
| OpEvents (limit : Z) : StoreOp (list Event.t)
| OpOutboxEntry (eventID : string) : StoreOp OutboxEntry.t
| OpClaimDueEvents (claim : OutboxClaim.t) : StoreOp (list OutboxEntry.t)
| OpRecordAttempt (record : AttemptRecord.t) : StoreOp unit
| OpMarkAccepted (acceptance : Acceptance.t) : StoreOp unit
| OpMarkDeadLettered (letter : DeadLetter.t) : StoreOp unit.

Section methods.
Context (json : SqlJson.t) (b : Builder.t) (codec : CursorCodec.t).

Definition sql_op {A} (op : StoreOp A) : SqlStore.Method A :=
  match op in StoreOp A return SqlStore.Method A with
  | OpCreate task => Create json b task
  | OpGet id => Get json b id
  | OpUpdate task expected => Update json b task expected
  | OpAppendHistory records => AppendHistory json b records
  | OpHistory id => History json b id
  | OpCount query => Count json b query
  | OpQuery query => Query_ json b codec query
  | OpClaimOverdue lease => ClaimOverdue json b lease
  | OpAppend events => Append json b events
  | OpEvents limit => Events json b limit
  | OpOutboxEntry id => OutboxEntry_ json b id
  | OpClaimDueEvents claim => ClaimDueEvents json b claim
  | OpRecordAttempt record => RecordAttempt json b record
  | OpMarkAccepted acceptance => MarkAccepted json b acceptance
  | OpMarkDeadLettered letter => MarkDeadLettered json b letter
  end.

Definition pgx_op {A} (op : StoreOp A) : SqlPgx.Method A :=
  match op in StoreOp A return SqlPgx.Method A with
  | OpCreate task => SqlPgx.Create json b task
  | OpGet id => SqlPgx.Get json b id
  | OpUpdate task expected => SqlPgx.Update json b task expected
  | OpAppendHistory records => SqlPgx.AppendHistory json b records
  | OpHistory id => SqlPgx.History json b id
  | OpCount query => SqlPgx.Count json b query
  | OpQuery query => SqlPgx.Query_ json b codec query
  | OpClaimOverdue lease => SqlPgx.ClaimOverdue json b lease
  | OpAppend events => SqlPgx.Append json b events
  | OpEvents limit => SqlPgx.Events json b limit
  | OpOutboxEntry id => SqlPgx.OutboxEntry_ json b id
  | OpClaimDueEvents claim => SqlPgx.ClaimDueEvents json b claim
  | OpRecordAttempt record => SqlPgx.RecordAttempt json b record
  | OpMarkAccepted acceptance => SqlPgx.MarkAccepted json b acceptance
  | OpMarkDeadLettered letter => SqlPgx.MarkDeadLettered json b letter
  end.

Definition gorm_op {A} (op : StoreOp A) : SqlGorm.Method A :=
  match op in StoreOp A return SqlGorm.Method A with
  | OpCreate task => SqlGorm.Create json b task
  | OpGet id => SqlGorm.Get json b id
  | OpUpdate task expected => SqlGorm.Update json b task expected
  | OpAppendHistory records => SqlGorm.AppendHistory json b records
  | OpHistory id => SqlGorm.History json b id
  | OpCount query => SqlGorm.Count json b query
  | OpQuery query => SqlGorm.Query_ json b codec query
  | OpClaimOverdue lease => SqlGorm.ClaimOverdue json b lease
  | OpAppend events => SqlGorm.Append json b events
  | OpEvents limit => SqlGorm.Events json b limit
  | OpOutboxEntry id => SqlGorm.OutboxEntry_ json b id
  | OpClaimDueEvents claim => SqlGorm.ClaimDueEvents json b claim
  | OpRecordAttempt record => SqlGorm.RecordAttempt json b record
  | OpMarkAccepted acceptance => SqlGorm.MarkAccepted json b acceptance
  | OpMarkDeadLettered letter => SqlGorm.MarkDeadLettered json b letter
  end.

(** *** The steps the methods share *)

(** An execution whose count is not looked at, one whose count is, and a query
    whose rows are scanned. *)
Ltac mirror_ignored :=
  intros Hk; unfold SqlPgx.exec, SqlGorm.exec, exec; destruct (Statement.IsZero _); [exact Hk|];
  constructor; intros [n|e] y Hy; hnf in Hy; subst y; [exact Hk|constructor].
Ltac mirror_counted :=
  intros Hs Hk; unfold SqlPgx.exec, SqlGorm.exec, exec; rewrite Hs;
  constructor; intros [n|e] y Hy; hnf in Hy; subst y; [apply Hk|constructor].

Lemma pgx_ignored {A} r (k : SqlPgx.Method A) k' : mirrors pgx_sent k k' ->
  mirrors pgx_sent (obind (SqlPgx.exec json b r) (fun _ => k)) (obind (exec json b r) (fun _ => k')).
Proof. mirror_ignored. Qed.
Lemma gorm_ignored {A} r (k : SqlGorm.Method A) k' : mirrors gorm_sent k k' ->
  mirrors gorm_sent (obind (SqlGorm.exec json b r) (fun _ => k)) (obind (exec json b r) (fun _ => k')).
Proof. mirror_ignored. Qed.

Lemma pgx_counted {A} r what (k : Z -> SqlPgx.Method A) k' : Statement.IsZero (written json b r) = false ->
  (forall n, mirrors pgx_sent (k n) (k' n)) ->
  mirrors pgx_sent (obind (SqlPgx.exec json b r) k)
    (obind (exec json b r) (fun result => obind (lift (affected_by result what)) k')).
Proof. mirror_counted. Qed.
Lemma gorm_counted {A} r what (k : Z -> SqlGorm.Method A) k' : Statement.IsZero (written json b r) = false ->
  (forall n, mirrors gorm_sent (k n) (k' n)) ->
  mirrors gorm_sent (obind (SqlGorm.exec json b r) k)
    (obind (exec json b r) (fun result => obind (lift (affected_by result what)) k')).
Proof. mirror_counted. Qed.

Lemma pgx_queried {A} r (k : Rows.t -> SqlPgx.Method A) k' :
  (forall rows, mirrors pgx_sent (k rows) (k' (rows, None))) ->
  mirrors pgx_sent (obind (SqlPgx.query json b r) k) (obind (query json b r) k').
Proof. intros Hk. constructor. intros [rows|e] y Hy; hnf in Hy; subst y; [apply Hk|constructor]. Qed.
Lemma gorm_queried {A} r (k : Rows.t -> SqlGorm.Method A) k' :
  (forall rows, mirrors gorm_sent (k rows) (k' (rows, None))) ->
  mirrors gorm_sent (obind (SqlGorm.query json b r) k) (obind (query json b r) k').
Proof. intros Hk. constructor. intros [rows|e] y [Hy _]; hnf in Hy; subst y; [apply Hk|constructor]. Qed.

Lemma pgx_scanned {A} r (scan : Rows.t -> res A) what :
  mirrors pgx_sent (SqlPgx.scanned json b r scan) (scanned json b r scan what).
Proof. apply pgx_queried. intros rows. cbn [fst snd]. destruct (scan rows); constructor. Qed.
Lemma gorm_scanned {A} r (scan : Rows.t -> res A) what :
  mirrors gorm_sent (SqlGorm.scanned json b r scan) (scanned json b r scan what).
Proof. apply gorm_queried. intros rows. cbn [fst snd]. destruct (scan rows); constructor. Qed.

(** *** The methods *)

Lemma pgx_version id : mirrors pgx_sent (SqlPgx.version id) (version id).
Proof.
  constructor. intros x [ [rows closed]|e] Hy; cbn in Hy; [destruct Hy as [-> ->]|subst x; constructor].
  unfold one_row. destruct (first_row rows _) as [ [values|e]|]; constructor.
Qed.
Lemma gorm_version id : mirrors gorm_sent (SqlGorm.version json b id) (version id).
Proof.
  constructor. intros [rows|e] y [Hy Hok]; hnf in Hy; subst y; [|discriminate (Hok id eq_refl)].
  unfold first_row. destruct (Rows.each rows) as [|[values|e] rest]; [|constructor..].
  destruct (Rows.ended rows); constructor.
Qed.

Lemma sent_update task expected : Statement.IsZero (written json b (QUpdateTask task expected)) = false.
Proof. by eapply sent. Qed.
Lemma sent_lease id lease : Statement.IsZero (written json b (QClaimLease id lease)) = false.
Proof. by eapply sent. Qed.
Lemma sent_claim id claim : Statement.IsZero (written json b (QClaimEvent id claim)) = false.
Proof. by eapply sent. Qed.
Lemma sent_attempt record : Statement.IsZero (written json b (QRecordAttempt record)) = false.
Proof. by eapply sent. Qed.
Lemma sent_acceptance acceptance : Statement.IsZero (written json b (QMarkAccepted acceptance)) = false.
Proof. by eapply sent. Qed.
Lemma sent_letter letter : Statement.IsZero (written json b (QMarkDeadLettered letter)) = false.
Proof. by eapply sent. Qed.

(** A call that answers with an error or none, and a rollback. *)
Ltac mirror_done := apply mirrors_call; intros ? ? _; constructor.
Ltac mirror_fault := apply mirrors_call; intros [?|] y Hy; hnf in Hy; subst y; cbn [bind].

Lemma pgx_create task : mirrors pgx_sent (SqlPgx.Create json b task) (Create json b task).
Proof.
  apply mirrors_bind; [apply pgx_version|]. intros [current|e]; [constructor|].
  destruct (negb _); [constructor|]. apply pgx_ignored, pgx_ignored. constructor.
Qed.

Lemma pgx_attach tasks : mirrors pgx_sent (SqlPgx.attachCandidates json b tasks) (attachCandidates json b tasks).
Proof.
  unfold SqlPgx.attachCandidates, attachCandidates. destruct (decide _); [constructor|].
  apply mirrors_obind; [apply pgx_scanned|constructor].
Qed.

Lemma pgx_get id : mirrors pgx_sent (SqlPgx.Get json b id) (Get json b id).
Proof.
  apply mirrors_obind; [apply pgx_scanned|]. intros tasks. destruct (decide _); [constructor|].
  apply mirrors_obind; [apply pgx_attach|constructor].
Qed.

Lemma pgx_update task expected : mirrors pgx_sent (SqlPgx.Update json b task expected) (Update json b task expected).
Proof.
  apply pgx_counted; [apply sent_update|]. intros n. destruct (decide _).
  - apply mirrors_bind; [apply pgx_version|]. intros [current|failure]; [constructor|]. destruct (negb _); constructor.
  - apply pgx_ignored, pgx_ignored. constructor.
Qed.

Lemma pgx_query query : mirrors pgx_sent (SqlPgx.Query_ json b codec query) (Query_ json b codec query).
Proof.
  apply mirrors_obind; [constructor|]. intros request.
  apply mirrors_obind; [apply pgx_scanned|]. intros tasks. cbv zeta.
  apply mirrors_obind; [constructor|]. intros cut.
  apply mirrors_obind; [apply pgx_attach|constructor].
Qed.

Lemma pgx_identifiers r scanning reading :
  mirrors pgx_sent (SqlPgx.identifiers json b r scanning reading) (identifiers json b r scanning reading).
Proof.
  apply pgx_queried. intros rows. cbn [fst snd].
  destruct (scan_texts _ _); [|constructor]. destruct (Rows.ended rows); constructor.
Qed.

Lemma pgx_claim_each {A} take_ what (read : string -> SqlPgx.Method A) read' ids :
  (forall id, Statement.IsZero (written json b (take_ id)) = false) ->
  (forall id, mirrors pgx_sent (read id) (read' id)) ->
  mirrors pgx_sent (SqlPgx.claim_each json b take_ read ids) (claim_each json b take_ what read' ids).
Proof.
  intros Hs Hr. induction ids as [|id ids IH]; cbn [SqlPgx.claim_each claim_each]; [constructor|].
  apply pgx_counted; [apply Hs|]. intros n. destruct (decide _); [exact IH|].
  apply mirrors_obind; [apply Hr|]. intros taken. apply mirrors_obind; [exact IH|constructor].
Qed.

Lemma pgx_append events : mirrors pgx_sent (SqlPgx.Append json b events) (Append json b events).
Proof.
  unfold SqlPgx.Append, Append. destruct (decide _); [constructor|].
  apply mirrors_obind; [constructor|]. intros rows. apply pgx_ignored. constructor.
Qed.

Lemma pgx_entry id : mirrors pgx_sent (SqlPgx.OutboxEntry_ json b id) (OutboxEntry_ json b id).
Proof. apply mirrors_obind; [apply pgx_scanned|constructor]. Qed.

Lemma pgx_settle id r : Statement.IsZero (written json b r) = false ->
  mirrors pgx_sent (SqlPgx.settleOutbox json b id r) (settleOutbox json b id r).
Proof.
  intros Hs. apply pgx_counted; [done|]. intros n. destruct (decide _); [constructor|].
  apply mirrors_obind; [apply pgx_entry|constructor].
Qed.

Lemma pgx_mirrors {A} (op : StoreOp A) : mirrors pgx_sent (pgx_op op) (sql_op op).
Proof.
  destruct op; cbn [pgx_op sql_op].
  - apply pgx_create.
  - apply pgx_get.
  - apply pgx_update.
  - apply pgx_ignored. constructor.
  - apply pgx_scanned.
  - apply pgx_scanned.
  - apply pgx_query.
  - apply mirrors_obind; [apply pgx_identifiers|]. intros ids. apply pgx_claim_each; [intros; apply sent_lease|apply pgx_get].
  - apply pgx_append.
  - apply pgx_queried. constructor.
  - apply pgx_entry.
  - apply mirrors_obind; [apply pgx_identifiers|]. intros ids.
    apply pgx_claim_each; [intros; apply sent_claim|apply pgx_entry].
  - apply pgx_settle, sent_attempt.
  - apply pgx_settle, sent_acceptance.
  - apply pgx_settle, sent_letter.
Qed.

(** Transactions: what runs in them may be any programs in step. *)
Lemma pgx_do {A} joined (fn : SqlPgx.Method A) fn' : mirrors pgx_sent fn fn' ->
  mirrors pgx_sent (SqlPgx.Do_ joined fn) (Do_ joined fn').
Proof.
  intros Hfn. unfold SqlPgx.Do_, Do_. destruct joined; [done|]. mirror_fault; [constructor|].
  apply mirrors_bind; [done|]. intros [a|e]; [|mirror_done].
  mirror_fault; [mirror_done|]. mirror_fault; [mirror_done|]. constructor.
Qed.

Lemma gorm_create task : mirrors gorm_sent (SqlGorm.Create json b task) (Create json b task).
Proof.
  apply mirrors_bind; [apply gorm_version|]. intros [current|e]; [constructor|].
  destruct (negb _); [constructor|]. apply gorm_ignored, gorm_ignored. constructor.
Qed.

Lemma gorm_attach tasks : mirrors gorm_sent (SqlGorm.attachCandidates json b tasks) (attachCandidates json b tasks).
Proof.
  unfold SqlGorm.attachCandidates, attachCandidates. destruct (decide _); [constructor|].
  apply mirrors_obind; [apply gorm_scanned|constructor].
Qed.

Lemma gorm_get id : mirrors gorm_sent (SqlGorm.Get json b id) (Get json b id).
Proof.
  apply mirrors_obind; [apply gorm_scanned|]. intros tasks. destruct (decide _); [constructor|].
  apply mirrors_obind; [apply gorm_attach|constructor].
Qed.

Lemma gorm_update task expected : mirrors gorm_sent (SqlGorm.Update json b task expected) (Update json b task expected).
Proof.
  apply gorm_counted; [apply sent_update|]. intros n. destruct (decide _).
  - apply mirrors_bind; [apply gorm_version|]. intros [current|failure]; [constructor|]. destruct (negb _); constructor.
  - apply gorm_ignored, gorm_ignored. constructor.
Qed.

Lemma gorm_query query : mirrors gorm_sent (SqlGorm.Query_ json b codec query) (Query_ json b codec query).
Proof.
  apply mirrors_obind; [constructor|]. intros request.
  apply mirrors_obind; [apply gorm_scanned|]. intros tasks. cbv zeta.
  apply mirrors_obind; [constructor|]. intros cut.
  apply mirrors_obind; [apply gorm_attach|constructor].
Qed.

Lemma gorm_identifiers r scanning reading :
  mirrors gorm_sent (SqlGorm.identifiers json b r scanning reading) (identifiers json b r scanning reading).
Proof.
  apply gorm_queried. intros rows. cbn [fst snd].
  destruct (scan_texts _ _); [|constructor]. destruct (Rows.ended rows); constructor.
Qed.

Lemma gorm_claim_each {A} take_ what (read : string -> SqlGorm.Method A) read' ids :
  (forall id, Statement.IsZero (written json b (take_ id)) = false) ->
  (forall id, mirrors gorm_sent (read id) (read' id)) ->
  mirrors gorm_sent (SqlGorm.claim_each json b take_ read ids) (claim_each json b take_ what read' ids).
Proof.
  intros Hs Hr. induction ids as [|id ids IH]; cbn [SqlGorm.claim_each claim_each]; [constructor|].
  apply gorm_counted; [apply Hs|]. intros n. destruct (decide _); [exact IH|].
  apply mirrors_obind; [apply Hr|]. intros taken. apply mirrors_obind; [exact IH|constructor].
Qed.

Lemma gorm_append events : mirrors gorm_sent (SqlGorm.Append json b events) (Append json b events).
Proof.
  unfold SqlGorm.Append, Append. destruct (decide _); [constructor|].
  apply mirrors_obind; [constructor|]. intros rows. apply gorm_ignored. constructor.
Qed.

Lemma gorm_entry id : mirrors gorm_sent (SqlGorm.OutboxEntry_ json b id) (OutboxEntry_ json b id).
Proof. apply mirrors_obind; [apply gorm_scanned|constructor]. Qed.

Lemma gorm_settle id r : Statement.IsZero (written json b r) = false ->
  mirrors gorm_sent (SqlGorm.settleOutbox json b id r) (settleOutbox json b id r).
Proof.
  intros Hs. apply gorm_counted; [done|]. intros n. destruct (decide _); [constructor|].
  apply mirrors_obind; [apply gorm_entry|constructor].
Qed.

Lemma gorm_mirrors {A} (op : StoreOp A) : mirrors gorm_sent (gorm_op op) (sql_op op).
Proof.
  destruct op; cbn [gorm_op sql_op].
  - apply gorm_create.
  - apply gorm_get.
  - apply gorm_update.
  - apply gorm_ignored. constructor.
  - apply gorm_scanned.
  - apply gorm_scanned.
  - apply gorm_query.
  - apply mirrors_obind; [apply gorm_identifiers|]. intros ids. apply gorm_claim_each; [intros; apply sent_lease|apply gorm_get].
  - apply gorm_append.
  - apply gorm_queried. constructor.
  - apply gorm_entry.
  - apply mirrors_obind; [apply gorm_identifiers|]. intros ids.
    apply gorm_claim_each; [intros; apply sent_claim|apply gorm_entry].
  - apply gorm_settle, sent_attempt.
  - apply gorm_settle, sent_acceptance.
  - apply gorm_settle, sent_letter.
Qed.

(** Transactions: what runs in them may be any programs in step. *)
Lemma gorm_do {A} joined (fn : SqlGorm.Method A) fn' : mirrors gorm_sent fn fn' ->
  mirrors gorm_sent (SqlGorm.Do_ joined fn) (Do_ joined fn').
Proof.
  intros Hfn. unfold SqlGorm.Do_, Do_. destruct joined; [done|]. mirror_fault; [constructor|].
  apply mirrors_bind; [done|]. intros [a|e]; [|mirror_done].
  mirror_fault; [mirror_done|]. mirror_fault; [mirror_done|]. constructor.
Qed.

End methods.

(** ** Scripts of writes *)

Section scripts.
Context (json : SqlJson.t) (b : Builder.t).

Definition pgx_write (w : Store.Write) : SqlPgx.Method unit :=
  match w with
  | WCreate task => SqlPgx.Create json b task
  | WUpdate task expected => SqlPgx.Update json b task expected
  | WAppendHistory records => SqlPgx.AppendHistory json b records
  | WAppend events => SqlPgx.Append json b events
  | WClaimOverdue lease => may! _ := SqlPgx.ClaimOverdue json b lease in Ret (Ok tt)
  | WClaimDueEvents claim => may! _ := SqlPgx.ClaimDueEvents json b claim in Ret (Ok tt)
  | WRecordAttempt record => SqlPgx.RecordAttempt json b record
  | WMarkAccepted acceptance => SqlPgx.MarkAccepted json b acceptance
  | WMarkDeadLettered letter => SqlPgx.MarkDeadLettered json b letter
  end.
Definition gorm_write (w : Store.Write) : SqlGorm.Method unit :=
  match w with
  | WCreate task => SqlGorm.Create json b task
  | WUpdate task expected => SqlGorm.Update json b task expected
  | WAppendHistory records => SqlGorm.AppendHistory json b records
  | WAppend events => SqlGorm.Append json b events
  | WClaimOverdue lease => may! _ := SqlGorm.ClaimOverdue json b lease in Ret (Ok tt)
  | WClaimDueEvents claim => may! _ := SqlGorm.ClaimDueEvents json b claim in Ret (Ok tt)
  | WRecordAttempt record => SqlGorm.RecordAttempt json b record
  | WMarkAccepted acceptance => SqlGorm.MarkAccepted json b acceptance
  | WMarkDeadLettered letter => SqlGorm.MarkDeadLettered json b letter
  end.

(** A script of writes by any store. *)
Fixpoint scripted {E} (write : Store.Write -> prog E (res unit)) (ws : list Store.Write) : prog E (res unit) :=
  match ws with
  | [] => Ret (Ok tt)
  | w :: ws => may! _ := write w in scripted write ws
  end.

Lemma scripted_mirrors {F} (sent : forall X, F X -> Sent X) write ws :
  (forall w, mirrors sent (write w) (sql_write json b w)) ->
  mirrors sent (scripted write ws) (sql_script json b ws).
Proof.
  intros Hw. induction ws as [|w ws IH]; cbn [scripted sql_script]; [constructor|]. by apply mirrors_obind.
Qed.

(** A token of a page is not asked for by a write. *)
Lemma pgx_write_mirrors (codec : CursorCodec.t) w : mirrors pgx_sent (pgx_write w) (sql_write json b w).
Proof.
  destruct w; cbn [pgx_write sql_write].
  - apply pgx_create.
  - apply pgx_update.
  - apply (pgx_mirrors json b codec (OpAppendHistory _)).
  - apply pgx_append.
  - apply mirrors_obind; [apply (pgx_mirrors json b codec (OpClaimOverdue _))|constructor].
  - apply mirrors_obind; [apply (pgx_mirrors json b codec (OpClaimDueEvents _))|constructor].
  - apply (pgx_mirrors json b codec (OpRecordAttempt _)).
  - apply (pgx_mirrors json b codec (OpMarkAccepted _)).
  - apply (pgx_mirrors json b codec (OpMarkDeadLettered _)).
Qed.
Lemma gorm_write_mirrors (codec : CursorCodec.t) w : mirrors gorm_sent (gorm_write w) (sql_write json b w).
Proof.
  destruct w; cbn [gorm_write sql_write].
  - apply gorm_create.
  - apply gorm_update.
  - apply (gorm_mirrors json b codec (OpAppendHistory _)).
  - apply gorm_append.
  - apply mirrors_obind; [apply (gorm_mirrors json b codec (OpClaimOverdue _))|constructor].
  - apply mirrors_obind; [apply (gorm_mirrors json b codec (OpClaimDueEvents _))|constructor].
  - apply (gorm_mirrors json b codec (OpRecordAttempt _)).
  - apply (gorm_mirrors json b codec (OpMarkAccepted _)).
  - apply (gorm_mirrors json b codec (OpMarkDeadLettered _)).
Qed.

(** How a transaction of writes ends on tables that held a ledger: committed whole,
    or not at all but for a commit whose answer was an error. *)
Definition keeps_ledger (ws : list Store.Write) (faults : bool) (T : Contents) (l : Ledger.t)
    (r : res unit) (db : Db) : Prop :=
  let spec := script write_ledger ws l in
  working db = None /\ (faults = false -> agrees r spec.1) /\
  match r with
  | Ok _ => spec.1 = Ok tt /\ Holds json b (committed db) spec.2
  | Err e => committed db = T \/
      exists cause, e = Wrapped "hmntsk: commit transaction: " cause /\ Holds json b (committed db) spec.2
  end.

Lemma sql_keeps collate nulls_first faults T l ws :
  (forall x y, collate x y = String.compare x y) -> Holds json b T l -> writable_all json ws l ->
  ends_db (does collate nulls_first json (Builder.dialect b)) faults (Do_ false (sql_script json b ws)) (mk_db T None)
    (keeps_ledger ws faults T l).
Proof.
  intros Hbytes HT Hw. unfold ends_db.
  eapply wp_mono; [|exact (ends_Do _ faults _ _ _ (ends_script collate Hbytes nulls_first json b ws T l HT Hw))].
  unfold keeps_ledger. cbv zeta. intros [ [] |e] db [Hn H]; (split; [done|]).
  - destruct H as [Ha H]. split; [done|]. split; [|by apply H]. by destruct (script _ _ _).1 as [ [] |].
  - destruct H as [ [Hc [-> | (T' & Ha & _)] ] | (-> & cause & [] & -> & Ha & H)]; (split; [done|]); auto.
    right. exists cause. split; [done|by apply H].
Qed.
End scripts.

(** The three SQL adapters are one store.  Call by call, the pgx store and the
    GORM store make the requests the database/sql store makes and end with the same
    result or the same error, whatever their drivers answer -- an answer standing
    for the one database/sql would give; failing to read a version is worded
    differently by GORM. *)
Theorem adapters_in_step json b codec A (op : StoreOp A) :
  mirrors pgx_sent (pgx_op json b codec op) (sql_op json b codec op) /\
  mirrors gorm_sent (gorm_op json b codec op) (sql_op json b codec op).
Proof. split; [apply pgx_mirrors|apply gorm_mirrors]. Qed.


(** ** At concrete tables *)


(** The drivers of the adapters can give the answers of the tables: the task's row
    to GORM, and its version, as the one row it is, to pgx. *)
Lemma gorm_selection_answered :
  through gorm_sent (does String.compare true encoder SQLite) _ (SqlGorm.Fetch (QSelectTask "t1")) (tables [recorded])
    (Ok (Rows.mk [Ok (hand <$> taskArgs encoder SQLite overdue)] None)) (tables [recorded]).
Proof.
  eexists. split; [split; [reflexivity|discriminate]|]. exact a_selection_is_answered.
Qed.

Lemma pgx_version_answered :
  exists x, through pgx_sent (does String.compare true encoder SQLite) _ (SqlPgx.QueryRow (QSelectTaskVersion "t1"))
    (tables [recorded]) (Ok (Some x)) (tables [recorded]) /\ DecodeInt (value_at x 0) = Ok (Task.Version overdue).
Proof.
  exists [hand (VInt (Task.Version overdue))]. split; [|vm_compute; reflexivity].
  exists (Ok (Rows.mk [Ok [hand (VInt (Task.Version overdue))] ] None, None)). split; [split; reflexivity|].
  split; [done|]. eexists _, _. split; [reflexivity|]. split; [reflexivity|].
  exists [taskArgs encoder SQLite overdue], [taskArgs encoder SQLite overdue].
  split; [reflexivity|]. split.
  - exists [taskArgs encoder SQLite overdue]. split; [vm_compute; reflexivity|]. split; [repeat constructor|reflexivity].
  - split; [reflexivity|]. exists [ [hand (VInt (Task.Version overdue))] ]. split; [reflexivity|].
    constructor; [|constructor]. apply (handed SQLite [VInt (Task.Version overdue)]).
Qed.
