(* ===== verification/Notification.v ===== *)
(** * Notification: the values of the notification library

    Models [notify/notification.go], [notify/store.go] (the requests and results
    that cross the storage port), [notify/errors.go], [notify/clock.go],
    [notify/authorize.go] and the port of [notify/id.go].

    The conventions are those of the engine's files: an instant is a number of
    nanoseconds with Go's zero time at 0, an optional instant an [option], a map
    a [gmap].  A JSON payload is its bytes, the nil payload being the empty
    string, which no code of the library tells from it.  Counters of results are
    natural numbers: they count values held in memory. *)

From S2P Require Import Prelude Domain Json.

(** ** Errors *)

Inductive Sentinel : Type :=
| ErrNotFound | ErrValidation | ErrUnauthorized | ErrConfiguration
| ErrTooManyStreams | ErrUnavailable | ErrMailRejected | ErrMailInDoubt
| ErrUnknownSignalFormat.

#[global] Instance Sentinel_eq_dec : EqDecision Sentinel.
Proof. solve_decision. Defined.

Definition Sentinel_text (s : Sentinel) : string :=
  match s with
  | ErrNotFound => "notify: not found"
  | ErrValidation => "notify: not valid"
  | ErrUnauthorized => "notify: unauthorized"
  | ErrConfiguration => "notify: invalid configuration"
  | ErrTooManyStreams => "notify: too many streams"
  | ErrUnavailable => "notify: unavailable"
  | ErrMailRejected => "notify: mail rejected"
  | ErrMailInDoubt => "notify: mail in doubt"
  | ErrUnknownSignalFormat => "notify: unknown signal format"
  end.

Module ValidationIssue.
Record t : Type := mk { Pointer : string; Detail : string }.
#[global] Instance eta : Eta t := fun x => mk (Pointer x) (Detail x).
#[global] Instance eq_dec : EqDecision t.
Proof. solve_decision. Defined.

Definition String_ (i : t) : string :=
  if decide (Pointer i = "") then Detail i else Pointer i +:+ ": " +:+ Detail i.
End ValidationIssue.

(** An error: one of the library's types, a sentinel alone or wrapped by
    [fmt.Errorf] after or before a text, or an error of code outside. *)
Inductive error : Type :=
| ConfigurationError (Detail : string)
| ValidationError (Subject : string) (Issues : list ValidationIssue.t)
| Bare (s : Sentinel)
| Because (s : Sentinel) (detail : string)      (* [%w: detail] *)
| Prefixed (prefix : string) (cause : error)    (* [prefix: %w] *)
| External (text : string).

Fixpoint Error (e : error) : string :=
  match e with
  | ConfigurationError detail => "notify: " +:+ detail
  | ValidationError subject issues =>
      let subject := if decide (subject = "") then "value" else subject in
      match issues with
      | [] => "notify: " +:+ subject +:+ " is not valid"
      | _ => "notify: " +:+ subject +:+ " is not valid: " +:+
             String.concat "; " (ValidationIssue.String_ <$> issues)
      end
  | Bare s => Sentinel_text s
  | Because s detail => Sentinel_text s +:+ ": " +:+ detail
  | Prefixed prefix cause => prefix +:+ ": " +:+ Error cause
  | External text => text
  end.

(** [errors.Is] against a sentinel, following the [Unwrap] methods. *)
Fixpoint errors_Is (e : error) (s : Sentinel) : bool :=
  match e with
  | ConfigurationError _ => bool_decide (s = ErrConfiguration)
  | ValidationError _ _ => bool_decide (s = ErrValidation)
  | Bare s' | Because s' _ => bool_decide (s = s')
  | Prefixed _ cause => errors_Is cause s
  | External _ => false
  end.

Definition res (A : Type) : Type := result error A.

Definition invalid (subject : string) (issues : list ValidationIssue.t) : res unit :=
  match issues with
  | [] => Ok tt
  | _ => Err (ValidationError subject issues)
  end.

(** ** Time *)

Definition normalizeTime (instant : Time) : Time := (instant - instant mod Microsecond)%Z.

(** ** Notifications *)

(** [State]: a string type with three defined values. *)
Inductive State : Type :=
| StateActive | StateRead | StateClosed | StateOther (raw : string).

#[global] Instance State_eq_dec : EqDecision State.
Proof. solve_decision. Defined.

Definition State_String (s : State) : string :=
  match s with
  | StateActive => "ACTIVE"
  | StateRead => "READ"
  | StateClosed => "CLOSED"
  | StateOther raw => raw
  end.

Definition State_Valid (s : State) : bool :=
  match s with
  | StateActive | StateRead | StateClosed => true
  | StateOther _ => false
  end.

Definition MaxKindBytes : Z := 100.
Definition MaxIdentifierBytes : Z := 255.

Module Notification.
Record t : Type := mk {
  ID : string;
  Recipient : string;
  SourceID : string;
  Subject : string;
  SubjectVersion : Z;
  Kind : string;
  State_ : State;
  ClosedReason : string;
  Title : string;
  Links : gmap string string;
  Data : string;
  CreatedAt : Time;
  ReadAt : option Time;
  ClosedAt : option Time;
  InactiveAt : option Time
}.
#[global] Instance eta : Eta t := fun x =>
  mk (ID x) (Recipient x) (SourceID x) (Subject x) (SubjectVersion x) (Kind x)
    (State_ x) (ClosedReason x) (Title x) (Links x) (Data x) (CreatedAt x) (ReadAt x)
    (ClosedAt x) (InactiveAt x).
#[global] Instance eq_dec : EqDecision t.
Proof. solve_decision. Defined.

(** The zero value, which reading a missing key of a map yields. *)
Definition zero : t :=
  mk "" "" "" "" 0 "" (StateOther "") "" "" ∅ "" 0%Z None None None.

(** A copy that shares nothing with the original: the same value, as values of
    the model are not shared. *)
Definition Clone (n : t) : t :=
  let n := n <| Links := Links n |> in
  let n := n <| Data := Data n |> in
  let n := n <| ReadAt := ReadAt n |> in
  let n := n <| ClosedAt := ClosedAt n |> in
  n <| InactiveAt := InactiveAt n |>.
End Notification.

(** ** Drafts *)

Module Draft.
Record t : Type := mk {
  Recipient : string;
  SourceID : string;
  Subject : string;
  Kind : string;
  Title : string;
  SubjectVersion : Z;
  Links : gmap string string;
  Data : string;
  Coalesce : bool
}.
#[global] Instance eta : Eta t := fun x =>
  mk (Recipient x) (SourceID x) (Subject x) (Kind x) (Title x) (SubjectVersion x) (Links x)
    (Data x) (Coalesce x).
End Draft.

Module content.
Record t : Type := mk {
  sourceID : string;
  subject : string;
  kind : string;
  subjectVersion : Z;
  data : string
}.
End content.

(** [len(s)] *)
Definition len (s : string) : Z := Z.of_nat (String.length s).

Definition validateIdentifier (pointer value : string) : list ValidationIssue.t :=
  if decide (value = "") then [ValidationIssue.mk pointer "is required"]
  else if decide (MaxIdentifierBytes < len value)%Z
  then [ValidationIssue.mk pointer
          ("is longer than " +:+ pretty MaxIdentifierBytes +:+ " bytes")]
  else [].

Definition validateContent (c : content.t) (withSubject : bool) : list ValidationIssue.t :=
  let issues := validateIdentifier "/sourceId" (content.sourceID c) in
  let issues :=
    if withSubject then issues ++ validateIdentifier "/subject" (content.subject c)
    else issues in
  let issues :=
    if decide (content.kind c = "")
    then issues ++ [ValidationIssue.mk "/kind" "is required"]
    else if decide (MaxKindBytes < len (content.kind c))%Z
    then issues ++ [ValidationIssue.mk "/kind"
                      ("is longer than " +:+ pretty MaxKindBytes +:+ " bytes")]
    else issues in
  let issues :=
    if decide (content.subjectVersion c < 0)%Z
    then issues ++ [ValidationIssue.mk "/subjectVersion" "must not be negative"]
    else issues in
  if bool_decide (0 < len (content.data c))%Z && negb (json_Valid (content.data c))
  then issues ++ [ValidationIssue.mk "/data" "is not valid JSON"]
  else issues.

Definition Draft_Validate (d : Draft.t) : res unit :=
  let issues :=
    validateContent
      (content.mk (Draft.SourceID d) (Draft.Subject d) (Draft.Kind d)
         (Draft.SubjectVersion d) (Draft.Data d)) true in
  let issues := issues ++ validateIdentifier "/recipient" (Draft.Recipient d) in
  invalid "draft" issues.

(** ** The storage port's requests and results *)

Module Insertion.
Record t : Type := mk { Notification_ : Notification.t; Coalesce : bool }.
End Insertion.

Module InsertResult.
Record t : Type := mk {
  Created : list Notification.t;
  Duplicates : nat;
  Suppressed : nat;
  Coalesced : nat
}.
#[global] Instance eta : Eta t := fun x =>
  mk (Created x) (Duplicates x) (Suppressed x) (Coalesced x).
Definition zero : t := mk [] 0 0 0.

Definition add (r other : t) : t :=
  mk (Created r ++ Created other) (Duplicates r + Duplicates other)
    (Suppressed r + Suppressed other) (Coalesced r + Coalesced other).
End InsertResult.

Module Successor.
Record t : Type := mk {
  SourceID : string;
  Kind : string;
  Title : string;
  SubjectVersion : Z;
  Links : gmap string string;
  Data : string
}.
End Successor.

Module CloseRequest.
Record t : Type := mk {
  Subject : string;
  Kinds : list string;
  Version : Z;
  Reason : string;
  Except : string;
  Successor_ : option Successor.t;
  SuccessorSkip : list string
}.
End CloseRequest.

(** One element of a loop over an indexed slice that may add an issue. *)
Definition issues_at {A} (bad : A -> bool) (pointer detail : string) (l : list A)
  : list ValidationIssue.t :=
  concat (imap (fun (i : nat) x =>
    if bad x then [ValidationIssue.mk (pointer +:+ pretty i) detail] else []) l).

Definition CloseRequest_Validate (r : CloseRequest.t) : res unit :=
  let issues := validateIdentifier "/subject" (CloseRequest.Subject r) in
  let issues :=
    if decide (CloseRequest.Version r < 0)%Z
    then issues ++ [ValidationIssue.mk "/version" "must not be negative"] else issues in
  let issues := issues ++
    issues_at (fun kind => bool_decide (kind = "") || bool_decide (MaxKindBytes < len kind)%Z)
      "/kinds/" ("must be between 1 and " +:+ pretty MaxKindBytes +:+ " bytes")
      (CloseRequest.Kinds r) in
  let issues :=
    if decide (MaxIdentifierBytes < len (CloseRequest.Reason r))%Z
    then issues ++ [ValidationIssue.mk "/reason"
                      ("is longer than " +:+ pretty MaxIdentifierBytes +:+ " bytes")]
    else issues in
  let issues :=
    match CloseRequest.Successor_ r with
    | None => issues
    | Some s =>
        issues ++
        ((fun i => i <| ValidationIssue.Pointer :=
                     ("/successor" +:+ ValidationIssue.Pointer i)%string |>) <$>
         validateContent
           (content.mk (Successor.SourceID s) "" (Successor.Kind s)
              (Successor.SubjectVersion s) (Successor.Data s)) false)
    end in
  invalid "close" issues.

(** The identifier port: a generator with a state of its own. *)
Class IDGenerator (G : Type) : Type := {
  NewID : G -> res string * G
}.

Section successors.
Context {G : Type} `{!IDGenerator G}.

(** The notification a close stamps for one recipient it closed. *)
Definition successorFor (r : CloseRequest.t) (successor : Successor.t) (at_ : Time)
    (recipient id : string) : Insertion.t :=
  Insertion.mk {|
    Notification.ID := id;
    Notification.Recipient := recipient;
    Notification.SourceID := Successor.SourceID successor;
    Notification.Subject := CloseRequest.Subject r;
    Notification.SubjectVersion := Successor.SubjectVersion successor;
    Notification.Kind := Successor.Kind successor;
    Notification.State_ := StateActive;
    Notification.ClosedReason := "";
    Notification.Title := Successor.Title successor;
    Notification.Links := Successor.Links successor;
    Notification.Data := Successor.Data successor;
    Notification.CreatedAt := at_;
    Notification.ReadAt := None;
    Notification.ClosedAt := None;
    Notification.InactiveAt := None
  |} false.

(** The loop over the recipients, in their order. *)
Fixpoint stamp_successors (r : CloseRequest.t) (successor : Successor.t) (at_ : Time)
    (recipients : list string) : SM G error (list Insertion.t) :=
  match recipients with
  | [] => sret []
  | recipient :: rest =>
      if contains (CloseRequest.SuccessorSkip r) recipient
      then stamp_successors r successor at_ rest
      else
        let! id := NewID in
        let! out := stamp_successors r successor at_ rest in
        sret (successorFor r successor at_ recipient id :: out)
  end.

Definition SuccessorInsertions (r : CloseRequest.t) (recipients : list string) (at_ : Time)
  : SM G error (list Insertion.t) :=
  match CloseRequest.Successor_ r with
  | None => sret []
  | Some successor => stamp_successors r successor at_ recipients
  end.
End successors.

Module CloseResult.
Record t : Type := mk {
  Closed : nat;
  Recipients : list string;
  Successors : list Notification.t;
  SuccessorsSuppressed : nat
}.
#[global] Instance eta : Eta t := fun x =>
  mk (Closed x) (Recipients x) (Successors x) (SuccessorsSuppressed x).
Definition zero : t := mk 0 [] [] 0.
End CloseResult.

Module MarkResult.
Record t : Type := mk { Marked : nat }.
End MarkResult.

Definition DefaultListLimit : Z := 50.
Definition MaxListLimit : Z := 500.

Module ListQuery.
Record t : Type := mk {
  Recipient : string;
  States : list State;
  Kinds : list string;
  Subject : string;
  Limit : Z;
  Cursor : string
}.
#[global] Instance eta : Eta t := fun x =>
  mk (Recipient x) (States x) (Kinds x) (Subject x) (Limit x) (Cursor x).

Definition EffectiveLimit (q : t) : Z :=
  if decide (Limit q <= 0)%Z then DefaultListLimit else Limit q.
End ListQuery.

Module Page.
Record t : Type := mk { Notifications : list Notification.t; NextCursor : string }.
End Page.

(** ** Cursors *)

Module CursorPosition.
Record t : Type := mk { CreatedAt : Time; ID : string }.
End CursorPosition.

Module cursorPayload.
Record t : Type := mk { CreatedAt : Time; ID : string; Filter : string }.
End cursorPayload.

(** The NUL byte the filters are joined with. *)
Definition NUL : string := String (Ascii.ascii_of_nat 0) EmptyString.

Section cursors.
(** [digest] is the first eight bytes of SHA-256 in hexadecimal.  [render] is
    the unpadded URL-safe base64 of the payload's JSON, the instant in
    RFC 3339 form; [parse] undoes it and yields nothing on a malformed token.
    Both see the instant the payload carries. *)
Context (digest : string -> string).
Context (render : cursorPayload.t -> string) (parse : string -> option cursorPayload.t).

Definition fingerprint (q : ListQuery.t) : string :=
  let states := sort_strings (State_String <$> ListQuery.States q) in
  let kinds := sort_strings (ListQuery.Kinds q) in
  digest (String.concat NUL
    [ListQuery.Recipient q; String.concat "," states; String.concat "," kinds;
     ListQuery.Subject q]).

Definition EncodeCursor (q : ListQuery.t) (position : CursorPosition.t) : string :=
  render (cursorPayload.mk (normalizeTime (CursorPosition.CreatedAt position))
            (CursorPosition.ID position) (fingerprint q)).

Definition refusedCursor (detail : string) : error :=
  ValidationError "request" [ValidationIssue.mk "/cursor" detail].

Definition DecodeCursor (q : ListQuery.t) : res (option CursorPosition.t) :=
  if decide (ListQuery.Cursor q = "") then Ok None
  else match parse (ListQuery.Cursor q) with
       | None => Err (refusedCursor "is not a cursor")
       | Some payload =>
           if decide (cursorPayload.ID payload = "")
           then Err (refusedCursor "is not a cursor")
           else if decide (cursorPayload.Filter payload <> fingerprint q)
           then Err (refusedCursor "belongs to another recipient or filter set")
           else Ok (Some (CursorPosition.mk
                  (normalizeTime (cursorPayload.CreatedAt payload)) (cursorPayload.ID payload)))
       end.

Definition ListQuery_Validate (q : ListQuery.t) : res unit :=
  let issues := validateIdentifier "/recipient" (ListQuery.Recipient q) in
  let issues :=
    if decide (ListQuery.Limit q < 0 \/ MaxListLimit < ListQuery.Limit q)%Z
    then issues ++ [ValidationIssue.mk "/limit"
                      ("must be between 1 and " +:+ pretty MaxListLimit)]
    else issues in
  let issues := issues ++
    issues_at (fun state => negb (State_Valid state)) "/states/"
      "is not ACTIVE, READ or CLOSED" (ListQuery.States q) in
  match issues with
  | [] => try! _ := DecodeCursor q in invalid "request" issues
  | _ => invalid "request" issues
  end.
End cursors.

(** ** Retention *)

Inductive RetentionStrategy : Type :=
| EvictOldestActive | RetainActive | StrategyOther (raw : string).

#[global] Instance RetentionStrategy_eq_dec : EqDecision RetentionStrategy.
Proof. solve_decision. Defined.

Definition RetentionStrategy_String (s : RetentionStrategy) : string :=
  match s with
  | EvictOldestActive => "EVICT_OLDEST_ACTIVE"
  | RetainActive => "RETAIN_ACTIVE"
  | StrategyOther raw => raw
  end.

Definition RetentionStrategy_Valid (s : RetentionStrategy) : bool :=
  bool_decide (s = EvictOldestActive) || bool_decide (s = RetainActive).

Module PruneRequest.
Record t : Type := mk {
  Now : Time;
  MaxPerRecipient : Z;
  MaxAge : Z;
  Strategy : RetentionStrategy;
  WatermarkRetention : Z;
  Batch : Z
}.
#[global] Instance eta : Eta t := fun x =>
  mk (Now x) (MaxPerRecipient x) (MaxAge x) (Strategy x) (WatermarkRetention x) (Batch x).
End PruneRequest.

Module PruneResult.
Record t : Type := mk {
  DeletedForAge : nat;
  DeletedForCount : nat;
  EvictedActive : nat;
  WatermarksDeleted : nat;
  Recipients : list string
}.
#[global] Instance eta : Eta t := fun x =>
  mk (DeletedForAge x) (DeletedForCount x) (EvictedActive x) (WatermarksDeleted x)
    (Recipients x).
Definition zero : t := mk 0 0 0 0 [].
End PruneResult.

(** ** Who may follow a recipient's signals *)

Definition SubscriptionAuthorizer : Type := string -> string -> res unit.

Definition selfOnly : SubscriptionAuthorizer := fun actor recipient =>
  if decide (actor = "")
  then Err (Because ErrUnauthorized "no acting user is established")
  else if decide (recipient <> actor)
  then Err (Because ErrUnauthorized "a user may follow only their own notifications")
  else Ok tt.

Definition SelfOnly : SubscriptionAuthorizer := selfOnly.
Definition AllowAll : SubscriptionAuthorizer := fun _ _ => Ok tt.
