(* ===== verification/Collections.v ===== *)
(** * Collections: loops over maps, groups and sorted sets

    The generic definitions and lemmas the notification files share: grouping
    by a key, [slices.Compact], the values of a map in the order a loop visits
    them, loops over the entries of a map that rewrite or delete the entry
    visited, and orders defined by comparison. *)

From S2P Require Import Prelude.

(** ** Definitions *)

(** [m[k] = append(m[k], x)] *)
Definition append_to {K A} `{Countable K} (k : K) (x : A) (m : gmap K (list A))
  : gmap K (list A) :=
  <[k := default [] (m !! k) ++ [x]]> m.

(** A loop that files every element under its key. *)
Fixpoint group_by {K A} `{Countable K} (key : A -> K) (l : list A) (m : gmap K (list A))
  : gmap K (list A) :=
  match l with
  | [] => m
  | x :: rest => group_by key rest (append_to (key x) x m)
  end.

(** A map filled by appending, with the keys in the order they were first seen. *)
Definition file {K A} `{Countable K} (key : A -> K) (x : A) (acc : list K * gmap K (list A))
  : list K * gmap K (list A) :=
  let '(keys, m) := acc in
  (match m !! key x with Some _ => keys | None => keys ++ [key x] end,
   append_to (key x) x m).

(** The groups in that order. *)
Definition groups {K A} `{Countable K} (acc : list K * gmap K (list A))
  : list (K * list A) :=
  (fun k => (k, default [] (acc.2 !! k))) <$> acc.1.

(** [slices.Compact]: equal neighbours become one. *)
Fixpoint compact (l : list string) : list string :=
  match l with
  | [] => []
  | x :: rest =>
      match rest with
      | [] => [x]
      | y :: _ => if decide (x = y) then compact rest else x :: compact rest
      end
  end.

(** [slices.Compact(slices.Sorted(slices.Values(l)))] *)
Definition sorted_distinct (l : list string) : list string := compact (sort_strings l).

(** [slices.Sorted(maps.Keys(m))] *)
Definition sorted_keys {A} (m : gmap string A) : list string :=
  sort_strings (map_to_list m).*1.

(** The values of a map in the order a loop visits them.  Go leaves the order
    open; it is the model's order of keys here, and where it could matter the
    theorems say what does not depend on it. *)
Definition values {A} (m : gmap string A) : list A := (map_to_list m).*2.

(** The result of a loop that visits every entry once and rewrites or deletes the
    entry it visits. *)
Definition revise {A} (f : A -> option A) (m : gmap string A) : gmap string A := omap f m.

(** ** Filters *)

Lemma filter_full {A} (P : A -> Prop) `{forall x, Decision (P x)} (l : list A) :
  length l <= length (filter P l) -> forall x, x ∈ l -> P x.
Proof.
  induction l as [|y l IH]; [by intros _ x ?%elem_of_nil|].
  pose proof (length_filter P l) as Hl. rewrite filter_cons. case_decide; cbn [length].
  - intros ? x [->|?]%elem_of_cons; [done|]. apply IH; [lia|done].
  - intros ?. lia.
Qed.

(** ** Groups in the order first seen *)

Section groups.
Context {K A : Type} `{Countable K} (key : A -> K).

Definition filed (l : list A) : list K * gmap K (list A) := for_each (file key) l ([], ∅).

Lemma filed_snoc l x : filed (l ++ [x]) = file key x (filed l).
Proof. unfold filed. by rewrite for_each_app. Qed.

Lemma filed_ok l :
  NoDup (filed l).1 /\
  (forall k, is_Some ((filed l).2 !! k) <-> k ∈ (filed l).1) /\
  (forall k, k ∈ (filed l).1 <-> exists x, x ∈ l /\ key x = k) /\
  (forall k, default [] ((filed l).2 !! k) = filter (fun x => key x = k) l).
Proof.
  induction l as [|x l (IHn & IHs & IHk & IHf)] using rev_ind.
  { cbn. split_and!; [constructor|..|done]; intros k.
    - rewrite lookup_empty. split; [by intros [? ?]|by intros ?%elem_of_nil].
    - split; [by intros ?%elem_of_nil|by intros (? & ?%elem_of_nil & _)]. }
  rewrite filed_snoc. destruct (filed l) as [keys m]. cbn [fst snd] in *.
  assert (Hkeys : forall k, k ∈ (file key x (keys, m)).1 <-> k ∈ keys \/ k = key x).
  { intros k. cbn. destruct (m !! key x) eqn:E; [|set_solver].
    split; [by left|]. intros [?| ->]; [done|]. apply IHs. by rewrite E. }
  split_and!.
  - cbn. destruct (m !! key x) eqn:E; [done|]. apply NoDup_snoc. split; [done|].
    rewrite <- IHs, E. by intros [? ?].
  - intros k. rewrite Hkeys. cbn. unfold append_to. rewrite lookup_insert_is_Some, IHs.
    destruct (decide (k = key x)); naive_solver.
  - intros k. rewrite Hkeys, IHk. set_solver.
  - intros k. rewrite filter_app. unfold file, append_to. cbn [snd].
    destruct (decide (key x = k)) as [<-|Hne].
    + rewrite lookup_insert_eq. rewrite filter_cons_True by done. cbn [default from_option id].
      by rewrite IHf.
    + rewrite lookup_insert_ne by done. rewrite filter_cons_False by done.
      by rewrite IHf, app_nil_r.
Qed.

(** Filtering by each of distinct keys that cover a list rearranges it. *)
Lemma partition_by (keys : list K) (l : list A) :
  NoDup keys -> (forall x, x ∈ l -> key x ∈ keys) ->
  mjoin ((fun k => filter (fun x => key x = k) l) <$> keys) ≡ₚ l.
Proof.
  revert l. induction keys as [|k keys IH]; intros l Hn Hc; cbn.
  { destruct l as [|x l]; [done|]. exfalso.
    by apply (not_elem_of_nil (key x)), Hc; left. }
  apply NoDup_cons in Hn as [Hk Hn].
  etrans; [|apply (filter_app_complement (fun x => key x = k))]. f_equiv.
  etrans; [|apply (IH (filter (fun x => ~ key x = k) l) Hn)].
  - apply reflexive_eq. f_equal. apply list_fmap_ext. intros i k' Hk'.
    rewrite list_filter_filter. apply list_filter_iff. intros x.
    apply list_elem_of_lookup_2 in Hk'. split; [|tauto]. intros <-. split; [done|].
    intros E. by rewrite E in Hk'.
  - intros x [Hx Hin]%list_elem_of_filter. specialize (Hc x Hin).
    by apply elem_of_cons in Hc as [?|?].
Qed.

Lemma groups_join l : mjoin (groups (filed l)).*2 ≡ₚ l.
Proof.
  destruct (filed_ok l) as (Hn & _ & Hk & Hf). unfold groups. rewrite <- list_fmap_compose.
  etrans; [|apply (partition_by (filed l).1 l Hn)].
  - apply reflexive_eq. f_equal. apply list_fmap_ext. intros i k _. cbn. apply Hf.
  - intros x Hx. apply Hk. eauto.
Qed.

Lemma groups_elem l k g : (k, g) ∈ groups (filed l) ->
  g = filter (fun x => key x = k) l /\ g <> [].
Proof.
  destruct (filed_ok l) as (_ & _ & Hk & Hf).
  intros (k' & [= -> ->] & Hk')%list_elem_of_fmap. rewrite Hf. split; [done|].
  apply Hk in Hk' as (x & Hx & Ex). intros E.
  apply (not_elem_of_nil x). rewrite <- E. by apply list_elem_of_filter.
Qed.

Lemma groups_sizes l :
  sum_list ((fun e => length e.2) <$> groups (filed l)) = length l /\
  length (groups (filed l)) <= length l.
Proof.
  assert (E : sum_list ((fun e => length e.2) <$> groups (filed l)) = length l).
  { rewrite <- (Permutation_length (groups_join l)).
    induction (groups (filed l)) as [|[k g] rest IH]; [done|]. cbn.
    rewrite length_app. by f_equal. }
  split; [done|]. rewrite <- E.
  assert (Hne : Forall (fun e => e.2 <> []) (groups (filed l))).
  { apply Forall_forall. intros [k g] Hin. by apply groups_elem in Hin as [_ ?]. }
  clear E. induction Hne as [|[k g] rest Hg _ IH]; cbn; [lia|]. destruct g; [done|]. cbn in *. lia.
Qed.
End groups.

(** ** Sorted sets *)

Lemma elem_of_compact l x : x ∈ compact l <-> x ∈ l.
Proof.
  induction l as [|a l IH]; [done|]. cbn [compact]. destruct l as [|b l]; [done|].
  destruct (decide (a = b)) as [->|?].
  - rewrite IH, !elem_of_cons. tauto.
  - rewrite elem_of_cons, IH, (elem_of_cons (b :: l)). done.
Qed.

Lemma compact_sorted l : StronglySorted String.le l ->
  StronglySorted String.le (compact l) /\ NoDup (compact l).
Proof.
  induction l as [|a l IH]; [split; constructor|].
  intros [Hl Ha]%StronglySorted_inv. destruct (IH Hl) as [Hs Hn]. cbn [compact].
  destruct l as [|b l]; [split; [by repeat constructor|apply NoDup_singleton]|].
  destruct (decide (a = b)) as [->|Hab]; [done|]. split.
  - constructor; [done|]. rewrite Forall_forall in Ha |- *.
    intros y Hy. apply Ha. by rewrite elem_of_compact in Hy.
  - apply NoDup_cons. split; [|done]. rewrite elem_of_compact. intros Hin.
    apply Hab. rewrite Forall_forall in Ha.
    apply StronglySorted_inv in Hl as [_ Hb]. rewrite Forall_forall in Hb.
    apply (anti_symm String.le); [apply Ha; left|].
    apply elem_of_cons in Hin as [->|Hin]; [done|]. by apply Hb.
Qed.

Lemma elem_of_sorted_distinct l x : x ∈ sorted_distinct l <-> x ∈ l.
Proof. unfold sorted_distinct. by rewrite elem_of_compact, elem_of_sort_strings. Qed.

Lemma sorted_distinct_sorted l : StronglySorted String.le (sorted_distinct l).
Proof. apply compact_sorted, sort_strings_sorted. Qed.

Lemma sorted_distinct_NoDup l : NoDup (sorted_distinct l).
Proof. apply compact_sorted, sort_strings_sorted. Qed.

(** What has the same elements has the same sorted set. *)
Lemma length_sorted_distinct l : length (sorted_distinct l) <= length l.
Proof.
  unfold sorted_distinct. rewrite <- (Permutation_length (merge_sort_Permutation String.le l)).
  fold (sort_strings l). induction (sort_strings l) as [|x [|y k] IH]; [done..|].
  cbn [compact length] in *. case_decide; cbn [length] in *; lia.
Qed.

Lemma sorted_distinct_ext l1 l2 :
  (forall x, x ∈ l1 <-> x ∈ l2) -> sorted_distinct l1 = sorted_distinct l2.
Proof.
  intros E. apply (StronglySorted_NoDup_ext String.le);
    auto using sorted_distinct_sorted, sorted_distinct_NoDup.
  intros x. by rewrite !elem_of_sorted_distinct.
Qed.

(** A set listed in order is its elements' sorted set. *)
Lemma sort_elements (X : gset string) l :
  (forall x, x ∈ X <-> x ∈ l) -> sort_strings (elements X) = sorted_distinct l.
Proof.
  intros E. apply (StronglySorted_NoDup_ext String.le);
    auto using sorted_distinct_sorted, sorted_distinct_NoDup, sort_strings_sorted.
  - apply NoDup_sort_strings, NoDup_elements.
  - intros x. by rewrite elem_of_sort_strings, elem_of_elements, elem_of_sorted_distinct.
Qed.

(** ** Maps *)

Lemma elem_of_values {A} (m : gmap string A) x :
  x ∈ values m <-> exists k, m !! k = Some x.
Proof.
  unfold values. rewrite list_elem_of_fmap. split.
  - intros ([k y] & -> & Hin). exists k. by apply elem_of_map_to_list.
  - intros [k Hk]. exists (k, x). split; [done|]. by apply elem_of_map_to_list.
Qed.

Lemma elem_of_sorted_keys {A} (m : gmap string A) k :
  k ∈ sorted_keys m <-> is_Some (m !! k).
Proof.
  unfold sorted_keys. rewrite elem_of_sort_strings, list_elem_of_fmap. split.
  - intros ([k' y] & -> & Hin). exists y. by apply elem_of_map_to_list.
  - intros [y Hy]. exists (k, y). split; [done|]. by apply elem_of_map_to_list.
Qed.

Lemma sorted_keys_NoDup {A} (m : gmap string A) : NoDup (sorted_keys m).
Proof. apply NoDup_sort_strings, NoDup_fst_map_to_list. Qed.

Lemma lookup_append_to {K A} `{Countable K} (k k' : K) (x : A) m :
  default [] (append_to k x m !! k') = default [] (m !! k') ++ (if decide (k = k') then [x] else []).
Proof.
  unfold append_to. destruct (decide (k = k')) as [->|?].
  - by rewrite lookup_insert_eq.
  - by rewrite lookup_insert_ne, app_nil_r.
Qed.

(** A group is the elements with that key, in their order. *)
Lemma lookup_group_by {K A} `{Countable K} (key : A -> K) l m k :
  default [] (group_by key l m !! k) = default [] (m !! k) ++ filter (fun x => key x = k) l.
Proof.
  revert m. induction l as [|x l IH]; cbn [group_by]; intros m; [by rewrite app_nil_r|].
  rewrite IH, lookup_append_to, filter_cons, <- (assoc_L (++)). f_equal.
  by destruct (decide (key x = k)).
Qed.

(** A key has a group when it had one or an element has that key. *)
Lemma group_by_is_Some {K A} `{Countable K} (key : A -> K) l m k :
  is_Some (group_by key l m !! k) <-> is_Some (m !! k) \/ exists x, x ∈ l /\ key x = k.
Proof.
  revert m. induction l as [|x l IH]; cbn [group_by]; intros m.
  { set_solver. }
  rewrite IH. unfold append_to. rewrite lookup_insert_is_Some. setoid_rewrite elem_of_cons.
  destruct (decide (key x = k)); naive_solver.
Qed.

(** ** Orders by comparison *)

Lemma Lawful_ext {A} (c c' : A -> A -> comparison) :
  (forall x y, c x y = c' x y) -> Lawful c' -> Lawful c.
Proof.
  intros E [H1 H2 H3]. constructor.
  - intros x y. rewrite !E. apply H1.
  - intros x y z. rewrite !E. apply H2.
  - intros x y z. rewrite !E. apply H3.
Qed.

(** Sorting twice by comparisons that tell the elements apart gives one list:
    the order the elements came in does not show. *)
Lemma sort_Permutation {A} (c : A -> A -> comparison) `{!Lawful c} (l1 l2 : list A) :
  l1 ≡ₚ l2 -> (forall x y, x ∈ l1 -> y ∈ l1 -> c x y = Eq -> x = y) ->
  merge_sort (no_later c) l1 = merge_sort (no_later c) l2.
Proof.
  intros Hp Hinj. apply (StronglySorted_unique_strong (no_later c)).
  - intros x y. rewrite (merge_sort_Permutation (no_later c) l1),
      (merge_sort_Permutation (no_later c) l2), <- Hp.
    unfold no_later. rewrite (cmp_sym (c := c) x y). intros ????.
    apply Hinj; [done..|]. by destruct (c x y).
  - by apply sorted_by.
  - by apply sorted_by.
  - by rewrite !merge_sort_Permutation.
Qed.
