(* ===== verification/NotifyStore.v ===== *)
(** * NotifyStore: the in-memory notification store

    Models [notify/memory.go]: the maps of [MemoryStore] and every method of the
    storage port on them.  Each method runs under the store's one lock, so it is
    one function of the state.  A method that can fail returns an error and the
    state it leaves: nothing undoes its writes.  What the methods of the
    email port do to the delivery records is in [NotifyEmail.v]. *)

From S2P Require Import Prelude Domain Json Notification Collections.

(** ** Email delivery state: the values of [notify/email.go] the store keeps *)

Inductive EmailStatus : Type :=
| EmailStatusClaimed | EmailStatusSending | EmailStatusSent | EmailStatusRetry
| EmailStatusSkipped | EmailStatusFailed | EmailStatusAbandoned
| EmailStatusOther (raw : string).

#[global] Instance EmailStatus_eq_dec : EqDecision EmailStatus.
Proof. solve_decision. Defined.

Definition EmailStatus_String (s : EmailStatus) : string :=
  match s with
  | EmailStatusClaimed => "CLAIMED"
  | EmailStatusSending => "SENDING"
  | EmailStatusSent => "SENT"
  | EmailStatusRetry => "RETRY"
  | EmailStatusSkipped => "SKIPPED"
  | EmailStatusFailed => "FAILED"
  | EmailStatusAbandoned => "ABANDONED"
  | EmailStatusOther raw => raw
  end.

Definition EmailStatus_Valid (s : EmailStatus) : bool :=
  match s with
  | EmailStatusClaimed | EmailStatusSending | EmailStatusSent | EmailStatusRetry
  | EmailStatusSkipped | EmailStatusFailed | EmailStatusAbandoned => true
  | EmailStatusOther _ => false
  end.

Module emailDelivery.
Record t : Type := mk {
  status : EmailStatus;
  batchID : string;
  owner : string;
  leaseUntil : option Time;
  attempts : nat;
  nextAttemptAt : option Time;
  reason : string;
  sentAt : option Time;
  updatedAt : Time
}.
#[global] Instance eta : Eta t := fun x =>
  mk (status x) (batchID x) (owner x) (leaseUntil x) (attempts x) (nextAttemptAt x)
    (reason x) (sentAt x) (updatedAt x).
#[global] Instance eq_dec : EqDecision t.
Proof. solve_decision. Defined.
Definition zero : t := mk (EmailStatusOther "") "" "" None 0 None "" None 0%Z.
End emailDelivery.

(** ** The state *)

(** The watermark key for a close of every kind. *)
Definition allKinds : string := "*".

(** [watermarkKey]: subject and kind; [sourceKey]: source and recipient. *)
Abbreviation watermarkKey := (string * string)%type.
Abbreviation sourceKey := (string * string)%type.

Module watermark.
Record t : Type := mk { version : Z; updatedAt : Time }.
#[global] Instance eta : Eta t := fun x => mk (version x) (updatedAt x).
#[global] Instance eq_dec : EqDecision t.
Proof. solve_decision. Defined.
Definition zero : t := mk 0 0%Z.
End watermark.

Module MemoryStore.
Record t : Type := mk {
  notifications : gmap string Notification.t;
  watermarks : gmap watermarkKey watermark.t;
  sources : gmap sourceKey string;
  subjects : gmap string (gset string);
  deliveries : gmap string emailDelivery.t
}.
#[global] Instance eta : Eta t := fun x =>
  mk (notifications x) (watermarks x) (sources x) (subjects x) (deliveries x).
End MemoryStore.
Import MemoryStore.

Definition NewMemoryStore : MemoryStore.t := MemoryStore.mk ∅ ∅ ∅ ∅ ∅.

Definition sourceKeyOf (n : Notification.t) : sourceKey :=
  (Notification.SourceID n, Notification.Recipient n).

(** ** Indexes *)

(** Reading a notification the map may not hold. *)
Definition at_id (s : MemoryStore.t) (id : string) : Notification.t :=
  default Notification.zero (notifications s !! id).

(** The identifiers of a subject's notifications. *)
Definition ids_of (s : MemoryStore.t) (subject : string) : gset string :=
  default ∅ (subjects s !! subject).

Definition put (n : Notification.t) (s : MemoryStore.t) : MemoryStore.t :=
  let s := s <| notifications := <[Notification.ID n := n]> (notifications s) |> in
  let s := s <| sources := <[sourceKeyOf n := Notification.ID n]> (sources s) |> in
  s <| subjects :=
    <[Notification.Subject n :=
        {[Notification.ID n]} ∪ ids_of s (Notification.Subject n)]> (subjects s) |>.

Definition remove (n : Notification.t) (s : MemoryStore.t) : MemoryStore.t :=
  let s := s <| notifications := delete (Notification.ID n) (notifications s) |> in
  let s := s <| sources := delete (sourceKeyOf n) (sources s) |> in
  let ids := ids_of s (Notification.Subject n) ∖ {[Notification.ID n]} in
  s <| subjects :=
    (if decide (ids = ∅) then delete (Notification.Subject n) (subjects s)
     else <[Notification.Subject n := ids]> (subjects s)) |>.

(** ** Watermarks *)

(** The loop over a subject's two close records. *)
Definition floor (s : MemoryStore.t) (subject kind : string) : Z :=
  for_each (fun key (floor : Z) =>
      match watermarks s !! key with
      | Some mark =>
          if decide (floor < watermark.version mark)%Z
          then watermark.version mark else floor
      | None => floor
      end)
    [(subject, kind); (subject, allKinds)] (-1)%Z.

Definition ensureWatermark (key : watermarkKey) (at_ : Time) (s : MemoryStore.t)
  : MemoryStore.t :=
  match watermarks s !! key with
  | Some _ => s
  | None => s <| watermarks := <[key := watermark.mk (-1) at_]> (watermarks s) |>
  end.

(** ** Publishing *)

Definition hasOpen (s : MemoryStore.t) (recipient subject kind : string) : bool :=
  existsb (fun id =>
      let n := at_id s id in
      bool_decide (Notification.Recipient n = recipient) &&
      bool_decide (Notification.Kind n = kind) &&
      bool_decide (Notification.State_ n <> StateClosed))
    (elements (ids_of s subject)).

(** One turn of the loop of [insert]: suppression, coalescing and idempotency, in
    that order. *)
Definition insert_one (subject : string) (insertion : Insertion.t)
    (acc : InsertResult.t * MemoryStore.t) : InsertResult.t * MemoryStore.t :=
  let '(result, s) := acc in
  let n := (Insertion.Notification_ insertion) <| Notification.Subject := subject |> in
  if decide (Notification.SubjectVersion n < floor s subject (Notification.Kind n))%Z
  then (result <| InsertResult.Suppressed := S (InsertResult.Suppressed result) |>, s)
  else if Insertion.Coalesce insertion &&
          hasOpen s (Notification.Recipient n) subject (Notification.Kind n)
  then (result <| InsertResult.Coalesced := S (InsertResult.Coalesced result) |>, s)
  else match sources s !! sourceKeyOf n with
       | Some _ =>
           (result <| InsertResult.Duplicates := S (InsertResult.Duplicates result) |>, s)
       | None =>
           let s := put (Notification.Clone n) s in
           let result :=
             result <| InsertResult.Created :=
               InsertResult.Created result ++ [Notification.Clone n] |> in
           (result, ensureWatermark (subject, allKinds) (Notification.CreatedAt n) s)
       end.

Definition insert_ (subject : string) (insertions : list Insertion.t) (s : MemoryStore.t)
  : InsertResult.t * MemoryStore.t :=
  for_each (insert_one subject) insertions (InsertResult.zero, s).

Definition Insert (subject : string) (insertions : list Insertion.t)
  : SM MemoryStore.t error InsertResult.t :=
  fun s => let '(result, s) := insert_ subject insertions s in (Ok result, s).

(** ** Closing *)

Definition close_keys (req : CloseRequest.t) : list watermarkKey :=
  match CloseRequest.Kinds req with
  | [] => [(CloseRequest.Subject req, allKinds)]
  | kinds => (fun kind => (CloseRequest.Subject req, kind)) <$> kinds
  end.

Definition raise_watermark (version : Z) (at_ : Time) (key : watermarkKey)
    (s : MemoryStore.t) : MemoryStore.t :=
  let mark := default watermark.zero (watermarks s !! key) in
  let mark :=
    if negb (bool_decide (is_Some (watermarks s !! key))) ||
       bool_decide (watermark.version mark < version)%Z
    then mark <| watermark.version := version |> else mark in
  let mark := mark <| watermark.updatedAt := at_ |> in
  s <| watermarks := <[key := mark]> (watermarks s) |>.

(** The cases of the switch that leave a notification alone. *)
Definition spared (req : CloseRequest.t) (n : Notification.t) : bool :=
  if decide (Notification.State_ n = StateClosed \/
             CloseRequest.Version req < Notification.SubjectVersion n)%Z then true
  else if bool_decide (CloseRequest.Kinds req <> []) &&
          negb (contains (CloseRequest.Kinds req) (Notification.Kind n)) then true
  else if bool_decide (CloseRequest.Except req <> "") &&
          bool_decide (Notification.Recipient n = CloseRequest.Except req) then true
  else false.

Definition closed_as (req : CloseRequest.t) (at_ : Time) (n : Notification.t)
  : Notification.t :=
  let n := n <| Notification.State_ := StateClosed |> in
  let n := n <| Notification.ClosedReason := CloseRequest.Reason req |> in
  let n := n <| Notification.ClosedAt := Some at_ |> in
  match Notification.InactiveAt n with
  | None => n <| Notification.InactiveAt := Some at_ |>
  | Some _ => n
  end.

(** One turn of the loop over the subject's notifications. *)
Definition close_one (req : CloseRequest.t) (at_ : Time) (id : string)
    (acc : nat * gset string * MemoryStore.t) : nat * gset string * MemoryStore.t :=
  let '(closed, recipients, s) := acc in
  let n := at_id s id in
  if spared req n then acc
  else (S closed, {[Notification.Recipient n]} ∪ recipients,
        s <| notifications := <[id := closed_as req at_ n]> (notifications s) |>).

(** The part of [Close] before the successors: the watermarks and the loop. *)
Definition close_subject (req : CloseRequest.t) (at_ : Time) (s : MemoryStore.t)
  : nat * gset string * MemoryStore.t :=
  let s := ensureWatermark (CloseRequest.Subject req, allKinds) at_ s in
  let s := for_each (raise_watermark (CloseRequest.Version req) at_) (close_keys req) s in
  for_each (close_one req at_) (elements (ids_of s (CloseRequest.Subject req))) (0, ∅, s).

Section with_ids.
Context {G : Type} `{!IDGenerator G}.

(** [Close] with the generator it stamps successors from.  An error of the
    generator leaves what was written before it. *)
Definition Close (req : CloseRequest.t) (at_ : Time)
  : SM (G * MemoryStore.t) error CloseResult.t :=
  fun '(g, s) =>
    let at_ := normalizeTime at_ in
    let '(closed, recipients, s) := close_subject req at_ s in
    let result := CloseResult.mk closed (sort_strings (elements recipients)) [] 0 in
    match SuccessorInsertions req (CloseResult.Recipients result) at_ g with
    | (Err e, g) => (Err e, (g, s))
    | (Ok successors, g) =>
        if decide (successors <> [])
        then let '(inserted, s) := insert_ (CloseRequest.Subject req) successors s in
             let result :=
               result <| CloseResult.Successors := InsertResult.Created inserted |> in
             (Ok (result <| CloseResult.SuccessorsSuppressed :=
                    InsertResult.Suppressed inserted |>), (g, s))
        else (Ok result, (g, s))
    end.
End with_ids.

(** ** Reading *)

Definition Get (recipient id : string) (s : MemoryStore.t) : res Notification.t :=
  match notifications s !! id with
  | None => Err (Bare ErrNotFound)
  | Some n =>
      if decide (Notification.Recipient n <> recipient) then Err (Bare ErrNotFound)
      else Ok (Notification.Clone n)
  end.

Definition matches (n : Notification.t) (q : ListQuery.t) : bool :=
  if decide (Notification.Recipient n <> ListQuery.Recipient q) then false
  else if bool_decide (ListQuery.States q <> []) &&
          negb (contains (ListQuery.States q) (Notification.State_ n)) then false
  else if bool_decide (ListQuery.Kinds q <> []) &&
          negb (contains (ListQuery.Kinds q) (Notification.Kind n)) then false
  else if bool_decide (ListQuery.Subject q <> "") &&
          bool_decide (Notification.Subject n <> ListQuery.Subject q) then false
  else true.

Definition before (n : Notification.t) (position : CursorPosition.t) : bool :=
  if decide (Notification.CreatedAt n = CursorPosition.CreatedAt position)
  then String.ltb (Notification.ID n) (CursorPosition.ID position)
  else bool_decide (Notification.CreatedAt n < CursorPosition.CreatedAt position)%Z.

Definition newestFirst (a b : Notification.t) : comparison :=
  match Z.compare (Notification.CreatedAt b) (Notification.CreatedAt a) with
  | Eq => String.compare (Notification.ID b) (Notification.ID a)
  | c => c
  end.

Definition oldestFirst (a b : Notification.t) : comparison := CompOpp (newestFirst a b).

Section with_cursors.
Context (digest : string -> string).
Context (render : cursorPayload.t -> string) (parse : string -> option cursorPayload.t).

(** The page cut from the sorted matches. *)
Definition page_of (q : ListQuery.t) (matched : list Notification.t) : Page.t :=
  let limit := Z.to_nat (ListQuery.EffectiveLimit q) in
  if decide (limit < length matched)
  then
    let last := nth (limit - 1) matched Notification.zero in
    Page.mk (Notification.Clone <$> take limit matched)
      (EncodeCursor digest render q
         (CursorPosition.mk (Notification.CreatedAt last) (Notification.ID last)))
  else Page.mk (Notification.Clone <$> matched) "".

(** The loop over the notifications: a filter that may start beyond a position. *)
Definition selects (q : ListQuery.t) (position : option CursorPosition.t)
    (n : Notification.t) : bool :=
  if negb (matches n q) then false
  else match position with
       | Some position => before n position
       | None => true
       end.

Definition List_ (q : ListQuery.t) (s : MemoryStore.t) : res Page.t :=
  try! position := DecodeCursor digest parse q in
  let matched :=
    filter (fun n => selects q position n = true) (values (notifications s)) in
  Ok (page_of q (merge_sort (no_later newestFirst) matched)).
End with_cursors.

Definition is_active (n : Notification.t) : bool :=
  bool_decide (Notification.State_ n = StateActive).

Definition CountActive (recipient : string) (s : MemoryStore.t) : nat :=
  for_each (fun n count =>
      if bool_decide (Notification.Recipient n = recipient) && is_active n
      then S count else count)
    (values (notifications s)) 0.

(** ** Marking read *)

(** The notification the switch of [MarkRead] leaves. *)
Definition read_at (at_ : Time) (n : Notification.t) : Notification.t :=
  match Notification.State_ n with
  | StateActive =>
      let n := n <| Notification.State_ := StateRead |> in
      let n := n <| Notification.ReadAt := Some at_ |> in
      n <| Notification.InactiveAt := Some at_ |>
  | StateClosed =>
      match Notification.ReadAt n with
      | None => n <| Notification.ReadAt := Some at_ |>
      | Some _ => n
      end
  | StateRead | StateOther _ => n
  end.

Definition mark_one (at_ : Time) (id : string) (acc : nat * MemoryStore.t)
  : nat * MemoryStore.t :=
  let '(marked, s) := acc in
  let n := at_id s id in
  (if is_active n then S marked else marked,
   s <| notifications := <[id := read_at at_ n]> (notifications s) |>).

(** The check before anything is written: every identifier is the recipient's. *)
Fixpoint all_held (recipient : string) (ids : list string) (s : MemoryStore.t) : res unit :=
  match ids with
  | [] => Ok tt
  | id :: rest =>
      match notifications s !! id with
      | None => Err (Bare ErrNotFound)
      | Some n =>
          if decide (Notification.Recipient n <> recipient) then Err (Bare ErrNotFound)
          else all_held recipient rest s
      end
  end.

Definition MarkRead (recipient : string) (ids : list string) (at_ : Time)
  : SM MemoryStore.t error MarkResult.t :=
  fun s =>
    match all_held recipient ids s with
    | Err e => (Err e, s)
    | Ok _ =>
        let at_ := normalizeTime at_ in
        let '(marked, s) := for_each (mark_one at_) (sorted_distinct ids) (0, s) in
        (Ok (MarkResult.mk marked), s)
    end.

(** One turn of the loop of [MarkAllRead]. *)
Definition mark_all_one (recipient : string) (through at_ : Time)
    (entry : string * Notification.t) (acc : nat * MemoryStore.t) : nat * MemoryStore.t :=
  let '(id, n) := entry in
  let '(marked, s) := acc in
  if decide (Notification.Recipient n <> recipient \/
             Notification.State_ n <> StateActive \/
             through < Notification.CreatedAt n)%Z then acc
  else (S marked,
        s <| notifications := <[id := read_at at_ n]> (notifications s) |>).

Definition MarkAllRead (recipient : string) (through at_ : Time)
  : SM MemoryStore.t error MarkResult.t :=
  fun s =>
    let at_ := normalizeTime at_ in
    let '(marked, s) :=
      for_each (mark_all_one recipient through at_) (map_to_list (notifications s)) (0, s) in
    (Ok (MarkResult.mk marked), s).

(** ** Pruning *)

(** Whether the age bound takes a notification. *)
Definition aged (cutoff : Time) (n : Notification.t) : bool :=
  negb (is_active n) &&
  match Notification.InactiveAt n with
  | Some at_ => bool_decide (at_ < cutoff)%Z
  | None => false
  end.

Definition prune_aged_one (cutoff : Time) (n : Notification.t)
    (acc : PruneResult.t * MemoryStore.t) : PruneResult.t * MemoryStore.t :=
  let '(result, s) := acc in
  if aged cutoff n
  then (result <| PruneResult.DeletedForAge := S (PruneResult.DeletedForAge result) |>,
        remove n s)
  else acc.

(** [evict]: up to [n] of [held], in their order, of the wanted activity; the
    number removed and the state. *)
Fixpoint evict (held : list Notification.t) (n : Z) (active : bool) (removed : nat)
    (s : MemoryStore.t) : nat * MemoryStore.t :=
  match held with
  | [] => (removed, s)
  | candidate :: rest =>
      if decide (Z.of_nat removed = n) then (removed, s)
      else if Bool.eqb (is_active candidate) active
      then evict rest n active (S removed) (remove candidate s)
      else evict rest n active removed s
  end.

(** One recipient's turn in [pruneCount]. *)
Definition prune_count_one (req : PruneRequest.t)
    (byRecipient : gmap string (list Notification.t)) (recipient : string)
    (acc : PruneResult.t * MemoryStore.t) : PruneResult.t * MemoryStore.t :=
  let '(result, s) := acc in
  let held := default [] (byRecipient !! recipient) in
  let excess := (Z.of_nat (length held) - PruneRequest.MaxPerRecipient req)%Z in
  if decide (excess <= 0)%Z then acc
  else
    let held := merge_sort (no_later oldestFirst) held in
    let '(removed, s) := evict held excess false 0 s in
    let result := result <| PruneResult.DeletedForCount :=
                    PruneResult.DeletedForCount result + removed |> in
    let excess := (excess - Z.of_nat removed)%Z in
    if decide (PruneRequest.Strategy req <> EvictOldestActive \/ excess = 0%Z)
    then (result, s)
    else
      let '(removed, s) := evict held excess true 0 s in
      let result := result <| PruneResult.EvictedActive :=
                      PruneResult.EvictedActive result + removed |> in
      (result <| PruneResult.Recipients := PruneResult.Recipients result ++ [recipient] |>,
       s).

Definition pruneCount (req : PruneRequest.t) (result : PruneResult.t) (s : MemoryStore.t)
  : PruneResult.t * MemoryStore.t :=
  let byRecipient := group_by Notification.Recipient (values (notifications s)) ∅ in
  for_each (prune_count_one req byRecipient) (sorted_keys byRecipient) (result, s).

Definition prune_watermark_one (cutoff : Time) (entry : watermarkKey * watermark.t)
    (acc : PruneResult.t * MemoryStore.t) : PruneResult.t * MemoryStore.t :=
  let '(key, mark) := entry in
  let '(result, s) := acc in
  if decide (is_Some (subjects s !! key.1) \/ ~ (watermark.updatedAt mark < cutoff)%Z)
  then acc
  else (result <| PruneResult.WatermarksDeleted := S (PruneResult.WatermarksDeleted result) |>,
        s <| watermarks := delete key (watermarks s) |>).

Definition pruneWatermarks (cutoff : Time) (result : PruneResult.t) (s : MemoryStore.t)
  : PruneResult.t * MemoryStore.t :=
  for_each (prune_watermark_one cutoff) (map_to_list (watermarks s)) (result, s).

Definition Prune (req : PruneRequest.t) : SM MemoryStore.t error PruneResult.t :=
  fun s =>
    let acc := (PruneResult.zero, s) in
    let '(result, s) :=
      if decide (0 < PruneRequest.MaxAge req)%Z
      then for_each (prune_aged_one (PruneRequest.Now req - PruneRequest.MaxAge req)%Z)
             (values (notifications s)) acc
      else acc in
    let '(result, s) :=
      if decide (0 < PruneRequest.MaxPerRecipient req)%Z
      then pruneCount req result s else (result, s) in
    let '(result, s) :=
      if decide (0 < PruneRequest.WatermarkRetention req)%Z
      then pruneWatermarks (PruneRequest.Now req - PruneRequest.WatermarkRetention req)%Z
             result s
      else (result, s) in
    (Ok result, s).
