(* ===== verification/NotifyStoreFacts.v ===== *)
(** * NotifyStoreFacts: what makes the in-memory notification store correct

    [StoreOk] is the invariant of the store: the indexes by source and by
    subject list exactly the notifications held, every notification carries the
    instants its state calls for, and every occupied subject has a close record.
    For each operation the file proves that it preserves the invariant and says
    what it does to the notifications, in terms of the map alone and so without
    reference to the order the loops visit it in. *)

From S2P Require Import Prelude Domain Json Notification Collections NotifyStore.
Import MemoryStore.

(** ** The invariant *)

Record IndexOk (s : MemoryStore.t) : Prop := {
  ids_ok id n : notifications s !! id = Some n -> Notification.ID n = id;
  sources_ok k id :
    sources s !! k = Some id <->
    exists n, notifications s !! id = Some n /\ sourceKeyOf n = k;
  subjects_ok subject id :
    id ∈ ids_of s subject <->
    exists n, notifications s !! id = Some n /\ Notification.Subject n = subject;
  subjects_inhabited subject ids : subjects s !! subject = Some ids -> ids <> ∅
}.

(** The instants a notification carries in each state. *)
Definition StampsOk (n : Notification.t) : Prop :=
  match Notification.State_ n with
  | StateActive =>
      Notification.ReadAt n = None /\ Notification.ClosedAt n = None /\
      Notification.InactiveAt n = None
  | StateRead =>
      is_Some (Notification.ReadAt n) /\ Notification.ClosedAt n = None /\
      Notification.InactiveAt n = Notification.ReadAt n
  | StateClosed => is_Some (Notification.ClosedAt n) /\ is_Some (Notification.InactiveAt n)
  | StateOther _ => False
  end.

Record StoreOk (s : MemoryStore.t) : Prop := {
  store_index : IndexOk s;
  store_stamps id n : notifications s !! id = Some n -> StampsOk n;
  store_marked id n :
    notifications s !! id = Some n ->
    is_Some (watermarks s !! (Notification.Subject n, allKinds))
}.

(** A notification fit for insertion: just stamped, under a free identifier. *)
Definition Stamped (n : Notification.t) : Prop :=
  Notification.State_ n = StateActive /\ StampsOk n.

(** ** The life of one notification *)

Definition rank (s : State) : nat :=
  match s with StateOther _ => 0 | StateActive => 1 | StateRead => 2 | StateClosed => 3 end.

(** What a store operation may do to a notification it keeps: its content never
    changes, its state only moves forward, and an instant once set stays. *)
Record moves_on (n n' : Notification.t) : Prop := {
  same_ID : Notification.ID n' = Notification.ID n;
  same_Recipient : Notification.Recipient n' = Notification.Recipient n;
  same_SourceID : Notification.SourceID n' = Notification.SourceID n;
  same_Subject : Notification.Subject n' = Notification.Subject n;
  same_SubjectVersion : Notification.SubjectVersion n' = Notification.SubjectVersion n;
  same_Kind : Notification.Kind n' = Notification.Kind n;
  same_Title : Notification.Title n' = Notification.Title n;
  same_Links : Notification.Links n' = Notification.Links n;
  same_Data : Notification.Data n' = Notification.Data n;
  same_CreatedAt : Notification.CreatedAt n' = Notification.CreatedAt n;
  forward : rank (Notification.State_ n) <= rank (Notification.State_ n');
  ReadAt_stays t : Notification.ReadAt n = Some t -> Notification.ReadAt n' = Some t;
  InactiveAt_stays t :
    Notification.InactiveAt n = Some t -> Notification.InactiveAt n' = Some t;
  ClosedReason_stays :
    Notification.State_ n = StateClosed ->
    Notification.ClosedReason n' = Notification.ClosedReason n /\
    Notification.ClosedAt n' = Notification.ClosedAt n
}.

#[export] Instance moves_on_refl : Reflexive moves_on.
Proof. intros n. by constructor. Qed.

#[export] Instance moves_on_trans : Transitive moves_on.
Proof.
  intros n1 n2 n3 [? ? ? ? ? ? ? ? ? ? ? ? ? C1] [? ? ? ? ? ? ? ? ? ? F2 ? ? C2].
  constructor; try congruence; try lia; eauto.
  intros Hc. destruct (C1 Hc) as [<- <-]. apply C2.
  rewrite Hc in *. destruct (Notification.State_ n2); cbn in *; [lia|lia|done|lia].
Qed.

(** The states form a one-way street from ACTIVE. *)
Lemma never_active_again n n' :
  moves_on n n' -> StampsOk n -> Notification.State_ n <> StateActive ->
  Notification.State_ n' <> StateActive.
Proof.
  intros [? ? ? ? ? ? ? ? ? ? F ? ? ?] Hs Hn E. rewrite E in F. unfold StampsOk in Hs.
  destruct (Notification.State_ n); cbn in F; [done|lia|lia|done].
Qed.

Lemma Clone_id n : Notification.Clone n = n.
Proof. by destruct n. Qed.

Lemma Clones_id (l : list Notification.t) : Notification.Clone <$> l = l.
Proof. induction l; [done|]. cbn. by rewrite Clone_id, IHl. Qed.

Lemma closed_as_moves req at_ n : Notification.State_ n <> StateClosed ->
  moves_on n (closed_as req at_ n).
Proof.
  intros H. unfold closed_as. destruct n as [? ? ? ? ? ? st ? ? ? ? ? ra ca ia]; cbn in *.
  destruct ia; constructor; cbn; try done; destruct st; cbn; try done; lia.
Qed.

Lemma read_at_moves at_ n : StampsOk n -> moves_on n (read_at at_ n).
Proof.
  destruct n as [? ? ? ? ? ? st ? ? ? ? ? ra ca ia]. unfold StampsOk, read_at; cbn.
  destruct st; cbn; [|done| |done].
  - intros (-> & -> & ->). constructor; cbn; try done; lia.
  - intros _. destruct ra; [done|]. by constructor.
Qed.

Lemma closed_as_stamps req at_ n : StampsOk (closed_as req at_ n).
Proof.
  unfold closed_as, StampsOk. destruct n as [? ? ? ? ? ? st ? ? ? ? ? ra ca ia]; cbn.
  destruct ia; cbn; eauto.
Qed.

Lemma read_at_stamps at_ n : StampsOk n -> StampsOk (read_at at_ n).
Proof.
  destruct n as [? ? ? ? ? ? st ? ? ? ? ? ra ca ia]. unfold StampsOk, read_at; cbn.
  destruct st; cbn; [|done| |done].
  - intros (_ & -> & _). eauto.
  - intros ?. by destruct ra.
Qed.

(** ** Replacing one notification by what it becomes *)

(** Same place in every index. *)
Definition same_keys (n n' : Notification.t) : Prop :=
  Notification.ID n' = Notification.ID n /\ sourceKeyOf n' = sourceKeyOf n /\
  Notification.Subject n' = Notification.Subject n.

Lemma moves_on_keys n n' : moves_on n n' -> same_keys n n'.
Proof. intros []. unfold same_keys, sourceKeyOf. split_and!; congruence. Qed.

(** A state whose notifications are replaced, entry by entry, by notifications
    with the same keys keeps its indexes. *)
Lemma replace_index s (m : gmap string Notification.t) :
  IndexOk s ->
  (forall id, option_Forall2 same_keys (notifications s !! id) (m !! id)) ->
  IndexOk (s <| notifications := m |>).
Proof.
  intros [H1 H2 H3 H4] Hm.
  assert (Hback : forall id n', m !! id = Some n' ->
            exists n, notifications s !! id = Some n /\ same_keys n n').
  { intros id n' E. specialize (Hm id). rewrite E in Hm. inversion Hm; eauto. }
  assert (Hforth : forall id n, notifications s !! id = Some n ->
            exists n', m !! id = Some n' /\ same_keys n n').
  { intros id n E. specialize (Hm id). rewrite E in Hm. inversion Hm; eauto. }
  constructor; cbn.
  - intros id n' (n & Hn & Hk)%Hback. destruct Hk as (-> & _). by apply H1.
  - intros k id. rewrite H2. split.
    + intros (n & Hn & <-). destruct (Hforth id n Hn) as (n' & ? & ? & ? & ?). eauto.
    + intros (n' & Hn' & <-). destruct (Hback id n' Hn') as (n & ? & ? & ? & ?). eauto.
  - intros subject id. change (ids_of _ subject) with (ids_of s subject). rewrite H3. split.
    + intros (n & Hn & <-). destruct (Hforth id n Hn) as (n' & ? & ? & ? & ?). eauto.
    + intros (n' & Hn' & <-). destruct (Hback id n' Hn') as (n & ? & ? & ? & ?). eauto.
  - done.
Qed.

(** The map after a loop over [ids] that replaces each entry by [f] of it. *)
Definition revised (ids : list string) (f : Notification.t -> Notification.t)
    (m : gmap string Notification.t) : gmap string Notification.t :=
  map_imap (fun id n => Some (if bool_decide (id ∈ ids) then f n else n)) m.

Lemma lookup_revised ids f m id :
  revised ids f m !! id =
  (fun n => if bool_decide (id ∈ ids) then f n else n) <$> m !! id.
Proof. unfold revised. rewrite map_lookup_imap. by destruct (m !! id). Qed.

Lemma revised_nil f m : revised [] f m = m.
Proof.
  apply map_eq. intros id. rewrite lookup_revised.
  rewrite bool_decide_false by apply not_elem_of_nil. by destruct (m !! id).
Qed.

Lemma revised_cons ids f m id n :
  id ∉ ids -> m !! id = Some n ->
  revised ids f (<[id := f n]> m) = revised (id :: ids) f m.
Proof.
  intros Hid Hn. apply map_eq. intros j. rewrite !lookup_revised.
  destruct (decide (j = id)) as [->|Hj].
  - rewrite lookup_insert_eq, Hn. cbn. rewrite bool_decide_false by done.
    by rewrite bool_decide_true by left.
  - rewrite lookup_insert_ne by done. destruct (m !! j); [|done]. cbn. f_equal.
    destruct (decide (j ∈ ids)).
    + rewrite !bool_decide_true; [done|by right|done].
    + rewrite !bool_decide_false; [done| |done]. set_solver.
Qed.

(** A loop whose turn at [x] replaces the entry [key x] by [f] of it and tallies
    [h], over distinct entries of the store. *)
Lemma loop_revises {X A} (key : X -> string) (f : Notification.t -> Notification.t)
    (h : Notification.t -> A -> A) (step : X -> A * MemoryStore.t -> A * MemoryStore.t) l a s :
  NoDup (key <$> l) ->
  (forall x, x ∈ l -> is_Some (notifications s !! key x)) ->
  (forall x a s' n, x ∈ l -> notifications s !! key x = Some n ->
     notifications s' !! key x = Some n ->
     step x (a, s') = (h n a, s' <| notifications := <[key x := f n]> (notifications s') |>)) ->
  for_each step l (a, s) =
  (for_each h ((fun x => at_id s (key x)) <$> l) a,
   s <| notifications := revised (key <$> l) f (notifications s) |>).
Proof.
  intros Hl Hd Hstep.
  assert (Hloop : forall l', (forall x, x ∈ l' -> x ∈ l) -> NoDup (key <$> l') ->
    forall a s', (forall x, x ∈ l' -> notifications s' !! key x = notifications s !! key x) ->
    for_each step l' (a, s') =
    (for_each h ((fun x => at_id s (key x)) <$> l') a,
     s' <| notifications := revised (key <$> l') f (notifications s') |>)).
  { induction l' as [|x l' IH]; intros Hin Hnd b s' Heq; cbn [for_each fmap list_fmap].
    { rewrite revised_nil. by destruct s'. }
    apply NoDup_cons in Hnd as [Hx Hnd].
    destruct (Hd x) as [n Hn]; [apply Hin; left|].
    assert (Hn' : notifications s' !! key x = Some n) by (rewrite Heq; [done|left]).
    rewrite (Hstep x b s' n); [|apply Hin; left|done|done].
    rewrite IH; [| |done|].
    - cbn. rewrite revised_cons by done. unfold at_id. rewrite Hn. done.
    - intros y Hy. apply Hin. by right.
    - intros y Hy. cbn. rewrite lookup_insert_ne.
      + apply Heq. by right.
      + intros E. apply Hx. rewrite E. by apply list_elem_of_fmap_2. }
  apply Hloop; auto.
Qed.

(** A tally that counts what a test accepts. *)
Lemma tally_length {X} (P : X -> bool) (l : list X) (n : nat) :
  for_each (fun x n => if P x then S n else n) l n = n + length (filter (fun x => P x = true) l).
Proof.
  revert n. induction l as [|x l IH]; cbn [for_each]; intros n; [cbn; lia|].
  rewrite filter_cons, IH. destruct (P x); cbn.
  - destruct (decide (true = true)); [cbn; lia|done].
  - destruct (decide (false = true)); [done|lia].
Qed.

(** Replacing notifications by what they move on to keeps the invariant. *)
Lemma revised_ok s ids f :
  StoreOk s ->
  (forall id n, id ∈ ids -> notifications s !! id = Some n ->
     moves_on n (f n) /\ StampsOk (f n)) ->
  StoreOk (s <| notifications := revised ids f (notifications s) |>).
Proof.
  intros [Hi Hs Hm] Hf. constructor.
  - apply replace_index; [done|]. intros id. rewrite lookup_revised.
    destruct (notifications s !! id) as [n|] eqn:E; cbn; constructor.
    destruct (decide (id ∈ ids)).
    + rewrite bool_decide_true by done. by apply moves_on_keys, (Hf id).
    + rewrite bool_decide_false by done. by apply moves_on_keys.
  - intros id n. cbn. rewrite lookup_revised. intros (n0 & E & ->)%fmap_Some; cbv beta.
    destruct (decide (id ∈ ids)).
    + rewrite bool_decide_true by done. by apply (Hf id).
    + rewrite bool_decide_false by done. by apply (Hs id).
  - intros id n. cbn. rewrite lookup_revised. intros (n0 & E & ->)%fmap_Some; cbv beta.
    destruct (decide (id ∈ ids)).
    + rewrite bool_decide_true by done. destruct (Hf id n0) as [[] _]; [done..|].
      rewrite same_Subject0. by apply (Hm id).
    + rewrite bool_decide_false by done. by apply (Hm id).
Qed.

(** ** Indexing and removing *)

Lemma ids_of_insert s subject ids subject' :
  ids_of (s <| subjects := <[subject := ids]> (subjects s) |>) subject' =
  if decide (subject = subject') then ids else ids_of s subject'.
Proof.
  unfold ids_of. cbn. destruct (decide (subject = subject')) as [->|?].
  - by rewrite lookup_insert_eq.
  - by rewrite lookup_insert_ne.
Qed.

Lemma put_index n s :
  IndexOk s -> notifications s !! Notification.ID n = None ->
  sources s !! sourceKeyOf n = None -> IndexOk (put n s).
Proof.
  intros [H1 H2 H3 H4] Hid Hsrc. unfold put.
  change (ids_of _ (Notification.Subject n)) with (ids_of s (Notification.Subject n)).
  constructor; cbn.
  - intros id n'. rewrite lookup_insert_Some. naive_solver.
  - intros k id. rewrite lookup_insert_Some, H2. setoid_rewrite lookup_insert_Some.
    split; [naive_solver|].
    intros (n' & [[<- <-]|[Hne Hn']] & <-); [by left|]. right. split; [|eauto].
    intros E. assert (sources s !! sourceKeyOf n' = Some id) by (apply H2; eauto).
    rewrite E in Hsrc. congruence.
  - intros subject id. setoid_rewrite lookup_insert_Some.
    unfold ids_of at 1. cbn.
    destruct (decide (Notification.Subject n = subject)) as [<-|?].
    + rewrite lookup_insert_eq. cbn. rewrite elem_of_union, elem_of_singleton, H3.
      split; [|naive_solver].
      intros [->|(n' & Hn' & <-)]; [by eauto|]. exists n'. split; [|done]. right.
      split; [|done]. intros <-. congruence.
    + rewrite lookup_insert_ne by done. fold (ids_of s subject). rewrite H3.
      split; [|naive_solver]. intros (n' & Hn' & <-). exists n'. split; [|done]. right.
      split; [|done]. intros <-. congruence.
  - intros subject ids. rewrite lookup_insert_Some. intros [[_ <-]|[_ H]]; [set_solver|eauto].
Qed.

Lemma remove_index n s :
  IndexOk s -> notifications s !! Notification.ID n = Some n -> IndexOk (remove n s).
Proof.
  intros [H1 H2 H3 H4] Hn. unfold remove.
  change (ids_of _ (Notification.Subject n)) with (ids_of s (Notification.Subject n)).
  constructor; cbn.
  - intros id n'. rewrite lookup_delete_Some. naive_solver.
  - intros k id. rewrite lookup_delete_Some, H2. setoid_rewrite lookup_delete_Some.
    split.
    + intros (Hk & n' & Hn' & <-). exists n'. split_and!; [|done..]. intros <-. congruence.
    + intros (n' & [Hne Hn'] & <-). split; [|eauto]. intros E.
      assert (E1 : sources s !! sourceKeyOf n' = Some id) by (apply H2; eauto).
      assert (E2 : sources s !! sourceKeyOf n = Some (Notification.ID n)) by (apply H2; eauto).
      congruence.
  - intros subject id. setoid_rewrite lookup_delete_Some.
    assert (E : id ∈ ids_of s subject /\ id <> Notification.ID n <->
                exists n', (Notification.ID n <> id /\ notifications s !! id = Some n') /\
                           Notification.Subject n' = subject).
    { rewrite H3. naive_solver. }
    rewrite <- E. unfold ids_of at 1. cbn.
    destruct (decide (Notification.Subject n = subject)) as [<-|?].
    + case_decide as Hempty.
      * rewrite lookup_delete_eq. cbn. set_solver.
      * rewrite lookup_insert_eq. cbn. set_solver.
    + assert (Hsame : default ∅ ((if decide (ids_of s (Notification.Subject n)
                ∖ {[Notification.ID n]} = ∅)
              then delete (Notification.Subject n) (subjects s)
              else <[Notification.Subject n := ids_of s (Notification.Subject n)
                ∖ {[Notification.ID n]}]> (subjects s)) !! subject) = ids_of s subject).
      { case_decide; [by rewrite lookup_delete_ne|by rewrite lookup_insert_ne]. }
      rewrite Hsame. split; [|tauto]. intros Hid. split; [done|]. intros ->.
      apply H3 in Hid as (n' & Hn' & ?). congruence.
  - intros subject ids. case_decide as Hempty.
    + rewrite lookup_delete_Some. intros [_ H]. eauto.
    + rewrite lookup_insert_Some. intros [[_ <-]|[_ H]]; eauto.
Qed.

Lemma remove_ok n s :
  StoreOk s -> notifications s !! Notification.ID n = Some n -> StoreOk (remove n s).
Proof.
  intros [Hi Hs Hm] Hn. constructor; [by apply remove_index|..]; unfold remove; cbn;
    intros id n' [_ ?]%lookup_delete_Some; eauto.
Qed.

(** ** Watermarks *)

(** The version of a close record, an absent one counting as -1. *)
Definition mark_of (s : MemoryStore.t) (key : watermarkKey) : Z :=
  match watermarks s !! key with Some mark => watermark.version mark | None => -1 end.

Lemma floor_marks s subject kind :
  floor s subject kind =
  Z.max (Z.max (-1) (mark_of s (subject, kind))) (mark_of s (subject, allKinds)).
Proof.
  assert (E : forall a b : Z, (if decide (a < b)%Z then b else a) = Z.max a b).
  { intros a b. case_decide; lia. }
  unfold floor, mark_of. cbn.
  destruct (watermarks s !! (subject, kind)), (watermarks s !! (subject, allKinds));
    rewrite ?E; lia.
Qed.

Lemma ensureWatermark_mark key at_ s key' :
  mark_of (ensureWatermark key at_ s) key' = mark_of s key'.
Proof.
  unfold mark_of, ensureWatermark. destruct (watermarks s !! key) eqn:E; [done|]. cbn.
  destruct (decide (key = key')) as [->|?].
  - by rewrite lookup_insert_eq, E.
  - by rewrite lookup_insert_ne.
Qed.

Lemma ensureWatermark_grows key at_ s key' :
  is_Some (watermarks s !! key') -> is_Some (watermarks (ensureWatermark key at_ s) !! key').
Proof.
  unfold ensureWatermark. destruct (watermarks s !! key) eqn:E; [done|]. cbn.
  rewrite lookup_insert_is_Some. destruct (decide (key = key')); auto.
Qed.

Lemma ensureWatermark_has key at_ s :
  is_Some (watermarks (ensureWatermark key at_ s) !! key).
Proof.
  unfold ensureWatermark. destruct (watermarks s !! key) eqn:E; [by rewrite E|]. cbn.
  by rewrite lookup_insert_eq.
Qed.

Lemma raise_watermark_mark version at_ key s key' :
  (-1 <= version)%Z ->
  mark_of (raise_watermark version at_ key s) key' =
  if decide (key = key') then Z.max (mark_of s key) version else mark_of s key'.
Proof.
  intros Hv. unfold mark_of, raise_watermark. cbn.
  destruct (decide (key = key')) as [->|?]; [|by rewrite lookup_insert_ne].
  rewrite lookup_insert_eq. destruct (watermarks s !! key') as [mark|] eqn:E; cbn.
  - destruct (bool_decide (watermark.version mark < version)%Z) eqn:Hb; cbn.
    + apply bool_decide_eq_true in Hb. lia.
    + apply bool_decide_eq_false in Hb. lia.
  - lia.
Qed.

(** Only the watermarks differ. *)
Definition same_but_marks (s s' : MemoryStore.t) : Prop :=
  notifications s' = notifications s /\ sources s' = sources s /\
  subjects s' = subjects s /\ deliveries s' = deliveries s.

Lemma ensureWatermark_rest key at_ s : same_but_marks s (ensureWatermark key at_ s).
Proof. unfold ensureWatermark. by destruct (watermarks s !! key). Qed.

Lemma same_but_marks_index s s' : same_but_marks s s' -> IndexOk s -> IndexOk s'.
Proof.
  intros (E1 & E2 & E3 & _) [H1 H2 H3 H4].
  assert (Hids : forall subject, ids_of s' subject = ids_of s subject).
  { intros subject. unfold ids_of. by rewrite E3. }
  constructor.
  - by rewrite E1.
  - intros k id. rewrite E2, E1. apply H2.
  - intros subject id. rewrite Hids, E1. apply H3.
  - by rewrite E3.
Qed.

(** ** Publishing *)

Definition restamp (subject : string) (insertion : Insertion.t) : Notification.t :=
  (Insertion.Notification_ insertion) <| Notification.Subject := subject |>.

Definition open_for (s : MemoryStore.t) (recipient subject kind : string) : Prop :=
  exists id n, notifications s !! id = Some n /\ Notification.Subject n = subject /\
    Notification.Recipient n = recipient /\ Notification.Kind n = kind /\
    Notification.State_ n <> StateClosed.

Lemma hasOpen_spec s recipient subject kind : IndexOk s ->
  hasOpen s recipient subject kind = true <-> open_for s recipient subject kind.
Proof.
  intros [H1 H2 H3 H4]. unfold hasOpen, open_for. rewrite existsb_exists.
  setoid_rewrite <- list_elem_of_In. setoid_rewrite elem_of_elements.
  setoid_rewrite H3. setoid_rewrite andb_true_iff. setoid_rewrite andb_true_iff.
  setoid_rewrite bool_decide_eq_true. split.
  - intros (id & (n & Hn & Hs) & (Hr & Hk) & Ho). unfold at_id in *. rewrite Hn in *.
    by exists id, n.
  - intros (id & n & Hn & Hs & Hr & Hk & Ho). exists id. unfold at_id. rewrite Hn.
    eauto 10.
Qed.

(** Why an insertion creates nothing: its version is below the subject's
    watermark, an open notification absorbs it, or its source has already
    notified its recipient. *)
Definition absorbed (s : MemoryStore.t) (subject : string) (insertion : Insertion.t) : Prop :=
  let n := restamp subject insertion in
  (Notification.SubjectVersion n < floor s subject (Notification.Kind n))%Z \/
  (Insertion.Coalesce insertion = true /\
   open_for s (Notification.Recipient n) subject (Notification.Kind n)) \/
  (exists id n', notifications s !! id = Some n' /\ sourceKeyOf n' = sourceKeyOf n).

(** Every insertion seen so far, however it ended. *)
Definition handled (r : InsertResult.t) : nat :=
  length (InsertResult.Created r) + InsertResult.Duplicates r +
  InsertResult.Suppressed r + InsertResult.Coalesced r.

Lemma source_held s n : IndexOk s ->
  is_Some (sources s !! sourceKeyOf n) <->
  exists id n', notifications s !! id = Some n' /\ sourceKeyOf n' = sourceKeyOf n.
Proof.
  intros H. split.
  - intros [id Hid]. apply (sources_ok s H) in Hid as (n' & ? & ?). eauto.
  - intros (id & n' & Hn & Hk). exists id. apply (sources_ok s H). eauto.
Qed.

(** One turn of the loop either leaves the store alone or creates. *)
Lemma insert_one_cases subject insertion r s : IndexOk s ->
  (absorbed s subject insertion /\
   exists r', insert_one subject insertion (r, s) = (r', s) /\
     InsertResult.Created r' = InsertResult.Created r /\ handled r' = S (handled r)) \/
  (~ absorbed s subject insertion /\
   let n := restamp subject insertion in
   insert_one subject insertion (r, s) =
     (r <| InsertResult.Created := InsertResult.Created r ++ [n] |>,
      ensureWatermark (subject, allKinds) (Notification.CreatedAt n) (put n s))).
Proof.
  intros Hi. unfold insert_one, absorbed. fold (restamp subject insertion).
  set (n := restamp subject insertion). rewrite Clone_id.
  destruct (decide _) as [Hlow|Hlow].
  { left. split; [by left|]. eexists. split; [done|]. split; [done|].
    unfold handled. cbn. lia. }
  pose proof (hasOpen_spec s (Notification.Recipient n) subject (Notification.Kind n) Hi) as Hopen.
  destruct (Insertion.Coalesce insertion && _) eqn:Hc.
  { apply andb_true_iff in Hc as [Hc Ho]. left. split; [right; left; tauto|].
    eexists. split; [done|]. split; [done|]. unfold handled. cbn. lia. }
  pose proof (source_held s n Hi) as Hsrc.
  destruct (sources s !! sourceKeyOf n) as [id|] eqn:E.
  { left. split; [right; right; apply Hsrc; eauto|].
    eexists. split; [done|]. split; [done|]. unfold handled. cbn. lia. }
  right. split; [|done]. intros [?|[[Hc1 Ho]|Hs]]; [done|..].
  - apply andb_false_iff in Hc as [Hc|Hc]; [congruence|]. apply Hopen in Ho. congruence.
  - apply Hsrc in Hs as [? [=]].
Qed.

(** A store that has everything another has: what publishing leads to. *)
Record grows (s s' : MemoryStore.t) : Prop := {
  grows_notifications : notifications s ⊆ notifications s';
  grows_marks key : mark_of s' key = mark_of s key;
  grows_deliveries : deliveries s' = deliveries s
}.

#[export] Instance grows_preorder : PreOrder grows.
Proof.
  split.
  - intros s. by constructor.
  - intros s1 s2 s3 [? M1 D1] [? M2 D2]. constructor; [by etrans|..].
    + intros key. by rewrite M2.
    + by rewrite D2.
Qed.

Lemma absorbed_grows s s' subject insertion :
  grows s s' -> absorbed s subject insertion -> absorbed s' subject insertion.
Proof.
  intros [Hn Hm _]. unfold absorbed, open_for. rewrite !floor_marks, !Hm.
  assert (Hl : forall id n, notifications s !! id = Some n -> notifications s' !! id = Some n).
  { intros id n H. by eapply lookup_weaken. }
  intros [?|[(? & id & n & ? & ?)|(id & n & ? & ?)]]; [by left|..]; right; [left|right]; eauto 10.
Qed.

(** What the service guarantees of what it inserts: stamped notifications under
    distinct identifiers the store does not hold. *)
Record Fit (s : MemoryStore.t) (insertions : list Insertion.t) : Prop := {
  fit_stamped insertion : insertion ∈ insertions -> Stamped (Insertion.Notification_ insertion);
  fit_distinct : NoDup ((fun i => Notification.ID (Insertion.Notification_ i)) <$> insertions);
  fit_free insertion : insertion ∈ insertions ->
    notifications s !! Notification.ID (Insertion.Notification_ insertion) = None
}.

Lemma put_grows s n at_ subject :
  notifications s !! Notification.ID n = None ->
  grows s (ensureWatermark (subject, allKinds) at_ (put n s)).
Proof.
  intros Hid.
  destruct (ensureWatermark_rest (subject, allKinds) at_ (put n s)) as (E & _ & _ & D).
  constructor.
  - rewrite E. cbn. by apply insert_subseteq.
  - intros key. by rewrite ensureWatermark_mark.
  - by rewrite D.
Qed.

Lemma put_ok s n subject :
  StoreOk s -> Stamped n -> Notification.Subject n = subject ->
  notifications s !! Notification.ID n = None -> sources s !! sourceKeyOf n = None ->
  StoreOk (ensureWatermark (subject, allKinds) (Notification.CreatedAt n) (put n s)).
Proof.
  intros [Hi Hs Hm] [_ Hn] Hsub Hid Hsrc.
  pose proof (ensureWatermark_rest (subject, allKinds) (Notification.CreatedAt n) (put n s)) as R.
  constructor.
  - eapply same_but_marks_index; [done|]. by apply put_index.
  - destruct R as (-> & _). intros id n'. cbn. rewrite lookup_insert_Some.
    intros [[_ <-]|[_ ?]]; eauto.
  - pose proof R as (-> & _). intros id n'. cbn. rewrite lookup_insert_Some.
    intros [[_ <-]|[_ Hn']].
    + rewrite Hsub. apply ensureWatermark_has.
    + apply ensureWatermark_grows. cbn. eauto.
Qed.

Lemma Stamped_restamp subject insertion :
  Stamped (Insertion.Notification_ insertion) -> Stamped (restamp subject insertion).
Proof. by unfold Stamped, StampsOk, restamp. Qed.

(** One turn on a store in order, with a notification fit for it. *)
Lemma insert_one_ok subject insertion r s :
  StoreOk s -> Stamped (Insertion.Notification_ insertion) ->
  notifications s !! Notification.ID (Insertion.Notification_ insertion) = None ->
  let out := insert_one subject insertion (r, s) in
  StoreOk out.2 /\ grows s out.2 /\ handled out.1 = S (handled r) /\
  absorbed out.2 subject insertion /\
  ((absorbed s subject insertion /\ out.2 = s /\
    InsertResult.Created out.1 = InsertResult.Created r) \/
   (~ absorbed s subject insertion /\
    notifications out.2 =
      <[Notification.ID (restamp subject insertion) := restamp subject insertion]>
        (notifications s) /\
    InsertResult.Created out.1 = InsertResult.Created r ++ [restamp subject insertion])).
Proof.
  intros Hok Hst Hfree.
  destruct (insert_one_cases subject insertion r s (store_index s Hok))
    as [(Ha & r' & -> & Hc & Hh)|(Ha & ->)]; cbv zeta; cbn [fst snd].
  { split_and!; auto. done. }
  pose proof (Stamped_restamp subject insertion Hst) as Hst'.
  set (n := restamp subject insertion) in *.
  assert (Hsrc : sources s !! sourceKeyOf n = None).
  { apply eq_None_not_Some. intros Hs. apply Ha. right; right.
    by apply (source_held s n (store_index s Hok)). }
  pose proof (put_grows s n (Notification.CreatedAt n) subject Hfree) as Hg.
  split_and!; [exact (put_ok s n subject Hok Hst' eq_refl Hfree Hsrc)|done| | |].
  - unfold handled. cbn. rewrite length_app. cbn. lia.
  - right; right. exists (Notification.ID n), n. split; [|done].
    destruct (ensureWatermark_rest (subject, allKinds) (Notification.CreatedAt n) (put n s))
      as (-> & _). apply lookup_insert_eq.
  - right. split; [done|]. split; [|done].
    by destruct (ensureWatermark_rest (subject, allKinds) (Notification.CreatedAt n) (put n s))
      as (-> & _).
Qed.

Definition by_id (l : list Notification.t) : gmap string Notification.t :=
  list_to_map ((fun n => (Notification.ID n, n)) <$> l).

(** After a turn the rest is still fit. *)
Lemma Fit_next subject insertion l r s :
  StoreOk s -> Fit s (insertion :: l) -> Fit (insert_one subject insertion (r, s)).2 l.
Proof.
  intros Hok [Hst Hnd Hfree]. apply NoDup_cons in Hnd as [Hid Hnd].
  pose proof (insert_one_ok subject insertion r s Hok (Hst _ (list_elem_of_here _ _))
                (Hfree _ (list_elem_of_here _ _))) as (_ & _ & _ & _ & Hcase).
  destruct (insert_one subject insertion (r, s)) as [r1 s1]. cbn in *.
  constructor; [|done|].
  - intros i Hi. apply Hst. by right.
  - intros i Hi. destruct Hcase as [(_ & -> & _)|(_ & -> & _)].
    + apply Hfree. by right.
    + rewrite lookup_insert_ne; [apply Hfree; by right|]. intros E. apply Hid. cbn in E.
      rewrite E. by apply (list_elem_of_fmap_2 (fun i => Notification.ID (Insertion.Notification_ i))).
Qed.

(** What is held after the loop was held, or is an insertion the store had not
    absorbed. *)
Lemma insert_loop_held subject l r s id n :
  StoreOk s -> Fit s l ->
  notifications (for_each (insert_one subject) l (r, s)).2 !! id = Some n ->
  notifications s !! id = Some n \/
  exists i, i ∈ l /\ n = restamp subject i /\ ~ absorbed s subject i.
Proof.
  revert r s. induction l as [|insertion l IH]; intros r s Hok Hfit; cbn [for_each]; [by left|].
  pose proof (Fit_next subject insertion l r s Hok Hfit) as Hfit1.
  pose proof (insert_one_ok subject insertion r s Hok (fit_stamped _ _ Hfit _ (list_elem_of_here _ _))
                (fit_free _ _ Hfit _ (list_elem_of_here _ _))) as (Hok1 & Hg1 & _ & _ & Hcase).
  destruct (insert_one subject insertion (r, s)) as [r1 s1]. cbn [fst snd] in *.
  intros [Hid|(i & Hi & -> & Ha)]%IH; [|right|done..].
  2: { exists i. split_and!; [by right|done|]. intros Habs. apply Ha. by eapply absorbed_grows. }
  destruct Hcase as [(_ & -> & _)|(Habs & Hn1 & _)]; [by left|].
  rewrite Hn1 in Hid. apply lookup_insert_Some in Hid as [[_ <-]|[_ Hid]]; [right|by left].
  exists insertion. split_and!; [left|done|done].
Qed.

(** The whole loop: the store stays in order and only grows; every insertion is
    counted once and is absorbed by what the store then holds; what was created
    is what was stored, a selection of what was given, in its order. *)
Lemma insert_loop subject l r s :
  StoreOk s -> Fit s l ->
  let out := for_each (insert_one subject) l (r, s) in
  StoreOk out.2 /\ grows s out.2 /\ handled out.1 = handled r + length l /\
  (forall insertion, insertion ∈ l -> absorbed out.2 subject insertion) /\
  exists new,
    InsertResult.Created out.1 = InsertResult.Created r ++ new /\
    sublist new (restamp subject <$> l) /\
    notifications out.2 = by_id new ∪ notifications s /\
    (forall n, n ∈ new -> (floor s subject (Notification.Kind n) <=
                           Notification.SubjectVersion n)%Z).
Proof.
  revert r s. induction l as [|insertion l IH]; intros r s Hok Hfit; cbn [for_each].
  { split_and!; [done|done|cbn; lia|set_solver|]. exists []. rewrite app_nil_r.
    split_and!; [done|apply sublist_nil_l|by unfold by_id; cbn; rewrite (left_id_L ∅ (∪))|set_solver]. }
  pose proof (Fit_next subject insertion l r s Hok Hfit) as Hfit1. destruct Hfit as [Hst Hnd Hfree].
  apply NoDup_cons in Hnd as [Hid Hnd].
  pose proof (insert_one_ok subject insertion r s Hok (Hst _ (list_elem_of_here _ _))
                (Hfree _ (list_elem_of_here _ _))) as (Hok1 & Hg1 & Hh1 & Ha1 & Hcase).
  destruct (insert_one subject insertion (r, s)) as [r1 s1]. cbn in Hok1, Hg1, Hh1, Ha1, Hcase, Hfit1.
  destruct (IH r1 s1 Hok1 Hfit1) as (Hok2 & Hg2 & Hh2 & Ha2 & new & Hc & Hsub & Hn & Hv).
  split_and!; [done|by etrans|rewrite Hh2, Hh1; cbn; lia| |].
  { intros i [->|Hi]%elem_of_cons; [by eapply absorbed_grows|by apply Ha2]. }
  assert (Hf : forall kind, floor s1 subject kind = floor s subject kind).
  { intros kind. by rewrite !floor_marks, !(grows_marks _ _ Hg1). }
  destruct Hcase as [(_ & -> & Hc1)|(Habs & Hn1 & Hc1)].
  - exists new. rewrite <- Hc1. split_and!; [done| |done|done].
    cbn. by apply sublist_cons.
  - exists (restamp subject insertion :: new). rewrite Hc, Hc1, <- (assoc_L (++)).
    split_and!; [done| | |].
    + cbn. by apply sublist_skip.
    + rewrite Hn, Hn1. unfold by_id. cbn. rewrite <- insert_union_l, insert_union_r; [done|].
      apply not_elem_of_list_to_map_1.
      rewrite <- list_fmap_compose. intros (n & E & Hin)%list_elem_of_fmap.
      eapply elem_of_sublist in Hin; [|done].
      apply list_elem_of_fmap in Hin as (i & -> & Hi). apply Hid. cbn in E. rewrite E.
      by apply (list_elem_of_fmap_2 (fun i => Notification.ID (Insertion.Notification_ i))).
    + intros n [->|Hin]%elem_of_cons.
      * unfold absorbed in Habs. cbv zeta in Habs. lia.
      * rewrite <- Hf. by apply Hv.
Qed.

(** A second delivery of the same publication: the source, recipient, kind,
    version and coalescing of each insertion are the first's. *)
Definition same_publication (i j : Insertion.t) : Prop :=
  let n := Insertion.Notification_ i in
  let n' := Insertion.Notification_ j in
  sourceKeyOf n' = sourceKeyOf n /\ Notification.Kind n' = Notification.Kind n /\
  Notification.SubjectVersion n' = Notification.SubjectVersion n /\
  Insertion.Coalesce j = Insertion.Coalesce i.

Lemma absorbed_same s subject i j :
  same_publication i j -> absorbed s subject i -> absorbed s subject j.
Proof.
  unfold same_publication, absorbed, sourceKeyOf, restamp. cbn.
  intros ([= E1 E2] & -> & -> & ->). by rewrite E1, E2.
Qed.

(** What is absorbed leaves the store as it is. *)
Lemma absorbed_loop subject l r s :
  IndexOk s -> (forall insertion, insertion ∈ l -> absorbed s subject insertion) ->
  exists r', for_each (insert_one subject) l (r, s) = (r', s) /\
    InsertResult.Created r' = InsertResult.Created r /\ handled r' = handled r + length l.
Proof.
  intros Hi. revert r. induction l as [|i l IH]; intros r Ha; cbn [for_each].
  { exists r. cbn. eauto with lia. }
  destruct (insert_one_cases subject i r s Hi) as [(_ & r1 & -> & Hc & Hh)|[Hn _]].
  - destruct (IH r1) as (r2 & -> & Hc2 & Hh2); [intros j Hj; apply Ha; by right|].
    exists r2. split; [done|]. rewrite Hc2, Hh2, Hc, Hh. cbn. split; [done|lia].
  - destruct Hn. apply Ha. left.
Qed.

(** ** Closing *)

Lemma values_NoDup_ids s : IndexOk s ->
  NoDup (Notification.ID <$> values (notifications s)).
Proof.
  intros H. unfold values. rewrite <- list_fmap_compose.
  assert (E : (Notification.ID ∘ snd) <$> map_to_list (notifications s) =
              (map_to_list (notifications s)).*1).
  { apply list_fmap_ext. intros i [id n] Hin. cbn.
    apply (ids_ok s H). apply elem_of_map_to_list. by eapply list_elem_of_lookup_2. }
  rewrite E. apply NoDup_fst_map_to_list.
Qed.

Lemma values_NoDup s : IndexOk s -> NoDup (values (notifications s)).
Proof. intros H. by apply (NoDup_fmap_1 Notification.ID), values_NoDup_ids. Qed.

(** A subject's index lists the notifications on it. *)
Lemma subject_values s subject : IndexOk s ->
  at_id s <$> elements (ids_of s subject) ≡ₚ
  filter (fun n => Notification.Subject n = subject) (values (notifications s)).
Proof.
  intros H. apply NoDup_Permutation.
  - apply NoDup_fmap_2_strong; [|apply NoDup_elements].
    intros x y [n [Hx _]]%elem_of_elements%(subjects_ok s H)
      [m [Hy _]]%elem_of_elements%(subjects_ok s H).
    unfold at_id. rewrite Hx, Hy. cbn. intros ->.
    by rewrite <- (ids_ok s H x m Hx), (ids_ok s H y m Hy).
  - by apply NoDup_filter, values_NoDup.
  - intros n. rewrite list_elem_of_fmap, list_elem_of_filter, elem_of_values.
    setoid_rewrite elem_of_elements. setoid_rewrite (subjects_ok s H). split.
    + intros (id & -> & m & Hm & Hs). unfold at_id. rewrite Hm. cbn. eauto.
    + intros (Hs & id & Hn). exists id. unfold at_id. rewrite Hn. cbn. eauto.
Qed.

(** The notifications a close closes. *)
Definition closes (req : CloseRequest.t) (n : Notification.t) : bool :=
  bool_decide (Notification.Subject n = CloseRequest.Subject req) && negb (spared req n).

Definition closed_map (req : CloseRequest.t) (at_ : Time) (m : gmap string Notification.t)
  : gmap string Notification.t :=
  (fun n => if closes req n then closed_as req at_ n else n) <$> m.

Definition closing (req : CloseRequest.t) (s : MemoryStore.t) : list Notification.t :=
  filter (fun n => closes req n = true) (values (notifications s)).

(** The tally of the loop: a count and a set, whatever the order. *)
Lemma close_tally req (l : list Notification.t) c R :
  for_each (fun n (a : nat * gset string) =>
      if spared req n then a
      else (S a.1, {[Notification.Recipient n]} ∪ a.2)) l (c, R) =
  (c + length (filter (fun n => spared req n = false) l),
   list_to_set (Notification.Recipient <$> filter (fun n => spared req n = false) l) ∪ R).
Proof.
  revert c R. induction l as [|n l IH]; intros c R; cbn [for_each].
  { cbn. f_equal; [lia|set_solver]. }
  rewrite filter_cons. destruct (spared req n) eqn:E; cbn [fst snd].
  - destruct (decide (true = false)); [done|]. apply IH.
  - destruct (decide (false = false)); [|done]. rewrite IH. cbn. f_equal; [lia|set_solver].
Qed.

Lemma raise_all_rest version at_ keys s :
  same_but_marks s (for_each (raise_watermark version at_) keys s).
Proof.
  apply (for_each_inv (same_but_marks s)); [done|].
  intros key s' _ (E1 & E2 & E3 & E4). done.
Qed.

Lemma raise_all_mark version at_ keys s key : (-1 <= version)%Z ->
  mark_of (for_each (raise_watermark version at_) keys s) key =
  if decide (key ∈ keys) then Z.max (mark_of s key) version else mark_of s key.
Proof.
  intros Hv. revert s. induction keys as [|k keys IH]; intros s; cbn [for_each].
  { destruct (decide _) as [H|]; [by apply elem_of_nil in H|done]. }
  rewrite IH, raise_watermark_mark by done.
  destruct (decide (k = key)) as [->|?], (decide (key ∈ keys)), (decide (key ∈ _ :: keys));
    try lia; set_solver.
Qed.

Lemma raise_watermark_grows version at_ key s key' :
  is_Some (watermarks s !! key') ->
  is_Some (watermarks (raise_watermark version at_ key s) !! key').
Proof.
  intros H. unfold raise_watermark. cbn. rewrite lookup_insert_is_Some.
  destruct (decide (key = key')); auto.
Qed.

(** What the watermarks and the loop of a close do, in terms of the map alone. *)
Lemma close_subject_outcome req at_ s :
  StoreOk s -> (-1 <= CloseRequest.Version req)%Z ->
  let out := close_subject req at_ s in
  out.1.1 = length (closing req s) /\
  sort_strings (elements out.1.2) =
    sorted_distinct (Notification.Recipient <$> closing req s) /\
  StoreOk out.2 /\
  notifications out.2 = closed_map req at_ (notifications s) /\
  deliveries out.2 = deliveries s /\
  (forall key, mark_of out.2 key =
     if decide (key ∈ close_keys req)
     then Z.max (mark_of s key) (CloseRequest.Version req) else mark_of s key).
Proof.
  intros Hok Hv. unfold close_subject.
  set (s1 := for_each _ (close_keys req) _).
  pose proof (ensureWatermark_rest (CloseRequest.Subject req, allKinds) at_ s) as R0.
  pose proof (raise_all_rest (CloseRequest.Version req) at_ (close_keys req)
                (ensureWatermark (CloseRequest.Subject req, allKinds) at_ s)) as R1.
  fold s1 in R1.
  assert (R : same_but_marks s s1).
  { destruct R0 as (? & ? & ? & ?), R1 as (? & ? & ? & ?). split_and!; congruence. }
  assert (Hmark : forall key, mark_of s1 key =
     if decide (key ∈ close_keys req)
     then Z.max (mark_of s key) (CloseRequest.Version req) else mark_of s key).
  { intros key. unfold s1. by rewrite raise_all_mark, ensureWatermark_mark. }
  assert (Hok1 : StoreOk s1).
  { pose proof R as (En & _). destruct Hok as [Hi Hs Hm]. constructor.
    - by eapply same_but_marks_index.
    - by rewrite En.
    - rewrite En. intros id n Hn. unfold s1.
      apply (for_each_inv (fun s' => is_Some (watermarks s' !! (Notification.Subject n, allKinds)))).
      + apply ensureWatermark_grows. by eapply Hm.
      + intros key s' _. apply raise_watermark_grows. }
  assert (Hids : ids_of s1 (CloseRequest.Subject req) = ids_of s (CloseRequest.Subject req)).
  { unfold ids_of. by destruct R as (_ & _ & -> & _). }
  set (f n := if spared req n then n else closed_as req at_ n).
  set (h n (a : nat * gset string) :=
    if spared req n then a else (S a.1, {[Notification.Recipient n]} ∪ a.2)).
  rewrite (loop_revises (fun id => id) f h).
  2: { rewrite list_fmap_id. apply NoDup_elements. }
  2: { intros id Hid%elem_of_elements%(subjects_ok _ (store_index _ Hok1)).
       destruct Hid as (n & Hn & _). by rewrite Hn. }
  2: { intros id [c X] s' n _ Hn Hn'. unfold close_one, at_id, f, h. rewrite Hn'. cbn.
       destruct (spared req n); [|done]. rewrite insert_id by done. by destruct s'. }
  cbn [fst snd]. unfold h. rewrite close_tally. cbn [fst snd].
  pose proof (subject_values s1 (CloseRequest.Subject req) (store_index _ Hok1)) as Hperm.
  assert (Hclosing : filter (fun n => spared req n = false)
            (at_id s1 <$> elements (ids_of s1 (CloseRequest.Subject req))) ≡ₚ closing req s).
  { rewrite Hperm. unfold closing. destruct R as (-> & _).
    rewrite list_filter_filter. apply reflexive_eq, list_filter_iff. intros n.
    unfold closes. rewrite andb_true_iff, bool_decide_eq_true, negb_true_iff. tauto. }
  split_and!.
  - by rewrite Hclosing.
  - apply sort_elements. intros x. rewrite elem_of_union, elem_of_list_to_set.
    rewrite Hclosing. set_solver.
  - apply revised_ok; [done|]. intros id n Hid Hn. unfold f.
    destruct (spared req n) eqn:Hsp; [by split; [|eapply (store_stamps s1)]|]. split.
    + apply closed_as_moves. intros E. unfold spared in Hsp.
      rewrite decide_True in Hsp by (by left). done.
    + apply closed_as_stamps.
  - cbn. destruct R as (-> & _). apply map_eq. intros id.
    rewrite lookup_revised. unfold closed_map. rewrite lookup_fmap.
    destruct (notifications s !! id) as [n|] eqn:E; [|done]. cbn. f_equal.
    rewrite list_fmap_id. unfold closes, f.
    assert (Hiff : id ∈ elements (ids_of s1 (CloseRequest.Subject req)) <->
                   Notification.Subject n = CloseRequest.Subject req).
    { rewrite elem_of_elements, Hids, (subjects_ok s (store_index s Hok)). naive_solver. }
    rewrite (bool_decide_ext _ _ Hiff). by destruct (bool_decide _), (spared req n).
  - cbn. by destruct R as (_ & _ & _ & ->).
  - done.
Qed.

(** ** Marking read *)

Definition read_map (wanted : Notification.t -> bool) (at_ : Time)
    (m : gmap string Notification.t) : gmap string Notification.t :=
  (fun n => if wanted n then read_at at_ n else n) <$> m.

Lemma all_held_spec recipient ids s :
  (all_held recipient ids s = Ok tt /\
   forall id, id ∈ ids ->
     exists n, notifications s !! id = Some n /\ Notification.Recipient n = recipient) \/
  (all_held recipient ids s = Err (Bare ErrNotFound) /\
   exists id, id ∈ ids /\
     forall n, notifications s !! id = Some n -> Notification.Recipient n <> recipient).
Proof.
  induction ids as [|id ids IH]; cbn [all_held]; [left; set_solver|].
  destruct (notifications s !! id) as [n|] eqn:E.
  - destruct (decide (Notification.Recipient n <> recipient)) as [Hr|Hr].
    + right. split; [done|]. exists id. split; [left|]. intros n' [=<-]%(eq_trans (eq_sym E)). done.
    + destruct IH as [[-> Hall]|[-> (id' & Hin & Hno)]].
      * left. split; [done|]. intros id' [->|?]%elem_of_cons; [|by apply Hall].
        exists n. split; [done|]. by destruct (decide (Notification.Recipient n = recipient)).
      * right. split; [done|]. exists id'. split; [by right|done].
  - right. split; [done|]. exists id. split; [left|]. by rewrite E.
Qed.

(** The loop of [MarkRead] over notifications the store holds. *)
Lemma mark_loop at_ ids s :
  StoreOk s -> NoDup ids -> (forall id, id ∈ ids -> is_Some (notifications s !! id)) ->
  let out := for_each (mark_one at_) ids (0, s) in
  StoreOk out.2 /\
  out.1 = length (filter (fun id => is_active (at_id s id) = true) ids) /\
  out.2 = s <| notifications :=
    read_map (fun n => bool_decide (Notification.ID n ∈ ids)) at_ (notifications s) |>.
Proof.
  intros Hok Hnd Hd.
  rewrite (loop_revises (fun id => id) (read_at at_)
             (fun n k => if is_active n then S k else k)).
  2: by rewrite list_fmap_id.
  2: done.
  2: { intros id a s' n _ _ Hn'. unfold mark_one, at_id. by rewrite Hn'. }
  cbn [fst snd]. rewrite list_fmap_id. split_and!.
  - apply revised_ok; [done|]. intros id n _ Hn.
    pose proof (store_stamps s Hok id n Hn). auto using read_at_moves, read_at_stamps.
  - rewrite tally_length. cbn. clear.
    induction ids as [|id ids IH]; [done|]. cbn [fmap list_fmap]. rewrite !filter_cons.
    destruct (decide (is_active (at_id s id) = true)); cbn; by rewrite IH.
  - enough (E : revised ids (read_at at_) (notifications s) =
                read_map (fun n => bool_decide (Notification.ID n ∈ ids)) at_ (notifications s))
      by (by rewrite E).
    apply map_eq. intros id. unfold read_map. rewrite lookup_revised, lookup_fmap.
    destruct (notifications s !! id) as [n|] eqn:E; [|done]. cbn.
    by rewrite (ids_ok s (store_index s Hok) id n E).
Qed.

(** The loop of [MarkAllRead]. *)
Definition unread_until (recipient : string) (through : Time) (n : Notification.t) : bool :=
  bool_decide (Notification.Recipient n = recipient) && is_active n &&
  bool_decide (Notification.CreatedAt n <= through)%Z.

Lemma mark_all_loop recipient through at_ s :
  StoreOk s ->
  let out := for_each (mark_all_one recipient through at_)
               (map_to_list (notifications s)) (0, s) in
  StoreOk out.2 /\
  out.1 = length (filter (fun n => unread_until recipient through n = true)
                    (values (notifications s))) /\
  out.2 = s <| notifications :=
    read_map (unread_until recipient through) at_ (notifications s) |>.
Proof.
  intros Hok. set (wanted := unread_until recipient through).
  set (f n := if wanted n then read_at at_ n else n).
  rewrite (loop_revises fst f (fun n k => if wanted n then S k else k)).
  2: apply NoDup_fst_map_to_list.
  2: { intros [id n] Hin%elem_of_map_to_list. cbn. by rewrite Hin. }
  2: { intros [id n0] a s' n Hin%elem_of_map_to_list Hn Hn'. cbn in *.
       rewrite Hin in Hn. injection Hn as ->. unfold f, wanted, unread_until, is_active.
       destruct (decide (Notification.Recipient n = recipient)) as [?|?],
         (decide (Notification.State_ n = StateActive)) as [?|?],
         (decide (Notification.CreatedAt n <= through)%Z) as [?|?];
         [rewrite decide_False by (intros [?|[?|?]]; [done|done|lia])
         |rewrite decide_True by (first [by left|by right; left|right; right; lia])..];
         rewrite ?bool_decide_true, ?bool_decide_false by done; cbn;
         [done|rewrite insert_id by done; by destruct s'..]. }
  cbn [fst snd]. rewrite tally_length.
  assert (Hval : (fun x => at_id s x.1) <$> map_to_list (notifications s) =
                 values (notifications s)).
  { apply list_fmap_ext. intros i [id n] Hin%list_elem_of_lookup_2%elem_of_map_to_list. cbn.
    unfold at_id. by rewrite Hin. }
  rewrite Hval. split_and!; [|done|].
  - apply revised_ok; [done|]. intros id n _ Hn. unfold f.
    pose proof (store_stamps s Hok id n Hn).
    destruct (wanted n); [auto using read_at_moves, read_at_stamps|done].
  - enough (E : revised (fst <$> map_to_list (notifications s)) f (notifications s) =
                read_map wanted at_ (notifications s)) by (by rewrite E).
    apply map_eq. intros id. unfold read_map. rewrite lookup_revised, lookup_fmap.
    destruct (notifications s !! id) as [n|] eqn:E; [|done]. cbn.
    rewrite bool_decide_true; [done|]. apply list_elem_of_fmap. exists (id, n).
    split; [done|]. by apply elem_of_map_to_list.
Qed.

(** [CountActive] counts. *)
Lemma CountActive_length recipient s :
  CountActive recipient s =
  length (filter (fun n => Notification.Recipient n = recipient /\
                           Notification.State_ n = StateActive) (values (notifications s))).
Proof.
  unfold CountActive. rewrite tally_length. cbn. f_equal. apply list_filter_iff. intros n.
  unfold is_active. rewrite andb_true_iff, !bool_decide_eq_true. done.
Qed.

(** ** The order of a listing *)

Lemma newestFirst_lex a b :
  newestFirst a b =
  lex (directed true (on Notification.CreatedAt Z.compare))
      (directed true (on Notification.ID String.compare)) a b.
Proof.
  unfold newestFirst, lex, directed, on.
  rewrite (Z.compare_antisym (Notification.CreatedAt a)), (String.compare_antisym).
  by destruct (Z.compare _ _).
Qed.

#[export] Instance newestFirst_lawful : Lawful newestFirst.
Proof. eapply Lawful_ext; [apply newestFirst_lex|apply _]. Qed.

#[export] Instance oldestFirst_lawful : Lawful oldestFirst.
Proof. exact (directed_lawful true newestFirst newestFirst_lawful). Qed.

Lemma newestFirst_eq a b : newestFirst a b = Eq ->
  Notification.ID a = Notification.ID b /\ Notification.CreatedAt a = Notification.CreatedAt b.
Proof.
  unfold newestFirst. destruct (Z.compare _ _) eqn:E; [|done..].
  apply Z.compare_eq_iff in E. intros H%String.compare_eq_iff. done.
Qed.

Lemma oldestFirst_eq a b : oldestFirst a b = Eq -> Notification.ID a = Notification.ID b.
Proof.
  unfold oldestFirst. destruct (newestFirst a b) eqn:E; [|done..]. intros _.
  by apply newestFirst_eq.
Qed.

(** * Properties *)

(** C17: Publishing notifications on a subject creates some and accounts for
    every one: what is created is stored whole, in order, under its identifier
    and at or above the watermark, nothing else in the store changes, and each
    insertion that created nothing is below the watermark, absorbed by an open
    notification or a duplicate of a held source.  Delivering the same
    publication again, under new identifiers and at any time, creates nothing and
    leaves the store as it is. *)
Theorem publish_once subject insertions again s :
  StoreOk s -> Fit s insertions -> Forall2 same_publication insertions again ->
  exists result s1 new result',
    Insert subject insertions s = (Ok result, s1) /\
    StoreOk s1 /\ InsertResult.Created result = new /\
    handled result = length insertions /\
    sublist new (restamp subject <$> insertions) /\
    notifications s1 = by_id new ∪ notifications s /\
    (forall n, n ∈ new -> (floor s subject (Notification.Kind n) <=
                           Notification.SubjectVersion n)%Z) /\
    (forall insertion, insertion ∈ insertions -> absorbed s1 subject insertion) /\
    Insert subject again s1 = (Ok result', s1) /\
    InsertResult.Created result' = [] /\ handled result' = length again.
Proof.
  intros Hok Hfit Hagain.
  destruct (insert_loop subject insertions InsertResult.zero s Hok Hfit)
    as (Hok1 & _ & Hh & Ha & new & Hc & Hsub & Hn & Hv).
  unfold Insert, insert_. destruct (for_each _ insertions _) as [result s1].
  cbn [fst snd] in *.
  destruct (absorbed_loop subject again InsertResult.zero s1 (store_index s1 Hok1))
    as (result' & Hl & Hc' & Hh').
  { intros j Hj. apply list_elem_of_lookup in Hj as [k Hk].
    destruct (Forall2_lookup_r _ _ _ _ _ Hagain Hk) as (i & Hi & Hsame).
    eapply absorbed_same; [exact Hsame|]. apply Ha. by eapply list_elem_of_lookup_2. }
  exists result, s1, new, result'. rewrite Hl. split_and!; try done.
Qed.

(** What a close names: open notifications on its subject, at or below its version,
    of one of its kinds where it names some, and not of the recipient it spares. *)
Definition named_by (req : CloseRequest.t) (n : Notification.t) : Prop :=
  Notification.Subject n = CloseRequest.Subject req /\
  Notification.State_ n <> StateClosed /\
  (Notification.SubjectVersion n <= CloseRequest.Version req)%Z /\
  (CloseRequest.Kinds req = [] \/ Notification.Kind n ∈ CloseRequest.Kinds req) /\
  (CloseRequest.Except req = "" \/ Notification.Recipient n <> CloseRequest.Except req).

#[global] Instance named_by_dec req n : Decision (named_by req n).
Proof. unfold named_by. apply _. Defined.

Lemma closes_named req n : closes req n = true <-> named_by req n.
Proof.
  unfold closes, named_by, spared. rewrite andb_true_iff, bool_decide_eq_true.
  destruct (decide (Notification.State_ n = StateClosed \/ (CloseRequest.Version req < Notification.SubjectVersion n)%Z))
    as [H|H]; [split; [by intros []|intros (_ & ? & ? & _); destruct H; [done|lia]]|].
  destruct (bool_decide (CloseRequest.Kinds req <> []) && negb (contains (CloseRequest.Kinds req) (Notification.Kind n))) eqn:E1.
  { apply andb_prop in E1 as [H1%bool_decide_eq_true H2]. split; [by intros []|].
    intros (_ & _ & _ & [?|Hin] & _); [done|]. apply contains_true in Hin. by rewrite Hin in H2. }
  destruct (bool_decide (CloseRequest.Except req <> "") && bool_decide (Notification.Recipient n = CloseRequest.Except req)) eqn:E2.
  { apply andb_prop in E2 as [H1%bool_decide_eq_true H2%bool_decide_eq_true]. split; [by intros []|].
    intros (_ & _ & _ & _ & [?|?]); done. }
  split; [|by intros []]. intros [Hs _]. split_and!; [done|by intros ?; apply H; left| | |].
  - apply Z.nlt_ge. intros ?. apply H. by right.
  - apply andb_false_iff in E1 as [E1|E1].
    + left. apply bool_decide_eq_false in E1. by destruct (CloseRequest.Kinds req); [|destruct E1].
    + right. apply contains_true. by destruct (contains _ _).
  - apply andb_false_iff in E2 as [E2|E2]; apply bool_decide_eq_false in E2; [left|by right].
    by destruct (decide (CloseRequest.Except req = "")).
Qed.

(** What it makes of one: closed, with its reason, at the instant; everything else
    stays, the instant it became inactive too where it had one. *)
Definition closed_now (req : CloseRequest.t) (at_ : Time) (n : Notification.t) : Notification.t :=
  Notification.mk (Notification.ID n) (Notification.Recipient n) (Notification.SourceID n) (Notification.Subject n)
    (Notification.SubjectVersion n) (Notification.Kind n) StateClosed (CloseRequest.Reason req)
    (Notification.Title n) (Notification.Links n) (Notification.Data n) (Notification.CreatedAt n)
    (Notification.ReadAt n) (Some at_) (Some (default at_ (Notification.InactiveAt n))).

Lemma closed_as_now req at_ n : closed_as req at_ n = closed_now req at_ n.
Proof. unfold closed_as, closed_now. destruct n as [? ? ? ? ? ? ? ? ? ? ? ? ? ? [ia|] ]; done. Qed.

(** The watermarks it raises. *)
Definition raised_by_close (req : CloseRequest.t) (key : watermarkKey) : Prop :=
  key.1 = CloseRequest.Subject req /\
  (key.2 ∈ CloseRequest.Kinds req \/ CloseRequest.Kinds req = [] /\ key.2 = allKinds).

#[global] Instance raised_by_close_dec req key : Decision (raised_by_close req key).
Proof. unfold raised_by_close. apply _. Defined.

Lemma close_keys_raised req key : key ∈ close_keys req <-> raised_by_close req key.
Proof.
  unfold close_keys, raised_by_close. destruct key as [subject kind]; cbn [fst snd].
  destruct (CloseRequest.Kinds req) as [|k ks].
  - rewrite list_elem_of_singleton. split; [by intros [= -> ->]; split; [|right]|].
    by intros [-> [?%not_elem_of_nil|[_ ->]]].
  - rewrite list_elem_of_fmap. split.
    + intros (k' & [= -> ->] & Hk). split; [done|by left].
    + intros [-> [Hk|[? _]]]; [by exists kind|done].
Qed.

(** The successors of a close: one for each recipient not skipped, in their order,
    active and stamped, with what the request says of it. *)
Definition successors_for (req : CloseRequest.t) (recipients : list string) (at_ : Time)
    (successors : list Insertion.t) : Prop :=
  match CloseRequest.Successor_ req with
  | None => successors = []
  | Some x =>
      Forall2 (fun recipient i => exists id, i = Insertion.mk
          (Notification.mk id recipient (Successor.SourceID x) (CloseRequest.Subject req)
             (Successor.SubjectVersion x) (Successor.Kind x) StateActive "" (Successor.Title x)
             (Successor.Links x) (Successor.Data x) at_ None None None) false)
        (filter (fun recipient => recipient ∉ CloseRequest.SuccessorSkip req) recipients) successors
  end.

Lemma successors_minted {G} `{!IDGenerator G} req recipients at_ (g g' : G) successors :
  SuccessorInsertions req recipients at_ g = (Ok successors, g') -> successors_for req recipients at_ successors.
Proof.
  unfold SuccessorInsertions, successors_for. destruct (CloseRequest.Successor_ req) as [x|]; [|by intros [= <-]].
  revert g successors. induction recipients as [|r rs IH]; intros g successors; cbn [stamp_successors].
  { intros [= <- _]. constructor. }
  rewrite filter_cons. destruct (contains (CloseRequest.SuccessorSkip req) r) eqn:E.
  - apply contains_true in E. rewrite decide_False by (intros H; by apply H). apply IH.
  - rewrite decide_True by (intros H%contains_true; congruence). unfold sbind.
    destruct (NewID g) as [[id|e] g1]; [|done].
    destruct (stamp_successors req x at_ rs g1) as [[out|e] g2] eqn:Es; [|done].
    intros [= <- <-]. constructor; [by exists id|]. by eapply IH.
Qed.

(** C18: Closing a subject raises the watermark of the kinds named, of every kind
    when none is, to the version, and closes, with the reason, exactly the open
    notifications on it at or below the version, of those kinds and not for the
    spared recipient, changing no other and nothing else of those.  It counts them,
    lists their recipients sorted and once each, and inserts a successor, where one
    is asked for, for each of them in that order but for those skipped.  When the
    generator of identifiers fails, the notifications stay closed and the watermark
    raised, and no successor is stored. *)
Theorem close_outcome {G} `{!IDGenerator G} req at_ (g : G) s :
  StoreOk s -> (-1 <= CloseRequest.Version req)%Z ->
  let at' := normalizeTime at_ in
  let named := filter (named_by req) (values (notifications s)) in
  exists recipients s1,
    StronglySorted String.le recipients /\ NoDup recipients /\
    (forall r, r ∈ recipients <-> exists n, n ∈ named /\ Notification.Recipient n = r) /\
    StoreOk s1 /\ deliveries s1 = deliveries s /\
    (forall id, notifications s1 !! id =
       (fun n => if decide (named_by req n) then closed_now req at' n else n) <$> notifications s !! id) /\
    (forall key, mark_of s1 key =
       if decide (raised_by_close req key)
       then Z.max (mark_of s key) (CloseRequest.Version req) else mark_of s key) /\
    match SuccessorInsertions req recipients at' g with
    | (Err e, g') => Close req at_ (g, s) = (Err e, (g', s1))
    | (Ok successors, g') =>
        successors_for req recipients at' successors /\
        exists inserted s2,
          Insert (CloseRequest.Subject req) successors s1 = (Ok inserted, s2) /\
          Close req at_ (g, s) =
            (Ok (CloseResult.mk (length named) recipients
                   (InsertResult.Created inserted) (InsertResult.Suppressed inserted)),
             (g', s2))
    end.
Proof.
  intros Hok Hv. cbv zeta.
  destruct (close_subject_outcome req (normalizeTime at_) s Hok Hv)
    as (Hc & Hr & Hok1 & Hn1 & Hd1 & Hm1).
  assert (Hnamed : filter (named_by req) (values (notifications s)) = closing req s).
  { unfold closing. apply list_filter_iff. intros n. by rewrite closes_named. }
  rewrite Hnamed.
  unfold Close. cbv zeta.
  destruct (close_subject req (normalizeTime at_) s) as [[closed R] s1]. cbn [fst snd] in *.
  exists (sorted_distinct (Notification.Recipient <$> closing req s)), s1. split_and!.
  - apply sorted_distinct_sorted.
  - apply sorted_distinct_NoDup.
  - intros r. rewrite elem_of_sorted_distinct, list_elem_of_fmap. naive_solver.
  - done.
  - done.
  - intros id. rewrite Hn1. unfold closed_map. rewrite lookup_fmap. destruct (notifications s !! id) as [n|]; [|done].
    cbn. f_equal. rewrite closed_as_now. destruct (closes req n) eqn:E.
    + by rewrite decide_True by (by apply closes_named).
    + rewrite decide_False; [done|]. intros H%closes_named. congruence.
  - intros key. rewrite Hm1. apply decide_ext. apply close_keys_raised.
  - cbn [CloseResult.Recipients]. rewrite Hr, Hc.
    destruct (SuccessorInsertions req _ (normalizeTime at_) g) as [[successors|e] g'] eqn:Es; [|done].
    split; [by eapply successors_minted|].
    unfold Insert. destruct (decide (successors <> [])) as [Hne|Hne].
    + destruct (insert_ _ successors s1) as [inserted s2] eqn:E. exists inserted, s2. done.
    + assert (successors = []) as -> by (destruct successors; [done|by destruct Hne]).
      exists InsertResult.zero, s1. done.
Qed.

(** Marking notifications read is all or nothing: when any identifier is
    not a notification of the recipient it is reported as not found and nothing
    changes; otherwise exactly those notifications are read, each active one
    becoming READ at the instant, a closed one only recording it, and the number
    that were active is returned. *)
Theorem mark_read_outcome recipient ids at_ s :
  StoreOk s ->
  ((exists id, id ∈ ids /\ forall n, notifications s !! id = Some n ->
      Notification.Recipient n <> recipient) /\
   MarkRead recipient ids at_ s = (Err (Bare ErrNotFound), s)) \/
  ((forall id, id ∈ ids -> exists n, notifications s !! id = Some n /\
      Notification.Recipient n = recipient) /\
   exists s', StoreOk s' /\
     MarkRead recipient ids at_ s =
       (Ok (MarkResult.mk (length (filter (fun id => is_active (at_id s id) = true)
                                     (sorted_distinct ids)))), s') /\
     s' = s <| notifications :=
       read_map (fun n => bool_decide (Notification.ID n ∈ ids)) (normalizeTime at_)
         (notifications s) |>).
Proof.
  intros Hok. unfold MarkRead.
  destruct (all_held_spec recipient ids s) as [[-> Hall]|[-> Hno]]; [right|by left].
  split; [done|].
  pose proof (mark_loop (normalizeTime at_) (sorted_distinct ids) s Hok (sorted_distinct_NoDup ids))
    as H.
  destruct (for_each _ _ _) as [marked s']. cbn [fst snd] in H.
  destruct H as (Hok' & -> & ->).
  { intros id Hid. rewrite elem_of_sorted_distinct in Hid.
    destruct (Hall id Hid) as (n & Hn & _). eauto. }
  eexists. split_and!; [exact Hok'|done|].
  enough (E : forall m, read_map (fun n => bool_decide (Notification.ID n ∈ sorted_distinct ids))
                (normalizeTime at_) m =
              read_map (fun n => bool_decide (Notification.ID n ∈ ids)) (normalizeTime at_) m)
    by (by rewrite E).
  intros m. apply map_fmap_ext. intros id n _.
  by rewrite (bool_decide_ext _ _ (elem_of_sorted_distinct ids (Notification.ID n))).
Qed.
