(* ===== verification/NotifyPrune.v ===== *)
(** * NotifyPrune: what a pruning pass removes

    Facts on [Prune] of [NotifyStore.v].  A pass removes a list of
    notifications, which is computed here from the map alone: those past the age
    bound, then, per recipient over the count bound, the oldest inactive ones
    and, when the strategy allows, the oldest active ones. *)

From S2P Require Import Prelude Domain Json Notification Collections NotifyStore.
From S2P Require Import NotifyStoreFacts.
Import MemoryStore.

(** ** Removing a list of notifications *)

Definition remove_all (l : list Notification.t) (s : MemoryStore.t) : MemoryStore.t :=
  for_each remove l s.

Definition without (l : list Notification.t) (m : gmap string Notification.t)
  : gmap string Notification.t :=
  filter (fun '(_, n) => n ∉ l) m.

Lemma lookup_without l m id n :
  without l m !! id = Some n <-> m !! id = Some n /\ n ∉ l.
Proof. unfold without. by rewrite map_lookup_filter_Some. Qed.

Lemma without_app l1 l2 m : without (l1 ++ l2) m = without l2 (without l1 m).
Proof.
  apply map_eq. intros id. apply option_eq. intros n. rewrite !lookup_without. set_solver.
Qed.

(** Distinct notifications of the store. *)
Record Among (s : MemoryStore.t) (l : list Notification.t) : Prop := {
  among_held n : n ∈ l -> notifications s !! Notification.ID n = Some n;
  among_distinct : NoDup l
}.

Lemma remove_all_ok l s :
  StoreOk s -> Among s l ->
  StoreOk (remove_all l s) /\ notifications (remove_all l s) = without l (notifications s) /\
  watermarks (remove_all l s) = watermarks s /\ deliveries (remove_all l s) = deliveries s.
Proof.
  unfold remove_all. revert s.
  induction l as [|n l IH]; intros s Hok [Hin Hnd]; cbn [for_each].
  { split_and!; [done| |done..]. apply map_eq. intros id. apply option_eq. intros n.
    rewrite lookup_without. set_solver. }
  apply NoDup_cons in Hnd as [Hn Hnd].
  assert (Hheld : notifications s !! Notification.ID n = Some n) by (apply Hin; left).
  assert (Hamong : Among (remove n s) l).
  { split; [|done]. intros n' Hn'. cbn. rewrite lookup_delete_ne; [apply Hin; by right|].
    intros E. assert (Some n = Some n') as [= ->]; [|done].
    rewrite <- Hheld, E. apply Hin. by right. }
  destruct (IH _ (remove_ok n s Hok Hheld) Hamong) as (H1 & H2 & H3 & H4).
  split_and!; [done| |done..]. rewrite H2. cbn. apply map_eq. intros id.
  apply option_eq. intros n'. rewrite !lookup_without, lookup_delete_Some, not_elem_of_cons.
  split.
  - intros ([Hne Hn'] & Hl). split_and!; [done| |done]. intros ->.
    apply Hne. by apply (ids_ok s (store_index s Hok)).
  - intros (Hn' & Hne & Hl). split_and!; [|done..]. intros E. apply Hne.
    rewrite <- E in Hn'. congruence.
Qed.

Lemma remove_all_app l1 l2 s : remove_all (l1 ++ l2) s = remove_all l2 (remove_all l1 s).
Proof. apply for_each_app. Qed.

(** ** The age bound *)

Lemma prune_aged_loop cutoff l r s :
  for_each (prune_aged_one cutoff) l (r, s) =
  (r <| PruneResult.DeletedForAge :=
     PruneResult.DeletedForAge r + length (filter (fun n => aged cutoff n = true) l) |>,
   remove_all (filter (fun n => aged cutoff n = true) l) s).
Proof.
  revert r s. induction l as [|n l IH]; intros r s; cbn [for_each].
  { destruct r. cbn. by rewrite Nat.add_0_r. }
  rewrite filter_cons. cbn [prune_aged_one]. destruct (aged cutoff n).
  - rewrite decide_True by done. rewrite IH. cbn. by rewrite Nat.add_succ_r.
  - rewrite decide_False by done. apply IH.
Qed.

(** ** The count bound *)

Lemma evict_removes held n active removed s :
  (Z.of_nat removed <= n)%Z ->
  evict held n active removed s =
  let gone := take (Z.to_nat n - removed)
                (filter (fun c => is_active c = active) held) in
  (removed + length gone, remove_all gone s).
Proof.
  cbv zeta. revert removed s. induction held as [|c held IH]; intros removed s Hn.
  { cbn. rewrite take_nil. cbn. by rewrite Nat.add_0_r. }
  cbn [evict]. rewrite filter_cons. destruct (decide (Z.of_nat removed = n)) as [<-|Hne].
  { rewrite Nat2Z.id, Nat.sub_diag. cbn. by rewrite Nat.add_0_r. }
  destruct (Bool.eqb (is_active c) active) eqn:E.
  - apply eqb_prop in E. rewrite decide_True by done. rewrite IH by lia.
    replace (Z.to_nat n - removed) with (S (Z.to_nat n - S removed)) by lia.
    cbn. by rewrite Nat.add_succ_r.
  - apply eqb_false_iff in E. rewrite decide_False by done. by rewrite IH by lia.
Qed.

(** A recipient's notifications, and what the count bound takes of them. *)
Definition held_by (m : gmap string Notification.t) (recipient : string)
  : list Notification.t :=
  filter (fun n => Notification.Recipient n = recipient) (values m).

Definition oldest_first (l : list Notification.t) : list Notification.t :=
  merge_sort (no_later oldestFirst) l.

Definition excess_of (req : PruneRequest.t) (held : list Notification.t) : Z :=
  (Z.of_nat (length held) - PruneRequest.MaxPerRecipient req)%Z.

Definition evicted_inactive (req : PruneRequest.t) (held : list Notification.t)
  : list Notification.t :=
  take (Z.to_nat (excess_of req held))
    (filter (fun c => is_active c = false) (oldest_first held)).

Definition evicted_active (req : PruneRequest.t) (held : list Notification.t)
  : list Notification.t :=
  if decide (PruneRequest.Strategy req = EvictOldestActive)
  then take (Z.to_nat (excess_of req held) - length (evicted_inactive req held))
         (filter (fun c => is_active c = true) (oldest_first held))
  else [].

Definition evicted (req : PruneRequest.t) (held : list Notification.t)
  : list Notification.t :=
  evicted_inactive req held ++ evicted_active req held.

Lemma within_bound req held : (excess_of req held <= 0)%Z ->
  evicted_inactive req held = [] /\ evicted_active req held = [].
Proof.
  intros H. unfold evicted_active, evicted_inactive.
  replace (Z.to_nat (excess_of req held)) with 0 by lia. split; [done|]. by case_decide.
Qed.

Lemma prune_count_one_removes req groups recipient r s :
  let held := default [] (groups !! recipient) in
  prune_count_one req groups recipient (r, s) =
  ({| PruneResult.DeletedForAge := PruneResult.DeletedForAge r;
      PruneResult.DeletedForCount :=
        PruneResult.DeletedForCount r + length (evicted_inactive req held);
      PruneResult.EvictedActive :=
        PruneResult.EvictedActive r + length (evicted_active req held);
      PruneResult.WatermarksDeleted := PruneResult.WatermarksDeleted r;
      PruneResult.Recipients :=
        PruneResult.Recipients r ++
        (if decide (PruneRequest.Strategy req = EvictOldestActive /\
                    (Z.of_nat (length (evicted_inactive req held)) < excess_of req held)%Z)
         then [recipient] else []) |},
   remove_all (evicted req held) s).
Proof.
  cbv zeta. unfold prune_count_one. set (held := default [] (groups !! recipient)).
  fold (excess_of req held). destruct (decide (excess_of req held <= 0)%Z) as [Hz|Hz].
  { unfold evicted. destruct (within_bound req held) as [-> ->]; [lia|].
    rewrite decide_False by (intros [_ H]; cbn in H; lia).
    cbn. rewrite app_nil_r, !Nat.add_0_r. by destruct r. }
  fold (oldest_first held). rewrite evict_removes by lia. cbv zeta.
  rewrite Nat.sub_0_r, Nat.add_0_l. fold (evicted_inactive req held).
  assert (Hlen : (Z.of_nat (length (evicted_inactive req held)) <= excess_of req held)%Z).
  { unfold evicted_inactive. rewrite length_take. lia. }
  unfold evicted, evicted_active.
  destruct (decide (PruneRequest.Strategy req = EvictOldestActive)) as [Hs|Hs].
  2: { rewrite decide_True by (by left). rewrite decide_False by tauto.
       rewrite !app_nil_r, Nat.add_0_r. by destruct r. }
  destruct (decide (excess_of req held - Z.of_nat (length (evicted_inactive req held)) = 0)%Z)
    as [He|He].
  - rewrite decide_True by (by right). rewrite decide_False by (intros [_ ?]; lia).
    replace (Z.to_nat (excess_of req held) - length (evicted_inactive req held)) with 0 by lia.
    cbn [take length]. rewrite !app_nil_r, Nat.add_0_r. by destruct r.
  - rewrite decide_False by tauto. rewrite decide_True by (split; [done|lia]).
    rewrite evict_removes by lia. cbv zeta. rewrite Nat.sub_0_r, Nat.add_0_l.
    replace (Z.to_nat (excess_of req held - Z.of_nat (length (evicted_inactive req held))))
      with (Z.to_nat (excess_of req held) - length (evicted_inactive req held)) by lia.
    rewrite remove_all_app. by destruct r.
Qed.

(** Everything the count bound takes, recipient by recipient. *)
Definition taken (req : PruneRequest.t) (m : gmap string Notification.t)
    (recipients : list string) : list Notification.t :=
  mjoin ((fun r => evicted req (held_by m r)) <$> recipients).

Definition sum_over (f : string -> nat) (l : list string) : nat :=
  foldr (fun r k => f r + k) 0 l.

Lemma pruneCount_removes req r s :
  let m := notifications s in
  let recipients := sorted_keys (group_by Notification.Recipient (values m) ∅) in
  pruneCount req r s =
  ({| PruneResult.DeletedForAge := PruneResult.DeletedForAge r;
      PruneResult.DeletedForCount := PruneResult.DeletedForCount r +
        sum_over (fun x => length (evicted_inactive req (held_by m x))) recipients;
      PruneResult.EvictedActive := PruneResult.EvictedActive r +
        sum_over (fun x => length (evicted_active req (held_by m x))) recipients;
      PruneResult.WatermarksDeleted := PruneResult.WatermarksDeleted r;
      PruneResult.Recipients := PruneResult.Recipients r ++
        filter (fun x => PruneRequest.Strategy req = EvictOldestActive /\
          (Z.of_nat (length (evicted_inactive req (held_by m x))) <
           excess_of req (held_by m x))%Z) recipients |},
   remove_all (taken req m recipients) s).
Proof.
  cbv zeta. unfold pruneCount, taken. set (m := notifications s).
  set (groups := group_by Notification.Recipient (values m) ∅).
  assert (Hg : forall x, default [] (groups !! x) = held_by m x).
  { intros x. unfold groups, held_by. by rewrite lookup_group_by, lookup_empty. }
  generalize (sorted_keys groups) as l. intros l. clearbody m. revert r s.
  induction l as [|x l IH]; intros r s; cbn [for_each].
  { cbn. rewrite app_nil_r, !Nat.add_0_r. by destruct r. }
  rewrite prune_count_one_removes, Hg, IH. cbn [fmap list_fmap mjoin list_join].
  rewrite remove_all_app. f_equal. cbn [sum_over foldr]. rewrite filter_cons.
  cbn. rewrite <- !Nat.add_assoc, <- (assoc_L (++)).
  by repeat case_decide.
Qed.

(** ** What is taken of one recipient's notifications *)

Section one_recipient.
Context (req : PruneRequest.t) (held : list Notification.t).
Context (Hheld : NoDup held).

Lemma oldest_first_perm : oldest_first held ≡ₚ held.
Proof. apply merge_sort_Permutation. Qed.

Lemma in_activity active n :
  n ∈ filter (fun c => is_active c = active) (oldest_first held) <->
  is_active n = active /\ n ∈ held.
Proof. by rewrite list_elem_of_filter, oldest_first_perm. Qed.

(** What is taken of one activity is a prefix of it, oldest first. *)
Lemma taken_prefix active k n :
  n ∈ take k (filter (fun c => is_active c = active) (oldest_first held)) ->
  n ∈ held /\ is_active n = active.
Proof.
  intros H. eapply elem_of_sublist in H; [|apply sublist_take].
  by apply in_activity in H as [].
Qed.

Lemma taken_oldest active k n n' :
  n ∈ take k (filter (fun c => is_active c = active) (oldest_first held)) ->
  n' ∈ held -> is_active n' = active ->
  n' ∉ take k (filter (fun c => is_active c = active) (oldest_first held)) ->
  no_later oldestFirst n n'.
Proof.
  set (l := filter _ _). intros Hn Hn' Ha Hout.
  assert (Hin : n' ∈ l) by (by apply in_activity).
  rewrite <- (take_drop k l), elem_of_app in Hin. destruct Hin as [?|Hin]; [done|].
  assert (Hs : StronglySorted (no_later oldestFirst) (take k l ++ drop k l)).
  { rewrite take_drop. apply StronglySorted_filter, sorted_by. apply _. }
  by eapply StronglySorted_app_1_elem_of.
Qed.

Lemma evicted_in n : n ∈ evicted req held -> n ∈ held.
Proof.
  unfold evicted, evicted_inactive, evicted_active. rewrite elem_of_app.
  intros [?%taken_prefix|H]; [tauto|]. case_decide; [|by apply elem_of_nil in H].
  by apply taken_prefix in H as [].
Qed.

Lemma evicted_NoDup : NoDup (evicted req held).
Proof.
  assert (Hs : forall active k,
            NoDup (take k (filter (fun c => is_active c = active) (oldest_first held)))).
  { intros active k. eapply sublist_NoDup; [|apply sublist_take].
    apply NoDup_filter. by rewrite oldest_first_perm. }
  unfold evicted. apply NoDup_app. unfold evicted_inactive, evicted_active.
  split_and!; [apply Hs| |case_decide; [apply Hs|constructor]].
  intros n H1%taken_prefix H2. case_decide; [|by apply elem_of_nil in H2].
  apply taken_prefix in H2. destruct H1, H2. congruence.
Qed.

Definition inactive_of : list Notification.t := filter (fun c => is_active c = false) held.
Definition active_of : list Notification.t := filter (fun c => is_active c = true) held.

Lemma activities : length held = length inactive_of + length active_of.
Proof.
  unfold inactive_of, active_of. clear Hheld.
  induction held as [|n l IH]; [done|]. rewrite !filter_cons.
  destruct (is_active n).
  - rewrite decide_False, decide_True by done. cbn [length]. lia.
  - rewrite decide_True, decide_False by done. cbn [length]. lia.
Qed.

Lemma evicted_inactive_length :
  length (evicted_inactive req held) =
  Z.to_nat (excess_of req held) `min` length inactive_of.
Proof. unfold evicted_inactive. by rewrite length_take, oldest_first_perm. Qed.

Lemma evicted_active_length :
  PruneRequest.Strategy req = EvictOldestActive ->
  length (evicted_active req held) =
  (Z.to_nat (excess_of req held) - length (evicted_inactive req held)) `min` length active_of.
Proof.
  intros Hs. unfold evicted_active. rewrite decide_True by done.
  by rewrite length_take, oldest_first_perm.
Qed.

(** The bound, when the strategy evicts: exactly the excess goes. *)
Lemma evicted_length :
  (0 <= PruneRequest.MaxPerRecipient req)%Z ->
  PruneRequest.Strategy req = EvictOldestActive ->
  length (evicted req held) = Z.to_nat (excess_of req held).
Proof.
  intros Hmax Hs. unfold evicted. rewrite length_app, (evicted_active_length Hs),
    evicted_inactive_length. pose proof activities. unfold excess_of. lia.
Qed.

(** Under any other strategy only inactive ones go. *)
Lemma retained_length :
  PruneRequest.Strategy req <> EvictOldestActive ->
  length (evicted req held) = Z.to_nat (excess_of req held) `min` length inactive_of.
Proof.
  intros Hs. unfold evicted, evicted_active. rewrite decide_False by done.
  by rewrite app_nil_r, evicted_inactive_length.
Qed.
End one_recipient.

(** ** The whole pass *)

Lemma held_by_spec m recipient n :
  n ∈ held_by m recipient <->
  Notification.Recipient n = recipient /\ exists id, m !! id = Some n.
Proof. unfold held_by. by rewrite list_elem_of_filter, elem_of_values. Qed.

Lemma held_by_NoDup s recipient : IndexOk s -> NoDup (held_by (notifications s) recipient).
Proof. intros H. by apply NoDup_filter, values_NoDup. Qed.

(** The recipients the count loop visits. *)
Definition recipients_of (m : gmap string Notification.t) : list string :=
  sorted_keys (group_by Notification.Recipient (values m) ∅).

Lemma recipients_of_spec m r : r ∈ recipients_of m <-> held_by m r <> [].
Proof.
  unfold recipients_of. rewrite elem_of_sorted_keys, group_by_is_Some, lookup_empty.
  unfold held_by. split.
  - intros [[? [=]]|(n & Hn & Hr)] E.
    assert (H : n ∈ filter (fun n => Notification.Recipient n = r) (values m))
      by (by apply list_elem_of_filter).
    rewrite E in H. by apply elem_of_nil in H.
  - intros H. right. destruct (filter _ _) as [|n l] eqn:E; [done|]. exists n.
    assert (Hn : n ∈ n :: l) by left. rewrite <- E in Hn.
    apply list_elem_of_filter in Hn as []. done.
Qed.

(** A notification goes for the count exactly when its recipient's turn takes it. *)
Lemma elem_of_taken s req n : StoreOk s ->
  n ∈ taken req (notifications s) (recipients_of (notifications s)) <->
  n ∈ evicted req (held_by (notifications s) (Notification.Recipient n)).
Proof.
  intros Hok. unfold taken.
  split.
  - intros (l & Hn & (r & -> & Hr)%list_elem_of_fmap)%list_elem_of_join.
    pose proof (evicted_in _ _ _ Hn) as Hin. apply held_by_spec in Hin as [-> _]. done.
  - intros Hn. apply list_elem_of_join. eexists. split; [done|].
    apply list_elem_of_fmap. eexists. split; [done|]. apply recipients_of_spec.
    apply evicted_in in Hn. intros E. rewrite E in Hn. by apply elem_of_nil in Hn.
Qed.

Lemma taken_among s req : StoreOk s ->
  Among s (taken req (notifications s) (recipients_of (notifications s))).
Proof.
  intros Hok. split.
  - intros n Hn%(elem_of_taken s req n Hok). apply evicted_in, held_by_spec in Hn as [_ [id Hid]].
    by rewrite (ids_ok s (store_index s Hok) id n Hid).
  - unfold taken.
    assert (Hnd : NoDup (recipients_of (notifications s))) by apply sorted_keys_NoDup.
    induction (recipients_of (notifications s)) as [|r l IH]; cbn; [constructor|].
    apply NoDup_cons in Hnd as [Hr Hnd]. apply NoDup_app. split_and!; [| |by apply IH].
    + by apply evicted_NoDup, held_by_NoDup, store_index.
    + intros n Hn Hin. apply list_elem_of_join in Hin as (l' & Hn' & Hl').
      apply list_elem_of_fmap in Hl' as (r' & -> & Hr').
      apply evicted_in, held_by_spec in Hn as [<- _].
      apply evicted_in, held_by_spec in Hn' as [E _]. by rewrite E in Hr.
Qed.

(** What a recipient holds after a list is removed. *)
Lemma held_by_without s s' l r :
  IndexOk s -> IndexOk s' -> notifications s' = without l (notifications s) ->
  held_by (notifications s') r ≡ₚ filter (fun n => n ∉ l) (held_by (notifications s) r).
Proof.
  intros Hi Hi' E. apply NoDup_Permutation.
  - by apply held_by_NoDup.
  - by apply NoDup_filter, held_by_NoDup.
  - intros n. rewrite list_elem_of_filter, !held_by_spec, E. setoid_rewrite lookup_without.
    naive_solver.
Qed.

Lemma filter_out_length {A} `{EqDecision A} (gone l : list A) :
  NoDup l -> NoDup gone -> (forall x, x ∈ gone -> x ∈ l) ->
  length (filter (fun x => x ∉ gone) l) = length l - length gone.
Proof.
  intros Hl Hg Hsub.
  assert (E : l ≡ₚ gone ++ filter (fun x => x ∉ gone) l).
  { apply NoDup_Permutation; [done| |].
    - apply NoDup_app. split_and!; [done| |by apply NoDup_filter].
      intros x Hx [? _]%list_elem_of_filter. done.
    - intros x. rewrite elem_of_app, list_elem_of_filter.
      destruct (decide (x ∈ gone)); naive_solver. }
  apply Permutation_length in E. rewrite length_app in E. lia.
Qed.

(** The state after the age bound and after the count bound. *)
Definition past_age (req : PruneRequest.t) (s : MemoryStore.t) : list Notification.t :=
  if decide (0 < PruneRequest.MaxAge req)%Z
  then filter (fun n => aged (PruneRequest.Now req - PruneRequest.MaxAge req) n = true)
         (values (notifications s))
  else [].

Definition over_count (req : PruneRequest.t) (m : gmap string Notification.t)
  : list Notification.t :=
  if decide (0 < PruneRequest.MaxPerRecipient req)%Z
  then taken req m (recipients_of m) else [].

Lemma past_age_among req s : StoreOk s -> Among s (past_age req s).
Proof.
  intros Hok. unfold past_age. case_decide; [|split; [by intros ? ?%elem_of_nil|constructor]].
  split.
  - intros n [_ [id Hid]%elem_of_values]%list_elem_of_filter.
    by rewrite (ids_ok s (store_index s Hok) id n Hid).
  - by apply NoDup_filter, values_NoDup, store_index.
Qed.

Lemma over_count_among req s : StoreOk s -> Among s (over_count req (notifications s)).
Proof.
  intros Hok. unfold over_count. case_decide; [by apply taken_among|].
  split; [by intros ? ?%elem_of_nil|constructor].
Qed.

(** The watermarks a pass expires. *)
Definition expired (req : PruneRequest.t) (s : MemoryStore.t) (key : watermarkKey)
    (mark : watermark.t) : Prop :=
  (0 < PruneRequest.WatermarkRetention req)%Z /\ subjects s !! key.1 = None /\
  (watermark.updatedAt mark < PruneRequest.Now req - PruneRequest.WatermarkRetention req)%Z.

Lemma prune_watermarks_loop cutoff l r s :
  let out := for_each (prune_watermark_one cutoff) l (r, s) in
  notifications out.2 = notifications s /\ sources out.2 = sources s /\
  subjects out.2 = subjects s /\ deliveries out.2 = deliveries s /\
  PruneResult.DeletedForAge out.1 = PruneResult.DeletedForAge r /\
  PruneResult.DeletedForCount out.1 = PruneResult.DeletedForCount r /\
  PruneResult.EvictedActive out.1 = PruneResult.EvictedActive r /\
  PruneResult.Recipients out.1 = PruneResult.Recipients r /\
  (forall key mark, watermarks out.2 !! key = Some mark <->
     watermarks s !! key = Some mark /\
     ~ (exists mark', (key, mark') ∈ l /\ subjects s !! key.1 = None /\
          (watermark.updatedAt mark' < cutoff)%Z)).
Proof.
  revert r s. induction l as [|[key0 mark0] l IH]; intros r s; cbn [for_each].
  { cbn. split_and!; try done. intros key mark. split; [|tauto]. intros ?. split; [done|].
    intros (? & ?%elem_of_nil & _). done. }
  cbn [prune_watermark_one].
  destruct (decide (is_Some (subjects s !! key0.1) \/ ~ (watermark.updatedAt mark0 < cutoff)%Z))
    as [Hd|Hd].
  - destruct (IH r s) as (? & ? & ? & ? & ? & ? & ? & ? & Hw). split_and!; try done.
    intros key mark. rewrite Hw. apply and_iff_compat_l, not_iff_compat.
    setoid_rewrite elem_of_cons. split; [naive_solver|].
    intros (mark' & [[= -> ->]|Hin] & Hn & Hlt); [|by eauto].
    destruct Hd as [[? Hd]|Hd]; [congruence|done].
  - set (s1 := s <| watermarks := delete key0 (watermarks s) |>).
    destruct (IH (r <| PruneResult.WatermarksDeleted := S (PruneResult.WatermarksDeleted r) |>) s1)
      as (? & ? & ? & ? & ? & ? & ? & ? & Hw).
    split_and!; try done. intros key mark. rewrite Hw. cbn. rewrite lookup_delete_Some.
    setoid_rewrite elem_of_cons.
    assert (Hsub : subjects s !! key0.1 = None).
    { apply eq_None_not_Some. tauto. }
    assert (Hlt : (watermark.updatedAt mark0 < cutoff)%Z).
    { destruct (decide (watermark.updatedAt mark0 < cutoff)%Z); tauto. }
    split.
    + intros ([Hne Hm] & Hno). split; [done|]. intros (mark' & [[= -> ->]|Hin] & ? & ?); [done|].
      apply Hno. eauto.
    + intros (Hm & Hno). split_and!; [|done|].
      * intros <-. apply Hno. exists mark0. auto.
      * intros (mark' & Hin & ? & ?). apply Hno. eauto.
Qed.

(** Counting what the count bound takes, by activity. *)
Lemma evicted_by_activity req held :
  filter (fun c => is_active c = false) (evicted req held) = evicted_inactive req held /\
  filter (fun c => is_active c = true) (evicted req held) = evicted_active req held.
Proof.
  assert (Hi : forall n, n ∈ evicted_inactive req held -> is_active n = false).
  { unfold evicted_inactive. by intros n [_ ?]%taken_prefix. }
  assert (Ha : forall n, n ∈ evicted_active req held -> is_active n = true).
  { unfold evicted_active. intros n. case_decide; [by intros [_ ?]%taken_prefix|].
    by intros ?%elem_of_nil. }
  unfold evicted. rewrite !filter_app. split.
  - rewrite filter_all, filter_none, app_nil_r; [done| |done].
    intros n ->%Ha. done.
  - rewrite filter_none, filter_all; [done|done|]. intros n ->%Hi. done.
Qed.

Lemma taken_counts req m l :
  sum_over (fun x => length (evicted_inactive req (held_by m x))) l =
    length (filter (fun c => is_active c = false) (taken req m l)) /\
  sum_over (fun x => length (evicted_active req (held_by m x))) l =
    length (filter (fun c => is_active c = true) (taken req m l)).
Proof.
  induction l as [|x l [IH1 IH2]]; [done|].
  change (taken req m (x :: l)) with (evicted req (held_by m x) ++ taken req m l).
  destruct (evicted_by_activity req (held_by m x)) as [E1 E2].
  rewrite !filter_app, !length_app, E1, E2. split.
  - cbn [sum_over foldr]. by rewrite <- IH1.
  - cbn [sum_over foldr]. by rewrite <- IH2.
Qed.

(** The recipients reported are those who lost an active notification. *)
Lemma reported_recipient req held :
  NoDup held -> (0 < PruneRequest.MaxPerRecipient req)%Z ->
  (PruneRequest.Strategy req = EvictOldestActive /\
   (Z.of_nat (length (evicted_inactive req held)) < excess_of req held)%Z) <->
  exists n, n ∈ evicted req held /\ is_active n = true.
Proof.
  intros Hnd Hmax. destruct (evicted_by_activity req held) as [_ Ea].
  assert (E : (exists n, n ∈ evicted req held /\ is_active n = true) <->
              evicted_active req held <> []).
  { rewrite <- Ea. split.
    - intros (n & Hn & Ha) E0.
      assert (n ∈ filter (fun c => is_active c = true) (evicted req held)) as Hf
        by (by apply list_elem_of_filter).
      rewrite E0 in Hf. by apply elem_of_nil in Hf.
    - destruct (filter _ _) as [|n l] eqn:E0; [done|]. intros _. exists n.
      assert (n ∈ n :: l) as Hn by left. rewrite <- E0 in Hn.
      apply list_elem_of_filter in Hn as []. done. }
  rewrite E. split.
  - intros [Hs Hlt] Hnil. apply (f_equal length) in Hnil.
    rewrite (evicted_active_length req held Hs) in Hnil. cbn in Hnil.
    rewrite evicted_inactive_length in *. pose proof (activities held).
    unfold excess_of in *. lia.
  - intros Hne. destruct (decide (PruneRequest.Strategy req = EvictOldestActive)) as [Hs|Hs].
    + split; [done|].
      assert (length (evicted_active req held) <> 0) as H0 by (by destruct (evicted_active _ _)).
      rewrite (evicted_active_length req held Hs) in H0.
      rewrite evicted_inactive_length in *. unfold excess_of in *. lia.
    + unfold evicted_active in Hne. by rewrite decide_False in Hne.
Qed.

(** An active notification goes only when the inactive ones did not make up the
    excess. *)
Lemma reported_recipient_only req held n :
  NoDup held -> n ∈ evicted req held -> is_active n = true ->
  PruneRequest.Strategy req = EvictOldestActive /\
  (Z.of_nat (length (evicted_inactive req held)) < excess_of req held)%Z.
Proof.
  intros Hnd Hn Ha. destruct (evicted_by_activity req held) as [_ E].
  assert (Hin : n ∈ evicted_active req held).
  { rewrite <- E. by apply list_elem_of_filter. }
  unfold evicted_active in Hin. case_decide as Hs; [|by apply elem_of_nil in Hin].
  split; [done|].
  destruct (decide (Z.to_nat (excess_of req held) - length (evicted_inactive req held) = 0))
    as [H0|H0]; [|lia].
  rewrite H0 in Hin. by apply elem_of_nil in Hin.
Qed.

(** The pass as its three parts. *)
Lemma Prune_runs req s : StoreOk s ->
  exists r s1 s2 s',
    Prune req s = (Ok r, s') /\
    StoreOk s1 /\ notifications s1 = without (past_age req s) (notifications s) /\
    StoreOk s2 /\
    notifications s2 = without (over_count req (notifications s1)) (notifications s1) /\
    watermarks s2 = watermarks s /\
    StoreOk s' /\ notifications s' = notifications s2 /\ subjects s' = subjects s2 /\
    deliveries s' = deliveries s /\
    (forall key mark, watermarks s' !! key = Some mark <->
       watermarks s !! key = Some mark /\ ~ expired req s' key mark) /\
    PruneResult.DeletedForAge r = length (past_age req s) /\
    PruneResult.DeletedForCount r =
      length (filter (fun n => is_active n = false) (over_count req (notifications s1))) /\
    PruneResult.EvictedActive r =
      length (filter (fun n => is_active n = true) (over_count req (notifications s1))) /\
    (forall x, x ∈ PruneResult.Recipients r <->
       exists n, n ∈ over_count req (notifications s1) /\ is_active n = true /\
                 Notification.Recipient n = x).
Proof.
  intros Hok.
  set (s1 := remove_all (past_age req s) s).
  set (s2 := remove_all (over_count req (notifications s1)) s1).
  destruct (remove_all_ok _ s Hok (past_age_among req s Hok)) as (Hok1 & Hn1 & Hw1 & Hd1).
  fold s1 in Hok1, Hn1, Hw1, Hd1.
  destruct (remove_all_ok _ s1 Hok1 (over_count_among req s1 Hok1)) as (Hok2 & Hn2 & Hw2 & Hd2).
  fold s2 in Hok2, Hn2, Hw2, Hd2.
  set (r1 := PruneResult.zero <| PruneResult.DeletedForAge := length (past_age req s) |>).
  assert (Hage : (if decide (0 < PruneRequest.MaxAge req)%Z
            then for_each (prune_aged_one (PruneRequest.Now req - PruneRequest.MaxAge req))
                   (values (notifications s)) (PruneResult.zero, s)
            else (PruneResult.zero, s)) = (r1, s1)).
  { unfold r1, s1, past_age. case_decide; [|done]. by rewrite prune_aged_loop. }
  assert (Hcount : exists r2,
    (if decide (0 < PruneRequest.MaxPerRecipient req)%Z
     then pruneCount req r1 s1 else (r1, s1)) = (r2, s2) /\
    PruneResult.DeletedForAge r2 = length (past_age req s) /\
    PruneResult.DeletedForCount r2 =
      length (filter (fun n => is_active n = false) (over_count req (notifications s1))) /\
    PruneResult.EvictedActive r2 =
      length (filter (fun n => is_active n = true) (over_count req (notifications s1))) /\
    (forall x, x ∈ PruneResult.Recipients r2 <->
       exists n, n ∈ over_count req (notifications s1) /\ is_active n = true /\
                 Notification.Recipient n = x)).
  { unfold s2, over_count. destruct (decide (0 < PruneRequest.MaxPerRecipient req)%Z) as [Hmax|].
    2: { exists r1. split_and!; try done. intros x. split; [by intros ?%elem_of_nil|].
         intros (c & Hc & _). by apply elem_of_nil in Hc. }
    rewrite pruneCount_removes. eexists. split; [done|]. cbn.
    destruct (taken_counts req (notifications s1) (recipients_of (notifications s1))) as [E1 E2].
    fold (recipients_of (notifications s1)). rewrite E1, E2. split_and!; try done.
    intros x. rewrite list_elem_of_filter, (reported_recipient req _
      (held_by_NoDup s1 x (store_index s1 Hok1)) Hmax).
    setoid_rewrite (elem_of_taken s1 req _ Hok1). split.
    - intros ((n & Hn & Ha) & _). pose proof Hn as Hin.
      apply evicted_in, held_by_spec in Hin as [<- _]. eauto.
    - intros (n & Hn & Ha & <-). split; [eauto|]. apply recipients_of_spec. intros E0.
      apply evicted_in in Hn. rewrite E0 in Hn. by apply elem_of_nil in Hn. }
  destruct Hcount as (r2 & Hcount & Hr2).
  unfold Prune. rewrite Hage. cbv beta iota. rewrite Hcount. cbv beta iota.
  destruct Hr2 as (R1 & R2 & R3 & R4).
  destruct (decide (0 < PruneRequest.WatermarkRetention req)%Z) as [Hret|Hret].
  - destruct (prune_watermarks_loop (PruneRequest.Now req - PruneRequest.WatermarkRetention req)
                (map_to_list (watermarks s2)) r2 s2)
      as (P1 & P2 & P3 & P4 & P5 & P6 & P7 & P8 & Hw).
    unfold pruneWatermarks. destruct (for_each _ _ (r2, s2)) as [r3 s3]. cbn in *.
    assert (Hw' : forall key mark, watermarks s3 !! key = Some mark <->
              watermarks s !! key = Some mark /\ ~ expired req s3 key mark).
    { intros key mark. rewrite Hw, Hw2, Hw1. unfold expired. rewrite P3.
      setoid_rewrite elem_of_map_to_list. split; (intros [Hm Hno]; split; [done|]).
      - intros (_ & ? & ?). apply Hno. eauto.
      - intros (mark' & Hm' & ? & ?). apply Hno.
        assert (mark' = mark) as -> by congruence. done. }
    exists r3, s1, s2, s3. split_and!; try done; try congruence.
    + constructor.
      * destruct Hok2 as [Hi _ _]. eapply same_but_marks_index; [|exact Hi]. done.
      * rewrite P1. apply (store_stamps s2 Hok2).
      * rewrite P1. intros id n Hn. destruct (store_marked s2 Hok2 id n Hn) as [mark Hm].
        exists mark. apply Hw. split; [done|]. intros (_ & _ & Hnone & _).
        assert (Hin : id ∈ ids_of s2 (Notification.Subject n))
          by (apply (subjects_ok s2 (store_index s2 Hok2)); eauto).
        unfold ids_of in Hin. cbn in Hnone. rewrite Hnone in Hin. set_solver.
    + intros x. rewrite P8. apply R4.
  - exists r2, s1, s2, s2. split_and!; try done; try congruence.
    intros key mark. rewrite Hw2, Hw1. unfold expired. tauto.
Qed.

(** What a recipient is left with, against the bound. *)
Lemma one_recipient_bounds req held left :
  NoDup held -> (0 <= PruneRequest.MaxPerRecipient req)%Z ->
  left ≡ₚ filter (fun n => n ∉ evicted req held) held ->
  (PruneRequest.Strategy req = EvictOldestActive \/
   (exists n, n ∈ left /\ is_active n = false) ->
   (Z.of_nat (length left) <= PruneRequest.MaxPerRecipient req)%Z) /\
  (forall n, n ∈ held -> n ∉ left ->
     (PruneRequest.MaxPerRecipient req <= Z.of_nat (length left))%Z /\
     (forall n', n' ∈ left -> is_active n' = is_active n -> no_later oldestFirst n n') /\
     (is_active n = true ->
      PruneRequest.Strategy req = EvictOldestActive /\
      forall n', n' ∈ left -> is_active n' = true)).
Proof.
  intros Hnd Hmax Hleft.
  assert (Hin : forall n, n ∈ left <-> n ∈ held /\ n ∉ evicted req held).
  { intros n. rewrite Hleft, list_elem_of_filter. tauto. }
  assert (Hlen : length left = length held - length (evicted req held)).
  { rewrite Hleft. apply filter_out_length; [done|by apply evicted_NoDup|].
    intros n. apply evicted_in. }
  pose proof (activities held) as Hact.
  (* an inactive notification is left only when the excess was inactive *)
  assert (Hinactive : (exists n, n ∈ left /\ is_active n = false) ->
            Z.to_nat (excess_of req held) <= length (evicted_inactive req held)).
  { intros (n & [Hn Hno]%Hin & Ha). rewrite evicted_inactive_length.
    destruct (decide (Z.to_nat (excess_of req held) <= length (inactive_of held))); [lia|].
    destruct Hno. unfold evicted, evicted_inactive. apply elem_of_app. left.
    rewrite take_ge; [by apply in_activity|].
    rewrite oldest_first_perm. unfold inactive_of in *. lia. }
  split.
  - intros H. rewrite Hlen. destruct H as [Hs|Hex].
    + rewrite (evicted_length req held) by (done || lia). unfold excess_of. lia.
    + apply Hinactive in Hex. unfold evicted. rewrite length_app. unfold excess_of in *. lia.
  - intros n Hn Hnot.
    assert (Hev : n ∈ evicted req held).
    { destruct (decide (n ∈ evicted req held)); [done|]. destruct Hnot. by apply Hin. }
    assert (Hpos : (0 < excess_of req held)%Z).
    { destruct (decide (0 < excess_of req held)%Z); [done|]. unfold evicted in Hev.
      destruct (within_bound req held) as [E1 E2]; [lia|].
      rewrite E1, E2 in Hev. by apply elem_of_nil in Hev. }
    split_and!.
    + rewrite Hlen. destruct (decide (PruneRequest.Strategy req = EvictOldestActive)) as [Hs|Hs].
      * rewrite (evicted_length req held) by (done || lia). unfold excess_of in *. lia.
      * rewrite (retained_length req held) by done. unfold excess_of in *. lia.
    + intros n' [Hn' Hno]%Hin Ha. unfold evicted in Hev, Hno.
      rewrite elem_of_app in Hev, Hno. unfold evicted_active in Hev, Hno.
      destruct Hev as [Hev|Hev].
      * pose proof (taken_prefix held _ _ _ Hev) as [_ Hin'].
        eapply taken_oldest; [exact Hev|done|congruence|]. intros Hx. apply Hno. by left.
      * case_decide; [|by apply elem_of_nil in Hev].
        pose proof (taken_prefix held _ _ _ Hev) as [_ Hin'].
        eapply taken_oldest; [exact Hev|done|congruence|]. intros Hx. apply Hno. by right.
    + intros Ha. destruct (reported_recipient_only req held n Hnd Hev Ha) as [Hs Hlt].
      split; [done|]. intros n' Hn'. destruct (is_active n') eqn:Ha'; [done|].
      exfalso. assert (Z.to_nat (excess_of req held) <= length (evicted_inactive req held)) by eauto.
      lia.
Qed.

(** * Properties *)

(** A pruning pass deletes what the age bound takes, then per recipient what
    the count bound takes, and nothing else.  With [EvictOldestActive] no
    recipient is left above the bound; with any other strategy only one without
    inactive notifications can be.  An ACTIVE notification is deleted only by
    that strategy, and only when the recipient is left with no inactive one and
    exactly the bound.  Of each activity the oldest go first, and a recipient who
    loses any to the count bound is left with no fewer than the bound. *)
Theorem prune_bounds req s :
  StoreOk s -> (0 < PruneRequest.MaxPerRecipient req)%Z ->
  exists r s1 s',
    Prune req s = (Ok r, s') /\ StoreOk s' /\
    notifications s1 = without (past_age req s) (notifications s) /\
    (forall recipient,
       let held := held_by (notifications s1) recipient in
       let left := held_by (notifications s') recipient in
       let bound := PruneRequest.MaxPerRecipient req in
       (PruneRequest.Strategy req = EvictOldestActive \/
        (exists n, n ∈ left /\ is_active n = false) ->
        (Z.of_nat (length left) <= bound)%Z) /\
       (forall n, n ∈ held -> n ∉ left ->
          (bound <= Z.of_nat (length left))%Z /\
          (forall n', n' ∈ left -> is_active n' = is_active n ->
             no_later oldestFirst n n') /\
          (is_active n = true ->
           PruneRequest.Strategy req = EvictOldestActive /\
           forall n', n' ∈ left -> is_active n' = true))) /\
    PruneResult.DeletedForAge r = length (past_age req s) /\
    (forall n, (exists id, notifications s' !! id = Some n) <->
       (exists id, notifications s1 !! id = Some n) /\
       n ∉ evicted req (held_by (notifications s1) (Notification.Recipient n))).
Proof.
  intros Hok Hmax.
  destruct (Prune_runs req s Hok) as (r & s1 & s2 & s' & E & Hok1 & Hn1 & Hok2 & Hn2 & _ &
    Hok' & Hn & _ & _ & _ & Hage & _).
  exists r, s1, s'. split; [exact E|]. split; [done|]. split; [done|].
  rewrite Hn, Hn2. unfold over_count. rewrite decide_True by done.
  split; [|split; [done|]].
  2: { intros n. setoid_rewrite lookup_without. rewrite <- (elem_of_taken s1 req n Hok1).
       unfold recipients_of. naive_solver. }
  intros recipient. cbv zeta.
  pose proof (held_by_without s1 s2 (taken req (notifications s1) (recipients_of (notifications s1)))
    recipient (store_index s1 Hok1) (store_index s2 Hok2)) as Hleft.
  unfold over_count in Hn2. rewrite decide_True in Hn2 by done.
  specialize (Hleft Hn2). rewrite <- Hn2.
  eapply one_recipient_bounds; [by apply held_by_NoDup, store_index|lia|].
  rewrite Hleft. apply reflexive_eq, list_filter_iff_in. intros n [Hr _]%held_by_spec.
  rewrite (elem_of_taken s1 req n Hok1). by rewrite Hr.
Qed.
