(* ===== verification/NotifyList.v ===== *)
(** * NotifyList: listing a recipient's notifications, page by page

    Facts on [List_] of [NotifyStore.v] and the cursors of [Notification.v]:
    the pages of a listing put together, and what a cursor is bound to. *)

From S2P Require Import Prelude Domain Json Notification Collections NotifyStore.
From S2P Require Import NotifyStoreFacts.
Import MemoryStore.

(** What is relied on of the encoding of cursors: a token is not empty, and a
    payload the encoding can carry (a four-digit year, valid UTF-8) reads back. *)
Class CursorEncoding (render : cursorPayload.t -> string)
    (parse : string -> option cursorPayload.t) (carries : cursorPayload.t -> Prop) : Prop := {
  render_nonempty p : render p <> "";
  parse_render p : carries p -> parse (render p) = Some p
}.

Definition continued (q : ListQuery.t) (token : string) : ListQuery.t :=
  q <| ListQuery.Cursor := token |>.

(** The whole answer of a query: its matches, newest first. *)
Definition listing (q : ListQuery.t) (s : MemoryStore.t) : list Notification.t :=
  merge_sort (no_later newestFirst)
    (filter (fun n => matches n q = true) (values (notifications s))).

Section paging.
Context (digest : string -> string).
Context (render : cursorPayload.t -> string) (parse : string -> option cursorPayload.t).

(** Reading every page in turn, each from the cursor of the last. *)
Fixpoint walk (q : ListQuery.t) (s : MemoryStore.t) (fuel : nat) (token : string)
  : res (list Notification.t) :=
  match fuel with
  | 0 => Err (External "out of fuel")
  | S fuel =>
      try! page := List_ digest render parse (continued q token) s in
      if decide (Page.NextCursor page = "") then Ok (Page.Notifications page)
      else
        try! rest := walk q s fuel (Page.NextCursor page) in
        Ok (Page.Notifications page ++ rest)
  end.

Lemma continued_matches n q token : matches n (continued q token) = matches n q.
Proof. done. Qed.

Definition position_of (n : Notification.t) : CursorPosition.t :=
  CursorPosition.mk (Notification.CreatedAt n) (Notification.ID n).

Lemma before_position n m : before n (position_of m) = bool_decide (newestFirst n m = Gt).
Proof.
  unfold before, newestFirst, position_of, String.ltb. cbn.
  destruct (decide (Notification.CreatedAt n = Notification.CreatedAt m)) as [->|Hne].
  - rewrite Z.compare_refl. rewrite (String.compare_antisym (Notification.ID m)).
    by destruct (String.compare (Notification.ID n) (Notification.ID m)).
  - destruct (Z.compare _ _) eqn:E.
    + apply Z.compare_eq_iff in E. congruence.
    + rewrite Z.compare_lt_iff in E. rewrite (bool_decide_false (_ < _)%Z) by lia.
      by rewrite bool_decide_false.
    + rewrite Z.compare_gt_iff in E. by rewrite !bool_decide_true.
Qed.

Context (carries : cursorPayload.t -> Prop) `{!CursorEncoding render parse carries}.
Context (q : ListQuery.t) (s : MemoryStore.t).
Hypothesis Hok : StoreOk s.
Hypothesis Hlimit : (0 <= ListQuery.Limit q)%Z.
(** What the service stamps: an identifier, and an instant in microseconds. *)
Hypothesis Hstamped : forall id n, notifications s !! id = Some n ->
  id <> "" /\ normalizeTime (Notification.CreatedAt n) = Notification.CreatedAt n.
Hypothesis Hcarries : forall id n, notifications s !! id = Some n ->
  carries (cursorPayload.mk (Notification.CreatedAt n) id (fingerprint digest q)).

Definition cursor_of (n : Notification.t) : string :=
  EncodeCursor digest render q (position_of n).

Lemma cursor_nonempty n : cursor_of n <> "".
Proof. unfold cursor_of, EncodeCursor. apply render_nonempty. Qed.

(** A cursor that reads as a position, or the empty one. *)
Definition reads_as (token : string) (after : option Notification.t) : Prop :=
  match after with
  | None => token = ""
  | Some n => token = cursor_of n /\ exists id, notifications s !! id = Some n
  end.

Definition after_pos (after : option Notification.t) (n : Notification.t) : Prop :=
  match after with None => True | Some m => newestFirst n m = Gt end.

#[local] Instance after_pos_dec after n : Decision (after_pos after n).
Proof. destruct after; cbn; apply _. Defined.

Lemma decode_reads token after : reads_as token after ->
  DecodeCursor digest parse (continued q token) = Ok (position_of <$> after).
Proof.
  unfold DecodeCursor. destruct after as [n|]; cbn; [|by intros ->].
  intros [-> [id Hn]]. unfold cursor_of, EncodeCursor.
  rewrite decide_False by apply render_nonempty.
  destruct (Hstamped id n Hn) as [Hid Hnorm]. cbn. rewrite Hnorm.
  pose proof (ids_ok s (store_index s Hok) id n Hn) as Heq.
  rewrite parse_render by (rewrite Heq; by apply (Hcarries id)). cbn.
  rewrite decide_False by congruence. rewrite decide_False by (intros H; by destruct H).
  by rewrite Hnorm.
Qed.

Lemma newestFirst_inj x y :
  x ∈ values (notifications s) -> y ∈ values (notifications s) ->
  newestFirst x y = Eq -> x = y.
Proof.
  intros [i Hi]%elem_of_values [j Hj]%elem_of_values [E _]%newestFirst_eq.
  pose proof (ids_ok s (store_index s Hok) i x Hi).
  pose proof (ids_ok s (store_index s Hok) j y Hj). congruence.
Qed.

Lemma elem_of_listing n :
  n ∈ listing q s <-> matches n q = true /\ n ∈ values (notifications s).
Proof. unfold listing. by rewrite merge_sort_Permutation, list_elem_of_filter. Qed.

(** The sorted matches beyond a position: the tail of the listing. *)
Lemma selected_tail after :
  merge_sort (no_later newestFirst)
    (filter (fun n => selects (continued q "") (position_of <$> after) n = true)
       (values (notifications s))) =
  filter (after_pos after) (listing q s).
Proof.
  unfold listing. rewrite <- sort_filter.
  - f_equal. rewrite list_filter_filter. apply list_filter_iff. intros n.
    unfold selects. rewrite continued_matches. destruct (matches n q); cbn.
    + destruct after as [m|]; cbn; [|done].
      rewrite before_position, bool_decide_eq_true. naive_solver.
    + naive_solver.
  - apply _.
  - intros x y [_ ?]%list_elem_of_filter [_ ?]%list_elem_of_filter. by apply newestFirst_inj.
Qed.

Definition cut (rest : list Notification.t) : Page.t :=
  let limit := Z.to_nat (ListQuery.EffectiveLimit q) in
  if decide (limit < length rest)
  then Page.mk (take limit rest) (cursor_of (nth (limit - 1) rest Notification.zero))
  else Page.mk rest "".

Lemma List_cuts token after : reads_as token after ->
  List_ digest render parse (continued q token) s =
  Ok (cut (filter (after_pos after) (listing q s))).
Proof.
  intros H. unfold List_. rewrite (decode_reads token after H). cbn [rbind]. f_equal.
  change (fun n => selects (continued q token) (position_of <$> after) n = true)
    with (fun n => selects (continued q "") (position_of <$> after) n = true).
  rewrite selected_tail. unfold page_of, cut.
  change (ListQuery.EffectiveLimit (continued q token)) with (ListQuery.EffectiveLimit q).
  case_decide; by rewrite Clones_id.
Qed.

Lemma listing_NoDup : NoDup (listing q s).
Proof.
  unfold listing. rewrite merge_sort_Permutation. by apply NoDup_filter, values_NoDup, store_index.
Qed.

Lemma later_suffix l1 n l2 :
  listing q s = l1 ++ n :: l2 -> filter (after_pos (Some n)) (listing q s) = l2.
Proof.
  intros E. pose proof listing_NoDup as Hnd.
  assert (Hin : forall m, m ∈ listing q s -> m ∈ values (notifications s))
    by (by intros m [_ ?]%elem_of_listing).
  rewrite E in Hnd, Hin. rewrite E.
  apply (filter_beyond newestFirst l1 n l2).
  - rewrite <- E. apply sorted_by. apply _.
  - intros y Hy Heq. apply newestFirst_inj in Heq; [|apply Hin; set_solver..].
    subst y. apply NoDup_app in Hnd as (_ & _ & [Hn _]%NoDup_cons). done.
Qed.

Lemma walk_rest fuel prefix rest token after :
  listing q s = prefix ++ rest -> reads_as token after ->
  filter (after_pos after) (listing q s) = rest -> length rest < fuel ->
  walk q s fuel token = Ok rest.
Proof.
  revert prefix rest token after. induction fuel as [|fuel IH]; [lia|].
  intros prefix rest token after Hsplit Hread Hrest Hfuel. cbn [walk].
  rewrite (List_cuts token after Hread), Hrest. unfold cut. cbn [rbind].
  set (limit := Z.to_nat (ListQuery.EffectiveLimit q)).
  assert (Hpos : 1 <= limit).
  { unfold limit, ListQuery.EffectiveLimit, DefaultListLimit. case_decide; lia. }
  destruct (decide (limit < length rest)) as [Hlong|]; [|by cbn].
  destruct (lookup_lt_is_Some_2 rest (limit - 1)) as [final Hf]; [lia|].
  rewrite (nth_lookup_Some _ _ _ _ Hf). cbn [Page.NextCursor Page.Notifications].
  rewrite decide_False by apply cursor_nonempty.
  assert (Esplit : rest = take (limit - 1) rest ++ final :: drop limit rest).
  { rewrite <- (take_drop_middle rest (limit - 1) final Hf) at 1.
    by replace (S (limit - 1)) with limit by lia. }
  assert (Hord : listing q s = (prefix ++ take (limit - 1) rest) ++ final :: drop limit rest).
  { by rewrite Hsplit, <- app_assoc, <- Esplit. }
  rewrite (IH (prefix ++ take limit rest) (drop limit rest) (cursor_of final) (Some final)).
  - cbn [rbind]. by rewrite take_drop.
  - by rewrite <- app_assoc, take_drop.
  - split; [done|]. apply elem_of_values.
    assert (Hin : final ∈ listing q s) by (rewrite Hord; set_solver).
    by apply elem_of_listing in Hin as [_ ?].
  - by apply (later_suffix (prefix ++ take (limit - 1) rest)).
  - rewrite length_drop. lia.
Qed.
End paging.

(** * Properties *)

Section properties.
Context (digest : string -> string).
Context (render : cursorPayload.t -> string) (parse : string -> option cursorPayload.t).
Context (carries : cursorPayload.t -> Prop).

(** Reading a recipient's notifications page by page, each page from the
    cursor of the last, ends and gives every notification that matches the
    query exactly once, newest first, ties broken by the higher identifier. *)
Theorem listing_pages_concatenate `{!CursorEncoding render parse carries} q s :
  StoreOk s -> (0 <= ListQuery.Limit q)%Z ->
  (forall id n, notifications s !! id = Some n ->
     id <> "" /\ normalizeTime (Notification.CreatedAt n) = Notification.CreatedAt n /\
     carries (cursorPayload.mk (Notification.CreatedAt n) id (fingerprint digest q))) ->
  exists l,
    (forall fuel, size (notifications s) < fuel ->
       walk digest render parse q s fuel "" = Ok l) /\
    StronglySorted (fun a b => newestFirst a b = Lt) l /\
    (forall n, n ∈ l <-> matches n q = true /\ exists id, notifications s !! id = Some n).
Proof.
  intros Hok Hlimit Hst. exists (listing q s).
  split_and!.
  - intros fuel Hf.
    apply (walk_rest digest render parse carries q s Hok Hlimit) with (prefix := []) (after := None).
    + intros id n Hn. destruct (Hst id n Hn) as (? & ? & _). done.
    + intros id n Hn. by apply Hst.
    + done.
    + done.
    + by apply filter_all.
    + unfold listing. rewrite merge_sort_Permutation.
      pose proof (length_filter (fun n => matches n q = true) (values (notifications s))) as H.
      unfold values in H at 2. rewrite length_fmap, length_map_to_list in H. lia.
  - pose proof (listing_NoDup q s Hok) as Hnd.
    assert (Hs : StronglySorted (no_later newestFirst) (listing q s))
      by (apply sorted_by; apply _).
    assert (Hin : forall n, n ∈ listing q s -> n ∈ values (notifications s))
      by (by intros n [_ ?]%elem_of_listing).
    induction Hs as [|x l Hl IH Hx]; [constructor|]. apply NoDup_cons in Hnd as [Hni Hnd].
    constructor; [apply IH; [done|]; intros n Hn; apply Hin; by right|].
    rewrite Forall_forall in Hx |- *. intros y Hy. specialize (Hx y Hy). unfold no_later in Hx.
    destruct (newestFirst x y) eqn:E; [|done|done].
    apply (newestFirst_inj s Hok) in E; [|apply Hin; left|apply Hin; by right].
    by subst y.
  - intros n. by rewrite elem_of_listing, elem_of_values.
Qed.
End properties.

(** A kind may hold a comma, and the filters are joined with commas before they
    are hashed: two listings that differ in what they show then issue and accept
    each other's cursors, whatever the hash. *)
Lemma cursor_crosses_filters :
  exists q1 q2 n,
    matches n q1 = true /\ matches n q2 = false /\
    validateIdentifier "/recipient" (ListQuery.Recipient q1) = [] /\
    forall digest, fingerprint digest q1 = fingerprint digest q2.
Proof.
  exists (ListQuery.mk "ann" [] ["a,b"] "" 0 ""), (ListQuery.mk "ann" [] ["a"; "b"] "" 0 "").
  exists (Notification.zero <| Notification.Recipient := "ann" |> <| Notification.Kind := "a,b" |>).
  split_and!; [vm_compute; reflexivity..|]. intros digest. unfold fingerprint. f_equal.
Qed.
