(* ===== verification/NotifyService.v ===== *)
(** * NotifyService: publishing, closing, reading and pruning

    Models [notify/service.go], the signals and the broadcaster port of
    [notify/realtime.go] and [notify/pruner.go].  The service is written against
    the ports, as in the source: a store, a generator of identifiers and a
    broadcaster, each a type class; the clock's reading is an argument of the
    operation that takes it, and what [Broadcast] answers is the broadcaster's. *)

From S2P Require Import Prelude Domain Json Notification Collections NotifyStore.

(** ** Signals *)

Definition Change : Type := string.

Definition ChangeCreated : Change := "created".
Definition ChangeRead : Change := "read".
Definition ChangeClosed : Change := "closed".
Definition ChangePruned : Change := "pruned".

Module Signal.
Record t : Type := mk { Recipient : string; Change_ : Change; At : Time }.
#[global] Instance eq_dec : EqDecision t.
Proof. solve_decision. Defined.
End Signal.

(** ** The ports *)

Class Store (D : Type) : Type := {
  store_Insert : string -> list Insertion.t -> SM D error InsertResult.t;
  store_Close {G : Type} `{!IDGenerator G} :
    CloseRequest.t -> Time -> SM (G * D) error CloseResult.t;
  store_Get : string -> string -> D -> res Notification.t;
  store_List : ListQuery.t -> D -> res Page.t;
  store_CountActive : string -> D -> res nat;
  store_MarkRead : string -> list string -> Time -> SM D error MarkResult.t;
  store_MarkAllRead : string -> Time -> Time -> SM D error MarkResult.t;
  store_Prune : PruneRequest.t -> SM D error PruneResult.t
}.

Class Broadcaster (B : Type) : Type := {
  Broadcast : list Signal.t -> SM B error unit
}.

(** ** The service *)

Module Service.
(** What the service holds: its store, generator and broadcaster, and the errors
    handed to the signal error handler so far. *)
Record t (G D B : Type) : Type := mk {
  store : D;
  ids : G;
  broadcaster : B;
  signalErrors : list error
}.
Arguments mk {G D B}.
Arguments store {G D B}.
Arguments ids {G D B}.
Arguments broadcaster {G D B}.
Arguments signalErrors {G D B}.
#[global] Instance eta {G D B} : Eta (t G D B) := fun x =>
  mk (store x) (ids x) (broadcaster x) (signalErrors x).
End Service.

(** One signal per distinct recipient, in recipient order. *)
Definition signalsFor (recipients : list string) (change : Change) (at_ : Time)
  : list Signal.t :=
  (fun recipient => Signal.mk recipient change at_) <$> sorted_distinct recipients.

Definition recipientsOf (notifications : list Notification.t) : list string :=
  Notification.Recipient <$> notifications.

(** The issues of a validation error found in an error's chain. *)
Fixpoint validation_issues (e : error) : list ValidationIssue.t :=
  match e with
  | ValidationError _ issues => issues
  | Prefixed _ cause => validation_issues cause
  | _ => []
  end.

Definition prefixed (prefix : string) (r : res unit) : list ValidationIssue.t :=
  match r with
  | Ok _ => []
  | Err e => (fun i => i <| ValidationIssue.Pointer :=
                        (prefix +:+ ValidationIssue.Pointer i)%string |>) <$> validation_issues e
  end.

(** The options that replace a default, a nil one being ignored. *)
Inductive Option {G B : Type} : Type :=
| WithIDGenerator (generator : option G)
| WithBroadcaster (broadcaster : option B).
Arguments Option : clear implicits.

Definition apply_option {G D B} (opt : Option G B) (s : Service.t G D B) : Service.t G D B :=
  match opt with
  | WithIDGenerator (Some generator) => s <| Service.ids := generator |>
  | WithBroadcaster (Some broadcaster) => s <| Service.broadcaster := broadcaster |>
  | WithIDGenerator None | WithBroadcaster None => s
  end.

(** [New]: a store is required; options apply in order over the defaults, which
    are values given here. *)
Definition New {G D B} (ids : G) (broadcaster : B) (store : option D)
    (opts : list (option (Option G B))) : res (Service.t G D B) :=
  match store with
  | None =>
      Err (ConfigurationError "a store is required; NewMemoryStore serves a single process")
  | Some store =>
      Ok (for_each (fun opt svc =>
              match opt with Some opt => apply_option opt svc | None => svc end)
            opts (Service.mk store ids broadcaster []))
  end.

Section service.
Context {G D B : Type} `{!IDGenerator G, !Store D, !Broadcaster B}.
Abbreviation Svc := (Service.t G D B).

(** [signal]: an error goes to the handler and nowhere else. *)
Definition signal (signals : list Signal.t) (s : Svc) : Svc :=
  match signals with
  | [] => s
  | _ =>
      let '(r, b) := Broadcast signals (Service.broadcaster s) in
      let s := s <| Service.broadcaster := b |> in
      match r with
      | Ok _ => s
      | Err e => s <| Service.signalErrors := Service.signalErrors s ++ [e] |>
      end
  end.

(** *** Publish *)

Definition insertionOf (now : Time) (draft : Draft.t) (id : string) : Insertion.t :=
  Insertion.mk (Notification.Clone {|
    Notification.ID := id;
    Notification.Recipient := Draft.Recipient draft;
    Notification.SourceID := Draft.SourceID draft;
    Notification.Subject := Draft.Subject draft;
    Notification.SubjectVersion := Draft.SubjectVersion draft;
    Notification.Kind := Draft.Kind draft;
    Notification.State_ := StateActive;
    Notification.ClosedReason := "";
    Notification.Title := Draft.Title draft;
    Notification.Links := Draft.Links draft;
    Notification.Data := Draft.Data draft;
    Notification.CreatedAt := now;
    Notification.ReadAt := None;
    Notification.ClosedAt := None;
    Notification.InactiveAt := None
  |}) (Draft.Coalesce draft).

(** The loop that draws an identifier per draft and files the insertion. *)
Fixpoint stamp_drafts (now : Time) (drafts : list Draft.t)
    (bySubject : gmap string (list Insertion.t))
  : SM G error (gmap string (list Insertion.t)) :=
  match drafts with
  | [] => sret bySubject
  | draft :: rest =>
      let! id := NewID in
      stamp_drafts now rest
        (append_to (Draft.Subject draft) (insertionOf now draft id) bySubject)
  end.

(** The loop over the subjects, stopping at the first failure. *)
Fixpoint insert_subjects (bySubject : gmap string (list Insertion.t))
    (subjects : list string) (inserted : InsertResult.t) (d : D)
  : InsertResult.t * res unit * D :=
  match subjects with
  | [] => (inserted, Ok tt, d)
  | subject :: rest =>
      match store_Insert subject (default [] (bySubject !! subject)) d with
      | (Err e, d) => (inserted, Err e, d)
      | (Ok result, d) =>
          insert_subjects bySubject rest (InsertResult.add inserted result) d
      end
  end.

Definition draft_issues (drafts : list Draft.t) : list ValidationIssue.t :=
  concat (imap (fun (i : nat) draft =>
    prefixed ("/drafts/" +:+ pretty i) (Draft_Validate draft)) drafts).

(** [Publish] returns a result beside its error: what the subjects written before
    a failure created. *)
Definition Publish (now : Time) (drafts : list Draft.t) (s : Svc)
  : InsertResult.t * res unit * Svc :=
  let issues := draft_issues drafts in
  match issues, drafts with
  | _ :: _, _ => (InsertResult.zero, Err (ValidationError "publish" issues), s)
  | [], [] => (InsertResult.zero, Ok tt, s)
  | [], _ =>
      let now := normalizeTime now in
      match stamp_drafts now drafts ∅ (Service.ids s) with
      | (Err e, g) => (InsertResult.zero, Err e, s <| Service.ids := g |>)
      | (Ok bySubject, g) =>
          let s := s <| Service.ids := g |> in
          let '(inserted, failure, d) :=
            insert_subjects bySubject (sorted_keys bySubject) InsertResult.zero
              (Service.store s) in
          let s := s <| Service.store := d |> in
          let s := signal (signalsFor (recipientsOf (InsertResult.Created inserted))
                             ChangeCreated now) s in
          (inserted, failure, s)
      end
  end.

(** *** Close *)

Definition Close (now : Time) (req : CloseRequest.t) : SM Svc error CloseResult.t :=
  fun s =>
    match CloseRequest_Validate req with
    | Err e => (Err e, s)
    | Ok _ =>
        let at_ := normalizeTime now in
        match store_Close req at_ (Service.ids s, Service.store s) with
        | (Err e, (g, d)) =>
            (Err e, s <| Service.ids := g |> <| Service.store := d |>)
        | (Ok result, (g, d)) =>
            let s := s <| Service.ids := g |> <| Service.store := d |> in
            let signals := signalsFor (CloseResult.Recipients result) ChangeClosed at_ in
            let signals := signals ++
              signalsFor (recipientsOf (CloseResult.Successors result)) ChangeCreated at_ in
            (Ok result, signal signals s)
        end
    end.

(** *** Reading *)

Definition Get (recipient id : string) (s : Svc) : res Notification.t :=
  let issues := validateIdentifier "/recipient" recipient in
  let issues :=
    if decide (id = "") then issues ++ [ValidationIssue.mk "/id" "is required"] else issues in
  try! _ := invalid "request" issues in
  store_Get recipient id (Service.store s).

Definition List_ (digest : string -> string) (parse : string -> option cursorPayload.t)
    (q : ListQuery.t) (s : Svc) : res Page.t :=
  try! _ := ListQuery_Validate digest parse q in
  store_List q (Service.store s).

Definition CountActive (recipient : string) (s : Svc) : res nat :=
  try! _ := invalid "request" (validateIdentifier "/recipient" recipient) in
  store_CountActive recipient (Service.store s).

(** *** Marking read *)

Definition MarkRead (now : Time) (recipient : string) (notification_ids : list string)
  : SM Svc error MarkResult.t :=
  fun s =>
    let issues := validateIdentifier "/recipient" recipient in
    let issues :=
      match notification_ids with
      | [] => issues ++ [ValidationIssue.mk "/ids" "at least one identifier is required"]
      | _ => issues
      end in
    match invalid "request" issues with
    | Err e => (Err e, s)
    | Ok _ =>
        let at_ := normalizeTime now in
        match store_MarkRead recipient notification_ids at_ (Service.store s) with
        | (Err e, d) => (Err e, s <| Service.store := d |>)
        | (Ok result, d) =>
            let s := s <| Service.store := d |> in
            (Ok result,
             if decide (0 < MarkResult.Marked result)
             then signal (signalsFor [recipient] ChangeRead at_) s else s)
        end
    end.

Definition MarkAllRead (now : Time) (recipient : string) (through : Time)
  : SM Svc error MarkResult.t :=
  fun s =>
    match invalid "request" (validateIdentifier "/recipient" recipient) with
    | Err e => (Err e, s)
    | Ok _ =>
        let at_ := normalizeTime now in
        let through := if decide (through = 0%Z) then at_ else through in
        match store_MarkAllRead recipient (normalizeTime through) at_ (Service.store s) with
        | (Err e, d) => (Err e, s <| Service.store := d |>)
        | (Ok result, d) =>
            let s := s <| Service.store := d |> in
            (Ok result,
             if decide (0 < MarkResult.Marked result)
             then signal (signalsFor [recipient] ChangeRead at_) s else s)
        end
    end.

(** *** Pruning: [Pruner.Prune] *)

Definition Prune (now : Time) (request : PruneRequest.t) : SM Svc error PruneResult.t :=
  fun s =>
    let request := request <| PruneRequest.Now := normalizeTime now |> in
    match store_Prune request (Service.store s) with
    | (Err e, d) => (Err e, s <| Service.store := d |>)
    | (Ok result, d) =>
        let s := s <| Service.store := d |> in
        (Ok result,
         signal (signalsFor (PruneResult.Recipients result) ChangePruned
                   (PruneRequest.Now request)) s)
    end.
End service.

(** ** The pruner's configuration *)

Definition Hour : Z := (60 * 60 * 1000000000)%Z.
Definition DefaultMaxPerRecipient : Z := 500.
Definition DefaultMaxAge : Z := (90 * 24 * Hour)%Z.
Definition DefaultWatermarkRetention : Z := (7 * 24 * Hour)%Z.
Definition DefaultPruneBatch : Z := 1000.

Module pruneConfig.
Record t : Type := mk {
  maxPerRecipient : option Z;
  withoutCount : bool;
  maxAge : option Z;
  withoutAge : bool;
  strategy : option RetentionStrategy;
  watermarkRetention : option Z;
  batch : option Z
}.
#[global] Instance eta : Eta t := fun x =>
  mk (maxPerRecipient x) (withoutCount x) (maxAge x) (withoutAge x) (strategy x)
    (watermarkRetention x) (batch x).
Definition zero : t := mk None false None false None None None.
End pruneConfig.

(** [PruneOption]: what an option does to the configuration.  The error handler
    is not part of the values. *)
Inductive PruneOption : Type :=
| WithMaxPerRecipient (n : Z)
| WithoutMaxPerRecipient
| WithMaxAge (age : Z)
| WithoutMaxAge
| WithRetentionStrategy (strategy : RetentionStrategy)
| WithWatermarkRetention (retention : Z)
| WithPruneBatch (n : Z).

Definition apply_prune_option (opt : PruneOption) (c : pruneConfig.t) : pruneConfig.t :=
  match opt with
  | WithMaxPerRecipient n => c <| pruneConfig.maxPerRecipient := Some n |>
  | WithoutMaxPerRecipient => c <| pruneConfig.withoutCount := true |>
  | WithMaxAge age => c <| pruneConfig.maxAge := Some age |>
  | WithoutMaxAge => c <| pruneConfig.withoutAge := true |>
  | WithRetentionStrategy strategy => c <| pruneConfig.strategy := Some strategy |>
  | WithWatermarkRetention retention =>
      c <| pruneConfig.watermarkRetention := Some retention |>
  | WithPruneBatch n => c <| pruneConfig.batch := Some n |>
  end.

(** A value that is set and meets a test. *)
Definition set_and {A} (test : A -> bool) (o : option A) : bool :=
  match o with Some x => test x | None => false end.

Definition nonPositive (z : Z) : bool := bool_decide (z <= 0)%Z.

Definition pruneConfig_validate (c : pruneConfig.t) : res unit :=
  let refuse detail := Err (ConfigurationError detail) in
  if set_and (fun _ => true) (pruneConfig.maxPerRecipient c) && pruneConfig.withoutCount c
  then refuse "the count bound is both set and removed; choose WithMaxPerRecipient or WithoutMaxPerRecipient"
  else if set_and nonPositive (pruneConfig.maxPerRecipient c)
  then refuse "the count bound must be positive; use WithoutMaxPerRecipient to remove it"
  else if set_and (fun _ => true) (pruneConfig.maxAge c) && pruneConfig.withoutAge c
  then refuse "the age bound is both set and removed; choose WithMaxAge or WithoutMaxAge"
  else if set_and nonPositive (pruneConfig.maxAge c)
  then refuse "the age bound must be positive; use WithoutMaxAge to remove it"
  else if pruneConfig.withoutCount c && pruneConfig.withoutAge c
  then refuse "a pruner with both bounds removed could never prune anything"
  else if set_and (fun s => negb (RetentionStrategy_Valid s)) (pruneConfig.strategy c)
  then refuse ("the retention strategy " +:+
               default "" (RetentionStrategy_String <$> pruneConfig.strategy c) +:+
               " is not EvictOldestActive or RetainActive")
  else if set_and nonPositive (pruneConfig.watermarkRetention c)
  then refuse "the watermark retention must be positive"
  else if set_and nonPositive (pruneConfig.batch c)
  then refuse "the prune batch must be positive"
  else Ok tt.

(** [NewPruner]: the request each pass starts from. *)
Definition NewPruner (service : bool) (opts : list (option PruneOption))
  : res PruneRequest.t :=
  if negb service then Err (ConfigurationError "a pruner needs a service")
  else
    let cfg := for_each (fun opt c =>
      match opt with Some opt => apply_prune_option opt c | None => c end)
      opts pruneConfig.zero in
    try! _ := pruneConfig_validate cfg in
    let request := PruneRequest.mk 0%Z DefaultMaxPerRecipient DefaultMaxAge EvictOldestActive
                     DefaultWatermarkRetention DefaultPruneBatch in
    let request :=
      if pruneConfig.withoutCount cfg
      then request <| PruneRequest.MaxPerRecipient := 0%Z |>
      else match pruneConfig.maxPerRecipient cfg with
           | Some n => request <| PruneRequest.MaxPerRecipient := n |>
           | None => request
           end in
    let request :=
      if pruneConfig.withoutAge cfg
      then request <| PruneRequest.MaxAge := 0%Z |>
      else match pruneConfig.maxAge cfg with
           | Some age => request <| PruneRequest.MaxAge := age |>
           | None => request
           end in
    let request :=
      match pruneConfig.strategy cfg with
      | Some strategy => request <| PruneRequest.Strategy := strategy |>
      | None => request
      end in
    let request :=
      match pruneConfig.watermarkRetention cfg with
      | Some retention => request <| PruneRequest.WatermarkRetention := retention |>
      | None => request
      end in
    Ok (match pruneConfig.batch cfg with
        | Some n => request <| PruneRequest.Batch := n |>
        | None => request
        end).

(** ** The in-memory store keeps the port *)

Section memory.
Context (digest : string -> string).
Context (render : cursorPayload.t -> string) (parse : string -> option cursorPayload.t).

Definition MemoryStore_Store : Store MemoryStore.t := {|
  store_Insert := NotifyStore.Insert;
  store_Close := @NotifyStore.Close;
  store_Get := NotifyStore.Get;
  store_List := NotifyStore.List_ digest render parse;
  store_CountActive := fun recipient s => Ok (NotifyStore.CountActive recipient s);
  store_MarkRead := NotifyStore.MarkRead;
  store_MarkAllRead := NotifyStore.MarkAllRead;
  store_Prune := NotifyStore.Prune
|}.
End memory.
