(* ===== verification/NotifyInvariant.v ===== *)
(** * NotifyInvariant: what holds of everything the notification service does

    Any sequence of the service's operations on the in-memory store, with the
    readings of the clock and the answers of the broadcaster it meets: the store
    stays in order, a notification only moves forward and never comes back, and
    what a close closed stays closed to late publications while its close record
    is kept. *)

From S2P Require Import Prelude Domain Json Notification Collections NotifyStore.
From S2P Require Import NotifyStoreFacts NotifyPrune NotifyService.
Import MemoryStore.

(** ** Identifiers that are never repeated *)

(** The next [n] identifiers drawn are distinct, and none was used. *)
Fixpoint fresh {G} `{!IDGenerator G} (n : nat) (g : G) (used : list string) : Prop :=
  match n with
  | 0 => True
  | S n =>
      match NewID g with
      | (Ok id, g') => id ∉ used /\ fresh n g' (id :: used)
      | (Err _, g') => fresh n g' used
      end
  end.

(** A generator that never repeats an identifier, as its port promises. *)
Definition never_repeats {G} `{!IDGenerator G} (g : G) (used : list string) : Prop :=
  forall n, fresh n g used.

Section fresh_lemmas.
Context {G : Type} `{!IDGenerator G}.

(** Only the set of the identifiers used matters. *)
Lemma fresh_ext n g u1 u2 : (forall x, x ∈ u1 <-> x ∈ u2) -> fresh n g u1 -> fresh n g u2.
Proof.
  revert g u1 u2. induction n as [|n IH]; cbn; intros g u1 u2 E; [done|].
  destruct (NewID g) as [[id|e] g']; [|by apply IH]. intros [Hid H]. split; [by rewrite <- E|].
  eapply IH; [|done]. intros x. rewrite !elem_of_cons, E. done.
Qed.

Lemma never_repeats_ext g u1 u2 :
  (forall x, x ∈ u1 <-> x ∈ u2) -> never_repeats g u1 -> never_repeats g u2.
Proof. intros E H n. by eapply fresh_ext. Qed.

Lemma never_repeats_ok g used id g' :
  never_repeats g used -> NewID g = (Ok id, g') ->
  id ∉ used /\ never_repeats g' (id :: used).
Proof.
  intros H E. split.
  - specialize (H 1). cbn in H. rewrite E in H. tauto.
  - intros n. specialize (H (S n)). cbn in H. rewrite E in H. tauto.
Qed.

Lemma never_repeats_err g used e g' :
  never_repeats g used -> NewID g = (Err e, g') -> never_repeats g' used.
Proof. intros H E n. specialize (H (S n)). cbn in H. by rewrite E in H. Qed.
End fresh_lemmas.

(** ** What an insertion adds *)

Record Inserted (s s' : MemoryStore.t) (minted : list string) (now : Time) : Prop := {
  ins_ok : StoreOk s';
  ins_grows : grows s s';
  ins_new id n : notifications s' !! id = Some n ->
    notifications s !! id = Some n \/
    (id ∈ minted /\ Notification.CreatedAt n = now /\
     (floor s (Notification.Subject n) (Notification.Kind n) <=
      Notification.SubjectVersion n)%Z);
  ins_watermarks key mark : watermarks s !! key = Some mark -> watermarks s' !! key = Some mark
}.

Lemma Inserted_refl s minted now : StoreOk s -> Inserted s s minted now.
Proof. intros H. constructor; auto. reflexivity. Qed.

Lemma Inserted_trans s1 s2 s3 m1 m2 now :
  Inserted s1 s2 m1 now -> Inserted s2 s3 m2 now -> Inserted s1 s3 (m1 ++ m2) now.
Proof.
  intros [_ G1 N1 W1] [O2 G2 N2 W2]. constructor; [done|by etrans| |by auto].
  intros id n [H|(Hid & Hc & Hf)]%N2.
  - destruct (N1 id n H) as [?|(? & ? & ?)]; [by left|right]. set_solver.
  - right. split_and!; [set_solver|done|].
    rewrite floor_marks in *. by rewrite !(grows_marks s1 s2 G1) in Hf.
Qed.

Definition ids_in (l : list Insertion.t) : list string :=
  (fun i => Notification.ID (Insertion.Notification_ i)) <$> l.

Lemma insert_one_store subject i r s :
  (insert_one subject i (r, s)).2 = s \/
  exists at_ n, (insert_one subject i (r, s)).2 =
    ensureWatermark (subject, allKinds) at_ (put n s).
Proof.
  unfold insert_one. destruct (decide _); [by left|]. destruct (_ && _); [by left|].
  destruct (sources s !! _); [by left|]. right. eexists _, _. reflexivity.
Qed.

Lemma ensureWatermark_keeps key0 at_ s key mark :
  watermarks s !! key = Some mark -> watermarks (ensureWatermark key0 at_ s) !! key = Some mark.
Proof.
  intros Hm. unfold ensureWatermark. destruct (watermarks s !! key0) eqn:E; [done|]. cbn.
  rewrite lookup_insert_ne; [done|]. intros <-. congruence.
Qed.

Lemma insert_loop_watermarks subject l r s key mark :
  watermarks s !! key = Some mark ->
  watermarks (for_each (insert_one subject) l (r, s)).2 !! key = Some mark.
Proof.
  revert r s. induction l as [|i l IH]; intros r s Hm; cbn [for_each]; [done|].
  pose proof (insert_one_store subject i r s) as H.
  destruct (insert_one subject i (r, s)) as [r1 s1]. apply IH. cbn [snd] in H.
  destruct H as [->|(at_ & n & ->)]; [done|]. by apply ensureWatermark_keeps.
Qed.

Lemma insert_inserted subject l s now :
  StoreOk s -> Fit s l ->
  (forall i, i ∈ l -> Notification.CreatedAt (Insertion.Notification_ i) = now) ->
  Inserted s (insert_ subject l s).2 (ids_in l) now.
Proof.
  intros Hok Hfit Hnow. unfold insert_.
  destruct (insert_loop subject l InsertResult.zero s Hok Hfit)
    as (Hok' & Hg & _ & _ & new & _ & Hsub & Hn & Hv).
  constructor; [done|done| |intros key mark; apply insert_loop_watermarks].
  intros id n. rewrite Hn. intros [H|[_ H]]%lookup_union_Some_raw; [right|by left].
  unfold by_id in H. apply elem_of_list_to_map_2 in H.
  apply list_elem_of_fmap in H as (n' & [= -> ->] & Hin). pose proof Hin as Hin'.
  eapply elem_of_sublist in Hin; [|done].
  apply list_elem_of_fmap in Hin as (i & -> & Hi). split_and!.
  - by apply (list_elem_of_fmap_2 (fun i => Notification.ID (Insertion.Notification_ i))).
  - by apply Hnow.
  - by apply Hv.
Qed.

(** What is held after an insertion was held, or is one of the inserted the store
    had not absorbed. *)
Lemma insert_held subject l s id n :
  StoreOk s -> Fit s l -> notifications (insert_ subject l s).2 !! id = Some n ->
  notifications s !! id = Some n \/
  exists i, i ∈ l /\ n = restamp subject i /\ ~ absorbed s subject i.
Proof. unfold insert_. apply insert_loop_held. Qed.

(** ** Publishing *)

(** Insertions by subject, as the loop over the drafts files them. *)
Definition grouped (l : list Insertion.t) : gmap string (list Insertion.t) :=
  group_by (fun i => Notification.Subject (Insertion.Notification_ i)) l ∅.

Section stamping.
Context {G : Type} `{!IDGenerator G}.

Lemma stamp_drafts_spec now drafts m g used :
  never_repeats g used ->
  exists minted g',
    never_repeats g' (minted ++ used) /\ NoDup minted /\
    (forall id, id ∈ minted -> id ∉ used) /\
    (stamp_drafts now drafts m g).2 = g' /\
    match (stamp_drafts now drafts m g).1 with
    | Ok m' =>
        exists l, ids_in l = minted /\
          m' = group_by (fun i => Notification.Subject (Insertion.Notification_ i)) l m /\
          l = zip_with (insertionOf now) drafts (ids_in l) /\
          length l = length drafts
    | Err _ => True
    end.
Proof.
  revert m g used. induction drafts as [|d drafts IH]; intros m g used Hg; cbn [stamp_drafts].
  { exists [], g. split_and!; [done|constructor|set_solver|done|].
    cbn. exists []. split_and!; done. }
  unfold sbind. destruct (NewID g) as [[id|e] g1] eqn:E.
  - destruct (never_repeats_ok _ _ _ _ Hg E) as [Hid Hg1].
    destruct (IH (append_to (Draft.Subject d) (insertionOf now d id) m) g1 (id :: used) Hg1)
      as (minted & g' & Hn & Hnd & Hout & Hg' & Hres).
    exists (id :: minted), g'. split_and!; [| | |done|].
    + eapply never_repeats_ext; [|exact Hn]. set_solver.
    + apply NoDup_cons. split; [|done]. intros Hin. apply (Hout id Hin). left.
    + intros x [->|Hx]%elem_of_cons; [done|]. intros Hu. apply (Hout x Hx). by right.
    + destruct (stamp_drafts now drafts _ g1) as [[m'|] g'']; cbn in *; [|done].
      destruct Hres as (l & Hids & -> & Hl & Hlen).
      exists (insertionOf now d id :: l). split_and!.
      * cbn. f_equal. exact Hids.
      * cbn [group_by].
        assert (E1 : Notification.Subject (Insertion.Notification_ (insertionOf now d id)) =
                     Draft.Subject d) by reflexivity.
        by rewrite E1.
      * cbn. f_equal. exact Hl.
      * cbn. by rewrite Hlen.
  - exists [], g1. split_and!; [|constructor|set_solver|done|done].
    by eapply never_repeats_err.
Qed.
End stamping.

Section world.
Context {G B : Type} `{!IDGenerator G, !Broadcaster B}.
Context (digest : string -> string).
Context (render : cursorPayload.t -> string) (parse : string -> option cursorPayload.t).

#[local] Instance memory : Store MemoryStore.t := MemoryStore_Store digest render parse.

(** The loop over the subjects, on insertions under distinct free identifiers. *)
Lemma insert_subjects_inserted l now subjects inserted s :
  NoDup subjects -> NoDup (ids_in l) ->
  (forall i, i ∈ l -> Stamped (Insertion.Notification_ i) /\
     Notification.CreatedAt (Insertion.Notification_ i) = now) ->
  (forall i, i ∈ l -> Notification.Subject (Insertion.Notification_ i) ∈ subjects ->
     notifications s !! Notification.ID (Insertion.Notification_ i) = None) ->
  StoreOk s ->
  let out := insert_subjects (grouped l) subjects inserted s in
  out.1.2 = Ok tt /\ Inserted s out.2 (ids_in l) now.
Proof.
  intros Hsub Hids Hst. revert inserted s. induction subjects as [|subject subjects IH];
    intros inserted s Hfree Hok; cbn [insert_subjects].
  { split; [done|by apply Inserted_refl]. }
  apply NoDup_cons in Hsub as [Hnot Hsub].
  set (group := default [] (grouped l !! subject)).
  assert (Hgroup : group =
    filter (fun i => Notification.Subject (Insertion.Notification_ i) = subject) l).
  { unfold group, grouped. by rewrite lookup_group_by, lookup_empty. }
  assert (Hin : forall i, i ∈ group <->
    Notification.Subject (Insertion.Notification_ i) = subject /\ i ∈ l).
  { intros i. by rewrite Hgroup, list_elem_of_filter. }
  assert (Hfit : Fit s group).
  { constructor.
    - intros i [_ Hi]%Hin. by apply Hst.
    - rewrite Hgroup. by apply NoDup_fmap_filter.
    - intros i [Hs Hi]%Hin. apply Hfree; [done|]. rewrite Hs. left. }
  pose proof (insert_inserted subject group s now Hok Hfit) as Hins.
  cbn. unfold NotifyStore.Insert. destruct (insert_ subject group s) as [result s1]. cbn in Hins.
  destruct Hins as [Hok1 Hg1 Hn1 Hw1]; [intros i [_ Hi]%Hin; by apply Hst|].
  destruct (IH Hsub (InsertResult.add inserted result) s1) as [Hr Hins2]; [|done|].
  { intros i Hi Hs. destruct (notifications s1 !! _) as [n|] eqn:E; [|done].
    assert (Hne : subject <> Notification.Subject (Insertion.Notification_ i)) by (intros ->; done).
    apply Hn1 in E as [E|(E & _)].
    - rewrite Hfree in E; [done|done|by right].
    - apply list_elem_of_fmap in E as (j & E & [Hj Hjl]%Hin).
      assert (i = j) as -> by
        (by apply (NoDup_fmap_inj (fun i => Notification.ID (Insertion.Notification_ i)) l)).
      done. }
  split; [done|]. cbn in Hins2.
  constructor.
  - apply Hins2.
  - etrans; [done|apply Hins2].
  - intros id n Hn. destruct (ins_new _ _ _ _ Hins2 id n Hn) as [H|(? & ? & Hf)].
    + apply Hn1 in H as [?|(Hid & ? & ?)]; [by left|right]. split_and!; [|done..].
      apply list_elem_of_fmap in Hid as (i & -> & [_ Hi]%Hin).
      by apply (list_elem_of_fmap_2 (fun i => Notification.ID (Insertion.Notification_ i))).
    + right. split_and!; [done..|]. rewrite floor_marks in *.
      by rewrite !(grows_marks _ _ Hg1) in Hf.
  - intros key mark Hm. apply (ins_watermarks _ _ _ _ Hins2). by apply Hw1.
Qed.

(** ** The operations, and the state they act on *)

Abbreviation Svc := (Service.t G MemoryStore.t B).

Inductive Op : Type :=
| OpPublish (now : Time) (drafts : list Draft.t)
| OpClose (now : Time) (req : CloseRequest.t)
| OpMarkRead (now : Time) (recipient : string) (notification_ids : list string)
| OpMarkAllRead (now : Time) (recipient : string) (through : Time)
| OpPrune (now : Time) (request : PruneRequest.t)
| OpEmails (d : gmap string emailDelivery.t).

(** An operation and what it leaves, its answer aside.  The email operations
    write delivery records only, any records here. *)
Definition perform (op : Op) (s : Svc) : Svc :=
  match op with
  | OpPublish now drafts => (Publish now drafts s).2
  | OpClose now req => (NotifyService.Close now req s).2
  | OpMarkRead now recipient l => (NotifyService.MarkRead now recipient l s).2
  | OpMarkAllRead now recipient through =>
      (NotifyService.MarkAllRead now recipient through s).2
  | OpPrune now request => (NotifyService.Prune now request s).2
  | OpEmails d => s <| Service.store := (Service.store s) <| deliveries := d |> |>
  end.

Definition performs (ops : list Op) (s : Svc) : Svc := for_each perform ops s.

(** The state is in order: the store is, its identifiers were drawn from a
    generator that never repeats one, and its instants are in microseconds. *)
Record WorldOk (s : Svc) (used : list string) : Prop := {
  world_store : StoreOk (Service.store s);
  world_fresh : never_repeats (Service.ids s) used;
  world_used id : is_Some (notifications (Service.store s) !! id) -> id ∈ used;
  world_dated id n : notifications (Service.store s) !! id = Some n ->
    normalizeTime (Notification.CreatedAt n) = Notification.CreatedAt n
}.

(** What happened to the notifications between two states: those still held have
    moved on, and those that are new carry new identifiers. *)
Definition evolved (used : list string) (s s' : Svc) : Prop :=
  forall id n', id ∈ used -> notifications (Service.store s') !! id = Some n' ->
  exists n, notifications (Service.store s) !! id = Some n /\ moves_on n n'.

Lemma evolved_refl used s : evolved used s s.
Proof. intros id n' _ Hn. exists n'. split; [done|reflexivity]. Qed.

Lemma evolved_trans used used' s1 s2 s3 :
  (forall id, id ∈ used -> id ∈ used') ->
  evolved used s1 s2 -> evolved used' s2 s3 -> evolved used s1 s3.
Proof.
  intros Hu H12 H23 id n3 Hid Hn3.
  destruct (H23 id n3 (Hu id Hid) Hn3) as (n2 & Hn2 & M23).
  destruct (H12 id n2 Hid Hn2) as (n1 & Hn1 & M12). exists n1. split; [done|by etrans].
Qed.

(** One operation keeps the order of the state. *)
Definition Keeps (s s' : Svc) (used : list string) : Prop :=
  exists used', (forall id, id ∈ used -> id ∈ used') /\ WorldOk s' used' /\ evolved used s s'.

Lemma Keeps_refl s used : WorldOk s used -> Keeps s s used.
Proof. intros H. exists used. split_and!; [done|done|apply evolved_refl]. Qed.

(** Signals change nothing but the broadcaster and the error handler's log. *)
Lemma signal_rest signals (s : Svc) :
  Service.store (signal signals s) = Service.store s /\
  Service.ids (signal signals s) = Service.ids s.
Proof.
  unfold signal. destruct signals; [done|]. destruct (Broadcast _ _) as [[|] b]; done.
Qed.

Lemma Keeps_signal signals s s' used : Keeps s s' used -> Keeps s (signal signals s') used.
Proof.
  destruct (signal_rest signals s') as [E1 E2]. intros (used' & Hu & [H1 H2 H3 H4] & Hev).
  exists used'. split_and!; [done|constructor|].
  - by rewrite E1.
  - by rewrite E2.
  - by rewrite E1.
  - by rewrite E1.
  - intros id n'. rewrite E1. apply Hev.
Qed.

(** An operation that rewrites notifications in place, or removes some. *)
Record InPlace (s s' : Svc) : Prop := {
  in_place_ids : Service.ids s' = Service.ids s;
  in_place_ok : StoreOk (Service.store s');
  in_place_moves id n' : notifications (Service.store s') !! id = Some n' ->
    exists n, notifications (Service.store s) !! id = Some n /\ moves_on n n'
}.

Lemma Keeps_in_place s s' used : WorldOk s used -> InPlace s s' -> Keeps s s' used.
Proof.
  intros [Ho Hf Hu Hd] [Hi Hok Hm]. exists used. split_and!; [done| |].
  - constructor; [done|by rewrite Hi| |].
    + intros id [n' Hn']. apply Hm in Hn' as (n & Hn & _). apply Hu. by rewrite Hn.
    + intros id n' Hn'. apply Hm in Hn' as (n & Hn & M). rewrite (same_CreatedAt _ _ M).
      by eapply Hd.
  - intros id n' _ Hn'. by apply Hm.
Qed.

Lemma same_notifications (s : Svc) id n' :
  notifications (Service.store s) !! id = Some n' ->
  exists n, notifications (Service.store s) !! id = Some n /\ moves_on n n'.
Proof. intros H. exists n'. split; [done|reflexivity]. Qed.

Lemma InPlace_refl s : StoreOk (Service.store s) -> InPlace s s.
Proof. intros H. constructor; [done|done|apply same_notifications]. Qed.

Lemma InPlace_signal signals s s' : InPlace s s' -> InPlace s (signal signals s').
Proof.
  destruct (signal_rest signals s') as [E1 E2]. intros [H1 H2 H3].
  constructor; rewrite ?E1, ?E2; done.
Qed.

(** An operation that draws identifiers and inserts under them. *)
Lemma Keeps_inserted s d d' g' minted drawn now used :
  WorldOk s used -> StoreOk d ->
  (forall id n', notifications d !! id = Some n' ->
     exists n, notifications (Service.store s) !! id = Some n /\ moves_on n n') ->
  Inserted d d' minted now -> normalizeTime now = now ->
  never_repeats g' (drawn ++ used) -> (forall id, id ∈ drawn -> id ∉ used) ->
  (forall id, id ∈ minted -> id ∈ drawn) ->
  Keeps s (s <| Service.ids := g' |> <| Service.store := d' |>) used.
Proof.
  intros [Ho Hf Hu Hd] Hok Hm [Hok' Hg Hn Hw] Hnow Hg' Hdrawn Hminted.
  exists (drawn ++ used). split_and!; [set_solver| |].
  - constructor; cbn; [done|done| |].
    + intros id [n' Hn']. apply elem_of_app. apply Hn in Hn' as [Hn'|(Hid & _)].
      * right. apply Hm in Hn' as (n & E & _). apply Hu. by rewrite E.
      * left. by apply Hminted.
    + intros id n' Hn'. apply Hn in Hn' as [Hn'|(_ & -> & _)]; [|done].
      apply Hm in Hn' as (n & E & M). rewrite (same_CreatedAt _ _ M). by eapply Hd.
  - intros id n' Hid Hn'. cbn in Hn'. apply Hn in Hn' as [Hn'|(Hin & _)]; [by apply Hm|].
    destruct (Hdrawn id); [by apply Hminted|done].
Qed.

(** An operation that draws identifiers and stores nothing. *)
Lemma Keeps_drawn s d g' drawn used :
  WorldOk s used -> StoreOk d ->
  (forall id n', notifications d !! id = Some n' ->
     exists n, notifications (Service.store s) !! id = Some n /\ moves_on n n') ->
  never_repeats g' (drawn ++ used) -> (forall id, id ∈ drawn -> id ∉ used) ->
  Keeps s (s <| Service.ids := g' |> <| Service.store := d |>) used.
Proof.
  intros Hs Hok Hm Hg' Hdrawn.
  eapply (Keeps_inserted s d d g' [] drawn 0%Z); try done.
  - by apply Inserted_refl.
  - set_solver.
Qed.

Lemma in_zip_stamped now drafts l i :
  l = zip_with (insertionOf now) drafts (ids_in l) -> i ∈ l ->
  exists d id, d ∈ drafts /\ i = insertionOf now d id.
Proof.
  intros E Hi. rewrite E in Hi. apply elem_of_zip_with in Hi as (d & id & -> & Hd & _). eauto.
Qed.

(** What a publication with drafts in order inserts. *)
Lemma Publish_inserts now drafts s used :
  WorldOk s used ->
  exists drawn g' out,
    never_repeats g' (drawn ++ used) /\ (forall id, id ∈ drawn -> id ∉ used) /\
    Inserted (Service.store s) out drawn (normalizeTime now) /\
    (Service.ids (Publish now drafts s).2 = g' /\ Service.store (Publish now drafts s).2 = out
     \/ (Publish now drafts s).2 = s).
Proof.
  intros [Ho Hf Hu Hd]. unfold Publish. cbv zeta.
  destruct (draft_issues drafts) as [|x l0].
  2: { exists [], (Service.ids s), (Service.store s). split_and!; [done|set_solver| |by right].
       by apply Inserted_refl. }
  destruct drafts as [|d drafts].
  { exists [], (Service.ids s), (Service.store s). split_and!; [done|set_solver| |by right].
    by apply Inserted_refl. }
  remember (d :: drafts) as drafts' eqn:Edrafts. clear Edrafts.
  destruct (stamp_drafts_spec (normalizeTime now) drafts' ∅ (Service.ids s) used Hf)
    as (drawn & g' & Hg' & Hnd & Hdrawn & Hgen & Hres).
  destruct (stamp_drafts _ drafts' ∅ (Service.ids s)) as [[m|e] g'']; cbn in Hgen, Hres; subst g''.
  2: { exists drawn, g', (Service.store s). split_and!; [done|done| |by left].
       by apply Inserted_refl. }
  destruct Hres as (l & Hids & -> & Hl & Hlen). fold (grouped l).
  pose proof (insert_subjects_inserted l (normalizeTime now) (sorted_keys (grouped l))
                InsertResult.zero (Service.store s)) as Hins.
  destruct Hins as [_ Hins]; [apply sorted_keys_NoDup|by rewrite Hids| | |done|].
  - intros i Hi. destruct (in_zip_stamped _ _ l i Hl Hi) as (d0 & id & _ & ->). done.
  - intros i Hi _. apply eq_None_not_Some. intros Hs. apply Hu in Hs.
    apply (Hdrawn (Notification.ID (Insertion.Notification_ i))); [|done].
    rewrite <- Hids.
    by apply (list_elem_of_fmap_2 (fun i => Notification.ID (Insertion.Notification_ i))).
  - cbn. destruct (insert_subjects (grouped l) (sorted_keys (grouped l)) InsertResult.zero
                     (Service.store s)) as [[inserted failure] d'] eqn:E.
    cbn in Hins. exists drawn, g', d'. split_and!; [done|done|by rewrite <- Hids|left].
    destruct (signal_rest (signalsFor (recipientsOf (InsertResult.Created inserted))
      ChangeCreated (normalizeTime now)) (s <| Service.ids := g' |> <| Service.store := d' |>))
      as [E1 E2]. split; [exact E2|exact E1].
Qed.

Lemma Keeps_publish now drafts s used :
  WorldOk s used -> Keeps s (Publish now drafts s).2 used.
Proof.
  intros Hs. destruct (Publish_inserts now drafts s used Hs)
    as (drawn & g' & d' & Hg' & Hdrawn & Hins & [[E1 E2]|E]).
  2: { rewrite E. by apply Keeps_refl. }
  destruct (Keeps_inserted s (Service.store s) d' g' drawn drawn (normalizeTime now) used)
    as (used' & Hu & Hw & Hev);
    [done|apply Hs|apply same_notifications|done|apply NormalizeTime_idemp|done..|].
  exists used'. split_and!; [done| |].
  - destruct Hw as [W1 W2 W3 W4]. constructor; rewrite ?E1, ?E2; done.
  - intros id n'. rewrite E2. apply (Hev id n').
Qed.

(** *** Closing *)

(** A notification of the kind a close's successors are. *)
Definition succeeds (req : CloseRequest.t) (n : Notification.t) : Prop :=
  exists successor, CloseRequest.Successor_ req = Some successor /\
    Notification.Kind n = Successor.Kind successor.

Lemma SuccessorInsertions_spec req recipients at_ g used :
  never_repeats g used ->
  exists drawn g',
    never_repeats g' (drawn ++ used) /\ NoDup drawn /\ (forall id, id ∈ drawn -> id ∉ used) /\
    (SuccessorInsertions req recipients at_ g).2 = g' /\
    match (SuccessorInsertions req recipients at_ g).1 with
    | Ok l => ids_in l = drawn /\
        forall i, i ∈ l -> Stamped (Insertion.Notification_ i) /\
          Notification.CreatedAt (Insertion.Notification_ i) = at_ /\
          succeeds req (Insertion.Notification_ i)
    | Err _ => True
    end.
Proof.
  intros Hg. unfold SuccessorInsertions, succeeds.
  destruct (CloseRequest.Successor_ req) as [successor|].
  2: { exists [], g. split_and!; [done|constructor|set_solver|done|]. cbn. split; [done|set_solver]. }
  revert g used Hg. induction recipients as [|r recipients IH]; intros g used Hg;
    cbn [stamp_successors].
  { exists [], g. split_and!; [done|constructor|set_solver|done|]. cbn. split; [done|set_solver]. }
  destruct (contains _ r); [by apply IH|]. unfold sbind.
  destruct (NewID g) as [[id|e] g1] eqn:E.
  - destruct (never_repeats_ok _ _ _ _ Hg E) as [Hid Hg1].
    destruct (IH g1 (id :: used) Hg1) as (drawn & g' & Hn & Hnd & Hout & Hg' & Hres).
    exists (id :: drawn), g'. split_and!.
    + eapply never_repeats_ext; [|exact Hn]. set_solver.
    + apply NoDup_cons. split; [|done]. intros Hin. apply (Hout id Hin). left.
    + intros x [->|Hx]%elem_of_cons; [done|]. intros Hu. apply (Hout x Hx). by right.
    + by destruct (stamp_successors _ _ _ recipients g1) as [[]].
    + destruct (stamp_successors _ _ _ recipients g1) as [[l|] g'']; cbn in *; [|done].
      destruct Hres as [Hids Hst]. split; [by f_equal|].
      intros i [->|Hi]%elem_of_cons; [|by apply Hst]. split_and!; [done|done|by eexists].
  - exists [], g1. split_and!; [|constructor|set_solver|done|done].
    by eapply never_repeats_err.
Qed.

(** What a close does, as a close of the subject and an insertion. *)
Lemma Close_runs req at_ g s used :
  StoreOk s -> (-1 <= CloseRequest.Version req)%Z -> never_repeats g used ->
  (forall id, is_Some (notifications s !! id) -> id ∈ used) ->
  let at' := normalizeTime at_ in
  let s1 := (close_subject req at' s).2 in
  exists drawn g' s',
    never_repeats g' (drawn ++ used) /\ (forall id, id ∈ drawn -> id ∉ used) /\
    (NotifyStore.Close req at_ (g, s)).2 = (g', s') /\ Inserted s1 s' drawn at' /\
    forall id n, notifications s' !! id = Some n ->
      notifications s1 !! id = Some n \/ succeeds req n.
Proof.
  intros Hok Hv Hg Hu. cbv zeta. unfold NotifyStore.Close.
  destruct (close_subject_outcome req (normalizeTime at_) s Hok Hv)
    as (_ & _ & Hok1 & Hn1 & _ & _).
  destruct (close_subject req (normalizeTime at_) s) as [[closed recipients] s1].
  cbn [fst snd] in *.
  destruct (SuccessorInsertions_spec req
    (CloseResult.Recipients (CloseResult.mk closed (sort_strings (elements recipients)) [] 0))
    (normalizeTime at_) g used Hg) as (drawn & g' & Hg' & Hnd & Hout & E & Hres).
  destruct (SuccessorInsertions _ _ _ g) as [[l|e] g'']; cbn in E, Hres; subst g''.
  2: { exists drawn, g', s1. split_and!; [done..|by apply Inserted_refl|by left]. }
  destruct Hres as [Hids Hst].
  destruct (decide (l <> [])) as [Hl|Hl].
  2: { exists drawn, g', s1. split_and!; [done..|by apply Inserted_refl|by left]. }
  assert (Hfit : Fit s1 l).
  { constructor.
    - intros i Hi. by apply Hst.
    - change (NoDup (ids_in l)). by rewrite Hids.
    - intros i Hi. rewrite Hn1. unfold closed_map. rewrite lookup_fmap.
      destruct (notifications s !! _) as [n|] eqn:E; [|done].
      destruct (Hout (Notification.ID (Insertion.Notification_ i))).
      + rewrite <- Hids.
        by apply (list_elem_of_fmap_2 (fun i => Notification.ID (Insertion.Notification_ i))).
      + apply Hu. by rewrite E. }
  pose proof (insert_inserted (CloseRequest.Subject req) l s1 (normalizeTime at_) Hok1 Hfit) as Hins.
  pose proof (fun id n => insert_held (CloseRequest.Subject req) l s1 id n Hok1 Hfit) as Hheld.
  destruct (insert_ (CloseRequest.Subject req) l s1) as [inserted s'].
  exists drawn, g', s'. split_and!; [done..| |].
  - rewrite <- Hids. apply Hins. intros i Hi. by apply Hst.
  - intros id n [Hn|(i & Hi & -> & _)]%Hheld; [by left|right]. apply (Hst i Hi).
Qed.

Lemma closed_map_moves req at_ s id n' :
  closed_map req at_ (notifications s) !! id = Some n' ->
  exists n, notifications s !! id = Some n /\ moves_on n n' /\
    (n' = n \/ closes req n = true /\ n' = closed_as req at_ n).
Proof.
  unfold closed_map. rewrite lookup_fmap. intros (n & E & Hn)%fmap_Some. exists n.
  split; [exact E|]. subst n'. destruct (closes req n) eqn:Hc; [|split; [reflexivity|by left]].
  split; [|by right]. apply closed_as_moves. intros Hst. unfold closes, spared in Hc.
  rewrite decide_True in Hc by (by left). by rewrite andb_false_r in Hc.
Qed.

(** A request that validates has a version. *)
Lemma invalid_ok subject issues : invalid subject issues = Ok tt -> issues = [].
Proof. by destruct issues. Qed.

Lemma validated_version req : CloseRequest_Validate req = Ok tt -> (0 <= CloseRequest.Version req)%Z.
Proof.
  unfold CloseRequest_Validate. cbv zeta. intros H%invalid_ok.
  destruct (decide (CloseRequest.Version req < 0)%Z) as [|]; [|lia]. exfalso.
  destruct (CloseRequest.Successor_ req); [apply app_nil in H as [H _]|];
    (destruct (decide (MaxIdentifierBytes < len (CloseRequest.Reason req))%Z);
     [apply app_nil in H as [H _]|]);
    apply app_nil in H as [H _]; by apply app_nil in H as [_ H].
Qed.

Lemma Keeps_close now req s used :
  WorldOk s used -> Keeps s (NotifyService.Close now req s).2 used.
Proof.
  intros Hs. unfold NotifyService.Close.
  destruct (CloseRequest_Validate req) as [[]|e] eqn:Hv; [|by apply Keeps_refl].
  apply validated_version in Hv. pose proof Hs as [Ho Hf Hu Hd].
  destruct (Close_runs req (normalizeTime now) (Service.ids s) (Service.store s) used Ho)
    as (drawn & g' & d' & Hg' & Hdrawn & E & Hins & _); [lia|done|done|].
  destruct (close_subject_outcome req (normalizeTime (normalizeTime now)) (Service.store s) Ho)
    as (_ & _ & Hok1 & Hn1 & _ & _); [lia|].
  assert (Hk : Keeps s (s <| Service.ids := g' |> <| Service.store := d' |>) used).
  { eapply (Keeps_inserted s _ d' g' drawn drawn _ used Hs Hok1); [|exact Hins| |done..].
    - rewrite Hn1. intros id n' (n & Hn & M & _)%closed_map_moves. eauto.
    - apply NormalizeTime_idemp. }
  cbv zeta. change (store_Close req (normalizeTime now) (Service.ids s, Service.store s))
    with (NotifyStore.Close req (normalizeTime now) (Service.ids s, Service.store s)).
  destruct (NotifyStore.Close req (normalizeTime now) (Service.ids s, Service.store s))
    as [[result|e] [g d]]; injection E as -> ->; [|exact Hk].
  by apply Keeps_signal.
Qed.

(** *** Marking read, pruning, emails *)

Lemma read_map_moves wanted at_ s id n' :
  StoreOk s -> read_map wanted at_ (notifications s) !! id = Some n' ->
  exists n, notifications s !! id = Some n /\ moves_on n n'.
Proof.
  intros Hok. unfold read_map. rewrite lookup_fmap. intros (n & E & ->)%fmap_Some.
  exists n. split; [exact E|]. destruct (wanted n); [|reflexivity].
  apply read_at_moves. by eapply (store_stamps s).
Qed.

Lemma MarkRead_in_place now recipient l s :
  StoreOk (Service.store s) ->
  let s' := (NotifyService.MarkRead now recipient l s).2 in
  InPlace s s' /\ watermarks (Service.store s') = watermarks (Service.store s).
Proof.
  intros Hs. unfold NotifyService.MarkRead. cbv zeta.
  destruct (invalid _ _) as [[]|e]; [|by split; [apply InPlace_refl|]].
  change (store_MarkRead recipient l (normalizeTime now) (Service.store s))
    with (NotifyStore.MarkRead recipient l (normalizeTime now) (Service.store s)).
  unfold NotifyStore.MarkRead. cbv zeta.
  destruct (all_held_spec recipient l (Service.store s)) as [[-> Hall]|[-> _]].
  2: { destruct s; by split; [apply InPlace_refl|]. }
  pose proof (mark_loop (normalizeTime (normalizeTime now)) (sorted_distinct l) (Service.store s)
                Hs (sorted_distinct_NoDup l)) as H.
  destruct (for_each _ (sorted_distinct l) _) as [marked d].
  destruct H as (Hok & _ & Ed).
  { intros id Hid. rewrite elem_of_sorted_distinct in Hid.
    destruct (Hall id Hid) as (n & Hn & _). eauto. }
  cbn [snd] in Ed. assert (Hk : InPlace s (s <| Service.store := d |>)).
  { constructor; [done|done|]. subst d. intros id n'. by apply read_map_moves. }
  cbn [snd]. case_decide; subst d.
  - split; [by apply InPlace_signal|]. by rewrite (proj1 (signal_rest _ _)).
  - by split.
Qed.

Lemma MarkAllRead_in_place now recipient through s :
  StoreOk (Service.store s) ->
  let s' := (NotifyService.MarkAllRead now recipient through s).2 in
  InPlace s s' /\ watermarks (Service.store s') = watermarks (Service.store s).
Proof.
  intros Hs. unfold NotifyService.MarkAllRead. cbv zeta.
  destruct (invalid _ _) as [[]|e]; [|by split; [apply InPlace_refl|]].
  set (t := normalizeTime (if decide (through = 0%Z) then normalizeTime now else through)).
  change (store_MarkAllRead recipient t (normalizeTime now) (Service.store s))
    with (NotifyStore.MarkAllRead recipient t (normalizeTime now) (Service.store s)).
  unfold NotifyStore.MarkAllRead. cbv zeta.
  pose proof (mark_all_loop recipient t (normalizeTime (normalizeTime now)) (Service.store s) Hs)
    as H.
  destruct (for_each _ (map_to_list _) _) as [marked d]. destruct H as (Hok & _ & Ed).
  cbn [snd] in Ed. assert (Hk : InPlace s (s <| Service.store := d |>)).
  { constructor; [done|done|]. subst d. intros id n'. by apply read_map_moves. }
  cbn [snd]. case_decide; subst d.
  - split; [by apply InPlace_signal|]. by rewrite (proj1 (signal_rest _ _)).
  - by split.
Qed.

Lemma Prune_in_place now req s :
  StoreOk (Service.store s) ->
  let s' := (NotifyService.Prune now req s).2 in
  let req' := req <| PruneRequest.Now := normalizeTime now |> in
  InPlace s s' /\
  (forall key mark, watermarks (Service.store s') !! key = Some mark <->
     watermarks (Service.store s) !! key = Some mark /\
     ~ expired req' (Service.store s') key mark).
Proof.
  intros Hs. unfold NotifyService.Prune. cbv zeta.
  destruct (Prune_runs (req <| PruneRequest.Now := normalizeTime now |>) (Service.store s) Hs)
    as (r & s1 & s2 & d & E & _ & Hn1 & _ & Hn2 & _ & Hok & Hn & _ & _ & Hw & _).
  change (store_Prune ?r (Service.store s)) with (NotifyStore.Prune r (Service.store s)).
  rewrite E. cbn [snd].
  split; [apply InPlace_signal; constructor; [done|done|]|].
  - cbn. rewrite Hn, Hn2, Hn1. intros id n'. rewrite !lookup_without. intros [[H _] _].
    by apply same_notifications.
  - by rewrite (proj1 (signal_rest _ _)).
Qed.

Lemma emails_in_place d s :
  StoreOk (Service.store s) ->
  InPlace s (s <| Service.store := (Service.store s) <| deliveries := d |> |>).
Proof.
  intros [[H1 H2 H3 H4] H5 H6].
  constructor; [done| |exact (same_notifications s)].
  constructor; [by constructor|exact H5|exact H6].
Qed.

Lemma perform_keeps op s used : WorldOk s used -> Keeps s (perform op s) used.
Proof.
  intros Hs. destruct op; cbn [perform].
  - by apply Keeps_publish.
  - by apply Keeps_close.
  - by apply Keeps_in_place, MarkRead_in_place, Hs.
  - by apply Keeps_in_place, MarkAllRead_in_place, Hs.
  - by apply Keeps_in_place, Prune_in_place, Hs.
  - by apply Keeps_in_place, emails_in_place, Hs.
Qed.

Lemma performs_keep ops s used : WorldOk s used -> Keeps s (performs ops s) used.
Proof.
  unfold performs. revert s used. induction ops as [|op ops IH]; intros s used Hs; cbn [for_each].
  { by apply Keeps_refl. }
  destruct (perform_keeps op s used Hs) as (used1 & Hu1 & Hs1 & Hev1).
  destruct (IH _ _ Hs1) as (used2 & Hu2 & Hs2 & Hev2).
  exists used2. split_and!; [auto|done|]. by eapply evolved_trans.
Qed.

(** ** Closed subjects stay closed *)

Lemma close_one_watermarks req at_ l acc :
  watermarks (for_each (close_one req at_) l acc).2 = watermarks acc.2.
Proof.
  apply (for_each_inv (fun a => watermarks a.2 = watermarks acc.2)); [done|].
  intros id [[c R] s] _ H. unfold close_one. by destruct (spared req (at_id s id)).
Qed.

Lemma raise_all_keeps version at_ keys s key mark :
  watermarks s !! key = Some mark ->
  exists mark', watermarks (for_each (raise_watermark version at_) keys s) !! key = Some mark' /\
    (watermark.version mark <= watermark.version mark')%Z /\
    (watermark.updatedAt mark' = watermark.updatedAt mark \/ watermark.updatedAt mark' = at_).
Proof.
  intros Hm. apply (for_each_inv (fun s => exists mark', watermarks s !! key = Some mark' /\
    (watermark.version mark <= watermark.version mark')%Z /\
    (watermark.updatedAt mark' = watermark.updatedAt mark \/ watermark.updatedAt mark' = at_))).
  { exists mark. split_and!; [done|lia|by left]. }
  intros k s' _ (mark' & Hm' & Hv & Ht). unfold raise_watermark. cbn.
  destruct (decide (k = key)) as [->|Hne].
  - rewrite lookup_insert_eq, Hm'. cbn. eexists. split; [done|].
    destruct (bool_decide _) eqn:Hb; cbn; [apply bool_decide_eq_true in Hb|]; split; auto; lia.
  - rewrite lookup_insert_ne by done. eauto.
Qed.

Lemma raise_all_raises version at_ keys s key :
  key ∈ keys ->
  exists mark, watermarks (for_each (raise_watermark version at_) keys s) !! key = Some mark /\
    (version <= watermark.version mark)%Z /\ watermark.updatedAt mark = at_.
Proof.
  revert s. induction keys as [|k keys IH]; intros s Hk; [by apply elem_of_nil in Hk|].
  cbn [for_each]. destruct (decide (key ∈ keys)) as [Hin|Hnot]; [by apply IH|].
  apply elem_of_cons in Hk as [<-|Hk]; [|done].
  assert (Hm : exists mark, watermarks (raise_watermark version at_ key s) !! key = Some mark /\
    (version <= watermark.version mark)%Z /\ watermark.updatedAt mark = at_).
  { unfold raise_watermark. cbn. rewrite lookup_insert_eq.
    destruct (watermarks s !! key) as [mark|]; cbn.
    2: { eexists. split_and!; [done|cbn; lia|done]. }
    destruct (bool_decide _) eqn:Hb; cbn; [|apply bool_decide_eq_false in Hb];
      (eexists; split_and!; [done|cbn; lia|done]). }
  destruct Hm as (mark & Hm & Hv & Ht).
  destruct (raise_all_keeps version at_ keys _ key mark Hm) as (mark' & Hm' & Hv' & Ht').
  exists mark'. split_and!; [done|lia|]. by destruct Ht' as [Ht'|Ht']; rewrite Ht'.
Qed.

Lemma close_subject_marks req at_ s key mark :
  watermarks s !! key = Some mark ->
  exists mark', watermarks (close_subject req at_ s).2 !! key = Some mark' /\
    (watermark.version mark <= watermark.version mark')%Z /\
    (watermark.updatedAt mark' = watermark.updatedAt mark \/ watermark.updatedAt mark' = at_).
Proof.
  intros Hm. unfold close_subject. cbv zeta. rewrite close_one_watermarks. cbn [snd].
  by apply raise_all_keeps, ensureWatermark_keeps.
Qed.

Lemma close_subject_seals req at_ s key :
  key ∈ close_keys req ->
  exists mark, watermarks (close_subject req at_ s).2 !! key = Some mark /\
    (CloseRequest.Version req <= watermark.version mark)%Z /\ watermark.updatedAt mark = at_.
Proof.
  intros Hk. unfold close_subject. cbv zeta. rewrite close_one_watermarks. cbn [snd].
  by apply raise_all_raises.
Qed.

(** The kinds a close covers. *)
Definition covers (req : CloseRequest.t) (kind : string) : Prop :=
  CloseRequest.Kinds req = [] \/ kind ∈ CloseRequest.Kinds req.

(** A subject sealed by a close at an instant: its close records are no older,
    and every notification below the version is closed. *)
Record Sealed (req : CloseRequest.t) (at0 : Time) (d : MemoryStore.t) : Prop := {
  sealed_marks kind : covers req kind ->
    exists k mark, (k = kind \/ k = allKinds) /\
      watermarks d !! (CloseRequest.Subject req, k) = Some mark /\
      (CloseRequest.Version req <= watermark.version mark)%Z /\
      (at0 <= watermark.updatedAt mark)%Z;
  sealed_closed id n : notifications d !! id = Some n ->
    Notification.Subject n = CloseRequest.Subject req ->
    covers req (Notification.Kind n) ->
    (Notification.SubjectVersion n < CloseRequest.Version req)%Z ->
    (CloseRequest.Except req <> "" -> Notification.Recipient n <> CloseRequest.Except req) ->
    Notification.State_ n = StateClosed
}.

Lemma moves_on_closed n n' :
  moves_on n n' -> Notification.State_ n = StateClosed -> Notification.State_ n' = StateClosed.
Proof.
  intros M H. pose proof (forward _ _ M) as F. rewrite H in F.
  by destruct (Notification.State_ n'); cbn in F; try lia.
Qed.

Lemma Sealed_in_place req at0 d d' :
  (forall key mark, watermarks d !! key = Some mark ->
     fst key = CloseRequest.Subject req -> (at0 <= watermark.updatedAt mark)%Z ->
     exists mark', watermarks d' !! key = Some mark' /\
       (watermark.version mark <= watermark.version mark')%Z /\
       (at0 <= watermark.updatedAt mark')%Z) ->
  (forall id n', notifications d' !! id = Some n' ->
     exists n, notifications d !! id = Some n /\ moves_on n n') ->
  Sealed req at0 d -> Sealed req at0 d'.
Proof.
  intros Hw Hn [Hm Hc]. constructor.
  - intros kind Hk. destruct (Hm kind Hk) as (k & mark & Hor & E & Hv & Ht).
    destruct (Hw _ _ E eq_refl Ht) as (mark' & E' & Hv' & Ht').
    exists k, mark'. split_and!; [done|done|lia|done].
  - intros id n' E Hs Hk Hv Hr. destruct (Hn id n' E) as (n & En & M).
    apply (moves_on_closed n n' M). destruct M as [? ? ? ? ? ?].
    apply (Hc id n En); [congruence..|]. intros He. specialize (Hr He). congruence.
Qed.

Lemma Sealed_inserted req at0 d d' minted now :
  Inserted d d' minted now -> Sealed req at0 d -> Sealed req at0 d'.
Proof.
  intros [Hok Hg Hn Hw] [Hm Hc]. constructor.
  - intros kind Hk. destruct (Hm kind Hk) as (k & mark & Hor & E & Hv & Ht). eauto 10.
  - intros id n E Hs Hk Hv Hr. destruct (Hn id n E) as [En|(_ & _ & Hf)]; [by eapply Hc|].
    exfalso. destruct (Hm _ Hk) as (k & mark & Hor & Em & Hvm & _).
    assert (Hle : (watermark.version mark <=
                   floor d (Notification.Subject n) (Notification.Kind n))%Z).
    { rewrite floor_marks. unfold mark_of. rewrite Hs.
      destruct Hor as [-> | ->]; rewrite Em; lia. }
    lia.
Qed.

Lemma Sealed_close req at0 req' at_ d :
  StoreOk d -> (-1 <= CloseRequest.Version req')%Z -> (at0 <= at_)%Z ->
  Sealed req at0 d -> Sealed req at0 (close_subject req' at_ d).2.
Proof.
  intros Hok Hv Hat. destruct (close_subject_outcome req' at_ d Hok Hv) as (_ & _ & _ & Hn & _).
  apply Sealed_in_place.
  - intros key mark E _ Ht. destruct (close_subject_marks req' at_ d key mark E)
      as (mark' & E' & Hv' & Ht').
    exists mark'. split_and!; [done|done|]. destruct Ht' as [-> | ->]; done.
  - rewrite Hn. intros id n' (n & En & M & _)%closed_map_moves. eauto.
Qed.

(** A close seals its subject. *)
Lemma close_subject_sealed req at_ d :
  StoreOk d -> (-1 <= CloseRequest.Version req)%Z ->
  Sealed req at_ (close_subject req at_ d).2.
Proof.
  intros Hok Hv. destruct (close_subject_outcome req at_ d Hok Hv) as (_ & _ & _ & Hn & _).
  constructor.
  - intros kind Hk. unfold covers in Hk.
    assert (Hkey : exists k, (k = kind \/ k = allKinds) /\
              (CloseRequest.Subject req, k) ∈ close_keys req).
    { unfold close_keys. destruct (CloseRequest.Kinds req) as [|x l].
      - exists allKinds. split; [by right|by left].
      - destruct Hk as [[=]|Hk]. exists kind. split; [by left|].
        by apply (list_elem_of_fmap_2 (fun kind => (CloseRequest.Subject req, kind))). }
    destruct Hkey as (k & Hor & Hin).
    destruct (close_subject_seals req at_ d _ Hin) as (mark & E & Hvm & Ht).
    exists k, mark. split_and!; [done|done|done|lia].
  - rewrite Hn. unfold closed_map. intros id n'. rewrite lookup_fmap.
    intros (n & En & E)%fmap_Some. destruct (closes req n) eqn:Hc.
    { subst n'. unfold closed_as. by destruct (Notification.InactiveAt _). }
    subst n'. intros Hs Hk Hlt Hr. unfold closes, spared in Hc.
    rewrite bool_decide_true in Hc by done. cbn in Hc.
    destruct (decide (Notification.State_ n = StateClosed \/ _)) as [[?|?]|Hno]; [done|lia|].
    exfalso.
    assert (E1 : bool_decide (CloseRequest.Kinds req <> []) &&
              negb (contains (CloseRequest.Kinds req) (Notification.Kind n)) = false).
    { destruct Hk as [-> | Hk]; [done|]. apply andb_false_iff. right.
      rewrite negb_false_iff. by apply contains_true. }
    rewrite E1 in Hc. destruct (bool_decide_reflect (CloseRequest.Except req <> "")) as [He|He];
      [|done].
    by rewrite (bool_decide_false (Notification.Recipient n = _)) in Hc by auto.
Qed.

(** What the clock reads after the close, and how long pruning keeps records. *)
Definition within (at0 : Time) (op : Op) : Prop :=
  match op with
  | OpClose now _ => (at0 <= normalizeTime now)%Z
  | OpPrune now request =>
      (0 < PruneRequest.WatermarkRetention request ->
       normalizeTime now - PruneRequest.WatermarkRetention request <= at0)%Z
  | _ => True
  end.

Lemma normalized_twice t : normalizeTime (normalizeTime t) = normalizeTime t.
Proof. apply NormalizeTime_idemp. Qed.

Lemma Close_store now req s used :
  WorldOk s used ->
  (CloseRequest_Validate req <> Ok tt /\ (NotifyService.Close now req s).2 = s /\
   is_ok (NotifyService.Close now req s).1 = false) \/
  ((0 <= CloseRequest.Version req)%Z /\ exists drawn,
   Inserted (close_subject req (normalizeTime now) (Service.store s)).2
     (Service.store (NotifyService.Close now req s).2) drawn (normalizeTime now)).
Proof.
  intros Hs. unfold NotifyService.Close.
  destruct (CloseRequest_Validate req) as [[]|e] eqn:Hv; [right|by left].
  apply validated_version in Hv. split; [done|]. pose proof Hs as [Ho Hf Hu Hd].
  destruct (Close_runs req (normalizeTime now) (Service.ids s) (Service.store s) used Ho)
    as (drawn & g' & d' & Hg' & Hdrawn & E & Hins & _); [lia|done|done|].
  rewrite normalized_twice in Hins. exists drawn.
  cbv zeta. change (store_Close req (normalizeTime now) (Service.ids s, Service.store s))
    with (NotifyStore.Close req (normalizeTime now) (Service.ids s, Service.store s)).
  destruct (NotifyStore.Close req (normalizeTime now) (Service.ids s, Service.store s))
    as [[result|e] [g d]]; injection E as -> ->; [|exact Hins].
  cbn [snd]. rewrite (proj1 (signal_rest _ _)). exact Hins.
Qed.

Lemma perform_sealed req at0 op s used :
  WorldOk s used -> within at0 op -> Sealed req at0 (Service.store s) ->
  Sealed req at0 (Service.store (perform op s)).
Proof.
  intros Hs Hw Hse. destruct op as [now drafts|now req'|now r l|now r t|now request|d]; cbn [perform].
  - destruct (Publish_inserts now drafts s used Hs)
      as (drawn & g' & d' & _ & _ & Hins & [[_ E2]|E]); [|by rewrite E].
    rewrite E2. by eapply Sealed_inserted.
  - destruct (Close_store now req' s used Hs) as [(_ & E & _)|(Hv & drawn & Hins)]; [by rewrite E|].
    eapply Sealed_inserted; [exact Hins|].
    apply Sealed_close; [apply Hs|lia|exact Hw|done].
  - destruct (MarkRead_in_place now r l s (world_store _ _ Hs)) as [[_ _ Hm] Em].
    eapply Sealed_in_place; [|exact Hm|done]. rewrite Em. intros key mark E _ Ht.
    exists mark. split_and!; [done|lia|done].
  - destruct (MarkAllRead_in_place now r t s (world_store _ _ Hs)) as [[_ _ Hm] Em].
    eapply Sealed_in_place; [|exact Hm|done]. rewrite Em. intros key mark E _ Ht.
    exists mark. split_and!; [done|lia|done].
  - destruct (Prune_in_place now request s (world_store _ _ Hs)) as [[_ _ Hm] Em].
    eapply Sealed_in_place; [|exact Hm|done]. intros key mark E _ Ht.
    exists mark. split_and!; [|lia|done]. apply Em. split; [done|].
    unfold expired. cbn. cbn in Hw. intros (Hr & _ & Hlt). lia.
  - destruct (emails_in_place d s (world_store _ _ Hs)) as [_ _ Hm].
    eapply Sealed_in_place; [|exact Hm|done]. intros key mark E _ Ht.
    exists mark. split_and!; [done|lia|done].
Qed.

Lemma performs_sealed req at0 ops s used :
  WorldOk s used -> Forall (within at0) ops -> Sealed req at0 (Service.store s) ->
  Sealed req at0 (Service.store (performs ops s)).
Proof.
  unfold performs. revert s used.
  induction ops as [|op ops IH]; intros s used Hs Hw Hse; cbn [for_each]; [done|].
  apply Forall_cons in Hw as [Hop Hw].
  destruct (perform_keeps op s used Hs) as (used1 & _ & Hs1 & _).
  eapply IH; [exact Hs1|done|by eapply perform_sealed].
Qed.

(** * Properties *)

(** C7: Whatever the notification service is asked to do, in any order and
    whatever the broadcaster answers, its store stays in order: the indexes by
    source and by subject list exactly the notifications held, each notification
    carries the instants of its state, every occupied subject has a close
    record, and every identifier held was drawn from the generator once. *)
Theorem notification_store_invariant ops s used :
  WorldOk s used -> exists used', WorldOk (performs ops s) used'.
Proof. intros H. destruct (performs_keep ops s used H) as (used' & _ & H' & _). eauto. Qed.

(** C9: A notification that is still held after any sequence of operations is
    the one that was published: its content is unchanged, its state has only
    moved forward, so one that was read or closed is never ACTIVE again, and an
    instant once recorded is kept.  A notification that was removed never comes
    back under its identifier. *)
Theorem notifications_only_move_on ops1 ops2 s used id n' :
  WorldOk s used ->
  let s1 := performs ops1 s in
  let s2 := performs ops2 s1 in
  is_Some (notifications (Service.store s) !! id) ->
  notifications (Service.store s2) !! id = Some n' ->
  exists n, notifications (Service.store s1) !! id = Some n /\ moves_on n n' /\
    (Notification.State_ n <> StateActive -> Notification.State_ n' <> StateActive).
Proof.
  cbv zeta. intros Hs Hid Hn'.
  destruct (performs_keep ops1 s used Hs) as (used1 & Hu1 & Hs1 & Hev1).
  destruct (performs_keep ops2 _ used1 Hs1) as (used2 & _ & _ & Hev2).
  destruct (Hev2 id n') as (n & Hn & M); [by apply Hu1, (world_used _ _ Hs)|done|].
  exists n. split_and!; [done|done|]. apply (never_active_again n n' M).
  by apply (store_stamps _ (world_store _ _ Hs1) id).
Qed.

(** C8: After a close of a subject at a version, no notification of that subject
    and of the kinds closed below that version is open for anyone but the
    recipient the close spared, whatever is published, closed, read or pruned
    afterwards: a late or repeated publication is suppressed.  This lasts as long
    as pruning keeps the close record, that is, within the watermark retention of
    the close, given a clock that does not step back behind the close. *)
Theorem closed_subject_stays_closed now req s used result ops id n :
  WorldOk s used ->
  (NotifyService.Close now req s).1 = Ok result ->
  Forall (within (normalizeTime now)) ops ->
  notifications (Service.store (performs ops (NotifyService.Close now req s).2)) !! id = Some n ->
  Notification.Subject n = CloseRequest.Subject req ->
  covers req (Notification.Kind n) ->
  (Notification.SubjectVersion n < CloseRequest.Version req)%Z ->
  (CloseRequest.Except req <> "" -> Notification.Recipient n <> CloseRequest.Except req) ->
  Notification.State_ n = StateClosed.
Proof.
  intros Hs Hr Hw.
  destruct (Close_store now req s used Hs) as [(_ & _ & E)|(Hv & drawn & Hins)];
    [by rewrite Hr in E|].
  destruct (Keeps_close now req s used Hs) as (used1 & _ & Hs1 & _).
  assert (Hse : Sealed req (normalizeTime now) (Service.store (NotifyService.Close now req s).2)).
  { eapply Sealed_inserted; [exact Hins|]. apply close_subject_sealed; [apply Hs|lia]. }
  apply (performs_sealed req _ ops _ used1 Hs1 Hw Hse).
Qed.
End world.
