(* ===== verification/NotifyExamples.v ===== *)
(** * NotifyExamples: the notification library run on concrete inputs

    A counting generator, a broadcaster that records, an encoding of cursors that
    keeps its law, and the witnesses of the theorems on notifications: each
    applies its theorem to a store reached by running the service. *)

From S2P Require Import Prelude Query.
From S2P Require Import Domain Json Notification Collections NotifyStore.
From S2P Require Import NotifyStoreFacts NotifyPrune NotifyList NotifyService NotifyInvariant.
Import MemoryStore.

(** ** The ports *)

Definition name (k : nat) : string := "n" +:+ pretty k.

#[global] Instance counter : IDGenerator nat := {
  NewID k := (Ok (name k), S k)
}.

#[global] Instance recorder : Broadcaster (list Signal.t) := {
  Broadcast signals sent := (Ok tt, sent ++ signals)
}.

Lemma counter_fresh n g used :
  (forall id, id ∈ used -> exists k, id = name k /\ k < g) -> fresh n g used.
Proof.
  revert g used. induction n as [|n IH]; intros g used Hu; [done|]. cbn. split.
  - intros (k & E & Hk)%Hu. unfold name in E. apply (inj (String.append "n")) in E.
    apply (inj pretty) in E. lia.
  - apply IH. intros id [->|Hid]%elem_of_cons; [exists g; auto with lia|].
    destruct (Hu id Hid) as (k & -> & Hk). exists k. auto with lia.
Qed.

Lemma counter_never_repeats : never_repeats 0 [].
Proof. intros n. apply counter_fresh. by intros id ?%elem_of_nil. Qed.

(** Cursors written as the bits of a number. *)
Definition render (p : cursorPayload.t) : string :=
  QueryExamples.bits (encode (cursorPayload.CreatedAt p, cursorPayload.ID p, cursorPayload.Filter p)).
Definition parse (token : string) : option cursorPayload.t :=
  (fun '(t, i, f) => cursorPayload.mk t i f) <$> (QueryExamples.unbits token ≫= decode).

#[global] Instance render_encodes : CursorEncoding render parse (fun _ => True).
Proof.
  constructor.
  - intros p. unfold render. by destruct (encode _).
  - intros [t i f] _. unfold render, parse. cbn.
    rewrite QueryExamples.unbits_bits. cbn. by rewrite decode_encode.
Qed.

Definition digest (s : string) : string := s.

(** ** A store with some history *)

#[global] Instance port : NotifyService.Store MemoryStore.t := MemoryStore_Store digest render parse.

Abbreviation Svc := (Service.t nat MemoryStore.t (list Signal.t)).

Definition begin : Svc := Service.mk NewMemoryStore 0 [] [].

Definition draft (recipient source kind : string) (version : Z) : Draft.t := {|
  Draft.Recipient := recipient; Draft.SourceID := source; Draft.Subject := "task-1";
  Draft.Kind := kind; Draft.Title := ""; Draft.SubjectVersion := version;
  Draft.Links := ∅; Draft.Data := ""; Draft.Coalesce := false |}.

Definition offers : list Draft.t :=
  [draft "ann" "e1" "offer" 1; draft "bob" "e1" "offer" 1; draft "ann" "e2" "due" 2].

Definition history : list Op :=
  [OpPublish 5000000 offers; OpMarkRead 6000000 "bob" ["n1"]].

Definition later : Svc := performs digest render parse history begin.

Example later_states :
  (fun n => (Notification.ID n, Notification.Recipient n, Notification.State_ n)) <$>
    values (notifications (Service.store later)) =
  [("n1", "bob", StateRead); ("n2", "ann", StateActive); ("n0", "ann", StateActive)].
Proof. vm_compute. reflexivity. Qed.

Example later_signals :
  (fun x => (Signal.Recipient x, Signal.Change_ x)) <$> Service.broadcaster later =
  [("ann", ChangeCreated); ("bob", ChangeCreated); ("bob", ChangeRead)].
Proof. vm_compute. reflexivity. Qed.

Lemma empty_ok : StoreOk NewMemoryStore.
Proof.
  constructor; [constructor|..]; cbn; try done.
  - intros k id. split; [done|]. by intros (n & E & _).
  - intros subject id. unfold ids_of. cbn. rewrite lookup_empty. cbn. split; [set_solver|].
    by intros (n & E & _).
Qed.

Lemma begin_ok : WorldOk begin [].
Proof. constructor; [apply empty_ok|apply counter_never_repeats|by intros ? []|done]. Qed.

Lemma later_ok : exists used, WorldOk later used.
Proof. destruct (performs_keep digest render parse history begin [] begin_ok) as (u & _ & H & _). eauto. Qed.

Definition withdraw : CloseRequest.t := {|
  CloseRequest.Subject := "task-1"; CloseRequest.Kinds := ["offer"];
  CloseRequest.Version := 3; CloseRequest.Reason := "claimed"; CloseRequest.Except := "";
  CloseRequest.Successor_ := Some (Successor.mk "e9" "withdrawn" "" 3 ∅ "");
  CloseRequest.SuccessorSkip := ["ann"] |}.

Definition withdrawn : Svc := (NotifyService.Close 7000000 withdraw later).2.

(** A publication redelivered late, and one at the closed version. *)
Definition aftermath : list Op :=
  [OpPublish 8000000 [draft "cid" "e1" "offer" 2; draft "cid" "e5" "offer" 3];
   OpMarkAllRead 9000000 "ann" 0].

Example aftermath_states :
  (fun n => (Notification.Recipient n, Notification.Kind n, Notification.State_ n)) <$>
    values (notifications (Service.store (performs digest render parse aftermath withdrawn))) =
  [("bob", "withdrawn", StateActive); ("cid", "offer", StateActive);
   ("bob", "offer", StateClosed); ("ann", "due", StateRead); ("ann", "offer", StateClosed)].
Proof. vm_compute. reflexivity. Qed.

(** * Witnesses *)

Definition insertion (id recipient source : string) : Insertion.t :=
  insertionOf 5000000 (draft recipient source "offer" 1) id.

Definition first_time : list Insertion.t := [insertion "x1" "ann" "e1"].
Definition second_time : list Insertion.t := [insertion "x2" "ann" "e1"].

Lemma publish_once_witness :
  exists s1 result',
    Insert "task-1" first_time NewMemoryStore =
      (Ok (InsertResult.mk (restamp "task-1" <$> first_time) 0 0 0), s1) /\
    Insert "task-1" second_time s1 = (Ok result', s1) /\ InsertResult.Created result' = [].
Proof.
  assert (Er : (Insert "task-1" first_time NewMemoryStore).1 =
               Ok (InsertResult.mk (restamp "task-1" <$> first_time) 0 0 0)).
  { vm_compute. reflexivity. }
  destruct (publish_once "task-1" first_time second_time NewMemoryStore)
    as (r & s1 & new & r' & E & _ & _ & _ & _ & _ & _ & _ & E' & Hc & _).
  - apply empty_ok.
  - constructor.
    + intros i ->%list_elem_of_singleton. vm_compute. done.
    + apply NoDup_singleton.
    + intros i _. apply lookup_empty.
  - by repeat constructor.
  - exists s1, r'. rewrite E in Er. cbn [fst] in Er. rewrite E, Er. by split.
Defined.

Lemma close_outcome_witness :
  exists s1,
    notifications s1 !! "n1" = closed_now withdraw 7000000 <$> notifications (Service.store later) !! "n1" /\
    (NotifyStore.Close withdraw 7000000 (Service.ids later, Service.store later)).1 =
    Ok (CloseResult.mk 2 ["ann"; "bob"]
          [Insertion.Notification_
             (successorFor withdraw (Successor.mk "e9" "withdrawn" "" 3 ∅ "") 7000000 "bob" "n3")]
          0).
Proof.
  destruct later_ok as [used Hok].
  destruct (close_outcome withdraw 7000000 (Service.ids later) (Service.store later))
    as (recipients & s1 & _ & _ & _ & _ & _ & Hn & _).
  - apply (world_store _ _ Hok).
  - cbn. lia.
  - exists s1. split; [rewrite (Hn "n1"); vm_compute; reflexivity|]. vm_compute. reflexivity.
Defined.

Lemma mark_read_outcome_witness :
  NotifyStore.MarkRead "ann" ["n0"; "n1"] 8000000 (Service.store later) =
    (Err (Bare ErrNotFound), Service.store later).
Proof.
  destruct later_ok as [used Hok].
  destruct (mark_read_outcome "ann" ["n0"; "n1"] 8000000 (Service.store later))
    as [[_ E]|[Hall _]].
  - apply (world_store _ _ Hok).
  - exact E.
  - exfalso. destruct (Hall "n1") as (n & Hn & Hr); [right; left|].
    vm_compute in Hn. injection Hn as <-. vm_compute in Hr. discriminate.
Defined.

Definition tight : PruneRequest.t :=
  PruneRequest.mk 9000000 1 0 EvictOldestActive 0 1000.

Lemma prune_bounds_witness :
  exists r s', NotifyStore.Prune tight (Service.store later) = (Ok r, s') /\ StoreOk s' /\
    PruneResult.EvictedActive r = 1.
Proof.
  destruct later_ok as [used Hok].
  destruct (prune_bounds tight (Service.store later)) as (r & s1 & s' & E & Hs & _).
  - apply (world_store _ _ Hok).
  - reflexivity.
  - exists r, s'. split; [exact E|]. split; [exact Hs|].
    assert (Er : (NotifyStore.Prune tight (Service.store later)).1 = Ok (PruneResult.mk 0 0 1 0 ["ann"])).
    { vm_compute. reflexivity. }
    rewrite E in Er. cbn [fst] in Er. injection Er as ->. reflexivity.
Defined.

Definition ann_first : ListQuery.t := ListQuery.mk "ann" [] [] "" 1 "".

Lemma listing_pages_concatenate_witness :
  exists l, walk digest render parse ann_first (Service.store later) 4 "" = Ok l /\
    Notification.ID <$> l = ["n2"; "n0"].
Proof.
  destruct later_ok as [used Hok].
  destruct (listing_pages_concatenate digest render parse (fun _ => True) ann_first
              (Service.store later)) as (l & Hw & _).
  - apply (world_store _ _ Hok).
  - discriminate.
  - intros id n Hn. split; [|split; [by apply (world_dated _ _ Hok id)|done]].
    intros ->. vm_compute in Hn. discriminate.
  - exists l. assert (E : walk digest render parse ann_first (Service.store later) 4 "" = Ok l).
    { apply Hw. vm_compute. lia. }
    split; [exact E|]. vm_compute in E. injection E as <-. reflexivity.
Defined.

Lemma notification_store_invariant_witness :
  exists used, WorldOk (performs digest render parse (history ++ aftermath) begin) used.
Proof. apply (notification_store_invariant digest render parse _ begin [] begin_ok). Defined.

Lemma notifications_only_move_on_witness :
  exists n, notifications (Service.store withdrawn) !! "n1" = Some n /\
    Notification.State_ n = StateClosed.
Proof.
  destruct later_ok as [used Hok].
  assert (Hn : exists n', notifications (Service.store
            (performs digest render parse [OpClose 7000000 withdraw] later)) !! "n1" = Some n').
  { eexists. vm_compute. reflexivity. }
  destruct Hn as [n' Hn].
  destruct (notifications_only_move_on digest render parse [] [OpClose 7000000 withdraw]
              later used "n1" n' Hok) as (n & Hn0 & M & _).
  - eexists. vm_compute. reflexivity.
  - exact Hn.
  - exists n'. split; [exact Hn|]. pose proof (same_ID _ _ M). clear Hn0 M.
    vm_compute in Hn. injection Hn as <-. reflexivity.
Defined.

Lemma closed_subject_stays_closed_witness :
  exists n,
    notifications (Service.store (performs digest render parse aftermath withdrawn)) !! "n0" = Some n /\
    Notification.State_ n = StateClosed.
Proof.
  destruct later_ok as [used Hok].
  assert (E : exists result, (NotifyService.Close 7000000 withdraw later).1 = Ok result).
  { eexists. vm_compute. reflexivity. }
  destruct E as [result E].
  assert (Hn : exists n,
    notifications (Service.store (performs digest render parse aftermath withdrawn)) !! "n0" = Some n /\
    Notification.Subject n = "task-1" /\ Notification.Kind n = "offer" /\
    Notification.SubjectVersion n = 1%Z /\ Notification.Recipient n = "ann").
  { eexists. vm_compute. repeat split. }
  destruct Hn as (n & Hn & Hs & Hk & Hv & Hr). exists n. split; [exact Hn|].
  apply (closed_subject_stays_closed digest render parse 7000000 withdraw later used result
           aftermath "n0" n Hok E).
  - by repeat constructor.
  - exact Hn.
  - exact Hs.
  - right. rewrite Hk. left.
  - rewrite Hv. reflexivity.
  - rewrite Hr. intros _. discriminate.
Defined.
