(* ===== verification/NotifyEmail.v ===== *)
(** * NotifyEmail: email delivery of notifications

    Models [notify/email.go], [notify/memory_email.go] and
    [notify/email_dispatcher.go]: the delivery records of the in-memory store,
    the dispatcher's configuration, and one dispatch pass.

    A pass is a program that calls the store, the mailer and the host's ports
    ([Port]) and is interrupted between any two calls; its own state is the result
    it counts into.  [NotifyEmailFacts.v] and [NotifyEmailOnce.v] show what it
    does.  The loop [Run], which dispatches on a ticker, is in [Ticker.v]. *)

From Stdlib Require Import Floats.SpecFloat.
From S2P Require Import Prelude Float64 Domain Interaction.
From S2P Require Import Notification Collections NotifyStore NotifyService.
Import MemoryStore.

(** ** The values that cross the ports *)

Definition EmailSkipNoAddress : string := "no_address".
Definition EmailSkipFiltered : string := "filtered".
Definition EmailSkipInactive : string := "inactive".
Definition EmailSkipDeleted : string := "deleted".

Module EmailClaim.
Record t : Type := mk {
  Now : Time;
  Owner : string;
  Lease : Z;
  CreatedUntil : Time;
  CreatedFrom : Time;
  Limit : Z
}.
End EmailClaim.

Module EmailCandidate.
Record t : Type := mk {
  Notification_ : Notification.t;
  Status : EmailStatus;
  BatchID : string;
  Attempts : nat
}.
#[global] Instance eta : Eta t := fun x =>
  mk (Notification_ x) (Status x) (BatchID x) (Attempts x).
End EmailCandidate.

Module EmailRecord.
Record t : Type := mk {
  Owner : string;
  IDs : list string;
  Status : EmailStatus;
  BatchID : string;
  Reason : string;
  NextAttemptAt : option Time;
  Attempt : bool;
  At : Time
}.
#[global] Instance eta : Eta t := fun x =>
  mk (Owner x) (IDs x) (Status x) (BatchID x) (Reason x) (NextAttemptAt x) (Attempt x) (At x).

(** A literal that names the status only. *)
Definition of_status (status : EmailStatus) : t := mk "" [] status "" "" None false 0%Z.
End EmailRecord.

Module EmailBatch.
Record t : Type := mk {
  Recipient : string;
  Address : string;
  Notifications : list Notification.t
}.
End EmailBatch.

Module EmailContent.
Record t : Type := mk {
  Subject : string;
  TextBody : string;
  HTMLBody : string;
  Headers : gmap string string
}.
End EmailContent.

Module EmailMessage.
Record t : Type := mk {
  To : string;
  Subject : string;
  TextBody : string;
  HTMLBody : string;
  Headers : gmap string string;
  IdempotencyKey : string;
  Recipient : string;
  NotificationIDs : list string
}.
End EmailMessage.

Inductive DeliveryGuarantee : Type :=
| AtMostOnce | AtLeastOnce
| GuaranteeOther (raw : string).

#[global] Instance DeliveryGuarantee_eq_dec : EqDecision DeliveryGuarantee.
Proof. solve_decision. Defined.

Definition DeliveryGuarantee_String (g : DeliveryGuarantee) : string :=
  match g with
  | AtMostOnce => "AT_MOST_ONCE"
  | AtLeastOnce => "AT_LEAST_ONCE"
  | GuaranteeOther raw => raw
  end.

Definition DeliveryGuarantee_Valid (g : DeliveryGuarantee) : bool :=
  bool_decide (g = AtMostOnce) || bool_decide (g = AtLeastOnce).

Module DispatchResult.
Record t : Type := mk {
  Claimed : nat;
  Sent : nat;
  Messages : nat;
  SkippedNoAddress : nat;
  SkippedFiltered : nat;
  SkippedInactive : nat;
  Retried : nat;
  Failed : nat;
  Abandoned : nat;
  Purged : nat;
  Unrecorded : nat
}.
#[global] Instance eta : Eta t := fun x =>
  mk (Claimed x) (Sent x) (Messages x) (SkippedNoAddress x) (SkippedFiltered x)
    (SkippedInactive x) (Retried x) (Failed x) (Abandoned x) (Purged x) (Unrecorded x).
Definition zero : t := mk 0 0 0 0 0 0 0 0 0 0 0.
End DispatchResult.

(** ** The in-memory store's delivery records *)

(** Whether a claim may take a notification. *)
Definition claimable (n : Notification.t) (d : emailDelivery.t) (recorded : bool)
    (claim : EmailClaim.t) (now : Time) : bool :=
  let leaseFree :=
    match emailDelivery.leaseUntil d with
    | None => true
    | Some until => negb (bool_decide (now < until)%Z)
    end in
  let qualifies :=
    bool_decide (Notification.State_ n = StateActive) &&
    negb (bool_decide (EmailClaim.CreatedUntil claim < Notification.CreatedAt n)%Z) &&
    negb (bool_decide (Notification.CreatedAt n < EmailClaim.CreatedFrom claim)%Z) in
  if negb recorded then qualifies
  else match emailDelivery.status d with
       | EmailStatusSending => leaseFree
       | EmailStatusClaimed | EmailStatusRetry =>
           let due :=
             match emailDelivery.nextAttemptAt d with
             | None => true
             | Some next => negb (bool_decide (now < next)%Z)
             end in
           leaseFree && due && qualifies
       | _ => false
       end.

(** Reading a delivery the map may not hold. *)
Definition delivery_of (s : MemoryStore.t) (id : string) : emailDelivery.t :=
  default emailDelivery.zero (deliveries s !! id).

(** The notifications due, in the order the loop visits them. *)
Definition due_now (claim : EmailClaim.t) (now : Time) (s : MemoryStore.t)
  : list Notification.t :=
  (filter (fun '(id, n) =>
     claimable n (delivery_of s id) (bool_decide (is_Some (deliveries s !! id))) claim now = true)
   (map_to_list (notifications s))).*2.

(** The delivery a claim leaves. *)
Definition leased (claim : EmailClaim.t) (now until : Time) (d : emailDelivery.t)
  : emailDelivery.t :=
  let d :=
    if decide (emailDelivery.status d <> EmailStatusSending)
    then d <| emailDelivery.status := EmailStatusClaimed |> else d in
  let d := d <| emailDelivery.owner := EmailClaim.Owner claim |> in
  let d := d <| emailDelivery.leaseUntil := Some until |> in
  d <| emailDelivery.updatedAt := now |>.

(** One turn of the loop over the notifications due. *)
Definition claim_one (claim : EmailClaim.t) (now until : Time) (n : Notification.t)
    (acc : list EmailCandidate.t * MemoryStore.t) : list EmailCandidate.t * MemoryStore.t :=
  let '(candidates, s) := acc in
  let delivery := leased claim now until (delivery_of s (Notification.ID n)) in
  (candidates ++
     [EmailCandidate.mk (Notification.Clone n) (emailDelivery.status delivery)
        (emailDelivery.batchID delivery) (emailDelivery.attempts delivery)],
   s <| deliveries := <[Notification.ID n := delivery]> (deliveries s) |>).

Definition ClaimEmails_ (claim : EmailClaim.t) (s : MemoryStore.t)
  : list EmailCandidate.t * MemoryStore.t :=
  let now := normalizeTime (EmailClaim.Now claim) in
  let until := normalizeTime (now + EmailClaim.Lease claim)%Z in
  let due := merge_sort (no_later oldestFirst) (due_now claim now s) in
  let due :=
    if bool_decide (0 < EmailClaim.Limit claim)%Z &&
       bool_decide (EmailClaim.Limit claim < Z.of_nat (length due))%Z
    then take (Z.to_nat (EmailClaim.Limit claim)) due else due in
  for_each (claim_one claim now until) due ([], s).

Definition applyEmailRecord (d : emailDelivery.t) (record : EmailRecord.t) (at_ : Time)
  : emailDelivery.t :=
  let d := d <| emailDelivery.status := EmailRecord.Status record |> in
  let d := d <| emailDelivery.updatedAt := at_ |> in
  let d := d <| emailDelivery.nextAttemptAt := None |> in
  let d := if decide (EmailRecord.BatchID record <> "")
           then d <| emailDelivery.batchID := EmailRecord.BatchID record |> else d in
  let d := if decide (EmailRecord.Reason record <> "")
           then d <| emailDelivery.reason := EmailRecord.Reason record |> else d in
  let d := if EmailRecord.Attempt record
           then d <| emailDelivery.attempts := S (emailDelivery.attempts d) |> else d in
  let released d :=
    d <| emailDelivery.owner := "" |> <| emailDelivery.leaseUntil := None |> in
  match EmailRecord.Status record with
  | EmailStatusSending => d
  | EmailStatusRetry =>
      released (d <| emailDelivery.nextAttemptAt := EmailRecord.NextAttemptAt record |>)
  | EmailStatusSent => released (d <| emailDelivery.sentAt := Some at_ |>)
  | _ => released d
  end.

(** One turn of the loop over the identifiers. *)
Definition record_one (record : EmailRecord.t) (at_ : Time) (id : string)
    (acc : nat * MemoryStore.t) : nat * MemoryStore.t :=
  let '(changed, s) := acc in
  match deliveries s !! id with
  | None => acc
  | Some delivery =>
      if decide (emailDelivery.owner delivery <> EmailRecord.Owner record) then acc
      else (S changed,
            s <| deliveries := <[id := applyEmailRecord delivery record at_]> (deliveries s) |>)
  end.

Definition RecordEmails_ (record : EmailRecord.t) (s : MemoryStore.t) : nat * MemoryStore.t :=
  for_each (record_one record (normalizeTime (EmailRecord.At record)))
    (sorted_distinct (EmailRecord.IDs record)) (0, s).

Definition orphan (s : MemoryStore.t) (id : string) : Prop := notifications s !! id = None.

#[global] Instance orphan_dec s id : Decision (orphan s id).
Proof. unfold orphan. apply _. Defined.

Definition PurgeEmailRecords_ (limit : Z) (s : MemoryStore.t) : nat * MemoryStore.t :=
  let orphans := sort_strings (filter (orphan s) (map_to_list (deliveries s)).*1) in
  let orphans :=
    if bool_decide (0 < limit)%Z && bool_decide (limit < Z.of_nat (length orphans))%Z
    then take (Z.to_nat limit) orphans else orphans in
  (length orphans,
   for_each (fun id s => s <| deliveries := delete id (deliveries s) |>) orphans s).

(** ** The dispatcher *)

(** The calls a pass makes: its clock, the store, the service's identifiers, the
    host's ports, the source of randomness and the error handler. *)
Inductive Port : Type -> Type :=
| Now : Port Time
| ClaimEmails (claim : EmailClaim.t) : Port (res (list EmailCandidate.t))
| RecordEmails (record : EmailRecord.t) : Port (res nat)
| PurgeEmailRecords (limit : Z) : Port (nat * res unit)
| GetNotification (recipient id : string) : Port (res Notification.t)
| NewEmailID : Port (res string)
| ShouldEmail (n : Notification.t) : Port (res bool)
| AddressOf (recipient : string) : Port (res (option string))
| Render (batch : EmailBatch.t) : Port (res EmailContent.t)
| Send (message : EmailMessage.t) : Port (option error)
| Draw : Port spec_float
| OnError (e : error) : Port unit.

(** Which notifications are emailed: all, the host's filter, or [EmailKinds]. *)
Inductive EmailFilter : Type :=
| EveryKind
| HostFilter
| EmailKinds (kinds : list string).

Definition should_email (filter : EmailFilter) (n : Notification.t) : prog Port (res bool) :=
  match filter with
  | EveryKind => Ret (Ok true)
  | HostFilter => call (ShouldEmail (Notification.Clone n))
  | EmailKinds kinds => Ret (Ok (contains kinds (Notification.Kind n)))
  end.

Module EmailDispatcher.
Record t : Type := mk {
  filter : EmailFilter;
  guarantee : DeliveryGuarantee;
  owner : string;
  grace : Z;
  maxLag : Z;
  batch : Z;
  claim : Z;
  lease : Z;
  attempts : Z;
  backoff : Z;
  ceiling : Z
}.
#[global] Instance eta : Eta t := fun x =>
  mk (filter x) (guarantee x) (owner x) (grace x) (maxLag x) (batch x) (claim x) (lease x)
    (attempts x) (backoff x) (ceiling x).
End EmailDispatcher.
Import EmailDispatcher.

(** ** Configuration *)

Definition Minute : Z := (60 * 1000000000)%Z.
Definition DefaultEmailGraceDelay : Z := (5 * Minute)%Z.
Definition DefaultEmailMaxLag : Z := (24 * Hour)%Z.
Definition DefaultEmailBatchLimit : Z := 20.
Definition DefaultEmailClaimLimit : Z := 500.
Definition DefaultEmailLease : Z := (5 * Minute)%Z.
Definition DefaultEmailMaxAttempts : Z := 5.
Definition DefaultEmailBackoff : Z := Minute.
Definition DefaultEmailBackoffCeiling : Z := Hour.

(** [0.2], the nearest float to it. *)
Definition emailJitter : spec_float := S754_finite false 7205759403792794 (-55).

(** What the options set.  A host's filter or error handler is [Some true] when
    it is given and [Some false] when a nil one is. *)
Module emailConfig.
Record t : Type := mk {
  grace : option Z;
  withoutGrace : bool;
  maxLag : option Z;
  batch : option Z;
  claim : option Z;
  lease : option Z;
  attempts : option Z;
  backoff : option Z;
  ceiling : option Z;
  filter : option bool;
  kinds : option (list string);
  guarantee : option DeliveryGuarantee;
  owner : option string;
  onError : option bool
}.
#[global] Instance eta : Eta t := fun x =>
  mk (grace x) (withoutGrace x) (maxLag x) (batch x) (claim x) (lease x) (attempts x)
    (backoff x) (ceiling x) (filter x) (kinds x) (guarantee x) (owner x) (onError x).
Definition zero : t :=
  mk None false None None None None None None None None None None None None.
End emailConfig.

Inductive EmailOption : Type :=
| WithEmailGraceDelay (d : Z)
| WithoutEmailGraceDelay
| WithEmailMaxLag (d : Z)
| WithEmailBatchLimit (n : Z)
| WithEmailClaimLimit (n : Z)
| WithEmailLease (d : Z)
| WithEmailMaxAttempts (n : Z)
| WithEmailBackoff (base ceiling : Z)
| WithEmailFilter (given : bool)
| WithEmailKinds (kinds : list string)
| WithDeliveryGuarantee (g : DeliveryGuarantee)
| WithEmailOwner (owner : string)
| WithEmailErrorHandler (given : bool).

Definition apply_email_option (opt : EmailOption) (c : emailConfig.t) : emailConfig.t :=
  match opt with
  | WithEmailGraceDelay d => c <| emailConfig.grace := Some d |>
  | WithoutEmailGraceDelay => c <| emailConfig.withoutGrace := true |>
  | WithEmailMaxLag d => c <| emailConfig.maxLag := Some d |>
  | WithEmailBatchLimit n => c <| emailConfig.batch := Some n |>
  | WithEmailClaimLimit n => c <| emailConfig.claim := Some n |>
  | WithEmailLease d => c <| emailConfig.lease := Some d |>
  | WithEmailMaxAttempts n => c <| emailConfig.attempts := Some n |>
  | WithEmailBackoff base ceiling =>
      c <| emailConfig.backoff := Some base |> <| emailConfig.ceiling := Some ceiling |>
  | WithEmailFilter given => c <| emailConfig.filter := Some given |>
  | WithEmailKinds kinds => c <| emailConfig.kinds := Some kinds |>
  | WithDeliveryGuarantee g => c <| emailConfig.guarantee := Some g |>
  | WithEmailOwner owner => c <| emailConfig.owner := Some owner |>
  | WithEmailErrorHandler given => c <| emailConfig.onError := Some given |>
  end.

Definition is_set {A} (o : option A) : bool := bool_decide (is_Some o).

Definition emailConfig_validate (c : emailConfig.t) : res unit :=
  let refuse detail := Err (ConfigurationError detail) in
  if is_set (emailConfig.grace c) && emailConfig.withoutGrace c
  then refuse "the email grace delay is both set and removed; choose WithEmailGraceDelay or WithoutEmailGraceDelay"
  else if set_and nonPositive (emailConfig.grace c)
  then refuse "the email grace delay must be positive; use WithoutEmailGraceDelay to remove it"
  else if set_and nonPositive (emailConfig.maxLag c)
  then refuse "the email max lag must be positive"
  else if set_and nonPositive (emailConfig.batch c)
  then refuse "the email batch limit must be positive"
  else if set_and nonPositive (emailConfig.claim c)
  then refuse "the email claim limit must be positive"
  else if set_and nonPositive (emailConfig.lease c)
  then refuse "the email lease must be positive"
  else if set_and nonPositive (emailConfig.attempts c)
  then refuse "the email attempt limit must be positive"
  else if set_and nonPositive (emailConfig.backoff c)
  then refuse "the email backoff must be positive"
  else if set_and (fun base => bool_decide (default 0 (emailConfig.ceiling c) < base)%Z)
            (emailConfig.backoff c)
  then refuse "the email backoff ceiling must be no shorter than its base"
  else if is_set (emailConfig.filter c) && is_set (emailConfig.kinds c)
  then refuse "an email filter and email kinds are both set; choose WithEmailFilter or WithEmailKinds"
  else if set_and negb (emailConfig.filter c)
  then refuse "the email filter must not be nil"
  else if set_and (fun kinds => bool_decide (kinds = [])) (emailConfig.kinds c)
  then refuse "WithEmailKinds needs at least one kind"
  else if set_and (fun g => negb (DeliveryGuarantee_Valid g)) (emailConfig.guarantee c)
  then refuse ("the delivery guarantee " +:+
               default "" (DeliveryGuarantee_String <$> emailConfig.guarantee c) +:+
               " is not AtMostOnce or AtLeastOnce")
  else if set_and (fun owner => bool_decide (owner = "")) (emailConfig.owner c)
  then refuse "the email owner must not be empty"
  else if set_and negb (emailConfig.onError c)
  then refuse "the email error handler must not be nil"
  else Ok tt.

(** [apply]: the configuration over the defaults of [d]. *)
Definition emailConfig_apply (c : emailConfig.t) (d : EmailDispatcher.t)
  : res EmailDispatcher.t :=
  try! _ := emailConfig_validate c in
  let or {A} (dst : A) (src : option A) := default dst src in
  let d := d <| grace := or (grace d) (emailConfig.grace c) |> in
  let d := d <| maxLag := or (maxLag d) (emailConfig.maxLag c) |> in
  let d := d <| lease := or (lease d) (emailConfig.lease c) |> in
  let d := d <| backoff := or (backoff d) (emailConfig.backoff c) |> in
  let d := d <| ceiling := or (ceiling d) (emailConfig.ceiling c) |> in
  let d := d <| batch := or (batch d) (emailConfig.batch c) |> in
  let d := d <| claim := or (claim d) (emailConfig.claim c) |> in
  let d := d <| attempts := or (attempts d) (emailConfig.attempts c) |> in
  let d := if emailConfig.withoutGrace c then d <| grace := 0%Z |> else d in
  let d := match emailConfig.filter c, emailConfig.kinds c with
           | Some _, _ => d <| filter := HostFilter |>
           | None, Some kinds => d <| filter := EmailKinds kinds |>
           | None, None => d
           end in
  let d := d <| guarantee := or (guarantee d) (emailConfig.guarantee c) |> in
  let d := d <| owner := or (owner d) (emailConfig.owner c) |> in
  if decide (maxLag d <= grace d)%Z
  then Err (ConfigurationError "the email max lag must be longer than the grace delay")
  else Ok d.

(** The dispatcher before its options. *)
Definition defaultDispatcher : EmailDispatcher.t := {|
  filter := EveryKind; guarantee := AtMostOnce; owner := "";
  grace := DefaultEmailGraceDelay; maxLag := DefaultEmailMaxLag;
  batch := DefaultEmailBatchLimit; claim := DefaultEmailClaimLimit;
  lease := DefaultEmailLease; attempts := DefaultEmailMaxAttempts;
  backoff := DefaultEmailBackoff; ceiling := DefaultEmailBackoffCeiling
|}.

(** [NewEmailDispatcher], told which of its arguments are not nil and whether the
    service's store records email deliveries. *)
Definition NewEmailDispatcher (svc mailer book template store : bool)
    (opts : list (option EmailOption)) : prog Port (res EmailDispatcher.t) :=
  let refuse detail := Ret (Err (ConfigurationError detail)) in
  if negb svc then refuse "an email dispatcher needs a service"
  else if negb mailer then refuse "an email dispatcher needs a Mailer"
  else if negb book then refuse "an email dispatcher needs an AddressBook"
  else if negb template then refuse "an email dispatcher needs an EmailTemplate"
  else if negb store
  then refuse "the service's store does not record email deliveries; NewMemoryStore and notify/sqlstore do"
  else
    let cfg := for_each (fun opt c =>
      match opt with Some opt => apply_email_option opt c | None => c end)
      opts emailConfig.zero in
    match emailConfig_apply cfg defaultDispatcher with
    | Err e => Ret (Err e)
    | Ok d =>
        if decide (owner d = "")
        then do! id := call NewEmailID in
             Ret (try! id := id in Ok (d <| owner := ("email-" +:+ id)%string |>))
        else Ret (Ok d)
    end.

(** ** A dispatch pass

    [p] is the result the pass counts into, [now] the instant it reads at its
    start. *)

(** What the loop of [recheck] gathers. *)
Module checked.
Record t : Type := mk {
  live : list EmailCandidate.t;
  notifications : list Notification.t;
  inactive : list EmailCandidate.t;
  deleted : list EmailCandidate.t;
  result : DispatchResult.t
}.
#[global] Instance eta : Eta t := fun x =>
  mk (live x) (notifications x) (inactive x) (deleted x) (result x).
End checked.

Section pass.
Context (unrepresentable : spec_float -> Z).
Context (d : EmailDispatcher.t) (now : Time).
Implicit Type p : DispatchResult.t.

Definition report (recipient batch : string) (err : error) : prog Port unit :=
  call (OnError (if decide (batch <> "")
    then Prefixed ("notify: email for " +:+ recipient +:+ " in batch " +:+ batch) err
    else Prefixed ("notify: email for " +:+ recipient) err)).

Definition candidateIDs (candidates : list EmailCandidate.t) : list string :=
  (fun c => Notification.ID (EmailCandidate.Notification_ c)) <$> candidates.

(** [candidates[0].Notification.Recipient]; no caller passes an empty list. *)
Definition recipient_of (candidates : list EmailCandidate.t) : string :=
  match candidates with
  | c :: _ => Notification.Recipient (EmailCandidate.Notification_ c)
  | [] => ""
  end.

Definition record_ (candidates : list EmailCandidate.t) (record : EmailRecord.t) p
  : prog Port (bool * DispatchResult.t) :=
  let record := record <| EmailRecord.Owner := owner d |> in
  let record := record <| EmailRecord.At := now |> in
  let record := record <| EmailRecord.IDs := candidateIDs candidates |> in
  do! answer := call (RecordEmails record) in
  match answer with
  | Err err =>
      do! _ := report (recipient_of candidates) (EmailRecord.BatchID record)
        (Prefixed ("record " +:+ EmailStatus_String (EmailRecord.Status record)) err) in
      Ret (false, p <| DispatchResult.Unrecorded :=
                         DispatchResult.Unrecorded p + length candidates |>)
  | Ok changed =>
      if decide (changed < length candidates)
      then Ret (false, p <| DispatchResult.Unrecorded :=
                              DispatchResult.Unrecorded p + (length candidates - changed) |>)
      else Ret (true, p)
  end.

(** A record whose outcome is not looked at. *)
Definition record_only (candidates : list EmailCandidate.t) (record : EmailRecord.t) p
  : prog Port DispatchResult.t :=
  do! answer := record_ candidates record p in
  Ret answer.2.

Definition skip (candidates : list EmailCandidate.t) (reason : string) p
  : prog Port DispatchResult.t :=
  match candidates with
  | [] => Ret p
  | _ =>
      do! p := record_only candidates
        ((EmailRecord.of_status EmailStatusSkipped) <| EmailRecord.Reason := reason |>) p in
      Ret (if decide (reason = EmailSkipNoAddress)
           then p <| DispatchResult.SkippedNoAddress :=
                       DispatchResult.SkippedNoAddress p + length candidates |>
           else if decide (reason = EmailSkipFiltered)
           then p <| DispatchResult.SkippedFiltered :=
                       DispatchResult.SkippedFiltered p + length candidates |>
           else p <| DispatchResult.SkippedInactive :=
                       DispatchResult.SkippedInactive p + length candidates |>)
  end.

Definition fail (candidates : list EmailCandidate.t) (batch : string) (cause : error) p
  : prog Port DispatchResult.t :=
  do! p := record_only candidates
    ((EmailRecord.of_status EmailStatusFailed) <| EmailRecord.Reason := Error cause |>) p in
  let p := p <| DispatchResult.Failed := DispatchResult.Failed p + length candidates |> in
  do! _ := report (recipient_of candidates) batch cause in
  Ret p.

(** The loop of [delay]: [n] turns at most. *)
Fixpoint doubled (n : nat) (ceiling wait : Z) : Z :=
  match n with
  | 0 => wait
  | S n =>
      if decide (wait < ceiling)%Z then doubled n ceiling (wrap64 (wait * 2)) else wait
  end.

(** The wait before its jitter. *)
Definition base_delay (attempts : nat) : Z :=
  Z.min (doubled (attempts - 1) (ceiling d) (backoff d)) (ceiling d).

(** [time.Duration(f)] *)
Definition duration_of (f : spec_float) : Z :=
  match float64_trunc f with
  | Some n => if decide (- 2 ^ 63 <= n <= max_int64)%Z then n else unrepresentable f
  | None => unrepresentable f
  end.

Definition delay (attempts : nat) : prog Port Z :=
  do! draw := call Draw in
  let spread :=
    float64_add (float64 1)
      (float64_mul emailJitter
         (float64_sub (float64_mul (float64 2) draw) (float64 1))) in
  Ret (duration_of (float64_mul (float64 (base_delay attempts)) spread)).

(** One turn of the loop over the numbers of attempts made. *)
Definition retry_group (cause : error) (countAttempt : bool)
    (entry : nat * list EmailCandidate.t) p : prog Port DispatchResult.t :=
  let '(made, group) := entry in
  if decide (attempts d <= Z.of_nat made)%Z
  then
    do! p := record_only group
      ((EmailRecord.of_status EmailStatusFailed) <| EmailRecord.Reason := Error cause |>
         <| EmailRecord.Attempt := countAttempt |>) p in
    Ret (p <| DispatchResult.Failed := DispatchResult.Failed p + length group |>)
  else
    do! wait := delay made in
    let next := (now + wait)%Z in
    do! p := record_only group
      ((EmailRecord.of_status EmailStatusRetry) <| EmailRecord.Reason := Error cause |>
         <| EmailRecord.NextAttemptAt := Some next |>
         <| EmailRecord.Attempt := countAttempt |>) p in
    Ret (p <| DispatchResult.Retried := DispatchResult.Retried p + length group |>).

Definition attempts_made (countAttempt : bool) (c : EmailCandidate.t) : nat :=
  if countAttempt then S (EmailCandidate.Attempts c) else EmailCandidate.Attempts c.

Definition retry (candidates : list EmailCandidate.t) (batch : string) (cause : error)
    (countAttempt : bool) p : prog Port DispatchResult.t :=
  let by_attempts := for_each (file (attempts_made countAttempt)) candidates ([], ∅) in
  do! p := loop (retry_group cause countAttempt) (groups by_attempts) p in
  do! _ := report (recipient_of candidates) batch cause in
  Ret p.

(** ** Rechecking and sending *)

Definition recheck_one (recipient : string) (c : EmailCandidate.t) (k : checked.t)
  : prog Port checked.t :=
  do! answer := call (GetNotification recipient
                        (Notification.ID (EmailCandidate.Notification_ c))) in
  match answer with
  | Err err =>
      if errors_Is err ErrNotFound
      then Ret (k <| checked.deleted := checked.deleted k ++ [c] |>)
      else
        do! p := retry [c] (EmailCandidate.BatchID c) err true (checked.result k) in
        Ret (k <| checked.result := p |>)
  | Ok n =>
      if decide (Notification.State_ n <> StateActive)
      then Ret (k <| checked.inactive := checked.inactive k ++ [c] |>)
      else
        let k := k <| checked.live := checked.live k ++ [c] |> in
        Ret (k <| checked.notifications := checked.notifications k ++ [n] |>)
  end.

Definition recheck (recipient : string) (candidates : list EmailCandidate.t) p
  : prog Port (list EmailCandidate.t * list Notification.t * DispatchResult.t) :=
  do! k := loop (recheck_one recipient) candidates (checked.mk [] [] [] [] p) in
  do! p := skip (checked.inactive k) EmailSkipInactive (checked.result k) in
  do! p := skip (checked.deleted k) EmailSkipDeleted p in
  Ret (checked.live k, checked.notifications k, p).

Definition one_more (c : EmailCandidate.t) : EmailCandidate.t :=
  c <| EmailCandidate.Attempts := S (EmailCandidate.Attempts c) |>.

(** What the mailer's answer makes of a message. *)
Definition after_send (recipient : string) (live : list EmailCandidate.t) (batch : string)
    (verdict : option error) p : prog Port DispatchResult.t :=
  match verdict with
  | None =>
      do! p := record_only live (EmailRecord.of_status EmailStatusSent) p in
      let p := p <| DispatchResult.Sent := DispatchResult.Sent p + length live |> in
      Ret (p <| DispatchResult.Messages := S (DispatchResult.Messages p) |>)
  | Some err =>
      if errors_Is err ErrMailRejected then fail live batch err p
      else if errors_Is err ErrMailInDoubt && bool_decide (guarantee d = AtMostOnce)
      then
        do! p := record_only live
          ((EmailRecord.of_status EmailStatusAbandoned) <| EmailRecord.Reason := Error err |>) p in
        let p :=
          p <| DispatchResult.Abandoned := DispatchResult.Abandoned p + length live |> in
        do! _ := report recipient batch err in
        Ret p
      else if errors_Is err ErrMailInDoubt
      then
        let p := p <| DispatchResult.Retried := DispatchResult.Retried p + length live |> in
        do! _ := report recipient batch err in
        Ret p
      else retry (one_more <$> live) batch err false p
  end.

Definition message_of (recipient address batch : string) (content : EmailContent.t)
    (live : list EmailCandidate.t) : EmailMessage.t := {|
  EmailMessage.To := address; EmailMessage.Subject := EmailContent.Subject content;
  EmailMessage.TextBody := EmailContent.TextBody content;
  EmailMessage.HTMLBody := EmailContent.HTMLBody content;
  EmailMessage.Headers := EmailContent.Headers content;
  EmailMessage.IdempotencyKey := batch; EmailMessage.Recipient := recipient;
  EmailMessage.NotificationIDs := candidateIDs live |}.

(** The part of [send] that commits a message and hands it to the mailer. *)
Definition commit_and_send (recipient address : string) (live : list EmailCandidate.t)
    (content : EmailContent.t) (batch : string) p : prog Port DispatchResult.t :=
  do! answer := record_ live
    ((EmailRecord.of_status EmailStatusSending) <| EmailRecord.BatchID := batch |>
       <| EmailRecord.Attempt := true |>) p in
  let '(recorded, p) := answer in
  if negb recorded then Ret p
  else
    do! verdict := call (Send (message_of recipient address batch content live)) in
    after_send recipient live batch verdict p.

Definition send (recipient address : string) (candidates : list EmailCandidate.t)
    (batch : string) p : prog Port DispatchResult.t :=
  do! answer := recheck recipient candidates p in
  let '(live, notifications, p) := answer in
  match live with
  | [] => Ret p
  | _ =>
      do! content := call (Render (EmailBatch.mk recipient address notifications)) in
      match content with
      | Err err => fail live batch (Prefixed "render" err) p
      | Ok content =>
          if decide (batch = "")
          then
            do! id := call NewEmailID in
            match id with
            | Err err => retry live "" err true p
            | Ok batch => commit_and_send recipient address live content batch p
            end
          else commit_and_send recipient address live content batch p
      end
  end.

Definition resolveDoubt (candidates : list EmailCandidate.t) p : prog Port DispatchResult.t :=
  let batch := match candidates with c :: _ => EmailCandidate.BatchID c | [] => "" end in
  let recipient := recipient_of candidates in
  if decide (guarantee d = AtMostOnce)
  then
    do! p := record_only candidates
      ((EmailRecord.of_status EmailStatusAbandoned)
         <| EmailRecord.Reason := "the send is in doubt" |>) p in
    Ret (p <| DispatchResult.Abandoned := DispatchResult.Abandoned p + length candidates |>)
  else
    do! address := call (AddressOf recipient) in
    match address with
    | Err err =>
        let p :=
          p <| DispatchResult.Retried := DispatchResult.Retried p + length candidates |> in
        do! _ := report recipient batch err in
        Ret p
    | Ok None => skip candidates EmailSkipNoAddress p
    | Ok (Some address) => send recipient address candidates batch p
    end.

(** One turn of the loop that filters: selected, filtered, and the result. *)
Definition filter_one (c : EmailCandidate.t)
    (acc : list EmailCandidate.t * list EmailCandidate.t * DispatchResult.t)
  : prog Port (list EmailCandidate.t * list EmailCandidate.t * DispatchResult.t) :=
  let '(selected, filtered, p) := acc in
  do! answer := should_email (filter d) (EmailCandidate.Notification_ c) in
  match answer with
  | Err err =>
      do! p := retry [c] "" err true p in
      Ret (selected, filtered, p)
  | Ok true => Ret (selected ++ [c], filtered, p)
  | Ok false => Ret (selected, filtered ++ [c], p)
  end.

(** What is left of [deliver] once an address is known. *)
Definition send_selected (recipient address : string) (selected : list EmailCandidate.t) p
  : prog Port DispatchResult.t :=
  if decide (batch d < Z.of_nat (length selected))%Z
  then
    let limit := Z.to_nat (batch d) in
    do! p := record_only (drop limit selected) (EmailRecord.of_status EmailStatusClaimed) p in
    send recipient address (take limit selected) "" p
  else send recipient address selected "" p.

Definition deliver (recipient : string) (candidates : list EmailCandidate.t) p
  : prog Port DispatchResult.t :=
  do! acc := loop filter_one candidates ([], [], p) in
  let '(selected, filtered, p) := acc in
  do! p := skip filtered EmailSkipFiltered p in
  match selected with
  | [] => Ret p
  | _ =>
      do! address := call (AddressOf recipient) in
      match address with
      | Err err => retry selected "" err true p
      | Ok None => skip selected EmailSkipNoAddress p
      | Ok (Some address) => send_selected recipient address selected p
      end
  end.

(** The loop that sorts the candidates: sends in doubt by message, the others by
    recipient. *)
Definition sort_candidate (c : EmailCandidate.t)
    (acc : (list string * gmap string (list EmailCandidate.t)) *
           (list string * gmap string (list EmailCandidate.t))) :=
  let '(doubts, byRecipient) := acc in
  if decide (EmailCandidate.Status c = EmailStatusSending)
  then (file EmailCandidate.BatchID c doubts, byRecipient)
  else (doubts,
        file (fun c => Notification.Recipient (EmailCandidate.Notification_ c)) c byRecipient).

(** The pass over what the claim returned. *)
Definition dispatch_claimed (candidates : list EmailCandidate.t) : prog Port DispatchResult.t :=
  let p := DispatchResult.zero <| DispatchResult.Claimed := length candidates |> in
  let '(doubts, byRecipient) := for_each sort_candidate candidates (([], ∅), ([], ∅)) in
  do! p := loop (fun entry p => resolveDoubt entry.2 p) (groups doubts) p in
  do! p := loop (fun entry p => deliver entry.1 entry.2 p) (groups byRecipient) p in
  do! answer := call (PurgeEmailRecords (claim d)) in
  let '(purged, err) := answer in
  let p := p <| DispatchResult.Purged := purged |> in
  match err with
  | Ok _ => Ret p
  | Err err =>
      do! _ := call (OnError (Prefixed "notify: purge email records" err)) in
      Ret p
  end.
End pass.

Definition claim_of (d : EmailDispatcher.t) (now : Time) : EmailClaim.t := {|
  EmailClaim.Now := now; EmailClaim.Owner := owner d; EmailClaim.Lease := lease d;
  EmailClaim.CreatedUntil := (now - grace d)%Z; EmailClaim.CreatedFrom := (now - maxLag d)%Z;
  EmailClaim.Limit := claim d |}.

Definition Dispatch_ (unrepresentable : spec_float -> Z) (d : EmailDispatcher.t)
  : prog Port (res DispatchResult.t) :=
  do! now := call Now in
  let now := normalizeTime now in
  do! candidates := call (ClaimEmails (claim_of d now)) in
  match candidates with
  | Err err => Ret (Err err)
  | Ok candidates =>
      do! p := dispatch_claimed unrepresentable d now candidates in
      Ret (Ok p)
  end.
