(* ===== verification/NotifyEmailFacts.v ===== *)
(** * NotifyEmailFacts: the delivery records of the in-memory store

    What the three methods of the email port do to the records, stated on every
    identifier, and the properties of leases that follow.  The dispatcher's
    theorems use these statements only. *)

From S2P Require Import Prelude Domain.
From S2P Require Import Notification Collections NotifyStore NotifyStoreFacts NotifyService.
From S2P Require Import NotifyEmail.
Import MemoryStore.

(** Notifications are held under their identifiers. *)
Definition Keyed (s : MemoryStore.t) : Prop :=
  forall id n, notifications s !! id = Some n -> Notification.ID n = id.

Lemma StoreOk_Keyed s : StoreOk s -> Keyed s.
Proof. intros [[H _ _ _] _ _]. exact H. Qed.

(** ** Claims *)

Definition id_of (c : EmailCandidate.t) : string :=
  Notification.ID (EmailCandidate.Notification_ c).

Definition recorded (s : MemoryStore.t) (id : string) : bool :=
  bool_decide (is_Some (deliveries s !! id)).

(** Whether a claim at [now] may take a notification held. *)
Definition due (claim : EmailClaim.t) (now : Time) (s : MemoryStore.t) (n : Notification.t)
  : Prop :=
  notifications s !! Notification.ID n = Some n /\
  claimable n (delivery_of s (Notification.ID n)) (recorded s (Notification.ID n)) claim now
    = true.

Lemma due_now_elem claim now s n : Keyed s -> n ∈ due_now claim now s <-> due claim now s n.
Proof.
  intros Hk. unfold due_now, due. rewrite list_elem_of_fmap. split.
  - intros ([id n'] & -> & [Hc Hin]%list_elem_of_filter). cbn [snd].
    apply elem_of_map_to_list in Hin. rewrite (Hk id n' Hin). by split.
  - intros [Hn Hc]. exists (Notification.ID n, n). split; [done|].
    apply list_elem_of_filter. split; [done|]. by apply elem_of_map_to_list.
Qed.

Lemma due_now_NoDup claim now s : Keyed s -> NoDup (Notification.ID <$> due_now claim now s).
Proof.
  intros Hk. unfold due_now. rewrite <- list_fmap_compose.
  rewrite (list_fmap_ext _ fst).
  - apply NoDup_fmap_filter, NoDup_fst_map_to_list.
  - intros i [id n] Hi%list_elem_of_lookup_2. cbn.
    apply list_elem_of_filter in Hi as [_ Hi]. apply elem_of_map_to_list in Hi. by apply Hk.
Qed.

(** The candidate and the delivery a claim makes of a notification. *)
Definition candidate_of (claim : EmailClaim.t) (now until : Time) (s : MemoryStore.t)
    (n : Notification.t) : EmailCandidate.t :=
  let d := leased claim now until (delivery_of s (Notification.ID n)) in
  EmailCandidate.mk n (emailDelivery.status d) (emailDelivery.batchID d)
    (emailDelivery.attempts d).

(** Two stores that differ in delivery records only. *)
Definition same_but_deliveries (s s' : MemoryStore.t) : Prop :=
  s' = s <| deliveries := deliveries s' |>.

Lemma same_but_deliveries_notifications s s' :
  same_but_deliveries s s' -> notifications s' = notifications s.
Proof. by intros ->. Qed.

Lemma same_but_deliveries_refl s : same_but_deliveries s s.
Proof. by destruct s. Qed.

Lemma same_but_deliveries_trans s1 s2 s3 :
  same_but_deliveries s1 s2 -> same_but_deliveries s2 s3 -> same_but_deliveries s1 s3.
Proof. unfold same_but_deliveries. intros H1 H2. rewrite H2, H1. by destruct s1. Qed.

Lemma set_deliveries s m : same_but_deliveries s (s <| deliveries := m |>).
Proof. by destruct s. Qed.

Lemma claim_loop claim now until l cs s :
  NoDup (Notification.ID <$> l) ->
  let out := for_each (claim_one claim now until) l (cs, s) in
  out.1 = cs ++ (candidate_of claim now until s <$> l) /\
  same_but_deliveries s out.2 /\
  forall id, deliveries out.2 !! id =
    if decide (id ∈ (Notification.ID <$> l))
    then Some (leased claim now until (delivery_of s id)) else deliveries s !! id.
Proof.
  revert cs s. induction l as [|n l IH]; intros cs s Hn; cbn [for_each fmap list_fmap].
  { cbn. rewrite app_nil_r. split_and!; [done|apply same_but_deliveries_refl|].
    intros id. by rewrite decide_False by apply not_elem_of_nil. }
  apply NoDup_cons in Hn as [Hid Hn]. cbn [claim_one]. rewrite Clone_id.
  set (d := leased claim now until (delivery_of s (Notification.ID n))).
  set (s1 := s <| deliveries := <[Notification.ID n := d]> (deliveries s) |>).
  destruct (IH (cs ++ [EmailCandidate.mk n (emailDelivery.status d) (emailDelivery.batchID d)
                         (emailDelivery.attempts d)]) s1 Hn) as (E1 & E2 & E3).
  assert (Hd : forall id, id <> Notification.ID n -> delivery_of s1 id = delivery_of s id).
  { intros id Hne. unfold delivery_of, s1. cbn. by rewrite lookup_insert_ne. }
  split_and!.
  - rewrite E1, <- app_assoc. f_equal. cbn. f_equal. apply list_fmap_ext.
    intros i m Hm%list_elem_of_lookup_2. unfold candidate_of. rewrite Hd; [done|].
    intros E. apply Hid. rewrite <- E. by apply list_elem_of_fmap_2.
  - eapply same_but_deliveries_trans; [apply set_deliveries|exact E2].
  - intros id. rewrite E3. destruct (decide (id ∈ Notification.ID <$> l)) as [Hin|Hout].
    + rewrite decide_True by (by right). rewrite Hd; [done|]. intros ->. done.
    + unfold s1. cbn. destruct (decide (id = Notification.ID n)) as [->|Hne].
      * rewrite lookup_insert_eq, decide_True by left. done.
      * rewrite lookup_insert_ne by done. rewrite decide_False; [done|].
        intros [?|?]%elem_of_cons; done.
Qed.

(** The notifications a claim takes: those due, oldest first, up to its limit. *)
Definition taken_by (claim : EmailClaim.t) (s : MemoryStore.t) : list Notification.t :=
  let now := normalizeTime (EmailClaim.Now claim) in
  let l := merge_sort (no_later oldestFirst) (due_now claim now s) in
  if bool_decide (0 < EmailClaim.Limit claim)%Z &&
     bool_decide (EmailClaim.Limit claim < Z.of_nat (length l))%Z
  then take (Z.to_nat (EmailClaim.Limit claim)) l else l.

Lemma taken_by_prefix claim s :
  exists rest, merge_sort (no_later oldestFirst)
    (due_now claim (normalizeTime (EmailClaim.Now claim)) s) = taken_by claim s ++ rest.
Proof.
  unfold taken_by. destruct (_ && _); [|exists []; by rewrite app_nil_r].
  eexists. symmetry. apply take_drop.
Qed.

Lemma taken_by_due claim s n : Keyed s -> n ∈ taken_by claim s ->
  due claim (normalizeTime (EmailClaim.Now claim)) s n.
Proof.
  intros Hk Hn. destruct (taken_by_prefix claim s) as [rest E].
  apply due_now_elem; [done|]. rewrite <- (merge_sort_Permutation (no_later oldestFirst)), E.
  apply elem_of_app. by left.
Qed.

Lemma taken_by_NoDup claim s : Keyed s -> NoDup (Notification.ID <$> taken_by claim s).
Proof.
  intros Hk. destruct (taken_by_prefix claim s) as [rest E].
  pose proof (due_now_NoDup claim (normalizeTime (EmailClaim.Now claim)) s Hk) as H.
  rewrite <- (merge_sort_Permutation (no_later oldestFirst)), E, fmap_app in H.
  by apply NoDup_app in H as [? _].
Qed.

Lemma ClaimEmails_runs claim s : Keyed s ->
  let now := normalizeTime (EmailClaim.Now claim) in
  let until := normalizeTime (now + EmailClaim.Lease claim)%Z in
  let out := ClaimEmails_ claim s in
  out.1 = candidate_of claim now until s <$> taken_by claim s /\
  same_but_deliveries s out.2 /\
  forall id, deliveries out.2 !! id =
    if decide (id ∈ Notification.ID <$> taken_by claim s)
    then Some (leased claim now until (delivery_of s id)) else deliveries s !! id.
Proof.
  intros Hk. cbv zeta. apply (claim_loop _ _ _ _ []). by apply taken_by_NoDup.
Qed.

Lemma ids_of_candidates claim now until s (l : list Notification.t) :
  id_of <$> (candidate_of claim now until s <$> l) = Notification.ID <$> l.
Proof. rewrite <- list_fmap_compose. by apply list_fmap_ext. Qed.

(** ** Records *)

(** What a record makes of one delivery. *)
Definition recorded_as (record : EmailRecord.t) (d : emailDelivery.t) : emailDelivery.t :=
  applyEmailRecord d record (normalizeTime (EmailRecord.At record)).

(** Whether a record changes an identifier's delivery. *)
Definition holds (record : EmailRecord.t) (s : MemoryStore.t) (id : string) : bool :=
  match deliveries s !! id with
  | Some d => bool_decide (emailDelivery.owner d = EmailRecord.Owner record)
  | None => false
  end.

Lemma record_one_cases record id k s :
  record_one record (normalizeTime (EmailRecord.At record)) id (k, s) =
  if holds record s id
  then (S k, s <| deliveries := <[id := recorded_as record (delivery_of s id)]> (deliveries s) |>)
  else (k, s).
Proof.
  unfold record_one, holds, delivery_of. destruct (deliveries s !! id) as [d|]; [|done].
  destruct (decide (emailDelivery.owner d = EmailRecord.Owner record)) as [E|E].
  - rewrite (bool_decide_true _ E), decide_False by tauto. done.
  - by rewrite (bool_decide_false _ E), decide_True.
Qed.

Lemma record_loop record l k s :
  NoDup l ->
  let out := for_each (record_one record (normalizeTime (EmailRecord.At record))) l (k, s) in
  out.1 = k + length (filter (fun id => holds record s id = true) l) /\
  same_but_deliveries s out.2 /\
  forall id, deliveries out.2 !! id =
    if bool_decide (id ∈ l) && holds record s id
    then recorded_as record <$> deliveries s !! id else deliveries s !! id.
Proof.
  revert k s. induction l as [|x l IH]; intros k s Hn; cbn [for_each].
  { cbn. split_and!; [lia|apply same_but_deliveries_refl|done]. }
  apply NoDup_cons in Hn as [Hx Hn]. rewrite record_one_cases.
  destruct (holds record s x) eqn:Ex.
  - assert (Ed : exists d, deliveries s !! x = Some d).
    { unfold holds in Ex. destruct (deliveries s !! x); [eauto|done]. }
    destruct Ed as [d Ed]. unfold delivery_of. rewrite Ed. cbn [default from_option id].
    set (s1 := s <| deliveries := <[x := recorded_as record d]> (deliveries s) |>).
    destruct (IH (S k) s1 Hn) as (E1 & E2 & E3).
    assert (Hh : forall id, id ∈ l -> holds record s1 id = holds record s id).
    { intros id Hid. unfold holds, s1. cbn. rewrite lookup_insert_ne; [done|]. by intros ->. }
    rewrite E1, filter_cons_True by done.
    rewrite (list_filter_iff_in _ (fun id => holds record s id = true) l)
      by (intros id Hid; by rewrite Hh).
    split_and!; [cbn; lia|eapply same_but_deliveries_trans; [apply set_deliveries|exact E2]|].
    intros id. rewrite E3. destruct (decide (id = x)) as [->|Hne].
    + rewrite (bool_decide_false _ Hx), (bool_decide_true _ (list_elem_of_here _ _)), Ex.
      cbn. rewrite lookup_insert_eq, Ed. done.
    + assert (Eb : bool_decide (id ∈ x :: l) = bool_decide (id ∈ l)).
      { apply bool_decide_ext. rewrite elem_of_cons. tauto. }
      rewrite Eb. destruct (decide (id ∈ l)) as [Hin|Hout].
      * rewrite (bool_decide_true _ Hin), Hh by done. cbn. by rewrite lookup_insert_ne.
      * rewrite (bool_decide_false _ Hout). cbn. by rewrite lookup_insert_ne.
  - destruct (IH k s Hn) as (E1 & E2 & E3).
    rewrite E1, filter_cons_False by (by rewrite Ex). split_and!; [done|done|].
    intros id. rewrite E3. destruct (decide (id = x)) as [->|Hne]; [by rewrite Ex, !andb_false_r|].
    assert (Eb : bool_decide (id ∈ x :: l) = bool_decide (id ∈ l)).
    { apply bool_decide_ext. rewrite elem_of_cons. tauto. }
    by rewrite Eb.
Qed.

Lemma RecordEmails_runs record s :
  let out := RecordEmails_ record s in
  out.1 = length (filter (fun id => holds record s id = true)
                    (sorted_distinct (EmailRecord.IDs record))) /\
  same_but_deliveries s out.2 /\
  forall id, deliveries out.2 !! id =
    if bool_decide (id ∈ EmailRecord.IDs record) && holds record s id
    then recorded_as record <$> deliveries s !! id else deliveries s !! id.
Proof.
  cbv zeta. unfold RecordEmails_.
  destruct (record_loop record (sorted_distinct (EmailRecord.IDs record)) 0 s) as (E1 & E2 & E3).
  { apply sorted_distinct_NoDup. }
  split_and!; [by rewrite E1|done|]. intros id. rewrite E3.
  assert (Eb : bool_decide (id ∈ sorted_distinct (EmailRecord.IDs record)) =
               bool_decide (id ∈ EmailRecord.IDs record)).
  { apply bool_decide_ext. by rewrite elem_of_sorted_distinct. }
  by rewrite Eb.
Qed.

Lemma RecordEmails_all record s :
  length (EmailRecord.IDs record) <= (RecordEmails_ record s).1 ->
  forall id, id ∈ EmailRecord.IDs record -> holds record s id = true.
Proof.
  destruct (RecordEmails_runs record s) as (-> & _ & _). intros Hlen id Hid.
  eapply (filter_full (fun id => holds record s id = true)).
  - etrans; [apply length_sorted_distinct|exact Hlen].
  - by apply elem_of_sorted_distinct.
Qed.

(** ** Purging *)

Lemma delete_loop l s :
  let s' := for_each (fun id s => s <| deliveries := delete id (deliveries s) |>) l s in
  same_but_deliveries s s' /\
  forall id, deliveries s' !! id = if decide (id ∈ l) then None else deliveries s !! id.
Proof.
  cbv zeta. revert s. induction l as [|x l IH]; intros s; cbn [for_each].
  { split; [apply same_but_deliveries_refl|]. intros id.
    by rewrite decide_False by apply not_elem_of_nil. }
  destruct (IH (s <| deliveries := delete x (deliveries s) |>)) as [E1 E2]. split.
  { eapply same_but_deliveries_trans; [apply set_deliveries|exact E1]. }
  intros id. rewrite E2. destruct (decide (id ∈ l)) as [Hin|Hout].
  { by rewrite decide_True by (by right). }
  cbn. destruct (decide (id = x)) as [->|Hne].
  - by rewrite lookup_delete_eq, decide_True by left.
  - rewrite lookup_delete_ne by done. rewrite decide_False; [done|].
    intros [?|?]%elem_of_cons; done.
Qed.

(** A purge removes records whose notification is gone, up to its limit. *)
Lemma PurgeEmailRecords_runs limit s :
  let out := PurgeEmailRecords_ limit s in
  same_but_deliveries s out.2 /\
  exists gone, out.1 = length gone /\ NoDup gone /\
    (forall id, id ∈ gone -> orphan s id /\ is_Some (deliveries s !! id)) /\
    (forall id, deliveries out.2 !! id = if decide (id ∈ gone) then None else deliveries s !! id) /\
    ((0 < limit)%Z -> (Z.of_nat (length gone) <= limit)%Z).
Proof.
  cbv zeta. unfold PurgeEmailRecords_.
  set (all := sort_strings (filter (orphan s) (map_to_list (deliveries s)).*1)).
  assert (Hall : NoDup all).
  { apply NoDup_sort_strings, NoDup_filter, NoDup_fst_map_to_list. }
  assert (Hin : forall id, id ∈ all -> orphan s id /\ is_Some (deliveries s !! id)).
  { intros id Hid. apply elem_of_sort_strings, list_elem_of_filter in Hid as [Ho Hid].
    split; [done|]. apply list_elem_of_fmap in Hid as ([id' d] & -> & Hd).
    apply elem_of_map_to_list in Hd. cbn [fst]. by rewrite Hd. }
  set (gone := if bool_decide _ && _ then take _ all else all).
  assert (Hsub : sublist gone all).
  { unfold gone. destruct (_ && _); [apply sublist_take|done]. }
  destruct (delete_loop gone s) as [E1 E2]. split; [exact E1|]. exists gone. split_and!.
  - done.
  - by eapply sublist_NoDup.
  - intros id Hid. apply Hin. by eapply elem_of_sublist.
  - exact E2.
  - intros Hl. unfold gone. rewrite (bool_decide_true _ Hl). cbn [andb].
    case_bool_decide; [rewrite length_take; lia|lia].
Qed.

(** ** Sequences of operations on the records *)

Inductive EmailOp : Type :=
| OpClaim (claim : EmailClaim.t)
| OpRecord (record : EmailRecord.t)
| OpPurge (limit : Z).

Definition perform_email (op : EmailOp) (s : MemoryStore.t) : MemoryStore.t :=
  match op with
  | OpClaim claim => (ClaimEmails_ claim s).2
  | OpRecord record => (RecordEmails_ record s).2
  | OpPurge limit => (PurgeEmailRecords_ limit s).2
  end.

Definition perform_emails (ops : list EmailOp) (s : MemoryStore.t) : MemoryStore.t :=
  for_each perform_email ops s.

Lemma perform_email_rest op s : Keyed s -> same_but_deliveries s (perform_email op s).
Proof.
  intros Hk. destruct op as [claim|record|limit]; cbn.
  - by destruct (ClaimEmails_runs claim s Hk) as (_ & ? & _).
  - by destruct (RecordEmails_runs record s) as (_ & ? & _).
  - by destruct (PurgeEmailRecords_runs limit s) as (? & _).
Qed.

Lemma Keyed_rest s s' : same_but_deliveries s s' -> Keyed s -> Keyed s'.
Proof. intros E H id n. rewrite (same_but_deliveries_notifications s s' E). apply H. Qed.

Lemma StoreOk_rest s s' : same_but_deliveries s s' -> StoreOk s -> StoreOk s'.
Proof. intros -> [[I1 I2 I3 I4] H2 H3]. by constructor. Qed.

Lemma perform_emails_rest ops s : Keyed s -> same_but_deliveries s (perform_emails ops s).
Proof.
  revert s. induction ops as [|op ops IH]; intros s Hk; [apply same_but_deliveries_refl|].
  pose proof (perform_email_rest op s Hk) as Hr.
  eapply same_but_deliveries_trans; [exact Hr|]. apply IH. by eapply Keyed_rest.
Qed.

(** *** Leases *)

(** An operation that leaves alone what [owner] leased until [until]: a claim
    before the lease ends, a record by somebody else, or a purge. *)
Definition spares (owner : string) (until : Time) (op : EmailOp) : Prop :=
  match op with
  | OpClaim claim => (normalizeTime (EmailClaim.Now claim) < until)%Z
  | OpRecord record => EmailRecord.Owner record <> owner
  | OpPurge _ => True
  end.

(** A delivery [owner] holds until [until], on a notification still there. *)
Definition held (owner : string) (until : Time) (s : MemoryStore.t) (id : string) : Prop :=
  is_Some (notifications s !! id) /\
  exists d, deliveries s !! id = Some d /\ emailDelivery.owner d = owner /\
    emailDelivery.leaseUntil d = Some until.

Lemma held_not_due owner until claim s n :
  held owner until s (Notification.ID n) -> (normalizeTime (EmailClaim.Now claim) < until)%Z ->
  ~ due claim (normalizeTime (EmailClaim.Now claim)) s n.
Proof.
  intros (_ & d & Hd & _ & Hl) Hlt [_ Hc]. revert Hc. unfold claimable, recorded, delivery_of.
  rewrite Hd. cbn [default from_option id]. rewrite Hl, bool_decide_true by done. cbn [negb].
  rewrite bool_decide_true by done. cbn [negb]. by destruct (emailDelivery.status d).
Qed.

Lemma held_not_taken owner until claim s id : Keyed s ->
  held owner until s id -> (normalizeTime (EmailClaim.Now claim) < until)%Z ->
  id ∉ Notification.ID <$> taken_by claim s.
Proof.
  intros Hk Hh Hlt (n & -> & Hn)%list_elem_of_fmap.
  by eapply held_not_due; [exact Hh|exact Hlt|apply taken_by_due].
Qed.

Lemma spares_held owner until op s id : Keyed s ->
  spares owner until op -> held owner until s id -> held owner until (perform_email op s) id.
Proof.
  intros Hk Hop Hh. pose proof Hh as (Hn & d & Hd & Ho & Hl).
  pose proof (perform_email_rest op s Hk) as Hr.
  split; [by rewrite (same_but_deliveries_notifications _ _ Hr)|]. exists d.
  split; [|done]. destruct op as [claim|record|limit]; cbn in *.
  - destruct (ClaimEmails_runs claim s Hk) as (_ & _ & ->).
    rewrite decide_False; [done|]. by eapply held_not_taken.
  - destruct (RecordEmails_runs record s) as (_ & _ & ->). unfold holds.
    rewrite Hd, (bool_decide_false (emailDelivery.owner d = _)), andb_false_r; [done|].
    by rewrite Ho.
  - destruct (PurgeEmailRecords_runs limit s) as (_ & gone & _ & _ & Hg & -> & _).
    rewrite decide_False; [done|]. intros [E _]%Hg. unfold orphan in E.
    rewrite E in Hn. by destruct Hn.
Qed.

Lemma spares_all_held owner until ops s id : Keyed s ->
  Forall (spares owner until) ops -> held owner until s id ->
  held owner until (perform_emails ops s) id.
Proof.
  intros Hk Hops. revert s Hk. induction Hops as [|op ops Hop Hops IH]; intros s Hk Hh; [done|].
  apply IH; [|by apply spares_held]. eapply Keyed_rest; [by apply perform_email_rest|done].
Qed.

Lemma claimed_held claim s c : Keyed s -> c ∈ (ClaimEmails_ claim s).1 ->
  held (EmailClaim.Owner claim)
    (normalizeTime (normalizeTime (EmailClaim.Now claim) + EmailClaim.Lease claim))
    (ClaimEmails_ claim s).2 (id_of c).
Proof.
  intros Hk. destruct (ClaimEmails_runs claim s Hk) as (E1 & E2 & E3). rewrite E1.
  intros (n & -> & Hn)%list_elem_of_fmap. unfold held, id_of. cbn [EmailCandidate.Notification_].
  rewrite (same_but_deliveries_notifications _ _ E2), E3.
  rewrite decide_True by (by apply list_elem_of_fmap_2).
  destruct (taken_by_due claim s n Hk Hn) as [Hin _]. split; [by exists n|].
  eexists. split; [reflexivity|]. unfold leased. by case_decide.
Qed.

(** *** Finished deliveries *)

(** A delivery nothing will be attempted of again. *)
Definition finished (d : emailDelivery.t) : bool :=
  match emailDelivery.status d with
  | EmailStatusClaimed | EmailStatusSending | EmailStatusRetry => false
  | _ => true
  end.

(** Who is recorded in a delivery: nobody when it is finished or waits for a
    retry, and a lease has a holder. *)
Definition DeliveryOk (d : emailDelivery.t) : Prop :=
  ((finished d = true \/ emailDelivery.status d = EmailStatusRetry) ->
   emailDelivery.owner d = "") /\
  (emailDelivery.owner d = "" <-> emailDelivery.leaseUntil d = None).

Definition DeliveriesOk (s : MemoryStore.t) : Prop :=
  forall id d, deliveries s !! id = Some d -> DeliveryOk d.

(** An operation of a dispatcher, which has a name. *)
Definition named (op : EmailOp) : Prop :=
  match op with
  | OpClaim claim => EmailClaim.Owner claim <> ""
  | OpRecord record => EmailRecord.Owner record <> ""
  | OpPurge _ => True
  end.

Lemma recorded_as_status record d :
  emailDelivery.status (recorded_as record d) = EmailRecord.Status record.
Proof.
  unfold recorded_as, applyEmailRecord.
  destruct (decide (EmailRecord.BatchID record <> "")),
    (decide (EmailRecord.Reason record <> "")), (EmailRecord.Attempt record);
    by destruct (EmailRecord.Status record).
Qed.

Lemma recorded_as_holder record d :
  emailDelivery.owner (recorded_as record d) =
    (if decide (EmailRecord.Status record = EmailStatusSending)
     then emailDelivery.owner d else "") /\
  emailDelivery.leaseUntil (recorded_as record d) =
    (if decide (EmailRecord.Status record = EmailStatusSending)
     then emailDelivery.leaseUntil d else None).
Proof.
  unfold recorded_as, applyEmailRecord.
  destruct (decide (EmailRecord.BatchID record <> "")),
    (decide (EmailRecord.Reason record <> "")), (EmailRecord.Attempt record);
    by destruct (EmailRecord.Status record).
Qed.

Lemma leased_status claim now until d :
  emailDelivery.status (leased claim now until d) =
  if decide (emailDelivery.status d = EmailStatusSending)
  then EmailStatusSending else EmailStatusClaimed.
Proof.
  unfold leased. destruct (decide (emailDelivery.status d = EmailStatusSending)) as [E|E].
  - rewrite decide_False by tauto. exact E.
  - by rewrite decide_True.
Qed.

Lemma leased_holder claim now until d :
  emailDelivery.owner (leased claim now until d) = EmailClaim.Owner claim /\
  emailDelivery.leaseUntil (leased claim now until d) = Some until.
Proof. unfold leased. by case_decide. Qed.

Lemma leased_ok claim now until d :
  EmailClaim.Owner claim <> "" -> DeliveryOk (leased claim now until d).
Proof.
  intros Ho. destruct (leased_holder claim now until d) as [E1 E2].
  unfold DeliveryOk, finished. rewrite leased_status, E1, E2. split; [|by split].
  by case_decide; intros [?|?].
Qed.

Lemma recorded_as_ok record d :
  EmailRecord.Owner record <> "" -> emailDelivery.owner d = EmailRecord.Owner record ->
  DeliveryOk d -> DeliveryOk (recorded_as record d).
Proof.
  intros Hne Ho [H1 H2]. destruct (recorded_as_holder record d) as [E1 E2].
  unfold DeliveryOk, finished. rewrite recorded_as_status, E1, E2.
  destruct (decide (EmailRecord.Status record = EmailStatusSending)) as [E|E].
  - rewrite E. split; [by intros [?|?]|exact H2].
  - by split.
Qed.

Lemma perform_email_ok op s : Keyed s -> named op ->
  DeliveriesOk s -> DeliveriesOk (perform_email op s).
Proof.
  intros Hk Hn Hok id d'. destruct op as [claim|record|limit]; cbn in *.
  - destruct (ClaimEmails_runs claim s Hk) as (_ & _ & ->). case_decide; [|apply Hok].
    intros [= <-]. by apply leased_ok.
  - destruct (RecordEmails_runs record s) as (_ & _ & ->). unfold holds.
    destruct (deliveries s !! id) as [d|] eqn:Hd; [|by destruct (_ && _)].
    destruct (bool_decide (id ∈ _)); cbn [andb]; [|intros [= <-]; by apply (Hok id)].
    case_bool_decide; cbn; intros [= <-]; [|by apply (Hok id)].
    apply recorded_as_ok; [done..|by apply (Hok id)].
  - destruct (PurgeEmailRecords_runs limit s) as (_ & gone & _ & _ & _ & -> & _).
    case_decide; [done|apply Hok].
Qed.

Lemma finished_not_due claim s id d : Keyed s ->
  deliveries s !! id = Some d -> finished d = true ->
  id ∉ Notification.ID <$> taken_by claim s.
Proof.
  intros Hk Hd Hf (n & -> & Hn)%list_elem_of_fmap.
  destruct (taken_by_due claim s n Hk Hn) as [_ Hc]. revert Hc.
  unfold claimable, recorded, delivery_of. rewrite Hd. cbn [default from_option id].
  rewrite bool_decide_true by done. cbn [negb]. revert Hf. unfold finished.
  by destruct (emailDelivery.status d).
Qed.

Lemma perform_email_finished op s id d : Keyed s -> named op -> DeliveriesOk s ->
  is_Some (notifications s !! id) ->
  deliveries s !! id = Some d -> finished d = true ->
  deliveries (perform_email op s) !! id = Some d.
Proof.
  intros Hk Hn Hok Hin Hd Hf. destruct op as [claim|record|limit]; cbn in *.
  - destruct (ClaimEmails_runs claim s Hk) as (_ & _ & ->).
    rewrite decide_False; [done|]. by eapply finished_not_due.
  - destruct (RecordEmails_runs record s) as (_ & _ & ->). unfold holds. rewrite Hd.
    destruct (Hok id d Hd) as [H1 _].
    rewrite (bool_decide_false (emailDelivery.owner d = _)), andb_false_r; [done|].
    rewrite H1; [done|by left].
  - destruct (PurgeEmailRecords_runs limit s) as (_ & gone & _ & _ & Hg & -> & _).
    rewrite decide_False; [done|]. intros [E _]%Hg. unfold orphan in E.
    rewrite E in Hin. by destruct Hin.
Qed.

Lemma perform_emails_finished ops s id d : Keyed s -> Forall named ops -> DeliveriesOk s ->
  is_Some (notifications s !! id) ->
  deliveries s !! id = Some d -> finished d = true ->
  deliveries (perform_emails ops s) !! id = Some d.
Proof.
  intros Hk Hops. revert s Hk. induction Hops as [|op ops Hop Hops IH];
    intros s Hk Hok Hin Hd Hf; [done|].
  pose proof (perform_email_rest op s Hk) as Hr. cbn. apply IH.
  - by eapply Keyed_rest.
  - by apply perform_email_ok.
  - by rewrite (same_but_deliveries_notifications _ _ Hr).
  - by apply perform_email_finished.
  - done.
Qed.

Lemma perform_emails_ok ops s : Keyed s -> Forall named ops ->
  DeliveriesOk s -> DeliveriesOk (perform_emails ops s).
Proof.
  intros Hk Hops. revert s Hk. induction Hops as [|op ops Hop Hops IH]; intros s Hk Hok; [done|].
  cbn. apply IH; [|by apply perform_email_ok].
  eapply Keyed_rest; [by apply perform_email_rest|done].
Qed.

(** ** Sorting the candidates *)

Lemma sort_split cs a b :
  for_each sort_candidate cs (a, b) =
  (for_each (file EmailCandidate.BatchID)
     (filter (fun c => EmailCandidate.Status c = EmailStatusSending) cs) a,
   for_each (file (fun c => Notification.Recipient (EmailCandidate.Notification_ c)))
     (filter (fun c => EmailCandidate.Status c <> EmailStatusSending) cs) b).
Proof.
  revert a b. induction cs as [|c cs IH]; intros a b; [done|]. cbn [for_each sort_candidate].
  case_decide as E; rewrite IH.
  - by rewrite filter_cons_True, filter_cons_False by tauto.
  - by rewrite filter_cons_False, filter_cons_True by tauto.
Qed.

(** * Properties *)

(** A claim takes the notifications due, the oldest first and no more than its
    limit: the active ones inside its window without a record, those released or
    waiting for a retry that is due, and the sends in doubt whose lease lapsed.
    Every candidate is the notification as stored, once; its record is leased to
    the claim's owner and keeps SENDING when it was in doubt; whatever is due and
    was not taken is no older than what was; no other record and no notification
    changes. *)
Theorem email_claim_outcome claim s :
  StoreOk s ->
  let now := normalizeTime (EmailClaim.Now claim) in
  let until := normalizeTime (now + EmailClaim.Lease claim)%Z in
  let '(candidates, s') := ClaimEmails_ claim s in
  let chosen := EmailCandidate.Notification_ <$> candidates in
  StoreOk s' /\ same_but_deliveries s s' /\ NoDup (id_of <$> candidates) /\
  StronglySorted (no_later oldestFirst) chosen /\
  (forall n, n ∈ chosen -> due claim now s n) /\
  (forall n, due claim now s n -> n ∈ chosen \/
     ((0 < EmailClaim.Limit claim)%Z /\
      Z.of_nat (length candidates) = EmailClaim.Limit claim /\
      forall m, m ∈ chosen -> no_later oldestFirst m n)) /\
  (forall c, c ∈ candidates ->
     deliveries s' !! id_of c = Some (leased claim now until (delivery_of s (id_of c))) /\
     c = candidate_of claim now until s (EmailCandidate.Notification_ c)) /\
  (forall id, id ∉ id_of <$> candidates -> deliveries s' !! id = deliveries s !! id).
Proof.
  intros Hok. pose proof (StoreOk_Keyed s Hok) as Hk. cbv zeta.
  destruct (ClaimEmails_runs claim s Hk) as (E1 & E2 & E3).
  destruct (ClaimEmails_ claim s) as [candidates s'] eqn:Ec. cbn [fst snd] in *. subst candidates.
  set (now := normalizeTime (EmailClaim.Now claim)) in *.
  set (until := normalizeTime (now + EmailClaim.Lease claim)) in *.
  set (cand := candidate_of claim now until s).
  assert (Ech : EmailCandidate.Notification_ <$> (cand <$> taken_by claim s) = taken_by claim s).
  { rewrite <- list_fmap_compose. etrans; [|apply list_fmap_id]. by apply list_fmap_ext. }
  rewrite Ech. pose proof (taken_by_NoDup claim s Hk) as Hnd.
  pose proof (sorted_by oldestFirst (due_now claim now s)) as Hsort.
  split_and!.
  - by eapply StoreOk_rest.
  - done.
  - unfold cand. by rewrite ids_of_candidates.
  - destruct (taken_by_prefix claim s) as [rest E]. fold now in E. rewrite E in Hsort.
    by apply StronglySorted_app in Hsort as (_ & ? & _).
  - intros n Hn. by apply taken_by_due.
  - intros n Hn%due_now_elem; [|done].
    rewrite <- (merge_sort_Permutation (no_later oldestFirst)) in Hn.
    rewrite length_fmap. unfold taken_by. fold now.
    set (l := merge_sort (no_later oldestFirst) (due_now claim now s)) in *.
    case_bool_decide as El; cbn [andb]; [|by left].
    case_bool_decide as Ell; [|by left].
    rewrite <- (take_drop (Z.to_nat (EmailClaim.Limit claim)) l) in Hn.
    apply elem_of_app in Hn as [Hn|Hn]; [by left|right].
    split_and!; [done|rewrite length_take; lia|]. intros m Hm.
    rewrite <- (take_drop (Z.to_nat (EmailClaim.Limit claim)) l) in Hsort.
    apply StronglySorted_app in Hsort as (Hlr & _ & _). by apply Hlr.
  - intros c (n & -> & Hn)%list_elem_of_fmap. rewrite E3. split; [|done].
    rewrite decide_True; [done|]. apply (list_elem_of_fmap_2 Notification.ID _ n Hn).
  - intros id Hid. rewrite E3. unfold cand in Hid. rewrite ids_of_candidates in Hid.
    by rewrite decide_False.
Qed.

(** While its lease lasts nobody else gets a claimed notification: whatever
    other dispatchers claim, record or purge before the lease ends, a later claim
    before it ends returns none of the notifications claimed, and the records
    still say who holds them. *)
Theorem email_leases_hold claim s ops later :
  StoreOk s ->
  let until := normalizeTime (normalizeTime (EmailClaim.Now claim) + EmailClaim.Lease claim)%Z in
  let '(candidates, s1) := ClaimEmails_ claim s in
  Forall (spares (EmailClaim.Owner claim) until) ops ->
  (normalizeTime (EmailClaim.Now later) < until)%Z ->
  let s2 := perform_emails ops s1 in
  (forall c, c ∈ candidates -> held (EmailClaim.Owner claim) until s2 (id_of c)) /\
  (forall c, c ∈ candidates -> id_of c ∉ id_of <$> (ClaimEmails_ later s2).1).
Proof.
  intros Hok. cbv zeta. pose proof (StoreOk_Keyed s Hok) as Hk.
  pose proof (fun c => claimed_held claim s c Hk) as Hheld.
  destruct (ClaimEmails_runs claim s Hk) as (_ & Hr & _).
  destruct (ClaimEmails_ claim s) as [candidates s1]. cbn [fst snd] in *.
  intros Hops Hlt. pose proof (Keyed_rest _ _ Hr Hk) as Hk1.
  pose proof (Keyed_rest _ _ (perform_emails_rest ops s1 Hk1) Hk1) as Hk2.
  assert (Hall : forall c, c ∈ candidates -> held (EmailClaim.Owner claim) _ _ _)
    by (intros c Hc; exact (spares_all_held _ _ ops s1 (id_of c) Hk1 Hops (Hheld c Hc))).
  split; intros c Hc; [exact (Hall c Hc)|].
  destruct (ClaimEmails_runs later _ Hk2) as (-> & _ & _). rewrite ids_of_candidates.
  eapply held_not_taken; [exact Hk2|exact (Hall c Hc)|exact Hlt].
Qed.

(** A delivery that was sent, skipped, failed or abandoned stays exactly as it
    is, whatever dispatchers claim, record and purge, for as long as its
    notification exists, and is never claimed again. *)
Theorem finished_emails_stay ops claim s id d :
  StoreOk s -> DeliveriesOk s -> Forall named ops ->
  is_Some (notifications s !! id) -> deliveries s !! id = Some d -> finished d = true ->
  let s' := perform_emails ops s in
  DeliveriesOk s' /\ deliveries s' !! id = Some d /\
  id ∉ id_of <$> (ClaimEmails_ claim s').1.
Proof.
  intros Hok Hd Hops Hin Hid Hf s'. pose proof (StoreOk_Keyed s Hok) as Hk.
  pose proof (Keyed_rest _ _ (perform_emails_rest ops s Hk) Hk : Keyed s') as Hk'.
  assert (Hd' : deliveries s' !! id = Some d) by (by apply perform_emails_finished).
  split_and!; [by apply perform_emails_ok|done|].
  destruct (ClaimEmails_runs claim s' Hk') as (-> & _ & _). rewrite ids_of_candidates.
  by eapply finished_not_due.
Qed.
