(* ===== verification/NotifyEmailOnce.v ===== *)
(** * NotifyEmailOnce: no notification is emailed twice

    Dispatchers of any number of processes run their passes at once over one
    store, under [AtMostOnce] and under names of their own; each pass is a program
    of a pool ([Interaction.v]), so between any two of its calls the others may do
    anything they do, a lease may lapse, a pass may stop for good, also in the
    middle of a call whose effect stays, and the notifications may change.  Every
    port but the store answers as it likes; the store may fail with or without
    having done its work.

    The theorem: of the messages handed to the mailer, once one covering a
    notification was accepted, refused for good or left in doubt, no later one
    covers it. *)

From S2P Require Import Prelude Domain Interaction.
From S2P Require Import Notification Collections NotifyStore NotifyStoreFacts NotifyService.
From S2P Require Import NotifyInvariant NotifyEmail NotifyEmailFacts.
Import MemoryStore.

(** ** The shared world *)

(** The store, the mailer's log, and what the proof keeps beside them: every
    identifier a notification ever had, and who may still send what. *)
Module World.
Record t : Type := mk {
  store : MemoryStore.t;
  log : list (EmailMessage.t * option error);
  used : gset string;
  armed : gmap string string
}.
End World.
Import World.

(** A verdict after which a message counts as sent: accepted, refused for good, or
    in doubt. *)
Definition settled (verdict : option error) : bool :=
  match verdict with
  | None => true
  | Some e => errors_Is e ErrMailRejected || errors_Is e ErrMailInDoubt
  end.

Definition covers (m : EmailMessage.t) (id : string) : Prop :=
  id ∈ EmailMessage.NotificationIDs m.

#[global] Instance covers_dec m id : Decision (covers m id).
Proof. unfold covers. apply _. Defined.

Definition sent (l : list (EmailMessage.t * option error)) (id : string) : Prop :=
  exists m v, (m, v) ∈ l /\ settled v = true /\ covers m id.

(** Nobody sent it for good, and nobody is about to. *)
Definition free (w : World.t) (id : string) : Prop :=
  armed w !! id = None /\ ~ sent (log w) id.

(** The identifiers a record made by [o] arms: a notification is armed by the
    record that says its message is being sent. *)
Definition arms (o : string) (record : EmailRecord.t) (s : MemoryStore.t)
    (a : gmap string string) : gmap string string :=
  if decide (EmailRecord.Status record = EmailStatusSending)
  then list_to_map ((fun id => (id, o)) <$>
         filter (fun id => holds record s id = true) (EmailRecord.IDs record)) ∪ a
  else a.

(** The work of a call of the store. *)
Definition claimed (claim : EmailClaim.t) (w : World.t) : World.t :=
  World.mk (ClaimEmails_ claim (store w)).2 (log w) (used w) (armed w).
Definition recorded_by (o : string) (record : EmailRecord.t) (w : World.t) : World.t :=
  World.mk (RecordEmails_ record (store w)).2 (log w) (used w)
    (arms o record (store w) (armed w)).
Definition purged (limit : Z) (w : World.t) : World.t :=
  World.mk (PurgeEmailRecords_ limit (store w)).2 (log w) (used w) (armed w).
Definition handed (m : EmailMessage.t) (v : option error) (w : World.t) : World.t :=
  World.mk (store w) (log w ++ [(m, v)]) (used w)
    (filter (fun entry => ~ covers m entry.1) (armed w)).

(** A call by the dispatcher named [o]: its answer and the world it leaves.  A
    call of the store that fails may have done its work. *)
Definition does (o : string) (X : Type) (e : Port X) : World.t -> X -> World.t -> Prop :=
  match e in Port X return World.t -> X -> World.t -> Prop with
  | ClaimEmails claim => fun w x w' =>
      (x = Ok (ClaimEmails_ claim (store w)).1 /\ w' = claimed claim w) \/
      (exists err, x = Err err /\ (w' = w \/ w' = claimed claim w))
  | RecordEmails record => fun w x w' =>
      (x = Ok (RecordEmails_ record (store w)).1 /\ w' = recorded_by o record w) \/
      (exists err, x = Err err /\ (w' = w \/ w' = recorded_by o record w))
  | PurgeEmailRecords limit => fun w x w' => w' = w \/ w' = purged limit w
  | Send m => fun w x w' => w' = handed m x w
  | _ => fun w _ w' => w' = w
  end.

(** What the rest of the program does to the store: it leaves the delivery records
    alone, keeps notifications under their identifiers, and never gives a new one
    an identifier that was used. *)
Definition outside (w w' : World.t) : Prop :=
  log w' = log w /\ armed w' = armed w /\
  deliveries (store w') = deliveries (store w) /\ Keyed (store w') /\
  used w' = used w ∪ dom (notifications (store w')) /\
  forall id, is_Some (notifications (store w') !! id) ->
    is_Some (notifications (store w) !! id) \/ id ∉ used w.

(** ** The invariant *)

(** A record no claim makes fresh again. *)
Definition locked (d : emailDelivery.t) : Prop :=
  emailDelivery.status d <> EmailStatusClaimed /\ emailDelivery.status d <> EmailStatusRetry.

Record Inv (w : World.t) : Prop := {
  inv_keyed : Keyed (store w);
  inv_known id : is_Some (notifications (store w) !! id) -> id ∈ used w;
  inv_records id : is_Some (deliveries (store w) !! id) -> id ∈ used w;
  inv_touched id : ~ free w id -> id ∈ used w /\
    (is_Some (notifications (store w) !! id) -> is_Some (deliveries (store w) !! id)) /\
    (forall d, deliveries (store w) !! id = Some d -> locked d);
  inv_armed id o : armed w !! id = Some o -> ~ sent (log w) id;
  inv_once l1 m v l2 id :
    log w = l1 ++ (m, v) :: l2 -> settled v = true -> covers m id ->
    forall m' v', (m', v') ∈ l2 -> ~ covers m' id
}.

#[global] Instance sent_dec l id : Decision (sent l id).
Proof.
  destruct (decide (Exists (fun e => settled e.2 = true /\ covers e.1 id) l)) as [H|H].
  - left. apply Exists_exists in H as ([m v] & Hin & Hs). by exists m, v.
  - right. intros (m & v & Hin & Hs). apply H, Exists_exists. by exists (m, v).
Defined.

Lemma not_free w id : ~ free w id -> is_Some (armed w !! id) \/ sent (log w) id.
Proof.
  unfold free. intros H. destruct (armed w !! id) eqn:E; [by left; eexists|right].
  apply dec_stable. tauto.
Qed.

(** ** What the others may do to a dispatcher *)

(** To the dispatcher [o]: nobody else makes or changes a record it holds, disarms
    what it armed, or arms or sends what it holds unsent. *)
Definition rely (o : string) (w w' : World.t) : Prop :=
  o <> "" ->
  (forall id d, deliveries (store w') !! id = Some d -> emailDelivery.owner d = o ->
     deliveries (store w) !! id = Some d /\ (free w id -> free w' id)) /\
  (forall id, armed w !! id = Some o -> armed w' !! id = Some o).

#[global] Instance rely_preorder o : PreOrder (rely o).
Proof.
  split.
  - intros w _. split; [|done]. by split.
  - intros w1 w2 w3 H1 H2 Ho. destruct (H1 Ho) as [D1 A1], (H2 Ho) as [D2 A2].
    split; [|by auto]. intros id d Hd Hown.
    destruct (D2 id d Hd Hown) as [Hd2 F2]. destruct (D1 id d Hd2 Hown) as [Hd1 F1]. auto.
Qed.

(** What a dispatcher knows of a notification it claimed: while its record is
    still its own, no message has been made of it; or none that counts as sent. *)
Definition fresh (o : string) (w : World.t) (id : string) : Prop :=
  forall d, deliveries (store w) !! id = Some d -> emailDelivery.owner d = o ->
    emailDelivery.status d = EmailStatusClaimed.

Definition unsent (o : string) (w : World.t) (id : string) : Prop :=
  forall d, deliveries (store w) !! id = Some d -> emailDelivery.owner d = o -> free w id.

Lemma fresh_unsent o w id : Inv w -> fresh o w id -> unsent o w id.
Proof.
  intros HI Hf d Hd Ho. apply dec_stable. intros Hn.
  destruct (inv_touched w HI id Hn) as (_ & _ & Hl). destruct (Hl d Hd) as [Hc _].
  by destruct Hc; apply Hf.
Qed.

(** The calls a dispatcher may make. *)
Definition may (o : string) (X : Type) (e : Port X) (w : World.t) : Prop :=
  match e with
  | ClaimEmails claim => EmailClaim.Owner claim = o
  | RecordEmails record =>
      EmailRecord.Owner record = o /\
      match EmailRecord.Status record with
      | EmailStatusSending =>
          forall id, id ∈ EmailRecord.IDs record -> fresh o w id
      | EmailStatusClaimed | EmailStatusRetry =>
          forall id, id ∈ EmailRecord.IDs record -> unsent o w id
      | _ => True
      end
  | Send m => forall id, covers m id -> armed w !! id = Some o
  | _ => True
  end.

(** ** Every allowed call keeps the invariant *)

Lemma claim_locked claim s n :
  due claim (normalizeTime (EmailClaim.Now claim)) s n ->
  forall d, deliveries s !! Notification.ID n = Some d -> locked d ->
  emailDelivery.status d = EmailStatusSending.
Proof.
  intros [_ Hc] d Hd [H1 H2]. revert Hc. unfold claimable, NotifyEmailFacts.recorded, delivery_of.
  rewrite Hd. cbn [default from_option id]. rewrite bool_decide_true by done. cbn [negb].
  destruct (emailDelivery.status d); done.
Qed.

Lemma claimed_ok i claim w :
  Inv w -> EmailClaim.Owner claim = i ->
  Inv (claimed claim w) /\ forall j, j <> i -> rely j w (claimed claim w).
Proof.
  intros HI Hi. destruct HI as [Hk Hkn Hre Hto Har Hon].
  destruct (ClaimEmails_runs claim (store w) Hk) as (_ & Hr & Hd).
  pose proof (same_but_deliveries_notifications _ _ Hr) as Hn.
  split; [constructor|]; unfold claimed; cbn [store log used armed].
  - by eapply Keyed_rest.
  - intros id. rewrite Hn. apply Hkn.
  - intros id. rewrite Hd. case_decide as Hin; [|apply Hre]. intros _.
    apply list_elem_of_fmap in Hin as (n & -> & Ht). apply Hkn.
    destruct (taken_by_due _ _ _ Hk Ht) as [E _]. by rewrite E.
  - intros id Hf. rewrite Hn, Hd. destruct (Hto id Hf) as (H1 & H2 & H3).
    split_and!; [done| |]; case_decide as Hin; [done|done| |done].
    apply list_elem_of_fmap in Hin as (n & -> & Ht).
    pose proof (taken_by_due _ _ _ Hk Ht) as Hdue. destruct Hdue as [E Hc].
    destruct H2 as [d Hd0]; [by rewrite E|]. intros d' [= <-].
    unfold locked. rewrite leased_status. unfold delivery_of. rewrite Hd0.
    cbn [default from_option id].
    rewrite (claim_locked claim (store w) n (conj E Hc) d Hd0 (H3 d Hd0)). by split.
  - exact Har.
  - exact Hon.
  - intros j Hj Hne. cbn [store log used armed]. split; [|done]. intros id d. rewrite Hd.
    case_decide; [|by split]. intros [= <-] Ho.
    destruct (leased_holder claim (normalizeTime (EmailClaim.Now claim))
                (normalizeTime (normalizeTime (EmailClaim.Now claim) + EmailClaim.Lease claim))
                (delivery_of (store w) id)) as [E _].
    rewrite E in Ho. congruence.
Qed.

(** What a record arms. *)
Lemma arms_lookup o record s a id :
  arms o record s a !! id =
  if bool_decide (EmailRecord.Status record = EmailStatusSending) &&
     (bool_decide (id ∈ EmailRecord.IDs record) && holds record s id)
  then Some o else a !! id.
Proof.
  unfold arms. case_decide as Es; [rewrite (bool_decide_true _ Es)|by rewrite (bool_decide_false _ Es)].
  cbn [andb]. set (l := filter _ _).
  assert (Hl : id ∈ l <-> bool_decide (id ∈ EmailRecord.IDs record) && holds record s id = true).
  { unfold l. rewrite list_elem_of_filter, andb_true_iff, bool_decide_eq_true. tauto. }
  destruct (_ && _).
  - apply lookup_union_Some_l. destruct Hl as [_ Hl]. specialize (Hl eq_refl).
    destruct (list_to_map ((fun id => (id, o)) <$> l) !! id) as [o'|] eqn:E.
    + apply elem_of_list_to_map_2, list_elem_of_fmap in E as (? & [= _ ->] & _). done.
    + apply not_elem_of_list_to_map in E. destruct E.
      rewrite <- list_fmap_compose. apply list_elem_of_fmap. by exists id.
  - apply lookup_union_r, not_elem_of_list_to_map. rewrite <- list_fmap_compose.
    intros (id' & -> & Hid)%list_elem_of_fmap. cbn in Hid, Hl. by apply Hl in Hid.
Qed.

(** The identifiers a record changes. *)
Definition changes (record : EmailRecord.t) (s : MemoryStore.t) (id : string) : bool :=
  bool_decide (id ∈ EmailRecord.IDs record) && holds record s id.

Lemma changes_true record s id : changes record s id = true ->
  id ∈ EmailRecord.IDs record /\ exists d, deliveries s !! id = Some d /\
    emailDelivery.owner d = EmailRecord.Owner record.
Proof.
  unfold changes, holds. intros [Hin Hh]%andb_true_iff. apply bool_decide_eq_true in Hin.
  split; [done|]. destruct (deliveries s !! id) as [d|]; [|done].
  apply bool_decide_eq_true in Hh. eauto.
Qed.

(** A record is made of what it may be made of. *)
Lemma may_record_free i record w id :
  Inv w -> may i _ (RecordEmails record) w -> changes record (store w) id = true ->
  free w id \/ forall d, locked (recorded_as record d).
Proof.
  intros HI [Ho Hm] (Hin & d & Hd & Hown)%changes_true. unfold locked.
  setoid_rewrite recorded_as_status. rewrite Ho in Hown.
  destruct (EmailRecord.Status record); try (by right); left;
    by eapply (Hm id Hin).
Qed.

Lemma may_send_free i record w id :
  Inv w -> may i _ (RecordEmails record) w -> changes record (store w) id = true ->
  EmailRecord.Status record = EmailStatusSending -> free w id.
Proof.
  intros HI [Ho Hm] (Hin & d & Hd & Hown)%changes_true Es. rewrite Es in Hm. rewrite Ho in Hown.
  by eapply (fresh_unsent i w id HI (Hm id Hin)).
Qed.

Lemma recorded_ok i record w :
  Inv w -> may i _ (RecordEmails record) w ->
  Inv (recorded_by i record w) /\ forall j, j <> i -> rely j w (recorded_by i record w).
Proof.
  intros HI Hmay. pose proof HI as [Hk Hkn Hre Hto Har Hon].
  pose proof (fun id => may_record_free i record w id HI Hmay) as Hfree.
  pose proof (fun id => may_send_free i record w id HI Hmay) as Hsend.
  destruct (RecordEmails_runs record (store w)) as (_ & Hr & Hd).
  change (forall id, deliveries (RecordEmails_ record (store w)).2 !! id =
    if changes record (store w) id then recorded_as record <$> deliveries (store w) !! id
    else deliveries (store w) !! id) in Hd.
  pose proof (same_but_deliveries_notifications _ _ Hr) as Hn.
  pose proof (fun id => arms_lookup i record (store w) (armed w) id) as Hl.
  change (forall id, arms i record (store w) (armed w) !! id =
    if bool_decide (EmailRecord.Status record = EmailStatusSending) &&
       changes record (store w) id
    then Some i else armed w !! id) in Hl.
  assert (Hsome : forall id, is_Some (deliveries (RecordEmails_ record (store w)).2 !! id) <->
                             is_Some (deliveries (store w) !! id)).
  { intros id. rewrite Hd. destruct (changes _ _ _); [apply fmap_is_Some|done]. }
  split; [constructor|]; unfold recorded_by; cbn [store log used armed].
  - by eapply Keyed_rest.
  - intros id. rewrite Hn. apply Hkn.
  - intros id. rewrite Hsome. apply Hre.
  - intros id Hf. rewrite Hn, Hsome, Hd.
    destruct (decide (free w id)) as [Hfr|Hfr].
    + (* newly armed *)
      assert (E : EmailRecord.Status record = EmailStatusSending /\
                  changes record (store w) id = true).
      { apply dec_stable. intros E. apply Hf. destruct Hfr as [Ha Hs]. split; [|exact Hs].
        cbn [armed]. rewrite Hl. destruct (bool_decide _) eqn:Eb; cbn [andb]; [|done].
        apply bool_decide_eq_true in Eb. destruct (changes _ _ _); [tauto|done]. }
      destruct E as [Es Ec]. rewrite Ec.
      destruct (changes_true _ _ _ Ec) as (_ & d & E & _). rewrite E.
      split_and!; [by apply Hre; rewrite E|done|]. intros d' [= <-].
      unfold locked. rewrite recorded_as_status, Es. by split.
    + destruct (Hto id Hfr) as (H1 & H2 & H3). split_and!; [done|done|].
      destruct (changes record (store w) id) eqn:Ec; [|done].
      intros d' (d & E & ->)%fmap_Some. destruct (Hfree id Ec) as [?|Hlk]; [done|apply Hlk].
  - intros id o. rewrite Hl. destruct (bool_decide _) eqn:Eb; cbn [andb]; [|apply Har].
    destruct (changes _ _ _) eqn:Ec; [|apply Har]. intros _.
    apply bool_decide_eq_true in Eb. by apply (Hsend id Ec Eb).
  - exact Hon.
  - destruct Hmay as [Hown _]. intros j Hj Hne. cbn [store log used armed]. split.
    + intros id d. rewrite Hd. destruct (changes record (store w) id) eqn:Ec.
      * intros (d0 & E & ->)%fmap_Some Ho. exfalso.
        destruct (changes_true _ _ _ Ec) as (_ & d1 & E1 & Ho1).
        rewrite E in E1. injection E1 as <-.
        destruct (recorded_as_holder record d0) as [Eo _]. rewrite Eo in Ho.
        case_decide; congruence.
      * intros E Ho. split; [done|]. intros [Ha Hs]. split; [|exact Hs]. cbn [armed].
        by rewrite Hl, Ec, andb_false_r.
    + intros id Ha. rewrite Hl. destruct (bool_decide _) eqn:Eb; cbn [andb]; [|done].
      destruct (changes record (store w) id) eqn:Ec; [|done].
      apply bool_decide_eq_true in Eb. destruct (Hsend id Ec Eb) as [Hnone _]. congruence.
Qed.

Lemma purged_ok limit w :
  Inv w -> Inv (purged limit w) /\ forall j, rely j w (purged limit w).
Proof.
  intros [Hk Hkn Hre Hto Har Hon].
  destruct (PurgeEmailRecords_runs limit (store w)) as (Hr & gone & _ & _ & Hg & Hd & _).
  pose proof (same_but_deliveries_notifications _ _ Hr) as Hn.
  split; [constructor|]; unfold purged; cbn [store log used armed].
  - by eapply Keyed_rest.
  - intros id. rewrite Hn. apply Hkn.
  - intros id. rewrite Hd. case_decide; [by intros [? ?]|apply Hre].
  - intros id Hf. rewrite Hn, Hd. destruct (Hto id Hf) as (H1 & H2 & H3).
    split_and!; [done| |]; case_decide as Hin; [|done|done|done].
    destruct (Hg id Hin) as [E _]. unfold orphan in E. rewrite E. by intros [? ?].
  - exact Har.
  - exact Hon.
  - intros j _. cbn [store log used armed]. split; [|done]. intros id d. rewrite Hd.
    case_decide; [done|by split].
Qed.

Lemma sent_snoc l m v id :
  sent (l ++ [(m, v)]) id <-> sent l id \/ (settled v = true /\ covers m id).
Proof.
  unfold sent. split.
  - intros (m' & v' & [Hin|[= -> ->]%list_elem_of_singleton]%elem_of_app & Hs); [left; eauto|].
    by right.
  - intros [(m' & v' & Hin & Hs)|[Hs Hc]].
    + exists m', v'. split; [|done]. apply elem_of_app. by left.
    + exists m, v. split_and!; [|done..]. apply elem_of_app. right. by apply list_elem_of_singleton.
Qed.

Lemma handed_armed m v w id o :
  armed (handed m v w) !! id = Some o <-> armed w !! id = Some o /\ ~ covers m id.
Proof. unfold handed. cbn [armed]. apply map_lookup_filter_Some. Qed.

Lemma handed_ok i m v w :
  Inv w -> (forall id, covers m id -> armed w !! id = Some i) ->
  Inv (handed m v w) /\ forall j, j <> i -> rely j w (handed m v w).
Proof.
  intros HI Hm. pose proof HI as [Hk Hkn Hre Hto Har Hon].
  assert (Hfree : forall id, free w id -> free (handed m v w) id).
  { intros id [Ha Hs]. split.
    - destruct (armed (handed m v w) !! id) eqn:E; [|done].
      apply handed_armed in E as [E _]. congruence.
    - change (~ sent (log w ++ [(m, v)]) id). rewrite sent_snoc. intros [?|[_ Hc]]; [done|].
      rewrite (Hm id Hc) in Ha. done. }
  split; [constructor|]; [exact Hk|exact Hkn|exact Hre| | | |].
  - intros id Hf. apply Hto. intros Hfr. by apply Hf, Hfree.
  - intros id o [Ha Hc]%handed_armed. change (~ sent (log w ++ [(m, v)]) id).
    rewrite sent_snoc. intros [?|[_ ?]]; [by eapply Har|done].
  - intros l1 m1 v1 l2 id E Hs Hc m' v' Hin. change (log w ++ [(m, v)] = l1 ++ (m1, v1) :: l2) in E.
    destruct l2 as [|e l2 _] using rev_ind; [by apply elem_of_nil in Hin|].
    rewrite app_comm_cons, app_assoc in E. apply app_inj_tail in E as [E <-].
    apply elem_of_app in Hin as [Hin|[= -> ->]%list_elem_of_singleton].
    + by eapply (Hon l1 m1 v1 l2).
    + intros Hc'. eapply (Har id i); [by apply Hm|]. exists m1, v1. split; [|done].
      rewrite E. set_solver.
  - intros j Hj _. split.
    + intros id d Hd Ho. split; [done|apply Hfree].
    + intros id Ha. apply handed_armed. split; [done|]. intros Hc. specialize (Hm id Hc).
      congruence.
Qed.

Lemma call_ok i X (e : Port X) w x w' :
  Inv w -> may i X e w -> does i X e w x w' ->
  Inv w' /\ forall j, j <> i -> rely j w w'.
Proof.
  intros HI Hm Hd.
  assert (Hsame : Inv w /\ forall j, j <> i -> rely j w w) by (split; [done|]; intros; reflexivity).
  destruct e; cbn in *; try (by subst w').
  - assert (H : w' = w \/ w' = claimed claim w) by naive_solver.
    destruct H as [-> | ->]; [done|by apply claimed_ok].
  - assert (H : w' = w \/ w' = recorded_by i record w) by naive_solver.
    destruct H as [-> | ->]; [done|by apply recorded_ok].
  - destruct Hd as [-> | ->]; [done|]. destruct (purged_ok limit w HI) as [? Hr]. auto.
  - subst w'. by apply handed_ok.
Qed.

Lemma outside_ok w w' : Inv w -> outside w w' -> Inv w' /\ forall j, rely j w w'.
Proof.
  intros [Hk Hkn Hre Hto Har Hon] (El & Ea & Ed & Hk' & Eu & Hnew).
  assert (Hfree : forall id, free w' id <-> free w id).
  { intros id. unfold free. by rewrite El, Ea. }
  split; [constructor|].
  - done.
  - intros id [n Hid]. rewrite Eu. apply elem_of_union_r, elem_of_dom. by exists n.
  - intros id. rewrite Ed, Eu. intros ?%Hre. set_solver.
  - intros id. rewrite Hfree, Ed, Eu. intros Hf. destruct (Hto id Hf) as (H1 & H2 & H3).
    split_and!; [set_solver| |done]. intros [?|?]%Hnew; [auto|done].
  - intros id o. rewrite Ea, El. apply Har.
  - intros l1 m v l2 id. rewrite El. apply Hon.
  - intros j _. rewrite Ea, Ed. split; [|done]. intros id d Hd _. split; [done|].
    by rewrite Hfree.
Qed.

(** ** A pass under interference *)

Section pass.
Context (unrepresentable : Floats.SpecFloat.spec_float -> Z).
Context (d : EmailDispatcher.t).
Context (Hname : EmailDispatcher.owner d <> "").
Context (Honce : EmailDispatcher.guarantee d = AtMostOnce).

Abbreviation o := (EmailDispatcher.owner d).

(** The weakest precondition of a piece of a pass of [o]. *)
Definition holds_after {A} (p : prog Port A) (Q : A -> World.t -> Prop) (w : World.t) : Prop :=
  wp (fun w w' => rely o w w' /\ Inv w') (may o) (does o) p Q w.

(** What a pass knows: nothing was made of [F], nothing that counts of [R]. *)
Record knows (F R : list string) (w : World.t) : Prop := {
  knows_fresh id : id ∈ F -> fresh o w id;
  knows_unsent id : id ∈ R -> unsent o w id
}.

Lemma knows_rely F R w w' : knows F R w -> rely o w w' -> Inv w' -> knows F R w'.
Proof.
  intros [HF HR] Hr HI. destruct (Hr Hname) as [Hd _]. constructor.
  - intros id Hid d' Hd' Ho. destruct (Hd id d' Hd' Ho) as [H _]. by eapply HF.
  - intros id Hid d' Hd' Ho. destruct (Hd id d' Hd' Ho) as [H Hf]. by eapply Hf, HR.
Qed.

Lemma knows_sub F R F' R' w : (forall id, id ∈ F' -> id ∈ F) ->
  (forall id, id ∈ R' -> id ∈ R) -> knows F R w -> knows F' R' w.
Proof. intros HF HR [H1 H2]. constructor; auto. Qed.

(** A call that does nothing to the world. *)
Definition quiet {X} (e : Port X) : Prop :=
  match e with
  | ClaimEmails _ | RecordEmails _ | PurgeEmailRecords _ | Send _ => False
  | _ => True
  end.

Lemma quiet_call {X} (e : Port X) F R w :
  quiet e -> knows F R w -> holds_after (call e) (fun _ => knows F R) w.
Proof.
  intros Hq Hk w1 [Hr HI]. split; [by destruct e|]. intros x w2 Hd.
  assert (w2 = w1) as -> by (by destruct e). by eapply knows_rely.
Qed.

Lemma holds_bind {A B} (p : prog Port A) (k : A -> prog Port B) Q w :
  holds_after p (fun a => holds_after (k a) Q) w -> holds_after (bind p k) Q w.
Proof. apply wp_bind. Qed.

Lemma holds_mono {A} (p : prog Port A) (Q1 Q2 : A -> World.t -> Prop) w :
  (forall a w, Q1 a w -> Q2 a w) -> holds_after p Q1 w -> holds_after p Q2 w.
Proof. apply wp_mono. Qed.

(** A piece after which more is done. *)
Lemma holds_then {A B} (p : prog Port A) (k : A -> prog Port B) Q1 Q w :
  holds_after p Q1 w -> (forall a w, Q1 a w -> holds_after (k a) Q w) ->
  holds_after (bind p k) Q w.
Proof. intros Hp Hk. apply holds_bind. eapply holds_mono; [|exact Hp]. exact Hk. Qed.

Ltac then_by tac := eapply holds_then; [solve [tac]|cbv beta].

Lemma report_keeps recipient batch err F R w :
  knows F R w -> holds_after (report recipient batch err) (fun _ => knows F R) w.
Proof. by apply quiet_call. Qed.

(** *** Records *)

Lemma recorded_keeps record F R w :
  EmailRecord.Owner record = o -> EmailRecord.Status record <> EmailStatusSending ->
  knows F R w -> knows F R (recorded_by o record w).
Proof.
  intros Ho Hs [HF HR].
  destruct (RecordEmails_runs record (store w)) as (_ & _ & Hd).
  assert (H : forall id e, deliveries (RecordEmails_ record (store w)).2 !! id = Some e ->
    emailDelivery.owner e = o -> deliveries (store w) !! id = Some e).
  { intros id e. rewrite Hd. destruct (_ && _); [|done].
    intros (e0 & _ & ->)%fmap_Some Hown. destruct (recorded_as_holder record e0) as [E _].
    rewrite decide_False in E by done. congruence. }
  constructor; intros id Hid e He Hown; cbn [recorded_by store] in He.
  - by eapply HF; [|apply H|].
  - unfold free, recorded_by. cbn [armed log]. unfold arms. rewrite decide_False by done.
    by eapply HR; [|apply H|].
Qed.

(** A record that claims no message is being sent: any outcome is fine, but only
    what is known to be unsent may be offered again. *)
Definition allowed (status : EmailStatus) (ids F R : list string) : Prop :=
  match status with
  | EmailStatusSending => False
  | EmailStatusClaimed | EmailStatusRetry => forall id, id ∈ ids -> id ∈ F \/ id ∈ R
  | _ => True
  end.

Lemma record_keeps now cs record p F R w :
  allowed (EmailRecord.Status record) (candidateIDs cs) F R -> knows F R w ->
  holds_after (record_ d now cs record p) (fun _ => knows F R) w.
Proof.
  intros Ha Hk. unfold record_. eapply holds_then with (Q1 := fun _ => knows F R).
  - intros w1 [Hr HI]. pose proof (knows_rely _ _ _ _ Hk Hr HI) as Hk1. split.
    + split; [done|]. cbn. pose proof (knows_fresh _ _ _ Hk1) as HF.
      pose proof (knows_unsent _ _ _ Hk1) as HR. unfold allowed in Ha.
      destruct (EmailRecord.Status record); try done; intros id [?|?]%Ha; auto using fresh_unsent.
    + intros x w2 Hd. cbn in Hd.
      assert (H : w2 = w1 \/ exists r, w2 = recorded_by o r w1 /\ EmailRecord.Owner r = o /\
                EmailRecord.Status r = EmailRecord.Status record) by naive_solver.
      destruct H as [-> |(r & -> & Ho & Es)]; [done|]. apply recorded_keeps; [done| |done].
      rewrite Es. by intros E; rewrite E in Ha.
  - intros [changed|err] w1 Hk1.
    + by case_decide.
    + eapply holds_then; [by apply report_keeps|]. done.
Qed.

Lemma record_only_keeps now cs record p F R w :
  allowed (EmailRecord.Status record) (candidateIDs cs) F R -> knows F R w ->
  holds_after (record_only d now cs record p) (fun _ => knows F R) w.
Proof. intros Ha Hk. unfold record_only. by then_by ltac:(by apply record_keeps). Qed.

Lemma skip_keeps now cs reason p F R w : knows F R w ->
  holds_after (skip d now cs reason p) (fun _ => knows F R) w.
Proof.
  intros Hk. unfold skip. destruct cs; [done|]. by then_by ltac:(by apply record_only_keeps).
Qed.

Lemma fail_keeps now cs batch cause p F R w : knows F R w ->
  holds_after (fail d now cs batch cause p) (fun _ => knows F R) w.
Proof.
  intros Hk. unfold fail. then_by ltac:(by apply record_only_keeps). intros p1 w1 Hk1.
  by then_by ltac:(by apply report_keeps).
Qed.

Lemma delay_keeps attempts F R w : knows F R w ->
  holds_after (delay unrepresentable d attempts) (fun _ => knows F R) w.
Proof. intros Hk. unfold delay. by then_by ltac:(by apply quiet_call). Qed.

Lemma retry_group_keeps now cause countAttempt entry p F R w :
  (forall id, id ∈ candidateIDs entry.2 -> id ∈ F \/ id ∈ R) -> knows F R w ->
  holds_after (retry_group unrepresentable d now cause countAttempt entry p)
    (fun _ => knows F R) w.
Proof.
  intros Hids Hk. destruct entry as [made group]. unfold retry_group. case_decide.
  - by then_by ltac:(by apply record_only_keeps).
  - then_by ltac:(by apply delay_keeps). intros wait w1 Hk1.
    by then_by ltac:(apply (record_only_keeps _ _ _ _ F R); [exact Hids|exact Hk1]).
Qed.

(** A loop every turn of which keeps what is known. *)
Lemma loop_keeps {T X} (f : X -> T -> prog Port T) (I : T -> Prop) l t F R w :
  (forall x t w, x ∈ l -> I t -> knows F R w ->
     holds_after (f x t) (fun t w => I t /\ knows F R w) w) ->
  I t -> knows F R w ->
  holds_after (loop f l t) (fun t w => I t /\ knows F R w) w.
Proof.
  intros Hf. revert t w. induction l as [|x l IH]; intros t w Ht Hk; [done|]. cbn [loop].
  then_by ltac:(apply Hf; [left|done..]). intros t1 w1 [Ht1 Hk1].
  apply IH; [|done..]. intros; apply Hf; [by right|done..].
Qed.

Lemma in_groups {K} `{Countable K} (key : EmailCandidate.t -> K) cs entry id :
  entry ∈ groups (for_each (file key) cs ([], ∅)) -> id ∈ candidateIDs entry.2 ->
  id ∈ candidateIDs cs.
Proof.
  destruct entry as [k g]. intros [-> _]%groups_elem. cbn [snd].
  intros (c & -> & [_ Hc]%list_elem_of_filter)%list_elem_of_fmap.
  by apply (list_elem_of_fmap_2 (fun c => Notification.ID (EmailCandidate.Notification_ c))).
Qed.

Lemma retry_keeps now cs batch cause countAttempt p F R w :
  (forall id, id ∈ candidateIDs cs -> id ∈ F \/ id ∈ R) -> knows F R w ->
  holds_after (retry unrepresentable d now cs batch cause countAttempt p)
    (fun _ => knows F R) w.
Proof.
  intros Hids Hk. unfold retry.
  then_by ltac:(apply (loop_keeps _ (fun _ => True)); [|done..]; intros entry p1 w1 Hin _ Hk1;
    eapply holds_mono; [|apply retry_group_keeps; [|exact Hk1]]; [by split|];
    intros id Hid; eapply Hids, in_groups; done).
  intros p1 w1 [_ Hk1]. by then_by ltac:(by apply report_keeps).
Qed.

(** *** Rechecking *)

Lemma recheck_one_keeps now recipient c k F R w :
  id_of c ∈ F -> knows F R w ->
  holds_after (recheck_one unrepresentable d now recipient c k)
    (fun k' w => (checked.live k' = checked.live k \/
                  checked.live k' = checked.live k ++ [c]) /\ knows F R w) w.
Proof.
  intros Hc Hk. unfold recheck_one. then_by ltac:(by apply quiet_call).
  intros [n|err] w1 Hk1.
  - case_decide; split; auto.
  - destruct (errors_Is err ErrNotFound); [by split; [left|]|].
    then_by ltac:(apply retry_keeps; [|exact Hk1]; intros id ->%list_elem_of_singleton; by left).
    intros p1 w2 Hk2. by split; [left|].
Qed.

Lemma recheck_keeps now recipient cs p F R w :
  (forall id, id ∈ candidateIDs cs -> id ∈ F) -> knows F R w ->
  holds_after (recheck unrepresentable d now recipient cs p)
    (fun out w => (forall id, id ∈ candidateIDs out.1.1 -> id ∈ candidateIDs cs) /\
                  knows F R w) w.
Proof.
  intros Hids Hk. unfold recheck.
  then_by ltac:(apply (loop_keeps _ (fun k => forall id,
      id ∈ candidateIDs (checked.live k) -> id ∈ candidateIDs cs)); [| |exact Hk];
    [|by intros id ?%elem_of_nil]; intros c k w1 Hc Hl Hk1;
    assert (Hid : id_of c ∈ candidateIDs cs) by (by apply (list_elem_of_fmap_2 id_of));
    eapply holds_mono; [|apply recheck_one_keeps; [by apply Hids|exact Hk1]];
    intros k' w2 [[E|E] Hk2]; rewrite E; (split; [|exact Hk2]); [exact Hl|];
    intros id; unfold candidateIDs; rewrite fmap_app;
    intros [?|Hx%list_elem_of_singleton]%elem_of_app; [by apply Hl|by rewrite Hx]).
  intros k w1 [Hl Hk1]. then_by ltac:(by apply skip_keeps). intros p1 w2 Hk2.
  then_by ltac:(by apply skip_keeps). intros p2 w3 Hk3. by split.
Qed.

(** *** Sending *)

(** A record that a message is being sent, when all of it was written, arms every
    notification of the message. *)
Lemma record_sends now cs record p F F' w :
  EmailRecord.Status record = EmailStatusSending ->
  (forall id, id ∈ candidateIDs cs -> id ∈ F) ->
  (forall id, id ∈ F' -> id ∈ F /\ id ∉ candidateIDs cs) -> knows F [] w ->
  holds_after (record_ d now cs record p)
    (fun out w => knows F' [] w /\
       (out.1 = true -> forall id, id ∈ candidateIDs cs -> armed w !! id = Some o)) w.
Proof.
  intros Hs Hids HF' Hk. unfold record_.
  set (r := (_ <| EmailRecord.IDs := _ |>)).
  assert (Hr : EmailRecord.Owner r = o /\ EmailRecord.Status r = EmailStatusSending /\
               EmailRecord.IDs r = candidateIDs cs) by done.
  clearbody r. destruct Hr as (Ho & Es & Eids).
  eapply holds_then with (Q1 := fun x w => knows F' [] w /\
    (forall changed, x = Ok changed -> length cs <= changed ->
       forall id, id ∈ candidateIDs cs -> armed w !! id = Some o)).
  - intros w1 [Hrel HI]. pose proof (knows_rely _ _ _ _ Hk Hrel HI) as Hk1. split.
    + split; [done|]. cbn. rewrite Es, Eids. intros id Hid. by apply (knows_fresh F []), Hids.
    + intros x w2 Hd. cbn in Hd.
      assert (Hk2 : knows F' [] w1) by (eapply knows_sub; [|done|exact Hk1]; by intros ? [? _]%HF').
      assert (Hk3 : knows F' [] (recorded_by o r w1)).
      { constructor; [|by intros ? ?%elem_of_nil]. intros id Hid e He Hown.
        destruct (RecordEmails_runs r (store w1)) as (_ & _ & Hd').
        cbn [recorded_by store] in He. rewrite Hd', bool_decide_false in He.
        - by eapply (knows_fresh F').
        - rewrite Eids. by apply HF'. }
      destruct Hd as [[-> ->]|(err & -> & [-> | ->])]; (split; [done|]); [|done..].
      intros changed [= <-] Hlen id Hid. cbn [recorded_by armed].
      rewrite arms_lookup, (bool_decide_true _ Es), Eids, (bool_decide_true _ Hid). cbn [andb].
      rewrite RecordEmails_all; [done| |by rewrite Eids].
      rewrite Eids. unfold candidateIDs. by rewrite length_fmap.
  - intros [changed|err] w1 [Hk1 Ha]; cbn [fst].
    + case_decide; (split; [done|]); [done|]. intros _. apply (Ha changed); [done|lia].
    + then_by ltac:(by apply report_keeps). by intros _ w2 Hk2.
Qed.

Lemma armed_rely (ids : list string) w w' :
  (forall id, id ∈ ids -> armed w !! id = Some o) -> rely o w w' ->
  forall id, id ∈ ids -> armed w' !! id = Some o.
Proof. intros Ha Hr id Hid. destruct (Hr Hname) as [_ H]. auto. Qed.

(** Handing an armed message over: it is not known to be unsent any more, unless
    the mailer says it was not sent. *)
Lemma send_hands m F w :
  (forall id, id ∈ EmailMessage.NotificationIDs m -> armed w !! id = Some o) -> knows F [] w ->
  holds_after (call (Send m))
    (fun v => knows F (if settled v then [] else EmailMessage.NotificationIDs m)) w.
Proof.
  intros Ha Hk w1 [Hr HI]. pose proof (knows_rely _ _ _ _ Hk Hr HI) as [HF _].
  pose proof (armed_rely _ _ _ Ha Hr) as Ha1. split; [exact Ha1|]. intros v w2 ->.
  constructor; [exact HF|]. destruct (settled v) eqn:Ev; [by intros ? ?%elem_of_nil|].
  intros id Hid e _ _. split.
  - destruct (armed (handed m v w1) !! id) eqn:E; [|done].
    by apply handed_armed in E as [_ E].
  - change (~ sent (log w1 ++ [(m, v)]) id). rewrite sent_snoc. intros [Hs|[Hs _]].
    + by eapply (inv_armed w1 HI id o); [apply Ha1|].
    + congruence.
Qed.

Lemma after_send_keeps now recipient live batch verdict p F w :
  knows F (if settled verdict then [] else candidateIDs live) w ->
  holds_after (after_send unrepresentable d now recipient live batch verdict p)
    (fun _ w => knows F [] w) w.
Proof.
  intros Hk. unfold after_send.
  assert (Hk0 : knows F [] w) by (eapply knows_sub; [done| |exact Hk]; by intros ? ?%elem_of_nil).
  destruct verdict as [err|]; [|by then_by ltac:(by apply record_only_keeps)].
  destruct (errors_Is err ErrMailRejected) eqn:E1; [by apply fail_keeps|].
  destruct (errors_Is err ErrMailInDoubt) eqn:E2; rewrite ?Honce, ?bool_decide_true by done;
    cbn [andb].
  - then_by ltac:(by apply record_only_keeps). intros p1 w1 Hk1.
    by then_by ltac:(by apply report_keeps).
  - cbn [settled] in Hk. rewrite E1, E2 in Hk. cbn [orb] in Hk.
    eapply holds_mono; [|apply retry_keeps; [|exact Hk]].
    + intros p1 w1. apply knows_sub; [done|by intros ? ?%elem_of_nil].
    + intros id. unfold candidateIDs. rewrite <- list_fmap_compose. by right.
Qed.

Lemma commit_and_send_keeps now recipient address live content batch p F F' w :
  (forall id, id ∈ candidateIDs live -> id ∈ F) ->
  (forall id, id ∈ F' -> id ∈ F /\ id ∉ candidateIDs live) -> knows F [] w ->
  holds_after (commit_and_send unrepresentable d now recipient address live content batch p)
    (fun _ => knows F' []) w.
Proof.
  intros Hids HF' Hk. unfold commit_and_send.
  then_by ltac:(by apply (record_sends _ _ _ _ F F')). intros [[] p1] w1 [Hk1 Ha]; cbn [negb fst] in *.
  - specialize (Ha eq_refl).
    then_by ltac:(by apply send_hands). intros v w2 Hk2. by apply after_send_keeps.
  - exact Hk1.
Qed.

Lemma send_keeps now recipient address cs batch p F F' w :
  (forall id, id ∈ candidateIDs cs -> id ∈ F) ->
  (forall id, id ∈ F' -> id ∈ F /\ id ∉ candidateIDs cs) -> knows F [] w ->
  holds_after (send unrepresentable d now recipient address cs batch p)
    (fun _ => knows F' []) w.
Proof.
  intros Hids HF' Hk. unfold send.
  then_by ltac:(apply (recheck_keeps _ _ _ _ F []); [exact Hids|exact Hk]).
  intros [[live notifications] p1] w1 [Hl Hk1]. cbn [fst] in Hl.
  assert (HF1 : forall id, id ∈ F' -> id ∈ F) by (by intros id [? _]%HF').
  assert (HF2 : forall id, id ∈ F' -> id ∈ F /\ id ∉ candidateIDs live).
  { intros id Hid. destruct (HF' id Hid) as [? Hn]. split; [done|]. intros ?. by apply Hn, Hl. }
  assert (Hids' : forall id, id ∈ candidateIDs live -> id ∈ F) by auto.
  assert (Hsub : forall w, knows F [] w -> knows F' [] w) by (intros w2; by apply knows_sub).
  destruct live as [|c live]; [by apply Hsub|]. set (l := c :: live) in *. clearbody l.
  then_by ltac:(by apply quiet_call). intros [content|err] w2 Hk2.
  - assert (Hsend : forall batch w, knows F [] w -> holds_after
      (commit_and_send unrepresentable d now recipient address l content batch p1)
      (fun _ => knows F' []) w) by (intros; by eapply commit_and_send_keeps).
    case_decide; [|by apply Hsend]. then_by ltac:(by apply quiet_call).
    intros [key|err] w3 Hk3; [by apply Hsend|].
    eapply holds_mono; [|apply (retry_keeps _ _ _ _ _ _ F []); [by left; auto|exact Hk3]].
    intros p2 w4. apply Hsub.
  - eapply holds_mono; [|by apply fail_keeps]. intros p2 w4. apply Hsub.
Qed.

Lemma resolveDoubt_keeps now cs p F R w : knows F R w ->
  holds_after (resolveDoubt unrepresentable d now cs p) (fun _ => knows F R) w.
Proof.
  intros Hk. unfold resolveDoubt. rewrite decide_True by done.
  by then_by ltac:(by apply record_only_keeps).
Qed.

(** *** Delivering *)

Lemma filter_one_keeps now c acc F w :
  id_of c ∈ F -> knows F [] w ->
  holds_after (filter_one unrepresentable d now c acc)
    (fun acc' w => (acc'.1.1 = acc.1.1 \/ acc'.1.1 = acc.1.1 ++ [c]) /\ knows F [] w) w.
Proof.
  intros Hc Hk. destruct acc as [[selected filtered] p]. unfold filter_one.
  then_by ltac:(instantiate (1 := fun _ => knows F []);
    destruct (EmailDispatcher.filter d); [exact Hk|by apply quiet_call|exact Hk]).
  intros [[]|err] w1 Hk1; [split; auto..|].
  then_by ltac:(apply retry_keeps; [|exact Hk1]; intros id ->%list_elem_of_singleton; by left).
  intros p1 w2 Hk2. by split; [left|].
Qed.

Lemma candidateIDs_sub (l cs : list EmailCandidate.t) id :
  (forall c, c ∈ l -> c ∈ cs) -> id ∈ candidateIDs l -> id ∈ candidateIDs cs.
Proof.
  intros H (c & -> & Hc)%list_elem_of_fmap. by apply (list_elem_of_fmap_2 id_of), H.
Qed.

Lemma send_selected_keeps now recipient address selected p F F' w :
  (forall id, id ∈ candidateIDs selected -> id ∈ F) ->
  (forall id, id ∈ F' -> id ∈ F /\ id ∉ candidateIDs selected) -> knows F [] w ->
  holds_after (send_selected unrepresentable d now recipient address selected p)
    (fun _ => knows F' []) w.
Proof.
  intros Hids HF' Hk. unfold send_selected. case_decide; [|by eapply send_keeps].
  set (limit := Z.to_nat (EmailDispatcher.batch d)).
  assert (Htake : forall id, id ∈ candidateIDs (take limit selected) ->
                             id ∈ candidateIDs selected).
  { intros id. apply candidateIDs_sub. intros c Hc.
    eapply elem_of_sublist; [exact Hc|apply sublist_take]. }
  then_by ltac:(apply (record_only_keeps _ _ _ _ F []); [|exact Hk]; intros id Hid; left;
    apply Hids; eapply candidateIDs_sub; [|exact Hid]; intros c Hc;
    eapply elem_of_sublist; [exact Hc|apply sublist_drop]).
  intros p1 w1 Hk1. eapply send_keeps; [|intros id Hid; destruct (HF' id Hid)|exact Hk1]; auto.
Qed.

Lemma deliver_keeps now recipient cs p F F' w :
  (forall id, id ∈ candidateIDs cs -> id ∈ F) ->
  (forall id, id ∈ F' -> id ∈ F /\ id ∉ candidateIDs cs) -> knows F [] w ->
  holds_after (deliver unrepresentable d now recipient cs p) (fun _ => knows F' []) w.
Proof.
  intros Hids HF' Hk. unfold deliver.
  then_by ltac:(apply (loop_keeps _ (fun acc => forall id,
      id ∈ candidateIDs acc.1.1 -> id ∈ candidateIDs cs)); [| |exact Hk];
    [|by intros id ?%elem_of_nil]; intros c acc w1 Hc Hl Hk1;
    assert (Hid : id_of c ∈ candidateIDs cs) by (by apply (list_elem_of_fmap_2 id_of));
    eapply holds_mono; [|apply filter_one_keeps; [by apply Hids|exact Hk1]];
    intros acc' w2 [[E|E] Hk2]; rewrite E; (split; [|exact Hk2]); [exact Hl|];
    intros id; unfold candidateIDs; rewrite fmap_app;
    intros [?|Hx%list_elem_of_singleton]%elem_of_app; [by apply Hl|by rewrite Hx]).
  intros [[selected filtered] p1] w1 [Hl Hk1]. cbn [fst] in Hl.
  then_by ltac:(by apply skip_keeps). intros p2 w2 Hk2.
  assert (Hsub : forall w, knows F [] w -> knows F' [] w).
  { intros w3. apply knows_sub; [|done]. by intros id [? _]%HF'. }
  destruct selected as [|c l]; [by apply Hsub|]. set (selected := c :: l) in *. clearbody selected.
  then_by ltac:(by apply quiet_call). intros [[address|]|err] w3 Hk3.
  - eapply send_selected_keeps; [|intros id Hid; destruct (HF' id Hid)|exact Hk3]; auto.
  - eapply holds_mono; [|by apply skip_keeps]. intros p3 w4. apply Hsub.
  - eapply holds_mono; [|apply (retry_keeps _ _ _ _ _ _ F []); [by left; auto|exact Hk3]].
    intros p3 w4. apply Hsub.
Qed.

(** *** The pass *)

Lemma deliver_all_keeps now (l : list (string * list EmailCandidate.t)) p w :
  NoDup (candidateIDs (mjoin l.*2)) -> knows (candidateIDs (mjoin l.*2)) [] w ->
  holds_after (loop (fun entry p => deliver unrepresentable d now entry.1 entry.2 p) l p)
    (fun _ => knows [] []) w.
Proof.
  intros Hn Hk.
  eapply holds_mono; [|apply (wp_loop _ _ _ _ (fun l _ w =>
    NoDup (candidateIDs (mjoin l.*2)) /\ knows (candidateIDs (mjoin l.*2)) [] w));
    [|by split]].
  - by intros p1 w1 [_ ?].
  - clear l Hn Hk p w. intros [recipient cs] rest p w [Hn Hk]. cbn [fst snd fmap list_fmap mjoin list_join] in *.
    unfold candidateIDs in Hn. rewrite fmap_app in Hn. apply NoDup_app in Hn as (_ & Hd & Hn).
    assert (Hsplit : forall id, id ∈ candidateIDs (cs ++ mjoin rest.*2) <->
      id ∈ candidateIDs cs \/ id ∈ candidateIDs (mjoin rest.*2)).
    { intros id. unfold candidateIDs. by rewrite fmap_app, elem_of_app. }
    eapply holds_mono; [|apply (deliver_keeps _ _ _ _ (candidateIDs (cs ++ mjoin rest.*2))
      (candidateIDs (mjoin rest.*2)));
      [| |exact Hk]].
    + by intros p1 w1 Hk1.
    + intros id Hid. apply Hsplit. by left.
    + intros id Hid. split; [apply Hsplit; by right|]. intros Hin. by apply (Hd id Hin).
Qed.

Lemma dispatch_claimed_safe now cs w :
  NoDup (candidateIDs cs) ->
  (forall c, c ∈ cs -> EmailCandidate.Status c <> EmailStatusSending -> fresh o w (id_of c)) ->
  holds_after (dispatch_claimed unrepresentable d now cs) (fun _ _ => True) w.
Proof.
  intros Hn Hf. unfold dispatch_claimed. rewrite sort_split.
  set (old := filter (fun c => EmailCandidate.Status c = EmailStatusSending) cs).
  set (new := filter (fun c => EmailCandidate.Status c <> EmailStatusSending) cs).
  set (byR := groups (filed (fun c =>
    Notification.Recipient (EmailCandidate.Notification_ c)) new)).
  assert (Hperm : candidateIDs (mjoin byR.*2) ≡ₚ candidateIDs new).
  { unfold candidateIDs, byR. by rewrite groups_join. }
  assert (Hk : knows (candidateIDs (mjoin byR.*2)) [] w).
  { constructor; [|by intros ? ?%elem_of_nil]. intros id. rewrite Hperm.
    intros (c & -> & [Hs Hc]%list_elem_of_filter)%list_elem_of_fmap. by apply Hf. }
  then_by ltac:(apply (loop_keeps _ (fun _ => True)); [|done|exact Hk];
    intros entry p1 w1 _ _ Hk1; eapply holds_mono; [|apply resolveDoubt_keeps, Hk1];
    by split).
  intros p1 w1 [_ Hk1].
  then_by ltac:(apply deliver_all_keeps; [|exact Hk1];
    change (NoDup (candidateIDs (mjoin byR.*2))); rewrite Hperm; by apply NoDup_fmap_filter).
  intros p2 w2 Hk2. eapply holds_then with (Q1 := fun _ => knows [] []).
  - intros w3 [Hr HI]. split; [done|]. intros x w4 _.
    by constructor; intros ? ?%elem_of_nil.
  - intros [purged [u|err]] w3 Hk3; [done|]. by then_by ltac:(by apply quiet_call).
Qed.

Lemma dispatch_safe w : holds_after (Dispatch_ unrepresentable d) (fun _ _ => True) w.
Proof.
  unfold Dispatch_. intros w1 [_ HI]. split; [done|]. intros now w2 ->.
  intros w3 [_ HI3]. split; [done|]. intros x w4 Hd. cbn in Hd.
  destruct Hd as [[-> ->]|(err & -> & _)]; [|done]. cbn [bind].
  apply holds_bind. eapply holds_mono; [|apply dispatch_claimed_safe].
  - by intros.
  - destruct (ClaimEmails_runs (claim_of d (normalizeTime now)) (store w3) (inv_keyed _ HI3))
      as (-> & _ & _). unfold candidateIDs. rewrite <- list_fmap_compose.
    apply taken_by_NoDup, HI3.
  - intros c Hc Hs e He Ho.
    destruct (ClaimEmails_runs (claim_of d (normalizeTime now)) (store w3) (inv_keyed _ HI3))
      as (Ec & _ & Ed). cbn [claimed store] in He. rewrite Ed in He. rewrite Ec in Hc.
    apply list_elem_of_fmap in Hc as (n & -> & Hn). unfold id_of in He.
    cbn [EmailCandidate.Notification_ candidate_of] in He.
    rewrite decide_True in He by (by apply list_elem_of_fmap_2). injection He as <-.
    cbn [candidate_of EmailCandidate.Status] in Hs. rewrite leased_status in Hs |- *.
    by case_decide.
Qed.
End pass.

(** ** The notification service is such a surrounding

    Its operations leave the delivery records alone, and the identifiers it gives
    come from a generator that never repeats one. *)

Section service.

Lemma insert_deliveries subject l s : deliveries (insert_ subject l s).2 = deliveries s.
Proof.
  unfold insert_. apply (for_each_inv (fun acc => deliveries acc.2 = deliveries s)); [done|].
  intros i [r s'] _ <-. cbn [snd].
  destruct (insert_one_store subject i r s') as [->|(at_ & n & ->)]; [done|].
  unfold ensureWatermark. by destruct (watermarks _ !! _).
Qed.

Lemma close_subject_deliveries req at_ s :
  deliveries (close_subject req at_ s).2 = deliveries s.
Proof.
  unfold close_subject. set (s1 := for_each (raise_watermark _ _) _ _).
  assert (E : deliveries s1 = deliveries s).
  { unfold s1. apply (for_each_inv (fun s' => deliveries s' = deliveries s)); [|done].
    unfold ensureWatermark. by destruct (watermarks _ !! _). }
  apply (for_each_inv (fun acc => deliveries acc.2 = deliveries s)); [exact E|].
  intros id [[closed recipients] s'] _ H. unfold close_one. by destruct (spared _ _).
Qed.

Lemma Close_deliveries {G} `{!IDGenerator G} req at_ (g : G) s :
  deliveries (NotifyStore.Close req at_ (g, s)).2.2 = deliveries s.
Proof.
  unfold NotifyStore.Close. pose proof (close_subject_deliveries req (normalizeTime at_) s) as E.
  destruct (close_subject req (normalizeTime at_) s) as [[closed recipients] s1]. cbn [snd] in E.
  destruct (SuccessorInsertions _ _ _ _) as [[successors|e] g1]; [|exact E].
  case_decide; [|exact E].
  pose proof (insert_deliveries (CloseRequest.Subject req) successors s1) as E1.
  destruct (insert_ _ _ _) as [inserted s2]. cbn [snd] in E1 |- *. by rewrite E1.
Qed.

Lemma MarkRead_deliveries recipient l at_ s :
  deliveries (NotifyStore.MarkRead recipient l at_ s).2 = deliveries s.
Proof.
  unfold NotifyStore.MarkRead. destruct (all_held _ _ _); [|done].
  pose proof (for_each_inv (fun acc => deliveries acc.2 = deliveries s)
    (mark_one (normalizeTime at_)) (sorted_distinct l) (0, s)) as H.
  destruct (for_each _ _ _). apply H; [done|]. by intros id [marked s'] _ <-.
Qed.

Lemma MarkAllRead_deliveries recipient through at_ s :
  deliveries (NotifyStore.MarkAllRead recipient through at_ s).2 = deliveries s.
Proof.
  unfold NotifyStore.MarkAllRead.
  pose proof (for_each_inv (fun acc => deliveries acc.2 = deliveries s)
    (mark_all_one recipient through (normalizeTime at_)) (map_to_list (notifications s)) (0, s))
    as H.
  destruct (for_each _ _ _). apply H; [done|]. intros [id m] [marked s'] _ E.
  unfold mark_all_one. by case_decide.
Qed.

Lemma evict_deliveries held n active k s :
  deliveries (evict held n active k s).2 = deliveries s.
Proof.
  revert k s. induction held as [|c held IH]; intros k s; [done|]. cbn [evict].
  case_decide; [done|]. destruct (Bool.eqb _ _); [|apply IH]. by rewrite IH.
Qed.

Lemma Prune_deliveries req s : deliveries (NotifyStore.Prune req s).2 = deliveries s.
Proof.
  unfold NotifyStore.Prune.
  set (same := fun acc : PruneResult.t * MemoryStore.t => deliveries acc.2 = deliveries s).
  set (a1 := if decide _ then _ else _).
  assert (H1 : same a1).
  { unfold a1. case_decide; [|done]. apply (for_each_inv same); [done|]. intros n [r s'] _ E.
    unfold prune_aged_one. by destruct (aged _ _). }
  destruct a1 as [r1 s1]. set (a2 := if decide _ then _ else _).
  assert (H2 : same a2).
  { unfold a2. case_decide; [|exact H1]. apply (for_each_inv same); [exact H1|].
    intros recipient [r s'] _ E. unfold prune_count_one. case_decide; [exact E|].
    set (held := merge_sort _ _).
    match goal with |- context [evict held ?n false 0 s'] =>
      pose proof (evict_deliveries held n false 0 s') as Ev; destruct (evict held n false 0 s')
    end.
    case_decide; [unfold same in *; cbn in *; congruence|].
    match goal with |- context [evict held ?n true 0 ?s2] =>
      pose proof (evict_deliveries held n true 0 s2) as Ev2; destruct (evict held n true 0 s2)
    end.
    unfold same in *; cbn in *; congruence. }
  destruct a2 as [r2 s2]. set (a3 := if decide _ then _ else _).
  assert (H3 : same a3).
  { unfold a3. case_decide; [|exact H2]. apply (for_each_inv same); [exact H2|].
    intros [key mark] [r s'] _ E. unfold prune_watermark_one. by case_decide. }
  by destruct a3.
Qed.

Context {G B : Type} `{!IDGenerator G, !Broadcaster B}.
Context (digest : string -> string).
Context (render : cursorPayload.t -> string) (parse : string -> option cursorPayload.t).
#[local] Instance memory : NotifyService.Store MemoryStore.t :=
  MemoryStore_Store digest render parse.
Implicit Type s : Service.t G MemoryStore.t B.

Lemma signal_store signals s : Service.store (signal signals s) = Service.store s.
Proof. apply signal_rest. Qed.

Lemma insert_subjects_deliveries bySubject subjects inserted (s : MemoryStore.t) :
  deliveries (insert_subjects bySubject subjects inserted s).2 = deliveries s.
Proof.
  revert inserted s. induction subjects as [|subject l IH]; intros inserted s; [done|].
  cbn [insert_subjects].
  change (store_Insert subject (default [] (bySubject !! subject)) s) with
    (NotifyStore.Insert subject (default [] (bySubject !! subject)) s).
  unfold NotifyStore.Insert.
  pose proof (insert_deliveries subject (default [] (bySubject !! subject)) s) as E.
  destruct (insert_ _ _ _) as [r s']. cbn [snd] in E. by rewrite IH.
Qed.

(** An operation other than the email ones. *)
Definition of_service (op : Op) : Prop := match op with OpEmails _ => False | _ => True end.

Lemma perform_deliveries op s : of_service op ->
  deliveries (Service.store (perform digest render parse op s)) = deliveries (Service.store s).
Proof.
  intros Hop. destruct op as [now drafts|now req|now recipient l|now recipient through
    |now request|]; [..|done]; cbn [perform].
  - unfold Publish. destruct (draft_issues drafts); [|done]. destruct drafts; [done|].
    destruct (stamp_drafts _ _ _ _) as [[bySubject|e] g]; [|done].
    pose proof (insert_subjects_deliveries bySubject (sorted_keys bySubject) InsertResult.zero
      (Service.store s)) as E.
    change (Service.store (s <| Service.ids := g |>)) with (Service.store s).
    destruct (insert_subjects _ _ _ _) as [[inserted failure] m]. cbn [snd] in *.
    rewrite signal_store. exact E.
  - unfold NotifyService.Close. destruct (CloseRequest_Validate req); [|done].
    change (store_Close ?r ?a (Service.ids s, Service.store s)) with
      (NotifyStore.Close r a (Service.ids s, Service.store s)).
    pose proof (Close_deliveries req (normalizeTime now) (Service.ids s) (Service.store s)) as E.
    destruct (NotifyStore.Close _ _ _) as [[result|e] [g m]]; cbn [snd] in *;
      [rewrite signal_store|]; exact E.
  - unfold NotifyService.MarkRead. destruct (invalid _ _); [|done].
    change (store_MarkRead ?r ?l ?a (Service.store s)) with
      (NotifyStore.MarkRead r l a (Service.store s)).
    pose proof (MarkRead_deliveries recipient l (normalizeTime now) (Service.store s)) as E.
    destruct (NotifyStore.MarkRead _ _ _ _) as [[result|e] m]; cbn [snd] in *;
      [case_decide; rewrite ?signal_store|]; exact E.
  - unfold NotifyService.MarkAllRead. destruct (invalid _ _); [|done].
    match goal with |- context [store_MarkAllRead ?r ?t ?a (Service.store s)] =>
      change (store_MarkAllRead r t a (Service.store s)) with
        (NotifyStore.MarkAllRead r t a (Service.store s));
      pose proof (MarkAllRead_deliveries r t a (Service.store s)) as E
    end.
    destruct (NotifyStore.MarkAllRead _ _ _ _) as [[result|e] m]; cbn [snd] in *;
      [case_decide; rewrite ?signal_store|]; exact E.
  - unfold NotifyService.Prune.
    match goal with |- context [store_Prune ?r (Service.store s)] =>
      change (store_Prune r (Service.store s)) with (NotifyStore.Prune r (Service.store s));
      pose proof (Prune_deliveries r (Service.store s)) as E
    end.
    destruct (NotifyStore.Prune _ _) as [[result|e] m]; cbn [snd] in *;
      [rewrite signal_store|]; exact E.
Qed.

(** The world after the service's operation. *)
Definition served (s' : MemoryStore.t) (w : World.t) : World.t :=
  World.mk s' (log w) (used w ∪ dom (notifications s')) (armed w).

Lemma service_outside op s u w :
  WorldOk s u -> of_service op -> store w = Service.store s ->
  (forall id, id ∈ used w -> id ∈ u) ->
  outside w (served (Service.store (perform digest render parse op s)) w).
Proof.
  intros Hw Hop Es Hu. destruct (perform_keeps digest render parse op s u Hw)
    as (u' & Hu' & Hw' & Hev).
  split_and!; cbn [served store log used armed]; [done|done| | |done|].
  - by rewrite Es, perform_deliveries.
  - apply StoreOk_Keyed, Hw'.
  - intros id [n Hn]. destruct (decide (id ∈ used w)) as [Hid|?]; [left|by right].
    destruct (Hev id n (Hu id Hid) Hn) as (n0 & Hn0 & _). rewrite Es. by exists n0.
Qed.
End service.

(** * The property *)

(** A dispatcher a pool may run: under a name of its own, at most once. *)
Definition pass_of (unrepresentable : Floats.SpecFloat.spec_float -> Z) (name : string)
    (p : prog Port (res DispatchResult.t)) : Prop :=
  exists d, EmailDispatcher.owner d = name /\ name <> "" /\
    EmailDispatcher.guarantee d = AtMostOnce /\ p = Dispatch_ unrepresentable d.

(** A world nobody has emailed from yet. *)
Definition begins (w : World.t) : Prop :=
  Keyed (store w) /\ log w = [] /\ armed w = ∅ /\
  used w = dom (notifications (store w)) ∪ dom (deliveries (store w)).

(** C2: Any number of dispatchers under distinct names and [AtMostOnce], their
    passes interleaved call by call, stopped at any point, with leases that lapse,
    a store that fails and notifications that come, go and change, never email a
    notification twice: after a message covering it was accepted, refused for good
    or left in doubt, no message covering it is handed to the mailer. *)
Theorem at_most_one_email unrepresentable w w' pool l1 m v l2 id :
  begins w ->
  steps (pass_of unrepresentable) does outside (∅, w) (pool, w') ->
  log w' = l1 ++ (m, v) :: l2 -> settled v = true -> covers m id ->
  forall m' v', (m', v') ∈ l2 -> ~ covers m' id.
Proof.
  intros (Hk & Hl & Ha & Hu) Hsteps. apply inv_once.
  assert (HI : Inv w).
  { assert (Hfree : forall id, free w id).
    { intros i. unfold free, sent. rewrite Hl, Ha. split; [apply lookup_empty|].
      by intros (? & ? & ?%elem_of_nil & _). }
    constructor.
    - done.
    - intros i. rewrite Hu, elem_of_union, !elem_of_dom. by left.
    - intros i. rewrite Hu, elem_of_union, !elem_of_dom. by right.
    - intros i Hf. by destruct Hf.
    - intros i o. by rewrite Ha, lookup_empty.
    - intros k1 ? ? k2 i E. rewrite Hl in E. by destruct k1. }
  assert (Hgood : good does Inv rely may (fun _ _ _ => True) (pool, w')).
  { eapply (steps_good (pass_of unrepresentable) does outside Inv rely may (fun _ _ _ => True));
      [..|exact Hsteps|].
    - done.
    - exact call_ok.
    - exact outside_ok.
    - intros i p s (d & <- & Hne & Hg & ->) _. by apply dispatch_safe.
    - split; [done|]. intros i p E. cbn [fst] in E. by rewrite lookup_empty in E. }
  by destruct Hgood.
Qed.
