(* ===== verification/NotifyEmailPass.v ===== *)
(** * NotifyEmailPass: what one dispatch pass does with what it claimed

    A pass run against ports that answer as they like: it ends after a bounded
    number of calls; the messages handed over cover claimed notifications only, each
    at most once; what it counts, releases and withholds adds up to what it claimed;
    and the wait before a retry is the documented one.

    At the end one dispatcher works over the store of [NotifyExamples.v]: its pass
    runs to the end, sends two messages, and the theorems on email delivery apply. *)

From Stdlib Require Import Floats.SpecFloat.
From S2P Require Import Prelude Float64 Domain Interaction.
From S2P Require Import Notification Collections NotifyStore NotifyService NotifyEmail.
From S2P Require Import NotifyEmailFacts.

(** ** What is counted beside the result *)

(** The calls made, the notifications released to the next pass, those withheld
    because the pass could not record that it was sending them, the messages with
    the mailer's answers, and what claims returned. *)
Module Tally.
Record t : Type := mk {
  calls : nat;
  released : nat;
  withheld : nat;
  messages : list (EmailMessage.t * option error);
  claims : list EmailCandidate.t
}.
Definition zero : t := mk 0 0 0 [] [].
End Tally.
Import Tally.

(** A call, its answer, and the tally after it. *)
Definition tallies (X : Type) (e : Port X) : Tally.t -> X -> Tally.t -> Prop :=
  match e in Port X return Tally.t -> X -> Tally.t -> Prop with
  | RecordEmails record => fun t x t' =>
      let n := length (EmailRecord.IDs record) in
      t' = Tally.mk (S (calls t))
        (match EmailRecord.Status record with
         | EmailStatusClaimed => released t + n | _ => released t end)
        (match EmailRecord.Status record, x with
         | EmailStatusSending, Ok changed => if decide (changed < n) then withheld t + n else withheld t
         | EmailStatusSending, Err _ => withheld t + n
         | _, _ => withheld t
         end)
        (messages t) (claims t)
  | Send m => fun t x t' =>
      t' = Tally.mk (S (calls t)) (released t) (withheld t) (messages t ++ [(m, x)]) (claims t)
  | ClaimEmails _ => fun t x t' =>
      t' = Tally.mk (S (calls t)) (released t) (withheld t) (messages t)
             (claims t ++ match x with Ok cs => cs | Err _ => [] end)
  | _ => fun t _ t' =>
      t' = Tally.mk (S (calls t)) (released t) (withheld t) (messages t) (claims t)
  end.

Definition after {A} (p : prog Port A) (Q : A -> Tally.t -> Prop) (t : Tally.t) : Prop :=
  wp eq (fun _ _ _ => True) tallies p Q t.

Lemma after_bind {A B} (p : prog Port A) (k : A -> prog Port B) Q1 Q t :
  after p Q1 t -> (forall a t, Q1 a t -> after (k a) Q t) -> after (bind p k) Q t.
Proof. intros Hp Hk. apply wp_bind. eapply wp_mono; [|exact Hp]. exact Hk. Qed.

Lemma after_mono {A} (p : prog Port A) (Q1 Q2 : A -> Tally.t -> Prop) t :
  (forall a t, Q1 a t -> Q2 a t) -> after p Q1 t -> after p Q2 t.
Proof. apply wp_mono. Qed.

Lemma after_call {X} (e : Port X) Q t :
  (forall x t', tallies X e t x t' -> Q x t') -> after (call e) Q t.
Proof. intros H t1 <-. auto. Qed.

(** ** The account of a piece of a pass *)

Definition outcomes (p : DispatchResult.t) : nat :=
  DispatchResult.Sent p + DispatchResult.SkippedNoAddress p +
  DispatchResult.SkippedFiltered p + DispatchResult.SkippedInactive p +
  DispatchResult.Retried p + DispatchResult.Failed p + DispatchResult.Abandoned p.

Definition total (p : DispatchResult.t) (t : Tally.t) : nat :=
  outcomes p + released t + withheld t.

Definition covered (l : list (EmailMessage.t * option error)) : list string :=
  l ≫= (fun e => EmailMessage.NotificationIDs e.1).

Definition accepted (l : list (EmailMessage.t * option error)) :=
  filter (fun e => e.2 = None) l.

(** From [p, t] to [p', t'] [n] notifications were dealt with, messages were made
    of [ids] at most, in at most [b] calls. *)
Record accounts (n : nat) (ids : list string) (b : nat)
    (p : DispatchResult.t) (t : Tally.t) (p' : DispatchResult.t) (t' : Tally.t) : Prop := {
  acc_total : total p' t' = total p t + n;
  acc_claimed : DispatchResult.Claimed p' = DispatchResult.Claimed p;
  acc_claims : claims t' = claims t;
  acc_calls : calls t' <= calls t + b;
  acc_messages : exists new, messages t' = messages t ++ new /\ covered new ⊆+ ids /\
    DispatchResult.Messages p' = DispatchResult.Messages p + length (accepted new) /\
    DispatchResult.Sent p' = DispatchResult.Sent p + length (covered (accepted new))
}.

Lemma covered_app l1 l2 : covered (l1 ++ l2) = covered l1 ++ covered l2.
Proof. apply bind_app. Qed.

Lemma accounts_trans n1 n2 i1 i2 b1 b2 n ids b p1 t1 p2 t2 p3 t3 :
  accounts n1 i1 b1 p1 t1 p2 t2 -> accounts n2 i2 b2 p2 t2 p3 t3 ->
  n = n1 + n2 -> i1 ++ i2 ⊆+ ids -> b1 + b2 <= b ->
  accounts n ids b p1 t1 p3 t3.
Proof.
  intros [T1 C1 L1 B1 (l1 & M1 & I1 & K1 & S1)] [T2 C2 L2 B2 (l2 & M2 & I2 & K2 & S2)] -> Hi Hb.
  constructor; [lia|congruence|congruence|lia|]. exists (l1 ++ l2).
  unfold accepted in *. rewrite filter_app, !covered_app, !length_app. split_and!; [|..|lia|lia].
  - by rewrite M2, M1, app_assoc.
  - etrans; [|exact Hi]. by apply submseteq_app.
Qed.

Lemma accounts_seq n1 n2 b1 b2 n b p1 t1 p2 t2 p3 t3 :
  accounts n1 [] b1 p1 t1 p2 t2 -> accounts n2 [] b2 p2 t2 p3 t3 ->
  n = n1 + n2 -> b1 + b2 <= b -> accounts n [] b p1 t1 p3 t3.
Proof. intros H1 H2 Hn Hb. by eapply accounts_trans. Qed.

Lemma accounts_weaken n1 i1 b1 n ids b p t p' t' :
  accounts n1 i1 b1 p t p' t' -> n = n1 -> i1 ⊆+ ids -> b1 <= b -> accounts n ids b p t p' t'.
Proof.
  intros [T C L B (l & M & I & K & S)] -> Hi Hb.
  constructor; [done|done|done|lia|]. exists l. split_and!; [done|by etrans|done..].
Qed.

Lemma accounts_refl p t : accounts 0 [] 0 p t p t.
Proof.
  constructor; [lia|done|done|lia|]. exists []. rewrite app_nil_r. cbn. split_and!; [done..|lia|lia].
Qed.

Lemma accounts_intro n b p t p' t' :
  total p' t' = total p t + n -> DispatchResult.Claimed p' = DispatchResult.Claimed p ->
  DispatchResult.Messages p' = DispatchResult.Messages p ->
  DispatchResult.Sent p' = DispatchResult.Sent p ->
  claims t' = claims t -> calls t' <= calls t + b -> messages t' = messages t ->
  accounts n [] b p t p' t'.
Proof.
  intros. constructor; [done..|]. exists []. rewrite app_nil_r. cbn. split_and!; [done..|lia|lia].
Qed.

(** A call that is no claim, record or message. *)
Definition plain {X} (e : Port X) : Prop :=
  match e with ClaimEmails _ | RecordEmails _ | Send _ => False | _ => True end.

Lemma plain_call {X} (e : Port X) p t :
  plain e -> after (call e) (fun _ t' => accounts 0 [] 1 p t p t') t.
Proof.
  intros He. apply after_call. intros x t' Ht.
  assert (E : t' = Tally.mk (S (calls t)) (released t) (withheld t) (messages t) (claims t))
    by (by destruct e).
  subst t'. constructor; unfold total; cbn; [lia|done|done|lia|].
  exists []. rewrite app_nil_r. cbn. split_and!; [done..|lia|lia].
Qed.

Section pass.
Context (unrepresentable : spec_float -> Z) (d : EmailDispatcher.t) (now : Time).

Lemma report_accounts recipient batch err p t :
  after (report recipient batch err) (fun _ t' => accounts 0 [] 1 p t p t') t.
Proof. by apply plain_call. Qed.

(** How many a record deals with: those it releases, and those it was to mark as
    being sent when it did not mark all. *)
Definition dealt (status : EmailStatus) (recorded : bool) (n : nat) : nat :=
  match status with
  | EmailStatusClaimed => n
  | EmailStatusSending => if recorded then 0 else n
  | _ => 0
  end.

Lemma record_accounts cs record p t :
  after (record_ d now cs record p)
    (fun out t' => accounts (dealt (EmailRecord.Status record) out.1 (length cs)) [] 2
                     p t out.2 t') t.
Proof.
  unfold record_. set (r := (_ <| EmailRecord.IDs := _ |>)).
  assert (Hr : EmailRecord.Status r = EmailRecord.Status record /\
               length (EmailRecord.IDs r) = length cs).
  { split; [done|]. unfold r, candidateIDs. cbn. apply length_fmap. }
  clearbody r. destruct Hr as [<- El]. eapply after_bind.
  { apply after_call. intros x t' Ht. exact Ht. }
  intros x t1 Ht. cbn in Ht. rewrite El in Ht.
  destruct x as [changed|err].
  - case_decide as Hc; apply accounts_intro; subst t1; unfold total, outcomes; cbn;
      try done; try lia; destruct (EmailRecord.Status r); cbn; lia.
  - set (p' := p <| DispatchResult.Unrecorded := _ |>).
    eapply after_bind; [by apply (report_accounts _ _ _ p')|]. intros u t2 H2. cbn [fst snd].
    eapply (accounts_trans _ 0 [] [] 1 1); [|exact H2|by rewrite Nat.add_0_r|done|lia].
    apply accounts_intro; subst t1; unfold total, outcomes; cbn;
      try done; try lia; destruct (EmailRecord.Status r); cbn; lia.
Qed.

Lemma record_only_accounts cs record p t :
  EmailRecord.Status record <> EmailStatusSending ->
  after (record_only d now cs record p)
    (fun p' t' => accounts (dealt (EmailRecord.Status record) true (length cs)) [] 2
                    p t p' t') t.
Proof.
  intros Hs. eapply after_bind; [apply record_accounts|]. intros [ok p1] t1 H1. cbn [snd].
  eapply accounts_weaken; [exact H1| |done|lia].
  destruct (EmailRecord.Status record); done.
Qed.

(** Counting [n] under one outcome. *)
Lemma counted n p p' t :
  outcomes p' = outcomes p + n -> DispatchResult.Claimed p' = DispatchResult.Claimed p ->
  DispatchResult.Messages p' = DispatchResult.Messages p ->
  DispatchResult.Sent p' = DispatchResult.Sent p -> accounts n [] 0 p t p' t.
Proof. intros. apply accounts_intro; unfold total; auto with lia. Qed.

Lemma skip_accounts cs reason p t :
  after (skip d now cs reason p) (fun p' t' => accounts (length cs) [] 2 p t p' t') t.
Proof.
  unfold skip. destruct cs as [|c l]; [eapply accounts_weaken; [apply accounts_refl|done..|lia]|].
  set (cs := c :: l). clearbody cs.
  eapply after_bind; [by apply record_only_accounts|]. intros p1 t1 H1.
  eapply accounts_trans; [exact H1|apply (counted (length cs))|reflexivity|done|lia];
    repeat case_decide; unfold outcomes; cbn; done || lia.
Qed.

Lemma fail_accounts cs batch cause p t :
  after (fail d now cs batch cause p) (fun p' t' => accounts (length cs) [] 3 p t p' t') t.
Proof.
  unfold fail. eapply after_bind; [by apply record_only_accounts|]. intros p1 t1 H1.
  set (p2 := p1 <| DispatchResult.Failed := _ |>).
  eapply after_bind; [by apply (report_accounts _ _ _ p2)|]. intros u t2 H2. cbn.
  eapply (accounts_trans _ 0 [] [] 2 1); [|exact H2|by rewrite Nat.add_0_r|done|lia].
  eapply accounts_trans; [exact H1|apply (counted (length cs))|reflexivity|done|lia];
    unfold outcomes; cbn; done || lia.
Qed.

Lemma delay_accounts attempts p t :
  after (delay unrepresentable d attempts) (fun _ t' => accounts 0 [] 1 p t p t') t.
Proof. unfold delay. eapply after_bind; [by apply (plain_call _ p)|]. by intros draw t1 H1. Qed.

Lemma retry_group_accounts cause countAttempt entry p t :
  after (retry_group unrepresentable d now cause countAttempt entry p)
    (fun p' t' => accounts (length entry.2) [] 3 p t p' t') t.
Proof.
  destruct entry as [made group]. unfold retry_group. cbn [snd]. case_decide.
  - eapply after_bind; [by apply record_only_accounts|]. intros p1 t1 H1.
    eapply accounts_trans; [exact H1|apply (counted (length group))|reflexivity|done|lia];
      unfold outcomes; cbn; done || lia.
  - eapply after_bind; [apply (delay_accounts made p)|]. intros wait t1 H1. eapply after_bind; [by apply record_only_accounts|]. intros p2 t2 H2.
    eapply (accounts_trans 0 _ [] [] 1 2); [exact H1| |reflexivity|done|lia].
    eapply accounts_trans; [exact H2|apply (counted (length group))|reflexivity|done|lia];
      unfold outcomes; cbn; done || lia.
Qed.

(** A loop each turn of which accounts for some. *)
Lemma loop_accounts {X} (f : X -> DispatchResult.t -> prog Port DispatchResult.t)
    (n b : X -> nat) (ids : X -> list string) l p t :
  (forall x p t, x ∈ l ->
     after (f x p) (fun p' t' => accounts (n x) (ids x) (b x) p t p' t') t) ->
  after (loop f l p)
    (fun p' t' => accounts (sum_list (n <$> l)) (l ≫= ids) (sum_list (b <$> l)) p t p' t') t.
Proof.
  revert p t. induction l as [|x l IH]; intros p t Hf; [apply accounts_refl|]. cbn [loop].
  eapply after_bind; [apply Hf; left|]. intros p1 t1 H1. cbn.
  eapply after_mono; [|apply IH; intros; apply Hf; by right]. intros p2 t2 H2.
  by eapply accounts_trans; [exact H1|exact H2| |..].
Qed.

Lemma retry_accounts cs batch cause countAttempt p t :
  after (retry unrepresentable d now cs batch cause countAttempt p)
    (fun p' t' => accounts (length cs) [] (3 * length cs + 1) p t p' t') t.
Proof.
  unfold retry. set (byA := for_each _ _ _).
  destruct (groups_sizes (attempts_made countAttempt) cs) as [E1 E2].
  change (filed (attempts_made countAttempt) cs) with byA in E1, E2.
  eapply after_bind.
  { apply (loop_accounts _ (fun e => length e.2) (fun _ => 3) (fun _ => [])).
    intros e p1 t1 _. apply retry_group_accounts. }
  intros p1 t1 H1. cbv beta in H1. rewrite E1 in H1.
  eapply after_bind; [by apply (report_accounts _ _ _ p1)|]. intros u t2 H2.
  eapply accounts_trans; [exact H1|exact H2|lia| |].
  - clear. induction (groups byA); done.
  - assert (E : sum_list ((fun _ => 3) <$> groups byA) = 3 * length (groups byA)).
    { clear. induction (groups byA) as [|g l IH]; [done|]. cbn in *. lia. }
    rewrite E. lia.
Qed.

(** ** Rechecking, filtering and sending *)

Lemma candidateIDs_submseteq l1 l2 : l1 ⊆+ l2 -> candidateIDs l1 ⊆+ candidateIDs l2.
Proof. apply fmap_submseteq. Qed.

Lemma recheck_accounts recipient cs p t :
  after (recheck unrepresentable d now recipient cs p)
    (fun out t' => exists n, length cs = length out.1.1 + n /\ out.1.1 ⊆+ cs /\
       accounts n [] (5 * length cs + 4) p t out.2 t') t.
Proof.
  unfold recheck. eapply after_bind.
  { apply (wp_loop _ _ _ _ (fun rest k t' => exists before n, cs = before ++ rest /\
      length before = length (checked.live k) + length (checked.inactive k) +
                      length (checked.deleted k) + n /\
      checked.live k ⊆+ before /\
      accounts n [] (5 * length before) p t (checked.result k) t')).
    - intros c rest k t1 (before & n & -> & El & Hl & H1). unfold recheck_one.
      eapply after_bind; [by apply (plain_call _ (checked.result k))|].
      intros answer t2 H2. cbv beta in H2.
      assert (H3 : accounts n [] (5 * length (before ++ [c])) p t (checked.result k) t2).
      { eapply accounts_trans; [exact H1|exact H2|lia|done|]. rewrite length_app. cbn. lia. }
      assert (Hl' : checked.live k ⊆+ before ++ [c]) by (by apply submseteq_inserts_r).
      assert (Elen : length (before ++ [c]) = S (length before)) by (rewrite length_app; cbn; lia).
      assert (Ecs : forall n' k', length (before ++ [c]) =
          length (checked.live k') + length (checked.inactive k') +
          length (checked.deleted k') + n' ->
        checked.live k' ⊆+ before ++ [c] ->
        forall t3, accounts n' [] (5 * length (before ++ [c])) p t (checked.result k') t3 ->
        exists before' n, before ++ c :: rest = before' ++ rest /\
          length before' = length (checked.live k') + length (checked.inactive k') +
                           length (checked.deleted k') + n /\
          checked.live k' ⊆+ before' /\
          accounts n [] (5 * length before') p t (checked.result k') t3).
      { intros n' k' E1 E2 t3 E3. exists (before ++ [c]), n'. by rewrite <- app_assoc. }
      destruct answer as [m|err]; [case_decide|destruct (errors_Is err ErrNotFound)].
      + apply (Ecs n); [cbn; rewrite !length_app; cbn; lia|done|exact H3].
      + apply (Ecs n); [cbn; rewrite !length_app; cbn; lia|by apply submseteq_app|exact H3].
      + apply (Ecs n); [cbn; rewrite !length_app; cbn; lia|done|exact H3].
      + eapply after_bind; [apply retry_accounts|]. intros p1 t3 H4. cbv beta in H4.
        apply (Ecs (n + 1)); [rewrite Elen; cbn; lia|exact Hl'|].
        rewrite Elen. eapply accounts_seq; [exact H1| |reflexivity|].
        * eapply accounts_seq; [exact H2|exact H4|reflexivity|reflexivity].
        * cbn. lia.
    - exists [], 0. split_and!; [done..|]. apply accounts_refl. }
  intros k t1 (before & n & -> & El & Hl & H1). rewrite app_nil_r in *.
  eapply after_bind; [apply skip_accounts|]. intros p2 t2 H2. cbv beta in H2.
  eapply after_bind; [apply skip_accounts|]. intros p3 t3 H3. cbv beta in H3.
  exists (n + (length (checked.inactive k) + length (checked.deleted k))). cbn [fst snd].
  split_and!; [lia|done|].
  eapply accounts_seq; [exact H1| |reflexivity|].
  - eapply accounts_seq; [exact H2|exact H3|reflexivity|reflexivity].
  - lia.
Qed.

(** A message handed over, with the mailer's answer. *)
Definition sending (p : DispatchResult.t) (t : Tally.t) (m : EmailMessage.t)
    (v : option error) (t' : Tally.t) : Prop :=
  t' = Tally.mk (S (calls t)) (released t) (withheld t) (messages t ++ [(m, v)]) (claims t).

Lemma after_send_accounts recipient live batch v m p t t1 :
  EmailMessage.NotificationIDs m = candidateIDs live -> sending p t m v t1 ->
  after (after_send unrepresentable d now recipient live batch v p)
    (fun p' t' => accounts (length live) (candidateIDs live) (3 * length live + 4) p t p' t') t1.
Proof.
  intros Hm ->. set (t1 := Tally.mk _ _ _ _ _).
  (* a message that was not accepted counts for nothing by itself *)
  assert (Hsent : v <> None -> accounts 0 (candidateIDs live) 1 p t p t1).
  { intros Hv. constructor; [unfold total; cbn; lia|done|done|cbn; lia|]. exists [(m, v)].
    unfold accepted, covered. rewrite filter_cons_False by done. cbn. rewrite app_nil_r, Hm.
    split_and!; [done..|lia|lia]. }
  assert (Hthen : forall n b p2 t2, v <> None -> accounts n [] b p t1 p2 t2 ->
    n = length live -> b <= 3 * length live + 3 ->
    accounts (length live) (candidateIDs live) (3 * length live + 4) p t p2 t2).
  { intros n b p2 t2 Hv H2 -> Hb.
    eapply accounts_trans; [by apply Hsent|exact H2|lia|by rewrite app_nil_r|lia]. }
  unfold after_send. destruct v as [err|].
  - destruct (errors_Is err ErrMailRejected).
    { eapply after_mono; [|apply fail_accounts]. intros p2 t2 H2. by eapply Hthen; [|exact H2| |lia]. }
    destruct (errors_Is err ErrMailInDoubt && _).
    { eapply after_bind; [by apply record_only_accounts|]. intros p1 t2 H2. cbv beta in H2.
      set (p2 := p1 <| DispatchResult.Abandoned := _ |>).
      eapply after_bind; [by apply (report_accounts _ _ _ p2)|]. intros u t3 H3. cbv beta in H3.
      eapply (Hthen (length live) 3); [done| |done|lia].
      assert (Hc : accounts (length live) [] 0 p1 t2 p2 t2).
      { apply counted; [unfold p2, outcomes; cbn; lia|done..]. }
      eapply accounts_seq; [exact H2| |reflexivity|].
      - eapply accounts_seq; [exact Hc|exact H3|by rewrite Nat.add_0_r|reflexivity].
      - lia. }
    destruct (errors_Is err ErrMailInDoubt).
    { set (p2 := p <| DispatchResult.Retried := _ |>).
      eapply after_bind; [by apply (report_accounts _ _ _ p2)|]. intros u t3 H3. cbv beta in H3.
      eapply (Hthen (length live) 1); [done| |done|lia].
      assert (Hc : accounts (length live) [] 0 p t1 p2 t1).
      { apply counted; [unfold p2, outcomes; cbn; lia|done..]. }
      eapply accounts_seq; [exact Hc|exact H3|by rewrite Nat.add_0_r|reflexivity]. }
    eapply after_mono; [|apply retry_accounts]. intros p2 t2 H2. cbv beta in H2.
    rewrite length_fmap in H2. by eapply Hthen; [|exact H2| |lia].
  - eapply after_bind; [by apply record_only_accounts|]. intros p1 t2 [T C L B M]. cbn in T, M.
    destruct M as (new & Hnew & Hc & HM & HS). apply submseteq_nil_r in Hc.
    constructor.
    + unfold total, outcomes in *. cbn in *. lia.
    + exact C.
    + exact L.
    + cbn in *. lia.
    + exists ((m, None) :: new). rewrite Hnew. cbn [messages]. split_and!.
      * by rewrite <- app_assoc.
      * change (covered ((m, None) :: new)) with (EmailMessage.NotificationIDs m ++ covered new).
        by rewrite Hc, Hm, app_nil_r.
      * unfold accepted in *. rewrite filter_cons_True by done. cbn. lia.
      * unfold accepted in *. rewrite filter_cons_True by done.
        change (covered ((m, None) :: ?l)) with (EmailMessage.NotificationIDs m ++ covered l).
        rewrite length_app, Hm. unfold candidateIDs at 1. rewrite length_fmap. cbn. lia.
Qed.

Lemma commit_and_send_accounts recipient address live content batch p t :
  after (commit_and_send unrepresentable d now recipient address live content batch p)
    (fun p' t' => accounts (length live) (candidateIDs live) (3 * length live + 6) p t p' t') t.
Proof.
  unfold commit_and_send. eapply after_bind; [apply record_accounts|].
  intros [[] p1] t1 H1; cbn in H1; cbn [negb].
  - eapply after_bind; [apply after_call; intros v t2 Ht; exact Ht|]. intros v t2 Ht.
    eapply after_mono; [|by eapply after_send_accounts; [|exact Ht]]. intros p2 t3 H2.
    eapply accounts_trans; [exact H1|exact H2|done|done|lia].
  - cbn. eapply accounts_weaken; [exact H1|done|apply submseteq_nil_l|lia].
Qed.

Lemma send_accounts recipient address cs batch p t :
  after (send unrepresentable d now recipient address cs batch p)
    (fun p' t' => accounts (length cs) (candidateIDs cs) (8 * length cs + 12) p t p' t') t.
Proof.
  unfold send. eapply after_bind; [apply recheck_accounts|].
  intros [[live notifications] p1] t1 (n & En & Hl & H1). cbn [fst snd] in *.
  assert (Hrest : forall ids b p2 t2, accounts (length live) ids b p1 t1 p2 t2 ->
    ids ⊆+ candidateIDs live -> b <= 3 * length live + 8 ->
    accounts (length cs) (candidateIDs cs) (8 * length cs + 12) p t p2 t2).
  { intros ids b p2 t2 H2 Hids Hb. eapply accounts_trans; [exact H1|exact H2|lia| |lia].
    cbn. etrans; [exact Hids|]. by apply candidateIDs_submseteq. }
  destruct live as [|c l].
  { apply (Hrest [] 0); [apply accounts_refl|done|lia]. }
  set (live := c :: l) in *. clearbody live. clear c l.
  eapply after_bind; [by apply (plain_call _ p1)|]. intros [content|err] t2 H2; cbv beta in H2.
  - assert (Hcommit : forall key b t3, accounts 0 [] b p1 t1 p1 t3 -> b <= 2 ->
      after (commit_and_send unrepresentable d now recipient address live content key p1)
        (fun p' t' => accounts (length cs) (candidateIDs cs) (8 * length cs + 12) p t p' t') t3).
    { intros key b t3 H3 Hb. eapply after_mono; [|apply commit_and_send_accounts].
      intros p4 t4 H4. eapply Hrest; [|done|].
      - eapply accounts_trans; [exact H3|exact H4|done|done|reflexivity].
      - lia. }
    case_decide; [|eapply Hcommit; [exact H2|lia]].
    eapply after_bind; [by apply (plain_call _ p1)|]. intros id t3 H3; cbv beta in H3.
    assert (H3' : accounts 0 [] 2 p1 t1 p1 t3)
      by (eapply accounts_seq; [exact H2|exact H3|done|lia]).
    destruct id as [key|err]; [eapply Hcommit; [exact H3'|lia]|].
    eapply after_mono; [|apply retry_accounts]. intros p4 t4 H4. cbv beta in H4.
    eapply Hrest; [eapply accounts_seq; [exact H3'|exact H4|done|reflexivity]
                  |apply submseteq_nil_l|lia].
  - eapply after_mono; [|apply fail_accounts]. intros p4 t4 H4. cbv beta in H4.
    eapply Hrest; [eapply accounts_seq; [exact H2|exact H4|done|reflexivity]
                  |apply submseteq_nil_l|lia].
Qed.

Lemma resolveDoubt_accounts cs p t :
  after (resolveDoubt unrepresentable d now cs p)
    (fun p' t' => accounts (length cs) (candidateIDs cs) (8 * length cs + 13) p t p' t') t.
Proof.
  unfold resolveDoubt. case_decide.
  - eapply after_bind; [by apply record_only_accounts|]. intros p1 t1 H1. cbv beta in H1.
    set (p2 := p1 <| DispatchResult.Abandoned := _ |>).
    assert (Hc : accounts (length cs) [] 0 p1 t1 p2 t1).
    { apply counted; [unfold p2, outcomes; cbn; lia|done..]. }
    eapply accounts_trans; [exact H1|exact Hc|reflexivity|apply submseteq_nil_l|lia].
  - eapply after_bind; [by apply (plain_call _ p)|]. intros [[address|]|err] t1 H1; cbv beta in H1.
    + eapply after_mono; [|apply send_accounts]. intros p2 t2 H2.
      eapply accounts_trans; [exact H1|exact H2|done|done|lia].
    + eapply after_mono; [|apply skip_accounts]. intros p2 t2 H2.
      eapply accounts_trans; [exact H1|exact H2|done|apply submseteq_nil_l|lia].
    + set (p2 := p <| DispatchResult.Retried := _ |>).
      eapply after_bind; [by apply (report_accounts _ _ _ p2)|]. intros u t2 H2. cbv beta in H2.
      assert (Hc : accounts (length cs) [] 0 p t1 p2 t1).
      { apply counted; [unfold p2, outcomes; cbn; lia|done..]. }
      eapply accounts_trans; [exact H1| |reflexivity|apply submseteq_nil_l|].
      * eapply accounts_seq; [exact Hc|exact H2|by rewrite Nat.add_0_r|reflexivity].
      * lia.
Qed.

Lemma send_selected_accounts recipient address selected p t :
  after (send_selected unrepresentable d now recipient address selected p)
    (fun p' t' => accounts (length selected) (candidateIDs selected)
                    (8 * length selected + 14) p t p' t') t.
Proof.
  unfold send_selected. case_decide.
  - set (limit := Z.to_nat (EmailDispatcher.batch d)).
    pose proof (length_take selected limit) as L1. pose proof (length_drop selected limit) as L2.
    eapply after_bind; [by apply record_only_accounts|]. intros p1 t1 H1. cbn in H1.
    eapply after_mono; [|apply send_accounts]. intros p2 t2 H2.
    eapply accounts_trans; [exact H1|exact H2|lia| |lia].
    cbn. apply candidateIDs_submseteq, submseteq_take.
  - eapply after_mono; [|apply send_accounts]. intros p2 t2 H2.
    eapply accounts_weaken; [exact H2|done|done|lia].
Qed.

Lemma deliver_accounts recipient cs p t :
  after (deliver unrepresentable d now recipient cs p)
    (fun p' t' => accounts (length cs) (candidateIDs cs) (13 * length cs + 17) p t p' t') t.
Proof.
  unfold deliver. eapply after_bind.
  { apply (wp_loop _ _ _ _ (fun rest acc t' => exists before n, cs = before ++ rest /\
      length before = length acc.1.1 + length acc.1.2 + n /\ acc.1.1 ⊆+ before /\
      accounts n [] (5 * length before) p t acc.2 t')).
    - intros c rest [[selected filtered] p1] t1 (before & n & -> & El & Hl & H1).
      cbn [fst snd] in *.
      assert (Elen : length (before ++ [c]) = S (length before)) by (rewrite length_app; cbn; lia).
      assert (Ecs : forall n' (acc : list EmailCandidate.t * list EmailCandidate.t * DispatchResult.t),
        length (before ++ [c]) = length acc.1.1 + length acc.1.2 + n' ->
        acc.1.1 ⊆+ before ++ [c] ->
        forall t3, accounts n' [] (5 * length (before ++ [c])) p t acc.2 t3 ->
        exists before' n, before ++ c :: rest = before' ++ rest /\
          length before' = length acc.1.1 + length acc.1.2 + n /\
          acc.1.1 ⊆+ before' /\ accounts n [] (5 * length before') p t acc.2 t3).
      { intros n' k' E1 E2 t3 E3. exists (before ++ [c]), n'. by rewrite <- app_assoc. }
      unfold filter_one. eapply after_bind with (Q1 := fun _ t' => accounts 0 [] 1 p1 t1 p1 t').
      { unfold should_email. destruct (EmailDispatcher.filter d);
          [|by apply plain_call|]; cbn; (eapply accounts_weaken; [apply accounts_refl|done..|lia]). }
      intros answer t2 H2. cbv beta in H2.
      assert (H3 : accounts n [] (5 * length (before ++ [c])) p t p1 t2).
      { eapply accounts_seq; [exact H1|exact H2|lia|]. rewrite Elen. lia. }
      destruct answer as [[]|err].
      + apply (Ecs n (selected ++ [c], filtered, p1)); cbn [fst snd];
          [rewrite Elen, length_app; cbn; lia|by apply submseteq_app|exact H3].
      + apply (Ecs n (selected, filtered ++ [c], p1)); cbn [fst snd];
          [rewrite Elen, length_app; cbn; lia|by apply submseteq_inserts_r|exact H3].
      + eapply after_bind; [apply retry_accounts|]. intros p2 t3 H4. cbv beta in H4.
        apply (Ecs (n + 1) (selected, filtered, p2)); cbn [fst snd];
          [lia|by apply submseteq_inserts_r|].
        rewrite Elen. eapply accounts_seq; [exact H1| |reflexivity|].
        * eapply accounts_seq; [exact H2|exact H4|reflexivity|reflexivity].
        * cbn. lia.
    - exists [], 0. split_and!; [done..|]. apply accounts_refl. }
  intros [[selected filtered] p1] t1 (before & n & -> & El & Hl & H1).
  rewrite app_nil_r in *. cbn [fst snd] in *.
  eapply after_bind; [apply skip_accounts|]. intros p2 t2 H2. cbv beta in H2.
  assert (Hrest : forall ids b p3 t3, accounts (length selected) ids b p2 t2 p3 t3 ->
    ids ⊆+ candidateIDs selected -> b <= 8 * length selected + 15 ->
    accounts (length before) (candidateIDs before) (13 * length before + 17) p t p3 t3).
  { intros ids b p3 t3 H3 Hids Hb.
    eapply accounts_trans; [eapply accounts_seq; [exact H1|exact H2|reflexivity|reflexivity]
                           |exact H3|lia| |lia].
    cbn. etrans; [exact Hids|]. by apply candidateIDs_submseteq. }
  destruct selected as [|c l]; [apply (Hrest [] 0); [apply accounts_refl|done|lia]|].
  set (selected := c :: l) in *. clearbody selected. clear c l.
  eapply after_bind; [by apply (plain_call _ p2)|]. intros [[address|]|err] t3 H3; cbv beta in H3.
  - eapply after_mono; [|apply send_selected_accounts]. intros p4 t4 H4.
    eapply Hrest; [eapply accounts_trans; [exact H3|exact H4|done|done|reflexivity]|done|lia].
  - eapply after_mono; [|apply skip_accounts]. intros p4 t4 H4. cbv beta in H4.
    eapply Hrest; [eapply accounts_seq; [exact H3|exact H4|done|reflexivity]
                  |apply submseteq_nil_l|lia].
  - eapply after_mono; [|apply retry_accounts]. intros p4 t4 H4. cbv beta in H4.
    eapply Hrest; [eapply accounts_seq; [exact H3|exact H4|done|reflexivity]
                  |apply submseteq_nil_l|lia].
Qed.

(** A loop over groups, every turn of which accounts for its group. *)
Lemma groups_accounts {K} `{Countable K} (key : EmailCandidate.t -> K)
    (f : K * list EmailCandidate.t -> DispatchResult.t -> prog Port DispatchResult.t) cs p t :
  (forall e p t, e.2 <> [] -> after (f e p) (fun p' t' =>
     accounts (length e.2) (candidateIDs e.2) (30 * length e.2) p t p' t') t) ->
  after (loop f (groups (filed key cs)) p)
    (fun p' t' => accounts (length cs) (candidateIDs cs) (30 * length cs) p t p' t') t.
Proof.
  intros Hf. destruct (groups_sizes key cs) as [E _].
  eapply after_mono; [|apply (loop_accounts f (fun e => length e.2) (fun e => 30 * length e.2)
    (fun e => candidateIDs e.2))].
  - intros p1 t1 H1. cbv beta in H1. eapply accounts_weaken; [exact H1|by rewrite E| |].
    + etrans; [|apply Permutation_submseteq, fmap_Permutation, (groups_join key cs)]. clear.
      induction (groups (filed key cs)) as [|[k g] l IH]; [done|]. cbn. rewrite fmap_app.
      by apply submseteq_app.
    + rewrite <- E. clear. induction (groups (filed key cs)) as [|[k g] l IH]; [done|].
      cbn [fmap list_fmap sum_list sum_list_with snd] in *. cbn in *. lia.
  - intros [k g] p1 t1 [_ Hg]%groups_elem. by apply Hf.
Qed.

Lemma dispatch_claimed_accounts cs t :
  after (dispatch_claimed unrepresentable d now cs)
    (fun p' t' => accounts (length cs) (candidateIDs cs) (30 * length cs + 2)
       (DispatchResult.zero <| DispatchResult.Claimed := length cs |>) t p' t') t.
Proof.
  unfold dispatch_claimed. rewrite sort_split. set (p := DispatchResult.zero <| _ := _ |>).
  set (old := filter (fun c => EmailCandidate.Status c = EmailStatusSending) cs).
  set (new := filter (fun c => EmailCandidate.Status c <> EmailStatusSending) cs).
  assert (Hperm : old ++ new ≡ₚ cs).
  { unfold old, new.
    apply (filter_app_complement (fun c => EmailCandidate.Status c = EmailStatusSending)). }
  assert (Hlen : length cs = length old + length new).
  { by rewrite <- (Permutation_length Hperm), length_app. }
  eapply after_bind.
  { apply (groups_accounts EmailCandidate.BatchID (fun e p => resolveDoubt unrepresentable d now e.2 p) old).
    intros e p1 t1 He. eapply after_mono; [|apply resolveDoubt_accounts].
    intros p2 t2 H2. eapply accounts_weaken; [exact H2|done|done|]. destruct e.2; [done|cbn; lia]. }
  intros p1 t1 H1. cbv beta in H1. eapply after_bind.
  { apply (groups_accounts (fun c => Notification.Recipient (EmailCandidate.Notification_ c))
      (fun e p => deliver unrepresentable d now e.1 e.2 p) new).
    intros e p2 t2 He. eapply after_mono; [|apply deliver_accounts].
    intros p3 t3 H3. eapply accounts_weaken; [exact H3|done|done|]. destruct e.2; [done|cbn; lia]. }
  intros p2 t2 H2. cbv beta in H2.
  assert (H12 : accounts (length cs) (candidateIDs cs) (30 * length cs) p t p2 t2).
  { eapply accounts_trans; [exact H1|exact H2|lia| |lia].
    unfold candidateIDs. rewrite <- fmap_app. by rewrite Hperm. }
  assert (Hpurged : forall n t, accounts 0 [] 0 p2 t (p2 <| DispatchResult.Purged := n |>) t).
  { intros n t'. by apply counted. }
  eapply after_bind; [by apply (plain_call _ p2)|]. intros [purged [u|err]] t3 H3; cbv beta in H3.
  - eapply accounts_trans; [exact H12| |by rewrite Nat.add_0_r|by rewrite app_nil_r|].
    + eapply accounts_seq; [exact H3|apply Hpurged|done|reflexivity].
    + lia.
  - set (p3 := p2 <| DispatchResult.Purged := purged |>).
    eapply after_bind; [by apply (plain_call _ p3)|]. intros v t4 H4. cbv beta in H4.
    eapply accounts_trans; [exact H12| |by rewrite Nat.add_0_r|by rewrite app_nil_r|].
    + eapply accounts_seq; [exact H3| |done|reflexivity].
      eapply accounts_seq; [apply Hpurged|exact H4|done|reflexivity].
    + lia.
Qed.
End pass.

(** ** The wait before a retry *)

Lemma doubled_min n ceiling wait :
  (0 < wait)%Z -> (ceiling <= 2 ^ 62)%Z ->
  Z.min (doubled n ceiling wait) ceiling = Z.min (wait * 2 ^ Z.of_nat n) ceiling.
Proof.
  intros Hw Hc. revert wait Hw. induction n as [|n IH]; intros wait Hw; cbn [doubled].
  { f_equal. cbn. lia. }
  rewrite Nat2Z.inj_succ, Z.pow_succ_r by lia. case_decide as H.
  - rewrite wrap64_small by (unfold max_int64; lia). rewrite IH by lia. f_equal. lia.
  - assert (1 <= 2 ^ Z.of_nat n)%Z by (apply (Z.pow_le_mono_r 2 0); lia).
    rewrite !Z.min_r; [done|nia|lia].
Qed.

(** A ceiling beyond half the range of a duration makes the doubling overflow, and
    the retry due at once. *)
Lemma doubling_overflows :
  base_delay (defaultDispatcher <| EmailDispatcher.backoff := (2 ^ 62)%Z |>
                <| EmailDispatcher.ceiling := max_int64 |>) 2 = (- 2 ^ 63)%Z.
Proof. reflexivity. Qed.

(** * Properties *)

(** Whatever its ports answer, a pass comes to its end within thirty calls per
    notification claimed and four more, and a tally of what it claimed can be kept
    along it: what it counts under its outcomes, with what it released to the next
    pass and what it withheld because it could not record that it was sending it,
    adds up to what it claimed.  A notification released because its message was
    full is in no counter, and one whose lost record is counted as lost is also
    counted under what became of it, so the counters alone do not add up.
    The messages handed to the mailer cover claimed notifications only, each in
    one message at most; the messages accepted, and the notifications they cover,
    are those it counts as sent. *)
Theorem dispatch_accounts unrepresentable d :
  after (Dispatch_ unrepresentable d) (fun answer t =>
    match answer with
    | Err _ => claims t = [] /\ messages t = [] /\ calls t = 2
    | Ok p =>
        DispatchResult.Claimed p = length (claims t) /\
        outcomes p + released t + withheld t = length (claims t) /\
        calls t <= 30 * length (claims t) + 4 /\
        covered (messages t) ⊆+ candidateIDs (claims t) /\
        DispatchResult.Messages p = length (accepted (messages t)) /\
        DispatchResult.Sent p = length (covered (accepted (messages t)))
    end) Tally.zero.
Proof.
  unfold Dispatch_. eapply after_bind; [apply after_call; intros x t' Ht; exact Ht|].
  intros now t1 ->. eapply after_bind; [apply after_call; intros x t' Ht; exact Ht|].
  intros [cs|err] t2 ->; [|done]. cbn [app].
  eapply after_bind; [apply dispatch_claimed_accounts|].
  intros p t3 [T C L B (new & M & I & K & S)]. cbn in M, L.
  unfold after. cbn [wp]. rewrite L, M.
  split_and!; [exact C|exact T|cbn in B; lia|exact I|exact K|exact S].
Qed.

(** The wait before the retry after a number of attempts, its jitter aside, is
    exactly the back-off doubled for each earlier attempt and capped at the
    ceiling, for ceilings up to 2^62 nanoseconds. *)
Theorem email_backoff_exact d attempts :
  (0 < EmailDispatcher.backoff d <= EmailDispatcher.ceiling d)%Z ->
  (EmailDispatcher.ceiling d <= 2 ^ 62)%Z ->
  base_delay d attempts =
    Z.min (EmailDispatcher.backoff d * 2 ^ Z.of_nat (attempts - 1)) (EmailDispatcher.ceiling d) /\
  (EmailDispatcher.backoff d <= base_delay d attempts <= EmailDispatcher.ceiling d)%Z.
Proof.
  intros Hb Hc. unfold base_delay. rewrite doubled_min by lia. split; [done|].
  assert (1 <= 2 ^ Z.of_nat (attempts - 1))%Z by (apply (Z.pow_le_mono_r 2 0); lia).
  split; [apply Z.min_glb; [nia|lia]|apply Z.le_min_r].
Qed.

(** * At concrete inputs *)

From S2P Require Import NotifyStoreFacts NotifyInvariant NotifyEmailOnce NotifyExamples.
Import MemoryStore World.

(** Three notifications, active: two for ann, one for bob. *)
Definition published : MemoryStore.t :=
  Service.store (performs digest render parse [OpPublish 5000000 offers] begin).

Lemma published_ok : StoreOk published.
Proof.
  destruct (performs_keep digest render parse [OpPublish 5000000 offers] begin [] begin_ok)
    as (u & _ & H & _).
  apply (world_store _ _ H).
Qed.

Definition postman : EmailDispatcher.t := defaultDispatcher <| EmailDispatcher.owner := "post" |>.

(** Five minutes and a little after the notifications were created. *)
Definition noon : Time := (DefaultEmailGraceDelay + 6000000)%Z.

(** Ports that work. *)
Definition works (X : Type) (e : Port X) : World.t -> X * World.t :=
  match e in Port X return World.t -> X * World.t with
  | Now => fun w => (noon, w)
  | ClaimEmails claim => fun w => (Ok (ClaimEmails_ claim (store w)).1, claimed claim w)
  | RecordEmails record => fun w =>
      (Ok (RecordEmails_ record (store w)).1, recorded_by "post" record w)
  | PurgeEmailRecords limit => fun w =>
      (((PurgeEmailRecords_ limit (store w)).1, Ok tt), purged limit w)
  | GetNotification recipient id => fun w => (NotifyStore.Get recipient id (store w), w)
  | NewEmailID => fun w => (Ok ("m" +:+ pretty (length (log w))), w)
  | ShouldEmail n => fun w => (Ok true, w)
  | AddressOf recipient => fun w => (Ok (Some (recipient +:+ "@example.org")), w)
  | Render batch => fun w => (Ok (EmailContent.mk "Your tasks" "" "" ∅), w)
  | Send m => fun w => (None, handed m None w)
  | Draw => fun w => (float64 0, w)
  | OnError e => fun w => (tt, w)
  end.

Lemma works_does X (e : Port X) w : does "post" X e w (works X e w).1 (works X e w).2.
Proof. destruct e; cbn; auto. Qed.

Definition unrepresentable (f : spec_float) : Z := 0%Z.

Definition morning : World.t :=
  World.mk published [] (dom (notifications published) ∪ dom (deliveries published)) ∅.

Definition evening : World.t := (run works (Dispatch_ unrepresentable postman) morning).2.

Example evening_messages :
  (fun e => (EmailMessage.To e.1, EmailMessage.NotificationIDs e.1, e.2)) <$> log evening =
  [("ann@example.org", ["n0"; "n2"], None); ("bob@example.org", ["n1"], None)].
Proof. vm_compute. reflexivity. Qed.

Example evening_statuses :
  (fun e => (e.1, emailDelivery.status e.2)) <$> map_to_list (deliveries (store evening)) =
  [("n1", EmailStatusSent); ("n2", EmailStatusSent); ("n0", EmailStatusSent)].
Proof. vm_compute. reflexivity. Qed.

Lemma pass_runs :
  exists P, steps (pass_of unrepresentable) does outside (∅, morning) (P, evening).
Proof. apply (start_and_run _ _ _ "post" works); [exact works_does|by exists postman]. Qed.

(** * Witnesses *)

Definition first_claim : EmailClaim.t := claim_of postman noon.

Lemma email_claim_outcome_witness :
  NoDup (id_of <$> (ClaimEmails_ first_claim published).1) /\
  length (ClaimEmails_ first_claim published).1 = 3.
Proof.
  pose proof (email_claim_outcome first_claim published published_ok) as H. cbv zeta in H.
  split; [|vm_compute; reflexivity].
  destruct (ClaimEmails_ first_claim published) as [candidates s'] eqn:E.
  destruct H as (_ & _ & H & _). exact H.
Defined.

Definition rival : EmailClaim.t := EmailClaim.mk (noon + 1000000) "rival" Minute noon 0 10.

Lemma email_leases_hold_witness :
  "n0" ∉ id_of <$>
    (ClaimEmails_ rival (perform_emails [OpClaim rival; OpPurge 5]
                           (ClaimEmails_ first_claim published).2)).1.
Proof.
  assert (Hc : exists c rest, (ClaimEmails_ first_claim published).1 = c :: rest /\ id_of c = "n0").
  { do 2 eexists. vm_compute. split; reflexivity. }
  destruct Hc as (c & rest & Hc & <-).
  pose proof (email_leases_hold first_claim published [OpClaim rival; OpPurge 5] rival
                published_ok) as H.
  cbv zeta in H. destruct (ClaimEmails_ first_claim published) as [candidates s1].
  cbn [fst] in Hc. subst candidates. apply H.
  - repeat constructor.
  - vm_compute. reflexivity.
  - left.
Defined.

Lemma evening_in_order : DeliveriesOk (store evening).
Proof.
  intros id d Hd%elem_of_map_to_list.
  assert (H : Forall (fun e => DeliveryOk e.2) (map_to_list (deliveries (store evening)))).
  { vm_compute. repeat constructor; intros; try done; by destruct H. }
  rewrite Forall_forall in H. by apply (H (id, d)).
Qed.

Lemma evening_ok : StoreOk (store evening).
Proof.
  eapply StoreOk_rest; [|exact published_ok].
  assert (E : store evening = published <| deliveries := deliveries (store evening) |>)
    by (vm_compute; reflexivity).
  exact E.
Qed.

Lemma finished_emails_stay_witness :
  exists d, deliveries (store evening) !! "n1" = Some d /\
    deliveries (perform_emails [OpClaim rival; OpPurge 5] (store evening)) !! "n1" = Some d.
Proof.
  assert (Hd : exists d, deliveries (store evening) !! "n1" = Some d /\ finished d = true).
  { eexists. vm_compute. split; reflexivity. }
  destruct Hd as (d & Hd & Hf). exists d. split; [exact Hd|].
  apply (finished_emails_stay [OpClaim rival; OpPurge 5] rival (store evening) "n1" d).
  - exact evening_ok.
  - exact evening_in_order.
  - repeat constructor. discriminate.
  - eexists. vm_compute. reflexivity.
  - exact Hd.
  - exact Hf.
Defined.

Lemma email_backoff_exact_witness :
  base_delay defaultDispatcher 3 = (4 * Minute)%Z.
Proof.
  destruct (email_backoff_exact defaultDispatcher 3) as [H _].
  - vm_compute. split; [reflexivity|discriminate].
  - vm_compute. discriminate.
  - rewrite H. reflexivity.
Defined.

Lemma at_most_one_email_witness :
  exists m m', log evening = [(m, None); (m', None)] /\ covers m "n0" /\ ~ covers m' "n0".
Proof.
  assert (El : exists m m', log evening = [(m, None); (m', None)] /\ covers m "n0").
  { eexists _, _. split; [vm_compute; reflexivity|]. vm_compute. by left. }
  destruct pass_runs as [P HP]. destruct El as (m & m' & El & Hc).
  exists m, m'. split; [exact El|]. split; [exact Hc|].
  apply (at_most_one_email unrepresentable morning evening P [] m None [(m', None)] "n0")
    with (v' := None).
  - split; [apply StoreOk_Keyed, published_ok|]. split; [reflexivity|]. by split.
  - exact HP.
  - exact El.
  - reflexivity.
  - exact Hc.
  - by left.
Defined.
