(* ===== verification/TaskNotify.v ===== *)
(** * TaskNotify: turning task events into notifications

    Models [tasknotify/]: the projector, a relay sink that plans what an event
    opens and closes and has the notification service do it.  A host's own rules,
    titles, data and links are functions given to it; they answer the same for the
    same input.  What [sync.Once] memoizes per event is a value here. *)

From S2P Require Import Prelude Domain Errors Event Assignment Registry Service Relay.
From S2P Require Import Route Json Notification NotifyStore NotifyService.

(** ** Failures *)

(** An error on its way out of a projection: the engine's, the notification
    service's, an invalid plan, a host function's own with the sentinels it
    matches, or one of these with what was being done. *)
Inductive Failure : Type :=
| FromEngine (e : Errors.error)
| FromNotify (e : Notification.error)
| InvalidPlan (detail : string)
| FromHost (text : string) (engine : list Errors.Sentinel) (notify : list Notification.Sentinel)
| Within (prefix : string) (cause : Failure).

Fixpoint Failure_Error (f : Failure) : string :=
  match f with
  | FromEngine e => Errors.Error e
  | FromNotify e => Notification.Error e
  | InvalidPlan detail => "tasknotify: invalid plan: " +:+ detail
  | FromHost text _ _ => text
  | Within prefix cause => prefix +:+ ": " +:+ Failure_Error cause
  end.

(** [errors.Is] against [ErrInvalidPlan] and the sentinels of the two packages. *)
Fixpoint is_invalid_plan (f : Failure) : bool :=
  match f with
  | InvalidPlan _ => true
  | Within _ cause => is_invalid_plan cause
  | _ => false
  end.

Fixpoint is_notify (f : Failure) (s : Notification.Sentinel) : bool :=
  match f with
  | FromNotify e => Notification.errors_Is e s
  | FromHost _ _ own => contains own s
  | Within _ cause => is_notify cause s
  | _ => false
  end.

Fixpoint is_engine (f : Failure) (s : Errors.Sentinel) : bool :=
  match f with
  | FromEngine e => Errors.errors_Is e s
  | FromHost _ own _ => existsb (fun o => sentinel_is o s) own
  | Within _ cause => is_engine cause s
  | _ => false
  end.

Definition unfixable (f : Failure) : bool :=
  is_invalid_plan f ||
  is_notify f Notification.ErrValidation ||
  is_notify f Notification.ErrConfiguration ||
  is_engine f Errors.ErrConfiguration.

(** A failure as the relay sees it, by its text and what it matches. *)
Definition as_error (f : Failure) : Errors.error :=
  ExternalError (Failure_Error f)
    (filter (fun s => is_engine f s = true)
       [Errors.ErrConflict; ErrIllegalTransition; Errors.ErrNotFound; Errors.ErrValidation;
        ErrUnregisteredType; Errors.ErrUnauthorized; ErrGroupResolution; Errors.ErrConfiguration]).

Abbreviation outcome A := (result Failure A).

(** ** Names *)

Definition KindOffer : string := "offer".
Definition KindTaken : string := "taken".
Definition KindAssigned : string := "assigned".
Definition ReasonTaken : string := "taken".
Definition ReasonReleased : string := "released".
Definition ReasonReassigned : string := "reassigned".
Definition RelationTask : string := "task".
Definition RelationContext : string := "context".
Definition DefaultSinkName : string := "tasknotify".
Definition DefaultPublishBatch : Z := 500.
Definition DefaultTaskLinkTemplate : string := "/v1/tasks/{task.id}".

Definition defaultClosingStatuses : list Status :=
  [StatusCompleted; StatusFailed; StatusError; StatusExited; StatusObsolete].

(** ** Plans and what they are built from *)

Module Step.
Record t : Type := mk { Close : option CloseRequest.t; Publish : list Draft.t }.
End Step.

(** [Plan]: its steps. *)
Definition Plan : Type := list Step.t.

Module DraftInput.
Record t : Type := mk { Event : Event.t; Kind : string; Recipient : string }.
End DraftInput.

Definition TitleFunc : Type := DraftInput.t -> outcome string.
Definition DataFunc : Type := DraftInput.t -> outcome string.
Definition LinksFunc : Type := DraftInput.t -> outcome (gmap string string).

Module Input.
Record t : Type := mk {
  Event : Event.t;
  Eligible : outcome (list string);
  Draft : string -> string -> outcome Draft.t;
  Closing : bool
}.
End Input.

Definition Rules : Type := Input.t -> outcome Plan.

(** ** The default rules *)

(** [closingReasons[status]], empty for a status it does not name. *)
Definition closingReasons (status : Status) : string :=
  match status with
  | StatusCompleted => "completed"
  | StatusFailed => "failed"
  | StatusError => "errored"
  | StatusExited => "cancelled"
  | StatusObsolete => "obsoleted"
  | _ => ""
  end.

Definition plan (steps : list Step.t) : Plan := steps.

Definition closing_step (req : CloseRequest.t) : Step.t := Step.mk (Some req) [].
Definition publish_step (drafts : list Draft.t) : Step.t := Step.mk None drafts.

(** The loop of [offers] over the eligible actors. *)
Fixpoint offer_drafts (input : Input.t) (coalesce : bool) (eligible : list string)
  : outcome (list Draft.t) :=
  match eligible with
  | [] => Ok []
  | actor :: rest =>
      try! draft := Input.Draft input actor KindOffer in
      let draft := draft <| Draft.Coalesce := coalesce |> in
      try! drafts := offer_drafts input coalesce rest in
      Ok (draft :: drafts)
  end.

Definition offers (input : Input.t) (coalesce : bool) : outcome Plan :=
  try! eligible := Input.Eligible input in
  try! drafts := offer_drafts input coalesce eligible in
  match drafts with
  | [] => Ok []
  | _ => Ok (plan [publish_step drafts])
  end.

Definition assignment (input : Input.t) : outcome Plan :=
  let event := Input.Event input in
  let holder := Event.Assignee event in
  if decide (holder = "" \/ holder = Event.Actor event) then Ok []
  else
    try! draft := Input.Draft input holder KindAssigned in
    Ok (plan [publish_step [draft]]).

Definition successor_of (d : Draft.t) : Successor.t := {|
  Successor.SourceID := Draft.SourceID d; Successor.Kind := Draft.Kind d;
  Successor.Title := Draft.Title d; Successor.SubjectVersion := Draft.SubjectVersion d;
  Successor.Links := Draft.Links d; Successor.Data := Draft.Data d |}.

(** A close of the event's task at its version. *)
Definition close_at (event : Event.t) (kinds : list string) (reason except : string)
    (successor : option Successor.t) (skip : list string) : Step.t :=
  closing_step {|
    CloseRequest.Subject := Event.TaskID event; CloseRequest.Kinds := kinds;
    CloseRequest.Version := Event.Version event; CloseRequest.Reason := reason;
    CloseRequest.Except := except; CloseRequest.Successor_ := successor;
    CloseRequest.SuccessorSkip := skip |}.

Definition defaultPlan (input : Input.t) : outcome Plan :=
  let event := Input.Event input in
  if Input.Closing input
  then Ok (plan [close_at event [] (closingReasons (Event.Status event)) "" None []])
  else
    match Event.Type_ event with
    | EventTypeCreated =>
        match Event.Status event with
        | StatusReady => offers input false
        | StatusReserved => assignment input
        | _ => Ok []
        end
    | EventTypeClaimed =>
        try! successor := Input.Draft input "" KindTaken in
        Ok (plan [close_at event [KindOffer] ReasonTaken "" (Some (successor_of successor))
                    [Event.Actor event]])
    | EventTypeReleased =>
        try! offered := offers input false in
        Ok (plan (close_at event [KindTaken; KindAssigned] ReasonReleased "" None [] :: offered))
    | EventTypeDelegated =>
        try! assigned := assignment input in
        Ok (plan (close_at event [KindAssigned] ReasonReassigned (Event.Assignee event) None []
                    :: assigned))
    | EventTypeEscalated =>
        if decide (Event.Status event <> StatusReady) then Ok [] else offers input true
    | _ => Ok []
    end.

Definition DefaultRules : Rules := defaultPlan.

(** ** The projector *)

Module Projector.
(** The engine it reads the directory and the registry of; the notification
    service it drives is the state of [Deliver]. *)
Record t : Type := mk {
  engine : option Service.Service.t;
  name : string;
  batch : Z;
  taskLink : string;
  closing : list Status;
  rules : Rules;
  titles : option TitleFunc;
  data : option DataFunc;
  links : option LinksFunc;
  problems : list string
}.
#[global] Instance eta : Eta t := fun x =>
  mk (engine x) (name x) (batch x) (taskLink x) (closing x) (rules x) (titles x) (data x)
    (links x) (problems x).
End Projector.

Definition problem (detail : string) (p : Projector.t) : Projector.t :=
  p <| Projector.problems := Projector.problems p ++ [detail] |>.

(** An option; a host's function is none when nil. *)
Inductive Option : Type :=
| WithSinkName (name : string)
| WithPublishBatch (n : Z)
| WithTaskLinkTemplate (template : string)
| WithClosingStatuses (statuses : list Status)
| WithRules (rules : option Rules)
| WithTitles (titles : option TitleFunc)
| WithData (data : option DataFunc)
| WithLinks (links : option LinksFunc)
| WithErrorHandler (handler : bool).   (* whether one was given *)

(** The body of [WithClosingStatuses]. *)
Definition set_closing (statuses : list Status) (p : Projector.t) : Projector.t :=
  match statuses with
  | [] =>
      problem "WithClosingStatuses was given no statuses; omit it to close on every final status" p
  | _ =>
      match list_find (fun s => IsTerminal s = false) statuses with
      | Some (_, status) =>
          problem ("WithClosingStatuses was given " +:+ Status_String status +:+
                   ", which is not a final status") p
      | None =>
          match list_find (fun required => required ∉ statuses)
                  [StatusCompleted; StatusExited] with
          | Some (_, required) =>
              problem ("WithClosingStatuses must include " +:+ Status_String required) p
          | None => p <| Projector.closing := statuses |>
          end
      end
  end.

Definition apply_projector_option (opt : Option) (p : Projector.t) : Projector.t :=
  match opt with
  | WithSinkName name =>
      if decide (name = "")
      then problem ("WithSinkName was given an empty name; omit it to use " +:+ DefaultSinkName) p
      else p <| Projector.name := name |>
  | WithPublishBatch n =>
      if decide (n < 1)%Z then problem "WithPublishBatch needs a batch of at least one" p
      else p <| Projector.batch := n |>
  | WithTaskLinkTemplate template =>
      if decide (template = "")
      then problem "WithTaskLinkTemplate was given an empty template; use WithLinks to omit the task link" p
      else p <| Projector.taskLink := template |>
  | WithClosingStatuses statuses => set_closing statuses p
  | WithRules None => problem "WithRules was given no rules; omit it to use DefaultRules" p
  | WithRules (Some rules) => p <| Projector.rules := rules |>
  | WithTitles None => problem "WithTitles was given no func; omit it to use the default titles" p
  | WithTitles (Some titles) => p <| Projector.titles := Some titles |>
  | WithData None => problem "WithData was given no func; omit it to use the default data" p
  | WithData (Some data) => p <| Projector.data := Some data |>
  | WithLinks None => problem "WithLinks was given no func; omit it to use the default links" p
  | WithLinks (Some links) => p <| Projector.links := Some links |>
  | WithErrorHandler false =>
      problem "WithErrorHandler was given no handler; omit it to discard reported failures" p
  | WithErrorHandler true => p
  end.

(** [New], given the engine and whether there is a notification service. *)
Definition New (engine : option Service.Service.t) (notifier : bool) (opts : list (option Option))
  : Errors.res Projector.t :=
  let p := Projector.mk engine DefaultSinkName DefaultPublishBatch DefaultTaskLinkTemplate
             defaultClosingStatuses DefaultRules None None None [] in
  let p := match engine with None => problem "an engine is required" p | Some _ => p end in
  let p := if notifier then p else problem "a notification service is required" p in
  let p := for_each (fun opt p =>
    match opt with Some opt => apply_projector_option opt p | None => p end) opts p in
  if decide (0 < length (Projector.problems p))
  then Err (Errors.ConfigurationError
              ("tasknotify: " +:+ String.concat "; " (Projector.problems p)))
  else Ok p.

Definition Name (p : Projector.t) : string := Projector.name p.

Definition closes_on (p : Projector.t) (status : Status) : bool :=
  contains (Projector.closing p) status.

(** ** Content *)

Definition defaultTitle (input : DraftInput.t) : string :=
  let event := DraftInput.Event input in
  if decide (DraftInput.Kind input = KindOffer) then "Task available: " +:+ Event.TaskType event
  else if decide (DraftInput.Kind input = KindTaken)
  then "Task taken by " +:+ Event.Actor event +:+ ": " +:+ Event.TaskType event
  else if decide (DraftInput.Kind input = KindAssigned)
  then "Task assigned to you: " +:+ Event.TaskType event
  else "".

Definition titleFor (p : Projector.t) (input : DraftInput.t) : outcome string :=
  match Projector.titles p with
  | Some titles => titles input
  | None => Ok (defaultTitle input)
  end.

(** The fields of [payload], in order. *)
Definition payload (event : Event.t) : list Field :=
  let correlation := Event.Correlation event in
  [("taskId", Event.TaskID event, false);
   ("taskType", Event.TaskType event, false);
   ("eventType", EventType_String (Event.Type_ event), false);
   ("status", Status_String (Event.Status event), false);
   ("actor", Event.Actor event, false);
   ("previousAssignee", Event.PreviousAssignee event, true);
   ("ownerType", CorrelationData.OwnerType correlation, true);
   ("ownerRef", CorrelationData.OwnerRef correlation, true);
   ("activityKey", CorrelationData.ActivityKey correlation, true)].

Definition defaultData (event : Event.t) : string := marshal_object (payload event).

Definition dataFor (p : Projector.t) (input : DraftInput.t) : outcome string :=
  match Projector.data p with
  | Some data => data input
  | None => Ok (defaultData (DraftInput.Event input))
  end.

(** The task an event describes, its other fields zero. *)
Definition taskOf (event : Event.t) : Task.t := {|
  Task.ID := Event.TaskID event; Task.Type_ := Event.TaskType event; Task.Version := 0;
  Task.Status := StatusNone; Task.SuspendedFrom := StatusNone; Task.Priority := 0;
  Task.Assignee := ""; Task.Candidates := CandidatePool.empty;
  Task.Correlation := Event.Correlation event; Task.Callback := None; Task.Escalation := None;
  Task.Input := None; Task.Progress := None; Task.Output := None; Task.Reason := "";
  Task.CreatedBy := ""; Task.EscalationCount := 0; Task.CreatedAt := 0; Task.UpdatedAt := 0;
  Task.DueAt := None; Task.StartedAt := None; Task.ClosedAt := None; Task.EscalatedAt := None;
  Task.LockedBy := ""; Task.LockedUntil := None |}.

(** [p.engine.Registry()] and its directory; a projector is not built without an
    engine. *)
Definition registry_of (p : Projector.t) : Registry :=
  match Projector.engine p with Some e => Service.Service.registry e | None => ∅ end.

Definition resolver_of (p : Projector.t) : option GroupResolver.t :=
  match Projector.engine p with Some e => Service.Service.resolver e | None => None end.

Definition defaultLinks (p : Projector.t) (event : Event.t) : gmap string string :=
  let task := taskOf event in
  let links := {[RelationTask := ExpandRoute (Projector.taskLink p) task]} in
  match Registry.Lookup (registry_of p) (Event.TaskType event) with
  | Err _ => links
  | Ok spec =>
      let route := default "" (TypeSpec.Metadata spec !! MetadataRoute) in
      if decide (route <> "") then <[RelationContext := ExpandRoute route task]> links else links
  end.

Definition linksFor (p : Projector.t) (input : DraftInput.t) : outcome (gmap string string) :=
  match Projector.links p with
  | Some links => links input
  | None => Ok (defaultLinks p (DraftInput.Event input))
  end.

Definition draft (p : Projector.t) (input : DraftInput.t) : outcome Draft.t :=
  let event := DraftInput.Event input in
  try! title := titleFor p input in
  try! links := linksFor p input in
  try! data := dataFor p input in
  Ok {| Draft.Recipient := DraftInput.Recipient input; Draft.SourceID := Event.ID event;
        Draft.Subject := Event.TaskID event; Draft.Kind := DraftInput.Kind input;
        Draft.Title := title; Draft.SubjectVersion := Event.Version event;
        Draft.Links := links; Draft.Data := data; Draft.Coalesce := false |}.

(** The pool expanded once per event, without the actor of the event. *)
Definition eligible_for (p : Projector.t) (event : Event.t) : outcome (list string) :=
  match ResolveCandidates (resolver_of p) (Event.Candidates event) with
  | Err e => Err (FromEngine e)
  | Ok resolved => Ok (filter (fun actor => actor <> Event.Actor event) resolved)
  end.

Definition input (p : Projector.t) (event : Event.t) : Input.t := {|
  Input.Event := event;
  Input.Eligible := eligible_for p event;
  Input.Draft := fun recipient kind => draft p (DraftInput.mk event kind recipient);
  Input.Closing := closes_on p (Event.Status event) |}.

(** ** Delivery *)

(** [chunks]: the batches a slice is published in; [fuel] turns, each taking at
    least one draft, as a batch is at least one. *)
Fixpoint chunks (fuel : nat) (drafts : list Draft.t) (size : Z) : list (list Draft.t) :=
  match fuel, drafts with
  | S fuel, _ :: _ =>
      take (Z.to_nat size) drafts :: chunks fuel (drop (Z.to_nat size) drafts) size
  | _, _ => []
  end.

(** The loop over the steps of a plan. *)
Fixpoint first_misplaced (subject : string) (drafts : list Draft.t) : option string :=
  match drafts with
  | [] => None
  | d :: rest =>
      if decide (Draft.Subject d <> subject) then Some (Draft.Subject d)
      else first_misplaced subject rest
  end.

Definition check_step (subject : string) (i : nat) (step : Step.t) : outcome unit :=
  let both_or_neither :=
    eqb (bool_decide (Step.Close step = None)) (bool_decide (length (Step.Publish step) = 0)) in
  if both_or_neither
  then Err (InvalidPlan ("step " +:+ pretty i +:+ " must be exactly one of a close or a publish"))
  else
    let closed := CloseRequest.Subject <$> Step.Close step in
    match closed with
    | Some other =>
        if decide (other <> subject)
        then Err (InvalidPlan ("step " +:+ pretty i +:+ " closes task " +:+ quote other +:+
                               ", not the event's task " +:+ quote subject))
        else Ok tt
    | None =>
        match first_misplaced subject (Step.Publish step) with
        | Some other =>
            Err (InvalidPlan ("step " +:+ pretty i +:+ " drafts on task " +:+ quote other +:+
                              ", not the event's task " +:+ quote subject))
        | None => Ok tt
        end
    end.

Fixpoint check_steps (subject : string) (i : nat) (steps : Plan) : outcome unit :=
  match steps with
  | [] => Ok tt
  | step :: rest =>
      try! _ := check_step subject i step in
      check_steps subject (S i) rest
  end.

Definition validatePlan (event : Event.t) (steps : Plan) : outcome unit :=
  check_steps (Event.TaskID event) 0 steps.

Section delivery.
Context {G D B : Type} `{!Notification.IDGenerator G, !NotifyService.Store D, !Broadcaster B}.
Abbreviation Svc := (NotifyService.Service.t G D B).

(** The loop over the batches of a step.  [clock n] is what the notification
    service reads at its [n]-th call. *)
Fixpoint publish_batches (clock : nat -> Time) (n : nat) (batches : list (list Draft.t)) (s : Svc)
  : outcome nat * Svc :=
  match batches with
  | [] => (Ok n, s)
  | batch :: rest =>
      let '(_, failure, s) := NotifyService.Publish (clock n) batch s in
      match failure with
      | Err e => (Err (FromNotify e), s)
      | Ok _ => publish_batches clock (S n) rest s
      end
  end.

Definition run_step (clock : nat -> Time) (size : Z) (n : nat) (step : Step.t) (s : Svc)
  : outcome nat * Svc :=
  match Step.Close step with
  | Some req =>
      match NotifyService.Close (clock n) req s with
      | (Err e, s) => (Err (FromNotify e), s)
      | (Ok _, s) => (Ok (S n), s)
      end
  | None =>
      let drafts := Step.Publish step in
      publish_batches clock n (chunks (length drafts) drafts size) s
  end.

Fixpoint run_steps (clock : nat -> Time) (size : Z) (n : nat) (steps : Plan) (s : Svc)
  : outcome nat * Svc :=
  match steps with
  | [] => (Ok n, s)
  | step :: rest =>
      match run_step clock size n step s with
      | (Err f, s) => (Err f, s)
      | (Ok n, s) => run_steps clock size n rest s
      end
  end.

Definition project (p : Projector.t) (clock : nat -> Time) (event : Event.t) (s : Svc)
  : outcome unit * Svc :=
  match Projector.rules p (input p event) with
  | Err f => (Err f, s)
  | Ok steps =>
      match validatePlan event steps with
      | Err f => (Err f, s)
      | Ok _ =>
          let '(r, s) := run_steps clock (Projector.batch p) 0 steps s in
          ((try! _ := r in Ok tt), s)
      end
  end.

(** [Deliver]: the outcome, what is handed to the error handler, and the state. *)
Definition Deliver (p : Projector.t) (clock : nat -> Time) (attempt : Attempt.t) (s : Svc)
  : Outcome.t * list Failure * Svc :=
  let event := Attempt.Event attempt in
  match project p clock event s with
  | (Ok _, s) => (Outcome.Delivered, [], s)
  | (Err f, s) =>
      let f := Within ("tasknotify: project event " +:+ Event.ID event +:+ " on task " +:+
                       Event.TaskID event) f in
      if negb (unfixable f) then (Outcome.Retryable (as_error f), [], s)
      else (Outcome.Delivered, [f], s)
  end.
End delivery.
