(* ===== verification/TaskNotifyFacts.v ===== *)
(** * TaskNotifyFacts: what a projector does to the notifications of a task

    The default rules keep the contract of [Rules]; a delivery's outcome; once a
    closing event was delivered a task stays silent; and what a delivery has settled
    another, with the directory of groups as it is by then, finds settled. *)

From S2P Require Import Prelude Domain Errors Event Assignment Registry Service Relay.
From S2P Require Import Route Json Notification Collections NotifyStore NotifyStoreFacts.
From S2P Require Import NotifyService NotifyInvariant TaskNotify.

Import MemoryStore.

(** ** The default rules *)

(** Every draft of a plan. *)
Definition drafts_of (steps : Plan) : list Draft.t := concat (Step.Publish <$> steps).

(** A draft built for an event: on its task, at its version, sourced from it. *)
Record DraftFor (event : Event.t) (recipient kind : string) (d : Draft.t) : Prop := {
  for_recipient : Draft.Recipient d = recipient;
  for_kind : Draft.Kind d = kind;
  for_subject : Draft.Subject d = Event.TaskID event;
  for_version : Draft.SubjectVersion d = Event.Version event;
  for_source : Draft.SourceID d = Event.ID event
}.

Lemma draft_for p event recipient kind d :
  Input.Draft (input p event) recipient kind = Ok d -> DraftFor event recipient kind d.
Proof.
  cbn. unfold draft. intros (t & _ & (l & _ & (dt & _ & [= <-])%rbind_ok)%rbind_ok)%rbind_ok.
  by constructor.
Qed.

Lemma offer_drafts_for p event coalesce actors l :
  offer_drafts (input p event) coalesce actors = Ok l ->
  Forall2 (fun actor d => DraftFor event actor KindOffer d /\ Draft.Coalesce d = coalesce) actors l.
Proof.
  revert l. induction actors as [|actor actors IH]; intros l; cbn [offer_drafts].
  { intros [= <-]. constructor. }
  intros (d & Hd & (rest & Hr & [= <-])%rbind_ok)%rbind_ok. constructor; [|by apply IH].
  apply draft_for in Hd. split; [|done]. by destruct Hd.
Qed.

Lemma eligible_for_spec p event l : eligible_for p event = Ok l ->
  NoDup l /\ Event.Actor event ∉ l.
Proof.
  unfold eligible_for.
  destruct (ResolveCandidates _ _) as [resolved|e] eqn:Er; [|done]. intros [= <-].
  apply ResolveCandidates_ok in Er as (_ & Hnd & _). split.
  - by apply NoDup_filter.
  - rewrite list_elem_of_filter. naive_solver.
Qed.

(** Drafts that tell others than the actor, each once, of the event. *)
Record Told (event : Event.t) (drafts : list Draft.t) : Prop := {
  told_some : drafts <> [];
  told_once : NoDup (Draft.Recipient <$> drafts);
  told_for d : d ∈ drafts -> DraftFor event (Draft.Recipient d) (Draft.Kind d) d;
  told_others d : d ∈ drafts -> Draft.Recipient d <> Event.Actor event
}.

(** A close of the event's task at its version, whose successors tell others than
    the actor and are of no kind it closes. *)
Record Retires (event : Event.t) (req : CloseRequest.t) : Prop := {
  retires_subject : CloseRequest.Subject req = Event.TaskID event;
  retires_version : CloseRequest.Version req = Event.Version event;
  retires_skip sc : CloseRequest.Successor_ req = Some sc ->
    Event.Actor event ∈ CloseRequest.SuccessorSkip req;
  retires_successor sc : CloseRequest.Successor_ req = Some sc ->
    ~ covers req (Successor.Kind sc) /\ Successor.SourceID sc = Event.ID event /\
    Successor.SubjectVersion sc = Event.Version event
}.

(** What a close leaves alone whatever is held. *)
Definition spares_draft (req : CloseRequest.t) (d : Draft.t) : Prop :=
  ~ covers req (Draft.Kind d) \/
  (CloseRequest.Except req <> "" /\ Draft.Recipient d = CloseRequest.Except req).

Inductive Shaped (event : Event.t) : Plan -> Prop :=
| shaped_none : Shaped event []
| shaped_publish drafts : Told event drafts -> Shaped event [publish_step drafts]
| shaped_close req : Retires event req -> Shaped event [closing_step req]
| shaped_both req drafts :
    Retires event req -> Told event drafts -> CloseRequest.Successor_ req = None ->
    (forall d, d ∈ drafts -> spares_draft req d) ->
    Shaped event [closing_step req; publish_step drafts].

Lemma retires_plain event kinds reason except :
  Retires event {| CloseRequest.Subject := Event.TaskID event; CloseRequest.Kinds := kinds;
    CloseRequest.Version := Event.Version event; CloseRequest.Reason := reason;
    CloseRequest.Except := except; CloseRequest.Successor_ := None;
    CloseRequest.SuccessorSkip := [] |}.
Proof. by constructor. Qed.

Lemma offers_shape p event coalesce steps : offers (input p event) coalesce = Ok steps ->
  steps = [] \/
  exists drafts, steps = [publish_step drafts] /\ Told event drafts /\
    forall d, d ∈ drafts -> Draft.Kind d = KindOffer.
Proof.
  unfold offers.
  intros (actors & Ha & (drafts & Hd & Hs)%rbind_ok)%rbind_ok.
  apply eligible_for_spec in Ha as [Hnd Hactor]. apply offer_drafts_for in Hd.
  destruct drafts as [|d0 rest]; injection Hs as <-; [by left|right].
  exists (d0 :: rest). set (drafts := d0 :: rest) in *.
  assert (Hr : Draft.Recipient <$> drafts = actors).
  { clear -Hd. induction Hd as [|actor d actors l [Hd _] _ IH]; [done|]. cbn.
    by rewrite IH, (for_recipient _ _ _ _ Hd). }
  assert (Hin : forall d, d ∈ drafts -> exists actor, actor ∈ actors /\ DraftFor event actor KindOffer d).
  { intros d [k Hk]%list_elem_of_lookup. destruct (Forall2_lookup_r _ _ _ _ _ Hd Hk) as (actor & Hak & ? & _).
    exists actor. split; [by eapply list_elem_of_lookup_2|done]. }
  split_and!; [done| |].
  - constructor.
    + done.
    + by rewrite Hr.
    + intros d (actor & _ & H)%Hin. by rewrite (for_recipient _ _ _ _ H), (for_kind _ _ _ _ H).
    + intros d (actor & Hact & H)%Hin. rewrite (for_recipient _ _ _ _ H). by intros ->.
  - intros d (actor & _ & H)%Hin. by apply for_kind in H.
Qed.

Lemma assignment_shape p event steps : assignment (input p event) = Ok steps ->
  steps = [] \/
  exists d, steps = [publish_step [d]] /\ Told event [d] /\ Event.Assignee event <> "" /\
    DraftFor event (Event.Assignee event) KindAssigned d.
Proof.
  unfold assignment. case_decide as Eh; [intros [= <-]; by left|].
  intros (d & Hd & [= <-])%rbind_ok. right. exists d. apply draft_for in Hd. cbn in Hd, Eh.
  split_and!; [done| |naive_solver|done].
  constructor; [done|apply NoDup_singleton|..].
  - intros x ->%list_elem_of_singleton. by rewrite (for_recipient _ _ _ _ Hd), (for_kind _ _ _ _ Hd).
  - intros x ->%list_elem_of_singleton. rewrite (for_recipient _ _ _ _ Hd). naive_solver.
Qed.

Lemma default_shape p event steps : defaultPlan (input p event) = Ok steps -> Shaped event steps.
Proof.
  unfold defaultPlan. cbn [Input.Closing Input.Event input].
  destruct (closes_on p (Event.Status event)); [intros [= <-]; apply shaped_close, retires_plain|].
  assert (Hoffers : forall coalesce, offers (input p event) coalesce = Ok steps -> Shaped event steps).
  { intros coalesce [->|(drafts & -> & Ht & _)]%offers_shape; by constructor. }
  destruct (Event.Type_ event); try (intros [= <-]; constructor; fail).
  - destruct (Event.Status event); try (intros [= <-]; constructor; fail); [apply Hoffers|].
    intros [->|(d & -> & Ht & _)]%assignment_shape; by constructor.
  - intros (d & Hd & [= <-])%rbind_ok. apply draft_for in Hd. apply shaped_close.
    constructor; [done|done|by left|]. intros sc [= <-]. cbn. split_and!.
    + intros [|Hin]; [done|]. apply list_elem_of_singleton in Hin.
      rewrite (for_kind _ _ _ _ Hd) in Hin. done.
    + apply Hd.
    + apply Hd.
  - intros (offered & Ho & [= <-])%rbind_ok.
    apply offers_shape in Ho as [->|(drafts & -> & Ht & Hk)]; [apply shaped_close, retires_plain|].
    apply shaped_both; [apply retires_plain|done|done|]. intros d Hd. left. cbn.
    rewrite (Hk d Hd). intros [|Hin]; [done|]. cbn in Hin. set_solver.
  - intros (assigned & Ha & [= <-])%rbind_ok.
    apply assignment_shape in Ha as [->|(d & -> & Ht & Hne & Hd)];
      [apply shaped_close, retires_plain|].
    apply shaped_both; [apply retires_plain|done|done|].
    intros x ->%list_elem_of_singleton. right. split; [done|]. apply Hd.
  - case_decide; [intros [= <-]; constructor|apply Hoffers].
Qed.

(** ** Planning again *)

(** A projector whose engine has another directory of groups. *)
Definition with_directory (r : option GroupResolver.t) (p : Projector.t) : Projector.t :=
  p <| Projector.engine := (fun e : Service.Service.t => e <| Service.Service.resolver := r |>) <$>
                             Projector.engine p |>.

(** Only the pool expands to something else. *)
Lemma input_with_directory r p event :
  Input.Event (input (with_directory r p) event) = event /\
  Input.Closing (input (with_directory r p) event) = Input.Closing (input p event) /\
  Input.Draft (input (with_directory r p) event) = Input.Draft (input p event).
Proof. by destruct p as [[e|] ?????????]. Qed.

(** The step that publishes some drafts, none without. *)
Definition publishing (drafts : list Draft.t) : Plan :=
  match drafts with [] => [] | _ => [publish_step drafts] end.

(** Two plans that differ at most in their offers: those of the second are to whom
    its pool expanded to, and an offer the first had too is the same in both. *)
Definition replanned (first second : Input.t) (steps steps' : Plan) : Prop :=
  steps' = steps \/
  exists closes drafts drafts' actors actors',
    steps = closes ++ publishing drafts /\ steps' = closes ++ publishing drafts' /\
    Forall (fun step => is_Some (Step.Close step)) closes /\
    Input.Eligible first = Ok actors /\ Input.Eligible second = Ok actors' /\
    forall d, d ∈ drafts' -> Draft.Recipient d ∈ actors' /\ Draft.Kind d = KindOffer /\
      (Draft.Recipient d ∈ actors -> d ∈ drafts).

(** A draft of an offer is what the input makes of one of the actors. *)
Lemma offer_drafts_made i coalesce actors l : offer_drafts i coalesce actors = Ok l ->
  forall d, d ∈ l <-> exists actor draft, actor ∈ actors /\
    Input.Draft i actor KindOffer = Ok draft /\ d = draft <| Draft.Coalesce := coalesce |>.
Proof.
  revert l. induction actors as [|actor actors IH]; intros l; cbn [offer_drafts].
  { intros [= <-] d. split; [by intros ?%elem_of_nil|by intros (? & ? & ?%elem_of_nil & _)]. }
  intros (d0 & Hd & (rest & Hr & [= <-])%rbind_ok)%rbind_ok d. rewrite elem_of_cons, (IH rest Hr d).
  setoid_rewrite elem_of_cons. split.
  - intros [->|(a & x & ? & ? & ?)]; [by exists actor, d0; auto|by exists a, x; auto].
  - intros (a & x & [->|?] & Hx & ->); [left|right; by exists a, x].
    by assert (x = d0) as -> by congruence.
Qed.

Lemma offers_replanned r p event coalesce closes steps steps' :
  let first := input p event in let second := input (with_directory r p) event in
  Forall (fun step => is_Some (Step.Close step)) closes ->
  offers first coalesce = Ok steps -> offers second coalesce = Ok steps' ->
  replanned first second (closes ++ steps) (closes ++ steps').
Proof.
  cbv zeta. intros Hcl. unfold offers.
  intros (actors & Ha & (drafts & Hd & Hs)%rbind_ok)%rbind_ok.
  intros (actors' & Ha' & (drafts' & Hd' & Hs')%rbind_ok)%rbind_ok.
  assert (Es : steps = publishing drafts) by (destruct drafts; by injection Hs).
  assert (Es' : steps' = publishing drafts') by (destruct drafts'; by injection Hs').
  right. exists closes, drafts, drafts', actors, actors'. subst. split_and!; try done.
  intros d (a & x & Hin & Hx & ->)%(offer_drafts_made _ _ _ _ Hd').
  rewrite (proj2 (proj2 (input_with_directory r p event))) in Hx.
  pose proof (draft_for _ _ _ _ _ Hx) as [Hr Hk _ _ _]. cbn. rewrite Hr. split_and!; [done..|].
  intros Hina. apply (offer_drafts_made _ _ _ _ Hd). subst a. by exists (Draft.Recipient x), x.
Qed.

(** With another directory the default rules differ at most in their offers. *)
Lemma default_replanned r p event steps steps' :
  defaultPlan (input p event) = Ok steps ->
  defaultPlan (input (with_directory r p) event) = Ok steps' ->
  replanned (input p event) (input (with_directory r p) event) steps steps'.
Proof.
  pose proof (input_with_directory r p event) as (Ee & Ec & Ed).
  assert (Easg : assignment (input (with_directory r p) event) = assignment (input p event))
    by (unfold assignment; by rewrite Ed).
  assert (Hsame : forall o : outcome Plan, o = Ok steps -> o = Ok steps' ->
            replanned (input p event) (input (with_directory r p) event) steps steps')
    by (intros ? -> [= ->]; by left).
  unfold defaultPlan. rewrite Ec, Ee, Ed, Easg. cbn [Input.Event input].
  destruct (Input.Closing _); [apply Hsame|].
  destruct (Event.Type_ event); try apply Hsame.
  - destruct (Event.Status event); try apply Hsame. intros H1 H2.
    by apply (offers_replanned r p event false [] steps steps').
  - intros (o & Ho & [= <-])%rbind_ok (o' & Ho' & [= <-])%rbind_ok.
    apply (offers_replanned r p event false [_] o o'); [|done..].
    apply Forall_singleton. by eexists.
  - case_decide; [apply Hsame|]. intros H1 H2.
    by apply (offers_replanned r p event true [] steps steps').
Qed.

(** A plan in shape passes the projector's check. *)
Lemma first_misplaced_none subject drafts :
  first_misplaced subject drafts = None <-> forall d, d ∈ drafts -> Draft.Subject d = subject.
Proof.
  induction drafts as [|d drafts IH]; cbn [first_misplaced].
  { split; [by intros _ d ?%elem_of_nil|done]. }
  case_decide as E; [split; [done|intros H; destruct E; apply H; left]|].
  rewrite IH. split; intros H x; [intros [->|Hx]%elem_of_cons|]; auto.
  intros Hx. apply H. by right.
Qed.

Lemma shaped_valid event steps : Shaped event steps -> validatePlan event steps = Ok tt.
Proof.
  intros Hs. unfold validatePlan.
  assert (Hclose : forall req i, Retires event req ->
            check_step (Event.TaskID event) i (closing_step req) = Ok tt).
  { intros req i Hr. unfold check_step. cbn. by rewrite (retires_subject _ _ Hr), decide_False by naive_solver. }
  assert (Hpub : forall drafts i, Told event drafts ->
            check_step (Event.TaskID event) i (publish_step drafts) = Ok tt).
  { intros drafts i Ht. unfold check_step. cbn. pose proof (told_some _ _ Ht) as Hne.
    destruct drafts as [|d rest]; [done|]. cbn [length].
    assert (Hm : first_misplaced (Event.TaskID event) (d :: rest) = None).
    { apply first_misplaced_none. intros x Hx. by apply (told_for _ _ Ht x Hx). }
    by rewrite Hm. }
  destruct Hs as [|drafts Ht|req Hr|req drafts Hr Ht _ _]; cbn [check_steps];
    rewrite ?Hclose, ?Hpub by done; cbn [rbind check_steps]; by rewrite ?Hpub.
Qed.

(** ** Batches *)

Lemma chunks_join fuel drafts size : (1 <= size)%Z -> length drafts <= fuel ->
  concat (chunks fuel drafts size) = drafts /\
  forall batch, batch ∈ chunks fuel drafts size ->
    batch <> [] /\ (Z.of_nat (length batch) <= size)%Z.
Proof.
  intros Hs. revert drafts. induction fuel as [|fuel IH]; intros [|d rest] Hlen; cbn in Hlen;
    try lia; cbn [chunks]; try by (split; [done|by intros ? ?%elem_of_nil]).
  destruct (IH (drop (Z.to_nat size) (d :: rest))) as [Hj Hb].
  { rewrite length_drop. cbn [length]. lia. }
  split.
  - cbn [concat]. rewrite Hj. apply take_drop.
  - intros batch [->|Hin]%elem_of_cons; [|by apply Hb]. split.
    + destruct (Z.to_nat size) eqn:E; [lia|done].
    + rewrite length_take. lia.
Qed.

Section world.
Context {G B : Type} `{!Notification.IDGenerator G, !Broadcaster B}.
Context (digest : string -> string).
Context (render : cursorPayload.t -> string) (parse : string -> option cursorPayload.t).

#[local] Instance memory : NotifyService.Store MemoryStore.t := MemoryStore_Store digest render parse.

Abbreviation Svc := (NotifyService.Service.t G MemoryStore.t B).

(** ** A delivery is a sequence of operations of the notification service *)

(** An operation whose clock is one of the readings of a delivery. *)
Definition reads_clock (clock : nat -> Time) (op : Op) : Prop :=
  match op with
  | OpPublish now _ | OpClose now _ => exists k, now = clock k
  | _ => False
  end.

Abbreviation performs := (performs digest render parse).

Lemma performs_app ops1 ops2 (s : Svc) : performs (ops1 ++ ops2) s = performs ops2 (performs ops1 s).
Proof. apply for_each_app. Qed.

Lemma publish_performs now drafts (s : Svc) :
  (NotifyService.Publish now drafts s).2 = performs [OpPublish now drafts] s.
Proof. reflexivity. Qed.

Lemma close_performs now req (s : Svc) :
  (NotifyService.Close now req s).2 = performs [OpClose now req] s.
Proof. reflexivity. Qed.

Lemma publish_batches_performs clock n batches (s : Svc) : exists ops,
  (publish_batches clock n batches s).2 = performs ops s /\ Forall (reads_clock clock) ops.
Proof.
  revert n s. induction batches as [|batch rest IH]; intros n s; cbn [publish_batches].
  { by exists []. }
  pose proof (publish_performs (clock n) batch s) as E1.
  destruct (NotifyService.Publish (clock n) batch s) as [[ins failure] s1]. cbn [snd] in E1.
  assert (Hop : reads_clock clock (OpPublish (clock n) batch)) by (by exists n).
  destruct failure as [[]|e].
  - destruct (IH (S n) s1) as (ops & -> & Hops).
    exists (OpPublish (clock n) batch :: ops). split; [|by constructor]. by rewrite E1.
  - exists [OpPublish (clock n) batch]. split; [done|by repeat constructor].
Qed.

Lemma run_step_performs clock size n step (s : Svc) : exists ops,
  (run_step clock size n step s).2 = performs ops s /\ Forall (reads_clock clock) ops.
Proof.
  unfold run_step. destruct (Step.Close step) as [req|]; [|apply publish_batches_performs].
  exists [OpClose (clock n) req]. split; [|repeat constructor; by exists n].
  rewrite <- close_performs. by destruct (NotifyService.Close (clock n) req s) as [[r|e] s1].
Qed.

Lemma run_steps_performs clock size n steps (s : Svc) : exists ops,
  (run_steps clock size n steps s).2 = performs ops s /\ Forall (reads_clock clock) ops.
Proof.
  revert n s. induction steps as [|step rest IH]; intros n s; cbn [run_steps].
  { by exists []. }
  destruct (run_step_performs clock size n step s) as (ops1 & E1 & H1).
  destruct (run_step clock size n step s) as [[n'|f] s1]; cbn [snd] in E1; subst s1.
  - destruct (IH n' (performs ops1 s)) as (ops2 & -> & H2). exists (ops1 ++ ops2).
    split; [by rewrite performs_app|by apply Forall_app].
  - by exists ops1.
Qed.

Lemma Deliver_project p clock attempt (s : Svc) :
  (Deliver p clock attempt s).2 = (project p clock (Attempt.Event attempt) s).2.
Proof.
  unfold Deliver. destruct (project _ _ _ _) as [[u|f] s1]; [done|]. by destruct (negb _).
Qed.

Lemma Deliver_performs p clock attempt (s : Svc) : exists ops,
  (Deliver p clock attempt s).2 = performs ops s /\ Forall (reads_clock clock) ops.
Proof.
  rewrite Deliver_project. unfold project.
  destruct (Projector.rules p _) as [steps|f]; [|by exists []].
  destruct (validatePlan _ steps); [|by exists []].
  destruct (run_steps_performs clock (Projector.batch p) 0 steps s) as (ops & E & Hops).
  destruct (run_steps clock (Projector.batch p) 0 steps s) as [r s1]. by exists ops.
Qed.

(** What happens to a notification service that projectors feed: its own
    operations, and deliveries of any events by any projectors. *)
Inductive Happening : Type :=
| Does (op : Op)
| Delivers (p : Projector.t) (clock : nat -> Time) (attempt : Attempt.t).

Definition happen (h : Happening) (s : Svc) : Svc :=
  match h with
  | Does op => perform digest render parse op s
  | Delivers p clock attempt => (Deliver p clock attempt s).2
  end.

Definition happens (l : list Happening) (s : Svc) : Svc := for_each happen l s.

(** Later than an instant, as far as clocks go. *)
Definition later (at0 : Time) (h : Happening) : Prop :=
  match h with
  | Does op => within at0 op
  | Delivers _ clock _ => forall k, (at0 <= normalizeTime (clock k))%Z
  end.

Lemma happens_performs at0 l (s : Svc) : Forall (later at0) l -> exists ops,
  happens l s = performs ops s /\ Forall (within at0) ops.
Proof.
  unfold happens. revert s. induction l as [|h l IH]; intros s Hl; cbn [for_each].
  { by exists []. }
  apply Forall_cons in Hl as [Hh Hl]. destruct (IH (happen h s) Hl) as (ops & -> & Hops).
  destruct h as [op|p clock attempt]; cbn [happen later] in *.
  - exists (op :: ops). split; [done|by constructor].
  - destruct (Deliver_performs p clock attempt s) as (ops1 & -> & H1).
    exists (ops1 ++ ops). split; [by rewrite performs_app|].
    apply Forall_app. split; [|done]. eapply Forall_impl; [exact H1|].
    intros [now drafts|now req|??|???|??|?]; cbn; try done. by intros [k ->].
Qed.

(** A delivery that succeeded ran its plan to the end. *)
Lemma Deliver_ran p clock attempt (s s1 : Svc) : Projector.rules p = DefaultRules ->
  Deliver p clock attempt s = (Outcome.Delivered, [], s1) ->
  exists steps n, defaultPlan (input p (Attempt.Event attempt)) = Ok steps /\
    Shaped (Attempt.Event attempt) steps /\
    run_steps clock (Projector.batch p) 0 steps s = (Ok n, s1).
Proof.
  intros Hrules. unfold Deliver, project. rewrite Hrules. unfold DefaultRules.
  destruct (defaultPlan _) as [steps|f] eqn:Ep; [|by destruct (negb _)].
  pose proof (default_shape _ _ _ Ep) as Hshape. rewrite (shaped_valid _ _ Hshape).
  destruct (run_steps _ _ _ _ _) as [[n|f] s'] eqn:Er; cbn [rbind].
  - intros [= <-]. by exists steps, n.
  - by destruct (negb _).
Qed.

(** ** Publishing on one subject *)

Lemma grouped_one subject (l : list Insertion.t) : l <> [] ->
  (forall i, i ∈ l -> Notification.Subject (Insertion.Notification_ i) = subject) ->
  sorted_keys (grouped l) = [subject] /\ grouped l !! subject = Some l.
Proof.
  intros Hne Hl.
  assert (Hlook : forall k, default [] (grouped l !! k) =
            filter (fun i => Notification.Subject (Insertion.Notification_ i) = k) l).
  { intros k. unfold grouped. by rewrite lookup_group_by, lookup_empty. }
  assert (Hf : filter (fun i => Notification.Subject (Insertion.Notification_ i) = subject) l = l).
  { apply filter_all. by intros i Hi%Hl. }
  assert (Hsome : forall k, is_Some (grouped l !! k) <-> k = subject).
  { intros k. unfold grouped. rewrite group_by_is_Some, lookup_empty. split.
    - intros [[? [=]]|(i & Hi & <-)]. by apply Hl.
    - intros ->. right. destruct l as [|i l]; [done|]. exists i. split; [left|]. apply Hl. left. }
  split.
  - assert (Hk : forall k, k ∈ sorted_keys (grouped l) <-> k = subject).
    { intros k. by rewrite elem_of_sorted_keys. }
    pose proof (sorted_keys_NoDup (grouped l)) as Hnd.
    destruct (sorted_keys (grouped l)) as [|k [|k' rest]].
    + pose proof (proj2 (Hk subject) eq_refl) as Hn. by apply elem_of_nil in Hn.
    + f_equal. apply Hk. left.
    + assert (k = subject) as -> by (apply Hk; left).
      assert (k' = subject) as -> by (apply Hk; right; left).
      apply NoDup_cons in Hnd as [Hno _]. destruct Hno. left.
  - destruct (proj2 (Hsome subject) eq_refl) as [l' El]. rewrite El.
    specialize (Hlook subject). rewrite El, Hf in Hlook. cbn in Hlook. by subst l'.
Qed.

Lemma insert_subjects_one (m : gmap string (list Insertion.t)) subject l r d :
  m !! subject = Some l ->
  insert_subjects m [subject] r d =
    (InsertResult.add r (insert_ subject l d).1, Ok tt, (insert_ subject l d).2).
Proof.
  intros Hl. cbn [insert_subjects]. rewrite Hl. change (default [] (Some l)) with l.
  cbn [store_Insert memory MemoryStore_Store]. unfold NotifyStore.Insert.
  by destruct (insert_ subject l d).
Qed.

Lemma stamped_draft now d id : Stamped (Insertion.Notification_ (insertionOf now d id)).
Proof. done. Qed.

(** What a publication on one subject does to the store. *)
Lemma Publish_one now drafts subject (s : Svc) used :
  WorldOk s used -> drafts <> [] -> (forall d, d ∈ drafts -> Draft.Subject d = subject) ->
  let out := NotifyService.Publish now drafts s in
  match out.1.2 with
  | Err _ => NotifyService.Service.store out.2 = NotifyService.Service.store s
  | Ok _ => exists l, Fit (NotifyService.Service.store s) l /\ length l = length drafts /\
      l = zip_with (insertionOf (normalizeTime now)) drafts (ids_in l) /\
      NotifyService.Service.store out.2 = (insert_ subject l (NotifyService.Service.store s)).2
  end.
Proof.
  intros [_ Hf Hu _] Hne Hsub. cbv zeta. unfold NotifyService.Publish.
  destruct (draft_issues drafts) as [|issue issues]; [|done].
  remember drafts as l0 eqn:El0. destruct l0 as [|d0 rest]; [done|]. rewrite El0 in *. clear El0 d0 rest.
  destruct (stamp_drafts_spec (normalizeTime now) drafts ∅ (NotifyService.Service.ids s) used Hf)
    as (minted & g' & _ & Hnd & Hout & Hg & Hres).
  destruct (stamp_drafts (normalizeTime now) drafts ∅ (NotifyService.Service.ids s)) as [[m|e] g''];
    cbn [fst snd] in *; [|done].
  destruct Hres as (l & Hids & -> & Hl & Hlen).
  assert (Hlne : l <> []) by (intros ->; by destruct drafts).
  destruct (grouped_one subject l Hlne) as [Hk Hg1].
  { intros i Hi. destruct (in_zip_stamped _ _ l i Hl Hi) as (d & id & Hd & ->). cbn. by apply Hsub. }
  fold (grouped l). rewrite Hk, (insert_subjects_one _ _ l) by done.
  cbv beta iota zeta. cbn [fst snd]. exists l. split_and!; [|done|done|].
  - constructor.
    + intros i Hi. destruct (in_zip_stamped _ _ l i Hl Hi) as (d & id & _ & ->). apply stamped_draft.
    + change (NoDup (ids_in l)). by rewrite Hids.
    + intros i Hi. apply eq_None_not_Some. intros Hs%Hu. apply (Hout (Notification.ID (Insertion.Notification_ i))); [|done].
      rewrite <- Hids.
      by apply (list_elem_of_fmap_2 (fun i => Notification.ID (Insertion.Notification_ i))).
  - by rewrite (proj1 (signal_rest _ _)).
Qed.

(** ** What was delivered is settled *)

(** A draft that would create nothing. *)
Definition draft_absorbed (st : MemoryStore.t) (d : Draft.t) : Prop :=
  absorbed st (Draft.Subject d) (insertionOf 0%Z d "").

Lemma insertion_absorbed st now d id :
  draft_absorbed st d <-> absorbed st (Draft.Subject d) (insertionOf now d id).
Proof. split; by apply absorbed_same. Qed.

(** A notification a draft was written as. *)
Record written (d : Draft.t) (n : Notification.t) : Prop := {
  written_subject : Notification.Subject n = Draft.Subject d;
  written_kind : Notification.Kind n = Draft.Kind d;
  written_recipient : Notification.Recipient n = Draft.Recipient d;
  written_source : Notification.SourceID n = Draft.SourceID d;
  written_version : Notification.SubjectVersion n = Draft.SubjectVersion d
}.

(** A close with nothing left to do. *)
Record settled (req : CloseRequest.t) (st : MemoryStore.t) : Prop := {
  settled_closed id n : notifications st !! id = Some n -> closes req n = false;
  settled_marks key : key ∈ close_keys req -> (CloseRequest.Version req <= mark_of st key)%Z
}.

(** States that differ in nothing a projection looks at. *)
Definition alike (st st' : MemoryStore.t) : Prop :=
  notifications st' = notifications st /\ forall key, mark_of st' key = mark_of st key.

#[local] Instance alike_preorder : PreOrder alike.
Proof.
  split; [done|]. intros s1 s2 s3 [N1 M1] [N2 M2]. split; [congruence|].
  intros key. by rewrite M2.
Qed.

Lemma alike_absorbed st st' d : alike st st' -> draft_absorbed st d -> draft_absorbed st' d.
Proof.
  intros [Hn Hm]. unfold draft_absorbed, absorbed, open_for. by rewrite !floor_marks, !Hm, Hn.
Qed.

Lemma alike_settled st st' req : alike st st' -> settled req st -> settled req st'.
Proof.
  intros [Hn Hm] [Hc Hk]. constructor.
  - rewrite Hn. exact Hc.
  - intros key. rewrite Hm. apply Hk.
Qed.

(** *** Publishing *)

Lemma Publish_absorbs now drafts subject (s : Svc) used :
  WorldOk s used -> drafts <> [] -> (forall d, d ∈ drafts -> Draft.Subject d = subject) ->
  let out := NotifyService.Publish now drafts s in
  let st := NotifyService.Service.store s in
  let st' := NotifyService.Service.store out.2 in
  grows st st' /\
  (is_ok out.1.2 = true -> forall d, d ∈ drafts -> draft_absorbed st' d) /\
  (forall id n, notifications st' !! id = Some n ->
     notifications st !! id = Some n \/
     exists d, d ∈ drafts /\ written d n /\ ~ draft_absorbed st d) /\
  ((forall d, d ∈ drafts -> draft_absorbed st d) -> st' = st).
Proof.
  intros Hs Hne Hsub. cbv zeta. pose proof (Publish_one now drafts subject s used Hs Hne Hsub) as H1.
  cbv zeta in H1. destruct (NotifyService.Publish now drafts s) as [[ins [[]|e]] s'];
    cbn [fst snd is_ok] in *.
  2: { rewrite H1. split_and!; [done|done|by left|done]. }
  destruct H1 as (l & Hfit & Hlen & Hl & ->).
  assert (Hin : forall i, i ∈ l -> exists d id, d ∈ drafts /\ i = insertionOf (normalizeTime now) d id)
    by (intros i; by apply in_zip_stamped).
  pose proof (insert_loop subject l InsertResult.zero (NotifyService.Service.store s)
                (world_store _ _ Hs) Hfit) as (_ & Hg & _ & Ha & _).
  fold (insert_ subject l (NotifyService.Service.store s)) in Hg, Ha. split_and!.
  - done.
  - intros _ d Hd. apply list_elem_of_lookup in Hd as [k Hk].
    destruct (lookup_lt_is_Some_2 l k) as [i Hi].
    { rewrite Hlen. by eapply lookup_lt_Some. }
    specialize (Ha i (list_elem_of_lookup_2 _ _ _ Hi)).
    rewrite Hl in Hi. apply lookup_zip_with_Some in Hi as (d' & id & -> & Hd' & _).
    assert (d' = d) as -> by congruence.
    apply (insertion_absorbed _ (normalizeTime now) d id).
    rewrite (Hsub d); [done|by eapply list_elem_of_lookup_2].
  - intros id n [Hid|(i & Hi & -> & Hno)]%(insert_held _ _ _ _ _ (world_store _ _ Hs) Hfit); [by left|right].
    destruct (Hin i Hi) as (d & id' & Hd & ->). exists d. split_and!; [done| |].
    + constructor; [|done..]. symmetry. by apply Hsub.
    + intros Hd'%(insertion_absorbed _ (normalizeTime now) d id'). apply Hno. by rewrite <- (Hsub d Hd).
  - intros Hall.
    destruct (absorbed_loop subject l InsertResult.zero (NotifyService.Service.store s)) as (r' & E & _).
    { apply (store_index _ (world_store _ _ Hs)). }
    { intros i (d & id & Hd & ->)%Hin. rewrite <- (Hsub d Hd).
      apply (insertion_absorbed _ (normalizeTime now) d id). exact (Hall d Hd). }
    unfold insert_. by rewrite E.
Qed.

Lemma publish_batches_absorbs clock n batches subject (s : Svc) used :
  WorldOk s used -> (forall b, b ∈ batches -> b <> []) ->
  (forall d, d ∈ concat batches -> Draft.Subject d = subject) ->
  let out := publish_batches clock n batches s in
  let st := NotifyService.Service.store s in
  let st' := NotifyService.Service.store out.2 in
  grows st st' /\
  (is_ok out.1 = true -> forall d, d ∈ concat batches -> draft_absorbed st' d) /\
  (forall id n, notifications st' !! id = Some n ->
     notifications st !! id = Some n \/
     exists d, d ∈ concat batches /\ written d n /\ ~ draft_absorbed st d) /\
  ((forall d, d ∈ concat batches -> draft_absorbed st d) -> st' = st).
Proof.
  cbv zeta. revert n s used. induction batches as [|batch rest IH]; intros n s used Hs Hne Hsub;
    cbn [publish_batches].
  { split_and!; [done|by intros _ d ?%elem_of_nil|by left|done]. }
  cbn [concat] in *. setoid_rewrite elem_of_app in Hsub. setoid_rewrite elem_of_app.
  destruct (Publish_absorbs (clock n) batch subject s used Hs) as (G1 & A1 & N1 & Z1);
    [apply Hne; left|auto|].
  destruct (perform_keeps digest render parse (OpPublish (clock n) batch) s used Hs)
    as (used1 & _ & Hs1 & _). cbn [perform] in Hs1. fold memory in Hs1.
  change (NotifyInvariant.memory digest render parse) with memory in Hs1.
  destruct (NotifyService.Publish (clock n) batch s) as [[ins [[]|e]] s1]; cbn [fst snd is_ok] in *.
  2: { split_and!; [done|done| |auto]. intros id x Hx. destruct (N1 id x Hx) as [?|(d & ? & ?)]; eauto 6. }
  destruct (IH (S n) s1 used1 Hs1) as (G2 & A2 & N2 & Z2); [intros b Hb; apply Hne; by right|auto|].
  split_and!.
  - by etrans.
  - intros Hok d [Hd|Hd]; [|by apply A2].
    unfold draft_absorbed. eapply absorbed_grows; [exact G2|by apply A1].
  - intros id x Hx. destruct (N2 id x Hx) as [Hx1|(d & ? & ? & Hno)].
    + destruct (N1 id x Hx1) as [?|(d & ? & ?)]; [by left|right; exists d; auto].
    + right. exists d. split_and!; [auto|done|]. intros Ha. apply Hno. unfold draft_absorbed.
      by eapply absorbed_grows.
  - intros Hall. rewrite Z2; [auto|]. intros d Hd. rewrite Z1; auto.
Qed.
(** *** Closing *)

Lemma closes_closed req at_ n : closes req (closed_as req at_ n) = false.
Proof.
  unfold closes, spared. rewrite decide_True; [apply andb_false_r|]. left.
  unfold closed_as. cbv zeta. cbn. by destruct (Notification.InactiveAt n).
Qed.

Lemma closes_uncovered req n : ~ covers req (Notification.Kind n) -> closes req n = false.
Proof.
  intros Hc. unfold closes, spared. case_decide; [apply andb_false_r|].
  destruct (bool_decide_reflect (CloseRequest.Kinds req <> [])) as [Hk|Hk]; cbn [andb].
  - destruct (contains (CloseRequest.Kinds req) (Notification.Kind n)) eqn:E; cbn [negb].
    + destruct Hc. right. by apply contains_true in E.
    + apply andb_false_r.
  - destruct Hc. left. by apply dec_stable.
Qed.

Lemma closes_excepted req n :
  CloseRequest.Except req <> "" -> Notification.Recipient n = CloseRequest.Except req ->
  closes req n = false.
Proof.
  intros He Hr. unfold closes, spared. rewrite (bool_decide_true _ He), (bool_decide_true _ Hr).
  destruct (decide _), (bool_decide (CloseRequest.Kinds req <> [])),
    (contains (CloseRequest.Kinds req) (Notification.Kind n)); apply andb_false_r.
Qed.

Lemma closed_map_settled req at_ m :
  (forall id n, m !! id = Some n -> closes req n = false) -> closed_map req at_ m = m.
Proof.
  intros Hm. unfold closed_map. apply map_eq. intros id. rewrite lookup_fmap.
  destruct (m !! id) as [n|] eqn:E; [|done]. cbn. by rewrite (Hm id n E).
Qed.

(** A close with nothing to close stamps no successor. *)
Lemma Close_idle req at_ (g : G) st :
  StoreOk st -> (-1 <= CloseRequest.Version req)%Z ->
  (forall id n, notifications st !! id = Some n -> closes req n = false) ->
  (NotifyStore.Close req at_ (g, st)).2 = (g, (close_subject req (normalizeTime at_) st).2).
Proof.
  intros Ho Hv Hn. unfold NotifyStore.Close.
  destruct (close_subject_outcome req (normalizeTime at_) st Ho Hv) as (_ & Hr & _).
  destruct (close_subject req (normalizeTime at_) st) as [[closed recipients] s1].
  cbn [fst snd CloseResult.Recipients] in *.
  assert (Hnone : closing req st = []).
  { apply elem_of_nil_inv. intros n [Hc (id & Hid)%elem_of_values]%list_elem_of_filter.
    by rewrite (Hn id n Hid) in Hc. }
  rewrite Hnone in Hr. change (sort_strings (elements recipients) = []) in Hr. rewrite Hr.
  unfold SuccessorInsertions. by destruct (CloseRequest.Successor_ req).
Qed.

Lemma Close_state now req (s : Svc) : CloseRequest_Validate req = Ok tt ->
  NotifyService.Service.store (NotifyService.Close now req s).2 =
    (NotifyStore.Close req (normalizeTime now)
       (NotifyService.Service.ids s, NotifyService.Service.store s)).2.2.
Proof.
  intros Hv. unfold NotifyService.Close. rewrite Hv.
  change (store_Close req (normalizeTime now)
            (NotifyService.Service.ids s, NotifyService.Service.store s))
    with (NotifyStore.Close req (normalizeTime now)
            (NotifyService.Service.ids s, NotifyService.Service.store s)).
  destruct (NotifyStore.Close _ _ _) as [[result|e] [g d]]; [|done].
  cbv beta iota zeta. cbn [snd]. by rewrite (proj1 (signal_rest _ _)).
Qed.

(** A close that succeeded is settled, and a settled one finds nothing to do. *)
Lemma Close_settles now req (s : Svc) used :
  WorldOk s used ->
  (forall sc, CloseRequest.Successor_ req = Some sc -> ~ covers req (Successor.Kind sc)) ->
  let out := NotifyService.Close now req s in
  (is_ok out.1 = true -> settled req (NotifyService.Service.store out.2)) /\
  (settled req (NotifyService.Service.store s) ->
   alike (NotifyService.Service.store s) (NotifyService.Service.store out.2)).
Proof.
  intros [Ho Hf Hu _] Hsc. cbv zeta.
  destruct (CloseRequest_Validate req) as [[]|e] eqn:Hv.
  2: { unfold NotifyService.Close. by rewrite Hv. }
  rewrite (Close_state now req s Hv). apply validated_version in Hv.
  set (st := NotifyService.Service.store s) in *. set (g := NotifyService.Service.ids s) in *.
  destruct (close_subject_outcome req (normalizeTime (normalizeTime now)) st Ho)
    as (_ & _ & _ & Hn & _ & Hm); [lia|].
  split; intros Hset.
  - destruct (Close_runs digest parse req (normalizeTime now) g st used Ho)
      as (drawn & g' & d' & _ & _ & -> & Hins & Hheld); [lia|done|done|].
    constructor; cbn [snd].
    + intros id n [Hid|(sc & Hs & Hk)]%Hheld.
      * rewrite Hn in Hid. unfold closed_map in Hid.
        rewrite lookup_fmap in Hid. apply fmap_Some in Hid as (n0 & _ & ->).
        destruct (closes req n0) eqn:E; [apply closes_closed|done].
      * apply closes_uncovered. rewrite Hk. by apply Hsc.
    + intros key Hkey. rewrite (grows_marks _ _ (ins_grows _ _ _ _ Hins)), Hm, decide_True by done.
      lia.
  - destruct Hset as [Hc Hk]. rewrite Close_idle by (done || lia). cbn [snd]. split.
    + rewrite Hn. by apply closed_map_settled.
    + intros key. rewrite Hm. case_decide as Hin; [|done]. specialize (Hk key Hin). lia.
Qed.

(** *** Plans *)

Definition settled_step (st : MemoryStore.t) (step : Step.t) : Prop :=
  match Step.Close step with
  | Some req => settled req st
  | None => forall d, d ∈ Step.Publish step -> draft_absorbed st d
  end.

Definition settled_plan (st : MemoryStore.t) (steps : Plan) : Prop := Forall (settled_step st) steps.

(** The drafts of a plan in shape are of the event. *)
Lemma drafts_told event steps : Shaped event steps ->
  forall d, d ∈ drafts_of steps -> DraftFor event (Draft.Recipient d) (Draft.Kind d) d.
Proof.
  intros Hs d. unfold drafts_of. destruct Hs as [|drafts Ht|req _|req drafts _ Ht _ _]; cbn;
    rewrite ?app_nil_r; try (by intros ?%elem_of_nil); apply Ht.
Qed.

(** A step of a plan in shape. *)
Definition StepFor (event : Event.t) (step : Step.t) : Prop :=
  match Step.Close step with
  | Some req => Retires event req
  | None => Told event (Step.Publish step)
  end.

Lemma shaped_steps event steps : Shaped event steps -> Forall (StepFor event) steps.
Proof. intros []; repeat (apply Forall_cons_2 || apply Forall_nil_2); done. Qed.

Lemma alike_settled_step st st' step : alike st st' -> settled_step st step -> settled_step st' step.
Proof.
  intros Ha. unfold settled_step. destruct (Step.Close step); [by apply alike_settled|].
  intros Hall d Hd. eapply alike_absorbed; [exact Ha|by apply Hall].
Qed.

Lemma run_step_keeps clock size n step (s : Svc) used :
  WorldOk s used -> exists used', WorldOk (run_step clock size n step s).2 used'.
Proof.
  intros Hs. destruct (run_step_performs clock size n step s) as (ops & -> & _).
  destruct (performs_keep digest render parse ops s used Hs) as (used' & _ & Hw & _). by exists used'.
Qed.

Lemma run_publish clock size n event drafts (s : Svc) used :
  WorldOk s used -> Told event drafts -> (1 <= size)%Z ->
  let out := run_step clock size n (publish_step drafts) s in
  let st := NotifyService.Service.store s in
  let st' := NotifyService.Service.store out.2 in
  grows st st' /\
  (is_ok out.1 = true -> forall d, d ∈ drafts -> draft_absorbed st' d) /\
  (forall id x, notifications st' !! id = Some x ->
     notifications st !! id = Some x \/
     exists d, d ∈ drafts /\ written d x /\ ~ draft_absorbed st d) /\
  ((forall d, d ∈ drafts -> draft_absorbed st d) -> st' = st).
Proof.
  intros Hs Ht Hsize.
  destruct (chunks_join (length drafts) drafts size Hsize (le_n _)) as [Hjoin Hne].
  pose proof (publish_batches_absorbs clock n (chunks (length drafts) drafts size)
                (Event.TaskID event) s used Hs) as H1.
  rewrite Hjoin in H1. apply H1.
  - intros b Hb. by apply Hne.
  - intros d Hd. by apply (told_for _ _ Ht d Hd).
Qed.

Lemma run_close clock size n event req (s : Svc) used :
  WorldOk s used -> Retires event req ->
  let out := run_step clock size n (closing_step req) s in
  (is_ok out.1 = true -> settled req (NotifyService.Service.store out.2)) /\
  (settled req (NotifyService.Service.store s) ->
   alike (NotifyService.Service.store s) (NotifyService.Service.store out.2)).
Proof.
  intros Hs Hr. cbn [run_step closing_step Step.Close].
  destruct (Close_settles (clock n) req s used Hs) as [H1 H2].
  { intros sc Hsc. by apply (retires_successor _ _ Hr sc Hsc). }
  by destruct (NotifyService.Close (clock n) req s) as [[r|e] s1].
Qed.

(** Notifications a close leaves alone do not unsettle it. *)
Lemma settled_grows req (drafts : list Draft.t) st st' :
  settled req st -> grows st st' ->
  (forall id x, notifications st' !! id = Some x ->
     notifications st !! id = Some x \/
     exists d, d ∈ drafts /\ written d x /\ ~ draft_absorbed st d) ->
  (forall d, d ∈ drafts -> spares_draft req d) -> settled req st'.
Proof.
  intros [Hc Hm] Hg Hn Hd. constructor.
  - intros id x [Hx|(d & Hin & [_ Hk Hr _ _] & _)]%Hn; [by eapply Hc|].
    destruct (Hd d Hin) as [Hu|[He Hrd]].
    + apply closes_uncovered. by rewrite Hk.
    + apply closes_excepted; [done|by rewrite Hr].
  - intros key Hkey. rewrite (grows_marks _ _ Hg). by apply Hm.
Qed.

Lemma run_steps_one clock size n step (s : Svc) :
  run_steps clock size n [step] s =
    match run_step clock size n step s with (Err f, s) => (Err f, s) | (Ok n, s) => (Ok n, s) end.
Proof. done. Qed.

(** A plan that ran to its end is settled. *)
Lemma run_settles clock size n event steps (s : Svc) used m s1 :
  WorldOk s used -> Shaped event steps -> (1 <= size)%Z ->
  run_steps clock size n steps s = (Ok m, s1) ->
  settled_plan (NotifyService.Service.store s1) steps.
Proof.
  intros Hs Hshape Hsize. destruct Hshape as [|drafts Ht|req Hr|req drafts Hr Ht Hnone Hspare].
  - intros [= _ <-]. constructor.
  - pose proof (run_publish clock size n event drafts s used Hs Ht Hsize) as (_ & Ha & _).
    rewrite run_steps_one. destruct (run_step _ _ _ _ _) as [[k|f] s'] eqn:E; [|done]. intros [= <- <-].
    apply Forall_singleton. exact (Ha eq_refl).
  - pose proof (run_close clock size n event req s used Hs Hr) as (Ha & _).
    rewrite run_steps_one. destruct (run_step _ _ _ _ _) as [[k|f] s'] eqn:E; [|done]. intros [= <- <-].
    apply Forall_singleton. exact (Ha eq_refl).
  - pose proof (run_close clock size n event req s used Hs Hr) as (Ha & _).
    pose proof (run_step_keeps clock size n (closing_step req) s used Hs) as (used1 & Hs1).
    change (run_steps clock size n [closing_step req; publish_step drafts] s) with
      (match run_step clock size n (closing_step req) s with
       | (Err f, s) => (Err f, s)
       | (Ok n, s) => run_steps clock size n [publish_step drafts] s
       end).
    destruct (run_step clock size n (closing_step req) s) as [[k|f] s']; [|done]. cbn [fst snd] in *.
    pose proof (run_publish clock size k event drafts s' used1 Hs1 Ht Hsize) as (Hg & Hb & Hx & _).
    rewrite run_steps_one. destruct (run_step _ _ _ _ _) as [[k'|f] s''] eqn:E; [|done].
    intros [= <- <-]. cbn [fst snd] in *.
    apply Forall_cons_2; [|apply Forall_singleton; exact (Hb eq_refl)].
    eapply settled_grows; [by apply Ha|exact Hg|exact Hx|exact Hspare].
Qed.

(** Running a settled plan, to whatever end, changes nothing a reader sees. *)
Lemma run_settled clock size n event steps (s : Svc) used :
  WorldOk s used -> Forall (StepFor event) steps -> (1 <= size)%Z ->
  settled_plan (NotifyService.Service.store s) steps ->
  alike (NotifyService.Service.store s)
    (NotifyService.Service.store (run_steps clock size n steps s).2).
Proof.
  revert n s used. induction steps as [|step rest IH]; intros n s used Hs Hfor Hsize Hset;
    cbn [run_steps]; [reflexivity|].
  apply Forall_cons in Hfor as [Hstep Hfor]. apply Forall_cons in Hset as [H1 Hset].
  assert (Ha : alike (NotifyService.Service.store s)
                 (NotifyService.Service.store (run_step clock size n step s).2)).
  { destruct step as [[req|] drafts].
    - apply (run_close clock size n event req s used Hs Hstep). exact H1.
    - destruct (run_publish clock size n event drafts s used Hs Hstep Hsize) as (_ & _ & _ & Hz).
      fold (publish_step drafts). rewrite Hz; [reflexivity|exact H1]. }
  destruct (run_step_keeps clock size n step s used Hs) as (used1 & Hs1).
  destruct (run_step clock size n step s) as [[k|f] s1]; cbn [snd] in *; [|done].
  etrans; [exact Ha|]. eapply IH; [exact Hs1|done..|].
  eapply Forall_impl; [exact Hset|]. intros x. by apply alike_settled_step.
Qed.

(** Publishing drafts some of which are settled writes of the others only. *)
Lemma run_publishing clock size n event drafts (s : Svc) used :
  WorldOk s used -> Forall (StepFor event) (publishing drafts) -> (1 <= size)%Z ->
  let st := NotifyService.Service.store s in
  let st' := NotifyService.Service.store (run_steps clock size n (publishing drafts) s).2 in
  grows st st' /\
  forall id x, notifications st' !! id = Some x ->
    notifications st !! id = Some x \/
    exists d, d ∈ drafts /\ written d x /\ ~ draft_absorbed st d.
Proof.
  intros Hs Hfor Hsize. cbv zeta. destruct drafts as [|d rest]; [by split; [|left]|].
  change (publishing (d :: rest)) with [publish_step (d :: rest)] in *.
  apply Forall_cons in Hfor as [Ht _].
  pose proof (run_publish clock size n event (d :: rest) s used Hs Ht Hsize) as (Hg & _ & Hn & _).
  rewrite run_steps_one. by destruct (run_step _ _ _ _ _) as [[k|f] s1].
Qed.

Lemma run_steps_app clock size n steps steps' (s : Svc) :
  run_steps clock size n (steps ++ steps') s =
    match run_steps clock size n steps s with
    | (Err f, s) => (Err f, s)
    | (Ok n, s) => run_steps clock size n steps' s
    end.
Proof.
  revert n s. induction steps as [|step steps IH]; intros n s; [done|]. cbn [app run_steps].
  by destruct (run_step clock size n step s) as [[k|f] s1].
Qed.

(** A plan run again with other offers, on a store its first run settled. *)
Lemma run_replanned clock size n event first second steps steps' (s : Svc) used :
  WorldOk s used -> Forall (StepFor event) steps' -> (1 <= size)%Z ->
  replanned first second steps steps' -> settled_plan (NotifyService.Service.store s) steps ->
  let st := NotifyService.Service.store s in
  let st' := NotifyService.Service.store (run_steps clock size n steps' s).2 in
  notifications st ⊆ notifications st' /\ (forall key, mark_of st' key = mark_of st key) /\
  forall id x, notifications st' !! id = Some x ->
    notifications st !! id = Some x \/
    exists d actors actors', d ∈ drafts_of steps' /\ written d x /\ Draft.Kind d = KindOffer /\
      Input.Eligible first = Ok actors /\ Input.Eligible second = Ok actors' /\
      Draft.Recipient d ∈ actors' /\ Draft.Recipient d ∉ actors.
Proof.
  intros Hs Hfor Hsize [->|(closes & drafts & drafts' & actors & actors' & -> & -> & _ & Ha & Ha' & Hd)]
    Hset; cbv zeta.
  { destruct (run_settled clock size n event steps s used Hs Hfor Hsize Hset) as [-> Hm].
    split_and!; [done|done|by left]. }
  apply Forall_app in Hfor as [Hfor1 Hfor2]. apply Forall_app in Hset as [Hset1 Hset2].
  pose proof (run_settled clock size n event closes s used Hs Hfor1 Hsize Hset1) as Halike.
  destruct (run_steps_performs clock size n closes s) as (ops & E & _).
  destruct (performs_keep digest render parse ops s used Hs) as (used1 & _ & Hs1 & _).
  fold memory in *. rewrite <- E in Hs1. rewrite run_steps_app.
  assert (Hset : forall d, d ∈ drafts -> draft_absorbed (NotifyService.Service.store s) d).
  { destruct drafts as [|d0 rest]; [by intros d ?%elem_of_nil|]. by apply Forall_cons in Hset2 as [? _]. }
  destruct (run_steps clock size n closes s) as [[k|f] s1]; cbn [snd] in *; destruct Halike as [En Em].
  2: { rewrite En. split_and!; [done|done|by left]. }
  pose proof (run_publishing clock size k event drafts' s1 used1 Hs1 Hfor2 Hsize) as (Hg & Hn).
  split_and!.
  - rewrite <- En. apply Hg.
  - intros key. by rewrite (grows_marks _ _ Hg), Em.
  - intros id x [Hx|(d & Hin & Hw & Hno)]%Hn; [left; by rewrite <- En|right].
    destruct (Hd d Hin) as (Hr & Hk & Hold). exists d, actors, actors'. split_and!; try done.
    + unfold drafts_of. rewrite fmap_app, concat_app, elem_of_app. right.
      destruct drafts'; [done|]. cbn. by rewrite app_nil_r.
    + intros Hin'. apply Hno. eapply alike_absorbed; [split; [exact En|exact Em]|]. auto.
Qed.
End world.
