(* ===== verification/TaskNotifyDeliver.v ===== *)
(** * TaskNotifyDeliver: what delivering a task event promises

    A delivery under the default rules succeeds when its ports answer; what becomes
    of a delivery follows from the answers to its calls, and an event is never given
    up; once a closing event was delivered the task stays silent; and delivering an
    event again writes nothing but offers to who joined its groups since.

    At the end a task is offered to two people, one of them claims it and it is
    completed; the offer is delivered again late. *)

From S2P Require Import Prelude Domain Errors Event Assignment Registry Service Relay.
From S2P Require Import Route Json Notification Collections NotifyStore NotifyStoreFacts.
From S2P Require Import NotifyService NotifyInvariant TaskNotify TaskNotifyFacts.
Import MemoryStore.

(** ** What the notification service accepts *)

(** An identifier it accepts. *)
Definition fits (id : string) : Prop := id <> "" /\ (len id <= MaxIdentifierBytes)%Z.

Lemma fits_ok pointer id : fits id -> validateIdentifier pointer id = [].
Proof. intros [H1 H2]. unfold validateIdentifier. by rewrite !decide_False by (done || lia). Qed.

Lemma content_ok source subject kind version data with_subject :
  fits source -> (with_subject = true -> fits subject) ->
  kind <> "" -> (len kind <= MaxKindBytes)%Z -> (0 <= version)%Z -> json_Valid data = true ->
  validateContent (content.mk source subject kind version data) with_subject = [].
Proof.
  intros Hs Hsub Hk Hlen Hv Hd. unfold validateContent. cbn [content.sourceID content.subject
    content.kind content.subjectVersion content.data].
  rewrite (fits_ok _ _ Hs), Hd, andb_false_r. rewrite !decide_False by (done || lia).
  destruct with_subject; [|done]. by rewrite (fits_ok _ _ (Hsub eq_refl)).
Qed.

Lemma concat_imap_nil {A B} (f : nat -> A -> list B) l :
  (forall i x, x ∈ l -> f i x = []) -> concat (imap f l) = [].
Proof.
  intros H. apply elem_of_nil_inv. intros y Hy.
  apply list_elem_of_In, in_concat in Hy as (out & Hl & Hy).
  apply list_elem_of_In, elem_of_lookup_imap in Hl as (i & x & -> & Hx).
  rewrite (H i x) in Hy by (by eapply list_elem_of_lookup_2). done.
Qed.

Lemma draft_issues_nil drafts :
  (forall d, d ∈ drafts -> Draft_Validate d = Ok tt) -> draft_issues drafts = [].
Proof.
  intros H. apply concat_imap_nil. intros i d Hd. by rewrite (H d Hd).
Qed.

(** ** Content by default *)

Definition default_content (p : Projector.t) : Prop :=
  Projector.titles p = None /\ Projector.data p = None /\ Projector.links p = None.

(** The text of a draft, its addressee and kind aside. *)
Definition default_draft (p : Projector.t) (event : Event.t) (kind recipient : string) : Draft.t :=
  {| Draft.Recipient := recipient; Draft.SourceID := Event.ID event;
     Draft.Subject := Event.TaskID event; Draft.Kind := kind;
     Draft.Title := defaultTitle (DraftInput.mk event kind recipient);
     Draft.SubjectVersion := Event.Version event; Draft.Links := defaultLinks p event;
     Draft.Data := defaultData event; Draft.Coalesce := false |}.

Lemma draft_default p event kind recipient : default_content p ->
  draft p (DraftInput.mk event kind recipient) = Ok (default_draft p event kind recipient).
Proof.
  intros (Ht & Hd & Hl). unfold draft, titleFor, linksFor, dataFor. by rewrite Ht, Hd, Hl.
Qed.

(** An event the engine emits for a task whose names fit. *)
Record FitEvent (p : Projector.t) (event : Event.t) : Prop := {
  fit_id : fits (Event.ID event);
  fit_task : fits (Event.TaskID event);
  fit_version : (0 <= Event.Version event)%Z;
  fit_assignee : Event.Assignee event = "" \/ fits (Event.Assignee event);
  fit_eligible : exists actors, eligible_for p event = Ok actors /\ Forall fits actors
}.

Definition our_kinds : list string := [KindOffer; KindTaken; KindAssigned].

Lemma our_kind kind : kind ∈ our_kinds -> kind <> "" /\ (len kind <= MaxKindBytes)%Z.
Proof.
  intros H. unfold our_kinds in H. repeat (apply elem_of_cons in H as [->|H]; [done|]).
  by apply elem_of_nil in H.
Qed.

Lemma default_draft_ok p event kind recipient coalesce :
  FitEvent p event -> kind ∈ our_kinds -> fits recipient ->
  Draft_Validate ((default_draft p event kind recipient) <| Draft.Coalesce := coalesce |>) = Ok tt.
Proof.
  intros [Hid Htask Hv _ _] [Hk Hlen]%our_kind Hr. unfold Draft_Validate.
  cbn [Draft.SourceID Draft.Subject Draft.Kind Draft.SubjectVersion Draft.Data Draft.Recipient].
  assert (E : validateContent (content.mk (Event.ID event) (Event.TaskID event) kind
            (Event.Version event) (defaultData event)) true = []).
  { apply content_ok; [done..|]. apply marshal_object_valid. }
  cbn. rewrite E. by rewrite (fits_ok _ _ Hr).
Qed.

(** A close or a publication the service does not refuse. *)
Definition accepted (step : Step.t) : Prop :=
  match Step.Close step with
  | Some req => CloseRequest_Validate req = Ok tt
  | None => forall d, d ∈ Step.Publish step -> Draft_Validate d = Ok tt
  end.

Lemma close_at_accepted p event kinds reason except successor skip :
  FitEvent p event -> (forall kind, kind ∈ kinds -> kind ∈ our_kinds) ->
  (len reason <= MaxIdentifierBytes)%Z ->
  match successor with
  | Some s => Successor.SourceID s = Event.ID event /\ Successor.Kind s ∈ our_kinds /\
      Successor.SubjectVersion s = Event.Version event /\ json_Valid (Successor.Data s) = true
  | None => True
  end ->
  accepted (close_at event kinds reason except successor skip).
Proof.
  intros [Hid Htask Hv _ _] Hkinds Hreason Hsucc. unfold accepted, CloseRequest_Validate, issues_at.
  cbn [close_at closing_step Step.Close CloseRequest.Subject CloseRequest.Version
    CloseRequest.Kinds CloseRequest.Reason CloseRequest.Successor_].
  rewrite (fits_ok _ _ Htask), !decide_False by lia.
  rewrite concat_imap_nil.
  2: { intros i kind [Hne Hlen]%Hkinds%our_kind.
       by rewrite (bool_decide_false _ Hne), bool_decide_false by lia. }
  destruct successor as [s|]; [|done].
  destruct Hsucc as (Es & Hkind & Ev & Hd). destruct (our_kind _ Hkind) as [Hne Hlen].
  rewrite content_ok; [done|by rewrite Es|done|done|done|by rewrite Ev|done].
Qed.

Lemma offers_accepted p event coalesce : default_content p -> FitEvent p event ->
  exists steps, offers (input p event) coalesce = Ok steps /\ Forall accepted steps.
Proof.
  intros Hp Hf. destruct (fit_eligible p event Hf) as (actors & Ha & Hfit).
  unfold offers. cbn [Input.Eligible input]. rewrite Ha. cbn [rbind].
  assert (Hdrafts : exists drafts, offer_drafts (input p event) coalesce actors = Ok drafts /\
            forall d, d ∈ drafts -> Draft_Validate d = Ok tt).
  { clear Ha. induction Hfit as [|actor rest Hactor _ (drafts & E & Hall)]; cbn [offer_drafts].
    - exists []. split; [done|by intros d ?%elem_of_nil].
    - cbn [Input.Draft input]. rewrite draft_default by done. cbn [rbind]. rewrite E. eexists.
      split; [reflexivity|]. intros d [->|Hd]%elem_of_cons; [|by apply Hall].
      apply default_draft_ok; [done| |done]. left. }
  destruct Hdrafts as (drafts & -> & Hall). cbn [rbind].
  destruct drafts as [|d rest]; eexists; (split; [reflexivity|]); [apply Forall_nil_2|].
  apply Forall_singleton. exact Hall.
Qed.

Lemma assignment_accepted p event : default_content p -> FitEvent p event ->
  exists steps, assignment (input p event) = Ok steps /\ Forall accepted steps.
Proof.
  intros Hp Hf. unfold assignment. cbn [Input.Event input].
  case_decide as Eh; [exists []; split; [done|apply Forall_nil_2]|].
  cbn [Input.Draft input]. rewrite draft_default by done. eexists. split; [reflexivity|].
  apply Forall_singleton. intros d ->%list_elem_of_singleton.
  apply (default_draft_ok p event KindAssigned (Event.Assignee event) false Hf).
  - right. right. left.
  - destruct (fit_assignee p event Hf) as [E|H]; [|done]. destruct Eh. by left.
Qed.

(** The default rules plan what the service accepts. *)
Lemma default_accepted p event : default_content p -> FitEvent p event ->
  exists steps, defaultPlan (input p event) = Ok steps /\ Forall accepted steps.
Proof.
  intros Hp Hf. unfold defaultPlan. cbn [Input.Closing Input.Event input].
  assert (Hnone : exists steps : Plan, Ok (E := Failure) [] = Ok steps /\ Forall accepted steps).
  { exists []. split; [done|apply Forall_nil_2]. }
  assert (Hclose : forall kinds reason except, (forall k, k ∈ kinds -> k ∈ our_kinds) ->
            (len reason <= MaxIdentifierBytes)%Z ->
            accepted (close_at event kinds reason except None [])).
  { intros kinds reason except Hk Hr. by apply (close_at_accepted p). }
  destruct (closes_on p (Event.Status event)).
  { eexists. split; [reflexivity|]. apply Forall_singleton. apply Hclose.
    - by intros k ?%elem_of_nil.
    - by destruct (Event.Status event). }
  destruct (Event.Type_ event); try exact Hnone.
  - destruct (Event.Status event); try exact Hnone;
      [by apply offers_accepted|by apply assignment_accepted].
  - cbn [Input.Draft input]. rewrite draft_default by done. eexists. split; [reflexivity|].
    apply Forall_singleton. apply (close_at_accepted p); [done| |done|].
    + intros k ->%list_elem_of_singleton. left.
    + cbn. split_and!; [done|right; left|done|apply marshal_object_valid].
  - destruct (offers_accepted p event false Hp Hf) as (steps & -> & Hall). eexists.
    split; [reflexivity|]. apply Forall_cons_2; [|done]. apply Hclose; [|done].
    intros k Hk. unfold our_kinds. set_solver.
  - destruct (assignment_accepted p event Hp Hf) as (steps & -> & Hall). eexists.
    split; [reflexivity|]. apply Forall_cons_2; [|done]. apply Hclose; [|done].
    intros k Hk. unfold our_kinds. set_solver.
  - case_decide; [exact Hnone|by apply offers_accepted].
Qed.

(** ** What a failure matches *)

Lemma sentinel_is_trans a b c : sentinel_is a b = true -> sentinel_is b c = true -> sentinel_is a c = true.
Proof. destruct a, b; try done; destruct c; done. Qed.

Lemma own_up (own : list Errors.Sentinel) s t : sentinel_is s t = true ->
  existsb (fun o => sentinel_is o s) own = true -> existsb (fun o => sentinel_is o t) own = true.
Proof.
  intros Hst. rewrite !existsb_exists. intros (o & Hin & Ho). exists o. split; [done|].
  by eapply sentinel_is_trans.
Qed.

Lemma errors_Is_up s t : sentinel_is s t = true ->
  forall e, Errors.errors_Is e s = true -> Errors.errors_Is e t = true.
Proof.
  intros Hst. fix IH 1. intros [| | | | | |actor groups cause| | |prefix inner|text own]; cbn;
    try (intros Hs; by eapply sentinel_is_trans).
  - rewrite !orb_true_iff. intros [Hs|Hc]; [left; by eapply sentinel_is_trans|right].
    destruct cause as [cause|]; [by apply IH|done].
  - apply IH.
  - by apply own_up.
Qed.

Lemma is_engine_up s t f : sentinel_is s t = true -> is_engine f s = true -> is_engine f t = true.
Proof.
  intros Hst. induction f as [e|e|detail|text own own'|prefix f IH]; cbn [is_engine]; [|done|done| |done].
  - by apply errors_Is_up.
  - by apply own_up.
Qed.

(** The relay is handed an error that matches what the failure matched. *)
Lemma as_error_matches f s : Errors.errors_Is (as_error f) s = is_engine f s.
Proof.
  apply eq_iff_eq_true. unfold as_error. cbn [Errors.errors_Is]. rewrite existsb_exists.
  setoid_rewrite <- list_elem_of_In. setoid_rewrite list_elem_of_filter. split.
  - intros (o & [Ho _] & Hos). by eapply is_engine_up.
  - intros Hs. exists s. split; [|unfold sentinel_is; by rewrite bool_decide_true].
    split; [done|]. destruct s; repeat first [by left | right].
Qed.

(** ** What a projection comes to, call by call *)

Section outcome.
Context {G D B : Type} `{!Notification.IDGenerator G, !NotifyService.Store D, !Broadcaster B}.
Abbreviation AnySvc := (NotifyService.Service.t G D B).

(** A call of the notification service. *)
Inductive Call : Type :=
| Closes (req : CloseRequest.t)
| Publishes (drafts : list Draft.t).

(** What the service answers: its error, when it has one. *)
Definition answer_of (now : Time) (call : Call) (s : AnySvc) : option Notification.error * AnySvc :=
  match call with
  | Closes req =>
      let '(r, s) := NotifyService.Close now req s in
      (match r with Ok _ => None | Err e => Some e end, s)
  | Publishes drafts =>
      let '(_, r, s) := NotifyService.Publish now drafts s in
      (match r with Ok _ => None | Err e => Some e end, s)
  end.

(** The calls a plan comes to: a close is one; what a step publishes goes out whole
    and in order, in batches none empty and none larger than [size]. *)
Inductive CallsOf (size : Z) : Plan -> list Call -> Prop :=
| calls_none : CallsOf size [] []
| calls_close req drafts rest calls :
    CallsOf size rest calls -> CallsOf size (Step.mk (Some req) drafts :: rest) (Closes req :: calls)
| calls_publish drafts batches rest calls :
    concat batches = drafts ->
    (forall batch, batch ∈ batches -> batch <> [] /\ (Z.of_nat (length batch) <= size)%Z) ->
    CallsOf size rest calls ->
    CallsOf size (Step.mk None drafts :: rest) ((Publishes <$> batches) ++ calls).

(** Calls made in order, up to the first that fails. *)
Inductive Answered (clock : nat -> Time) :
    nat -> list Call -> AnySvc -> option Notification.error -> AnySvc -> Prop :=
| answered_all n s : Answered clock n [] s None s
| answered_next n call calls s s1 r s2 :
    answer_of (clock n) call s = (None, s1) -> Answered clock (S n) calls s1 r s2 ->
    Answered clock n (call :: calls) s r s2
| answered_failed n call calls s e s1 :
    answer_of (clock n) call s = (Some e, s1) -> Answered clock n (call :: calls) s (Some e) s1.

(** What a projection meets: rules that cannot plan, a plan that is refused, or
    the answers to its calls. *)
Inductive Meets (p : Projector.t) (clock : nat -> Time) (event : Event.t) (s : AnySvc) :
    option Failure -> AnySvc -> Prop :=
| meets_no_plan f : Projector.rules p (input p event) = Err f -> Meets p clock event s (Some f) s
| meets_refusal steps f :
    Projector.rules p (input p event) = Ok steps -> validatePlan event steps = Err f ->
    Meets p clock event s (Some f) s
| meets_answers steps calls r s' :
    Projector.rules p (input p event) = Ok steps -> validatePlan event steps = Ok tt ->
    CallsOf (Projector.batch p) steps calls -> Answered clock 0 calls s r s' ->
    Meets p clock event s (FromNotify <$> r) s'.

(** A failure no later attempt can change. *)
Definition hopeless (f : Failure) : Prop :=
  is_invalid_plan f = true \/ is_notify f Notification.ErrValidation = true \/
  is_notify f Notification.ErrConfiguration = true \/ is_engine f Errors.ErrConfiguration = true.

Lemma unfixable_hopeless f : unfixable f = true <-> hopeless f.
Proof. unfold unfixable, hopeless. rewrite !orb_true_iff. tauto. Qed.

Lemma answered_app clock n calls calls' (s : AnySvc) s1 r s2 :
  Answered clock n calls s None s1 -> Answered clock (n + length calls) calls' s1 r s2 ->
  Answered clock n (calls ++ calls') s r s2.
Proof.
  intros Hfirst. remember None as none eqn:En.
  induction Hfirst as [n s|n call calls s s3 r' s4 Hc _ IH|]; [| |done].
  - by rewrite Nat.add_0_r.
  - intros Hlater. apply (answered_next clock n call (calls ++ calls') s s3 r s2 Hc). apply IH; [done|].
    by rewrite Nat.add_succ_comm.
Qed.

Lemma answered_app_failed clock n calls calls' (s : AnySvc) e s1 :
  Answered clock n calls s (Some e) s1 -> Answered clock n (calls ++ calls') s (Some e) s1.
Proof.
  intros Hfirst. remember (Some e) as some eqn:Ee.
  induction Hfirst as [|n call calls s s3 r' s4 Hc _ IH|n call calls s e' s3 Hc]; [done|..].
  - eapply answered_next; [exact Hc|by apply IH].
  - injection Ee as ->. by eapply answered_failed.
Qed.

(** How a run of batches or steps ended, in terms of the calls it made. *)
Definition ended (clock : nat -> Time) (n : nat) (calls : list Call) (s : AnySvc)
    (out : outcome nat * AnySvc) : Prop :=
  match out with
  | (Ok m, s') => m = n + length calls /\ Answered clock n calls s None s'
  | (Err f, s') => exists e, f = FromNotify e /\ Answered clock n calls s (Some e) s'
  end.

Lemma publish_batches_ended clock batches : forall n (s : AnySvc),
  ended clock n (Publishes <$> batches) s (publish_batches clock n batches s).
Proof.
  induction batches as [|batch rest IH]; intros n s; cbn [publish_batches].
  { split; [cbn; lia|constructor]. }
  assert (Ha : answer_of (clock n) (Publishes batch) s =
            (match (NotifyService.Publish (clock n) batch s).1.2 with Ok _ => None | Err e => Some e end,
             (NotifyService.Publish (clock n) batch s).2)).
  { cbn. by destruct (NotifyService.Publish (clock n) batch s) as [[? [?|?]] ?]. }
  destruct (NotifyService.Publish (clock n) batch s) as [[ins [u|e]] s1]; cbn [fst snd] in Ha.
  - specialize (IH (S n) s1). unfold ended in *.
    destruct (publish_batches clock (S n) rest s1) as [[m|f] s2].
    + destruct IH as [-> IH]. split; [cbn; lia|]. by eapply answered_next.
    + destruct IH as (e & -> & IH). exists e. split; [done|]. by eapply answered_next.
  - exists e. split; [done|]. by apply answered_failed.
Qed.

Lemma run_step_ended clock size n step (s : AnySvc) : (1 <= size)%Z ->
  exists calls, (forall rest later, CallsOf size rest later -> CallsOf size (step :: rest) (calls ++ later)) /\
    ended clock n calls s (run_step clock size n step s).
Proof.
  intros Hsize. destruct step as [[req|] drafts]; unfold run_step; cbn [Step.Close Step.Publish].
  - exists [Closes req]. split; [intros rest later; by apply calls_close|].
    assert (Ha : answer_of (clock n) (Closes req) s =
              (match (NotifyService.Close (clock n) req s).1 with Ok _ => None | Err e => Some e end,
               (NotifyService.Close (clock n) req s).2)).
    { cbn. by destruct (NotifyService.Close (clock n) req s) as [[?|?] ?]. }
    destruct (NotifyService.Close (clock n) req s) as [[r|e] s1]; cbn [fst snd] in Ha.
    + split; [cbn; lia|]. eapply answered_next; [exact Ha|constructor].
    + exists e. split; [done|]. by apply answered_failed.
  - exists (Publishes <$> chunks (length drafts) drafts size).
    destruct (chunks_join (length drafts) drafts size Hsize (le_n _)) as [Hj Hb].
    split; [intros rest later; by apply calls_publish|apply publish_batches_ended].
Qed.

Lemma run_steps_ended clock size : (1 <= size)%Z -> forall steps n (s : AnySvc),
  exists calls, CallsOf size steps calls /\ ended clock n calls s (run_steps clock size n steps s).
Proof.
  intros Hsize. induction steps as [|step rest IH]; intros n s; cbn [run_steps].
  { exists []. split; [constructor|]. split; [cbn; lia|constructor]. }
  destruct (run_step_ended clock size n step s Hsize) as (calls & Hc & He).
  destruct (run_step clock size n step s) as [[m|f] s1]; cbn [ended] in He.
  - destruct He as [-> He]. destruct (IH (n + length calls) s1) as (calls' & Hc' & He').
    exists (calls ++ calls'). split; [by apply Hc|]. unfold ended in *.
    destruct (run_steps clock size (n + length calls) rest s1) as [[m|f] s2].
    + destruct He' as [-> He']. split; [rewrite length_app; lia|]. by eapply answered_app.
    + destruct He' as (e & -> & He'). exists e. split; [done|]. by eapply answered_app.
  - destruct He as (e & -> & He). destruct (IH n s1) as (calls' & Hc' & _).
    exists (calls ++ calls'). split; [by apply Hc|]. exists e. split; [done|].
    by apply answered_app_failed.
Qed.

(** What [Deliver] makes of a failure. *)
Lemma failed_delivery p clock event where_ f (s s1 : AnySvc) :
  Meets p clock event s (Some f) s1 ->
  let '(out, reported, s') :=
    if negb (unfixable (Within where_ f))
    then (Outcome.Retryable (as_error (Within where_ f)), [], s1)
    else (Outcome.Delivered, [Within where_ f], s1) in
  exists met, Meets p clock event s met s' /\
  match met with
  | None => out = Outcome.Delivered /\ reported = []
  | Some f =>
      (hopeless f -> out = Outcome.Delivered /\ reported = [Within where_ f]) /\
      (~ hopeless f -> reported = [] /\ exists e, out = Outcome.Retryable e /\
         Errors.Error e = where_ +:+ ": " +:+ Failure_Error f /\
         forall sentinel, Errors.errors_Is e sentinel = is_engine f sentinel)
  end.
Proof.
  intros Hm. change (unfixable (Within where_ f)) with (unfixable f).
  pose proof (unfixable_hopeless f) as Hu.
  destruct (unfixable f); cbn [negb]; exists (Some f); (split; [done|]); (split; [|]); intros Hh.
  - done.
  - destruct Hh. by apply Hu.
  - by apply Hu in Hh.
  - split; [done|]. eexists. split_and!; [done|done|]. intros sentinel.
    apply (as_error_matches (Within where_ f)).
Qed.

(** C27: What becomes of a delivery, whatever store and broadcaster stand behind
    the notification service.  A projection meets one of three things: rules that
    cannot plan, a plan that breaks the contract - both before any call - or the
    answers of the service to its calls, which are those of the plan in its order,
    published drafts in batches no larger than the projector's, stopping at the
    first that fails.  When no call fails the event is delivered and nothing is
    reported.  A failure no later attempt can change - an invalid plan, a rejected
    draft, a missing setting - is reported once, naming the event and the task, and
    counts as delivered, so the events after it go on.  Every other failure, a store
    that is down among them, is answered retryable and not reported, with an error
    that names the event and the task and matches what the failure matched.  No
    event is ever given up, and what was done before the failure stays. *)
Theorem delivery_outcome p clock attempt (s : AnySvc) :
  (1 <= Projector.batch p)%Z ->
  let event := Attempt.Event attempt in
  let where_ := "tasknotify: project event " +:+ Event.ID event +:+ " on task " +:+
                Event.TaskID event in
  let '(out, reported, s') := Deliver p clock attempt s in
  exists met, Meets p clock event s met s' /\
    match met with
    | None => out = Outcome.Delivered /\ reported = []
    | Some f =>
        (hopeless f -> out = Outcome.Delivered /\ reported = [Within where_ f]) /\
        (~ hopeless f -> reported = [] /\ exists e, out = Outcome.Retryable e /\
           Errors.Error e = where_ +:+ ": " +:+ Failure_Error f /\
           forall sentinel, Errors.errors_Is e sentinel = is_engine f sentinel)
    end.
Proof.
  intros Hsize. cbv zeta. unfold Deliver, project.
  set (event := Attempt.Event attempt). set (where_ := "tasknotify: project event " +:+ _ +:+ _ +:+ _).
  pose proof (fun f s1 => failed_delivery p clock event where_ f s s1) as Hfail.
  destruct (Projector.rules p (input p event)) as [steps|f] eqn:Er; [|by apply Hfail, meets_no_plan].
  destruct (validatePlan event steps) as [[]|f] eqn:Ev; [|by eapply Hfail, meets_refusal].
  destruct (run_steps_ended clock (Projector.batch p) Hsize steps 0 s) as (calls & Hc & He).
  destruct (run_steps clock (Projector.batch p) 0 steps s) as [[m|f] s1]; cbn [rbind].
  - destruct He as [_ He]. exists None. split; [|done].
    apply (meets_answers p clock event s steps calls None); done.
  - destruct He as (e & -> & He). apply Hfail.
    apply (meets_answers p clock event s steps calls (Some e)); done.
Qed.
End outcome.

Section world.
Context {G B : Type} `{IDG : !Notification.IDGenerator G, !Broadcaster B}.
Context (digest : string -> string).
Context (render : cursorPayload.t -> string) (parse : string -> option cursorPayload.t).

#[local] Instance memory : NotifyService.Store MemoryStore.t := MemoryStore_Store digest render parse.

Abbreviation Svc := (NotifyService.Service.t G MemoryStore.t B).

(** ** When the generator of identifiers answers *)

Definition always_mints : Prop := forall g : G, is_ok (NewID g).1 = true.

Section minting.
Context (mints : always_mints).

Lemma minted g : exists id g', NewID g = (Ok id, g').
Proof. pose proof (mints g). destruct (NewID g) as [[id|e] g']; [eauto|done]. Qed.

Lemma stamp_drafts_minted now drafts m (g : G) : is_ok (stamp_drafts now drafts m g).1 = true.
Proof.
  revert m g. induction drafts as [|d drafts IH]; intros m g; cbn [stamp_drafts]; [done|].
  unfold sbind. destruct (minted g) as (id & g' & ->). apply IH.
Qed.

Lemma stamp_successors_minted req successor at_ recipients (g : G) :
  is_ok (stamp_successors req successor at_ recipients g).1 = true.
Proof.
  revert g. induction recipients as [|r recipients IH]; intros g; cbn [stamp_successors]; [done|].
  destruct (contains _ r); [apply IH|]. unfold sbind. destruct (minted g) as (id & g' & ->).
  specialize (IH g'). by destruct (stamp_successors _ _ _ _ g') as [[l|e] g''].
Qed.

Lemma insert_subjects_ok m subjects r (d : MemoryStore.t) :
  (insert_subjects m subjects r d).1.2 = Ok tt.
Proof.
  revert r d. induction subjects as [|subject subjects IH]; intros r d; [done|].
  cbn [insert_subjects]. cbn [store_Insert memory MemoryStore_Store]. unfold NotifyStore.Insert.
  destruct (insert_ _ _ d) as [result d']. apply IH.
Qed.

Lemma Publish_accepted now drafts (s : Svc) :
  (forall d, d ∈ drafts -> Draft_Validate d = Ok tt) ->
  is_ok (NotifyService.Publish now drafts s).1.2 = true.
Proof.
  intros Hall. unfold NotifyService.Publish. rewrite (draft_issues_nil drafts Hall).
  destruct drafts as [|d rest]; [done|].
  pose proof (stamp_drafts_minted (normalizeTime now) (d :: rest) ∅ (NotifyService.Service.ids s)) as Hm.
  destruct (stamp_drafts _ _ _ _) as [[m|e] g]; [|done].
  pose proof (insert_subjects_ok m (sorted_keys m) InsertResult.zero
                (NotifyService.Service.store s)) as Hi. cbn [fst snd] in *.
  set (out := insert_subjects m (sorted_keys m) InsertResult.zero _) in *.
  change (is_ok (let '(inserted, failure, d0) := out in
    (inserted, failure, signal (signalsFor (recipientsOf (InsertResult.Created inserted))
       ChangeCreated (normalizeTime now))
       (s <| NotifyService.Service.ids := g |> <| NotifyService.Service.store := d0 |>))).1.2 = true).
  destruct out as [[inserted failure] d']. cbn [fst snd] in *. by rewrite Hi.
Qed.

Lemma Close_accepted now req (s : Svc) :
  CloseRequest_Validate req = Ok tt -> is_ok (NotifyService.Close now req s).1 = true.
Proof.
  intros Hv. unfold NotifyService.Close. rewrite Hv.
  change (store_Close req (normalizeTime now)
            (NotifyService.Service.ids s, NotifyService.Service.store s))
    with (NotifyStore.Close req (normalizeTime now)
            (NotifyService.Service.ids s, NotifyService.Service.store s)).
  assert (Hc : is_ok (NotifyStore.Close req (normalizeTime now)
            (NotifyService.Service.ids s, NotifyService.Service.store s)).1 = true).
  { unfold NotifyStore.Close. destruct (close_subject _ _ _) as [[closed recipients] d].
    unfold SuccessorInsertions. destruct (CloseRequest.Successor_ req) as [successor|]; [|done].
    pose proof (stamp_successors_minted req successor (normalizeTime (normalizeTime now))
      (CloseResult.Recipients (CloseResult.mk closed (sort_strings (elements recipients)) [] 0))
      (NotifyService.Service.ids s)) as Hm.
    destruct (stamp_successors _ _ _ _ _) as [[l|e] g]; [|done].
    destruct (decide (l <> [])); [|done]. by destruct (insert_ _ l d). }
  by destruct (NotifyStore.Close _ _ _) as [[result|e] [g d]].
Qed.

Lemma publish_batches_accepted clock n batches (s : Svc) :
  (forall d, d ∈ concat batches -> Draft_Validate d = Ok tt) ->
  is_ok (publish_batches clock n batches s).1 = true.
Proof.
  revert n s. induction batches as [|batch rest IH]; intros n s Hall; cbn [publish_batches]; [done|].
  cbn [concat] in Hall. setoid_rewrite elem_of_app in Hall.
  pose proof (Publish_accepted (clock n) batch s ltac:(auto)) as Hp.
  destruct (NotifyService.Publish (clock n) batch s) as [[ins [[]|e]] s1]; [|done].
  apply IH. auto.
Qed.

Lemma run_steps_accepted clock size n steps (s : Svc) :
  (1 <= size)%Z -> Forall accepted steps ->
  is_ok (run_steps clock size n steps s).1 = true.
Proof.
  intros Hsize. revert n s. induction steps as [|step rest IH]; intros n s Hall; cbn [run_steps]; [done|].
  apply Forall_cons in Hall as [Hstep Hall].
  assert (H1 : is_ok (run_step clock size n step s).1 = true).
  { unfold accepted in Hstep. unfold run_step. destruct (Step.Close step) as [req|].
    - pose proof (Close_accepted (clock n) req s Hstep).
      by destruct (NotifyService.Close (clock n) req s) as [[r|e] s1].
    - apply publish_batches_accepted.
      by rewrite (proj1 (chunks_join (length (Step.Publish step)) _ size Hsize (le_n _))). }
  destruct (run_step clock size n step s) as [[k|f] s1]; [|done]. by apply IH.
Qed.
End minting.

(** * Properties *)

(** The contract of the default rules.  Whatever the event and however the
    projector is set up, a plan of theirs passes the check of [Deliver]; each of
    its drafts is on the event's task, at its version, sourced from it, and
    addressed to someone other than the actor, no one twice; each of its closes
    is of the task at that version and never notifies the actor of it; and for a
    closing event the plan is one close of every kind. *)
Theorem default_rules_contract p event steps :
  DefaultRules (input p event) = Ok steps ->
  validatePlan event steps = Ok tt /\
  (forall d, d ∈ drafts_of steps ->
     Draft.Subject d = Event.TaskID event /\ Draft.SubjectVersion d = Event.Version event /\
     Draft.SourceID d = Event.ID event /\ Draft.Recipient d <> Event.Actor event) /\
  NoDup (Draft.Recipient <$> drafts_of steps) /\
  (forall step req, step ∈ steps -> Step.Close step = Some req ->
     CloseRequest.Subject req = Event.TaskID event /\
     CloseRequest.Version req = Event.Version event /\
     (is_Some (CloseRequest.Successor_ req) ->
      Event.Actor event ∈ CloseRequest.SuccessorSkip req)) /\
  (closes_on p (Event.Status event) = true ->
   exists reason, steps = [close_at event [] reason "" None []]).
Proof.
  unfold DefaultRules. intros Hp. pose proof (default_shape p event steps Hp) as Hs.
  split; [by apply shaped_valid|].
  assert (Hd : drafts_of steps = [] \/ Told event (drafts_of steps)).
  { unfold drafts_of. destruct Hs as [|drafts Ht|req _|req drafts _ Ht _ _];
      rewrite ?fmap_cons; cbn [concat Step.Publish publish_step closing_step fmap list_fmap app];
      rewrite ?app_nil_r; auto. }
  split_and!.
  - intros d Hin. destruct Hd as [E|Ht]; [rewrite E in Hin; by apply elem_of_nil in Hin|].
    pose proof (told_others _ _ Ht d Hin). by destruct (told_for _ _ Ht d Hin).
  - destruct Hd as [->|Ht]; [constructor|apply Ht].
  - intros step req Hin Hreq.
    pose proof (proj1 (Forall_forall _ _) (shaped_steps _ _ Hs) step Hin) as Hf.
    unfold StepFor in Hf. rewrite Hreq in Hf. split_and!; [apply Hf..|].
    intros [sc Hsc]. by eapply retires_skip.
  - intros Hc. unfold defaultPlan in Hp. cbn [Input.Closing Input.Event input] in Hp.
    rewrite Hc in Hp. injection Hp as <-. by eexists.
Qed.

(** Delivering an event under the default rules and content succeeds whenever
    the ports answer: the generator of identifiers mints, the candidates resolve,
    and the names of the event fit.  Nothing the projector builds is refused. *)
Theorem default_delivery_succeeds p clock attempt (s : Svc) :
  always_mints -> Projector.rules p = DefaultRules -> default_content p ->
  (1 <= Projector.batch p)%Z -> FitEvent p (Attempt.Event attempt) ->
  exists s', Deliver p clock attempt s = (Outcome.Delivered, [], s').
Proof.
  intros Hmint Hrules Hp Hsize Hf. unfold Deliver, project. rewrite Hrules. unfold DefaultRules.
  destruct (default_accepted p _ Hp Hf) as (steps & Es & Hall). rewrite Es.
  rewrite (shaped_valid _ _ (default_shape _ _ _ Es)).
  pose proof (run_steps_accepted Hmint clock (Projector.batch p) 0 steps s Hsize Hall) as Hr.
  destruct (run_steps _ _ _ _ _) as [[n|f] s']; [|done]. by exists s'.
Qed.

(** A finished task falls silent.  Once an event that closes its task was
    delivered under the default rules, no notification of the task below the
    event's version is open for anyone, whatever is delivered, published, closed,
    read or pruned afterwards, as long as pruning keeps the close record and no
    clock steps back behind the delivery: an offer that arrives late is never
    shown. *)
Theorem finished_task_falls_silent p clock attempt (s s1 : Svc) used l id n :
  let event := Attempt.Event attempt in
  WorldOk s used -> Projector.rules p = DefaultRules ->
  closes_on p (Event.Status event) = true ->
  Deliver p clock attempt s = (Outcome.Delivered, [], s1) ->
  Forall (later (normalizeTime (clock 0))) l ->
  notifications (NotifyService.Service.store (happens digest render parse l s1)) !! id = Some n ->
  Notification.Subject n = Event.TaskID event ->
  (Notification.SubjectVersion n < Event.Version event)%Z ->
  Notification.State_ n = StateClosed.
Proof.
  cbv zeta. set (event := Attempt.Event attempt). intros Hs Hrules Hclosing Hd Hl.
  destruct (Deliver_ran digest render parse p clock attempt s s1 Hrules Hd)
    as (steps & m & Hp & _ & Hr).
  unfold defaultPlan in Hp. cbn [Input.Closing Input.Event input] in Hp. fold event in Hp.
  rewrite Hclosing in Hp. injection Hp as <-.
  unfold plan in Hr. rewrite run_steps_one in Hr. unfold close_at in Hr.
  set (req := {| CloseRequest.Subject := _ |}) in Hr.
  assert (Hc : is_ok (NotifyService.Close (clock 0) req s).1 = true /\
               s1 = (NotifyService.Close (clock 0) req s).2).
  { unfold run_step in Hr. cbn [closing_step Step.Close] in Hr.
    by destruct (NotifyService.Close (clock 0) req s) as [[r|e] s']; simplify_eq. }
  destruct Hc as [Hok ->].
  destruct (Close_store digest render parse (clock 0) req s used Hs)
    as [(_ & _ & E)|(Hv & drawn & Hins)]; [by pose proof (eq_trans (eq_sym Hok) E)|].
  destruct (perform_keeps digest render parse (OpClose (clock 0) req) s used Hs)
    as (used1 & _ & Hs1 & _).
  assert (Hse : Sealed req (normalizeTime (clock 0))
                  (NotifyService.Service.store (NotifyService.Close (clock 0) req s).2)).
  { eapply Sealed_inserted; [exact Hins|]. apply close_subject_sealed; [apply Hs|lia]. }
  destruct (happens_performs digest render parse (normalizeTime (clock 0)) l
              (NotifyService.Close (clock 0) req s).2 Hl) as (ops & -> & Hops).
  intros Hid Hsub Hver.
  apply (sealed_closed _ _ _ (performs_sealed digest render parse req _ ops _ used1 Hs1 Hops Hse)
           id n Hid Hsub); [by left|exact Hver|done].
Qed.

(** What a second delivery writes, in terms of its own plan. *)
Lemma redelivery_writes p r clock clock' attempt again (s s1 : Svc) used :
  WorldOk s used -> Projector.rules p = DefaultRules -> (1 <= Projector.batch p)%Z ->
  Attempt.Event again = Attempt.Event attempt ->
  Deliver p clock attempt s = (Outcome.Delivered, [], s1) ->
  let event := Attempt.Event attempt in
  let st := NotifyService.Service.store s1 in
  let st' := NotifyService.Service.store (Deliver (with_directory r p) clock' again s1).2 in
  exists steps' : Plan, Shaped event steps' /\ notifications st ⊆ notifications st' /\
    (forall key, mark_of st' key = mark_of st key) /\
    forall id x, notifications st' !! id = Some x ->
      notifications st !! id = Some x \/
      exists d actors actors', d ∈ drafts_of steps' /\ written d x /\ Draft.Kind d = KindOffer /\
        eligible_for p event = Ok actors /\ eligible_for (with_directory r p) event = Ok actors' /\
        Draft.Recipient d ∈ actors' /\ Draft.Recipient d ∉ actors.
Proof.
  intros Hs Hrules Hsize Hev Hd. cbv zeta. set (event := Attempt.Event attempt).
  destruct (Deliver_ran digest render parse p clock attempt s s1 Hrules Hd)
    as (steps & m & Hp & Hshape & Hr). fold event in Hp, Hshape.
  pose proof (run_settles digest render parse clock _ 0 _ steps s used m s1 Hs Hshape Hsize Hr) as Hset.
  destruct (Deliver_performs digest render parse p clock attempt s) as (ops & E & _).
  destruct (performs_keep digest render parse ops s used Hs) as (used1 & _ & Hs1 & _).
  assert (Es : s1 = performs digest render parse ops s)
    by (rewrite <- E; exact (f_equal snd (eq_sym Hd))).
  rewrite <- Es in Hs1.
  assert (Ep : (Deliver (with_directory r p) clock' again s1).2 =
               (project (with_directory r p) clock' (Attempt.Event again) s1).2)
    by apply (Deliver_project digest render parse).
  rewrite Ep, Hev. fold event. unfold project.
  change (Projector.rules (with_directory r p)) with (Projector.rules p). rewrite Hrules.
  unfold DefaultRules. destruct (defaultPlan (input (with_directory r p) event)) as [steps'|f] eqn:Hp'.
  2: { exists []. split_and!; [constructor|done|done|by left]. }
  exists steps'. pose proof (default_shape _ _ _ Hp') as Hshape'.
  rewrite (shaped_valid _ _ Hshape').
  pose proof (run_replanned digest render parse clock' (Projector.batch p) 0 event _ _ steps steps' s1 used1
                Hs1 (shaped_steps _ _ Hshape') Hsize (default_replanned r p event _ _ Hp Hp') Hset) as Ha.
  revert Ha. change (TaskNotifyFacts.memory digest render parse) with memory.
  change (Projector.batch (with_directory r p)) with (Projector.batch p).
  by destruct (run_steps clock' (Projector.batch p) 0 steps' s1) as [r' s2].
Qed.

(** C26: Delivering an event again reaches newcomers only.  When a delivery under
    the default rules has succeeded, deliver the same event once more, at any later
    time and whatever becomes of it, with the directory of groups as it is by then.
    Every notification stays as it is and so does every close version; a
    notification that is new is an offer of this event, to someone its pool expands
    to now and did not expand to then.  With the membership of then nothing at all
    is written. *)
Theorem redelivery_reaches_newcomers p r clock clock' attempt again (s s1 : Svc) used :
  WorldOk s used -> Projector.rules p = DefaultRules -> (1 <= Projector.batch p)%Z ->
  Attempt.Event again = Attempt.Event attempt ->
  Deliver p clock attempt s = (Outcome.Delivered, [], s1) ->
  let event := Attempt.Event attempt in
  let p' := with_directory r p in
  let st := NotifyService.Service.store s1 in
  let st' := NotifyService.Service.store (Deliver p' clock' again s1).2 in
  (forall id n, notifications st !! id = Some n -> notifications st' !! id = Some n) /\
  (forall key, mark_of st' key = mark_of st key) /\
  (forall id n, notifications st' !! id = Some n ->
     notifications st !! id = Some n \/
     Notification.Kind n = KindOffer /\ Notification.SourceID n = Event.ID event /\
     Notification.Subject n = Event.TaskID event /\
     Notification.SubjectVersion n = Event.Version event /\
     exists actors actors', eligible_for p event = Ok actors /\ eligible_for p' event = Ok actors' /\
       Notification.Recipient n ∈ actors' /\ Notification.Recipient n ∉ actors) /\
  (resolver_of p' = resolver_of p -> notifications st' = notifications st).
Proof.
  intros Hs Hrules Hsize Hev Hd. cbv zeta. set (event := Attempt.Event attempt).
  destruct (redelivery_writes p r clock clock' attempt again s s1 used Hs Hrules Hsize Hev Hd)
    as (steps' & Hshape & Hsub & Hmarks & Hnew). cbv zeta in Hmarks, Hnew. fold event in Hshape, Hnew.
  assert (Hold : forall id n, notifications (NotifyService.Service.store s1) !! id = Some n ->
    notifications (NotifyService.Service.store (Deliver (with_directory r p) clock' again s1).2) !! id = Some n)
    by (intros id n Hn; by eapply lookup_weaken).
  split_and!; [done|done| |].
  - intros id n [Hn|(d & actors & actors' & Hin & Hw & Hk & Ha & Ha' & Hr & Hno)]%Hnew; [by left|right].
    destruct (drafts_told _ _ Hshape d Hin) as [_ _ Hsd Hvd Hid].
    destruct Hw as [Es Ek Er Eid Ev]. rewrite Es, Ek, Er, Eid, Ev. split_and!; try done.
    by exists actors, actors'.
  - intros Er. apply map_eq. intros id. apply option_eq. intros n. split; [|apply Hold].
    intros [Hn|(d & actors & actors' & _ & _ & _ & Ha & Ha' & Hr & Hno)]%Hnew; [done|].
    unfold eligible_for in Ha, Ha'. rewrite Er in Ha'. by assert (actors' = actors) as -> by congruence.
Qed.
End world.

(** * At concrete inputs *)

From S2P Require Import EngineExamples NotifyExamples.

Definition projector : Projector.t := {|
  Projector.engine := Some EngineExamples.office; Projector.name := "inbox";
  Projector.batch := 1; Projector.taskLink := DefaultTaskLinkTemplate;
  Projector.closing := defaultClosingStatuses; Projector.rules := DefaultRules;
  Projector.titles := None; Projector.data := None; Projector.links := None;
  Projector.problems := [] |}.

Example projector_built :
  TaskNotify.New (Some EngineExamples.office) true
    [Some (WithSinkName "inbox"); None; Some (WithPublishBatch 1); Some (WithErrorHandler true)] =
  Ok projector.
Proof. reflexivity. Qed.

Definition event_of (id : string) (kind : EventType) (status : Status) (version : Z)
    (actor : string) : Event.t := {|
  Event.ID := id; Event.Type_ := kind; Event.TaskID := "t1"; Event.TaskType := "approval";
  Event.Status := status; Event.Version := version; Event.Actor := actor; Event.Assignee := "";
  Event.Candidates := CandidatePool.mk ["ann"; "bob"; "sys"] [] [];
  Event.PreviousAssignee := ""; Event.CreatedBy := "sys"; Event.OccurredAt := 0;
  Event.Correlation := CorrelationData.empty; Event.Callback := None;
  Event.Transition := TransitionRecord.mk "t1" version OpCreate status status actor "" 0;
  Event.Reason := ""; Event.Output := None |}.

Definition offered : Event.t := event_of "e1" EventTypeCreated StatusReady 1 "sys".
Definition claimed : Event.t := event_of "e2" EventTypeClaimed StatusReserved 2 "ann".
Definition completed : Event.t := event_of "e3" EventTypeCompleted StatusCompleted 4 "ann".

Definition attempt (event : Event.t) : Attempt.t := Attempt.mk event (Event.ID event) 1.
Definition clock (k : nat) : Time := (5000000 + 1000 * Z.of_nat k)%Z.
Definition delivered (event : Event.t) (s : Svc) : Svc := (Deliver projector clock (attempt event) s).2.

Definition seen (s : Svc) : list (string * string * string * State) :=
  (fun n => (Notification.Recipient n, Notification.Kind n, Notification.Title n,
             Notification.State_ n)) <$> values (notifications (Service.store s)).

Definition posted : Svc := delivered offered begin.
Definition taken : Svc := delivered claimed posted.
Definition finished : Svc := delivered completed taken.

Example posted_seen : seen posted =
  [("bob", "offer", "Task available: approval", StateActive);
   ("ann", "offer", "Task available: approval", StateActive)].
Proof. vm_compute. reflexivity. Qed.

Example taken_seen : seen taken =
  [("bob", "offer", "Task available: approval", StateClosed);
   ("bob", "taken", "Task taken by ann: approval", StateActive);
   ("ann", "offer", "Task available: approval", StateClosed)].
Proof. vm_compute. reflexivity. Qed.

Lemma delivered_ok event s used : WorldOk s used -> exists used', WorldOk (delivered event s) used'.
Proof.
  intros Hs. unfold delivered.
  destruct (Deliver_performs digest render parse projector clock (attempt event) s) as (ops & E & _).
  destruct (performs_keep digest render parse ops s used Hs) as (used' & _ & Hw & _).
  exists used'. rewrite <- E in Hw. exact Hw.
Qed.

Lemma taken_ok : exists used, WorldOk taken used.
Proof.
  destruct (delivered_ok offered begin [] begin_ok) as [used1 H1].
  by apply (delivered_ok claimed posted used1).
Qed.

(** * Witnesses *)

Lemma default_rules_contract_witness :
  exists steps, DefaultRules (input projector claimed) = Ok steps /\
    validatePlan claimed steps = Ok tt /\ length steps = 1.
Proof.
  eexists. split; [vm_compute; reflexivity|]. split; [|reflexivity].
  apply (default_rules_contract projector claimed). vm_compute. reflexivity.
Defined.

Lemma default_delivery_succeeds_witness :
  exists s', Deliver projector clock (attempt offered) begin = (Outcome.Delivered, [], s').
Proof.
  apply (default_delivery_succeeds digest render parse projector clock (attempt offered) begin).
  - intros g. reflexivity.
  - reflexivity.
  - repeat split.
  - reflexivity.
  - constructor; [done|done|by cbn|by left|]. exists ["ann"; "bob"]. split; [vm_compute; reflexivity|].
    repeat (apply Forall_cons_2; [done|]). apply Forall_nil_2.
Defined.

(** The offer of the task, delivered once more after it was completed, and a
    notification published late. *)
Definition afterwards : list Happening :=
  [Delivers projector (fun k => 9000000 + clock k)%Z (attempt offered);
   Does (OpPublish 9000000 [(NotifyExamples.draft "cid" "e0" "offer" 1) <| Draft.Subject := "t1" |>])].

Lemma finished_task_falls_silent_witness :
  exists n, notifications (Service.store (happens digest render parse afterwards finished)) !! "n2" = Some n /\
    Notification.State_ n = StateClosed.
Proof.
  destruct taken_ok as [used Hok].
  assert (Hd : Deliver projector clock (attempt completed) taken = (Outcome.Delivered, [], finished)).
  { vm_compute. reflexivity. }
  assert (Hn : exists n, notifications (Service.store (happens digest render parse afterwards finished)) !! "n2" = Some n /\
            Notification.Subject n = "t1" /\ Notification.SubjectVersion n = 2%Z).
  { eexists. split; [vm_compute; reflexivity|]. split; reflexivity. }
  destruct Hn as (n & Hn & Hs & Hv). exists n. split; [exact Hn|].
  apply (finished_task_falls_silent digest render parse projector clock (attempt completed)
           taken finished used afterwards "n2" n Hok eq_refl eq_refl Hd).
  - apply Forall_cons_2; [|apply Forall_cons_2; [exact I|apply Forall_nil_2]].
    intros k. change (normalizeTime (clock 0)) with 5000000%Z. unfold normalizeTime.
    pose proof (Z.mod_pos_bound (9000000 + clock k) Microsecond eq_refl) as Hm.
    change Microsecond with 1000%Z in *. unfold clock in *. lia.
  - exact Hn.
  - exact Hs.
  - rewrite Hv. reflexivity.
Defined.

(** A task offered to a group that has one more member at the second delivery. *)
Definition pooled : Event.t :=
  offered <| Event.Candidates := CandidatePool.mk [] ["team"] [] |>.

Definition team (members : list string) : option GroupResolver.t :=
  Some (StaticAssignment.resolver (StaticAssignment.NewStaticAssignment {["team" := members]})).

Lemma redelivery_reaches_newcomers_witness :
  let p := with_directory (team ["ann"]) projector in
  let p' := with_directory (team ["ann"; "bob"]) p in
  let s1 := (Deliver p clock (attempt pooled) begin).2 in
  let s2 := (Deliver p' (fun k => 8000000 + clock k)%Z (Attempt.mk pooled "again" 2) s1).2 in
  seen s1 = [("ann", "offer", "Task available: approval", StateActive)] /\
  seen s2 = [("bob", "offer", "Task available: approval", StateActive);
             ("ann", "offer", "Task available: approval", StateActive)] /\
  forall key, mark_of (Service.store s2) key = mark_of (Service.store s1) key.
Proof.
  split; [vm_compute; reflexivity|]. split; [vm_compute; reflexivity|].
  apply (redelivery_reaches_newcomers digest render parse (with_directory (team ["ann"]) projector)
           (team ["ann"; "bob"]) clock (fun k => 8000000 + clock k)%Z (attempt pooled)
           (Attempt.mk pooled "again" 2) begin _ [] begin_ok eq_refl).
  - done.
  - reflexivity.
  - vm_compute. reflexivity.
Defined.

(** A store that is down. *)
Module Down.
Definition gone : Notification.error := Notification.External "connection refused".
#[export] Instance port : NotifyService.Store unit := {|
  NotifyService.store_Insert := fun _ _ d => (Err gone, d);
  NotifyService.store_Close := fun _ _ _ _ gd => (Err gone, gd);
  NotifyService.store_Get := fun _ _ _ => Err gone;
  NotifyService.store_List := fun _ _ => Err gone;
  NotifyService.store_CountActive := fun _ _ => Err gone;
  NotifyService.store_MarkRead := fun _ _ _ d => (Err gone, d);
  NotifyService.store_MarkAllRead := fun _ _ _ d => (Err gone, d);
  NotifyService.store_Prune := fun _ d => (Err gone, d)
|}.
End Down.

(** Nothing is reported and the event is retried; the identifier drawn for the
    first batch is gone. *)
Lemma delivery_outcome_witness :
  let s := NotifyService.Service.mk tt 0 [] [] : NotifyService.Service.t nat unit (list Signal.t) in
  let '(out, reported, s') := Deliver (H0 := Down.port) projector clock (attempt offered) s in
  Outcome.Status out = OutcomeRetryable /\ reported = [] /\ NotifyService.Service.ids s' = 1 /\
  exists met, Meets (H0 := Down.port) projector clock offered s met s'.
Proof.
  pose proof (delivery_outcome (H0 := Down.port) projector clock (attempt offered)
    (NotifyService.Service.mk tt 0 [] [] : NotifyService.Service.t nat unit (list Signal.t))
    ltac:(done)) as H.
  cbv zeta in H |- *.
  destruct (Deliver projector clock (attempt offered) _) as [[out reported] s'] eqn:E.
  destruct H as (met & Hm & _). vm_compute in E. injection E as <- <- <-.
  split_and!; [reflexivity..|]. by exists met.
Defined.
