(* ===== verification/NotifyHub.v ===== *)
(** * NotifyHub: routing signals to open streams

    Models [notify/hub.go].  A hub and its subscriptions are shared by many
    goroutines, so each method is a program of atomic steps on the shared state:
    the hub's mutex and the once of a subscription are steps that wait, the
    critical sections of the run state and of one subscription are one step each,
    and a receive waits for a token in the channel's buffer of one.  What the
    runtime chooses, such as the order a map is ranged over, is any choice. *)

From S2P Require Import Prelude Domain Json Interaction Notification NotifyStore NotifyService.

(** ** Construction *)

Definition Second : Z := 1000000000.
Definition DefaultHeartbeat : Z := (25 * Second)%Z.
Definition DefaultWriteTimeout : Z := (10 * Second)%Z.
Definition DefaultMaxStreamsPerRecipient : Z := 8.

Module hubConfig.
Record t : Type := mk {
  heartbeat : option Z;
  writeTimeout : option Z;
  maxStreams : option Z
}.
#[global] Instance eta : Eta t := fun x => mk (heartbeat x) (writeTimeout x) (maxStreams x).
Definition zero : t := mk None None None.
End hubConfig.

Inductive HubOption : Type :=
| WithHeartbeat (interval : Z)
| WithWriteTimeout (timeout : Z)
| WithMaxStreamsPerRecipient (n : Z).

Definition apply_hub_option (opt : HubOption) (c : hubConfig.t) : hubConfig.t :=
  match opt with
  | WithHeartbeat interval => c <| hubConfig.heartbeat := Some interval |>
  | WithWriteTimeout timeout => c <| hubConfig.writeTimeout := Some timeout |>
  | WithMaxStreamsPerRecipient n => c <| hubConfig.maxStreams := Some n |>
  end.

(** Addresses of runs, channels and subscriptions. *)
Abbreviation address := nat.

Module Hub.
Record t : Type := mk {
  heartbeat : Z;
  writeTimeout : Z;
  maxStreams : Z;
  running : bool;
  current : option address;
  readyCh : address;
  subscriptions : gmap string (gset address)
}.
#[global] Instance eta : Eta t := fun x =>
  mk (heartbeat x) (writeTimeout x) (maxStreams x) (running x) (current x) (readyCh x)
    (subscriptions x).
End Hub.

(** Whether an option was given a value that fails a test. *)
Definition fails_test (test : Z -> bool) (v : option Z) : bool :=
  match v with Some z => negb (test z) | None => false end.

(** [NewHub], told whether its broadcaster is not nil and given the address of
    the channel it makes. *)
Definition NewHub (broadcaster : bool) (opts : list (option HubOption)) (channel : address)
  : res Hub.t :=
  if negb broadcaster
  then Err (ConfigurationError "a hub needs a broadcaster; pass the service's Broadcaster()")
  else
    let cfg := for_each (fun opt c =>
      match opt with Some opt => apply_hub_option opt c | None => c end) opts hubConfig.zero in
    let positive z := bool_decide (0 < z)%Z in
    if fails_test positive (hubConfig.heartbeat cfg)
    then Err (ConfigurationError "a hub heartbeat must be positive")
    else if fails_test positive (hubConfig.writeTimeout cfg)
    then Err (ConfigurationError "a hub write timeout must be positive")
    else if fails_test positive (hubConfig.maxStreams cfg)
    then Err (ConfigurationError "a hub must allow at least one stream per recipient")
    else Ok {|
      Hub.heartbeat := default DefaultHeartbeat (hubConfig.heartbeat cfg);
      Hub.writeTimeout := default DefaultWriteTimeout (hubConfig.writeTimeout cfg);
      Hub.maxStreams := default DefaultMaxStreamsPerRecipient (hubConfig.maxStreams cfg);
      Hub.running := false; Hub.current := None; Hub.readyCh := channel;
      Hub.subscriptions := ∅ |}.

(** ** The shared state *)

(** A [sync.Once]: not begun, begun by a goroutine that has not finished, done. *)
Inductive Once (I : Type) : Type :=
| NotBegun
| Doing (who : I)
| Done.
Arguments NotBegun {I}.
Arguments Doing {I} who.
Arguments Done {I}.

Module Subscription.
(** [ready] is whether its channel holds a token; [pending] stands for the two
    fields [pending] and [has]. *)
Record t (I : Type) : Type := mk {
  recipient : string;
  ready : bool;
  pending : option Signal.t;
  closeOnce : Once I
}.
Arguments mk {I}.
Arguments recipient {I}.
Arguments ready {I}.
Arguments pending {I}.
Arguments closeOnce {I}.
#[global] Instance eta {I} : Eta (t I) := fun x =>
  mk (recipient x) (ready x) (pending x) (closeOnce x).
End Subscription.

Module World.
(** The hub, the goroutine that holds its mutex, the subscriptions and the closed
    channels by address, and the next free address. *)
Record t (I : Type) : Type := mk {
  hub : Hub.t;
  mu : option I;
  subs : gmap address (Subscription.t I);
  closed : gset address;
  next : address
}.
Arguments mk {I}.
Arguments hub {I}.
Arguments mu {I}.
Arguments subs {I}.
Arguments closed {I}.
Arguments next {I}.
#[global] Instance eta {I} : Eta (t I) := fun x =>
  mk (hub x) (mu x) (subs x) (closed x) (next x).
End World.

(** A hub as built, before anybody uses it. *)
Definition start_with {I} (hub : Hub.t) : World.t I :=
  World.mk hub None ∅ ∅ (S (Hub.readyCh hub)).

Section hub.
Context {I : Type} `{EqDecision I}.
Abbreviation World := (World.t I).
Implicit Type w : World.

(** Acting on a subscription by its address; an address no subscription has is no
    pointer a program can hold, and nothing happens there. *)
Definition on_sub (f : Subscription.t I -> Subscription.t I) (sub : address) w : World :=
  w <| World.subs := alter f sub (World.subs w) |>.

Definition on_hub (f : Hub.t -> Hub.t) w : World := w <| World.hub := f (World.hub w) |>.

(** ** Critical sections

    Each is what one goroutine does between a lock and its unlock. *)

(** [Run] up to [Listen]: none when a run is in progress. *)
Definition beginRun w : option address * World :=
  match Hub.current (World.hub w) with
  | Some _ => (None, w)
  | None =>
      let run := World.next w in
      let w := w <| World.next := S (World.next w) |> in
      (Some run, on_hub (fun h => h <| Hub.current := Some run |>) w)
  end.

(** [markReady]: none is the panic of closing a closed channel. *)
Definition markReady (run : address) w : option World :=
  if decide (Hub.current (World.hub w) <> Some run) then Some w
  else if Hub.running (World.hub w) then Some w
  else
    let w := on_hub (fun h => h <| Hub.running := true |>) w in
    let ch := Hub.readyCh (World.hub w) in
    if decide (ch ∈ World.closed w) then None
    else Some (w <| World.closed := {[ch]} ∪ World.closed w |>).

Definition endRun w : World :=
  let w := on_hub (fun h => h <| Hub.current := None |>) w in
  let w := on_hub (fun h => h <| Hub.running := false |>) w in
  if decide (Hub.readyCh (World.hub w) ∈ World.closed w)
  then
    let ch := World.next w in
    let w := w <| World.next := S (World.next w) |> in
    on_hub (fun h => h <| Hub.readyCh := ch |>) w
  else w.

Definition Running w : bool := Hub.running (World.hub w).
Definition Ready w : address := Hub.readyCh (World.hub w).

(** The subscriptions of a recipient. *)
Definition held (recipient : string) w : gset address :=
  default ∅ (Hub.subscriptions (World.hub w) !! recipient).

Definition tooMany w : error :=
  Because ErrTooManyStreams
    (pretty (Hub.maxStreams (World.hub w)) +:+ " streams are already open for this recipient").

(** [Subscribe] under the hub's mutex. *)
Definition allot (recipient : string) w : res address * World :=
  if decide (Hub.maxStreams (World.hub w) <= Z.of_nat (size (held recipient w)))%Z
  then (Err (tooMany w), w)
  else
    let sub := World.next w in
    let w := w <| World.next := S (World.next w) |> in
    let w := w <| World.subs :=
      <[sub := Subscription.mk recipient false None NotBegun]> (World.subs w) |> in
    (Ok sub, on_hub (fun h => h <| Hub.subscriptions :=
       <[recipient := {[sub]} ∪ held recipient w]> (Hub.subscriptions h) |>) w).

(** [Subscription.Close] under the hub's mutex. *)
Definition drop_ (sub : address) w : World :=
  match World.subs w !! sub with
  | None => w
  | Some s =>
      let recipient := Subscription.recipient s in
      let rest := held recipient w ∖ {[sub]} in
      on_hub (fun h => h <| Hub.subscriptions :=
        (if decide (rest = ∅) then delete recipient (Hub.subscriptions h)
         else <[recipient := rest]> (Hub.subscriptions h)) |>) w
  end.

(** [offer] under the subscription's mutex, and its send that does not wait. *)
Definition setPending (signal : Signal.t) : address -> World -> World :=
  on_sub (fun s => s <| Subscription.pending := Some signal |>).
Definition wake : address -> World -> World :=
  on_sub (fun s => s <| Subscription.ready := true |>).

(** The send is taken from the buffer. *)
Definition receive : address -> World -> World :=
  on_sub (fun s => s <| Subscription.ready := false |>).

(** [Take] *)
Definition take_ (sub : address) w : option Signal.t * World :=
  (World.subs w !! sub ≫= Subscription.pending,
   on_sub (fun s => s <| Subscription.pending := None |>) sub w).

(** ** Atomic steps *)

Inductive Atomic : Type -> Type :=
| BeginRun : Atomic (option address)
| Listen (run : address) : Atomic (res unit)       (* the broadcaster's *)
| MarkReady (run : address) : Atomic unit
| EndRun : Atomic unit
| LoadRunning : Atomic bool
| Lock : Atomic unit                               (* the hub's mutex *)
| Unlock : Atomic unit
| Admit (recipient : string) : Atomic (res address)
| Range (recipient : string) : Atomic (list address)
| Drop (sub : address) : Atomic unit
| OnceBegin (sub : address) : Atomic bool
| OnceEnd (sub : address) : Atomic unit
| SetPending (signal : Signal.t) (sub : address) : Atomic unit
| Wake (sub : address) : Atomic unit
| Receive (sub : address) : Atomic unit
| TakePending (sub : address) : Atomic (option Signal.t).

(** The state of a once, an absent subscription's being done. *)
Definition once_of (sub : address) w : Once I :=
  match World.subs w !! sub with
  | Some s => Subscription.closeOnce s
  | None => Done
  end.

Definition set_once (o : Once I) : address -> World -> World :=
  on_sub (fun s => s <| Subscription.closeOnce := o |>).

(** Whether a subscription's channel holds a token. *)
Definition has_token (sub : address) w : bool :=
  match World.subs w !! sub with Some s => Subscription.ready s | None => false end.

(** What each step does for the goroutine [i]; a step without an outcome waits. *)
Inductive effect (i : I) : forall X, Atomic X -> World -> X -> World -> Prop :=
| effect_begin w : effect i _ BeginRun w (beginRun w).1 (beginRun w).2
| effect_listen run w answer : effect i _ (Listen run) w answer w
| effect_mark run w w' : markReady run w = Some w' -> effect i _ (MarkReady run) w tt w'
| effect_end w : effect i _ EndRun w tt (endRun w)
| effect_running w : effect i _ LoadRunning w (Running w) w
| effect_lock w : World.mu w = None -> effect i _ Lock w tt (w <| World.mu := Some i |>)
| effect_unlock w : effect i _ Unlock w tt (w <| World.mu := None |>)
| effect_admit r w : effect i _ (Admit r) w (allot r w).1 (allot r w).2
| effect_range r w l : l ≡ₚ elements (held r w) -> effect i _ (Range r) w l w
| effect_drop sub w : effect i _ (Drop sub) w tt (drop_ sub w)
| effect_once_first sub w : once_of sub w = NotBegun ->
    effect i _ (OnceBegin sub) w true (set_once (Doing i) sub w)
| effect_once_done sub w : once_of sub w = Done -> effect i _ (OnceBegin sub) w false w
| effect_once_end sub w : effect i _ (OnceEnd sub) w tt (set_once Done sub w)
| effect_set signal sub w : effect i _ (SetPending signal sub) w tt (setPending signal sub w)
| effect_wake sub w : effect i _ (Wake sub) w tt (wake sub w)
| effect_receive sub w : has_token sub w = true ->
    effect i _ (Receive sub) w tt (receive sub w)
| effect_take sub w : effect i _ (TakePending sub) w (take_ sub w).1 (take_ sub w).2.
End hub.

(** ** The methods *)

Definition Run : prog Atomic (res unit) :=
  do! run := call BeginRun in
  match run with
  | None => Ret (Err (ConfigurationError "the hub is already running; run it once"))
  | Some run =>
      do! answer := call (Listen run) in
      do! _ := call EndRun in
      Ret answer
  end.

Definition Subscribe (recipient : string) : prog Atomic (res address) :=
  do! running := call LoadRunning in
  if negb running
  then Ret (Err (Because ErrUnavailable "the hub is not receiving signals"))
  else
    do! _ := call Lock in
    do! answer := call (Admit recipient) in
    do! _ := call Unlock in
    Ret answer.

Definition offer (signal : Signal.t) (sub : address) : prog Atomic unit :=
  do! _ := call (SetPending signal sub) in
  call (Wake sub).

Definition deliver (signal : Signal.t) : prog Atomic unit :=
  do! _ := call Lock in
  do! subs := call (Range (Signal.Recipient signal)) in
  do! _ := loop (fun sub _ => offer signal sub) subs tt in
  call Unlock.

Definition Take (sub : address) : prog Atomic (option Signal.t) := call (TakePending sub).

Definition Close (sub : address) : prog Atomic unit :=
  do! (first : bool) := call (OnceBegin sub) in
  if first
  then
    do! _ := call Lock in
    do! _ := call (Drop sub) in
    do! _ := call Unlock in
    call (OnceEnd sub)
  else Ret tt.

(** A reader's turn: wait for the channel, then take. *)
Definition next_signal (sub : address) : prog Atomic (option Signal.t) :=
  do! _ := call (Receive sub) in
  Take sub.

(** ** Executing *)

(** A step for the goroutine [i], with a broadcaster whose [Listen] returns at once
    and maps ranged in order of address; none where the step waits or panics. *)
Definition act {I} `{EqDecision I} (i : I) X (e : Atomic X) : World.t I -> option (X * World.t I) :=
  match e with
  | BeginRun => fun w => Some (beginRun w)
  | Listen _ => fun w => Some (Ok tt, w)
  | MarkReady run => fun w => (fun w => (tt, w)) <$> markReady run w
  | EndRun => fun w => Some (tt, endRun w)
  | LoadRunning => fun w => Some (Running w, w)
  | Lock => fun w =>
      match World.mu w with
      | None => Some (tt, w <| World.mu := Some i |>)
      | Some _ => None
      end
  | Unlock => fun w => Some (tt, w <| World.mu := None |>)
  | Admit recipient => fun w => Some (allot recipient w)
  | Range recipient => fun w => Some (elements (held recipient w), w)
  | Drop sub => fun w => Some (tt, drop_ sub w)
  | OnceBegin sub => fun w =>
      match once_of sub w with
      | NotBegun => Some (true, set_once (Doing i) sub w)
      | Doing _ => None
      | Done => Some (false, w)
      end
  | OnceEnd sub => fun w => Some (tt, set_once Done sub w)
  | SetPending signal sub => fun w => Some (tt, setPending signal sub w)
  | Wake sub => fun w => Some (tt, wake sub w)
  | Receive sub => fun w => if has_token sub w then Some (tt, receive sub w) else None
  | TakePending sub => fun w => Some (take_ sub w)
  end.

Lemma act_effect {I} `{EqDecision I} (i : I) X (e : Atomic X) w x w' :
  act i X e w = Some (x, w') -> effect i X e w x w'.
Proof.
  destruct e as [|run|run| | | | |r|r|sub|sub|sub|signal sub|sub|sub|sub]; cbn [act]; intros E;
    try (injection E as E1 E2; subst; constructor; fail).
  - injection E as E. pose proof (effect_begin i w) as Hb. by rewrite E in Hb.
  - destruct (markReady run w) as [v|] eqn:Em; [|done]. injection E as <- <-. by constructor.
  - destruct (World.mu w) eqn:Em; [done|]. injection E as <- <-. by constructor.
  - injection E as E. pose proof (effect_admit i r w) as Hb. by rewrite E in Hb.
  - injection E as <- <-. by constructor.
  - destruct (once_of sub w) eqn:Eo; try done; injection E as <- <-; by constructor.
  - destruct (has_token sub w) eqn:Et; [|done]. injection E as <- <-. by constructor.
Qed.
