(* ===== verification/NotifyHubFacts.v ===== *)
(** * NotifyHubFacts: the hub under any interleaving

    Goroutines call the methods of [NotifyHub.v] at any time and are interleaved
    step by step.  Shown here: what holds of the hub in every state they reach,
    stopped anywhere or not; and that goroutines which are not stopped all come to
    their end, but for readers with nothing to read, with no wake-up lost. *)

From S2P Require Import Prelude Domain Json Interaction Notification NotifyStore NotifyService.
From S2P Require Import NotifyHub.

Section facts.
Context {I : Type} `{Countable I}.
Abbreviation World := (World.t I).
Implicit Type w : World.
Implicit Type P : gmap I (prog Atomic unit).
Implicit Type i : I.
Implicit Type p : prog Atomic unit.

(** ** The goroutines *)

Inductive Method : Type :=
| MRun
| MMarkReady (run : address)
| MSubscribe (recipient : string)
| MDeliver (signal : Signal.t)
| MTake (sub : address)
| MNext (sub : address)
| MClose (sub : address).

Definition silently {A} (p : prog Atomic A) : prog Atomic unit := do! _ := p in Ret tt.

Definition method (m : Method) : prog Atomic unit :=
  match m with
  | MRun => silently Run
  | MMarkReady run => call (MarkReady run)
  | MSubscribe recipient => silently (Subscribe recipient)
  | MDeliver signal => deliver signal
  | MTake sub => silently (Take sub)
  | MNext sub => silently (next_signal sub)
  | MClose sub => Close sub
  end.

Definition goroutine (i : I) (p : prog Atomic unit) : Prop := exists m, p = method m.

(** ** The invariant *)

(** A subscription is in its recipient's set. *)
Definition listed (sub : address) w : Prop :=
  exists s, World.subs w !! sub = Some s /\ sub ∈ held (Subscription.recipient s) w.

Record HubOk (n : Z) w : Prop := {
  hub_max : Hub.maxStreams (World.hub w) = n;
  hub_ready : Ready w ∈ World.closed w <-> Running w = true;
  hub_running : Running w = true -> is_Some (Hub.current (World.hub w));
  hub_channel : Ready w < World.next w;
  hub_closed : forall ch, ch ∈ World.closed w -> ch < World.next w;
  hub_sub : forall sub, is_Some (World.subs w !! sub) -> sub < World.next w;
  hub_some : forall r X, Hub.subscriptions (World.hub w) !! r = Some X -> X <> ∅;
  hub_cap : forall r, (Z.of_nat (size (held r w)) <= Z.max n 0)%Z;
  hub_member : forall r sub, sub ∈ held r w ->
    exists s, World.subs w !! sub = Some s /\ Subscription.recipient s = r /\
      Subscription.closeOnce s <> Done;
  hub_open : forall sub s, World.subs w !! sub = Some s ->
    Subscription.closeOnce s = NotBegun -> listed sub w
}.

(** What a goroutine knows stays: whether it holds the mutex or a once, and that
    nobody lists a subscription it is closing. *)
Record rely (i : I) w w' : Prop := {
  rely_mu : World.mu w = Some i <-> World.mu w' = Some i;
  rely_once : forall sub, once_of sub w = Doing i <-> once_of sub w' = Doing i;
  rely_listed : forall sub, once_of sub w = Doing i -> listed sub w' -> listed sub w
}.

#[global] Instance rely_preorder i : PreOrder (rely i).
Proof.
  split.
  - by constructor.
  - intros w1 w2 w3 [M1 O1 L1] [M2 O2 L2]. constructor.
    + by rewrite M1.
    + intros sub. by rewrite O1.
    + intros sub Ho Hl. apply L1, L2; [done| |done]. by apply O1.
Qed.

(** Holding nothing that makes others wait. *)
Definition free i w : Prop := World.mu w <> Some i /\ forall sub, once_of sub w <> Doing i.

(** What a goroutine may do where: it waits for nothing while it holds the mutex,
    and for the mutex alone while it holds a once. *)
Definition may (i : I) X (e : Atomic X) w : Prop :=
  match e with
  | Listen _ | OnceBegin _ | Receive _ => free i w
  | Lock => World.mu w <> Some i
  | Unlock | Admit _ | Range _ => World.mu w = Some i
  | Drop sub => World.mu w = Some i /\ once_of sub w = Doing i
  | OnceEnd sub => World.mu w <> Some i /\ once_of sub w = Doing i /\ ~ listed sub w
  | _ => True
  end.

Definition ends (i : I) (a : unit) w : Prop := free i w.

Lemma ends_ok n i a w w' : ends i a w -> rely i w w' -> HubOk n w' -> ends i a w'.
Proof.
  intros [Hm Ho] [Rm Ro _] _. split; [by rewrite <- Rm|]. intros sub. by rewrite <- Ro.
Qed.

(** ** The steps keep the invariant *)

(** What the invariant and the relies see of a subscription. *)
Definition core (s : Subscription.t I) : string * Once I :=
  (Subscription.recipient s, Subscription.closeOnce s).

(** Only what is in the subscriptions' own mutexes differs. *)
Record same_core w w' : Prop := {
  core_hub : World.hub w' = World.hub w;
  core_mu : World.mu w' = World.mu w;
  core_closed : World.closed w' = World.closed w;
  core_next : World.next w' = World.next w;
  core_subs : core <$> World.subs w' = core <$> World.subs w
}.

Lemma core_lookup w w' sub s : same_core w w' -> World.subs w' !! sub = Some s ->
  exists s0, World.subs w !! sub = Some s0 /\ core s0 = core s.
Proof.
  intros Hc Hs. pose proof (core_subs _ _ Hc) as E.
  apply (f_equal (fun m => m !! sub)) in E. rewrite !lookup_fmap, Hs in E. cbn in E.
  destruct (World.subs w !! sub) as [s0|] eqn:E0; [|done]. cbn in E.
  exists s0. split; [done|]. congruence.
Qed.

Lemma same_core_sym w w' : same_core w w' -> same_core w' w.
Proof. intros []. by constructor. Qed.

Lemma core_once w w' sub : same_core w w' -> once_of sub w' = once_of sub w.
Proof.
  intros Hc. unfold once_of.
  destruct (World.subs w' !! sub) as [s'|] eqn:E'.
  - destruct (core_lookup w w' sub s' Hc E') as (s & -> & [= _ ->]). done.
  - destruct (World.subs w !! sub) as [s|] eqn:E; [|done].
    destruct (core_lookup w' w sub s (same_core_sym _ _ Hc) E) as (s' & E2 & _).
    by rewrite E' in E2.
Qed.

Lemma core_held w w' r : same_core w w' -> held r w' = held r w.
Proof. intros Hc. unfold held. by rewrite (core_hub _ _ Hc). Qed.

Lemma core_listed w w' sub : same_core w w' -> listed sub w' -> listed sub w.
Proof.
  intros Hc (s & Hs & Hin). destruct (core_lookup w w' sub s Hc Hs) as (s0 & H0 & [= Er _]).
  exists s0. split; [done|]. rewrite Er. by rewrite <- (core_held w w').
Qed.

Lemma core_ok n w w' : same_core w w' -> HubOk n w -> HubOk n w'.
Proof.
  intros Hc Hok. pose proof (same_core_sym _ _ Hc) as Hc'.
  assert (Hl : forall sub, is_Some (World.subs w' !! sub) -> is_Some (World.subs w !! sub)).
  { intros sub [s Hs]. destruct (core_lookup w w' sub s Hc Hs) as (s0 & H0 & _). by exists s0. }
  destruct Hok. constructor; unfold Ready, Running in *;
    rewrite ?(core_hub _ _ Hc), ?(core_closed _ _ Hc), ?(core_next _ _ Hc); auto.
  - intros r. by rewrite (core_held w w').
  - intros r sub. rewrite (core_held w w') by done. intros Hin.
    destruct (hub_member0 r sub Hin) as (s & Hs & Hr & Ho).
    destruct (core_lookup w' w sub s Hc' Hs) as (s' & Hs' & [= Er Eo]).
    exists s'. by rewrite Er, Eo.
  - intros sub s Hs Ho. destruct (core_lookup w w' sub s Hc Hs) as (s0 & H0 & [= Er Eo]).
    apply (core_listed w' w sub Hc'). apply (hub_open0 sub s0 H0). congruence.
Qed.

Lemma core_rely w w' i : same_core w w' -> rely i w w'.
Proof.
  intros Hc. constructor.
  - by rewrite (core_mu _ _ Hc).
  - intros sub. by rewrite (core_once w w').
  - intros sub _. by apply core_listed.
Qed.

Lemma on_sub_core f sub w :
  (forall s, core (f s) = core s) -> same_core w (on_sub f sub w).
Proof.
  intros Hf. constructor; try done. cbn [on_sub upd World.subs].
  apply map_eq. intros k. rewrite !lookup_fmap.
  destruct (decide (k = sub)) as [->|Hne].
  - rewrite lookup_alter_eq. destruct (World.subs w !! sub) as [s|]; [|done]. cbn. by rewrite Hf.
  - by rewrite lookup_alter_ne.
Qed.

(** Only the run state differs. *)
Record same_streams w w' : Prop := {
  streams_max : Hub.maxStreams (World.hub w') = Hub.maxStreams (World.hub w);
  streams_held : Hub.subscriptions (World.hub w') = Hub.subscriptions (World.hub w);
  streams_subs : World.subs w' = World.subs w;
  streams_mu : World.mu w' = World.mu w
}.

Lemma streams_rely w w' i : same_streams w w' -> rely i w w'.
Proof.
  intros []. constructor.
  - by rewrite streams_mu0.
  - intros sub. unfold once_of. by rewrite streams_subs0.
  - intros sub _ (s & Hs & Hin). exists s. unfold held in *. by rewrite <- streams_subs0, <- streams_held0.
Qed.

Lemma streams_ok n w w' : same_streams w w' -> HubOk n w -> World.next w <= World.next w' ->
  (Ready w' ∈ World.closed w' <-> Running w' = true) ->
  (Running w' = true -> is_Some (Hub.current (World.hub w'))) ->
  Ready w' < World.next w' ->
  (forall ch, ch ∈ World.closed w' -> ch < World.next w') -> HubOk n w'.
Proof.
  intros [] [] Hn H1 H2 H3 H4. constructor; auto; unfold listed, held in *;
    rewrite ?streams_max0, ?streams_held0, ?streams_subs0; auto.
  intros sub Hs%hub_sub0. lia.
Qed.

Lemma beginRun_ok n w : HubOk n w ->
  HubOk n (beginRun w).2 /\ same_streams w (beginRun w).2.
Proof.
  intros Hok. unfold beginRun. destruct (Hub.current (World.hub w)) as [run|] eqn:Ec; [done|].
  cbn [snd]. assert (Hs : same_streams w (on_hub (fun h => h <| Hub.current := Some (World.next w) |>)
     (w <| World.next := S (World.next w) |>))) by done.
  split; [|done]. eapply streams_ok; [exact Hs|exact Hok|..]; unfold Ready, Running; cbn.
  - lia.
  - apply (hub_ready n w Hok).
  - eauto.
  - pose proof (hub_channel n w Hok) as Hch. unfold Ready in Hch. lia.
  - intros ch Hch%(hub_closed n w Hok). lia.
Qed.

Lemma markReady_ok n run w w' : HubOk n w -> markReady run w = Some w' ->
  HubOk n w' /\ same_streams w w'.
Proof.
  intros Hok E. unfold markReady in E. case_decide as Ec; [by injection E as <-|].
  destruct (Hub.running (World.hub w)) eqn:Er; [by injection E as <-|].
  case_decide as Ein; [done|]. injection E as <-. cbn in Ein.
  split; [|done]. pose proof (hub_channel n w Hok) as Hch.
  eapply streams_ok; [|exact Hok|..]; [done|..]; unfold Ready, Running; cbn.
  - lia.
  - set_solver.
  - by rewrite Ec.
  - exact Hch.
  - intros ch [->%elem_of_singleton|Hc]%elem_of_union; [done|by apply (hub_closed n w Hok)].
Qed.

(** A channel is never closed twice. *)
Lemma markReady_total n run w : HubOk n w -> exists w', markReady run w = Some w'.
Proof.
  intros Hok. unfold markReady. case_decide; [eauto|].
  destruct (Hub.running (World.hub w)) eqn:Er; [eauto|].
  case_decide as Ein; [|eauto]. exfalso. apply (hub_ready n w Hok) in Ein.
  unfold Running in Ein. congruence.
Qed.

Lemma endRun_ok n w : HubOk n w -> HubOk n (endRun w) /\ same_streams w (endRun w).
Proof.
  intros Hok. unfold endRun. pose proof (hub_channel n w Hok) as Hch.
  pose proof (hub_closed n w Hok) as Hcl. cbn zeta.
  case_decide as Ein; (split; [|done]); (eapply streams_ok; [|exact Hok|..]; [done|..]);
    unfold Ready, Running in *; cbn in *.
  - lia.
  - split; [|done]. intros Hin%Hcl. lia.
  - done.
  - lia.
  - intros ch Hin%Hcl. lia.
  - lia.
  - split; [|done]. by intros Hin%Ein.
  - done.
  - lia.
  - exact Hcl.
Qed.

Lemma mu_rely i w o : (forall j, j <> i -> World.mu w = Some j <-> o = Some j) ->
  forall j, j <> i -> rely j w (w <| World.mu := o |>).
Proof. intros Ho j Hj. constructor; [by apply Ho|done|done]. Qed.

Lemma mu_ok n w o : HubOk n w -> HubOk n (w <| World.mu := o |>).
Proof. intros []. by constructor. Qed.

(** What a recipient's set becomes. *)
Lemma held_insert recipient X w r :
  held r (on_hub (fun h => h <| Hub.subscriptions := <[recipient := X]> (Hub.subscriptions h) |>) w) =
    if decide (r = recipient) then X else held r w.
Proof.
  unfold held. cbn. destruct (decide (r = recipient)) as [->|Hne].
  - by rewrite lookup_insert_eq.
  - by rewrite lookup_insert_ne.
Qed.

Lemma fresh_sub n w : HubOk n w -> World.subs w !! World.next w = None.
Proof.
  intros Hok. destruct (World.subs w !! World.next w) eqn:E; [|done].
  pose proof (hub_sub n w Hok (World.next w) (mk_is_Some _ _ E)). lia.
Qed.

Lemma fresh_unheld n w r : HubOk n w -> World.next w ∉ held r w.
Proof.
  intros Hok Hin. destruct (hub_member n w Hok r _ Hin) as (s & Hs & _).
  by rewrite (fresh_sub n w Hok) in Hs.
Qed.

(** The state an admission leaves. *)
Definition admitted (recipient : string) w : World :=
  on_hub (fun h => h <| Hub.subscriptions :=
      <[recipient := {[World.next w]} ∪ held recipient w]> (Hub.subscriptions h) |>)
    (w <| World.next := S (World.next w) |> <| World.subs :=
       <[World.next w := Subscription.mk recipient false None NotBegun]> (World.subs w) |>).

Lemma admit_cases recipient w :
  allot recipient w = (Err (tooMany w), w) \/
  ((Z.of_nat (size (held recipient w)) < Hub.maxStreams (World.hub w))%Z /\
   allot recipient w = (Ok (World.next w), admitted recipient w)).
Proof. unfold allot. case_decide; [by left|right]. split; [lia|done]. Qed.

Lemma admitted_held recipient w r :
  held r (admitted recipient w) =
    if decide (r = recipient) then {[World.next w]} ∪ held recipient w else held r w.
Proof. unfold admitted. by rewrite held_insert. Qed.

Lemma admitted_listed n recipient w sub : HubOk n w -> sub <> World.next w ->
  listed sub (admitted recipient w) <-> listed sub w.
Proof.
  intros Hok Hne. unfold listed. cbn [admitted on_hub upd World.subs].
  setoid_rewrite lookup_insert_ne; [|done]. setoid_rewrite admitted_held.
  split; intros (s & Hs & Hin); exists s; (split; [done|]); case_decide as Er; set_solver.
Qed.

Lemma admit_ok n recipient w : HubOk n w ->
  HubOk n (allot recipient w).2 /\ forall i, rely i w (allot recipient w).2.
Proof.
  intros Hok. destruct (admit_cases recipient w) as [-> |[Hlt ->]]; [done|]. cbn [snd].
  pose proof (fresh_sub n w Hok) as Hfresh. rewrite (hub_max n w Hok) in Hlt.
  assert (Hl : forall sub, sub <> World.next w -> World.subs (admitted recipient w) !! sub =
            World.subs w !! sub) by (intros sub Hne; cbn; by rewrite lookup_insert_ne).
  assert (Hnew : World.subs (admitted recipient w) !! World.next w =
            Some (Subscription.mk recipient false None NotBegun)) by apply lookup_insert_eq.
  split.
  - constructor; try apply Hok; cbn [admitted on_hub upd World.next World.closed].
    + unfold Ready. cbn. pose proof (hub_channel n w Hok). unfold Ready in *. lia.
    + intros ch Hch%(hub_closed n w Hok). lia.
    + intros sub Hs. destruct (decide (sub = World.next w)) as [->|Hne]; [lia|].
      cbn in Hs. rewrite lookup_insert_ne in Hs by done. apply (hub_sub n w Hok) in Hs. lia.
    + cbn. intros r X [[<- <-]|[_ E]]%lookup_insert_Some; [set_solver|by apply (hub_some n w Hok r)].
    + intros r. rewrite admitted_held. case_decide; [|apply Hok].
      rewrite size_union by (pose proof (fresh_unheld n w recipient Hok); set_solver).
      rewrite size_singleton. lia.
    + intros r sub. rewrite admitted_held. destruct (decide (sub = World.next w)) as [->|Hne].
      * case_decide as Er; [subst r|intros Hin; by destruct (fresh_unheld n w r Hok)].
        intros _. eexists. split; [exact Hnew|]. done.
      * rewrite Hl by done. intros Hin. apply (hub_member n w Hok).
        case_decide as Er; [subst r|]; set_solver.
    + intros sub s Hs Ho. destruct (decide (sub = World.next w)) as [->|Hne].
      * rewrite Hnew in Hs. injection Hs as <-. eexists. split; [exact Hnew|].
        rewrite admitted_held. cbn. rewrite decide_True by done. set_solver.
      * apply (admitted_listed n); [done..|]. rewrite Hl in Hs by done.
        by eapply (hub_open n w Hok).
  - intros i.
    assert (Ho : forall sub, once_of sub w = Doing i <-> once_of sub (admitted recipient w) = Doing i).
    { intros sub. unfold once_of. destruct (decide (sub = World.next w)) as [->|Hne].
      - by rewrite Hnew, Hfresh.
      - by rewrite Hl. }
    constructor; [done|exact Ho|].
    intros sub Hd. rewrite (admitted_listed n); [done..|]. intros ->.
    unfold once_of in Hd. by rewrite Hfresh in Hd.
Qed.

(** What a drop leaves. *)
Lemma drop_spec n sub s w : HubOk n w -> World.subs w !! sub = Some s ->
  World.subs (drop_ sub w) = World.subs w /\ World.mu (drop_ sub w) = World.mu w /\
  World.closed (drop_ sub w) = World.closed w /\ World.next (drop_ sub w) = World.next w /\
  (exists m, World.hub (drop_ sub w) = (World.hub w) <| Hub.subscriptions := m |> /\
     forall r X, m !! r = Some X -> X <> ∅) /\
  forall r, held r (drop_ sub w) = held r w ∖ {[sub]}.
Proof.
  intros Hok Hs. unfold drop_. rewrite Hs. cbn zeta.
  assert (Hother : forall r, r <> Subscription.recipient s -> held r w ∖ {[sub]} = held r w).
  { intros r Hne. enough (sub ∉ held r w) by set_solver. intros Hin.
    destruct (hub_member n w Hok r sub Hin) as (s' & Hs' & Hr & _). congruence. }
  split_and!; try done.
  - eexists. split; [reflexivity|]. intros r X Hx. case_decide.
    + apply lookup_delete_Some in Hx as [_ Hx]. by apply (hub_some n w Hok r).
    + apply lookup_insert_Some in Hx as [[_ <-]|[_ Hx]]; [done|by apply (hub_some n w Hok r)].
  - intros r. case_decide as Er.
    + unfold held at 1. cbn. destruct (decide (r = Subscription.recipient s)) as [->|Hne].
      * rewrite lookup_delete_eq. cbn. by rewrite Er.
      * rewrite lookup_delete_ne by done. by rewrite Hother.
    + rewrite held_insert. case_decide as E; [by subst r|by rewrite Hother].
Qed.

Lemma drop_ok n i sub w : HubOk n w -> once_of sub w = Doing i ->
  HubOk n (drop_ sub w) /\ (forall j, rely j w (drop_ sub w)) /\ ~ listed sub (drop_ sub w).
Proof.
  intros Hok Hdo. unfold once_of in Hdo.
  destruct (World.subs w !! sub) as [s|] eqn:Es; [|done].
  destruct (drop_spec n sub s w Hok Es) as (Hsubs & Hmu & Hcl & Hnx & (m & Hhub & Hm) & Hheld).
  assert (Hl : forall x, listed x (drop_ sub w) <-> listed x w /\ x <> sub).
  { intros x. unfold listed. rewrite Hsubs. setoid_rewrite Hheld. set_solver. }
  split_and!.
  - destruct Hok. constructor; unfold Ready, Running in *; rewrite ?Hhub, ?Hcl, ?Hnx, ?Hsubs; cbn; auto.
    + intros r. rewrite Hheld. etrans; [|apply (hub_cap0 r)]. apply inj_le, subseteq_size. set_solver.
    + intros r x. rewrite Hheld. intros [Hin _]%elem_of_difference. by apply hub_member0.
    + intros x sx Hx Ho. apply Hl. split; [by eapply hub_open0|]. intros ->. congruence.
  - intros j. constructor; [by rewrite Hmu|by unfold once_of; rewrite Hsubs|].
    intros x _ Hx. by apply Hl in Hx as [? _].
  - rewrite Hl. by intros [_ ?].
Qed.

(** Beginning and ending a once. *)
Lemma set_once_lookup o sub w x s : World.subs (set_once o sub w) !! x = Some s ->
  exists s0, World.subs w !! x = Some s0 /\
    Subscription.recipient s = Subscription.recipient s0 /\
    Subscription.closeOnce s = (if decide (x = sub) then o else Subscription.closeOnce s0).
Proof.
  cbn. destruct (decide (x = sub)) as [->|Hne].
  - rewrite lookup_alter_eq. destruct (World.subs w !! sub) as [s0|]; [|done].
    intros [= <-]. by exists s0.
  - rewrite lookup_alter_ne by done. intros E. by exists s.
Qed.

Lemma set_once_present o sub w x s : World.subs w !! x = Some s ->
  exists s', World.subs (set_once o sub w) !! x = Some s' /\
    Subscription.recipient s' = Subscription.recipient s /\
    Subscription.closeOnce s' = (if decide (x = sub) then o else Subscription.closeOnce s).
Proof.
  intros Hs. cbn. destruct (decide (x = sub)) as [->|Hne].
  - rewrite lookup_alter_eq, Hs. eauto.
  - rewrite lookup_alter_ne by done. eauto.
Qed.

Lemma set_once_listed o sub w x : listed x (set_once o sub w) <-> listed x w.
Proof.
  split; intros (s & Hs & Hin).
  - destruct (set_once_lookup o sub w x s Hs) as (s0 & H0 & Hr & _). exists s0. by rewrite <- Hr.
  - destruct (set_once_present o sub w x s Hs) as (s' & H' & Hr & _). exists s'. by rewrite Hr.
Qed.

Lemma set_once_once o sub w x :
  once_of x (set_once o sub w) =
    if decide (x = sub /\ is_Some (World.subs w !! sub)) then o else once_of x w.
Proof.
  unfold once_of. cbn. destruct (decide (x = sub)) as [->|Hne].
  - rewrite lookup_alter_eq. destruct (World.subs w !! sub) as [s|]; cbn.
    + by rewrite decide_True by eauto.
    + rewrite decide_False; [done|]. by intros [_ [? ?]].
  - rewrite lookup_alter_ne by done. rewrite decide_False; [done|]. by intros [? _].
Qed.

Lemma set_once_ok n i o sub w : HubOk n w ->
  (o = Doing i /\ once_of sub w = NotBegun) \/
  (o = Done /\ once_of sub w = Doing i /\ ~ listed sub w) ->
  HubOk n (set_once o sub w) /\ forall j, j <> i -> rely j w (set_once o sub w).
Proof.
  intros Hok Hcase. split.
  - destruct Hok. constructor; auto.
    + intros x [s Hs]. destruct (set_once_lookup o sub w x s Hs) as (s0 & H0 & _).
      apply hub_sub0. by exists s0.
    + intros r x Hin. change (x ∈ held r w) in Hin.
      destruct (hub_member0 r x Hin) as (s & Hs & Hr & Ho).
      destruct (set_once_present o sub w x s Hs) as (s' & Hs' & Hr' & Ho').
      exists s'. split_and!; [done|congruence|]. rewrite Ho'. case_decide as E; [|done].
      subst x. destruct Hcase as [[-> _]|(-> & _ & Hl)]; [done|].
      destruct Hl. exists s. by rewrite Hr.
    + intros x s Hs Ho. destruct (set_once_lookup o sub w x s Hs) as (s0 & H0 & _ & Ho0).
      apply set_once_listed. apply (hub_open0 x s0 H0). rewrite Ho in Ho0.
      case_decide; [|done]. by destruct Hcase as [[-> _]|(-> & _)].
  - intros j Hj. constructor; [done| |].
    + intros x. rewrite set_once_once. case_decide as E; [|done]. destruct E as [-> _].
      destruct Hcase as [[-> ->]|(-> & -> & _)]; split; congruence.
    + intros x _. by rewrite set_once_listed.
Qed.

(** Every step a goroutine may take keeps the invariant, and for the others what
    they know. *)
Lemma effect_ok n i X (e : Atomic X) w x w' :
  HubOk n w -> may i X e w -> effect i X e w x w' ->
  HubOk n w' /\ forall j, j <> i -> rely j w w'.
Proof.
  intros Hok Hm He.
  assert (Hcore : forall w', same_core w w' -> HubOk n w' /\ forall j, j <> i -> rely j w w').
  { intros v Hc. split; [by eapply core_ok|]. intros j _. by apply core_rely. }
  assert (Hstr : forall w', HubOk n w' /\ same_streams w w' ->
            HubOk n w' /\ forall j, j <> i -> rely j w w').
  { intros v [? ?]. split; [done|]. intros j _. by apply streams_rely. }
  destruct He as [w|run w answer|run w w' Er|w|w|w Hmu|w|r w|r w l Hl|sub w|sub w Ho|sub w Ho
    |sub w|signal sub w|sub w|sub w Ht|sub w]; cbn [may] in Hm.
  - by apply Hstr, beginRun_ok.
  - by apply Hcore.
  - by eapply Hstr, markReady_ok.
  - by apply Hstr, endRun_ok.
  - by apply Hcore.
  - split; [by apply mu_ok|]. apply (mu_rely i). intros j Hj. rewrite Hmu. split; congruence.
  - split; [by apply mu_ok|]. apply (mu_rely i). intros j Hj. rewrite Hm. split; congruence.
  - destruct (admit_ok n r w Hok) as [? ?]. split; auto.
  - by apply Hcore.
  - destruct Hm as [_ Ho]. destruct (drop_ok n i sub w Hok Ho) as (? & ? & _). split; auto.
  - apply set_once_ok; [done|]. by left.
  - by apply Hcore.
  - apply set_once_ok; [done|]. right. destruct Hm as (_ & ? & ?). done.
  - by apply Hcore, on_sub_core.
  - by apply Hcore, on_sub_core.
  - by apply Hcore, on_sub_core.
  - by apply Hcore, on_sub_core.
Qed.

(** ** The methods keep to the discipline

    A goroutine holds the mutex or not, and may be inside the once of one
    subscription, which it has dropped or not.  What it holds after a step follows
    from the step, so whether a program keeps to [may] is checked on its text. *)

Definition Inside : Type := option (address * bool).

Definition allowed (m : bool) (o : Inside) X (e : Atomic X) : Prop :=
  match e with
  | Listen _ | OnceBegin _ | Receive _ => m = false /\ o = None
  | Lock => m = false
  | Unlock | Admit _ | Range _ => m = true
  | Drop sub => m = true /\ exists d, o = Some (sub, d)
  | OnceEnd sub => m = false /\ o = Some (sub, true)
  | _ => True
  end.

Definition mutex_after X (e : Atomic X) (m : bool) : bool :=
  match e with Lock => true | Unlock => false | _ => m end.

Definition inside_after X (e : Atomic X) : X -> Inside -> Inside :=
  match e with
  | OnceBegin sub => fun first o => if first then Some (sub, false) else o
  | Drop sub => fun _ _ => Some (sub, true)
  | OnceEnd _ => fun _ _ => None
  | _ => fun _ o => o
  end.

Fixpoint checks {A} (p : prog Atomic A) (m : bool) (o : Inside) : Prop :=
  match p with
  | Ret _ => m = false /\ o = None
  | Call e k =>
      allowed m o _ e /\ forall x, checks (k x) (mutex_after _ e m) (inside_after _ e x o)
  end.

(** What a goroutine that holds so much knows. *)
Record knows (i : I) (m : bool) (o : Inside) w : Prop := {
  knows_mu : World.mu w = Some i <-> m = true;
  knows_once : forall sub, once_of sub w = Doing i <-> exists d, o = Some (sub, d);
  knows_dropped : forall sub, o = Some (sub, true) -> ~ listed sub w
}.

Lemma hub_knows_rely i m o w w' : knows i m o w -> rely i w w' -> knows i m o w'.
Proof.
  intros [Km Ko Kd] [Rm Ro Rl]. constructor.
  - by rewrite <- Rm.
  - intros sub. by rewrite <- Ro.
  - intros sub -> Hl. apply (Kd sub eq_refl), Rl; [|done]. apply Ko. by eexists.
Qed.

Lemma knows_free i w : knows i false None w <-> free i w.
Proof.
  split.
  - intros [Km Ko _]. split; [by rewrite Km|]. intros sub Hs%Ko. by destruct Hs.
  - intros [Fm Fo]. constructor; [by split|intros sub; split; [by intros ?%Fo|by intros []]|done].
Qed.

Lemma allowed_may i m o X (e : Atomic X) w : allowed m o X e -> knows i m o w -> may i X e w.
Proof.
  intros Ha Hk. pose proof (knows_free i w) as Hf. destruct Hk as [Km Ko Kd].
  destruct e; cbn in *; try done; try (rewrite Km; by destruct m);
    try (destruct Ha as [? ?]; subst; apply Hf; by constructor).
  - destruct Ha as [-> [d ->]]. split; [by apply Km|]. apply Ko. by eexists.
  - destruct Ha as [-> ->]. split_and!; [by rewrite Km|apply Ko; by eexists|by apply Kd].
Qed.

(** A step that others could take as well leaves what [i] knows. *)
Lemma knows_after n i m o X (e : Atomic X) w x w' :
  HubOk n w -> knows i m o w -> allowed m o X e -> effect i X e w x w' ->
  knows i (mutex_after X e m) (inside_after X e x o) w'.
Proof.
  intros Hok Hk Ha He. pose proof (fun v => hub_knows_rely i m o w v Hk) as Hrely.
  destruct He as [w|run w answer|run w w' Er|w|w|w Hmu|w|r w|r w l Hl|sub w|sub w Ho|sub w Ho
    |sub w|signal sub w|sub w|sub w Ht|sub w]; cbn [mutex_after inside_after allowed] in *;
    try (apply Hrely; (reflexivity || by apply core_rely, on_sub_core)).
  - by apply Hrely, streams_rely, (beginRun_ok n).
  - by eapply Hrely, streams_rely, (markReady_ok n).
  - by apply Hrely, streams_rely, (endRun_ok n).
  - destruct Hk as [_ Ko Kd]. by constructor.
  - destruct Hk as [_ Ko Kd]. by constructor.
  - by apply Hrely, (admit_ok n).
  - destruct Ha as [-> [d ->]].
    assert (Hd : once_of sub w = Doing i) by (apply (knows_once _ _ _ _ Hk); by eexists).
    destruct (drop_ok n i sub w Hok Hd) as (_ & Hr & Hno).
    destruct (Hrely _ (Hr i)) as [Km Ko _]. constructor; [done| |by intros ? [= <-]].
    intros x. rewrite Ko. split; intros [? [= <- _]]; by eexists.
  - destruct Ha as [-> ->]. destruct Hk as [Km Ko Kd].
    assert (Hs : is_Some (World.subs w !! sub)).
    { unfold once_of in Ho. destruct (World.subs w !! sub); [by eexists|done]. }
    constructor; [done| |by intros ? [= <-]]. intros x. rewrite set_once_once. case_decide as E.
    + destruct E as [-> _]. split; [by eexists|done].
    + rewrite Ko. split; [by intros []|]. intros [? [= -> _]]. by destruct E.
  - destruct Ha as [-> ->]. destruct Hk as [Km Ko Kd].
    assert (Hd : once_of sub w = Doing i) by (apply Ko; by eexists).
    assert (Hs : is_Some (World.subs w !! sub)).
    { unfold once_of in Hd. destruct (World.subs w !! sub); [by eexists|done]. }
    constructor; [done| |done]. intros x. rewrite set_once_once. case_decide as E.
    + split; [done|by intros []].
    + rewrite Ko. split; [|by intros []]. intros [? [= <- _]]. by destruct E.
Qed.

(** A program that checks is safe among others. *)
Lemma checks_safe n i p m o w : checks p m o -> HubOk n w -> knows i m o w ->
  safe effect (HubOk n) rely may ends i p w.
Proof.
  revert m o w. induction p as [a|X e k IH]; intros m o w Hc Hok Hk.
  - destruct Hc as [-> ->]. by apply knows_free.
  - destruct Hc as [Ha Hc]. intros w1 [Hr Hok1]. pose proof (hub_knows_rely i m o w w1 Hk Hr) as Hk1.
    pose proof (allowed_may i m o X e w1 Ha Hk1) as Hm. split; [done|]. intros x w2 He.
    apply (IH x _ _ w2 (Hc x)).
    + by apply (effect_ok n i X e w1 x w2).
    + by apply (knows_after n i m o X e w1 x w2).
Qed.

Lemma checks_bind {A B} (p : prog Atomic A) (k : A -> prog Atomic B) m o :
  checks p m o -> (forall a, checks (k a) false None) -> checks (bind p k) m o.
Proof.
  intros Hp Hk. revert m o Hp. induction p as [a|X e f IH]; intros m o Hp.
  - destruct Hp as [-> ->]. apply Hk.
  - destruct Hp as [Ha Hc]. split; [done|]. intros x. by apply IH.
Qed.

(** Offers need nothing held and leave what is. *)
Lemma checks_offers {B} signal subs (k : unit -> prog Atomic B) m o :
  checks (k tt) m o -> checks (bind (loop (fun sub _ => offer signal sub) subs tt) k) m o.
Proof.
  intros Hk. induction subs as [|sub subs IH]; [done|]. cbn.
  split; [done|]. intros []. split; [done|]. by intros [].
Qed.

Lemma method_checks m : checks (method m) false None.
Proof.
  destruct m as [|run|recipient|signal|sub|sub|sub]; cbn [method].
  - cbn. split; [done|]. intros [run|]; cbn; [|done].
    split; [done|]. intros answer. split; [done|]. by intros [].
  - done.
  - cbn. split; [done|]. intros []; cbn; [|done]. do 3 (split; [done|]; intros ?). done.
  - cbn. split; [done|]. intros []. split; [done|]. intros subs. by apply checks_offers.
  - done.
  - done.
  - cbn. split; [done|]. intros []; [|done]. split; [done|]. intros [].
    split; [split; [done|by eexists]|]. intros []. do 2 (split; [done|]; intros []). done.
Qed.

(** Whom a state names as holding something. *)
Definition busy (i : I) w : Prop := World.mu w = Some i \/ exists sub, once_of sub w = Doing i.

Lemma not_busy i w : ~ busy i w -> free i w.
Proof. unfold busy, free. naive_solver. Qed.

Lemma busy_core w w' j : same_core w w' -> busy j w' -> busy j w.
Proof.
  intros Hc [Hm|[sub Ho]]; [left|right].
  - by rewrite <- (core_mu _ _ Hc).
  - exists sub. by rewrite <- (core_once w w').
Qed.

Lemma drop_busy sub w j : busy j (drop_ sub w) -> busy j w.
Proof.
  unfold busy, once_of, drop_. by destruct (World.subs w !! sub).
Qed.

Lemma busy_ok i X (e : Atomic X) w x w' j :
  effect i X e w x w' -> busy j w' -> busy j w \/ j = i.
Proof.
  intros He. destruct He as [w|run w answer|run w w' Er|w|w|w Hmu|w|r w|r w l Hl|sub w
    |sub w Ho|sub w Ho|sub w|signal sub w|sub w|sub w Ht|sub w];
    try (intros Hb; left; exact Hb);
    try (intros Hb; left; by eapply busy_core, Hb; apply on_sub_core).
  - unfold beginRun. destruct (Hub.current _); intros Hb; left; exact Hb.
  - unfold markReady in Er. case_decide; [by injection Er as <-; left|].
    destruct (Hub.running _); [by injection Er as <-; left|]. case_decide; [done|].
    injection Er as <-. by left.
  - unfold endRun. case_decide; by left.
  - intros [[= ->]|Ho]; [by right|left; by right].
  - intros [[=]|Ho]. left. by right.
  - destruct (admit_cases r w) as [-> |[_ ->]]; [by left|]. intros [Hm|[sub Ho]]; left; [by left|].
    right. exists sub. unfold once_of in *. cbn in Ho.
    destruct (decide (sub = World.next w)) as [->|Hne].
    + by rewrite lookup_insert_eq in Ho.
    + by rewrite lookup_insert_ne in Ho.
  - intros Hb. left. by eapply drop_busy.
  - intros [Hm|[x Hx]]; [left; by left|]. rewrite set_once_once in Hx. case_decide.
    + injection Hx as ->. by right.
    + left. right. by exists x.
  - intros [Hm|[x Hx]]; [left; by left|]. rewrite set_once_once in Hx. case_decide; [done|].
    left. right. by exists x.
Qed.

(** ** Wake-ups

    A subscription with a signal pending and no token is owed a wake-up, by the
    goroutine that is about to wake it, or whose reader is about to take. *)

Definition pending_of (sub : address) w : option Signal.t :=
  World.subs w !! sub ≫= Subscription.pending.

Definition debt (sub : address) w : Prop :=
  pending_of sub w <> None /\ has_token sub w = false.

Definition clears (sub : address) X (e : Atomic X) : Prop :=
  match e with Wake s | TakePending s => s = sub | _ => False end.

Definition incurs (sub : address) X (e : Atomic X) : Prop :=
  match e with SetPending _ s | Receive s => s = sub | _ => False end.

Definition owes {A} (sub : address) (p : prog Atomic A) : Prop :=
  match p with Call e _ => clears sub _ e | Ret _ => False end.

(** Whoever incurs a debt pays it next. *)
Fixpoint honest {A} (p : prog Atomic A) : Prop :=
  match p with
  | Ret _ => True
  | Call e k => forall x, (forall sub, incurs sub _ e -> owes sub (k x)) /\ honest (k x)
  end.

Lemma pending_on_sub f sub0 sub w :
  pending_of sub (on_sub f sub0 w) =
    (if decide (sub = sub0) then f <$> World.subs w !! sub else World.subs w !! sub)
      ≫= Subscription.pending.
Proof.
  unfold pending_of. cbn. case_decide as E; [subst; by rewrite lookup_alter_eq|].
  by rewrite lookup_alter_ne.
Qed.

Lemma token_on_sub f sub0 sub w :
  has_token sub (on_sub f sub0 w) =
    match (if decide (sub = sub0) then f <$> World.subs w !! sub else World.subs w !! sub) with
    | Some s => Subscription.ready s
    | None => false
    end.
Proof.
  unfold has_token. cbn. case_decide as E; [subst; by rewrite lookup_alter_eq|].
  by rewrite lookup_alter_ne.
Qed.

Lemma debt_after i X (e : Atomic X) w x w' sub :
  effect i X e w x w' -> debt sub w' -> (debt sub w /\ ~ clears sub X e) \/ incurs sub X e.
Proof.
  intros He. unfold debt.
  destruct He as [w|run w answer|run w w' Er|w|w|w Hmu|w|r w|r w l Hl|sub0 w
    |sub0 w Ho|sub0 w Ho|sub0 w|signal sub0 w|sub0 w|sub0 w Ht|sub0 w];
    try (intros Hd; left; split; [exact Hd|exact (fun x => x)]);
    try (unfold set_once, setPending, wake, receive, take_; cbn [snd];
         rewrite pending_on_sub, token_on_sub; cbn [clears incurs]; unfold pending_of, has_token;
         case_decide as Es; destruct (World.subs w !! sub) as [s|]; cbn;
         intros [Hp Ht']; solve [auto|congruence]).
  - unfold beginRun. destruct (Hub.current _); intros Hd; left; (split; [exact Hd|exact (fun x => x)]).
  - unfold markReady in Er. intros Hd. left. split; [|exact (fun x => x)].
    case_decide; [by injection Er as <-|].
    destruct (Hub.running _); [by injection Er as <-|]. case_decide; [done|]. by injection Er as <-.
  - unfold endRun. case_decide; intros Hd; left; (split; [exact Hd|exact (fun x => x)]).
  - intros Hd. left. split; [|exact (fun x => x)].
    destruct (admit_cases r w) as [Ea|[_ Ea]]; rewrite Ea in Hd; [done|].
    unfold pending_of, has_token in *. cbn in Hd.
    destruct (decide (sub = World.next w)) as [->|Hne].
    + rewrite lookup_insert_eq in Hd. by destruct Hd.
    + by rewrite lookup_insert_ne in Hd.
  - unfold drop_. intros Hd. left. split; [|exact (fun x => x)].
    by destruct (World.subs w !! sub0).
Qed.

Lemma honest_bind {A B} (p : prog Atomic A) (k : A -> prog Atomic B) :
  honest p -> (forall a, honest (k a)) -> honest (bind p k).
Proof.
  intros Hp Hk. induction p as [a|X e f IH]; [apply Hk|]. cbn. intros x.
  destruct (Hp x) as [Ho Hh]. split; [|by apply IH].
  intros sub Hs. specialize (Ho sub Hs). by destruct (f x).
Qed.

(** A step that incurs nothing, then the rest. *)
Lemma honest_call {X A} (e : Atomic X) (k : X -> prog Atomic A) :
  (forall sub, ~ incurs sub X e) -> (forall x, honest (k x)) -> honest (Call e k).
Proof. intros He Hk x. split; [|apply Hk]. by intros sub ?%He. Qed.

Lemma honest_offers signal subs :
  honest (loop (fun sub _ => offer signal sub) subs tt).
Proof.
  induction subs as [|sub subs IH]; [done|]. cbn. intros []. split; [by intros s <-|].
  intros []. split; [by intros ? []|done].
Qed.

Lemma method_honest m : honest (method m).
Proof.
  destruct m as [|run|recipient|signal|sub|sub|sub]; cbn [method].
  - apply honest_call; [exact (fun _ x => x)|]. intros [run|]; [|by cbn].
    do 2 (apply honest_call; [exact (fun _ x => x)|]; intros ?). by cbn.
  - apply honest_call; [exact (fun _ x => x)|by cbn].
  - apply honest_call; [exact (fun _ x => x)|]. intros []; [|by cbn].
    do 3 (apply honest_call; [exact (fun _ x => x)|]; intros ?). by cbn.
  - do 2 (apply honest_call; [exact (fun _ x => x)|]; intros ?).
    apply honest_bind; [apply honest_offers|]. intros []. apply honest_call; [exact (fun _ x => x)|by cbn].
  - apply honest_call; [exact (fun _ x => x)|by cbn].
  - intros []. split; [by intros s <-|]. apply honest_call; [exact (fun _ x => x)|by cbn].
  - apply honest_call; [exact (fun _ x => x)|]. intros []; [|by cbn].
    do 4 (apply honest_call; [exact (fun _ x => x)|]; intros ?). by cbn.
Qed.

Record Covered (c : gmap I (prog Atomic unit) * World) : Prop := {
  covered_honest : forall i p, c.1 !! i = Some p -> honest p;
  covered_debts : forall sub, debt sub c.2 -> exists i p, c.1 !! i = Some p /\ owes sub p
}.

Lemma work_covered c c' : work goroutine effect c c' -> Covered c -> Covered c'.
Proof.
  intros Hstep [Hh Hd].
  destruct Hstep as [i p P w Hi [m ->]|? ? [i X e k P w x w' Hi He]]; cbn [fst snd] in *.
  - split; cbn [fst snd].
    + intros j q [[<- <-]|[_ Hq]]%lookup_insert_Some; [apply method_honest|by eapply Hh].
    + intros sub (j & q & Hj & Ho)%Hd. exists j, q. split; [|done].
      rewrite lookup_insert_ne; [done|]. congruence.
  - destruct (Hh i _ Hi x) as [Hincurs Hx]. split; cbn [fst snd].
    + intros j q [[<- <-]|[_ Hq]]%lookup_insert_Some; [done|by eapply Hh].
    + intros sub Hs. destruct (debt_after i X e w x w' sub He Hs) as [[Hs0 Hno]|Hin].
      * destruct (Hd sub Hs0) as (j & q & Hj & Ho). exists j, q. split; [|done].
        rewrite lookup_insert_ne; [done|]. intros <-. rewrite Hi in Hj. injection Hj as <-. done.
      * exists i, (k x). split; [apply lookup_insert_eq|]. by apply Hincurs.
Qed.

Lemma works_covered c c' : rtc (work goroutine effect) c c' -> Covered c -> Covered c'.
Proof. induction 1; eauto using work_covered. Qed.

(** ** From a hub just built *)

Lemma NewHub_start b opts ch hub : NewHub b opts ch = Ok hub ->
  (1 <= Hub.maxStreams hub)%Z /\ HubOk (Hub.maxStreams hub) (start_with hub : World).
Proof.
  unfold NewHub. destruct b; cbn [negb]; [|done].
  destruct (for_each _ opts hubConfig.zero) as [hb wt mx]. cbn.
  destruct (fails_test _ hb); [done|]. destruct (fails_test _ wt); [done|].
  destruct (fails_test _ mx) eqn:Em; [done|]. intros [= <-]. cbn [Hub.maxStreams]. split.
  - destruct mx as [z|]; cbn in *; [|done]. case_bool_decide; [lia|done].
  - constructor; unfold Ready, Running, held; cbn; try done.
    + lia.
    + by intros sub [s Hs].
    + intros r. rewrite lookup_empty. cbn. rewrite size_empty. lia.
Qed.

Lemma start_unused hub : staffed busy (∅ : gmap I (prog Atomic unit), start_with hub).
Proof. intros j [Hm|[sub Ho]]; [done|]. unfold once_of in Ho. cbn in Ho. by rewrite lookup_empty in Ho. Qed.

Lemma hub_good b opts ch hub c : NewHub b opts ch = Ok hub ->
  rtc (work goroutine effect) (∅, start_with hub) c ->
  good effect (HubOk (Hub.maxStreams hub)) rely may ends c /\ staffed busy c /\ Covered c.
Proof.
  intros Hnew Hwork. destruct (NewHub_start b opts ch hub Hnew) as [Hn Hok].
  set (n := Hub.maxStreams hub) in *.
  assert (Hg : good effect (HubOk n) rely may ends (∅, start_with hub)).
  { split; [done|]. intros i p E. cbn [fst] in E. by rewrite lookup_empty in E. }
  destruct (works_good goroutine effect busy busy_ok (HubOk n) rely may ends
    (fun i a w w' He Hr Hi => ends_ok n i a w w' He Hr Hi) (effect_ok n)
    ltac:(intros i p w [m ->] Hi Hb; eapply checks_safe;
            [apply method_checks|done|by apply knows_free, not_busy])
    _ c Hwork Hg (start_unused hub)) as [Hg' Hs].
  split_and!; [done|done|]. eapply works_covered; [exact Hwork|]. split; cbn [fst snd].
  - intros i p E. by rewrite lookup_empty in E.
  - intros sub [Hp _]. unfold pending_of in Hp. cbn in Hp. by rewrite lookup_empty in Hp.
Qed.

(** ** Coming to rest *)

(** What a goroutine waits for. *)
Definition waits X (e : Atomic X) w : Prop :=
  match e with
  | Lock => World.mu w <> None
  | OnceBegin sub => exists j, once_of sub w = Doing j
  | Receive sub => has_token sub w = false
  | _ => False
  end.

Lemma acts_or_waits n i X (e : Atomic X) w : HubOk n w ->
  (exists x w', effect i X e w x w') \/ waits X e w.
Proof.
  intros Hok. destruct e as [|run|run| | | | |r|r|sub|sub|sub|signal sub|sub|sub|sub];
    [|left; exists (Ok tt), w; constructor|..]; cbn [waits]; try (left; do 2 eexists; by constructor).
  - left. destruct (markReady_total n run w Hok) as [w' Hw]. exists tt, w'. by constructor.
  - destruct (World.mu w) eqn:Em; [by right|]. left. do 2 eexists. by constructor.
  - destruct (once_of sub w) as [|j|] eqn:Eo.
    + left. do 2 eexists. by constructor.
    + right. by exists j.
    + left. do 2 eexists. by apply effect_once_done.
  - destruct (has_token sub w) eqn:Et; [|by right]. left. do 2 eexists. by constructor.
Qed.

(** At rest, who has not returned waits. *)
Lemma rest_waits n P w i p : HubOk n w -> at_rest effect (P, w) -> P !! i = Some p ->
  match p with Ret _ => True | Call e _ => waits _ e w end.
Proof.
  intros Hok Hrest Hi. destruct p as [a|X e k]; [done|].
  destruct (acts_or_waits n i X e w Hok) as [(x & w' & He)|Hw]; [|done].
  destruct (Hrest (<[i := k x]> P, w')). by econstructor.
Qed.

Lemma rest_free n P w : good effect (HubOk n) rely may ends (P, w) -> staffed busy (P, w) ->
  at_rest effect (P, w) -> World.mu w = None /\ forall i, free i w.
Proof.
  intros [Hok Hsafe] Hs Hrest. cbn [fst snd] in *.
  assert (Hhead : forall i p, P !! i = Some p ->
            match p with Ret a => free i w | Call e _ => may i _ e w /\ waits _ e w end).
  { intros i p Hi. pose proof (rest_waits n P w i p Hok Hrest Hi) as Hw.
    pose proof (Hsafe i p Hi) as Hp. destruct p as [a|X e k]; [exact Hp|].
    split; [|done]. by destruct (Hp w (conj (reflexivity w) Hok)). }
  assert (Hmu : World.mu w = None).
  { destruct (World.mu w) as [j|] eqn:Em; [exfalso|done].
    destruct (Hs j (or_introl Em)) as [p Hp]. pose proof (Hhead j p Hp) as Hj.
    destruct p as [a|X e k]; [by destruct Hj|]. destruct Hj as [Hm Hw].
    destruct e; cbn in Hm, Hw; try done; by destruct Hm. }
  split; [done|]. intros j. split; [by rewrite Hmu|]. intros sub Ho.
  destruct (Hs j (or_intror (ex_intro _ sub Ho))) as [p Hp]. pose proof (Hhead j p Hp) as Hj.
  destruct p as [a|X e k]; [by destruct Hj as [_ Hj]; destruct (Hj sub)|].
  destruct Hj as [Hm Hw]. destruct e; cbn in Hm, Hw; try done; by destruct Hm as [_ Hm]; destruct (Hm sub).
Qed.

(** * Properties *)

(** C29: However goroutines run, open, feed, read and close streams of a hub, step
    by step, no recipient ever holds more streams than the hub allows; a stream
    holds its slot from its admission until it is closed, and a closed one gives
    it back; the channel [Ready] hands out is closed exactly while the hub is
    running, which it is only inside a run, and no channel is closed twice. *)
Theorem hub_streams_bounded broadcaster opts ch hub P w :
  NewHub broadcaster opts ch = Ok hub ->
  rtc (work goroutine effect) (∅, start_with hub) (P, w) ->
  (forall r, (Z.of_nat (size (held r w)) <= Hub.maxStreams hub)%Z) /\
  (forall sub s, World.subs w !! sub = Some s ->
     (Subscription.closeOnce s = NotBegun -> sub ∈ held (Subscription.recipient s) w) /\
     (Subscription.closeOnce s = Done -> forall r, sub ∉ held r w)) /\
  (Ready w ∈ World.closed w <-> Running w = true) /\
  (Running w = true -> is_Some (Hub.current (World.hub w))) /\
  (forall run, exists w', markReady run w = Some w').
Proof.
  intros Hnew Hwork. destruct (NewHub_start broadcaster opts ch hub Hnew) as [Hn _].
  destruct (hub_good broadcaster opts ch hub (P, w) Hnew Hwork) as ([Hok _] & _ & _).
  cbn [snd] in Hok. split_and!.
  - intros r. pose proof (hub_cap _ _ Hok r). lia.
  - intros sub s Hs. split.
    + intros Ho. destruct (hub_open _ _ Hok sub s Hs Ho) as (s' & Hs' & Hin). congruence.
    + intros Ho r Hin. destruct (hub_member _ _ Hok r sub Hin) as (s' & Hs' & _ & Hd). congruence.
  - apply Hok.
  - apply Hok.
  - intros run. by eapply markReady_total.
Qed.

(** C28: The goroutines of a hub always come to rest, whatever the schedule, when
    no more are started: none waits for another forever, and none panics.  At rest
    each has returned but for readers, and a reader waits only where no signal is
    pending; the mutex is free, and a subscription with a signal pending has its
    token, so that its reader's next turn takes the signal. *)
Theorem hub_comes_to_rest broadcaster opts ch hub c :
  NewHub broadcaster opts ch = Ok hub ->
  rtc (work goroutine effect) (∅, start_with hub) c ->
  Acc (flip (turn effect)) c /\
  forall P w, rtc (turn effect) c (P, w) -> at_rest effect (P, w) ->
    (forall i p, P !! i = Some p ->
       p = Ret tt \/ exists sub k, p = Call (Receive sub) k /\ pending_of sub w = None) /\
    World.mu w = None /\
    (forall sub, pending_of sub w <> None -> has_token sub w = true).
Proof.
  intros Hnew Hwork. split; [apply turns_end|]. intros P w Hturns Hrest.
  destruct (hub_good broadcaster opts ch hub (P, w) Hnew) as (Hg & Hs & [_ Hdebt]).
  { etrans; [exact Hwork|by apply turns_work]. }
  destruct (rest_free _ P w Hg Hs Hrest) as [Hmu Hfree]. destruct Hg as [Hok _].
  cbn [fst snd] in *. pose proof (fun i p => rest_waits _ P w i p Hok Hrest) as Hw.
  assert (Htoken : forall sub, pending_of sub w <> None -> has_token sub w = true).
  { intros sub Hp. destruct (has_token sub w) eqn:Et; [done|exfalso].
    destruct (Hdebt sub (conj Hp Et)) as (i & p & Hi & Ho). specialize (Hw i p Hi).
    destruct p as [a|X e k]; [done|]. by destruct e. }
  split_and!; [|done|done]. intros i p Hi. specialize (Hw i p Hi).
  destruct p as [[]|X e k]; [by left|right].
  destruct e; cbn in Hw; try done.
  - destruct Hw as [j Hj]. by destruct (Hfree j) as [_ Hf]; destruct (Hf sub).
  - exists sub, k. split; [done|]. destruct (pending_of sub w) eqn:Ep; [|done].
    rewrite Htoken in Hw; [done|]. by rewrite Ep.
Qed.
End facts.

(** * At concrete inputs *)

Definition signal (change : Change) (at_ : Time) : Signal.t := Signal.mk "ann" change at_.

Definition small : Hub.t := {|
  Hub.heartbeat := DefaultHeartbeat; Hub.writeTimeout := DefaultWriteTimeout;
  Hub.maxStreams := 2; Hub.running := false; Hub.current := None; Hub.readyCh := 0;
  Hub.subscriptions := ∅ |}.

Lemma small_built : NewHub true [Some (WithMaxStreamsPerRecipient 2); None] 0 = Ok small.
Proof. reflexivity. Qed.

Abbreviation World := (World.t nat).

(** The broadcaster's run is address 1; goroutine 0 has begun it and waits in
    [Listen]. *)
Definition listening : World := (beginRun (start_with small)).2.

Definition thread (e : nat * Method) : nat * prog Atomic unit := (e.1, method e.2).

(** Two streams of one recipient, a third refused, two signals, one closed twice. *)
Definition day : list (nat * Method) :=
  [(1, MSubscribe "ann"); (2, MMarkReady 1); (3, MSubscribe "ann"); (4, MSubscribe "ann");
   (5, MSubscribe "ann"); (6, MDeliver (signal ChangeCreated 5)); (7, MDeliver (signal ChangeRead 6));
   (8, MClose 3); (9, MClose 3); (10, MMarkReady 1)].

Definition evening : World := default listening (try_all act (thread <$> day) listening).

Example evening_reached : try_all act (thread <$> day) listening = Some evening.
Proof. vm_compute. reflexivity. Qed.

(** The stream still open holds the latest signal only, under one token. *)
Example evening_streams :
  (fun e => (e.1, Subscription.pending e.2, Subscription.ready e.2, Subscription.closeOnce e.2)) <$>
    map_to_list (World.subs evening) =
  [(2, Some (signal ChangeRead 6), true, NotBegun); (3, Some (signal ChangeRead 6), true, Done)].
Proof. vm_compute. reflexivity. Qed.

Example third_refused :
  (allot "ann" (default listening (try_all act (thread <$> take 4 day) listening))).1 =
  Err (Because ErrTooManyStreams "2 streams are already open for this recipient").
Proof. vm_compute. reflexivity. Qed.

Example latest_taken :
  (try_run (act 11) (next_signal 2) evening) ≫= (fun e => e.1) = Some (signal ChangeRead 6).
Proof. vm_compute. reflexivity. Qed.

Lemma day_names : NoDup (thread <$> day).*1 /\ 0 ∉ (thread <$> day).*1.
Proof. split; apply (bool_decide_unpack _); vm_compute; reflexivity. Qed.

Lemma day_works :
  exists P, rtc (work goroutine effect) (∅, start_with small) (P, evening) /\
    P !! 0 = Some (Call (Listen 1) (fun answer => bind (call EndRun) (fun _ => Ret tt))).
Proof.
  set (P0 := <[0 := Call (Listen 1) (fun answer : res unit => bind (call EndRun) (fun _ => Ret tt))]>
               (∅ : gmap nat (prog Atomic unit))).
  assert (H0 : rtc (work goroutine effect) (∅, start_with small) (P0, listening)).
  { eapply rtc_l; [apply (work_start goroutine effect 0 (method MRun)); [done|by exists MRun]|].
    eapply rtc_l; [apply work_turn; eapply (turn_call effect 0); [apply lookup_insert_eq|constructor]|].
    rewrite insert_insert_eq. apply rtc_refl. }
  destruct (try_all_works goroutine effect act (thread <$> day) listening evening P0)
    as (P & Hw & Hout & _).
  - intros i X e w x w'. apply act_effect.
  - apply day_names.
  - intros i Hi. unfold P0. rewrite lookup_insert_ne; [done|]. intros <-. by apply day_names in Hi.
  - intros i p (e & [= -> ->] & _)%list_elem_of_fmap. by eexists.
  - exact evening_reached.
  - exists P. split; [by etrans|]. rewrite Hout; [by apply lookup_insert_eq|].
    apply day_names.
Qed.

(** * Witnesses *)

Lemma hub_streams_bounded_witness :
  size (held "ann" evening) = 1 /\ (Z.of_nat (size (held "ann" evening)) <= 2)%Z.
Proof.
  split; [vm_compute; reflexivity|]. destruct day_works as (P & Hw & _).
  apply (hub_streams_bounded true [Some (WithMaxStreamsPerRecipient 2); None] 0 small P evening
           small_built Hw).
Defined.

Lemma hub_comes_to_rest_witness :
  exists P, rtc (work goroutine effect) (∅, start_with small) (P, evening) /\
    Acc (flip (turn effect)) (P, evening).
Proof.
  destruct day_works as (P & Hw & _). exists P. split; [exact Hw|].
  apply (hub_comes_to_rest true [Some (WithMaxStreamsPerRecipient 2); None] 0 small (P, evening)
           small_built Hw).
Defined.
