(* ===== verification/NotifyHttp.v ===== *)
(** * NotifyHttp: notifications over HTTP

    Models [notify/http.go]: the construction of the handler, its routes, the
    acting user, the endpoints that list, count and mark notifications, the
    mapping of errors, and the event stream of a recipient's signals.

    The four endpoints are functions of the service; a stream is a program of the
    hub's steps ([NotifyHub.v]), of writes and of what a select chooses.  It serves
    any number of turns: [rounds] is how many are looked at.  A request carries the
    query, the identifier of its path and its body, [None] when reading it fails.
    The encoding of a reply is the argument [Marshal] and the decoding of a body
    the argument [Unmarshal].  Which endpoint a request reaches is the router's. *)

From S2P Require Import Prelude Domain Calendar Sqlkit Text Json Interaction Transport.
From S2P Require Import Notification NotifyStore NotifyService NotifyHub.

Definition DefaultBasePath : string := "/v1".
Definition maxBodyBytes : Z := 65536.

Module Request.
Record t : Type := mk { Query_ : gmap string (list string); ID : string; Body : option string }.
Definition Values (r : t) (name : string) : list string := default [] (Query_ r !! name).
Definition Value (r : t) (name : string) : string :=
  match Values r name with value :: _ => value | [] => "" end.
End Request.

(** ** Construction *)

Definition Actor : Type := Request.t -> res string.

Module handlerConfig.
Record t : Type := mk {
  actor : option Actor;
  basePath : string;
  authorizer : option SubscriptionAuthorizer;
  authorizerSet : bool
}.
#[global] Instance eta : Eta t := fun x => mk (actor x) (basePath x) (authorizer x) (authorizerSet x).
End handlerConfig.

Inductive HandlerOption : Type :=
| WithActor (actor : option Actor)
| WithBasePath (path : string)
| WithSubscriptionAuthorizer (authorizer : option SubscriptionAuthorizer).

Definition apply_handler_option (opt : HandlerOption) (c : handlerConfig.t) : handlerConfig.t :=
  match opt with
  | WithActor actor => c <| handlerConfig.actor := actor |>
  | WithBasePath path =>
      let trimmed := trim_slashes path in
      if decide (trimmed <> "") then c <| handlerConfig.basePath := trimmed |> else c
  | WithSubscriptionAuthorizer authorizer =>
      c <| handlerConfig.authorizer := authorizer |> <| handlerConfig.authorizerSet := true |>
  end.

Module Handler.
Record t : Type := mk { actor : Actor; authorizer : SubscriptionAuthorizer; basePath : string }.
End Handler.

(** [svc] and [hub] say that what was given is not nil. *)
Definition NewHandler (svc hub : bool) (opts : list (option HandlerOption)) : res Handler.t :=
  let cfg := for_each (fun opt c => match opt with Some opt => apply_handler_option opt c | None => c end) opts
    (handlerConfig.mk None DefaultBasePath (Some SelfOnly) false) in
  if negb svc then Err (ConfigurationError "a handler needs a service")
  else if negb hub then Err (ConfigurationError "a handler needs a hub")
  else
    match handlerConfig.actor cfg, handlerConfig.authorizer cfg with
    | None, _ => Err (ConfigurationError "WithActor is required: the handler authenticates nobody")
    | Some _, None => Err (ConfigurationError
        "WithSubscriptionAuthorizer was given no policy; pass notify.AllowAll to permit every subscription")
    | Some actor, Some authorizer => Ok (Handler.mk actor authorizer (handlerConfig.basePath cfg))
    end.

Inductive Endpoint : Type := List | Count | ReadOne | ReadAll | Stream.

Definition Routes (h : Handler.t) : list (string * string * Endpoint) :=
  let path suffix := Handler.basePath h +:+ suffix in
  [("GET", path "/notifications", List);
   ("GET", path "/notifications/count", Count);
   ("POST", path "/notifications/{id}/read", ReadOne);
   ("POST", path "/notifications/read-all", ReadAll);
   ("GET", path "/notifications/stream", Stream)].

(** ** Replies *)

Module errorDetail.
Record t : Type := mk { Code : string; Message : string; Issues : list ValidationIssue.t }.
End errorDetail.

Inductive Reply : Type :=
| ListReply (notifications : list Notification.t) (nextCursor : string)
| CountReply (count : nat)
| NotificationReply (n : Notification.t)
| MarkedReply (marked : nat)
| ErrorReply (detail : errorDetail.t).

Module Response.
Record t : Type := mk { Status : Z; ContentType : string; Body : string }.
End Response.

Definition internalMessage : string := "the request could not be completed".

(** What is answered as an error: one of the library's, or a subscription policy's
    refusal, which matches [ErrUnauthorized] alone whatever it is. *)
Inductive HandlerError : Type :=
| Plain (e : error)
| SubscriptionRefused (cause : error).

Definition HandlerError_Error (e : HandlerError) : string :=
  match e with Plain e | SubscriptionRefused e => Error e end.

Definition HandlerError_Is (e : HandlerError) (s : Sentinel) : bool :=
  match e with Plain e => errors_Is e s | SubscriptionRefused _ => bool_decide (s = ErrUnauthorized) end.

(** [errors.As] against [*ValidationError]: its issues. *)
Fixpoint as_validation (e : error) : option (list ValidationIssue.t) :=
  match e with
  | ValidationError _ issues => Some issues
  | Prefixed _ cause => as_validation cause
  | _ => None
  end.

Definition HandlerError_As (e : HandlerError) : option (list ValidationIssue.t) :=
  match e with Plain e => as_validation e | SubscriptionRefused _ => None end.

Definition describe (e : HandlerError) : Z * errorDetail.t :=
  let detail code := errorDetail.mk code (HandlerError_Error e) [] in
  match HandlerError_As e with
  | Some issues => (400%Z, errorDetail.mk "validation_failed" (HandlerError_Error e) issues)
  | None =>
      if HandlerError_Is e ErrValidation then (400%Z, detail "validation_failed")
      else if HandlerError_Is e ErrUnauthorized then (403%Z, detail "forbidden")
      else if HandlerError_Is e ErrNotFound then (404%Z, detail "not_found")
      else if HandlerError_Is e ErrTooManyStreams then (429%Z, detail "too_many_streams")
      else if HandlerError_Is e ErrUnavailable then (503%Z, detail "unavailable")
      else (500%Z, errorDetail.mk "internal" internalMessage [])
  end.

Section replies.
Context (Marshal : Reply -> option string).

Definition writeJSON (status : Z) (value : Reply) : Response.t :=
  let json := "application/json; charset=utf-8" in
  match Marshal value with
  | Some body => Response.mk status json body
  | None =>
      Response.mk 500 json
        ("{" +:+ quoted "error" +:+ ":{" +:+ quoted "code" +:+ ":" +:+ quoted "internal" +:+ "," +:+
         quoted "message" +:+ ":" +:+ quoted internalMessage +:+ "}}")
  end.

Definition WriteError (e : HandlerError) : Response.t :=
  let '(status, detail) := describe e in writeJSON status (ErrorReply detail).

(** ** The acting user *)

Definition acting (h : Handler.t) (req : Request.t) : res string :=
  try! actor := Handler.actor h req in
  if decide (actor = "") then Err (Because ErrUnauthorized "no acting user is established") else Ok actor.

(** ** The endpoints *)

Section endpoints.
Context {G D B : Type} `{!IDGenerator G, !Store D, !Broadcaster B}.
Context (digest : string -> string) (parse : string -> option cursorPayload.t).
Context (Unmarshal : string -> option Time).
Abbreviation Svc := (Service.t G D B).

Definition request_issue (pointer detail : string) : HandlerError :=
  Plain (ValidationError "request" [ValidationIssue.mk pointer detail]).

(** The state a query names. *)
Definition State_of (s : string) : State :=
  if decide (s = "ACTIVE") then StateActive
  else if decide (s = "READ") then StateRead
  else if decide (s = "CLOSED") then StateClosed
  else StateOther s.

Definition list (req : Request.t) (actor : string) (s : Svc) : Response.t :=
  let q := ListQuery.mk actor (State_of <$> Request.Values req "state") (Request.Values req "kind")
    (Request.Value req "subject") 0 (Request.Value req "cursor") in
  let raw := Request.Value req "limit" in
  match (if decide (raw = "") then Some 0%Z else Atoi raw) with
  | None => WriteError (request_issue "/limit" "is not a number")
  | Some limit =>
      match List_ digest parse (q <| ListQuery.Limit := limit |>) s with
      | Err e => WriteError (Plain e)
      | Ok page => writeJSON 200 (ListReply (Page.Notifications page) (Page.NextCursor page))
      end
  end.

Definition count (actor : string) (s : Svc) : Response.t :=
  match CountActive actor s with
  | Err e => WriteError (Plain e)
  | Ok count => writeJSON 200 (CountReply count)
  end.

Definition markRead (now : Time) (req : Request.t) (actor : string) (s : Svc) : Response.t * Svc :=
  match MarkRead now actor [Request.ID req] s with
  | (Err e, s) => (WriteError (Plain e), s)
  | (Ok _, s) =>
      match Get actor (Request.ID req) s with
      | Err e => (WriteError (Plain e), s)
      | Ok n => (writeJSON 200 (NotificationReply n), s)
      end
  end.

Definition read_body (req : Request.t) : option string :=
  raw ← Request.Body req; if decide (len raw <= maxBodyBytes)%Z then Some raw else None.

Definition markAllRead (now : Time) (req : Request.t) (actor : string) (s : Svc) : Response.t * Svc :=
  match read_body req with
  | None => (WriteError (request_issue "" "the body could not be read"), s)
  | Some raw =>
      match (if blank raw then Some 0%Z else Unmarshal raw) with
      | None => (WriteError (request_issue "/through" "must be an RFC 3339 instant in a JSON object"), s)
      | Some through =>
          match MarkAllRead now actor through s with
          | (Err e, s) => (WriteError (Plain e), s)
          | (Ok result, s) => (writeJSON 200 (MarkedReply (MarkResult.Marked result)), s)
          end
      end
  end.

(** An endpoint that answers at once, through [acting]. *)
Definition serve (h : Handler.t) (e : Endpoint) (now : Time) (req : Request.t) (s : Svc)
  : option (Response.t * Svc) :=
  match acting h req with
  | Err err => Some (WriteError (Plain err), s)
  | Ok actor =>
      match e with
      | List => Some (list req actor s, s)
      | Count => Some (count actor s, s)
      | ReadOne => Some (markRead now req actor s)
      | ReadAll => Some (markAllRead now req actor s)
      | Stream => None
      end
  end.
End endpoints.

(** ** Streams *)

(** What the select of a stream chooses: the end of the request, a token of its
    subscription, which it receives, or the ticker. *)
Inductive Turn : Type := Ended | Signalled | Beat.

Inductive StreamCall : Type -> Type :=
| OnHub {X : Type} (step : Atomic X) : StreamCall X
| Answer (response : Response.t) : StreamCall unit
| Begin (headers : gmap string string) : StreamCall unit
| WriteChunk (timeout : Z) (chunk : string) : StreamCall bool
| Select (heartbeat : Z) (sub : address) : StreamCall Turn.

Fixpoint on_hub_ {A} (p : prog Atomic A) : prog StreamCall A :=
  match p with
  | Ret a => Ret a
  | Call step k => Call (OnHub step) (fun x => on_hub_ (k x))
  end.

Definition connected : string := ": connected" +:+ newline +:+ newline.
Definition heartbeat_ : string := ": heartbeat" +:+ newline +:+ newline.

(** An instant of a year of five digits does not encode, and the error is dropped. *)
Definition eventFor (signal : Signal.t) : string :=
  let at_ := normalizeTime (Signal.At signal) in
  "event: unread-changed" +:+ newline +:+ "data: " +:+
  (if decide (at_ < year_10000)%Z
   then marshal_object [("change", Signal.Change_ signal, false); ("at", format_nano at_, false)]
   else "") +:+ newline +:+ newline.

(** The loop: whether it ended within [rounds] turns. *)
Fixpoint follow (rounds : nat) (hub : Hub.t) (sub : address) : prog StreamCall bool :=
  match rounds with
  | 0 => Ret false
  | S rounds =>
      do! turn := call (Select (Hub.heartbeat hub) sub) in
      match turn with
      | Ended => Ret true
      | Signalled =>
          do! signal := on_hub_ (next_signal sub) in
          match signal with
          | None => follow rounds hub sub
          | Some signal =>
              do! (written : bool) := call (WriteChunk (Hub.writeTimeout hub) (eventFor signal)) in
              if written then follow rounds hub sub else Ret true
          end
      | Beat =>
          do! (written : bool) := call (WriteChunk (Hub.writeTimeout hub) heartbeat_) in
          if written then follow rounds hub sub else Ret true
      end
  end.

Definition stream_headers : gmap string string :=
  <[ "Content-Type" := "text/event-stream" ]> (<[ "Cache-Control" := "no-cache" ]>
    (<[ "X-Accel-Buffering" := "no" ]> ∅)).

(** The stream of a recipient whose subscription was permitted. *)
Definition follow_recipient (rounds : nat) (hub : Hub.t) (recipient : string) : prog StreamCall unit :=
  do! answer := on_hub_ (Subscribe recipient) in
  match answer with
  | Err e => call (Answer (WriteError (Plain e)))
  | Ok sub =>
      do! _ := call (Begin stream_headers) in
      do! (written : bool) := call (WriteChunk (Hub.writeTimeout hub) connected) in
      do! (ended : bool) := (if written then follow rounds hub sub else Ret true) in
      if ended then on_hub_ (Close sub) else Ret tt
  end.

Definition stream (rounds : nat) (hub : Hub.t) (h : Handler.t) (req : Request.t) (actor : string)
  : prog StreamCall unit :=
  let recipient := if decide (Request.Value req "recipient" = "") then actor else Request.Value req "recipient" in
  match Handler.authorizer h actor recipient with
  | Err cause => call (Answer (WriteError (SubscriptionRefused cause)))
  | Ok _ => follow_recipient rounds hub recipient
  end.

Definition serve_stream (rounds : nat) (hub : Hub.t) (h : Handler.t) (req : Request.t) : prog StreamCall unit :=
  match acting h req with
  | Err err => call (Answer (WriteError (Plain err)))
  | Ok actor => stream rounds hub h req actor
  end.
End replies.
