(* ===== verification/NotifyHttpFacts.v ===== *)
(** * NotifyHttpFacts: what a user reaches over HTTP

    Every endpoint acts on the acting user's own notifications: what it answers is
    a function of those alone, and it changes no other; by default a stream follows
    the acting user's signals and nobody else's.

    At the end two services that differ in what another user has read answer a user
    alike, and the error mapping, the routes and a stream run on concrete inputs. *)

From S2P Require Import Prelude Domain Calendar Sqlkit Text Json Interaction Transport.
From S2P Require Import Notification Collections NotifyStore NotifyStoreFacts NotifyList NotifyService NotifyInvariant NotifyHub NotifyHttp.
Import MemoryStore.

(** ** Two stores that agree on a recipient *)

Definition agree (recipient : string) (s1 s2 : MemoryStore.t) : Prop :=
  forall id n, Notification.Recipient n = recipient -> notifications s1 !! id = Some n <-> notifications s2 !! id = Some n.

#[global] Instance agree_equivalence recipient : Equivalence (agree recipient).
Proof.
  split; [done|intros s1 s2 H id n Hn; symmetry; by apply H|].
  intros s1 s2 s3 H H' id n Hn. etrans; [by apply H|by apply H'].
Qed.

(** Nothing of another recipient is changed. *)
Definition others_kept (recipient : string) (s s' : MemoryStore.t) : Prop :=
  forall id n, Notification.Recipient n <> recipient -> notifications s !! id = Some n <-> notifications s' !! id = Some n.

Section agreeing.
Context (recipient : string) (s1 s2 : MemoryStore.t) (Hok1 : StoreOk s1) (Hok2 : StoreOk s2).
Context (Hag : agree recipient s1 s2).

Lemma agree_values (P : Notification.t -> Prop) `{!forall n, Decision (P n)} :
  (forall n, P n -> Notification.Recipient n = recipient) ->
  filter P (values (notifications s1)) ≡ₚ filter P (values (notifications s2)).
Proof.
  intros HP. apply NoDup_Permutation; [by apply NoDup_filter, values_NoDup, store_index..|].
  intros n. rewrite !list_elem_of_filter, !elem_of_values.
  split; intros [Hn [id Hid] ]; (split; [done|]); exists id; by apply (Hag id n (HP n Hn)).
Qed.

Definition mine (s : MemoryStore.t) (id : string) : option Notification.t :=
  n ← notifications s !! id; if decide (Notification.Recipient n = recipient) then Some n else None.

Lemma mine_Some s id n : mine s id = Some n <-> notifications s !! id = Some n /\ Notification.Recipient n = recipient.
Proof. unfold mine. destruct (notifications s !! id) as [n'|]; cbn; [case_decide|]; naive_solver. Qed.

Lemma agree_mine id : mine s1 id = mine s2 id.
Proof.
  apply option_eq. intros n. rewrite !mine_Some. split; intros [H1 H2]; (split; [by apply (Hag id n H2)|done]).
Qed.

Lemma agree_Get id : NotifyStore.Get recipient id s1 = NotifyStore.Get recipient id s2.
Proof.
  assert (HG : forall s, NotifyStore.Get recipient id s =
    match mine s id with Some n => Ok (Notification.Clone n) | None => Err (Bare ErrNotFound) end).
  { intros s. unfold NotifyStore.Get, mine. destruct (notifications s !! id) as [n|]; [|done]. cbn.
    destruct (decide (Notification.Recipient n = recipient)) as [H|H];
      [by rewrite decide_False by (by intros [])|by rewrite decide_True]. }
  by rewrite !HG, agree_mine.
Qed.

Lemma agree_List digest render parse q : ListQuery.Recipient q = recipient ->
  NotifyStore.List_ digest render parse q s1 = NotifyStore.List_ digest render parse q s2.
Proof.
  intros Hq. unfold NotifyStore.List_. destruct (DecodeCursor _ _ _) as [position|e]; [|done]. cbn [rbind]. do 2 f_equal.
  apply sort_Permutation; [apply _|..].
  - apply agree_values. intros n. unfold selects, matches. rewrite Hq. 
    destruct (decide (Notification.Recipient n <> recipient)) as [H|H]; [discriminate 1|].
    intros _. by apply dec_stable.
  - intros x y [_ Hx]%list_elem_of_filter [_ Hy]%list_elem_of_filter.
    apply elem_of_values in Hx as [i Hi], Hy as [j Hj]. intros [E _]%newestFirst_eq.
    pose proof (ids_ok s1 (store_index s1 Hok1) i x Hi). pose proof (ids_ok s1 (store_index s1 Hok1) j y Hj). congruence.
Qed.

Lemma agree_CountActive : NotifyStore.CountActive recipient s1 = NotifyStore.CountActive recipient s2.
Proof. rewrite !CountActive_length. apply Permutation_length, agree_values. by intros n [-> _]. Qed.
(** *** Marking *)

(** An update of the recipient's own notifications alone, by what each is. *)
Lemma agree_read wanted1 wanted2 at_ :
  (forall id n, notifications s1 !! id = Some n -> Notification.Recipient n = recipient -> wanted1 n = wanted2 n) ->
  agree recipient (s1 <| notifications := read_map wanted1 at_ (notifications s1) |>)
    (s2 <| notifications := read_map wanted2 at_ (notifications s2) |>).
Proof.
  intros Hw id n Hn. cbn. unfold read_map. rewrite !lookup_fmap, !fmap_Some.
  assert (Hr : forall w x, Notification.Recipient (if w : bool then read_at at_ x else x) = Notification.Recipient x).
  { intros [] x; [|done]. unfold read_at. destruct (Notification.State_ x); try done. by destruct (Notification.ReadAt x). }
  split; intros (x & Hx & ->); rewrite Hr in Hn.
  - exists x. split; [by apply (Hag id x Hn)|]. by rewrite (Hw id x Hx Hn).
  - apply (Hag id x Hn) in Hx. exists x. split; [done|]. by rewrite (Hw id x Hx Hn).
Qed.
End agreeing.

Lemma read_at_recipient at_ x : Notification.Recipient (read_at at_ x) = Notification.Recipient x.
Proof. unfold read_at. destruct (Notification.State_ x); try done. by destruct (Notification.ReadAt x). Qed.

Lemma read_keeps_others recipient wanted at_ s :
  (forall id n, notifications s !! id = Some n -> wanted n = true -> Notification.Recipient n = recipient) ->
  others_kept recipient s (s <| notifications := read_map wanted at_ (notifications s) |>).
Proof.
  intros Hw id n Hn. cbn. unfold read_map. rewrite lookup_fmap, fmap_Some. split.
  - intros Hx. exists n. split; [done|]. destruct (wanted n) eqn:E; [|done]. by destruct Hn; eapply Hw.
  - intros (x & Hx & ->). destruct (wanted x) eqn:E; [|done]. rewrite read_at_recipient in Hn. by destruct Hn; eapply Hw.
Qed.

Section marking.
Context (recipient : string) (s1 s2 : MemoryStore.t) (Hok1 : StoreOk s1) (Hok2 : StoreOk s2).
Context (Hag : agree recipient s1 s2).

(** Two runs from stores that agree give one answer, and stores that agree. *)
Definition alike {A} (r1 r2 : res A * MemoryStore.t) : Prop :=
  r1.1 = r2.1 /\ agree recipient r1.2 r2.2 /\ StoreOk r1.2 /\ StoreOk r2.2 /\ others_kept recipient s1 r1.2.

Lemma alike_MarkRead ids at_ :
  alike (NotifyStore.MarkRead recipient ids at_ s1) (NotifyStore.MarkRead recipient ids at_ s2).
Proof.
  destruct (mark_read_outcome recipient ids at_ s1 Hok1) as [ [ (id & Hid & Hno) ->]|(Hall1 & s1' & Hok1' & -> & E1)],
    (mark_read_outcome recipient ids at_ s2 Hok2) as [ [ (id' & Hid' & Hno') ->]|(Hall2 & s2' & Hok2' & -> & E2)].
  - by split_and!.
  - destruct (Hall2 id Hid) as (n & Hn & Hr). apply (Hag id n Hr) in Hn. by destruct (Hno n Hn).
  - destruct (Hall1 id' Hid') as (n & Hn & Hr). apply (Hag id' n Hr) in Hn. by destruct (Hno' n Hn).
  - unfold alike. cbn [fst snd]. split_and!; [| |done|done|].
    + do 2 f_equal. f_equal. apply list_filter_iff_in. intros id Hid. rewrite elem_of_sorted_distinct in Hid.
      destruct (Hall1 id Hid) as (n & Hn & Hr). unfold at_id. pose proof Hn as Hn2. apply (Hag id n Hr) in Hn2.
      by rewrite Hn, Hn2.
    + subst. by apply agree_read.
    + subst. apply read_keeps_others. intros id n Hn Hw. apply bool_decide_eq_true in Hw.
      rewrite (ids_ok s1 (store_index s1 Hok1) id n Hn) in Hw. destruct (Hall1 id Hw) as (n' & Hn' & Hr). congruence.
Qed.

Lemma alike_MarkAllRead through at_ :
  alike (NotifyStore.MarkAllRead recipient through at_ s1) (NotifyStore.MarkAllRead recipient through at_ s2).
Proof.
  unfold NotifyStore.MarkAllRead. cbv zeta.
  pose proof (mark_all_loop recipient through (normalizeTime at_) s1 Hok1) as H1.
  pose proof (mark_all_loop recipient through (normalizeTime at_) s2 Hok2) as H2.
  destruct (for_each _ (map_to_list (notifications s1)) _) as [m1 d1].
  destruct (for_each _ (map_to_list (notifications s2)) _) as [m2 d2].
  destruct H1 as (H1 & E1 & D1), H2 as (H2 & E2 & D2). cbn [fst snd] in *.
  assert (Hw : forall n, unread_until recipient through n = true -> Notification.Recipient n = recipient).
  { intros n. unfold unread_until. rewrite !andb_true_iff, bool_decide_eq_true. tauto. }
  unfold alike. cbn [fst snd]. split_and!; [|subst..].
  - subst m1 m2. do 2 f_equal. by apply Permutation_length, (agree_values recipient).
  - by apply agree_read.
  - done.
  - done.
  - apply read_keeps_others. eauto.
Qed.
End marking.

(** ** The endpoints *)

Section serving.
Context {G B : Type} `{!IDGenerator G, !Broadcaster B}.
Context (digest : string -> string) (render : cursorPayload.t -> string) (parse : string -> option cursorPayload.t).
#[local] Instance store_here : Store MemoryStore.t := MemoryStore_Store digest render parse.
Context (Unmarshal : string -> option Time) (Marshal : Reply -> option string).
Abbreviation Svc := (Service.t G MemoryStore.t B).

(** Two services whose stores agree on a user. *)
Definition agreed (actor : string) (w1 w2 : Svc) : Prop :=
  StoreOk (Service.store w1) /\ StoreOk (Service.store w2) /\ agree actor (Service.store w1) (Service.store w2).

Definition same_for {A} (actor : string) (w1 : Svc) (r1 r2 : A * Svc) : Prop :=
  r1.1 = r2.1 /\ agreed actor r1.2 r2.2 /\ others_kept actor (Service.store w1) (Service.store r1.2).

(** What the service makes of a marking of its store: the signal comes after it. *)
Definition marked (sig : Datatypes.list Signal.t) (w : Svc) (r : res MarkResult.t * MemoryStore.t)
  : res MarkResult.t * Svc :=
  match r with
  | (Err e, d) => (Err e, w <| Service.store := d |>)
  | (Ok result, d) =>
      let w := w <| Service.store := d |> in
      (Ok result, if decide (0 < MarkResult.Marked result) then signal sig w else w)
  end.

Lemma marked_alike actor (w1 w2 : Svc) r1 r2 sig : alike actor (Service.store w1) r1 r2 ->
  same_for actor w1 (marked sig w1 r1) (marked sig w2 r2).
Proof.
  intros (Hr & Hag & Hok1 & Hok2 & Hkept). destruct r1 as [r1 d1], r2 as [r2 d2]. cbn [fst snd] in *. subst r2.
  unfold same_for, agreed. destruct r1 as [result|e]; cbn [fst snd marked]; [|by split_and!].
  split; [done|]. case_decide; rewrite ?(proj1 (signal_rest _ _)); by split_and!.
Qed.

Lemma MarkRead_alike actor now ids (w1 w2 : Svc) : agreed actor w1 w2 ->
  same_for actor w1 (NotifyService.MarkRead now actor ids w1) (NotifyService.MarkRead now actor ids w2).
Proof.
  intros Ha. unfold NotifyService.MarkRead. cbv zeta. destruct (invalid _ _) as [u|e].
  - destruct Ha as (H1 & H2 & H). apply (marked_alike actor w1 w2), (alike_MarkRead actor _ _ H1 H2 H).
  - split; [done|]. by split.
Qed.

Lemma MarkAllRead_alike actor now through (w1 w2 : Svc) : agreed actor w1 w2 ->
  same_for actor w1 (NotifyService.MarkAllRead now actor through w1) (NotifyService.MarkAllRead now actor through w2).
Proof.
  intros Ha. unfold NotifyService.MarkAllRead. cbv zeta. destruct (invalid _ _) as [u|e].
  - destruct Ha as (H1 & H2 & H). apply (marked_alike actor w1 w2), (alike_MarkAllRead actor _ _ H1 H2 H).
  - split; [done|]. by split.
Qed.

Lemma Get_alike actor id (w1 w2 : Svc) : agreed actor w1 w2 -> NotifyService.Get actor id w1 = NotifyService.Get actor id w2.
Proof.
  intros (_ & _ & Ha). unfold NotifyService.Get. cbv zeta. destruct (invalid _ _); [|done]. cbn [rbind].
  by apply agree_Get.
Qed.

Abbreviation serve_ := (serve Marshal digest parse Unmarshal).

(** C37: A user reaches only their own notifications.  On any two stores that hold the
    same notifications of the acting user, whatever they hold of others, every
    endpoint answers a request with the same response and leaves stores that agree
    again; it changes no notification of another recipient, so that one of those
    is answered exactly like a missing one.  Without an acting user nothing is read
    or changed and the answer is that of the error.  By default a stream subscribes
    to the acting user's signals, and a request for another's is refused before the
    hub is asked. *)
Theorem own_notifications_only h req now (w1 w2 : Svc) :
  (forall actor endpoint, acting h req = Ok actor -> endpoint <> Stream -> agreed actor w1 w2 ->
     exists response w1' w2',
       serve_ h endpoint now req w1 = Some (response, w1') /\
       serve_ h endpoint now req w2 = Some (response, w2') /\
       agreed actor w1' w2' /\ others_kept actor (Service.store w1) (Service.store w1')) /\
  (forall err endpoint rounds hub, acting h req = Err err ->
     serve_ h endpoint now req w1 = Some (WriteError Marshal (Plain err), w1) /\
     serve_stream Marshal rounds hub h req = call (Answer (WriteError Marshal (Plain err)))) /\
  (forall actor rounds hub, acting h req = Ok actor -> Handler.authorizer h = SelfOnly ->
     let named := Request.Value req "recipient" in
     serve_stream Marshal rounds hub h req =
       if decide (named = "" \/ named = actor) then follow_recipient Marshal rounds hub actor
       else call (Answer (WriteError Marshal (SubscriptionRefused
              (Because ErrUnauthorized "a user may follow only their own notifications"))))).
Proof.
  split_and!.
  - intros actor endpoint Hact Hne Ha. unfold serve. rewrite Hact. destruct endpoint; [..|done].
    + assert (Hl : NotifyHttp.list Marshal digest parse req actor w1 = NotifyHttp.list Marshal digest parse req actor w2).
      { unfold NotifyHttp.list. destruct (if decide _ then _ else _); [|done]. unfold List_.
        destruct (ListQuery_Validate _ _ _); [|done]. cbn [rbind].
        destruct Ha as (H1 & H2 & H). unfold store_List. cbn [store_here MemoryStore_Store].
        by erewrite (agree_List actor _ (Service.store w2)). }
      eexists _, w1, w2. rewrite <- Hl. by split_and!.
    + assert (Hc : NotifyHttp.count Marshal actor w1 = NotifyHttp.count Marshal actor w2).
      { unfold NotifyHttp.count, CountActive. destruct (invalid _ _); [|done]. cbn [rbind].
        destruct Ha as (H1 & H2 & H). unfold store_CountActive. cbn. by rewrite (agree_CountActive actor _ (Service.store w2)). }
      eexists _, w1, w2. rewrite <- Hc. by split_and!.
    + unfold markRead. destruct (MarkRead_alike actor now [Request.ID req] w1 w2 Ha) as (Hr & Ha' & Hk).
      destruct (NotifyService.MarkRead now actor _ w1) as [r1 w1'], (NotifyService.MarkRead now actor _ w2) as [r2 w2'].
      cbn [fst snd] in *. subst r2. destruct r1 as [result|e]; [|by eexists _, w1', w2'].
      rewrite (Get_alike actor _ w1' w2' Ha'). destruct (NotifyService.Get _ _ _); by eexists _, w1', w2'.
    + unfold markAllRead. destruct (read_body req) as [raw|]; [|by eexists _, w1, w2].
      destruct (if blank raw then _ else _) as [through|]; [|by eexists _, w1, w2].
      destruct (MarkAllRead_alike actor now through w1 w2 Ha) as (Hr & Ha' & Hk).
      destruct (NotifyService.MarkAllRead now actor _ w1) as [r1 w1'], (NotifyService.MarkAllRead now actor _ w2) as [r2 w2'].
      cbn [fst snd] in *. subst r2. destruct r1; by eexists _, w1', w2'.
  - intros err endpoint rounds hub Hact. unfold serve, serve_stream. by rewrite Hact.
  - intros actor rounds hub Hact Hauth named. unfold serve_stream, stream. rewrite Hact, Hauth. fold named.
    assert (Hne : actor <> "").
    { unfold acting in Hact. destruct (Handler.actor h req) as [a|]; [|done]. cbn in Hact. case_decide; [done|]. congruence. }
    unfold SelfOnly, selfOnly. destruct (decide (named = "")) as [Hn|Hn].
    + rewrite (decide_False (P := actor = "")), decide_False, decide_True by (try tauto; congruence). done.
    + rewrite (decide_False (P := actor = "")) by done. destruct (decide (named <> actor)) as [H|H].
      * rewrite decide_False by tauto. done.
      * rewrite decide_True by (right; by apply dec_stable). by rewrite (dec_stable H).
Qed.
End serving.

(** * At concrete inputs *)

From S2P Require Import Query NotifyExamples.

Module NotifyHttpExamples.
Definition request (name value id : string) : Request.t := Request.mk {[ name := [value] ]} id (Some "").

(** The acting user is a query parameter here. *)
Definition handler : Handler.t := Handler.mk (fun req => Ok (Request.Value req "user")) SelfOnly "/v1".

(** Replies told apart by their first letter. *)
Definition Marshal (r : Reply) : option string :=
  match r with
  | ListReply l _ => Some ("l" +:+ pretty (length l))
  | CountReply n => Some ("c" +:+ pretty n)
  | NotificationReply n => Some ("n" +:+ Notification.ID n)
  | MarkedReply n => Some ("m" +:+ pretty n)
  | ErrorReply d => Some (errorDetail.Code d)
  end.

Definition Unmarshal (_ : string) : option Time := None.

(** Before and after bob reads. *)
Definition unread : Svc := performs digest render parse [OpPublish 5000000 offers] begin.
End NotifyHttpExamples.
Import NotifyHttpExamples.

Lemma unread_ok : StoreOk (Service.store unread).
Proof.
  destruct (performs_keep digest render parse [OpPublish 5000000 offers] begin [] begin_ok) as (u & _ & H & _).
  apply H.
Qed.

Lemma agreed_ann : agreed "ann" unread later.
Proof.
  assert (Hr : Service.store later =
    (NotifyStore.MarkRead "bob" ["n1"] (normalizeTime 6000000) (Service.store unread)).2) by (vm_compute; reflexivity).
  pose proof (alike_MarkRead "bob" _ _ unread_ok unread_ok (reflexivity _) ["n1"] (normalizeTime 6000000))
    as (_ & _ & Hok & _ & Hk).
  split; [apply unread_ok|]. split; [rewrite Hr; exact Hok|].
  intros id n Hn. rewrite Hr. apply Hk. congruence.
Qed.

(** Ann asks to read bob's notification. *)
Lemma own_notifications_only_witness :
  exists response w1 w2,
    serve Marshal digest parse Unmarshal handler ReadOne 9000000 (request "user" "ann" "n1") unread = Some (response, w1) /\
    serve Marshal digest parse Unmarshal handler ReadOne 9000000 (request "user" "ann" "n1") later = Some (response, w2) /\
    agreed "ann" w1 w2 /\ others_kept "ann" (Service.store unread) (Service.store w1).
Proof.
  apply (proj1 (own_notifications_only digest render parse Unmarshal Marshal handler (request "user" "ann" "n1")
    9000000 unread later) "ann" ReadOne); [vm_compute; reflexivity|discriminate|apply agreed_ann].
Defined.

Definition answer (e : Endpoint) (req : Request.t) (w : Svc) : option (Z * string) :=
  (fun r => (Response.Status r.1, Response.Body r.1)) <$>
    serve Marshal digest parse Unmarshal handler e 9000000 req w.

Example answers :
  answer ReadOne (request "user" "ann" "n1") later = Some (404%Z, "not_found") /\
  answer ReadOne (request "user" "ann" "n9") later = Some (404%Z, "not_found") /\
  answer ReadOne (request "user" "bob" "n1") later = Some (200%Z, "nn1") /\
  answer List (request "user" "ann" "") later = Some (200%Z, "l2") /\
  answer Count (request "user" "bob" "") later = Some (200%Z, "c0") /\
  answer ReadAll (request "user" "ann" "") later = Some (200%Z, "m2") /\
  answer List (request "nobody" "ann" "") later = Some (403%Z, "forbidden") /\
  answer List (Request.mk {[ "user" := ["ann"]; "limit" := ["x"] ]} "" None) later = Some (400%Z, "validation_failed") /\
  answer ReadAll (Request.mk {[ "user" := ["ann"] ]} "" None) later = Some (400%Z, "validation_failed").
Proof. vm_compute. done. Qed.

Example errors_mapped :
  (fun e => (describe e).1) <$>
    [Plain (Bare ErrTooManyStreams); Plain (Because ErrUnavailable "x"); Plain (External "disk");
     Plain (Prefixed "list" (Bare ErrNotFound)); SubscriptionRefused (Bare ErrNotFound)] = [429; 503; 500; 404; 403]%Z.
Proof. vm_compute. reflexivity. Qed.

Example handlers_built :
  is_ok (NewHandler true true []) = false /\
  is_ok (NewHandler true true [Some (WithActor None)]) = false /\
  is_ok (NewHandler true true [Some (WithActor (Some (fun _ => Ok "a"))); Some (WithSubscriptionAuthorizer None)]) = false /\
  match NewHandler true true [Some (WithActor (Some (fun _ => Ok "a"))); None; Some (WithBasePath "/api/")] with
  | Ok h => (Routes h !! 3) = Some ("POST", "/api/notifications/read-all", ReadAll)
  | Err _ => False
  end.
Proof. vm_compute. done. Qed.

Example signal_event :
  eventFor (Signal.mk "ann" ChangeCreated 63871200000123456789) =
  "event: unread-changed" +:+ newline +:+ "data: {" +:+ quoted "change" +:+ ":" +:+ quoted "created" +:+ "," +:+
  quoted "at" +:+ ":" +:+ quoted "2024-12-31T00:00:00.123456Z" +:+ "}" +:+ newline +:+ newline.
Proof. vm_compute. reflexivity. Qed.


Example another's_stream_refused hub :
  serve_stream Marshal 3 hub handler (Request.mk {[ "user" := ["ann"]; "recipient" := ["bob"] ]} "" None) =
  Interaction.call (Answer (Response.mk 403 "application/json; charset=utf-8" "forbidden")).
Proof. vm_compute. reflexivity. Qed.
