(* ===== verification/Broadcast.v ===== *)
(** * Broadcast: signals between instances

    Models [notify/codec.go], the wire format of signals; the in-process
    broadcaster of [notify/realtime.go]; and the broadcasters over a broker, of
    [notify/redis] in the module [RedisBroadcast] and of [notify/nats] in the module
    [NatsBroadcast]: their options and construction, the subjects NATS allows, a
    broadcast in messages of bounded size, a listener from its subscription to its
    end, and their errors.

    The in-process broadcaster calls its listeners while it holds a lock that
    registering needs, so that a broadcast is one step: what it does is give every
    listener the signals, in order.  Over a broker a broadcast and a listener are
    programs of the client's calls.  A listener looks at any number of turns of its
    loop: [rounds] is how many.  The client's errors are the type [Cause].  A
    publication to Redis and a confirmation from NATS are made under contexts that
    end after their timeouts; a publication to NATS is not flushed, and the channel
    a NATS listener receives on is never closed.  [encoding/json] of a message is
    the argument [json], whose errors are texts. *)

From Stdlib Require Import Ascii.
From S2P Require Import Prelude Domain Text Notification NotifyService Interaction.
From S2P Require NatsSink.

(** ** The wire format *)

Definition SignalFormatVersion : Z := 1.
Definition ErrUnknownSignalFormat : string := "notify: unknown signal format".

Module wireSignal.
Record t : Type := mk { Recipient : string; Change_ : Change; At : Time }.
End wireSignal.

Module signalMessage.
Record t : Type := mk { Version : Z; Signals : list wireSignal.t }.
End signalMessage.

Module SignalJson.
Record t : Type := mk {
  Marshal : signalMessage.t -> result string string;
  Unmarshal : string -> result string signalMessage.t
}.
End SignalJson.

(** The error of the codec: of which only a message of another version matches
    [ErrUnknownSignalFormat]. *)
Inductive CodecError : Type :=
| EncodeFailed (cause : string)
| DecodeFailed (cause : string)
| UnknownFormat (version : Z).

Definition CodecError_Error (e : CodecError) : string :=
  match e with
  | EncodeFailed cause => "notify: encode signals: " +:+ cause
  | DecodeFailed cause => "notify: decode signals: " +:+ cause
  | UnknownFormat version =>
      ErrUnknownSignalFormat +:+ ": version " +:+ pretty version +:+ ", expected " +:+ pretty SignalFormatVersion
  end.

Section codec.
Context (json : SignalJson.t).

Definition EncodeSignals (signals : list Signal.t) : result CodecError string :=
  let message := signalMessage.mk SignalFormatVersion
    ((fun signal => wireSignal.mk (Signal.Recipient signal) (Signal.Change_ signal) (normalizeTime (Signal.At signal)))
       <$> signals) in
  match SignalJson.Marshal json message with
  | Err cause => Err (EncodeFailed cause)
  | Ok encoded => Ok encoded
  end.

Definition DecodeSignals (data : string) : result CodecError (list Signal.t) :=
  match SignalJson.Unmarshal json data with
  | Err cause => Err (DecodeFailed cause)
  | Ok message =>
      if decide (signalMessage.Version message <> SignalFormatVersion)
      then Err (UnknownFormat (signalMessage.Version message))
      else Ok ((fun signal => Signal.mk (wireSignal.Recipient signal) (wireSignal.Change_ signal)
                  (normalizeTime (wireSignal.At signal))) <$> signalMessage.Signals message)
  end.
End codec.

(** [slices.Chunk(l, size)], for a size of at least one; [fuel] of the length of
    the list is enough. *)
Fixpoint chunked {A} (fuel : nat) (size : nat) (l : list A) : list (list A) :=
  match fuel, l with
  | S fuel, _ :: _ => take size l :: chunked fuel size (drop size l)
  | _, _ => []
  end.
Definition Chunk {A} (l : list A) (size : nat) : list (list A) := chunked (length l) size l.

(** ** In process *)

Module InProcess.
(** The listeners, each with what it was given. *)
Record t : Type := mk { listeners : gmap nat (list Signal.t) }.
#[global] Instance eta : Eta t := fun x => mk (listeners x).
Definition NewInProcessBroadcaster : t := mk ∅.

Definition Broadcast (signals : list Signal.t) (b : t) : t :=
  b <| listeners := (fun given => given ++ signals) <$> listeners b |>.

#[global] Instance broadcaster : Broadcaster t := {
  NotifyService.Broadcast signals := fun b => (Ok tt, Broadcast signals b)
}.

(** What a listener does of its own: each step on the listeners is made under the
    lock. *)
Inductive call : Type -> Type :=
| Register : call nat
| Ready : call unit
| Await : call unit            (* <-ctx.Done() *)
| Unregister (l : nat) : call unit
| CtxErr : call (option error).

(** [deliver] and [ready] say that the functions given are not nil. *)
Definition Listen (deliver ready : bool) : prog call (option error) :=
  if negb deliver then Ret (Some (ConfigurationError "a listener needs a deliver function"))
  else if negb ready then Ret (Some (ConfigurationError "a listener needs a ready function"))
  else
    do! listener := Interaction.call Register in
    do! _ := Interaction.call Ready in
    do! _ := Interaction.call Await in
    do! _ := Interaction.call (Unregister listener) in
    Interaction.call CtxErr.
End InProcess.

(** ** Over a broker *)

(** What a listener finds: the end of its context, a message, or the end of its
    subscription. *)
Inductive Turn : Type :=
| Done
| Message (payload : string)
| Ended.

(** What a subscription is answered: that it is made, or a reply of another
    type. *)
Inductive Reply : Type :=
| Confirmed
| Another (type : string).

(** A reported error: of the codec, with the text before it. *)
Definition Report : Type := string * CodecError.

Inductive call (Cause : Type) : Type -> Type :=
| Publish (timeout : option Z) (subject payload : string) : call Cause (option Cause)
| Subscribe (channel : string) : call Cause unit
| ChanSubscribe (subject : string) : call Cause (option Cause)
| Receive : call Cause (result Cause Reply)
| Flush (timeout : Z) : call Cause (option Cause)
| CtxErr : call Cause (option Cause)
| Ready : call Cause unit
| Select : call Cause Turn
| SelectOpen : call Cause (option string)   (* where the messages never end; None is Done *)
| OnError (report : Report) : call Cause unit
| Deliver (signal : Signal.t) : call Cause unit
| Unsubscribe : call Cause unit.
Arguments Publish {Cause} timeout subject payload.
Arguments Subscribe {Cause} channel.
Arguments ChanSubscribe {Cause} subject.
Arguments Receive {Cause}.
Arguments Flush {Cause} timeout.
Arguments CtxErr {Cause}.
Arguments Ready {Cause}.
Arguments Select {Cause}.
Arguments SelectOpen {Cause}.
Arguments OnError {Cause} report.
Arguments Deliver {Cause} signal.
Arguments Unsubscribe {Cause}.

Definition deliver_each {Cause} (signals : list Signal.t) : prog (call Cause) unit :=
  loop (fun signal _ => Interaction.call (Deliver signal)) signals tt.

(** * Over Redis publish/subscribe *)

Module RedisBroadcast.
Definition DefaultChannel : string := "notify.signals".
Definition DefaultPublishTimeout : Z := (5 * 1000000000)%Z.
Definition MaxSignalsPerMessage : nat := 500.

(** ** Errors *)

Inductive Sentinel : Type := ErrConfiguration | ErrNotifyConfiguration | ErrPublish.

Inductive error (Cause : Type) : Type :=
| ConfigurationError (Detail : string)
| PublishError (Channel : string) (Signals : nat) (cause : option Cause)
| Encoding (e : CodecError)
| Around (before : string) (cause : Cause)      (* a text before an error of the client *)
| Context (e : option Cause)                    (* the error of the context, as it is *)
| Text (text : string).
Arguments ConfigurationError {Cause} Detail.
Arguments PublishError {Cause} Channel Signals cause.
Arguments Encoding {Cause} e.
Arguments Around {Cause} before cause.
Arguments Context {Cause} e.
Arguments Text {Cause} text.

Definition Error {Cause} (text : Cause -> string) (e : error Cause) : string :=
  match e with
  | ConfigurationError Detail => "redis: invalid configuration: " +:+ Detail
  | PublishError Channel Signals cause =>
      "redis: publishing " +:+ pretty Signals +:+ " signals to channel " +:+ quote Channel +:+ ": " +:+
      match cause with None => "<nil>" | Some cause => text cause end
  | Encoding e => CodecError_Error e
  | Around before cause => before +:+ text cause
  | Context e => match e with None => "<nil>" | Some cause => text cause end
  | Text text => text
  end.

(** [Unwrap]: the sentinels, and the cause where there is one. *)
Definition Unwrap {Cause} (e : error Cause) : list Sentinel * option Cause :=
  match e with
  | ConfigurationError _ => ([ErrConfiguration; ErrNotifyConfiguration], None)
  | PublishError _ _ cause => ([ErrPublish], cause)
  | Around _ cause => ([], Some cause)
  | Context e => ([], e)
  | Encoding _ | Text _ => ([], None)
  end.

(** ** Construction *)

Module config.
Record t : Type := mk { channel : string; timeout : option Z; onError : bool }.
#[global] Instance eta : Eta t := fun x => mk (channel x) (timeout x) (onError x).
End config.

(** A handler is given or nil. *)
Inductive Option : Type :=
| WithChannel (channel : string)
| WithPublishTimeout (timeout : Z)
| WithDecodeErrorHandler (handler : bool).

Definition apply_option (opt : Option) (c : config.t) : config.t :=
  match opt with
  | WithChannel channel => c <| config.channel := channel |>
  | WithPublishTimeout timeout => c <| config.timeout := Some timeout |>
  | WithDecodeErrorHandler handler => c <| config.onError := handler |>
  end.

(** [onError] says whether the host's handler hears of undecodable messages. *)
Module Broadcaster.
Record t : Type := mk { channel : string; timeout : Z; onError : bool }.
End Broadcaster.

(** [client] says that the client given is not nil; a nil option is skipped. *)
Definition NewBroadcaster {Cause} (client : bool) (opts : list (option Option)) : result (error Cause) Broadcaster.t :=
  let cfg := for_each (fun opt c => match opt with Some opt => apply_option opt c | None => c end) opts
    (config.mk DefaultChannel None false) in
  if negb client then Err (ConfigurationError "a Redis client is required")
  else if decide (config.channel cfg = "")
  then Err (ConfigurationError ("the channel must not be empty; omit WithChannel to keep " +:+ DefaultChannel))
  else if match config.timeout cfg with Some timeout => bool_decide (timeout <= 0)%Z | None => false end
  then Err (ConfigurationError "the publish timeout must be positive; omit WithPublishTimeout to keep the default")
  else Ok (Broadcaster.mk (config.channel cfg) (default DefaultPublishTimeout (config.timeout cfg)) (config.onError cfg)).

(** ** Broadcasting *)

Section broadcasting.
Context {Cause : Type} (json : SignalJson.t) (b : Broadcaster.t).

Definition publish (payload : string) : prog (call Cause) (option Cause) :=
  Interaction.call (Publish (Some (Broadcaster.timeout b)) (Broadcaster.channel b) payload).

Fixpoint broadcast_each (chunks : list (list Signal.t)) : prog (call Cause) (option (error Cause)) :=
  match chunks with
  | [] => Ret None
  | chunk :: rest =>
      match EncodeSignals json chunk with
      | Err err => Ret (Some (Encoding err))
      | Ok payload =>
          do! err := publish payload in
          match err with
          | Some err => Ret (Some (PublishError (Broadcaster.channel b) (length chunk) (Some err)))
          | None => broadcast_each rest
          end
      end
  end.

Definition Broadcast (signals : list Signal.t) : prog (call Cause) (option (error Cause)) :=
  broadcast_each (Chunk signals MaxSignalsPerMessage).

(** ** Listening *)

(** What is returned, or [None] where the loop goes on after its turns. *)
Fixpoint receive (rounds : nat) : prog (call Cause) (option (error Cause)) :=
  match rounds with
  | 0 => Ret None
  | S rounds =>
      do! turn := Interaction.call Select in
      match turn with
      | Done => do! err := Interaction.call CtxErr in Ret (Some (Context err))
      | Ended => Ret (Some (Text ("redis: the subscription to channel " +:+ quote (Broadcaster.channel b) +:+ " ended")))
      | Message payload =>
          match DecodeSignals json payload with
          | Err err =>
              do! _ := (if Broadcaster.onError b
                        then Interaction.call
                          (OnError ("redis: a message on channel " +:+ quote (Broadcaster.channel b) +:+ ": ", err))
                        else Ret tt) in
              receive rounds
          | Ok signals => do! _ := deliver_each signals in receive rounds
          end
      end
  end.

(** The subscription, answered; an error where it is not confirmed. *)
Definition confirmed : prog (call Cause) (option (error Cause)) :=
  do! reply := Interaction.call Receive in
  match reply with
  | Err err =>
      do! ended := Interaction.call CtxErr in
      Ret (Some match ended with
                | Some err => Context (Some err)
                | None => Around ("redis: subscribe to channel " +:+ quote (Broadcaster.channel b) +:+ ": ") err
                end)
  | Ok (Another type) =>
      Ret (Some (Text ("redis: subscribe to channel " +:+ quote (Broadcaster.channel b) +:+ ": the broker answered " +:+
                       type +:+ ", not a subscription confirmation")))
  | Ok Confirmed => Ret None
  end.

(** [deliver] and [ready] say that the functions given are not nil. *)
Definition Listen (rounds : nat) (deliver ready : bool) : prog (call Cause) (option (error Cause)) :=
  if negb deliver then Ret (Some (ConfigurationError "Listen needs a deliver function"))
  else if negb ready then Ret (Some (ConfigurationError "Listen needs a ready function"))
  else
    do! _ := Interaction.call (Subscribe (Broadcaster.channel b)) in
    do! refused := confirmed in
    match refused with
    | Some err => do! _ := Interaction.call Unsubscribe in Ret (Some err)
    | None =>
        do! _ := Interaction.call Ready in
        do! ended := receive rounds in
        match ended with
        | Some err => do! _ := Interaction.call Unsubscribe in Ret (Some err)
        | None => Ret None
        end
    end.
End broadcasting.
End RedisBroadcast.

(** * Over a NATS subject *)

Module NatsBroadcast.
Definition DefaultSubject : string := "notify.signals".
Definition DefaultSubscribeTimeout : Z := (5 * 1000000000)%Z.
Definition MaxSignalsPerMessage : nat := 500.

(** ** Errors *)

Inductive Sentinel : Type := ErrConfiguration | ErrNotifyConfiguration | ErrPublish.

Inductive error (Cause : Type) : Type :=
| ConfigurationError (Detail : string)
| PublishError (Subject : string) (Signals : nat) (cause : option Cause)
| Encoding (e : CodecError)
| Around (before : string) (cause : Cause)
| Context (e : option Cause).
Arguments ConfigurationError {Cause} Detail.
Arguments PublishError {Cause} Subject Signals cause.
Arguments Encoding {Cause} e.
Arguments Around {Cause} before cause.
Arguments Context {Cause} e.

Definition Error {Cause} (text : Cause -> string) (e : error Cause) : string :=
  match e with
  | ConfigurationError Detail => "nats: invalid configuration: " +:+ Detail
  | PublishError Subject Signals cause =>
      "nats: publishing " +:+ pretty Signals +:+ " signals to subject " +:+ quote Subject +:+ ": " +:+
      match cause with None => "<nil>" | Some cause => text cause end
  | Encoding e => CodecError_Error e
  | Around before cause => before +:+ text cause
  | Context e => match e with None => "<nil>" | Some cause => text cause end
  end.

Definition Unwrap {Cause} (e : error Cause) : list Sentinel * option Cause :=
  match e with
  | ConfigurationError _ => ([ErrConfiguration; ErrNotifyConfiguration], None)
  | PublishError _ _ cause => ([ErrPublish], cause)
  | Around _ cause => ([], Some cause)
  | Context e => ([], e)
  | Encoding _ => ([], None)
  end.

(** ** Construction *)

Module config.
Record t : Type := mk { subject : string; subscribeTimeout : option Z; onError : bool }.
#[global] Instance eta : Eta t := fun x => mk (subject x) (subscribeTimeout x) (onError x).
End config.

Inductive Option : Type :=
| WithSubject (subject : string)
| WithSubscribeTimeout (timeout : Z)
| WithDecodeErrorHandler (handler : bool).

Definition apply_option (opt : Option) (c : config.t) : config.t :=
  match opt with
  | WithSubject subject => c <| config.subject := subject |>
  | WithSubscribeTimeout timeout => c <| config.subscribeTimeout := Some timeout |>
  | WithDecodeErrorHandler handler => c <| config.onError := handler |>
  end.

Module Broadcaster.
Record t : Type := mk { subject : string; subscribeTimeout : Z; onError : bool }.
End Broadcaster.

(** The loop over the tokens of a subject. *)
Fixpoint bad_token {Cause} (subject : string) (tokens : list string) : option (error Cause) :=
  match tokens with
  | [] => None
  | token :: rest =>
      if decide (token = "")
      then Some (ConfigurationError
        ("the subject " +:+ quote subject +:+ " has an empty token; remove the leading, trailing or doubled dot"))
      else if decide (token = "*" \/ token = ">")
      then Some (ConfigurationError
        ("the subject " +:+ quote subject +:+ " contains the wildcard " +:+ quote token +:+
         ", and a message cannot be published to a wildcard"))
      else bad_token subject rest
  end.

Definition validateSubject {Cause} (subject : string) : option (error Cause) :=
  if decide (subject = "")
  then Some (ConfigurationError ("the subject must not be empty; omit WithSubject to keep " +:+ quote DefaultSubject))
  else if has_space subject
  then Some (ConfigurationError ("the subject " +:+ quote subject +:+ " contains whitespace, which a NATS subject cannot"))
  else bad_token subject (NatsSink.split_dots subject).

(** [conn] says that the connection given is not nil; a nil option is skipped. *)
Definition NewBroadcaster {Cause} (conn : bool) (opts : list (option Option)) : result (error Cause) Broadcaster.t :=
  let cfg := for_each (fun opt c => match opt with Some opt => apply_option opt c | None => c end) opts
    (config.mk DefaultSubject None false) in
  if negb conn then Err (ConfigurationError "a NATS connection is required")
  else
    match validateSubject (config.subject cfg) with
    | Some err => Err err
    | None =>
        if match config.subscribeTimeout cfg with Some timeout => bool_decide (timeout <= 0)%Z | None => false end
        then Err (ConfigurationError
          "the subscribe timeout must be positive; omit WithSubscribeTimeout to keep the default")
        else Ok (Broadcaster.mk (config.subject cfg)
               (default DefaultSubscribeTimeout (config.subscribeTimeout cfg)) (config.onError cfg))
    end.

(** ** Broadcasting *)

Section broadcasting.
Context {Cause : Type} (json : SignalJson.t) (b : Broadcaster.t).

Fixpoint broadcast_each (chunks : list (list Signal.t)) : prog (call Cause) (option (error Cause)) :=
  match chunks with
  | [] => Ret None
  | chunk :: rest =>
      match EncodeSignals json chunk with
      | Err err => Ret (Some (Encoding err))
      | Ok payload =>
          do! err := Interaction.call (Publish None (Broadcaster.subject b) payload) in
          match err with
          | Some err => Ret (Some (PublishError (Broadcaster.subject b) (length chunk) (Some err)))
          | None => broadcast_each rest
          end
      end
  end.

Definition Broadcast (signals : list Signal.t) : prog (call Cause) (option (error Cause)) :=
  broadcast_each (Chunk signals MaxSignalsPerMessage).

(** ** Listening *)

(** What is returned, or [None] where the loop goes on after its turns. *)
Fixpoint receive (rounds : nat) : prog (call Cause) (option (error Cause)) :=
  match rounds with
  | 0 => Ret None
  | S rounds =>
      do! turn := Interaction.call SelectOpen in
      match turn with
      | None => do! err := Interaction.call CtxErr in Ret (Some (Context err))
      | Some payload =>
          match DecodeSignals json payload with
          | Err err =>
              do! _ := (if Broadcaster.onError b
                        then Interaction.call
                          (OnError ("nats: a message on subject " +:+ quote (Broadcaster.subject b) +:+ ": ", err))
                        else Ret tt) in
              receive rounds
          | Ok signals => do! _ := deliver_each signals in receive rounds
          end
      end
  end.

Definition confirm : prog (call Cause) (option (error Cause)) :=
  do! failed := Interaction.call (Flush (Broadcaster.subscribeTimeout b)) in
  match failed with
  | Some err =>
      do! ended := Interaction.call CtxErr in
      Ret (Some match ended with
                | Some err => Context (Some err)
                | None => Around ("nats: confirm subscription to subject " +:+ quote (Broadcaster.subject b) +:+ ": ") err
                end)
  | None => Ret None
  end.

Definition Listen (rounds : nat) (deliver ready : bool) : prog (call Cause) (option (error Cause)) :=
  if negb deliver then Ret (Some (ConfigurationError "Listen needs a deliver function"))
  else if negb ready then Ret (Some (ConfigurationError "Listen needs a ready function"))
  else
    do! refused := Interaction.call (ChanSubscribe (Broadcaster.subject b)) in
    match refused with
    | Some err => Ret (Some (Around ("nats: subscribe to subject " +:+ quote (Broadcaster.subject b) +:+ ": ") err))
    | None =>
        do! refused := confirm in
        match refused with
        | Some err => do! _ := Interaction.call Unsubscribe in Ret (Some err)
        | None =>
            do! _ := Interaction.call Ready in
            do! ended := receive rounds in
            match ended with
            | Some err => do! _ := Interaction.call Unsubscribe in Ret (Some err)
            | None => Ret None
            end
        end
    end.
End broadcasting.
End NatsBroadcast.
