(* ===== verification/BroadcastFacts.v ===== *)
(** * BroadcastFacts: what listeners hear

    A channel of a broker is the log of what was published on it.  Broadcasters and
    other listeners act between any two calls of a program; a listener may miss
    messages, and what it hears comes in the order of the log.  Shown: what a
    broadcast publishes, and that a listener delivers what was broadcast since its
    subscription was confirmed, in order, each message whole. *)

From S2P Require Import Prelude Domain Notification NotifyService Interaction Broadcast.

(** ** Chunks *)

Lemma chunked_join {A} fuel size (l : list A) : 1 <= size -> length l <= fuel -> concat (chunked fuel size l) = l.
Proof.
  intros Hs. revert l. induction fuel as [|fuel IH]; intros [|x l] Hl; cbn [length] in *; try done; [lia|].
  cbn [chunked concat]. rewrite IH, take_drop; [done|]. rewrite length_drop. cbn [length]. lia.
Qed.

Lemma chunked_sizes {A} fuel size (l : list A) : 1 <= size ->
  Forall (fun chunk => 1 <= length chunk <= size) (chunked fuel size l).
Proof.
  intros Hs. revert l. induction fuel as [|fuel IH]; intros [|x l]; cbn [chunked]; try constructor; [|apply IH].
  rewrite length_take. cbn [length]. lia.
Qed.

Lemma sublist_concat_fmap {A B} (f : A -> list B) l1 l2 : l1 `sublist_of` l2 ->
  concat (f <$> l1) `sublist_of` concat (f <$> l2).
Proof.
  induction 1 as [|x l1 l2 _ IH|x l1 l2 _ IH]; cbn; [done| |].
  - by apply sublist_app.
  - by apply sublist_app_r; exists [], (concat (f <$> l1)); split_and!; [|apply sublist_nil_l|].
Qed.

(** ** A channel and one of its listeners *)

Record World : Type := mk_world {
  log : list string;              (* what was published on the channel *)
  mine : list string;             (* what of it the program published *)
  asked : option nat;             (* where the log was when it asked to subscribe *)
  span : option (nat * nat);      (* where its subscription begins, and the next message for it *)
  cancelled : bool;
  readies : list nat;             (* where the log was when it said it was ready *)
  heard : list Signal.t;
  reports : list Report;
  open : bool
}.
#[global] Instance World_eta : Eta World := fun x =>
  mk_world (log x) (mine x) (asked x) (span x) (cancelled x) (readies x) (heard x) (reports x) (open x).

(** Others publish, and the context may end. *)
Definition others (w w' : World) : Prop :=
  exists more ended, w' = w <| log := log w ++ more |> <| cancelled := ended |> /\
    (cancelled w = true -> ended = true).

Section channel.
Context {Cause : Type} (json : SignalJson.t) (lossless : bool).

(** A listener says that it is ready once, when its subscription is confirmed, and
    delivers only then and before it unsubscribes. *)
Definition allowed X (e : call Cause X) (w : World) : Prop :=
  match e with
  | Ready => is_Some (span w) /\ readies w = [] /\ open w = true
  | Deliver _ => readies w <> [] /\ open w = true
  | _ => True
  end.

(** The subscription begins somewhere between the request and its confirmation. *)
Definition confirms (w w' : World) : Prop :=
  exists j k, asked w = Some j /\ j <= k <= length (log w) /\ w' = w <| span := Some (k, k) |>.

(** The next message it receives: the next one of the log, or a later one where the
    broker dropped some. *)
Definition receives (payload : string) (w w' : World) : Prop :=
  exists k n i, span w = Some (k, n) /\ n <= i /\ (lossless = true -> i = n) /\ log w !! i = Some payload /\
    w' = w <| span := Some (k, S i) |>.

Definition does X (e : call Cause X) : World -> X -> World -> Prop :=
  match e in call _ X return World -> X -> World -> Prop with
  | Publish _ _ payload => fun w answer w' =>
      let taken := w <| log := log w ++ [payload] |> in
      match answer with
      | None => w' = taken <| mine := mine w ++ [payload] |>
      | Some _ => w' = w \/ w' = taken
      end
  | Subscribe _ => fun w _ w' => w' = w <| asked := Some (length (log w)) |> <| open := true |>
  | ChanSubscribe _ => fun w answer w' =>
      match answer with
      | None => w' = w <| asked := Some (length (log w)) |> <| open := true |>
      | Some _ => w' = w
      end
  | Receive => fun w answer w' => match answer with Ok Confirmed => confirms w w' | _ => w' = w end
  | Flush _ => fun w answer w' => match answer with None => confirms w w' | Some _ => w' = w end
  | CtxErr => fun w answer w' => w' = w /\ (is_Some answer <-> cancelled w = true)
  | Ready => fun w _ w' => w' = w <| readies := readies w ++ [length (log w)] |>
  | Select => fun w answer w' =>
      match answer with
      | Done => cancelled w = true /\ w' = w
      | Message payload => receives payload w w'
      | Ended => w' = w
      end
  | SelectOpen => fun w answer w' =>
      match answer with
      | None => cancelled w = true /\ w' = w
      | Some payload => receives payload w w'
      end
  | OnError report => fun w _ w' => w' = w <| reports := reports w ++ [report] |>
  | Deliver signal => fun w _ w' => w' = w <| heard := heard w ++ [signal] |>
  | Unsubscribe => fun w _ w' => w' = w <| open := false |>
  end.

Definition ends {A} (p : prog (call Cause) A) (w : World) (Q : A -> World -> Prop) : Prop :=
  wp others allowed does p Q w.

(** ** What is heard *)

Definition decoded (payload : string) : list Signal.t :=
  match DecodeSignals json payload with Ok signals => signals | Err _ => [] end.

Definition stretch (k n : nat) (l : list string) : list string := take (n - k) (drop k l).

(** What a listener that is ready has done: since its subscription, which began
    before it was ready, it delivered the signals of messages of the log in their
    order, all of them where the broker drops none, and reported messages that
    cannot be read. *)
Definition listening (w : World) : Prop :=
  exists k n at_, span w = Some (k, n) /\ readies w = [at_] /\ k <= at_ <= length (log w) /\ k <= n <= length (log w) /\
    heard w `sublist_of` concat (decoded <$> stretch k n (log w)) /\
    (lossless = true -> heard w = concat (decoded <$> stretch k n (log w))) /\
    (forall report, report ∈ reports w -> exists payload, payload ∈ log w /\ DecodeSignals json payload = Err report.2).

(** It was never ready, and heard and reported nothing. *)
Definition idle (w : World) : Prop := readies w = [] /\ heard w = [] /\ reports w = [].

(** How a listener ends: unsubscribed if it returns. *)
Definition listened {E} (r : option E) (w : World) : Prop :=
  (is_Some r -> open w = false) /\ (idle w \/ listening w).

Lemma stretch_more k n l more : n <= length l -> stretch k n (l ++ more) = stretch k n l.
Proof.
  intros Hn. unfold stretch. rewrite drop_app, take_app_le; [done|]. rewrite length_drop. lia.
Qed.

Lemma stretch_next k n i p l : k <= n -> n <= i -> l !! i = Some p ->
  stretch k n l ++ [p] `sublist_of` stretch k (S i) l /\ (i = n -> stretch k (S i) l = stretch k n l ++ [p]).
Proof.
  intros Hk Hi Hp. pose proof (lookup_lt_Some _ _ _ Hp) as Hlt.
  assert (E : stretch k (S i) l = stretch k i l ++ [p]).
  { unfold stretch. replace (S i - k) with (S (i - k)) by lia. apply take_S_r. rewrite lookup_drop.
    by replace (k + (i - k)) with i by lia. }
  rewrite E. split; [|by intros ->]. apply sublist_app; [|done]. unfold stretch.
  replace (take (n - k) (drop k l)) with (take (n - k) (take (i - k) (drop k l))).
  - apply sublist_take.
  - rewrite take_take. f_equal. lia.
Qed.

Lemma others_refl w : others w w.
Proof. exists [], (cancelled w). split; [|done]. destruct w. cbn. by rewrite app_nil_r. Qed.

Lemma listening_others w w' : listening w -> others w w' -> listening w'.
Proof.
  intros (k & n & at_ & Hs & Hr & Hat & Hn & Hsub & Hall & Hrep) (more & ended & -> & _).
  exists k, n, at_. cbn. rewrite length_app, stretch_more by lia. split_and!; try done; try lia.
  intros report Hin. destruct (Hrep report Hin) as (payload & Hp & E). exists payload. split; [|done]. set_solver.
Qed.

Lemma idle_others w w' : idle w -> others w w' -> idle w'.
Proof. intros (H1 & H2 & H3) (more & ended & -> & _). done. Qed.

Lemma listener_then {A B} (p : prog (call Cause) A) (k : A -> prog (call Cause) B) w Q :
  ends p w (fun a w' => ends (k a) w' Q) -> ends (bind p k) w Q.
Proof. apply wp_bind. Qed.

Lemma listener_weaken {A} (p : prog (call Cause) A) w (Q1 Q2 : A -> World -> Prop) :
  ends p w Q1 -> (forall a w', Q1 a w' -> Q2 a w') -> ends p w Q2.
Proof. intros H HQ. by eapply wp_mono; [|exact H]. Qed.

(** *** Messages *)

Lemma ends_deliver signals : forall w Q, readies w <> [] -> open w = true ->
  (forall w', others (w <| heard := heard w ++ signals |>) w' -> Q tt w') -> ends (deliver_each signals) w Q.
Proof.
  induction signals as [|x signals IH]; intros w Q Hr Ho HQ.
  - apply HQ. rewrite app_nil_r. destruct w. apply others_refl.
  - intros w1 (more & ended & -> & Hend). split; [done|]. intros [] w2 ->. cbn [upd].
    apply IH; [done..|]. intros w3 (more2 & ended2 & -> & Hend2). apply HQ. cbn in Hend2 |- *.
    exists (more ++ more2), ended2. cbn. rewrite <- !app_assoc. split; [done|]. auto.
Qed.

(** A message received and handled leaves a listener listening. *)
Lemma listening_heard payload w w1 w' signals : listening w -> receives payload w w1 ->
  DecodeSignals json payload = Ok signals -> others (w1 <| heard := heard w1 ++ signals |>) w' -> listening w'.
Proof.
  intros (k & n & at_ & Hs & Hr & Hat & Hn & Hsub & Hall & Hrep) (k' & n' & i & Hs' & Hi & Hl & Hp & ->) Hd Ho.
  rewrite Hs in Hs'. injection Hs' as <- <-. eapply listening_others; [|exact Ho].
  pose proof (lookup_lt_Some _ _ _ Hp) as Hlt. destruct (stretch_next k n i payload (log w)) as [H1 H2]; [lia|done|done|].
  assert (Hone : decoded payload = signals) by (unfold decoded; by rewrite Hd).
  exists k, (S i), at_. cbn. split_and!; try done; try lia.
  - etrans; [apply sublist_app; [exact Hsub|reflexivity]|].
    replace (concat (decoded <$> stretch k n (log w)) ++ signals)
      with (concat (decoded <$> (stretch k n (log w) ++ [payload]))).
    + apply sublist_concat_fmap. done.
    + rewrite fmap_app, concat_app. cbn. by rewrite Hone, app_nil_r.
  - intros Hless. rewrite (H2 (Hl Hless)), (Hall Hless), fmap_app, concat_app. cbn. by rewrite Hone, app_nil_r.
Qed.

Lemma listening_unreadable payload w w1 e told : listening w -> receives payload w w1 ->
  DecodeSignals json payload = Err e -> (forall report, report ∈ told -> report.2 = e) ->
  listening (w1 <| reports := reports w1 ++ told |>).
Proof.
  intros (k & n & at_ & Hs & Hr & Hat & Hn & Hsub & Hall & Hrep) (k' & n' & i & Hs' & Hi & Hl & Hp & ->) Hd Htold.
  rewrite Hs in Hs'. injection Hs' as <- <-.
  pose proof (lookup_lt_Some _ _ _ Hp) as Hlt. destruct (stretch_next k n i payload (log w)) as [H1 H2]; [lia|done|done|].
  assert (Hsame : forall l, concat (decoded <$> (l ++ [payload])) = concat (decoded <$> l)).
  { intros l. rewrite fmap_app, concat_app. cbn. unfold decoded at 2. by rewrite Hd, !app_nil_r. }
  exists k, (S i), at_. cbn. split_and!; try done; try lia.
  - etrans; [exact Hsub|]. rewrite <- Hsame. by apply sublist_concat_fmap.
  - intros Hless. by rewrite (H2 (Hl Hless)), (Hall Hless), Hsame.
  - intros report [Hin|Hin]%elem_of_app; [by apply Hrep|]. exists payload. rewrite (Htold _ Hin).
    split; [|done]. by eapply list_elem_of_lookup_2.
Qed.

(** What a turn of a loop makes of a message. *)
Definition handled {A} (onError : bool) (prefix payload : string) (rest : prog (call Cause) A) : prog (call Cause) A :=
  match DecodeSignals json payload with
  | Err err => do! _ := (if onError then Interaction.call (OnError (prefix, err)) else Ret tt) in rest
  | Ok signals => do! _ := deliver_each signals in rest
  end.

Lemma ends_handled {A} onError prefix payload (rest : prog (call Cause) A) w w1 Q :
  listening w -> open w = true -> receives payload w w1 ->
  (forall w', listening w' -> open w' = true -> ends rest w' Q) ->
  ends (handled onError prefix payload rest) w1 Q.
Proof.
  intros Hw Ho Hrec Hk. unfold handled.
  assert (H1 : readies w1 <> [] /\ open w1 = true).
  { destruct Hw as (k & n & at_ & _ & Hr & _), Hrec as (k' & n' & i & _ & _ & _ & _ & ->). cbn. by rewrite Hr. }
  destruct H1 as [Hr1 Ho1]. destruct (DecodeSignals json payload) as [signals|e] eqn:Hd.
  - apply listener_then, ends_deliver; [done..|]. intros w' Hoth. apply Hk; [by eapply listening_heard|].
    by destruct Hoth as (more & ended & -> & _).
  - destruct onError.
    + intros w2 Hoth. split; [done|]. intros [] w3 ->. apply Hk; [|by destruct Hoth as (more & ended & -> & _)].
      assert (Hnow := listening_unreadable payload w w1 e [(prefix, e)] Hw Hrec Hd ltac:(by intros ? ->%list_elem_of_singleton)).
      apply (listening_others _ (w2 <| reports := reports w2 ++ [(prefix, e)] |>)) in Hnow; [done|].
      destruct Hoth as (more & ended & -> & Hend). by exists more, ended.
    + apply Hk; [|done]. assert (Hnow := listening_unreadable payload w w1 e [] Hw Hrec Hd ltac:(by intros ? ?%elem_of_nil)).
      destruct w1. cbn in Hnow. by rewrite app_nil_r in Hnow.
Qed.

(** A listener whose subscription was confirmed, and the loop of its turns. *)
Lemma ends_listening {E} (confirmed receive_ : prog (call Cause) (option E)) w j :
  asked w = Some j -> idle w -> open w = true ->
  ends confirmed w (fun r w' => idle w' /\ open w' = true /\
    (r = None -> exists k, span w' = Some (k, k) /\ k <= length (log w'))) ->
  (forall w', listening w' -> open w' = true -> ends receive_ w' (fun _ w'' => listening w'')) ->
  ends (do! refused := confirmed in
        match refused with
        | Some err => do! _ := Interaction.call Unsubscribe in Ret (Some err)
        | None =>
            do! _ := Interaction.call Ready in
            do! ended := receive_ in
            match ended with
            | Some err => do! _ := Interaction.call Unsubscribe in Ret (Some err)
            | None => Ret None
            end
        end) w listened.
Proof.
  intros Hj Hidle Hopen Hconf Hrec. apply listener_then. eapply listener_weaken; [exact Hconf|].
  intros [err|] w1 (Hi & Ho & Hk).
  - intros w2 Hoth. split; [done|]. intros [] w3 ->. split; [done|]. left. by eapply (idle_others w1 w2).
  - destruct (Hk eq_refl) as (k & Hs & Hlen). intros w2 (more & ended & -> & _). destruct Hi as (Hr & Hh & Hp).
    split; [cbn; by rewrite Hs|]. intros [] w3 ->. cbn [bind]. apply listener_then. eapply listener_weaken.
    + apply Hrec; [|done]. exists k, k, (length (log w1 ++ more)). cbn. rewrite Hr, Hh, Hp. unfold stretch.
      rewrite Nat.sub_diag, length_app. cbn. split_and!; try done; try lia. by intros ? ?%elem_of_nil.
    + intros [err|] w4 Hw4; [|by split; [intros [? [=]]|right] ].
      intros w5 Hoth. split; [done|]. intros [] w6 ->. split; [done|]. right. by eapply (listening_others w4 w5).
Qed.

(** ** The listeners *)

(** Before it listens. *)
Definition fresh (w : World) : Prop := span w = None /\ idle w /\ open w = false.

Lemma redis_receive b rounds : forall w, listening w -> open w = true ->
  ends (RedisBroadcast.receive json b rounds) w (fun _ w' => listening w').
Proof.
  induction rounds as [|rounds IH]; intros w Hw Ho; [exact Hw|].
  intros w1 Hoth. split; [done|]. intros turn w2 Hturn.
  assert (Hw1 : listening w1) by (by eapply listening_others).
  assert (Ho1 : open w1 = true) by (by destruct Hoth as (more & ended & -> & _)).
  destruct turn as [|payload|]; cbn [does] in Hturn.
  - destruct Hturn as [_ ->]. intros w3 Hoth3. split; [done|]. intros err w4 [-> _]. by eapply listening_others.
  - exact (ends_handled _ _ _ _ _ _ _ Hw1 Ho1 Hturn IH).
  - by subst w2.
Qed.

Lemma nats_receive b rounds : forall w, listening w -> open w = true ->
  ends (NatsBroadcast.receive json b rounds) w (fun _ w' => listening w').
Proof.
  induction rounds as [|rounds IH]; intros w Hw Ho; [exact Hw|].
  intros w1 Hoth. split; [done|]. intros [payload|] w2 Hturn; cbn [does] in Hturn.
  - assert (Hw1 : listening w1) by (by eapply listening_others).
    assert (Ho1 : open w1 = true) by (by destruct Hoth as (more & ended & -> & _)).
    exact (ends_handled _ _ _ _ _ _ _ Hw1 Ho1 Hturn IH).
  - destruct Hturn as [_ ->]. intros w3 Hoth3. split; [done|]. intros err w4 [-> _].
    eapply listening_others; [|exact Hoth3]. by eapply listening_others.
Qed.

Lemma kept w w' : idle w -> open w = true -> others w w' -> idle w' /\ open w' = true.
Proof. intros Hi Ho Hoth. split; [by eapply idle_others|]. by destruct Hoth as (more & ended & -> & _). Qed.

Lemma redis_confirmed b w : idle w -> open w = true ->
  ends (RedisBroadcast.confirmed b) w (fun r w' => idle w' /\ open w' = true /\
    (r = None -> exists k, span w' = Some (k, k) /\ k <= length (log w'))).
Proof.
  intros Hi Ho w1 Hoth. destruct (kept w w1 Hi Ho Hoth) as [Hi1 Ho1]. split; [done|].
  intros [ [|type]|err] w2 Hd; cbn [does] in Hd.
  - destruct Hd as (j & k & _ & Hk & ->). split; [done|]. split; [done|]. intros _. exists k. cbn. split; [done|lia].
  - subst w2. split; [done|]. split; [done|]. intros [=].
  - subst w2. intros w3 Hoth3. destruct (kept w1 w3 Hi1 Ho1 Hoth3) as [Hi3 Ho3]. split; [done|].
    intros ended w4 [-> _]. split; [done|]. split; [done|]. intros [=].
Qed.

Lemma nats_confirmed b w : idle w -> open w = true ->
  ends (NatsBroadcast.confirm b) w (fun r w' => idle w' /\ open w' = true /\
    (r = None -> exists k, span w' = Some (k, k) /\ k <= length (log w'))).
Proof.
  intros Hi Ho w1 Hoth. destruct (kept w w1 Hi Ho Hoth) as [Hi1 Ho1]. split; [done|].
  intros [err|] w2 Hd; cbn [does] in Hd.
  - subst w2. intros w3 Hoth3. destruct (kept w1 w3 Hi1 Ho1 Hoth3) as [Hi3 Ho3]. split; [done|].
    intros ended w4 [-> _]. split; [done|]. split; [done|]. intros [=].
  - destruct Hd as (j & k & _ & Hk & ->). split; [done|]. split; [done|]. intros _. exists k. cbn. split; [done|lia].
Qed.

(** Asking to subscribe changes nothing but that. *)
Lemma subscribed w w1 : fresh w -> others w w1 ->
  fresh w1 /\ idle (w1 <| asked := Some (length (log w1)) |> <| open := true |>).
Proof. intros (Hs & Hi & Ho) (more & ended & -> & _). done. Qed.

Lemma redis_listens b rounds w : fresh w -> ends (RedisBroadcast.Listen json b rounds true true) w listened.
Proof.
  intros Hw w1 Hoth. destruct (subscribed w w1 Hw Hoth) as [ (Hs & Hi & Ho) Hidle]. split; [done|].
  intros [] w2 ->. by eapply ends_listening; [| |done|by apply redis_confirmed|by apply redis_receive].
Qed.

Lemma nats_listens b rounds w : fresh w -> ends (NatsBroadcast.Listen json b rounds true true) w listened.
Proof.
  intros Hw w1 Hoth. destruct (subscribed w w1 Hw Hoth) as [ (Hs & Hi & Ho) Hidle]. split; [done|].
  intros [err|] w2 Hd; cbn [does] in Hd; subst w2; [by split; [|left]|].
  by eapply ends_listening; [| |done|by apply nats_confirmed|by apply nats_receive].
Qed.

(** ** The broadcasters *)

Lemma Chunk_max {A} (l : list A) : let chunks := Chunk l 500 in
  concat chunks = l /\ Forall (fun chunk => 1 <= length chunk <= 500) chunks.
Proof. split; [apply chunked_join; lia|apply chunked_sizes; lia]. Qed.

(** What a broadcast published of its chunks, and why not the rest: the first of
    them did not encode, or the client failed to publish it. *)
Definition published {E} (failure : list Signal.t -> Cause -> E) (encoding : CodecError -> E)
    (before : list string) (chunks : list (list Signal.t)) (r : option E) (w : World) : Prop :=
  exists sent payloads, mine w = before ++ payloads /\
    Forall2 (fun chunk payload => EncodeSignals json chunk = Ok payload) sent payloads /\
    match r with
    | None => chunks = sent
    | Some e => exists chunk rest, chunks = sent ++ chunk :: rest /\
        ((exists cause, e = failure chunk cause) \/ (exists err, EncodeSignals json chunk = Err err /\ e = encoding err))
    end.

Lemma published_more {E} failure encoding before chunk payload chunks (r : option E) w :
  EncodeSignals json chunk = Ok payload ->
  published failure encoding (before ++ [payload]) chunks r w -> published failure encoding before (chunk :: chunks) r w.
Proof.
  intros He (sent & payloads & Hm & Hall & Hr). exists (chunk :: sent), (payload :: payloads).
  split; [by rewrite Hm, <- app_assoc|]. split; [by constructor|].
  destruct r as [e|]; [|by subst]. destruct Hr as (c & rest & -> & H). by exists c, rest.
Qed.

Lemma published_none {E} failure encoding before (w : World) : mine w = before ->
  published (E := E) failure encoding before [] None w.
Proof. intros <-. exists [], []. rewrite app_nil_r. by split_and!. Qed.

Lemma ends_published {E} failure encoding timeout subject chunk chunks (rest : prog (call Cause) (option E)) before w :
  mine w = before ->
  (forall payload w', mine w' = before ++ [payload] ->
     ends rest w' (published failure encoding (before ++ [payload]) chunks)) ->
  ends (match EncodeSignals json chunk with
        | Err err => Ret (Some (encoding err))
        | Ok payload =>
            do! err := Interaction.call (Publish timeout subject payload) in
            match err with
            | Some err => Ret (Some (failure chunk err))
            | None => rest
            end
        end) w (published failure encoding before (chunk :: chunks)).
Proof.
  intros Hm Hrest.
  assert (Hnone : forall (w' : World) e, mine w' = before ->
    ((exists cause, e = failure chunk cause) \/ (exists err, EncodeSignals json chunk = Err err /\ e = encoding err)) ->
    published failure encoding before (chunk :: chunks) (Some e) w').
  { intros w' e Hm' He. exists [], []. rewrite app_nil_r. split_and!; [done|constructor|]. by exists chunk, chunks. }
  destruct (EncodeSignals json chunk) as [payload|err] eqn:He; [|by apply Hnone; [|right; exists err]].
  intros w1 (more & ended & -> & _). split; [done|]. intros [cause|] w2 Hd; cbn [does] in Hd.
  - apply Hnone; [by destruct Hd as [-> | ->]|]. left. by exists cause.
  - subst w2. eapply listener_weaken; [apply (Hrest payload); cbn; by rewrite Hm|]. intros r w'. by apply published_more.
Qed.

Lemma redis_broadcasts b chunks : forall before w, mine w = before ->
  ends (RedisBroadcast.broadcast_each json b chunks) w
    (published (fun chunk cause => RedisBroadcast.PublishError (RedisBroadcast.Broadcaster.channel b) (length chunk) (Some cause))
       RedisBroadcast.Encoding before chunks).
Proof.
  induction chunks as [|chunk chunks IH]; intros before w Hm; [by apply published_none|].
  exact (ends_published (fun chunk cause => RedisBroadcast.PublishError _ (length chunk) (Some cause)) RedisBroadcast.Encoding
    (Some (RedisBroadcast.Broadcaster.timeout b)) _ chunk chunks _ before w Hm (fun payload w' => IH (before ++ [payload]) w')).
Qed.

Lemma nats_broadcasts b chunks : forall before w, mine w = before ->
  ends (NatsBroadcast.broadcast_each json b chunks) w
    (published (fun chunk cause => NatsBroadcast.PublishError (NatsBroadcast.Broadcaster.subject b) (length chunk) (Some cause))
       NatsBroadcast.Encoding before chunks).
Proof.
  induction chunks as [|chunk chunks IH]; intros before w Hm; [by apply published_none|].
  exact (ends_published (fun chunk cause => NatsBroadcast.PublishError _ (length chunk) (Some cause)) NatsBroadcast.Encoding
    None _ chunk chunks _ before w Hm (fun payload w' => IH (before ++ [payload]) w')).
Qed.

(** ** The codec *)

(** A signal as it is read elsewhere: to the microsecond. *)
Definition carried (signal : Signal.t) : Signal.t :=
  Signal.mk (Signal.Recipient signal) (Signal.Change_ signal) (normalizeTime (Signal.At signal)).

Lemma normalizeTime_twice t : normalizeTime (normalizeTime t) = normalizeTime t.
Proof. unfold normalizeTime. rewrite Zminus_mod_idemp_r, Z.sub_diag, Z.mod_0_l, Z.sub_0_r; [done|]. unfold Microsecond. lia. Qed.

Lemma decode_encode signals payload :
  (forall m payload, SignalJson.Marshal json m = Ok payload -> SignalJson.Unmarshal json payload = Ok m) ->
  EncodeSignals json signals = Ok payload -> DecodeSignals json payload = Ok (carried <$> signals).
Proof.
  intros Hjson. unfold EncodeSignals, DecodeSignals. destruct (SignalJson.Marshal json _) as [encoded|] eqn:E; [|done].
  intros [= <-]. rewrite (Hjson _ _ E). cbn [signalMessage.Version signalMessage.Signals].
  rewrite decide_False by tauto. f_equal. rewrite <- list_fmap_compose. apply list_fmap_ext. intros i x _.
  unfold compose, carried. cbn. by rewrite normalizeTime_twice.
Qed.

(** On a channel that carries only broadcasts nothing is reported. *)
Lemma nothing_reported w : listening w -> (forall payload, payload ∈ log w -> is_ok (DecodeSignals json payload) = true) ->
  reports w = [].
Proof.
  intros (k & n & at_ & _ & _ & _ & _ & _ & _ & Hrep) Hlog. destruct (reports w) as [|report l] eqn:E; [done|].
  destruct (Hrep report) as (payload & Hin & He); [left|]. specialize (Hlog payload Hin). by rewrite He in Hlog.
Qed.
End channel.


(** ** A listener and a broadcast at work *)

Module BroadcastExamples.
Definition created : Signal.t := Signal.mk "ann" ChangeCreated 63871200000123456789.
Definition message : signalMessage.t :=
  signalMessage.mk 1 [wireSignal.mk "ann" ChangeCreated 63871200000123456000].

#[global] Instance wireSignal_eq_dec : EqDecision wireSignal.t.
Proof. intros [r1 c1 t1] [r2 c2 t2]. unfold Decision. destruct (decide ((r1, c1, t1) = (r2, c2, t2)));
  [left; congruence|right; congruence]. Defined.
#[global] Instance signalMessage_eq_dec : EqDecision signalMessage.t.
Proof. solve_decision. Defined.

(** A codec that knows one message. *)
Definition json : SignalJson.t := SignalJson.mk
  (fun m => if decide (m = message) then Ok "{}" else Err "not known")
  (fun s => if decide (s = "{}") then Ok message else Err "not known").

Lemma json_reads_back m payload : SignalJson.Marshal json m = Ok payload -> SignalJson.Unmarshal json payload = Ok m.
Proof.
  change (SignalJson.Marshal json m) with (if decide (m = message) then Ok (E := string) "{}" else Err "not known").
  destruct (decide (m = message)) as [E|]; intros H; [|discriminate H]. injection H as <-. rewrite E.
  vm_compute. reflexivity.
Qed.

Definition broadcaster : RedisBroadcast.Broadcaster.t := RedisBroadcast.Broadcaster.mk "notify.signals" 5000000000 true.
Definition idle_world : World := mk_world ["{}"] [] None None false [] [] [] false.

(** A broker that answers: it subscribes, and has one message that is not read and
    one that is. *)
Definition answer X (e : call string X) (script : list Turn * list Signal.t) : X * (list Turn * list Signal.t) :=
  match e in call _ X return X * (list Turn * list Signal.t) with
  | Publish _ _ _ => (None, script)
  | Subscribe _ => (tt, script)
  | ChanSubscribe _ => (None, script)
  | Receive => (Ok Confirmed, script)
  | Flush _ => (None, script)
  | CtxErr => (Some "context canceled", script)
  | Ready => (tt, script)
  | Select => (default Done (head script.1), (tail script.1, script.2))
  | SelectOpen => (None, script)
  | OnError _ => (tt, script)
  | Deliver s => (tt, (script.1, script.2 ++ [s]))
  | Unsubscribe => (tt, script)
  end.
End BroadcastExamples.
Import BroadcastExamples.


Lemma a_listener_at_work :
  run answer (RedisBroadcast.Listen json broadcaster 3 true true) ([Message "?"; Message "{}"], []) =
  (Some (RedisBroadcast.Context (Some "context canceled")), ([], [Signal.mk "ann" ChangeCreated 63871200000123456000])).
Proof. vm_compute. reflexivity. Qed.
