(* ===== verification/Ticker.v ===== *)
(** * Ticker: passes on a ticker

    Models the loops [Run] of the sweeper ([sweep.go]), the relay
    ([relay/relay.go]), the pruner ([notify/pruner.go]) and the email dispatcher
    ([notify/email_dispatcher.go]).  A loop is a program whose calls are the pass
    itself, the context, the host's error handler and the select between the
    context and the ticker; [rounds] is how many passes are looked at.  The errors
    are those of each package, the type [E].

    Shown: a loop makes a pass at once, reports every pass that failed and goes on;
    it ends with the error of its context, and only when that has ended. *)

From S2P Require Import Prelude Interaction.

Inductive TickCall (E : Type) : Type -> Type :=
| RunPass : TickCall E (option E)
| CtxErr : TickCall E (option E)
| OnError (err : E) : TickCall E unit
| Await : TickCall E bool.               (* whether the context is done, or the ticker ticked *)
Arguments RunPass {E}.
Arguments CtxErr {E}.
Arguments OnError {E} err.
Arguments Await {E}.

(** How a loop ends: with an error, or nil where its context gives none. *)
Inductive Ending (E : Type) : Type :=
| Returned (err : option E)
| Running.
Arguments Returned {E} err.
Arguments Running {E}.

Section run.
Context {E : Type} (ConfigurationError : string -> E).

Fixpoint ticking (rounds : nat) : prog (TickCall E) (Ending E) :=
  match rounds with
  | 0 => Ret Running
  | S rounds =>
      let await :=
        do! (done : bool) := call Await in
        if done then do! err := call CtxErr in Ret (Returned err) else ticking rounds in
      do! failed := call RunPass in
      match failed with
      | None => await
      | Some err =>
          do! ended := call CtxErr in
          match ended with
          | Some err => Ret (Returned (Some err))
          | None => do! _ := call (OnError err) in await
          end
      end
  end.

Definition run_every (what : string) (interval : Z) (rounds : nat) : prog (TickCall E) (Ending E) :=
  if decide (interval <= 0)%Z
  then Ret (Returned (Some (ConfigurationError (what +:+ " interval must be positive"))))
  else ticking rounds.

Definition Sweeper_Run (interval : Z) (rounds : nat) : prog (TickCall E) (Ending E) :=
  run_every "a sweep" interval rounds.
Definition Relay_Run (interval : Z) (rounds : nat) : prog (TickCall E) (Ending E) :=
  run_every "a relay" interval rounds.
Definition Pruner_Run (interval : Z) (rounds : nat) : prog (TickCall E) (Ending E) :=
  run_every "a prune" interval rounds.
Definition EmailDispatcher_Run (interval : Z) (rounds : nat) : prog (TickCall E) (Ending E) :=
  run_every "an email dispatch" interval rounds.

(** ** What a loop does *)

Record World : Type := mk_world {
  passes : list (option E);      (* the passes made, with the errors they ended with *)
  reported : list E;
  ended : option E               (* the error of the context, once it has ended *)
}.

(** The context may end at any time, for good. *)
Definition ends_on (w w' : World) : Prop :=
  w' = w \/ (ended w = None /\ exists e, w' = mk_world (passes w) (reported w) (Some e)).

Definition any_call X (e : TickCall E X) (w : World) : Prop := True.

Definition does X (e : TickCall E X) : World -> X -> World -> Prop :=
  match e in TickCall _ X return World -> X -> World -> Prop with
  | RunPass => fun w answer w' => w' = mk_world (passes w ++ [answer]) (reported w) (ended w)
  | CtxErr => fun w answer w' => answer = ended w /\ w' = w
  | OnError err => fun w _ w' => w' = mk_world (passes w) (reported w ++ [err]) (ended w)
  | Await => fun w done w' => w' = w /\ (done = true -> is_Some (ended w))
  end.

(** The errors of the passes. *)
Definition failures (w : World) : list E := omap id (passes w).

(** How [rounds] turns end, from a world in which every failure was reported. *)
Definition kept_on (rounds : nat) (made : nat) (r : Ending E) (w : World) : Prop :=
  match r with
  | Running => length (passes w) = made + rounds /\ reported w = failures w
  | Returned err => is_Some err /\ err = ended w /\ made < length (passes w) <= made + rounds /\
      (reported w = failures w \/ exists last, failures w = reported w ++ [last])
  end.

Lemma ends_on_facts w w' : ends_on w w' ->
  passes w' = passes w /\ reported w' = reported w /\ (forall e, ended w = Some e -> ended w' = Some e).
Proof. intros [-> | [Hn (e & ->)] ]; split_and!; try done. intros e'. by rewrite Hn. Qed.

Lemma ticking_keeps_on rounds : forall w, reported w = failures w ->
  wp ends_on any_call does (ticking rounds) (kept_on rounds (length (passes w))) w.
Proof.
  induction rounds as [|rounds IH]; intros w Hw; cbn [ticking].
  { split; [lia|done]. }
  assert (Hawait : forall w1, reported w1 = failures w1 -> length (passes w1) = S (length (passes w)) ->
    wp ends_on any_call does
      (do! (done : bool) := call Await in if done then do! err := call CtxErr in Ret (Returned err) else ticking rounds)
      (kept_on (S rounds) (length (passes w))) w1).
  { intros w1 Hr1 Hp1 w2 (Hp2 & Hr2 & _)%ends_on_facts. split; [done|].
    assert (Hw2 : reported w2 = failures w2) by (unfold failures; by rewrite Hr2, Hp2, Hr1).
    intros done w3 [-> Hdone]. destruct done; cbn [bind].
    - destruct (Hdone eq_refl) as [e He]. intros w4 (Hp4 & Hr4 & Hk4)%ends_on_facts. split; [exact I|].
      intros err w5 [-> ->]. split_and!; [exists e; by apply Hk4|done|rewrite Hp4, Hp2; lia|rewrite Hp4, Hp2; lia|].
      left. unfold failures in *. by rewrite Hr4, Hp4.
    - eapply wp_mono; [|by apply IH]. rewrite Hp2, Hp1. intros [err|] w4; cbn [kept_on]; [|intros [H1 H2]; split; [lia|done]].
      intros (H1 & H2 & H3 & H4). split_and!; try done; lia. }
  intros w1 (Hp1 & Hr1 & _)%ends_on_facts. split; [done|]. intros failed w2 ->. cbn [bind].
  assert (Hmade : length (passes w1 ++ [failed]) = S (length (passes w))) by (rewrite length_app, Hp1; cbn; lia).
  assert (Hf : failures (mk_world (passes w1 ++ [failed]) (reported w1) (ended w1)) =
    reported w1 ++ match failed with Some err => [err] | None => [] end).
  { unfold failures. cbn. rewrite omap_app. unfold failures in Hw. rewrite Hp1, Hr1, Hw. by destruct failed. }
  destruct failed as [err|]; cbn [bind].
  - intros w3 (Hp3 & Hr3 & _)%ends_on_facts. split; [done|]. intros answer w4 [-> ->]. cbn [passes reported] in Hp3, Hr3.
    assert (Hf3 : failures w3 = reported w3 ++ [err]) by (unfold failures in *; cbn in Hf; by rewrite Hp3, Hf, Hr3).
    destruct (ended w3) as [e|] eqn:He.
    + split_and!; [done|done|rewrite Hp3; lia|rewrite Hp3; lia|]. right. by exists err.
    + intros w5 (Hp5 & Hr5 & _)%ends_on_facts. split; [done|]. intros [] w6 ->. cbn [bind]. apply Hawait; cbn.
      * unfold failures in *. cbn. by rewrite Hp5, Hr5, Hf3.
      * by rewrite Hp5, Hp3.
  - apply Hawait; [|exact Hmade]. rewrite Hf. by rewrite app_nil_r.
Qed.

(** A loop reports every pass that failed, but for the one its context ended in,
    never ends because of one, and ends with its context's error. *)
Theorem loop_goes_on what interval rounds w : (0 < interval)%Z -> reported w = failures w ->
  wp ends_on any_call does (run_every what interval rounds) (kept_on rounds (length (passes w))) w.
Proof. intros Hi Hw. unfold run_every. rewrite decide_False by lia. by apply ticking_keeps_on. Qed.
End run.
